(* ===== verification/_CoqProject ===== *)
-Q . S2P
Prelude.v
GoNet.v
GoText.v
GoIO.v
GoHash.v
GoSha256.v
GoNetip.v
GoFloat.v
Stun.v
TurnProto.v
StunConn.v
Allocation.v
TurnServer.v
TurnConfig.v
ReplayDetector.v
Deadline.v
PacketBuffer.v
VnetChunk.v
VnetConnMap.v
VnetNat.v
VnetNatTheorems.v
JitterBuffer.v
SampleBuilder.v
SampleRing.v
SampleWindow.v
SamplePush.v
SampleInvariant.v
SamplePop.v
SampleTheorems.v
MediaIvf.v
MediaRtpDump.v
MediaOgg.v
MediaH264.v
TurnClient.v
IceCandidate.v
IceAttr.v
IceAgent.v
IceInvariant.v
IceSteps.v
IceTheorems.v
IceTcp.v
IceTcpConn.v
IceTcpMux.v
TurnTcp.v
WsMask.v
WsWrite.v
WsStream.v
WsRead.v
WsMessages.v
WsPrepared.v
WsTokens.v
WsHandshake.v
Operations.v
Signaling.v
LkAuth.v
LkAuthClone.v
LkSip.v
LkSipTheorems.v
LkGuid.v
LkRate.v
LkSyncTrack.v
LkSync.v
LkSyncTheorems.v
ZitiIdentity.v
ZitiEnroll.v
App.v
LkTimedVersion.v
LkBitmap.v
LkTimeoutQueue.v
LkGraph.v
LkGraphSort.v
LkGraphPath.v
