(* ===== verification/Prelude.v ===== *)
(** * Relaying, connectivity, signalling and buffering of ziti-livekit-example

    The repository runs LiveKit over an OpenZiti overlay: it vendors, under
    src/lib, its own forks of pion's TURN, ICE, WebRTC and transport
    libraries, of LiveKit's server and of its Go SDK, whose sockets are
    replaced by Ziti ones.  Media and signalling reach a participant through a
    few pieces of core logic, which this library models and verifies:

    - the TURN relay (src/lib/pion-turn), server and client side;
    - the ICE candidates and the ICE agent, which find a path between two
      participants (src/lib/pion-ice);
    - the offer/answer state of a peer connection and the executor of its
      operations (src/lib/pion-webrtc);
    - the packet buffers and the replay protection the transports put
      received packets through, and the address translator and socket table
      of the virtual network (src/lib/pion-transport);
    - the WebSocket connection that carries the signalling messages
      (src/lib/websocket);
    - the jitter buffer and the sample builder that put RTP packets back in
      order and into frames for a consumer of the SDK, and the synchronizer that
      gives them presentation times
      (src/lib/livekit-server-sdk/pkg/jitter, pkg/samplebuilder and pkg/synchronizer);
    - data structures of the LiveKit protocol library
      (src/lib/livekit-protocol/utils): a bit map, a queue of timeouts, version
      numbers, a graph, identifiers, a leaky bucket and a list without duplicates;
    - the tokens that let a participant into a room
      (src/lib/livekit-protocol/auth), and the rules for callers who come in by
      telephone (src/lib/livekit-protocol/sip);
    - the enrolment, the sessions and the identities of OpenZiti
      (src/lib/openziti), and the two programs that use all this
      (src/publisher, src/subscriber).

    ** How the parts interact

    A datagram, or a frame cut out of a TCP stream by [STUNConn], reaches
    [HandleRequest].  That function tells ChannelData from STUN messages,
    authenticates requests, and creates, refreshes and deletes allocations,
    permissions and channel bindings through the allocation [Manager].  Data
    from a peer arrives at an allocation's relay socket and is passed on by
    [packetHandler].  On the client, a [UDPConn] creates the permissions and
    bindings it needs on the first write to a peer, over the transactions of
    [Client].  The relayed addresses are candidates of an ICE [Agent] beside the
    host's own; the agent pairs them with the peer's, checks the pairs with
    STUN requests, nominates one, and supervises it.  What the peers have to
    know of each other travels in the offers and answers of a
    [PeerConnection], whose slow work goes through an [operations] queue.  Tests
    of all this run over the virtual network, whose routers translate addresses.
    Packets that have arrived wait in a packetio [Buffer], encrypted
    ones pass a replay detector, and RTP packets wait in the jitter buffer or
    the sample builder; a recorder asks the synchronizer for their presentation
    times, which sender reports correct.
    Signalling messages are cut into frames by the message writer of a
    WebSocket [Conn], which masks them on the client's side, and put together
    again by [NextReader] and the reader it returns on the other side.
    Both programs connect the overlay first, so that the WebSocket library
    dials through it, then make themselves a token and join the room.

    ** The files

    - [Prelude] (this file): results of fallible Go calls, machine integers,
      byte strings and big-endian numbers, durations, tactics, hint databases
      and lemmas about lists that the components share.
    - [GoNet]: net.IP and net.Addr of Go's standard library as used here,
      with IP and endpoint printing; internal/ipnet/util.go;
      internal/proto/addr.go ([ProtoAddr]); the 5-tuple and its fingerprint
      (internal/allocation/five_tuple.go).
    - [Stun]: what the code calls of github.com/pion/stun, which is not part
      of the repository: the class [StunMessage] of its operations, the class
      [StunMessageLaws] of its documented behaviour, and [ListMessage], an
      instance that satisfies them.
    - [TurnProto]: internal/proto.  [ChannelNumber], [ChannelData] and one
      [AddTo]/[GetFrom] pair per TURN attribute; [AttrCodec] and
      [AttrCodecLaws] state what an attribute promises its users.
    - [StunConn]: stun_conn.go, and the slice [Server.readLoop] takes.
    - [Allocation]: internal/allocation.  Permissions, channel bindings,
      allocations, the manager, the relay's packet handler; [rstep], the calls
      that the server makes for one client, and [mstep], the steps of clients,
      timers and failing sockets.  What else the server does to its environment
      is the class [OtherIO].
    - [TurnServer]: internal/server.  Nonces and authentication, one handler
      per message, the dispatch, and [sstep], the server's step relation.
    - [TurnConfig]: what a server is configured with: the relay address
      generators, the checks of server_config.go, and the time-windowed
      credentials of lt_cred.go.
    - [ReplayDetector]: replaydetector.  The fixed-size bit set
      [FixedBigInt], the sliding-window detector and [Wrapped], the one for
      numbers that wrap around.
    - [Deadline]: deadline/deadline.go, and [dstep], the interleavings of
      [Set] with the callbacks of the deadline's timer; [bounded] are those with
      at most 255 callbacks outstanding, as many as the counter holds.
    - [PacketBuffer]: packetio/buffer.go, and [bstep], the interleavings of
      any number of readers, of writers, of closers and of the read deadline.
    - [VnetChunk]: vnet/chunk.go and chunk_queue.go, with the parsing of
      endpoints (net.SplitHostPort, net.ResolveUDPAddr) they use.
    - [VnetConnMap]: vnet/conn_map.go, the sockets bound to a virtual host.
    - [VnetNat], [VnetNatTheorems]: vnet/nat.go; the mappings live in a store,
      because both maps of the translator point to them.
    - [JitterBuffer]: pkg/jitter/buffer.go.
    - [GoFloat]: binary64 as Go computes with it.
    - [LkSyncTrack], [LkSync], [LkSyncTheorems]: pkg/synchronizer: track.go;
      synchronizer.go and participant.go over stores of tracks and participants,
      with the two critical sections of a call as two functions; the theorems.
    - [SampleBuilder]: pkg/samplebuilder/samplebuilder.go; an index out of
      range or a nil packet is [None].  [SampleRing], [SampleWindow],
      [SamplePush], [SampleInvariant] and [SamplePop] hold the lemmas about the
      circular array, [SampleTheorems] the theorems.
    - [MediaIvf], [MediaRtpDump], [MediaOgg], [MediaH264]: the readers and
      writers of pion-webrtc/pkg/media, and LiveKit's pkg/oggreader.
    - [GoIO]: what they use of Go's packages io and encoding/binary.
    - [TurnClient]: internal/client and the transaction part of client.go.
      [Binding], [Perm], the periodic timers, [Transactions] (retransmission)
      and [UdpConn] (permissions, channel binding, reading and writing).
    - [GoText]: the parts of Go's strings, strconv and net packages that the
      text form of candidates uses.
    - [IceCandidate]: the candidate*.go, networktype.go, tcptype.go and addr.go of
      lib/pion-ice: constructors, priorities, text form and parser.
    - [IceAttr]: the STUN attributes of ICE.
    - [IceAgent]: agent.go, selection.go and candidatepair.go.  Candidates and
      pairs live in stores of the agent, since both the checklist and the
      selected pair refer to them.  [IceInvariant] and [IceSteps] show that every
      task of the agent keeps its invariant; [IceTheorems] has the theorems.
    - [IceTcp], [IceTcpConn], [IceTcpMux]: ICE over TCP: the framing of tcp_mux.go,
      tcp_packet_conn.go with its goroutines as the steps [rstep] and [pstep],
      and the multiplexer of tcp_mux.go with [mstep], in which connections are
      closed after they were taken out of the maps, and added after they were
      found, in steps of their own.
    - [TurnTcp]: BindConnection and Accept of internal/client/tcp_alloc.go.
    - [Operations]: operations.go of lib/pion-webrtc; the goroutines are
      threads of a step relation.
    - [Signaling]: signalingstate.go, sdptype.go, and the calls of
      peerconnection.go that change the descriptions and the states; the error
      of what a call does after that is an argument.
    - [LkAuth], [LkAuthClone]: grants.go, accesstoken.go and verifier.go of
      lib/livekit-protocol/auth over the class [Jose] of web tokens; the clone
      of a grant, over a heap of what its pointers point to.
    - [LkSip], [LkSipTheorems]: sip.go and token.go of lib/livekit-protocol/sip over the
      class [GoSort] of Go's sort.Slice; [GoNetip] and [GoSha256] have the address
      prefixes and the hash they use.
    - [LkGuid], [LkRate]: guid/id.go, rate.go and dedupedslice.go of
      lib/livekit-protocol/utils.
    - [ZitiIdentity]: identity.go of lib/openziti; the controller is a class.
    - [ZitiEnroll]: enroll.go, auth.go and setup.go of lib/openziti, over files
      that can refuse each of the system calls; what a transport or a custom
      dialer dials, the fallback to the underlay included.
    - [App]: main.go of the publisher and of the subscriber; a run is the list
      of the calls it makes.
    - [LkTimedVersion], [LkBitmap], [LkTimeoutQueue]: timed_version.go, bitmap.go
      and timeoutqueue.go of lib/livekit-protocol/utils; the items of the queue
      live in a store, their pointers are numbers.
    - [LkGraph], [LkGraphSort], [LkGraphPath]: the graph of utils/graph.go, its
      topological sort, and its path search with container/heap.
    - [WsMask]: mask.go and mask_safe.go of lib/websocket, for any word size,
      byte order and alignment.
    - [WsWrite]: the writing half of conn.go: frame headers, the buffer and
      the sticky write error, control messages, message writers (one store of
      them per connection, because an application may keep a writer it should
      no longer use).  The network, the clock, the source of masking keys and
      the buffer pool are the class [WsEnv], with laws [WsEnvLaws].
    - [WsStream]: the reference reading of a byte stream as frames and
      messages, the connection's invariant, [wstep], and the theorems about
      what is sent.
    - [WsRead]: the reading half of conn.go in a small state and error monad:
      [advanceFrame] in the numbered steps of the source, [NextReader],
      [messageReader.Read], [ReadMessage] and the control handlers.
    - [WsMessages]: the theorems about what is received, and the composition
      of a writer with a reader.
    - [WsPrepared]: prepared.go and [WritePreparedMessage].
    - [WsTokens]: util.go: tokens, quoted strings, token lists, extensions and
      keys.  [GoHash] has the base64 and SHA-1 they use.
    - [WsHandshake]: Upgrade of server.go, DialContext of client.go and the
      answer of an HTTP proxy, with the reader of net/http's responses; a dial
      returns its result, the response, and whether the connection was opened
      and closed.

    A Go struct is a record with the source's field names (prefixed where
    Rocq would confuse two of them), a method is a function of its name that
    takes the receiver last and returns it changed.  A mutex that is held for
    a whole method makes the method one atomic step.  Timers are deadlines
    kept in the state; they fire in steps of their own, not before their
    deadline.  Sockets, clocks and random numbers are in an environment type
    that the operations pass along.

    ** What the theorems show

    The server ([TurnServer]): no datagram changes an allocation without
    valid, fresh credentials; authentication accepts exactly those and answers
    all others as the RFC says; what a datagram does is a sequence of the manager's calls
    for its own client, and the manager's
    invariant holds for a running server; each handler does what the RFC asks
    of it on its success and error branches; data goes only where a
    permission or a channel says; credentials expire when they say ([TurnConfig]).
    The manager ([Allocation]): the
    invariant under every interleaving of requests and timers, what is left when it is
    closed, and the behaviour of each operation.  The wire ([GoNet], [TurnProto],
    [StunConn]): fingerprints identify 5-tuples, attributes and ChannelData
    survive a round trip, and a byte stream is cut into the messages that
    were sent however it was segmented.  The buffers ([ReplayDetector],
    [Deadline], [PacketBuffer], [JitterBuffer]): exactness of the replay
    window against the set of accepted numbers; a deadline is signalled when it
    passes and only then, however often it is moved, while at most 255 callbacks are late; the ring buffer refines a queue of packets
    and is first-in first-out under concurrency; packets pushed into the
    jitter buffer in any order come out in sequence.  The synchronizer
    ([LkSyncTheorems]): presentation times are exact over any number of
    wrap-arounds and never go back, tracks are aligned by their reports, drift is
    corrected in small steps, the end is late enough for all tracks, and calls that
    do not overlap never panic.  The client
    ([TurnClient]): its two binding maps stay inverse to each other, and an
    unanswered request is retransmitted on schedule and then reported.  The
    sample builder ([SampleTheorems]): its states pass the source's own check;
    no packet is lost or duplicated by a push but in stated cases; frames come
    out whole and in order.  The media containers: what is written is read
    back, units of H.264 whatever way the stream is cut, Opus packets by
    another package's reader; every reader's behaviour at the end of a cut
    file.  ICE ([IceCandidate], [IceTheorems]): the text of a
    candidate survives a round trip; the agent's invariant; its reported states
    are a path of a fixed machine; a pair succeeds only by an answer to a check
    of its own, and unauthenticated packets change nothing; an answered
    nomination connects; the timeouts do what they say; over TCP, packets of a
    connection come out in their order under every interleaving, closing ends,
    and the multiplexer forgets no open connection ([IceTcpConn], [IceTcpMux]).  The peer connection
    ([Signaling], [Operations]): descriptions always fit the signalling state,
    an exchange between stable peers completes, operations run one at a time
    and in order, and all of them run.  The virtual network ([VnetConnMap],
    [VnetNatTheorems]): sockets of a host do not overlap; the translator lets
    in only what its filter allows, delivers the answers it should, and maps
    flows as its mapping behaviour says.  The LiveKit structures: the bit map
    is a set of residues, the linked items are a list from which an iteration
    takes the expired ones, versions increase, the graph is a map of nodes and
    of edges, its sort is a topological order exactly of the graphs without a
    cycle, and its path search finds a path when there is one.  Tokens and programs
    ([LkAuth], [LkAuthClone], [ZitiIdentity], [ZitiEnroll], [App]): grants and the
    permissions they stand for agree; a clone shares nothing; only the right roles
    get the services of administrators and devices; enrolment happens once, and
    set-up leaves the same context in every dialer.  Callers
    ([LkSipTheorems]): a call gets a first one of the rules it is eligible for, enters a
    protected room only with its pin, and a hidden number stays hidden; validated trunks are
    in conflict in one stated case only.  [LkGuid], [LkRate]: identifiers survive
    packing, and takes of a leaky bucket return exactly when they are due.
    The WebSocket connection ([WsMask], [WsStream], [WsMessages], [WsPrepared]):
    masking by words equals masking by bytes; whatever the application does short
    of prepared messages, what is sent is a stream of frames RFC 6455 allows, with nothing after a
    close frame; the messages written at one end are read at the other,
    however they were fragmented and interleaved with control messages;
    reading ends, observes its limit, and refuses malformed headers.  The
    handshake ([WsTokens], [WsHandshake]): header lists are read as their grammar
    says; a server takes over valid requests only and its response cannot be
    split by header values; a client connects only after the right answer to
    its key and closes the connection if it fails; the two sides agree on what they
    have negotiated.

    Some theorems state behaviour a reader would not expect; they are marked
    by their comments: a large frame over TCP makes the server's read loop
    slice beyond its buffer, a length field can stop the frame scanner from
    making progress, nonces are never removed, a window that is not a
    multiple of 64 admits replays, a second concurrent reader can miss a
    wake-up, frames of an abandoned WebSocket message count towards the limit
    of the next one, a prepared message can break into another message, the
    sample builder can end up with a gap at its front on which every pop
    panics, a NAT runs out of ports for good, an update of the
    negotiation-needed flag can be lost, a rollback is always refused, a
    closed connection can be overwritten by a pending offer, the shortest path
    need not be the shortest, a token for enrolment is lost on a full disk,
    recordings of the subscriber stay empty, a proxy without a reason phrase
    makes a dialer panic, a closed TCP connection of ICE can close its
    successor, a long answer makes a TURN client panic, so does a caller without a
    number who is to be hidden, the 256th late callback signals a deadline too
    early, a description that is refused late stays set, a track that begins a
    minute after its recording is reset by every frame, and a few more.

    ** Bounds and fuel

    Loops are structural wherever the source walks a list.  The others carry
    a bound: [GetRandomEvenPort] the source's own 128 tries; [retry] the
    source's three attempts; [grow_loop] of [ChannelData] one step per
    missing byte of capacity, each of which adds at least one;
    [PacketBuffer.grow_until] the number of bytes to be stored plus four,
    since each growth adds at least one byte or fails, and
    the theorem about [Write] shows that it never runs out;
    [NetIP.digits] 64 digits, more than any number printed has.  The
    WebSocket writer's [write_loop] has one step per byte of its argument and
    [readFrom_loop] one per chunk and byte of its reader; the loops over
    incoming frames ([nextReader_loop], [read_loop], [readAll_loop]) have one
    step more than there are bytes of input, since a frame takes at least two
    of them, and [ReadMessage_terminates] shows that none runs out.
    [GoText]'s parser of IPv6 addresses has the eight groups an address can
    have.  The loops of the sample builder have one step per slot of its array,
    and its invariant shows that they end before; the theorems are about
    maxLate of at most 16383, beyond which sums of uint16 indexes wrap.  The
    theorems about NAT assume fewer than 2^61 packets, so that its counter does
    not overflow.  The depth of the topological sort is at most the number of
    nodes; the path search gets as many rounds as there can be simple paths,
    and its theorem shows that it ends within them; [up] and [down] of the heap
    have one step per element.  A new identifier draws random numbers until it has twelve
    characters; [guid_drawn] says how many are enough.  A timestamp is extended in as
    many steps as its distance from the last one has wrap-arounds, and the reduction
    of a clock rate ends after at most thirty divisions of a thousand million.

    ** What is not modelled, and why

    Logging and profiling have no effect on state and are left out.  The
    bytes of STUN messages, MD5 and HMAC, the operating system's sockets and
    the random generators belong to other packages: they are parameters with
    documented laws.  Dialling over TCP allocations of the client and the life
    cycle of [Server] and [Client] are still to be done.  Of ICE, gathering, the UDP
    multiplexers and active TCP candidates are left out: sockets and servers
    whose results the agent gets as calls.  Of WebRTC, media, data channels, DTLS and the text of
    session descriptions are left out: glue over packages that are not part of
    the repository.  Of the virtual network, the routers, filters and sockets
    are still to be done.  The OpenZiti SDK and go-jose are parameters; the
    loop that keeps a session alive and the encoder of the publisher are left
    out.  Of the WebSocket library, cookies, TLS, the codec of
    permessage-deflate and the JSON helpers are left out: they are calls into
    Go's standard library; url.Parse is a parameter.  Generated
    protobuf and RPC code is not a subject of verification. *)

From Stdlib Require Export ZArith Lia Ascii String.
From stdpp Require Export base numbers gmap strings option list.

#[global] Open Scope Z_scope.

(** * Results and errors *)

(** A Go call that returns [(value, error)]: the value is meaningful only
    when the error is nil. *)
Inductive result (E A : Type) : Type :=
| Ok (a : A)
| Err (e : E).
Arguments Ok {E A} a.
Arguments Err {E A} e.

#[export] Instance result_mret E : MRet (result E) := fun A a => Ok a.
#[export] Instance result_mbind E : MBind (result E) := fun A B f m =>
  match m with Ok a => f a | Err e => Err e end.

Definition is_ok {E A} (r : result E A) : bool :=
  match r with Ok _ => true | Err _ => false end.

(** * Machine integers *)

Definition u8 (z : Z) : Z := z mod 256.
Definition u16 (z : Z) : Z := z mod 65536.
Definition u32 (z : Z) : Z := z mod 4294967296.
Definition u64 (z : Z) : Z := z mod 18446744073709551616.
Definition i64 (z : Z) : Z :=
  (z + 9223372036854775808) mod 18446744073709551616 - 9223372036854775808.

Declare Scope go_scope.
Delimit Scope go_scope with go.
Notation "a +16 b" := (u16 (a + b)) (at level 50, left associativity) : go_scope.
Notation "a -16 b" := (u16 (a - b)) (at level 50, left associativity) : go_scope.
Notation "a +32 b" := (u32 (a + b)) (at level 50, left associativity) : go_scope.
Notation "a -32 b" := (u32 (a - b)) (at level 50, left associativity) : go_scope.
Notation "a +64 b" := (u64 (a + b)) (at level 50, left associativity) : go_scope.
Notation "a -64 b" := (u64 (a - b)) (at level 50, left associativity) : go_scope.

(** * Bytes and slices *)

Abbreviation bytes := (list Z).
Definition byte_ok (b : Z) : Prop := 0 <= b < 256.
Abbreviation bytes_ok := (Forall byte_ok).

(** [len(s)] of a Go slice. *)
Definition blen {A} (l : list A) : Z := Z.of_nat (length l).

(** [s[a:b]]; every use is guarded by [0 <= a <= b <= len s]. *)
Definition slice {A} (l : list A) (a b : Z) : list A :=
  take (Z.to_nat (b - a)) (drop (Z.to_nat a) l).

(** [s[i]] for an index the code has already checked. *)
Definition byte_at (l : bytes) (i : nat) : Z := nth i l 0.

(** encoding/binary, BigEndian. *)
Definition putUint16 (v : Z) : bytes := [u8 (Z.shiftr v 8); u8 v].
Definition putUint32 (v : Z) : bytes :=
  [u8 (Z.shiftr v 24); u8 (Z.shiftr v 16); u8 (Z.shiftr v 8); u8 v].
Definition getUint16 (l : bytes) : Z := byte_at l 0 * 256 + byte_at l 1.
Definition getUint32 (l : bytes) : Z :=
  ((byte_at l 0 * 256 + byte_at l 1) * 256 + byte_at l 2) * 256 + byte_at l 3.

Definition putUint64 (v : Z) : bytes :=
  putUint32 (u32 (Z.shiftr v 32)) ++ putUint32 (u32 v).
Definition getUint64 (l : bytes) : Z := getUint32 l * 4294967296 + getUint32 (drop 4 l).

(** Overwrite a prefix of a slice, as [copy] or [PutUintN] into it does. *)
Definition overwrite (l new : bytes) : bytes := new ++ drop (length new) l.

(** The loop [for i := len(l)-1; i >= 0; i--] that looks for the last element
    satisfying a test. *)
Fixpoint find_last {A} (f : A -> bool) (l : list A) : option nat :=
  match l with
  | [] => None
  | x :: l' =>
      match find_last f l' with
      | Some i => Some (S i)
      | None => if f x then Some 0%nat else None
      end
  end.

(** * Time *)

Definition nanosecond : Z := 1.
Definition millisecond : Z := 1000000.
Definition second : Z := 1000000000.
Definition minute : Z := 60 * second.
Definition hour : Z := 60 * minute.

(** * Tactics and hints *)

Create HintDb turn.

(** Case analysis on the boolean or option scrutinee of a match in the goal
    or in a hypothesis. *)
Ltac case_goal :=
  match goal with
  | |- context [match ?x with _ => _ end] => destruct x eqn:?
  end.
Ltac case_hyp H :=
  match type of H with
  | context [match ?x with _ => _ end] => destruct x eqn:?
  end.
Ltac case_all :=
  repeat match goal with
  | H : context [match ?x with _ => _ end] |- _ => destruct x eqn:?
  | |- context [match ?x with _ => _ end] => destruct x eqn:?
  end.

(** Turn boolean comparisons into linear arithmetic facts. *)
Ltac boolp :=
  repeat match goal with
  | H : (_ && _) = true |- _ => apply andb_true_iff in H as [? ?]
  | H : (_ && _) = false |- _ => apply andb_false_iff in H
  | H : (_ || _) = true |- _ => apply orb_true_iff in H
  | H : (_ || _) = false |- _ => apply orb_false_iff in H as [? ?]
  | H : negb _ = true |- _ => apply negb_true_iff in H
  | H : negb _ = false |- _ => apply negb_false_iff in H
  | H : (_ =? _) = true |- _ => apply Z.eqb_eq in H
  | H : (_ =? _) = false |- _ => apply Z.eqb_neq in H
  | H : (_ <=? _) = true |- _ => apply Z.leb_le in H
  | H : (_ <=? _) = false |- _ => apply Z.leb_gt in H
  | H : (_ <? _) = true |- _ => apply Z.ltb_lt in H
  | H : (_ <? _) = false |- _ => apply Z.ltb_ge in H
  end.

(** Remove wrap-arounds whose argument is in range. *)
Ltac unwrap :=
  unfold u8, u16, u32, u64 in *;
  repeat match goal with
  | |- context [?a mod ?b] => rewrite (Z.mod_small a b) by lia
  end.

(** * Lemmas *)

Lemma u8_ok z : byte_ok (u8 z).
Proof. unfold byte_ok, u8. apply Z.mod_pos_bound. lia. Qed.
#[export] Hint Resolve u8_ok : turn.

Lemma u16_range z : 0 <= u16 z < 65536.
Proof. unfold u16. apply Z.mod_pos_bound. lia. Qed.

Lemma u32_range z : 0 <= u32 z < 4294967296.
Proof. unfold u32. apply Z.mod_pos_bound. lia. Qed.

Lemma u64_range z : 0 <= u64 z < 18446744073709551616.
Proof. unfold u64. apply Z.mod_pos_bound. lia. Qed.

Lemma u16_small z : 0 <= z < 65536 -> u16 z = z.
Proof. intros. unfold u16. apply Z.mod_small. lia. Qed.

Lemma u32_small z : 0 <= z < 4294967296 -> u32 z = z.
Proof. intros. unfold u32. apply Z.mod_small. lia. Qed.

Lemma u64_small z : 0 <= z < 18446744073709551616 -> u64 z = z.
Proof. intros. unfold u64. apply Z.mod_small. lia. Qed.

Lemma i64_small z : - 2 ^ 63 <= z < 2 ^ 63 -> i64 z = z.
Proof. intros. unfold i64. rewrite Z.mod_small by lia. lia. Qed.

Lemma blen_nonneg {A} (l : list A) : 0 <= blen l.
Proof. unfold blen. lia. Qed.
#[export] Hint Resolve blen_nonneg : turn.

Lemma blen_app {A} (l k : list A) : blen (l ++ k) = blen l + blen k.
Proof. unfold blen. rewrite length_app. lia. Qed.

Lemma blen_drop {A} (l : list A) n :
  blen (drop n l) = Z.max 0 (blen l - Z.of_nat n).
Proof. unfold blen. rewrite length_drop. lia. Qed.

Lemma blen_take {A} (l : list A) n :
  blen (take n l) = Z.min (Z.of_nat n) (blen l).
Proof. unfold blen. rewrite length_take. lia. Qed.

Lemma slice_len {A} (l : list A) a b :
  0 <= a <= b -> b <= blen l -> blen (slice l a b) = b - a.
Proof.
  intros. unfold slice. rewrite blen_take, blen_drop. lia.
Qed.

Lemma slice_prefix {A} (l : list A) b : slice l 0 b = take (Z.to_nat b) l.
Proof. unfold slice. rewrite drop_0. f_equal. lia. Qed.

Lemma byte_at_ok l i : bytes_ok l -> 0 <= byte_at l i < 256.
Proof.
  intros H. unfold byte_at. destruct (decide (i < length l)%nat) as [Hi|Hi].
  - rewrite Forall_forall in H. apply H. apply list_elem_of_In, nth_In. done.
  - rewrite nth_overflow by lia. lia.
Qed.

Lemma getUint16_range l : bytes_ok l -> 0 <= getUint16 l < 65536.
Proof.
  intros Hl. unfold getUint16. pose proof (byte_at_ok l 0 Hl). pose proof (byte_at_ok l 1 Hl). lia.
Qed.

Lemma shiftr_div v n : 0 <= n -> Z.shiftr v n = v / 2 ^ n.
Proof. intros. by apply Z.shiftr_div_pow2. Qed.

Lemma u16_split v : 0 <= v < 65536 -> u8 (Z.shiftr v 8) * 256 + u8 v = v.
Proof.
  intros. rewrite shiftr_div by lia. change (2 ^ 8) with 256. unfold u8.
  rewrite (Z.mod_small (v / 256)) by (split; [apply Z.div_pos|apply Z.div_lt_upper_bound]; lia).
  pose proof (Z.div_mod v 256). lia.
Qed.

(** Reading back a 16-bit big-endian field. *)
Lemma getUint16_put v rest :
  0 <= v < 65536 -> getUint16 (putUint16 v ++ rest) = v.
Proof. intros. unfold getUint16, putUint16, byte_at. simpl. by apply u16_split. Qed.

Lemma blen_putUint16 v : blen (putUint16 v) = 2.
Proof. done. Qed.

Lemma getUint16_put1 v : 0 <= v < 65536 -> getUint16 (putUint16 v) = v.
Proof. intros. rewrite <- (app_nil_r (putUint16 v)). by apply getUint16_put. Qed.

Lemma getUint32_put v rest :
  0 <= v < 4294967296 -> getUint32 (putUint32 v ++ rest) = v.
Proof.
  intros. unfold getUint32, putUint32, byte_at. simpl.
  rewrite !shiftr_div by lia.
  change (2 ^ 24) with 16777216. change (2 ^ 16) with 65536. change (2 ^ 8) with 256.
  unfold u8.
  replace (v / 16777216) with (v / 256 / 256 / 256) by (rewrite !Z.div_div by lia; done).
  replace (v / 65536) with (v / 256 / 256) by (rewrite !Z.div_div by lia; done).
  assert (v / 256 / 256 / 256 < 256)
    by (rewrite !Z.div_div by lia; apply Z.div_lt_upper_bound; lia).
  assert (0 <= v / 256 / 256 / 256) by (repeat apply Z.div_pos; lia).
  rewrite (Z.mod_small (v / 256 / 256 / 256)) by lia.
  pose proof (Z.div_mod v 256 ltac:(lia)).
  pose proof (Z.div_mod (v / 256) 256 ltac:(lia)).
  pose proof (Z.div_mod (v / 256 / 256) 256 ltac:(lia)).
  lia.
Qed.

Lemma getUint32_put1 v : 0 <= v < 4294967296 -> getUint32 (putUint32 v) = v.
Proof. intros. rewrite <- (app_nil_r (putUint32 v)). by apply getUint32_put. Qed.

Lemma getUint64_put v rest :
  0 <= v < 18446744073709551616 -> getUint64 (putUint64 v ++ rest) = v.
Proof.
  intros Hv. unfold getUint64, putUint64.
  rewrite <- app_assoc, getUint32_put by apply u32_range.
  change (drop 4 _) with (putUint32 (u32 v) ++ rest).
  rewrite getUint32_put by apply u32_range.
  unfold u32. rewrite shiftr_div by lia. change (2 ^ 32) with 4294967296.
  rewrite (Z.mod_small (v / 4294967296)) by (split; [apply Z.div_pos|apply Z.div_lt_upper_bound]; lia).
  pose proof (Z.div_mod v 4294967296). lia.
Qed.

Lemma putUint16_ok v : bytes_ok (putUint16 v).
Proof. repeat constructor; apply u8_ok. Qed.

Lemma putUint16_u16 v : putUint16 (u16 v) = putUint16 v.
Proof.
  unfold putUint16, u16, u8. rewrite !shiftr_div by lia. change (2 ^ 8) with 256.
  f_equal; [|f_equal].
  - change 65536 with (256 * 256). rewrite Z.rem_mul_r by lia.
    rewrite (Z.mul_comm 256 (_ mod _)), Z.div_add by lia.
    rewrite (Z.div_small (v mod 256)) by (apply Z.mod_pos_bound; lia).
    rewrite Z.add_0_l, Z.mod_mod by lia. done.
  - change 65536 with (256 * 256). rewrite Z.rem_mul_r by lia.
    rewrite Z.mul_comm, Z.mod_add by lia. apply Z.mod_mod. lia.
Qed.

(** Bytes survive the round trip through the two-byte representation. *)
Lemma putUint16_get a b :
  byte_ok a -> byte_ok b -> putUint16 (a * 256 + b) = [a; b].
Proof.
  unfold byte_ok. intros. unfold putUint16. rewrite shiftr_div by lia.
  change (2 ^ 8) with 256. unfold u8.
  rewrite Z.div_add_l by lia. rewrite (Z.div_small b) by lia.
  rewrite Z.add_0_r, (Z.mod_small a) by lia.
  rewrite (Z.add_comm _ b), Z.mod_add by lia. rewrite Z.mod_small by lia. done.
Qed.

Lemma find_last_Some {A} (f : A -> bool) (l : list A) i :
  find_last f l = Some i -> exists x, l !! i = Some x /\ f x = true.
Proof.
  revert i; induction l as [|x l IH]; intros i H; simpl in *; [done|].
  destruct (find_last f l) as [j|]; simplify_eq.
  - apply IH. done.
  - destruct (f x) eqn:E; simplify_eq. by exists x.
Qed.

Lemma find_last_None {A} (f : A -> bool) (l : list A) :
  find_last f l = None <-> Forall (fun x => f x = false) l.
Proof.
  induction l as [|x l IH]; simpl; [done|].
  rewrite Forall_cons, <- IH. destruct (find_last f l) eqn:E.
  - split; [done|]. intros [_ ?]. done.
  - destruct (f x); naive_solver.
Qed.

Lemma elem_of_delete {A} (l : list A) i x : x ∈ delete i l -> x ∈ l.
Proof.
  revert i; induction l as [|y l IH]; intros [|i]; simpl; intros H; try done.
  - by right.
  - apply elem_of_cons in H as [->|H]; [by left|right; eauto].
Qed.

Lemma Forall_delete_list {A} (P : A -> Prop) (l : list A) i :
  Forall P l -> Forall P (delete i l).
Proof. rewrite !Forall_forall. eauto using elem_of_delete. Qed.

Lemma NoDup_fmap_delete {A B} (f : A -> B) (l : list A) i :
  NoDup (f <$> l) -> NoDup (f <$> delete i l).
Proof.
  revert i; induction l as [|y l IH]; intros [|i]; simpl; intros H; try done.
  - by apply NoDup_cons in H as [_ ?].
  - apply NoDup_cons in H as [H1 H2]. apply NoDup_cons; split; [|by apply IH].
    intros (z & Hz & Hin)%list_elem_of_fmap. apply H1.
    apply list_elem_of_fmap. exists z. split; [done|]. by eapply elem_of_delete.
Qed.
