(* ===== verification/GoNet.v ===== *)
(** net.IP and net.Addr as the TURN code uses them, the address helpers of
    lib/pion-turn/internal/ipnet/util.go, the [Addr]/[FiveTuple] values of
    lib/pion-turn/internal/proto/addr.go and the 5-tuple key of
    lib/pion-turn/internal/allocation/five_tuple.go. *)

From S2P Require Import Prelude.

#[local] Open Scope string_scope.
#[local] Open Scope list_scope.
#[local] Open Scope Z_scope.

(** * The standard library's net.IP *)

Abbreviation IP := (list Z) (only parsing).

Module NetIP.

Definition IPv4len : nat := 4.
Definition IPv6len : nat := 16.

Definition v4InV6Prefix : list Z := [0;0;0;0;0;0;0;0;0;0;255;255].

(** [IP.To4]: a four-byte address, or the last four bytes of an
    IPv4-mapped sixteen-byte one. *)
Definition To4 (ip : IP) : option IP :=
  if decide (length ip = IPv4len) then Some ip
  else if decide (length ip = IPv6len /\ take 12 ip = v4InV6Prefix)
  then Some (drop 12 ip)
  else None.

(** [IP.Equal]: an IPv4 address and that same address in IPv6 form are
    considered to be equal. *)
Definition Equal (ip x : IP) : bool :=
  if decide (length ip = length x) then bool_decide (ip = x)
  else if decide (length ip = IPv4len /\ length x = IPv6len)
  then bool_decide (take 12 x = v4InV6Prefix /\ ip = drop 12 x)
  else if decide (length ip = IPv6len /\ length x = IPv4len)
  then bool_decide (take 12 ip = v4InV6Prefix /\ drop 12 ip = x)
  else false.

(** Decimal and hexadecimal printing without leading zeros. *)
Definition digit (d : Z) : ascii :=
  match String.get (Z.to_nat d) "0123456789abcdef" with
  | Some c => c
  | None => "0"%char
  end.

Fixpoint digits_aux (fuel : nat) (base n : Z) (acc : string) : string :=
  match fuel with
  | O => acc
  | S f =>
      let acc' := String (digit (n mod base)) acc in
      if n / base =? 0 then acc' else digits_aux f base (n / base) acc'
  end.

(** Sixty-four digits cover every value the code prints (bytes, ports and
    16-bit groups). *)
Definition digits (base n : Z) : string := digits_aux 64 base n "".
Definition dec (n : Z) : string := digits 10 n.
Definition hex (n : Z) : string := digits 16 n.

Fixpoint join (sep : string) (l : list string) : string :=
  match l with
  | [] => ""
  | [x] => x
  | x :: l' => x +:+ sep +:+ join sep l'
  end.

(** The eight 16-bit groups of an IPv6 address. *)
Fixpoint groups (ip : IP) : list Z :=
  match ip with
  | a :: b :: r => a * 256 + b :: groups r
  | _ => []
  end.

(** Length of the run of zero groups at the head of a list. *)
Fixpoint zero_run (l : list Z) : nat :=
  match l with
  | 0 :: l' => S (zero_run l')
  | _ => O
  end.

(** The first longest run of zero groups: its start and its length. *)
Fixpoint longest_run (i : nat) (l : list Z) : nat * nat :=
  match l with
  | [] => (i, O)
  | _ :: l' =>
      let n := zero_run l in
      let '(j, m) := longest_run (S i) l' in
      if decide (m <= n)%nat then (i, n) else (j, m)
  end.

(** RFC 5952 text: the colon-separated fields; [""] fields print as "::". *)
Definition fields6 (g : list Z) : list string :=
  let '(i, n) := longest_run 0 g in
  if decide (2 <= n)%nat then
    let left := take i g in
    let right := drop (i + n) g in
    (if decide (left = []) then [""] else hex <$> left) ++ [""] ++
    (if decide (right = []) then [""] else hex <$> right)
  else hex <$> g.

(** [IP.String] for addresses of four or sixteen bytes; the remaining
    results are the fixed texts the library documents. *)
Definition ipString (ip : IP) : string :=
  match ip with
  | [] => "<nil>"
  | _ =>
      match To4 ip with
      | Some p => join "." (dec <$> p)
      | None =>
          if decide (length ip = IPv6len) then join ":" (fields6 (groups ip))
          else "?" +:+ foldr (fun b s => digits_aux 2 16 (b mod 256 + 256) "" +:+ s) "" ip
      end
  end.

End NetIP.

(** * net.Addr *)

(** The dynamic types behind a [net.Addr] that the code distinguishes;
    [OtherAddr] is any other implementation, known by its [String]. *)
Inductive net_Addr :=
| UDPAddr (ip : list Z) (port : Z) (zone : string)
| TCPAddr (ip : list Z) (port : Z) (zone : string)
| OtherAddr (text : string).

#[export] Instance net_Addr_eq_dec : EqDecision net_Addr.
Proof. solve_decision. Defined.

Fixpoint has_char (c : ascii) (s : string) : bool :=
  match s with
  | EmptyString => false
  | String d s' => if ascii_dec c d then true else has_char c s'
  end.

(** [strconv.Itoa]. *)
Definition itoa (z : Z) : string :=
  if z <? 0 then "-" +:+ NetIP.dec (- z) else NetIP.dec z.

(** [net.JoinHostPort]: a host with a colon is bracketed. *)
Definition JoinHostPort (host port : string) : string :=
  if has_char ":"%char host then "[" +:+ host +:+ "]:" +:+ port
  else host +:+ ":" +:+ port.

Definition hostPortString (ip : list Z) (port : Z) (zone : string) : string :=
  let ips := match ip with [] => "" | _ => NetIP.ipString ip end in
  if String.eqb zone "" then JoinHostPort ips (itoa port)
  else JoinHostPort (ips +:+ "%" +:+ zone) (itoa port).

Definition addrString (a : net_Addr) : string :=
  match a with
  | UDPAddr ip port zone | TCPAddr ip port zone => hostPortString ip port zone
  | OtherAddr s => s
  end.

(** * ipnet/util.go *)

Inductive ipnet_error := errFailedToCastAddr.

(** [AddrIPPort]. *)
Definition AddrIPPort (a : net_Addr) : result ipnet_error (list Z * Z) :=
  match a with
  | UDPAddr ip port _ => Ok (ip, port)
  | TCPAddr ip port _ => Ok (ip, port)
  | OtherAddr _ => Err errFailedToCastAddr
  end.

(** [AddrEqual]: only UDP addresses are ever equal. *)
Definition AddrEqual (a b : net_Addr) : bool :=
  match a, b with
  | UDPAddr ipa pa _, UDPAddr ipb pb _ => NetIP.Equal ipa ipb && (pa =? pb)
  | _, _ => false
  end.

(** [FingerprintAddr]: the key of a permission is the IP alone. *)
Definition FingerprintAddr (a : net_Addr) : string :=
  match a with
  | UDPAddr ip _ _ => NetIP.ipString ip
  | TCPAddr ip _ _ => NetIP.ipString ip
  | OtherAddr _ => ""
  end.

(** * proto/addr.go *)

Module ProtoAddr.

Record Addr := { aIP : list Z; aPort : Z }.

(** [Addr.FromUDPAddr]. *)
Definition FromUDPAddr (ip : list Z) (port : Z) : Addr := {| aIP := ip; aPort := port |}.

(** [Addr.Equal]. *)
Definition Equal (a b : Addr) : bool :=
  if negb (aPort a =? aPort b) then false else NetIP.Equal (aIP a) (aIP b).

(** [Addr.EqualIP]. *)
Definition EqualIP (a b : Addr) : bool := NetIP.Equal (aIP a) (aIP b).

(** [Protocol]: the IANA number. *)
Record FiveTuple := { Client : Addr; Server : Addr; Proto : Z }.

(** [FiveTuple.Equal]. *)
Definition FiveTuple_Equal (t b : FiveTuple) : bool :=
  if negb (Proto t =? Proto b) then false
  else if negb (Equal (Client t) (Client b)) then false
  else if negb (Equal (Server t) (Server b)) then false
  else true.

End ProtoAddr.

(** * allocation/five_tuple.go *)

Inductive Protocol := UDP | TCP.

#[export] Instance Protocol_eq_dec : EqDecision Protocol.
Proof. solve_decision. Defined.

Definition Protocol_num (p : Protocol) : Z :=
  match p with UDP => 0 | TCP => 1 end.

Record FiveTuple := { ftProtocol : Protocol; SrcAddr : net_Addr; DstAddr : net_Addr }.

(** [FiveTuple.Fingerprint]: [fmt.Sprintf("%d_%s_%s", ...)]. *)
Definition Fingerprint (f : FiveTuple) : string :=
  itoa (Protocol_num (ftProtocol f)) +:+ "_" +:+ addrString (SrcAddr f)
    +:+ "_" +:+ addrString (DstAddr f).

(** [FiveTuple.Equal]. *)
Definition FiveTuple_Equal (f b : FiveTuple) : bool :=
  String.eqb (Fingerprint f) (Fingerprint b).

(** Addresses of the widths and ranges the network gives. *)
Definition valid_ip (ip : list Z) : Prop :=
  (length ip = 4%nat \/ length ip = 16%nat) /\ bytes_ok ip.

Definition addr_ip (a : net_Addr) : list Z :=
  match a with UDPAddr ip _ _ | TCPAddr ip _ _ => ip | OtherAddr _ => [] end.
Definition addr_port (a : net_Addr) : Z :=
  match a with UDPAddr _ p _ | TCPAddr _ p _ => p | OtherAddr _ => 0 end.

(** A transport address of the network: UDP or TCP, without a zone. *)
Definition valid_addr (a : net_Addr) : Prop :=
  match a with
  | UDPAddr ip p z | TCPAddr ip p z => valid_ip ip /\ 0 <= p < 65536 /\ z = ""
  | OtherAddr _ => False
  end.

(** Same host and port, whatever the transport. *)
Definition same_endpoint (a b : net_Addr) : bool :=
  NetIP.Equal (addr_ip a) (addr_ip b) && (addr_port a =? addr_port b).

(** * Printing is injective *)

Section Digits.

Definition digit_val (c : ascii) : Z :=
  let n := Z.of_nat (nat_of_ascii c) in if n <? 97 then n - 48 else n - 87.

Fixpoint digits_val (base acc : Z) (s : string) : Z :=
  match s with
  | EmptyString => acc
  | String c s' => digits_val base (acc * base + digit_val c) s'
  end.

Lemma digit_cases d : exists k, (k < 16)%nat /\ NetIP.digit d = NetIP.digit (Z.of_nat k).
Proof.
  destruct (decide (Z.to_nat d < 16)%nat) as [H|H].
  - exists (Z.to_nat d). split; [done|]. unfold NetIP.digit.
    by rewrite Nat2Z.id.
  - exists 0%nat. split; [lia|]. unfold NetIP.digit.
    remember (Z.to_nat d) as k. clear Heqk.
    do 16 (destruct k as [|k]; [lia|]). done.
Qed.

Lemma digit_val_digit d : 0 <= d < 16 -> digit_val (NetIP.digit d) = d.
Proof.
  intros. assert (d = 0 \/ d = 1 \/ d = 2 \/ d = 3 \/ d = 4 \/ d = 5 \/ d = 6 \/ d = 7 \/
    d = 8 \/ d = 9 \/ d = 10 \/ d = 11 \/ d = 12 \/ d = 13 \/ d = 14 \/ d = 15) as Hd by lia.
  repeat destruct Hd as [->|Hd]; try subst; reflexivity.
Qed.

Lemma digits_aux_val fuel base n acc :
  2 <= base <= 16 -> 0 <= n < base ^ Z.of_nat fuel ->
  digits_val base 0 (NetIP.digits_aux fuel base n acc) = digits_val base n acc.
Proof.
  intros Hb. revert n acc. induction fuel as [|f IH]; intros n acc Hn.
  - replace n with 0 by (change (base ^ Z.of_nat 0) with 1 in Hn; lia). done.
  - cbn [NetIP.digits_aux].
    pose proof (Z.mod_pos_bound n base ltac:(lia)) as Hm.
    pose proof (Z.div_mod n base ltac:(lia)) as Hdm.
    destruct (n / base =? 0) eqn:E; boolp.
    + cbn [digits_val]. rewrite digit_val_digit by lia. f_equal. nia.
    + rewrite IH.
      * cbn [digits_val]. rewrite digit_val_digit by lia. f_equal. lia.
      * split; [apply Z.div_pos; lia|]. apply Z.div_lt_upper_bound; [lia|].
        rewrite Nat2Z.inj_succ, Z.pow_succ_r in Hn; lia.
Qed.

Lemma digits_inj base n m :
  2 <= base <= 16 -> 0 <= n < 2 ^ 64 -> 0 <= m < 2 ^ 64 ->
  NetIP.digits base n = NetIP.digits base m -> n = m.
Proof.
  intros Hb Hn Hm H.
  assert (2 ^ 64 <= base ^ Z.of_nat 64) by (apply Z.pow_le_mono_l; lia).
  apply (f_equal (digits_val base 0)) in H. unfold NetIP.digits in H.
  rewrite !digits_aux_val in H by lia. done.
Qed.

(** No separator is a digit. *)
Definition is_sep (c : ascii) : bool := negb (has_char c "0123456789abcdef").

Lemma has_char_digit c k : is_sep c = true -> (k < 16)%nat -> NetIP.digit (Z.of_nat k) <> c.
Proof.
  intros Hc Hk <-. revert Hc. unfold NetIP.digit. rewrite Nat2Z.id.
  do 16 (destruct k as [|k]; [vm_compute; congruence|]). lia.
Qed.

Lemma digits_aux_sep c fuel base n acc :
  is_sep c = true -> has_char c acc = false ->
  has_char c (NetIP.digits_aux fuel base n acc) = false.
Proof.
  intros Hc. revert n acc. induction fuel as [|f IH]; intros n acc Hacc; [done|].
  assert (has_char c (String (NetIP.digit (n mod base)) acc) = false).
  { simpl. destruct (digit_cases (n mod base)) as (k & Hk & ->).
    destruct (ascii_dec c _) as [->|]; [|done]. exfalso. by eapply has_char_digit. }
  cbn [NetIP.digits_aux]. destruct (_ =? _); auto.
Qed.

Lemma digits_sep c base n : is_sep c = true -> has_char c (NetIP.digits base n) = false.
Proof. intros. by apply digits_aux_sep. Qed.

Lemma digits_aux_nonempty fuel base n acc : acc <> "" -> NetIP.digits_aux fuel base n acc <> "".
Proof.
  revert n acc. induction fuel as [|f IH]; intros n acc H; [done|].
  cbn [NetIP.digits_aux]. destruct (_ =? _); [done|by apply IH].
Qed.

Lemma digits_aux_S_nonempty fuel base n acc : NetIP.digits_aux (S fuel) base n acc <> "".
Proof.
  cbn [NetIP.digits_aux]. destruct (_ =? _); [done|by apply digits_aux_nonempty].
Qed.

Lemma digits_nonempty base n : NetIP.digits base n <> "".
Proof. apply digits_aux_S_nonempty. Qed.

End Digits.

#[export] Hint Resolve digits_sep digits_nonempty : turn.

(** * Splitting at a separator *)

Lemma app_cons c a b : String c a +:+ b = String c (a +:+ b).
Proof. done. Qed.

Lemma has_char_app c s t : has_char c (s +:+ t) = has_char c s || has_char c t.
Proof. induction s; [done|]. rewrite app_cons. simpl. by destruct (ascii_dec c a). Qed.

Lemma has_char_self c s : has_char c (String c s) = true.
Proof. simpl. by destruct (ascii_dec c c). Qed.

Lemma split_unique c a b a' b' :
  has_char c a = false -> has_char c a' = false ->
  a +:+ String c b = a' +:+ String c b' -> a = a' /\ b = b'.
Proof.
  revert a'. induction a as [|x a IH]; intros [|x' a']; rewrite ?app_cons; simpl;
    intros H H' E; injection E; clear E; intros; subst; auto.
  - by destruct (ascii_dec _ _).
  - by destruct (ascii_dec _ _).
  - destruct (ascii_dec c x'); [done|]. destruct (IH a') as [-> ->]; auto.
Qed.

Lemma join_cons2 sep x y l : NetIP.join sep (x :: y :: l) = x +:+ sep +:+ NetIP.join sep (y :: l).
Proof. done. Qed.

Lemma join_inj c l k :
  l <> [] -> k <> [] ->
  Forall (fun s => has_char c s = false) l -> Forall (fun s => has_char c s = false) k ->
  NetIP.join (String c "") l = NetIP.join (String c "") k -> l = k.
Proof.
  revert k. induction l as [|x l IH]; intros [|y k] Hl Hk Fl Fk E; try done.
  inv Fl. inv Fk. destruct l as [|x' l], k as [|y' k].
  - simpl in E. congruence.
  - rewrite join_cons2 in E. simpl in E. subst.
    rewrite has_char_app, app_cons, has_char_self in H1.
    by destruct (has_char c y).
  - rewrite join_cons2 in E. simpl in E. subst.
    rewrite has_char_app, app_cons, has_char_self in H3.
    by destruct (has_char c x).
  - rewrite !join_cons2, !app_cons in E. apply split_unique in E as [-> E]; [|done..].
    f_equal. by apply IH.
Qed.

Lemma join_has_char c l : (2 <= length l)%nat -> has_char c (NetIP.join (String c "") l) = true.
Proof.
  destruct l as [|x [|y l]]; simpl; intros; try lia.
  rewrite has_char_app, app_cons, has_char_self. apply orb_true_r.
Qed.

Lemma join_sep c d l : d <> c ->
  Forall (fun s => has_char c s = false) l ->
  has_char c (NetIP.join (String d "") l) = false.
Proof.
  intros Hd. induction l as [|x [|y l] IH]; intros F; inv F; [done|done|].
  rewrite join_cons2, !has_char_app, H1, IH by done. simpl.
  by destruct (ascii_dec c d).
Qed.

(** * IPv6 text *)

Lemma zero_run_spec l : take (NetIP.zero_run l) l = replicate (NetIP.zero_run l) 0.
Proof. induction l as [|[| |] l IH]; simpl; [done|by f_equal|done|done]. Qed.

Lemma zero_run_length l : (NetIP.zero_run l <= length l)%nat.
Proof. induction l as [|[| |] l IH]; simpl; lia. Qed.

(** The run that is elided really is a run of zeros inside the address. *)
Lemma longest_run_spec i l j n :
  NetIP.longest_run i l = (j, n) ->
  (i <= j)%nat /\ (j - i + n <= length l)%nat /\
  take n (drop (j - i) l) = replicate n 0.
Proof.
  revert i j n. induction l as [|x l IH]; intros i j n H; cbn [NetIP.longest_run] in H.
  - simplify_eq. rewrite Nat.sub_diag. auto.
  - destruct (NetIP.longest_run (S i) l) as [j' m] eqn:E. case_decide; simplify_eq.
    + rewrite Nat.sub_diag. pose proof (zero_run_length (x :: l)).
      split; [lia|]. split; [lia|]. apply zero_run_spec.
    + apply IH in E as (H1 & H2 & H3). split; [lia|].
      replace (j - i)%nat with (S (j - S i)) by lia. simpl. split; [lia|done].
Qed.

Lemma longest_run_split l j n :
  NetIP.longest_run 0 l = (j, n) ->
  l = take j l ++ replicate n 0 ++ drop (j + n) l.
Proof.
  intros H. apply longest_run_spec in H as (_ & _ & H3).
  rewrite Nat.sub_0_r in H3. rewrite <- H3, <- drop_drop, !take_drop. done.
Qed.

Lemma hex_nonempty n : NetIP.hex n <> "".
Proof. apply digits_nonempty. Qed.

Lemma hex_list_inj l k :
  Forall (fun g => 0 <= g < 65536) l -> Forall (fun g => 0 <= g < 65536) k ->
  NetIP.hex <$> l = NetIP.hex <$> k -> l = k.
Proof.
  revert k. induction l as [|x l IH]; intros [|y k] Hl Hk E; simplify_eq/=; [done|].
  inv Hl. inv Hk. f_equal; [|by apply IH].
  apply (digits_inj 16); [lia..|done].
Qed.

(** A list of non-empty fields is separated uniquely from what follows the
    first empty field. *)
Lemma fields_split (a a' b b' : list string) :
  Forall (fun s => s <> "") a -> Forall (fun s => s <> "") a' ->
  a ++ "" :: b = a' ++ "" :: b' -> a = a' /\ b = b'.
Proof.
  revert a'. induction a as [|x a IH]; intros [|x' a'] Ha Ha' E; simplify_eq/=.
  - done.
  - by inv Ha'.
  - by inv Ha.
  - inv Ha. inv Ha'. destruct (IH a') as [-> ->]; auto.
Qed.

Lemma hex_fields_nonempty l : Forall (fun s => s <> "") (NetIP.hex <$> l).
Proof. apply Forall_fmap, Forall_true. intros x. apply hex_nonempty. Qed.

Definition side (l : list Z) : list string :=
  if decide (l = []) then [""] else NetIP.hex <$> l.

Lemma side_cons l : l <> [] -> side l = NetIP.hex <$> l.
Proof. intros. unfold side. by rewrite decide_False. Qed.

Lemma side_length l : (1 <= length (side l))%nat.
Proof. unfold side. case_decide; [done|]. destruct l; [done|]. simpl. lia. Qed.

Lemma side_inj l k :
  Forall (fun g => 0 <= g < 65536) l -> Forall (fun g => 0 <= g < 65536) k ->
  side l = side k -> l = k.
Proof.
  unfold side. intros Hl Hk. repeat case_decide; subst; [done| | |by apply hex_list_inj].
  - destruct k as [|y [|? ?]]; try done. intros E. injection E as E. by apply symmetry, hex_nonempty in E.
  - destruct l as [|y [|? ?]]; try done. intros E. injection E as E. by apply hex_nonempty in E.
Qed.

Lemma sides_inj l r l' r' :
  Forall (fun g => 0 <= g < 65536) l -> Forall (fun g => 0 <= g < 65536) l' ->
  Forall (fun g => 0 <= g < 65536) r -> Forall (fun g => 0 <= g < 65536) r' ->
  side l ++ "" :: side r = side l' ++ "" :: side r' -> l = l' /\ r = r'.
Proof.
  intros Hl Hl' Hr Hr' E. destruct (decide (l = [])) as [->|Hn], (decide (l' = [])) as [->|Hn'].
  - simpl in E. injection E as E. split; [done|]. by apply side_inj.
  - destruct l' as [|y l']; [done|]. simpl in E. injection E as E. by apply symmetry, hex_nonempty in E.
  - destruct l as [|y l]; [done|]. simpl in E. injection E as E. by apply hex_nonempty in E.
  - rewrite (side_cons l Hn), (side_cons l' Hn') in E.
    apply fields_split in E as [E1 E2]; [|apply hex_fields_nonempty..].
    split; [by apply hex_list_inj|by apply side_inj].
Qed.

Lemma fields6_run g j n : NetIP.longest_run 0 g = (j, n) -> (2 <= n)%nat ->
  NetIP.fields6 g = side (take j g) ++ "" :: side (drop (j + n) g).
Proof. intros H Hn. unfold NetIP.fields6, side. rewrite H. rewrite decide_True by done. done. Qed.

Lemma fields6_plain g j n : NetIP.longest_run 0 g = (j, n) -> ~ (2 <= n)%nat ->
  NetIP.fields6 g = NetIP.hex <$> g.
Proof. intros H Hn. unfold NetIP.fields6. rewrite H. by rewrite decide_False. Qed.

Lemma no_empty_field g l r : NetIP.hex <$> g <> l ++ "" :: r.
Proof.
  intros E. pose proof (hex_fields_nonempty g) as H. rewrite E in H.
  apply Forall_app in H as [_ H]. by inv H.
Qed.

(** Two IPv6 addresses with the same text have the same groups. *)
Lemma fields6_inj g h :
  Forall (fun x => 0 <= x < 65536) g -> Forall (fun x => 0 <= x < 65536) h ->
  length g = length h -> NetIP.fields6 g = NetIP.fields6 h -> g = h.
Proof.
  intros Hg Hh Hlen E.
  destruct (NetIP.longest_run 0 g) as [i n] eqn:Eg, (NetIP.longest_run 0 h) as [j m] eqn:Eh.
  destruct (decide (2 <= n)%nat) as [Hn|Hn], (decide (2 <= m)%nat) as [Hm|Hm].
  - rewrite (fields6_run _ _ _ Eg Hn), (fields6_run _ _ _ Eh Hm) in E.
    apply sides_inj in E as [E1 E2]; [|auto using Forall_take, Forall_drop..].
    pose proof (longest_run_split _ _ _ Eg) as Sg. pose proof (longest_run_split _ _ _ Eh) as Sh.
    rewrite Sg, Sh, E1, E2. do 2 f_equal.
    apply (f_equal length) in Sg, Sh. rewrite !length_app, !length_replicate in Sg, Sh.
    rewrite E1, E2 in Sg. f_equal. lia.
  - rewrite (fields6_run _ _ _ Eg Hn), (fields6_plain _ _ _ Eh Hm) in E.
    by apply symmetry, no_empty_field in E.
  - rewrite (fields6_plain _ _ _ Eg Hn), (fields6_run _ _ _ Eh Hm) in E.
    by apply no_empty_field in E.
  - rewrite (fields6_plain _ _ _ Eg Hn), (fields6_plain _ _ _ Eh Hm) in E.
    by apply hex_list_inj.
Qed.

Lemma groups_inj a b n :
  length a = (2 * n)%nat -> length b = (2 * n)%nat -> bytes_ok a -> bytes_ok b ->
  NetIP.groups a = NetIP.groups b -> a = b.
Proof.
  revert a b. induction n as [|n IH]; intros a b Ha Hb Fa Fb E.
  - destruct a, b; simpl in *; try lia. done.
  - destruct a as [|x [|x' a]], b as [|y [|y' b]]; simpl in Ha, Hb; try lia.
    apply Forall_cons in Fa as [Fx Fa]. apply Forall_cons in Fa as [Fx' Fa].
    apply Forall_cons in Fb as [Fy Fb]. apply Forall_cons in Fb as [Fy' Fb].
    unfold byte_ok in Fx, Fx', Fy, Fy'. cbn [NetIP.groups] in E. injection E as E1 E2.
    f_equal; [lia|]. f_equal; [lia|]. apply IH; auto; lia.
Qed.

Lemma groups_length n a : length a = (2 * n)%nat -> length (NetIP.groups a) = n.
Proof.
  revert a. induction n as [|n IH]; intros a H; destruct a as [|x [|y a]]; simpl in *; try lia.
  rewrite IH; lia.
Qed.

Lemma groups_range a : bytes_ok a -> Forall (fun x => 0 <= x < 65536) (NetIP.groups a).
Proof.
  assert (forall n b, (length b <= n)%nat -> bytes_ok b ->
    Forall (fun x => 0 <= x < 65536) (NetIP.groups b)) as H; [|by intros; eapply H].
  induction n as [|n IH]; intros b Hl Hb; destruct b as [|x [|y b]]; simpl in *; auto; try lia.
  apply Forall_cons in Hb as [Hx Hb]. apply Forall_cons in Hb as [Hy Hb].
  unfold byte_ok in Hx, Hy. constructor; [lia|]. apply IH; [lia|done].
Qed.

(** * IP.String identifies addresses up to IP.Equal *)

(** The four-byte form of an IPv4 address, any other address unchanged. *)
Definition norm (ip : list Z) : list Z :=
  match NetIP.To4 ip with Some p => p | None => ip end.

Lemma norm_4 ip : length ip = 4%nat -> norm ip = ip.
Proof. intros. unfold norm, NetIP.To4. by rewrite decide_True. Qed.

Lemma norm_16 ip : length ip = 16%nat ->
  norm ip = if decide (take 12 ip = NetIP.v4InV6Prefix) then drop 12 ip else ip.
Proof.
  intros H. unfold norm, NetIP.To4. rewrite H, decide_False by done.
  repeat case_decide; naive_solver.
Qed.

Lemma norm_length ip : valid_ip ip -> length (norm ip) = 4%nat \/ length (norm ip) = 16%nat.
Proof.
  intros [[H|H] _]; [rewrite norm_4 by done; auto|].
  rewrite norm_16 by done. case_decide; [|auto]. rewrite length_drop, H. auto.
Qed.

Lemma Equal_norm a b : valid_ip a -> valid_ip b -> NetIP.Equal a b = true <-> norm a = norm b.
Proof.
  intros [[Ha|Ha] _] [[Hb|Hb] _]; unfold NetIP.Equal; rewrite Ha, Hb;
    rewrite ?(norm_4 a), ?(norm_4 b), ?(norm_16 a), ?(norm_16 b) by done.
  - rewrite decide_True by done. apply bool_decide_eq_true.
  - rewrite decide_False, decide_True, bool_decide_eq_true by done.
    case_decide; split; try naive_solver. intros ->. lia.
  - rewrite decide_False, decide_False, decide_True, bool_decide_eq_true
      by (unfold NetIP.IPv4len, NetIP.IPv6len; lia).
    case_decide; split; try naive_solver. intros ->. lia.
  - rewrite decide_True, bool_decide_eq_true by done. split; [by intros ->|].
    repeat case_decide; intros E; try done.
    + rewrite <- (take_drop 12 a), <- (take_drop 12 b). congruence.
    + apply (f_equal length) in E. rewrite length_drop in E. lia.
    + apply (f_equal length) in E. rewrite length_drop in E. lia.
Qed.

Lemma norm_ok ip : valid_ip ip -> bytes_ok (norm ip).
Proof.
  intros [Hl Hb]. unfold norm, NetIP.To4. repeat case_decide; auto using Forall_drop.
Qed.

Lemma dec_list_inj l k : bytes_ok l -> bytes_ok k -> NetIP.dec <$> l = NetIP.dec <$> k -> l = k.
Proof.
  revert k. induction l as [|x l IH]; intros [|y k] Hl Hk E; simplify_eq/=; [done|].
  apply Forall_cons in Hl as [Hx Hl]. apply Forall_cons in Hk as [Hy Hk].
  unfold byte_ok in Hx, Hy. f_equal; [|by apply IH].
  apply (digits_inj 10); [lia..|done].
Qed.

(** The text is determined by the normal form. *)
Lemma ipString_norm ip : valid_ip ip ->
  NetIP.ipString ip =
    if decide (length (norm ip) = 4%nat) then NetIP.join "." (NetIP.dec <$> norm ip)
    else NetIP.join ":" (NetIP.fields6 (NetIP.groups (norm ip))).
Proof.
  intros [Hl Hb]. unfold NetIP.ipString, norm. destruct ip as [|x ip']; [by destruct Hl|].
  set (ip := x :: ip') in *. destruct (NetIP.To4 ip) as [p|] eqn:E.
  - rewrite decide_True; [done|]. revert E. unfold NetIP.To4. repeat case_decide; intros; simplify_eq.
    + done.
    + rewrite length_drop. destruct_and!. unfold NetIP.IPv6len in *. lia.
  - destruct Hl as [Hl|Hl].
    + unfold NetIP.To4 in E. by rewrite decide_True in E.
    + rewrite Hl. by rewrite decide_True.
Qed.

Lemma fields6_no_sep c g : is_sep c = true -> Forall (fun s => has_char c s = false) (NetIP.fields6 g).
Proof.
  intros Hc. assert (forall l, Forall (fun s => has_char c s = false) (NetIP.hex <$> l)).
  { intros l. apply Forall_fmap, Forall_true. intros x. by apply digits_sep. }
  unfold NetIP.fields6. destruct (NetIP.longest_run 0 g) as [i n].
  repeat case_decide; rewrite ?Forall_app; auto; repeat split; auto.
Qed.

Lemma dec_no_sep c l : is_sep c = true -> Forall (fun s => has_char c s = false) (NetIP.dec <$> l).
Proof. intros Hc. apply Forall_fmap, Forall_true. intros x. by apply digits_sep. Qed.

Lemma fields6_length g : length g = 8%nat -> (2 <= length (NetIP.fields6 g))%nat.
Proof.
  intros. destruct (NetIP.longest_run 0 g) as [i n] eqn:E. destruct (decide (2 <= n)%nat) as [Hn|Hn].
  - rewrite (fields6_run _ _ _ E Hn), length_app. simpl. pose proof (side_length (take i g)). lia.
  - rewrite (fields6_plain _ _ _ E Hn), length_fmap. lia.
Qed.

Lemma ipString_inj a b :
  valid_ip a -> valid_ip b -> NetIP.ipString a = NetIP.ipString b <-> NetIP.Equal a b = true.
Proof.
  intros Ha Hb. rewrite (Equal_norm a b Ha Hb).
  rewrite (ipString_norm a Ha), (ipString_norm b Hb).
  pose proof (norm_ok a Ha) as Na. pose proof (norm_ok b Hb) as Nb.
  destruct (norm_length a Ha) as [La|La], (norm_length b Hb) as [Lb|Lb]; rewrite La, Lb;
    repeat first [rewrite decide_True by done | rewrite decide_False by done].
  - split; [|by intros ->]. intros E. apply join_inj in E; try by apply dec_no_sep.
    + by apply dec_list_inj.
    + by destruct (norm a).
    + by destruct (norm b).
  - split; [|intros E; apply (f_equal length) in E; lia].
    intros E. apply (f_equal (has_char ":")) in E.
    rewrite join_has_char, join_sep in E; [done|done|by apply dec_no_sep|].
    apply fields6_length. by apply (groups_length 8).
  - split; [|intros E; apply (f_equal length) in E; lia].
    intros E. apply (f_equal (has_char ":")) in E.
    rewrite join_has_char, join_sep in E; [done|done|by apply dec_no_sep|].
    apply fields6_length. by apply (groups_length 8).
  - assert (length (NetIP.groups (norm a)) = 8%nat) as Ga by by apply groups_length.
    assert (length (NetIP.groups (norm b)) = 8%nat) as Gb by by apply groups_length.
    pose proof (fields6_length _ Ga). pose proof (fields6_length _ Gb).
    split; [|by intros ->]. intros E. apply join_inj in E; try by apply fields6_no_sep.
    + apply (groups_inj _ _ 8); auto. apply fields6_inj; auto using groups_range. lia.
    + intros E'. rewrite E' in *. simpl in *. lia.
    + intros E'. rewrite E' in *. simpl in *. lia.
Qed.

Lemma ipString_no_sep c ip : valid_ip ip -> is_sep c = true -> c <> "."%char -> c <> ":"%char ->
  has_char c (NetIP.ipString ip) = false.
Proof.
  intros H Hc Hd Hd'. rewrite ipString_norm by done. case_decide.
  - apply join_sep; [done|by apply dec_no_sep].
  - apply join_sep; [done|by apply fields6_no_sep].
Qed.

Lemma ipString_colon ip : valid_ip ip ->
  has_char ":" (NetIP.ipString ip) = true <-> length (norm ip) = 16%nat.
Proof.
  intros H. rewrite ipString_norm by done. destruct (norm_length ip H) as [L|L]; rewrite L.
  - rewrite decide_True, join_sep by (try apply dec_no_sep; done). naive_solver.
  - rewrite decide_False by done. rewrite join_has_char; [done|].
    apply fields6_length. by apply (groups_length 8).
Qed.

(** * Transport addresses and 5-tuples *)

Lemma itoa_nonneg z : 0 <= z -> itoa z = NetIP.dec z.
Proof. intros. unfold itoa. by rewrite (proj2 (Z.ltb_ge z 0)) by lia. Qed.

Lemma hostPort_valid ip p : valid_ip ip -> 0 <= p ->
  hostPortString ip p "" = JoinHostPort (NetIP.ipString ip) (NetIP.dec p).
Proof.
  intros [Hl _] Hp. unfold hostPortString. rewrite itoa_nonneg by done.
  destruct ip; [by destruct Hl|done].
Qed.

Lemma Equal_norm_length a b : valid_ip a -> valid_ip b ->
  NetIP.Equal a b = true -> length (norm a) = length (norm b).
Proof. intros Ha Hb E. apply Equal_norm in E; [|done..]. by rewrite E. Qed.

Lemma port_inj p q : 0 <= p < 65536 -> 0 <= q < 65536 -> NetIP.dec p = NetIP.dec q -> p = q.
Proof. intros. apply (digits_inj 10); [lia..|done]. Qed.

Lemma no_sep_hostPort c ip p : valid_ip ip -> is_sep c = true -> c <> "."%char -> c <> ":"%char ->
  has_char c (NetIP.ipString ip +:+ ":" +:+ NetIP.dec p) = false.
Proof.
  intros. rewrite !has_char_app, ipString_no_sep by done. unfold NetIP.dec.
  rewrite digits_sep by done. cbn [has_char]. by destruct (ascii_dec c ":").
Qed.

Lemma no_bracket ip p : valid_ip ip ->
  has_char "[" (NetIP.ipString ip +:+ ":" +:+ NetIP.dec p) = false.
Proof. intros. by apply no_sep_hostPort. Qed.

Lemma hostPort_inj a p b q :
  valid_ip a -> valid_ip b -> 0 <= p < 65536 -> 0 <= q < 65536 ->
  hostPortString a p "" = hostPortString b q "" <->
  NetIP.Equal a b = true /\ p = q.
Proof.
  intros Ha Hb Hp Hq. rewrite !hostPort_valid by (done || lia).
  split; [|intros [E ->]; apply ipString_inj in E; [|done..]; by rewrite E].
  unfold JoinHostPort.
  destruct (has_char ":" (NetIP.ipString a)) eqn:Ca, (has_char ":" (NetIP.ipString b)) eqn:Cb; intros E.
  - rewrite !app_cons in E. injection E as E.
    apply split_unique in E as [E1 E2]; [|apply ipString_no_sep; done..].
    injection E2 as E2. split; [by apply ipString_inj|by apply port_inj].
  - apply (f_equal (has_char "[")) in E. by rewrite app_cons, has_char_self, no_bracket in E.
  - symmetry in E. apply (f_equal (has_char "[")) in E. by rewrite app_cons, has_char_self, no_bracket in E.
  - rewrite !app_cons in E. apply split_unique in E as [E1 E2]; [|done..].
    split; [by apply ipString_inj|by apply port_inj].
Qed.

Lemma addrString_inj a b : valid_addr a -> valid_addr b ->
  addrString a = addrString b <-> same_endpoint a b = true.
Proof.
  intros Ha Hb. unfold same_endpoint. rewrite andb_true_iff, Z.eqb_eq.
  destruct a, b; simpl in *; try done; destruct_and!; subst; by apply hostPort_inj.
Qed.

Lemma addrString_no_sep a : valid_addr a -> has_char "_" (addrString a) = false.
Proof.
  intros Ha. assert (forall ip p, valid_ip ip -> 0 <= p ->
    has_char "_" (hostPortString ip p "") = false) as H.
  { intros ip p Hip Hp. rewrite hostPort_valid by done. unfold JoinHostPort, NetIP.dec.
    case_match; [|by apply no_sep_hostPort].
    rewrite !has_char_app, ipString_no_sep, digits_sep by done. done. }
  destruct a; simpl in *; try done; destruct_and!; subst; apply H; auto.
Qed.

Lemma Protocol_no_sep p : has_char "_" (itoa (Protocol_num p)) = false.
Proof. by destruct p; vm_compute. Qed.

Lemma Protocol_text_inj p q : itoa (Protocol_num p) = itoa (Protocol_num q) -> p = q.
Proof. by destruct p, q; vm_compute. Qed.

(** The string the server indexes its allocations with identifies the
    5-tuple: for addresses of the network (UDP or TCP, IPv4 or IPv6, an
    IPv4-mapped address being the IPv4 address it maps) two 5-tuples have the
    same fingerprint exactly when protocol, client and server endpoint are
    the same. *)
Theorem Fingerprint_identifies (f g : FiveTuple) :
  valid_addr (SrcAddr f) -> valid_addr (DstAddr f) ->
  valid_addr (SrcAddr g) -> valid_addr (DstAddr g) ->
  FiveTuple_Equal f g = true <->
  ftProtocol f = ftProtocol g /\
  same_endpoint (SrcAddr f) (SrcAddr g) = true /\
  same_endpoint (DstAddr f) (DstAddr g) = true.
Proof.
  intros Sf Df Sg Dg. unfold FiveTuple_Equal. rewrite String.eqb_eq.
  rewrite <- (addrString_inj _ _ Sf Sg), <- (addrString_inj _ _ Df Dg).
  split; [|intros (E1 & E2 & E3); unfold Fingerprint; by rewrite E1, E2, E3].
  unfold Fingerprint. rewrite !app_cons. intros E.
  apply split_unique in E as [E1 E2]; [|apply Protocol_no_sep..].
  apply split_unique in E2 as [E2 E3]; [|by apply addrString_no_sep..].
  split; [by apply Protocol_text_inj|done].
Qed.

Definition ft_example (port : Z) : FiveTuple :=
  {| ftProtocol := UDP; SrcAddr := UDPAddr [10;0;0;7] port "";
     DstAddr := UDPAddr [32;1;13;184;0;0;0;0;0;0;0;0;0;0;0;1] 3478 "" |}.

Lemma Fingerprint_identifies_witness :
  (FiveTuple_Equal (ft_example 5000) (ft_example 5000) = true <->
   UDP = UDP /\ same_endpoint (SrcAddr (ft_example 5000)) (SrcAddr (ft_example 5000)) = true /\
   same_endpoint (DstAddr (ft_example 5000)) (DstAddr (ft_example 5000)) = true) /\
  FiveTuple_Equal (ft_example 5000) (ft_example 5001) = false.
Proof.
  split; [|reflexivity].
  apply (Fingerprint_identifies (ft_example 5000) (ft_example 5000));
    (split; [split; [vm_compute; auto | repeat constructor; vm_compute; congruence]|];
     vm_compute; repeat split; congruence).
Defined.
