(* ===== verification/GoText.v ===== *)
(** The text functions of Go's standard library that the ICE code uses:
    strings.HasPrefix, HasSuffix, ToLower, Fields, TrimSpace and Split, the count of runes,
    strconv.ParseUint, hash/crc32 and net.ParseIP, and the fact that what
    IP.String and the decimal format print is read back.  [ToLower],
    [Fields] and [TrimSpace] are those of ASCII texts.

    Parsers run over the characters once, as the library's loops do.
    [parse6_loop] has one step for each of the eight groups an address can
    have. *)

From S2P Require Import Prelude GoNet.

#[local] Open Scope string_scope.
#[local] Open Scope list_scope.
#[local] Open Scope Z_scope.

(** * strings *)

Definition HasPrefix (s p : string) : bool := String.prefix p s.

Definition HasSuffix (s p : string) : bool :=
  (String.length p <=? String.length s)%nat &&
  String.eqb (String.substring (String.length s - String.length p) (String.length p) s) p.

Definition char_code (c : ascii) : Z := Z.of_nat (nat_of_ascii c).

Definition lower (c : ascii) : ascii :=
  let n := char_code c in
  if (65 <=? n) && (n <=? 90) then ascii_of_nat (Z.to_nat (n + 32)) else c.

Fixpoint ToLower (s : string) : string :=
  match s with
  | EmptyString => EmptyString
  | String c s' => String (lower c) (ToLower s')
  end.

(** [unicode.IsSpace]: tab, line feed, vertical tab, form feed, carriage
    return and space. *)
Definition IsSpace (c : ascii) : bool :=
  let n := char_code c in ((9 <=? n) && (n <=? 13)) || (n =? 32).

Definition flush_field (cur : string) (fs : list string) : list string :=
  match cur with EmptyString => fs | _ => cur :: fs end.

(** [strings.Fields]: the runs of characters that are not spaces. *)
Fixpoint fields_loop (cur : string) (s : string) : list string :=
  match s with
  | EmptyString => flush_field cur []
  | String c s' =>
      if IsSpace c then flush_field cur (fields_loop "" s')
      else fields_loop (cur +:+ String c "") s'
  end.
Definition Fields (s : string) : list string := fields_loop "" s.

(** [strings.TrimSpace], on ASCII texts. *)
Fixpoint trim_left (s : string) : string :=
  match s with
  | EmptyString => EmptyString
  | String c s' => if IsSpace c then trim_left s' else s
  end.
Fixpoint rev_string (s acc : string) : string :=
  match s with EmptyString => acc | String c s => rev_string s (String c acc) end.
Definition TrimSpace (s : string) : string := rev_string (trim_left (rev_string (trim_left s) "")) "".

(** [strings.Split] at a character. *)
Fixpoint Split (c : ascii) (s : string) : list string :=
  match s with
  | EmptyString => [EmptyString]
  | String d s' =>
      if Ascii.eqb c d then EmptyString :: Split c s'
      else match Split c s' with [] => [] | w :: ws => String d w :: ws end
  end.

(** How many bytes the first rune of a text takes (utf8.DecodeRune); what is
    not valid UTF-8 counts as one rune per byte. *)
Definition rune_width (s : list Z) : nat :=
  let within lo hi b := (lo <=? b) && (b <=? hi) in
  let cont := within 128 191 in
  match s with
  | [] => 0%nat
  | b0 :: s' =>
      let second :=
        if b0 =? 224 then within 160 191
        else if b0 =? 237 then within 128 159
        else if b0 =? 240 then within 144 191
        else if b0 =? 244 then within 128 143
        else cont in
      if within 194 223 b0 then
        match s' with b1 :: _ => if second b1 then 2%nat else 1%nat | _ => 1%nat end
      else if within 224 239 b0 then
        match s' with b1 :: b2 :: _ => if second b1 && cont b2 then 3%nat else 1%nat | _ => 1%nat end
      else if within 240 244 b0 then
        match s' with
        | b1 :: b2 :: b3 :: _ => if second b1 && cont b2 && cont b3 then 4%nat else 1%nat
        | _ => 1%nat
        end
      else 1%nat
  end.

(** [len([]rune(s))]: bytes that belong to the rune before are skipped. *)
Fixpoint count_runes (skip : nat) (s : list Z) : Z :=
  match s, skip with
  | [], _ => 0
  | _ :: s', S skip => count_runes skip s'
  | _ :: s', O => 1 + count_runes (rune_width s - 1) s'
  end.

Definition RuneCount (s : string) : Z := count_runes 0 (char_code <$> list_ascii_of_string s).

(** The part of a text before the first [c], as [s[:strings.Index(s, c)]];
    the whole text when there is none. *)
Fixpoint before_char (c : ascii) (s : string) : string :=
  match s with
  | EmptyString => EmptyString
  | String d s' => if ascii_dec c d then EmptyString else String d (before_char c s')
  end.

(** * strconv *)

Definition dec_digit (c : ascii) : option Z :=
  let n := char_code c in if (48 <=? n) && (n <=? 57) then Some (n - 48) else None.

Fixpoint parse_dec (acc : Z) (s : string) : option Z :=
  match s with
  | EmptyString => Some acc
  | String c s' =>
      match dec_digit c with
      | Some d => parse_dec (acc * 10 + d) s'
      | None => None
      end
  end.

(** [strconv.ParseUint(s, 10, bits)]; [None] is any of its errors. *)
Definition ParseUint (s : string) (bits : Z) : option Z :=
  match s with
  | EmptyString => None
  | _ =>
      match parse_dec 0 s with
      | Some n => if n <? 2 ^ bits then Some n else None
      | None => None
      end
  end.

(** * hash/crc32, IEEE polynomial *)

Definition crc_bit (crc : Z) : Z :=
  if Z.odd crc then Z.lxor (Z.shiftr crc 1) 0xEDB88320 else Z.shiftr crc 1.
Definition crc_byte (crc b : Z) : Z := Nat.iter 8 crc_bit (Z.lxor crc b).
Fixpoint crc_loop (crc : Z) (s : string) : Z :=
  match s with
  | EmptyString => crc
  | String c s' => crc_loop (crc_byte crc (char_code c)) s'
  end.
Definition ChecksumIEEE (s : string) : Z := Z.lxor (crc_loop 0xFFFFFFFF s) 0xFFFFFFFF.

Example crc_check_value : ChecksumIEEE "123456789" = 0xCBF43926.
Proof. reflexivity. Qed.

(** * net.ParseIP *)

(** The loop of the dotted form: the fields read so far, the value and the
    number of digits of the current one. *)
Fixpoint parse4_loop (fs : list Z) (val : Z) (digLen : nat) (s : string) : option (list Z) :=
  match s with
  | EmptyString => if (length fs <? 3)%nat then None else Some (fs ++ [val])
  | String c s' =>
      match dec_digit c with
      | Some d =>
          if (digLen =? 1)%nat && (val =? 0) then None
          else
            let val := val * 10 + d in
            if 255 <? val then None else parse4_loop fs val (S digLen) s'
      | None =>
          if ascii_dec c "." then
            if (digLen =? 0)%nat || String.eqb s' "" then None
            else if (length fs =? 3)%nat then None
            else parse4_loop (fs ++ [val]) 0 0 s'
          else None
      end
  end.
Definition parse4 (s : string) : option (list Z) := parse4_loop [] 0 0 s.

Definition hex_digit (c : ascii) : option Z :=
  let n := char_code c in
  if (48 <=? n) && (n <=? 57) then Some (n - 48)
  else if (97 <=? n) && (n <=? 102) then Some (n - 87)
  else if (65 <=? n) && (n <=? 70) then Some (n - 55)
  else None.

(** The digits of a group: their value, how many there are and the rest. *)
Fixpoint hex_run (acc : Z) (off : nat) (s : string) : option (Z * nat * string) :=
  match s with
  | EmptyString => Some (acc, off, s)
  | String c s' =>
      match hex_digit c with
      | None => Some (acc, off, s)
      | Some d =>
          if (3 <? off)%nat then None else hex_run (acc * 16 + d) (S off) s'
      end
  end.

(** The loop over the groups: the bytes read so far and where the ellipsis
    was; [fuel] is the number of groups there is room for. *)
Fixpoint parse6_loop (fuel : nat) (ip : list Z) (ellipsis : option nat) (s : string)
  : option (list Z * option nat) :=
  match fuel with
  | O => if String.eqb s "" then Some (ip, ellipsis) else None
  | S fuel =>
      match hex_run 0 0 s with
      | None => None
      | Some (_, O, _) => None
      | Some (acc, off, rest) =>
          let ip' := ip ++ [acc / 256; acc mod 256] in
          match rest with
          | EmptyString => Some (ip', ellipsis)
          | String c s1 =>
              if ascii_dec c "." then
                if bool_decide (ellipsis = None) && negb (length ip =? 12)%nat then None
                else if (16 <? length ip + 4)%nat then None
                else
                  match parse4 s with
                  | Some v4 => Some (ip ++ v4, ellipsis)
                  | None => None
                  end
              else if ascii_dec c ":" then
                match s1 with
                | EmptyString => None
                | String d s2 =>
                    if ascii_dec d ":" then
                      match ellipsis with
                      | Some _ => None
                      | None =>
                          if String.eqb s2 "" then Some (ip', Some (length ip'))
                          else parse6_loop fuel ip' (Some (length ip')) s2
                      end
                    else parse6_loop fuel ip' ellipsis s1
                end
              else None
          end
      end
  end.

(** The zeros the ellipsis stands for. *)
Definition expand6 (ip : list Z) (ellipsis : option nat) : option (list Z) :=
  if (length ip <? 16)%nat then
    match ellipsis with
    | None => None
    | Some e => Some (take e ip ++ replicate (16 - length ip) 0 ++ drop e ip)
    end
  else match ellipsis with Some _ => None | None => Some ip end.

Definition parse6 (s : string) : option (list Z) :=
  let '(e, s) := if HasPrefix s "::" then (Some 0%nat, String.substring 2 (String.length s - 2) s)
                 else (None, s) in
  if bool_decide (e = Some 0%nat) && String.eqb s "" then Some (replicate 16 0)
  else
    match parse6_loop 8 [] e s with
    | Some (ip, ellipsis) => expand6 ip ellipsis
    | None => None
    end.

(** Which of the two forms a text has: the first of its characters that
    belongs to one of them decides. *)
Fixpoint ip_form (s : string) : option ascii :=
  match s with
  | EmptyString => None
  | String c s' =>
      if has_char c ".:%" then Some c else ip_form s'
  end.

(** [net.ParseIP]: always the sixteen-byte form; addresses with a zone are
    refused. *)
Definition ParseIP (s : string) : option (list Z) :=
  if decide (ip_form s = Some "."%char) then (fun v4 => NetIP.v4InV6Prefix ++ v4) <$> parse4 s
  else if decide (ip_form s = Some ":"%char) then
    if has_char "%" s then None else parse6 s
  else None.

Example parse_ip_1 : ParseIP "10.0.200.3" = Some (NetIP.v4InV6Prefix ++ [10; 0; 200; 3]).
Proof. reflexivity. Qed.
Example parse_ip_2 : ParseIP "fe80::1:A%eth0" = None /\ ParseIP "10.00.1.1" = None
  /\ ParseIP "1:2:3:4:5:6:7" = None /\ ParseIP "1::2::3" = None /\ ParseIP "10.0.0.1." = None
  /\ ParseIP "1:2:3:4:5:6:7::" = Some [0;1;0;2;0;3;0;4;0;5;0;6;0;7;0;0]
  /\ ParseIP "1:2:3:4:5:6:7:8::" = None /\ ParseIP "x" = None /\ ParseIP "12345::" = None.
Proof. repeat split; reflexivity. Qed.
Example parse_ip_3 : ParseIP "2001:DB8::1" = Some [32;1;13;184;0;0;0;0;0;0;0;0;0;0;0;1]
  /\ ParseIP "::" = Some (replicate 16 0) /\ ParseIP "::ffff:1.2.3.4" = Some (NetIP.v4InV6Prefix ++ [1;2;3;4])
  /\ ParseIP "1::" = Some (0 :: 1 :: replicate 14 0).
Proof. repeat split; reflexivity. Qed.

(** * Printed numbers are read back *)

Fixpoint all_chars (f : ascii -> bool) (s : string) : bool :=
  match s with EmptyString => true | String c s' => f c && all_chars f s' end.

Definition is_dec (c : ascii) : bool := if dec_digit c then true else false.

Lemma dec_digit_val c : is_dec c = true -> dec_digit c = Some (digit_val c).
Proof.
  unfold is_dec, dec_digit, digit_val, char_code. intros. case_all; try done.
  boolp. lia.
Qed.

Lemma digit_lt d k : 0 <= d < Z.of_nat k -> (k <= 16)%nat ->
  exists i, (i < k)%nat /\ d = Z.of_nat i.
Proof. intros. exists (Z.to_nat d). lia. Qed.

Lemma is_dec_digit d : 0 <= d < 10 -> is_dec (NetIP.digit d) = true.
Proof.
  intros H. destruct (digit_lt d 10) as (i & Hi & ->); [lia|lia|].
  do 10 (destruct i as [|i]; [done|]). lia.
Qed.

Lemma dec_chars fuel n acc :
  0 <= n -> all_chars is_dec acc = true -> all_chars is_dec (NetIP.digits_aux fuel 10 n acc) = true.
Proof.
  revert n acc. induction fuel as [|f IH]; intros n acc Hn Ha; [done|].
  cbn [NetIP.digits_aux]. pose proof (Z.mod_pos_bound n 10).
  assert (all_chars is_dec (String (NetIP.digit (n mod 10)) acc) = true).
  { simpl. rewrite is_dec_digit by lia. done. }
  destruct (_ =? _); [done|]. apply IH; [|done]. apply Z.div_pos; lia.
Qed.

Lemma parse_dec_val a s : all_chars is_dec s = true -> parse_dec a s = Some (digits_val 10 a s).
Proof.
  revert a. induction s as [|c s IH]; intros a H; [done|].
  simpl in *. apply andb_true_iff in H as [Hc Hs]. rewrite dec_digit_val by done. by apply IH.
Qed.

(** A number that is printed is read back, if it fits. *)
Lemma ParseUint_dec n bits : 0 <= n < 2 ^ bits -> bits <= 64 -> ParseUint (NetIP.dec n) bits = Some n.
Proof.
  intros Hn Hb. unfold ParseUint. destruct (NetIP.dec n) as [|c s] eqn:E.
  { exfalso. revert E. apply digits_nonempty. }
  rewrite <- E. assert (n < 2 ^ 64).
  { eapply Z.lt_le_trans; [apply Hn|]. apply Z.pow_le_mono_r; lia. }
  unfold NetIP.dec, NetIP.digits. rewrite parse_dec_val by (apply dec_chars; [lia|done]).
  assert (2 ^ 64 <= 10 ^ Z.of_nat 64) by (apply Z.pow_le_mono_l; lia).
  rewrite digits_aux_val by lia. simpl. by rewrite (proj2 (Z.ltb_lt _ _)) by lia.
Qed.

(** * Printed addresses are read back *)

Lemma parse4_field n fs rest :
  byte_ok n -> exists k, (k <> 0)%nat /\
  parse4_loop fs 0 0 (NetIP.dec n +:+ rest) = parse4_loop fs n k rest.
Proof.
  intros Hn. exists (String.length (NetIP.dec n)).
  assert (exists i, (i < 256)%nat /\ n = Z.of_nat i) as (i & Hi & ->).
  { exists (Z.to_nat n). unfold byte_ok in Hn. lia. }
  clear Hn. do 256 (destruct i as [|i]; [split; [done|reflexivity]|]). lia.
Qed.

Lemma parse4_dot fs n k s :
  (k <> 0)%nat -> s <> "" -> (length fs < 3)%nat ->
  parse4_loop fs n k ("." +:+ s) = parse4_loop (fs ++ [n]) 0 0 s.
Proof.
  intros Hk Hs Hd. change ("." +:+ s) with (String "." s). cbn [parse4_loop].
  change (dec_digit ".") with (@None Z). cbv iota. destruct (ascii_dec "." "."); [|done].
  rewrite (proj2 (Nat.eqb_neq k 0)), (proj2 (String.eqb_neq s "")), (proj2 (Nat.eqb_neq _ 3))
    by (done || lia). done.
Qed.

Lemma app_nonempty_l a b : a <> "" -> a +:+ b <> "".
Proof. by destruct a. Qed.

Lemma string_app_nil_r s : s +:+ "" = s.
Proof. induction s; [done|]. rewrite app_cons. by rewrite IHs. Qed.

Lemma string_app_assoc a b c : (a +:+ b) +:+ c = a +:+ (b +:+ c).
Proof. induction a; [done|]. rewrite !app_cons. by rewrite IHa. Qed.

Lemma append_length a b : String.length (a +:+ b) = (String.length a + String.length b)%nat.
Proof. induction a as [|c a IH]; [done|]. change (String c a +:+ b) with (String c (a +:+ b)). simpl. by rewrite IH. Qed.

Lemma dec_nonempty n : NetIP.dec n <> "".
Proof. apply digits_nonempty. Qed.

Lemma parse4_join l fs :
  l <> [] -> bytes_ok l -> (length fs + length l = 4)%nat ->
  parse4_loop fs 0 0 (NetIP.join "." (NetIP.dec <$> l)) = Some (fs ++ l).
Proof.
  revert fs. induction l as [|n l IH]; intros fs Hl Hb Hlen; [done|].
  apply Forall_cons in Hb as [Hn Hb]. destruct l as [|m l].
  - destruct (parse4_field n fs "" Hn) as (k & Hk & E).
    rewrite string_app_nil_r in E. simpl. rewrite E. simpl in *.
    destruct (length fs <? 3)%nat eqn:F; [apply Nat.ltb_lt in F; lia|done].
  - rewrite !fmap_cons, join_cons2. destruct (parse4_field n fs
      ("." +:+ NetIP.join "." (NetIP.dec m :: (NetIP.dec <$> l))) Hn) as (k & Hk & ->).
    rewrite parse4_dot; [|done| |simpl in *; lia].
    + rewrite <- fmap_cons. rewrite IH by (rewrite ?length_app; simpl in *; first [done|lia]).
      by rewrite <- app_assoc.
    + destruct l; [apply dec_nonempty|]. rewrite fmap_cons, join_cons2.
      apply app_nonempty_l, dec_nonempty.
Qed.

Lemma ip_form_app a b : Forall (fun c => has_char c a = false) ["."; ":"; "%"]%char ->
  ip_form (a +:+ b) = ip_form b.
Proof.
  intros H. rewrite !Forall_cons in H. destruct H as (H1 & H2 & H3 & _).
  induction a as [|c a IH]; [done|]. rewrite app_cons. cbn [ip_form has_char] in *.
  repeat destruct (ascii_dec _ _); try done; try congruence. by apply IH.
Qed.

Lemma digits_no_form base n :
  Forall (fun c => has_char c (NetIP.digits base n) = false) ["."; ":"; "%"]%char.
Proof. repeat constructor; by apply digits_sep. Qed.

Lemma ip_form_join c l x y :
  has_char c ".:%" = true ->
  ip_form (NetIP.join (String c "") (NetIP.digits x y :: l)) = match l with [] => None | _ => Some c end.
Proof.
  intros Hc. destruct l as [|z l].
  - simpl. rewrite <- (string_app_nil_r (NetIP.digits x y)), ip_form_app; [done|apply digits_no_form].
  - rewrite join_cons2, ip_form_app by apply digits_no_form. rewrite app_cons. cbn [ip_form].
    by rewrite Hc.
Qed.

Lemma ParseIP_v4 ip : length ip = 4%nat -> bytes_ok ip ->
  ParseIP (NetIP.ipString ip) = Some (NetIP.v4InV6Prefix ++ ip).
Proof.
  intros Hl Hb. assert (valid_ip ip) as Hv by (split; auto).
  rewrite ipString_norm by done. rewrite norm_4 by done. rewrite decide_True by done.
  destruct ip as [|a [|b ip]]; try done.
  assert (ip_form (NetIP.join "." (NetIP.dec <$> a :: b :: ip)) = Some "."%char) as F.
  { rewrite fmap_cons. unfold NetIP.dec at 1. change "." with (String "." ""). by rewrite ip_form_join. }
  unfold ParseIP. rewrite F, decide_True by done. unfold parse4. by rewrite parse4_join.
Qed.

(** The bytes of 16-bit groups. *)
Definition ungroup (l : list Z) : list Z := l ≫= fun g => [g / 256; g mod 256].

Abbreviation groups_ok := (Forall (fun g => 0 <= g < 65536)).

Lemma ungroup_groups n ip : length ip = (2 * n)%nat -> bytes_ok ip -> ungroup (NetIP.groups ip) = ip.
Proof.
  revert ip. induction n as [|n IH]; intros ip Hl Hb; destruct ip as [|x [|y ip]]; simpl in *; try lia; try done.
  apply Forall_cons in Hb as [Hx Hb]. apply Forall_cons in Hb as [Hy Hb]. unfold byte_ok in *.
  f_equal; [|f_equal; [|apply IH; [lia|done]]]; Z.to_euclidean_division_equations; lia.
Qed.

Lemma ungroup_app l k : ungroup (l ++ k) = ungroup l ++ ungroup k.
Proof. apply bind_app. Qed.

Lemma length_ungroup l : length (ungroup l) = (2 * length l)%nat.
Proof. induction l; simpl in *; [done|]. unfold ungroup in *. simpl. lia. Qed.

Lemma ungroup_zeros n : ungroup (replicate n 0) = replicate (2 * n) 0.
Proof.
  induction n; [done|]. replace (2 * S n)%nat with (S (S (2 * n))) by lia.
  change (replicate (S n) 0) with ([0] ++ replicate n 0). rewrite ungroup_app, IHn. done.
Qed.

Definition is_hex (c : ascii) : bool :=
  if decide (hex_digit c = Some (digit_val c)) then true else false.

Lemma is_hex_digit d : is_hex (NetIP.digit d) = true.
Proof.
  destruct (digit_cases d) as (i & Hi & ->). do 16 (destruct i as [|i]; [done|]). lia.
Qed.

Lemma hex_chars fuel base n acc :
  all_chars is_hex acc = true -> all_chars is_hex (NetIP.digits_aux fuel base n acc) = true.
Proof.
  revert n acc. induction fuel as [|f IH]; intros n acc Ha; [done|].
  cbn [NetIP.digits_aux].
  assert (all_chars is_hex (String (NetIP.digit (n mod base)) acc) = true).
  { simpl. by rewrite is_hex_digit. }
  destruct (_ =? _); [done|]. by apply IH.
Qed.

Lemma digits_aux_length k fuel base n acc : 2 <= base -> 0 <= n < base ^ Z.of_nat (S k) ->
  (String.length (NetIP.digits_aux fuel base n acc) <= S k + String.length acc)%nat.
Proof.
  intros Hb. revert k n acc. induction fuel as [|f IH]; intros k n acc Hn; cbn [NetIP.digits_aux]; [lia|].
  destruct (n / base =? 0) eqn:E; boolp; [simpl; lia|]. destruct k as [|k].
  - exfalso. apply E. apply Z.div_small. change (base ^ Z.of_nat 1) with (base ^ 1) in Hn.
    rewrite Z.pow_1_r in Hn. lia.
  - etrans; [apply (IH k)|simpl; lia]. split; [apply Z.div_pos; lia|].
    apply Z.div_lt_upper_bound; [lia|]. rewrite <- Z.pow_succ_r by lia.
    replace (Z.succ (Z.of_nat (S k))) with (Z.of_nat (S (S k))) by lia. apply Hn.
Qed.

(** The end of the text or a colon: where a group ends. *)
Definition group_end (s : string) : Prop := s = "" \/ exists s', s = String ":" s'.

Lemma hex_run_end acc off s : group_end s -> hex_run acc off s = Some (acc, off, s).
Proof. by intros [->|(s' & ->)]. Qed.

Lemma hex_run_chars s acc off rest :
  all_chars is_hex s = true -> (off + String.length s <= 4)%nat -> group_end rest ->
  hex_run acc off (s +:+ rest) = Some (digits_val 16 acc s, (off + String.length s)%nat, rest).
Proof.
  revert acc off. induction s as [|c s IH]; intros acc off Hs Hl Hr.
  - rewrite Nat.add_0_r. by apply hex_run_end.
  - simpl in Hs, Hl. apply andb_true_iff in Hs as [Hc Hs]. rewrite app_cons. cbn [hex_run].
    unfold is_hex in Hc. destruct (decide _) as [->|]; [|done].
    rewrite (proj2 (Nat.ltb_ge 3 off)) by lia. rewrite IH by (done || lia).
    simpl. by rewrite Nat.add_succ_r.
Qed.

Lemma hex_run_hex g rest : 0 <= g < 65536 -> group_end rest ->
  exists k, hex_run 0 0 (NetIP.hex g +:+ rest) = Some (g, S k, rest).
Proof.
  intros Hg Hr. unfold NetIP.hex, NetIP.digits.
  assert (0 <= g < 16 ^ Z.of_nat 4) as Hg' by (change (16 ^ Z.of_nat 4) with 65536; done).
  assert (String.length (NetIP.digits_aux 64 16 g "") <= 4 + 0)%nat
    by (apply (digits_aux_length 3); [done|exact Hg']).
  rewrite hex_run_chars; [|by apply hex_chars|lia|done].
  assert (2 ^ 64 <= 16 ^ Z.of_nat 64) by (by apply Z.pow_le_mono_l).
  rewrite digits_aux_val; [|lia|lia].
  pose proof (digits_aux_S_nonempty 63 16 g ""). destruct (NetIP.digits_aux 64 16 g ""); [done|].
  simpl. eauto.
Qed.

Lemma parse6_group fuel ip e g rest : 0 <= g < 65536 -> group_end rest ->
  parse6_loop (S fuel) ip e (NetIP.hex g +:+ rest) =
    let ip' := ip ++ ungroup [g] in
    match rest with
    | EmptyString => Some (ip', e)
    | String _ s1 =>
        match s1 with
        | EmptyString => None
        | String d s2 =>
            if ascii_dec d ":" then
              match e with
              | Some _ => None
              | None => if String.eqb s2 "" then Some (ip', Some (length ip'))
                        else parse6_loop fuel ip' (Some (length ip')) s2
              end
            else parse6_loop fuel ip' e s1
        end
    end.
Proof.
  intros Hg Hr. destruct (hex_run_hex g rest Hg Hr) as (k & E).
  cbn [parse6_loop]. rewrite E. cbv zeta. by destruct Hr as [->|(s & ->)].
Qed.

Lemma hex_head g : exists c s, NetIP.hex g = String c s /\ c <> ":"%char.
Proof.
  destruct (NetIP.hex g) as [|c s] eqn:E; [by apply hex_nonempty in E|]. exists c, s. split; [done|].
  intros ->. assert (has_char ":" (NetIP.hex g) = false) as F by by apply digits_sep.
  by rewrite E, has_char_self in F.
Qed.

(** A colon and the next group. *)
Lemma parse6_colon fuel ip e g h rest : 0 <= g < 65536 ->
  parse6_loop (S fuel) ip e (NetIP.hex g +:+ ":" +:+ NetIP.hex h +:+ rest) =
  parse6_loop fuel (ip ++ ungroup [g]) e (NetIP.hex h +:+ rest).
Proof.
  intros Hg. rewrite parse6_group by (first [done | right; eexists; rewrite app_cons; reflexivity]).
  rewrite app_cons. cbv zeta. change ("" +:+ ?x) with x.
  destruct (hex_head h) as (c & s & -> & Hc). rewrite app_cons.
  by destruct (ascii_dec c ":").
Qed.

Definition hexes (l : list Z) : string := NetIP.join ":" (NetIP.hex <$> l).

Lemma hexes_cons2 g h l rest :
  hexes (g :: h :: l) +:+ rest = NetIP.hex g +:+ ":" +:+ hexes (h :: l) +:+ rest.
Proof. unfold hexes. rewrite !fmap_cons, join_cons2, string_app_assoc. by rewrite app_cons. Qed.

Lemma hexes_head h l rest : exists r, hexes (h :: l) +:+ rest = NetIP.hex h +:+ r.
Proof.
  destruct l as [|k l]; [by exists rest|]. exists (":" +:+ hexes (k :: l) +:+ rest). apply hexes_cons2.
Qed.

Lemma hexes_nonempty l : l <> [] -> hexes l <> "".
Proof.
  destruct l as [|h l]; [done|]. intros _. destruct (hexes_head h l "") as (s & E).
  rewrite string_app_nil_r in E. rewrite E. apply app_nonempty_l, hex_nonempty.
Qed.

(** All the groups of a list, up to the last one. *)
Lemma parse6_hexes l g fuel ip e rest :
  groups_ok l -> (length l <= fuel)%nat ->
  parse6_loop fuel ip e (hexes (l ++ [g]) +:+ rest) =
  parse6_loop (fuel - length l) (ip ++ ungroup l) e (NetIP.hex g +:+ rest).
Proof.
  revert fuel ip. induction l as [|h l IH]; intros fuel ip Hl Hf.
  - simpl. by rewrite app_nil_r, Nat.sub_0_r.
  - apply Forall_cons in Hl as [Hh Hl]. simpl in Hf. destruct fuel as [|fuel]; [lia|].
    assert (exists k l', l ++ [g] = k :: l') as (k & l' & El) by (destruct l; simpl; eauto).
    change ((h :: l) ++ [g]) with (h :: (l ++ [g])). rewrite El, hexes_cons2, <- El.
    rewrite El. destruct (hexes_head k l' rest) as (r & Er). rewrite Er, parse6_colon by done.
    rewrite <- Er, <- El, IH by (done || lia). simpl. by rewrite <- app_assoc.
Qed.

(** The text of an IPv6 address without and with an ellipsis. *)
Lemma parse6_plain l fuel ip e :
  l <> [] -> groups_ok l -> (length l <= fuel)%nat ->
  parse6_loop fuel ip e (hexes l) = Some (ip ++ ungroup l, e).
Proof.
  intros Hl Hok Hf. destruct (exists_last Hl) as (k & g & ->).
  rewrite length_app in Hf. simpl in Hf. apply Forall_app in Hok as [Hk Hg]. inv Hg.
  rewrite <- (string_app_nil_r (hexes (k ++ [g]))), parse6_hexes by (done || lia).
  destruct (fuel - length k)%nat as [|n] eqn:E; [lia|].
  rewrite parse6_group by (done || by left). cbv zeta. by rewrite <- app_assoc, <- ungroup_app.
Qed.

Lemma parse6_ellipsis l fuel ip s :
  l <> [] -> groups_ok l -> (length l <= fuel)%nat ->
  parse6_loop fuel ip None (hexes l +:+ "::" +:+ s) =
    let ip' := ip ++ ungroup l in
    if String.eqb s "" then Some (ip', Some (length ip'))
    else parse6_loop (fuel - length l) ip' (Some (length ip')) s.
Proof.
  intros Hl Hok Hf. destruct (exists_last Hl) as (k & g & ->).
  rewrite length_app in *. simpl length in *. apply Forall_app in Hok as [Hk Hg]. inv Hg.
  rewrite parse6_hexes by (done || lia).
  destruct (fuel - length k)%nat as [|n] eqn:E; [lia|].
  rewrite parse6_group by (first [done | right; eexists; rewrite app_cons; reflexivity]).
  rewrite !app_cons. cbv zeta. change ("" +:+ s) with s. destruct (ascii_dec ":" ":"); [|done].
  rewrite <- app_assoc, <- ungroup_app. replace (fuel - (length k + 1))%nat with n by lia. done.
Qed.

Lemma hexes_no_prefix l rest : l <> [] -> HasPrefix (hexes l +:+ rest) "::" = false.
Proof.
  intros Hl. destruct l as [|h l]; [done|]. destruct (hexes_head h l rest) as (r & ->).
  destruct (hex_head h) as (c & s & -> & Hc). rewrite app_cons. unfold HasPrefix.
  cbn [String.prefix]. destruct (ascii_dec ":" c); [congruence|done].
Qed.

Lemma substring_all s : String.substring 0 (String.length s) s = s.
Proof. induction s; simpl; [done|]. by rewrite IHs. Qed.

Lemma prefix_rest s : HasPrefix ("::" +:+ s) "::" = true /\
  String.substring 2 (String.length ("::" +:+ s) - 2) ("::" +:+ s) = s.
Proof.
  rewrite !app_cons. change ("" +:+ s) with s. split; [by destruct s|].
  simpl. rewrite Nat.sub_0_r. apply substring_all.
Qed.

Lemma join_app_nonempty sep l k : l <> [] -> k <> [] ->
  NetIP.join sep (l ++ k) = NetIP.join sep l +:+ sep +:+ NetIP.join sep k.
Proof.
  intros Hl Hk. induction l as [|x l IH]; [done|]. destruct l as [|y l].
  - by destruct k.
  - change ((x :: y :: l) ++ k) with (x :: y :: (l ++ k)). rewrite !join_cons2.
    rewrite <- app_comm_cons in IH. rewrite IH by done. by rewrite !string_app_assoc.
Qed.

(** The text around an ellipsis. *)
Lemma join_sides l r :
  NetIP.join ":" (side l ++ "" :: side r) = hexes l +:+ "::" +:+ hexes r.
Proof.
  unfold side, hexes. repeat case_decide; subst; simpl.
  - done.
  - destruct r; [done|]. by rewrite !app_cons.
  - rewrite join_app_nonempty by (done || by destruct l). simpl. by rewrite !app_cons.
  - rewrite join_app_nonempty by (done || by destruct l).
    change ("" :: (NetIP.hex <$> r)) with ([""] ++ (NetIP.hex <$> r)).
    rewrite join_app_nonempty by (done || by destruct r). simpl. by rewrite !app_cons.
Qed.

Lemma expand6_sides l r n : (1 <= n)%nat -> (length l + n + length r = 8)%nat ->
  expand6 (ungroup l ++ ungroup r) (Some (length (ungroup l))) = Some (ungroup (l ++ replicate n 0 ++ r)).
Proof.
  intros Hn Hlen. unfold expand6. rewrite length_app, !length_ungroup.
  rewrite (proj2 (Nat.ltb_lt _ 16)) by lia. rewrite !ungroup_app, ungroup_zeros.
  rewrite take_app_length', drop_app_length' by (rewrite length_ungroup; lia).
  do 3 f_equal. f_equal. lia.
Qed.

Lemma parse6_sides l r n : groups_ok l -> groups_ok r -> (1 <= n)%nat ->
  (length l + n + length r = 8)%nat ->
  parse6 (hexes l +:+ "::" +:+ hexes r) = Some (ungroup (l ++ replicate n 0 ++ r)).
Proof.
  intros Hl Hr Hn Hlen. unfold parse6. destruct (decide (l = [])) as [->|El].
  - change (hexes [] +:+ "::" +:+ hexes r) with ("::" +:+ hexes r).
    destruct (prefix_rest (hexes r)) as [-> ->]. rewrite bool_decide_true by done.
    destruct (decide (r = [])) as [->|Er].
    + simpl in *. rewrite app_nil_r, ungroup_zeros. by replace n with 8%nat by lia.
    + rewrite (proj2 (String.eqb_neq (hexes r) "")) by by apply hexes_nonempty.
      rewrite parse6_plain by (done || simpl in *; lia). apply (expand6_sides []); simpl in *; lia.
  - rewrite hexes_no_prefix, bool_decide_false by done. simpl andb. cbv iota.
    rewrite parse6_ellipsis by (done || lia). cbv zeta. rewrite app_nil_l.
    destruct (decide (r = [])) as [->|Er].
    + change (hexes [] =? "")%string with true. cbv iota.
      rewrite <- (expand6_sides l [] n) by done. by rewrite app_nil_r.
    + rewrite (proj2 (String.eqb_neq (hexes r) "")) by by apply hexes_nonempty.
      rewrite parse6_plain by (done || lia). by apply expand6_sides.
Qed.

Lemma parse6_fields g : length g = 8%nat -> groups_ok g ->
  parse6 (NetIP.join ":" (NetIP.fields6 g)) = Some (ungroup g).
Proof.
  intros Hl Hg. destruct (NetIP.longest_run 0 g) as [j n] eqn:E.
  destruct (decide (2 <= n)%nat) as [Hn|Hn].
  - rewrite (fields6_run _ _ _ E Hn), join_sides. pose proof (longest_run_spec _ _ _ _ E) as (_ & Hj & _).
    rewrite (longest_run_split _ _ _ E) at 3.
    apply parse6_sides; auto using Forall_take, Forall_drop; [lia|].
    rewrite length_take, length_drop. lia.
  - rewrite (fields6_plain _ _ _ E Hn). change (NetIP.join ":" (NetIP.hex <$> g)) with (hexes g).
    assert (g <> []) by (by intros ->). unfold parse6.
    rewrite <- (string_app_nil_r (hexes g)), hexes_no_prefix, string_app_nil_r by done.
    rewrite bool_decide_false by done. simpl andb. cbv iota.
    rewrite parse6_plain by (done || lia). unfold expand6.
    rewrite app_nil_l, length_ungroup, Hl. done.
Qed.

(** [IP.To16]. *)
Definition To16 (ip : list Z) : list Z :=
  if decide (length ip = 4%nat) then NetIP.v4InV6Prefix ++ ip else ip.

Lemma ip_form_colon g : length g = 8%nat -> ip_form (NetIP.join ":" (NetIP.fields6 g)) = Some ":"%char.
Proof.
  intros Hl. pose proof (fields6_length g Hl) as Hf.
  assert (Forall (fun s => Forall (fun c => has_char c s = false) [":"; "."; "%"]%char) (NetIP.fields6 g)) as F.
  { pose proof (fields6_no_sep ":" g eq_refl) as F1. pose proof (fields6_no_sep "." g eq_refl) as F2.
    pose proof (fields6_no_sep "%" g eq_refl) as F3. rewrite Forall_forall in *. intros s Hs.
    repeat constructor; auto. }
  destruct (NetIP.fields6 g) as [|x [|y l]]; simpl in Hf; try lia. inv F.
  rewrite join_cons2, ip_form_app; [done|]. rewrite !Forall_cons in *. naive_solver.
Qed.

(** [net.ParseIP] reads what [IP.String] prints. *)
Lemma ParseIP_String ip : valid_ip ip -> ParseIP (NetIP.ipString ip) = Some (To16 ip).
Proof.
  intros Hv. pose proof Hv as [[Hl|Hl] Hb]; unfold To16; rewrite Hl.
  - rewrite decide_True by done. by apply ParseIP_v4.
  - rewrite decide_False by done. destruct (decide (take 12 ip = NetIP.v4InV6Prefix)) as [E|E].
    + assert (valid_ip (drop 12 ip)) as Hd.
      { split; [left; rewrite length_drop; lia|by apply Forall_drop]. }
      transitivity (ParseIP (NetIP.ipString (drop 12 ip))).
      { rewrite (ipString_norm ip), (ipString_norm (drop 12 ip)) by done.
        assert (norm ip = norm (drop 12 ip)) as ->; [|done].
        rewrite (norm_4 (drop 12 ip)) by (rewrite length_drop; lia).
        rewrite norm_16 by done. by rewrite decide_True. }
      rewrite ParseIP_v4 by (first [by apply Forall_drop | rewrite length_drop; lia]).
      rewrite <- E. by rewrite take_drop.
    + assert (norm ip = ip) as En by (rewrite norm_16 by done; by rewrite decide_False).
      rewrite ipString_norm, En, Hl, (decide_False (P := 16%nat = 4%nat)) by done.
      assert (length (NetIP.groups ip) = 8%nat) as Hg by by apply groups_length.
      unfold ParseIP. rewrite ip_form_colon, decide_False, decide_True by done.
      rewrite join_sep by (try done; by apply fields6_no_sep).
      rewrite parse6_fields by (done || by apply groups_range). by rewrite (ungroup_groups 8).
Qed.

(** * Words and the spaces between them *)

(** A text without spaces that is not empty. *)
Definition token (s : string) : Prop := s <> "" /\ all_chars (fun c => negb (IsSpace c)) s = true.

Lemma fields_word cur w rest :
  all_chars (fun c => negb (IsSpace c)) w = true ->
  fields_loop cur (w +:+ rest) = fields_loop (cur +:+ w) rest.
Proof.
  revert cur. induction w as [|c w IH]; intros cur Hw.
  - by rewrite string_app_nil_r.
  - simpl in Hw. apply andb_true_iff in Hw as [Hc Hw]. rewrite app_cons. cbn [fields_loop].
    apply negb_true_iff in Hc. rewrite Hc, IH by done.
    by rewrite string_app_assoc, app_cons.
Qed.

(** [strings.Fields] gives back the words that were joined by spaces. *)
Lemma Fields_join l : Forall token l -> Fields (NetIP.join " " l) = l.
Proof.
  unfold Fields. induction l as [|w l IH]; intros Hl; [done|].
  apply Forall_cons in Hl as [[Hw Hc] Hl].
  assert (flush_field w (fields_loop "" (NetIP.join " " l)) = w :: l) as E.
  { rewrite IH by done. by destruct w. }
  destruct l as [|v l].
  - simpl. rewrite <- (string_app_nil_r w) at 1. by rewrite fields_word.
  - rewrite join_cons2, fields_word by done. rewrite app_cons. cbn [fields_loop].
    change (IsSpace " ") with true. cbv iota. exact E.
Qed.

Lemma Fields_space s : Fields (" " +:+ s) = Fields s.
Proof. done. Qed.

Lemma all_chars_impl f g s :
  (forall c, f c = true -> g c = true) -> all_chars f s = true -> all_chars g s = true.
Proof.
  intros H. induction s as [|c s IH]; [done|]. simpl. intros Hs.
  apply andb_true_iff in Hs as [Hc Hs]. rewrite H, IH by done. done.
Qed.

Lemma digit_not_space c : is_dec c = true -> negb (IsSpace c) = true.
Proof.
  unfold is_dec, dec_digit, IsSpace. destruct (_ && _) eqn:E; [|done]. intros _.
  apply andb_true_iff in E as [E _]. apply Z.leb_le in E. apply negb_true_iff, orb_false_iff. split.
  - apply andb_false_iff. right. apply Z.leb_gt. lia.
  - apply Z.eqb_neq. lia.
Qed.

Lemma itoa_token n : 0 <= n -> token (itoa n).
Proof.
  intros. rewrite itoa_nonneg by done. split; [apply dec_nonempty|].
  apply (all_chars_impl is_dec); [exact digit_not_space|]. by apply dec_chars.
Qed.

Lemma before_char_absent c s : has_char c s = false -> before_char c s = s.
Proof.
  induction s as [|d s IH]; [done|]. simpl. destruct (ascii_dec c d); [done|]. intros. by rewrite IH.
Qed.

#[export] Hint Resolve itoa_token : turn.
