(* ===== verification/GoIO.v ===== *)
(** What the media containers use of Go's packages io and encoding/binary:
    [io.ReadFull] over a stream of bytes, and little-endian fields. *)

From S2P Require Import Prelude GoText.

(** The error of a read: the end of the stream, the end in the middle of what
    was to be read, or an error of the reader below. *)
Inductive read_error := EOF | ErrUnexpectedEOF | ReadFailed.

#[export] Instance read_error_eq_dec : EqDecision read_error.
Proof. solve_decision. Defined.

(** A stream: the bytes that are still to come, and whether an error other than
    the end comes after them.  How the bytes are cut into calls of [Read] makes
    no difference to [ReadFull]. *)
Record stream := { rest : bytes; fails : bool }.

(** [io.ReadFull] of [n] bytes. *)
Definition ReadFull (n : Z) (s : stream) : result read_error bytes * stream :=
  if n <=? 0 then (Ok [], s)
  else if n <=? blen (rest s) then (Ok (take (Z.to_nat n) (rest s)), {| rest := drop (Z.to_nat n) (rest s); fails := fails s |})
  else (Err (if fails s then ReadFailed else if blen (rest s) =? 0 then EOF else ErrUnexpectedEOF), {| rest := []; fails := fails s |}).

Definition stream_of (l : bytes) : stream := {| rest := l; fails := false |}.

(** encoding/binary, LittleEndian. *)
Definition lePutUint16 (v : Z) : bytes := [u8 v; u8 (Z.shiftr v 8)].
Definition lePutUint32 (v : Z) : bytes := [u8 v; u8 (Z.shiftr v 8); u8 (Z.shiftr v 16); u8 (Z.shiftr v 24)].
Definition lePutUint64 (v : Z) : bytes := lePutUint32 (u32 v) ++ lePutUint32 (u32 (Z.shiftr v 32)).
Definition leUint16 (l : bytes) : Z := byte_at l 0 + 256 * byte_at l 1.
Definition leUint32 (l : bytes) : Z := byte_at l 0 + 256 * (byte_at l 1 + 256 * (byte_at l 2 + 256 * byte_at l 3)).
Definition leUint64 (l : bytes) : Z := leUint32 l + 4294967296 * leUint32 (drop 4 l).

(** [PutUintN(s[i:], v)] and [copy(s[i:], new)] within the slice. *)
Definition put_at (i : nat) (new s : bytes) : bytes := take i s ++ new ++ drop (i + length new) s.

(** The bytes of a text. *)
Definition text (s : string) : bytes := char_code <$> list_ascii_of_string s.

(** * Files *)

(** What an [io.Writer] of the media writers is: its contents, the position of
    the next write, whether it can be repositioned (it is a file and not a
    buffer), and how many more calls succeed. *)
Record file := { contents : bytes; pos : nat; seekable : bool; budget : option nat }.

Definition new_file (seekable : bool) (budget : option nat) : file := {| contents := []; pos := 0; seekable := seekable; budget := budget |}.

(** A call on the file, if it succeeds. *)
Definition on_file (f : file -> file) (w : file) : bool * file :=
  match budget w with
  | Some O => (false, w)
  | Some (S n) => (true, f {| contents := contents w; pos := pos w; seekable := seekable w; budget := Some n |})
  | None => (true, f w)
  end.

Definition Write (b : bytes) : file -> bool * file :=
  on_file (fun w => {| contents := put_at (pos w) b (contents w); pos := pos w + length b; seekable := seekable w; budget := budget w |}).
Definition Seek (offset : nat) : file -> bool * file :=
  on_file (fun w => {| contents := contents w; pos := offset; seekable := seekable w; budget := budget w |}).

(** * Lemmas *)

(** A file without limits, written to at its end. *)
Definition good_file (seek : bool) (l : bytes) : file := {| contents := l; pos := length l; seekable := seek; budget := None |}.

Lemma Write_good seek l b : Write b (good_file seek l) = (true, good_file seek (l ++ b)).
Proof.
  unfold Write, on_file, good_file, put_at. simpl. rewrite take_ge by lia. rewrite drop_ge by lia.
  rewrite app_nil_r, length_app. done.
Qed.

Lemma leUint16_put v l : 0 <= v < 65536 -> leUint16 (lePutUint16 v ++ l) = v.
Proof. intros. pose proof (u16_split v H). unfold leUint16, lePutUint16, byte_at. simpl. lia. Qed.

Lemma leUint32_put v l : 0 <= v < 4294967296 -> leUint32 (lePutUint32 v ++ l) = v.
Proof.
  intros H. pose proof (getUint32_put v [] H) as Hg. unfold getUint32, putUint32, byte_at in Hg.
  unfold leUint32, lePutUint32, byte_at. simpl in *. lia.
Qed.

Lemma leUint64_put v l : 0 <= v < 18446744073709551616 -> leUint64 (lePutUint64 v ++ l) = v.
Proof.
  intros Hv. unfold leUint64, lePutUint64. rewrite <- app_assoc, leUint32_put by apply u32_range.
  change (drop 4 _) with (lePutUint32 (u32 (Z.shiftr v 32)) ++ l). rewrite leUint32_put by apply u32_range.
  unfold u32. rewrite shiftr_div by lia. change (2 ^ 32) with 4294967296.
  rewrite (Z.mod_small (v / 4294967296)) by (split; [apply Z.div_pos|apply Z.div_lt_upper_bound]; lia).
  pose proof (Z.div_mod v 4294967296). lia.
Qed.

Lemma lePutUint16_ok v : bytes_ok (lePutUint16 v).
Proof. repeat constructor; apply u8_ok. Qed.
Lemma lePutUint32_ok v : bytes_ok (lePutUint32 v).
Proof. repeat constructor; apply u8_ok. Qed.

(** A stream that goes on with [l] gives [l]. *)
Lemma ReadFull_app n l r b : n = blen l -> ReadFull n {| rest := l ++ r; fails := b |} = (Ok l, {| rest := r; fails := b |}).
Proof.
  intros ->. unfold ReadFull. simpl. pose proof (blen_nonneg l). pose proof (blen_nonneg r). destruct (Z.leb_spec (blen l) 0).
  - destruct l; [done|]. unfold blen in *. simpl in *. lia.
  - rewrite blen_app, (proj2 (Z.leb_le _ _)) by lia. unfold blen. rewrite Nat2Z.id. by rewrite take_app_length, drop_app_length.
Qed.

(** A stream that ends inside what is to be read. *)
Lemma ReadFull_short n l : blen l < n -> ReadFull n (stream_of l) = (Err (if blen l =? 0 then EOF else ErrUnexpectedEOF), stream_of []).
Proof.
  intros. unfold ReadFull, stream_of. simpl. pose proof (blen_nonneg l).
  rewrite (proj2 (Z.leb_gt n 0)), (proj2 (Z.leb_gt n _)) by lia. done.
Qed.

Lemma ReadFull_len n s l s' : 0 <= n -> ReadFull n s = (Ok l, s') -> blen l = n /\ rest s = l ++ rest s'.
Proof.
  unfold ReadFull. intros Hn. destruct (Z.leb_spec n 0); [intros; simplify_eq; split; [change (blen []) with 0; lia|done]|].
  destruct (Z.leb_spec n (blen (rest s))); intros; simplify_eq/=. split; [rewrite blen_take; lia|]. by rewrite take_drop.
Qed.
