(* ===== verification/GoHash.v ===== *)
(** What the WebSocket handshake uses of Go's packages encoding/base64
    (StdEncoding) and crypto/sha1. *)

From S2P Require Import Prelude GoText.

#[local] Open Scope list_scope.
#[local] Open Scope Z_scope.

(** * base64.StdEncoding *)

Definition base64_alphabet : string := "ABCDEFGHIJKLMNOPQRSTUVWXYZabcdefghijklmnopqrstuvwxyz0123456789+/".

Definition encode6 (v : Z) : ascii := default "A"%char (String.get (Z.to_nat v) base64_alphabet).

Definition decode6 (c : ascii) : option Z :=
  let n := char_code c in
  if (65 <=? n) && (n <=? 90) then Some (n - 65)
  else if (97 <=? n) && (n <=? 122) then Some (n - 71)
  else if (48 <=? n) && (n <=? 57) then Some (n + 4)
  else if n =? 43 then Some 62
  else if n =? 47 then Some 63
  else None.

Fixpoint EncodeToString (src : bytes) : string :=
  match src with
  | [] => ""
  | [a] => String (encode6 (a / 4)) (String (encode6 (a mod 4 * 16)) "==")
  | [a; b] => String (encode6 (a / 4)) (String (encode6 (a mod 4 * 16 + b / 16)) (String (encode6 (b mod 16 * 4)) "="))
  | a :: b :: c :: src =>
      String (encode6 (a / 4)) (String (encode6 (a mod 4 * 16 + b / 16))
        (String (encode6 (b mod 16 * 4 + c / 64)) (String (encode6 (c mod 64)) (EncodeToString src))))
  end.

(** Quanta of four characters, the last of them padded; bits after the last
    byte are not looked at. *)
Fixpoint decode_quanta (s : string) : option bytes :=
  match s with
  | EmptyString => Some []
  | String a (String b (String c (String d s))) =>
      a ← decode6 a; b ← decode6 b;
      let x := a * 4 + b / 16 in
      match decode6 c, decode6 d with
      | Some c, Some d => rest ← decode_quanta s; Some (x :: b mod 16 * 16 + c / 4 :: c mod 4 * 64 + d :: rest)
      | Some c, None => if Ascii.eqb d "=" && String.eqb s "" then Some [x; b mod 16 * 16 + c / 4] else None
      | None, _ => if Ascii.eqb c "=" && Ascii.eqb d "=" && String.eqb s "" then Some [x] else None
      end
  | _ => None
  end.

(** Line breaks are skipped wherever they are. *)
Fixpoint without_breaks (s : string) : string :=
  match s with
  | EmptyString => EmptyString
  | String c s => if (char_code c =? 10) || (char_code c =? 13) then without_breaks s else String c (without_breaks s)
  end.

Definition DecodeString (s : string) : option bytes := decode_quanta (without_breaks s).

(** * crypto/sha1 *)

Definition rotl (n x : Z) : Z := u32 (Z.lor (Z.shiftl x n) (Z.shiftr x (32 - n))).

Definition sha1_pad (m : bytes) : bytes :=
  let n := length m in
  m ++ 128 :: replicate (Z.to_nat ((55 - Z.of_nat n) mod 64)) 0 ++ putUint64 (8 * Z.of_nat n).

Fixpoint words_of (s : bytes) : list Z :=
  match s with
  | a :: b :: c :: d :: s => (a * 2 ^ 24 + b * 2 ^ 16 + c * 2 ^ 8 + d) :: words_of s
  | _ => []
  end.

(** The message schedule; [w] has the last sixteen words, the latest first. *)
Fixpoint schedule (n : nat) (w : list Z) : list Z :=
  match n with
  | O => []
  | S n =>
      match w with
      | [w1; w2; w3; w4; w5; w6; w7; w8; w9; w10; w11; w12; w13; w14; w15; w16] =>
          let x := rotl 1 (Z.lxor (Z.lxor w3 w8) (Z.lxor w14 w16)) in
          x :: schedule n [x; w1; w2; w3; w4; w5; w6; w7; w8; w9; w10; w11; w12; w13; w14; w15]
      | _ => []
      end
  end.

Definition sha1_round (st : Z * Z * Z * Z * Z) (tw : nat * Z) : Z * Z * Z * Z * Z :=
  let '(a, b, c, d, e) := st in
  let '(t, w) := tw in
  let '(f, k) :=
    if (t <? 20)%nat then (Z.lor (Z.land b c) (Z.land (Z.lxor b 0xFFFFFFFF) d), 0x5A827999)
    else if (t <? 40)%nat then (Z.lxor b (Z.lxor c d), 0x6ED9EBA1)
    else if (t <? 60)%nat then (Z.lor (Z.land b c) (Z.lor (Z.land b d) (Z.land c d)), 0x8F1BBCDC)
    else (Z.lxor b (Z.lxor c d), 0xCA62C1D6) in
  (u32 (rotl 5 a + f + e + w + k), a, rotl 30 b, c, d).

Definition sha1_block (st : Z * Z * Z * Z * Z) (block : list Z) : Z * Z * Z * Z * Z :=
  let w := block ++ schedule 64 (rev block) in
  let '(a, b, c, d, e) := foldl sha1_round st (zip (seq 0 80) w) in
  let '(a0, b0, c0, d0, e0) := st in
  (u32 (a0 + a), u32 (b0 + b), u32 (c0 + c), u32 (d0 + d), u32 (e0 + e)).

Fixpoint blocks (n : nat) (w : list Z) : list (list Z) :=
  match n with
  | O => []
  | S n => match w with [] => [] | _ => take 16 w :: blocks n (drop 16 w) end
  end.

Definition sha1 (m : bytes) : bytes :=
  let w := words_of (sha1_pad m) in
  let '(a, b, c, d, e) := foldl sha1_block (0x67452301, 0xEFCDAB89, 0x98BADCFE, 0x10325476, 0xC3D2E1F0) (blocks (length w) w) in
  [a; b; c; d; e] ≫= putUint32.

Definition to_bytes (s : string) : bytes := char_code <$> list_ascii_of_string s.
Definition of_bytes (b : bytes) : string := string_of_list_ascii ((fun x => ascii_of_nat (Z.to_nat x)) <$> b).

(** * What is encoded can be decoded *)

Lemma decode_encode6 v : 0 <= v < 64 -> decode6 (encode6 v) = Some v.
Proof.
  intros Hv. rewrite <- (Z2Nat.id v) by lia. assert (Z.to_nat v < 64)%nat as Hn by lia. generalize dependent (Z.to_nat v).
  intros n Hn. do 64 (destruct n as [|n]; [reflexivity|]). lia.
Qed.

(** What is encoded: no line breaks, and four characters at a time. *)
Lemma encode6_visible v : 0 <= v < 64 -> (char_code (encode6 v) =? 10) || (char_code (encode6 v) =? 13) = false.
Proof.
  intros Hv. rewrite <- (Z2Nat.id v) by lia. assert (Z.to_nat v < 64)%nat as Hn by lia. generalize dependent (Z.to_nat v).
  intros n Hn. do 64 (destruct n as [|n]; [reflexivity|]). lia.
Qed.

Ltac sextets := repeat match goal with H : byte_ok _ |- _ => unfold byte_ok in H end; Z.div_mod_to_equations; lia.

Lemma bytes_ind3 (P : bytes -> Prop) : P [] -> (forall a, P [a]) -> (forall a b, P [a; b]) -> (forall a b c s, P s -> P (a :: b :: c :: s)) -> forall s, P s.
Proof.
  intros H0 H1 H2 H3 s. enough (P s /\ (forall a, P (a :: s)) /\ forall a b, P (a :: b :: s)) as H by tauto.
  induction s as [|x s (IH0 & IH1 & IH2)]; [by auto|]. auto.
Qed.

Lemma encoded_visible s : bytes_ok s -> without_breaks (EncodeToString s) = EncodeToString s.
Proof.
  revert s. refine (bytes_ind3 _ _ _ _ _); [done| | |];
    [intros a H|intros a b H|intros a b c s IH H]; rewrite ?Forall_cons in H; cbn [EncodeToString without_breaks]; destruct_and?;
    rewrite !encode6_visible by sextets; [reflexivity|reflexivity|]; by rewrite IH.
Qed.

Lemma decode_quanta_encode s : bytes_ok s -> decode_quanta (EncodeToString s) = Some s.
Proof.
  revert s. refine (bytes_ind3 _ _ _ _ _); [done| | |];
    [intros a H|intros a b H|intros a b c s IH H]; rewrite ?Forall_cons in H; cbn [EncodeToString decode_quanta]; destruct_and?;
    rewrite !decode_encode6 by sextets; cbn [mbind option_bind].
  - change (decode6 "=") with (@None Z). cbn. do 2 f_equal. sextets.
  - change (decode6 "=") with (@None Z). cbn. do 2 f_equal; [sextets|f_equal; sextets].
  - rewrite IH by done. cbn [mbind option_bind]. do 2 f_equal; [sextets|]. f_equal; [sextets|]. f_equal. sextets.
Qed.

Lemma DecodeString_encode s : bytes_ok s -> DecodeString (EncodeToString s) = Some s.
Proof. intros H. unfold DecodeString. rewrite encoded_visible by done. by apply decode_quanta_encode. Qed.

Example sha1_abc : sha1 (to_bytes "abc") = [0xA9; 0x99; 0x3E; 0x36; 0x47; 0x06; 0x81; 0x6A; 0xBA; 0x3E; 0x25; 0x71; 0x78; 0x50; 0xC2; 0x6C; 0x9C; 0xD0; 0xD8; 0x9D].
Proof. vm_compute. reflexivity. Qed.
