(* ===== verification/GoSha256.v ===== *)
(** Go's packages crypto/sha256, as FIPS 180-4 defines the function, and
    encoding/hex. *)

From S2P Require Import Prelude GoNet GoText GoHash.

#[local] Open Scope list_scope.
#[local] Open Scope Z_scope.

Definition rotr (n x : Z) : Z := rotl (32 - n) x.

(** The constants are made as the standard defines them, from the first primes. *)
Definition is_prime (n : nat) : bool := forallb (fun d => negb (n mod d =? 0)%nat) (seq 2 (n - 2)).
Definition primes (bound : nat) : list Z := Z.of_nat <$> filter (fun n => is_prime n = true) (seq 2 bound).

(** The largest number of [bits] bits above [acc] with a cube of at most [n]. *)
Fixpoint cube_root (bits : nat) (acc n : Z) : Z :=
  match bits with
  | O => acc
  | S bits =>
      let x := acc + 2 ^ Z.of_nat bits in
      cube_root bits (if x * x * x <=? n then x else acc) n
  end.

(** The first 32 bits of the fractional parts of the cube roots of the first
    64 primes, and of the square roots of the first eight. *)
Definition sha256_k : list Z := (fun p => u32 (cube_root 36 0 (p * 2 ^ 96))) <$> primes 310.
Definition sha256_init : list Z := (fun p => u32 (Z.sqrt (p * 2 ^ 64))) <$> primes 18.

Example sha256_constants : length sha256_k = 64%nat /\ head sha256_k = Some 0x428a2f98 /\ last sha256_k = Some 0xc67178f2 /\
  length sha256_init = 8%nat /\ head sha256_init = Some 0x6a09e667 /\ last sha256_init = Some 0x5be0cd19.
Proof. vm_compute. tauto. Qed.

(** The message schedule; [w] has the last sixteen words, the latest first. *)
Fixpoint schedule256 (n : nat) (w : list Z) : list Z :=
  match n with
  | O => []
  | S n =>
      match w with
      | [w1; w2; w3; w4; w5; w6; w7; w8; w9; w10; w11; w12; w13; w14; w15; w16] =>
          let s0 := Z.lxor (Z.lxor (rotr 7 w15) (rotr 18 w15)) (Z.shiftr w15 3) in
          let s1 := Z.lxor (Z.lxor (rotr 17 w2) (rotr 19 w2)) (Z.shiftr w2 10) in
          let x := u32 (s1 + w7 + s0 + w16) in
          x :: schedule256 n [x; w1; w2; w3; w4; w5; w6; w7; w8; w9; w10; w11; w12; w13; w14; w15]
      | _ => []
      end
  end.

(** The eight working variables. *)
Definition state256 : Type := Z * Z * Z * Z * (Z * Z * Z * Z).

Definition round256 (st : state256) (kw : Z * Z) : state256 :=
  let '(a, b, c, d, (e, f, g, h)) := st in
  let '(k, w) := kw in
  let s1 := Z.lxor (Z.lxor (rotr 6 e) (rotr 11 e)) (rotr 25 e) in
  let ch := Z.lxor (Z.land e f) (Z.land (Z.lxor e 0xFFFFFFFF) g) in
  let t1 := u32 (h + s1 + ch + k + w) in
  let s0 := Z.lxor (Z.lxor (rotr 2 a) (rotr 13 a)) (rotr 22 a) in
  let maj := Z.lxor (Z.lxor (Z.land a b) (Z.land a c)) (Z.land b c) in
  (u32 (t1 + s0 + maj), a, b, c, (u32 (d + t1), e, f, g)).

Definition block256 (st : state256) (block : list Z) : state256 :=
  let w := block ++ schedule256 48 (rev block) in
  let '(a, b, c, d, (e, f, g, h)) := foldl round256 st (zip sha256_k w) in
  let '(a0, b0, c0, d0, (e0, f0, g0, h0)) := st in
  (u32 (a0 + a), u32 (b0 + b), u32 (c0 + c), u32 (d0 + d), (u32 (e0 + e), u32 (f0 + f), u32 (g0 + g), u32 (h0 + h))).

(** [sha256.Sum256]; a message is padded as for SHA-1. *)
Definition Sum256 (m : bytes) : bytes :=
  let w := words_of (sha1_pad m) in
  match sha256_init with
  | [a; b; c; d; e; f; g; h] =>
      let '(a, b, c, d, (e, f, g, h)) := foldl block256 (a, b, c, d, (e, f, g, h)) (blocks (length w) w) in
      [a; b; c; d; e; f; g; h] ≫= putUint32
  | _ => []
  end.

(** [hex.EncodeToString]. *)
Fixpoint hex_encode (s : bytes) : string :=
  match s with
  | [] => ""
  | b :: s => String (NetIP.digit (b / 16)) (String (NetIP.digit (b mod 16)) (hex_encode s))
  end.

Example sum256_abc : hex_encode (Sum256 (to_bytes "abc")) = "ba7816bf8f01cfea414140de5dae2223b00361a396177a9cb410ff61f20015ad".
Proof. vm_compute. reflexivity. Qed.

Example sum256_empty : hex_encode (Sum256 []) = "e3b0c44298fc1c149afbf4c8996fb92427ae41e4649b934ca495991b7852b855".
Proof. vm_compute. reflexivity. Qed.

Example sum256_two_blocks : hex_encode (Sum256 (to_bytes "abcdbcdecdefdefgefghfghighijhijkijkljklmklmnlmnomnopnopq")) =
  "248d6a61d20638b8e5c026930c3e6039a33ce45964ff2167f6ecedd419db06c1".
Proof. vm_compute. reflexivity. Qed.
