(* ===== verification/GoNetip.v ===== *)
(** Go's package net/netip as far as LiveKit's SIP code uses it: ParseAddr,
    ParsePrefix and Prefix.Contains.  An address has four or sixteen bytes and,
    in the latter case, perhaps a zone. *)

From S2P Require Import Prelude GoNet GoText.

#[local] Open Scope string_scope.
#[local] Open Scope list_scope.
#[local] Open Scope Z_scope.

Record Addr := { addr_bytes : list Z; addr_zone : string }.
Record Prefix := { pref_ip : Addr; pref_bits : Z }.

(** What is before and after the first occurrence of a character. *)
Fixpoint cut (c : ascii) (s : string) : option (string * string) :=
  match s with
  | EmptyString => None
  | String d s => if ascii_dec c d then Some ("", s) else (fun p => (String d p.1, p.2)) <$> cut c s
  end.

(** What is before and after the last one. *)
Fixpoint cut_last (c : ascii) (s : string) : option (string * string) :=
  match s with
  | EmptyString => None
  | String d s =>
      match cut_last c s with
      | Some (a, b) => Some (String d a, b)
      | None => if ascii_dec c d then Some ("", s) else None
      end
  end.

Definition parse_v6 (s : string) : option Addr :=
  match cut "%" s with
  | Some (_, EmptyString) => None
  | Some (s, zone) => (fun b => {| addr_bytes := b; addr_zone := zone |}) <$> parse6 s
  | None => (fun b => {| addr_bytes := b; addr_zone := "" |}) <$> parse6 s
  end.

Definition ParseAddr (s : string) : option Addr :=
  if decide (ip_form s = Some "."%char) then (fun b => {| addr_bytes := b; addr_zone := "" |}) <$> parse4 s
  else if decide (ip_form s = Some ":"%char) then parse_v6 s
  else None.

Definition BitLen (a : Addr) : Z := 8 * blen (addr_bytes a).

(** The length of a prefix: no sign, and no zero before other digits. *)
Definition parse_bits (s : string) : option Z :=
  match s with
  | EmptyString => None
  | String c EmptyString => dec_digit c
  | String c _ => match dec_digit c with Some 0 => None | Some _ => parse_dec 0 s | None => None end
  end.

Definition ParsePrefix (s : string) : option Prefix :=
  match cut_last "/" s with
  | None => None
  | Some (a, b) =>
      ip ← ParseAddr a;
      if negb (String.eqb (addr_zone ip) "") then None
      else
        bits ← parse_bits b;
        if BitLen ip <? bits then None else Some {| pref_ip := ip; pref_bits := bits |}
  end.

(** The number an address stands for. *)
Definition addr_val (a : Addr) : Z := foldl (fun acc b => acc * 256 + b) 0 (addr_bytes a).

(** [Prefix.Contains]: an address with a zone is in no prefix, and the first bits
    of one that is agree with those of the prefix. *)
Definition Contains (p : Prefix) (ip : Addr) : bool :=
  if negb (String.eqb (addr_zone ip) "") then false
  else if negb (BitLen (pref_ip p) =? BitLen ip) then false
  else Z.shiftr (Z.lxor (addr_val ip) (addr_val (pref_ip p))) (BitLen ip - pref_bits p) =? 0.

(** * Containment *)

Lemma shiftr_lxor_zero a b n : 0 <= n -> Z.shiftr (Z.lxor a b) n = 0 <-> forall i, n <= i -> Z.testbit a i = Z.testbit b i.
Proof.
  intros Hn. split.
  - intros H i Hi. apply (f_equal (fun x => Z.testbit x (i - n))) in H. rewrite Z.shiftr_spec, Z.testbit_0_l, Z.lxor_spec in H by lia.
    replace (i - n + n) with i in H by lia. by destruct (Z.testbit a i), (Z.testbit b i).
  - intros H. apply Z.bits_inj'. intros i Hi. rewrite Z.shiftr_spec, Z.testbit_0_l, Z.lxor_spec, H by lia. by destruct (Z.testbit b _).
Qed.

(** An address is in a prefix exactly if it has no zone, is of the same
    family, and agrees with it in all but the last bits. *)
Lemma Contains_spec p ip : pref_bits p <= BitLen ip ->
  Contains p ip = true <->
    addr_zone ip = "" /\ BitLen (pref_ip p) = BitLen ip /\
    forall i, BitLen ip - pref_bits p <= i -> Z.testbit (addr_val ip) i = Z.testbit (addr_val (pref_ip p)) i.
Proof.
  intros Hb. unfold Contains. destruct (String.eqb_spec (addr_zone ip) ""); cbn [negb]; [|naive_solver].
  destruct (Z.eqb_spec (BitLen (pref_ip p)) (BitLen ip)); cbn [negb]; [|naive_solver].
  rewrite Z.eqb_eq, shiftr_lxor_zero by lia. tauto.
Qed.

Lemma ParsePrefix_bits s p : ParsePrefix s = Some p -> pref_bits p <= BitLen (pref_ip p) /\ addr_zone (pref_ip p) = "".
Proof.
  unfold ParsePrefix. destruct (cut_last _ _) as [[a b]|]; [|done]. destruct (ParseAddr a) as [ip|]; [|done]. cbn [mbind option_bind].
  destruct (String.eqb_spec (addr_zone ip) ""); [|done]. cbn [negb]. destruct (parse_bits b) as [n|]; [|done]. cbn [mbind option_bind].
  destruct (Z.ltb_spec (BitLen ip) n); [done|]. intros [= <-]. done.
Qed.

Definition contained (mask addr : string) : option bool := p ← ParsePrefix mask; ip ← ParseAddr addr; Some (Contains p ip).

Example contains_1 : contained "10.1.0.0/16" "10.1.200.3" = Some true /\ contained "10.1.0.0/16" "10.2.0.1" = Some false
  /\ contained "10.1.2.3/0" "255.0.0.1" = Some true /\ contained "10.1.2.3/32" "10.1.2.4" = Some false
  /\ contained "10.0.0.0/8" "::ffff:10.0.0.1" = Some false /\ contained "fe80::/10" "fe80::1" = Some true
  /\ contained "fe80::/10" "fe80::1%eth0" = Some false.
Proof. repeat split; vm_compute; reflexivity. Qed.
Example prefix_errors : ParsePrefix "10.0.0.0" = None /\ ParsePrefix "10.0.0.0/33" = None /\ ParsePrefix "10.0.0.0/08" = None
  /\ ParsePrefix "10.0.0.0/+8" = None /\ ParsePrefix "10.0.0.0/" = None /\ ParsePrefix "fe80::1%e/64" = None
  /\ ParseAddr "fe80::1%" = None /\ ParseAddr "%eth0" = None.
Proof. repeat split; vm_compute; reflexivity. Qed.
