(* ===== verification/GoFloat.v ===== *)
(** Go's float64 as the media code uses it: IEEE 754 binary64 numbers with
    rounding to nearest, over the Standard Library's specification of them, the
    conversions from and to integers, and math.Round. *)

From Stdlib Require Import SpecFloat.
From S2P Require Import Prelude.

#[local] Open Scope Z_scope.

Definition float64 : Set := spec_float.

Definition fmul (x y : float64) : float64 := SFmul 53 1024 x y.
Definition fadd (x y : float64) : float64 := SFadd 53 1024 x y.
Definition fdiv (x y : float64) : float64 := SFdiv 53 1024 x y.

(** [float64(z)]; a constant that is a quotient of integers is rounded once. *)
Definition of_int (z : Z) : float64 := binary_normalize 53 1024 z 0 false.
Definition of_ratio (a b : Z) : float64 := fdiv (of_int a) (of_int b).

Definition signed (s : bool) (z : Z) : Z := if s then - z else z.

(** [math.Round]: half away from zero. *)
Definition Round (x : float64) : float64 :=
  match x with
  | S754_finite s m e =>
      if 0 <=? e then x
      else of_int (signed s ((Zpos m + 2 ^ (- e - 1)) / 2 ^ (- e)))
  | _ => x
  end.

(** [int64(x)]: the integral part; a value that does not fit gives, as on amd64,
    the smallest integer. *)
Definition to_int64 (x : float64) : Z :=
  match x with
  | S754_zero _ => 0
  | S754_finite s m e =>
      let v := signed s (if 0 <=? e then Zpos m * 2 ^ e else Zpos m / 2 ^ (- e)) in
      if (- 2 ^ 63 <=? v) && (v <? 2 ^ 63) then v else - 2 ^ 63
  | _ => - 2 ^ 63
  end.

Example round_halves : to_int64 (Round (of_ratio 5 2)) = 3 /\ to_int64 (Round (of_ratio (-5) 2)) = -3 /\ to_int64 (Round (of_ratio 12 5)) = 2 /\
  to_int64 (of_ratio (-5) 2) = -2 /\ to_int64 (Round (of_ratio 1 3)) = 0 /\ to_int64 (of_int (2 ^ 62)) = 2 ^ 62 /\ to_int64 (of_int (2 ^ 63)) = - 2 ^ 63.
Proof. repeat split; vm_compute; reflexivity. Qed.
