(* ===== verification/Stun.v ===== *)
(** The part of github.com/pion/stun the TURN and ICE code calls.  That package is a
    dependency of the repository, not part of it: it enters the model as a
    class of operations, with the behaviour its documentation states as a
    class of laws.  [ListMessage] is a concrete instance, used by the
    witnesses. *)

From S2P Require Import Prelude.

(** * Identifiers *)

(** The [stun.Attr...] constants the code names. *)
Inductive AttrType :=
| AttrChannelNumber | AttrLifetime | AttrXORPeerAddress | AttrData
| AttrXORRelayedAddress | AttrEvenPort | AttrRequestedTransport
| AttrDontFragment | AttrReservationToken | AttrConnectionID
| AttrRequestedAddressFamily | AttrMessageIntegrity | AttrNonce
| AttrUsername | AttrRealm
| AttrICEControlled | AttrICEControlling | AttrPriority | AttrUseCandidate.

#[export] Instance AttrType_eq_dec : EqDecision AttrType.
Proof. solve_decision. Defined.

Inductive MessageClass :=
| ClassRequest | ClassIndication | ClassSuccessResponse | ClassErrorResponse.

#[export] Instance MessageClass_eq_dec : EqDecision MessageClass.
Proof. solve_decision. Defined.

(** The [stun.Method...] constants the code names; [MethodOther] is any
    other method number. *)
Inductive Method :=
| MethodBinding | MethodAllocate | MethodRefresh | MethodSend | MethodData
| MethodCreatePermission | MethodChannelBind | MethodOther (n : Z).

#[export] Instance Method_eq_dec : EqDecision Method.
Proof. solve_decision. Defined.

Inductive ErrorCode :=
| CodeBadRequest | CodeUnauthorized | CodeStaleNonce | CodeAllocMismatch
| CodeUnsupportedTransProto | CodeUnknownAttribute | CodeInsufficientCapacity
| CodeOther (n : Z).

#[export] Instance ErrorCode_eq_dec : EqDecision ErrorCode.
Proof. solve_decision. Defined.

(** * Messages and their attributes *)

Class StunMessage := {
  Message : Type;
  StunError : Type;
  (** [Message.Get]: the value of the first attribute of a type. *)
  msg_Get : Message -> AttrType -> result StunError bytes;
  (** [Message.Add]: append an attribute. *)
  msg_Add : Message -> AttrType -> bytes -> Message;
  (** [CheckSize(t, got, expected)]; [None] is the nil error. *)
  CheckSize : AttrType -> Z -> Z -> option StunError;
}.

(** What the documentation of the package says of these operations. *)
Class StunMessageLaws (S : StunMessage) : Prop := {
  get_add_absent m t v e : msg_Get m t = Err e -> msg_Get (msg_Add m t v) t = Ok v;
  get_add_present m t v w : msg_Get m t = Ok w -> msg_Get (msg_Add m t v) t = Ok w;
  get_add_other m t t' v : t <> t' -> msg_Get (msg_Add m t v) t' = msg_Get m t';
  checksize_ok t got expected : CheckSize t got expected = None <-> got = expected;
}.

(** * Building messages *)

(** The [stun.Setter]s that the code passes to [stun.Build] or returns from a
    handler, with the values they carry. *)
Inductive Setter :=
| SetTransactionID (id : bytes)
| SetNewTransactionID
| SetType (m : Method) (c : MessageClass)
| SetErrorCode (c : ErrorCode)
| SetUnknownAttributes (l : list AttrType)
| SetNonce (s : string)
| SetRealm (s : string)
| SetUsername (s : string)
| SetRelayedAddress (ip : list Z) (port : Z)
| SetXORMappedAddress (ip : list Z) (port : Z)
| SetPeerAddress (ip : list Z) (port : Z)
| SetLifetime (d : Z)
| SetReservationToken (t : string)
| SetChannelNumber (n : Z)
| SetData (d : bytes)
| SetMessageIntegrity (key : bytes)
| SetShortTermIntegrity (password : string)
| SetUseCandidate
| SetICEControlling (tieBreaker : Z)
| SetICEControlled (tieBreaker : Z)
| SetPriority (priority : Z)
| SetFingerprint.

(** * A concrete message *)

Module ListMessage.

Inductive error := ErrAttributeNotFound | ErrAttributeSizeInvalid.

Fixpoint get (m : list (AttrType * bytes)) (t : AttrType) : result error bytes :=
  match m with
  | [] => Err ErrAttributeNotFound
  | (t', v) :: m' => if decide (t = t') then Ok v else get m' t
  end.

#[export] Instance message : StunMessage := {
  Message := list (AttrType * bytes);
  StunError := error;
  msg_Get := get;
  msg_Add m t v := m ++ [(t, v)];
  CheckSize t got expected := if got =? expected then None else Some ErrAttributeSizeInvalid;
}.

#[export] Instance message_laws : StunMessageLaws message.
Proof.
  split; simpl.
  - intros m t v e. induction m as [|[t' w] m IH]; simpl; intros H.
    + by rewrite decide_True.
    + case_decide; [done|auto].
  - intros m t v w. induction m as [|[t' w'] m IH]; simpl; intros H; [done|].
    case_decide; [done|auto].
  - intros m t t' v Hne. induction m as [|[t1 w] m IH]; simpl.
    + by rewrite decide_False.
    + by rewrite IH.
  - intros _ g e. destruct (g =? e) eqn:E; boolp; naive_solver.
Qed.

End ListMessage.
