(* ===== verification/TurnProto.v ===== *)
(** TURN wire formats: lib/pion-turn/internal/proto.  [ChannelData] is the
    framing of relayed data, the other modules are the attributes of RFC 5766
    and RFC 6062 with their [AddTo]/[GetFrom] pairs. *)

From S2P Require Import Prelude Stun.

(** * Channel numbers (chann.go) *)

Module ChannelNumber.

Definition MinChannelNumber : Z := 0x4000.
Definition MaxChannelNumber : Z := 0x7FFF.
Definition channelNumberSize : Z := 4.

(** [isChannelNumberValid]. *)
Definition isChannelNumberValid (c : Z) : bool :=
  (MinChannelNumber <=? c) && (c <=? MaxChannelNumber).

(** [ChannelNumber.Valid]. *)
Definition Valid (n : Z) : bool := isChannelNumberValid (u16 n).

End ChannelNumber.

(** * ChannelData messages (chandata.go) *)

Module ChannelData.

(** A Go byte slice that is appended to in place: its contents and the bytes
    of the backing array between its length and its capacity. *)
Record gslice := { content : bytes; spare : bytes }.

Definition glen (s : gslice) : Z := blen (content s).
Definition gcap (s : gslice) : Z := blen (content s) + blen (spare s).

(** The struct [ChannelData]. *)
Record t := { Data : bytes; Length : Z; Number : Z; Raw : gslice }.

Inductive error := ErrUnexpectedEOF | ErrInvalidChannelNumber | ErrBadChannelDataLength.

#[export] Instance error_eq_dec : EqDecision error.
Proof. solve_decision. Defined.

Definition padding : Z := 4.
Definition channelDataLengthSize : Z := 2.
Definition channelDataNumberSize : Z := channelDataLengthSize.
Definition channelDataHeaderSize : Z := channelDataLengthSize + channelDataNumberSize.

(** [ChannelData.Equal] on two non-nil values; a nil pointer is [None]. *)
Definition Equal (c b : option t) : bool :=
  match c, b with
  | None, None => true
  | None, _ | _, None => false
  | Some c, Some b =>
      if negb (Number c =? Number b) then false
      else if negb (blen (Data c) =? blen (Data b)) then false
      else bool_decide (Data c = Data b)
  end.

(** [nearestPaddedValueLength]. *)
Definition nearestPaddedValueLength (l : Z) : Z :=
  let n := padding * (l / padding) in
  if n <? l then n + padding else n.

Section Slices.

(** The capacity the runtime adds when [append] has to reallocate a slice of
    a given length: any policy. *)
Variable extra : nat -> nat.

(** [append(s, x)]. *)
Definition append1 (s : gslice) (x : Z) : gslice :=
  match spare s with
  | _ :: r => {| content := content s ++ [x]; spare := r |}
  | [] => {| content := content s ++ [x];
             spare := replicate (extra (length (content s))) 0 |}
  end.

(** [append(s, xs...)] *)
Definition append (s : gslice) (xs : bytes) : gslice := foldl append1 s xs.

(** [s[:n]] for [n <= cap(s)]. *)
Definition reslice (s : gslice) (n : nat) : gslice :=
  let all := content s ++ spare s in
  {| content := take n all; spare := drop n all |}.

(** The loop of [grow]: append zeros until the capacity is at least [n]. *)
Fixpoint grow_loop (fuel : nat) (s : gslice) (n : Z) : gslice :=
  match fuel with
  | O => s
  | S f => if gcap s <? n then grow_loop f (append1 s 0) n else s
  end.

(** [ChannelData.grow]. *)
Definition grow (c : t) (v : Z) : t :=
  let n := glen (Raw c) + v in
  let s := grow_loop (Z.to_nat n) (Raw c) n in
  {| Data := Data c; Length := Length c; Number := Number c;
     Raw := reslice s (Z.to_nat n) |}.

(** [ChannelData.Reset]. *)
Definition Reset (c : t) : t :=
  {| Data := []; Length := 0; Number := Number c; Raw := reslice (Raw c) 0 |}.

(** [ChannelData.WriteHeader]. *)
Definition WriteHeader (c : t) : t :=
  let c := if glen (Raw c) <? channelDataHeaderSize
           then grow c channelDataHeaderSize else c in
  let s := Raw c in
  let hdr := putUint16 (u16 (Number c)) ++ putUint16 (u16 (blen (Data c))) in
  {| Data := Data c; Length := Length c; Number := Number c;
     Raw := {| content := overwrite (content s) hdr; spare := spare s |} |}.

(** [ChannelData.Encode]. *)
Definition Encode (c : t) : t :=
  let c := {| Data := Data c; Length := Length c; Number := Number c;
              Raw := reslice (Raw c) 0 |} in
  let c := WriteHeader c in
  let raw := append (Raw c) (Data c) in
  let padded := nearestPaddedValueLength (glen raw) in
  let bytesToAdd := padded - glen raw in
  let raw := if 0 <? bytesToAdd
             then append raw (replicate (Z.to_nat bytesToAdd) 0) else raw in
  {| Data := Data c; Length := Length c; Number := Number c; Raw := raw |}.

End Slices.

(** [ChannelData.Decode]: the receiver afterwards and the error. *)
Definition Decode (c : t) : t * option error :=
  let buf := content (Raw c) in
  if blen buf <? channelDataHeaderSize then (c, Some ErrUnexpectedEOF)
  else
    let num := getUint16 (slice buf 0 channelDataNumberSize) in
    let l := getUint16 (slice buf channelDataNumberSize channelDataHeaderSize) in
    let data := drop (Z.to_nat channelDataHeaderSize) buf in
    let c1 := {| Data := data; Length := l; Number := num; Raw := Raw c |} in
    if negb (ChannelNumber.Valid num) then (c1, Some ErrInvalidChannelNumber)
    else
      let data := if l <? blen data then slice data 0 l else data in
      let c2 := {| Data := data; Length := l; Number := num; Raw := Raw c |} in
      if blen (drop (Z.to_nat channelDataHeaderSize) buf) <? l
      then (c2, Some ErrBadChannelDataLength)
      else (c2, None).

(** [IsChannelData]. *)
Definition IsChannelData (buf : bytes) : bool :=
  if blen buf <? channelDataHeaderSize then false
  else if blen (drop (Z.to_nat channelDataHeaderSize) buf)
          <? getUint16 (slice buf channelDataNumberSize channelDataHeaderSize)
  then false
  else ChannelNumber.isChannelNumberValid
         (getUint16 (slice buf 0 ChannelNumber.channelNumberSize)).

(** A received datagram, as the server wraps it: [ChannelData{Raw: buf}]. *)
Definition of_raw (buf : bytes) : t :=
  {| Data := []; Length := 0; Number := 0; Raw := {| content := buf; spare := [] |} |}.

End ChannelData.

(** * Attributes *)

Section Attributes.
Context {S : StunMessage}.

(** The message is the receiver of [AddTo]; a nil error is [Ok]. *)
Abbreviation AddResult := (result StunError Message).

Inductive proto_error :=
| StunErr (e : StunError)
| errInvalidRequestedFamilyValue.

(** [v, err := m.Get(t)] followed by [stun.CheckSize(t, len(v), size)]. *)
Definition getSized (m : Message) (t : AttrType) (size : Z) : result StunError bytes :=
  match msg_Get m t with
  | Err e => Err e
  | Ok v =>
      match CheckSize t (blen v) size with
      | Some e => Err e
      | None => Ok v
      end
  end.

(** ** CHANNEL-NUMBER (chann.go) *)

Definition ChannelNumber_AddTo (n : Z) (m : Message) : AddResult :=
  let v := overwrite (replicate 4 0) (putUint16 (u16 n)) in
  Ok (msg_Add m AttrChannelNumber v).

Definition ChannelNumber_GetFrom (m : Message) : result StunError Z :=
  match getSized m AttrChannelNumber ChannelNumber.channelNumberSize with
  | Err e => Err e
  | Ok v => Ok (getUint16 (slice v 0 2))
  end.

(** ** CONNECTION-ID (connection_id.go) *)

Definition connectionIDSize : Z := 4.

Definition ConnectionID_AddTo (c : Z) (m : Message) : AddResult :=
  Ok (msg_Add m AttrConnectionID (overwrite (replicate 4 0) (putUint32 (u32 c)))).

Definition ConnectionID_GetFrom (m : Message) : result StunError Z :=
  match getSized m AttrConnectionID connectionIDSize with
  | Err e => Err e
  | Ok v => Ok (getUint32 v)
  end.

(** ** DATA (data.go) *)

Definition Data_AddTo (d : bytes) (m : Message) : AddResult := Ok (msg_Add m AttrData d).

Definition Data_GetFrom (m : Message) : result StunError bytes := msg_Get m AttrData.

(** ** DONT-FRAGMENT (dontfrag.go) *)

Definition dontFragmentSize : Z := 0.

Definition DontFragment_AddTo (m : Message) : AddResult := Ok (msg_Add m AttrDontFragment []).

Definition DontFragment_GetFrom (m : Message) : result StunError unit :=
  match msg_Get m AttrDontFragment with
  | Err e => Err e
  | Ok v =>
      match CheckSize AttrDontFragment (blen v) dontFragmentSize with
      | Some e => Err e
      | None => Ok tt
      end
  end.

Definition DontFragment_IsSet (m : Message) : bool := is_ok (msg_Get m AttrDontFragment).

(** ** EVEN-PORT (evenport.go) *)

Definition evenPortSize : Z := 1.
Definition firstBitSet : Z := Z.shiftl 1 8 - 1.

Record EvenPort := { ReservePort : bool }.

Definition EvenPort_AddTo (p : EvenPort) (m : Message) : AddResult :=
  let v := if ReservePort p then [firstBitSet] else [0] in
  Ok (msg_Add m AttrEvenPort v).

(** The receiver [p] is only ever set to true: a decoded "false" leaves a
    previous "true" in place. *)
Definition EvenPort_GetFrom (p : EvenPort) (m : Message) : result StunError EvenPort :=
  match getSized m AttrEvenPort evenPortSize with
  | Err e => Err e
  | Ok v => Ok (if 0 <? Z.land (byte_at v 0) firstBitSet then {| ReservePort := true |} else p)
  end.

(** ** LIFETIME (lifetime.go); a [time.Duration] in nanoseconds *)

Definition DefaultLifetime : Z := 10 * minute.
Definition lifetimeSize : Z := 4.

(** [uint32(l.Seconds())], the conversion of a float64 number of seconds:
    exact for the whole numbers of seconds the program sends. *)
Definition wholeSeconds (d : Z) : Z := u32 (Z.quot d second).

Definition Lifetime_AddTo (d : Z) (m : Message) : AddResult :=
  Ok (msg_Add m AttrLifetime (overwrite (replicate 4 0) (putUint32 (wholeSeconds d)))).

Definition Lifetime_GetFrom (m : Message) : result StunError Z :=
  match getSized m AttrLifetime lifetimeSize with
  | Err e => Err e
  | Ok v => Ok (i64 (second * getUint32 v))
  end.

(** ** REQUESTED-ADDRESS-FAMILY (reqfamily.go) *)

Definition requestedFamilySize : Z := 4.
Definition RequestedFamilyIPv4 : Z := 1.
Definition RequestedFamilyIPv6 : Z := 2.

Definition RequestedAddressFamily_AddTo (f : Z) (m : Message) : AddResult :=
  Ok (msg_Add m AttrRequestedAddressFamily [u8 f; 0; 0; 0]).

Definition RequestedAddressFamily_GetFrom (m : Message) : result proto_error Z :=
  match getSized m AttrRequestedAddressFamily requestedFamilySize with
  | Err e => Err (StunErr e)
  | Ok v =>
      if (byte_at v 0 =? RequestedFamilyIPv4) || (byte_at v 0 =? RequestedFamilyIPv6)
      then Ok (byte_at v 0)
      else Err errInvalidRequestedFamilyValue
  end.

(** ** REQUESTED-TRANSPORT (reqtrans.go) *)

Definition ProtoTCP : Z := 6.
Definition ProtoUDP : Z := 17.
Definition requestedTransportSize : Z := 4.

Definition RequestedTransport_AddTo (p : Z) (m : Message) : AddResult :=
  Ok (msg_Add m AttrRequestedTransport [u8 p; 0; 0; 0]).

Definition RequestedTransport_GetFrom (m : Message) : result StunError Z :=
  match getSized m AttrRequestedTransport requestedTransportSize with
  | Err e => Err e
  | Ok v => Ok (byte_at v 0)
  end.

(** ** RESERVATION-TOKEN (rsrvtoken.go) *)

Definition reservationTokenSize : Z := 8.

Definition ReservationToken_AddTo (t : bytes) (m : Message) : AddResult :=
  match CheckSize AttrReservationToken (blen t) reservationTokenSize with
  | Some e => Err e
  | None => Ok (msg_Add m AttrReservationToken t)
  end.

Definition ReservationToken_GetFrom (m : Message) : result StunError bytes :=
  getSized m AttrReservationToken reservationTokenSize.

End Attributes.

(** * The codec interface *)

(** An attribute that a message carries at most once: where it lives and how
    it is written and read.  A value is [encodable] when the wire format can
    represent it. *)
Class AttrCodec (S : StunMessage) (A : Type) := {
  codec_type : AttrType;
  codec_encodable : A -> Prop;
  codec_add : A -> Message -> result StunError Message;
  codec_get : Message -> result StunError A;
}.

(** What a user of an attribute may rely on. *)
Class AttrCodecLaws (S : StunMessage) {A : Type} (C : AttrCodec S A) : Prop := {
  codec_roundtrip (a : A) (m : Message) e :
    codec_encodable a -> msg_Get m codec_type = Err e ->
    exists m', codec_add a m = Ok m' /\ codec_get m' = Ok a;
  codec_frame (a : A) (m m' : Message) t :
    t <> codec_type -> codec_add a m = Ok m' -> msg_Get m' t = msg_Get m t;
}.

Section Codecs.
Context (S : StunMessage).

Definition ChannelNumber_codec : AttrCodec S Z := {|
  codec_type := AttrChannelNumber;
  codec_encodable n := 0 <= n < 65536;
  codec_add := ChannelNumber_AddTo;
  codec_get := ChannelNumber_GetFrom |}.

Definition ConnectionID_codec : AttrCodec S Z := {|
  codec_type := AttrConnectionID;
  codec_encodable n := 0 <= n < 4294967296;
  codec_add := ConnectionID_AddTo;
  codec_get := ConnectionID_GetFrom |}.

Definition Data_codec : AttrCodec S bytes := {|
  codec_type := AttrData;
  codec_encodable _ := True;
  codec_add := Data_AddTo;
  codec_get := Data_GetFrom |}.

Definition DontFragment_codec : AttrCodec S unit := {|
  codec_type := AttrDontFragment;
  codec_encodable _ := True;
  codec_add _ := DontFragment_AddTo;
  codec_get := DontFragment_GetFrom |}.

(** Decoding starts from the zero value, as every caller does. *)
Definition EvenPort_codec : AttrCodec S EvenPort := {|
  codec_type := AttrEvenPort;
  codec_encodable _ := True;
  codec_add := EvenPort_AddTo;
  codec_get := EvenPort_GetFrom {| ReservePort := false |} |}.

(** A whole number of seconds below 2^32. *)
Definition Lifetime_codec : AttrCodec S Z := {|
  codec_type := AttrLifetime;
  codec_encodable d := exists s, d = s * second /\ 0 <= s < 4294967296;
  codec_add := Lifetime_AddTo;
  codec_get := Lifetime_GetFrom |}.

Definition RequestedTransport_codec : AttrCodec S Z := {|
  codec_type := AttrRequestedTransport;
  codec_encodable p := 0 <= p < 256;
  codec_add := RequestedTransport_AddTo;
  codec_get := RequestedTransport_GetFrom |}.

Definition ReservationToken_codec : AttrCodec S bytes := {|
  codec_type := AttrReservationToken;
  codec_encodable t := blen t = reservationTokenSize;
  codec_add := ReservationToken_AddTo;
  codec_get := ReservationToken_GetFrom |}.

End Codecs.

(** * Slices *)

Section SliceLemmas.
Variable extra : nat -> nat.
Import ChannelData.

Lemma append1_content s x : content (append1 extra s x) = content s ++ [x].
Proof. unfold append1. by destruct (spare s). Qed.

Lemma append_content s xs : content (append extra s xs) = content s ++ xs.
Proof.
  unfold append. revert s. induction xs as [|x xs IH]; intros s; simpl.
  - by rewrite app_nil_r.
  - by rewrite IH, append1_content, <- app_assoc.
Qed.

(** The loop of [grow] has enough iterations: each one lengthens the slice,
    which can never be longer than its capacity. *)
Lemma grow_loop_cap fuel s n : n <= glen s + Z.of_nat fuel -> n <= gcap (grow_loop extra fuel s n).
Proof.
  revert s. induction fuel as [|f IH]; intros s H; simpl.
  - unfold gcap. unfold glen in H. pose proof (blen_nonneg (spare s)). lia.
  - destruct (gcap s <? n) eqn:E; boolp; [|lia].
    apply IH. unfold glen in *. rewrite append1_content, blen_app. unfold blen at 2. simpl. lia.
Qed.

Lemma reslice_length s n : Z.of_nat n <= gcap s -> length (content (reslice s n)) = n.
Proof. intros H. unfold reslice, gcap, blen in *. simpl. rewrite length_take, length_app. lia. Qed.

Lemma grow_length c v : 0 <= v -> blen (content (Raw (grow extra c v))) = glen (Raw c) + v.
Proof.
  intros Hv. unfold grow. cbn [Raw]. unfold blen.
  assert (0 <= glen (Raw c)) by apply blen_nonneg.
  rewrite reslice_length; [lia|].
  rewrite Z2Nat.id by lia. apply grow_loop_cap. lia.
Qed.

(** What [Encode] puts on the wire, whatever the buffer held before. *)
Lemma Encode_content c :
  content (Raw (Encode extra c)) =
  putUint16 (Number c) ++ putUint16 (blen (Data c)) ++ Data c ++
  replicate (Z.to_nat (nearestPaddedValueLength (4 + blen (Data c)) - (4 + blen (Data c)))) 0.
Proof.
  set (c0 := {| Data := Data c; Length := Length c; Number := Number c; Raw := reslice (Raw c) 0 |}).
  assert (content (Raw (WriteHeader extra c0)) = putUint16 (Number c) ++ putUint16 (blen (Data c))) as HW.
  { unfold WriteHeader. change (glen (Raw c0)) with 0.
    change (0 <? channelDataHeaderSize) with true. cbv iota.
    pose proof (grow_length c0 channelDataHeaderSize ltac:(done)) as Hg.
    set (g := grow extra c0 channelDataHeaderSize) in *.
    change (Number g) with (Number c). change (Data g) with (Data c). cbn [Raw content].
    rewrite !putUint16_u16. unfold overwrite.
    rewrite drop_ge; [by rewrite app_nil_r|].
    change (glen (Raw c0) + channelDataHeaderSize) with 4 in Hg.
    unfold blen in Hg. rewrite length_app. simpl (length (putUint16 _)). lia. }
  assert (glen (append extra (Raw (WriteHeader extra c0)) (Data c)) = 4 + blen (Data c)) as HL.
  { unfold glen. rewrite append_content, HW, !blen_app, !blen_putUint16. lia. }
  unfold Encode. fold c0. cbn [Raw].
  change (Data (WriteHeader extra c0)) with (Data c).
  rewrite HL. destruct (0 <? _) eqn:E; boolp; rewrite ?append_content, HW, <- ?app_assoc.
  - done.
  - replace (Z.to_nat _) with 0%nat by lia. by rewrite app_nil_r.
Qed.

End SliceLemmas.

Lemma padded_bounds l : 0 <= l ->
  l <= ChannelData.nearestPaddedValueLength l < l + 4 /\
  ChannelData.nearestPaddedValueLength l mod 4 = 0.
Proof.
  intros. unfold ChannelData.nearestPaddedValueLength, ChannelData.padding.
  pose proof (Z.div_mod l 4). pose proof (Z.mod_pos_bound l 4).
  destruct (_ <? _) eqn:E; boolp; (split; [lia|]).
  - replace (4 * (l / 4) + 4) with ((l / 4 + 1) * 4) by lia. apply Z.mod_mul. lia.
  - rewrite Z.mul_comm. apply Z.mod_mul. lia.
Qed.

Lemma slice_app_l {A} (l k : list A) n : n = blen l -> slice (l ++ k) 0 n = l.
Proof.
  intros ->. rewrite slice_prefix. unfold blen. rewrite Nat2Z.id. by rewrite take_app_length.
Qed.

(** Decoding a buffer that starts with a header. *)
Lemma Decode_header n l rest :
  0 <= n < 65536 -> 0 <= l < 65536 -> ChannelNumber.isChannelNumberValid n = true ->
  l <= blen rest ->
  ChannelData.Decode (ChannelData.of_raw (putUint16 n ++ putUint16 l ++ rest)) =
  ({| ChannelData.Data := take (Z.to_nat l) rest; ChannelData.Length := l;
      ChannelData.Number := n;
      ChannelData.Raw := {| ChannelData.content := putUint16 n ++ putUint16 l ++ rest;
                            ChannelData.spare := [] |} |}, None).
Proof.
  intros Hn Hl Hv Hrest. unfold ChannelData.Decode, ChannelData.of_raw.
  cbn [ChannelData.Raw ChannelData.content].
  set (buf := putUint16 n ++ putUint16 l ++ rest).
  assert (blen buf = 4 + blen rest) as Hb by (unfold buf; rewrite !blen_app, !blen_putUint16; lia).
  pose proof (blen_nonneg rest).
  change ChannelData.channelDataHeaderSize with 4. change ChannelData.channelDataNumberSize with 2.
  rewrite (proj2 (Z.ltb_ge (blen buf) 4)) by lia.
  replace (getUint16 (slice buf 0 2)) with n
    by (unfold buf; rewrite slice_app_l by reflexivity; symmetry; by apply getUint16_put1).
  replace (getUint16 (slice buf 2 4)) with l
    by (symmetry; exact (getUint16_put1 l Hl)).
  change (drop (Z.to_nat 4) buf) with rest.
  unfold ChannelNumber.Valid. rewrite u16_small, Hv by lia. simpl negb. cbv iota.
  rewrite (proj2 (Z.ltb_ge (blen rest) l)) by lia.
  destruct (l <? blen rest) eqn:E; boolp; [by rewrite slice_prefix|].
  rewrite take_ge; [done|]. unfold blen in *. lia.
Qed.

(** A ChannelData message survives encoding and decoding: whatever its
    buffer held and however the runtime grows it, the bytes [Encode] leaves in
    [Raw] are padded to a multiple of four with at most three zero bytes and
    decode to the same channel number and payload, for every channel number of
    the RFC range and every payload whose length fits in 16 bits. *)
Theorem ChannelData_roundtrip (extra : nat -> nat) (c : ChannelData.t) :
  ChannelNumber.isChannelNumberValid (ChannelData.Number c) = true ->
  blen (ChannelData.Data c) < 65536 ->
  let wire := ChannelData.content (ChannelData.Raw (ChannelData.Encode extra c)) in
  let '(d, err) := ChannelData.Decode (ChannelData.of_raw wire) in
  err = None /\
  ChannelData.Equal (Some d) (Some c) = true /\
  ChannelData.Length d = blen (ChannelData.Data c) /\
  blen wire mod 4 = 0 /\
  4 + blen (ChannelData.Data c) <= blen wire < 8 + blen (ChannelData.Data c).
Proof.
  intros Hv Hl wire. pose proof (blen_nonneg (ChannelData.Data c)) as Hd.
  assert (0 <= ChannelData.Number c < 65536) as Hn.
  { apply andb_true_iff in Hv as [H1 H2]. unfold ChannelNumber.MinChannelNumber,
      ChannelNumber.MaxChannelNumber in *. boolp. lia. }
  subst wire. rewrite Encode_content, Decode_header by
    (try done; rewrite ?blen_app; pose proof (blen_nonneg (A := Z)); try lia;
     match goal with |- _ <= _ + blen ?r => pose proof (blen_nonneg r); lia end).
  destruct (padded_bounds (4 + blen (ChannelData.Data c)) ltac:(lia)) as [Hp Hm].
  set (P := ChannelData.nearestPaddedValueLength _) in *.
  assert (take (Z.to_nat (blen (ChannelData.Data c)))
    (ChannelData.Data c ++ replicate (Z.to_nat (P - (4 + blen (ChannelData.Data c)))) 0)
    = ChannelData.Data c) as ->.
  { unfold blen. rewrite Nat2Z.id. by rewrite take_app_length. }
  split; [done|]. split.
  { unfold ChannelData.Equal; simpl. rewrite !Z.eqb_refl. simpl. by apply bool_decide_eq_true. }
  split; [done|]. rewrite !blen_app.
  assert (blen (replicate (Z.to_nat (P - (4 + blen (ChannelData.Data c)))) 0)
    = P - (4 + blen (ChannelData.Data c))) as ->.
  { unfold blen at 1. rewrite length_replicate. lia. }
  rewrite !blen_putUint16.
  split; [|lia]. rewrite <- Hm. f_equal. lia.
Qed.

Definition cd_example : ChannelData.t :=
  {| ChannelData.Data := [1;2;3;4;5]; ChannelData.Length := 0; ChannelData.Number := 0x4001;
     ChannelData.Raw := {| ChannelData.content := [9;9]; ChannelData.spare := [7] |} |}.

Lemma ChannelData_roundtrip_witness :
  let wire := ChannelData.content (ChannelData.Raw (ChannelData.Encode (fun n => n) cd_example)) in
  wire = [64;1;0;5;1;2;3;4;5;0;0;0] /\
  (let '(d, err) := ChannelData.Decode (ChannelData.of_raw wire) in
   err = None /\ ChannelData.Equal (Some d) (Some cd_example) = true /\
   ChannelData.Length d = 5 /\ blen wire mod 4 = 0 /\ 4 + 5 <= blen wire < 8 + 5).
Proof.
  split; [reflexivity|].
  exact (ChannelData_roundtrip (fun n => n) cd_example eq_refl eq_refl).
Defined.

Lemma slice_two_four (buf : bytes) : 4 <= blen buf ->
  getUint16 (slice buf 0 4) = getUint16 (slice buf 0 2).
Proof.
  destruct buf as [|a [|b [|c [|d buf]]]]; unfold blen; simpl; intros; try lia. done.
Qed.

Lemma slice_ok (l : bytes) a b : bytes_ok l -> bytes_ok (slice l a b).
Proof. intros. unfold slice. auto using Forall_take, Forall_drop. Qed.

(** The test the server dispatches on is exact: a datagram is taken for
    ChannelData exactly when decoding it as ChannelData succeeds, so
    [handleDataPacket] never fails on a packet [HandleRequest] gave it. *)
Theorem IsChannelData_iff_Decode (buf : bytes) :
  bytes_ok buf ->
  ChannelData.IsChannelData buf = true <->
  snd (ChannelData.Decode (ChannelData.of_raw buf)) = None.
Proof.
  intros Hok. unfold ChannelData.IsChannelData, ChannelData.Decode, ChannelData.of_raw.
  cbn [ChannelData.Raw ChannelData.content].
  destruct (blen buf <? ChannelData.channelDataHeaderSize) eqn:E; [done|]. boolp.
  change ChannelNumber.channelNumberSize with 4.
  change ChannelData.channelDataHeaderSize with 4 in *.
  change ChannelData.channelDataNumberSize with 2.
  rewrite slice_two_four by lia. unfold ChannelNumber.Valid.
  pose proof (getUint16_range _ (slice_ok buf 0 2 Hok)). rewrite u16_small by lia.
  destruct (ChannelNumber.isChannelNumberValid _); simpl negb; cbv iota.
  - destruct (blen (drop (Z.to_nat 4) buf) <? _); naive_solver.
  - destruct (blen (drop (Z.to_nat 4) buf) <? _); naive_solver.
Qed.

Lemma IsChannelData_iff_Decode_witness :
  (ChannelData.IsChannelData [64;0;0;1;42] = true <->
   snd (ChannelData.Decode (ChannelData.of_raw [64;0;0;1;42])) = None) /\
  ChannelData.IsChannelData [64;0;0;1;42] = true /\
  ChannelData.IsChannelData [64;0;0;2;42] = false.
Proof.
  split; [|split; reflexivity].
  apply IsChannelData_iff_Decode. repeat constructor; vm_compute; congruence.
Defined.

(** * The codecs satisfy the interface *)

Section CodecLaws.
Context (S : StunMessage) {L : StunMessageLaws S}.

Lemma getSized_add m t v size e :
  msg_Get m t = Err e -> blen v = size -> getSized (msg_Add m t v) t size = Ok v.
Proof.
  intros He Hv. unfold getSized. rewrite (get_add_absent m t v e He).
  by rewrite (proj2 (checksize_ok t (blen v) size) Hv).
Qed.

(** The common shape: a fixed-size value appended under its own type. *)
Lemma fixed_codec {A} (C : AttrCodec S A) (enc : A -> bytes) (size : Z) (dec : bytes -> A) :
  (forall a m, codec_encodable a -> codec_add a m = Ok (msg_Add m codec_type (enc a))) ->
  (forall a m m', codec_add a m = Ok m' -> m' = msg_Add m codec_type (enc a)) ->
  (forall m v, getSized m codec_type size = Ok v -> codec_get m = Ok (dec v)) ->
  (forall a, codec_encodable a -> blen (enc a) = size /\ dec (enc a) = a) ->
  AttrCodecLaws S C.
Proof.
  intros Hadd Hadd' Hget Henc. split.
  - intros a m e Ha Hm. destruct (Henc a Ha) as [Hs Hd]. eexists. split; [by apply Hadd|].
    rewrite <- Hd at 2. apply Hget. by eapply getSized_add.
  - intros a m m' t Ht Hm. apply Hadd' in Hm as ->. by rewrite get_add_other.
Qed.

Lemma ChannelNumber_laws : AttrCodecLaws S (ChannelNumber_codec S).
Proof.
  apply (fixed_codec _ (fun n => overwrite (replicate 4 0) (putUint16 (u16 n)))
    ChannelNumber.channelNumberSize (fun v => getUint16 (slice v 0 2))).
  - done.
  - intros a m m' E. simpl in E. unfold ChannelNumber_AddTo in E. by simplify_eq.
  - intros m v E. simpl in *. unfold ChannelNumber_GetFrom. by rewrite E.
  - intros a Ha. simpl in Ha. rewrite u16_small by done. split; [done|].
    by apply getUint16_put1.
Qed.

Lemma ConnectionID_laws : AttrCodecLaws S (ConnectionID_codec S).
Proof.
  apply (fixed_codec _ (fun n => overwrite (replicate 4 0) (putUint32 (u32 n)))
    connectionIDSize getUint32).
  - done.
  - intros a m m' E. simpl in E. unfold ConnectionID_AddTo in E. by simplify_eq.
  - intros m v E. simpl in *. unfold ConnectionID_GetFrom. by rewrite E.
  - intros a Ha. simpl in Ha. rewrite u32_small by done. split; [done|].
    by apply getUint32_put1.
Qed.

Lemma wholeSeconds_ok s : 0 <= s < 4294967296 -> wholeSeconds (s * second) = s.
Proof.
  intros. unfold wholeSeconds. rewrite Z.quot_mul by done. by apply u32_small.
Qed.

Lemma Lifetime_laws : AttrCodecLaws S (Lifetime_codec S).
Proof.
  apply (fixed_codec _ (fun d => overwrite (replicate 4 0) (putUint32 (wholeSeconds d)))
    lifetimeSize (fun v => i64 (second * getUint32 v))).
  - done.
  - intros a m m' E. simpl in E. unfold Lifetime_AddTo in E. by simplify_eq.
  - intros m v E. simpl in *. unfold Lifetime_GetFrom. by rewrite E.
  - intros a (s & -> & Hs). rewrite wholeSeconds_ok by done. split; [done|].
    change (overwrite (replicate 4 0) (putUint32 s)) with (putUint32 s).
    rewrite getUint32_put1 by done. unfold i64, second.
    rewrite Z.mod_small by lia. lia.
Qed.

Lemma EvenPort_laws : AttrCodecLaws S (EvenPort_codec S).
Proof.
  apply (fixed_codec _ (fun p => if ReservePort p then [firstBitSet] else [0]) evenPortSize
    (fun v => if 0 <? Z.land (byte_at v 0) firstBitSet
              then {| ReservePort := true |} else {| ReservePort := false |})).
  - done.
  - intros a m m' E. simpl in E. unfold EvenPort_AddTo in E. by simplify_eq.
  - intros m v E. simpl in *. unfold EvenPort_GetFrom. by rewrite E.
  - intros [[|]] _; done.
Qed.

Lemma RequestedTransport_laws : AttrCodecLaws S (RequestedTransport_codec S).
Proof.
  apply (fixed_codec _ (fun p => [u8 p; 0; 0; 0]) requestedTransportSize (fun v => byte_at v 0)).
  - done.
  - intros a m m' E. simpl in E. unfold RequestedTransport_AddTo in E. by simplify_eq.
  - intros m v E. simpl in *. unfold RequestedTransport_GetFrom. by rewrite E.
  - intros a Ha. simpl in Ha. split; [done|]. unfold byte_at, u8. simpl. by apply Z.mod_small.
Qed.

Lemma ReservationToken_laws : AttrCodecLaws S (ReservationToken_codec S).
Proof.
  apply (fixed_codec _ id reservationTokenSize id).
  - intros a m Ha. simpl in *. unfold ReservationToken_AddTo.
    by rewrite (proj2 (checksize_ok _ _ _) Ha).
  - intros a m m' E. simpl in E. unfold ReservationToken_AddTo in E. by case_match; simplify_eq.
  - done.
  - done.
Qed.

Lemma DontFragment_laws : AttrCodecLaws S (DontFragment_codec S).
Proof.
  apply (fixed_codec _ (fun _ => []) dontFragmentSize (fun _ => tt)).
  - done.
  - intros a m m' E. simpl in E. unfold DontFragment_AddTo in E. by simplify_eq.
  - intros m v E. simpl in *. unfold DontFragment_GetFrom, getSized in *.
    destruct (msg_Get m AttrDontFragment); [|done]. by case_match.
  - by intros [].
Qed.

Lemma Data_laws : AttrCodecLaws S (Data_codec S).
Proof.
  split; simpl.
  - intros a m e _ He. eexists. split; [done|]. unfold Data_GetFrom. by eapply get_add_absent.
  - intros a m m' t Ht E. unfold Data_AddTo in E. simplify_eq. by rewrite get_add_other.
Qed.

(** Every fixed-format TURN attribute of internal/proto can be read back:
    added to a message that does not carry it yet, it decodes to the value
    that was added (channel numbers, connection ids, data, DONT-FRAGMENT,
    EVEN-PORT, lifetimes of whole seconds, transports and reservation tokens),
    and adding it leaves every other attribute readable as before. *)
Theorem turn_attributes_roundtrip :
  AttrCodecLaws S (ChannelNumber_codec S) /\ AttrCodecLaws S (ConnectionID_codec S) /\
  AttrCodecLaws S (Data_codec S) /\ AttrCodecLaws S (DontFragment_codec S) /\
  AttrCodecLaws S (EvenPort_codec S) /\ AttrCodecLaws S (Lifetime_codec S) /\
  AttrCodecLaws S (RequestedTransport_codec S) /\ AttrCodecLaws S (ReservationToken_codec S).
Proof.
  split_and!; first [apply ChannelNumber_laws | apply ConnectionID_laws | apply Data_laws
    | apply DontFragment_laws | apply EvenPort_laws | apply Lifetime_laws
    | apply RequestedTransport_laws | apply ReservationToken_laws].
Qed.

End CodecLaws.

Lemma turn_attributes_roundtrip_witness :
  AttrCodecLaws ListMessage.message (ChannelNumber_codec ListMessage.message) /\
  Lifetime_GetFrom (S := ListMessage.message)
    ([(AttrData, [1]); (AttrLifetime, [0;0;2;88])] : list (AttrType * bytes)) = Ok DefaultLifetime.
Proof.
  split; [|reflexivity]. exact (proj1 (turn_attributes_roundtrip ListMessage.message (L := ListMessage.message_laws))).
Defined.
