(* ===== verification/StunConn.v ===== *)
(** TURN over a byte stream: [STUNConn] of lib/pion-turn/stun_conn.go, which
    cuts the stream into STUN and ChannelData messages, and the read loop of
    lib/pion-turn/server.go that consumes it.

    [stun.IsMessage] belongs to the stun package and is a parameter. *)

From S2P Require Import Prelude TurnProto.

Inductive frame_error := errInvalidTURNFrame | errIncompleteTURNFrame.

Definition stunHeaderSize : Z := 20.
Definition channelDataNumberSize : Z := 2.
Definition channelDataHeaderSize : Z := 4.
Definition channelDataPadding : Z := 4.

(** A result of [nextConn.Read]: some bytes, or an error. *)
Inductive read_event (E : Type) := Chunk (d : bytes) | ReadErr (e : E).
Arguments Chunk {E} d.
Arguments ReadErr {E} e.

(** What a call of [ReadFrom] does: it returns a length and the bytes it put
    in the caller's slice, it returns an error, or it blocks for input. *)
Inductive read_result (E : Type) :=
| Returned (n : Z) (p : bytes)
| FrameErr
| ConnErr (e : E)
| Blocked.
Arguments Returned {E} n p.
Arguments FrameErr {E}.
Arguments ConnErr {E} e.
Arguments Blocked {E}.

Section StunConn.

(** [stun.IsMessage]. *)
Variable IsMessage : bytes -> bool.
Context {Er : Type}.

(** The size of a ChannelData message from its length field, in the uint16
    arithmetic of the code. *)
Definition channelDatagramSize (l : Z) : Z :=
  let paddingOverflow := u16 (l + channelDataPadding) mod channelDataPadding in
  let datagramSize := if negb (paddingOverflow =? 0)
                      then u16 (u16 (l + channelDataPadding) - paddingOverflow)
                      else l in
  u16 (datagramSize + channelDataHeaderSize).

(** [consumeSingleTURNFrame]. *)
Definition consumeSingleTURNFrame (p : bytes) : result frame_error Z :=
  if blen p <? 9 then Err errIncompleteTURNFrame
  else
    let finish datagramSize :=
      if blen p <? datagramSize then Err errIncompleteTURNFrame else Ok datagramSize in
    if IsMessage p then finish (u16 (getUint16 (slice p 2 4) + stunHeaderSize))
    else if ChannelNumber.Valid (getUint16 (slice p 0 2)) then
      finish (channelDatagramSize
                (getUint16 (slice p channelDataNumberSize channelDataHeaderSize)))
    else if blen p <? stunHeaderSize then Err errIncompleteTURNFrame
    else Err errInvalidTURNFrame.

(** [STUNConn.ReadFrom] into a slice of [plen] bytes: the result, the new
    [buff], and the reads of the underlying connection not yet made.  The
    recursive call follows a read, so the recursion is on those. *)
Fixpoint ReadFrom (plen : nat) (buff : bytes) (net : list (read_event Er))
    : read_result Er * bytes * list (read_event Er) :=
  match consumeSingleTURNFrame buff with
  | Err errInvalidTURNFrame => (FrameErr, buff, net)
  | Ok n =>
      (Returned n (take plen (take (Z.to_nat n) buff)), drop (Z.to_nat n) buff, net)
  | Err errIncompleteTURNFrame =>
      match net with
      | [] => (Blocked, buff, [])
      | ReadErr e :: net' => (ConnErr e, buff, net')
      | Chunk d :: net' => ReadFrom plen (buff ++ d) net'
      end
  end.

(** Successive calls, collecting what they return until one does not. *)
Fixpoint readMany (k : nat) (plen : nat) (buff : bytes) (net : list (read_event Er))
    : list (Z * bytes) * bytes * list (read_event Er) :=
  match k with
  | O => ([], buff, net)
  | S k' =>
      match ReadFrom plen buff net with
      | (Returned n p, buff', net') =>
          let '(out, b, r) := readMany k' plen buff' net' in ((n, p) :: out, b, r)
      | (_, buff', net') => ([], buff', net')
      end
  end.

(** The slice [buf[:n]] that [Server.readLoop] hands to [HandleRequest], for
    a buffer of [inboundMTU] bytes: Go panics when [n] exceeds the capacity. *)
Definition readLoop_slice (inboundMTU : nat) (n : Z) (p : bytes) : option bytes :=
  if n <=? Z.of_nat inboundMTU
  then Some (take (Z.to_nat n) (p ++ replicate (inboundMTU - length p) 0))
  else None.

(** * Framing *)

(** A byte string the scanner recognises as one message: complete exactly
    when all its bytes have arrived, and whatever follows it. *)
Definition is_frame (f : bytes) : Prop :=
  (forall rest, consumeSingleTURNFrame (f ++ rest) = Ok (blen f)) /\
  (forall q r, f = q ++ r -> r <> [] -> consumeSingleTURNFrame q = Err errIncompleteTURNFrame).

Definition chunks_bytes (net : list (read_event Er)) : bytes :=
  concat (map (fun ev => match ev with Chunk d => d | ReadErr _ => [] end) net).

Definition all_chunks (net : list (read_event Er)) : Prop :=
  Forall (fun ev => match ev with Chunk _ => True | ReadErr _ => False end) net.

(** The reads of the connection, and the buffer, hold [s] between them. *)
Definition stream (buff : bytes) (net : list (read_event Er)) (s : bytes) : Prop :=
  all_chunks net /\ buff ++ chunks_bytes net = s.

Lemma channelDatagramSize_nowrap l : 0 <= l < 65529 ->
  channelDatagramSize l = ChannelData.nearestPaddedValueLength (4 + l).
Proof.
  intros Hl. unfold channelDatagramSize, channelDataPadding, channelDataHeaderSize.
  unfold ChannelData.nearestPaddedValueLength, ChannelData.padding.
  rewrite (u16_small (l + 4)) by lia.
  pose proof (Z.div_mod l 4). pose proof (Z.mod_pos_bound l 4).
  replace (l + 4) with (l + 1 * 4) by lia. rewrite Z.mod_add by lia.
  replace (4 + l) with (l + 1 * 4) by lia. rewrite Z.div_add by lia.
  destruct (l mod 4 =? 0) eqn:E0; boolp; simpl negb; cbv iota;
    destruct (_ <? _) eqn:E1; boolp; rewrite ?u16_small; try lia; rewrite ?u16_small; lia.
Qed.

Lemma take_app_prefix {A} (f rest : list A) n : n = blen f -> take (Z.to_nat n) (f ++ rest) = f.
Proof. intros ->. unfold blen. rewrite Nat2Z.id. by rewrite take_app_length. Qed.

Lemma drop_app_prefix {A} (f rest : list A) n : n = blen f -> drop (Z.to_nat n) (f ++ rest) = rest.
Proof. intros ->. unfold blen. rewrite Nat2Z.id. by rewrite drop_app_length. Qed.

Lemma app_prefix_cases {A} (a b c d : list A) :
  a ++ b = c ++ d -> (exists e, a = c ++ e) \/ (exists e, c = a ++ e /\ e <> []).
Proof.
  revert c. induction a as [|x a IH]; intros [|y c] E; simpl in E.
  - left. by exists [].
  - right. by exists (y :: c).
  - left. by exists (x :: a).
  - injection E as -> E. destruct (IH c E) as [[e ->]|[e [-> ?]]]; [left|right]; by exists e.
Qed.

(** One call returns the first frame of the stream, however it was cut. *)
Lemma ReadFrom_frame plen f rest net : forall buff,
  is_frame f -> stream buff net (f ++ rest) ->
  exists buff' net',
    ReadFrom plen buff net = (Returned (blen f) (take plen f), buff', net') /\
    stream buff' net' rest.
Proof.
  induction net as [|ev net IH]; intros buff [Hf Hq] [Hc Hs].
  - unfold chunks_bytes in Hs. simpl in Hs. rewrite app_nil_r in Hs. subst buff.
    simpl. rewrite Hf. rewrite take_app_prefix, drop_app_prefix by done.
    do 2 eexists. split; [done|]. split; [done|]. apply app_nil_r.
  - apply Forall_cons in Hc as [Hev Hc]. destruct ev as [d|e]; [|done].
    unfold chunks_bytes in Hs. simpl in Hs. fold (chunks_bytes net) in Hs.
    destruct (app_prefix_cases buff (d ++ chunks_bytes net) f rest Hs) as [[e ->]|[e [-> He]]].
    + rewrite <- app_assoc in Hs. apply app_inv_head in Hs.
      simpl. rewrite Hf, take_app_prefix, drop_app_prefix by done.
      do 2 eexists. split; [done|]. split; [by constructor|].
      unfold chunks_bytes. simpl. done.
    + simpl. rewrite (Hq buff e) by done. apply IH; [done|].
      split; [done|]. by rewrite <- app_assoc.
Qed.

Lemma readMany_frames plen fs : forall buff net,
  Forall is_frame fs -> stream buff net (concat fs) ->
  exists buff' net',
    readMany (length fs) plen buff net =
      (map (fun f => (blen f, take plen f)) fs, buff', net') /\
    stream buff' net' [].
Proof.
  induction fs as [|f fs IH]; intros buff net Hfs Hs; simpl.
  - by do 2 eexists.
  - apply Forall_cons in Hfs as [Hf Hfs].
    destruct (ReadFrom_frame plen f (concat fs) net buff Hf Hs) as (b & n & -> & Hs').
    destruct (IH b n Hfs Hs') as (b' & n' & -> & Hs''). by do 2 eexists.
Qed.

(** No buffer that begins with part of [w] looks like a STUN message. *)
Definition never_stun (w : bytes) : Prop :=
  (forall rest, IsMessage (w ++ rest) = false) /\
  (forall q r, w = q ++ r -> IsMessage q = false).

(** The bytes of a ChannelData message. *)
Definition wire (extra : nat -> nat) (c : ChannelData.t) : bytes :=
  ChannelData.content (ChannelData.Raw (ChannelData.Encode extra c)).

(** Messages whose length field does not overflow the scanner's arithmetic
    and that are at least the nine bytes it insists on. *)
Definition streamable (c : ChannelData.t) : Prop :=
  ChannelNumber.isChannelNumberValid (ChannelData.Number c) = true /\
  5 <= blen (ChannelData.Data c) <= 65528.

Lemma header_fields n l rest :
  0 <= n < 65536 -> 0 <= l < 65536 ->
  getUint16 (slice (putUint16 n ++ putUint16 l ++ rest) 0 2) = n /\
  getUint16 (slice (putUint16 n ++ putUint16 l ++ rest) 2 4) = l.
Proof.
  intros Hn Hl. rewrite slice_app_l by reflexivity. split; [by apply getUint16_put1|].
  exact (getUint16_put1 l Hl).
Qed.

Lemma valid_range n : ChannelNumber.isChannelNumberValid n = true -> 0 <= n < 65536.
Proof.
  unfold ChannelNumber.isChannelNumberValid, ChannelNumber.MinChannelNumber,
    ChannelNumber.MaxChannelNumber. intros. boolp. lia.
Qed.

(** The scanner's size of a ChannelData message of which at least nine bytes
    are there. *)
Lemma consume_channel n l rest :
  ChannelNumber.isChannelNumberValid n = true -> 0 <= l < 65529 ->
  let p := putUint16 n ++ putUint16 l ++ rest in
  IsMessage p = false -> 9 <= blen p ->
  consumeSingleTURNFrame p =
    if blen p <? ChannelData.nearestPaddedValueLength (4 + l)
    then Err errIncompleteTURNFrame
    else Ok (ChannelData.nearestPaddedValueLength (4 + l)).
Proof.
  intros Hv Hl p Hm H9. unfold consumeSingleTURNFrame.
  rewrite (proj2 (Z.ltb_ge (blen p) 9)), Hm by lia.
  destruct (header_fields n l rest (valid_range n Hv) ltac:(lia)) as [Hn' Hl'].
  fold p in Hn', Hl'. rewrite Hn'.
  change channelDataNumberSize with 2. change channelDataHeaderSize with 4. rewrite Hl'.
  unfold ChannelNumber.Valid. rewrite u16_small, Hv by (by apply valid_range).
  by rewrite channelDatagramSize_nowrap by lia.
Qed.

(** A prefix of at least four bytes keeps the header. *)
Lemma prefix_header n l body q r :
  putUint16 n ++ putUint16 l ++ body = q ++ r -> 4 <= blen q ->
  exists body', q = putUint16 n ++ putUint16 l ++ body'.
Proof.
  intros E Hq. destruct q as [|a [|b [|c [|d q]]]]; unfold blen in Hq; simpl in Hq; try lia.
  simpl in E. injection E as <- <- <- <- E. by exists q.
Qed.

Lemma wire_frame extra c :
  streamable c -> never_stun (wire extra c) -> is_frame (wire extra c).
Proof.
  intros [Hv Hl] [Hm Hp]. set (dl := blen (ChannelData.Data c)) in *.
  destruct (padded_bounds (4 + dl) ltac:(lia)) as [Hb _].
  pose proof (Encode_content extra c) as Hw. fold (wire extra c) in Hw.
  set (P := ChannelData.nearestPaddedValueLength (4 + dl)) in *.
  assert (blen (wire extra c) = P) as HP.
  { rewrite Hw, !blen_app, !blen_putUint16. fold dl. unfold blen at 1.
    rewrite length_replicate. unfold P in *. lia. }
  split.
  - intros rest. assert (9 <= blen (wire extra c ++ rest)) as H9.
    { rewrite blen_app. pose proof (blen_nonneg rest). lia. }
    assert (exists body, wire extra c ++ rest =
      putUint16 (ChannelData.Number c) ++ putUint16 dl ++ body) as [body Eb].
    { eexists. rewrite Hw. by rewrite <- !app_assoc. }
    specialize (Hm rest). rewrite Eb in Hm, H9 |- *.
    rewrite consume_channel by (done || lia). fold P.
    rewrite <- Eb, (proj2 (Z.ltb_ge _ P)); [by rewrite HP|].
    rewrite blen_app. pose proof (blen_nonneg rest). lia.
  - intros q r E Hr. specialize (Hp q r E).
    destruct (blen q <? 9) eqn:E9; [by unfold consumeSingleTURNFrame; rewrite E9|]. boolp.
    assert (blen q < P).
    { rewrite <- HP, E, blen_app. destruct r; [done|]. unfold blen. simpl. lia. }
    rewrite Hw in E. destruct (prefix_header _ _ _ _ _ E ltac:(lia)) as [body ->].
    rewrite consume_channel by (done || lia). fold dl P.
    by rewrite (proj2 (Z.ltb_lt _ P)).
Qed.

End StunConn.

(** * Theorems *)

(** C8. TURN over a stream is reassembled faithfully: when a peer sends
    ChannelData messages (with valid channel numbers, of at least five payload bytes and at most 65528,
    none looking like a STUN message) back to back, then however the network
    cuts that byte stream into reads, the successive calls of
    [STUNConn.ReadFrom] return exactly those messages, in order, each with its
    length and its bytes (as far as the caller's slice holds them), and leave
    nothing behind. *)
Theorem ReadFrom_reassembles (IsMessage : bytes -> bool) (Er : Type) (extra : nat -> nat)
    (plen : nat) (cs : list ChannelData.t) (net : list (read_event Er)) :
  Forall streamable cs ->
  Forall (fun c => never_stun IsMessage (wire extra c)) cs ->
  all_chunks net -> chunks_bytes net = concat (map (wire extra) cs) ->
  exists buff' net',
    readMany IsMessage (length cs) plen [] net =
      (map (fun c => (blen (wire extra c), take plen (wire extra c))) cs, buff', net') /\
    buff' = [] /\ chunks_bytes net' = [].
Proof.
  intros Hs Hn Hc Hb.
  assert (Forall (is_frame IsMessage) (map (wire extra) cs)) as Hf.
  { apply Forall_fmap. rewrite Forall_forall in *. intros c Hin.
    apply wire_frame; [by apply Hs|by apply Hn]. }
  destruct (readMany_frames IsMessage plen (map (wire extra) cs) [] net Hf) as (b & r & E & _ & Hr).
  { by split. }
  rewrite length_map, map_map in E. apply app_eq_nil in Hr as [-> ?]. eauto.
Qed.

(** The test of the stun package on well-formed input: a header and the
    magic cookie. *)
Definition cookie_test (b : bytes) : bool :=
  (20 <=? blen b) && bool_decide (slice b 4 8 = [33;18;164;66]).

Definition msg_example (n : Z) (d : bytes) : ChannelData.t :=
  {| ChannelData.Data := d; ChannelData.Length := 0; ChannelData.Number := n;
     ChannelData.Raw := {| ChannelData.content := []; ChannelData.spare := [] |} |}.

Definition msg_a : ChannelData.t := msg_example 0x4000 [1;2;3;4;5].
Definition msg_b : ChannelData.t := msg_example 0x4001 [6;7;8;9;10;11].

Lemma never_stun_short w :
  4 < blen w < 20 -> byte_at w 4 <> 33 -> never_stun cookie_test w.
Proof.
  intros Hl Hb. split.
  - intros rest. unfold cookie_test. apply andb_false_iff. right.
    apply bool_decide_eq_false. intros E.
    apply (f_equal (fun l => byte_at l 0)) in E.
    destruct w as [|? [|? [|? [|? [|? w]]]]]; unfold blen in Hl; simpl in *; try lia.
    unfold byte_at in *. simpl in *. done.
  - intros q r ->. unfold cookie_test. apply andb_false_iff. left.
    rewrite blen_app in Hl. pose proof (blen_nonneg r). apply Z.leb_gt. lia.
Qed.

Lemma ReadFrom_reassembles_witness :
  exists buff' net',
    readMany cookie_test 2 1600 []
      [Chunk [64;0;0]; Chunk [5;1;2;3;4;5;0;0;0;64;1]; @Chunk unit [0;6;6;7;8;9;10;11;0;0]] =
      ([(12, [64;0;0;5;1;2;3;4;5;0;0;0]); (12, [64;1;0;6;6;7;8;9;10;11;0;0])], buff', net') /\
    buff' = [] /\ chunks_bytes net' = [].
Proof.
  apply (ReadFrom_reassembles cookie_test unit (fun _ => 0%nat) 1600 [msg_a; msg_b]
    [Chunk [64;0;0]; Chunk [5;1;2;3;4;5;0;0;0;64;1]; Chunk [0;6;6;7;8;9;10;11;0;0]]).
  - repeat constructor; vm_compute; congruence.
  - repeat constructor; apply never_stun_short; vm_compute; first [done | split; congruence | congruence].
  - repeat constructor.
  - reflexivity.
Defined.

(** The length [ReadFrom] reports is not bounded by the slice it was
    given: for any ChannelData message longer than the server's inbound MTU,
    however it arrives, the read loop gets a length beyond its buffer, and the
    slice expression [buf[:n]] of [Server.readLoop] is out of range (a run-time
    panic), before any authentication took place. *)
Theorem readLoop_overruns_on_large_frame (IsMessage : bytes -> bool) (Er : Type)
    (extra : nat -> nat) (mtu : nat) (c : ChannelData.t) (net : list (read_event Er)) :
  streamable c -> never_stun IsMessage (wire extra c) ->
  Z.of_nat mtu < blen (wire extra c) ->
  all_chunks net -> chunks_bytes net = wire extra c ->
  exists n p buff' net',
    ReadFrom IsMessage mtu [] net = (Returned n p, buff', net') /\
    readLoop_slice mtu n p = None.
Proof.
  intros Hs Hn Hmtu Hc Hb.
  destruct (ReadFrom_frame IsMessage mtu (wire extra c) [] net [] (wire_frame _ _ _ Hs Hn))
    as (b & r & E & _).
  { split; [done|]. by rewrite app_nil_r. }
  do 4 eexists. split; [exact E|]. unfold readLoop_slice.
  by rewrite (proj2 (Z.leb_gt _ _)).
Qed.

Lemma readLoop_overruns_on_large_frame_witness :
  exists n p buff' net',
    ReadFrom cookie_test 8 [] [Chunk [64;0;0;5;1;2]; @Chunk unit [3;4;5;0;0;0]]
      = (Returned n p, buff', net') /\ readLoop_slice 8 n p = None.
Proof.
  apply (readLoop_overruns_on_large_frame cookie_test unit (fun _ => 0%nat) 8 msg_a).
  - repeat constructor; vm_compute; congruence.
  - apply never_stun_short; vm_compute; first [done | split; congruence | congruence].
  - reflexivity.
  - repeat constructor.
  - reflexivity.
Defined.

(** The uint16 arithmetic of the scanner can wrap to nothing: a header
    with a valid channel number and length field 65532 makes the size of the
    message 0, and [ReadFrom] returns zero bytes without consuming input or
    reading the connection, so a caller that keeps reading makes no progress. *)
Theorem ReadFrom_no_progress (IsMessage : bytes -> bool) (Er : Type) (plen : nat) (n : Z)
    (rest : bytes) (net : list (read_event Er)) :
  ChannelNumber.isChannelNumberValid n = true -> 5 <= blen rest ->
  let buff := putUint16 n ++ putUint16 65532 ++ rest in
  IsMessage buff = false ->
  ReadFrom IsMessage plen buff net = (Returned 0 [], buff, net).
Proof.
  intros Hv Hr buff Hm.
  assert (consumeSingleTURNFrame IsMessage buff = Ok 0) as Hc.
  { unfold consumeSingleTURNFrame. assert (9 <= blen buff) as H9.
    { unfold buff. rewrite !blen_app, !blen_putUint16. lia. }
    rewrite (proj2 (Z.ltb_ge (blen buff) 9)), Hm by lia.
    destruct (header_fields n 65532 rest (valid_range n Hv) ltac:(lia)) as [Hn Hl].
    fold buff in Hn, Hl. rewrite Hn.
    change channelDataNumberSize with 2. change channelDataHeaderSize with 4.
    rewrite Hl. unfold ChannelNumber.Valid. rewrite u16_small, Hv by (by apply valid_range).
    change (channelDatagramSize 65532) with 0. by rewrite (proj2 (Z.ltb_ge _ 0)) by lia. }
  destruct net; simpl; rewrite Hc; simpl; rewrite take_nil; done.
Qed.

Lemma ReadFrom_no_progress_witness :
  ReadFrom cookie_test 1600 [64;0;255;252;0;0;0;0;0] [@Chunk unit [1;2]] =
    (Returned 0 [], [64;0;255;252;0;0;0;0;0], [Chunk [1;2]]).
Proof.
  apply (ReadFrom_no_progress cookie_test unit 1600 0x4000 [0;0;0;0;0]);
    vm_compute; congruence.
Defined.

(** A complete ChannelData message with at most four bytes of payload is
    not delivered when it arrives: the scanner wants nine bytes before it
    looks at a message of eight, and [ReadFrom] waits for the next one. *)
Theorem short_message_is_held_back (IsMessage : bytes -> bool) (Er : Type)
    (extra : nat -> nat) (plen : nat) (c : ChannelData.t) :
  blen (ChannelData.Data c) <= 4 ->
  ReadFrom (Er := Er) IsMessage plen [] [Chunk (wire extra c)] =
    (Blocked, wire extra c, []).
Proof.
  intros Hl. pose proof (blen_nonneg (ChannelData.Data c)).
  destruct (padded_bounds (4 + blen (ChannelData.Data c)) ltac:(lia)) as [Hb Hm].
  assert (consumeSingleTURNFrame IsMessage (wire extra c) = Err errIncompleteTURNFrame) as Hc.
  { unfold consumeSingleTURNFrame. rewrite (proj2 (Z.ltb_lt _ 9)); [done|].
    unfold wire. rewrite Encode_content, !blen_app, !blen_putUint16. unfold blen at 2.
    rewrite length_replicate.
    set (P := ChannelData.nearestPaddedValueLength _) in *.
    pose proof (Z.div_mod P 4 ltac:(lia)). lia. }
  simpl. change (consumeSingleTURNFrame IsMessage []) with (Err (A := Z) errIncompleteTURNFrame).
  cbv iota. simpl. by rewrite Hc.
Qed.

Lemma short_message_is_held_back_witness :
  ReadFrom (Er := unit) cookie_test 1600 [] [Chunk [64;0;0;4;1;2;3;4]] =
    (Blocked, [64;0;0;4;1;2;3;4], []).
Proof.
  apply (short_message_is_held_back cookie_test unit (fun _ => 0%nat) 1600
    (msg_example 0x4000 [1;2;3;4])). vm_compute. congruence.
Defined.
