(* ===== verification/Allocation.v ===== *)
(** TURN allocations: lib/pion-turn/internal/allocation.

    An [Allocation] holds the permissions and channel bindings of one client;
    the [Manager] holds the allocations of one listener, keyed by the
    fingerprint of their 5-tuple, and the port reservations.  [time.AfterFunc]
    timers are deadlines in the state ([None]: not running), fired by the
    steps of [mstep] below; sockets are identified by number, and everything
    that happens to them goes through the environment class [RelayEnv].

    A listener handles its requests one after the other, so an operation is a
    function on the state, also where it takes a lock twice; that a timer fires
    between the two is not modelled. *)

From S2P Require Import Prelude GoNet Stun TurnProto.

Abbreviation conn := nat (only parsing).

(** * The environment *)

(** The relay sockets of the host: what the configured [AllocatePacketConn]
    callback and [net.PacketConn.Close] do to it. *)
Class RelayEnv := {
  world : Type;
  IOError : Type;
  allocatePacketConn : world -> string -> Z -> world * result IOError (conn * net_Addr);
  closeConn : world -> conn -> world * option IOError;
}.

(** * Permissions and channel bindings (permission.go, channel_bind.go) *)

Definition permissionTimeout : Z := 5 * minute.

Record Permission := { pAddr : net_Addr; pTimer : option Z }.

(** [NewPermission]. *)
Definition NewPermission (addr : net_Addr) : Permission := {| pAddr := addr; pTimer := None |}.

(** [Permission.start]: [time.AfterFunc(lifetime, ...)]. *)
Definition Permission_start (now lifetime : Z) (p : Permission) : Permission :=
  {| pAddr := pAddr p; pTimer := Some (now + lifetime) |}.

(** [Permission.refresh]: [Reset] re-arms the timer whether or not it was
    running (when it was not, an error is logged). *)
Definition Permission_refresh (now lifetime : Z) (p : Permission) : Permission :=
  {| pAddr := pAddr p; pTimer := Some (now + lifetime) |}.

Record ChannelBind := { Peer : net_Addr; Number : Z; cTimer : option Z }.

(** [NewChannelBind]. *)
Definition NewChannelBind (number : Z) (peer : net_Addr) : ChannelBind :=
  {| Peer := peer; Number := number; cTimer := None |}.

(** [ChannelBind.start]. *)
Definition ChannelBind_start (now lifetime : Z) (c : ChannelBind) : ChannelBind :=
  {| Peer := Peer c; Number := Number c; cTimer := Some (now + lifetime) |}.

(** [ChannelBind.refresh]. *)
Definition ChannelBind_refresh (now lifetime : Z) (c : ChannelBind) : ChannelBind :=
  {| Peer := Peer c; Number := Number c; cTimer := Some (now + lifetime) |}.

(** * Allocations (allocation.go) *)

Record Allocation := {
  RelayAddr : net_Addr;
  TurnSocket : conn;
  RelaySocket : conn;
  fiveTuple : FiveTuple;
  permissions : gmap string Permission;
  channelBindings : list ChannelBind;
  lifetimeTimer : option Z;
  closed : bool;
  responseCache : option (bytes * list Setter);
}.

Inductive alloc_error :=
| errSameChannelDifferentPeer | errNilFiveTuple | errNilFiveTupleSrcAddr
| errNilFiveTupleDstAddr | errNilTurnSocket | errLifetimeZero | errDupeFiveTuple
| errFailedToCastUDPAddr | errFailedToAllocateEvenPort | errAdminProhibited.

Definition set_permissions (f : gmap string Permission -> gmap string Permission)
    (a : Allocation) : Allocation :=
  {| RelayAddr := RelayAddr a; TurnSocket := TurnSocket a; RelaySocket := RelaySocket a;
     fiveTuple := fiveTuple a; permissions := f (permissions a);
     channelBindings := channelBindings a; lifetimeTimer := lifetimeTimer a;
     closed := closed a; responseCache := responseCache a |}.

Definition set_channelBindings (f : list ChannelBind -> list ChannelBind)
    (a : Allocation) : Allocation :=
  {| RelayAddr := RelayAddr a; TurnSocket := TurnSocket a; RelaySocket := RelaySocket a;
     fiveTuple := fiveTuple a; permissions := permissions a;
     channelBindings := f (channelBindings a); lifetimeTimer := lifetimeTimer a;
     closed := closed a; responseCache := responseCache a |}.

Definition set_lifetimeTimer (t : option Z) (a : Allocation) : Allocation :=
  {| RelayAddr := RelayAddr a; TurnSocket := TurnSocket a; RelaySocket := RelaySocket a;
     fiveTuple := fiveTuple a; permissions := permissions a;
     channelBindings := channelBindings a; lifetimeTimer := t;
     closed := closed a; responseCache := responseCache a |}.

(** [NewAllocation]; [RelayAddr] and [RelaySocket] are filled in by
    [CreateAllocation], which passes them here. *)
Definition NewAllocation (turnSocket : conn) (ft : FiveTuple)
    (relaySocket : conn) (relayAddr : net_Addr) : Allocation :=
  {| RelayAddr := relayAddr; TurnSocket := turnSocket; RelaySocket := relaySocket;
     fiveTuple := ft; permissions := ∅; channelBindings := []; lifetimeTimer := None;
     closed := false; responseCache := None |}.

(** [Allocation.GetPermission]. *)
Definition GetPermission (a : Allocation) (addr : net_Addr) : option Permission :=
  permissions a !! FingerprintAddr addr.

(** [Allocation.AddPermission]. *)
Definition AddPermission (now : Z) (p : Permission) (a : Allocation) : Allocation :=
  let fingerprint := FingerprintAddr (pAddr p) in
  match permissions a !! fingerprint with
  | Some existed =>
      set_permissions (<[fingerprint := Permission_refresh now permissionTimeout existed]>) a
  | None =>
      set_permissions (<[fingerprint := Permission_start now permissionTimeout p]>) a
  end.

(** [Allocation.RemovePermission]. *)
Definition RemovePermission (addr : net_Addr) (a : Allocation) : Allocation :=
  set_permissions (delete (FingerprintAddr addr)) a.

(** [Allocation.GetChannelByNumber].  The code returns a pointer; since every
    entry of the slice is a distinct object, its index stands for it. *)
Definition GetChannelByNumber (a : Allocation) (number : Z) : option nat :=
  fst <$> list_find (fun cb => Number cb = number) (channelBindings a).

(** [Allocation.GetChannelByAddr]. *)
Definition GetChannelByAddr (a : Allocation) (addr : net_Addr) : option nat :=
  fst <$> list_find (fun cb => AddrEqual (Peer cb) addr = true) (channelBindings a).

(** [Allocation.AddChannelBind]. *)
Definition AddChannelBind (now : Z) (c : ChannelBind) (lifetime : Z) (a : Allocation)
    : result alloc_error Allocation :=
  let channelByNumber := GetChannelByNumber a (Number c) in
  if negb (bool_decide (channelByNumber = GetChannelByAddr a (Peer c)))
  then Err errSameChannelDifferentPeer
  else
    match channelByNumber with
    | None =>
        let a1 := set_channelBindings (fun l => l ++ [ChannelBind_start now lifetime c]) a in
        Ok (AddPermission now (NewPermission (Peer c)) a1)
    | Some i =>
        let a1 := set_channelBindings (alter (ChannelBind_refresh now lifetime) i) a in
        match channelBindings a !! i with
        | Some cb => Ok (AddPermission now (NewPermission (Peer cb)) a1)
        | None => Ok a1
        end
    end.

(** [Allocation.RemoveChannelBind]. *)
Definition RemoveChannelBind (number : Z) (a : Allocation) : Allocation * bool :=
  match find_last (fun cb => Number cb =? number) (channelBindings a) with
  | Some i => (set_channelBindings (delete i) a, true)
  | None => (a, false)
  end.

(** [Allocation.Refresh]. *)
Definition Refresh (now lifetime : Z) (a : Allocation) : Allocation :=
  set_lifetimeTimer (Some (now + lifetime)) a.

(** [Allocation.SetResponseCache]. *)
Definition SetResponseCache (id : bytes) (attrs : list Setter) (a : Allocation) : Allocation :=
  {| RelayAddr := RelayAddr a; TurnSocket := TurnSocket a; RelaySocket := RelaySocket a;
     fiveTuple := fiveTuple a; permissions := permissions a;
     channelBindings := channelBindings a; lifetimeTimer := lifetimeTimer a;
     closed := closed a; responseCache := Some (id, attrs) |}.

(** [Allocation.GetResponseCache]: the zero transaction id when nothing was
    cached. *)
Definition GetResponseCache (a : Allocation) : bytes * list Setter :=
  match responseCache a with
  | Some (id, attrs) => (id, attrs)
  | None => (replicate 12 0, [])
  end.

(** Stopping every timer of an allocation. *)
Definition stop_timers (a : Allocation) : Allocation :=
  {| RelayAddr := RelayAddr a; TurnSocket := TurnSocket a; RelaySocket := RelaySocket a;
     fiveTuple := fiveTuple a;
     permissions := (fun p => {| pAddr := pAddr p; pTimer := None |}) <$> permissions a;
     channelBindings :=
       (fun c => {| Peer := Peer c; Number := Number c; cTimer := None |}) <$> channelBindings a;
     lifetimeTimer := None; closed := true; responseCache := responseCache a |}.

Section Manager.
Context {R : RelayEnv}.

(** [Allocation.Close]. *)
Definition Allocation_Close (w : world) (a : Allocation) : world * Allocation * option IOError :=
  if closed a then (w, a, None)
  else
    let '(w', err) := closeConn w (RelaySocket a) in
    (w', stop_timers a, err).

Definition rtpMTU : Z := 1600.

(** What one turn of the loop of [packetHandler] does: the relay goes on,
    after a write to a client if there is one; or it ends, after deleting the
    allocation if the socket failed. *)
Inductive relay_turn :=
| RelayContinue (write : option (conn * bytes * net_Addr))
| RelayStop
| RelayDelete (ft : FiveTuple).

(** The setters of the Data indication for a datagram. *)
Definition dataIndication (ip : list Z) (port : Z) (data : bytes) : list Setter :=
  [SetNewTransactionID; SetType MethodData ClassIndication; SetPeerAddress ip port; SetData data].

(** [packetHandler], for one result of [RelaySocket.ReadFrom]; [build] is
    [stun.Build]. *)
Definition packetHandler {E F : Type} (extra : nat -> nat) (build : list Setter -> result F bytes)
    (a : Allocation) (received : result E (bytes * net_Addr)) : relay_turn :=
  match received with
  | Err _ => RelayDelete (fiveTuple a)
  | Ok (data, srcAddr) =>
      let dst := SrcAddr (fiveTuple a) in
      match GetChannelByAddr a srcAddr ≫= fun i => channelBindings a !! i with
      | Some channel =>
          let channelData := {| ChannelData.Data := data; ChannelData.Length := 0;
                                ChannelData.Number := Number channel;
                                ChannelData.Raw := {| ChannelData.content := [];
                                                      ChannelData.spare := [] |} |} in
          let raw := ChannelData.content (ChannelData.Raw (ChannelData.Encode extra channelData)) in
          RelayContinue (Some (TurnSocket a, raw, dst))
      | None =>
          match GetPermission a srcAddr with
          | Some _ =>
              match srcAddr with
              | UDPAddr ip port _ =>
                  match build (dataIndication ip port data) with
                  | Err _ => RelayStop
                  | Ok raw => RelayContinue (Some (TurnSocket a, raw, dst))
                  end
              | _ => RelayStop
              end
          | None => RelayContinue None
          end
      end
  end.

(** * The manager (allocation_manager.go) *)

Record reservation := { token : string; port : Z }.

Record Manager := {
  allocations : gmap string Allocation;
  reservations : list reservation;
  (** the pending 30 s timers of [CreateReservation]: deadline and token *)
  reservationTimers : list (Z * string);
  permissionHandler : option (net_Addr -> list Z -> bool);
}.

Definition set_allocations (f : gmap string Allocation -> gmap string Allocation)
    (m : Manager) : Manager :=
  {| allocations := f (allocations m); reservations := reservations m;
     reservationTimers := reservationTimers m; permissionHandler := permissionHandler m |}.

(** A manager error: one of the package's, or one of the environment's. *)
Inductive manager_error := AllocErr (e : alloc_error) | EnvErr (e : IOError).

Inductive config_error :=
| errAllocatePacketConnMustBeSet | errAllocateConnMustBeSet | errLeveledLoggerMustBeSet.

(** [NewManager]; the callbacks of the configuration are present or nil. *)
Definition NewManager (hasAllocatePacketConn hasAllocateConn hasLogger : bool)
    (handler : option (net_Addr -> list Z -> bool)) : result config_error Manager :=
  if negb hasAllocatePacketConn then Err errAllocatePacketConnMustBeSet
  else if negb hasAllocateConn then Err errAllocateConnMustBeSet
  else if negb hasLogger then Err errLeveledLoggerMustBeSet
  else Ok {| allocations := ∅; reservations := []; reservationTimers := [];
             permissionHandler := handler |}.

(** [Manager.GetAllocation]. *)
Definition GetAllocation (m : Manager) (ft : FiveTuple) : option Allocation :=
  allocations m !! Fingerprint ft.

(** [Manager.AllocationCount]. *)
Definition AllocationCount (m : Manager) : Z := Z.of_nat (size (allocations m)).

(** [Manager.Close], visiting the allocations in the order the runtime
    iterates the map and stopping at the first error. *)
Fixpoint Manager_Close (order : list string) (w : world) (m : Manager)
    : world * Manager * option IOError :=
  match order with
  | [] => (w, m, None)
  | k :: order' =>
      match allocations m !! k with
      | None => Manager_Close order' w m
      | Some a =>
          let '(w', a', err) := Allocation_Close w a in
          let m' := set_allocations (<[k := a']>) m in
          match err with
          | Some e => (w', m', Some e)
          | None => Manager_Close order' w' m'
          end
      end
  end.

(** The arguments of [CreateAllocation] that may be nil. *)
Record FiveTupleArg := {
  argProtocol : Protocol; argSrcAddr : option net_Addr; argDstAddr : option net_Addr }.

(** [Manager.CreateAllocation]. *)
Definition CreateAllocation (now : Z) (ftarg : option FiveTupleArg) (turnSocket : option conn)
    (requestedPort lifetime : Z) (w : world) (m : Manager)
    : world * Manager * result manager_error Allocation :=
  match ftarg with
  | None => (w, m, Err (AllocErr errNilFiveTuple))
  | Some fa =>
  match argSrcAddr fa with
  | None => (w, m, Err (AllocErr errNilFiveTupleSrcAddr))
  | Some src =>
  match argDstAddr fa with
  | None => (w, m, Err (AllocErr errNilFiveTupleDstAddr))
  | Some dst =>
  match turnSocket with
  | None => (w, m, Err (AllocErr errNilTurnSocket))
  | Some sock =>
  if lifetime =? 0 then (w, m, Err (AllocErr errLifetimeZero))
  else
    let ft := {| ftProtocol := argProtocol fa; SrcAddr := src; DstAddr := dst |} in
    match GetAllocation m ft with
    | Some _ => (w, m, Err (AllocErr errDupeFiveTuple))
    | None =>
        let '(w', r) := allocatePacketConn w "udp4" requestedPort in
        match r with
        | Err e => (w', m, Err (EnvErr e))
        | Ok (relayConn, relayAddr) =>
            let a := set_lifetimeTimer (Some (now + lifetime))
                       (NewAllocation sock ft relayConn relayAddr) in
            (w', set_allocations (<[Fingerprint ft := a]>) m, Ok a)
        end
    end
  end end end end.

(** [Manager.DeleteAllocation]; an error of [Close] is only logged. *)
Definition DeleteAllocation (ft : FiveTuple) (w : world) (m : Manager) : world * Manager :=
  let fingerprint := Fingerprint ft in
  let allocation := allocations m !! fingerprint in
  let m' := set_allocations (delete fingerprint) m in
  match allocation with
  | None => (w, m')
  | Some a => let '(w', _, _) := Allocation_Close w a in (w', m')
  end.

(** [Manager.CreateReservation]. *)
Definition CreateReservation (now : Z) (tok : string) (p : Z) (m : Manager) : Manager :=
  {| allocations := allocations m;
     reservations := reservations m ++ [{| token := tok; port := p |}];
     reservationTimers := reservationTimers m ++ [(now + 30 * second, tok)];
     permissionHandler := permissionHandler m |}.

(** The callback of a reservation's timer: drop the last entry of the token. *)
Definition expireReservation (tok : string) (l : list reservation) : list reservation :=
  match find_last (fun r => String.eqb (token r) tok) l with
  | Some i => delete i l
  | None => l
  end.

(** [Manager.GetReservation]. *)
Definition GetReservation (m : Manager) (tok : string) : option Z :=
  (fun r => port r.2) <$> list_find (fun r => token r = tok) (reservations m).

(** [Manager.GetRandomEvenPort]: at most 128 attempts. *)
Fixpoint evenPort_loop (tries : nat) (w : world) : world * result manager_error Z :=
  match tries with
  | O => (w, Err (AllocErr errFailedToAllocateEvenPort))
  | S tries' =>
      let '(w1, r) := allocatePacketConn w "udp4" 0 in
      match r with
      | Err e => (w1, Err (EnvErr e))
      | Ok (c, addr) =>
          let '(w2, err) := closeConn w1 c in
          match err with
          | Some e => (w2, Err (EnvErr e))
          | None =>
              match addr with
              | UDPAddr _ p _ =>
                  if Z.rem p 2 =? 0 then (w2, Ok p) else evenPort_loop tries' w2
              | _ => (w2, Err (AllocErr errFailedToCastUDPAddr))
              end
          end
      end
  end.

Definition GetRandomEvenPort (w : world) : world * result manager_error Z := evenPort_loop 128 w.

(** [Manager.GrantPermission]. *)
Definition GrantPermission (m : Manager) (sourceAddr : net_Addr) (peerIP : list Z)
    : option alloc_error :=
  match permissionHandler m with
  | None => None
  | Some h => if h sourceAddr peerIP then None else Some errAdminProhibited
  end.

End Manager.

(** * Runs of the manager *)

(** What else a server asks of the environment. *)
Class OtherIO (R : RelayEnv) := { other_io : world -> world -> Prop }.

Section Steps.
Context {R : RelayEnv} {O : OtherIO R}.

Record sys := { now : Z; env : world; mgr : Manager }.

(** Every running timer of a manager. *)
Definition alloc_deadlines (a : Allocation) : list Z :=
  option_list (lifetimeTimer a)
  ++ (map_to_list (permissions a) ≫= fun kp => option_list (pTimer kp.2))
  ++ (channelBindings a ≫= fun c => option_list (cTimer c)).

Definition deadlines (m : Manager) : list Z :=
  (map_to_list (allocations m) ≫= fun ka => alloc_deadlines ka.2)
  ++ (reservationTimers m).*1.

(** Replace an allocation in place, as a mutation through its pointer does. *)
Definition update_alloc (k : string) (a : Allocation) (m : Manager) : Manager :=
  set_allocations (<[k := a]>) m.

(** What a client whose 5-tuple has the fingerprint [k] can make a manager do.
    [cbt] is the configured channel lifetime and [lmax] the longest allocation
    lifetime the server grants.  Nothing of it concerns another client's
    allocation, and no time passes.  The sockets of [GetRandomEvenPort] are opened and closed on
    behalf of nobody; [other_io] is everything the environment does for a server
    besides opening and closing sockets. *)
Inductive rstep (cbt lmax : Z) (k : string) : sys -> sys -> Prop :=
| rs_create t w m fa sock p l w' m' r :
    0 < l <= lmax ->
    (forall a src dst, fa = Some a -> argSrcAddr a = Some src -> argDstAddr a = Some dst ->
       Fingerprint {| ftProtocol := argProtocol a; SrcAddr := src; DstAddr := dst |} = k) ->
    CreateAllocation t fa sock p l w m = (w', m', r) ->
    rstep cbt lmax k {| now := t; env := w; mgr := m |} {| now := t; env := w'; mgr := m' |}
| rs_delete t w m ft w' m' :
    Fingerprint ft = k -> DeleteAllocation ft w m = (w', m') ->
    rstep cbt lmax k {| now := t; env := w; mgr := m |} {| now := t; env := w'; mgr := m' |}
| rs_refresh t w m a l :
    allocations m !! k = Some a -> 0 < l <= lmax ->
    rstep cbt lmax k {| now := t; env := w; mgr := m |}
      {| now := t; env := w; mgr := update_alloc k (Refresh t l a) m |}
| rs_permission t w m a addr :
    allocations m !! k = Some a ->
    rstep cbt lmax k {| now := t; env := w; mgr := m |}
      {| now := t; env := w; mgr := update_alloc k (AddPermission t (NewPermission addr) a) m |}
| rs_bind t w m a c a' :
    allocations m !! k = Some a -> AddChannelBind t c cbt a = Ok a' ->
    rstep cbt lmax k {| now := t; env := w; mgr := m |}
      {| now := t; env := w; mgr := update_alloc k a' m |}
| rs_cache t w m a id attrs :
    allocations m !! k = Some a ->
    rstep cbt lmax k {| now := t; env := w; mgr := m |}
      {| now := t; env := w; mgr := update_alloc k (SetResponseCache id attrs a) m |}
| rs_reserve t w m tok p :
    rstep cbt lmax k {| now := t; env := w; mgr := m |}
      {| now := t; env := w; mgr := CreateReservation t tok p m |}
| rs_probe t w m w' r :
    GetRandomEvenPort w = (w', r) ->
    rstep cbt lmax k {| now := t; env := w; mgr := m |} {| now := t; env := w'; mgr := m |}
| rs_other t w m w' :
    other_io w w' ->
    rstep cbt lmax k {| now := t; env := w; mgr := m |} {| now := t; env := w'; mgr := m |}.

(** What can happen to a manager until it is closed: the calls of its clients, the
    passing of time, the timers, and the failure of a relay socket, which makes
    the relay delete its allocation.  Time does not pass a running timer: it fires first. *)
Inductive mstep (cbt lmax : Z) : sys -> sys -> Prop :=
| ms_request k s s' : rstep cbt lmax k s s' -> mstep cbt lmax s s'
| ms_tick t w m t' :
    t <= t' -> Forall (fun d => t' <= d) (deadlines m) ->
    mstep cbt lmax {| now := t; env := w; mgr := m |} {| now := t'; env := w; mgr := m |}
| ms_lost t w m k a w' m' :
    allocations m !! k = Some a -> DeleteAllocation (fiveTuple a) w m = (w', m') ->
    mstep cbt lmax {| now := t; env := w; mgr := m |} {| now := t; env := w'; mgr := m' |}
| ms_fire_permission t w m k a key p :
    allocations m !! k = Some a -> permissions a !! key = Some p -> pTimer p = Some t ->
    mstep cbt lmax {| now := t; env := w; mgr := m |}
      {| now := t; env := w; mgr := update_alloc k (RemovePermission (pAddr p) a) m |}
| ms_fire_channel t w m k a i c :
    allocations m !! k = Some a -> channelBindings a !! i = Some c -> cTimer c = Some t ->
    mstep cbt lmax {| now := t; env := w; mgr := m |}
      {| now := t; env := w; mgr := update_alloc k (fst (RemoveChannelBind (Number c) a)) m |}
| ms_fire_allocation t w m k a w' m' :
    allocations m !! k = Some a -> lifetimeTimer a = Some t ->
    DeleteAllocation (fiveTuple a) w m = (w', m') ->
    mstep cbt lmax {| now := t; env := w; mgr := m |} {| now := t; env := w'; mgr := m' |}
| ms_fire_reservation t w m i tok :
    reservationTimers m !! i = Some (t, tok) ->
    mstep cbt lmax {| now := t; env := w; mgr := m |}
      {| now := t; env := w;
         mgr := {| allocations := allocations m;
                   reservations := expireReservation tok (reservations m);
                   reservationTimers := delete i (reservationTimers m);
                   permissionHandler := permissionHandler m |} |}.

(** A manager as [NewManager] returns it. *)
Definition sys_init (s : sys) : Prop :=
  allocations (mgr s) = ∅ /\ reservations (mgr s) = [] /\ reservationTimers (mgr s) = [].

Definition reachable (cbt lmax : Z) (s : sys) : Prop :=
  exists s0, sys_init s0 /\ rtc (mstep cbt lmax) s0 s.

(** ** Invariants *)

(** No two bindings share a channel number or a peer. *)
Definition channels_distinct (l : list ChannelBind) : Prop :=
  forall i j ci cj, l !! i = Some ci -> l !! j = Some cj -> (i < j)%nat ->
    Number ci <> Number cj /\ AddrEqual (Peer ci) (Peer cj) = false.

(** A timer that is running and due between now and now + [d]. *)
Definition running (t d : Z) (x : option Z) : Prop :=
  exists e, x = Some e /\ t <= e <= t + d.

Record alloc_inv (cbt lmax t : Z) (k : string) (a : Allocation) : Prop := {
  ai_key : Fingerprint (fiveTuple a) = k;
  ai_open : closed a = false;
  ai_timer : running t lmax (lifetimeTimer a);
  ai_perm : forall key p, permissions a !! key = Some p ->
    FingerprintAddr (pAddr p) = key /\ running t permissionTimeout (pTimer p);
  ai_chan : channels_distinct (channelBindings a);
  ai_chan_timer : Forall (fun c => running t cbt (cTimer c)) (channelBindings a);
}.

Record mgr_inv (cbt lmax : Z) (s : sys) : Prop := {
  mi_alloc : forall k a, allocations (mgr s) !! k = Some a -> alloc_inv cbt lmax (now s) k a;
  mi_res : (reservationTimers (mgr s)).*2 ≡ₚ map token (reservations (mgr s));
  mi_res_timer : Forall (fun dt => now s <= dt.1 <= now s + 30 * second)
                   (reservationTimers (mgr s));
}.

End Steps.

(** * Channel bindings *)

Lemma GetChannelByNumber_None a n :
  GetChannelByNumber a n = None <-> Forall (fun c => Number c <> n) (channelBindings a).
Proof. unfold GetChannelByNumber. rewrite fmap_None. apply list_find_None. Qed.

Lemma GetChannelByAddr_None a addr :
  GetChannelByAddr a addr = None <->
  Forall (fun c => ~ AddrEqual (Peer c) addr = true) (channelBindings a).
Proof. unfold GetChannelByAddr. rewrite fmap_None. apply list_find_None. Qed.

Lemma GetChannelByNumber_Some a n i :
  GetChannelByNumber a n = Some i <->
  exists c, channelBindings a !! i = Some c /\ Number c = n /\
    forall j cj, channelBindings a !! j = Some cj -> (j < i)%nat -> Number cj <> n.
Proof.
  unfold GetChannelByNumber. rewrite fmap_Some. split.
  - intros ([j c] & H & ->). apply list_find_Some in H as (? & ? & H). by eauto.
  - intros (c & ? & ? & H). exists (i, c). split; [|done]. apply list_find_Some. by eauto.
Qed.

Lemma GetChannelByAddr_Some a addr i :
  GetChannelByAddr a addr = Some i <->
  exists c, channelBindings a !! i = Some c /\ AddrEqual (Peer c) addr = true /\
    forall j cj, channelBindings a !! j = Some cj -> (j < i)%nat ->
      ~ AddrEqual (Peer cj) addr = true.
Proof.
  unfold GetChannelByAddr. rewrite fmap_Some. split.
  - intros ([j c] & H & ->). apply list_find_Some in H as (? & ? & H). by eauto.
  - intros (c & ? & ? & H). exists (i, c). split; [|done]. apply list_find_Some. by eauto.
Qed.

Lemma channels_distinct_nil : channels_distinct [].
Proof. intros i j ci cj H. by rewrite lookup_nil in H. Qed.

Lemma channels_distinct_snoc l c :
  channels_distinct l -> Forall (fun c' => Number c' <> Number c) l ->
  Forall (fun c' => ~ AddrEqual (Peer c') (Peer c) = true) l ->
  channels_distinct (l ++ [c]).
Proof.
  intros H Hn Ha i j ci cj Hi Hj Hij.
  apply lookup_app_Some in Hj as [Hj|[Hlen Hj]].
  - apply lookup_app_Some in Hi as [Hi|[Hlen _]]; [by eapply H|].
    apply lookup_lt_Some in Hj. lia.
  - apply list_lookup_singleton_Some in Hj as [Hj <-].
    apply lookup_app_Some in Hi as [Hi|[Hlen' Hi]].
    + rewrite !Forall_lookup in Hn, Ha. specialize (Hn i ci Hi). specialize (Ha i ci Hi).
      split; [done|]. by destruct (AddrEqual (Peer ci) (Peer c)).
    + apply list_lookup_singleton_Some in Hi as [Hi _]. lia.
Qed.

(** Timers do not matter for distinctness. *)
Lemma channels_distinct_timers l l' :
  (Number <$> l') = (Number <$> l) -> (Peer <$> l') = (Peer <$> l) ->
  channels_distinct l -> channels_distinct l'.
Proof.
  intros En Ep H i j ci cj Hi Hj Hij.
  assert (forall x cx, l' !! x = Some cx ->
    exists c, l !! x = Some c /\ Number c = Number cx /\ Peer c = Peer cx) as Hx.
  { intros x cx Hx. assert ((Number <$> l') !! x = (Number <$> l) !! x) as H1 by by rewrite En.
    assert ((Peer <$> l') !! x = (Peer <$> l) !! x) as H2 by by rewrite Ep.
    rewrite !list_lookup_fmap, Hx in H1. rewrite !list_lookup_fmap, Hx in H2. destruct (l !! x); simplify_eq/=. eauto. }
  destruct (Hx i ci Hi) as (di & Hdi & <- & <-), (Hx j cj Hj) as (dj & Hdj & <- & <-).
  by eapply H.
Qed.

Lemma alter_fmap_same {A B} (f : A -> A) (g : A -> B) (l : list A) i :
  (forall x, g (f x) = g x) -> g <$> alter f i l = g <$> l.
Proof. intros H. revert i. induction l as [|x l IH]; intros [|i]; csimpl; f_equal; auto; apply IH. Qed.

Lemma channels_distinct_delete l i : channels_distinct l -> channels_distinct (delete i l).
Proof.
  intros H. assert (forall x c, delete i l !! x = Some c ->
    l !! (if decide (x < i)%nat then x else S x) = Some c) as Hx.
  { intros x c Hc. destruct (decide (x < i)%nat).
    - by rewrite list_lookup_delete_lt in Hc.
    - by rewrite list_lookup_delete_ge in Hc by lia. }
  intros x y cx cy Hcx Hcy Hxy. eapply H; [by apply Hx|by apply Hx|].
  repeat case_decide; lia.
Qed.

(** In a distinct table an entry is found under its own number. *)
Lemma found_by_number a i c :
  channels_distinct (channelBindings a) -> channelBindings a !! i = Some c ->
  GetChannelByNumber a (Number c) = Some i.
Proof.
  intros H Hi. apply GetChannelByNumber_Some. exists c. split; [done|]. split; [done|].
  intros j cj Hj Hlt. by destruct (H j i cj c Hj Hi Hlt).
Qed.

Lemma Equal_refl ip : NetIP.Equal ip ip = true.
Proof. unfold NetIP.Equal. rewrite decide_True by done. by apply bool_decide_eq_true. Qed.

Lemma AddrEqual_refl ip p z : AddrEqual (UDPAddr ip p z) (UDPAddr ip p z) = true.
Proof. simpl. by rewrite Equal_refl, Z.eqb_refl. Qed.

(** ... and under its own peer. *)
Lemma found_by_addr a i c :
  channels_distinct (channelBindings a) -> channelBindings a !! i = Some c ->
  AddrEqual (Peer c) (Peer c) = true ->
  GetChannelByAddr a (Peer c) = Some i.
Proof.
  intros H Hi Hr. apply GetChannelByAddr_Some. exists c. split; [done|]. split; [done|].
  intros j cj Hj Hlt. destruct (H j i cj c Hj Hi Hlt) as [_ ->]. done.
Qed.

(** * Permissions *)

Lemma AddPermission_lookup t p a key :
  permissions (AddPermission t p a) !! key =
    if decide (FingerprintAddr (pAddr p) = key)
    then Some {| pAddr := default (pAddr p) (pAddr <$> permissions a !! key);
                 pTimer := Some (t + permissionTimeout) |}
    else permissions a !! key.
Proof.
  unfold AddPermission. destruct (permissions a !! FingerprintAddr (pAddr p)) as [e|] eqn:E; simpl;
    rewrite lookup_insert; case_decide as D; try done; subst; by rewrite E.
Qed.

Lemma AddPermission_frame t p a :
  RelayAddr (AddPermission t p a) = RelayAddr a /\ TurnSocket (AddPermission t p a) = TurnSocket a /\
  RelaySocket (AddPermission t p a) = RelaySocket a /\ fiveTuple (AddPermission t p a) = fiveTuple a /\
  channelBindings (AddPermission t p a) = channelBindings a /\
  lifetimeTimer (AddPermission t p a) = lifetimeTimer a /\
  closed (AddPermission t p a) = closed a /\ responseCache (AddPermission t p a) = responseCache a.
Proof. unfold AddPermission. by destruct (permissions a !! _). Qed.

Lemma running_now t d : 0 <= d -> running t d (Some (t + d)).
Proof. intros. exists (t + d). split; [done|]. lia. Qed.

Lemma permissionTimeout_pos : 0 <= permissionTimeout.
Proof. done. Qed.
#[export] Hint Resolve running_now permissionTimeout_pos : turn.

Lemma AddPermission_inv cbt lmax t k a addr :
  alloc_inv cbt lmax t k a -> alloc_inv cbt lmax t k (AddPermission t (NewPermission addr) a).
Proof.
  intros [H1 H2 H3 H4 H5 H6].
  destruct (AddPermission_frame t (NewPermission addr) a) as (E1 & E2 & E3 & E4 & E5 & E6 & E7 & E8).
  split; rewrite ?E4, ?E5, ?E6, ?E7; auto.
  intros key p Hp. rewrite AddPermission_lookup in Hp. case_decide as D; [|by apply H4].
  simplify_eq/=. split; [|auto with turn].
  destruct (permissions a !! FingerprintAddr addr) as [e|] eqn:E; simpl; [by apply H4|done].
Qed.

(** * Every step preserves the invariant *)

Lemma set_channelBindings_inv cbt lmax t k a f :
  alloc_inv cbt lmax t k a -> channels_distinct (f (channelBindings a)) ->
  Forall (fun c => running t cbt (cTimer c)) (f (channelBindings a)) ->
  alloc_inv cbt lmax t k (set_channelBindings f a).
Proof. intros [] ? ?. by split. Qed.

Lemma AddChannelBind_inv cbt lmax t k a c a' :
  0 <= cbt -> alloc_inv cbt lmax t k a -> AddChannelBind t c cbt a = Ok a' ->
  alloc_inv cbt lmax t k a'.
Proof.
  intros Hcbt Hinv. unfold AddChannelBind.
  destruct (negb _) eqn:Eq; [done|]. boolp. apply bool_decide_eq_true in Eq.
  destruct (GetChannelByNumber a (Number c)) as [i|] eqn:En.
  - assert (alloc_inv cbt lmax t k
      (set_channelBindings (alter (ChannelBind_refresh t cbt) i) a)) as H1.
    { apply set_channelBindings_inv; [done| |].
      - eapply channels_distinct_timers; [| |apply Hinv]; by apply alter_fmap_same.
      - apply Forall_alter; [apply Hinv|]. intros x _ _. by apply running_now. }
    destruct (channelBindings a !! i); intros; simplify_eq; [by apply AddPermission_inv|done].
  - intros; simplify_eq. apply AddPermission_inv, set_channelBindings_inv; [done| |].
    + apply channels_distinct_snoc; [apply Hinv|..].
      * by apply GetChannelByNumber_None.
      * by apply GetChannelByAddr_None.
    + apply Forall_app. split; [apply Hinv|]. constructor; [by apply running_now|done].
Qed.

Lemma RemoveChannelBind_inv cbt lmax t k a n :
  alloc_inv cbt lmax t k a -> alloc_inv cbt lmax t k (fst (RemoveChannelBind n a)).
Proof.
  intros H. unfold RemoveChannelBind. destruct (find_last _ _); simpl; [|done].
  apply set_channelBindings_inv; [done|apply channels_distinct_delete, H|].
  apply Forall_delete_list, H.
Qed.

Lemma RemovePermission_inv cbt lmax t k a addr :
  alloc_inv cbt lmax t k a -> alloc_inv cbt lmax t k (RemovePermission addr a).
Proof.
  intros [H1 H2 H3 H4 H5 H6]. split; auto. simpl. intros key p Hp.
  apply lookup_delete_Some in Hp as [_ Hp]. by apply H4.
Qed.

Lemma running_tick t t' d x : t <= t' -> running t d x -> Forall (fun e => t' <= e) (option_list x) ->
  running t' d x.
Proof.
  intros Ht (e & -> & He) Hf. exists e. split; [done|].
  apply Forall_cons in Hf as [Hf _]. lia.
Qed.

Lemma alloc_inv_tick cbt lmax t t' k a :
  t <= t' -> Forall (fun e => t' <= e) (alloc_deadlines a) ->
  alloc_inv cbt lmax t k a -> alloc_inv cbt lmax t' k a.
Proof.
  intros Ht Hf [H1 H2 H3 H4 H5 H6]. unfold alloc_deadlines in Hf.
  rewrite !Forall_app, !Forall_bind in Hf. destruct Hf as (F1 & F2 & F3). split; auto.
  - by eapply running_tick.
  - intros key p Hp. destruct (H4 key p Hp) as [? Hr]. split; [done|].
    eapply running_tick; [done..|]. rewrite Forall_forall in F2.
    apply (F2 (key, p)). by apply elem_of_map_to_list.
  - rewrite Forall_forall in *. intros c Hc.
    eapply running_tick; [done|by apply H6|by apply (F3 c)].
Qed.

Section StepInvariant.
Context {R : RelayEnv} {O : OtherIO R}.

Lemma mgr_inv_update cbt lmax t w m k a a' :
  mgr_inv cbt lmax {| now := t; env := w; mgr := m |} ->
  allocations m !! k = Some a ->
  (alloc_inv cbt lmax t k a -> alloc_inv cbt lmax t k a') ->
  mgr_inv cbt lmax {| now := t; env := w; mgr := update_alloc k a' m |}.
Proof.
  intros [H1 H2 H3] Hk Ha. split; simpl in *; [|done..].
  intros k' b. rewrite lookup_insert. case_decide; [|by apply H1].
  intros; simplify_eq. by apply Ha, H1.
Qed.

Lemma mgr_inv_delete cbt lmax t w m ft w' m' :
  mgr_inv cbt lmax {| now := t; env := w; mgr := m |} ->
  DeleteAllocation ft w m = (w', m') ->
  mgr_inv cbt lmax {| now := t; env := w'; mgr := m' |}.
Proof.
  intros [H1 H2 H3] E.
  assert (m' = set_allocations (delete (Fingerprint ft)) m) as ->.
  { unfold DeleteAllocation in E. destruct (allocations m !! _) as [a|]; [|by simplify_eq].
    destruct (Allocation_Close w a) as [[? ?] ?]. by simplify_eq. }
  split; simpl in *; [|done..]. intros k a Hk.
  apply lookup_delete_Some in Hk as [_ Hk]. by apply H1.
Qed.

Lemma mgr_inv_create cbt lmax t fa sock p l w m w' m' r :
  0 < l <= lmax -> mgr_inv cbt lmax {| now := t; env := w; mgr := m |} ->
  CreateAllocation t fa sock p l w m = (w', m', r) ->
  mgr_inv cbt lmax {| now := t; env := w'; mgr := m' |}.
Proof.
  intros Hl [H1 H2 H3] E. unfold CreateAllocation in E.
  assert (mgr_inv cbt lmax {| now := t; env := w'; mgr := m |}) as H0 by by split.
  destruct fa as [fa|]; [|by simplify_eq].
  destruct (argSrcAddr fa) as [src|]; [|by simplify_eq].
  destruct (argDstAddr fa) as [dst|]; [|by simplify_eq].
  destruct sock as [sock|]; [|by simplify_eq].
  destruct (l =? 0); [by simplify_eq|].
  destruct (GetAllocation m _); [by simplify_eq|].
  destruct (allocatePacketConn w "udp4" p) as [w1 [[c addr]|e]]; [|by simplify_eq].
  simplify_eq. split; simpl in *; [|done..].
  intros k a. rewrite lookup_insert. case_decide; [|by apply H1].
  intros; simplify_eq. split; simpl; auto.
  - exists (t + l). split; [done|]. lia.
  - intros key q Hq. by rewrite lookup_empty in Hq.
  - apply channels_distinct_nil.
Qed.

(** Dropping the last entry of a token removes that token once. *)
Lemma find_last_delete_perm tok (l : list reservation) i :
  find_last (fun r => String.eqb (token r) tok) l = Some i ->
  map token l ≡ₚ tok :: map token (delete i l).
Proof.
  revert i. induction l as [|x l IH]; intros i H; simpl in *; [done|].
  destruct (find_last _ l) as [j|]; simplify_eq.
  - simpl. rewrite (IH j) by done. apply Permutation_swap.
  - destruct (String.eqb (token x) tok) eqn:E; simplify_eq. simpl.
    apply String.eqb_eq in E. by rewrite E.
Qed.

Lemma delete_perm {A} (l : list A) i x : l !! i = Some x -> l ≡ₚ x :: delete i l.
Proof.
  intros H. rewrite delete_take_drop. rewrite <- (take_drop_middle l i x H) at 1.
  by rewrite Permutation_middle.
Qed.

Lemma expireReservation_perm tok (ts : list (Z * string)) l i t :
  ts.*2 ≡ₚ map token l -> ts !! i = Some (t, tok) ->
  (delete i ts).*2 ≡ₚ map token (expireReservation tok l).
Proof.
  intros Hp Hi. apply delete_perm in Hi.
  assert (ts.*2 ≡ₚ tok :: (delete i ts).*2) as H1 by by rewrite Hi at 1.
  rewrite H1 in Hp. unfold expireReservation.
  destruct (find_last _ l) as [j|] eqn:E.
  - rewrite (find_last_delete_perm tok l j E) in Hp. by apply Permutation_cons_inv in Hp.
  - exfalso. apply find_last_None in E. assert (tok ∈ map token l) as Hin.
    { rewrite <- Hp. by left. }
    apply list_elem_of_fmap in Hin as (r & -> & Hr). rewrite Forall_forall in E.
    specialize (E r Hr). by rewrite String.eqb_refl in E.
Qed.

Lemma request_step_inv cbt lmax k s s' :
  0 <= cbt -> mgr_inv cbt lmax s -> rstep cbt lmax k s s' -> mgr_inv cbt lmax s'.
Proof.
  intros Hcbt Hinv Hstep. destruct Hstep.
  - by eapply mgr_inv_create.
  - by eapply mgr_inv_delete.
  - eapply mgr_inv_update; [done..|]. intros []. split; auto.
    exists (t + l). split; [done|]. lia.
  - eapply mgr_inv_update; [done..|]. apply AddPermission_inv.
  - eapply mgr_inv_update; [done..|]. intros. by eapply AddChannelBind_inv.
  - eapply mgr_inv_update; [done..|]. intros []. by split.
  - destruct Hinv as [H1 H2 H3]. split; simpl in *; [done|..].
    + by rewrite fmap_app, map_app, H2.
    + apply Forall_app. split; [done|]. constructor; [|done]. simpl. unfold second. lia.
  - destruct Hinv as [H1 H2 H3]. by split.
  - destruct Hinv as [H1 H2 H3]. by split.
Qed.

Lemma mstep_inv cbt lmax s s' :
  0 <= cbt -> mgr_inv cbt lmax s -> mstep cbt lmax s s' -> mgr_inv cbt lmax s'.
Proof.
  intros Hcbt Hinv Hstep. destruct Hstep.
  - by eapply request_step_inv.
  - destruct Hinv as [H1 H2 H3]. unfold deadlines in H0. rewrite Forall_app, Forall_bind in H0.
    destruct H0 as [F1 F2]. split; simpl in *; [|done|].
    + intros k a Hk. eapply alloc_inv_tick; [done| |by apply H1].
      rewrite Forall_forall in F1. apply (F1 (k, a)). by apply elem_of_map_to_list.
    + rewrite Forall_fmap in F2. rewrite Forall_forall in *. intros x Hx.
      specialize (H3 x Hx). specialize (F2 x Hx). simpl in *. lia.
  - by eapply mgr_inv_delete.
  - eapply mgr_inv_update; [done..|]. apply RemovePermission_inv.
  - eapply mgr_inv_update; [done..|]. apply RemoveChannelBind_inv.
  - by eapply mgr_inv_delete.
  - destruct Hinv as [H1 H2 H3]. split; simpl in *; [done|..].
    + by eapply expireReservation_perm.
    + by apply Forall_delete_list.
Qed.

Lemma reachable_inv cbt lmax s : 0 <= cbt -> reachable cbt lmax s -> mgr_inv cbt lmax s.
Proof.
  intros Hcbt (s0 & (E1 & E2 & E3) & Hrtc).
  assert (mgr_inv cbt lmax s0) as H0.
  { split; rewrite ?E1, ?E2, ?E3; [|done..]. intros k a Hk. by rewrite lookup_empty in Hk. }
  clear E1 E2 E3. revert H0. induction Hrtc as [|x y z Hxy Hyz IH]; [done|].
  intros H0. apply IH. by eapply mstep_inv.
Qed.

(** [Close] closes the allocations it visits, and stops their timers. *)
Lemma stop_timers_deadlines a : alloc_deadlines (stop_timers a) = [].
Proof.
  unfold alloc_deadlines, stop_timers. simpl.
  assert (forall l : list (string * Permission), Forall (fun kp => pTimer kp.2 = None) l ->
    (l ≫= fun kp => option_list (pTimer kp.2)) = []) as H1.
  { induction 1 as [|x l Hx _ IH]; [done|]. cbn. rewrite Hx. exact IH. }
  rewrite H1.
  - simpl. induction (channelBindings a) as [|c l IH]; [done|]. exact IH.
  - apply Forall_forall. intros [key p] Hin. apply elem_of_map_to_list in Hin.
    apply lookup_fmap_Some in Hin as (q & <- & _). done.
Qed.

Lemma Manager_Close_all order w m w' m' :
  Manager_Close order w m = (w', m', None) ->
  (forall k a, allocations m !! k = Some a -> closed a = true -> alloc_deadlines a = []) ->
  dom (allocations m') = dom (allocations m) /\
  (forall k a, allocations m' !! k = Some a -> closed a = true -> alloc_deadlines a = []) /\
  forall k a, allocations m' !! k = Some a -> k ∈ order \/ closed <$> (allocations m !! k) = Some true -> closed a = true.
Proof.
  revert w m. induction order as [|k0 order IH]; intros w m E Hc; simpl in E.
  { injection E as <- <-. split; [done|]. split; [done|]. intros k a Hk [[]%not_elem_of_nil|H]. rewrite Hk in H. by injection H. }
  destruct (allocations m !! k0) as [a0|] eqn:Ek.
  - destruct (Allocation_Close w a0) as [[w1 a1] err] eqn:Ea. destruct err; [done|].
    assert (closed a1 = true /\ alloc_deadlines a1 = []) as [Hc1 Hd1].
    { unfold Allocation_Close in Ea. destruct (closed a0) eqn:E0; [injection Ea as <- <-; split; [done|by eapply Hc]|].
      destruct (closeConn w (RelaySocket a0)) as [w2 [e|]]; [done|]. injection Ea as <- <-. split; [done|apply stop_timers_deadlines]. }
    destruct (IH _ _ E) as (H1 & H2 & H3).
    { intros k a. simpl. rewrite lookup_insert. case_decide; [intros [= <-]; done|apply Hc]. }
    split; [|split; [done|]].
    + rewrite H1. simpl. rewrite dom_insert_L. apply elem_of_dom_2 in Ek. set_solver.
    + intros k a Hk Hor. apply (H3 k a Hk). simpl. rewrite lookup_insert. case_decide as Hkk; [right; simpl; by rewrite Hc1|].
      destruct Hor as [[->|Hin]%elem_of_cons|H]; [done|by left|by right].
  - destruct (IH _ _ E Hc) as (H1 & H2 & H3). split; [done|]. split; [done|]. intros k a Hk [[->|Hin]%elem_of_cons|H]; [|apply (H3 k a); auto..].
    exfalso. apply elem_of_dom_2 in Hk. rewrite H1 in Hk. apply not_elem_of_dom in Ek. done.
Qed.

End StepInvariant.

(** * Theorems *)

(** A concrete host: sockets are numbered, ports are handed out in order. *)
Definition test_env : RelayEnv := {|
  world := nat;
  IOError := unit;
  allocatePacketConn w _ p :=
    (S w, Ok (w, UDPAddr [10;0;0;1] (if p =? 0 then 49152 + Z.of_nat w else p) ""));
  closeConn w _ := (w, None);
|}.

#[export] Instance test_other : OtherIO test_env := {| other_io _ _ := False |}.

Definition client1 : net_Addr := UDPAddr [192;168;1;2] 5000 "".
Definition server1 : net_Addr := UDPAddr [192;168;1;1] 3478 "".
Definition peer1 : net_Addr := UDPAddr [203;0;113;9] 7000 "".
Definition ft1 : FiveTuple := {| ftProtocol := UDP; SrcAddr := client1; DstAddr := server1 |}.
Definition arg1 : option FiveTupleArg :=
  Some {| argProtocol := UDP; argSrcAddr := Some client1; argDstAddr := Some server1 |}.
Definition empty_manager : Manager :=
  {| allocations := ∅; reservations := []; reservationTimers := []; permissionHandler := None |}.

Definition alloc1 : Allocation :=
  set_lifetimeTimer (Some (10 * minute))
    (NewAllocation 7 ft1 0 (UDPAddr [10;0;0;1] 49152 "")).
Definition bind1 : ChannelBind := NewChannelBind 0x4000 peer1.
Definition alloc2 : Allocation :=
  match AddChannelBind 0 bind1 (10 * minute) alloc1 with Ok a => a | Err _ => alloc1 end.
Definition alloc3 : Allocation := RemovePermission peer1 alloc2.
Definition mgr_with (a : Allocation) : Manager := update_alloc (Fingerprint ft1) a empty_manager.

(** The run: allocate, bind a channel, let five minutes pass, the
    permission's timer fires. *)
Definition st (t : Z) (w : nat) (m : Manager) : @sys test_env := @Build_sys test_env t w m.

Lemma run_create : @mstep test_env test_other (10 * minute) hour (st 0 0 empty_manager) (st 0 1 (mgr_with alloc1)).
Proof.
  eapply ms_request, (@rs_create test_env test_other _ _ (Fingerprint ft1) 0 0%nat empty_manager arg1 (Some 7%nat) 0 (10 * minute)).
  - vm_compute. split; congruence.
  - intros a src dst [= <-] [= <-] [= <-]. reflexivity.
  - reflexivity.
Qed.

Lemma run_bind : @mstep test_env test_other (10 * minute) hour (st 0 1 (mgr_with alloc1)) (st 0 1 (mgr_with alloc2)).
Proof.
  replace (mgr_with alloc2) with (update_alloc (Fingerprint ft1) alloc2 (mgr_with alloc1)).
  - eapply ms_request, (@rs_bind test_env test_other _ _ (Fingerprint ft1) 0 1%nat (mgr_with alloc1) alloc1 bind1); reflexivity.
  - unfold mgr_with, update_alloc, set_allocations. simpl. by rewrite insert_insert_eq.
Qed.

Lemma run_wait : @mstep test_env test_other (10 * minute) hour (st 0 1 (mgr_with alloc2))
  (st (5 * minute) 1 (mgr_with alloc2)).
Proof.
  apply (@ms_tick test_env test_other); [vm_compute; congruence|].
  vm_compute. repeat (constructor; [congruence|]). constructor.
Qed.

Lemma run_expire : @mstep test_env test_other (10 * minute) hour (st (5 * minute) 1 (mgr_with alloc2))
  (st (5 * minute) 1 (mgr_with alloc3)).
Proof.
  replace (mgr_with alloc3) with (update_alloc (Fingerprint ft1) alloc3 (mgr_with alloc2)).
  - eapply (@ms_fire_permission test_env test_other _ _ (5 * minute) 1%nat (mgr_with alloc2) _ alloc2
      (FingerprintAddr peer1)
      {| pAddr := peer1; pTimer := Some (5 * minute) |}); reflexivity.
  - unfold mgr_with, update_alloc, set_allocations. simpl. by rewrite insert_insert_eq.
Qed.

Lemma run_reachable : @reachable test_env test_other (10 * minute) hour (st (5 * minute) 1 (mgr_with alloc3)).
Proof.
  exists (st 0 0 empty_manager). split; [done|].
  eapply rtc_l; [apply run_create|]. eapply rtc_l; [apply run_bind|].
  eapply rtc_l; [apply run_wait|]. eapply rtc_once, run_expire.
Qed.

(** C27. Until it is closed, whatever calls of clients, timers and failing relay sockets a manager goes through,
    in any order: every allocation is stored under the fingerprint of its own
    5-tuple and is open; its own timer, the timer of each of its permissions
    and of each of its channel bindings is running and due within the granted
    lifetime, five minutes and the channel lifetime; no two of its bindings
    share a channel number or a peer; and each port reservation has exactly
    one pending timer, due within thirty seconds.  [Manager.Close], when it visits every
    allocation and no socket reports an error, leaves none of them open and none of
    their timers running. *)
Theorem manager_invariant (R : RelayEnv) (O : OtherIO R) (cbt lmax : Z) (s : sys) :
  0 <= cbt -> reachable cbt lmax s ->
  mgr_inv cbt lmax s /\
  forall order w' m', Manager_Close order (env s) (mgr s) = (w', m', None) ->
    (forall k, k ∈ dom (allocations (mgr s)) -> k ∈ order) ->
    dom (allocations m') = dom (allocations (mgr s)) /\
    forall k a, allocations m' !! k = Some a -> closed a = true /\ alloc_deadlines a = [].
Proof.
  intros Hcbt Hr. pose proof (reachable_inv cbt lmax s Hcbt Hr) as Hinv. split; [done|]. intros order w' m' E Hall.
  apply Manager_Close_all in E as (H1 & H2 & H3).
  - split; [done|]. intros k a Hk. assert (closed a = true) as Hc; [|by eauto]. apply (H3 k a Hk). left. apply Hall. rewrite <- H1. by eapply elem_of_dom_2.
  - intros k a Hk Hc. destruct (mi_alloc _ _ _ Hinv k a Hk) as [_ Ho _ _ _ _]. congruence.
Qed.

Lemma manager_invariant_witness :
  @mgr_inv test_env (10 * minute) hour (st (5 * minute) 1 (mgr_with alloc3)) /\
  exists w' m', @Manager_Close test_env [Fingerprint ft1] (1%nat : @world test_env) (mgr_with alloc3) = (w', m', None) /\
    forall k a, allocations m' !! k = Some a -> closed a = true /\ alloc_deadlines a = [].
Proof.
  destruct (manager_invariant test_env test_other (10 * minute) hour (st (5 * minute) 1 (mgr_with alloc3))) as [H1 H2];
    [vm_compute; congruence|apply run_reachable|].
  split; [exact H1|]. do 2 eexists. split; [reflexivity|]. refine (proj2 (H2 [Fingerprint ft1] _ _ eq_refl _)).
  intros k. rewrite elem_of_dom. intros [a Ha]. apply list_elem_of_singleton. simpl in Ha.
  rewrite lookup_insert_Some, lookup_empty in Ha. naive_solver.
Defined.

(** A permission is not what keeps a channel open: there is a run in
    which a bound channel has outlived its peer's permission (five minutes
    against the default ten), and then the relay still forwards that peer's
    datagrams to the client, although no permission is left. *)
Theorem channel_relays_without_permission :
  exists (s : @sys test_env) (a : Allocation) (src : net_Addr),
    @reachable test_env test_other (10 * minute) hour s /\
    allocations (mgr s) !! Fingerprint ft1 = Some a /\
    GetPermission a src = None /\
    packetHandler (E := unit) (fun _ => 0%nat) (fun _ => Err tt) a (Ok ([1;2;3;4], src)) =
      RelayContinue (Some (7%nat, [64;0;0;4;1;2;3;4], client1)).
Proof.
  exists (st (5 * minute) 1 (mgr_with alloc3)), alloc3, peer1.
  split; [apply run_reachable|]. split; [reflexivity|]. split; reflexivity.
Qed.

(** Peers as the request handlers build them. *)
Definition udp_peer (addr : net_Addr) : Prop :=
  exists ip p, addr = UDPAddr ip p "" /\ valid_ip ip.

Lemma udp_peer_refl addr : udp_peer addr -> AddrEqual addr addr = true.
Proof. intros (ip & p & -> & _). apply AddrEqual_refl. Qed.

Lemma AddrEqual_fingerprint a b :
  udp_peer a -> udp_peer b -> AddrEqual a b = true -> FingerprintAddr a = FingerprintAddr b.
Proof.
  intros (ip & p & -> & Hi) (ip' & p' & -> & Hi') E. simpl in *.
  apply andb_true_iff in E as [E _]. by apply ipString_inj.
Qed.

(** The two ways [AddChannelBind] succeeds. *)
Lemma AddChannelBind_Ok t c l a a' :
  AddChannelBind t c l a = Ok a' ->
  (GetChannelByNumber a (Number c) = None /\ GetChannelByAddr a (Peer c) = None /\
   a' = AddPermission t (NewPermission (Peer c))
          (set_channelBindings (fun cs => cs ++ [ChannelBind_start t l c]) a)) \/
  (exists i cb, GetChannelByNumber a (Number c) = Some i /\ GetChannelByAddr a (Peer c) = Some i /\
     channelBindings a !! i = Some cb /\
     a' = AddPermission t (NewPermission (Peer cb))
            (set_channelBindings (alter (ChannelBind_refresh t l) i) a)).
Proof.
  unfold AddChannelBind. destruct (negb _) eqn:Eq; [done|]. boolp.
  apply bool_decide_eq_true in Eq. destruct (GetChannelByNumber a (Number c)) as [i|] eqn:En.
  - pose proof (proj1 (GetChannelByNumber_Some _ _ _) En) as (cb & Hcb & _).
    rewrite Hcb. intros. right. exists i, cb. by simplify_eq.
  - intros. left. by simplify_eq.
Qed.

(** What a successful bind leaves behind. *)
Definition bound (t l : Z) (c : ChannelBind) (a a' : Allocation) : Prop :=
  exists i cb,
    channelBindings a' !! i = Some cb /\ Number cb = Number c /\
    AddrEqual (Peer cb) (Peer c) = true /\ cTimer cb = Some (t + l) /\
    GetChannelByNumber a' (Number c) = Some i /\ GetChannelByAddr a' (Peer c) = Some i /\
    (exists p, GetPermission a' (Peer c) = Some p /\ pTimer p = Some (t + permissionTimeout)) /\
    (forall j, j <> i -> channelBindings a' !! j = channelBindings a !! j).

Lemma AddPermission_granted t p a :
  exists q, permissions (AddPermission t p a) !! FingerprintAddr (pAddr p) = Some q /\
    pTimer q = Some (t + permissionTimeout).
Proof. eexists. rewrite AddPermission_lookup, decide_True by done. done. Qed.

Lemma GetChannelByNumber_frame t p a n :
  GetChannelByNumber (AddPermission t p a) n = GetChannelByNumber a n.
Proof.
  unfold GetChannelByNumber. by destruct (AddPermission_frame t p a) as (_ & _ & _ & _ & -> & _).
Qed.

Lemma GetChannelByAddr_frame t p a n :
  GetChannelByAddr (AddPermission t p a) n = GetChannelByAddr a n.
Proof.
  unfold GetChannelByAddr. by destruct (AddPermission_frame t p a) as (_ & _ & _ & _ & -> & _).
Qed.

Lemma AddChannelBind_new t c l a :
  udp_peer (Peer c) ->
  GetChannelByNumber a (Number c) = None -> GetChannelByAddr a (Peer c) = None ->
  bound t l c a (AddPermission t (NewPermission (Peer c))
    (set_channelBindings (fun cs => cs ++ [ChannelBind_start t l c]) a)).
Proof.
  intros Hp Hn Ha. set (a1 := set_channelBindings _ a).
  assert (channelBindings a1 !! length (channelBindings a) = Some (ChannelBind_start t l c)) as Hl.
  { unfold a1. simpl. rewrite lookup_app_r, Nat.sub_diag by lia. done. }
  apply GetChannelByNumber_None in Hn. apply GetChannelByAddr_None in Ha.
  exists (length (channelBindings a)), (ChannelBind_start t l c).
  rewrite GetChannelByNumber_frame, GetChannelByAddr_frame.
  destruct (AddPermission_frame t (NewPermission (Peer c)) a1) as (_ & _ & _ & _ & -> & _).
  split_and!; try done.
  - by apply udp_peer_refl.
  - apply GetChannelByNumber_Some. exists (ChannelBind_start t l c). split_and!; [done..|].
    intros j cj Hj Hlt. unfold a1 in Hj. simpl in Hj. rewrite lookup_app_l in Hj by done.
    rewrite Forall_lookup in Hn. by eapply Hn.
  - apply GetChannelByAddr_Some. exists (ChannelBind_start t l c).
    split_and!; [done|by apply udp_peer_refl|].
    intros j cj Hj Hlt. unfold a1 in Hj. simpl in Hj. rewrite lookup_app_l in Hj by done.
    rewrite Forall_lookup in Ha. by eapply Ha.
  - apply (AddPermission_granted t (NewPermission (Peer c))).
  - intros j Hj. unfold a1. simpl. destruct (decide (j < length (channelBindings a))%nat).
    + by rewrite lookup_app_l.
    + rewrite lookup_app_r by lia. rewrite (lookup_ge_None_2 (channelBindings a)) by lia.
      apply lookup_ge_None_2. simpl. lia.
Qed.

Lemma list_lookup_refresh t l (cs : list ChannelBind) i j cj :
  alter (ChannelBind_refresh t l) i cs !! j = Some cj ->
  exists c, cs !! j = Some c /\ Number c = Number cj /\ Peer c = Peer cj.
Proof.
  rewrite list_lookup_alter. case_decide.
  - intros (c & Hc & ->)%fmap_Some. subst. by exists c.
  - by exists cj.
Qed.

Lemma AddChannelBind_again t c l a i cb :
  udp_peer (Peer c) -> Forall (fun x => udp_peer (Peer x)) (channelBindings a) ->
  GetChannelByNumber a (Number c) = Some i -> GetChannelByAddr a (Peer c) = Some i ->
  channelBindings a !! i = Some cb ->
  bound t l c a (AddPermission t (NewPermission (Peer cb))
    (set_channelBindings (alter (ChannelBind_refresh t l) i) a)).
Proof.
  intros Hp Hps Hn Ha Hi. set (a1 := set_channelBindings _ a).
  apply GetChannelByNumber_Some in Hn as (c1 & Hc1 & Hnum & Hn). simplify_eq.
  apply GetChannelByAddr_Some in Ha as (c2 & Hc2 & Hadr & Ha). simplify_eq.
  assert (channelBindings a1 !! i = Some (ChannelBind_refresh t l c1)) as Hl.
  { unfold a1. simpl. rewrite list_lookup_alter, decide_True by done.
    by match goal with H : _ !! i = Some c1 |- _ => rewrite H end. }
  exists i, (ChannelBind_refresh t l c1).
  rewrite GetChannelByNumber_frame, GetChannelByAddr_frame.
  destruct (AddPermission_frame t (NewPermission (Peer c1)) a1) as (_ & _ & _ & _ & -> & _).
  split_and!; try done.
  - apply GetChannelByNumber_Some. exists (ChannelBind_refresh t l c1). split_and!; [done..|].
    intros j cj Hj Hlt. apply list_lookup_refresh in Hj as (c2 & Hc2 & <- & _). by eapply Hn.
  - apply GetChannelByAddr_Some. exists (ChannelBind_refresh t l c1). split_and!; [done..|].
    intros j cj Hj Hlt. apply list_lookup_refresh in Hj as (c2 & Hc2 & _ & <-). by eapply Ha.
  - unfold GetPermission. rewrite Forall_lookup in Hps.
    rewrite <- (AddrEqual_fingerprint (Peer c1) (Peer c)) by (try done; by eapply Hps).
    apply (AddPermission_granted t (NewPermission (Peer c1))).
  - intros j Hj. unfold a1. simpl. by rewrite list_lookup_alter_ne.
Qed.

(** [AddChannelBind] refuses exactly the requests that would give a
    channel number a second peer or a peer a second channel number, and
    otherwise leaves that number and that peer bound to each other, found
    under both, with the channel's timer set to the requested lifetime and the
    peer's permission renewed for five minutes, and every other binding as it
    was. *)
Theorem AddChannelBind_correct (t l : Z) (c : ChannelBind) (a : Allocation) :
  udp_peer (Peer c) -> Forall (fun x => udp_peer (Peer x)) (channelBindings a) ->
  match AddChannelBind t c l a with
  | Err e => e = errSameChannelDifferentPeer /\
             GetChannelByNumber a (Number c) <> GetChannelByAddr a (Peer c)
  | Ok a' => GetChannelByNumber a (Number c) = GetChannelByAddr a (Peer c) /\ bound t l c a a'
  end.
Proof.
  intros Hp Hps. destruct (AddChannelBind t c l a) as [a'|e] eqn:E.
  - apply AddChannelBind_Ok in E as [(Hn & Ha & ->)|(i & cb & Hn & Ha & Hi & ->)];
      rewrite Hn, Ha; (split; [done|]).
    + by apply AddChannelBind_new.
    + by apply AddChannelBind_again.
  - unfold AddChannelBind in E. destruct (negb _) eqn:Eq; boolp.
    + apply bool_decide_eq_false in Eq. by simplify_eq.
    + destruct (GetChannelByNumber a _) as [i|]; [|done]. by destruct (channelBindings a !! i).
Qed.

Lemma peer1_ok : udp_peer peer1.
Proof.
  exists [203;0;113;9], 7000. split; [reflexivity|].
  split; [left; reflexivity|]. repeat constructor; vm_compute; congruence.
Qed.

Lemma AddChannelBind_correct_witness :
  (match AddChannelBind 5 bind1 60 alloc2 with
   | Err e => e = errSameChannelDifferentPeer /\
       GetChannelByNumber alloc2 (Number bind1) <> GetChannelByAddr alloc2 (Peer bind1)
   | Ok a' => GetChannelByNumber alloc2 (Number bind1) = GetChannelByAddr alloc2 (Peer bind1) /\
       bound 5 60 bind1 alloc2 a'
   end) /\
  AddChannelBind 5 (NewChannelBind 0x4001 peer1) 60 alloc2 = Err errSameChannelDifferentPeer.
Proof.
  split; [|reflexivity]. apply (AddChannelBind_correct 5 60 bind1 alloc2).
  - apply peer1_ok.
  - constructor; [apply peer1_ok|constructor].
Defined.

(** What a relay does with a datagram from a peer: with a channel bound
    to the peer the client gets ChannelData that decodes to that channel's
    number and the datagram; without one but with a permission for the peer's
    IP address it gets the message built from the peer's address and the
    datagram as a Data indication, and the relay ends if that message cannot be
    built; with neither, nothing is sent.  Whatever is sent goes out on the
    socket and to the client address of the allocation's own 5-tuple. *)
Theorem packetHandler_correct (E F : Type) (extra : nat -> nat)
    (build : list Setter -> result F bytes) (a : Allocation) (data : bytes)
    (ip : list Z) (port : Z) (zone : string) :
  blen data <= rtpMTU ->
  Forall (fun c => ChannelNumber.isChannelNumberValid (Number c) = true) (channelBindings a) ->
  let src := UDPAddr ip port zone in
  let to_client raw := RelayContinue (Some (TurnSocket a, raw, SrcAddr (fiveTuple a))) in
  let turn := packetHandler (E := E) extra build a (Ok (data, src)) in
  match GetChannelByAddr a src ≫= (fun i => channelBindings a !! i), GetPermission a src with
  | Some cb, _ =>
      exists raw d, turn = to_client raw /\
        ChannelData.Decode (ChannelData.of_raw raw) = (d, None) /\
        ChannelData.Number d = Number cb /\ ChannelData.Data d = data
  | None, Some _ =>
      turn = match build (dataIndication ip port data) with
             | Ok raw => to_client raw
             | Err _ => RelayStop
             end
  | None, None => turn = RelayContinue None
  end.
Proof.
  intros Hd Hv src to_client turn. pose proof (blen_nonneg data) as Hd0. unfold rtpMTU in Hd.
  unfold turn, to_client, packetHandler.
  destruct (GetChannelByAddr a src ≫= fun i => channelBindings a !! i) as [cb|] eqn:Ec.
  - apply bind_Some in Ec as (i & _ & Hi). rewrite Forall_lookup in Hv.
    specialize (Hv i cb Hi). rewrite Encode_content.
    set (body := _ ++ replicate _ _).
    exists (putUint16 (Number cb) ++ putUint16 (blen data) ++ body). eexists.
    split; [done|]. split; [|split].
    + apply Decode_header; try done; try lia.
      * unfold ChannelNumber.isChannelNumberValid, ChannelNumber.MinChannelNumber,
          ChannelNumber.MaxChannelNumber in Hv. boolp. lia.
      * unfold body. simpl ChannelData.Data. rewrite blen_app.
        match goal with |- _ <= _ + blen ?r => pose proof (blen_nonneg r); lia end.
    + done.
    + simpl. unfold body, blen. simpl. rewrite Nat2Z.id. by rewrite take_app_length.
  - by destruct (GetPermission a src).
Qed.

Lemma packetHandler_correct_witness :
  exists raw d,
    packetHandler (E := unit) (fun n => n) (fun _ => Err tt) alloc3 (Ok ([1;2;3], peer1)) =
      RelayContinue (Some (7%nat, raw, client1)) /\
    ChannelData.Decode (ChannelData.of_raw raw) = (d, None) /\
    ChannelData.Number d = 0x4000 /\ ChannelData.Data d = [1;2;3].
Proof.
  apply (packetHandler_correct unit unit (fun n => n) (fun _ => Err tt) alloc3 [1;2;3] [203;0;113;9] 7000 "").
  - vm_compute. congruence.
  - constructor; [reflexivity|constructor].
Defined.

Section ManagerTheorems.
Context {R : RelayEnv}.

(** Creating an allocation: an error of any kind (nil or zero
    arguments, a 5-tuple already in use, no relay port) leaves the manager as
    it was; success means the 5-tuple was free, and the new allocation is
    stored under it, open, without permissions, channels or a cached response,
    on the socket and relayed address the generator returned, and its timer
    set to the requested lifetime; every other allocation is untouched. *)
Theorem CreateAllocation_correct (t : Z) (p : Protocol) (src dst : net_Addr) (sock : conn)
    (rport l : Z) (w : world) (m : Manager) :
  let ft := {| ftProtocol := p; SrcAddr := src; DstAddr := dst |} in
  let arg := {| argProtocol := p; argSrcAddr := Some src; argDstAddr := Some dst |} in
  match CreateAllocation t (Some arg) (Some sock) rport l w m with
  | (w', m', Err e) =>
      m' = m /\
      ((e = AllocErr errLifetimeZero /\ l = 0) \/
       (e = AllocErr errDupeFiveTuple /\ is_Some (GetAllocation m ft)) \/
       (exists ioerr, e = EnvErr ioerr /\ allocatePacketConn w "udp4" rport = (w', Err ioerr)))
  | (w', m', Ok a) =>
      l <> 0 /\ GetAllocation m ft = None /\ GetAllocation m' ft = Some a /\
      (exists c addr, allocatePacketConn w "udp4" rport = (w', Ok (c, addr)) /\
         RelaySocket a = c /\ RelayAddr a = addr) /\
      fiveTuple a = ft /\ TurnSocket a = sock /\ closed a = false /\
      permissions a = ∅ /\ channelBindings a = [] /\ responseCache a = None /\
      lifetimeTimer a = Some (t + l) /\
      (forall k, k <> Fingerprint ft -> allocations m' !! k = allocations m !! k)
  end.
Proof.
  intros ft arg. unfold CreateAllocation, arg; simpl. fold ft.
  destruct (l =? 0) eqn:El; boolp; [auto|].
  destruct (GetAllocation m ft) eqn:Eg; [split; [done|]; right; left; eauto|].
  destruct (allocatePacketConn w "udp4" rport) as [w' [[c addr]|e]] eqn:Ea.
  - split_and!; try done.
    + unfold GetAllocation. simpl. apply lookup_insert_eq.
    + eauto.
    + intros k Hk. simpl. by apply lookup_insert_ne.
  - split; [done|]. right; right. eauto.
Qed.

(** Deleting an allocation removes it and only it, and closes the
    relay socket it was open on; deleting an unknown 5-tuple changes nothing. *)
Theorem DeleteAllocation_correct (ft : FiveTuple) (w : world) (m : Manager) :
  let '(w', m') := DeleteAllocation ft w m in
  GetAllocation m' ft = None /\
  (forall k, k <> Fingerprint ft -> allocations m' !! k = allocations m !! k) /\
  reservations m' = reservations m /\
  match GetAllocation m ft with
  | None => w' = w /\ allocations m' = allocations m
  | Some a => w' = if closed a then w else fst (closeConn w (RelaySocket a))
  end.
Proof.
  unfold DeleteAllocation, GetAllocation, Allocation_Close.
  destruct (allocations m !! Fingerprint ft) as [a|] eqn:E.
  - destruct (closed a); [|destruct (closeConn w (RelaySocket a)) as [w1 err] eqn:Ec];
      simpl; (split; [apply lookup_delete_eq|]); (split; [|done]);
      intros; by rewrite lookup_delete_ne.
  - simpl. split; [apply lookup_delete_eq|]. split; [intros; by rewrite lookup_delete_ne|].
    split; [done|]. split; [done|]. by apply delete_id.
Qed.

End ManagerTheorems.
