(* ===== verification/TurnServer.v ===== *)
(** The TURN server's request processing: lib/pion-turn/internal/server.

    A request is handled in a state made of the clock, the host's sockets, the
    allocation manager and the table of nonces.  The handlers are state
    passing functions that return Go's error ([None] is nil).  The stun
    package is the class [StunServer] over [Stun.StunMessage]; sockets,
    random numbers and the MD5 digest are the class [ServerEnv]. *)

From S2P Require Import Prelude GoNet Stun TurnProto Allocation.

(** * What the server calls *)

Class StunServer (S : StunMessage) := {
  msg_Decode : bytes -> result StunError Message;
  msg_Class : Message -> MessageClass;
  msg_Method : Message -> Method;
  msg_TransactionID : Message -> bytes;
  msg_Contains : Message -> AttrType -> bool;
  nonce_GetFrom : Message -> result StunError string;
  realm_GetFrom : Message -> result StunError string;
  username_GetFrom : Message -> result StunError string;
  (** [XORMappedAddress.GetFromAs]: an IP and a port *)
  xor_GetFromAs : Message -> AttrType -> result StunError (list Z * Z);
  (** the messages [ForEach] presents to its callback, one per attribute of
      the type, in which [Get] finds that attribute *)
  msg_views : Message -> AttrType -> list Message;
  (** [MessageIntegrity(key).Check]; [None] is the nil error *)
  integrity_Check : bytes -> Message -> option StunError;
  (** [stun.Build(setters...)], as the raw bytes of the message *)
  Build : list Setter -> result StunError bytes;
}.

Class ServerEnv (R : RelayEnv) := {
  (** [PacketConn.WriteTo]: the number of bytes written and the error *)
  writeTo : world -> conn -> bytes -> net_Addr -> world * (Z * option IOError);
  (** [errors.Is(err, net.ErrClosed)] *)
  isErrClosed : IOError -> bool;
  localAddr : conn -> net_Addr;
  (** math/rand: [Intn] and [Int63] *)
  randIntn : world -> Z -> world * Z;
  randInt63 : world -> world * Z;
  (** the hexadecimal MD5 digest of a text *)
  md5hex : string -> string;
}.

Section Server.
Context {S : StunMessage} {SS : StunServer S} {R : RelayEnv} {SE : ServerEnv R}.

Inductive server_error :=
| ErrStun (e : StunError)
| ErrIO (e : IOError)
| ErrManager (e : manager_error)
| ErrAllocation (e : alloc_error)
| ErrIpnet (e : ipnet_error)
| ErrChannelData (e : ChannelData.error)
| errFailedToSendError (send orig : server_error)
| errDuplicatedNonce
| errNoSuchUser (username : string)
| errUnexpectedClass
| errUnexpectedMethod
| errFailedToHandle (e : server_error)
| errUnhandledSTUNPacket (e : server_error)
| errUnableToHandleChannelData (e : server_error)
| errFailedToCreateSTUNPacket (e : server_error)
| errFailedToCreateChannelData (e : server_error)
| errRelayAlreadyAllocatedForFiveTuple
| errUnsupportedTransportProtocol
| errNoDontFragmentSupport
| errRequestWithReservationTokenAndEvenPort
| errNoAllocationFound
| errNoPermission
| errShortWrite
| errNoSuchChannelBind
| errFailedWriteSocket (e : IOError).

(** [Request]: the datagram and the server's configuration. *)
Record Request := {
  rConn : conn;
  rSrcAddr : net_Addr;
  rBuff : bytes;
  rAuthHandler : string -> string -> net_Addr -> option bytes;
  rRealm : string;
  rChannelBindTimeout : Z;
}.

(** The server state a request is handled in. *)
Record state := { core : sys; nonces : gmap string Z }.

Definition st_mgr (s : state) : Manager := mgr (core s).
Definition st_now (s : state) : Z := now (core s).
Definition st_env (s : state) : world := env (core s).

Definition set_env (w : world) (s : state) : state :=
  {| core := {| now := now (core s); env := w; mgr := mgr (core s) |}; nonces := nonces s |}.
Definition set_mgr (m : Manager) (s : state) : state :=
  {| core := {| now := now (core s); env := env (core s); mgr := m |}; nonces := nonces s |}.
Definition set_nonces (n : gmap string Z) (s : state) : state :=
  {| core := core s; nonces := n |}.

(** * util.go *)

Definition maximumAllocationLifetime : Z := hour.
Definition nonceLifetime : Z := hour.

Definition letters : string := "abcdefghijklmnopqrstuvwxyzABCDEFGHIJKLMNOPQRSTUVWXYZ".

(** [randSeq]. *)
Fixpoint randSeq (n : nat) (w : world) : world * string :=
  match n with
  | O => (w, EmptyString)
  | Datatypes.S n' =>
      let '(w1, i) := randIntn w 52 in
      let c := match String.get (Z.to_nat i) letters with Some c => c | None => zero end in
      let '(w2, rest) := randSeq n' w1 in
      (w2, String c rest)
  end.

(** [buildNonce]: the digest of the Unix time and a random number, in decimal. *)
Definition buildNonce (s : state) : state * string :=
  let '(w, r) := randInt63 (st_env s) in
  (set_env w s, md5hex (itoa (st_now s / second) +:+ itoa r)).

(** [buildAndSend]. *)
Definition buildAndSend (c : conn) (dst : net_Addr) (attrs : list Setter) (s : state)
    : state * option server_error :=
  match Build attrs with
  | Err e => (s, Some (ErrStun e))
  | Ok raw =>
      let '(w, (_, err)) := writeTo (st_env s) c raw dst in
      (set_env w s,
       match err with
       | None => None
       | Some e => if isErrClosed e then None else Some (ErrIO e)
       end)
  end.

(** [buildAndSendErr]: the original error, wrapped when sending fails too. *)
Definition buildAndSendErr (c : conn) (dst : net_Addr) (err : server_error)
    (attrs : list Setter) (s : state) : state * option server_error :=
  let '(s', sendErr) := buildAndSend c dst attrs s in
  (s', Some (match sendErr with
             | Some e => errFailedToSendError e err
             | None => err
             end)).

(** [buildMsg]. *)
Definition buildMsg (id : bytes) (m : Method) (c : MessageClass) (additional : list Setter)
    : list Setter :=
  SetTransactionID id :: SetType m c :: additional.

(** The closure [respondWithNonce] of [authenticateRequest]. *)
Definition respondWithNonce (r : Request) (m : Message) (callingMethod : Method)
    (code : ErrorCode) (s : state) : state * option server_error :=
  let '(s1, nonce) := buildNonce s in
  match nonces s1 !! nonce with
  | Some _ => (s1, Some errDuplicatedNonce)
  | None =>
      let s2 := set_nonces (<[nonce := st_now s1]> (nonces s1)) s1 in
      buildAndSend (rConn r) (rSrcAddr r)
        (buildMsg (msg_TransactionID m) callingMethod ClassErrorResponse
           [SetErrorCode code; SetNonce nonce; SetRealm (rRealm r)]) s2
  end.

(** [authenticateRequest]: the integrity key when the request is
    authenticated, the error to return otherwise.  The code's
    [r.Nonces.Delete(nonceAttr)] passes a pointer as the key of a map keyed by
    strings, so it removes nothing. *)
Definition authenticateRequest (r : Request) (m : Message) (callingMethod : Method) (s : state)
    : state * (bytes + option server_error) :=
  let fail '(s', e) := (s', inr e) in
  let badRequestMsg := buildMsg (msg_TransactionID m) callingMethod ClassErrorResponse
                         [SetErrorCode CodeBadRequest] in
  if negb (msg_Contains m AttrMessageIntegrity)
  then fail (respondWithNonce r m callingMethod CodeUnauthorized s)
  else
    match nonce_GetFrom m with
    | Err e => fail (buildAndSendErr (rConn r) (rSrcAddr r) (ErrStun e) badRequestMsg s)
    | Ok nonceAttr =>
        match nonces s !! nonceAttr with
        | None => fail (respondWithNonce r m callingMethod CodeStaleNonce s)
        | Some creation =>
            if nonceLifetime <=? st_now s - creation
            then fail (respondWithNonce r m callingMethod CodeStaleNonce s)
            else
              match realm_GetFrom m with
              | Err e => fail (buildAndSendErr (rConn r) (rSrcAddr r) (ErrStun e) badRequestMsg s)
              | Ok realmAttr =>
                  match username_GetFrom m with
                  | Err e =>
                      fail (buildAndSendErr (rConn r) (rSrcAddr r) (ErrStun e) badRequestMsg s)
                  | Ok usernameAttr =>
                      match rAuthHandler r usernameAttr realmAttr (rSrcAddr r) with
                      | None =>
                          fail (buildAndSendErr (rConn r) (rSrcAddr r)
                                  (errNoSuchUser usernameAttr) badRequestMsg s)
                      | Some ourKey =>
                          match integrity_Check ourKey m with
                          | Some e =>
                              fail (buildAndSendErr (rConn r) (rSrcAddr r) (ErrStun e)
                                      badRequestMsg s)
                          | None => (s, inl ourKey)
                          end
                      end
                  end
              end
        end
    end.

(** [allocationLifeTime]. *)
Definition allocationLifeTime (m : Message) : Z :=
  match Lifetime_GetFrom m with
  | Ok d => if d <? maximumAllocationLifetime then d else DefaultLifetime
  | Err _ => DefaultLifetime
  end.

(** * stun.go *)

(** [handleBindingRequest]. *)
Definition handleBindingRequest (r : Request) (m : Message) (s : state)
    : state * option server_error :=
  match AddrIPPort (rSrcAddr r) with
  | Err e => (s, Some (ErrIpnet e))
  | Ok (ip, port) =>
      buildAndSend (rConn r) (rSrcAddr r)
        (buildMsg (msg_TransactionID m) MethodBinding ClassSuccessResponse
           [SetXORMappedAddress ip port; SetFingerprint]) s
  end.

(** * turn.go *)

(** The 5-tuple the handlers look allocations up with. *)
Definition request_ft (r : Request) : FiveTuple :=
  {| ftProtocol := UDP; SrcAddr := rSrcAddr r; DstAddr := localAddr (rConn r) |}.

Definition PeerAddress_GetFrom (m : Message) : result StunError (list Z * Z) :=
  xor_GetFromAs m AttrXORPeerAddress.

(** The part of [handleAllocateRequest] after the checks: create the
    allocation and answer. *)
Definition allocateAndRespond (r : Request) (m : Message) (key : bytes) (requestedPort : Z)
    (reservationToken : string) (s : state) : state * option server_error :=
  let reply := buildAndSendErr (rConn r) (rSrcAddr r) in
  let errMsg code := buildMsg (msg_TransactionID m) MethodAllocate ClassErrorResponse
                       [SetErrorCode code] in
  let ft := request_ft r in
  let lifetimeDuration := allocationLifeTime m in
  let arg := {| argProtocol := UDP; argSrcAddr := Some (rSrcAddr r);
                argDstAddr := Some (localAddr (rConn r)) |} in
  let '(w, mg, res) := CreateAllocation (st_now s) (Some arg) (Some (rConn r))
                         requestedPort lifetimeDuration (st_env s) (st_mgr s) in
  let s1 := set_mgr mg (set_env w s) in
  match res with
  | Err e => reply (ErrManager e) (errMsg CodeInsufficientCapacity) s1
  | Ok a =>
      match AddrIPPort (rSrcAddr r) with
      | Err e => reply (ErrIpnet e) (errMsg CodeBadRequest) s1
      | Ok (srcIP, srcPort) =>
          match AddrIPPort (RelayAddr a) with
          | Err e => reply (ErrIpnet e) (errMsg CodeBadRequest) s1
          | Ok (relayIP, relayPort) =>
              let responseAttrs :=
                [SetRelayedAddress relayIP relayPort; SetLifetime lifetimeDuration;
                 SetXORMappedAddress srcIP srcPort] in
              let '(s2, responseAttrs) :=
                if String.eqb reservationToken "" then (s1, responseAttrs)
                else (set_mgr (CreateReservation (st_now s1) reservationToken relayPort
                                 (st_mgr s1)) s1,
                      responseAttrs ++ [SetReservationToken reservationToken]) in
              let msg := buildMsg (msg_TransactionID m) MethodAllocate ClassSuccessResponse
                           (responseAttrs ++ [SetMessageIntegrity key]) in
              let s3 := set_mgr (update_alloc (Fingerprint ft)
                                   (SetResponseCache (msg_TransactionID m) responseAttrs a)
                                   (st_mgr s2)) s2 in
              buildAndSend (rConn r) (rSrcAddr r) msg s3
          end
      end
  end.

(** [handleAllocateRequest]. *)
Definition handleAllocateRequest (r : Request) (m : Message) (s : state)
    : state * option server_error :=
  let '(s1, auth) := authenticateRequest r m MethodAllocate s in
  match auth with
  | inr err => (s1, err)
  | inl key =>
      let reply := buildAndSendErr (rConn r) (rSrcAddr r) in
      let errMsg code extra := buildMsg (msg_TransactionID m) MethodAllocate ClassErrorResponse
                                 (SetErrorCode code :: extra) in
      match GetAllocation (st_mgr s1) (request_ft r) with
      | Some alloc =>
          let '(id, attrs) := GetResponseCache alloc in
          if negb (bool_decide (id = msg_TransactionID m))
          then reply errRelayAlreadyAllocatedForFiveTuple (errMsg CodeAllocMismatch []) s1
          else buildAndSend (rConn r) (rSrcAddr r)
                 (buildMsg (msg_TransactionID m) MethodAllocate ClassSuccessResponse
                    (attrs ++ [SetMessageIntegrity key])) s1
      | None =>
          match RequestedTransport_GetFrom m with
          | Err e => reply (ErrStun e) (errMsg CodeBadRequest []) s1
          | Ok p =>
              if negb (p =? ProtoUDP) && negb (p =? ProtoTCP)
              then reply errUnsupportedTransportProtocol (errMsg CodeUnsupportedTransProto []) s1
              else if msg_Contains m AttrDontFragment
              then reply errNoDontFragmentSupport
                     (errMsg CodeUnknownAttribute [SetUnknownAttributes [AttrDontFragment]]) s1
              else if is_ok (ReservationToken_GetFrom m) &&
                      is_ok (EvenPort_GetFrom {| ReservePort := false |} m)
              then reply errRequestWithReservationTokenAndEvenPort (errMsg CodeBadRequest []) s1
              else if is_ok (EvenPort_GetFrom {| ReservePort := false |} m)
              then
                let '(w, res) := GetRandomEvenPort (st_env s1) in
                let s2 := set_env w s1 in
                match res with
                | Err e => reply (ErrManager e) (errMsg CodeInsufficientCapacity []) s2
                | Ok randomPort =>
                    let '(w', tok) := randSeq 8 (st_env s2) in
                    allocateAndRespond r m key randomPort tok (set_env w' s2)
                end
              else allocateAndRespond r m key 0 "" s1
          end
      end
  end.

(** [handleRefreshRequest]. *)
Definition handleRefreshRequest (r : Request) (m : Message) (s : state)
    : state * option server_error :=
  let '(s1, auth) := authenticateRequest r m MethodRefresh s in
  match auth with
  | inr err => (s1, err)
  | inl key =>
      let lifetimeDuration := allocationLifeTime m in
      let ft := request_ft r in
      let respond := buildAndSend (rConn r) (rSrcAddr r)
        (buildMsg (msg_TransactionID m) MethodRefresh ClassSuccessResponse
           [SetLifetime lifetimeDuration; SetMessageIntegrity key]) in
      if negb (lifetimeDuration =? 0) then
        match GetAllocation (st_mgr s1) ft with
        | None => (s1, Some errNoAllocationFound)
        | Some a =>
            respond (set_mgr (update_alloc (Fingerprint ft)
                                (Refresh (st_now s1) lifetimeDuration a) (st_mgr s1)) s1)
        end
      else
        let '(w, mg) := DeleteAllocation ft (st_env s1) (st_mgr s1) in
        respond (set_mgr mg (set_env w s1))
  end.

(** The callback [handleCreatePermissionRequest] passes to [ForEach], over
    the remaining attributes: the allocation afterwards, the number of
    permissions added, and the error that stopped the iteration. *)
Fixpoint addPermissions (r : Request) (mg : Manager) (t : Z) (vs : list Message)
    (a : Allocation) (addCount : nat) : Allocation * nat * option server_error :=
  match vs with
  | [] => (a, addCount, None)
  | v :: vs' =>
      match PeerAddress_GetFrom v with
      | Err e => (a, addCount, Some (ErrStun e))
      | Ok (ip, port) =>
          match GrantPermission mg (rSrcAddr r) ip with
          | Some e => (a, addCount, Some (ErrAllocation e))
          | None => addPermissions r mg t vs'
                      (AddPermission t (NewPermission (UDPAddr ip port "")) a)
                      (Datatypes.S addCount)
          end
      end
  end.

(** [handleCreatePermissionRequest]. *)
Definition handleCreatePermissionRequest (r : Request) (m : Message) (s : state)
    : state * option server_error :=
  let ft := request_ft r in
  match GetAllocation (st_mgr s) ft with
  | None => (s, Some errNoAllocationFound)
  | Some a =>
      let '(s1, auth) := authenticateRequest r m MethodCreatePermission s in
      match auth with
      | inr err => (s1, err)
      | inl key =>
          let '(a', count, err) := addPermissions r (st_mgr s1) (st_now s1)
                                     (msg_views m AttrXORPeerAddress) a 0 in
          let addCount := match err with Some _ => 0%nat | None => count end in
          let s2 := set_mgr (update_alloc (Fingerprint ft) a' (st_mgr s1)) s1 in
          let respClass := if decide (addCount = 0%nat) then ClassErrorResponse
                           else ClassSuccessResponse in
          buildAndSend (rConn r) (rSrcAddr r)
            (buildMsg (msg_TransactionID m) MethodCreatePermission respClass
               [SetMessageIntegrity key]) s2
      end
  end.

(** [handleSendIndication]. *)
Definition handleSendIndication (r : Request) (m : Message) (s : state)
    : state * option server_error :=
  match GetAllocation (st_mgr s) (request_ft r) with
  | None => (s, Some errNoAllocationFound)
  | Some a =>
      match Data_GetFrom m with
      | Err e => (s, Some (ErrStun e))
      | Ok dataAttr =>
          match PeerAddress_GetFrom m with
          | Err e => (s, Some (ErrStun e))
          | Ok (ip, port) =>
              let msgDst := UDPAddr ip port "" in
              match GetPermission a msgDst with
              | None => (s, Some errNoPermission)
              | Some _ =>
                  let '(w, (l, err)) := writeTo (st_env s) (RelaySocket a) dataAttr msgDst in
                  (set_env w s,
                   if negb (l =? blen dataAttr) then Some errShortWrite
                   else match err with Some e => Some (ErrIO e) | None => None end)
              end
          end
      end
  end.

(** [handleChannelBindRequest]. *)
Definition handleChannelBindRequest (r : Request) (m : Message) (s : state)
    : state * option server_error :=
  let ft := request_ft r in
  match GetAllocation (st_mgr s) ft with
  | None => (s, Some errNoAllocationFound)
  | Some a =>
      let reply := buildAndSendErr (rConn r) (rSrcAddr r) in
      let errMsg code := buildMsg (msg_TransactionID m) MethodChannelBind ClassErrorResponse
                           [SetErrorCode code] in
      let '(s1, auth) := authenticateRequest r m MethodChannelBind s in
      match auth with
      | inr err => (s1, err)
      | inl key =>
          match ChannelNumber_GetFrom m with
          | Err e => reply (ErrStun e) (errMsg CodeBadRequest) s1
          | Ok channel =>
              match PeerAddress_GetFrom m with
              | Err e => reply (ErrStun e) (errMsg CodeBadRequest) s1
              | Ok (ip, port) =>
                  match GrantPermission (st_mgr s1) (rSrcAddr r) ip with
                  | Some e => reply (ErrAllocation e) (errMsg CodeUnauthorized) s1
                  | None =>
                      match AddChannelBind (st_now s1)
                              (NewChannelBind channel (UDPAddr ip port ""))
                              (rChannelBindTimeout r) a with
                      | Err e => reply (ErrAllocation e) (errMsg CodeBadRequest) s1
                      | Ok a' =>
                          buildAndSend (rConn r) (rSrcAddr r)
                            (buildMsg (msg_TransactionID m) MethodChannelBind
                               ClassSuccessResponse [SetMessageIntegrity key])
                            (set_mgr (update_alloc (Fingerprint ft) a' (st_mgr s1)) s1)
                      end
                  end
              end
          end
      end
  end.

(** [handleChannelData]. *)
Definition handleChannelData (r : Request) (c : ChannelData.t) (s : state)
    : state * option server_error :=
  match GetAllocation (st_mgr s) (request_ft r) with
  | None => (s, Some errNoAllocationFound)
  | Some a =>
      match GetChannelByNumber a (ChannelData.Number c) ≫= (fun i => channelBindings a !! i) with
      | None => (s, Some errNoSuchChannelBind)
      | Some channel =>
          let '(w, (l, err)) := writeTo (st_env s) (RelaySocket a) (ChannelData.Data c)
                                  (Peer channel) in
          (set_env w s,
           match err with
           | Some e => Some (errFailedWriteSocket e)
           | None => if negb (l =? blen (ChannelData.Data c)) then Some errShortWrite else None
           end)
      end
  end.

(** * server.go *)

(** [handleDataPacket]. *)
Definition handleDataPacket (r : Request) (s : state) : state * option server_error :=
  match ChannelData.Decode (ChannelData.of_raw (rBuff r)) with
  | (_, Some e) => (s, Some (errFailedToCreateChannelData (ErrChannelData e)))
  | (c, None) =>
      let '(s', err) := handleChannelData r c s in
      (s', match err with Some e => Some (errUnableToHandleChannelData e) | None => None end)
  end.

(** [getMessageHandler]. *)
Definition getMessageHandler (class : MessageClass) (method : Method)
    : result server_error (Request -> Message -> state -> state * option server_error) :=
  match class with
  | ClassIndication =>
      match method with
      | MethodSend => Ok handleSendIndication
      | _ => Err errUnexpectedMethod
      end
  | ClassRequest =>
      match method with
      | MethodAllocate => Ok handleAllocateRequest
      | MethodRefresh => Ok handleRefreshRequest
      | MethodCreatePermission => Ok handleCreatePermissionRequest
      | MethodChannelBind => Ok handleChannelBindRequest
      | MethodBinding => Ok handleBindingRequest
      | _ => Err errUnexpectedMethod
      end
  | _ => Err errUnexpectedClass
  end.

(** [handleTURNPacket]. *)
Definition handleTURNPacket (r : Request) (s : state) : state * option server_error :=
  match msg_Decode (rBuff r) with
  | Err e => (s, Some (errFailedToCreateSTUNPacket (ErrStun e)))
  | Ok m =>
      match getMessageHandler (msg_Class m) (msg_Method m) with
      | Err e => (s, Some (errUnhandledSTUNPacket e))
      | Ok h =>
          let '(s', err) := h r m s in
          (s', match err with Some e => Some (errFailedToHandle e) | None => None end)
      end
  end.

(** [HandleRequest]. *)
Definition HandleRequest (r : Request) (s : state) : state * option server_error :=
  if ChannelData.IsChannelData (rBuff r) then handleDataPacket r s else handleTURNPacket r s.

(** * Runs of a server *)

(** What a handler asks of the environment besides the sockets of the
    manager: a datagram written, a random number drawn. *)
Inductive server_io (w w' : world) : Prop :=
| io_write c raw dst res : writeTo w c raw dst = (w', res) -> server_io w w'
| io_intn n x : randIntn w n = (w', x) -> server_io w w'
| io_int63 x : randInt63 w = (w', x) -> server_io w w'.

#[export] Instance server_other : OtherIO R := {| other_io := server_io |}.

(** A server's life: requests (at most one at a time), the timers of its
    manager, and the passing of time. *)
Inductive sstep (cbt : Z) : state -> state -> Prop :=
| ss_request r s s' err :
    rChannelBindTimeout r = cbt -> HandleRequest r s = (s', err) -> sstep cbt s s'
| ss_manager s c :
    mstep cbt maximumAllocationLifetime (core s) c ->
    sstep cbt s {| core := c; nonces := nonces s |}.

(** * What requests may change *)

(** A request that was answered without touching the allocations or their
    sockets: at most one new nonce was issued, stamped with the current time. *)
Record quiet (s s' : state) : Prop := {
  q_now : st_now s' = st_now s;
  q_mgr : st_mgr s' = st_mgr s;
  q_env : rtc server_io (st_env s) (st_env s');
  q_nonces : nonces s' = nonces s \/
    exists n, nonces s !! n = None /\ nonces s' = <[n := st_now s]> (nonces s);
}.

(** The request carries valid long-term credentials: an integrity attribute
    that checks under the key of its user and realm, and a nonce this server
    issued less than an hour ago. *)
Definition credentials (r : Request) (m : Message) (s : state) (key : bytes) : Prop :=
  msg_Contains m AttrMessageIntegrity = true /\
  exists nonce created realm user,
    nonce_GetFrom m = Ok nonce /\ nonces s !! nonce = Some created /\
    st_now s - created < nonceLifetime /\
    realm_GetFrom m = Ok realm /\ username_GetFrom m = Ok user /\
    rAuthHandler r user realm (rSrcAddr r) = Some key /\ integrity_Check key m = None.

Lemma quiet_refl s : quiet s s.
Proof. split; auto. done. Qed.

Lemma quiet_env w s : server_io (st_env s) w -> quiet s (set_env w s).
Proof. split; auto. by apply rtc_once. Qed.

Lemma quiet_env_r w s s' : quiet s s' -> server_io (st_env s') w -> quiet s (set_env w s').
Proof. intros []; split; auto. by eapply rtc_r. Qed.

Lemma quiet_write s c raw d w n err :
  writeTo (st_env s) c raw d = (w, (n, err)) -> quiet s (set_env w s).
Proof. intros. by eapply quiet_env, io_write. Qed.
#[local] Hint Resolve quiet_refl quiet_env quiet_env_r quiet_write io_write : turn.

(** The effect of a datagram that is sent. *)
Definition sends (s s' : state) : Prop :=
  s' = s \/ exists w, server_io (st_env s) w /\ s' = set_env w s.

Lemma buildAndSend_env c d attrs s s' e : buildAndSend c d attrs s = (s', e) -> sends s s'.
Proof.
  unfold buildAndSend, sends. destruct (Build attrs); [|intros; simplify_eq; eauto].
  destruct (writeTo _ _ _ _) as [w [n err]] eqn:E. intros; simplify_eq; eauto with turn.
Qed.

Lemma buildAndSendErr_env c d err attrs s s' e :
  buildAndSendErr c d err attrs s = (s', e) -> sends s s'.
Proof.
  unfold buildAndSendErr. destruct (buildAndSend c d attrs s) as [s1 e1] eqn:E.
  intros; simplify_eq. by eapply buildAndSend_env.
Qed.

Lemma respondWithNonce_quiet r m meth code s s' e :
  respondWithNonce r m meth code s = (s', e) -> quiet s s'.
Proof.
  unfold respondWithNonce, buildNonce. destruct (randInt63 (st_env s)) as [w x] eqn:Ew.
  apply io_int63 in Ew. set (n := md5hex _). simpl. destruct (nonces s !! n) eqn:En.
  - intros; simplify_eq. auto with turn.
  - intros [->|(w' & Hw & ->)]%buildAndSend_env; split; simpl; eauto using rtc_once.
    eapply rtc_l; [exact Ew|]. by apply rtc_once.
Qed.

Lemma reply_quiet c d err attrs s s' e :
  buildAndSendErr c d err attrs s = (s', e) -> quiet s s'.
Proof. intros [->|(w & ? & ->)]%buildAndSendErr_env; auto with turn. Qed.

Lemma authenticateRequest_cases r m meth s :
  match authenticateRequest r m meth s with
  | (s', inl key) => s' = s /\ credentials r m s key
  | (s', inr _) => quiet s s' /\ forall key, ~ credentials r m s key
  end.
Proof.
  unfold authenticateRequest, credentials.
  destruct (msg_Contains m _) eqn:Ei; simpl;
    [|destruct (respondWithNonce _ _ _ _ _) eqn:E; split;
      [by eapply respondWithNonce_quiet|naive_solver]].
  destruct (nonce_GetFrom m) as [n|] eqn:En;
    [|destruct (buildAndSendErr _ _ _ _ _) eqn:E; split; [by eapply reply_quiet|naive_solver]].
  destruct (nonces s !! n) as [c|] eqn:Ec;
    [|destruct (respondWithNonce _ _ _ _ _) eqn:E; split;
      [by eapply respondWithNonce_quiet|naive_solver]].
  destruct (nonceLifetime <=? _) eqn:El; boolp.
  { destruct (respondWithNonce _ _ _ _ _) eqn:E; split; [by eapply respondWithNonce_quiet|].
    intros key (_ & ? & ? & ? & ? & ? & ? & ? & _). simplify_eq. lia. }
  destruct (realm_GetFrom m) as [rl|] eqn:Er;
    [|destruct (buildAndSendErr _ _ _ _ _) eqn:E; split; [by eapply reply_quiet|naive_solver]].
  destruct (username_GetFrom m) as [u|] eqn:Eu;
    [|destruct (buildAndSendErr _ _ _ _ _) eqn:E; split; [by eapply reply_quiet|naive_solver]].
  destruct (rAuthHandler r u rl _) as [k|] eqn:Ek;
    [|destruct (buildAndSendErr _ _ _ _ _) eqn:E; split; [by eapply reply_quiet|naive_solver]].
  destruct (integrity_Check k m) eqn:Ech;
    [destruct (buildAndSendErr _ _ _ _ _) eqn:E; split; [by eapply reply_quiet|naive_solver]|].
  split; [done|]. split; [done|]. by exists n, c, rl, u.
Qed.

(** Outcome of a request: quiet, or an authenticated change that issues no
    nonce. *)
Inductive outcome (r : Request) (m : Message) (s s' : state) : Prop :=
| out_quiet : quiet s s' -> outcome r m s s'
| out_auth key :
    credentials r m s key -> nonces s' = nonces s -> st_now s' = st_now s -> outcome r m s s'.
#[local] Hint Constructors outcome : turn.

(** Case analysis on the authentication a handler starts with. *)
Ltac auth_case :=
  match goal with
  | |- context [authenticateRequest ?r ?m ?meth ?s] =>
      let H := fresh "Hauth" in
      pose proof (authenticateRequest_cases r m meth s) as H;
      destruct (authenticateRequest r m meth s) as [? [?key|?]];
      [destruct H as [-> ?Hcred]|destruct H as [?Hq _]]
  end.

(** Sending leaves only the sockets changed. *)
Ltac sent :=
  match goal with
  | H : buildAndSend _ _ _ _ = _ |- _ => apply buildAndSend_env in H as [->|(? & ? & ->)]
  | H : buildAndSendErr _ _ _ _ _ = _ |- _ => apply buildAndSendErr_env in H as [->|(? & ? & ->)]
  end.

Lemma allocateAndRespond_frame r m key p tok s s' e :
  allocateAndRespond r m key p tok s = (s', e) ->
  nonces s' = nonces s /\ st_now s' = st_now s.
Proof.
  unfold allocateAndRespond. destruct (CreateAllocation _ _ _ _ _ _ _) as [[w mg] [a|?]];
    [|intros; by sent].
  destruct (AddrIPPort (rSrcAddr r)) as [[? ?]|?]; [|intros; by sent].
  destruct (AddrIPPort (RelayAddr a)) as [[? ?]|?]; [|intros; by sent].
  destruct (String.eqb tok ""); intros; by sent.
Qed.

Lemma handleAllocateRequest_outcome r m s s' e :
  handleAllocateRequest r m s = (s', e) -> outcome r m s s'.
Proof.
  unfold handleAllocateRequest. auth_case; [|intros; simplify_eq; auto with turn].
  intros E. eapply out_auth; [done| |]; revert E;
  (destruct (GetAllocation _ _) as [a|];
   [destruct (GetResponseCache a); case_goal; intros; by sent|]);
  (destruct (RequestedTransport_GetFrom m); [|intros; by sent]);
  do 3 (case_goal; [intros; by sent|]);
  (case_goal; [|by intros [? ?]%allocateAndRespond_frame]);
  destruct (GetRandomEvenPort _) as [w [po|?]]; try (intros; by sent);
  destruct (randSeq 8 _); by intros [? ?]%allocateAndRespond_frame.
Qed.

Lemma handleRefreshRequest_outcome r m s s' e :
  handleRefreshRequest r m s = (s', e) -> outcome r m s s'.
Proof.
  unfold handleRefreshRequest. auth_case; [|intros; simplify_eq; auto with turn].
  intros E. eapply out_auth; [done| |]; revert E;
  (case_goal; [destruct (GetAllocation _ _); [intros; by sent|intros; by simplify_eq]|]);
  destruct (DeleteAllocation _ _ _); intros; by sent.
Qed.

Lemma handleCreatePermissionRequest_outcome r m s s' e :
  handleCreatePermissionRequest r m s = (s', e) -> outcome r m s s'.
Proof.
  unfold handleCreatePermissionRequest.
  destruct (GetAllocation _ _) as [a|]; [|intros; simplify_eq; auto with turn].
  auth_case; [|intros; simplify_eq; auto with turn].
  intros E. eapply out_auth; [done| |]; revert E;
  destruct (addPermissions _ _ _ _ _ _) as [[? ?] ?]; intros; by sent.
Qed.

Lemma handleChannelBindRequest_outcome r m s s' e :
  handleChannelBindRequest r m s = (s', e) -> outcome r m s s'.
Proof.
  unfold handleChannelBindRequest.
  destruct (GetAllocation _ _) as [a|]; [|intros; simplify_eq; auto with turn].
  auth_case; [|intros; simplify_eq; auto with turn].
  intros E. eapply out_auth; [done| |]; revert E;
  (destruct (ChannelNumber_GetFrom m); [|intros; by sent]);
  (destruct (PeerAddress_GetFrom m) as [[ip port]|]; [|intros; by sent]);
  (destruct (GrantPermission _ _ _); [intros; by sent|]);
  destruct (AddChannelBind _ _ _ _); intros; by sent.
Qed.

Lemma handleSendIndication_quiet r m s s' e :
  handleSendIndication r m s = (s', e) -> quiet s s'.
Proof.
  unfold handleSendIndication. intros E.
  repeat (case_hyp E; simplify_eq; eauto with turn).
Qed.

Lemma handleBindingRequest_quiet r m s s' e :
  handleBindingRequest r m s = (s', e) -> quiet s s'.
Proof.
  unfold handleBindingRequest. destruct (AddrIPPort _) as [[? ?]|]; intros; simplify_eq;
    [sent|]; auto with turn.
Qed.

Lemma handleChannelData_quiet r c s s' e :
  handleChannelData r c s = (s', e) -> quiet s s'.
Proof.
  unfold handleChannelData. intros E.
  repeat (case_hyp E; simplify_eq; eauto with turn).
Qed.

Lemma handler_outcome cl meth h r m s s' e :
  getMessageHandler cl meth = Ok h -> h r m s = (s', e) -> outcome r m s s'.
Proof.
  unfold getMessageHandler. destruct cl, meth; intros; simplify_eq;
    eauto using handleAllocateRequest_outcome, handleRefreshRequest_outcome,
      handleCreatePermissionRequest_outcome, handleChannelBindRequest_outcome,
      out_quiet, handleSendIndication_quiet, handleBindingRequest_quiet.
Qed.

Lemma HandleRequest_outcome r s s' e :
  HandleRequest r s = (s', e) ->
  quiet s s' \/ exists m h, ChannelData.IsChannelData (rBuff r) = false /\
    msg_Decode (rBuff r) = Ok m /\ getMessageHandler (msg_Class m) (msg_Method m) = Ok h /\
    outcome r m s s'.
Proof.
  unfold HandleRequest, handleDataPacket, handleTURNPacket.
  destruct (ChannelData.IsChannelData _).
  - destruct (ChannelData.Decode _) as [c [?|]]; [intros; simplify_eq; auto with turn|].
    destruct (handleChannelData r c s) as [s1 ?] eqn:E. intros; simplify_eq.
    left. by eapply handleChannelData_quiet.
  - destruct (msg_Decode _) as [m|]; [|intros; simplify_eq; auto with turn].
    destruct (getMessageHandler _ _) as [h|] eqn:Eh; [|intros; simplify_eq; auto with turn].
    destruct (h r m s) as [s1 ?] eqn:E. intros; simplify_eq. right.
    exists m, h. split_and!; [done..|]. by eapply handler_outcome.
Qed.

(** * Requests are steps of the allocation manager *)

(** [Message.Get] returns bytes. *)
Context (get_bytes : forall m t v, msg_Get m t = Ok v -> bytes_ok v).

Lemma allocationLifeTime_range m : 0 <= allocationLifeTime m < maximumAllocationLifetime.
Proof using get_bytes.
  unfold allocationLifeTime. assert (0 <= DefaultLifetime < maximumAllocationLifetime) by done.
  destruct (Lifetime_GetFrom m) as [d|] eqn:E; [|done].
  destruct (d <? _) eqn:El; boolp; [|done]. split; [|done].
  unfold Lifetime_GetFrom, getSized in E. destruct (msg_Get m AttrLifetime) as [v|] eqn:Eg; [|done].
  apply get_bytes in Eg. destruct (CheckSize _ _ _); [done|]. injection E as <-.
  unfold i64, getUint32, second. pose proof (byte_at_ok v 0 Eg). pose proof (byte_at_ok v 1 Eg).
  pose proof (byte_at_ok v 2 Eg). pose proof (byte_at_ok v 3 Eg).
  rewrite Z.mod_small by lia. lia.
Qed.

Abbreviation steps r :=
  (rtc (rstep (rChannelBindTimeout r) maximumAllocationLifetime (Fingerprint (request_ft r)))).

Lemma io_steps r s s' :
  st_now s' = st_now s -> st_mgr s' = st_mgr s -> rtc server_io (st_env s) (st_env s') ->
  steps r (core s) (core s').
Proof.
  destruct s as [[t w m] ns], s' as [[t' w' m'] ns']. unfold st_now, st_mgr, st_env. simpl.
  intros -> ->. induction 1 as [|w1 w2 w3 H _ IH]; [done|].
  eapply rtc_l; [by eapply rs_other|exact IH].
Qed.

Lemma quiet_steps r s s' : quiet s s' -> steps r (core s) (core s').
Proof.
  intros []. by apply io_steps.
Qed.

(** A change of the manager followed by a send. *)
Lemma steps_send r s s1 s' :
  steps r (core s) (core s1) -> sends s1 s' -> steps r (core s) (core s').
Proof.
  intros H [->|(w & ? & ->)]; [done|]. etrans; [done|]. by apply quiet_steps, quiet_env.
Qed.

Lemma randSeq_io n w w' tok : randSeq n w = (w', tok) -> rtc server_io w w'.
Proof.
  revert w w' tok. induction n as [|n IH]; simpl; intros w w' tok E; [by simplify_eq|].
  destruct (randIntn w 52) as [w1 i] eqn:Ei. destruct (randSeq n w1) as [w2 rest] eqn:Er.
  simplify_eq. eapply rtc_l; [by eapply io_intn|by eapply IH].
Qed.

Lemma update_alloc_id k a m : allocations m !! k = Some a -> update_alloc k a m = m.
Proof.
  intros H. unfold update_alloc, set_allocations. rewrite insert_id by done. by destruct m.
Qed.

Lemma update_alloc_twice k a a' m : update_alloc k a' (update_alloc k a m) = update_alloc k a' m.
Proof. unfold update_alloc, set_allocations. simpl. by rewrite insert_insert_eq. Qed.

Lemma addPermissions_steps r mg0 vs t w m a n a' n' e :
  let k := Fingerprint (request_ft r) in
  allocations m !! k = Some a -> addPermissions r mg0 t vs a n = (a', n', e) ->
  steps r {| now := t; env := w; mgr := m |} {| now := t; env := w; mgr := update_alloc k a' m |}.
Proof.
  intros k. revert m a n. induction vs as [|v vs IH]; intros m a n Hk E; simpl in E.
  - simplify_eq. by rewrite update_alloc_id.
  - destruct (PeerAddress_GetFrom v) as [[ip port]|]; [|simplify_eq; by rewrite update_alloc_id].
    destruct (GrantPermission mg0 _ ip); [simplify_eq; by rewrite update_alloc_id|].
    eapply rtc_l; [by apply (rs_permission _ _ _ t w m a (UDPAddr ip port ""))|].
    rewrite <- (update_alloc_twice k (AddPermission t (NewPermission (UDPAddr ip port "")) a) a').
    eapply IH; [|exact E]. simpl. apply lookup_insert_eq.
Qed.

Lemma CreateAllocation_lookup t r l p w m w' m' a :
  CreateAllocation t (Some {| argProtocol := UDP; argSrcAddr := Some (rSrcAddr r);
                              argDstAddr := Some (localAddr (rConn r)) |})
    (Some (rConn r)) p l w m = (w', m', Ok a) ->
  l <> 0 /\ allocations m' !! Fingerprint (request_ft r) = Some a.
Proof.
  unfold CreateAllocation. simpl. destruct (l =? 0) eqn:El; boolp; [done|].
  destruct (GetAllocation m _); [done|].
  destruct (allocatePacketConn w "udp4" p) as [w1 [[c addr]|?]]; intros; simplify_eq.
  split; [done|]. simpl. apply lookup_insert_eq.
Qed.

Lemma CreateAllocation_zero t fa sock p w m : exists e,
  CreateAllocation t fa sock p 0 w m = (w, m, Err e).
Proof.
  unfold CreateAllocation. destruct fa as [fa|]; [|eauto].
  destruct (argSrcAddr fa); [|eauto]. destruct (argDstAddr fa); [|eauto].
  destruct sock; simpl; eauto.
Qed.

Lemma create_steps r t sock p m0 w m w' m' res :
  let fa := Some {| argProtocol := UDP; argSrcAddr := Some (rSrcAddr r);
                    argDstAddr := Some (localAddr (rConn r)) |} in
  CreateAllocation t fa sock p (allocationLifeTime m0) w m = (w', m', res) ->
  steps r {| now := t; env := w; mgr := m |} {| now := t; env := w'; mgr := m' |}.
Proof using get_bytes.
  intros fa E. pose proof (allocationLifeTime_range m0) as Hl.
  destruct (decide (allocationLifeTime m0 = 0)) as [E0|E0].
  - rewrite E0 in E. destruct (CreateAllocation_zero t fa sock p w m) as [e He].
    rewrite He in E. by simplify_eq.
  - eapply rtc_once, rs_create; [| |exact E]; [lia|]. unfold fa. naive_solver.
Qed.

Lemma allocateAndRespond_steps r m key p tok s s' e :
  allocateAndRespond r m key p tok s = (s', e) -> steps r (core s) (core s').
Proof using get_bytes.
  unfold allocateAndRespond. destruct (CreateAllocation _ _ _ _ _ _ _) as [[w mg] res] eqn:Ec.
  assert (steps r (core s) (core (set_mgr mg (set_env w s)))) as H1.
  { apply (create_steps r) in Ec. by destruct s as [[] ?]. }
  destruct res as [a|?]; [|intros E; eapply steps_send; [done|by eapply buildAndSendErr_env]].
  apply CreateAllocation_lookup in Ec as [_ Hk].
  destruct (AddrIPPort (rSrcAddr r)) as [[? ?]|?];
    [|intros E; eapply steps_send; [done|by eapply buildAndSendErr_env]].
  destruct (AddrIPPort (RelayAddr a)) as [[? ?]|?];
    [|intros E; eapply steps_send; [done|by eapply buildAndSendErr_env]].
  destruct (String.eqb tok ""); intros E; (eapply steps_send; [|by eapply buildAndSend_env]);
    (etrans; [done|]).
  - by apply rtc_once, rs_cache.
  - eapply rtc_l; [apply rs_reserve|]. by apply rtc_once, rs_cache.
Qed.

Lemma handleAllocateRequest_steps r m s s' e :
  handleAllocateRequest r m s = (s', e) -> steps r (core s) (core s').
Proof using get_bytes.
  unfold handleAllocateRequest. auth_case; [|intros; simplify_eq; by apply quiet_steps].
  destruct (GetAllocation _ _) as [a|].
  { destruct (GetResponseCache a). case_goal; intros; sent; auto using quiet_steps with turn. }
  destruct (RequestedTransport_GetFrom m);
    [|intros; sent; auto using quiet_steps with turn].
  do 3 (case_goal; [intros; sent; auto using quiet_steps with turn|]).
  case_goal; [|apply allocateAndRespond_steps].
  destruct (GetRandomEvenPort _) as [w res] eqn:Ep.
  assert (steps r (core s) (core (set_env w s))) as Hp.
  { destruct s as [[] ?]. by eapply rtc_once, rs_probe. }
  destruct res as [po|?]; [|intros E; eapply steps_send; [done|by eapply buildAndSendErr_env]].
  destruct (randSeq 8 _) as [w' tok] eqn:Er. intros E%allocateAndRespond_steps.
  apply randSeq_io in Er. etrans; [done|]. etrans; [|exact E]. by apply io_steps.
Qed.

Lemma handleRefreshRequest_steps r m s s' e :
  handleRefreshRequest r m s = (s', e) -> steps r (core s) (core s').
Proof using get_bytes.
  unfold handleRefreshRequest. auth_case; [|intros; simplify_eq; by apply quiet_steps].
  pose proof (allocationLifeTime_range m) as Hl.
  destruct (negb _) eqn:E0; boolp.
  - destruct (GetAllocation _ _) as [a|] eqn:Ea; [|intros; by simplify_eq].
    intros E. eapply steps_send; [|by eapply buildAndSend_env].
    apply rtc_once. destruct s as [[t w mg] ns]. apply rs_refresh; [done|]. lia.
  - destruct (DeleteAllocation _ _ _) as [w mg] eqn:Ed.
    intros E. eapply steps_send; [|by eapply buildAndSend_env].
    apply rtc_once. destruct s as [[t w0 mg0] ns]. by eapply rs_delete.
Qed.

Lemma handleCreatePermissionRequest_steps r m s s' e :
  handleCreatePermissionRequest r m s = (s', e) -> steps r (core s) (core s').
Proof.
  unfold handleCreatePermissionRequest.
  destruct (GetAllocation _ _) as [a|] eqn:Ea; [|intros; by simplify_eq].
  auth_case; [|intros; simplify_eq; by apply quiet_steps].
  destruct (addPermissions _ _ _ _ _ _) as [[a' n] err] eqn:Ep.
  intros E. eapply steps_send; [|by eapply buildAndSend_env].
  destruct s as [[t w mg] ns]. by eapply addPermissions_steps.
Qed.

Lemma handleChannelBindRequest_steps r m s s' e :
  handleChannelBindRequest r m s = (s', e) -> steps r (core s) (core s').
Proof.
  unfold handleChannelBindRequest.
  destruct (GetAllocation _ _) as [a|] eqn:Ea; [|intros; by simplify_eq].
  auth_case; [|intros; simplify_eq; by apply quiet_steps].
  destruct (ChannelNumber_GetFrom m); [|intros; sent; auto using quiet_steps with turn].
  destruct (PeerAddress_GetFrom m) as [[ip port]|];
    [|intros; sent; auto using quiet_steps with turn].
  destruct (GrantPermission _ _ _); [intros; sent; auto using quiet_steps with turn|].
  destruct (AddChannelBind _ _ _ _) eqn:Eb; [|intros; sent; auto using quiet_steps with turn].
  intros E. eapply steps_send; [|by eapply buildAndSend_env].
  apply rtc_once. destruct s as [[t w mg] ns]. by eapply rs_bind.
Qed.

Lemma handler_steps cl meth h r m s s' e :
  getMessageHandler cl meth = Ok h -> h r m s = (s', e) -> steps r (core s) (core s').
Proof using get_bytes.
  unfold getMessageHandler. destruct cl, meth; intros; simplify_eq;
    eauto using handleAllocateRequest_steps, handleRefreshRequest_steps,
      handleCreatePermissionRequest_steps, handleChannelBindRequest_steps,
      quiet_steps, handleSendIndication_quiet, handleBindingRequest_quiet.
Qed.

Lemma HandleRequest_steps r s s' e :
  HandleRequest r s = (s', e) -> steps r (core s) (core s').
Proof using get_bytes.
  unfold HandleRequest, handleDataPacket, handleTURNPacket.
  destruct (ChannelData.IsChannelData _).
  - destruct (ChannelData.Decode _) as [c [?|]]; [intros; by simplify_eq|].
    destruct (handleChannelData r c s) as [s1 ?] eqn:E. intros; simplify_eq.
    eapply quiet_steps, handleChannelData_quiet, E.
  - destruct (msg_Decode _) as [m|]; [|intros; by simplify_eq].
    destruct (getMessageHandler _ _) as [h|] eqn:Eh; [|intros; by simplify_eq].
    destruct (h r m s) as [s1 ?] eqn:E. intros; simplify_eq. by eapply handler_steps.
Qed.

Lemma sstep_steps cbt s s' :
  sstep cbt s s' -> rtc (mstep cbt maximumAllocationLifetime) (core s) (core s').
Proof using get_bytes.
  intros [r s1 s2 err <- E|s1 c H]; [|by apply rtc_once].
  apply HandleRequest_steps in E. eapply rtc_subrel; [|exact E]. intros. by eapply ms_request.
Qed.

(** A client's steps leave every other client's allocation as it is. *)
Lemma rstep_frame cbt lmax k c c' k' :
  rstep cbt lmax k c c' -> k' <> k ->
  allocations (mgr c') !! k' = allocations (mgr c) !! k'.
Proof.
  intros H Hne. destruct H as [t w m fa sock p l w' m' r Hl Hk E|t w m ft w' m' Hk E| | | | | | |];
    simpl; rewrite ?lookup_insert_ne by done; try done.
  - unfold CreateAllocation in E. repeat (case_hyp E; simplify_eq/=; try done).
    apply lookup_insert_ne. intros <-. by destruct Hne; eapply Hk.
  - unfold DeleteAllocation in E. repeat (case_hyp E; simplify_eq/=);
      by apply lookup_delete_ne.
Qed.

Lemma rsteps_frame cbt lmax k c c' :
  rtc (rstep cbt lmax k) c c' ->
  now c' = now c /\
  forall k', k' <> k -> allocations (mgr c') !! k' = allocations (mgr c) !! k'.
Proof.
  induction 1 as [|x y z Hxy _ [IH1 IH2]]; [done|]. split.
  - rewrite IH1. by destruct Hxy.
  - intros k' Hne. rewrite IH2 by done. by eapply rstep_frame.
Qed.

Lemma run_steps cbt s s' :
  rtc (sstep cbt) s s' -> rtc (mstep cbt maximumAllocationLifetime) (core s) (core s').
Proof using get_bytes.
  induction 1; [done|]. etrans; [by apply sstep_steps|done].
Qed.

(** A run keeps every nonce it starts with. *)
Lemma sstep_nonces cbt s s' : sstep cbt s s' -> nonces s ⊆ nonces s'.
Proof.
  intros [r s1 s2 err _ E|s1 c H]; [|done].
  assert (quiet s1 s2 -> nonces s1 ⊆ nonces s2) as Hq.
  { intros [_ _ _ [->|(n & Hn & ->)]]; [done|]. by apply insert_subseteq. }
  apply HandleRequest_outcome in E as [?|(m & h & _ & _ & _ & [?|key _ -> _])]; auto.
Qed.

Lemma credentials_fun r m s k k' : credentials r m s k -> credentials r m s k' -> k = k'.
Proof.
  intros (_ & ? & ? & ? & ? & ? & ? & ? & ? & ? & ? & ?)
    (_ & ? & ? & ? & ? & ? & ? & ? & ? & ? & ? & ?). congruence.
Qed.

Lemma authenticateRequest_ok r m meth s key :
  credentials r m s key -> authenticateRequest r m meth s = (s, inl key).
Proof.
  intros Hc. pose proof (authenticateRequest_cases r m meth s) as H.
  destruct (authenticateRequest r m meth s) as [s1 [k|e]].
  - destruct H as [-> Hk]. by rewrite (credentials_fun _ _ _ _ _ Hk Hc).
  - destruct H as [_ H]. by destruct (H key).
Qed.

(** What an accepted Allocate request leaves. *)
Lemma allocateAndRespond_ok r m key p tok s s' :
  allocateAndRespond r m key p tok s = (s', None) ->
  exists a attrs, GetAllocation (st_mgr s') (request_ft r) = Some a /\
    responseCache a = Some (msg_TransactionID m, attrs) /\
    lifetimeTimer a = Some (st_now s + allocationLifeTime m) /\
    (forall ip port, AddrIPPort (RelayAddr a) = Ok (ip, port) ->
       SetRelayedAddress ip port ∈ attrs) /\
    SetLifetime (allocationLifeTime m) ∈ attrs.
Proof.
  assert (forall c d err attrs (s0 : state), buildAndSendErr c d err attrs s0 <> (s', None)) as Hne.
  { intros c d err attrs s0. unfold buildAndSendErr. by destruct (buildAndSend _ _ _ _). }
  unfold allocateAndRespond. destruct (CreateAllocation _ _ _ _ _ _ _) as [[w mg] res] eqn:Ec.
  destruct res as [a|?]; [|by intros ?%Hne].
  pose proof (CreateAllocation_lookup _ _ _ _ _ _ _ _ _ Ec) as [Hl Hk].
  assert (lifetimeTimer a = Some (st_now s + allocationLifeTime m)) as Ht.
  { unfold CreateAllocation in Ec. simpl in Ec. case_hyp Ec; [done|].
    case_hyp Ec; [done|]. case_hyp Ec. case_hyp Ec; [|done]. case_hyp Ec. by simplify_eq. }
  destruct (AddrIPPort (rSrcAddr r)) as [[sip sport]|?]; [|by intros ?%Hne].
  destruct (AddrIPPort (RelayAddr a)) as [[ip port]|?] eqn:Er; [|by intros ?%Hne].
  destruct (String.eqb tok "");
    intros E; apply buildAndSend_env in E;
    match type of E with
    | context [SetResponseCache ?i ?at_ ?al] =>
        exists (SetResponseCache i at_ al), at_
    end;
    (destruct E as [->|(w' & _ & ->)]; simpl; unfold GetAllocation; simpl; rewrite lookup_insert_eq);
    (split_and!; [done|done|done| |apply list_elem_of_In; simpl; tauto]);
    simpl; rewrite Er; intros; simplify_eq; apply list_elem_of_In; simpl; tauto.
Qed.

(** The datagram a client sends for a channel is the one the server decodes. *)
Lemma server_decodes extra n data :
  ChannelNumber.isChannelNumberValid n = true -> blen data < 65536 ->
  let wire := ChannelData.content (ChannelData.Raw (ChannelData.Encode extra
    {| ChannelData.Data := data; ChannelData.Length := 0; ChannelData.Number := n;
       ChannelData.Raw := {| ChannelData.content := []; ChannelData.spare := [] |} |})) in
  exists c, ChannelData.Decode (ChannelData.of_raw wire) = (c, None) /\
    ChannelData.Number c = n /\ ChannelData.Data c = data /\
    ChannelData.IsChannelData wire = true.
Proof.
  intros Hv Hd wire. subst wire. rewrite Encode_content. simpl ChannelData.Data.
  simpl ChannelData.Number. set (pad := replicate _ 0).
  pose proof (blen_nonneg data). pose proof (blen_nonneg pad).
  assert (0 <= n < 65536) as Hn.
  { unfold ChannelNumber.isChannelNumberValid, ChannelNumber.MinChannelNumber,
      ChannelNumber.MaxChannelNumber in Hv. boolp. lia. }
  eexists. split_and!.
  - apply Decode_header; [lia..|done|]. rewrite blen_app. lia.
  - done.
  - simpl. unfold blen. rewrite Nat2Z.id. by rewrite take_app_length.
  - unfold ChannelData.IsChannelData.
    change ChannelData.channelDataHeaderSize with 4. change ChannelData.channelDataNumberSize with 2.
    set (rest := data ++ pad).
    assert (blen rest = blen data + blen pad) as Hr by apply blen_app.
    change (drop (Z.to_nat 4) _) with rest. change (slice _ 2 4) with (putUint16 (blen data)).
    rewrite getUint16_put1, !blen_app, !blen_putUint16 by lia.
    destruct (_ <? 4) eqn:E1; boolp; [lia|]. destruct (blen rest <? _) eqn:E2; boolp; [lia|].
    change ChannelNumber.channelNumberSize with 4.
    rewrite slice_two_four by (rewrite !blen_app, !blen_putUint16; lia).
    change (slice _ 0 2) with (putUint16 n). by rewrite getUint16_put1.
Qed.

(** A view of a CreatePermission request whose peer the policy admits. *)
Definition admitted (r : Request) (mg : Manager) (v : Message) (ip : list Z) (port : Z) : Prop :=
  PeerAddress_GetFrom v = Ok (ip, port) /\ GrantPermission mg (rSrcAddr r) ip = None.

(** A permission renewed at the current time stays renewed. *)
Lemma addPermissions_keeps r mg t vs a n a' n' e key :
  addPermissions r mg t vs a n = (a', n', e) ->
  pTimer <$> permissions a !! key = Some (Some (t + permissionTimeout)) ->
  pTimer <$> permissions a' !! key = Some (Some (t + permissionTimeout)).
Proof.
  revert a n. induction vs as [|v vs IH]; intros a n E Hk; simpl in E; [by simplify_eq|].
  destruct (PeerAddress_GetFrom v) as [[ip port]|]; [|by simplify_eq].
  destruct (GrantPermission mg _ ip); [by simplify_eq|].
  eapply IH; [done|]. rewrite AddPermission_lookup. by case_decide.
Qed.

Lemma addPermissions_admitted r mg t vs a n :
  Forall (fun v => exists ip port, admitted r mg v ip port) vs ->
  exists a', addPermissions r mg t vs a n = (a', (n + length vs)%nat, None) /\
    channelBindings a' = channelBindings a /\ lifetimeTimer a' = lifetimeTimer a /\
    (forall v ip port, v ∈ vs -> admitted r mg v ip port ->
       pTimer <$> GetPermission a' (UDPAddr ip port "") = Some (Some (t + permissionTimeout))) /\
    (forall key, (forall v ip port, v ∈ vs -> admitted r mg v ip port ->
                    FingerprintAddr (UDPAddr ip port "") <> key) ->
       permissions a' !! key = permissions a !! key).
Proof.
  intros Hvs. revert a n. induction Hvs as [|v vs (ip & port & Hp & Hg) Hvs IH]; intros a n.
  { exists a. simpl. rewrite Nat.add_0_r. split_and!; auto. intros v ? ? Hin. by apply elem_of_nil in Hin. }
  simpl. rewrite Hp, Hg. set (pm := NewPermission (UDPAddr ip port "")).
  destruct (AddPermission_frame t pm a) as (_ & _ & _ & _ & Ec & El & _).
  destruct (IH (AddPermission t pm a) (Datatypes.S n)) as (a' & E & Hc & Hl & Hin & Hout).
  exists a'. rewrite E, Hc, Hl, Ec, El, Nat.add_succ_r. split_and!; [done..| |].
  - intros v' ip' port' [->|Hv']%elem_of_cons Hadm; [|by eapply Hin].
    destruct Hadm as [Hp' _]. rewrite Hp in Hp'. simplify_eq. eapply addPermissions_keeps; [done|].
    rewrite AddPermission_lookup, decide_True by done. done.
  - intros key Hk. rewrite Hout.
    + rewrite AddPermission_lookup, decide_False; [done|]. simpl.
      apply (Hk v ip port); [by left|done].
    + intros x i q Hx. apply Hk. by right.
Qed.

End Server.

(** * A concrete server *)

(** Messages as records, decoded from a table; sockets that record what was
    written to them. *)
Module TestServer.

Record tmsg := {
  tClass : MessageClass; tMethod : Method; tID : bytes;
  tAttrs : list (AttrType * bytes);
  tNonce : string; tKey : bytes; tPeers : list (list Z * Z) }.

Definition tget (m : tmsg) (t : AttrType) : result unit bytes :=
  match ListMessage.get (tAttrs m) t with Ok v => Ok (u8 <$> v) | Err _ => Err tt end.

#[export] Instance msgs : StunMessage := {|
  Message := tmsg; StunError := unit;
  msg_Get := tget;
  msg_Add m t v := {| tClass := tClass m; tMethod := tMethod m; tID := tID m;
                      tAttrs := tAttrs m ++ [(t, v)]; tNonce := tNonce m; tKey := tKey m;
                      tPeers := tPeers m |};
  CheckSize _ got expected := if got =? expected then None else Some tt |}.

Definition id (n : Z) : bytes := replicate 11 0 ++ [n].
Definition secret : bytes := [1;2;3].
Definition peerA : list Z * Z := ([203;0;113;9], 7000).
Definition peerB : list Z * Z := ([203;0;113;66], 7000).

Definition mk (meth : Method) (n : Z) attrs nonce key peers : @Message msgs :=
  {| tClass := ClassRequest; tMethod := meth; tID := id n; tAttrs := attrs; tNonce := nonce;
     tKey := key; tPeers := peers |}.

(** Allocate (unsigned), Allocate, Refresh with lifetime zero,
    CreatePermission for two peers, ChannelBind of the number 0x1234, and a
    Send indication. *)
Definition m_plain : @Message msgs := mk MethodAllocate 1 [] "" [] [].
Definition m_allocate : @Message msgs := mk MethodAllocate 1 [(AttrRequestedTransport, [17;0;0;0])] "n" secret [].
Definition m_delete : @Message msgs := mk MethodRefresh 2 [(AttrLifetime, [0;0;0;0])] "n" secret [].
Definition m_permit : @Message msgs := mk MethodCreatePermission 3 [] "n" secret [peerA; peerB].
Definition m_bind : @Message msgs := mk MethodChannelBind 4 [(AttrChannelNumber, [0x12;0x34;0;0])] "n" secret [peerA].
Definition m_send : @Message msgs :=
  {| tClass := ClassIndication; tMethod := MethodSend; tID := id 5;
     tAttrs := [(AttrData, [9;9])]; tNonce := ""; tKey := []; tPeers := [peerA] |}.

Definition peer_of (m : tmsg) : result unit (list Z * Z) :=
  match tPeers m with p :: _ => Ok p | [] => Err tt end.

Definition decode (raw : bytes) : result (@StunError msgs) (@Message msgs) :=
  match [m_plain; m_allocate; m_delete; m_permit; m_bind; m_send] !! Z.to_nat (byte_at raw 0) with
  | Some m => Ok m | None => Err tt
  end.

Definition nonce_of (m : @Message msgs) : result (@StunError msgs) string :=
  if String.eqb (tNonce m) "" then Err tt else Ok (tNonce m).

Definition check (key : bytes) (m : @Message msgs) : option (@StunError msgs) :=
  if decide (key = tKey m) then None else Some tt.

#[export] Instance stun : StunServer msgs := {|
  msg_Decode := decode;
  msg_Class := tClass; msg_Method := tMethod; msg_TransactionID := tID;
  msg_Contains (m : tmsg) t :=
    match t with
    | AttrMessageIntegrity => negb (bool_decide (tKey m = []))
    | _ => match ListMessage.get (tAttrs m) t with Ok _ => true | Err _ => false end
    end;
  nonce_GetFrom := nonce_of;
  realm_GetFrom _ := Ok "realm"%string;
  username_GetFrom _ := Ok "user"%string;
  xor_GetFromAs (m : tmsg) _ := peer_of m;
  msg_views (m : tmsg) _ :=
    (fun p => mk (tMethod m) 0 (tAttrs m) (tNonce m) (tKey m) [p]) <$> tPeers m;
  integrity_Check := check;
  Build setters := Ok [match setters with
                       | _ :: SetType _ ClassErrorResponse :: _ => 0x110
                       | _ => 0x100
                       end; Z.of_nat (length setters)];
|}.

Lemma stun_bytes (m : @Message msgs) t v : msg_Get m t = Ok v -> bytes_ok v.
Proof.
  simpl. unfold tget. destruct (ListMessage.get _ t); [|done]. intros; simplify_eq.
  apply Forall_fmap, Forall_forall. intros. apply u8_ok.
Qed.

Record net := { nextSocket : nat; sent : list (conn * bytes * net_Addr) }.

#[export] Instance relay : RelayEnv := {|
  world := net; IOError := unit;
  allocatePacketConn w _ p :=
    ({| nextSocket := S (nextSocket w); sent := sent w |},
     Ok (nextSocket w,
         UDPAddr [10;0;0;1] (if p =? 0 then 49152 + Z.of_nat (nextSocket w) else p) ""));
  closeConn w _ := (w, None) |}.

#[export] Instance server_env : ServerEnv relay := {|
  writeTo (w : @world relay) c b dst :=
    ({| nextSocket := nextSocket w; sent := sent w ++ [(c, b, dst)] |}, (blen b, None));
  isErrClosed _ := true;
  localAddr _ := server1;
  randIntn w _ := (w, 0);
  randInt63 w := (w, 7);
  md5hex x := x |}.

Definition request (n : Z) : Request :=
  {| rConn := 7%nat; rSrcAddr := client1; rBuff := [n];
     rAuthHandler := fun _ _ _ => Some secret; rRealm := "realm";
     rChannelBindTimeout := 10 * minute |}.

Definition quiet_net : net := {| nextSocket := 0; sent := [] |}.

(** The server at time [t], having issued the nonce n at time 0; its policy
    refuses [peerB]. *)
Definition server (t : Z) (w : net) (mg : gmap string Allocation) : @state relay :=
  {| core := @Build_sys relay t w
       {| allocations := mg; reservations := []; reservationTimers := [];
          permissionHandler := Some (fun _ ip => negb (bool_decide (ip = peerB.1))) |};
     nonces := {["n"%string := 0]} |}.

Definition idle : @state relay := server 5 quiet_net ∅.
(** ... after the Allocate request. *)
Definition allocated : @state relay := fst (HandleRequest (request 1) idle).

End TestServer.

(** * Theorems *)

Section ServerTheorems.
Context {S : StunMessage} {SS : StunServer S} {R : RelayEnv} {SE : ServerEnv R}.

(** The request must be challenged: no integrity attribute, or a nonce that
    is unknown or an hour old. *)
Definition needs_challenge (m : Message) (s : state) : Prop :=
  msg_Contains m AttrMessageIntegrity = false \/
  exists n, nonce_GetFrom m = Ok n /\
    forall created, nonces s !! n = Some created -> nonceLifetime <= st_now s - created.

(** From the environment [w] the error response with the attributes [attrs] is
    written to the request's source, on the socket the request came by, and
    the server is left in [s'] (if the message cannot be built nothing is
    written). *)
Definition responds (r : Request) (m : Message) (meth : Method) (attrs : list Setter)
    (w : world) (s' : state) : Prop :=
  st_env s' =
    match Build (buildMsg (msg_TransactionID m) meth ClassErrorResponse attrs) with
    | Ok raw => fst (writeTo w (rConn r) raw (rSrcAddr r))
    | Err _ => w
    end.

Lemma buildAndSend_responds r m meth attrs s s' e :
  buildAndSend (rConn r) (rSrcAddr r)
    (buildMsg (msg_TransactionID m) meth ClassErrorResponse attrs) s = (s', e) ->
  nonces s' = nonces s /\ responds r m meth attrs (st_env s) s'.
Proof.
  unfold buildAndSend, responds. destruct (Build _); [|intros; by simplify_eq].
  destruct (writeTo _ _ _ _) as [w [n err]]. intros; by simplify_eq.
Qed.

Lemma buildAndSendErr_responds r m meth attrs err s s' e :
  buildAndSendErr (rConn r) (rSrcAddr r) err
    (buildMsg (msg_TransactionID m) meth ClassErrorResponse attrs) s = (s', e) ->
  nonces s' = nonces s /\ is_Some e /\ responds r m meth attrs (st_env s) s'.
Proof.
  unfold buildAndSendErr. destruct (buildAndSend _ _ _ _) as [s1 e1] eqn:E.
  apply buildAndSend_responds in E as [? ?]. intros; simplify_eq. split_and!; [done| |done].
  destruct e1; by eexists.
Qed.

(** The challenge: a new nonce, stored with the current time and sent with the
    realm; when the digest drawn is already in use, no answer. *)
Definition challenged (r : Request) (m : Message) (meth : Method) (code : ErrorCode)
    (s s' : state) (err : option server_error) : Prop :=
  let '(s1, n) := buildNonce s in
  match nonces s !! n with
  | None => nonces s' = <[n := st_now s]> (nonces s) /\
      responds r m meth [SetErrorCode code; SetNonce n; SetRealm (rRealm r)] (st_env s1) s'
  | Some _ => s' = s1 /\ err = Some errDuplicatedNonce
  end.

Lemma respondWithNonce_challenged r m meth code s s' err :
  respondWithNonce r m meth code s = (s', err) -> challenged r m meth code s s' err.
Proof.
  unfold respondWithNonce, challenged, buildNonce. destruct (randInt63 (st_env s)) as [w x].
  set (n := md5hex _). simpl. destruct (nonces s !! n) eqn:En; [intros; by simplify_eq|].
  by intros [-> ?]%buildAndSend_responds.
Qed.

(** C7. Authentication is exact: the key is returned, and nothing changes,
    exactly for a request with valid credentials.  Any other request leaves
    the allocations as they are and is answered to its source: without an integrity
    attribute with 401 and with an unknown or stale nonce with 438, a new nonce
    and the realm, the nonce being stored with the current time (if the digest drawn
    for it is already in use, an error is returned and nothing sent); for every other
    reason with 400, no nonce issued, and an error is returned. *)
Theorem authenticateRequest_correct (r : Request) (m : Message) (meth : Method) (s : state) :
  match authenticateRequest r m meth s with
  | (s', inl key) => s' = s /\ credentials r m s key
  | (s', inr err) =>
      quiet s s' /\ (forall key, ~ credentials r m s key) /\
      (needs_challenge m s ->
       challenged r m meth
         (if msg_Contains m AttrMessageIntegrity then CodeStaleNonce else CodeUnauthorized)
         s s' err) /\
      (~ needs_challenge m s ->
       nonces s' = nonces s /\ is_Some err /\
       responds r m meth [SetErrorCode CodeBadRequest] (st_env s) s')
  end.
Proof.
  pose proof (authenticateRequest_cases r m meth s) as H.
  destruct (authenticateRequest r m meth s) as [s' [key|err]] eqn:E; [done|].
  destruct H as [Hq Hc]. split; [done|]. split; [done|]. unfold authenticateRequest in E.
  destruct (msg_Contains m _) eqn:Hi; simpl in E; last first.
  { destruct (respondWithNonce _ _ _ _ _) eqn:E1. simplify_eq.
    split; [intros _; by apply respondWithNonce_challenged|]. intros []. by left. }
  assert (forall n created, nonce_GetFrom m = Ok n -> nonces s !! n = Some created ->
    st_now s - created < nonceLifetime -> ~ needs_challenge m s) as Hgood.
  { intros n c Hn Hs Hl [?|(n' & Hn' & H')]; [congruence|].
    assert (n' = n) as -> by congruence. specialize (H' c Hs). lia. }
  destruct (nonce_GetFrom m) as [n|] eqn:Hn; last first.
  { destruct (buildAndSendErr _ _ _ _ _) eqn:E1. simplify_eq.
    split; [|intros _; by eapply buildAndSendErr_responds].
    intros [?|(n' & Hn' & _)]; congruence. }
  destruct (nonces s !! n) as [c|] eqn:Ec; last first.
  { destruct (respondWithNonce _ _ _ _ _) eqn:E1. simplify_eq.
    split; [intros _; by apply respondWithNonce_challenged|].
    intros []. right. exists n. split; [done|]. intros c Hc'. congruence. }
  destruct (nonceLifetime <=? _) eqn:El; boolp.
  { destruct (respondWithNonce _ _ _ _ _) eqn:E1. simplify_eq.
    split; [intros _; by apply respondWithNonce_challenged|].
    intros []. right. exists n. split; [done|]. intros c' Hc'. by simplify_eq. }
  split; [by intros []%(Hgood n c)|]. intros _.
  repeat (case_hyp E; simplify_eq/=; try (by eapply buildAndSendErr_responds)).
Qed.

(** C1. No datagram changes the allocations without authentication: if
    handling one changes the manager in any way, then it is a STUN request for
    Allocate, Refresh, CreatePermission or ChannelBind, and it carries valid
    credentials for a nonce this server issued less than an hour ago. *)
Theorem HandleRequest_authenticated (r : Request) (s s' : state) (e : option server_error) :
  HandleRequest r s = (s', e) -> st_mgr s' <> st_mgr s ->
  exists m key, msg_Decode (rBuff r) = Ok m /\ msg_Class m = ClassRequest /\
    msg_Method m ∈ [MethodAllocate; MethodRefresh; MethodCreatePermission; MethodChannelBind] /\
    credentials r m s key.
Proof.
  unfold HandleRequest, handleDataPacket, handleTURNPacket. intros E Hm.
  assert (forall s1, quiet s s1 -> s1 <> s') as Hnq by (intros s1 [_ Hq _ _] ->; done).
  destruct (ChannelData.IsChannelData _).
  { destruct (ChannelData.Decode _) as [c [?|]]; [by simplify_eq|].
    destruct (handleChannelData r c s) as [s1 ?] eqn:Ed. simplify_eq.
    by destruct (Hnq _ (handleChannelData_quiet _ _ _ _ _ Ed)). }
  destruct (msg_Decode _) as [m|]; [|by simplify_eq].
  destruct (getMessageHandler _ _) as [h|] eqn:Eh; [|by simplify_eq].
  destruct (h r m s) as [s1 ?] eqn:E1. simplify_eq.
  exists m. destruct (handler_outcome _ _ _ _ _ _ _ _ Eh E1) as [Hq|key Hc _ _];
    [by destruct (Hnq _ Hq)|].
  exists key. split; [done|].
  destruct (msg_Class m), (msg_Method m); simplify_eq/=;
    try (split_and!; [done|apply list_elem_of_In; simpl; tauto|done]).
  - by destruct (Hnq _ (handleBindingRequest_quiet _ _ _ _ _ E1)).
  - by destruct (Hnq _ (handleSendIndication_quiet _ _ _ _ _ E1)).
Qed.

(** C2. A datagram concerns its own client only: what it makes the server do
    to clock, environment and allocations is a sequence of calls of the
    allocation manager for the client's own 5-tuple (create with a lifetime of
    at most an hour, delete, refresh, add a permission, bind a channel with the
    configured lifetime, store the cached response, reserve a port), even-port probes,
    datagrams written and random numbers drawn; no time passes, and the
    allocations of all other 5-tuples stay as they are. *)
Theorem HandleRequest_refines (r : Request) (s s' : state) (e : option server_error) :
  (forall m t v, msg_Get m t = Ok v -> bytes_ok v) ->
  HandleRequest r s = (s', e) ->
  rtc (rstep (rChannelBindTimeout r) maximumAllocationLifetime (Fingerprint (request_ft r)))
    (core s) (core s') /\
  st_now s' = st_now s /\
  forall k, k <> Fingerprint (request_ft r) ->
    allocations (st_mgr s') !! k = allocations (st_mgr s) !! k.
Proof.
  intros Hb E. apply HandleRequest_steps in E; [|done]. split; [done|].
  by apply rsteps_frame in E.
Qed.

(** C3. A server that starts without allocations keeps the manager's
    invariant for ever, under any datagrams, timers and delays: allocations
    under their own 5-tuple and open, every timer running and in bounds, no
    channel number and no peer bound twice. *)
Theorem server_invariant (cbt : Z) (s0 s : state) :
  (forall m t v, msg_Get m t = Ok v -> bytes_ok v) ->
  0 <= cbt -> sys_init (core s0) -> rtc (sstep cbt) s0 s ->
  mgr_inv cbt maximumAllocationLifetime (core s).
Proof.
  intros Hb Hcbt H0 Hrun. apply reachable_inv; [done|]. exists (core s0). split; [done|].
  by apply run_steps.
Qed.

(** A nonce once issued is never forgotten: no request and no timer
    removes it, so the table keeps every nonce ever issued, those past their
    hour included. *)
Theorem nonces_never_removed (cbt : Z) (s s' : state) (n : string) (created : Z) :
  rtc (sstep cbt) s s' -> nonces s !! n = Some created -> nonces s' !! n = Some created.
Proof.
  induction 1 as [|x y z Hxy _ IH]; [done|]. intros Hn. apply IH.
  eapply lookup_weaken; [done|by eapply sstep_nonces].
Qed.

(** Allocate is idempotent per transaction: once a request has been
    answered with success, its allocation exists, expires after the granted
    lifetime and remembers the response, relayed address and lifetime
    included; a later authenticated Allocate of the same client gets that same
    response again when it repeats the transaction id, and Allocation Mismatch
    otherwise, and neither changes any allocation. *)
Theorem handleAllocateRequest_idempotent (r : Request) (m : Message) (key : bytes) (s s1 : state) :
  credentials r m s key -> GetAllocation (st_mgr s) (request_ft r) = None ->
  handleAllocateRequest r m s = (s1, None) ->
  exists a attrs,
    GetAllocation (st_mgr s1) (request_ft r) = Some a /\
    lifetimeTimer a = Some (st_now s + allocationLifeTime m) /\
    (forall ip port, AddrIPPort (RelayAddr a) = Ok (ip, port) ->
       SetRelayedAddress ip port ∈ attrs) /\
    SetLifetime (allocationLifeTime m) ∈ attrs /\
    forall m' key' s2, st_mgr s2 = st_mgr s1 -> credentials r m' s2 key' ->
      st_mgr (fst (handleAllocateRequest r m' s2)) = st_mgr s2 /\
      handleAllocateRequest r m' s2 =
        if decide (msg_TransactionID m = msg_TransactionID m')
        then buildAndSend (rConn r) (rSrcAddr r)
               (buildMsg (msg_TransactionID m') MethodAllocate ClassSuccessResponse
                  (attrs ++ [SetMessageIntegrity key'])) s2
        else buildAndSendErr (rConn r) (rSrcAddr r) errRelayAlreadyAllocatedForFiveTuple
               (buildMsg (msg_TransactionID m') MethodAllocate ClassErrorResponse
                  [SetErrorCode CodeAllocMismatch]) s2.
Proof.
  intros Hc Hfree E.
  assert (exists p tok w, allocateAndRespond r m key p tok (set_env w s) = (s1, None)) as (p & tok & w & Ea).
  { assert (forall c d err attrs (s0 : state), buildAndSendErr c d err attrs s0 <> (s1, None)) as Hne.
    { intros c d err attrs s0. unfold buildAndSendErr. by destruct (buildAndSend _ _ _ _). }
    unfold handleAllocateRequest in E. rewrite (authenticateRequest_ok _ _ _ _ _ Hc), Hfree in E.
    destruct (RequestedTransport_GetFrom m); [|by apply Hne in E].
    do 3 (case_hyp E; [by apply Hne in E|]). case_hyp E.
    - destruct (GetRandomEvenPort _) as [w [po|?]]; [|by apply Hne in E].
      destruct (randSeq 8 _) as [w' tok]. by exists po, tok, w'.
    - exists 0, ""%string, (st_env s). by destruct s as [[] ?]. }
  apply allocateAndRespond_ok in Ea as (a & attrs & Ha & Hcache & Ht & Hr & Hl).
  exists a, attrs. split_and!; [done..|]. intros m' key' s2 Hm Hc'.
  unfold handleAllocateRequest. rewrite (authenticateRequest_ok _ _ _ _ _ Hc').
  rewrite Hm, Ha. unfold GetResponseCache. rewrite Hcache.
  case_bool_decide as Hid; [rewrite decide_True by done|rewrite decide_False by done];
    simpl negb; cbv iota; (split; [|done]).
  - destruct (buildAndSend _ _ _ s2) eqn:Es. by apply buildAndSend_env in Es as [->|(? & _ & ->)].
  - destruct (buildAndSendErr _ _ _ _ s2) eqn:Es. by apply buildAndSendErr_env in Es as [->|(? & _ & ->)].
Qed.

(** Refresh: an authenticated request with lifetime zero removes the
    client's allocation; any other re-arms its timer to the granted lifetime,
    or is an error that changes nothing when there is no allocation; the
    allocations of other clients are never affected. *)
Theorem handleRefreshRequest_correct (r : Request) (m : Message) (key : bytes) (s s' : state)
    (e : option server_error) :
  credentials r m s key -> handleRefreshRequest r m s = (s', e) ->
  let ft := request_ft r in
  (forall k, k <> Fingerprint ft -> allocations (st_mgr s') !! k = allocations (st_mgr s) !! k) /\
  if allocationLifeTime m =? 0 then GetAllocation (st_mgr s') ft = None
  else match GetAllocation (st_mgr s) ft with
       | None => s' = s /\ e = Some errNoAllocationFound
       | Some a => GetAllocation (st_mgr s') ft =
                     Some (Refresh (st_now s) (allocationLifeTime m) a)
       end.
Proof.
  intros Hc E ft. unfold handleRefreshRequest in E.
  rewrite (authenticateRequest_ok _ _ _ _ _ Hc) in E. fold ft in E.
  destruct (allocationLifeTime m =? 0); simpl negb in E; cbv iota in E.
  - unfold DeleteAllocation in E.
    destruct (allocations (st_mgr s) !! Fingerprint ft) as [a|];
      [destruct (Allocation_Close _ a) as [[w a'] er]|];
      apply buildAndSend_env in E as [->|(w' & _ & ->)]; unfold GetAllocation; simpl;
      (split; [intros k Hk; by apply lookup_delete_ne|apply lookup_delete_eq]).
  - destruct (GetAllocation (st_mgr s) ft) as [a|]; [|by simplify_eq].
    apply buildAndSend_env in E as [->|(w' & _ & ->)]; unfold GetAllocation; simpl;
      (split; [intros k Hk; by apply lookup_insert_ne|apply lookup_insert_eq]).
Qed.

(** A Send indication is confined: either it is an error and nothing at
    all happens, or the client has an allocation with a permission for the
    peer's IP address, and exactly the indication's data goes out once, from
    that allocation's relay socket to that peer; it succeeds when and only
    when the socket took every byte. *)
Theorem handleSendIndication_confined (r : Request) (m : Message) (s s' : state)
    (e : option server_error) :
  handleSendIndication r m s = (s', e) ->
  (s' = s /\ e <> None) \/
  exists a data ip port n err,
    GetAllocation (st_mgr s) (request_ft r) = Some a /\
    Data_GetFrom m = Ok data /\ PeerAddress_GetFrom m = Ok (ip, port) /\
    is_Some (GetPermission a (UDPAddr ip port "")) /\
    writeTo (st_env s) (RelaySocket a) data (UDPAddr ip port "") = (st_env s', (n, err)) /\
    s' = set_env (st_env s') s /\ (e = None <-> n = blen data /\ err = None).
Proof.
  unfold handleSendIndication.
  destruct (GetAllocation _ _) as [a|]; [|intros; simplify_eq; by left].
  destruct (Data_GetFrom m) as [data|]; [|intros; simplify_eq; by left].
  destruct (PeerAddress_GetFrom m) as [[ip port]|]; [|intros; simplify_eq; by left].
  destruct (GetPermission a _) eqn:Ep; [|intros; simplify_eq; by left].
  destruct (writeTo _ _ _ _) as [w [n err]] eqn:Ew. intros E. simplify_eq. right.
  exists a, data, ip, port, n, err. split_and!; try done.
  destruct (negb _) eqn:En; boolp; destruct err; naive_solver.
Qed.

(** Channels deliver: when the client's allocation has a channel bound to
    a valid number, a ChannelData message the client encodes for that number
    with any payload of up to 65,535 bytes makes the server write exactly that
    payload, once, from the allocation's relay socket to the channel's peer,
    and change nothing else. *)
Theorem channel_data_delivered (extra : nat -> nat) (r : Request) (s : state) (a : Allocation)
    (i : nat) (cb : ChannelBind) (data : bytes) :
  rBuff r = ChannelData.content (ChannelData.Raw (ChannelData.Encode extra
    {| ChannelData.Data := data; ChannelData.Length := 0; ChannelData.Number := Number cb;
       ChannelData.Raw := {| ChannelData.content := []; ChannelData.spare := [] |} |})) ->
  blen data < 65536 -> ChannelNumber.isChannelNumberValid (Number cb) = true ->
  GetAllocation (st_mgr s) (request_ft r) = Some a ->
  GetChannelByNumber a (Number cb) = Some i -> channelBindings a !! i = Some cb ->
  let '(w, (n, err)) := writeTo (st_env s) (RelaySocket a) data (Peer cb) in
  let '(s', e) := HandleRequest r s in
  s' = set_env w s /\ (e = None <-> n = blen data /\ err = None).
Proof.
  intros Hb Hd Hv Ha Hi Hcb. destruct (server_decodes extra _ _ Hv Hd) as (c & Hc & Hn & Hdata & Hisc).
  unfold HandleRequest, handleDataPacket. rewrite Hb, Hisc, Hc.
  unfold handleChannelData. rewrite Ha, Hn, Hi. simpl. rewrite Hcb, Hdata.
  destruct (writeTo _ _ _ _) as [w [n err]]. split; [done|].
  destruct err; [naive_solver|]. destruct (negb _) eqn:En; boolp; naive_solver.
Qed.

(** CreatePermission: when every peer address of an authenticated request
    decodes and the policy admits it, each of them gets its permission renewed
    for five minutes, permissions of other IP addresses, channels and the
    allocation's lifetime stay as they were, and the answer is a success
    response as soon as there was an address. *)
Theorem handleCreatePermissionRequest_grants (r : Request) (m : Message) (key : bytes) (s : state)
    (a : Allocation) :
  credentials r m s key -> GetAllocation (st_mgr s) (request_ft r) = Some a ->
  Forall (fun v => exists ip port, admitted r (st_mgr s) v ip port) (msg_views m AttrXORPeerAddress) ->
  exists a' s1,
    GetAllocation (st_mgr s1) (request_ft r) = Some a' /\
    (forall v ip port, v ∈ msg_views m AttrXORPeerAddress -> admitted r (st_mgr s) v ip port ->
       pTimer <$> GetPermission a' (UDPAddr ip port "") =
         Some (Some (st_now s + permissionTimeout))) /\
    (forall k, (forall v ip port, v ∈ msg_views m AttrXORPeerAddress ->
                  admitted r (st_mgr s) v ip port -> FingerprintAddr (UDPAddr ip port "") <> k) ->
       permissions a' !! k = permissions a !! k) /\
    channelBindings a' = channelBindings a /\ lifetimeTimer a' = lifetimeTimer a /\
    handleCreatePermissionRequest r m s =
      buildAndSend (rConn r) (rSrcAddr r)
        (buildMsg (msg_TransactionID m) MethodCreatePermission
           (match msg_views m AttrXORPeerAddress with
            | [] => ClassErrorResponse | _ => ClassSuccessResponse end)
           [SetMessageIntegrity key]) s1.
Proof.
  intros Hc Ha Hvs.
  destruct (addPermissions_admitted r (st_mgr s) (st_now s) _ a 0 Hvs)
    as (a' & E & Hch & Hl & Hin & Hout).
  exists a', (set_mgr (update_alloc (Fingerprint (request_ft r)) a' (st_mgr s)) s).
  split_and!; [apply lookup_insert_eq|done..|].
  unfold handleCreatePermissionRequest.
  rewrite Ha, (authenticateRequest_ok _ _ _ _ _ Hc), E. f_equal. f_equal.
  by destruct (msg_views m AttrXORPeerAddress).
Qed.

End ServerTheorems.

(** * Concrete runs *)

Import TestServer.

Lemma idle_credentials : credentials (request 1) m_allocate idle secret.
Proof.
  split; [reflexivity|]. exists "n"%string, 0, "realm"%string, "user"%string.
  split_and!; try reflexivity.
Qed.

Lemma allocated_credentials n m :
  tKey m = secret -> tNonce m = "n"%string -> credentials (request n) m allocated secret.
Proof.
  intros Hk Hn. split; [simpl; by rewrite Hk|].
  exists "n"%string, 0, "realm"%string, "user"%string.
  split_and!; try reflexivity.
  - simpl. unfold nonce_of. by rewrite Hn.
  - simpl. unfold check. by rewrite Hk.
Qed.

(** Running a handler, with only its error evaluated. *)
Lemma run_eq {A E} (x : A * E) e : snd x = e -> x = (fst x, e).
Proof. by destruct x; intros <-. Qed.

Lemma idle_run : HandleRequest (request 1) idle = (allocated, None).
Proof. apply run_eq. vm_cast_no_check (@eq_refl (option server_error) None). Qed.

Lemma idle_init : sys_init (core idle).
Proof. done. Qed.

Lemma idle_steps : rtc (sstep (10 * minute)) idle allocated.
Proof. apply rtc_once. apply (ss_request _ (request 1) _ _ None); [reflexivity|apply idle_run]. Qed.

Lemma HandleRequest_authenticated_witness :
  exists m key, msg_Decode [1] = Ok m /\ msg_Class m = ClassRequest /\
    msg_Method m ∈ [MethodAllocate; MethodRefresh; MethodCreatePermission; MethodChannelBind] /\
    credentials (request 1) m idle key.
Proof.
  apply (HandleRequest_authenticated (request 1) idle allocated None); [apply idle_run|].
  intros H. apply (f_equal (fun m => is_Some (GetAllocation m ft1))) in H.
  assert (is_Some (GetAllocation (st_mgr idle) ft1)) as [x Hx] by (rewrite <- H; by eexists).
  vm_compute in Hx. discriminate.
Defined.

Lemma HandleRequest_refines_witness :
  rtc (rstep (10 * minute) maximumAllocationLifetime (Fingerprint ft1)) (core idle) (core allocated) /\
  is_Some (GetAllocation (st_mgr allocated) ft1) /\
  forall k, k <> Fingerprint ft1 ->
    allocations (st_mgr allocated) !! k = allocations (st_mgr idle) !! k.
Proof.
  destruct (HandleRequest_refines (request 1) idle allocated None) as (H1 & _ & H2);
    [apply stun_bytes|apply idle_run|].
  split; [exact H1|]. split; [by eexists|exact H2].
Defined.

Lemma server_invariant_witness : mgr_inv (10 * minute) maximumAllocationLifetime (core allocated).
Proof.
  apply (server_invariant (10 * minute) idle allocated);
    [apply stun_bytes|vm_compute; congruence|apply idle_init|apply idle_steps].
Defined.

Lemma nonces_never_removed_witness : nonces allocated !! "n"%string = Some 0.
Proof.
  apply (nonces_never_removed (10 * minute) idle allocated); [apply idle_steps|reflexivity].
Defined.

Lemma handleAllocateRequest_idempotent_witness :
  let s1 := fst (handleAllocateRequest (request 1) m_allocate idle) in
  exists attrs, SetLifetime (10 * minute) ∈ attrs /\
    handleAllocateRequest (request 1) m_allocate s1 =
      buildAndSend 7%nat client1
        (buildMsg (id 1) MethodAllocate ClassSuccessResponse
           (attrs ++ [SetMessageIntegrity secret])) s1.
Proof.
  intros s1.
  destruct (handleAllocateRequest_idempotent (request 1) m_allocate secret idle s1)
    as (a & attrs & Ha & Ht & Hr & Hl & Hagain);
    [apply idle_credentials|reflexivity|apply run_eq; vm_cast_no_check (@eq_refl (option server_error) None)|].
  exists attrs. split; [exact Hl|].
  assert (credentials (request 1) m_allocate s1 secret) as Hc.
  { split; [reflexivity|]. exists "n"%string, 0, "realm"%string, "user"%string.
    split_and!; vm_compute; reflexivity. }
  destruct (Hagain m_allocate secret s1 eq_refl Hc) as [_ ->].
  by rewrite decide_True.
Defined.

Lemma handleRefreshRequest_correct_witness :
  GetAllocation (st_mgr allocated) ft1 <> None /\
  GetAllocation (st_mgr (fst (handleRefreshRequest (request 2) m_delete allocated))) ft1 = None.
Proof.
  split; [vm_compute; congruence|].
  refine (proj2 (handleRefreshRequest_correct (request 2) m_delete secret allocated _ None _ _)).
  - apply allocated_credentials; reflexivity.
  - apply run_eq. vm_cast_no_check (@eq_refl (option server_error) None).
Defined.

(** ... after CreatePermission for two peers, the second refused. *)
Definition permitted : state := fst (HandleRequest (request 3) allocated).

Lemma handleSendIndication_confined_witness :
  let s' := fst (handleSendIndication (request 5) m_send permitted) in
  (s' = permitted /\ None <> (None : option server_error)) \/
  exists a data ip port n err,
    GetAllocation (st_mgr permitted) (request_ft (request 5)) = Some a /\
    Data_GetFrom m_send = Ok data /\ PeerAddress_GetFrom m_send = Ok (ip, port) /\
    is_Some (GetPermission a (UDPAddr ip port "")) /\
    writeTo (st_env permitted) (RelaySocket a) data (UDPAddr ip port "") = (st_env s', (n, err)) /\
    s' = set_env (st_env s') permitted /\
    ((None : option server_error) = None <-> n = blen data /\ err = None).
Proof. apply handleSendIndication_confined. apply run_eq. vm_cast_no_check (@eq_refl (option server_error) None). Defined.

(** The allocation of [alloc2], with the channel 0x4000 bound to [peer1], on
    this server; its client sends three bytes on the channel. *)
Definition channel_server : state := server 5 quiet_net {[ Fingerprint ft1 := alloc2 ]}.
Definition channel_bind : ChannelBind :=
  {| Peer := peer1; Number := 0x4000; cTimer := Some (10 * minute) |}.
Definition channel_request : Request :=
  {| rConn := 7%nat; rSrcAddr := client1; rBuff := [0x40;0;0;3;7;8;9;0];
     rAuthHandler := fun _ _ _ => None; rRealm := "realm"; rChannelBindTimeout := 10 * minute |}.

Lemma channel_data_delivered_witness :
  let '(s', e) := HandleRequest channel_request channel_server in
  s' = set_env {| nextSocket := 0; sent := [(0%nat, [7;8;9], peer1)] |} channel_server /\
  (e = None <-> 3 = 3 /\ (None : option unit) = None).
Proof.
  refine (channel_data_delivered (fun n => n) channel_request channel_server alloc2 0 channel_bind
    [7;8;9] _ _ _ _ _ _); reflexivity.
Defined.

Definition m_permit1 : @Message msgs := mk MethodCreatePermission 3 [] "n" secret [peerA].

Lemma handleCreatePermissionRequest_grants_witness :
  exists a' s1,
    GetAllocation (st_mgr s1) ft1 = Some a' /\
    pTimer <$> GetPermission a' peer1 = Some (Some (5 + 5 * minute)) /\
    channelBindings a' = [] /\
    handleCreatePermissionRequest (request 3) m_permit1 allocated =
      buildAndSend 7%nat client1
        (buildMsg (id 3) MethodCreatePermission ClassSuccessResponse
           [SetMessageIntegrity secret]) s1.
Proof.
  destruct (GetAllocation (st_mgr allocated) (request_ft (request 3))) as [a|] eqn:Ea;
    [|vm_compute in Ea; discriminate].
  assert (Hv : admitted (request 3) (st_mgr allocated)
                 (mk MethodCreatePermission 0 [] "n" secret [peerA]) [203;0;113;9] 7000)
    by (split; reflexivity).
  destruct (handleCreatePermissionRequest_grants (request 3) m_permit1 secret allocated a)
    as (a' & s1 & H1 & H2 & H3 & H4 & H5 & H6).
  - apply allocated_credentials; reflexivity.
  - exact Ea.
  - constructor; [exists [203;0;113;9], 7000; exact Hv|constructor].
  - exists a', s1. split; [exact H1|]. split.
    + apply (H2 (mk MethodCreatePermission 0 [] "n" secret [peerA]) [203;0;113;9] 7000);
        [constructor|exact Hv].
    + split; [|exact H6]. rewrite H4. vm_compute in Ea. injection Ea as <-. reflexivity.
Defined.

(** A refused CreatePermission still grants: in a request for two peers of
    which the policy refuses the second, the client is sent an error response,
    but the permission of the first peer has been installed for five
    minutes. *)
Theorem CreatePermission_error_keeps_permissions :
  exists s1 err,
    HandleRequest (request 3) allocated = (s1, err) /\
    last (sent (st_env s1)) = Some (7%nat, [0x110; 3], client1) /\
    (a ← GetAllocation (st_mgr allocated) ft1; GetPermission a peer1) = None /\
    (a ← GetAllocation (st_mgr s1) ft1; pTimer <$> GetPermission a peer1) =
      Some (Some (5 + 5 * minute)).
Proof.
  eexists _, _. split; [apply surjective_pairing|]. split_and!; vm_compute; reflexivity.
Qed.

(** ChannelBind accepts any 16-bit number: the number 0x1234, outside the
    range 0x4000-0x7FFF of channel numbers, is bound and acknowledged, and the
    ChannelData the relay then sends for it is not recognised as ChannelData. *)
Theorem ChannelBind_accepts_invalid_number :
  exists s1 a raw,
    HandleRequest (request 4) allocated = (s1, None) /\
    GetAllocation (st_mgr s1) ft1 = Some a /\
    GetChannelByNumber a 0x1234 = Some 0%nat /\
    ChannelNumber.isChannelNumberValid 0x1234 = false /\
    packetHandler (E := unit) (fun _ => 0%nat) Build a (Ok ([1;2;3;4], peer1)) =
      RelayContinue (Some (7%nat, raw, client1)) /\
    ChannelData.IsChannelData raw = false.
Proof.
  destruct (GetAllocation (st_mgr (fst (HandleRequest (request 4) allocated))) ft1) as [a|] eqn:Ea;
    [|vm_compute in Ea; discriminate].
  exists (fst (HandleRequest (request 4) allocated)), a, [0x12;0x34;0;4;1;2;3;4].
  split_and!; [apply run_eq; vm_cast_no_check (@eq_refl (option server_error) None)|done|..];
    (vm_compute in Ea; injection Ea as <-; vm_compute; reflexivity).
Qed.
