(* ===== verification/TurnConfig.v ===== *)
(** What a TURN server is configured with: the relay address generators
    (relay_address_generator_static.go, _range.go), the time-windowed
    credentials (lt_cred.go) and the checks of server_config.go.

    Sockets and random numbers belong to an environment [W]; [None] is a panic.
    The hashes are parameters. *)

From S2P Require Import Prelude GoNet GoText Stun TurnProto Allocation TurnServer.

#[local] Open Scope string_scope.
#[local] Open Scope list_scope.
#[local] Open Scope Z_scope.

Inductive config_error :=
| errMinPortNotZero | errMaxPortNotZero | errRelayAddressInvalid | errListeningAddressInvalid | errNilConn | errMaxRetriesExceeded
| errListen | errConnUnset | errListenerUnset | errRelayAddressGeneratorUnset | errNoAvailableConns.

(** * Relay addresses *)

(** A nil [RelayAddress] is the empty list; [Net] and [Rand] are the
    environment. *)
Record RelayAddressGeneratorStatic := { s_RelayAddress : list Z; s_Address : string }.

Record RelayAddressGeneratorPortRange := {
  RelayAddress : list Z;
  MinPort : Z;
  MaxPort : Z;
  MaxRetries : Z;
  Address : string;
}.

(** [RelayAddressGeneratorNone]. *)
Record RelayAddressGeneratorNone := { n_Address : string }.

Definition None_Validate (r : RelayAddressGeneratorNone) : option config_error :=
  if String.eqb (n_Address r) "" then Some errListeningAddressInvalid else None.

Definition Static_Validate (r : RelayAddressGeneratorStatic) : option config_error :=
  match s_RelayAddress r with
  | [] => Some errRelayAddressInvalid
  | _ => if String.eqb (s_Address r) "" then Some errListeningAddressInvalid else None
  end.

(** [Validate] fills in the number of retries. *)
Definition PortRange_Validate (r : RelayAddressGeneratorPortRange) : option config_error * RelayAddressGeneratorPortRange :=
  let r := {| RelayAddress := RelayAddress r; MinPort := MinPort r; MaxPort := MaxPort r;
              MaxRetries := if MaxRetries r =? 0 then 10 else MaxRetries r; Address := Address r |} in
  (if MinPort r =? 0 then Some errMinPortNotZero
   else if MaxPort r =? 0 then Some errMaxPortNotZero
   else match RelayAddress r with
        | [] => Some errRelayAddressInvalid
        | _ => if String.eqb (Address r) "" then Some errListeningAddressInvalid else None
        end, r).

Section Generators.
Context {W Conn : Type}.
(** [ListenPacket(network, address)]: a connection and its local address. *)
Context (ListenPacket : string -> string -> W -> option (Conn * net_Addr) * W).
(** [Rand.Intn(n)], which panics unless [0 < n]. *)
Context (Intn : Z -> W -> Z * W).

(** The address of a new relay, with the IP of the configuration. *)
Definition relayed (ip : list Z) (c : Conn * net_Addr) : result config_error (Conn * net_Addr) :=
  match snd c with
  | UDPAddr _ port zone => Ok (fst c, UDPAddr ip port zone)
  | _ => Err errNilConn
  end.

Definition Static_AllocatePacketConn (network : string) (requestedPort : Z) (r : RelayAddressGeneratorStatic) (w : W)
  : result config_error (Conn * net_Addr) * W :=
  match ListenPacket network (s_Address r +:+ ":" +:+ itoa requestedPort) w with
  | (None, w) => (Err errListen, w)
  | (Some c, w) => (relayed (s_RelayAddress r) c, w)
  end.

Definition None_AllocatePacketConn (network : string) (requestedPort : Z) (r : RelayAddressGeneratorNone) (w : W)
  : result config_error (Conn * net_Addr) * W :=
  match ListenPacket network (n_Address r +:+ ":" +:+ itoa requestedPort) w with
  | (None, w) => (Err errListen, w)
  | (Some c, w) => (Ok c, w)
  end.

(** One try: the port, and what listening on it gave. *)
Definition try_port (network : string) (r : RelayAddressGeneratorPortRange) (w : W)
  : option (Z * option (Conn * net_Addr) * W) :=
  let n := u16 (u16 (MaxPort r + 1) - MinPort r) in
  if n <=? 0 then None
  else
    let '(k, w) := Intn n w in
    let port := u16 (MinPort r + u16 k) in
    let '(c, w) := ListenPacket network (Address r +:+ ":" +:+ itoa port) w in
    Some (port, c, w).

(** The loop; the second component of the result are the ports tried. *)
Fixpoint retry_loop (tries : nat) (network : string) (r : RelayAddressGeneratorPortRange) (w : W)
  : option (result config_error (Conn * net_Addr) * list Z * W) :=
  match tries with
  | O => Some (Err errMaxRetriesExceeded, [], w)
  | S tries =>
      '(port, c, w) ← try_port network r w;
      match c with
      | None => '(res, ports, w) ← retry_loop tries network r w; Some (res, port :: ports, w)
      | Some c => Some (relayed (RelayAddress r) c, [port], w)
      end
  end.

Definition PortRange_AllocatePacketConn (network : string) (requestedPort : Z) (r : RelayAddressGeneratorPortRange) (w : W)
  : option (result config_error (Conn * net_Addr) * list Z * W) :=
  if negb (requestedPort =? 0) then
    match ListenPacket network (Address r +:+ ":" +:+ itoa requestedPort) w with
    | (None, w) => Some (Err errListen, [requestedPort], w)
    | (Some c, w) => Some (relayed (RelayAddress r) c, [requestedPort], w)
    end
  else retry_loop (Z.to_nat (MaxRetries r)) network r w.

(** ** Ports stay in the range *)

Definition ports_ok (r : RelayAddressGeneratorPortRange) : Prop := 0 < MinPort r <= MaxPort r /\ MaxPort r < 65536.

Context (Intn_range : forall n w, 0 < n -> 0 <= fst (Intn n w) < n).

Lemma try_port_ok network r w : ports_ok r -> exists port c w', try_port network r w = Some (port, c, w') /\
  MinPort r <= port <= MaxPort r.
Proof.
  intros [H1 H2]. unfold try_port.
  assert (u16 (u16 (MaxPort r + 1) - MinPort r) = MaxPort r + 1 - MinPort r) as ->.
  { destruct (decide (MaxPort r = 65535)) as [->|].
    - change (u16 (65535 + 1)) with 0. unfold u16. replace (65535 + 1 - MinPort r) with (0 - MinPort r + 1 * 65536) by lia.
      rewrite <- (Z.mod_add (0 - MinPort r) 1) by lia. apply Z.mod_small. lia.
    - rewrite (u16_small (MaxPort r + 1)), u16_small by lia. lia. }
  rewrite (proj2 (Z.leb_gt _ 0)) by lia. pose proof (Intn_range (MaxPort r + 1 - MinPort r) w ltac:(lia)) as Hr.
  destruct (Intn _ w) as [k w1]. simpl in Hr. destruct (ListenPacket _ _ w1) as [c w2]. do 3 eexists. split; [done|].
  rewrite (u16_small k), u16_small by lia. lia.
Qed.

Lemma retry_loop_ok tries network r : forall w, ports_ok r -> exists res ports w', retry_loop tries network r w = Some (res, ports, w') /\
  Forall (fun p => MinPort r <= p <= MaxPort r) ports /\ (length ports <= tries)%nat /\
  match res with
  | Ok (c, a) => exists p z, a = UDPAddr (RelayAddress r) p z
  | Err e => e = errNilConn \/ e = errMaxRetriesExceeded /\ length ports = tries
  end.
Proof.
  induction tries as [|tries IH]; intros w Hr; cbn [retry_loop].
  { do 3 eexists. split; [done|]. split; [constructor|]. split; [done|]. by right. }
  destruct (try_port_ok network r w Hr) as (port & c & w1 & -> & Hp). cbn [mbind option_bind]. destruct c as [[c a]|].
  - do 3 eexists. split; [done|]. split; [by constructor|]. split; [simpl; lia|]. unfold relayed. simpl.
    destruct a; eauto.
  - destruct (IH w1 Hr) as (res & ports & w2 & -> & Hf & Hl & Hres). cbn [mbind option_bind]. do 3 eexists. split; [done|].
    split; [by constructor|]. split; [simpl; lia|]. destruct res as [[c a]|e]; [done|]. destruct Hres as [->|[-> <-]]; [by left|by right].
Qed.

(** A generator that passed [Validate] with its ports in order allocates without
    a panic, tries only ports of its range and at most as many as it was told,
    gives up only after all of them, and relays have the configured address. *)
Theorem port_range_respected network r r' w : PortRange_Validate r = (None, r') -> MinPort r <= MaxPort r -> 0 <= MinPort r -> MaxPort r < 65536 ->
  exists res ports w', PortRange_AllocatePacketConn network 0 r' w = Some (res, ports, w') /\
    Forall (fun p => MinPort r <= p <= MaxPort r) ports /\ Z.of_nat (length ports) <= Z.max 0 (MaxRetries r') /\
    match res with
    | Ok (c, a) => exists p z, a = UDPAddr (RelayAddress r) p z
    | Err e => e = errNilConn \/ e = errMaxRetriesExceeded /\ Z.of_nat (length ports) = Z.max 0 (MaxRetries r')
    end.
Proof.
  unfold PortRange_Validate. intros H H1 H2 H3. cbn in H. injection H as Hv <-. destruct (Z.eqb_spec (MinPort r) 0); [done|].
  unfold PortRange_AllocatePacketConn. cbn -[retry_loop Z.to_nat].
  set (r' := {| RelayAddress := RelayAddress r |}).
  destruct (retry_loop_ok (Z.to_nat (MaxRetries r')) network r' w) as (res & ports & w' & E & Hf & Hl & Hres); [split; cbn; lia|].
  exists res, ports, w'. split; [exact E|]. split; [exact Hf|]. split; [subst r'; cbn in *; lia|]. destruct res as [[c a]|e]; [exact Hres|].
  destruct Hres as [->|[-> Hl']]; [by left|right]. split; [done|]. subst r'; cbn in *; lia.
Qed.

(** A range whose bounds are swapped passes [Validate] too.  With the lower
    bound one above the upper one, the first allocation panics. *)
Theorem swapped_range_panics network r r' w : PortRange_Validate r = (None, r') -> MinPort r = MaxPort r + 1 -> 0 < MaxRetries r ->
  PortRange_AllocatePacketConn network 0 r' w = None.
Proof.
  unfold PortRange_Validate. intros H H1 H2. cbn in H. injection H as Hv <-.
  unfold PortRange_AllocatePacketConn. cbn -[retry_loop Z.to_nat]. rewrite (proj2 (Z.eqb_neq (MaxRetries r) 0)) by lia.
  destruct (Z.to_nat (MaxRetries r)) eqn:En; [lia|]. cbn [retry_loop]. unfold try_port. cbn. rewrite <- H1.
  assert (u16 (u16 (MinPort r) - MinPort r) = 0) as ->; [|done].
  unfold u16. rewrite Zminus_mod_idemp_l, Z.sub_diag. done.
Qed.
End Generators.

(** * Server configuration *)

(** A generator of a configuration is one of the three of this package; the
    value of [nil] is [None]. *)
Inductive RelayAddressGenerator :=
| Generator_Static (r : RelayAddressGeneratorStatic)
| Generator_PortRange (r : RelayAddressGeneratorPortRange)
| Generator_None (r : RelayAddressGeneratorNone).

(** [Validate] of the interface, with the generator as it leaves it. *)
Definition Validate (g : RelayAddressGenerator) : option config_error * RelayAddressGenerator :=
  match g with
  | Generator_Static r => (Static_Validate r, g)
  | Generator_PortRange r => let '(e, r) := PortRange_Validate r in (e, Generator_PortRange r)
  | Generator_None r => (None_Validate r, g)
  end.

(** [PacketConnConfig] and [ListenerConfig]: a socket, whether it is set, and a
    generator.  [unset] is the error of an unset socket. *)
Record ConnConfig := { conn_set : bool; generator : option RelayAddressGenerator }.

Definition ConnConfig_validate (unset : config_error) (c : ConnConfig) : option config_error * ConnConfig :=
  if negb (conn_set c) then (Some unset, c)
  else match generator c with
       | None => (Some errRelayAddressGeneratorUnset, c)
       | Some g => let '(e, g) := Validate g in (e, {| conn_set := true; generator := Some g |})
       end.

Definition PacketConnConfig_validate := ConnConfig_validate errConnUnset.
Definition ListenerConfig_validate := ConnConfig_validate errListenerUnset.

Record ServerConfig := { PacketConnConfigs : list ConnConfig; ListenerConfigs : list ConnConfig }.

(** The loops of [validate]: up to the first error. *)
Fixpoint validate_all (validate : ConnConfig -> option config_error * ConnConfig) (l : list ConnConfig)
  : option config_error * list ConnConfig :=
  match l with
  | [] => (None, [])
  | c :: l =>
      match validate c with
      | (Some e, c) => (Some e, c :: l)
      | (None, c) => let '(e, l) := validate_all validate l in (e, c :: l)
      end
  end.

Definition ServerConfig_validate (s : ServerConfig) : option config_error * ServerConfig :=
  if bool_decide (PacketConnConfigs s = []) && bool_decide (ListenerConfigs s = []) then (Some errNoAvailableConns, s)
  else
    let '(e, ps) := validate_all PacketConnConfig_validate (PacketConnConfigs s) in
    match e with
    | Some e => (Some e, {| PacketConnConfigs := ps; ListenerConfigs := ListenerConfigs s |})
    | None =>
        let '(e, ls) := validate_all ListenerConfig_validate (ListenerConfigs s) in
        (e, {| PacketConnConfigs := ps; ListenerConfigs := ls |})
    end.

Definition good_generator (g : RelayAddressGenerator) : Prop :=
  match g with
  | Generator_Static r => s_RelayAddress r <> [] /\ s_Address r <> ""
  | Generator_PortRange r => MinPort r <> 0 /\ MaxPort r <> 0 /\ RelayAddress r <> [] /\ Address r <> ""
  | Generator_None r => n_Address r <> ""
  end.

Definition good_config (c : ConnConfig) : Prop := conn_set c = true /\ exists g, generator c = Some g /\ good_generator g.

Lemma Validate_good g : fst (Validate g) = None <-> good_generator g.
Proof.
  destruct g as [r|r|r]; cbn.
  - unfold Static_Validate. destruct (s_RelayAddress r); [split; naive_solver|].
    destruct (String.eqb_spec (s_Address r) ""); split; naive_solver.
  - destruct (Z.eqb_spec (MinPort r) 0); [split; naive_solver|]. destruct (Z.eqb_spec (MaxPort r) 0); [split; naive_solver|].
    destruct (RelayAddress r); [split; naive_solver|]. destruct (String.eqb_spec (Address r) ""); split; naive_solver.
  - unfold None_Validate. destruct (String.eqb_spec (n_Address r) ""); split; naive_solver.
Qed.

Lemma Validate_stable g : Validate (snd (Validate g)) = Validate g.
Proof.
  destruct g as [r|r|r]; [done| |done]. unfold Validate, PortRange_Validate. cbn.
  destruct (Z.eqb_spec (MaxRetries r) 0) as [_|H]; [done|]. by rewrite (proj2 (Z.eqb_neq _ _) H).
Qed.

Lemma ConnConfig_good unset c : fst (ConnConfig_validate unset c) = None <-> good_config c.
Proof.
  unfold ConnConfig_validate, good_config. destruct (conn_set c); [|split; naive_solver]. simpl.
  destruct (generator c) as [g|]; [|split; naive_solver]. pose proof (Validate_good g) as H.
  destruct (Validate g) as [e g']. simpl in *. split; naive_solver.
Qed.

Lemma ConnConfig_stable unset c : ConnConfig_validate unset (snd (ConnConfig_validate unset c)) = ConnConfig_validate unset c.
Proof.
  unfold ConnConfig_validate. destruct c as [[] [g|]]; [|done..]. simpl. pose proof (Validate_stable g) as H.
  destruct (Validate g) as [e g']. simpl in *. by rewrite H.
Qed.

Lemma validate_all_good unset l : fst (validate_all (ConnConfig_validate unset) l) = None <-> Forall good_config l.
Proof.
  induction l as [|c l IH]; [split; [constructor|done]|]. rewrite Forall_cons, <- IH, <- (ConnConfig_good unset c). simpl.
  destruct (ConnConfig_validate unset c) as [[e|] c']; [split; naive_solver|].
  destruct (validate_all _ l) as [e l']. split; naive_solver.
Qed.

Lemma validate_all_stable unset l :
  validate_all (ConnConfig_validate unset) (snd (validate_all (ConnConfig_validate unset) l)) = validate_all (ConnConfig_validate unset) l.
Proof.
  induction l as [|c l IH]; [done|]. pose proof (ConnConfig_stable unset c) as H. simpl.
  destruct (ConnConfig_validate unset c) as [[e|] c']; simpl in *; [by rewrite H|].
  destruct (validate_all _ l) as [e l'] eqn:E. simpl in *. by rewrite H, IH.
Qed.

Lemma validate_all_nil v l : snd (validate_all v l) = [] <-> l = [].
Proof.
  destruct l as [|c l]; [done|]. simpl. destruct (v c) as [[e|] c']; [done|]. by destruct (validate_all v l).
Qed.

(** A server starts exactly with at least one socket, every socket set, and
    every generator complete; validating again changes nothing. *)
Theorem server_config_accepted s :
  (fst (ServerConfig_validate s) = None <->
   PacketConnConfigs s ++ ListenerConfigs s <> [] /\ Forall good_config (PacketConnConfigs s ++ ListenerConfigs s)) /\
  ServerConfig_validate (snd (ServerConfig_validate s)) = ServerConfig_validate s.
Proof.
  destruct s as [ps ls]. unfold ServerConfig_validate. simpl. rewrite Forall_app.
  destruct (bool_decide (ps = []) && bool_decide (ls = [])) eqn:E0.
  { split; [|simpl; by rewrite E0]. apply andb_true_iff in E0 as [->%bool_decide_eq_true ->%bool_decide_eq_true]. naive_solver. }
  assert (ps ++ ls <> []) as Hne.
  { intros [-> ->]%app_nil. done. }
  pose proof (validate_all_good errConnUnset ps) as H1. pose proof (validate_all_good errListenerUnset ls) as H2.
  pose proof (validate_all_stable errConnUnset ps) as S1. pose proof (validate_all_stable errListenerUnset ls) as S2.
  pose proof (validate_all_nil PacketConnConfig_validate ps) as N1. pose proof (validate_all_nil ListenerConfig_validate ls) as N2.
  unfold PacketConnConfig_validate, ListenerConfig_validate in *.
  destruct (validate_all (ConnConfig_validate errConnUnset) ps) as [[e|] ps'] eqn:E1; simpl in *.
  - split; [naive_solver|]. rewrite (bool_decide_ext _ _ N1), E0. simpl. by rewrite S1.
  - destruct (validate_all (ConnConfig_validate errListenerUnset) ls) as [e ls'] eqn:E2; simpl in *.
    split; [naive_solver|]. rewrite (bool_decide_ext _ _ N1), (bool_decide_ext _ _ N2), E0. simpl. by rewrite S1, S2.
Qed.

(** * Time-windowed credentials *)

(** [strconv.Atoi]; [None] is any of its errors. *)
Definition Atoi (s : string) : option Z :=
  match s with
  | EmptyString => None
  | String c s' =>
      let neg := Ascii.eqb c "-" in
      match ParseUint (if neg || Ascii.eqb c "+" then s' else s) 64 with
      | None => None
      | Some un =>
          if negb neg && (2 ^ 63 <=? un) then None
          else if neg && (2 ^ 63 <? un) then None
          else Some (if neg then - un else un)
      end
  end.

Lemma dec_digits n : 0 <= n < 2 ^ 64 -> all_chars is_dec (NetIP.dec n) = true.
Proof. intros. unfold NetIP.dec, NetIP.digits. apply dec_chars; [lia|done]. Qed.

Lemma Atoi_itoa n : - 2 ^ 63 <= n < 2 ^ 63 -> Atoi (itoa n) = Some n.
Proof.
  intros Hn. unfold itoa. destruct (Z.ltb_spec n 0) as [Hs|Hs].
  - change ("-" +:+ NetIP.dec (- n)) with (String "-" (NetIP.dec (- n))). unfold Atoi. change (Ascii.eqb "-" "-") with true.
    cbn [orb negb andb]. rewrite ParseUint_dec by lia.
    rewrite (proj2 (Z.ltb_ge (2 ^ 63) _)) by lia. f_equal. lia.
  - assert (ParseUint (NetIP.dec n) 64 = Some n) as Hp by (apply ParseUint_dec; lia).
    pose proof (dec_digits n ltac:(lia)) as Hd. destruct (NetIP.dec n) as [|c s] eqn:E; [done|]. cbn [all_chars] in Hd.
    apply andb_true_iff in Hd as [Hc _]. cbn [Atoi].
    assert (Ascii.eqb c "-" = false /\ Ascii.eqb c "+" = false) as [-> ->].
    { split; apply Ascii.eqb_neq; intros ->; done. }
    cbn [orb negb andb]. rewrite Hp, (proj2 (Z.leb_gt (2 ^ 63) n)) by lia. done.
Qed.

Section Credentials.
(** [md5.Sum], and the base64 text of an HMAC-SHA1 (key first). *)
Context (md5 : string -> list Z) (hmac_sha1_base64 : string -> string -> string).

Definition GenerateAuthKey (username realm password : string) : list Z :=
  md5 (username +:+ ":" +:+ realm +:+ ":" +:+ password).

(** The writes of an HMAC do not fail. *)
Definition longTermCredentials (username sharedSecret : string) : string := hmac_sha1_base64 sharedSecret username.

(** [now] is the clock, in nanoseconds; [Time.Unix] rounds down. *)
Definition GenerateLongTermCredentials (sharedSecret : string) (duration now : Z) : string * string :=
  let t := (now + duration) / second in
  let username := itoa t in
  (username, longTermCredentials username sharedSecret).

Definition NewLongTermAuthHandler (sharedSecret : string) (now : Z) (username realm : string) (srcAddr : net_Addr) : option (list Z) :=
  match Atoi username with
  | None => None
  | Some t =>
      if t <? now / second then None
      else Some (GenerateAuthKey username realm (longTermCredentials username sharedSecret))
  end.

(** The clocks a [time.Time] can hold, as nanoseconds. *)
Definition clock_ok (t : Z) : Prop := - 2 ^ 63 <= t / second < 2 ^ 63.

(** Generated credentials are accepted, with the key made from their user name,
    realm and password, up to and including the second they expire in, and
    never after it. *)
Theorem credentials_expire secret duration issued now realm src : clock_ok (issued + duration) ->
  let '(username, password) := GenerateLongTermCredentials secret duration issued in
  NewLongTermAuthHandler secret now username realm src =
    if now / second <=? (issued + duration) / second then Some (GenerateAuthKey username realm password) else None.
Proof.
  intros H. unfold GenerateLongTermCredentials, NewLongTermAuthHandler. rewrite Atoi_itoa by exact H.
  destruct (Z.leb_spec (now / second) ((issued + duration) / second)); [rewrite (proj2 (Z.ltb_ge _ _)) by lia|rewrite (proj2 (Z.ltb_lt _ _)) by lia]; done.
Qed.

Section Server.
Context {S : StunMessage} {SS : StunServer S} {R : RelayEnv} {SE : ServerEnv R}.

(** A server with this handler lets a request through only when its user name
    is a number of seconds that has not passed, and its integrity attribute
    verifies under the key that the shared secret gives for this name. *)
Theorem long_term_authenticated secret r m meth s s' key :
  (forall u rl a, rAuthHandler r u rl a = NewLongTermAuthHandler secret (st_now s) u rl a) ->
  authenticateRequest r m meth s = (s', inl key) ->
  s' = s /\ exists username realm t, username_GetFrom m = Ok username /\ realm_GetFrom m = Ok realm /\
    Atoi username = Some t /\ st_now s / second <= t /\
    key = GenerateAuthKey username realm (longTermCredentials username secret) /\ integrity_Check key m = None.
Proof.
  intros Hh H. pose proof (authenticateRequest_cases r m meth s) as Hc. rewrite H in Hc.
  destruct Hc as [-> (_ & nonce & created & realm & user & _ & _ & _ & Hr & Hu & Hk & Hi)]. split; [done|].
  rewrite Hh in Hk. unfold NewLongTermAuthHandler in Hk. destruct (Atoi user) as [t|] eqn:Et; [|done].
  destruct (Z.ltb_spec t (st_now s / second)); [done|]. injection Hk as <-. by exists user, realm, t.
Qed.
End Server.
End Credentials.

(** * Concrete runs *)

Module TestConfig.
Import TestServer.

(** Ports 50000 and 50001, of which the world holds the ones in use; the
    random numbers alternate. *)
Definition ports : RelayAddressGeneratorPortRange :=
  {| RelayAddress := [192;0;2;1]; MinPort := 50000; MaxPort := 50001; MaxRetries := 0; Address := "0.0.0.0" |}.

Definition listen (network address : string) (w : Z) : option (nat * net_Addr) * Z :=
  if String.eqb address "0.0.0.0:50000" then (None, w) else (Some (3%nat, UDPAddr [0;0;0;0] 50001 ""), w).
Definition next_random (n w : Z) : Z * Z := (w mod n, w + 1).

Lemma next_random_range n w : 0 < n -> 0 <= fst (next_random n w) < n.
Proof. intros. simpl. apply Z.mod_pos_bound. done. Qed.

Definition validated := snd (PortRange_Validate ports).

(** The first port is in use; the second try gives the other one. *)
Lemma port_range_respected_witness : exists res tried w',
  PortRange_AllocatePacketConn listen next_random "udp4" 0 validated 0 = Some (res, tried, w') /\
  Forall (fun p => 50000 <= p <= 50001) tried /\ Z.of_nat (length tried) <= 10.
Proof.
  destruct (port_range_respected listen next_random next_random_range "udp4" ports validated 0)
    as (res & tried & w' & H1 & H2 & H3 & _); [reflexivity|vm_compute; congruence..|].
  exists res, tried, w'. split; [exact H1|]. split; [exact H2|exact H3].
Defined.

Example second_try : PortRange_AllocatePacketConn listen next_random "udp4" 0 validated 0 =
  Some (Ok (3%nat, UDPAddr [192;0;2;1] 50001 ""), [50000; 50001], 2).
Proof. reflexivity. Qed.

Definition swapped : RelayAddressGeneratorPortRange :=
  {| RelayAddress := [192;0;2;1]; MinPort := 50001; MaxPort := 50000; MaxRetries := 10; Address := "0.0.0.0" |}.

Lemma swapped_range_panics_witness : PortRange_AllocatePacketConn listen next_random "udp4" 0 swapped 0 = None.
Proof. apply (swapped_range_panics listen next_random "udp4" swapped swapped 0); reflexivity. Defined.

(** Credentials for ten seconds, of which two have passed. *)
Definition test_md5 (s : string) : list Z := if String.eqb s "12:realm:xpw-12" then secret else [].
Definition test_hmac (key text : string) : string := key +:+ "pw-" +:+ text.

Lemma credentials_expire_witness :
  NewLongTermAuthHandler test_md5 test_hmac "x" (4 * second) "12" "realm" client1 = Some secret /\
  NewLongTermAuthHandler test_md5 test_hmac "x" (13 * second) "12" "realm" client1 = None.
Proof.
  pose proof (fun now => credentials_expire test_md5 test_hmac "x" (10 * second) (2 * second) now "realm" client1
    ltac:(vm_compute; split; congruence)) as H.
  split; [exact (H (4 * second))|exact (H (13 * second))].
Defined.

(** The messages of [TestServer], with a user name that is a time. *)
Definition timed_stun : StunServer msgs := {|
  msg_Decode := decode;
  msg_Class := tClass; msg_Method := tMethod; msg_TransactionID := tID;
  msg_Contains := @msg_Contains msgs stun;
  nonce_GetFrom := nonce_of;
  realm_GetFrom _ := Ok "realm";
  username_GetFrom _ := Ok "12";
  xor_GetFromAs (m : tmsg) _ := peer_of m;
  msg_views := @msg_views msgs stun;
  integrity_Check := check;
  Build := @Build msgs stun;
|}.

Definition timed_request : @Request :=
  {| rConn := 7%nat; rSrcAddr := client1; rBuff := [1];
     rAuthHandler := NewLongTermAuthHandler test_md5 test_hmac "x" 5; rRealm := "realm";
     rChannelBindTimeout := 10 * minute |}.

Lemma long_term_authenticated_witness :
  exists t, Atoi "12" = Some t /\ 5 / second <= t /\ secret = GenerateAuthKey test_md5 "12" "realm" (test_hmac "x" "12").
Proof.
  destruct (@long_term_authenticated test_md5 test_hmac msgs timed_stun relay server_env "x" timed_request m_allocate MethodAllocate
    idle idle secret (fun _ _ _ => eq_refl) eq_refl) as (_ & u & rl & t & Hu & Hr & Ht & Hn & Hk & _).
  injection Hu as <-. injection Hr as <-. by exists t.
Defined.
End TestConfig.
