(* ===== verification/ReplayDetector.v ===== *)
(** Replay protection: lib/pion-transport/replaydetector.

    [fixedBigInt] is a bit set in 64-bit words, shifted in place; the two
    sliding window detectors keep one.  [Check] returns a closure [accept];
    here it is the operation [accept] of the same sequence number on the
    detector as it is when the closure runs, which may be later. *)

From S2P Require Import Prelude.

Abbreviation word := 18446744073709551616 (only parsing).

(** [a << n] and [a >> n] on uint64: zero from 64 places on. *)
Definition shl64 (a n : Z) : Z := if n <? 64 then u64 (Z.shiftl a n) else 0.
Definition shr64 (a n : Z) : Z := if n <? 64 then Z.shiftr a n else 0.

(** * fixedbig.go *)

Module FixedBigInt.

Record t := { bits : list Z; n : Z; msbMask : Z }.

(** [newFixedBigInt]. *)
Definition newFixedBigInt (size : Z) : t :=
  let chunkSize := (size + 63) / 64 in
  let chunkSize := if chunkSize =? 0 then 1 else chunkSize in
  {| bits := replicate (Z.to_nat chunkSize) 0; n := size;
     msbMask := u64 (shl64 1 (64 - size mod 64) - 1) |}.

(** The word the loop of [Lsh] computes for index [i] from the words as they
    are when it gets there. *)
Definition Lsh_word (sh : Z) (bs : list Z) (i : nat) : Z :=
  let nChunk := Z.to_nat (sh / 64) in
  let nN := sh mod 64 in
  let carry :=
    if (nChunk <=? i)%nat then
      let c := shl64 (nth (i - nChunk) bs 0) nN in
      if (nChunk + 1 <=? i)%nat
      then Z.lor c (shr64 (nth (i - nChunk - 1) bs 0) (64 - nN))
      else c
    else 0 in
  Z.lor (shl64 (nth i bs 0) sh) carry.

(** The loop of [Lsh] over the indices below [k], from the top down, in
    place. *)
Fixpoint Lsh_loop (sh : Z) (k : nat) (bs : list Z) : list Z :=
  match k with
  | O => bs
  | S i => Lsh_loop sh i (<[i := Lsh_word sh bs i]> bs)
  end.

(** [Lsh]. *)
Definition Lsh (sh : Z) (s : t) : t :=
  if sh =? 0 then s
  else
    let bs := Lsh_loop sh (length (bits s)) (bits s) in
    let top := (length bs - 1)%nat in
    {| bits := <[top := Z.land (nth top bs 0) (msbMask s)]> bs; n := n s; msbMask := msbMask s |}.

(** [Bit]. *)
Definition Bit (i : Z) (s : t) : Z :=
  if n s <=? i then 0
  else
    let chunk := Z.to_nat (i / 64) in
    let pos := i mod 64 in
    if negb (Z.land (nth chunk (bits s) 0) (shl64 1 pos) =? 0) then 1 else 0.

(** [SetBit]. *)
Definition SetBit (i : Z) (s : t) : t :=
  if n s <=? i then s
  else
    let chunk := Z.to_nat (i / 64) in
    let pos := i mod 64 in
    {| bits := <[chunk := Z.lor (nth chunk (bits s) 0) (shl64 1 pos)]> (bits s);
       n := n s; msbMask := msbMask s |}.

End FixedBigInt.

(** * replaydetector.go *)

Record slidingWindowDetector := {
  latestSeq : Z; maxSeq : Z; windowSize : Z; mask : FixedBigInt.t }.

(** [New]. *)
Definition New (window max : Z) : slidingWindowDetector :=
  {| latestSeq := 0; maxSeq := max; windowSize := window;
     mask := FixedBigInt.newFixedBigInt window |}.

(** [slidingWindowDetector.Check]: whether the number is acceptable. *)
Definition Check_ok (d : slidingWindowDetector) (seq : Z) : bool :=
  if maxSeq d <? seq then false
  else if seq <=? latestSeq d then
    if u64 (windowSize d + seq) <=? latestSeq d then false
    else if negb (FixedBigInt.Bit (u64 (latestSeq d - seq)) (mask d) =? 0) then false
    else true
  else true.

(** The closure [accept] returned for an acceptable number; [None] is the
    runtime panic of a remainder by zero. *)
Definition accept (seq : Z) (d : slidingWindowDetector) : option slidingWindowDetector :=
  let d1 :=
    if latestSeq d <? seq
    then {| latestSeq := seq; maxSeq := maxSeq d; windowSize := windowSize d;
            mask := FixedBigInt.Lsh (u64 (seq - latestSeq d)) (mask d) |}
    else d in
  if maxSeq d1 =? 0 then None
  else
    let diff := u64 (latestSeq d1 - seq) mod maxSeq d1 in
    Some {| latestSeq := latestSeq d1; maxSeq := maxSeq d1; windowSize := windowSize d1;
            mask := FixedBigInt.SetBit diff (mask d1) |}.

Module Wrapped.

Record detector := {
  latestSeq : Z; maxSeq : Z; windowSize : Z; mask : FixedBigInt.t; init : bool }.

(** [WithWrap]. *)
Definition WithWrap (window max : Z) : detector :=
  {| latestSeq := 0; maxSeq := max; windowSize := window;
     mask := FixedBigInt.newFixedBigInt window; init := false |}.

(** The signed distance [diff] of [wrappedSlidingWindowDetector.Check]; Go's
    division truncates, and [-int64(d.maxSeq)/2] is [(-maxSeq)/2]. *)
Definition diff (d : detector) (seq : Z) : Z :=
  let diff := i64 (i64 (latestSeq d) - i64 seq) in
  if Z.quot (i64 (maxSeq d)) 2 <? diff then i64 (diff - i64 (u64 (maxSeq d + 1)))
  else if diff <=? Z.quot (i64 (- i64 (maxSeq d))) 2
  then i64 (diff + i64 (u64 (maxSeq d + 1)))
  else diff.

(** [wrappedSlidingWindowDetector.Check], which places the window on the
    first call. *)
Definition Check (seq : Z) (d : detector) : detector * bool :=
  if maxSeq d <? seq then (d, false)
  else
    let d1 :=
      if init d then d
      else {| latestSeq := if negb (seq =? 0) then seq - 1 else maxSeq d; maxSeq := maxSeq d;
              windowSize := windowSize d; mask := mask d; init := true |} in
    let df := diff d1 seq in
    (d1,
     if i64 (windowSize d1) <=? df then false
     else if 0 <=? df then
       if negb (FixedBigInt.Bit (u64 df) (mask d1) =? 0) then false else true
     else true).

(** Its closure [accept]; [df] is the distance the closure has captured. *)
Definition accept (seq df : Z) (d : detector) : detector :=
  let d1 :=
    if df <? 0
    then {| latestSeq := seq; maxSeq := maxSeq d; windowSize := windowSize d;
            mask := FixedBigInt.Lsh (u64 (- df)) (mask d); init := init d |}
    else d in
  {| latestSeq := latestSeq d1; maxSeq := maxSeq d1; windowSize := windowSize d1;
     mask := FixedBigInt.SetBit (u64 (latestSeq d1 - seq)) (mask d1); init := init d1 |}.

(** One packet: check it and, when acceptable, accept it at once. *)
Definition receive (seq : Z) (d : detector) : detector * bool :=
  let '(d1, ok) := Check seq d in
  if ok then (accept seq (diff d1 seq) d1, true) else (d1, false).

End Wrapped.

(** * The bit set *)

Section Bits.
Import FixedBigInt.

(** The bit at a global position of a list of words. *)
Definition bit_at (bs : list Z) (i : Z) : bool :=
  Z.testbit (nth (Z.to_nat (i / 64)) bs 0) (i mod 64).

Definition words_ok (bs : list Z) : Prop := Forall (fun w => 0 <= w < word) bs.

(** A set whose size is a positive number of whole words. *)
Record whole (s : t) : Prop := {
  wh_len : n s = 64 * Z.of_nat (length (bits s));
  wh_pos : 0 < n s;
  wh_mask : msbMask s = word - 1;
  wh_words : words_ok (bits s);
}.

Lemma shl64_testbit a k i :
  0 <= k -> 0 <= i -> Z.testbit (shl64 a k) i = (i <? 64) && (k <=? i) && Z.testbit a (i - k).
Proof.
  intros Hk Hi. unfold shl64, u64. change word with (2 ^ 64).
  destruct (k <? 64) eqn:E; boolp.
  - destruct (i <? 64) eqn:Ei; boolp; simpl.
    + rewrite Z.mod_pow2_bits_low, Z.shiftl_spec by lia.
      destruct (k <=? i) eqn:Ek; boolp; [done|]. apply Z.testbit_neg_r. lia.
    + by apply Z.mod_pow2_bits_high.
  - rewrite Z.bits_0. destruct (i <? 64) eqn:Ei; boolp; [|done].
    by destruct (k <=? i) eqn:Ek; boolp; [lia|].
Qed.

Lemma shr64_testbit a k i :
  0 <= k -> 0 <= i -> Z.testbit (shr64 a k) i = (k <? 64) && Z.testbit a (i + k).
Proof.
  intros Hk Hi. unfold shr64. destruct (k <? 64); [by apply Z.shiftr_spec|apply Z.bits_0].
Qed.

Lemma shl64_range a k : 0 <= shl64 a k < word.
Proof. unfold shl64. destruct (k <? 64); [apply u64_range|lia]. Qed.

Lemma word_high w i : 0 <= w < word -> 64 <= i -> Z.testbit w i = false.
Proof.
  intros Hw Hi. rewrite <- (Z.mod_small w (2 ^ 64)) by done. by apply Z.mod_pow2_bits_high.
Qed.

Lemma word_of_bits w : 0 <= w -> (forall i, 64 <= i -> Z.testbit w i = false) -> w < word.
Proof.
  intros Hw Hb. destruct (Z.lt_ge_cases w word) as [?|Hge]; [done|].
  assert (w <> 0) as Hw0 by lia. assert (64 <= Z.log2 w).
  { apply Z.log2_le_pow2; [lia|done]. }
  specialize (Hb (Z.log2 w)). rewrite Z.bit_log2 in Hb by lia. by discriminate Hb.
Qed.

Lemma nth_word bs i : words_ok bs -> 0 <= nth i bs 0 < word.
Proof.
  intros H. rewrite nth_lookup. destruct (bs !! i) eqn:E; simpl; [|lia].
  by eapply (proj1 (Forall_lookup _ _) H).
Qed.

Lemma nth_insert (l : list Z) i j x :
  nth j (<[i := x]> l) 0 = if decide (j = i /\ (i < length l)%nat) then x else nth j l 0.
Proof.
  rewrite !nth_lookup, list_lookup_insert. repeat case_decide; naive_solver.
Qed.

(** The bit of a shifted word. *)
Lemma Lsh_word_testbit sh bs i j :
  words_ok bs -> 0 <= sh -> 0 <= j < 64 ->
  Z.testbit (Lsh_word sh bs i) j =
    (sh <=? 64 * Z.of_nat i + j) && bit_at bs (64 * Z.of_nat i + j - sh).
Proof.
  intros Hw Hsh Hj. unfold Lsh_word, bit_at.
  pose proof (Z.div_mod sh 64 ltac:(lia)) as Hd. pose proof (Z.mod_pos_bound sh 64 ltac:(lia)) as Hr.
  assert (0 <= sh / 64) as Hq by (apply Z.div_pos; lia).
  set (q := sh / 64) in *. set (r := sh mod 64) in *.
  assert (Z.testbit (shl64 (nth i bs 0) sh) j =
    (q =? 0) && (r <=? j) && Z.testbit (nth i bs 0) (j - r)) as H0.
  { rewrite shl64_testbit by lia. destruct (q =? 0) eqn:Eq; boolp; simpl.
    - replace sh with r by lia. destruct (j <? 64) eqn:E; boolp; [done|lia].
    - destruct (sh <=? j) eqn:E; boolp; [lia|]. by rewrite andb_false_r. }
  rewrite Z.lor_spec, H0. clear H0.
  destruct (Nat.leb_spec (Z.to_nat q) i) as [Hi|Hi].
  2:{ rewrite Z.bits_0. destruct (q =? 0) eqn:Eq; boolp; [lia|].
      destruct (sh <=? _) eqn:E; boolp; [lia|done]. }
  assert (Z.testbit (shl64 (nth (i - Z.to_nat q) bs 0) r) j =
    (r <=? j) && Z.testbit (nth (i - Z.to_nat q) bs 0) (j - r)) as Hc.
  { rewrite shl64_testbit by lia. destruct (j <? 64) eqn:E; boolp; [done|lia]. }
  assert ((q =? 0) && (r <=? j) && Z.testbit (nth i bs 0) (j - r) =
    (q =? 0) && ((r <=? j) && Z.testbit (nth (i - Z.to_nat q) bs 0) (j - r))) as ->.
  { destruct (q =? 0) eqn:Eq; boolp; [|done]. rewrite Eq, Nat.sub_0_r. done. }
  destruct (r <=? j) eqn:Erj; boolp.
  - (* the bit comes from the word [q] below *)
    replace (64 * Z.of_nat i + j - sh) with ((j - r) + (Z.of_nat i - q) * 64) by lia.
    rewrite Z.div_add, Z.mod_add, (Z.div_small (j - r)), (Z.mod_small (j - r)) by lia.
    replace (Z.to_nat (0 + (Z.of_nat i - q))) with (i - Z.to_nat q)%nat by lia.
    destruct (sh <=? _) eqn:E; boolp; [|lia].
    destruct (Nat.leb_spec (Z.to_nat q + 1) i).
    + rewrite Z.lor_spec, Hc, shr64_testbit by lia.
      rewrite (word_high _ (j + (64 - r))) by (try apply nth_word; try done; lia).
      rewrite andb_false_r. destruct (q =? 0), (Z.testbit _ (j - r)); done.
    + rewrite Hc. destruct (q =? 0), (Z.testbit _ (j - r)); done.
  - (* it comes from the word below that, or from below the set *)
    rewrite andb_false_r. simpl orb.
    destruct (Nat.leb_spec (Z.to_nat q + 1) i).
    + replace (64 * Z.of_nat i + j - sh) with ((j + (64 - r)) + (Z.of_nat i - q - 1) * 64) by lia.
      rewrite Z.div_add, Z.mod_add, (Z.div_small (j + _)), (Z.mod_small (j + _)) by lia.
      replace (Z.to_nat (0 + (Z.of_nat i - q - 1))) with (i - Z.to_nat q - 1)%nat by lia.
      rewrite Z.lor_spec, Hc, shr64_testbit by lia.
      destruct (sh <=? _) eqn:E; boolp; [|lia].
      destruct (64 - r <? 64) eqn:E2; boolp; [done|lia].
    + rewrite Hc. destruct (sh <=? _) eqn:E; boolp; [lia|done].
Qed.

Lemma Lsh_loop_length sh k bs : length (Lsh_loop sh k bs) = length bs.
Proof. revert bs. induction k as [|k IH]; intros bs; simpl; [done|]. by rewrite IH, length_insert. Qed.

(** A word depends only on the words up to its own index. *)
Lemma Lsh_word_ext sh bs bs' i :
  (forall j, (j <= i)%nat -> nth j bs 0 = nth j bs' 0) -> Lsh_word sh bs i = Lsh_word sh bs' i.
Proof.
  intros H. unfold Lsh_word. rewrite (H i) by lia. f_equal.
  destruct (Nat.leb_spec (Z.to_nat (sh / 64)) i); [|done].
  rewrite (H (i - _)%nat) by lia. destruct (Nat.leb_spec (Z.to_nat (sh / 64) + 1) i); [|done].
  by rewrite (H (i - _ - 1)%nat) by lia.
Qed.

(** The in-place loop computes every word from the original ones. *)
Lemma Lsh_loop_nth sh k bs j :
  (k <= length bs)%nat ->
  nth j (Lsh_loop sh k bs) 0 = if decide (j < k)%nat then Lsh_word sh bs j else nth j bs 0.
Proof.
  revert bs. induction k as [|k IH]; intros bs Hk; simpl; [done|].
  rewrite IH by (rewrite length_insert; lia). rewrite nth_insert.
  repeat case_decide; try lia; try done.
  - apply Lsh_word_ext. intros i Hi. rewrite nth_insert, decide_False by lia. done.
  - destruct_and?. by subst.
Qed.

Lemma Lsh_word_range sh bs i : words_ok bs -> 0 <= sh -> 0 <= Lsh_word sh bs i < word.
Proof.
  intros Hw Hsh. pose proof (Z.mod_pos_bound sh 64 ltac:(lia)) as Hr.
  assert (forall a k, 0 <= a < word -> 0 <= k -> 0 <= shr64 a k < word) as Hs.
  { intros a k Ha Hk. unfold shr64. destruct (k <? 64); [|lia].
    rewrite Z.shiftr_div_pow2 by done. split; [apply Z.div_pos; lia|].
    apply Z.div_lt_upper_bound; [lia|]. assert (0 < 2 ^ k) by lia. nia. }
  assert (forall a b, 0 <= a < word -> 0 <= b < word -> 0 <= Z.lor a b < word) as Hl.
  { intros a b Ha Hb. assert (0 <= Z.lor a b) by (apply Z.lor_nonneg; lia). split; [done|].
    apply word_of_bits; [done|]. intros j Hj. by rewrite Z.lor_spec, !word_high. }
  unfold Lsh_word. apply Hl; [apply shl64_range|].
  destruct (_ <=? i)%nat; [|lia]. destruct (_ <=? i)%nat; [|apply shl64_range].
  apply Hl; [apply shl64_range|]. apply Hs; [by apply nth_word|lia].
Qed.

Lemma words_ok_nth bs : (forall i, (i < length bs)%nat -> 0 <= nth i bs 0 < word) -> words_ok bs.
Proof.
  intros H. apply Forall_lookup. intros i w Hi. pose proof (lookup_lt_Some _ _ _ Hi) as Hl.
  specialize (H i Hl). by rewrite nth_lookup, Hi in H.
Qed.

Lemma Lsh_whole_bits sh s :
  whole s -> 0 <= sh -> sh <> 0 -> bits (Lsh sh s) = Lsh_loop sh (length (bits s)) (bits s).
Proof.
  intros [Hl Hp Hm Hw] Hsh H0. unfold Lsh. destruct (sh =? 0) eqn:E; boolp; [done|]. simpl.
  set (top := (length (bits s) - 1)%nat).
  pose proof (Lsh_loop_nth sh (length (bits s)) (bits s) top ltac:(lia)) as Hn.
  rewrite decide_True in Hn by lia. rewrite Lsh_loop_length, Hm. fold top. rewrite Hn.
  pose proof (Lsh_word_range sh (bits s) top Hw Hsh) as Hr.
  change (word - 1) with (Z.ones 64). rewrite Z.land_ones, Z.mod_small by done.
  apply list_insert_id. rewrite nth_lookup in Hn.
  destruct (lookup_lt_is_Some_2 (Lsh_loop sh (length (bits s)) (bits s)) top) as [w Hw'];
    [rewrite Lsh_loop_length; lia|].
  rewrite Hw' in Hn |- *. simpl in Hn. by subst.
Qed.

Lemma whole_index s i :
  whole s -> 0 <= i < n s -> (Z.to_nat (i / 64) < length (bits s))%nat /\ 0 <= i / 64.
Proof.
  intros [Hl _ _ _] Hi. assert (i / 64 < Z.of_nat (length (bits s))) by (apply Z.div_lt_upper_bound; lia).
  assert (0 <= i / 64) by (apply Z.div_pos; lia). lia.
Qed.

Lemma Lsh_bit sh s i :
  whole s -> 0 <= sh -> 0 <= i < n s ->
  bit_at (bits (Lsh sh s)) i = (sh <=? i) && bit_at (bits s) (i - sh).
Proof.
  intros Hs Hsh Hi. destruct (decide (sh = 0)) as [->|H0].
  { unfold Lsh. rewrite Z.sub_0_r. by destruct (0 <=? i) eqn:E; boolp; [|lia]. }
  rewrite Lsh_whole_bits by done. unfold bit_at at 1.
  destruct (whole_index s i Hs Hi) as [Hlt Hq].
  rewrite Lsh_loop_nth, decide_True by lia.
  rewrite Lsh_word_testbit by (try apply Hs; try apply Z.mod_pos_bound; lia).
  pose proof (Z.div_mod i 64 ltac:(lia)).
  by replace (64 * Z.of_nat (Z.to_nat (i / 64)) + i mod 64) with i by lia.
Qed.

Lemma Lsh_whole sh s : whole s -> 0 <= sh -> whole (Lsh sh s).
Proof.
  intros Hs Hsh. destruct (decide (sh = 0)) as [->|H0]; [done|].
  pose proof (Lsh_whole_bits sh s Hs Hsh H0) as Hb. destruct Hs as [Hl Hp Hm Hw].
  split; rewrite ?Hb, ?Lsh_loop_length; try (unfold Lsh; destruct (sh =? 0); done).
  apply words_ok_nth. intros i Hi. rewrite Lsh_loop_length in Hi.
  rewrite Lsh_loop_nth, decide_True by lia. by apply Lsh_word_range.
Qed.

Lemma SetBit_whole i s : whole s -> 0 <= i -> whole (SetBit i s).
Proof.
  intros Hs Hi. unfold SetBit. destruct (n s <=? i) eqn:E; boolp; [done|].
  destruct Hs as [Hl Hp Hm Hw]. split; simpl; rewrite ?length_insert; try done.
  apply words_ok_nth. intros j Hj. rewrite nth_insert. pose proof (nth_word (bits s) j Hw).
  case_decide; [|done].
  pose proof (nth_word (bits s) (Z.to_nat (i / 64)) Hw). pose proof (shl64_range 1 (i mod 64)).
  assert (0 <= Z.lor (nth (Z.to_nat (i / 64)) (bits s) 0) (shl64 1 (i mod 64)))
    by (apply Z.lor_nonneg; lia).
  split; [done|]. apply word_of_bits; [done|]. intros b Hb. by rewrite Z.lor_spec, !word_high.
Qed.

Lemma shl1_testbit p j : 0 <= p < 64 -> 0 <= j < 64 -> Z.testbit (shl64 1 p) j = (j =? p).
Proof.
  intros Hp Hj. rewrite shl64_testbit by lia. destruct (j <? 64) eqn:E1; boolp; [simpl|lia].
  destruct (j =? p) eqn:E2; boolp.
  - subst. by rewrite Z.leb_refl, Z.sub_diag.
  - destruct (p <=? j) eqn:E3; boolp; [|done]. simpl.
    change 1 with (2 ^ 0). apply Z.pow2_bits_false. lia.
Qed.

Lemma SetBit_bit i j s :
  whole s -> 0 <= i < n s -> 0 <= j < n s ->
  bit_at (bits (SetBit i s)) j = (i =? j) || bit_at (bits s) j.
Proof.
  intros Hs Hi Hj. unfold SetBit. destruct (n s <=? i) eqn:E; boolp; [lia|]. clear E.
  destruct (whole_index s i Hs Hi) as [Hli Hqi]. destruct (whole_index s j Hs Hj) as [Hlj Hqj].
  unfold bit_at. simpl. rewrite nth_insert.
  pose proof (Z.mod_pos_bound i 64 ltac:(lia)). pose proof (Z.mod_pos_bound j 64 ltac:(lia)).
  pose proof (Z.div_mod i 64 ltac:(lia)). pose proof (Z.div_mod j 64 ltac:(lia)).
  case_decide as D.
  - destruct D as [D _]. apply Z2Nat.inj in D; [|done..]. rewrite Z.lor_spec, shl1_testbit by done.
    rewrite D, orb_comm. f_equal. destruct (j mod 64 =? i mod 64) eqn:E1, (i =? j) eqn:E2; boolp; lia.
  - destruct (i =? j) eqn:E2; boolp; [|done]. subst. by destruct D.
Qed.

Lemma Bit_eq i s :
  whole s -> 0 <= i < n s -> Bit i s = if bit_at (bits s) i then 1 else 0.
Proof.
  intros Hs Hi. unfold Bit. destruct (n s <=? i) eqn:E; boolp; [lia|].
  pose proof (Z.mod_pos_bound i 64 ltac:(lia)) as Hm. unfold bit_at.
  set (w := nth _ _ _). destruct (Z.testbit w (i mod 64)) eqn:Eb.
  - destruct (Z.land w _ =? 0) eqn:El; boolp; [|done].
    assert (Z.testbit (Z.land w (shl64 1 (i mod 64))) (i mod 64) = false) as Hf
      by (rewrite El; apply Z.bits_0).
    by rewrite Z.land_spec, Eb, shl1_testbit, Z.eqb_refl in Hf by lia.
  - assert (Z.land w (shl64 1 (i mod 64)) = 0) as ->; [|done].
    apply Z.bits_inj_0. intros j. destruct (Z.lt_ge_cases j 0); [by apply Z.testbit_neg_r|].
    rewrite Z.land_spec. destruct (Z.lt_ge_cases j 64).
    + rewrite shl1_testbit by lia. destruct (j =? i mod 64) eqn:Ej; boolp; [|apply andb_false_r].
      by rewrite Ej, Eb.
    + rewrite (word_high (shl64 _ _)) by (try apply shl64_range; done). apply andb_false_r.
Qed.

Lemma n_Lsh sh s : n (Lsh sh s) = n s.
Proof. unfold Lsh. by destruct (sh =? 0). Qed.

Lemma n_SetBit i s : n (SetBit i s) = n s.
Proof. unfold SetBit. by destruct (n s <=? i). Qed.

Lemma new_whole k : 0 < k -> whole (newFixedBigInt (64 * k)).
Proof.
  intros Hk. unfold newFixedBigInt. rewrite (Z.mul_comm 64 k), Z.mod_mul by lia.
  replace ((k * 64 + 63) / 64) with k by (rewrite Z.div_add_l by lia; change (63 / 64) with 0; lia).
  destruct (k =? 0) eqn:E; boolp; [lia|]. split; simpl; rewrite ?length_replicate; try lia.
  - done.
  - apply Forall_replicate. lia.
Qed.

Lemma new_bit size i : bit_at (bits (newFixedBigInt size)) i = false.
Proof.
  unfold bit_at, newFixedBigInt. simpl. rewrite nth_lookup.
  destruct (replicate _ 0 !! _) eqn:E; simpl; [|apply Z.bits_0].
  apply lookup_replicate in E as [-> _]. apply Z.bits_0.
Qed.

End Bits.

(** * The detector against its specification *)

(** The detector after the closures of [hist] have run, the most recent
    first in the list. *)
Definition accepted (window max : Z) (hist : list Z) : option slidingWindowDetector :=
  foldr (fun seq d => d ≫= accept seq) (Some (New window max)) hist.

(** The specification: the largest number accepted so far, 0 at the start. *)
Definition highest (hist : list Z) : Z := foldr Z.max 0 hist.

(** The detector represents the history [hist]. *)
Record rep (window max : Z) (hist : list Z) (d : slidingWindowDetector) : Prop := {
  rep_latest : latestSeq d = highest hist;
  rep_max : maxSeq d = max;
  rep_window : windowSize d = window;
  rep_n : FixedBigInt.n (mask d) = window;
  rep_whole : whole (mask d);
  rep_bits : forall i, 0 <= i < window ->
    bit_at (FixedBigInt.bits (mask d)) i = true <-> highest hist - i ∈ hist;
}.

Lemma highest_upper hist x : x ∈ hist -> x <= highest hist.
Proof. induction 1; simpl; lia. Qed.

Lemma highest_nonneg hist : 0 <= highest hist.
Proof. induction hist; simpl; lia. Qed.

Lemma highest_in hist : highest hist <> 0 -> highest hist ∈ hist.
Proof.
  induction hist as [|x hist IH]; simpl; [done|]. intros H.
  destruct (Z.max_spec x (highest hist)) as [[? E]|[? E]]; rewrite E in *; [right; auto|by left].
Qed.

Lemma highest_range max hist : 0 <= max -> Forall (fun x => 0 <= x <= max) hist -> highest hist <= max.
Proof. intros Hm. induction 1; simpl; lia. Qed.

Section Detector.
Context (k max : Z) (Hk : 0 < k) (Hwin : 64 * k <= max) (Hmax : max + 64 * k < word).

Lemma rep_new : rep (64 * k) max [] (New (64 * k) max).
Proof using Hk.
  split; try done; [by apply new_whole|].
  intros i Hi. unfold New. cbn [mask]. rewrite new_bit. split; [done|]. intros H. by apply elem_of_nil in H.
Qed.

(** Moving the head of the window to a larger number. *)
Lemma rep_shift hist d seq i :
  rep (64 * k) max hist d -> Forall (fun x => 0 <= x <= max) hist ->
  highest hist < seq <= max -> 0 <= i < 64 * k ->
  bit_at (FixedBigInt.bits (FixedBigInt.Lsh (u64 (seq - latestSeq d)) (mask d))) i = true <->
  i <> 0 /\ seq - i ∈ hist.
Proof using Hk Hmax.
  intros [Hl Hm Hw Hn Hwh Hb] Hh Hseq Hi. pose proof (highest_nonneg hist).
  rewrite u64_small, Lsh_bit by (try done; lia). rewrite Hl.
  destruct (seq - highest hist <=? i) eqn:E; boolp; simpl.
  - rewrite Hb by lia. replace (highest hist - (i - (seq - highest hist))) with (seq - i) by lia.
    split; [|naive_solver]. split; [lia|done].
  - split; [done|]. intros [_ Hin%highest_upper]. lia.
Qed.

Lemma rep_accept hist d seq :
  rep (64 * k) max hist d -> Forall (fun x => 0 <= x <= max) hist -> 0 <= seq <= max ->
  exists d', accept seq d = Some d' /\ rep (64 * k) max (seq :: hist) d'.
Proof using Hk Hwin Hmax.
  intros Hrep Hh Hseq. pose proof Hrep as [Hl Hm Hw Hn Hwh Hb].
  pose proof (highest_nonneg hist). pose proof (highest_range max hist ltac:(lia) Hh).
  unfold accept. destruct (latestSeq d <? seq) eqn:E; boolp; rewrite Hl in E; simpl;
    rewrite Hm; (destruct (max =? 0) eqn:E0; boolp; [lia|]); eexists; (split; [done|]).
  - rewrite Z.sub_diag. change (u64 0) with 0. rewrite Z.mod_0_l by lia.
    assert (whole (FixedBigInt.Lsh (u64 (seq - latestSeq d)) (mask d))) as Hwh'.
    { apply Lsh_whole; [done|]. apply u64_range. }
    assert (FixedBigInt.n (FixedBigInt.Lsh (u64 (seq - latestSeq d)) (mask d)) = 64 * k) as Hn'.
    { by rewrite n_Lsh. }
    split; simpl; try done.
    + lia.
    + by rewrite n_SetBit.
    + by apply SetBit_whole.
    + intros i Hi. rewrite SetBit_bit, orb_true_iff, Z.eqb_eq by (rewrite ?Hn'; done || lia).
      rewrite (rep_shift hist) by (done || lia).
      replace (Z.max seq (highest hist)) with seq by lia. rewrite elem_of_cons. split.
      * intros [<-|[_ ?]]; [left; lia|by right].
      * intros [?|?]; [left; lia|]. destruct (decide (0 = i)); [by left|right; by split].
  - rewrite Hl, (u64_small (highest hist - seq)) by lia.
    assert (Z.max seq (highest hist) = highest hist) as Hmx by lia.
    split; simpl; try done.
    + by rewrite n_SetBit.
    + apply SetBit_whole; [done|]. apply Z.mod_pos_bound. lia.
    + intros i Hi. rewrite Hmx, elem_of_cons. rewrite <- Hb by done.
      destruct (decide (highest hist - seq = max)) as [Ed|Ed].
      * rewrite Ed, Z.mod_same by lia.
        rewrite SetBit_bit, orb_true_iff, Z.eqb_eq by (done || lia). split.
        -- intros [<-|?]; [|by right]. right. apply Hb; [lia|]. rewrite Z.sub_0_r.
           apply highest_in. lia.
        -- intros [?|?]; [lia|by right].
      * rewrite Z.mod_small by lia. destruct (decide (highest hist - seq < 64 * k)).
        -- rewrite SetBit_bit, orb_true_iff, Z.eqb_eq by (done || lia).
           split; (intros [?|?]; [left; lia|by right]).
        -- unfold FixedBigInt.SetBit. destruct (_ <=? _) eqn:En; boolp; [|lia].
           split; [by right|]. intros [?|?]; [lia|done].
Qed.

Lemma rep_accepted hist :
  Forall (fun x => 0 <= x <= max) hist ->
  exists d, accepted (64 * k) max hist = Some d /\ rep (64 * k) max hist d.
Proof using Hk Hwin Hmax.
  induction 1 as [|seq hist Hs Hh (d & Hd & Hr)]; simpl.
  - eexists; split; [done|apply rep_new].
  - rewrite Hd. simpl. by apply rep_accept.
Qed.

Lemma rep_check hist d seq :
  rep (64 * k) max hist d -> Forall (fun x => 0 <= x <= max) hist -> 0 <= seq < word ->
  Check_ok d seq = true <->
  seq <= max /\ (highest hist < seq \/ (highest hist - seq < 64 * k /\ seq ∉ hist)).
Proof using Hk Hwin Hmax.
  intros [Hl Hm Hw Hn Hwh Hb] Hh Hseq.
  pose proof (highest_nonneg hist). pose proof (highest_range max hist ltac:(lia) Hh).
  unfold Check_ok. rewrite Hm, Hl, Hw.
  destruct (max <? seq) eqn:E1; boolp; [split; [done|lia]|].
  destruct (seq <=? highest hist) eqn:E2; boolp; [|split; [|done]; intros _; split; [done|by left]].
  rewrite (u64_small (64 * k + seq)), (u64_small (highest hist - seq)) by lia.
  destruct (64 * k + seq <=? highest hist) eqn:E3; boolp; [split; [done|lia]|].
  rewrite Bit_eq by (done || lia). specialize (Hb (highest hist - seq) ltac:(lia)).
  replace (highest hist - (highest hist - seq)) with seq in Hb by lia.
  destruct (bit_at _ _); simpl; split; try done.
  - intros [_ [?|[_ Hn']]]; [lia|]. by destruct Hn'; apply Hb.
  - intros _. split; [done|]. right. split; [lia|]. intros Hin. by apply Hb in Hin.
Qed.

End Detector.

(** * Theorems *)

(** C26. The replay detector is exact: for a window of whole words that is not above the
    maximal number, the two of them together below 2^64, whatever
    numbers have been accepted so far and in whatever order the accept
    closures ran, [Check] lets a number pass exactly when it does not exceed
    the maximum and is either beyond the highest one accepted or inside the
    window below it and never accepted before; no accept panics. *)
Theorem replay_detector_correct (k max : Z) (hist : list Z) (seq : Z) :
  0 < k -> 64 * k <= max -> max + 64 * k < word ->
  Forall (fun x => 0 <= x <= max) hist -> 0 <= seq < word ->
  exists d, accepted (64 * k) max hist = Some d /\
    (Check_ok d seq = true <->
     seq <= max /\ (highest hist < seq \/ (highest hist - seq < 64 * k /\ seq ∉ hist))).
Proof.
  intros Hk Hw Hm Hh Hs. destruct (rep_accepted k max Hk Hw Hm hist Hh) as (d & Hd & Hr).
  exists d. split; [done|]. by apply (rep_check k max Hk Hw Hm).
Qed.

Lemma replay_detector_correct_witness :
  exists d, accepted 64 65535 [20; 40] = Some d /\
    (Check_ok d 20 = true <->
     20 <= 65535 /\ (highest [20; 40] < 20 \/ (highest [20; 40] - 20 < 64 /\ 20 ∉ [20; 40]))).
Proof.
  apply (replay_detector_correct 1 65535 [20; 40] 20); try lia.
  repeat constructor; lia.
Defined.

(** A wrapping detector as [WithWrap] makes it for a window of whole words,
    or as it is after any calls. *)
Record wrapped_ok (d : Wrapped.detector) : Prop := {
  wo_max : 2 <= Wrapped.maxSeq d < 2 ^ 62;
  wo_latest : 0 <= Wrapped.latestSeq d <= Wrapped.maxSeq d;
  wo_window : Wrapped.windowSize d = FixedBigInt.n (Wrapped.mask d);
  wo_n : FixedBigInt.n (Wrapped.mask d) < 2 ^ 62;
  wo_whole : whole (Wrapped.mask d);
}.

(** The distance, without machine arithmetic. *)
Lemma wrapped_diff d seq :
  wrapped_ok d -> 0 <= seq <= Wrapped.maxSeq d ->
  let raw := Wrapped.latestSeq d - seq in
  Wrapped.diff d seq =
    if Wrapped.maxSeq d / 2 <? raw then raw - (Wrapped.maxSeq d + 1)
    else if raw <=? - (Wrapped.maxSeq d / 2) then raw + (Wrapped.maxSeq d + 1) else raw.
Proof.
  intros [Hm Hl _ _ _] Hs raw. unfold Wrapped.diff.
  rewrite (i64_small (Wrapped.latestSeq d)), (i64_small seq), (i64_small (Wrapped.maxSeq d)) by lia.
  rewrite (u64_small (Wrapped.maxSeq d + 1)), (i64_small (Wrapped.maxSeq d + 1)) by lia.
  fold raw. rewrite (i64_small raw) by lia. rewrite (i64_small (- Wrapped.maxSeq d)) by lia.
  rewrite Z.quot_opp_l, Z.quot_div_nonneg by lia.
  destruct (_ <? raw); [apply i64_small; lia|]. destruct (raw <=? _); [apply i64_small; lia|done].
Qed.

Lemma wrapped_placed seq d :
  wrapped_ok d -> 0 <= seq <= Wrapped.maxSeq d ->
  let d1 := fst (Wrapped.Check seq d) in
  wrapped_ok d1 /\ Wrapped.init d1 = true /\ Wrapped.maxSeq d1 = Wrapped.maxSeq d /\
  Wrapped.Check seq d1 = Wrapped.Check seq d.
Proof.
  intros [Hm Hl Hw Hn Hwh] Hs d1. unfold d1, Wrapped.Check.
  destruct (_ <? seq) eqn:E; boolp; [lia|]. destruct (Wrapped.init d) eqn:Ei; simpl.
  - rewrite Ei. split_and!; try done. destruct (_ <? seq) eqn:E'; boolp; [lia|done].
  - split_and!; try done; [split; simpl; try done; destruct (negb _) eqn:E0; boolp; lia|].
    destruct (_ <? seq) eqn:E'; boolp; [lia|done].
Qed.

(** [Check] of a number already placed in the window. *)
Lemma wrapped_check seq d :
  wrapped_ok d -> Wrapped.init d = true -> 0 <= seq <= Wrapped.maxSeq d ->
  snd (Wrapped.Check seq d) =
    (Wrapped.diff d seq <? Wrapped.windowSize d) &&
    negb ((0 <=? Wrapped.diff d seq) &&
          bit_at (FixedBigInt.bits (Wrapped.mask d)) (Wrapped.diff d seq)).
Proof.
  intros Hok Hi Hs. pose proof Hok as [Hm Hl Hw Hn Hwh]. pose proof (wh_pos _ Hwh).
  pose proof (Z.div_pos (Wrapped.maxSeq d) 2 ltac:(lia) ltac:(lia)) as H2.
  assert (Wrapped.maxSeq d / 2 <= Wrapped.maxSeq d) by (apply Z.div_le_upper_bound; lia).
  assert (- (Wrapped.maxSeq d + 1) <= Wrapped.diff d seq <= Wrapped.maxSeq d + 1) as Hd.
  { rewrite wrapped_diff by done. destruct (_ <? _) eqn:E1; boolp; [lia|].
    destruct (_ <=? _) eqn:E2; boolp; lia. }
  unfold Wrapped.Check. rewrite Hi. destruct (_ <? seq) eqn:E; boolp; [lia|]. simpl.
  rewrite (i64_small (Wrapped.windowSize d)) by lia.
  destruct (_ <=? Wrapped.diff d seq) eqn:E1, (_ <? Wrapped.windowSize d) eqn:E2; boolp; try done; try lia.
  destruct (0 <=? Wrapped.diff d seq) eqn:E3; boolp; [|done].
  rewrite u64_small, Bit_eq by (done || lia). by destruct (bit_at _ _).
Qed.

(** After the window has moved to [seq], its number is marked. *)
Lemma replay_of_new_head d seq :
  wrapped_ok d -> Wrapped.init d = true -> 0 <= seq <= Wrapped.maxSeq d ->
  Wrapped.diff d seq < 0 ->
  snd (Wrapped.Check seq (Wrapped.accept seq (Wrapped.diff d seq) d)) = false.
Proof.
  intros Hok Hi Hs En. pose proof Hok as [Hm Hl Hw Hn Hwh]. pose proof (wh_pos _ Hwh) as Hp.
  assert (1 <= Wrapped.maxSeq d / 2) as H2 by (apply Z.div_le_lower_bound; lia).
  assert (Wrapped.maxSeq d / 2 <= Wrapped.maxSeq d) as H3 by (apply Z.div_le_upper_bound; lia).
  unfold Wrapped.accept. rewrite (proj2 (Z.ltb_lt _ 0)) by done. simpl.
  rewrite Z.sub_diag. change (u64 0) with 0. set (mk := FixedBigInt.Lsh _ _).
  assert (whole mk /\ FixedBigInt.n mk = FixedBigInt.n (Wrapped.mask d)) as [Hmk Hnk].
  { split; [apply Lsh_whole; [done|apply u64_range]|]. apply n_Lsh. }
  assert (FixedBigInt.n (FixedBigInt.SetBit 0 mk) = FixedBigInt.n mk) as Hns by apply n_SetBit.
  rewrite wrapped_check; simpl; try done; [|split; simpl; try (by apply SetBit_whole); lia].
  rewrite wrapped_diff; simpl; [|split; simpl; try (by apply SetBit_whole); lia|done].
  rewrite Z.sub_diag. destruct (_ <? 0) eqn:Ea; boolp; [lia|].
  destruct (0 <=? - _) eqn:Eb; boolp; [lia|].
  rewrite SetBit_bit by (done || lia). simpl. by rewrite andb_false_r.
Qed.

(** Accepting an older packet from before the wrap leaves no mark. *)
Lemma no_mark_across_wrap d seq :
  wrapped_ok d -> 0 <= seq <= Wrapped.maxSeq d -> 0 <= Wrapped.diff d seq ->
  Wrapped.latestSeq d < seq ->
  Wrapped.accept seq (Wrapped.diff d seq) d = d.
Proof.
  intros [Hm Hl Hw Hn Hwh] Hs Hd Hlt. pose proof (wh_pos _ Hwh) as Hp.
  unfold Wrapped.accept. destruct (Wrapped.diff d seq <? 0) eqn:En; boolp; [lia|].
  assert (FixedBigInt.SetBit (u64 (Wrapped.latestSeq d - seq)) (Wrapped.mask d)
    = Wrapped.mask d) as ->; [|by destruct d].
  unfold FixedBigInt.SetBit. destruct (FixedBigInt.n _ <=? _) eqn:Eb; boolp; [done|]. exfalso.
  unfold u64 in Eb. rewrite <- (Z.mod_add _ 1), Z.mod_small in Eb by lia. lia.
Qed.

(** Any other older packet is marked at its distance. *)
Lemma replay_of_older d seq :
  wrapped_ok d -> Wrapped.init d = true -> 0 <= seq <= Wrapped.latestSeq d ->
  0 <= Wrapped.diff d seq < Wrapped.windowSize d ->
  snd (Wrapped.Check seq (Wrapped.accept seq (Wrapped.diff d seq) d)) = false.
Proof.
  intros Hok Hi Hs Hd. pose proof Hok as [Hm Hl Hw Hn Hwh]. pose proof (wh_pos _ Hwh) as Hp.
  assert (0 <= seq <= Wrapped.maxSeq d) as Hs' by lia.
  assert (1 <= Wrapped.maxSeq d / 2) as H2 by (apply Z.div_le_lower_bound; lia).
  assert (Wrapped.diff d seq = Wrapped.latestSeq d - seq) as Hraw.
  { pose proof (wrapped_diff d seq Hok Hs') as Hdf. simpl in Hdf. rewrite Hdf in Hd |- *.
    destruct (_ <? _) eqn:Ea; boolp; [lia|]. destruct (_ <=? - _) eqn:Eb; boolp; lia. }
  unfold Wrapped.accept. destruct (Wrapped.diff d seq <? 0) eqn:En; boolp; [lia|]. simpl.
  rewrite u64_small by lia. set (mk := FixedBigInt.SetBit _ _).
  assert (whole mk /\ FixedBigInt.n mk = FixedBigInt.n (Wrapped.mask d)) as [Hmk Hnk].
  { split; [apply SetBit_whole; [done|lia]|]. apply n_SetBit. }
  rewrite wrapped_check; simpl; try done; [|split; simpl; try done; lia].
  unfold Wrapped.diff at 2 3. simpl. fold (Wrapped.diff d seq).
  change (Wrapped.diff _ seq) with (Wrapped.diff d seq) at 1. rewrite Hraw.
  unfold mk. rewrite SetBit_bit, Z.eqb_refl by (done || lia). simpl.
  rewrite (proj2 (Z.leb_le 0 _)) by lia. simpl. by rewrite andb_false_r.
Qed.

(** When the wrapping detector has just let a packet pass and accepted
    it, the same packet sent again passes again exactly when its number is
    numerically above the head of the window, that is when it is an older
    packet from before the sequence number wrapped: such packets are never
    marked, so they can be replayed; every other immediate replay is
    rejected. *)
Theorem wrapped_replay_only_across_wrap (d d' : Wrapped.detector) (seq : Z) :
  wrapped_ok d -> 0 <= seq <= Wrapped.maxSeq d ->
  Wrapped.receive seq d = (d', true) ->
  snd (Wrapped.Check seq d') = true <-> Wrapped.latestSeq d' < seq.
Proof.
  intros Hok0 Hs0 E. unfold Wrapped.receive in E.
  destruct (wrapped_placed seq d Hok0 Hs0) as (Hok & Hi & Emax & Ec).
  rewrite <- Emax in Hs0. rename Hs0 into Hs. rewrite <- Ec in E.
  set (d1 := fst (Wrapped.Check seq d)) in *.
  destruct (Wrapped.Check seq d1) as [d2 ok] eqn:E1. destruct ok; [|done].
  assert (d2 = d1) as ->.
  { unfold Wrapped.Check in E1. rewrite Hi in E1. destruct (_ <? seq); by injection E1. }
  injection E as <-. clear Ec. clearbody d1. pose proof (wrapped_check seq d1 Hok Hi Hs) as Hc.
  rewrite E1 in Hc. simpl in Hc. symmetry in Hc. apply andb_true_iff in Hc as [Hdw _]. boolp.
  destruct (Z.lt_ge_cases (Wrapped.diff d1 seq) 0) as [Hneg|Hpos].
  - rewrite replay_of_new_head by done. unfold Wrapped.accept.
    rewrite (proj2 (Z.ltb_lt _ 0)) by done. simpl. split; [done|lia].
  - destruct (Z.lt_ge_cases (Wrapped.latestSeq d1) seq) as [Hlt|Hge].
    + rewrite no_mark_across_wrap by done. by rewrite E1.
    + rewrite replay_of_older by (done || lia). unfold Wrapped.accept.
      rewrite (proj2 (Z.ltb_ge _ 0)) by done. simpl. split; [done|lia].
Qed.

Definition wrap_run (l : list Z) : Wrapped.detector :=
  foldl (fun d s => fst (Wrapped.receive s d)) (Wrapped.WithWrap 64 65535) l.

Lemma wrapped_replay_only_across_wrap_witness :
  let d := wrap_run [65533; 65534; 1] in
  let d' := fst (Wrapped.receive 65535 d) in
  snd (Wrapped.Check 65535 d') = true <-> Wrapped.latestSeq d' < 65535.
Proof.
  intros d d'. apply (wrapped_replay_only_across_wrap d d' 65535).
  - split; [vm_compute; split; congruence..|vm_compute; reflexivity|vm_compute; reflexivity|].
    split; [vm_compute; reflexivity..|].
    assert (FixedBigInt.bits (Wrapped.mask d) = [25]) as -> by (vm_compute; reflexivity).
    repeat constructor; lia.
  - vm_compute. split; congruence.
  - vm_compute. reflexivity.
Defined.

(** With a window that is not a whole number of 64-bit words the detector
    forgets: with a window of 48, after 20 and 40 have been accepted, 20 is
    accepted a second time although it is inside the window, because the shift
    masks away all but the low 16 bits of the set. *)
Theorem window_48_accepts_replay :
  exists d, accepted 48 65535 [40; 20] = Some d /\ latestSeq d - 20 < windowSize d /\
    Check_ok d 20 = true /\ FixedBigInt.msbMask (mask d) = 2 ^ 16 - 1.
Proof. eexists. split; [vm_compute; reflexivity|]. split_and!; reflexivity. Qed.
