(* ===== verification/Deadline.v ===== *)
(** Deadlines that can be moved: lib/pion-transport/deadline/deadline.go.

    A [Deadline] owns one [time.Timer] and a channel that is closed when the
    deadline passes.  The runtime runs the timer's callback [timeout] in a
    goroutine of its own, so a callback may be outstanding while [Set] is
    called, several may be outstanding at once, and the channel is closed
    after the lock has been released.  Each of these is a step of [dstep].
    Channels are numbered in the order they are made. *)

From S2P Require Import Prelude.

Inductive deadlineState := deadlineStopped | deadlineStarted | deadlineExceeded.

#[export] Instance deadlineState_eq_dec : EqDecision deadlineState.
Proof. solve_decision. Defined.

(** [timer] is nil ([None]), not running, or running and due at a time;
    [deadline] is [None] for the zero time. *)
Record Deadline := {
  timer : option (option Z);
  done : nat;
  deadline : option Z;
  state : deadlineState;
  pending : Z;
}.

(** A deadline in its environment: the clock, the callbacks the runtime has
    started that have not taken the lock yet, the channels callbacks are about
    to close, the closed channels, and whether a run-time panic occurred. *)
Record world := {
  dl : Deadline;
  now : Z;
  inflight : nat;
  closing : list nat;
  closed : gset nat;
  panicked : bool;
}.

(** [New]. *)
Definition New : Deadline :=
  {| timer := None; done := 0; deadline := None; state := deadlineStopped; pending := 0 |}.

Definition with_dl (d : Deadline) (w : world) : world :=
  {| dl := d; now := now w; inflight := inflight w; closing := closing w; closed := closed w;
     panicked := panicked w |}.

(** [close(ch)]: closing a closed channel panics. *)
Definition close_chan (ch : nat) (w : world) : world :=
  if decide (ch ∈ closed w)
  then {| dl := dl w; now := now w; inflight := inflight w; closing := closing w;
          closed := closed w; panicked := true |}
  else {| dl := dl w; now := now w; inflight := inflight w; closing := closing w;
          closed := {[ ch ]} ∪ closed w; panicked := panicked w |}.

Definition panic (w : world) : world :=
  {| dl := dl w; now := now w; inflight := inflight w; closing := closing w;
     closed := closed w; panicked := true |}.

(** The part of [timeout] under the lock: the deadline afterwards, and the
    channel to close once the lock is released. *)
Definition timeout (d : Deadline) : Deadline * option nat :=
  let p := u8 (pending d - 1) in
  let d1 := {| timer := timer d; done := done d; deadline := deadline d; state := state d;
               pending := p |} in
  if negb (p =? 0) || negb (bool_decide (state d1 = deadlineStarted)) then (d1, None)
  else ({| timer := timer d1; done := done d1; deadline := deadline d1;
           state := deadlineExceeded; pending := p |}, Some (done d1)).

(** [Set], called with the lock free; [timer.Stop] reports whether it stopped
    a running timer. *)
Definition Set_ (t : option Z) (w : world) : world :=
  let d := dl w in
  match state d, timer d with
  | deadlineStarted, None => panic w
  | _, _ =>
      let stops := bool_decide (state d = deadlineStarted) in
      let stopped := match timer d with Some (Some _) => stops | _ => false end in
      let timer1 := if stops then Some None else timer d in
      let p1 := if stopped then u8 (pending d - 1) else pending d in
      let p2 := u8 (p1 + 1) in
      let done1 := if bool_decide (state d = deadlineExceeded) then S (done d) else done d in
      match t with
      | None =>
          with_dl {| timer := timer1; done := done1; deadline := None;
                     state := deadlineStopped; pending := u8 (p2 - 1) |} w
      | Some at_ =>
          if 0 <? at_ - now w
          then with_dl {| timer := Some (Some at_); done := done1; deadline := Some at_;
                          state := deadlineStarted; pending := p2 |} w
          else close_chan done1
                 (with_dl {| timer := timer1; done := done1; deadline := Some at_;
                             state := deadlineExceeded; pending := u8 (p2 - 1) |} w)
      end
  end.

(** [Err]: whether it returns [context.DeadlineExceeded]. *)
Definition Err_ (d : Deadline) : bool := bool_decide (state d = deadlineExceeded).

(** [Deadline.Deadline]. *)
Definition Deadline_ (d : Deadline) : option Z := deadline d.

(** * Steps *)

(** What the runtime does on its own: a due timer starts a callback, a
    callback takes the lock, a callback closes its channel. *)
Inductive rstep : world -> world -> Prop :=
| rs_fire w at_ :
    timer (dl w) = Some (Some at_) -> at_ <= now w ->
    rstep w
      {| dl := {| timer := Some None; done := done (dl w); deadline := deadline (dl w);
                  state := state (dl w); pending := pending (dl w) |};
         now := now w; inflight := S (inflight w); closing := closing w; closed := closed w;
         panicked := panicked w |}
| rs_timeout w n d ch :
    inflight w = S n -> timeout (dl w) = (d, ch) ->
    rstep w
      {| dl := d; now := now w; inflight := n;
         closing := match ch with Some c => c :: closing w | None => closing w end;
         closed := closed w; panicked := panicked w |}
| rs_close w l1 ch l2 :
    closing w = l1 ++ ch :: l2 ->
    rstep w (close_chan ch
      {| dl := dl w; now := now w; inflight := inflight w; closing := l1 ++ l2;
         closed := closed w; panicked := panicked w |}).

(** The runtime, time passing, and users calling [Set]. *)
Inductive dstep : world -> world -> Prop :=
| ds_runtime w w' : rstep w w' -> dstep w w'
| ds_wait w d : 0 <= d ->
    dstep w {| dl := dl w; now := now w + d; inflight := inflight w; closing := closing w;
               closed := closed w; panicked := panicked w |}
| ds_set w t : dstep w (Set_ t w).

(** At most 255 callbacks of a deadline are outstanding, and the steps that
    keep to this: [pending] counts them modulo 256. *)
Definition few (w : world) : Prop := (inflight w <= 255)%nat.
Definition bounded (w w' : world) : Prop := dstep w w' /\ few w'.

Definition init (t : Z) : world :=
  {| dl := New; now := t; inflight := 0; closing := []; closed := ∅; panicked := false |}.

(** The channel readers wait on is closed; the deadline has passed. *)
Definition signalled (w : world) : Prop := done (dl w) ∈ closed w.
Definition due (w : world) : Prop := exists t, deadline (dl w) = Some t /\ t <= now w.

(** * The invariant *)

Definition running (d : Deadline) : nat :=
  match timer d with Some (Some _) => 1 | _ => 0 end.

Record dinv (w : world) : Prop := {
  di_safe : panicked w = false;
  di_pending : pending (dl w) = u8 (Z.of_nat (running (dl w) + inflight w));
  di_inflight : (inflight w <= 255)%nat;
  di_running : forall t, timer (dl w) = Some (Some t) ->
    state (dl w) = deadlineStarted /\ deadline (dl w) = Some t;
  di_started : state (dl w) = deadlineStarted ->
    timer (dl w) <> None /\
    (running (dl w) = 1%nat \/ (due w /\ (0 < inflight w)%nat));
  di_stopped : state (dl w) = deadlineStopped -> deadline (dl w) = None;
  di_exceeded : state (dl w) = deadlineExceeded ->
    due w /\ (done (dl w) ∈ closed w \/ done (dl w) ∈ closing w);
  di_open : state (dl w) <> deadlineExceeded ->
    done (dl w) ∉ closed w /\ done (dl w) ∉ closing w;
  di_closing : NoDup (closing w) /\ (forall c, c ∈ closing w -> c ∉ closed w);
  di_old : forall c, c ∈ closed w \/ c ∈ closing w -> (c <= done (dl w))%nat;
  di_past : forall c, (c < done (dl w))%nat -> c ∈ closed w \/ c ∈ closing w;
}.

#[local] Arguments u8 : simpl never.

Lemma u8_small n : 0 <= n < 256 -> u8 n = n.
Proof. apply Z.mod_small. Qed.

Lemma u8_pred n : u8 (u8 n - 1) = u8 (n - 1).
Proof. unfold u8. apply Zminus_mod_idemp_l. Qed.

Lemma u8_succ n : u8 (u8 n + 1) = u8 (n + 1).
Proof. unfold u8. apply Zplus_mod_idemp_l. Qed.

Lemma dinv_init t : dinv (init t).
Proof.
  split; simpl; try done; try lia; try (split; [constructor|]); try set_solver; lia.
Qed.

Lemma dinv_wait w d : 0 <= d -> dinv w ->
  dinv {| dl := dl w; now := now w + d; inflight := inflight w; closing := closing w;
          closed := closed w; panicked := panicked w |}.
Proof.
  intros Hd []. assert (forall w', due w -> dl w' = dl w -> now w' = now w + d -> due w') as Hdue.
  { intros w' (t & Ht & Hle) E1 E2. exists t. rewrite E1, E2. split; [done|lia]. }
  split; simpl; try done; naive_solver.
Qed.

Lemma dinv_fire w at_ :
  timer (dl w) = Some (Some at_) -> at_ <= now w -> (inflight w < 255)%nat -> dinv w ->
  dinv {| dl := {| timer := Some None; done := done (dl w); deadline := deadline (dl w);
                   state := state (dl w); pending := pending (dl w) |};
          now := now w; inflight := S (inflight w); closing := closing w; closed := closed w;
          panicked := panicked w |}.
Proof.
  intros Ht Hle Hn []. destruct (di_running0 _ Ht) as [Hs Hd].
  split; simpl; try done; try lia.
  - rewrite di_pending0. unfold running. by rewrite Ht.
  - intros _. split; [done|]. right. split; [by exists at_|lia].
Qed.

(** A callback fires the deadline exactly when it is the last one outstanding
    and no timer runs. *)
Lemma timeout_spec d n :
  pending d = u8 (Z.of_nat (running d + S n)) -> (running d + n <= 255)%nat ->
  timeout d =
    if decide (running d = 0%nat /\ n = 0%nat /\ state d = deadlineStarted)
    then ({| timer := timer d; done := done d; deadline := deadline d;
             state := deadlineExceeded; pending := 0 |}, Some (done d))
    else ({| timer := timer d; done := done d; deadline := deadline d; state := state d;
             pending := u8 (Z.of_nat (running d + n)) |}, None).
Proof.
  intros Hp Hn. unfold timeout. simpl. rewrite Hp, u8_pred.
  replace (Z.of_nat (running d + S n) - 1) with (Z.of_nat (running d + n)) by lia.
  rewrite u8_small by lia. destruct (Z.of_nat (running d + n) =? 0) eqn:E; boolp.
  - assert (running d = 0%nat /\ n = 0%nat) as [E1 E2] by lia. rewrite E, E1, E2. simpl.
    case_bool_decide; [by rewrite decide_True|by rewrite decide_False by naive_solver].
  - rewrite decide_False by lia. done.
Qed.

Lemma dinv_timeout w n d ch :
  inflight w = S n -> timeout (dl w) = (d, ch) -> dinv w ->
  dinv {| dl := d; now := now w; inflight := n;
          closing := match ch with Some c => c :: closing w | None => closing w end;
          closed := closed w; panicked := panicked w |}.
Proof.
  intros Hn E []. rewrite Hn in *.
  assert (running (dl w) <= 1)%nat by (unfold running; by repeat case_match; lia).
  rewrite (timeout_spec _ n) in E by (try done; lia). case_decide as Hc; simplify_eq.
  - destruct Hc as (Hr & -> & Hs). destruct (di_started0 Hs) as [Ht [?|[Hdue _]]]; [lia|].
    destruct di_open0 as [Ho1 Ho2]; [by rewrite Hs|]. destruct di_closing0 as [Hnd Hdis].
    unfold running in *. simpl in *.
    split; simpl; unfold running; simpl; try done; try lia.
    + by rewrite Hr.
    + intros t Et. by rewrite Et in Hr.
    + intros _. split; [done|]. right. by left.
    + split; [by constructor|]. intros c [->|?]%elem_of_cons; [done|naive_solver].
    + intros c [?|[->|?]%elem_of_cons]; [naive_solver|done|naive_solver].
    + intros c Hc. destruct (di_past0 c Hc); [by left|right; by right].
  - split; simpl; try done; try lia.
    intros Hs. destruct (di_started0 Hs) as [Ht Hr]. split; [done|].
    destruct (decide (running (dl w) = 1%nat)); [by left|]. right.
    destruct Hr as [?|[Hdue _]]; [done|]. split; [done|].
    destruct n; [|lia]. exfalso. apply Hc. split_and!; [lia|done..].
Qed.

Lemma dinv_close w l1 ch l2 :
  closing w = l1 ++ ch :: l2 -> dinv w ->
  dinv (close_chan ch
    {| dl := dl w; now := now w; inflight := inflight w; closing := l1 ++ l2;
       closed := closed w; panicked := panicked w |}).
Proof.
  intros E []. rewrite E in *. destruct di_closing0 as [Hnd Hdis].
  assert (ch ∉ closed w) as Hch by (apply Hdis; set_solver).
  apply NoDup_app in Hnd as (Hn1 & Hn12 & Hn2). apply NoDup_cons in Hn2 as [Hch2 Hn2].
  unfold close_chan. simpl. rewrite decide_False by done.
  split; simpl; try done.
  - intros Hs. destruct (di_exceeded0 Hs) as [? Hd]. split; [done|]. set_solver.
  - intros Hs. destruct (di_open0 Hs). set_solver.
  - split; [|set_solver]. apply NoDup_app. set_solver.
  - intros c Hc. apply di_old0. set_solver.
  - intros c Hc. destruct (di_past0 c Hc); set_solver.
Qed.

(** [Set] stops whatever runs, takes a fresh channel if the old one has been
    used up, and counts the callbacks that can still come. *)
Lemma Set_spec t w :
  dinv w ->
  exists tm ch, (forall x, tm <> Some (Some x)) /\
    ch = (if bool_decide (state (dl w) = deadlineExceeded) then S (done (dl w)) else done (dl w)) /\
    Set_ t w =
      match t with
      | None =>
          with_dl {| timer := tm; done := ch; deadline := None; state := deadlineStopped;
                     pending := u8 (Z.of_nat (inflight w)) |} w
      | Some x =>
          if 0 <? x - now w
          then with_dl {| timer := Some (Some x); done := ch; deadline := Some x;
                          state := deadlineStarted;
                          pending := u8 (Z.of_nat (1 + inflight w)) |} w
          else close_chan ch
                 (with_dl {| timer := tm; done := ch; deadline := Some x;
                             state := deadlineExceeded;
                             pending := u8 (Z.of_nat (inflight w)) |} w)
      end.
Proof.
  intros []. set (stops := bool_decide (state (dl w) = deadlineStarted)).
  set (tm := if stops then Some None else timer (dl w)).
  assert (forall x, tm <> Some (Some x)) as Htm.
  { intros x. unfold tm, stops. case_bool_decide; [done|]. intros E. by apply di_running0 in E as []. }
  set (p1 := if match timer (dl w) with Some (Some _) => stops | _ => false end
             then u8 (pending (dl w) - 1) else pending (dl w)).
  assert (p1 = u8 (Z.of_nat (inflight w))) as Hp1.
  { unfold p1, stops. rewrite di_pending0. unfold running.
    destruct (timer (dl w)) as [[x|]|] eqn:E; [|done..].
    destruct (di_running0 x eq_refl) as [-> _]. simpl. rewrite u8_pred. f_equal. lia. }
  exists tm. eexists. split; [done|]. split; [done|].
  assert (u8 (u8 (p1 + 1) - 1) = u8 (Z.of_nat (inflight w))) as Hp2.
  { rewrite u8_pred, Hp1. replace (u8 (Z.of_nat (inflight w)) + 1 - 1)
      with (u8 (Z.of_nat (inflight w))) by lia. apply u8_small. apply u8_ok. }
  assert (u8 (p1 + 1) = u8 (Z.of_nat (1 + inflight w))) as Hp3.
  { rewrite Hp1, u8_succ. f_equal. lia. }
  unfold Set_. fold stops tm p1. rewrite Hp2, Hp3.
  destruct (state (dl w)) eqn:Es; try done.
  destruct (timer (dl w)) as [y|] eqn:Et; [done|]. by destruct (di_started0 eq_refl).
Qed.

(** The channel of the deadline after [Set] is one nobody has closed. *)
Lemma next_chan_open w ch :
  dinv w ->
  ch = (if bool_decide (state (dl w) = deadlineExceeded) then S (done (dl w)) else done (dl w)) ->
  ch ∉ closed w /\ ch ∉ closing w /\ (done (dl w) <= ch)%nat /\
  (forall c, (c < ch)%nat -> c ∈ closed w \/ c ∈ closing w).
Proof.
  intros [] ->. case_bool_decide as Hs.
  - destruct (di_exceeded0 Hs) as [_ Hd]. split_and!; [| |lia|].
    + intros Hc. specialize (di_old0 _ (or_introl Hc)). lia.
    + intros Hc. specialize (di_old0 _ (or_intror Hc)). lia.
    + intros c Hc. destruct (decide (c = done (dl w))) as [->|]; [done|]. apply di_past0. lia.
  - destruct (di_open0 Hs). split_and!; auto.
Qed.

Lemma dinv_set t w : dinv w -> dinv (Set_ t w).
Proof.
  intros H. destruct (Set_spec t w H) as (tm & ch & Htm & Hch & ->).
  destruct (next_chan_open w ch H Hch) as (Ho1 & Ho2 & Hle & Hpast).
  assert (forall c, c ∈ closed w \/ c ∈ closing w -> (c <= ch)%nat) as Hold.
  { intros c Hc. apply (di_old _ H) in Hc. lia. }
  assert (forall x : option (option Z), (forall y, x <> Some (Some y)) ->
    match x with Some (Some _) => 1 | _ => 0 end = 0)%nat as Hrun.
  { intros [[y|]|] Hx; [by destruct (Hx y)|done..]. }
  destruct H. destruct t as [x|]; [destruct (0 <? x - now w) eqn:E; boolp|].
  - split; simpl; try done; try naive_solver lia.
  - unfold close_chan. simpl. rewrite decide_False by done.
    destruct di_closing0 as [Hnd Hdis]. split; simpl; try done.
    + unfold running. simpl. by rewrite Hrun.
    + intros y Hy. by destruct (Htm y).
    + intros _. split; [exists x; simpl; split; [done|lia]|]. left. by apply elem_of_union_l, elem_of_singleton.
    + split; [done|]. intros c Hc [->%elem_of_singleton|?]%elem_of_union; [done|by apply (Hdis c)].
    + intros c [[->%elem_of_singleton|?]%elem_of_union|?]; [done|auto..].
    + intros c Hc. apply Hpast in Hc as [?|?]; [left; by apply elem_of_union_r|by right].
  - split; simpl; try done.
    + unfold running. simpl. by rewrite Hrun.
    + intros y Hy. by destruct (Htm y).
Qed.

Lemma dinv_rstep w w' : rstep w w' -> few w' -> dinv w -> dinv w'.
Proof.
  intros [w0 at_| |] Hf ?; [|by eapply dinv_timeout|by apply dinv_close].
  unfold few in Hf. simpl in Hf. by apply (dinv_fire _ at_).
Qed.

Lemma dinv_step w w' : bounded w w' -> dinv w -> dinv w'.
Proof.
  intros [[] Hf] ?; [by eapply dinv_rstep|by apply dinv_wait|by apply dinv_set].
Qed.

Lemma dinv_run w w' : rtc bounded w w' -> dinv w -> dinv w'.
Proof. induction 1; eauto using dinv_step. Qed.

(** * Quiescence *)

(** What the runtime cannot change. *)
Definition same (w w' : world) : Prop :=
  now w' = now w /\ deadline (dl w') = deadline (dl w) /\ done (dl w') = done (dl w).

Lemma same_trans w1 w2 w3 : same w1 w2 -> same w2 w3 -> same w1 w3.
Proof. unfold same. intros (? & ? & ?) (? & ? & ?). split_and!; congruence. Qed.

Lemma timeout_same d d' ch :
  timeout d = (d', ch) -> deadline d' = deadline d /\ done d' = done d /\ timer d' = timer d.
Proof. unfold timeout. intros E. case_match; simplify_eq; done. Qed.

Lemma drain_inflight w :
  dinv w ->
  exists w', rtc rstep w w' /\ same w w' /\ inflight w' = 0%nat /\
    timer (dl w') = timer (dl w) /\ dinv w'.
Proof.
  remember (inflight w) as n eqn:En. revert w En. induction n as [|n IH]; intros w En H.
  - exists w. split_and!; [apply rtc_refl|done..].
  - destruct (timeout (dl w)) as [d ch] eqn:Et. symmetry in En.
    assert (rstep w _) as Hs by (by eapply rs_timeout).
    assert (dinv _) as H1 by (eapply dinv_rstep; [exact Hs| |done]; destruct H; unfold few; simpl; lia).
    apply IH in H1 as (w' & Hr & Hsame & Hi & Ht & H1); [|done].
    destruct (timeout_same _ _ _ Et) as (E1 & E2 & E3).
    exists w'. split_and!; [by eapply rtc_l| |done| |done].
    + eapply same_trans; [|done]. by split.
    + rewrite Ht. done.
Qed.

Lemma close_chan_same c w :
  dl (close_chan c w) = dl w /\ now (close_chan c w) = now w /\
  inflight (close_chan c w) = inflight w /\ closing (close_chan c w) = closing w.
Proof. unfold close_chan. by case_decide. Qed.

Lemma drain_closing w :
  dinv w ->
  exists w', rtc rstep w w' /\ now w' = now w /\ dl w' = dl w /\
    inflight w' = inflight w /\ closing w' = [] /\ dinv w'.
Proof.
  remember (closing w) as l eqn:El. revert w El. induction l as [|c l IH]; intros w El H.
  - exists w. split_and!; [apply rtc_refl|done..].
  - pose proof (rs_close w [] c l (eq_sym El)) as Hs. simpl in Hs.
    destruct (close_chan_same c {| dl := dl w; now := now w; inflight := inflight w;
      closing := l; closed := closed w; panicked := panicked w |}) as (E1 & E2 & E3 & E4).
    assert (few (close_chan c {| dl := dl w; now := now w; inflight := inflight w;
      closing := l; closed := closed w; panicked := panicked w |})) as Hf.
    { unfold few. rewrite E3. apply H. }
    destruct (IH _ (eq_sym E4) (dinv_rstep _ _ Hs Hf H)) as (w' & Hr & En & Ed & Ei & Ec & H2).
    exists w'. split; [by eapply rtc_l|]. simpl in *. rewrite En, Ed, Ei. by split_and!.
Qed.

(** Left alone, the runtime finishes: no callback is outstanding and no timer
    is overdue. *)
Lemma quiesce w :
  dinv w ->
  exists w', rtc rstep w w' /\ same w w' /\ inflight w' = 0%nat /\ closing w' = [] /\
    (forall t, timer (dl w') = Some (Some t) -> now w' < t) /\ dinv w'.
Proof.
  intros H. destruct (drain_inflight w H) as (w1 & R1 & S1 & I1 & _ & H1).
  assert (exists w2, rtc rstep w1 w2 /\ same w1 w2 /\ inflight w2 = 0%nat /\
    (forall t, timer (dl w2) = Some (Some t) -> now w2 < t) /\ dinv w2)
    as (w2 & R2 & S2 & I2 & T2 & H2).
  { assert ((exists t, timer (dl w1) = Some (Some t) /\ t <= now w1) \/
            forall t, timer (dl w1) = Some (Some t) -> now w1 < t) as [(t & Et & Hle)|Hno].
    { destruct (timer (dl w1)) as [[t|]|]; [destruct (decide (t <= now w1))|..]; [by left; exists t|..];
        right; intros ? [=]; lia. }
    2: { exists w1. split; [apply rtc_refl|]. split; [by split|done]. }
    assert (rstep w1 _) as Hs by (by apply (rs_fire w1 t)).
    assert (dinv _) as H1' by (eapply dinv_rstep; [exact Hs| |done]; unfold few; simpl; lia).
    destruct (drain_inflight _ H1') as (w2 & R2 & S2 & I2 & T2 & H2).
    exists w2. split_and!; [by eapply rtc_l| |done| |done].
    - eapply same_trans; [|done]. by split.
    - rewrite T2. done. }
  destruct (drain_closing w2 H2) as (w3 & R3 & N3 & D3 & I3 & C3 & H3).
  exists w3. split_and!; [by do 2 (etrans; [done|])| |congruence|done| |done].
  - eapply same_trans; [done|]. eapply same_trans; [done|]. unfold same. by rewrite N3, D3.
  - rewrite D3, N3. done.
Qed.

Lemma quiet_due_signalled w :
  dinv w -> inflight w = 0%nat -> closing w = [] ->
  (forall t, timer (dl w) = Some (Some t) -> now w < t) -> due w -> signalled w.
Proof.
  intros [] Hi Hc Ht (t & Hd & Hle). unfold signalled. destruct (state (dl w)) eqn:Es.
  - rewrite di_stopped0 in Hd by done. done.
  - destruct (di_started0 eq_refl) as [_ [Hr|[_ ?]]]; [|lia]. unfold running in Hr.
    destruct (timer (dl w)) as [[x|]|] eqn:E; try done.
    destruct (di_running0 x eq_refl) as [_ Hx]. specialize (Ht x eq_refl). simplify_eq. lia.
  - destruct (di_exceeded0 eq_refl) as [_ [?|Hx]]; [done|]. rewrite Hc in Hx. by apply elem_of_nil in Hx.
Qed.

Lemma signalled_due w : dinv w -> signalled w -> due w.
Proof.
  intros [] Hs. destruct (state (dl w)) eqn:E; [by destruct di_open0..|].
  by apply di_exceeded0.
Qed.

Lemma due_gets_signalled w :
  dinv w -> due w -> exists w', rtc rstep w w' /\ same w w' /\ signalled w'.
Proof.
  intros H (t & Hd & Hle). destruct (quiesce w H) as (w' & R & S & I & C & T & H').
  exists w'. split_and!; [done..|]. apply quiet_due_signalled; try done.
  destruct S as (E1 & E2 & _). exists t. rewrite E1, E2. done.
Qed.

(** A channel handed out before the deadline passed is closed once the runtime
    has finished. *)
Lemma quiesce_chan_closed w ch :
  dinv w -> (ch <= done (dl w))%nat -> due w ->
  exists w', rtc rstep w w' /\ ch ∈ closed w'.
Proof.
  intros H Hle (t & Hd & Ht). destruct (quiesce w H) as (w' & R & (E1 & E2 & E3) & I & C & T & H').
  exists w'. split; [done|]. destruct (decide (ch = done (dl w))) as [->|].
  - rewrite <- E3. apply quiet_due_signalled; try done. exists t. by rewrite E1, E2.
  - destruct (di_past _ H' ch) as [?|Hx]; [lia|done|]. rewrite C in Hx. by apply elem_of_nil in Hx.
Qed.

Lemma dstep_done w w' : dinv w -> dstep w w' -> (done (dl w) <= done (dl w'))%nat.
Proof.
  intros H Hs. destruct Hs as [w w' Hr|w d Hd|w t]; [|done|].
  - destruct Hr as [w x|w n d ch _ Et|w l1 ch l2]; [done| |].
    + simpl. by destruct (timeout_same _ _ _ Et) as (_ & -> & _).
    + by rewrite (proj1 (close_chan_same _ _)).
  - destruct (Set_spec t w H) as (tm & c & _ & Hc & ->).
    destruct (next_chan_open w c H Hc) as (_ & _ & Hle & _).
    destruct t as [x|]; [destruct (0 <? x - now w)|]; try done.
    by rewrite (proj1 (close_chan_same _ _)).
Qed.

(** C28. A deadline is signalled when it passes and only then, however often it
    is moved and however late the timer's callbacks run, as long as never more than 255 of
    them are outstanding at once: no channel is closed twice and no nil timer is used; the
    channel handed out is closed only if the deadline now in force has passed;
    and once it has passed, the callbacks the runtime still owes close it,
    without changing the deadline or the channel. *)
Theorem deadline_exact (t : Z) (w : world) :
  rtc bounded (init t) w ->
  panicked w = false /\ (signalled w -> due w) /\ (Err_ (dl w) = true -> due w) /\
  (due w -> exists w', rtc rstep w w' /\ same w w' /\ signalled w').
Proof.
  intros H. assert (dinv w) as Hi by (by eapply dinv_run; [|apply dinv_init]).
  split_and!; [apply Hi|by apply signalled_due| |by apply due_gets_signalled].
  unfold Err_. case_bool_decide as E; [|done]. intros _. by apply (di_exceeded _ Hi).
Qed.

(** The deadline is moved while the callback of its first timer is
    outstanding, and then passes. *)
Definition moved : world := Set_ (Some 20)
  {| dl := {| timer := Some None; done := 0; deadline := Some 10; state := deadlineStarted;
              pending := 1 |};
     now := 12; inflight := 1; closing := []; closed := ∅; panicked := false |}.
Definition passed : world :=
  {| dl := dl moved; now := 25; inflight := 1; closing := []; closed := ∅; panicked := false |}.

Lemma passed_reachable : rtc bounded (init 0) passed.
Proof.
  eapply rtc_l; [split; [apply (ds_set _ (Some 10))|unfold few; simpl; lia]|].
  eapply rtc_l; [split; [apply (ds_wait _ 12); lia|unfold few; simpl; lia]|].
  eapply rtc_l; [split; [apply ds_runtime, (rs_fire _ 10); [reflexivity|simpl; lia]|unfold few; simpl; lia]|].
  eapply rtc_l; [split; [apply (ds_set _ (Some 20))|unfold few; simpl; lia]|].
  eapply rtc_l; [split; [apply (ds_wait _ 13); lia|unfold few; simpl; lia]|]. apply rtc_refl.
Qed.

Lemma deadline_exact_witness :
  due passed /\ exists w', rtc rstep passed w' /\ same passed w' /\ signalled w'.
Proof.
  assert (due passed) as Hd by (exists 20; split; [reflexivity|simpl; lia]).
  split; [exact Hd|]. exact (proj2 (proj2 (proj2 (deadline_exact 0 passed passed_reachable))) Hd).
Defined.

(** A deadline set [n] times, each time passing before its callback gets the
    lock. *)
Definition pile (n : nat) : world :=
  {| dl := {| timer := match n with O => None | _ => Some None end; done := 0;
              deadline := match n with O => None | _ => Some (Z.of_nat n) end;
              state := match n with O => deadlineStopped | _ => deadlineStarted end;
              pending := u8 (Z.of_nat n) |};
     now := Z.of_nat n; inflight := n; closing := []; closed := ∅; panicked := false |}.

Lemma pile_reachable n : rtc dstep (init 0) (pile n).
Proof.
  induction n as [|n IH]; [apply rtc_refl|]. etrans; [exact IH|].
  assert (Set_ (Some (Z.of_nat (S n))) (pile n) =
    with_dl {| timer := Some (Some (Z.of_nat (S n))); done := 0; deadline := Some (Z.of_nat (S n));
               state := deadlineStarted; pending := u8 (Z.of_nat (S n)) |} (pile n)) as E.
  { unfold Set_. destruct n as [|n]; cbn [pile dl state timer done pending now bool_decide];
      rewrite ?bool_decide_false, (proj2 (Z.ltb_lt _ _)) by (done || lia); [done|].
    f_equal. f_equal. rewrite u8_succ. f_equal. lia. }
  eapply rtc_l; [apply (ds_set _ (Some (Z.of_nat (S n))))|]. rewrite E.
  eapply rtc_l; [apply (ds_wait _ 1); lia|]. cbn [with_dl dl now inflight closing closed panicked pile].
  match goal with |- rtc _ ?a ?b => assert (rstep a b) as Hs end; [|by apply rtc_once, ds_runtime].
  eassert (pile (S n) = _) as ->; [|apply (rs_fire _ (Z.of_nat (S n))); simpl; [done|lia]].
  unfold pile. simpl. f_equal. lia.
Qed.

(** The count of outstanding callbacks is a uint8: when 256 of them are
    outstanding, the deadline is moved to a time not yet come and one of the
    old callbacks runs, the new deadline is signalled at once. *)
Theorem late_callbacks_signal_early : exists w, rtc dstep (init 0) w /\ signalled w /\ ~ due w.
Proof.
  set (w1 := Set_ (Some 1000) (pile 256)).
  destruct (timeout (dl w1)) as [d ch] eqn:Et. vm_compute in Et. injection Et as <- <-.
  eexists. split; [|split].
  - etrans; [apply (pile_reachable 256)|].
    eapply rtc_l; [apply (ds_set _ (Some 1000))|]. fold w1.
    eapply rtc_l; [apply ds_runtime, (rs_timeout w1 255); [reflexivity|vm_compute; reflexivity]|].
    apply rtc_once, ds_runtime, (rs_close _ []). reflexivity.
  - unfold signalled. rewrite (proj1 (close_chan_same _ _)). vm_compute. done.
  - intros (t & Ht & Hle). rewrite (proj1 (close_chan_same _ _)) in Ht.
    rewrite (proj1 (proj2 (close_chan_same _ _))) in Hle. vm_compute in Ht, Hle.
    injection Ht as <-. by apply Hle.
Qed.
