(* ===== verification/PacketBuffer.v ===== *)
(** The packet buffer: lib/pion-transport/packetio/buffer.go.

    A circular byte buffer that holds whole packets, each behind a two-byte
    length.  [head] and [tail] are indices into [data]; the ints of the source
    that can be negative ([available], [size]) are computed in [Z].  The
    buffer's mutex makes each operation atomic, so an operation is a function
    on the state; a [Read] that finds the buffer empty waits on the channel
    [notify], whose one-element buffer is the flag [notify], or for the read
    deadline.  [readDeadline] is a pointer to an object with a lock of its
    own, so it stands beside the record, in [system]. *)

From S2P Require Import Prelude Deadline.

Record Buffer := {
  data : bytes;
  head : nat;
  tail : nat;
  notify : bool;
  waiting : bool;
  closed : bool;
  count : Z;
  limitCount : Z;
  limitSize : Z;
}.

Definition minSize : Z := 2048.
Definition cutoffSize : Z := 128 * 1024.
Definition maxSize : Z := 4 * 1024 * 1024.

Inductive error := errPacketTooBig | ErrClosedPipe | ErrFull | ErrShortBuffer | EOF | ErrTimeout.

(** [NewBuffer]. *)
Definition NewBuffer : Buffer :=
  {| data := []; head := 0; tail := 0; notify := false; waiting := false; closed := false;
     count := 0; limitCount := 0; limitSize := 0 |}.

(** The state with another ring. *)
Definition set_ring (d : bytes) (h t : nat) (b : Buffer) : Buffer :=
  {| data := d; head := h; tail := t; notify := notify b; waiting := waiting b;
     closed := closed b; count := count b; limitCount := limitCount b;
     limitSize := limitSize b |}.

(** [available]. *)
Definition available (size : Z) (b : Buffer) : bool :=
  let available := Z.of_nat (head b) - Z.of_nat (tail b) in
  let available := if available <=? 0 then available + blen (data b) else available in
  if available <? size + 2 + 1 then false else true.

(** [size]. *)
Definition size (b : Buffer) : Z :=
  let size := Z.of_nat (tail b) - Z.of_nat (head b) in
  if size <? 0 then size + blen (data b) else size.

(** [copy(dst[at:], src)]: the slice afterwards and the number copied. *)
Definition copy_into (dst : bytes) (at_ : nat) (src : bytes) : bytes * nat :=
  let n := Nat.min (length dst - at_) (length src) in
  (take at_ dst ++ take n src ++ drop (at_ + n) dst, n).

Section Buffers.
(** The build tag packetioSizeHardLimit (hardlimit.go, no_hardlimit.go). *)
Context (sizeHardLimit : bool).

(** The size [grow] decides on. *)
Definition newSize (b : Buffer) : Z :=
  let len := blen (data b) in
  let newSize := if len <? cutoffSize then 2 * len else 5 * len / 4 in
  let newSize := if newSize <? minSize then minSize else newSize in
  let newSize :=
    if ((limitSize b <=? 0) || sizeHardLimit) && (maxSize <? newSize)
    then maxSize else newSize in
  if (0 <? limitSize b) && (limitSize b + 1 <? newSize) then limitSize b + 1 else newSize.

(** [grow]. *)
Definition grow (b : Buffer) : result error Buffer :=
  if newSize b <=? blen (data b) then Err ErrFull
  else
    let newData := replicate (Z.to_nat (newSize b)) 0 in
    let '(newData, n) :=
      if (head b <=? tail b)%nat
      then copy_into newData 0 (slice (data b) (Z.of_nat (head b)) (Z.of_nat (tail b)))
      else
        let '(d1, n1) := copy_into newData 0 (drop (head b) (data b)) in
        let '(d2, n2) := copy_into d1 n1 (take (tail b) (data b)) in
        (d2, (n1 + n2)%nat) in
    Ok (set_ring newData 0 n b).

(** The loop [for !b.available(len(packet))]: the buffer and whether the
    packet fits; [None] is an exhausted bound. *)
Fixpoint grow_until (fuel : nat) (size : Z) (b : Buffer) : option (Buffer * option error) :=
  match fuel with
  | O => None
  | S fuel' =>
      if available size b then Some (b, None)
      else match grow b with
           | Err e => Some (b, Some e)
           | Ok b' => grow_until fuel' size b'
           end
  end.

(** Storing one length byte at the tail. *)
Definition put_byte (x : Z) (d : bytes) (t : nat) : bytes * nat :=
  let d' := <[t := x]> d in
  let t' := S t in
  (d', if (length d' <=? t')%nat then 0%nat else t').

(** Storing the packet at the tail, around the end if need be. *)
Definition put_packet (packet : bytes) (d : bytes) (t : nat) : bytes * nat :=
  let '(d1, n) := copy_into d t packet in
  let t1 := (t + n)%nat in
  if (length d1 <=? t1)%nat
  then let '(d2, m) := copy_into d1 0 (drop n packet) in (d2, m)
  else (d1, t1).

(** [Write].  Every growth makes the buffer at least one byte larger, so
    [len(packet)+4] rounds of the loop are enough. *)
Definition Write (packet : bytes) (b : Buffer) : option (Buffer * result error Z) :=
  if 0x10000 <=? blen packet then Some (b, Err errPacketTooBig)
  else if closed b then Some (b, Err ErrClosedPipe)
  else if ((0 <? limitCount b) && (limitCount b <=? count b)) ||
          ((0 <? limitSize b) && (limitSize b <? size b + 2 + blen packet))
  then Some (b, Err ErrFull)
  else
    match grow_until (length packet + 4) (blen packet) b with
    | None => None
    | Some (b1, Some e) => Some (b1, Err e)
    | Some (b1, None) =>
        let '(d1, t1) := put_byte (u8 (Z.shiftr (blen packet) 8)) (data b1) (tail b1) in
        let '(d2, t2) := put_byte (u8 (blen packet)) d1 t1 in
        let '(d3, t3) := put_packet packet d2 t2 in
        Some ({| data := d3; head := head b1; tail := t3; notify := true;
                 waiting := waiting b1; closed := closed b1; count := count b1 + 1;
                 limitCount := limitCount b1; limitSize := limitSize b1 |}, Ok (blen packet))
    end.

End Buffers.

(** What a turn of the loop of [Read] comes to: a packet (the bytes copied
    and the error), the end of the stream, [ErrTimeout], or waiting. *)
Inductive read_outcome :=
| ReadPacket (copied : bytes) (err : option error)
| ReadEOF
| ReadTimeout
| ReadWait.

(** Moving the head over one byte. *)
Definition advance (len h : nat) : nat := if (len <=? S h)%nat then 0%nat else S h.

(** The part of a turn of [Read]'s loop under the mutex, for a slice of [plen]
    bytes. *)
Definition Read (plen : nat) (b : Buffer) : Buffer * read_outcome :=
  let len := length (data b) in
  if negb (head b =? tail b)%nat then
    let n1 := byte_at (data b) (head b) in
    let h1 := advance len (head b) in
    let n2 := byte_at (data b) h1 in
    let h2 := advance len h1 in
    let cnt := Z.to_nat (Z.lor (u16 (Z.shiftl n1 8)) n2) in
    let copied := if (plen <? cnt)%nat then plen else cnt in
    let out :=
      if (h2 + copied <? len)%nat then take copied (drop h2 (data b))
      else
        let first := take plen (drop h2 (data b)) in
        first ++ take (copied - length first) (data b) in
    let h3 := (h2 + cnt)%nat in
    let h3 := if (len <=? h3)%nat then (h3 - len)%nat else h3 in
    let '(h4, t4) := if (h3 =? tail b)%nat then (0%nat, 0%nat) else (h3, tail b) in
    ({| data := data b; head := h4; tail := t4; notify := notify b; waiting := waiting b;
        closed := closed b; count := count b - 1; limitCount := limitCount b;
        limitSize := limitSize b |},
     ReadPacket out (if (copied <? cnt)%nat then Some ErrShortBuffer else None))
  else if closed b then (b, ReadEOF)
  else (b, ReadWait).

(** [Close]; closing the channel makes every later receive from it succeed. *)
Definition Close (b : Buffer) : Buffer :=
  if closed b then b
  else {| data := data b; head := head b; tail := tail b; notify := true; waiting := false;
          closed := true; count := count b; limitCount := limitCount b;
          limitSize := limitSize b |}.

(** [Count], [Size], [SetLimitCount], [SetLimitSize]. *)
Definition Count (b : Buffer) : Z := count b.
Definition Size (b : Buffer) : Z := size b.

Definition SetLimitCount (limit : Z) (b : Buffer) : Buffer :=
  {| data := data b; head := head b; tail := tail b; notify := notify b; waiting := waiting b;
     closed := closed b; count := count b; limitCount := limit; limitSize := limitSize b |}.

Definition SetLimitSize (limit : Z) (b : Buffer) : Buffer :=
  {| data := data b; head := head b; tail := tail b; notify := notify b; waiting := waiting b;
     closed := closed b; count := count b; limitCount := limitCount b; limitSize := limit |}.

(** * The ring *)

(** [ring d h t c]: the useful bytes between head [h] and tail [t] of the
    circular buffer [d] are [c].  Either they are contiguous, or they go
    around the end; a buffer with room always has an unused byte [Y]. *)
Inductive ring : bytes -> nat -> nat -> bytes -> Prop :=
| ring_nil : ring [] 0 0 []
| ring_flat X C Y :
    Y <> [] -> ring (X ++ C ++ Y) (length X) (length X + length C) C
| ring_wrap C2 Y C1 :
    Y <> [] -> C1 <> [] ->
    ring (C2 ++ Y ++ C1) (length C2 + length Y) (length C2) (C1 ++ C2).

Lemma length_pos {A} (l : list A) : l <> [] -> (0 < length l)%nat.
Proof. destruct l; simpl; [done|lia]. Qed.

Lemma ring_bounds d h t c :
  ring d h t c ->
  (d = [] /\ h = 0 /\ t = 0 /\ c = [])%nat \/
  (h < length d /\ t < length d /\ length c < length d)%nat.
Proof.
  intros [|X C Y HY|C2 Y C1 HY HC]; [by left|right..]; rewrite !length_app;
    apply length_pos in HY; [lia|]. apply length_pos in HC. lia.
Qed.

(** [head = tail] means empty. *)
Lemma ring_empty d h t c : ring d h t c -> h = t <-> c = [].
Proof.
  intros [|X C Y HY|C2 Y C1 HY HC].
  - done.
  - destruct C; simpl; split; intros; try done; lia.
  - apply length_pos in HY. split; [lia|]. intros [? _]%app_nil. by destruct HC.
Qed.

Lemma ring_size b c : ring (data b) (head b) (tail b) c -> size b = blen c.
Proof.
  intros H. unfold size, blen. inversion H as [|X C Y HY|C2 Y C1 HY HC]; simpl.
  - done.
  - destruct (_ <? 0) eqn:E; boolp; lia.
  - apply length_pos in HY. rewrite !length_app.
    destruct (_ <? 0) eqn:E; boolp; lia.
Qed.

(** [available] is exact: room for the packet, its length and a free byte. *)
Lemma ring_available b c n :
  ring (data b) (head b) (tail b) c ->
  available n b = (blen c + n + 3 <=? blen (data b)).
Proof.
  intros H. unfold available, blen. inversion H as [|X C Y HY|C2 Y C1 HY HC]; simpl.
  - destruct (_ <? _) eqn:E, (_ <=? _) eqn:E'; boolp; lia.
  - rewrite !length_app. destruct (_ <=? 0) eqn:E0; boolp; [|lia].
    destruct (_ <? _) eqn:E, (_ <=? _) eqn:E'; boolp; lia.
  - apply length_pos in HY. rewrite !length_app. destruct (_ <=? 0) eqn:E0; boolp; [lia|].
    destruct (_ <? _) eqn:E, (_ <=? _) eqn:E'; boolp; lia.
Qed.

Lemma copy_into_fits dst src rest :
  copy_into (dst ++ rest) (length dst) src =
    if (length src <=? length rest)%nat then (dst ++ src ++ drop (length src) rest, length src)
    else (dst ++ take (length rest) src, length rest).
Proof.
  unfold copy_into. rewrite length_app, Nat.add_comm, Nat.add_sub, take_app_length.
  destruct (Nat.leb_spec (length src) (length rest)).
  - rewrite Nat.min_r by lia. rewrite take_ge by lia.
    rewrite drop_app_ge by lia. do 3 f_equal. f_equal. lia.
  - rewrite Nat.min_l by lia. rewrite drop_ge by (rewrite length_app; lia).
    by rewrite app_nil_r.
Qed.

(** Storing a packet behind the tail, with at least one byte to spare. *)
(** Bytes that do not fit before the end go around it. *)
Lemma put_packet_split X c Y p :
  (length Y < length p)%nat -> (length c + length p < length X + length c + length Y)%nat ->
  Y <> [] ->
  let r := put_packet p (X ++ c ++ Y) (length X + length c) in
  ring r.1 (length X) r.2 (c ++ p) /\ length r.1 = length (X ++ c ++ Y).
Proof.
  intros Hlt Hlen HY. unfold put_packet. rewrite <- length_app, app_assoc, copy_into_fits.
  destruct (Nat.leb_spec (length p) (length Y)); [lia|].
  rewrite !length_app, length_take, Nat.min_l by lia.
  destruct (Nat.leb_spec (length X + length c + length Y) (length X + length c + length Y)); [|lia].
  rewrite <- app_assoc.
  change ((X ++ c ++ take (length Y) p)) with ([] ++ (X ++ c ++ take (length Y) p)).
  change 0%nat with (length (@nil Z)). rewrite copy_into_fits.
  rewrite !length_app, length_take, length_drop, Nat.min_l by lia.
  destruct (Nat.leb_spec (length p - length Y) (length X + (length c + length Y))); [|lia].
  simpl. rewrite drop_app_le by lia. set (p2 := drop (length Y) p).
  assert (length p2 = length p - length Y)%nat as Hp2 by (unfold p2; by rewrite length_drop).
  rewrite <- Hp2. split; [|rewrite !length_app, length_drop, length_take; lia].
  replace (c ++ p) with ((c ++ take (length Y) p) ++ p2)
    by (unfold p2; by rewrite <- app_assoc, take_drop).
  replace (length X) with (length p2 + length (drop (length p2) X))%nat
    by (rewrite length_drop; lia).
  apply ring_wrap.
  - intros Hn. apply (f_equal length) in Hn. rewrite length_drop in Hn. simpl in Hn. lia.
  - apply length_pos in HY. intros Hn. apply (f_equal length) in Hn.
    rewrite length_app, length_take in Hn. simpl in Hn. lia.
Qed.

(** Bytes that fit before the end; the tail wraps when they reach it. *)
Lemma put_packet_fits X c Y p :
  (length p <= length Y)%nat -> (length c + length p < length X + length c + length Y)%nat ->
  Y <> [] ->
  let r := put_packet p (X ++ c ++ Y) (length X + length c) in
  ring r.1 (length X) r.2 (c ++ p) /\ length r.1 = length (X ++ c ++ Y).
Proof.
  intros Hle Hlen HY. unfold put_packet. rewrite <- length_app, app_assoc, copy_into_fits.
  destruct (Nat.leb_spec (length p) (length Y)); [|lia].
  rewrite <- !app_assoc, !length_app, length_drop.
  destruct (Nat.leb_spec (length X + (length c + (length p + (length Y - length p))))
    (length X + length c + length p)).
  - assert (length p = length Y) as HpY by lia.
    rewrite (drop_ge p), (drop_ge Y), app_nil_r by lia.
    change (X ++ c ++ p) with ([] ++ (X ++ c ++ p)). change 0%nat with (length (@nil Z)).
    rewrite copy_into_fits. simpl. rewrite drop_0. split; [|rewrite !length_app; lia].
    apply length_pos in HY. pose proof (ring_wrap [] X (c ++ p)) as Hr.
    rewrite app_nil_r in Hr. apply Hr; [intros ->; simpl in *; lia|].
    intros [_ ->]%app_nil. simpl in *. lia.
  - simpl. split; [|rewrite !length_app, length_drop; lia].
    rewrite (app_assoc c p), <- Nat.add_assoc, <- length_app.
    apply ring_flat. intros Hn. apply (f_equal length) in Hn. rewrite length_drop in Hn.
    simpl in Hn. lia.
Qed.

Lemma put_packet_ring d h t c p :
  ring d h t c -> (length c + length p < length d)%nat ->
  ring (put_packet p d t).1 h (put_packet p d t).2 (c ++ p) /\
  length (put_packet p d t).1 = length d.
Proof.
  intros H Hlen. inversion H as [|X C Y HY|C2 Y C1 HY HC]; subst.
  - simpl in Hlen. lia.
  - rewrite !length_app in Hlen. destruct (Nat.leb_spec (length p) (length Y)).
    + apply put_packet_fits; [done|lia|done].
    + apply put_packet_split; [done|lia|done].
  - unfold put_packet. rewrite !length_app in Hlen. rewrite copy_into_fits, length_app.
    destruct (Nat.leb_spec (length p) (length Y + length C1)); [|lia].
    rewrite drop_app_le by lia. rewrite !length_app, length_drop.
    destruct (Nat.leb_spec (length C2 + (length p + (length Y - length p + length C1)))
        (length C2 + length p)); [apply length_pos in HC; lia|].
    simpl. split; [|rewrite !length_app, length_drop; lia].
    rewrite (app_assoc C2 p), <- (app_assoc C1).
    replace (length C2 + length Y)%nat with (length (C2 ++ p) + length (drop (length p) Y))%nat
      by (rewrite length_app, length_drop; lia).
    replace (length C2 + length p)%nat with (length (C2 ++ p)) by apply length_app.
    apply ring_wrap; [|done]. intros Hn. apply (f_equal length) in Hn.
    rewrite length_drop in Hn. simpl in Hn. lia.
Qed.

(** A length byte is stored like a packet of one byte. *)
Lemma put_byte_packet x d t : (t < length d)%nat -> put_byte x d t = put_packet [x] d t.
Proof.
  intros Ht. unfold put_byte, put_packet, copy_into. simpl length.
  rewrite Nat.min_r by lia. rewrite length_insert, !length_app, length_take, length_drop.
  simpl. rewrite (insert_take_drop d t x) by done. rewrite Nat.add_1_r.
  replace (Nat.min t (length d) + S (length d - S t))%nat with (length d) by lia.
  destruct (Nat.leb_spec (length d) (S t)); [|done].
  rewrite Nat.min_0_r. simpl. by rewrite drop_0.
Qed.

Section Growing.
Context (hard : bool).

(** The largest size [grow] goes to. *)
Definition cap (b : Buffer) : Z :=
  let c := if 0 <? limitSize b then limitSize b + 1 else maxSize in
  if hard then Z.min c maxSize else c.

Lemma newSize_spec b :
  newSize hard b <= cap b /\
  (newSize hard b <= blen (data b) <-> cap b <= blen (data b)).
Proof.
  pose proof (blen_nonneg (data b)). unfold newSize, cap.
  set (n0 := if blen (data b) <? cutoffSize then _ else _).
  assert (blen (data b) = 0 \/ blen (data b) < n0) as H0.
  { unfold n0. destruct (blen (data b) <? cutoffSize) eqn:E; boolp; [lia|].
    unfold cutoffSize in E. right.
    enough (blen (data b) + 1 <= 5 * blen (data b) / 4) by lia.
    apply Z.div_le_lower_bound; lia. }
  set (n1 := if n0 <? minSize then minSize else n0).
  assert (blen (data b) < n1) as H1.
  { unfold n1. destruct (n0 <? minSize) eqn:E; boolp; unfold minSize in *; lia. }
  clearbody n1. clear n0 H0.
  destruct hard, (0 <? limitSize b) eqn:E1, (limitSize b <=? 0) eqn:E2; boolp; try lia;
    simpl; destruct (maxSize <? n1) eqn:E3; boolp; simpl;
    try (destruct (limitSize b + 1 <? _) eqn:E4; boolp); lia.
Qed.

Lemma fresh_copy c N :
  (length c < N)%nat ->
  ring (c ++ drop (length c) (replicate N 0)) 0 (length c) c /\
  length (c ++ drop (length c) (replicate N 0)) = N.
Proof.
  intros H. split; [|rewrite length_app, length_drop, length_replicate; lia].
  apply (ring_flat [] c). intros Hn. apply (f_equal length) in Hn.
  rewrite length_drop, length_replicate in Hn. simpl in Hn. lia.
Qed.

Lemma copy_fresh c N :
  (length c < N)%nat ->
  copy_into (replicate N 0) 0 c = (c ++ drop (length c) (replicate N 0), length c).
Proof.
  intros H. pose proof (copy_into_fits [] c (replicate N 0)) as E. simpl in E. rewrite E.
  rewrite length_replicate. by destruct (Nat.leb_spec (length c) N); [|lia].
Qed.

(** The two copies of [grow] collect the contents. *)
Lemma grow_copy d h t c N :
  ring d h t c -> (length c < N)%nat ->
  (if (h <=? t)%nat
   then copy_into (replicate N 0) 0 (slice d (Z.of_nat h) (Z.of_nat t))
   else let '(d1, n1) := copy_into (replicate N 0) 0 (drop h d) in
        let '(d2, n2) := copy_into d1 n1 (take t d) in (d2, (n1 + n2)%nat)) =
  (c ++ drop (length c) (replicate N 0), length c).
Proof.
  intros H Hc. destruct H as [|X C Y HY|C2 Y C1 HY HC].
  - by apply copy_fresh.
  - destruct (Nat.leb_spec (length X) (length X + length C)); [|lia].
    unfold slice. rewrite Nat2Z.id, drop_app_length.
    replace (Z.to_nat _) with (length C) by lia. rewrite take_app_length. by apply copy_fresh.
  - apply length_pos in HY as HY'.
    destruct (Nat.leb_spec (length C2 + length Y) (length C2)); [lia|].
    rewrite take_app_length, app_assoc, <- length_app, drop_app_length.
    rewrite length_app in Hc. rewrite copy_fresh by lia. rewrite copy_into_fits.
    rewrite length_drop, length_replicate.
    destruct (Nat.leb_spec (length C2) (N - length C1)); [|lia].
    by rewrite drop_drop, length_app, <- app_assoc.
Qed.

Lemma grow_ring b c b' :
  ring (data b) (head b) (tail b) c -> grow hard b = Ok b' ->
  ring (data b') (head b') (tail b') c /\ blen (data b') = newSize hard b /\
  blen (data b) < newSize hard b /\
  b' = set_ring (data b') (head b') (tail b') b.
Proof.
  intros H. unfold grow. destruct (newSize hard b <=? _) eqn:E; boolp; [done|].
  set (N := Z.to_nat (newSize hard b)). pose proof (blen_nonneg (data b)) as H0.
  assert (length c < N)%nat as Hc.
  { unfold N, blen in *. destruct (ring_bounds _ _ _ _ H) as [(? & ? & ? & ->)|?]; simpl in *; lia. }
  rewrite (grow_copy _ _ _ c) by done. destruct (fresh_copy c N Hc) as [Hf Hfl].
  intros [= <-]. simpl. unfold blen in *. rewrite Hfl. split_and!; (done || lia).
Qed.

(** The loop ends, and it makes room exactly when the packet fits the
    largest size the limits allow. *)
Lemma grow_until_spec fuel n b c :
  ring (data b) (head b) (tail b) c -> 0 <= n ->
  blen c + n + 3 - blen (data b) < Z.of_nat fuel -> (0 < fuel)%nat ->
  exists b' err,
    grow_until hard fuel n b = Some (b', err) /\
    ring (data b') (head b') (tail b') c /\
    b' = set_ring (data b') (head b') (tail b') b /\
    blen (data b) <= blen (data b') <= Z.max (blen (data b)) (cap b) /\
    match err with
    | None => blen c + n + 3 <= blen (data b')
    | Some e => e = ErrFull /\ Z.max (blen (data b)) (cap b) < blen c + n + 3
    end.
Proof.
  revert b. induction fuel as [|fuel IH]; intros b Hr Hn Hf H0; [lia|]. simpl.
  rewrite (ring_available _ c) by done.
  destruct (_ <=? blen (data b)) eqn:E; boolp.
  { exists b, None. split_and!; (done || lia || by destruct b). }
  destruct (newSize_spec b) as [Hcap Hiff].
  destruct (grow hard b) as [b1|e] eqn:Eg.
  - destruct (grow_ring b c b1 Hr Eg) as (Hr1 & Hl1 & Hlt & Eb1).
    assert (cap b1 = cap b) as Ec by by rewrite Eb1.
    destruct (IH b1 Hr1 Hn) as (b' & err & -> & Hr' & Eb' & Hb' & Herr); [lia|lia|].
    exists b', err. rewrite Ec in Hb', Herr. split_and!; try done; try lia.
    + rewrite Eb', Eb1. done.
    + destruct err; [|done]. destruct Herr. split; [done|]. lia.
  - unfold grow in Eg. destruct (newSize hard b <=? _) eqn:Es; boolp.
    + simplify_eq. apply Hiff in Es. exists b, (Some ErrFull).
      split_and!; try done; try lia. by destruct b.
    + by destruct (if (_ <=? _)%nat then _ else _).
Qed.

End Growing.

(** * Reading the ring *)

Lemma ring_pop d h t x c :
  ring d h t (x :: c) -> byte_at d h = x /\ ring d (advance (length d) h) t c.
Proof.
  intros H. unfold byte_at, advance. inversion H as [|X C Y HY|C2 Y C1 HY HC]; subst.
  - apply length_pos in HY as HY'. rewrite app_nth2, Nat.sub_diag by lia. split; [done|].
    rewrite !length_app. simpl.
    destruct (Nat.leb_spec (length X + S (length c + length Y)) (S (length X))); [lia|].
    replace (X ++ x :: c ++ Y) with ((X ++ [x]) ++ c ++ Y) by by rewrite <- !app_assoc.
    replace (S (length X)) with (length (X ++ [x])) by (rewrite length_app; simpl; lia).
    replace (length X + S (length c))%nat with (length (X ++ [x]) + length c)%nat
      by (rewrite length_app; simpl; lia).
    by apply ring_flat.
  - destruct C1 as [|y C1]; [done|]. simplify_eq/=. apply length_pos in HY as HY'.
    rewrite app_assoc, <- length_app, app_nth2, Nat.sub_diag by lia. split; [done|].
    rewrite <- app_assoc, !length_app. simpl. destruct C1 as [|z C1].
    + rewrite (proj2 (Nat.leb_le _ _)) by (simpl; lia). apply (ring_flat [] C2 (Y ++ [x])). by destruct Y.
    + rewrite (proj2 (Nat.leb_gt _ _)) by (simpl; lia).
      replace (Y ++ x :: z :: C1) with ((Y ++ [x]) ++ z :: C1) by by rewrite <- app_assoc.
      replace (S (length C2 + length Y)) with (length C2 + length (Y ++ [x]))%nat
        by (rewrite length_app; simpl; lia).
      apply ring_wrap; [by destruct Y|done].
Qed.

(** Moving the head over a packet, as [Read] does in one go. *)
Definition skip (len h n : nat) : nat :=
  if (len <=? h + n)%nat then (h + n - len)%nat else (h + n)%nat.

Lemma ring_skip d h t p c :
  ring d h t (p ++ c) -> ring d (skip (length d) h (length p)) t c.
Proof.
  revert h. induction p as [|x p IH]; intros h H; simpl in H |- *.
  - unfold skip. rewrite Nat.add_0_r.
    destruct (ring_bounds _ _ _ _ H) as [(-> & -> & -> & ->)|(? & ? & ?)]; [done|].
    by destruct (Nat.leb_spec (length d) h); [lia|].
  - pose proof (ring_bounds _ _ _ _ H) as [(_ & _ & _ & ?)|(Hh & _ & Hlen)]; [done|].
    apply ring_pop in H as [_ H]. apply IH in H.
    replace (skip (length d) h (S (length p)))
      with (skip (length d) (advance (length d) h) (length p)); [done|].
    simpl in Hlen. rewrite length_app in Hlen. unfold skip, advance.
    destruct (Nat.leb_spec (length d) (S h)).
    + destruct (Nat.leb_spec (length d) (0 + length p)); [lia|].
      destruct (Nat.leb_spec (length d) (h + S (length p))); lia.
    + destruct (Nat.leb_spec (length d) (S h + length p)),
        (Nat.leb_spec (length d) (h + S (length p))); lia.
Qed.

(** The bytes [Read] copies out. *)
Lemma ring_out d h t c k plen :
  ring d h t c -> (k <= length c)%nat -> (k <= plen)%nat ->
  (if (h + k <? length d)%nat then take k (drop h d)
   else take plen (drop h d) ++ take (k - length (take plen (drop h d))) d) = take k c.
Proof.
  intros H Hk Hp. destruct H as [|X C Y HY|C2 Y C1 HY HC].
  - simpl in Hk. replace k with 0%nat by lia. simpl. by rewrite take_nil.
  - apply length_pos in HY. rewrite !length_app. destruct (Nat.ltb_spec (length X + k)
      (length X + (length C + length Y))); [|lia].
    rewrite drop_app_length. by rewrite take_app_le.
  - rewrite length_app in Hk. rewrite app_assoc.
    replace (drop (length C2 + length Y) ((C2 ++ Y) ++ C1)) with C1
      by (by rewrite <- length_app, drop_app_length).
    rewrite !length_app.
    destruct (Nat.ltb_spec (length C2 + length Y + k) (length C2 + length Y + length C1)).
    + by rewrite take_app_le by lia.
    + rewrite (take_ge C1) by lia.
      rewrite <- app_assoc, (take_app_le C2), (take_app_ge C1 C2) by lia. done.
Qed.

(** * Packets *)

(** A packet in the buffer, behind its length. *)
Definition frame (p : bytes) : bytes := putUint16 (blen p) ++ p.
Definition frames (q : list bytes) : bytes := mjoin (frame <$> q).

(** The buffer holds the queue of packets [q], oldest first. *)
Record holds (b : Buffer) (q : list bytes) : Prop := {
  h_ring : ring (data b) (head b) (tail b) (frames q);
  h_count : count b = Z.of_nat (length q);
  h_small : Forall (fun p => blen p < 65536) q;
}.

Lemma frames_snoc q p : frames (q ++ [p]) = frames q ++ frame p.
Proof. unfold frames. rewrite fmap_app, join_app. simpl. by rewrite app_nil_r. Qed.

Lemma blen_frame p : blen (frame p) = 2 + blen p.
Proof. unfold frame. rewrite blen_app, blen_putUint16. lia. Qed.

Lemma decode_length n :
  0 <= n < 65536 -> Z.lor (u16 (Z.shiftl (u8 (Z.shiftr n 8)) 8)) (u8 n) = n.
Proof.
  intros Hn. pose proof (u16_split n Hn) as Hs.
  assert (byte_ok (u8 (Z.shiftr n 8)) /\ byte_ok (u8 n)) as [Ha Hb] by auto using u8_ok.
  unfold byte_ok in *. set (a := u8 (Z.shiftr n 8)) in *. set (b := u8 n) in *.
  rewrite Z.shiftl_mul_pow2 by lia. change (2 ^ 8) with 256. rewrite u16_small by lia.
  rewrite <- Z.add_nocarry_lor; [done|]. apply Z.bits_inj_0. intros i. rewrite Z.land_spec.
  destruct (Z.lt_ge_cases i 0); [by rewrite Z.testbit_neg_r|].
  destruct (Z.lt_ge_cases i 8).
  - change 256 with (2 ^ 8). by rewrite Z.mul_pow2_bits_low.
  - rewrite andb_comm. rewrite <- (Z.mod_small b (2 ^ 8)) by (change (2 ^ 8) with 256; lia).
    by rewrite Z.mod_pow2_bits_high by lia.
Qed.

(** Storing a framed packet. *)
Lemma put_frame_ring d h t c p :
  ring d h t c -> blen c + blen p + 3 <= blen d ->
  let '(d1, t1) := put_byte (u8 (Z.shiftr (blen p) 8)) d t in
  let '(d2, t2) := put_byte (u8 (blen p)) d1 t1 in
  let '(d3, t3) := put_packet p d2 t2 in
  ring d3 h t3 (c ++ frame p) /\ length d3 = length d.
Proof.
  intros H Hl. unfold blen in Hl.
  assert (t < length d)%nat as Ht by (destruct (ring_bounds _ _ _ _ H) as [(-> & _)|?]; simpl in *; lia).
  rewrite put_byte_packet by done.
  destruct (put_packet_ring d h t c [u8 (Z.shiftr (blen p) 8)] H) as [H1 L1]; [simpl; lia|].
  destruct (put_packet [_] d t) as [d1 t1]. simpl in H1, L1.
  assert (t1 < length d1)%nat as Ht1 by (destruct (ring_bounds _ _ _ _ H1) as [(-> & _)|?]; simpl in *; lia).
  rewrite put_byte_packet by done.
  destruct (put_packet_ring d1 h t1 _ [u8 (blen p)] H1) as [H2 L2]; [rewrite length_app; simpl; lia|].
  destruct (put_packet [_] d1 t1) as [d2 t2]. simpl in H2, L2.
  destruct (put_packet_ring d2 h t2 _ p H2) as [H3 L3]; [rewrite !length_app; simpl; lia|].
  destruct (put_packet p d2 t2) as [d3 t3]. simpl in H3, L3.
  rewrite <- !app_assoc in H3. simpl in H3. split; [exact H3|congruence].
Qed.

Lemma Write_holds (hard : bool) (b : Buffer) (q : list bytes) (p : bytes) :
  holds b q ->
  exists b' r,
    Write hard p b = Some (b', r) /\
    match r with
    | Ok n => n = blen p /\ holds b' (q ++ [p]) /\ notify b' = true
    | Err e => holds b' q /\ notify b' = notify b
    end /\
    closed b' = closed b /\
    r = if 65536 <=? blen p then Err errPacketTooBig
        else if closed b then Err ErrClosedPipe
        else if ((0 <? limitCount b) && (limitCount b <=? blen q)) ||
                ((0 <? limitSize b) && (limitSize b <? Size b + 2 + blen p)) ||
                (Z.max (blen (data b)) (cap hard b) <? Size b + 2 + blen p + 1)
        then Err ErrFull else Ok (blen p).
Proof.
  intros Hh. pose proof Hh as [Hr Hc Hs]. unfold Write. change 0x10000 with 65536.
  destruct (65536 <=? blen p) eqn:Ebig; boolp; [by eauto 10|].
  destruct (closed b) eqn:Ecl; [by eauto 10|].
  rewrite Hc. fold (blen q). pose proof (ring_size b _ Hr) as Hsz. unfold Size. rewrite Hsz.
  destruct (_ || _) eqn:Elim; [by eauto 10|]. rewrite orb_false_l.
  destruct (grow_until_spec hard (length p + 4) (blen p) b _ Hr) as
    (b1 & err & -> & Hr1 & Eb1 & Hb1 & Herr); [apply blen_nonneg| | |].
  { unfold blen. destruct (ring_bounds _ _ _ _ Hr) as [(-> & _ & _ & ->)|?]; simpl; lia. }
  { lia. }
  destruct err as [e|].
  - destruct Herr as [-> Hlt]. exists b1, (Err ErrFull). split_and!; [done| |by rewrite Eb1| |].
    + rewrite Eb1. by split.
    + by rewrite Eb1.
    + by rewrite (proj2 (Z.ltb_lt _ _)) by lia.
  - pose proof (put_frame_ring _ _ _ _ p Hr1 ltac:(lia)) as Hput.
    destruct (put_byte _ (data b1) _) as [d1 t1]. destruct (put_byte _ d1 t1) as [d2 t2].
    destruct (put_packet p d2 t2) as [d3 t3]. destruct Hput as [Hput _].
    eexists _, (Ok (blen p)). split; [reflexivity|]. split.
    + split; [done|]. split; [|done]. split; simpl.
      * by rewrite frames_snoc.
      * rewrite Eb1. simpl. rewrite Hc, length_app. simpl. lia.
      * apply Forall_app. split; [done|]. by constructor.
    + split; [by rewrite Eb1|]. by rewrite (proj2 (Z.ltb_ge _ _)) by lia.
Qed.

Lemma Read_holds (b : Buffer) (q : list bytes) (plen : nat) :
  holds b q ->
  match q with
  | [] => Read plen b = (b, if closed b then ReadEOF else ReadWait)
  | p :: q' =>
      exists b', Read plen b =
        (b', ReadPacket (take plen p)
               (if (plen <? length p)%nat then Some ErrShortBuffer else None)) /\
      holds b' q' /\ closed b' = closed b /\ notify b' = notify b
  end.
Proof.
  intros [Hr Hc Hs]. unfold Read. destruct q as [|p q'].
  { apply ring_empty in Hr as He. rewrite (proj2 He eq_refl), Nat.eqb_refl. simpl.
    by destruct (closed b). }
  apply Forall_cons in Hs as [Hp Hs]. pose proof (blen_nonneg p) as Hp0.
  change (frames (p :: q')) with ((u8 (Z.shiftr (blen p) 8) :: u8 (blen p) :: p) ++ frames q') in Hr.
  simpl in Hr. destruct (Nat.eqb_spec (head b) (tail b)) as [E|E].
  { by apply (ring_empty _ _ _ _ Hr) in E. }
  clear E. simpl negb. cbv iota zeta.
  apply ring_pop in Hr as [-> Hr]. apply ring_pop in Hr as [-> Hr].
  rewrite decode_length by lia.
  replace (Z.to_nat (blen p)) with (length p) by (unfold blen; lia).
  set (h2 := advance _ (advance _ _)) in *.
  set (copied := if (plen <? length p)%nat then plen else length p).
  assert (copied = Nat.min plen (length p)) as Hcop.
  { unfold copied. destruct (Nat.ltb_spec plen (length p)); lia. }
  rewrite (ring_out _ _ _ _ copied plen Hr) by (rewrite ?length_app; lia).
  rewrite take_app_le by lia. apply ring_skip in Hr as Hr'. fold (skip (length (data b)) h2 (length p)).
  assert (exists h4 t4, (if (skip (length (data b)) h2 (length p) =? tail b)%nat
      then (0%nat, 0%nat) else (skip (length (data b)) h2 (length p), tail b)) = (h4, t4) /\
      ring (data b) h4 t4 (frames q')) as (h4 & t4 & -> & Hr4).
  { destruct (Nat.eqb_spec (skip (length (data b)) h2 (length p)) (tail b)) as [E|E]; [|eauto].
    apply (ring_empty _ _ _ _ Hr') in E as ->. exists 0%nat, 0%nat. split; [done|].
    destruct (data b) eqn:Ed; [constructor|]. rewrite <- Ed.
    apply (ring_flat [] [] (data b)). by rewrite Ed. }
  eexists. split; [f_equal; f_equal|].
  - rewrite Hcop.
    destruct (decide (plen <= length p)%nat); [by rewrite Nat.min_l|].
    by rewrite Nat.min_r, !take_ge by lia.
  - unfold copied. destruct (Nat.ltb_spec plen (length p)).
    + by destruct (Nat.ltb_spec plen (length p)); [|lia].
    + by rewrite Nat.ltb_irrefl.
  - split; [|done]. split; simpl; [done| |done]. rewrite Hc. simpl. lia.
Qed.

(** * Theorems *)

(** Writing a packet: for a buffer holding the queue [q], [Write] always
    returns.  It refuses packets of 65,536 bytes or more, and any packet once
    the buffer is closed; it answers ErrFull exactly when the packet limit or
    the size limit is reached or the ring cannot grow to hold the packet; in
    every other case the packet is appended to the queue.  A refused packet
    leaves the queue unchanged. *)
Theorem Write_correct (hard : bool) (b : Buffer) (q : list bytes) (p : bytes) :
  holds b q ->
  exists b' r,
    Write hard p b = Some (b', r) /\
    match r with
    | Ok n => n = blen p /\ holds b' (q ++ [p]) /\ notify b' = true
    | Err e => holds b' q /\ notify b' = notify b
    end /\
    closed b' = closed b /\
    r = if 65536 <=? blen p then Err errPacketTooBig
        else if closed b then Err ErrClosedPipe
        else if ((0 <? limitCount b) && (limitCount b <=? blen q)) ||
                ((0 <? limitSize b) && (limitSize b <? Size b + 2 + blen p)) ||
                (Z.max (blen (data b)) (cap hard b) <? Size b + 2 + blen p + 1)
        then Err ErrFull else Ok (blen p).
Proof. apply Write_holds. Qed.

(** Reading gives the packets back in order: with packets in the buffer,
    [Read] returns the first bytes of the oldest one, as many as the caller's
    slice takes, reports a short buffer exactly when that is not all of it,
    and removes that packet whole; with none it leaves the buffer unchanged
    and reports the end of the stream exactly when the buffer is closed, and
    waits otherwise. *)
Theorem Read_correct (b : Buffer) (q : list bytes) (plen : nat) :
  holds b q ->
  match q with
  | [] => Read plen b = (b, if closed b then ReadEOF else ReadWait)
  | p :: q' =>
      exists b', Read plen b =
        (b', ReadPacket (take plen p)
               (if (plen <? length p)%nat then Some ErrShortBuffer else None)) /\
      holds b' q' /\ closed b' = closed b /\ notify b' = notify b
  end.
Proof. apply Read_holds. Qed.

(** A buffer of six bytes whose one packet goes around the end. *)
Definition wrapped_buffer : Buffer :=
  {| data := [2;3;9;0;3;1]; head := 3; tail := 2; notify := true; waiting := false;
     closed := false; count := 1; limitCount := 0; limitSize := 0 |}.

Lemma wrapped_buffer_holds : holds wrapped_buffer [[1;2;3]].
Proof.
  split; [|reflexivity|repeat constructor].
  apply (ring_wrap [2;3] [9] [0;3;1]); discriminate.
Qed.

Lemma Write_correct_witness :
  exists b' r,
    Write false [7;8] wrapped_buffer = Some (b', r) /\
    match r with
    | Ok n => n = 2 /\ holds b' [[1;2;3]; [7;8]] /\ notify b' = true
    | Err e => holds b' [[1;2;3]] /\ notify b' = true
    end /\ closed b' = false /\ r = Ok 2.
Proof. apply (Write_correct false wrapped_buffer [[1;2;3]] [7;8]), wrapped_buffer_holds. Defined.

Lemma Read_correct_witness :
  exists b', Read 2 wrapped_buffer = (b', ReadPacket [1;2] (Some ErrShortBuffer)) /\
    holds b' [] /\ closed b' = false /\ notify b' = true.
Proof. apply (Read_correct wrapped_buffer [[1;2;3]] 2), wrapped_buffer_holds. Defined.

(** * Runs *)

(** A goroutine that calls [Read]: not in a call, with what the last call
    returned; about to lock the mutex; about to evaluate the channels of the
    [select]; waiting on [notify] and on the deadline's channel [ch]. *)
Inductive reader :=
| Idle (r : option read_outcome)
| Trying
| Selecting
| Waiting (ch : nat).

(** The buffer, its read deadline, the readers, the packets written so far,
    and what was read: the room of the slice and the bytes copied. *)
Record system := {
  buf : Buffer; readDeadline : world; readers : list reader; written : list bytes;
  got : list (nat * bytes) }.

Definition set_notify (n : bool) (b : Buffer) : Buffer :=
  {| data := data b; head := head b; tail := tail b; notify := n; waiting := waiting b;
     closed := closed b; count := count b; limitCount := limitCount b;
     limitSize := limitSize b |}.

(** [SetReadDeadline]. *)
Definition SetReadDeadline (t : option Z) (s : system) : system :=
  {| buf := buf s; readDeadline := Set_ t (readDeadline s); readers := readers s;
     written := written s; got := got s |}.

Definition after_read (plen : nat) (out : read_outcome) (gs : list (nat * bytes)) :=
  match out with ReadPacket c _ => gs ++ [(plen, c)] | _ => gs end.

Definition reader_after (out : read_outcome) : reader :=
  match out with ReadWait => Selecting | _ => Idle (Some out) end.

(** The first [select] of [Read]: return at once if the deadline has been
    signalled, go on otherwise. *)
Definition call_Read (d : world) : reader :=
  if decide (done (dl d) ∈ Deadline.closed d) then Idle (Some ReadTimeout) else Trying.

(** The interleavings of readers inside [Read] with the other operations and
    with the deadline's timer. *)
Inductive bstep (hard : bool) : system -> system -> Prop :=
| bs_write p b b' d rs ws gs r :
    Write hard p b = Some (b', r) ->
    bstep hard {| buf := b; readDeadline := d; readers := rs; written := ws; got := gs |}
      {| buf := b'; readDeadline := d; readers := rs;
         written := if is_ok r then ws ++ [p] else ws; got := gs |}
| bs_close b d rs ws gs :
    bstep hard {| buf := b; readDeadline := d; readers := rs; written := ws; got := gs |}
      {| buf := Close b; readDeadline := d; readers := rs; written := ws; got := gs |}
| bs_limitCount n b d rs ws gs :
    bstep hard {| buf := b; readDeadline := d; readers := rs; written := ws; got := gs |}
      {| buf := SetLimitCount n b; readDeadline := d; readers := rs; written := ws; got := gs |}
| bs_limitSize n b d rs ws gs :
    bstep hard {| buf := b; readDeadline := d; readers := rs; written := ws; got := gs |}
      {| buf := SetLimitSize n b; readDeadline := d; readers := rs; written := ws; got := gs |}
| bs_setDeadline t s : bstep hard s (SetReadDeadline t s)
| bs_deadline b d d' rs ws gs :
    dstep d d' ->
    bstep hard {| buf := b; readDeadline := d; readers := rs; written := ws; got := gs |}
      {| buf := b; readDeadline := d'; readers := rs; written := ws; got := gs |}
| bs_call i r b d rs ws gs :
    rs !! i = Some (Idle r) ->
    bstep hard {| buf := b; readDeadline := d; readers := rs; written := ws; got := gs |}
      {| buf := b; readDeadline := d; readers := <[i := call_Read d]> rs; written := ws;
         got := gs |}
| bs_try i plen b b' out d rs ws gs :
    rs !! i = Some Trying -> Read plen b = (b', out) ->
    bstep hard {| buf := b; readDeadline := d; readers := rs; written := ws; got := gs |}
      {| buf := b'; readDeadline := d; readers := <[i := reader_after out]> rs; written := ws;
         got := after_read plen out gs |}
| bs_select i b d rs ws gs :
    rs !! i = Some Selecting ->
    bstep hard {| buf := b; readDeadline := d; readers := rs; written := ws; got := gs |}
      {| buf := b; readDeadline := d; readers := <[i := Waiting (done (dl d))]> rs;
         written := ws; got := gs |}
| bs_wake i ch b d rs ws gs :
    (** receiving from the channel: a closed one stays ready *)
    rs !! i = Some (Waiting ch) -> notify b = true ->
    bstep hard {| buf := b; readDeadline := d; readers := rs; written := ws; got := gs |}
      {| buf := set_notify (closed b) b; readDeadline := d; readers := <[i := Trying]> rs;
         written := ws; got := gs |}
| bs_timeout i ch b d rs ws gs :
    rs !! i = Some (Waiting ch) -> ch ∈ Deadline.closed d ->
    bstep hard {| buf := b; readDeadline := d; readers := rs; written := ws; got := gs |}
      {| buf := b; readDeadline := d; readers := <[i := Idle (Some ReadTimeout)]> rs;
         written := ws; got := gs |}.

(** A new buffer at time [t], with [n] goroutines that read. *)
Definition start (n : nat) (t : Z) : system :=
  {| buf := NewBuffer; readDeadline := init t; readers := replicate n (Idle None);
     written := []; got := [] |}.

(** The packets written are those read, then those in the buffer. *)
Definition fifo (s : system) : Prop :=
  exists read q, written s = read ++ q /\ holds (buf s) q /\
    Forall2 (fun g p => g.2 = take g.1 p) (got s) read.

Lemma holds_fields b b' q :
  data b' = data b -> head b' = head b -> tail b' = tail b -> count b' = count b ->
  holds b q -> holds b' q.
Proof. intros E1 E2 E3 E4 [? ? ?]. split; [by rewrite E1, E2, E3|by rewrite E4|done]. Qed.

Lemma holds_new : holds NewBuffer [].
Proof. split; [constructor|done|constructor]. Qed.

Lemma fifo_step hard s s' : bstep hard s s' -> fifo s -> fifo s'.
Proof.
  intros H (rd & q & Hw & Hh & Hg). destruct H as [p b b' d rs ws gs r E|b|n b|n b|t s|b d d'|
    i r b|i plen b b' out d rs ws gs Hi E|i b|i ch b|i ch b]; simpl in *;
    try (exists rd, q; split_and!; try done; by apply (holds_fields b)).
  - destruct (Write_holds hard b q p Hh) as (b1 & r1 & E1 & Hr & _). simplify_eq.
    destruct r as [n|e]; simpl.
    + exists rd, (q ++ [p]). split_and!; [by rewrite app_assoc|apply Hr|done].
    + exists rd, q. by destruct Hr.
  - exists rd, q. split_and!; try done. unfold Close. simpl. destruct (closed b); [done|].
    by apply (holds_fields b).
  - pose proof (Read_holds b q plen Hh) as Hr. destruct q as [|p q'].
    + rewrite Hr in E. simplify_eq. exists rd, []. by destruct (closed b').
    + destruct Hr as (b1 & E1 & Hh1 & _). rewrite E1 in E. simplify_eq.
      exists (rd ++ [p]), q'. split_and!; [by rewrite <- app_assoc|done|]. simpl.
      apply Forall2_app; [done|]. by constructor.
Qed.

(** A lone reader does not wait in vain. *)
Definition blocked (r : reader) : Prop :=
  match r with Selecting | Waiting _ => True | _ => False end.

Record lone_inv (s : system) : Prop := {
  li_wake : Forall blocked (readers s) -> head (buf s) <> tail (buf s) -> notify (buf s) = true;
  li_closed : closed (buf s) = true -> notify (buf s) = true;
  li_one : length (readers s) = 1%nat;
}.

Lemma call_Read_blocked d : ~ blocked (call_Read d).
Proof. unfold call_Read. case_decide; auto. Qed.

Lemma lone_step hard s s' : bstep hard s s' -> fifo s -> lone_inv s -> lone_inv s'.
Proof.
  intros H (rd & q & _ & Hh & _) [Hw Hc Hl].
  destruct H as [p b b' d rs ws gs r E|b|n b|n b|t s|b d d'|
    i r b d rs ws gs Hi|i plen b b' out d rs ws gs Hi E|i b d rs ws gs Hi|
    i ch b d rs ws gs Hi Hn|i ch b d rs ws gs Hi Hn]; simpl in *; try by split.
  - destruct (Write_holds hard b q p Hh) as (b1 & r1 & E1 & Hr & Hcl & _). simplify_eq.
    destruct r as [n|e]; [destruct Hr as (_ & _ & Hn); by split|]. destruct Hr as [Hh' Hn].
    split; simpl; [|by rewrite Hcl, Hn|done]. rewrite Hn. intros Hrs Hne. apply Hw; [done|].
    intros Heq. apply Hne. apply (ring_empty _ _ _ _ (h_ring _ _ Hh')).
    by apply (ring_empty _ _ _ _ (h_ring _ _ Hh)).
  - unfold Close. destruct (closed b) eqn:Ec; by split; simpl; auto.
  - destruct rs as [|r0 [|? ?]]; try done. destruct i; [|done]. split; simpl; [|done..].
    intros Hb. apply Forall_inv in Hb. by apply call_Read_blocked in Hb.
  - destruct rs as [|r0 [|? ?]]; try done. destruct i; [|done]. simpl in Hi. simplify_eq. simpl.
    pose proof (Read_holds b q plen Hh) as Hr. destruct q as [|p q'].
    + rewrite Hr in E. simplify_eq. split; [|done|done]. simpl. intros _ Hne. exfalso. apply Hne.
      by apply (ring_empty _ _ _ _ (h_ring _ _ Hh)).
    + destruct Hr as (b1 & E1 & Hh1 & Hcl & Hn). rewrite E1 in E. simplify_eq.
      split; simpl; [|by rewrite Hcl, Hn|done]. intros Hb. by apply Forall_inv in Hb.
  - destruct rs as [|r0 [|? ?]]; try done. destruct i; [|done]. simpl in Hi. simplify_eq.
    split; simpl; [|done..]. intros _. apply Hw. by constructor.
  - destruct rs as [|r0 [|? ?]]; try done. destruct i; [|done].
    split; simpl; [|done..]. intros Hb. by apply Forall_inv in Hb.
  - destruct rs as [|r0 [|? ?]]; try done. destruct i; [|done].
    split; simpl; [|done..]. intros Hb. by apply Forall_inv in Hb.
Qed.

Lemma start_fifo n t : fifo (start n t).
Proof. exists [], []. split; [done|]. split; [apply holds_new|constructor]. Qed.

Lemma run_fifo hard n t s : rtc (bstep hard) (start n t) s -> fifo s.
Proof.
  intros H. pose proof (start_fifo n t) as H0. revert H0.
  induction H as [|x y z Hxy _ IH]; [done|]. intros Hx. apply IH. by eapply fifo_step.
Qed.

Lemma run_lone hard t s : rtc (bstep hard) (start 1 t) s -> fifo s /\ lone_inv s.
Proof.
  intros H. assert (fifo (start 1 t) /\ lone_inv (start 1 t)) as H0.
  { split; [apply start_fifo|by split]. }
  revert H0. induction H as [|x y z Hxy _ IH]; [done|]. intros [Hf Hl]. apply IH.
  split; [by eapply fifo_step|by eapply lone_step].
Qed.

(** The deadline is sound, and no reader waits on a channel not made yet. *)
Record deadline_inv (s : system) : Prop := {
  dl_ok : dinv (readDeadline s);
  dl_chan : forall i ch, readers s !! i = Some (Waiting ch) ->
    (ch <= done (dl (readDeadline s)))%nat;
}.

(** The steps at which the deadline has no more than 255 outstanding callbacks. *)
Definition calm (hard : bool) (s s' : system) : Prop := bstep hard s s' /\ few (readDeadline s').

Lemma deadline_inv_step hard s s' : calm hard s s' -> deadline_inv s -> deadline_inv s'.
Proof.
  intros [H Hf] [Ho Hc]. assert (forall d, dstep (readDeadline s) d ->
    forall i ch, readers s !! i = Some (Waiting ch) -> (ch <= done (dl d))%nat) as Hmono.
  { intros d Hd i ch Hi. etrans; [by eapply Hc|]. by apply dstep_done. }
  destruct H as [p b b' d rs ws gs r E|b|n b|n b|t s|b d d' rs ws gs Hd|
    i r b d rs ws gs Hi|i plen b b' out d rs ws gs Hi E|i b d rs ws gs Hi|
    i ch b d rs ws gs Hi Hn|i ch b d rs ws gs Hi Hn]; simpl in *; try by split.
  - split; [by apply dinv_set|]. apply Hmono. apply ds_set.
  - split; [by eapply dinv_step; [split|]|]. by apply Hmono.
  - split; [done|]. simpl. intros j c [[-> [Hx _]]|[_ ?]]%list_lookup_insert_Some; [|by eapply Hc].
    unfold call_Read in Hx. by case_decide.
  - split; [done|]. simpl. intros j c [[-> [Hx _]]|[_ ?]]%list_lookup_insert_Some; [|by eapply Hc].
    by destruct out.
  - split; [done|]. simpl. intros j c [[-> [[= ->] _]]|[_ ?]]%list_lookup_insert_Some; [done|by eapply Hc].
  - split; [done|]. simpl. intros j c [[-> [Hx _]]|[_ ?]]%list_lookup_insert_Some; [done|by eapply Hc].
  - split; [done|]. simpl. intros j c [[-> [Hx _]]|[_ ?]]%list_lookup_insert_Some; [done|by eapply Hc].
Qed.

Lemma run_deadline hard n t s : rtc (calm hard) (start n t) s -> deadline_inv s.
Proof.
  intros H. assert (deadline_inv (start n t)) as H0.
  { split; [apply dinv_init|]. simpl. intros i ch [Hx _]%lookup_replicate. done. }
  revert H0. induction H as [|x y z Hxy _ IH]; [done|]. intros Hx. apply IH.
  by eapply deadline_inv_step.
Qed.

Lemma run_runtime hard b d d' rs ws gs :
  rtc rstep d d' ->
  rtc (bstep hard) {| buf := b; readDeadline := d; readers := rs; written := ws; got := gs |}
    {| buf := b; readDeadline := d'; readers := rs; written := ws; got := gs |}.
Proof.
  induction 1; [apply rtc_refl|]. eapply rtc_l; [|done]. by apply bs_deadline, ds_runtime.
Qed.

(** C10. Packets come out in the order they went in, for any interleaving of
    writers, closers, deadlines and any number of concurrent readers: the
    packets whose writes succeeded are, in order, those that were read, each
    copied up to the room its reader had, followed by those still in the
    buffer. *)
Theorem packets_fifo (hard : bool) (n : nat) (t : Z) (s : system) :
  rtc (bstep hard) (start n t) s -> fifo s.
Proof. apply run_fifo. Qed.

(** A single reader never misses a wake-up: whenever it waits while the
    buffer has a packet or is closed, the channel is ready, so the next step
    that wakes it is enabled. *)
Theorem lone_reader_not_stuck (hard : bool) (t : Z) (ch : nat) (s : system) :
  rtc (bstep hard) (start 1 t) s -> readers s = [Waiting ch] ->
  (closed (buf s) = true \/ exists p q, holds (buf s) (p :: q)) ->
  exists s', bstep hard s s' /\ readers s' = [Trying].
Proof.
  intros H Hr Hd. destruct (run_lone hard t s H) as [_ [Hw Hc _]].
  assert (notify (buf s) = true) as Hn.
  { destruct Hd as [?|(p & q & Hh)]; [auto|]. apply Hw; [rewrite Hr; by repeat constructor|].
    intros E. by apply (ring_empty _ _ _ _ (h_ring _ _ Hh)) in E. }
  destruct s as [b d rs ws gs]. simpl in *. subst.
  eexists. split; [by apply (bs_wake hard 0 ch)|done].
Qed.

(** A blocked [Read] does not outlive its deadline: whatever happened to
    the buffer and to the deadline before, a reader that waits when the read
    deadline has passed is timed out after finitely many steps of the
    deadline's timer callbacks, with the buffer as it was; also when the
    deadline was moved after the reader began to wait.  Of the callbacks of the
    deadline's timers never more than 255 are outstanding. *)
Theorem waiting_reader_times_out (hard : bool) (n : nat) (t : Z) (i ch : nat) (s : system) :
  rtc (calm hard) (start n t) s -> readers s !! i = Some (Waiting ch) ->
  due (readDeadline s) ->
  exists s', rtc (bstep hard) s s' /\ readers s' !! i = Some (Idle (Some ReadTimeout)) /\
    buf s' = buf s /\ written s' = written s /\ got s' = got s.
Proof.
  intros H Hi Hdue. destruct (run_deadline _ _ _ _ H) as [Ho Hc]. specialize (Hc _ _ Hi).
  destruct s as [b d rs ws gs]. simpl in *.
  destruct (quiesce_chan_closed d ch Ho Hc Hdue) as (d' & Hr & Hch).
  eexists. split; [eapply rtc_r; [by apply run_runtime|by apply (bs_timeout hard i ch)]|].
  simpl. split; [|done]. apply list_lookup_insert_eq. by eapply lookup_lt_Some.
Qed.

(** ** Concrete runs *)

Definition wrote (p : bytes) (b : Buffer) : Buffer :=
  match Write false p b with Some (b', _) => b' | None => b end.
Definition b1 : Buffer := wrote [1] NewBuffer.
Definition b2 : Buffer := wrote [2] b1.
Definition b3 : Buffer := fst (Read 9 (set_notify false b2)).

(** Steps 0 to 2 of reader [i] of a new buffer: it waits. *)
Lemma run_to_wait i d rs ws gs :
  rs !! i = Some (Idle None) -> done (dl d) ∉ Deadline.closed d ->
  rtc (bstep false)
    {| buf := NewBuffer; readDeadline := d; readers := rs; written := ws; got := gs |}
    {| buf := NewBuffer; readDeadline := d; readers := <[i := Waiting (done (dl d))]> rs;
       written := ws; got := gs |}.
Proof.
  intros Hi Hd. assert (i < length rs)%nat as Hlt by (by eapply lookup_lt_Some).
  eapply rtc_l; [by apply (bs_call false i None)|].
  unfold call_Read. rewrite decide_False by done.
  eapply rtc_l; [apply (bs_try false i 9 NewBuffer NewBuffer ReadWait);
    [by apply list_lookup_insert_eq|reflexivity]|]. rewrite list_insert_insert_eq.
  eapply rtc_l; [apply (bs_select false i); by apply list_lookup_insert_eq|].
  rewrite list_insert_insert_eq. apply rtc_refl.
Qed.

Lemma run_two_readers : rtc (bstep false) (start 2 0)
  {| buf := b3; readDeadline := init 0;
     readers := [Idle (Some (ReadPacket [1] None)); Waiting 0]; written := [[1]; [2]];
     got := [(9%nat, [1])] |}.
Proof.
  etrans; [apply (run_to_wait 0); [reflexivity|set_solver]|].
  etrans; [apply (run_to_wait 1); [reflexivity|set_solver]|].
  eapply rtc_l; [apply (bs_write false [1] NewBuffer b1 _ _ _ _ (Ok 1)); vm_compute; reflexivity|].
  eapply rtc_l; [apply (bs_write false [2] b1 b2 _ _ _ _ (Ok 1)); vm_compute; reflexivity|].
  eapply rtc_l; [apply (bs_wake false 0 0 b2); reflexivity|].
  apply rtc_once.
  apply (bs_try false 0 9 (set_notify false b2) b3 (ReadPacket [1] None)); [reflexivity|].
  vm_compute. reflexivity.
Qed.

Lemma packets_fifo_witness : fifo
  {| buf := b3; readDeadline := init 0;
     readers := [Idle (Some (ReadPacket [1] None)); Waiting 0]; written := [[1]; [2]];
     got := [(9%nat, [1])] |}.
Proof. apply (packets_fifo false 2 0), run_two_readers. Defined.

Lemma run_one_reader : rtc (bstep false) (start 1 0)
  {| buf := b1; readDeadline := init 0; readers := [Waiting 0]; written := [[1]]; got := [] |}.
Proof.
  etrans; [apply (run_to_wait 0); [reflexivity|set_solver]|].
  apply rtc_once. apply (bs_write false [1] NewBuffer b1 _ [Waiting 0] [] [] (Ok 1)).
  vm_compute. reflexivity.
Qed.

Lemma b1_holds : holds b1 [[1]].
Proof.
  destruct (run_fifo _ _ _ _ run_one_reader) as (rd & q & Hw & Hh & Hg).
  cbn [buf written got] in *. inversion Hg; subst. cbn in Hw. by rewrite Hw.
Qed.

Lemma lone_reader_not_stuck_witness :
  exists s', bstep false {| buf := b1; readDeadline := init 0; readers := [Waiting 0];
                            written := [[1]]; got := [] |} s' /\
    readers s' = [Trying].
Proof.
  apply (lone_reader_not_stuck false 0 0); [apply run_one_reader|reflexivity|].
  right. exists [1], []. apply b1_holds.
Defined.

(** A reader waits, then its deadline is set and passes. *)
Definition late : system :=
  {| buf := NewBuffer; readers := [Waiting 0]; written := []; got := [];
     readDeadline := {| dl := dl (Set_ (Some 10) (init 0)); now := 10; inflight := 0;
                        closing := []; Deadline.closed := ∅; panicked := false |} |}.

Lemma late_reachable : rtc (calm false) (start 1 0) late.
Proof.
  assert (forall s s', bstep false s s' -> (inflight (readDeadline s') <= 255)%nat -> calm false s s')
    as Hc by (by split).
  eapply rtc_l; [apply Hc; [by apply (bs_call false 0 None)|simpl; lia]|].
  eapply rtc_l; [apply Hc; [by apply (bs_try false 0 9 NewBuffer NewBuffer ReadWait)|simpl; lia]|].
  eapply rtc_l; [apply Hc; [by apply (bs_select false 0)|simpl; lia]|].
  eapply rtc_l; [apply Hc; [apply (bs_setDeadline false (Some 10))|simpl; lia]|].
  apply rtc_once, Hc; [|simpl; lia]. apply bs_deadline. apply (ds_wait (Set_ (Some 10) (init 0)) 10). lia.
Qed.

Lemma waiting_reader_times_out_witness :
  exists s', rtc (bstep false) late s' /\ readers s' !! 0%nat = Some (Idle (Some ReadTimeout)) /\
    buf s' = NewBuffer /\ written s' = [] /\ got s' = [].
Proof.
  apply (waiting_reader_times_out false 1 0 0 0 late); [apply late_reachable|reflexivity|].
  exists 10. split; [reflexivity|simpl; lia].
Defined.

(** Two concurrent readers can miss one: both wait, two packets are
    written, the channel's single slot wakes one reader, which takes the first
    packet; the other is left waiting on an empty channel although the buffer,
    which is not closed, holds the second packet. *)
Theorem two_readers_miss_a_packet :
  exists s, rtc (bstep false) (start 2 0) s /\
    readers s !! 1%nat = Some (Waiting 0) /\ holds (buf s) [[2]] /\
    closed (buf s) = false /\ notify (buf s) = false.
Proof.
  eexists. split; [apply run_two_readers|]. cbn [buf readers].
  destruct (run_fifo _ _ _ _ run_two_readers) as (rd & q & Hw & Hh & Hg).
  cbn [buf written got] in *. inversion Hg as [|g p gs ps _ Hgs]; subst.
  inversion Hgs; subst. injection Hw as _ <-.
  split; [reflexivity|]. split; [exact Hh|]. split; vm_compute; reflexivity.
Qed.
