(* ===== verification/VnetChunk.v ===== *)
(** The packets of the virtual network: chunk.go and chunk_queue.go of
    lib/pion-transport/vnet, with the resolver calls of package net that set
    the addresses of a chunk from text. *)

From S2P Require Import Prelude GoNet GoText.

#[local] Open Scope string_scope.
#[local] Open Scope list_scope.
#[local] Open Scope Z_scope.

(** * Package net *)

(** The text before and after the first and the last [c]. *)
Fixpoint split_first (c : ascii) (s : string) : option (string * string) :=
  match s with
  | EmptyString => None
  | String d s' =>
      if ascii_dec c d then Some ("", s')
      else (fun r => (String d (fst r), snd r)) <$> split_first c s'
  end.

Fixpoint split_last (c : ascii) (s : string) : option (string * string) :=
  match s with
  | EmptyString => None
  | String d s' =>
      match split_last c s' with
      | Some (a, b) => Some (String d a, b)
      | None => if ascii_dec c d then Some ("", s') else None
      end
  end.

(** [net.SplitHostPort]; [None] is any of its errors. *)
Definition SplitHostPort (s : string) : option (string * string) :=
  match split_last ":" s with
  | None => None
  | Some (before, port) =>
      match s with
      | String "[" rest =>
          match split_first "]" rest with
          | None => None
          | Some (host, after) =>
              if String.eqb after (":" +:+ port) && negb (has_char "[" rest) && negb (has_char "]" after)
              then Some (host, port) else None
          end
      | _ =>
          if has_char ":" before || has_char "[" s || has_char "]" s then None else Some (before, port)
      end
  end.

(** [net.ResolveUDPAddr] and [net.ResolveTCPAddr] of an IP literal with a
    number as port; names of hosts and services are not looked up. *)
Definition ResolveAddr (s : string) : option (IP * Z) :=
  match SplitHostPort s with
  | None => None
  | Some (host, port) =>
      match (if String.eqb port "" then Some 0 else ParseUint port 16) with
      | None => None
      | Some p => if String.eqb host "" then Some ([], p) else (fun ip => (ip, p)) <$> ParseIP host
      end
  end.

(** * chunk.go *)

Record chunkIP := { timestamp : Z; sourceIP : IP; destinationIP : IP; tag : string }.

Record chunkUDP := {
  u_ip : chunkIP;
  u_sourcePort : Z;
  u_destinationPort : Z;
  u_userData : bytes;
}.

Record chunkTCP := {
  t_ip : chunkIP;
  t_sourcePort : Z;
  t_destinationPort : Z;
  t_flags : Z;
  t_userData : bytes;
}.

(** The interface [Chunk] and its two implementations. *)
Inductive Chunk := ChunkUDP (c : chunkUDP) | ChunkTCP (c : chunkTCP).

(** [newChunkUDP] and [newChunkTCP]; the tag comes from a counter. *)
Definition newChunkUDP (srcIP : IP) (srcPort : Z) (dstIP : IP) (dstPort : Z) (tag : string) : chunkUDP :=
  {| u_ip := {| timestamp := 0; sourceIP := srcIP; destinationIP := dstIP; tag := tag |};
     u_sourcePort := srcPort; u_destinationPort := dstPort; u_userData := [] |}.

Definition newChunkTCP (srcIP : IP) (srcPort : Z) (dstIP : IP) (dstPort : Z) (flags : Z) (tag : string) : chunkTCP :=
  {| t_ip := {| timestamp := 0; sourceIP := srcIP; destinationIP := dstIP; tag := tag |};
     t_sourcePort := srcPort; t_destinationPort := dstPort; t_flags := flags; t_userData := [] |}.

Definition chunk_ip (c : Chunk) : chunkIP :=
  match c with ChunkUDP c => u_ip c | ChunkTCP c => t_ip c end.

Definition getSourceIP (c : Chunk) : IP := sourceIP (chunk_ip c).
Definition getDestinationIP (c : Chunk) : IP := destinationIP (chunk_ip c).

Definition SourceAddr (c : Chunk) : net_Addr :=
  match c with
  | ChunkUDP u => UDPAddr (sourceIP (u_ip u)) (u_sourcePort u) ""
  | ChunkTCP t => TCPAddr (sourceIP (t_ip t)) (t_sourcePort t) ""
  end.

Definition DestinationAddr (c : Chunk) : net_Addr :=
  match c with
  | ChunkUDP u => UDPAddr (destinationIP (u_ip u)) (u_destinationPort u) ""
  | ChunkTCP t => TCPAddr (destinationIP (t_ip t)) (t_destinationPort t) ""
  end.

Definition UserData (c : Chunk) : bytes :=
  match c with ChunkUDP u => u_userData u | ChunkTCP t => t_userData t end.

(** [Clone]: that of a TCP chunk has neither tag nor flags. *)
Definition Clone (c : Chunk) : Chunk :=
  match c with
  | ChunkUDP u => ChunkUDP u
  | ChunkTCP t =>
      ChunkTCP {| t_ip := {| timestamp := timestamp (t_ip t); sourceIP := sourceIP (t_ip t);
                             destinationIP := destinationIP (t_ip t); tag := "" |};
                  t_sourcePort := t_sourcePort t; t_destinationPort := t_destinationPort t;
                  t_flags := 0; t_userData := t_userData t |}
  end.

Definition Network (c : Chunk) : string :=
  match c with ChunkUDP _ => "udp" | ChunkTCP _ => "tcp" end.

Definition set_sourceIP (ip : IP) (c : chunkIP) : chunkIP :=
  {| timestamp := timestamp c; sourceIP := ip; destinationIP := destinationIP c; tag := tag c |}.
Definition set_destinationIP (ip : IP) (c : chunkIP) : chunkIP :=
  {| timestamp := timestamp c; sourceIP := sourceIP c; destinationIP := ip; tag := tag c |}.

Definition setSourceAddr (address : string) (c : Chunk) : option Chunk :=
  a ← ResolveAddr address;
  let '(ip, port) := a in
  Some match c with
       | ChunkUDP u => ChunkUDP {| u_ip := set_sourceIP ip (u_ip u); u_sourcePort := port;
                                   u_destinationPort := u_destinationPort u; u_userData := u_userData u |}
       | ChunkTCP t => ChunkTCP {| t_ip := set_sourceIP ip (t_ip t); t_sourcePort := port;
                                   t_destinationPort := t_destinationPort t; t_flags := t_flags t;
                                   t_userData := t_userData t |}
       end.

Definition setDestinationAddr (address : string) (c : Chunk) : option Chunk :=
  a ← ResolveAddr address;
  let '(ip, port) := a in
  Some match c with
       | ChunkUDP u => ChunkUDP {| u_ip := set_destinationIP ip (u_ip u); u_sourcePort := u_sourcePort u;
                                   u_destinationPort := port; u_userData := u_userData u |}
       | ChunkTCP t => ChunkTCP {| t_ip := set_destinationIP ip (t_ip t); t_sourcePort := t_sourcePort t;
                                   t_destinationPort := port; t_flags := t_flags t;
                                   t_userData := t_userData t |}
       end.

(** * chunk_queue.go *)

Record chunkQueue := { chunks : list Chunk; maxSize : Z; maxBytes : Z; currentBytes : Z }.

Definition newChunkQueue (maxSize maxBytes : Z) : chunkQueue :=
  {| chunks := []; maxSize := maxSize; maxBytes := maxBytes; currentBytes := 0 |}.

Definition push (c : Chunk) (q : chunkQueue) : bool * chunkQueue :=
  if (0 <? maxSize q) && (maxSize q <=? Z.of_nat (length (chunks q))) then (false, q)
  else if (0 <? maxBytes q) && (maxBytes q <=? currentBytes q + blen (UserData c)) then (false, q)
  else (true, {| chunks := chunks q ++ [c]; maxSize := maxSize q; maxBytes := maxBytes q;
                 currentBytes := currentBytes q + blen (UserData c) |}).

Definition pop (q : chunkQueue) : option Chunk * chunkQueue :=
  match chunks q with
  | [] => (None, q)
  | c :: cs => (Some c, {| chunks := cs; maxSize := maxSize q; maxBytes := maxBytes q;
                           currentBytes := currentBytes q - blen (UserData c) |})
  end.

Definition peek (q : chunkQueue) : option Chunk := hd_error (chunks q).

(** * Resolving printed addresses *)

Lemma split_first_app c a b : has_char c a = false -> split_first c (a +:+ String c b) = Some (a, b).
Proof.
  induction a as [|d a IH]; simpl.
  - intros _. by destruct (ascii_dec c c).
  - destruct (ascii_dec c d); [done|]. intros H. by rewrite IH.
Qed.

Lemma split_last_none c s : has_char c s = false -> split_last c s = None.
Proof. induction s as [|d s IH]; simpl; [done|]. destruct (ascii_dec c d); [done|]. intros H. by rewrite IH. Qed.

Lemma split_last_app c a b : has_char c b = false -> split_last c (a +:+ String c b) = Some (a, b).
Proof.
  intros Hb. induction a as [|d a IH]; simpl.
  - rewrite split_last_none by done. by destruct (ascii_dec c c).
  - by rewrite IH.
Qed.

Lemma SplitHostPort_join host port : has_char "[" host = false -> has_char "]" host = false ->
  has_char ":" port = false -> has_char "[" port = false -> has_char "]" port = false -> host <> "" ->
  SplitHostPort (JoinHostPort host port) = Some (host, port).
Proof.
  intros H1 H2 H3 H4 H5 Hne. unfold JoinHostPort. destruct (has_char ":" host) eqn:Hc.
  - unfold SplitHostPort. replace ("[" +:+ host +:+ "]:" +:+ port) with (("[" +:+ host +:+ "]") +:+ String ":" port)
      by (by rewrite !string_app_assoc).
    rewrite split_last_app by done. rewrite !string_app_assoc, app_cons. cbn [String.append].
    replace ("" +:+ (host +:+ "]" +:+ String ":" port)) with (host +:+ String "]" (":" +:+ port)) by done.
    rewrite split_first_app by done. rewrite String.eqb_refl, !has_char_app. cbn [has_char]. rewrite H1. simpl.
    change ("" +:+ port) with port. by rewrite H4, H5.
  - unfold SplitHostPort. change (host +:+ ":" +:+ port) with (host +:+ String ":" port).
    rewrite split_last_app by done. rewrite !has_char_app, Hc, H1, H2. simpl. rewrite H4, H5.
    destruct host as [|d host]; [done|]. rewrite app_cons. destruct (ascii_dec "[" d) as [<-|Hd]; [done|].
    by destruct d as [[] [] [] [] [] [] [] []].
Qed.

Lemma ResolveAddr_printed ip p : valid_ip ip -> 0 <= p < 65536 ->
  ResolveAddr (JoinHostPort (NetIP.ipString ip) (NetIP.dec p)) = Some (To16 ip, p).
Proof.
  intros Hip Hp. assert (NetIP.ipString ip <> "") as Hne.
  { intros E. pose proof (ParseIP_String ip Hip) as H. by rewrite E in H. }
  unfold ResolveAddr. rewrite SplitHostPort_join; try done;
    try (by apply ipString_no_sep); try (unfold NetIP.dec; by apply digits_sep).
  rewrite (proj2 (String.eqb_neq (NetIP.dec p) "")) by apply dec_nonempty. rewrite ParseUint_dec by lia.
  rewrite (proj2 (String.eqb_neq _ "")) by done. by rewrite ParseIP_String.
Qed.

Lemma ResolveAddr_addr a : valid_addr a -> ResolveAddr (addrString a) = Some (To16 (addr_ip a), addr_port a).
Proof.
  intros H. destruct a as [ip p z|ip p z|]; simpl in *; try done; destruct H as (H1 & H2 & ->);
    rewrite hostPort_valid by (done || lia); by apply ResolveAddr_printed.
Qed.

Lemma To16_valid ip : valid_ip ip -> valid_ip (To16 ip).
Proof.
  intros [[H|H] Hb]; unfold To16; case_decide; try done; try lia; (split; [|]); try done; auto.
  - right. rewrite length_app. simpl. lia.
  - apply Forall_app. split; [|done]. by repeat constructor.
Qed.

Lemma To16_norm ip : valid_ip ip -> norm (To16 ip) = norm ip.
Proof.
  intros [[H|H] Hb]; unfold To16; case_decide; try done; try lia.
  rewrite norm_16 by (rewrite length_app; simpl; lia). rewrite norm_4 by done. by rewrite take_app_length', decide_True, drop_app_length' by done.
Qed.

Lemma To16_Equal ip : valid_ip ip -> NetIP.Equal (To16 ip) ip = true.
Proof. intros H. apply Equal_norm; [by apply To16_valid|done|by apply To16_norm]. Qed.

(** * The queue *)

(** The bytes counted are those of the chunks held. *)
Definition queue_ok (q : chunkQueue) : Prop :=
  currentBytes q = foldr (fun c n => blen (UserData c) + n) 0 (chunks q) /\
  (0 < maxSize q -> Z.of_nat (length (chunks q)) <= maxSize q) /\
  (0 < maxBytes q -> chunks q <> [] -> currentBytes q < maxBytes q).

Lemma bytes_app l c : foldr (fun c n => blen (UserData c) + n) 0 (l ++ [c]) =
  foldr (fun c n => blen (UserData c) + n) 0 l + blen (UserData c).
Proof. induction l as [|x l IH]; simpl; [lia|]. rewrite IH. lia. Qed.

(** The queue is first in, first out and respects its limits: a push is
    refused only when a limit would be reached and then changes nothing, a pop
    takes the oldest chunk, and the byte count is always that of the chunks
    held. *)
Theorem chunk_queue_correct q c : queue_ok q ->
  (let '(ok, q') := push c q in
   queue_ok q' /\ chunks q' = chunks q ++ (if ok then [c] else []) /\
   (ok = false -> (0 < maxSize q /\ maxSize q <= Z.of_nat (length (chunks q))) \/
                  (0 < maxBytes q /\ maxBytes q <= currentBytes q + blen (UserData c)))) /\
  (let '(r, q') := pop q in queue_ok q' /\ r = peek q /\ chunks q = option_list r ++ chunks q').
Proof.
  intros (H1 & H2 & H3). split.
  - unfold push. destruct (Z.ltb_spec 0 (maxSize q)), (Z.leb_spec (maxSize q) (Z.of_nat (length (chunks q)))); simpl;
      try (rewrite app_nil_r; split_and!; auto; by split_and!).
    all: destruct (Z.ltb_spec 0 (maxBytes q)), (Z.leb_spec (maxBytes q) (currentBytes q + blen (UserData c))); simpl;
      try (rewrite app_nil_r; split_and!; auto; by split_and!).
    all: split_and!; try done; unfold queue_ok; simpl; rewrite bytes_app, length_app; simpl; split_and!; try lia.
  - unfold pop, peek. destruct (chunks q) as [|x cs] eqn:E; simpl; split_and!; try done; unfold queue_ok; simpl in *; rewrite ?E; split_and!; try done; try lia.
    intros Hb Hne. specialize (H3 Hb ltac:(done)). pose proof (blen_nonneg (UserData x)). lia.
Qed.
