(* ===== verification/VnetConnMap.v ===== *)
(** The table of UDP sockets of a host in the virtual network: conn_map.go of
    lib/pion-transport/vnet.  A socket is known by a number and by the address
    it is bound to. *)

From S2P Require Import Prelude GoNet GoText VnetChunk.

#[local] Open Scope list_scope.
#[local] Open Scope Z_scope.

Inductive conn_error := errAddressAlreadyInUse | errNoSuchUDPConn | errCannotRemoveUnspecifiedIP.

#[export] Instance conn_error_eq_dec : EqDecision conn_error.
Proof. solve_decision. Defined.

(** [IP.IsUnspecified]. *)
Definition IsUnspecified (ip : IP) : bool :=
  NetIP.Equal ip [0; 0; 0; 0] || NetIP.Equal ip (replicate 16 0).

Record UDPConn := { conn_id : nat; LocalIP : IP; LocalPort : Z }.

#[export] Instance UDPConn_eq_dec : EqDecision UDPConn.
Proof. solve_decision. Defined.

Record udpConnMap := { portMap : gmap Z (list UDPConn) }.

Definition newUDPConnMap : udpConnMap := {| portMap := ∅ |}.

(** A socket that takes what is sent to [ip]. *)
Definition takes (ip : IP) (conn : UDPConn) : bool := IsUnspecified (LocalIP conn) || NetIP.Equal (LocalIP conn) ip.

Definition insert (conn : UDPConn) (m : udpConnMap) : result conn_error udpConnMap :=
  match portMap m !! LocalPort conn with
  | Some conns =>
      if IsUnspecified (LocalIP conn) then Err errAddressAlreadyInUse
      else if existsb (takes (LocalIP conn)) conns then Err errAddressAlreadyInUse
      else Ok {| portMap := <[LocalPort conn := conns ++ [conn]]> (portMap m) |}
  | None => Ok {| portMap := <[LocalPort conn := [conn]]> (portMap m) |}
  end.

Definition find (ip : IP) (port : Z) (m : udpConnMap) : option UDPConn * udpConnMap :=
  match portMap m !! port with
  | Some conns =>
      if IsUnspecified ip then
        match conns with
        | [] => (None, {| portMap := delete port (portMap m) |})
        | conn :: _ => (Some conn, m)
        end
      else (List.find (takes ip) conns, m)
  | None => (None, m)
  end.

(** The loop of [delete]: the sockets that stay. *)
Fixpoint remaining (ip : IP) (conns : list UDPConn) : result conn_error (list UDPConn) :=
  match conns with
  | [] => Ok []
  | conn :: conns =>
      if IsUnspecified (LocalIP conn) then Err errCannotRemoveUnspecifiedIP
      else
        l ← remaining ip conns;
        Ok (if NetIP.Equal (LocalIP conn) ip then l else conn :: l)
  end.

Definition delete_ (ip : IP) (port : Z) (m : udpConnMap) : result conn_error udpConnMap :=
  match portMap m !! port with
  | None => Err errNoSuchUDPConn
  | Some conns =>
      if IsUnspecified ip then Ok {| portMap := delete port (portMap m) |}
      else
        l ← remaining ip conns;
        Ok {| portMap := match l with [] => delete port (portMap m) | _ => <[port := l]> (portMap m) end |}
  end.

Definition size (m : udpConnMap) : nat := map_fold (fun _ conns n => (length conns + n)%nat) 0%nat (portMap m).

(** * The invariant *)

(** The sockets of a port: at least one; one bound to all addresses is alone,
    and no two are bound to the same address. *)
Definition port_ok (port : Z) (conns : list UDPConn) : Prop :=
  conns <> [] /\
  (forall c, c ∈ conns -> LocalPort c = port /\ valid_ip (LocalIP c)) /\
  (forall c, c ∈ conns -> IsUnspecified (LocalIP c) = true -> conns = [c]) /\
  (forall i j c d, conns !! i = Some c -> conns !! j = Some d -> NetIP.Equal (LocalIP c) (LocalIP d) = true -> i = j).

Definition conn_map_ok (m : udpConnMap) : Prop := map_Forall port_ok (portMap m).

Lemma unspecified_norm ip : valid_ip ip -> IsUnspecified ip = true <-> norm ip = [0; 0; 0; 0] \/ norm ip = replicate 16 0.
Proof.
  intros H. assert (valid_ip [0; 0; 0; 0] /\ valid_ip (replicate 16 0)) as [H4 H6]
    by (split; (split; [by vm_compute; auto|repeat constructor; unfold byte_ok; lia])).
  unfold IsUnspecified. rewrite orb_true_iff, (Equal_norm ip [0; 0; 0; 0]), (Equal_norm ip (replicate 16 0)) by done. done.
Qed.

Lemma unspecified_Equal a b : valid_ip a -> valid_ip b -> NetIP.Equal a b = true -> IsUnspecified a = IsUnspecified b.
Proof.
  intros Ha Hb E. apply Equal_norm in E; [|done..]. apply eq_true_iff_eq. rewrite !unspecified_norm by done. by rewrite E.
Qed.

Lemma Equal_sym_ip a b : valid_ip a -> valid_ip b -> NetIP.Equal a b = NetIP.Equal b a.
Proof. intros Ha Hb. apply eq_true_iff_eq. rewrite (Equal_norm a b), (Equal_norm b a) by done. by split. Qed.

Lemma Equal_trans_ip a b c : valid_ip a -> valid_ip b -> valid_ip c ->
  NetIP.Equal a b = true -> NetIP.Equal a c = true -> NetIP.Equal b c = true.
Proof. intros Ha Hb Hc H1 H2. apply Equal_norm in H1, H2; try done. apply Equal_norm; try done. congruence. Qed.

Lemma port_ok_append port conns conn : port_ok port conns -> LocalPort conn = port -> valid_ip (LocalIP conn) ->
  IsUnspecified (LocalIP conn) = false -> existsb (takes (LocalIP conn)) conns = false -> port_ok port (conns ++ [conn]).
Proof.
  intros (P1 & P2 & P3 & P4) Hp Hv Hu Hx. assert (forall c, c ∈ conns -> takes (LocalIP conn) c = false) as Ht.
  { intros c Hc. destruct (takes (LocalIP conn) c) eqn:E; [|done]. rewrite <- Hx. symmetry. apply existsb_exists.
    exists c. split; [by apply list_elem_of_In|done]. }
  assert (forall i c, conns !! i = Some c -> NetIP.Equal (LocalIP c) (LocalIP conn) = false) as Hne.
  { intros i c Hc. apply list_elem_of_lookup_2 in Hc. specialize (Ht c Hc). unfold takes in Ht. by apply orb_false_iff in Ht as [_ ?]. }
  split_and!.
  - by destruct conns.
  - intros c. rewrite elem_of_app, list_elem_of_singleton. intros [Hc| ->]; [by apply P2|done].
  - intros c. rewrite elem_of_app, list_elem_of_singleton. intros [Hc| ->] Hcu; [|congruence]. specialize (Ht c Hc). unfold takes in Ht.
    by rewrite Hcu in Ht.
  - intros i j c d. rewrite !lookup_app_Some, !list_lookup_singleton_Some.
    intros [Hi|(Hi & Hi0 & <-)] [Hj|(Hj & Hj0 & <-)] E; [by eapply P4| | |lia].
    + by rewrite (Hne i c Hi) in E.
    + destruct (P2 d) as [_ Hvd]; [by eapply list_elem_of_lookup_2|]. rewrite Equal_sym_ip, (Hne j d Hj) in E by done. done.
Qed.

Lemma remaining_filter ip conns : (forall c, c ∈ conns -> IsUnspecified (LocalIP c) = false) ->
  remaining ip conns = Ok (filter (fun c => NetIP.Equal (LocalIP c) ip = false) conns).
Proof.
  induction conns as [|c conns IH]; intros H; [done|]. cbn [remaining]. rewrite (H c) by apply list_elem_of_here.
  rewrite IH by (intros d Hd; apply H; by apply list_elem_of_further). rewrite filter_cons. simpl.
  destruct (NetIP.Equal (LocalIP c) ip) eqn:E; case_decide; congruence.
Qed.

Lemma port_ok_filter port conns (P : UDPConn -> Prop) `{!forall c, Decision (P c)} : port_ok port conns ->
  filter P conns <> [] -> port_ok port (filter P conns).
Proof.
  intros (P1 & P2 & P3 & P4) Hne. split_and!; [done| | |].
  - intros c [_ Hc]%list_elem_of_filter. by apply P2.
  - intros c [Hpc Hc]%list_elem_of_filter Hu. rewrite (P3 c Hc Hu). rewrite filter_cons, decide_True by done. done.
  - assert (NoDup (filter P conns)) as Hnd.
    { apply NoDup_filter. apply NoDup_alt. intros i j c Hi Hj. apply (P4 i j c c); try done.
      apply Equal_norm; try done; apply (P2 c); by eapply list_elem_of_lookup_2. }
    intros i j c d Hi Hj E. pose proof (list_elem_of_lookup_2 _ _ _ Hi) as [_ Hci]%list_elem_of_filter.
    pose proof (list_elem_of_lookup_2 _ _ _ Hj) as [_ Hcj]%list_elem_of_filter.
    apply list_elem_of_lookup in Hci as [i' Hi'], Hcj as [j' Hj']. assert (i' = j') as -> by (by eapply P4).
    assert (c = d) as -> by congruence. by eapply NoDup_lookup.
Qed.

Lemma takes_self conn : valid_ip (LocalIP conn) -> takes (LocalIP conn) conn = true.
Proof. intros H. unfold takes. apply orb_true_iff. right. by apply Equal_norm. Qed.

Lemma find_skip f (l : list UDPConn) c : existsb f l = false -> f c = true -> List.find f (l ++ [c]) = Some c.
Proof. induction l as [|x l IH]; simpl; [by intros _ ->|]. destruct (f x); [done|]. auto. Qed.

Lemma find_exists f (l : list UDPConn) : existsb f l = true -> is_Some (List.find f l).
Proof. induction l as [|x l IH]; simpl; [done|]. destruct (f x); eauto. Qed.

Lemma find_nothing f (l : list UDPConn) : (forall c, c ∈ l -> f c = false) -> List.find f l = None.
Proof.
  induction l as [|x l IH]; intros H; simpl; [done|]. rewrite (H x) by apply list_elem_of_here. apply IH.
  intros c Hc. apply H. by apply list_elem_of_further.
Qed.

Lemma insert_correct m conn : conn_map_ok m -> valid_ip (LocalIP conn) ->
  match insert conn m with
  | Ok m' => conn_map_ok m' /\ find (LocalIP conn) (LocalPort conn) m' = (Some conn, m')
  | Err e => e = errAddressAlreadyInUse /\ is_Some (portMap m !! LocalPort conn) /\
      (IsUnspecified (LocalIP conn) = true \/ is_Some (fst (find (LocalIP conn) (LocalPort conn) m)))
  end.
Proof.
  intros Hm Hv. unfold insert, find. destruct (portMap m !! LocalPort conn) as [conns|] eqn:Hc.
  - destruct (IsUnspecified (LocalIP conn)) eqn:Hu; [eauto|]. destruct (existsb _ conns) eqn:Hx; [eauto using find_exists|].
    simpl. rewrite lookup_insert_eq. split; [|by rewrite (find_skip _ _ conn) by (done || by apply takes_self)].
    apply map_Forall_insert_2; [|done]. apply port_ok_append; try done. by apply Hm.
  - simpl. rewrite lookup_insert_eq. split.
    + apply map_Forall_insert_2; [|done]. split_and!; [done| | |].
      * intros c ->%list_elem_of_singleton. done.
      * by intros c ->%list_elem_of_singleton _.
      * intros [|i] [|j] c d Hi Hj _; by simplify_eq/=.
    + simpl. rewrite takes_self by done. by destruct (IsUnspecified _).
Qed.

Lemma delete_correct m ip port : conn_map_ok m -> valid_ip ip ->
  match delete_ ip port m with
  | Ok m' => conn_map_ok m' /\ (IsUnspecified ip = false -> fst (find ip port m') = None)
  | Err e => (e = errNoSuchUDPConn /\ portMap m !! port = None) \/
             (e = errCannotRemoveUnspecifiedIP /\ IsUnspecified ip = false /\
              exists c, portMap m !! port = Some [c] /\ IsUnspecified (LocalIP c) = true)
  end.
Proof.
  intros Hm Hip. unfold delete_. destruct (portMap m !! port) as [conns|] eqn:Hc; [|by left].
  destruct (IsUnspecified ip) eqn:Hu; [split; [by apply map_Forall_delete|done]|].
  pose proof (Hm port conns Hc) as Hok. pose proof Hok as (P1 & P2 & P3 & P4).
  destruct (decide (Exists (fun c => IsUnspecified (LocalIP c) = true) conns)) as [Hex|Hex].
  - apply Exists_exists in Hex as (c & Hin & Hcu). rewrite (P3 c Hin Hcu). simpl. rewrite Hcu. right. split_and!; try done.
    by exists c.
  - assert (forall c, c ∈ conns -> IsUnspecified (LocalIP c) = false) as Hnu.
    { intros c Hin. destruct (IsUnspecified (LocalIP c)) eqn:E; [|done]. destruct Hex. apply Exists_exists. by exists c. }
    rewrite remaining_filter by done. cbn [mbind result_mbind]. set (l := filter _ conns).
    assert (port_ok port l \/ l = []) as Hl.
    { destruct (decide (l = [])) as [|Hne]; [by right|left]. by apply port_ok_filter. }
    assert (List.find (takes ip) l = None) as Hfind.
    { apply find_nothing. intros c [He Hin]%list_elem_of_filter. unfold takes. by rewrite Hnu, He. }
    unfold find. destruct l as [|c l'] eqn:El; simpl.
    + split; [by apply map_Forall_delete|]. by rewrite lookup_delete_eq.
    + split; [apply map_Forall_insert_2; [by destruct Hl|done]|]. by rewrite lookup_insert_eq, Hu.
Qed.

(** What a sequence of operations leads to. *)
Inductive conn_maps : udpConnMap -> Prop :=
| maps_new : conn_maps newUDPConnMap
| maps_insert conn m m' : conn_maps m -> valid_ip (LocalIP conn) -> insert conn m = Ok m' -> conn_maps m'
| maps_find ip port m r m' : conn_maps m -> find ip port m = (r, m') -> conn_maps m'
| maps_delete ip port m m' : conn_maps m -> valid_ip ip -> delete_ ip port m = Ok m' -> conn_maps m'.

Lemma conn_maps_ok m : conn_maps m -> conn_map_ok m.
Proof.
  induction 1 as [|conn m m' _ IH Hv E|ip port m r m' _ IH E|ip port m m' _ IH Hv E].
  - apply map_Forall_empty.
  - pose proof (insert_correct m conn IH Hv) as H. rewrite E in H. apply H.
  - unfold find in E. destruct (portMap m !! port) as [[|c conns]|] eqn:Hp; repeat case_match; simplify_eq; try done.
    by apply map_Forall_delete.
  - pose proof (delete_correct m ip port IH Hv) as H. rewrite E in H. apply H.
Qed.

(** Whatever a host does with its sockets, a port is never bound twice for
    the same address, nor for one address beside all addresses: an insert is
    refused when the address is taken, and otherwise the socket is found under
    its address; a delete frees the address. *)
Theorem conn_map_correct m conn : conn_maps m -> valid_ip (LocalIP conn) ->
  map_Forall port_ok (portMap m) /\
  match insert conn m with
  | Ok m' => find (LocalIP conn) (LocalPort conn) m' = (Some conn, m') /\
      (IsUnspecified (LocalIP conn) = false ->
       exists m'', delete_ (LocalIP conn) (LocalPort conn) m' = Ok m'' /\
         fst (find (LocalIP conn) (LocalPort conn) m'') = None)
  | Err e => e = errAddressAlreadyInUse /\ is_Some (portMap m !! LocalPort conn) /\
      (IsUnspecified (LocalIP conn) = true \/ is_Some (fst (find (LocalIP conn) (LocalPort conn) m)))
  end.
Proof.
  intros Hm Hv. apply conn_maps_ok in Hm. split; [done|]. pose proof (insert_correct m conn Hm Hv) as H.
  destruct (insert conn m) as [m'|e]; [|done]. destruct H as [Hm' Hf]. split; [done|]. intros Hu.
  pose proof (delete_correct m' (LocalIP conn) (LocalPort conn) Hm' Hv) as H.
  destruct (delete_ (LocalIP conn) (LocalPort conn) m') as [m''|e]; [exists m''; split; [done|by apply H]|].
  unfold find in Hf. rewrite Hu in Hf. destruct (portMap m' !! LocalPort conn) as [conns|] eqn:Hp; [|by destruct m'].
  destruct H as [[_ ?]|(_ & _ & c & Hc & Hcu)]; [done|]. injection Hc as ->. simpl in Hf. unfold takes in Hf. rewrite Hcu in Hf.
  simpl in Hf. injection Hf as ->. congruence.
Qed.

Lemma conn_map_correct_witness : exists m, insert {| conn_id := 1; LocalIP := [10; 0; 0; 1]; LocalPort := 80 |} newUDPConnMap = Ok m /\
  find [10; 0; 0; 1] 80 m = (Some {| conn_id := 1; LocalIP := [10; 0; 0; 1]; LocalPort := 80 |}, m) /\
  insert {| conn_id := 2; LocalIP := [0; 0; 0; 0]; LocalPort := 80 |} m = Err errAddressAlreadyInUse.
Proof.
  eexists. split; [by vm_compute|]. split; [|by vm_compute].
  destruct (conn_map_correct newUDPConnMap {| conn_id := 1; LocalIP := [10; 0; 0; 1]; LocalPort := 80 |}) as [_ H].
  - apply maps_new.
  - split; [by left|repeat constructor; unfold byte_ok; simpl; lia].
  - apply H.
Defined.
