(* ===== verification/VnetNat.v ===== *)
(** The network address translator of the virtual network: nat.go of
    lib/pion-transport/vnet.

    A mapping is shared by the outbound and the inbound map; the maps hold
    references to a store of mappings.  [None] is a run-time panic.  The time is
    an argument of each translation. *)

From S2P Require Import Prelude GoNet GoText VnetChunk.

#[local] Open Scope string_scope.
#[local] Open Scope list_scope.
#[local] Open Scope Z_scope.

Inductive nat_error :=
| errNATRequriesMapping | errMismatchLengthIP | errNonUDPTranslationNotSupported
| errNoAssociatedLocalAddress | errNoNATBindingFound | errHasNoPermission | errResolve.

#[export] Instance nat_error_eq_dec : EqDecision nat_error.
Proof. solve_decision. Defined.

Inductive EndpointDependencyType := EndpointIndependent | EndpointAddrDependent | EndpointAddrPortDependent.

Inductive NATMode := NATModeNormal | NATModeNAT1To1.

#[export] Instance NATMode_eq_dec : EqDecision NATMode.
Proof. solve_decision. Defined.

Definition defaultNATMappingLifeTime : Z := 30 * second.

Record NATType := {
  Mode : NATMode;
  MappingBehavior : EndpointDependencyType;
  FilteringBehavior : EndpointDependencyType;
  Hairpinning : bool;
  PortPreservation : bool;
  MappingLifeTime : Z;
}.

Record natConfig := { c_natType : NATType; c_mappedIPs : list IP; c_localIPs : list IP }.

Record mapping := {
  proto : string;
  local : string;
  mapped : string;
  bound : string;
  filters : gset string;
  expires : Z;
}.

Record NAT := {
  natType : NATType;
  mappedIPs : list IP;
  localIPs : list IP;
  outboundMap : gmap string nat;
  inboundMap : gmap string nat;
  store : list mapping;
  udpPortCounter : Z;
}.

Definition newNAT (config : natConfig) : result nat_error NAT :=
  let t := c_natType config in
  let mk t := Ok {| natType := t; mappedIPs := c_mappedIPs config; localIPs := c_localIPs config;
                    outboundMap := ∅; inboundMap := ∅; store := []; udpPortCounter := 0 |} in
  if decide (Mode t = NATModeNAT1To1) then
    if Nat.eqb (length (c_mappedIPs config)) 0 then Err errNATRequriesMapping
    else if negb (Nat.eqb (length (c_mappedIPs config)) (length (c_localIPs config))) then Err errMismatchLengthIP
    else mk {| Mode := Mode t; MappingBehavior := EndpointIndependent; FilteringBehavior := EndpointIndependent;
               Hairpinning := Hairpinning t; PortPreservation := true; MappingLifeTime := 0 |}
  else
    mk {| Mode := NATModeNormal; MappingBehavior := MappingBehavior t; FilteringBehavior := FilteringBehavior t;
          Hairpinning := Hairpinning t; PortPreservation := PortPreservation t;
          MappingLifeTime := if MappingLifeTime t =? 0 then defaultNATMappingLifeTime else MappingLifeTime t |}.

(** ** Updates *)

Definition set_store (l : list mapping) (n : NAT) : NAT :=
  {| natType := natType n; mappedIPs := mappedIPs n; localIPs := localIPs n; outboundMap := outboundMap n;
     inboundMap := inboundMap n; store := l; udpPortCounter := udpPortCounter n |}.
Definition set_maps (o i : gmap string nat) (n : NAT) : NAT :=
  {| natType := natType n; mappedIPs := mappedIPs n; localIPs := localIPs n; outboundMap := o; inboundMap := i;
     store := store n; udpPortCounter := udpPortCounter n |}.
Definition set_counter (k : Z) (n : NAT) : NAT :=
  {| natType := natType n; mappedIPs := mappedIPs n; localIPs := localIPs n; outboundMap := outboundMap n;
     inboundMap := inboundMap n; store := store n; udpPortCounter := k |}.
Definition set_expires (t : Z) (m : mapping) : mapping :=
  {| proto := proto m; local := local m; mapped := mapped m; bound := bound m; filters := filters m; expires := t |}.
Definition add_filter (k : string) (m : mapping) : mapping :=
  {| proto := proto m; local := local m; mapped := mapped m; bound := bound m; filters := {[k]} ∪ filters m;
     expires := expires m |}.

(** ** Paired addresses *)

(** The loops of [getPairedMappedIP] and [getPairedLocalIP]; a nil address is
    []. *)
Fixpoint paired (keys values : list IP) (ip : IP) : option IP :=
  match keys with
  | [] => Some []
  | k :: keys => if NetIP.Equal k ip then hd_error values else paired keys (tail values) ip
  end.

Definition getPairedMappedIP (locIP : IP) (n : NAT) : option IP := paired (localIPs n) (mappedIPs n) locIP.
Definition getPairedLocalIP (mappedIP : IP) (n : NAT) : option IP := paired (mappedIPs n) (localIPs n) mappedIP.

(** ** Mappings *)

Definition removeMapping (m : mapping) (n : NAT) : NAT :=
  let oKey := proto m +:+ ":" +:+ local m +:+ ":" +:+ bound m in
  let iKey := proto m +:+ ":" +:+ mapped m in
  set_maps (delete oKey (outboundMap n)) (delete iKey (inboundMap n)) n.

(** A reference that is not in the store cannot occur. *)
Definition findOutboundMapping (now : Z) (oKey : string) (n : NAT) : option (option nat * NAT) :=
  match outboundMap n !! oKey with
  | None => Some (None, n)
  | Some i =>
      m ← store n !! i;
      if expires m <? now then Some (None, removeMapping m n)
      else Some (Some i, set_store (alter (set_expires (now + MappingLifeTime (natType n))) i (store n)) n)
  end.

Definition findInboundMapping (now : Z) (iKey : string) (n : NAT) : option (option nat * NAT) :=
  match inboundMap n !! iKey with
  | None => Some (None, n)
  | Some i =>
      m ← store n !! i;
      if expires m <? now then Some (None, removeMapping m n) else Some (Some i, n)
  end.

(** The key of an endpoint for a mapping or a filter. *)
Definition dependency (b : EndpointDependencyType) (ip : IP) (addr : net_Addr) : string :=
  match b with
  | EndpointIndependent => ""
  | EndpointAddrDependent => NetIP.ipString ip
  | EndpointAddrPortDependent => addrString addr
  end.

(** The mapping of an outbound chunk, created where there is none. *)
Definition outbound_mapping (now : Z) (from : Chunk) (n : NAT) : option (nat * NAT) :=
  let bound := dependency (MappingBehavior (natType n)) (getDestinationIP from) (DestinationAddr from) in
  let filterKey := dependency (FilteringBehavior (natType n)) (getDestinationIP from) (DestinationAddr from) in
  let oKey := "udp:" +:+ addrString (SourceAddr from) +:+ ":" +:+ bound in
  r ← findOutboundMapping now oKey n;
  let '(m, n) := r in
  match m with
  | None =>
      let mappedPort := 0xC000 + udpPortCounter n in
      let n := set_counter (udpPortCounter n + 1) n in
      ip ← mappedIPs n !! 0%nat;
      let m := {| proto := Network from; local := addrString (SourceAddr from);
                  mapped := NetIP.ipString ip +:+ ":" +:+ itoa mappedPort; bound := bound;
                  filters := {[filterKey]}; expires := now + MappingLifeTime (natType n) |} in
      let i := length (store n) in
      let iKey := "udp:" +:+ mapped m in
      let n := set_store (store n ++ [m]) n in
      Some (i, set_maps (<[oKey := i]> (outboundMap n)) (<[iKey := i]> (inboundMap n)) n)
  | Some i => Some (i, set_store (alter (add_filter filterKey) i (store n)) n)
  end.

(** [translateOutbound]: nil where there is no route. *)
Definition translateOutbound (now : Z) (from : Chunk) (n : NAT) : option (result nat_error (option Chunk) * NAT) :=
  match from with
  | ChunkUDP u =>
      if decide (Mode (natType n) = NATModeNAT1To1) then
        srcIP ← getPairedMappedIP (getSourceIP from) n;
        match srcIP with
        | [] => Some (Ok None, n)
        | _ =>
            match setSourceAddr (NetIP.ipString srcIP +:+ ":" +:+ itoa (u_sourcePort u)) (Clone from) with
            | None => Some (Err errResolve, n)
            | Some to => Some (Ok (Some to), n)
            end
        end
      else
        r ← outbound_mapping now from n;
        let '(i, n) := r in
        m ← store n !! i;
        match setSourceAddr (mapped m) (Clone from) with
        | None => Some (Err errResolve, n)
        | Some to => Some (Ok (Some to), n)
        end
  | ChunkTCP _ => Some (Err errNonUDPTranslationNotSupported, n)
  end.

Definition translateInbound (now : Z) (from : Chunk) (n : NAT) : option (result nat_error Chunk * NAT) :=
  match from with
  | ChunkUDP u =>
      if decide (Mode (natType n) = NATModeNAT1To1) then
        dstIP ← getPairedLocalIP (getDestinationIP from) n;
        match dstIP with
        | [] => Some (Err errNoAssociatedLocalAddress, n)
        | _ =>
            match setDestinationAddr (NetIP.ipString dstIP +:+ ":" +:+ itoa (u_destinationPort u)) (Clone from) with
            | None => Some (Err errResolve, n)
            | Some to => Some (Ok to, n)
            end
        end
      else
        let iKey := "udp:" +:+ addrString (DestinationAddr from) in
        r ← findInboundMapping now iKey n;
        let '(m, n) := r in
        match m with
        | None => Some (Err errNoNATBindingFound, n)
        | Some i =>
            m ← store n !! i;
            let filterKey := dependency (FilteringBehavior (natType n)) (getSourceIP from) (SourceAddr from) in
            if decide (filterKey ∈ filters m) then
              match setDestinationAddr (local m) (Clone from) with
              | None => Some (Err errResolve, n)
              | Some to => Some (Ok to, n)
              end
            else Some (Err errHasNoPermission, n)
        end
  | ChunkTCP _ => Some (Err errNonUDPTranslationNotSupported, n)
  end.

(** * The maps *)

Definition okey (m : mapping) : string := proto m +:+ ":" +:+ local m +:+ ":" +:+ bound m.
Definition ikey (m : mapping) : string := proto m +:+ ":" +:+ mapped m.

(** Two mappings of the same flow. *)
Definition same_flow (m m' : mapping) : Prop :=
  proto m' = proto m /\ local m' = local m /\ mapped m' = mapped m /\ bound m' = bound m.

(** Printed addresses can be told from what follows them. *)
Lemma addr_prefix a b x y : valid_addr a -> valid_addr b ->
  addrString a +:+ ":" +:+ x = addrString b +:+ ":" +:+ y -> addrString a = addrString b /\ x = y.
Proof.
  assert (forall a, valid_addr a -> exists ip p, valid_ip ip /\ 0 <= p < 65536 /\
    addrString a = JoinHostPort (NetIP.ipString ip) (NetIP.dec p)) as Hv.
  { intros [ip p z|ip p z|] H; simpl in *; try done; destruct H as (H1 & H2 & ->); exists ip, p;
      by rewrite hostPort_valid by (done || lia). }
  intros Ha Hb. destruct (Hv a Ha) as (ia & pa & Hia & Hpa & ->). destruct (Hv b Hb) as (ib & pb & Hib & Hpb & ->).
  assert (forall p, has_char ":" (NetIP.dec p) = false) as Hd by (intros; unfold NetIP.dec; by apply digits_sep).
  assert (forall ip, valid_ip ip -> has_char "[" (NetIP.ipString ip) = false) as Hbr by (intros; by apply ipString_no_sep).
  unfold JoinHostPort.
  destruct (has_char ":" (NetIP.ipString ia)) eqn:Ca, (has_char ":" (NetIP.ipString ib)) eqn:Cb; rewrite !string_app_assoc; intros E.
  - rewrite !app_cons in E. injection E as E. apply split_unique in E as [E1 E2]; [|by apply ipString_no_sep..].
    rewrite ?app_cons in E2. injection E2 as E2. apply split_unique in E2 as [E2 E3]; [|done..]. by rewrite E1, E2.
  - exfalso. destruct (NetIP.ipString ib) as [|d s] eqn:Es; [done|]. rewrite !app_cons in E. injection E as E _. subst d.
    specialize (Hbr ib Hib). rewrite Es in Hbr. by rewrite has_char_self in Hbr.
  - exfalso. destruct (NetIP.ipString ia) as [|d s] eqn:Es; [done|]. rewrite !app_cons in E. injection E as E _. subst d.
    specialize (Hbr ia Hia). rewrite Es in Hbr. by rewrite has_char_self in Hbr.
  - apply split_unique in E as [E1 E2]; [|done..]. apply split_unique in E2 as [E2 E3]; [|done..]. by rewrite E1, E2.
Qed.

Section Maps.
Context (ip0 : IP) (Hip0 : valid_ip ip0) (Hv4 : length (norm ip0) = 4%nat).

(** The external address of the mapping number [i]. *)
Definition external (i : nat) : string := NetIP.ipString ip0 +:+ ":" +:+ itoa (0xC000 + Z.of_nat i).

Lemma external_join i : external i = JoinHostPort (NetIP.ipString ip0) (NetIP.dec (0xC000 + Z.of_nat i)).
Proof.
  unfold external, JoinHostPort. rewrite itoa_nonneg by lia. destruct (has_char ":" (NetIP.ipString ip0)) eqn:E; [|done].
  apply ipString_colon in E; [lia|done].
Qed.

Lemma external_inj i j : Z.of_nat i < 2 ^ 62 -> Z.of_nat j < 2 ^ 62 -> external i = external j -> i = j.
Proof.
  intros Hi Hj E. unfold external in E.
  assert (has_char ":" (NetIP.ipString ip0) = false) as Hc.
  { destruct (has_char ":" (NetIP.ipString ip0)) eqn:Hc; [|done]. apply ipString_colon in Hc; [lia|done]. }
  apply (split_unique ":" (NetIP.ipString ip0) _ (NetIP.ipString ip0)) in E as [_ E]; [|done..].
  rewrite !itoa_nonneg in E by lia. apply (digits_inj 10) in E; lia.
Qed.

Lemma external_resolves i : Z.of_nat i < 0x4000 -> ResolveAddr (external i) = Some (To16 ip0, 0xC000 + Z.of_nat i).
Proof. intros H. rewrite external_join. apply ResolveAddr_printed; [done|lia]. Qed.

(** Ports beyond 65535 are refused when the address is set. *)
Lemma external_fails i : 0x4000 <= Z.of_nat i < 2 ^ 62 -> ResolveAddr (external i) = None.
Proof.
  intros H. rewrite external_join. unfold ResolveAddr. rewrite SplitHostPort_join;
    try (by apply ipString_no_sep); try (unfold NetIP.dec; by apply digits_sep).
  2:{ intros E. pose proof (ParseIP_String ip0 Hip0) as H'. by rewrite E in H'. }
  rewrite (proj2 (String.eqb_neq (NetIP.dec _) "")) by apply dec_nonempty.
  pose proof (ParseUint_dec (0xC000 + Z.of_nat i) 64 ltac:(lia) ltac:(lia)) as Hp. unfold ParseUint in *.
  destruct (NetIP.dec (0xC000 + Z.of_nat i)); [done|]. destruct (parse_dec _ _) as [v|]; [|done].
  destruct (v <? 2 ^ 64); [|done]. injection Hp as ->. destruct (Z.ltb_spec (0xC000 + Z.of_nat i) (2 ^ 16)); [lia|done].
Qed.

Lemma external_addr a i : valid_addr a -> 0 <= Z.of_nat i < 0x4000 ->
  addrString a = external i <-> NetIP.Equal (addr_ip a) ip0 = true /\ addr_port a = 0xC000 + Z.of_nat i.
Proof.
  intros Ha Hi. rewrite external_join. pose proof (hostPort_inj (addr_ip a) (addr_port a) ip0 (0xC000 + Z.of_nat i)) as H.
  rewrite !hostPort_valid in H by (done || lia || (destruct a; simpl in *; tauto || lia)).
  destruct a as [ip p z|ip p z|]; simpl in *; try done; destruct Ha as (H1 & H2 & ->);
    rewrite hostPort_valid by (done || lia); by apply H; [| |lia|lia].
Qed.

(** The maps agree with the store: a mapping is in both or in none, under its
    own keys; the [i]-th one has the [i]-th external port. *)
Record linked (n : NAT) : Prop := {
  K_mode : Mode (natType n) = NATModeNormal;
  K_ip : mappedIPs n !! 0%nat = Some ip0;
  K_count : udpPortCounter n = Z.of_nat (length (store n));
  K_bound : Z.of_nat (length (store n)) < 2 ^ 62;
  K_store i m : store n !! i = Some m -> proto m = "udp" /\ mapped m = external i /\
    exists a, valid_addr a /\ local m = addrString a;
  K_out k i : outboundMap n !! k = Some i -> exists m, store n !! i = Some m /\ k = okey m /\
    inboundMap n !! ikey m = Some i;
  K_in k i : inboundMap n !! k = Some i -> exists m, store n !! i = Some m /\ k = ikey m /\
    outboundMap n !! okey m = Some i;
}.

Lemma ikey_inj n i j m m' : linked n -> store n !! i = Some m -> store n !! j = Some m' -> ikey m = ikey m' -> i = j.
Proof.
  intros L Hi Hj E. destruct (K_store n L i m Hi) as (P1 & M1 & _). destruct (K_store n L j m' Hj) as (P2 & M2 & _).
  unfold ikey in E. rewrite P1, P2, M1, M2 in E. cbn [String.append] in E. injection E as E.
  apply lookup_lt_Some in Hi, Hj. pose proof (K_bound n L). apply external_inj; [lia|lia|exact E].
Qed.

Lemma okey_inj n i j m m' : linked n -> store n !! i = Some m -> store n !! j = Some m' -> okey m = okey m' ->
  local m = local m' /\ bound m = bound m'.
Proof.
  intros L Hi Hj E. destruct (K_store n L i m Hi) as (P1 & _ & a & Ha & E1). destruct (K_store n L j m' Hj) as (P2 & _ & b & Hb & E2).
  unfold okey in E. rewrite P1, P2, E1, E2 in E. cbn [String.append] in E. injection E as E. rewrite E1, E2. by apply addr_prefix.
Qed.

Lemma linked_remove n i m : linked n -> store n !! i = Some m -> outboundMap n !! okey m = Some i -> linked (removeMapping m n).
Proof.
  intros L Hi Ho. pose proof L as [L1 L2 L3 L4 L5 L6 L7]. unfold removeMapping. fold (okey m) (ikey m).
  split; simpl; try done.
  - intros k j Hk. apply lookup_delete_Some in Hk as [Hne Hk]. destruct (L6 k j Hk) as (m' & Hj & -> & Hin).
    exists m'. split_and!; try done. apply lookup_delete_Some. split; [|done]. intros E.
    rewrite (ikey_inj n i j m m') in Hi by done. congruence.
  - intros k j Hk. apply lookup_delete_Some in Hk as [Hne Hk]. destruct (L7 k j Hk) as (m' & Hj & -> & Hout).
    exists m'. split_and!; try done. apply lookup_delete_Some. split; [|done]. intros E.
    rewrite E in Ho. assert (i = j) as -> by congruence. congruence.
Qed.

Lemma linked_alter n i f : linked n -> (forall m, same_flow m (f m)) -> linked (set_store (alter f i (store n)) n).
Proof.
  intros [L1 L2 L3 L4 L5 L6 L7] Hf. assert (forall m, okey (f m) = okey m /\ ikey (f m) = ikey m) as Hk.
  { intros m. destruct (Hf m) as (E1 & E2 & E3 & E4). unfold okey, ikey. by rewrite E1, E2, E3, E4. }
  assert (forall j m, store n !! j = Some m -> exists m', alter f i (store n) !! j = Some m' /\ (m' = m \/ m' = f m)) as Hs.
  { intros j m Hj. destruct (decide (i = j)) as [->|Hne].
    - rewrite list_lookup_alter_eq, Hj. simpl. eauto.
    - rewrite list_lookup_alter_ne by done. eauto. }
  split; simpl; rewrite ?length_alter; try done.
  - intros j m' Hj. destruct (store n !! j) as [m|] eqn:E.
    2:{ apply lookup_ge_None in E. apply lookup_lt_Some in Hj. rewrite length_alter in Hj. lia. }
    destruct (Hs j m E) as (m2 & Hj2 & Hm2). rewrite Hj in Hj2. injection Hj2 as <-.
    destruct Hm2 as [->| ->]; [by apply L5|]. destruct (Hf m) as (E1 & E2 & E3 & E4). rewrite E1, E2, E3. by apply L5.
  - intros k j Hk'. destruct (L6 k j Hk') as (m & Hm & -> & Hin). destruct (Hs j m Hm) as (m' & Hj & [->| ->]).
    + by exists m.
    + exists (f m). destruct (Hk m) as [-> ->]. done.
  - intros k j Hk'. destruct (L7 k j Hk') as (m & Hm & -> & Hout). destruct (Hs j m Hm) as (m' & Hj & [->| ->]).
    + by exists m.
    + exists (f m). destruct (Hk m) as [-> ->]. done.
Qed.

Lemma linked_add n m : linked n -> proto m = "udp" -> mapped m = external (length (store n)) ->
  (exists a, valid_addr a /\ local m = addrString a) -> outboundMap n !! okey m = None ->
  Z.of_nat (length (store n)) + 1 < 2 ^ 62 ->
  linked (set_maps (<[okey m := length (store n)]> (outboundMap n)) (<[ikey m := length (store n)]> (inboundMap n))
            (set_store (store n ++ [m]) (set_counter (udpPortCounter n + 1) n))).
Proof.
  intros L Hp Hm Ha Hn Hb. pose proof L as [L1 L2 L3 L4 L5 L6 L7].
  assert (forall j m', store n !! j = Some m' -> ikey m' <> ikey m) as Hne.
  { intros j m' Hj E. destruct (L5 j m' Hj) as (P1 & M1 & _). unfold ikey in E. rewrite P1, Hp, M1, Hm in E.
    cbn [String.append] in E. injection E as E. apply lookup_lt_Some in Hj. apply external_inj in E; lia. }
  split; simpl; try done.
  - rewrite length_app. simpl. lia.
  - rewrite length_app. simpl. lia.
  - intros i m'. rewrite lookup_app_Some, list_lookup_singleton_Some.
    intros [H|(Hi & Hi0 & <-)]; [by apply L5|]. replace i with (length (store n)) by lia. done.
  - intros k j. rewrite lookup_insert_Some. intros [[<- <-]|[Hk Hj]].
    + exists m. rewrite lookup_app_r, Nat.sub_diag by lia. by rewrite lookup_insert_eq.
    + destruct (L6 k j Hj) as (m' & Hm' & -> & Hin). exists m'. split_and!; [by apply lookup_app_l_Some|done|].
      rewrite lookup_insert_ne; [done|]. intros E. by apply (Hne j m').
  - intros k j. rewrite lookup_insert_Some. intros [[<- <-]|[Hk Hj]].
    + exists m. rewrite lookup_app_r, Nat.sub_diag by lia. by rewrite lookup_insert_eq.
    + destruct (L7 k j Hj) as (m' & Hm' & -> & Hout). exists m'. split_and!; [by apply lookup_app_l_Some|done|].
      rewrite lookup_insert_ne; [done|]. intros E. congruence.
Qed.

(** ** Finding and creating mappings *)

(** A mapping in use. *)
Definition live (n : NAT) (i : nat) (m : mapping) : Prop :=
  store n !! i = Some m /\ outboundMap n !! okey m = Some i.

Definition lifetime (n : NAT) : Z := MappingLifeTime (natType n).

(** From [n] to [n'] the mappings that have not expired stay in use. *)
Definition keeps (now : Z) (n n' : NAT) : Prop :=
  natType n' = natType n /\
  forall i m, live n i m -> now <= expires m -> exists m', live n' i m' /\ same_flow m m' /\
    filters m ⊆ filters m' /\ (expires m' = expires m \/ expires m' = now + lifetime n).

Lemma same_flow_refl m : same_flow m m.
Proof. done. Qed.

Lemma same_flow_trans m1 m2 m3 : same_flow m1 m2 -> same_flow m2 m3 -> same_flow m1 m3.
Proof. unfold same_flow. intros (-> & -> & -> & ->) (-> & -> & -> & ->). done. Qed.

Lemma same_flow_okey m m' : same_flow m m' -> okey m' = okey m.
Proof. unfold same_flow, okey. by intros (-> & -> & _ & ->). Qed.

Lemma same_flow_ikey m m' : same_flow m m' -> ikey m' = ikey m.
Proof. unfold same_flow, ikey. by intros (-> & _ & -> & _). Qed.

Lemma live_in n i m : linked n -> live n i m -> inboundMap n !! ikey m = Some i.
Proof.
  intros L [Hi Ho]. destruct (K_out n L _ _ Ho) as (m' & Hm' & _ & Hin). congruence.
Qed.

Lemma live_remove n i m j m' : linked n -> live n i m -> live n j m' -> j <> i -> live (removeMapping m n) j m'.
Proof.
  intros L [Hi Ho] [Hj Ho'] Hne. split; [done|]. simpl. apply lookup_delete_Some. split; [|done].
  intros E. fold (okey m) in E. congruence.
Qed.

Lemma live_alter n i f j m : (forall m, same_flow m (f m)) -> live n j m ->
  exists m', live (set_store (alter f i (store n)) n) j m' /\ same_flow m m' /\ m' = if decide (i = j) then f m else m.
Proof.
  intros Hf [Hj Ho]. destruct (decide (i = j)) as [->|Hne].
  - exists (f m). split; [|done]. split; simpl.
    + by rewrite list_lookup_alter_eq, Hj.
    + by rewrite (same_flow_okey m).
  - exists m. split; [|done]. split; simpl; [|done]. by rewrite list_lookup_alter_ne.
Qed.

(** What an outbound chunk does to the mappings; [k] is its filter key. *)
Record outbound_effect (now : Z) (from : Chunk) (n : NAT) (i : nat) (n' : NAT) : Prop := {
  E_linked : linked n';
  E_keeps : keeps now n n';
  E_live : exists m, live n' i m /\ local m = addrString (SourceAddr from) /\
    bound m = dependency (MappingBehavior (natType n)) (getDestinationIP from) (DestinationAddr from) /\
    dependency (FilteringBehavior (natType n)) (getDestinationIP from) (DestinationAddr from) ∈ filters m /\
    expires m = now + lifetime n;
  E_store j m' : store n' !! j = Some m' ->
    (j = i /\ local m' = addrString (SourceAddr from) /\
     filters m' = {[dependency (FilteringBehavior (natType n)) (getDestinationIP from) (DestinationAddr from)]}
     /\ expires m' = now + lifetime n) \/
    exists m, store n !! j = Some m /\ same_flow m m' /\
      ((filters m' = filters m /\ expires m' = expires m) \/
       (j = i /\ local m' = addrString (SourceAddr from) /\ expires m' = now + lifetime n /\
        filters m' = {[dependency (FilteringBehavior (natType n)) (getDestinationIP from) (DestinationAddr from)]} ∪ filters m));
  E_grow : (length (store n') <= length (store n) + 1)%nat;
  E_index : i = length (store n) \/ exists m, live n i m /\ local m = addrString (SourceAddr from);
}.

(** Creating a mapping in a state without one for this flow. *)
Lemma create_effect now from n0 n : linked n -> keeps now n0 n -> store n = store n0 ->
  valid_addr (SourceAddr from) -> Network from = "udp" -> Z.of_nat (length (store n)) + 1 < 2 ^ 62 ->
  let b := dependency (MappingBehavior (natType n0)) (getDestinationIP from) (DestinationAddr from) in
  let k := dependency (FilteringBehavior (natType n0)) (getDestinationIP from) (DestinationAddr from) in
  let m := {| proto := Network from; local := addrString (SourceAddr from); mapped := external (length (store n));
              bound := b; filters := {[k]}; expires := now + lifetime n0 |} in
  outboundMap n !! okey m = None ->
  outbound_effect now from n0 (length (store n))
    (set_maps (<[okey m := length (store n)]> (outboundMap n)) (<[ikey m := length (store n)]> (inboundMap n))
       (set_store (store n ++ [m]) (set_counter (udpPortCounter n + 1) n))).
Proof.
  intros L [Ht Hk] Hs Ha Hu Hb b k m Hn. assert (linked (set_maps (<[okey m := length (store n)]> (outboundMap n))
    (<[ikey m := length (store n)]> (inboundMap n)) (set_store (store n ++ [m]) (set_counter (udpPortCounter n + 1) n)))) as L'
    by (apply linked_add; try done; eauto).
  split; [done| | | | |by left; rewrite Hs].
  - split; [done|]. intros i m0 Hl He. destruct (Hk i m0 Hl He) as (m' & [Hi Ho] & Hf). exists m'. split; [|done].
    split; simpl; [by apply lookup_app_l_Some|]. rewrite lookup_insert_ne; [done|]. intros E. congruence.
  - exists m. split; [|split_and!; try done; simpl; set_solver]. split; simpl; [|by rewrite lookup_insert_eq].
    by rewrite lookup_app_r, Nat.sub_diag by lia.
  - intros j m'. simpl. rewrite lookup_app_Some, list_lookup_singleton_Some. intros [H|(Hj & Hj0 & <-)].
    + right. exists m'. rewrite <- Hs. auto using same_flow_refl.
    + left. split_and!; try done. lia.
  - simpl. rewrite length_app, Hs. simpl. lia.
Qed.

Lemma keeps_refl now n : keeps now n n.
Proof. split; [done|]. intros i m Hl _. exists m. auto using same_flow_refl. Qed.

Lemma outbound_spec now from n : linked n -> valid_addr (SourceAddr from) -> Network from = "udp" ->
  Z.of_nat (length (store n)) + 1 < 2 ^ 62 ->
  exists i n', outbound_mapping now from n = Some (i, n') /\ outbound_effect now from n i n'.
Proof.
  intros L Ha Hu Hb. unfold outbound_mapping.
  set (b := dependency (MappingBehavior _) _ _). set (k := dependency (FilteringBehavior _) _ _).
  set (key := "udp:" +:+ addrString (SourceAddr from) +:+ ":" +:+ b).
  assert (forall n1, linked n1 -> keeps now n n1 -> store n1 = store n -> outboundMap n1 !! key = None ->
    exists i n', (let mappedPort := 0xC000 + udpPortCounter n1 in
      let n1 := set_counter (udpPortCounter n1 + 1) n1 in
      ip ← mappedIPs n1 !! 0%nat;
      let m := {| proto := Network from; local := addrString (SourceAddr from);
                  mapped := NetIP.ipString ip +:+ ":" +:+ itoa mappedPort; bound := b;
                  filters := {[k]}; expires := now + MappingLifeTime (natType n1) |} in
      let i := length (store n1) in
      let iKey := "udp:" +:+ mapped m in
      let n1 := set_store (store n1 ++ [m]) n1 in
      Some (i, set_maps (<[key := i]> (outboundMap n1)) (<[iKey := i]> (inboundMap n1)) n1)) = Some (i, n') /\
      outbound_effect now from n i n') as Hnew.
  { intros n1 L1 Hk1 Hs1 Hn1. cbn [mappedIPs set_counter]. rewrite (K_ip n1 L1). cbn [mbind option_bind]. eexists _, _. split; [done|].
    pose proof (create_effect now from n n1 L1 Hk1 Hs1 Ha Hu ltac:(by rewrite Hs1)) as H. cbv zeta in H.
    unfold okey, ikey in H. cbn [proto local mapped bound] in H. rewrite Hu in H. cbn [store set_counter natType].
    rewrite (K_count n1 L1) in H |- *. rewrite Hu. destruct Hk1 as [Ht1 _]. rewrite Ht1. by apply H. }
  unfold findOutboundMapping. destruct (outboundMap n !! key) as [i|] eqn:Ho; [|by apply Hnew; auto using keeps_refl].
  destruct (K_out n L _ _ Ho) as (m & Hm & Ekey & Hin). rewrite Hm. cbn [mbind option_bind].
  assert (live n i m) as Hlive by (split; [done|]; by rewrite <- Ekey).
  destruct (Z.ltb_spec (expires m) now) as [He|He]; cbn [mbind option_bind].
  - apply Hnew; [by destruct Hlive; apply (linked_remove n i)| |done|].
    + split; [done|]. intros j mj Hj Hej. exists mj. split; [|auto using same_flow_refl].
      apply (live_remove n i); try done. intros ->. destruct Hj as [Hj _]. assert (mj = m) as -> by congruence. lia.
    + simpl. fold (okey m). by rewrite <- Ekey, lookup_delete_eq.
  - set (f1 := set_expires (now + MappingLifeTime (natType n))). set (n1 := set_store (alter f1 i (store n)) n).
    assert (linked n1) as L1 by (by apply linked_alter).
    eexists i, _. split; [done|]. set (f2 := add_filter k). assert (linked (set_store (alter f2 i (store n1)) n1)) as L2 by (by apply linked_alter).
    destruct (K_store n L i m Hm) as (Hpr & _ & a & Hva & Hla).
    assert (local m = addrString (SourceAddr from) /\ bound m = b) as [Hlo Hbo].
    { unfold okey in Ekey. rewrite Hpr, Hla in Ekey. unfold key in Ekey. cbn [String.append] in Ekey. injection Ekey as E.
      rewrite Hla. symmetry in E. by apply addr_prefix in E as [-> ->]. }
    split; [done| | | | |by right; exists m].
    + split; [done|]. intros j mj Hj Hej. destruct (live_alter n i f1 j mj) as (m1 & Hl1 & Hf1 & E1); [done|done|].
      destruct (live_alter n1 i f2 j m1) as (m2 & Hl2 & Hf2 & E2); [done|done|]. exists m2. split; [exact Hl2|].
      split; [by eapply same_flow_trans|]. rewrite E2, E1. case_decide; simpl; [split; [set_solver|by right]|auto].
    + destruct (live_alter n i f1 i m) as (m1 & Hl1 & Hf1 & E1); [done|done|].
      destruct (live_alter n1 i f2 i m1) as (m2 & Hl2 & Hf2 & E2); [done|done|]. exists m2. split; [exact Hl2|].
      rewrite E2, E1, !decide_True by done. simpl. split_and!; try done. set_solver.
    + intros j mj Hj. simpl in Hj. right. destruct (decide (i = j)) as [<-|Hne].
      * rewrite !list_lookup_alter_eq, Hm in Hj. simpl in Hj. injection Hj as <-. exists m. split; [done|].
        split; [done|]. right. by split_and!.
      * rewrite !list_lookup_alter_ne in Hj by done. exists mj. auto using same_flow_refl.
    + simpl. rewrite !length_alter. lia.
Qed.

(** ** Inbound chunks *)

Lemma inbound_spec now k n : linked n -> exists r n', findInboundMapping now k n = Some (r, n') /\
  linked n' /\ keeps now n n' /\ store n' = store n /\
  match r with
  | Some i => n' = n /\ exists m, live n i m /\ k = ikey m /\ now <= expires m
  | None => forall i m, live n i m -> k = ikey m -> expires m < now
  end.
Proof.
  intros L. unfold findInboundMapping. destruct (inboundMap n !! k) as [i|] eqn:Hi.
  - destruct (K_in n L _ _ Hi) as (m & Hm & -> & Ho). rewrite Hm. cbn [mbind option_bind].
    destruct (Z.ltb_spec (expires m) now).
    + eexists None, _. split; [done|]. split; [by apply (linked_remove n i)|]. split; [|split; [done|]].
      * split; [done|]. intros j mj Hj Hej. exists mj. split; [|auto using same_flow_refl].
        apply (live_remove n i); try done. intros ->. destruct Hj as [Hj _]. assert (mj = m) as -> by congruence. lia.
      * intros j mj Hj Ej. assert (live n i m) as Hl by done. destruct Hj as [Hj _].
        assert (i = j) as -> by (by apply (ikey_inj n i j m mj)). congruence.
    + exists (Some i), n. split; [done|]. split; [done|]. split; [apply keeps_refl|]. split; [done|].
      split; [done|]. by exists m.
  - exists None, n. split; [done|]. split; [done|]. split; [apply keeps_refl|]. split; [done|].
    intros i m Hl ->. rewrite (live_in n i m L Hl) in Hi. done.
Qed.

End Maps.
