(* ===== verification/VnetNatTheorems.v ===== *)
(** What the address translator of the virtual network ([VnetNat]) promises:
    inbound chunks reach only hosts that have sent to their source, replies are
    delivered while the mapping lives, external addresses stand for flows as the
    mapping behaviour says, and the one-to-one mode is a bijection. *)

From S2P Require Import Prelude GoNet GoText VnetChunk VnetNat.

#[local] Open Scope string_scope.
#[local] Open Scope list_scope.
#[local] Open Scope Z_scope.

(** * Runs *)

(** What a translator has done since [newNAT]: the outbound chunks with their
    times and what became of them, latest first, and the present time. *)
Definition event : Type := Z * Chunk * result nat_error (option Chunk).

Inductive run (cfg : natConfig) : list event -> Z -> NAT -> Prop :=
| run_new t n : newNAT cfg = Ok n -> run cfg [] t n
| run_out h t n now c r n' : run cfg h t n -> t <= now ->
    valid_addr (SourceAddr c) -> valid_addr (DestinationAddr c) -> Z.of_nat (length h) < 2 ^ 61 ->
    translateOutbound now c n = Some (r, n') -> run cfg ((now, c, r) :: h) now n'
| run_in h t n now c r n' : run cfg h t n -> t <= now ->
    translateInbound now c n = Some (r, n') -> run cfg h now n'.

(** Translations up to the time [T], whose chunks do not matter. *)
Inductive later (T : Z) : Z -> NAT -> Z -> NAT -> Prop :=
| later_refl t n : later T t n t n
| later_out t n t1 n1 now c r n2 : later T t n t1 n1 -> t1 <= now <= T ->
    valid_addr (SourceAddr c) -> Z.of_nat (length (store n1)) < 2 ^ 61 ->
    translateOutbound now c n1 = Some (r, n2) -> later T t n now n2
| later_in t n t1 n1 now c r n2 : later T t n t1 n1 -> t1 <= now <= T ->
    translateInbound now c n1 = Some (r, n2) -> later T t n now n2.

(** An endpoint that a key of the behaviour [b] stands for. *)
Definition covers (b : EndpointDependencyType) (dst src : net_Addr) : bool :=
  match b with
  | EndpointIndependent => true
  | EndpointAddrDependent => NetIP.Equal (addr_ip dst) (addr_ip src)
  | EndpointAddrPortDependent => same_endpoint dst src
  end.

Lemma dependency_covers b x y : valid_addr x -> valid_addr y ->
  dependency b (addr_ip x) x = dependency b (addr_ip y) y <-> covers b x y = true.
Proof.
  intros Hx Hy. destruct b; simpl; [done| |by apply addrString_inj].
  apply ipString_inj; [destruct x|destruct y]; simpl in *; tauto.
Qed.

Lemma dst_ip c : addr_ip (DestinationAddr c) = getDestinationIP c.
Proof. by destruct c. Qed.

Lemma src_ip c : addr_ip (SourceAddr c) = getSourceIP c.
Proof. by destruct c. Qed.

(** Setting the address of a chunk to a printed one. *)
Lemma same_endpoint_16 ip p a : valid_addr a -> ip = To16 (addr_ip a) -> p = addr_port a -> same_endpoint (UDPAddr ip p "") a = true.
Proof.
  intros Ha -> ->. unfold same_endpoint. simpl. rewrite Z.eqb_refl, andb_true_r. apply To16_Equal.
  destruct a; simpl in *; tauto.
Qed.

Lemma setDestinationAddr_addr a u : valid_addr a -> exists to, setDestinationAddr (addrString a) (ChunkUDP u) = Some to /\
  SourceAddr to = SourceAddr (ChunkUDP u) /\ UserData to = u_userData u /\ same_endpoint (DestinationAddr to) a = true.
Proof.
  intros Ha. unfold setDestinationAddr. rewrite (ResolveAddr_addr a Ha). eexists. split; [done|]. simpl.
  split_and!; try done. by apply same_endpoint_16.
Qed.

Lemma setSourceAddr_spec text u to : setSourceAddr text (ChunkUDP u) = Some to -> exists ip p, ResolveAddr text = Some (ip, p) /\
  SourceAddr to = UDPAddr ip p "" /\ DestinationAddr to = DestinationAddr (ChunkUDP u) /\ UserData to = u_userData u.
Proof.
  unfold setSourceAddr. destruct (ResolveAddr text) as [[ip p]|]; [|done]. intros [= <-]. by exists ip, p.
Qed.

Lemma same_endpoint_sym x y : valid_addr x -> valid_addr y -> same_endpoint x y = true -> same_endpoint y x = true.
Proof. intros Hx Hy H. apply addrString_inj; try done. symmetry. by apply addrString_inj. Qed.

Section Normal.
Context (cfg : natConfig) (ip0 : IP).
Context (Hmode : Mode (c_natType cfg) = NATModeNormal).
Context (Hip : c_mappedIPs cfg !! 0%nat = Some ip0) (Hip0 : valid_ip ip0) (Hv4 : length (norm ip0) = 4%nat).

(** ** What the store knows *)

(** The outbound chunk of an event was sent by the mapping number [i]. *)
Definition sent_by (i : nat) (e : event) : Prop :=
  snd e = match setSourceAddr (external ip0 i) (snd (fst e)) with Some to => Ok (Some to) | None => Err errResolve end.

(** The filters and the times of a mapping come from outbound chunks it sent. *)
Definition known (h : list event) (t : Z) (n : NAT) : Prop :=
  forall i m, store n !! i = Some m ->
    (forall f, f ∈ filters m -> exists e, e ∈ h /\ local m = addrString (SourceAddr (snd (fst e))) /\
       f = dependency (FilteringBehavior (natType n)) (getDestinationIP (snd (fst e))) (DestinationAddr (snd (fst e))) /\
       valid_addr (SourceAddr (snd (fst e))) /\ valid_addr (DestinationAddr (snd (fst e))) /\
       Network (snd (fst e)) = "udp" /\ sent_by i e) /\
    exists e, e ∈ h /\ local m = addrString (SourceAddr (snd (fst e))) /\ valid_addr (SourceAddr (snd (fst e))) /\
      expires m = fst (fst e) + lifetime n /\ fst (fst e) <= t /\ Network (snd (fst e)) = "udp" /\ sent_by i e.

(** The normal mode of the two translations. *)
Lemma translateOutbound_normal now u n : Mode (natType n) = NATModeNormal ->
  translateOutbound now (ChunkUDP u) n =
    (r ← outbound_mapping now (ChunkUDP u) n;
     let '(i, n) := r in
     m ← store n !! i;
     match setSourceAddr (mapped m) (ChunkUDP u) with
     | None => Some (Err errResolve, n)
     | Some to => Some (Ok (Some to), n)
     end).
Proof. intros H. unfold translateOutbound. by rewrite H. Qed.

Lemma outbound_step now c n : linked ip0 n -> valid_addr (SourceAddr c) -> Z.of_nat (length (store n)) + 1 < 2 ^ 62 ->
  exists r n', translateOutbound now c n = Some (r, n') /\
  ((exists i, outbound_effect ip0 now c n i n' /\ Network c = "udp" /\
     r = match setSourceAddr (external ip0 i) c with Some to => Ok (Some to) | None => Err errResolve end) \/
   (n' = n /\ Network c = "tcp" /\ r = Err errNonUDPTranslationNotSupported)).
Proof.
  intros L Ha Hb. destruct c as [u|t]; [|by eexists _, _; split; [|right]].
  rewrite translateOutbound_normal by apply L.
  destruct (outbound_spec ip0 Hip0 Hv4 now (ChunkUDP u) n L Ha eq_refl Hb) as (i & n' & -> & E). cbn [mbind option_bind].
  destruct (E_live _ _ _ _ _ _ E) as (m & [Hm _] & _). rewrite Hm. cbn [mbind option_bind].
  destruct (K_store _ _ (E_linked _ _ _ _ _ _ E) i m Hm) as (_ & -> & _).
  destruct (setSourceAddr (external ip0 i) (ChunkUDP u)) eqn:Es; (eexists _, _; split; [done|]; left; exists i; by rewrite Es).
Qed.

Lemma inbound_step now c n : linked ip0 n -> exists r n', translateInbound now c n = Some (r, n') /\
  linked ip0 n' /\ keeps now n n' /\ store n' = store n /\
  (forall to, r = Ok to -> exists i m, live n i m /\ Network c = "udp" /\ addrString (DestinationAddr c) = mapped m /\
     now <= expires m /\ setDestinationAddr (local m) c = Some to /\
     dependency (FilteringBehavior (natType n)) (getSourceIP c) (SourceAddr c) ∈ filters m) /\
  (forall i m to, live n i m -> Network c = "udp" -> addrString (DestinationAddr c) = mapped m -> now <= expires m ->
     setDestinationAddr (local m) c = Some to ->
     dependency (FilteringBehavior (natType n)) (getSourceIP c) (SourceAddr c) ∈ filters m -> r = Ok to).
Proof.
  intros L. destruct c as [u|t]; [|eexists _, n; split; [done|]; split; [done|]; split; [apply keeps_refl|]; by split].
  unfold translateInbound. change (Clone (ChunkUDP u)) with (ChunkUDP u). rewrite decide_False by (rewrite (K_mode _ _ L); done).
  destruct (inbound_spec ip0 Hip0 Hv4 now ("udp:" +:+ addrString (DestinationAddr (ChunkUDP u))) n L)
    as (r & n' & -> & L' & Hk & Hs & Hr). cbn [mbind option_bind].
  destruct r as [i|].
  - destruct Hr as [-> (m & Hl & Hik & He)]. pose proof Hl as [Hm _]. rewrite Hm. cbn [mbind option_bind].
    destruct (K_store _ _ L i m Hm) as (Hp & _). unfold ikey in Hik. rewrite Hp in Hik. cbn [String.append] in Hik. injection Hik as Hik.
    assert (addrString (DestinationAddr (ChunkUDP u)) = mapped m) as Hik' by exact Hik. clear Hik.
    assert (forall j mj, live n j mj -> addrString (DestinationAddr (ChunkUDP u)) = mapped mj -> mj = m) as Huniq.
    { intros j mj [Hj _] E. destruct (K_store _ _ L j mj Hj) as (Hpj & _).
      assert (j = i) as ->; [|congruence]. apply (ikey_inj ip0 Hip0 Hv4 n j i mj m L Hj Hm). unfold ikey. rewrite Hp, Hpj, <- E. by rewrite Hik'. }
    case_decide as Hd; [destruct (setDestinationAddr (local m) (ChunkUDP u)) as [to|] eqn:Es|];
      (eexists _, n; split; [done|]; split; [done|]; split; [done|]; split; [done|]; split).
    + intros to' [= <-]. exists i, m. by split_and!.
    + intros j mj to' Hj _ E _ Hs' _. rewrite (Huniq j mj Hj E) in Hs'. congruence.
    + done.
    + intros j mj to' Hj _ E _ Hs' _. rewrite (Huniq j mj Hj E) in Hs'. congruence.
    + done.
    + intros j mj to' Hj _ E _ _ Hd'. by rewrite (Huniq j mj Hj E) in Hd'.
  - eexists _, n'. split; [done|]. split; [done|]. split; [done|]. split; [done|]. split; [done|].
    intros i m to Hl _ E He. exfalso. destruct (K_store _ _ L i m (proj1 Hl)) as (Hp & _).
    enough (expires m < now) by lia. apply (Hr i m Hl). unfold ikey. rewrite Hp, <- E. done.
Qed.

Lemma run_ok h t n : run cfg h t n -> linked ip0 n /\ known h t n /\ (length (store n) <= length h)%nat /\
  natType n = {| Mode := NATModeNormal; MappingBehavior := MappingBehavior (c_natType cfg);
    FilteringBehavior := FilteringBehavior (c_natType cfg); Hairpinning := Hairpinning (c_natType cfg);
    PortPreservation := PortPreservation (c_natType cfg);
    MappingLifeTime := if MappingLifeTime (c_natType cfg) =? 0 then defaultNATMappingLifeTime
                       else MappingLifeTime (c_natType cfg) |}.
Proof.
  induction 1 as [t n Hn|h t n now c r n' _ (L & K & Hlen & Ht) Hnow Hsrc Hdst Hb Htr|h t n now c r n' _ (L & K & Hlen & Ht) Hnow Htr].
  - unfold newNAT in Hn. rewrite decide_False in Hn by congruence. injection Hn as <-. by split_and!.
  - destruct (outbound_step now c n L Hsrc ltac:(lia)) as (r' & n2 & Htr' & Hcase). rewrite Htr in Htr'. injection Htr' as <- <-.
    destruct Hcase as [(i & E & Hu & Hres)|(-> & _)].
    2:{ split; [done|]. split; [|simpl; split; [lia|done]]. intros j m Hj. destruct (K j m Hj) as [H1 (e & H2 & H3)]. split.
        - intros f Hf. destruct (H1 f Hf) as (e' & He' & Hr). exists e'. split; [by right|done].
        - exists e. split; [by right|]. destruct H3 as (? & ? & ? & ? & ? & ?). split_and!; try done. lia. }
    destruct (E_keeps _ _ _ _ _ _ E) as [Ht' _]. split; [apply E|]. split; [|split; [pose proof (E_grow _ _ _ _ _ _ E); simpl; lia|by rewrite Ht']].
    intros j m' Hj. unfold lifetime. rewrite Ht'. fold (lifetime n).
    destruct (E_store _ _ _ _ _ _ E j m' Hj) as [(-> & Hlo & Hf & He)|(m & Hm & (Hpr & Hlo & _) & Hfe)].
    + split; [|exists (now, c, r); simpl; split_and!; try done; by left]. intros f. rewrite Hf, elem_of_singleton. intros ->.
      exists (now, c, r). split_and!; try done. by left.
    + destruct (K j m Hm) as [H1 (e & H2 & H3 & H4 & H5 & H6 & H7 & H8)].
      assert (forall f, f ∈ filters m -> exists e, e ∈ (now, c, r) :: h /\ local m' = addrString (SourceAddr (snd (fst e))) /\
        f = dependency (FilteringBehavior (natType n)) (getDestinationIP (snd (fst e))) (DestinationAddr (snd (fst e))) /\
        valid_addr (SourceAddr (snd (fst e))) /\ valid_addr (DestinationAddr (snd (fst e))) /\
        Network (snd (fst e)) = "udp" /\ sent_by j e) as Hold.
      { intros f Hf. destruct (H1 f Hf) as (e' & He' & Hr). exists e'. rewrite Hlo. split; [by right|done]. }
      destruct Hfe as [[-> ->]|(-> & Hlo' & -> & ->)].
      * split; [done|]. exists e. rewrite Hlo. split_and!; try done; [by right|lia].
      * split; [|exists (now, c, r); simpl; split_and!; try done; by left]. intros f [Hf|Hf]%elem_of_union; [|by apply Hold].
        apply elem_of_singleton in Hf as ->. exists (now, c, r). split_and!; try done. by left.
  - destruct (inbound_step now c n L) as (r' & n2 & Htr' & L' & [Ht' _] & Hs & _). rewrite Htr in Htr'. injection Htr' as <- <-.
    split; [done|]. rewrite Hs. split; [|split; [done|by rewrite Ht']]. intros j m. rewrite Hs. unfold lifetime. rewrite Ht'. intros Hj.
    destruct (K j m Hj) as [H1 (e & H2 & H3 & H4 & H5 & H6 & H7 & H8)]. split; [done|]. exists e. split_and!; try done. lia.
Qed.

Definition mapping_lifetime : Z :=
  if MappingLifeTime (c_natType cfg) =? 0 then defaultNATMappingLifeTime else MappingLifeTime (c_natType cfg).

Lemma later_keeps T t n t' n' i m : later T t n t' n' -> linked ip0 n -> live n i m -> T <= expires m -> T <= t + lifetime n ->
  linked ip0 n' /\ natType n' = natType n /\ t <= t' /\
  exists m', live n' i m' /\ same_flow m m' /\ filters m ⊆ filters m' /\ T <= expires m'.
Proof.
  induction 1 as [t n|t n t1 n1 now c r n2 _ IH Hnow Hsrc Hb Htr|t n t1 n1 now c r n2 _ IH Hnow Htr]; intros L Hl He Ht.
  { split_and!; try done. exists m. auto using same_flow_refl. }
  all: destruct (IH L Hl He Ht) as (L1 & Hty & Htt & m1 & Hl1 & Hf1 & Hs1 & He1).
  all: enough (linked ip0 n2 /\ keeps now n1 n2) as [L2 [Hty2 Hk]]
    by (destruct (Hk i m1 Hl1 ltac:(lia)) as (m2 & Hl2 & Hf2 & Hs2 & He2);
        split; [done|]; split; [congruence|]; split; [lia|]; exists m2; split; [done|]; split; [by eapply same_flow_trans|];
        split; [set_solver|]; unfold lifetime in *; rewrite Hty in He2; lia).
  - destruct (outbound_step now c n1 L1 Hsrc ltac:(lia)) as (r' & n3 & Htr' & Hcase). rewrite Htr in Htr'. injection Htr' as <- <-.
    destruct Hcase as [(j & E & _)|(-> & _)]; [split; apply E|split; [done|apply keeps_refl]].
  - destruct (inbound_step now c n1 L1) as (r' & n3 & Htr' & L2 & Hk & _). rewrite Htr in Htr'. by injection Htr' as <- <-.
Qed.

(** The external address of a chunk that was translated. *)
Lemma outbound_ok now c n c' n' : linked ip0 n -> valid_addr (SourceAddr c) -> Z.of_nat (length (store n)) + 1 < 2 ^ 62 ->
  translateOutbound now c n = Some (Ok (Some c'), n') ->
  exists u i, c = ChunkUDP u /\ outbound_effect ip0 now c n i n' /\ Z.of_nat i < 0x4000 /\
    SourceAddr c' = UDPAddr (To16 ip0) (0xC000 + Z.of_nat i) "" /\ DestinationAddr c' = DestinationAddr c /\ UserData c' = UserData c.
Proof.
  intros L Ha Hb Htr. destruct (outbound_step now c n L Ha Hb) as (r & n2 & Htr' & Hcase). rewrite Htr in Htr'.
  injection Htr' as <- <-. destruct Hcase as [(i & E & Hu & Hr)|(_ & _ & Hr)]; [|done].
  destruct c as [u|]; [|done]. exists u, i. split; [done|]. split; [done|].
  destruct (setSourceAddr (external ip0 i) (ChunkUDP u)) as [to|] eqn:Es; [|done]. injection Hr as ->.
  destruct (setSourceAddr_spec _ _ _ Es) as (ip & p & Hres & H1 & H2 & H3).
  destruct (E_live _ _ _ _ _ _ E) as (m & [Hm _] & _). apply lookup_lt_Some in Hm.
  pose proof (E_grow _ _ _ _ _ _ E) as Hg.
  assert (Z.of_nat i < 0x4000) as Hi.
  { destruct (Z.lt_ge_cases (Z.of_nat i) 0x4000) as [|Hge]; [done|]. rewrite external_fails in Hres by (done || lia). done. }
  rewrite external_resolves in Hres by done. injection Hres as <- <-. by rewrite H1.
Qed.

Lemma external_valid i : Z.of_nat i < 0x4000 -> valid_addr (UDPAddr (To16 ip0) (0xC000 + Z.of_nat i) "").
Proof. intros Hi. split_and!; simpl; try lia; try done. by apply To16_valid. Qed.

Lemma external_string i : Z.of_nat i < 0x4000 ->
  addrString (UDPAddr (To16 ip0) (0xC000 + Z.of_nat i) "") = external ip0 i.
Proof.
  intros Hi. apply external_addr; [done|done|by apply external_valid|lia|]. split; [by apply To16_Equal|done].
Qed.

(** ** The properties *)

(** A chunk that the mapping with the external address of [c] sent. *)
Lemma sent_by_external i c (e : event) : valid_addr (DestinationAddr c) -> Z.of_nat i < 2 ^ 62 ->
  addrString (DestinationAddr c) = external ip0 i -> Network (snd (fst e)) = "udp" -> sent_by i e ->
  exists o, snd e = Ok (Some o) /\ same_endpoint (SourceAddr o) (DestinationAddr c) = true.
Proof.
  intros Hc Hi E Hu Hs. assert (Z.of_nat i < 0x4000) as Hi4.
  { destruct (Z.lt_ge_cases (Z.of_nat i) 0x4000) as [|Hge]; [done|]. pose proof (external_fails ip0 Hip0 Hv4 i ltac:(lia)) as Hx.
    rewrite <- E, (ResolveAddr_addr _ Hc) in Hx. done. }
  unfold sent_by in Hs. destruct e as [[t x] r]. cbn [fst snd] in *. destruct x as [u|]; [|done].
  unfold setSourceAddr in Hs. rewrite external_resolves in Hs by done. eexists. split; [exact Hs|]. cbn [SourceAddr].
  apply addrString_inj; [by apply external_valid|done|]. rewrite E. by apply external_string.
Qed.

(** C21. An inbound chunk is let through only by a mapping: to the host that itself has sent, by the external address
    the chunk came to, a chunk which opens the filter for its source (to any address, to that
    address, or to that address and port, as the filtering behaviour says); and by that same
    external address the host has sent a chunk no longer ago than the life time of a mapping.  Only the destination of
    the chunk changes.  The translator is in normal mode with an IPv4 address. *)
Theorem nat_inbound_safe h t n now c c' n' : run cfg h t n -> t <= now -> valid_addr (SourceAddr c) -> valid_addr (DestinationAddr c) ->
  translateInbound now c n = Some (Ok c', n') ->
  SourceAddr c' = SourceAddr c /\ UserData c' = UserData c /\
  exists t0 c0 o0, (t0, c0, Ok (Some o0)) ∈ h /\ same_endpoint (SourceAddr o0) (DestinationAddr c) = true /\
    same_endpoint (DestinationAddr c') (SourceAddr c0) = true /\
    covers (FilteringBehavior (c_natType cfg)) (DestinationAddr c0) (SourceAddr c) = true /\
    exists t1 c1 o1, (t1, c1, Ok (Some o1)) ∈ h /\ same_endpoint (SourceAddr o1) (DestinationAddr c) = true /\
      same_endpoint (SourceAddr c1) (SourceAddr c0) = true /\ t1 <= now <= t1 + mapping_lifetime.
Proof.
  intros Hrun Hnow Hsrc Hdst Htr. destruct (run_ok h t n Hrun) as (L & K & _ & Hty).
  destruct (inbound_step now c n L) as (r & n2 & Htr' & _ & _ & _ & Hok & _). rewrite Htr in Htr'. injection Htr' as <- <-.
  destruct (Hok c' eq_refl) as (i & m & [Hm _] & Hu & Hext & He & Hset & Hf). destruct c as [u|]; [|done].
  destruct (K_store _ _ L i m Hm) as (_ & Hmap & _). rewrite Hmap in Hext.
  assert (Z.of_nat i < 2 ^ 62) as Hi by (pose proof (K_bound _ _ L); apply lookup_lt_Some in Hm; lia).
  destruct (K i m Hm) as [Hfil (e1 & He1 & Hl1 & Hv1 & Hx1 & Ht1 & Hn1 & Hb1)].
  destruct (Hfil _ Hf) as (e0 & He0 & Hl0 & Hd & Hv0 & Hv0' & Hn0 & Hb0).
  destruct (sent_by_external i _ e0 Hdst Hi Hext Hn0 Hb0) as (o0 & Ho0 & Hs0).
  destruct (sent_by_external i _ e1 Hdst Hi Hext Hn1 Hb1) as (o1 & Ho1 & Hs1).
  destruct e0 as [[t0 c0] r0], e1 as [[t1 c1] r1]. cbn [fst snd] in *. subst r0 r1.
  rewrite Hl0 in Hset. destruct (setDestinationAddr_addr (SourceAddr c0) u Hv0) as (to & Hto & H1 & H2 & H3).
  rewrite Hset in Hto. injection Hto as <-. split; [done|]. split; [done|]. exists t0, c0, o0. split_and!; try done.
  - rewrite Hty in Hd. simpl in Hd. apply dependency_covers; try done. rewrite dst_ip. by symmetry.
  - exists t1, c1, o1. split_and!; try done; [apply addrString_inj; try done; congruence|lia|]. unfold lifetime in Hx1. rewrite Hty in Hx1.
    simpl in Hx1. fold mapping_lifetime in Hx1. lia.
Qed.

(** C22. While a mapping lives, whatever else is translated in the meantime, a
    chunk sent to its external address from an endpoint that the filter covers,
    such as the destination of the outbound chunk, is delivered to the host that
    sent that chunk. *)
Theorem nat_reply_delivered h t n now c c' n1 t2 n2 now2 r :
  run cfg h t n -> t <= now -> Z.of_nat (length h) < 2 ^ 61 -> valid_addr (SourceAddr c) -> valid_addr (DestinationAddr c) ->
  translateOutbound now c n = Some (Ok (Some c'), n1) ->
  later (now + mapping_lifetime) now n1 t2 n2 -> t2 <= now2 <= now + mapping_lifetime ->
  Network r = "udp" -> valid_addr (SourceAddr r) -> valid_addr (DestinationAddr r) ->
  same_endpoint (DestinationAddr r) (SourceAddr c') = true ->
  covers (FilteringBehavior (c_natType cfg)) (DestinationAddr c) (SourceAddr r) = true ->
  exists r' n3, translateInbound now2 r n2 = Some (Ok r', n3) /\ SourceAddr r' = SourceAddr r /\ UserData r' = UserData r /\
    same_endpoint (DestinationAddr r') (SourceAddr c) = true.
Proof.
  intros Hrun Hnow Hh Hsrc Hdst Htr Hlater Hnow2 Hu Hrs Hrd Hep Hcov. destruct (run_ok h t n Hrun) as (L & _ & Hlen & Hty).
  destruct (outbound_ok now c n c' n1 L Hsrc ltac:(lia) Htr) as (u & i & -> & E & Hi & Hc' & _).
  destruct (E_live _ _ _ _ _ _ E) as (m & Hl & Hlo & _ & Hfk & He). destruct (E_keeps _ _ _ _ _ _ E) as [Hty1 _].
  assert (lifetime n = mapping_lifetime) as Hlt by (unfold lifetime; by rewrite Hty).
  assert (lifetime n1 = mapping_lifetime) as Hlt1 by (unfold lifetime; by rewrite Hty1, Hty).
  destruct (later_keeps _ _ _ _ _ i m Hlater (E_linked _ _ _ _ _ _ E) Hl ltac:(lia) ltac:(lia))
    as (L2 & Hty2 & _ & m2 & Hl2 & Hf2 & Hs2 & He2).
  destruct (K_store _ _ L2 i m2 (proj1 Hl2)) as (_ & Hmap & _). destruct r as [v|]; [|done].
  destruct (inbound_step now2 (ChunkUDP v) n2 L2) as (r & n3 & Htr3 & _ & _ & _ & _ & Hok).
  destruct Hf2 as (_ & Hlo2 & _). destruct (setDestinationAddr_addr (SourceAddr (ChunkUDP u)) v Hsrc) as (to & Hto & H1 & H2 & H3).
  exists to, n3. split; [|done]. rewrite Htr3. do 2 f_equal. apply (Hok i m2 to Hl2 eq_refl); [| lia |by rewrite Hlo2, Hlo|].
  - rewrite Hmap, <- external_string by done. apply addrString_inj; [done|by apply external_valid|]. by rewrite <- Hc'.
  - apply Hs2. apply dependency_covers in Hcov; [|done..]. rewrite dst_ip, src_ip in Hcov.
    rewrite Hty2, Hty1, Hty. rewrite Hty in Hfk. simpl in *. by rewrite <- Hcov.
Qed.

(** While a mapping lives, another chunk gets the same external address
    exactly if it comes from the same host and port and goes to a destination
    that the mapping behaviour does not tell apart. *)
Theorem nat_mapping_behavior h t n now c c' n1 t2 n2 now2 d d' n3 :
  run cfg h t n -> t <= now -> Z.of_nat (length h) < 2 ^ 61 -> valid_addr (SourceAddr c) -> valid_addr (DestinationAddr c) ->
  translateOutbound now c n = Some (Ok (Some c'), n1) ->
  later (now + mapping_lifetime) now n1 t2 n2 -> t2 <= now2 <= now + mapping_lifetime -> Z.of_nat (length (store n2)) < 2 ^ 61 ->
  valid_addr (SourceAddr d) -> valid_addr (DestinationAddr d) -> translateOutbound now2 d n2 = Some (Ok (Some d'), n3) ->
  same_endpoint (SourceAddr c') (SourceAddr d') = true <->
    same_endpoint (SourceAddr c) (SourceAddr d) = true /\
    covers (MappingBehavior (c_natType cfg)) (DestinationAddr c) (DestinationAddr d) = true.
Proof.
  intros Hrun Hnow Hh Hsrc Hdst Htr Hlater Hnow2 Hb2 Hds Hdd Htrd. destruct (run_ok h t n Hrun) as (L & _ & Hlen & Hty).
  destruct (outbound_ok now c n c' n1 L Hsrc ltac:(lia) Htr) as (u & i & -> & E & Hi & Hc' & _).
  destruct (E_live _ _ _ _ _ _ E) as (m & Hl & Hlo & Hbo & _ & He). destruct (E_keeps _ _ _ _ _ _ E) as [Hty1 _].
  assert (lifetime n = mapping_lifetime) as Hlt by (unfold lifetime; by rewrite Hty).
  assert (lifetime n1 = mapping_lifetime) as Hlt1 by (unfold lifetime; by rewrite Hty1, Hty).
  destruct (later_keeps _ _ _ _ _ i m Hlater (E_linked _ _ _ _ _ _ E) Hl ltac:(lia) ltac:(lia))
    as (L2 & Hty2 & _ & m2 & Hl2 & Hf2 & _ & He2).
  destruct (outbound_ok now2 d n2 d' n3 L2 Hds ltac:(lia) Htrd) as (v & j & -> & E2 & Hj & Hd' & _).
  destruct (E_live _ _ _ _ _ _ E2) as (md & Hld & Hlod & Hbod & _). destruct (E_keeps _ _ _ _ _ _ E2) as [_ Hk].
  destruct (Hk i m2 Hl2 ltac:(lia)) as (m3 & Hl3 & Hf3 & _). pose proof (E_linked _ _ _ _ _ _ E2) as L3.
  pose proof (same_flow_trans _ _ _ Hf2 Hf3) as (_ & Hlo3 & _ & Hbo3). rewrite Hlo in Hlo3. rewrite Hbo in Hbo3.
  rewrite <- (addrString_inj (SourceAddr (ChunkUDP u))), <- dependency_covers by done. rewrite !dst_ip.
  rewrite Hty in Hbo3. rewrite Hty2, Hty1, Hty in Hbod. cbn [MappingBehavior] in Hbo3, Hbod.
  assert (same_endpoint (SourceAddr c') (SourceAddr d') = true <-> i = j) as ->.
  { rewrite Hc', Hd'. unfold same_endpoint. cbn [addr_ip addr_port]. rewrite andb_true_iff, Z.eqb_eq.
    assert (NetIP.Equal (To16 ip0) (To16 ip0) = true) as -> by (apply Equal_norm; try done; by apply To16_valid). split; [lia|intros ->; done]. }
  split.
  - intros ->. destruct Hl3 as [Hm3 _], Hld as [Hmd _]. assert (m3 = md) as -> by congruence.
    split; [by rewrite <- Hlo3, Hlod|by rewrite <- Hbo3, Hbod].
  - intros [E1 E3]. destruct Hl3 as [Hm3 Ho3], Hld as [Hmd Hod].
    destruct (K_store _ _ L3 i m3 Hm3) as (P1 & _). destruct (K_store _ _ L3 j md Hmd) as (P2 & _).
    assert (okey m3 = okey md) as Ek by (unfold okey; rewrite P1, P2, Hlo3, Hbo3, Hlod, Hbod, E1, E3; done). congruence.
Qed.

(** External ports are not reused: once 16384 mappings have been made, the
    chunks of a new flow fail because the next port is beyond 65535, and they
    keep failing while its mapping lives. *)
Theorem nat_ports_exhausted h t n now u : run cfg h t n -> t <= now -> 0x4000 <= Z.of_nat (length (store n)) ->
  Z.of_nat (length h) < 2 ^ 61 -> valid_addr (SourceAddr (ChunkUDP u)) ->
  (forall i m, live n i m -> local m <> addrString (SourceAddr (ChunkUDP u))) ->
  exists n', translateOutbound now (ChunkUDP u) n = Some (Err errResolve, n') /\
  forall now2, now <= now2 <= now + mapping_lifetime ->
    exists n2, translateOutbound now2 (ChunkUDP u) n' = Some (Err errResolve, n2).
Proof.
  intros Hrun Hnow Hfull Hh Hsrc Hfresh. destruct (run_ok h t n Hrun) as (L & _ & Hlen & Hty).
  assert (forall i, 0x4000 <= Z.of_nat i < 2 ^ 62 -> setSourceAddr (external ip0 i) (ChunkUDP u) = None) as Hno.
  { intros i Hi. unfold setSourceAddr. by rewrite external_fails. }
  destruct (outbound_step now (ChunkUDP u) n L Hsrc ltac:(lia)) as (r & n1 & -> & [(i & E & _ & ->)|(_ & ? & _)]); [|done].
  destruct (E_live _ _ _ _ _ _ E) as (m & Hl & Hlo & Hbo & _ & He). pose proof (E_grow _ _ _ _ _ _ E) as Hg.
  destruct (E_index _ _ _ _ _ _ E) as [->|(m0 & Hl0 & Hlo0)]; [|by destruct (Hfresh i m0 Hl0)].
  rewrite Hno by lia. exists n1. split; [done|]. intros now2 Hnow2. destruct (E_keeps _ _ _ _ _ _ E) as [Hty1 _].
  destruct (outbound_step now2 (ChunkUDP u) n1 (E_linked _ _ _ _ _ _ E) Hsrc ltac:(lia))
    as (r & n2 & -> & [(j & E2 & _ & ->)|(_ & ? & _)]); [|done].
  enough (j = length (store n)) as -> by (rewrite Hno by lia; eauto).
  assert (lifetime n = mapping_lifetime) as Hlt by (unfold lifetime; by rewrite Hty).
  destruct (E_keeps _ _ _ _ _ _ E2) as [_ Hk]. destruct (Hk _ m Hl ltac:(lia)) as (m2 & [Hm2 Ho2] & Hf2 & _).
  destruct (E_live _ _ _ _ _ _ E2) as (mj & [Hmj Hoj] & Hloj & Hboj & _). pose proof (E_linked _ _ _ _ _ _ E2) as L2.
  destruct (K_store _ _ L2 _ m2 Hm2) as (P1 & _). destruct (K_store _ _ L2 j mj Hmj) as (P2 & _).
  destruct Hf2 as (_ & Hlo2 & _ & Hbo2).
  assert (okey m2 = okey mj) as Ek.
  { unfold okey. rewrite P1, P2, Hlo2, Hbo2, Hloj, Hboj, Hlo, Hbo, Hty1. done. }
  congruence.
Qed.

End Normal.

(** * One-to-one translation *)

(** The address paired with [ip], where the lists pair distinct addresses. *)
Lemma paired_found keys values i k v ip : keys !! i = Some k -> values !! i = Some v ->
  (forall j k', (j < i)%nat -> keys !! j = Some k' -> NetIP.Equal k' ip = false) -> NetIP.Equal k ip = true ->
  paired keys values ip = Some v.
Proof.
  revert values i. induction keys as [|k0 keys IH]; intros values [|i] Hk Hv Hd He; simplify_eq/=.
  - rewrite He. by destruct values.
  - rewrite (Hd 0%nat k0 ltac:(lia) eq_refl). destruct values as [|v0 values]; [done|]. apply (IH _ i); try done.
    intros j k' Hj Hk'. by apply (Hd (S j) k'); [lia|].
Qed.

Lemma Equal_congr a b c : valid_ip a -> valid_ip b -> valid_ip c -> NetIP.Equal a b = true ->
  NetIP.Equal c a = NetIP.Equal c b.
Proof.
  intros Ha Hb Hc E. apply Equal_norm in E; [|done..]. apply eq_true_iff_eq.
  rewrite (Equal_norm c a), (Equal_norm c b) by done. by rewrite E.
Qed.


Section OneToOne.
Context (cfg : natConfig) (n : NAT) (Hmode : Mode (c_natType cfg) = NATModeNAT1To1) (Hn : newNAT cfg = Ok n).

Definition v4_list (l : list IP) : Prop := Forall (fun ip => valid_ip ip /\ length (norm ip) = 4%nat) l /\
  forall i j a b, l !! i = Some a -> l !! j = Some b -> NetIP.Equal a b = true -> i = j.

Context (Hmapped : v4_list (c_mappedIPs cfg)) (Hlocal : v4_list (c_localIPs cfg)).

Lemma one_to_one_fields : Mode (natType n) = NATModeNAT1To1 /\ mappedIPs n = c_mappedIPs cfg /\ localIPs n = c_localIPs cfg /\
  length (c_mappedIPs cfg) = length (c_localIPs cfg).
Proof.
  unfold newNAT in Hn. rewrite decide_True in Hn by done. destruct (Nat.eqb _ 0); [done|].
  destruct (Nat.eqb_spec (length (c_mappedIPs cfg)) (length (c_localIPs cfg))); [|done]. simpl in Hn. by injection Hn as <-.
Qed.

Lemma v4_text ip p : valid_ip ip -> length (norm ip) = 4%nat -> 0 <= p < 65536 ->
  ResolveAddr (NetIP.ipString ip +:+ ":" +:+ itoa p) = Some (To16 ip, p).
Proof.
  intros Hv H4 Hp. rewrite <- ResolveAddr_printed by done. f_equal. unfold JoinHostPort. rewrite itoa_nonneg by lia.
  destruct (has_char ":" (NetIP.ipString ip)) eqn:E; [|done]. apply ipString_colon in E; [lia|done].
Qed.

Lemma v4_pair (keys values : list IP) i k v ip : v4_list keys -> keys !! i = Some k -> values !! i = Some v ->
  valid_ip ip -> NetIP.Equal k ip = true -> paired keys values ip = Some v.
Proof.
  intros [Hall Hd] Hk Hv Hip He. apply (paired_found _ _ i k); try done. intros j k' Hj Hk'.
  destruct (NetIP.Equal k' ip) eqn:E; [|done]. rewrite Forall_forall in Hall.
  assert (valid_ip k /\ valid_ip k') as [Hvk Hvk'] by (split; apply Hall; by eapply list_elem_of_lookup_2).
  enough (j = i) by lia. apply (Hd j i k' k); try done. apply Equal_norm; try done. apply Equal_norm in E, He; try done. congruence.
Qed.

(** In the one-to-one mode a chunk from a local address leaves with the
    paired external address and the same port, and whatever is sent to that
    address and port arrives at the local one; the translator keeps no state. *)
Theorem nat_one_to_one i l m now u : c_localIPs cfg !! i = Some l -> c_mappedIPs cfg !! i = Some m ->
  valid_addr (SourceAddr (ChunkUDP u)) -> NetIP.Equal l (sourceIP (u_ip u)) = true ->
  exists c', translateOutbound now (ChunkUDP u) n = Some (Ok (Some c'), n) /\
    same_endpoint (SourceAddr c') (UDPAddr m (u_sourcePort u) "") = true /\
    DestinationAddr c' = DestinationAddr (ChunkUDP u) /\ UserData c' = u_userData u /\
    forall now2 v, valid_addr (DestinationAddr (ChunkUDP v)) ->
      same_endpoint (DestinationAddr (ChunkUDP v)) (SourceAddr c') = true ->
      exists r, translateInbound now2 (ChunkUDP v) n = Some (Ok r, n) /\ SourceAddr r = SourceAddr (ChunkUDP v) /\
        UserData r = u_userData v /\ same_endpoint (DestinationAddr r) (SourceAddr (ChunkUDP u)) = true.
Proof.
  intros Hli Hmi (Hsv & Hsp & _) Hle. simpl in Hsv, Hsp. destruct one_to_one_fields as (Hm & Hmap & Hloc & Hlen).
  assert (forall l i ip, v4_list l -> l !! i = Some ip -> valid_ip ip /\ length (norm ip) = 4%nat) as Hel.
  { intros l0 j ip [H _] Hj. rewrite Forall_forall in H. apply H. by eapply list_elem_of_lookup_2. }
  destruct (Hel _ _ _ Hlocal Hli) as [Hlv Hl4]. destruct (Hel _ _ _ Hmapped Hmi) as [Hmv Hm4].
  assert (forall ip, valid_ip ip -> ip <> []) as Hnil by (intros ip [[H|H] _] ->; done).
  unfold translateOutbound. rewrite decide_True by done. unfold getPairedMappedIP, getSourceIP. cbn [chunk_ip].
  rewrite Hmap, Hloc, (v4_pair _ _ i l m) by done. cbn [mbind option_bind].
  destruct m as [|m0 m']; [by destruct (Hnil [])|]. set (m := m0 :: m') in *. change (Clone (ChunkUDP u)) with (ChunkUDP u).
  unfold setSourceAddr. rewrite v4_text by done. cbn [mbind option_bind]. eexists. split; [done|]. cbn [SourceAddr DestinationAddr UserData u_ip u_sourcePort u_destinationPort u_userData set_sourceIP sourceIP destinationIP].
  split_and!; try done; [by apply same_endpoint_16|]. intros now2 v Hdv Hep. destruct Hdv as (Hdv & Hdp & _). cbn [DestinationAddr] in Hdv, Hdp.
  unfold same_endpoint in Hep. cbn [addr_ip addr_port DestinationAddr] in Hep. apply andb_true_iff in Hep as [He Hpo]. apply Z.eqb_eq in Hpo.
  unfold translateInbound. rewrite decide_True by done. unfold getPairedLocalIP, getDestinationIP. cbn [chunk_ip].
  rewrite Hmap, Hloc, (v4_pair _ _ i m l) by (done || (apply Equal_norm; [done|done|]; apply Equal_norm in He; [|done|by apply To16_valid]; rewrite He; by rewrite To16_norm)).
  cbn [mbind option_bind]. destruct l as [|l0 l']; [by destruct (Hnil [])|]. set (l := l0 :: l') in *.
  change (Clone (ChunkUDP v)) with (ChunkUDP v). unfold setDestinationAddr. rewrite v4_text by done. cbn [mbind option_bind].
  eexists. split; [done|]. split; [done|]. split; [done|]. simpl. unfold same_endpoint. simpl. rewrite Hpo, Z.eqb_refl, andb_true_r.
  apply Equal_norm; [by apply To16_valid|done|]. rewrite To16_norm by done. by apply Equal_norm in Hle.
Qed.

End OneToOne.

(** * A translator at work *)

Definition nat_cfg (m : NATMode) (b f : EndpointDependencyType) : natConfig :=
  {| c_natType := {| Mode := m; MappingBehavior := b; FilteringBehavior := f; Hairpinning := false;
                     PortPreservation := false; MappingLifeTime := 0 |};
     c_mappedIPs := [[27; 1; 1; 1]; [27; 1; 1; 2]]; c_localIPs := [[192; 168; 0; 1]; [192; 168; 0; 2]] |}.

Definition nat_state (r : option (result nat_error (option Chunk) * NAT)) (n : NAT) : NAT :=
  match r with Some (_, n) => n | None => n end.

Definition nat_chunk (r : option (result nat_error (option Chunk) * NAT)) (c : Chunk) : Chunk :=
  match r with Some (Ok (Some c), _) => c | _ => c end.

Definition fresh_nat (cfg : natConfig) : NAT :=
  match newNAT cfg with
  | Ok n => n
  | Err _ => {| natType := c_natType cfg; mappedIPs := []; localIPs := []; outboundMap := ∅; inboundMap := ∅;
                store := []; udpPortCounter := 0 |}
  end.

Definition udp_to (dst : IP) (port : Z) : Chunk := ChunkUDP (newChunkUDP [192; 168; 0; 2] 5000 dst port "1").
Definition udp_from (src : IP) (port dport : Z) : Chunk := ChunkUDP (newChunkUDP src port [27; 1; 1; 1] dport "2").

Definition cone : natConfig := nat_cfg NATModeNormal EndpointIndependent EndpointAddrDependent.
Definition cone_first := translateOutbound 10 (udp_to [5; 6; 7; 8] 53) (fresh_nat cone).
Definition cone_state : NAT := nat_state cone_first (fresh_nat cone).

Ltac valid_v4 := simpl; unfold valid_ip; split_and!; try lia; try done; [by left|repeat constructor; unfold byte_ok; lia].

Definition cone_history : list event := [(10, udp_to [5; 6; 7; 8] 53, match cone_first with Some (r, _) => r | None => Ok None end)].

Lemma cone_run : run cone cone_history 10 cone_state.
Proof.
  eapply (run_out cone [] 10 (fresh_nat cone) 10); [by apply run_new|lia|valid_v4|valid_v4|simpl; lia|by vm_compute].
Qed.

(** Another port of the host that was sent to may answer, another host may
    not. *)
Lemma nat_inbound_safe_witness : exists c' n', translateInbound 20 (udp_from [5; 6; 7; 8] 99 49152) cone_state = Some (Ok c', n') /\
  fst <$> translateInbound 20 (udp_from [9; 6; 7; 8] 99 49152) cone_state = Some (Err errHasNoPermission) /\
  exists t0 c0 o0, (t0, c0, Ok (Some o0)) ∈ cone_history /\ same_endpoint (SourceAddr o0) (UDPAddr [27; 1; 1; 1] 49152 "") = true /\
    same_endpoint (DestinationAddr c') (SourceAddr c0) = true.
Proof.
  eexists _, _. split; [by vm_compute|]. split; [by vm_compute|].
  edestruct (nat_inbound_safe cone [27; 1; 1; 1] eq_refl eq_refl ltac:(valid_v4) eq_refl
    cone_history 10 cone_state 20
    (udp_from [5; 6; 7; 8] 99 49152)) as (_ & _ & t0 & c0 & o0 & H1 & H2 & H3 & _); [exact cone_run|lia|valid_v4|valid_v4|by vm_compute|].
  exists t0, c0, o0. split; [exact H1|]. split; [exact H2|exact H3].
Defined.

Lemma nat_reply_delivered_witness : exists r' n3,
  translateInbound 20 (udp_from [5; 6; 7; 8] 53 49152) cone_state = Some (Ok r', n3) /\
  same_endpoint (DestinationAddr r') (SourceAddr (udp_to [5; 6; 7; 8] 53)) = true.
Proof.
  edestruct (nat_reply_delivered cone [27; 1; 1; 1] eq_refl eq_refl ltac:(valid_v4) eq_refl [] 10 (fresh_nat cone) 10
    (udp_to [5; 6; 7; 8] 53) (nat_chunk cone_first (udp_to [5; 6; 7; 8] 53)) cone_state 10 cone_state 20
    (udp_from [5; 6; 7; 8] 53 49152)) as (r' & n3 & H1 & _ & _ & H2);
    [by apply run_new|lia|simpl; lia|valid_v4|valid_v4|by vm_compute|apply later_refl|by vm_compute|done|valid_v4|valid_v4|by vm_compute|by vm_compute|].
  exists r', n3. split; [exact H1|exact H2].
Defined.

(** A second destination gets the same external port. *)
Lemma nat_mapping_behavior_witness : exists d' n3,
  translateOutbound 20 (udp_to [9; 9; 9; 9] 443) cone_state = Some (Ok (Some d'), n3) /\
  same_endpoint (SourceAddr (nat_chunk cone_first (udp_to [5; 6; 7; 8] 53))) (SourceAddr d') = true.
Proof.
  eexists _, _. split; [by vm_compute|].
  eapply (nat_mapping_behavior cone [27; 1; 1; 1] eq_refl eq_refl ltac:(valid_v4) eq_refl [] 10 (fresh_nat cone) 10
    (udp_to [5; 6; 7; 8] 53) (nat_chunk cone_first (udp_to [5; 6; 7; 8] 53)) cone_state 10 cone_state 20 (udp_to [9; 9; 9; 9] 443));
    [by apply run_new|lia|simpl; lia|valid_v4|valid_v4|by vm_compute|apply later_refl|by vm_compute|by vm_compute|valid_v4|valid_v4|by vm_compute|].
  split; by vm_compute.
Defined.

Definition paired_cfg : natConfig := nat_cfg NATModeNAT1To1 EndpointIndependent EndpointIndependent.

Lemma paired_lists : v4_list (c_mappedIPs paired_cfg) /\ v4_list (c_localIPs paired_cfg).
Proof.
  split; (split; [repeat apply Forall_cons_2; [split; [valid_v4|done]..|apply Forall_nil_2]|]); intros [|[|i]] [|[|j]] a b Ha Hb E; by simplify_eq/=.
Qed.

Lemma nat_one_to_one_witness : exists c',
  translateOutbound 10 (udp_to [5; 6; 7; 8] 53) (fresh_nat paired_cfg) = Some (Ok (Some c'), fresh_nat paired_cfg) /\
  same_endpoint (SourceAddr c') (UDPAddr [27; 1; 1; 2] 5000 "") = true.
Proof.
  edestruct (nat_one_to_one paired_cfg (fresh_nat paired_cfg) eq_refl eq_refl (proj1 paired_lists) (proj2 paired_lists) 1
    [192; 168; 0; 2] [27; 1; 1; 2] 10 (newChunkUDP [192; 168; 0; 2] 5000 [5; 6; 7; 8] 53 "1")) as (c' & H1 & H2 & _);
    [done|done|valid_v4|by vm_compute|]. exists c'. split; [exact H1|exact H2].
Defined.
