(* ===== verification/JitterBuffer.v ===== *)
(** The jitter buffer: lib/livekit-server-sdk/pkg/jitter/buffer.go.

    Received RTP packets wait in a doubly linked list, [queue] here, head
    first; sequence numbers and timestamps are kept at their 16 and 32 bits.
    Freed list nodes go to a pool and come back from it with the [reset] flag
    they had, so the pool is the list of those flags.  The mutex makes every
    operation atomic.  The payload inspection of pion/rtp's [Depacketizer] is
    a parameter. *)

From Stdlib Require Import Sorted.
From stdpp Require Import sorting.
From S2P Require Import Prelude.

Record rtp_Packet := {
  SequenceNumber : Z; Timestamp : Z; Marker : bool; Payload : bytes }.

(** [type packet]. *)
Record packet := {
  start : bool; end_ : bool; reset : bool; padding : bool; pkt : rtp_Packet }.

Definition set_reset (r : bool) (p : packet) : packet :=
  {| start := start p; end_ := end_ p; reset := r; padding := padding p; pkt := pkt p |}.

Definition sn (p : packet) : Z := SequenceNumber (pkt p).
Definition ts (p : packet) : Z := Timestamp (pkt p).

Record Buffer := {
  maxLate : Z;
  packetsDropped : Z;
  packetsTotal : Z;
  (** calls of the handler of [WithPacketDroppedHandler] so far *)
  dropCallbacks : Z;
  pool : list bool;
  size : Z;
  initialized : bool;
  prevSN : Z;
  queue : list packet;
  maxSampleSize : Z;
  minTS : Z;
}.

(** [before16], [before32], [outsideRange]. *)
Definition before16 (a b : Z) : bool := Z.land (u16 (b - a)) 0x8000 =? 0.
Definition before32 (a b : Z) : bool := Z.land (u32 (b - a)) 0x80000000 =? 0.
Definition outsideRange (a b : Z) : bool := (3000 <? u16 (a - b)) && (3000 <? u16 (b - a)).

(** [NewBuffer]; [late] is the number of clock ticks of the latency, which
    the code computes in floating point. *)
Definition NewBuffer (late : Z) : Buffer :=
  {| maxLate := late; packetsDropped := 0; packetsTotal := 0; dropCallbacks := 0; pool := [];
     size := 0; initialized := false; prevSN := 0; queue := []; maxSampleSize := 0; minTS := 0 |}.

(** Field updates. *)
Definition with_queue (q : list packet) (b : Buffer) : Buffer :=
  {| maxLate := maxLate b; packetsDropped := packetsDropped b; packetsTotal := packetsTotal b;
     dropCallbacks := dropCallbacks b; pool := pool b; size := size b;
     initialized := initialized b; prevSN := prevSN b; queue := q;
     maxSampleSize := maxSampleSize b; minTS := minTS b |}.
Definition with_prevSN (s : Z) (b : Buffer) : Buffer :=
  {| maxLate := maxLate b; packetsDropped := packetsDropped b; packetsTotal := packetsTotal b;
     dropCallbacks := dropCallbacks b; pool := pool b; size := size b;
     initialized := initialized b; prevSN := s; queue := queue b;
     maxSampleSize := maxSampleSize b; minTS := minTS b |}.
Definition with_minTS (t : Z) (b : Buffer) : Buffer :=
  {| maxLate := maxLate b; packetsDropped := packetsDropped b; packetsTotal := packetsTotal b;
     dropCallbacks := dropCallbacks b; pool := pool b; size := size b;
     initialized := initialized b; prevSN := prevSN b; queue := queue b;
     maxSampleSize := maxSampleSize b; minTS := t |}.
Definition with_maxSampleSize (t : Z) (b : Buffer) : Buffer :=
  {| maxLate := maxLate b; packetsDropped := packetsDropped b; packetsTotal := packetsTotal b;
     dropCallbacks := dropCallbacks b; pool := pool b; size := size b;
     initialized := initialized b; prevSN := prevSN b; queue := queue b;
     maxSampleSize := t; minTS := minTS b |}.
Definition with_initialized (b : Buffer) : Buffer :=
  {| maxLate := maxLate b; packetsDropped := packetsDropped b; packetsTotal := packetsTotal b;
     dropCallbacks := dropCallbacks b; pool := pool b; size := size b;
     initialized := true; prevSN := prevSN b; queue := queue b;
     maxSampleSize := maxSampleSize b; minTS := minTS b |}.
Definition with_counts (dropped total calls : Z) (b : Buffer) : Buffer :=
  {| maxLate := maxLate b; packetsDropped := packetsDropped b + dropped;
     packetsTotal := packetsTotal b + total; dropCallbacks := dropCallbacks b + calls;
     pool := pool b; size := size b; initialized := initialized b; prevSN := prevSN b;
     queue := queue b; maxSampleSize := maxSampleSize b; minTS := minTS b |}.
Definition with_pool (l : list bool) (n : Z) (b : Buffer) : Buffer :=
  {| maxLate := maxLate b; packetsDropped := packetsDropped b; packetsTotal := packetsTotal b;
     dropCallbacks := dropCallbacks b; pool := l; size := n;
     initialized := initialized b; prevSN := prevSN b; queue := queue b;
     maxSampleSize := maxSampleSize b; minTS := minTS b |}.

(** [UpdateMaxLatency]. *)
Definition UpdateMaxLatency (late : Z) (b : Buffer) : Buffer :=
  let b1 := with_minTS (u32 (minTS b + u32 (maxLate b - late))) b in
  {| maxLate := late; packetsDropped := packetsDropped b1; packetsTotal := packetsTotal b1;
     dropCallbacks := dropCallbacks b1; pool := pool b1; size := size b1;
     initialized := initialized b1; prevSN := prevSN b1; queue := queue b1;
     maxSampleSize := maxSampleSize b1; minTS := minTS b1 |}.

(** [newPacket]: a node from the pool keeps its old [reset] flag. *)
Definition newPacket (s e pad : bool) (p : rtp_Packet) (b : Buffer) : Buffer * packet :=
  match pool b with
  | [] => (with_pool [] (size b + 1) b,
           {| start := s; end_ := e; reset := false; padding := pad; pkt := p |})
  | r :: rest => (with_pool rest (size b + 1) b,
           {| start := s; end_ := e; reset := r; padding := pad; pkt := p |})
  end.

(** [free]. *)
Definition free (p : packet) (b : Buffer) : Buffer :=
  with_pool (reset p :: pool b) (size b - 1) b.

(** The new sample size when [p] directly follows [c]. *)
Definition observe (p : rtp_Packet) (c : packet) (b : Buffer) : Buffer :=
  if SequenceNumber p =? u16 (sn c + 1) then
    let f := u32 (Timestamp p - ts c) in
    if maxSampleSize b <? f then with_maxSampleSize f b else b
  else b.

(** Insert [p] after position [i] of the queue. *)
Definition insert_after (i : nat) (p : packet) (q : list packet) : list packet :=
  take (S i) q ++ p :: drop (S i) q.

(** The two insertion loops of [Push]: from the one before the tail towards
    the head, the first node that is not skipped; a packet for which there is
    none stays out of the list. *)
Definition insert_head_range (p : packet) (b : Buffer) : Buffer :=
  let q := queue b in
  match find_last (fun c => negb (before16 (sn p) (sn c) || outsideRange (sn p) (sn c)))
          (take (length q - 1) q) with
  | None => b
  | Some i =>
      match q !! i with
      | None => b
      | Some c => with_queue (insert_after i p q) (observe (pkt p) c b)
      end
  end.

Definition insert_tail_range (p : packet) (b : Buffer) : Buffer :=
  let q := queue b in
  match find_last (fun c => negb (before16 (sn p) (sn c) && negb (outsideRange (sn p) (sn c))))
          (take (length q - 1) q) with
  | None => b
  | Some i =>
      match q !! i with
      | None => b
      | Some c =>
          if start p && outsideRange (sn p) (sn c)
          then with_queue (insert_after i (set_reset true p) q) b
          else with_queue (insert_after i p q) (observe (pkt p) c b)
      end
  end.

Section Jitter.
(** pion/rtp's [Depacketizer]. *)
Context (IsPartitionHead : bytes -> bool) (IsPartitionTail : bool -> bytes -> bool).

(** The flags [Push] computes for a packet: start, end, padding. *)
Definition flags (p : rtp_Packet) : bool * bool * bool :=
  match Payload p with
  | [] => (true, true, true)
  | _ => (IsPartitionHead (Payload p), IsPartitionTail (Marker p) (Payload p), false)
  end.

(** The placement of a packet that was not dropped. *)
Definition place (p : packet) (outsidePrevRange : bool) (b : Buffer) : Buffer :=
  match queue b, last (queue b) with
  | hd :: _, Some tl =>
      let beforeHead := before16 (sn p) (sn hd) in
      let beforeTail := before16 (sn p) (sn tl) in
      let outsideHeadRange := outsideRange (sn p) (sn hd) in
      let outsideTailRange := outsideRange (sn p) (sn tl) in
      if negb beforeTail && negb outsideTailRange then
        let b1 := with_minTS (u32 (minTS b + u32 (ts p - ts tl))) b in
        with_queue (queue b ++ [p]) (observe (pkt p) tl b1)
      else if outsideHeadRange && outsideTailRange then
        with_queue (queue b ++ [set_reset (start p) p])
          (with_minTS (u32 (minTS b + maxSampleSize b)) b)
      else if beforeHead && negb outsideHeadRange then
        with_queue (set_reset (start p && outsidePrevRange) p :: queue b) b
      else if outsideTailRange then insert_head_range p b
      else insert_tail_range p b
  | _, _ =>
      let p1 := if negb (reset p) then set_reset (start p && outsidePrevRange) p else p in
      with_queue [p1] (with_minTS (u32 (Timestamp (pkt p) - maxLate b)) b)
  end.

(** [Push]. *)
Definition Push (p : rtp_Packet) (b0 : Buffer) : Buffer :=
  let b := with_counts 0 1 0 b0 in
  let '(s, e, pad) := flags p in
  if pad && negb (initialized b) then b
  else
    let '(b1, np) := newPacket s e pad p b in
    let beforePrev := before16 (SequenceNumber p) (prevSN b1) in
    let outsidePrevRange := outsideRange (SequenceNumber p) (prevSN b1) in
    if negb (initialized b1) then
      if start np && match queue b1 with
                     | [] => true
                     | hd :: _ => before16 (SequenceNumber p) (sn hd)
                     end
      then
        place (set_reset true np) outsidePrevRange
          (with_minTS (u32 (Timestamp p - maxLate b1))
             (with_prevSN (u16 (SequenceNumber p - 1)) (with_initialized b1)))
      else place np outsidePrevRange b1
    else if beforePrev && negb outsidePrevRange then
      if negb (padding np) then with_counts 1 0 1 b1 else b1
    else place np outsidePrevRange b1.

(** [forcePop]. *)
Definition forcePop (b : Buffer) : Buffer * list rtp_Packet :=
  (with_queue [] (foldl (fun b c => free c b) b (queue b)), pkt <$> queue b).

(** The loop of [forcePopSamples]; a sample without an end at the end of the
    list is not returned. *)
Fixpoint split_samples (q : list packet) (sample : list rtp_Packet) : list (list rtp_Packet) :=
  match q with
  | [] => []
  | c :: q' =>
      let done_ := if start c && negb (bool_decide (sample = [])) then [sample] else [] in
      let sample := if start c && negb (bool_decide (sample = [])) then [] else sample in
      let sample := sample ++ [pkt c] in
      if end_ c then done_ ++ [sample] ++ split_samples q' []
      else done_ ++ split_samples q' sample
  end.

#[local] Instance rtp_Packet_eq_dec : EqDecision rtp_Packet.
Proof. solve_decision. Defined.

Definition forcePopSamples (b : Buffer) : Buffer * list (list rtp_Packet) :=
  (with_queue [] (foldl (fun b c => free c b) b (queue b)), split_samples (queue b) []).

End Jitter.

(** [dropHead], of a list that is not empty. *)
Definition dropHead (b : Buffer) : Buffer :=
  match queue b with
  | [] => b
  | c :: q' =>
      let b1 := with_queue q' (with_prevSN (sn c) b) in
      let b2 :=
        match q' with
        | [] => b1
        | h :: _ =>
            if outsideRange (sn h) (sn c)
            then with_minTS (u32 (minTS b1 + u32 (u32 (ts h - ts c) - maxSampleSize b1))) b1
            else b1
        end in
      free c b2
  end.

(** The first loop of [drop], over the packets in the list; the flag says
    whether anything was dropped. *)
Fixpoint drop_partial (q : list packet) (b : Buffer) (dropped : bool) : Buffer * bool :=
  match q with
  | [] => (b, dropped)
  | h :: q' =>
      if negb (start h) && before32 (u32 (ts h - maxSampleSize b)) (minTS b)
      then drop_partial q'
             (dropHead (with_prevSN (u16 (sn h - 1)) (with_counts 1 0 0 b))) true
      else (b, dropped)
  end.

(** The second loop of [drop]: whole samples, [inside] being the timestamp of
    the sample being dropped. *)
Fixpoint drop_samples (q : list packet) (inside : option Z) (b : Buffer) (dropped : bool)
    : Buffer * bool :=
  match q with
  | [] => (b, dropped)
  | c :: q' =>
      let same := match inside with Some t => ts c =? t | None => false end in
      if same then drop_samples q' inside (dropHead (with_counts 1 0 0 b)) true
      else if (start c && before32 (minTS b) (ts c)) || (negb (start c) && negb (before32 (ts c) (minTS b)))
      then (b, dropped)
      else drop_samples q' (Some (ts c)) (dropHead (with_counts 1 0 0 b)) true
  end.

(** [drop]. *)
Definition drop_old (b : Buffer) : Buffer :=
  match queue b with
  | [] => b
  | h :: _ =>
      let '(b1, dropped) :=
        if negb (sn h =? u16 (prevSN b + 1)) &&
           ((start h && before32 (u32 (ts h - maxSampleSize b)) (minTS b)) ||
            (negb (start h) && before32 (ts h) (minTS b)))
        then
          let '(b1, d1) := if negb (reset h) then (with_counts 1 0 0 b, true) else (b, false) in
          let '(b2, d2) := drop_partial (queue b1) b1 d1 in
          (match queue b2 with
           | [] => b2
           | h2 :: _ => with_prevSN (u16 (sn h2 - 1)) b2
           end, d2)
        else (b, false) in
      let '(b2, dropped2) := drop_samples (queue b1) None b1 dropped in
      if dropped2 then with_counts 0 0 1 b2 else b2
  end.

(** The loop of [getEnd]: the position of the last end packet of the run that
    can be popped. *)
Fixpoint getEnd_loop (maxSample minT : Z) (q : list packet) (i : nat) (prev : Z)
    (prevComplete : bool) (e : option nat) : option nat :=
  match q with
  | [] => e
  | c :: q' =>
      if negb (sn c =? u16 (prev + 1)) &&
         (negb prevComplete || negb (reset c) || negb (before32 (u32 (ts c - maxSample)) minT))
      then e
      else getEnd_loop maxSample minT q' (S i) (sn c) (end_ c) (if end_ c then Some i else e)
  end.

Definition getEnd (b : Buffer) : option nat :=
  getEnd_loop (maxSampleSize b) (minTS b) (queue b) 0 (prevSN b) true None.

(** Removing the packets up to position [e], as the loops of [pop] and
    [popSamples] do. *)
Fixpoint remove_upto (e : nat) (q : list packet) (b : Buffer) {struct q} : Buffer :=
  match q with
  | [] => b
  | c :: q' =>
      let b1 :=
        match q' with
        | [] => b
        | next :: _ =>
            if outsideRange (sn next) (sn c)
            then with_minTS (u32 (minTS b + u32 (u32 (ts next - ts c) - maxSampleSize b))) b
            else b
        end in
      match e with
      | O => free c (with_queue q' (with_prevSN (sn c) b1))
      | S e' => remove_upto e' q' (free c b1)
      end
  end.

Definition visible (q : list packet) : list rtp_Packet :=
  pkt <$> filter (fun c => padding c = false) q.

(** [pop]. *)
Definition pop (b : Buffer) : Buffer * list rtp_Packet :=
  if negb (initialized b) then (b, [])
  else
    let b1 := drop_old b in
    match queue b1 with
    | [] => (b1, [])
    | h :: _ =>
        if negb (start h) then (b1, [])
        else
          match getEnd b1 with
          | None => (b1, [])
          | Some e => (remove_upto e (queue b1) b1, visible (take (S e) (queue b1)))
          end
    end.

(** The samples the loop of [popSamples] collects. *)
Fixpoint pop_samples_loop (q : list packet) (sample : list rtp_Packet) : list (list rtp_Packet) :=
  match q with
  | [] => []
  | c :: q' =>
      let sample := if negb (padding c) then sample ++ [pkt c] else sample in
      if end_ c then sample :: pop_samples_loop q' [] else pop_samples_loop q' sample
  end.

(** [popSamples]. *)
Definition popSamples (b : Buffer) : Buffer * list (list rtp_Packet) :=
  if negb (initialized b) then (b, [])
  else
    let b1 := drop_old b in
    match queue b1 with
    | [] => (b1, [])
    | h :: _ =>
        if negb (start h) then (b1, [])
        else
          match getEnd b1 with
          | None => (b1, [])
          | Some e =>
              (remove_upto e (queue b1) b1, pop_samples_loop (take (S e) (queue b1)) [])
          end
    end.

(** [Pop] and [PopSamples]. *)
Definition Pop (force : bool) (b : Buffer) : Buffer * list rtp_Packet :=
  if force then forcePop b else pop b.
Definition PopSamples (force : bool) (b : Buffer) : Buffer * list (list rtp_Packet) :=
  if force then forcePopSamples b else popSamples b.

(** [PacketLoss], as the pair of the counters it divides. *)
Definition PacketLoss (b : Buffer) : Z * Z := (packetsDropped b, packetsTotal b).

(** * Sequence numbers in a window *)

Lemma land_pow2_eqb x p : 0 <= p -> (Z.land x (2 ^ p) =? 0) = negb (Z.testbit x p).
Proof.
  intros Hp. destruct (Z.testbit x p) eqn:E; simpl.
  - apply Z.eqb_neq. intros H0. assert (Z.testbit (Z.land x (2 ^ p)) p = true) as H1.
    { by rewrite Z.land_spec, E, Z.pow2_bits_true. }
    by rewrite H0, Z.bits_0 in H1.
  - apply Z.eqb_eq, Z.bits_inj_0. intros j. rewrite Z.land_spec.
    destruct (decide (j = p)) as [->|Hj]; [by rewrite E|].
    rewrite Z.pow2_bits_false by done. apply andb_false_r.
Qed.

Lemma sign_bit x p : 0 <= p -> 0 <= x < 2 ^ (p + 1) -> Z.testbit x p = (2 ^ p <=? x).
Proof.
  intros Hp Hx. rewrite Z.testbit_eqb by done. rewrite Z.pow_add_r in Hx by lia.
  change (2 ^ 1) with 2 in Hx. assert (0 < 2 ^ p) as Hpos by (apply Z.pow_pos_nonneg; lia).
  assert (0 <= x / 2 ^ p < 2) by (split; [apply Z.div_pos; lia|apply Z.div_lt_upper_bound; lia]).
  rewrite Z.mod_small by done. destruct (2 ^ p <=? x) eqn:E; boolp.
  - assert (1 <= x / 2 ^ p) by (apply Z.div_le_lower_bound; lia). apply Z.eqb_eq. lia.
  - rewrite Z.div_small by lia. done.
Qed.

Lemma before16_eq a b : before16 a b = (u16 (b - a) <? 32768).
Proof.
  unfold before16. change 0x8000 with (2 ^ 15). rewrite land_pow2_eqb by lia.
  rewrite sign_bit by (try lia; apply u16_range). change (2 ^ 15) with 32768.
  destruct (_ <=? _) eqn:E1, (_ <? _) eqn:E2; boolp; (done || lia).
Qed.

Lemma before32_eq a b : before32 a b = (u32 (b - a) <? 2147483648).
Proof.
  unfold before32. change 0x80000000 with (2 ^ 31). rewrite land_pow2_eqb by lia.
  rewrite sign_bit by (try lia; apply u32_range). change (2 ^ 31) with 2147483648.
  destruct (_ <=? _) eqn:E1, (_ <? _) eqn:E2; boolp; (done || lia).
Qed.

Lemma u16_sub a b : u16 (u16 a - u16 b) = u16 (a - b).
Proof. unfold u16. by rewrite <- Zminus_mod. Qed.

Lemma u16_neg z : 0 < z < 65536 -> u16 (- z) = 65536 - z.
Proof. intros. unfold u16. rewrite <- (Z.mod_add _ 1), Z.mod_small by lia. lia. Qed.

(** Numbers less than 3000 apart compare like their distances from a base. *)
Lemma before16_near base i j :
  -3001 < i - j < 3001 -> before16 (u16 (base + i)) (u16 (base + j)) = (i <=? j).
Proof.
  intros H. rewrite before16_eq, u16_sub. replace (base + j - (base + i)) with (j - i) by lia.
  destruct (i <=? j) eqn:E; boolp.
  - rewrite u16_small by lia. apply Z.ltb_lt. lia.
  - replace (j - i) with (- (i - j)) by lia. rewrite u16_neg by lia. apply Z.ltb_ge. lia.
Qed.

Lemma outsideRange_near base i j :
  -3001 < i - j < 3001 -> outsideRange (u16 (base + i)) (u16 (base + j)) = false.
Proof.
  intros H. unfold outsideRange. rewrite !u16_sub. apply andb_false_iff.
  destruct (Z.le_ge_cases j i); [left|right]; apply Z.ltb_ge; rewrite u16_small; lia.
Qed.

(** * Lists *)

Lemma find_last_app {A} (f : A -> bool) l x r :
  f x = true -> Forall (fun y => f y = false) r ->
  find_last f (l ++ x :: r) = Some (length l).
Proof.
  intros Hx Hr. induction l as [|y l IH]; simpl.
  - rewrite (proj2 (find_last_None f r) Hr), Hx. done.
  - by rewrite IH.
Qed.

(** A strictly increasing list splits around a number not in it. *)
Lemma sorted_split (ix : list nat) j :
  StronglySorted lt ix -> j ∉ ix ->
  exists l r, ix = l ++ r /\ Forall (fun i => i < j)%nat l /\ Forall (fun i => j < i)%nat r.
Proof.
  induction 1 as [|i ix Hs IH Hi]; intros Hj.
  - exists [], []. by split_and!.
  - apply not_elem_of_cons in Hj as [Hne Hj]. destruct (decide (i < j)%nat) as [Hlt|Hge].
    + destruct (IH Hj) as (l & r & -> & Hl & Hr). exists (i :: l), r. split_and!; [done| |done].
      by constructor.
    + exists [], (i :: ix). split_and!; [done|constructor|]. constructor; [lia|].
      eapply Forall_impl; [done|]. simpl. lia.
Qed.

Lemma sorted_insert (l r : list nat) j :
  StronglySorted lt (l ++ r) -> Forall (fun i => i < j)%nat l -> Forall (fun i => j < i)%nat r ->
  StronglySorted lt (l ++ j :: r).
Proof.
  intros Hs Hl Hr. induction l as [|i l IH]; simpl in *.
  - by constructor.
  - apply StronglySorted_inv in Hs as [Hs Hi]. apply Forall_cons in Hl as [Hij Hl].
    constructor; [by apply IH|]. apply Forall_app in Hi as [Hi1 Hi2].
    apply Forall_app. split; [done|]. by constructor.
Qed.

Lemma sorted_seq i k : StronglySorted lt (seq i k).
Proof.
  revert i. induction k as [|k IH]; intros i; simpl; constructor; [done|].
  apply Forall_forall. intros x Hx%elem_of_seq. lia.
Qed.

Lemma sorted_perm_seq ix k : StronglySorted lt ix -> ix ≡ₚ seq 0 k -> ix = seq 0 k.
Proof.
  intros Hs Hp. assert (AntiSymm (=) lt) as Ha by (intros x y; lia).
  apply (StronglySorted_unique lt); [done|apply sorted_seq|done].
Qed.

(** * Reordering *)

Section Reorder.
Context (IsPartitionHead : bytes -> bool) (IsPartitionTail : bool -> bytes -> bool).
(** The packets of a stretch of the stream: [n] consecutive sequence numbers
    from [base] on, with a payload each. *)
Context (pk : nat -> rtp_Packet) (base : Z) (n : nat).
Context (Hn : (n <= 3000)%nat).
Context (Hseq : forall i, (i < n)%nat -> SequenceNumber (pk i) = u16 (base + Z.of_nat i)).
Context (Hpay : forall i, (i < n)%nat -> Payload (pk i) <> []).

Definition entry (i : nat) (c : packet) : Prop :=
  pkt c = pk i /\ start c = IsPartitionHead (Payload (pk i)) /\
  end_ c = IsPartitionTail (Marker (pk i)) (Payload (pk i)) /\ padding c = false.

(** The queue holds the packets numbered [ix], in increasing order. *)
Record window (dropped late : Z) (ix : list nat) (b : Buffer) : Prop := {
  w_init : initialized b = true;
  w_prev : prevSN b = u16 (base - 1);
  w_queue : Forall2 entry ix (queue b);
  w_sorted : StronglySorted lt ix;
  w_range : Forall (fun i => i < n)%nat ix;
  w_minTS : forall j, last ix = Some j -> minTS b = u32 (Timestamp (pk j) - late);
  w_late : maxLate b = late;
  w_dropped : packetsDropped b = dropped;
}.

Lemma entry_sn i c : (i < n)%nat -> entry i c -> sn c = u16 (base + Z.of_nat i).
Proof using Hseq. intros Hi (H & _). unfold sn. rewrite H. auto. Qed.

Lemma before_entry i c j c' :
  (i < n)%nat -> (j < n)%nat -> entry i c -> entry j c' ->
  before16 (sn c) (sn c') = (Z.of_nat i <=? Z.of_nat j) /\ outsideRange (sn c) (sn c') = false.
Proof using Hseq Hn.
  intros Hi Hj Hc Hc'. rewrite (entry_sn i c), (entry_sn j c') by done.
  split; [apply before16_near|apply outsideRange_near]; lia.
Qed.

Lemma observe_fields p c b :
  queue (observe p c b) = queue b /\ initialized (observe p c b) = initialized b /\
  prevSN (observe p c b) = prevSN b /\ minTS (observe p c b) = minTS b /\
  maxLate (observe p c b) = maxLate b /\ packetsDropped (observe p c b) = packetsDropped b.
Proof. unfold observe. by destruct (_ =? _); [destruct (_ <? _)|]. Qed.

Lemma entry_reset i c r : entry i c -> entry i (set_reset r c).
Proof. done. Qed.

(** Where a packet between two others goes. *)
Lemma insert_tail_range_between l i ql ci j p r qr b :
  queue b = ql ++ ci :: qr -> Forall2 entry l ql -> entry i ci -> Forall2 entry r qr ->
  Forall (fun x => x < n)%nat (l ++ i :: r) -> (j < n)%nat -> entry j p ->
  (i < j)%nat -> Forall (fun x => j < x)%nat r -> r <> [] ->
  exists p', entry j p' /\ queue (insert_tail_range p b) = ql ++ ci :: p' :: qr /\
    initialized (insert_tail_range p b) = initialized b /\
    prevSN (insert_tail_range p b) = prevSN b /\ minTS (insert_tail_range p b) = minTS b /\
    maxLate (insert_tail_range p b) = maxLate b /\
    packetsDropped (insert_tail_range p b) = packetsDropped b.
Proof using Hseq Hn.
  intros Hq Hl Hci Hr Hall Hj Hp Hij Hjr Hne.
  apply Forall_app in Hall as [_ Hall]. apply Forall_cons in Hall as [Hi Hrn].
  assert (qr <> []) as Hqr by (intros ->; by inversion Hr; subst).
  assert (0 < length qr)%nat by (destruct qr; simpl; [done|lia]).
  unfold insert_tail_range.
  assert (find_last (fun c => negb (before16 (sn p) (sn c) && negb (outsideRange (sn p) (sn c))))
    (take (length (queue b) - 1) (queue b)) = Some (length ql)) as ->.
  { rewrite Hq, length_app. simpl.
    replace (length ql + S (length qr) - 1)%nat with (length ql + S (length qr - 1))%nat by lia.
    rewrite take_app_add. simpl. apply find_last_app.
    - destruct (before_entry j p i ci) as [-> ->]; [done..|]. simpl.
      destruct (_ <=? _) eqn:E; boolp; [lia|done].
    - apply Forall_take. rewrite Forall_forall. intros c Hc.
      apply list_elem_of_lookup in Hc as [k Hk].
      destruct (Forall2_lookup_r _ _ _ _ _ Hr Hk) as (x & Hx & Hxc).
      rewrite Forall_lookup in Hjr, Hrn. specialize (Hjr k x Hx). specialize (Hrn k x Hx).
      destruct (before_entry j p x c) as [-> ->]; [done..|]. simpl.
      destruct (_ <=? _) eqn:E; boolp; [done|lia]. }
  rewrite Hq, lookup_app_r, Nat.sub_diag by lia. simpl.
  destruct (before_entry j p i ci) as [_ ->]; [done..|]. rewrite andb_false_r.
  destruct (observe_fields (pkt p) ci b) as (_ & E2 & E3 & E4 & E5 & E6).
  exists p. simpl. split_and!; try done. unfold insert_after.
  replace (S (length ql)) with (length ql + 1)%nat by lia.
  rewrite take_app_add, drop_app_ge by lia. simpl.
  replace (length ql + 1 - length ql)%nat with 1%nat by lia. simpl. by rewrite <- app_assoc.
Qed.

Lemma window_frame D L ix b b' :
  queue b' = queue b -> initialized b' = initialized b -> prevSN b' = prevSN b ->
  minTS b' = minTS b -> maxLate b' = maxLate b -> packetsDropped b' = packetsDropped b ->
  window D L ix b -> window D L ix b'.
Proof.
  intros E1 E2 E3 E4 E5 E6 []. split; rewrite ?E1, ?E2, ?E3, ?E4, ?E5, ?E6; done.
Qed.

Lemma u32_add a b : u32 (u32 a + u32 b) = u32 (a + b).
Proof. unfold u32. by rewrite <- Zplus_mod. Qed.

Lemma u32_sub_r a b : u32 (a - u32 b) = u32 (a - b).
Proof. unfold u32. by rewrite Zminus_mod_idemp_r. Qed.

(** A list of entries that is not empty has a head and a tail. *)
Lemma entries_ends ix q :
  Forall2 entry ix q -> ix <> [] ->
  exists h t hd tl rest, head ix = Some h /\ last ix = Some t /\ q = hd :: rest /\
    last q = Some tl /\ entry h hd /\ entry t tl.
Proof.
  intros H Hne. inversion H as [|h hd ix' q' Hh Hq]; subst; [done|].
  destruct (exists_last (l := h :: ix') ltac:(done)) as (l & t & E).
  rewrite E in H. apply Forall2_app_inv_l in H as (ql & qt & Hl & Ht & Eq).
  inversion Ht as [|? tl ? ? Htl Hnil]; subst. inversion Hnil; subst.
  exists h, t, hd, tl, q'.
  split_and!; [done|by rewrite E, last_snoc|done|by rewrite Eq, last_snoc|done|done].
Qed.

Lemma last_in {A} (l : list A) x : last l = Some x -> x ∈ l.
Proof.
  intros H. apply last_Some in H as [l' ->]. apply elem_of_app. right. by left.
Qed.

Lemma window_append D L l b j p i c :
  window D L l b -> (j < n)%nat -> entry j p -> entry i c -> last l = Some i ->
  Forall (fun x => x < j)%nat l ->
  window D L (l ++ [j])
    (with_queue (queue b ++ [p])
       (observe (pkt p) c (with_minTS (u32 (minTS b + u32 (ts p - ts c))) b))).
Proof using Hn.
  intros [W1 W2 W3 W4 W5 W6 W7 W8] Hj Hp Hc Hi Hl.
  destruct (observe_fields (pkt p) c (with_minTS (u32 (minTS b + u32 (ts p - ts c))) b))
    as (_ & E2 & E3 & E4 & E5 & E6).
  split; simpl; rewrite ?E2, ?E3, ?E4, ?E5, ?E6; try done.
  - apply Forall2_app; [done|]. by constructor.
  - rewrite <- (app_nil_r l) in W4. by apply sorted_insert.
  - apply Forall_app. split; [done|]. by constructor.
  - intros x. rewrite last_snoc. intros [= <-]. simpl. rewrite (W6 i Hi), u32_add.
    destruct Hp as (Ep & _), Hc as (Ec & _). unfold ts. rewrite Ep, Ec. f_equal. lia.
Qed.

Lemma window_prepend D L r b j p rs :
  window D L r b -> (j < n)%nat -> entry j p -> r <> [] -> Forall (fun x => j < x)%nat r ->
  window D L (j :: r) (with_queue (set_reset rs p :: queue b) b).
Proof using Hn.
  intros [W1 W2 W3 W4 W5 W6 W7 W8] Hj Hp Hne Hr. split; simpl; try done.
  - by constructor.
  - by constructor.
  - by constructor.
  - intros i Hi. apply W6. by destruct r.
Qed.

Lemma window_insert D L l i r b j p :
  window D L (l ++ i :: r) b -> (j < n)%nat -> entry j p -> (i < j)%nat ->
  Forall (fun x => x < j)%nat (l ++ [i]) -> Forall (fun x => j < x)%nat r -> r <> [] ->
  window D L ((l ++ [i]) ++ j :: r) (insert_tail_range p b).
Proof using Hseq Hn.
  intros [W1 W2 W3 W4 W5 W6 W7 W8] Hj Hp Hij Hl Hr Hne.
  apply Forall2_app_inv_l in W3 as (ql & qx & Hql & Hqx & Eqq).
  inversion Hqx as [|? ci ? qr Hci Hqr]; subst.
  destruct (insert_tail_range_between l i ql ci j p r qr b)
    as (p' & Hp' & Q & E3 & E4 & E5 & E6 & E7); try done.
  split; rewrite ?Q, ?E3, ?E4, ?E5, ?E6, ?E7; try done.
  - rewrite <- app_assoc. simpl. apply Forall2_app; [done|].
    constructor; [done|]. by constructor.
  - apply sorted_insert; [|done..]. by rewrite <- app_assoc.
  - rewrite <- app_assoc. simpl. apply Forall_app in W5 as [? W5]. apply Forall_cons in W5 as [? ?].
    apply Forall_app. split; [done|]. constructor; [done|]. by constructor.
  - intros x Hx. apply W6. rewrite last_app in Hx |- *. rewrite last_cons in Hx |- *.
    destruct (last r) eqn:Er; [done|]. by apply last_None in Er.
Qed.

Lemma place_window D L ix b j p o :
  window D L ix b -> (j < n)%nat -> j ∉ ix -> entry j p ->
  exists ix', window D L ix' (place p o b) /\ ix' ≡ₚ j :: ix.
Proof using Hseq Hn.
  intros Hw Hj Hnot Hp. pose proof Hw as [W1 W2 W3 W4 W5 W6 W7 W8].
  destruct (decide (ix = [])) as [->|Hne].
  { exists [j]. split; [|done]. apply Forall2_nil_inv_l in W3 as Eq. unfold place. rewrite Eq.
    split; simpl; try done.
    - constructor; [|constructor]. by destruct (negb (reset p)).
    - repeat constructor.
    - by constructor.
    - intros ? [= <-]. destruct Hp as (-> & _). by rewrite W7. }
  destruct (entries_ends ix (queue b) W3 Hne) as (h & t & hd & tl & rest & Eh & Et & Eq & El & Hhd & Htl).
  assert (h ∈ ix /\ t ∈ ix) as [Hh Ht].
  { split; [|by apply last_in]. destruct ix; [done|]. simplify_eq/=. by left. }
  rewrite Forall_forall in W5. pose proof (W5 h Hh) as Hhn. pose proof (W5 t Ht) as Htn.
  destruct (before_entry j p h hd) as [Bh Oh]; [done..|].
  destruct (before_entry j p t tl) as [Bt Ot]; [done..|].
  unfold place. rewrite El, Eq. cbv zeta. rewrite Bh, Oh, Bt, Ot. rewrite <- Eq.
  destruct (sorted_split ix j W4 Hnot) as (l & r & -> & Hl & Hr).
  destruct (decide (r = [])) as [->|Hrne].
  - rewrite app_nil_r in *. assert (t < j)%nat by (rewrite Forall_forall in Hl; auto).
    destruct (Z.of_nat j <=? Z.of_nat t) eqn:E; boolp; [lia|]. simpl.
    exists (l ++ [j]). split; [by apply (window_append _ _ _ _ _ _ t)|by rewrite Permutation_app_comm].
  - assert (j < t)%nat as Hjt.
    { rewrite last_app in Et. destruct (last r) as [t'|] eqn:Elr; [|by apply last_None in Elr].
      simplify_eq. rewrite Forall_forall in Hr. by apply Hr, last_in. }
    destruct (Z.of_nat j <=? Z.of_nat t) eqn:E; boolp; [|lia]. simpl. rewrite andb_true_r.
    destruct (decide (l = [])) as [->|Hlne]; destruct (Z.of_nat j <=? Z.of_nat h) eqn:E2; boolp.
    + exists (j :: r). split; [by apply window_prepend|done].
    + simpl in Hh. rewrite Forall_forall in Hr. specialize (Hr h Hh). simpl in Hr. lia.
    + destruct l as [|h' l']; [done|]. simplify_eq/=. apply Forall_cons in Hl as [? _]. lia.
    + destruct (exists_last Hlne) as (l' & i & ->). exists ((l' ++ [i]) ++ j :: r).
      split; [|by rewrite Permutation_middle]. apply window_insert; try done.
      * by rewrite <- app_assoc in Hw.
      * apply Forall_app in Hl as [_ Hli]. by apply Forall_cons in Hli as [? _].
Qed.

Lemma Push_window D L ix b j :
  window D L ix b -> (j < n)%nat -> j ∉ ix ->
  exists ix', window D L ix' (Push IsPartitionHead IsPartitionTail (pk j) b) /\ ix' ≡ₚ j :: ix.
Proof using Hseq Hn Hpay.
  intros Hw Hj Hnot. unfold Push, flags. destruct (Payload (pk j)) as [|x y] eqn:Epay.
  { by destruct (Hpay j Hj). }
  simpl andb. cbv iota. rewrite <- Epay. unfold newPacket.
  pose proof (w_init _ _ _ _ Hw) as Hi. pose proof (w_prev _ _ _ _ Hw) as Hpr.
  assert (before16 (SequenceNumber (pk j)) (u16 (base - 1)) = false) as Hb.
  { rewrite Hseq by done. replace (base - 1) with (base + -1) by lia.
    rewrite before16_near by lia. apply Z.leb_gt. lia. }
  destruct (pool (with_counts 0 1 0 b)) as [|r rest]; simpl; rewrite Hi, Hpr, Hb; simpl;
    (eapply place_window; [|done..|done]); (eapply window_frame; [..|exact Hw]); simpl; try done; lia.
Qed.

Lemma Push_all_window D L order ix b :
  window D L ix b -> NoDup (order ++ ix) -> Forall (fun i => i < n)%nat order ->
  exists ix', window D L ix' (foldl (fun b i => Push IsPartitionHead IsPartitionTail (pk i) b) b order) /\
    ix' ≡ₚ order ++ ix.
Proof using Hseq Hn Hpay.
  revert ix b. induction order as [|j order IH]; intros ix b Hw Hd Ho; simpl in *.
  - by exists ix.
  - apply NoDup_cons in Hd as [Hj Hd]. apply Forall_cons in Ho as [Hjn Ho].
    apply not_elem_of_app in Hj as [Hj1 Hj2].
    destruct (Push_window D L ix b j Hw Hjn Hj2) as (ix1 & Hw1 & Hp1).
    destruct (IH ix1 _ Hw1) as (ix' & Hw' & Hp'); [|done|].
    + rewrite Hp1, <- Permutation_middle. constructor; [|done]. set_solver.
    + exists ix'. split; [done|]. rewrite Hp', Hp1. by rewrite <- Permutation_middle.
Qed.

Lemma getEnd_complete ms mt q : forall idx i0 prev pc e,
  Forall2 entry (seq idx (length q)) q -> (idx + length q <= n)%nat ->
  prev = u16 (base + Z.of_nat idx - 1) ->
  (forall c, last q = Some c -> end_ c = true) -> q <> [] ->
  getEnd_loop ms mt q i0 prev pc e = Some (i0 + length q - 1)%nat.
Proof using Hseq Hn.
  induction q as [|c q IH]; intros idx i0 prev pc e Hq Hlen Hprev Hlast Hne; [done|].
  simpl in *. inversion Hq as [|? ? ? ? Hc Hq']; subst.
  assert (sn c = u16 (base + Z.of_nat idx)) as Hsn by (apply entry_sn; [lia|done]).
  assert (u16 (u16 (base + Z.of_nat idx - 1) + 1) = u16 (base + Z.of_nat idx)) as Hnext.
  { unfold u16. rewrite Zplus_mod_idemp_l. f_equal. lia. }
  rewrite Hnext, Hsn, Z.eqb_refl. simpl. destruct q as [|c' q].
  - simpl. rewrite (Hlast c eq_refl). f_equal. lia.
  - rewrite (IH (S idx)); [f_equal; simpl; lia|done|simpl in *; lia| |done|done].
    f_equal. lia.
Qed.

Lemma remove_upto_fields e q b :
  packetsDropped (remove_upto e q b) = packetsDropped b.
Proof.
  revert e b. induction q as [|c q IH]; intros e b; cbn [remove_upto]; [done|].
  destruct q as [|c' q]; [by destruct e|].
  destruct (outsideRange (sn c') (sn c)), e as [|e]; try done; by rewrite IH.
Qed.

Lemma remove_upto_all q b :
  q <> [] -> exists c, last q = Some c /\
    queue (remove_upto (length q - 1) q b) = [] /\
    prevSN (remove_upto (length q - 1) q b) = sn c.
Proof.
  revert b. induction q as [|c q IH]; intros b Hne; [done|].
  destruct q as [|c' q]; [by exists c|].
  set (b1 := if outsideRange (sn c') (sn c)
    then with_minTS (u32 (minTS b + u32 (u32 (ts c' - ts c) - maxSampleSize b))) b else b).
  destruct (IH (free c b1) ltac:(done)) as (x & Hx & Hq & Hp).
  exists x. replace (length (c :: c' :: q) - 1)%nat with (S (length (c' :: q) - 1)) by (simpl; lia).
  split; [done|]. by split.
Qed.

Lemma entries_visible ix q : Forall2 entry ix q -> visible q = pk <$> ix.
Proof.
  unfold visible. induction 1 as [|i c ix q (Ep & _ & _ & Epad) Hq IH]; [done|].
  rewrite filter_cons, decide_True by done. csimpl. by rewrite Ep, IH.
Qed.

(** A complete window pops whole. *)
Lemma pop_window D L b :
  window D L (seq 0 n) b -> (0 < n)%nat ->
  IsPartitionHead (Payload (pk 0)) = true ->
  IsPartitionTail (Marker (pk (n - 1))) (Payload (pk (n - 1))) = true ->
  u32 (Timestamp (pk 0) - Timestamp (pk (n - 1)) + L) < 2147483648 ->
  exists b', pop b = (b', pk <$> seq 0 n) /\ queue b' = [] /\
    prevSN b' = u16 (base + Z.of_nat n - 1) /\ packetsDropped b' = D.
Proof using Hseq Hn Hpay.
  intros Hw Hpos Hst Hen Hts. pose proof Hw as [W1 W2 W3 W4 W5 W6 W7 W8].
  pose proof (Forall2_length _ _ _ W3) as Hlen. rewrite length_seq in Hlen.
  assert (last (seq 0 n) = Some (n - 1)%nat) as Hlast.
  { replace n with (S (n - 1)) at 1 by lia. by rewrite seq_S, last_snoc. }
  destruct (entries_ends _ _ W3) as (h & t & hd & tl & rest & Eh & Et & Eq & El & Hhd & Htl);
    [by destruct n; [lia|]|].
  rewrite Hlast in Et. injection Et as <-.
  assert (h = 0%nat) as -> by (destruct n; [lia|]; simpl in Eh; congruence).
  assert (sn hd = u16 (prevSN b + 1)) as Hsn.
  { rewrite (entry_sn 0 hd), W2 by (done || lia). unfold u16. rewrite Zplus_mod_idemp_l.
    f_equal. lia. }
  assert (start hd = true) as Hstart by (destruct Hhd as (_ & -> & _); done).
  assert (drop_old b = b) as Hdrop.
  { unfold drop_old. rewrite Eq, Hsn, Z.eqb_refl. cbn [negb andb]. rewrite Eq. simpl.
    rewrite Hstart, before32_eq. destruct Hhd as (Ehd & _). unfold ts. rewrite Ehd.
    rewrite (W6 _ Hlast), u32_sub_r.
    replace (Timestamp (pk 0) - (Timestamp (pk (n - 1)) - L))
      with (Timestamp (pk 0) - Timestamp (pk (n - 1)) + L) by lia.
    rewrite (proj2 (Z.ltb_lt _ _)) by done. done. }
  unfold pop. rewrite W1, Hdrop. simpl negb. cbv iota zeta. rewrite Eq, Hstart. simpl negb. cbv iota.
  rewrite <- Eq. unfold getEnd. rewrite (getEnd_complete _ _ _ 0%nat).
  - eexists. split; [f_equal|].
    + rewrite take_ge by lia. by apply entries_visible.
    + rewrite remove_upto_fields.
      destruct (remove_upto_all (queue b) b) as (c & Hc & Hq & Hp); [by rewrite Eq|].
      rewrite El in Hc. injection Hc as <-. rewrite Nat.add_0_l, Hq, Hp.
      rewrite (entry_sn (n - 1) tl) by (done || lia). split_and!; [done| |done].
      f_equal. lia.
  - by rewrite <- Hlen.
  - lia.
  - rewrite W2. f_equal. lia.
  - intros c Hc. rewrite El in Hc. injection Hc as <-. by destruct Htl as (_ & _ & -> & _).
  - by rewrite Eq.
Qed.

End Reorder.

(** * What a pop takes *)

(** Every packet directly follows the one before it, or is marked as a reset
    and begins after a complete sample. *)
Fixpoint linked (prev : Z) (complete : bool) (q : list packet) : Prop :=
  match q with
  | [] => True
  | c :: q' =>
      (sn c = u16 (prev + 1) \/ (complete = true /\ reset c = true)) /\
      linked (sn c) (end_ c) q'
  end.

Lemma getEnd_linked ms mt q : forall i prev pc e k,
  getEnd_loop ms mt q i prev pc e = Some k ->
  e = Some k \/
  exists j c, k = (i + j)%nat /\ q !! j = Some c /\ end_ c = true /\
    linked prev pc (take (S j) q).
Proof.
  induction q as [|c q IH]; intros i prev pc e k; simpl; [by left|].
  destruct (negb (sn c =? _) && _) eqn:Eg; [by left|]. intros E.
  assert (sn c = u16 (prev + 1) \/ (pc = true /\ reset c = true)) as Hc.
  { apply andb_false_iff in Eg as [Eg|Eg]; boolp; [by left|by right]. }
  apply IH in E as [E|(j & c' & -> & Hj & He & Hl)].
  - destruct (end_ c) eqn:Ee; [|by left]. simplify_eq. right. exists 0%nat, c.
    split; [lia|]. split; [done|]. split; [done|]. by split.
  - right. exists (S j), c'. split; [lia|]. split; [done|]. split; [done|]. by split.
Qed.

Lemma remove_upto_queue e q b c :
  q !! e = Some c ->
  queue (remove_upto e q b) = drop (S e) q /\ prevSN (remove_upto e q b) = sn c.
Proof.
  revert e b. induction q as [|x q IH]; intros e b He; [done|]. cbn [remove_upto].
  destruct e as [|e]; simpl in He; [by simplify_eq|].
  destruct (IH e (free x (match q with
    | [] => b
    | next :: _ => if outsideRange (sn next) (sn x)
        then with_minTS (u32 (minTS b + u32 (u32 (ts next - ts x) - maxSampleSize b))) b else b
    end)) He) as [-> ->]. done.
Qed.

(** * Theorems *)

(** C24. The jitter buffer undoes reordering: from an empty, initialised
    buffer, if the [n] packets that follow the last one delivered (at most
    3000, consecutive sequence numbers, wrap-around included, none of them
    padding) are pushed in any order whatsoever, and the first begins a sample,
    the last ends one and the first is not older than the latency allows, then [Pop] returns exactly
    these packets in sequence order, nothing is dropped, and the buffer is
    empty and positioned behind them. *)
Theorem jitter_reorders (H : bytes -> bool) (T : bool -> bytes -> bool)
    (pk : nat -> rtp_Packet) (base : Z) (n : nat) (order : list nat) (b : Buffer) :
  (0 < n <= 3000)%nat -> order ≡ₚ seq 0 n ->
  (forall i, (i < n)%nat -> SequenceNumber (pk i) = u16 (base + Z.of_nat i) /\ Payload (pk i) <> []) ->
  H (Payload (pk 0%nat)) = true -> T (Marker (pk (n - 1)%nat)) (Payload (pk (n - 1)%nat)) = true ->
  u32 (Timestamp (pk 0%nat) - Timestamp (pk (n - 1)%nat) + maxLate b) < 2147483648 ->
  initialized b = true -> prevSN b = u16 (base - 1) -> queue b = [] ->
  exists b', Pop false (foldl (fun b i => Push H T (pk i) b) b order) = (b', pk <$> seq 0 n) /\
    queue b' = [] /\ prevSN b' = u16 (base + Z.of_nat n - 1) /\
    packetsDropped b' = packetsDropped b.
Proof.
  intros Hn Ho Hpk Hst Hen Hts Hi Hp Hq.
  assert (forall i, (i < n)%nat -> SequenceNumber (pk i) = u16 (base + Z.of_nat i)) as Hseq
    by (intros; by apply Hpk).
  assert (forall i, (i < n)%nat -> Payload (pk i) <> []) as Hpay by (intros; by apply Hpk).
  assert (window H T pk base n (packetsDropped b) (maxLate b) [] b) as Hw.
  { split; try done; [rewrite Hq|..]; constructor. }
  destruct (Push_all_window H T pk base n ltac:(lia) Hseq Hpay _ _ order [] b Hw) as (ix & Hwx & Hix).
  - rewrite app_nil_r, Ho. apply NoDup_seq.
  - rewrite Ho. apply Forall_forall. intros x Hx%elem_of_seq. lia.
  - rewrite app_nil_r, Ho in Hix.
    rewrite (sorted_perm_seq ix n (w_sorted _ _ _ _ _ _ _ _ _ Hwx) Hix) in Hwx.
    apply (pop_window H T pk base n ltac:(lia) Hseq Hpay _ (maxLate b)); (done || lia).
Qed.

Definition demo_packet (base t : Z) (i : nat) : rtp_Packet :=
  {| SequenceNumber := u16 (base + Z.of_nat i); Timestamp := t; Marker := true; Payload := [1] |}.

(** A buffer that delivered number 65534 last. *)
Definition demo_buffer : Buffer :=
  with_prevSN 65534 (with_initialized (NewBuffer 1000)).

Lemma jitter_reorders_witness :
  exists b', Pop false (foldl (fun b i => Push (fun _ => true) (fun _ _ => true)
                          (demo_packet 65535 90 i) b) demo_buffer [2;0;1]%nat) =
      (b', demo_packet 65535 90 <$> seq 0 3) /\
    queue b' = [] /\ prevSN b' = u16 (65535 + 3 - 1) /\ packetsDropped b' = 0.
Proof.
  apply (jitter_reorders (fun _ => true) (fun _ _ => true) (demo_packet 65535 90) 65535 3
           [2;0;1]%nat demo_buffer); try reflexivity.
  - lia.
  - change ([2%nat; 0%nat] ++ [1%nat] ≡ₚ [0%nat] ++ [1%nat; 2%nat]).
    rewrite Permutation_app_comm. apply (Permutation_trans (l' := [1;0;2]%nat)).
    + constructor. apply Permutation_swap.
    + apply Permutation_swap.
  - intros i Hi. split; [reflexivity|discriminate].
Defined.

(** A batch never hides a gap: what [Pop] removes is a run at the head of
    the list, as [drop] left it, that begins with the start of a sample and
    finishes with the end of one, in which every packet directly follows its
    predecessor (the first one the last packet delivered) unless it was marked
    as a sequence number reset behind a complete sample; exactly the packets
    of the run that are not padding are returned, the rest stays, and the
    position moves behind the run. *)
Theorem pop_takes_linked_run (b b' : Buffer) (out : list rtp_Packet) :
  Pop false b = (b', out) ->
  (out = [] /\ (b' = b \/ b' = drop_old b)) \/
  exists first run c,
    queue (drop_old b) = (first :: run) ++ queue b' /\
    start first = true /\ last (first :: run) = Some c /\ end_ c = true /\
    linked (prevSN (drop_old b)) true (first :: run) /\
    out = visible (first :: run) /\ prevSN b' = sn c.
Proof.
  simpl. unfold pop. destruct (initialized b); simpl negb; cbv iota; [|intros; simplify_eq; auto].
  cbv zeta. set (b1 := drop_old b). destruct (queue b1) as [|h q] eqn:Eq; [intros; simplify_eq; auto|].
  destruct (start h) eqn:Es; simpl negb; cbv iota; [|intros; simplify_eq; auto].
  unfold getEnd. rewrite Eq. destruct (getEnd_loop _ _ _ _ _ _ _) as [e|] eqn:Ee; [|intros; simplify_eq; auto].
  apply getEnd_linked in Ee as [?|(j & c & -> & Hj & Hc & Hl)]; [done|].
  rewrite Nat.add_0_l. destruct (remove_upto_queue j (h :: q) b1 c Hj) as [Hq Hp].
  intros E. pose proof (f_equal fst E) as E1. pose proof (f_equal snd E) as E2.
  cbn [fst snd] in E1, E2. subst b' out. clear E. right. exists h, (take j q), c.
  split; [by rewrite Hq; simpl; rewrite take_drop|]. split; [done|].
  split; [|split; [done|split; [done|split; done]]].
  change (h :: take j q) with (take (S j) (h :: q)). rewrite last_lookup, length_take.
  pose proof (lookup_lt_Some _ _ _ Hj). rewrite Nat.min_l by lia. simpl pred.
  by rewrite lookup_take_lt by lia.
Qed.

Lemma pop_takes_linked_run_witness :
  let b := foldl (fun b i => Push (fun _ => true) (fun _ _ => true) (demo_packet 65535 90 i) b)
             demo_buffer [1;0;3]%nat in
  let '(b', out) := Pop false b in
  (out = [] /\ (b' = b \/ b' = drop_old b)) \/
  exists first run c,
    queue (drop_old b) = (first :: run) ++ queue b' /\
    start first = true /\ last (first :: run) = Some c /\ end_ c = true /\
    linked (prevSN (drop_old b)) true (first :: run) /\
    out = visible (first :: run) /\ prevSN b' = sn c.
Proof.
  intros b. destruct (Pop false b) as [b' out] eqn:E.
  exact (pop_takes_linked_run b b' out E).
Defined.

(** A reused list node can hide a loss: after the first packet of the
    stream has been popped its node, still marked as a reset, is used for the
    packet numbered 2; packet 1 never arrives, packets 2 and 3 are popped, and
    no packet is counted as lost. *)
Theorem stale_reset_hides_loss :
  let push n t b := Push (fun _ => true) (fun _ _ => true)
    {| SequenceNumber := n; Timestamp := t; Marker := true; Payload := [1] |} b in
  let '(b1, out1) := Pop false (push 0 0 (NewBuffer 1000)) in
  let '(b2, out2) := Pop false (push 3 20000 (push 2 19500 b1)) in
  (SequenceNumber <$> out1) = [0] /\ (SequenceNumber <$> out2) = [2; 3] /\
  PacketLoss b2 = (0, 3) /\ dropCallbacks b2 = 0.
Proof. vm_compute. split_and!; reflexivity. Qed.
