(* ===== verification/SampleBuilder.v ===== *)
(** The sample builder: pkg/samplebuilder/samplebuilder.go of
    lib/livekit-server-sdk, which puts RTP packets in order and cuts them into
    frames.

    The builder keeps packets in a circular array between [tail] and [head],
    whose indices are uint16.  Methods are partial functions: [None] is a
    run-time panic (a nil packet or an index out of range).  The release and
    the drop handler are represented by what they have been called with. *)

From Stdlib Require Import SpecFloat.
From S2P Require Import Prelude.

#[local] Open Scope list_scope.
#[local] Open Scope Z_scope.

(** * What the builder works on *)

(** The fields of rtp.Packet that are used. *)
Record Packet := {
  SequenceNumber : Z;
  Timestamp : Z;
  Marker : bool;
  Payload : bytes;
}.

(** rtp.Depacketizer: checks of a payload, and unmarshalling, which may change
    the depacketizer. *)
Class Depacketizer (D : Type) := {
  IsPartitionHead : bytes -> bool;
  IsPartitionTail : bool -> bytes -> bool;
  Unmarshal : bytes -> D -> option bytes * D;
}.

(** The struct [packet]. *)
Record slot := { start : bool; end_ : bool; packet : option Packet }.

Definition empty_slot : slot := {| start := false; end_ := false; packet := None |}.

Record SampleBuilder {D : Type} := {
  packets : list slot;
  head : Z;
  tail : Z;
  maxLate : Z;
  depacketizer : D;
  sampleRate : Z;
  lastSeqnoValid : bool;
  lastSeqno : Z;
  lastTimestampValid : bool;
  lastTimestamp : Z;
  (** packets given to the release handler, calls of the drop handler *)
  released : list Packet;
  dropped : Z;
}.
Arguments SampleBuilder D : clear implicits.

(** media.Sample, as far as the builder fills it. *)
Record Sample := { Data : bytes; Duration : Z }.

Section Builder.
Context {D : Type} {DP : Depacketizer D}.
Implicit Types s : SampleBuilder D.

(** ** Field updates *)

Definition set_ring (l : list slot) (h t : Z) s : SampleBuilder D :=
  {| packets := l; head := h; tail := t; maxLate := maxLate s; depacketizer := depacketizer s;
     sampleRate := sampleRate s; lastSeqnoValid := lastSeqnoValid s; lastSeqno := lastSeqno s;
     lastTimestampValid := lastTimestampValid s; lastTimestamp := lastTimestamp s;
     released := released s; dropped := dropped s |}.
Definition set_lastSeqno (valid : bool) (n : Z) s : SampleBuilder D :=
  {| packets := packets s; head := head s; tail := tail s; maxLate := maxLate s;
     depacketizer := depacketizer s; sampleRate := sampleRate s; lastSeqnoValid := valid;
     lastSeqno := n; lastTimestampValid := lastTimestampValid s; lastTimestamp := lastTimestamp s;
     released := released s; dropped := dropped s |}.
Definition set_lastTimestamp (n : Z) s : SampleBuilder D :=
  {| packets := packets s; head := head s; tail := tail s; maxLate := maxLate s;
     depacketizer := depacketizer s; sampleRate := sampleRate s; lastSeqnoValid := lastSeqnoValid s;
     lastSeqno := lastSeqno s; lastTimestampValid := true; lastTimestamp := n;
     released := released s; dropped := dropped s |}.
Definition set_log (r : list Packet) (n : Z) s : SampleBuilder D :=
  {| packets := packets s; head := head s; tail := tail s; maxLate := maxLate s;
     depacketizer := depacketizer s; sampleRate := sampleRate s; lastSeqnoValid := lastSeqnoValid s;
     lastSeqno := lastSeqno s; lastTimestampValid := lastTimestampValid s;
     lastTimestamp := lastTimestamp s; released := r; dropped := n |}.
Definition set_depacketizer (d : D) s : SampleBuilder D :=
  {| packets := packets s; head := head s; tail := tail s; maxLate := maxLate s; depacketizer := d;
     sampleRate := sampleRate s; lastSeqnoValid := lastSeqnoValid s; lastSeqno := lastSeqno s;
     lastTimestampValid := lastTimestampValid s; lastTimestamp := lastTimestamp s;
     released := released s; dropped := dropped s |}.

(** ** The circular array *)

(** [New]; 2*maxLate+1 is computed in uint16. *)
Definition New (late : Z) (d : D) (rate : Z) : SampleBuilder D :=
  let late := if late <? 2 then 2 else late in
  let late := if 32767 <? late then 32767 else late in
  {| packets := replicate (Z.to_nat (u16 (u16 (2 * late) + 1))) empty_slot; head := 0; tail := 0;
     maxLate := late; depacketizer := d; sampleRate := rate; lastSeqnoValid := false; lastSeqno := 0;
     lastTimestampValid := false; lastTimestamp := 0; released := []; dropped := 0 |}.

(** [uint16(len(s.packets))]. *)
Definition len s : Z := u16 (Z.of_nat (length (packets s))).

Definition length_ s : Z :=
  if tail s <=? head s then u16 (head s - tail s) else u16 (u16 (head s + len s) - tail s).

Definition cap_ s : Z := u16 (len s - 1).

Definition inc s (n : Z) : Z := if n <? u16 (len s - 1) then u16 (n + 1) else 0.

Definition dec s (n : Z) : Z := if 0 <? n then u16 (n - 1) else u16 (len s - 1).

(** [s.packets[i]], [s.packets[i].packet] where its fields are used, and the
    assignments to them. *)
Definition slot_at s (i : Z) : option slot := packets s !! Z.to_nat i.
Definition pkt_at s (i : Z) : option Packet := slot_at s i ≫= packet.
Definition present s (i : Z) : option bool := (fun x => bool_decide (is_Some (packet x))) <$> slot_at s i.
Definition put s (i : Z) (x : slot) : SampleBuilder D :=
  set_ring (<[Z.to_nat i := x]> (packets s)) (head s) (tail s) s.
Definition upd s (i : Z) (f : slot -> slot) : SampleBuilder D :=
  set_ring (alter f (Z.to_nat i) (packets s)) (head s) (tail s) s.
Definition set_head (h : Z) s : SampleBuilder D := set_ring (packets s) h (tail s) s.
Definition set_tail (t : Z) s : SampleBuilder D := set_ring (packets s) (head s) t s.
Definition set_start (x : slot) : slot := {| start := true; end_ := end_ x; packet := packet x |}.
Definition set_end (x : slot) : slot := {| start := start x; end_ := true; packet := packet x |}.

(** ** The invariants *)

(** Whether the neighbour at [j], where it is looked at and present, has
    another time stamp. *)
Definition other_frame (look : bool) (ts j : Z) s : option bool :=
  if look then
    y ← slot_at s j;
    Some (match packet y with Some q => negb (Timestamp q =? ts) | None => false end)
  else Some false.

(** The loop over the window. *)
Fixpoint check_window (fuel : nat) (tailSeqno i : Z) s : option (option string) :=
  if i <? length_ s then
    match fuel with
    | O => None
    | S fuel =>
        let index := u16 (tail s + i) mod len s in
        x ← slot_at s index;
        match packet x with
        | None => check_window fuel tailSeqno (u16 (i + 1)) s
        | Some p =>
            if negb (SequenceNumber p =? u16 (tailSeqno + i)) then Some (Some "wrong seqno"%string)
            else
              b ← other_frame (negb (index =? tail s) && negb (start x)) (Timestamp p) (dec s index) s;
              if (b : bool) then Some (Some "start is not set"%string)
              else
                b ← other_frame (negb (index =? dec s (head s)) && negb (end_ x)) (Timestamp p) (inc s index) s;
                if (b : bool) then Some (Some "end is not set"%string)
                else check_window fuel tailSeqno (u16 (i + 1)) s
        end
    end
  else Some None.

(** The loop over the free slots. *)
Fixpoint check_free (fuel : nat) (i : Z) s : option (option string) :=
  if i =? tail s then Some None
  else
    b ← present s i;
    if (b : bool) then Some (Some "packet is set"%string)
    else match fuel with O => None | S fuel => check_free fuel (inc s i) s end.

(** [check]: the error, if any. *)
Definition check s : option (option string) :=
  if head s =? tail s then Some None
  else
    b ← present s (tail s);
    if negb b then Some (Some "tail is missing"%string)
    else
      b ← present s (dec s (head s));
      if negb b then Some (Some "head is missing"%string)
      else
        p ← pkt_at s (tail s);
        let diff := u16 (SequenceNumber p - lastSeqno s) in
        if lastSeqnoValid s && ((diff =? 0) || negb (Z.land diff 0x8000 =? 0))
        then Some (Some "lastSeqno is after tail"%string)
        else
          e ← check_window (length (packets s)) (SequenceNumber p) 0 s;
          match e with
          | Some _ => Some e
          | None => check_free (length (packets s)) (head s) s
          end.

Definition isStart (p : Packet) : bool :=
  match Payload p with [] => true | _ => IsPartitionHead (Payload p) end.

Definition isEnd (p : Packet) : bool :=
  match Payload p with [] => true | _ => IsPartitionTail (Marker p) (Payload p) end.

(** ** Releasing and dropping *)

(** The loop of [release] over missing packets. *)
Fixpoint skip (fuel : nat) s : option (SampleBuilder D) :=
  if tail s =? head s then Some s
  else
    b ← present s (tail s);
    if (b : bool) then Some s
    else match fuel with O => None | S fuel => skip fuel (set_tail (inc s (tail s)) s) end.

Definition release (releasePacket : bool) s : option (bool * SampleBuilder D) :=
  if head s =? tail s then Some (false, s)
  else
    p ← pkt_at s (tail s);
    let s := set_lastSeqno true (SequenceNumber p) s in
    let s := if releasePacket then set_log (released s ++ [p]) (dropped s) s else s in
    let s := put s (tail s) empty_slot in
    let s := set_tail (inc s (tail s)) s in
    s ← skip (length (packets s)) s;
    let s := if tail s =? head s then set_ring (packets s) 0 0 s else s in
    Some (true, s).

Fixpoint releaseAll_loop (fuel : nat) s : option (SampleBuilder D) :=
  if tail s =? head s then Some s
  else
    r ← release true s;
    match fuel with O => None | S fuel => releaseAll_loop fuel (snd r) end.
Definition releaseAll s : option (SampleBuilder D) := releaseAll_loop (length (packets s)) s.

(** The loop of [drop_]: the rest of the frame. *)
Fixpoint drop_rest (fuel : nat) (ts : Z) s : option (SampleBuilder D) :=
  if tail s =? head s then Some s
  else
    x ← slot_at s (tail s);
    if start x then Some s
    else
      p ← packet x;
      if negb (Timestamp p =? ts) then Some s
      else
        r ← release true s;
        match fuel with O => None | S fuel => drop_rest fuel ts (snd r) end.

Definition drop_ s : option (bool * Z * SampleBuilder D) :=
  if tail s =? head s then Some (false, 0, s)
  else
    let s := set_log (released s) (dropped s + 1) s in
    p ← pkt_at s (tail s);
    let ts := Timestamp p in
    r ← release true s;
    s ← drop_rest (length (packets s)) ts (snd r);
    let s := if lastTimestampValid s then s else set_lastTimestamp ts s in
    Some (true, ts, s).

(** ** Push *)

(** The bit that tells forward from backward differences. *)
Definition forward (d : Z) : bool := Z.land d 0x8000 =? 0.

(** The first part of [Push]: [false] when the packet is too late. *)
Definition accept_seqno (p : Packet) s : option (bool * SampleBuilder D) :=
  if lastSeqnoValid s then
    let late := u16 (lastSeqno s - SequenceNumber p) in
    if forward late then
      if maxLate s <? late then Some (true, set_lastSeqno false (lastSeqno s) s) else Some (false, s)
    else
      let last := u16 (SequenceNumber p - maxLate s) in
      if forward (u16 (last - lastSeqno s)) then
        if negb (head s =? tail s) then
          q ← pkt_at s (tail s);
          let seqno := u16 (SequenceNumber q - 1) in
          Some (true, set_lastSeqno true (if forward (u16 (last - seqno)) then seqno else last) s)
        else Some (true, set_lastSeqno true last s)
      else Some (true, s)
  else Some (true, s).

Definition mk_slot (st en : bool) (p : Packet) : slot := {| start := st; end_ := en; packet := Some p |}.

(** Whether the packet starts a frame, and the flag of the newest one; a
    drop may have removed the whole buffer. *)
Definition link_last (p : Packet) (last : Z) s : option (bool * SampleBuilder D) :=
  if negb (tail s =? head s) then
    y ← slot_at s last;
    q ← packet y;
    let st := end_ y || negb (Timestamp q =? Timestamp p) || isStart p in
    Some (st, if st then upd s last set_end else s)
  else Some (isStart p, s).

(** The packet after the newest one; [last] is the place of that one. *)
Definition push_sequential (p : Packet) (last : Z) s : option (SampleBuilder D) :=
  s ← (if tail s =? inc s (head s) then r ← drop_ s; Some (snd r) else Some s);
  x ← link_last p last s;
  let '(st, s) := x in
  let s := put s (head s) (mk_slot st (isEnd p) p) in
  Some (set_head (inc s (head s)) s).

(** The loop that makes free space; [false] when there was nothing left to
    drop. *)
Fixpoint make_room (fuel : nat) (count : Z) s : option (bool * SampleBuilder D) :=
  if cap_ s <=? u16 (u16 (length_ s + count) + 1) then
    r ← drop_ s;
    let '(d, _, s) := r in
    if negb d then Some (false, s)
    else match fuel with O => None | S fuel => make_room fuel count s end
  else Some (true, s).

(** A packet that leaves a gap behind the newest one. *)
Definition push_future (again : SampleBuilder D -> option (SampleBuilder D)) (p : Packet) (count : Z) s
  : option (SampleBuilder D) :=
  if cap_ s <=? count then s ← releaseAll s; again s
  else
    r ← make_room (length (packets s)) count s;
    let '(room, s) := r in
    if negb room then Some s
    else
      let index := u16 (head s + count) mod len s in
      let s := put s index (mk_slot (isStart p) (isEnd p) p) in
      Some (set_head (inc s index) s).

(** The flags of an inserted packet and of its neighbours. *)
Definition link_prev (p : Packet) (index : Z) s : option (bool * SampleBuilder D) :=
  let st := isStart p in
  if negb (index =? tail s) then
    let prev := dec s index in
    y ← slot_at s prev;
    match packet y with
    | None => Some (st, s)
    | Some q =>
        let st := st || negb (Timestamp q =? Timestamp p) in
        if st then Some (true, upd s prev set_end) else Some (end_ y, s)
    end
  else Some (st, s).

Definition link_next (p : Packet) (index : Z) s : option (bool * SampleBuilder D) :=
  let en := isEnd p in
  let next := inc s index in
  y ← slot_at s next;
  match packet y with
  | None => Some (en, s)
  | Some q =>
      let en := en || negb (Timestamp q =? Timestamp p) in
      if en then Some (true, upd s next set_start) else Some (start y, s)
  end.

(** A packet before the newest one. *)
Definition push_past (p : Packet) (count : Z) s : option (SampleBuilder D) :=
  if cap_ s <=? count then Some s
  else
    let index := if count <=? head s then u16 (head s - count) else u16 (u16 (head s + len s) - count) in
    let s :=
      if tail s <? head s then
        if (index <? tail s) || (head s <? index) then set_tail index s else s
      else
        if (index <? tail s) && (head s <? index) then set_tail index s else s in
    b ← present s index;
    if (b : bool) then Some (set_log (released s ++ [p]) (dropped s) s)
    else
      x ← link_prev p index s;
      y ← link_next p index (snd x);
      Some (put (snd y) index (mk_slot (fst x) (fst y) p)).

Definition Push_with (again : SampleBuilder D -> option (SampleBuilder D)) (p : Packet) s
  : option (SampleBuilder D) :=
  r ← accept_seqno p s;
  let '(go, s) := r in
  if negb go then Some s
  else if head s =? tail s then
    Some (set_ring (<[0%nat := mk_slot (isStart p) (isEnd p) p]> (packets s)) 1 0 s)
  else
    let seqno := SequenceNumber p in
    let last := dec s (head s) in
    q ← pkt_at s last;
    let lastSeqno := SequenceNumber q in
    if seqno =? u16 (lastSeqno + 1) then push_sequential p last s
    else if forward (u16 (seqno - lastSeqno)) then
      push_future again p (u16 (u16 (seqno - lastSeqno) - 1)) s
    else push_past p (u16 (u16 (lastSeqno - seqno) + 1)) s.

(** [Push] calls itself with an empty builder only. *)
Definition Push (p : Packet) s : option (SampleBuilder D) :=
  Push_with (Push_with (fun _ => None) p) p s.

(** ** Pop *)

Inductive scan_result := ScanEnd (last : Z) | ScanMissing | ScanHead.

(** The search for the end of the frame. *)
Fixpoint scan (fuel : nat) (last : Z) s : option scan_result :=
  if last =? head s then Some ScanHead
  else
    x ← slot_at s last;
    if end_ x then Some (ScanEnd last)
    else match packet x with
         | None => Some ScanMissing
         | Some _ => match fuel with O => None | S fuel => scan fuel (inc s last) s end
         end.

Fixpoint take_frame (count : nat) (acc : list Packet) s : option (list Packet * SampleBuilder D) :=
  match count with
  | O => Some (acc, s)
  | S count =>
      p ← pkt_at s (tail s);
      r ← release false s;
      take_frame count (acc ++ [p]) (snd r)
  end.

(** [popRtpPackets]; the fuel counts the jumps back to [again]. *)
Fixpoint popRtpPackets_loop (fuel : nat) (force : bool) s
  : option (option (list Packet) * Z * SampleBuilder D) :=
  let again s := match fuel with O => None | S fuel => popRtpPackets_loop fuel force s end in
  if tail s =? head s then Some (None, 0, s)
  else
    x ← slot_at s (tail s);
    if negb (start x) then
      newest ← pkt_at s (dec s (head s));
      oldest ← packet x;
      let diff := u16 (SequenceNumber newest - SequenceNumber oldest) in
      if force || (maxLate s <? diff) then r ← drop_ s; again (snd r) else Some (None, 0, s)
    else
      p ← packet x;
      if negb force && lastSeqnoValid s && negb (u16 (lastSeqno s + 1) =? SequenceNumber p)
      then Some (None, 0, s)
      else
        let ts := Timestamp p in
        r ← scan (length (packets s)) (tail s) s;
        match r with
        | ScanMissing => if force then r ← drop_ s; again (snd r) else Some (None, 0, s)
        | ScanHead => Some (None, 0, s)
        | ScanEnd last =>
            let count := if last <? tail s then u16 (u16 (u16 (len s + last) - tail s) + 1)
                         else u16 (u16 (last - tail s) + 1) in
            r ← take_frame (Z.to_nat count) [] s;
            Some (Some (fst r), ts, snd r)
        end.

Definition popRtpPackets (force : bool) s := popRtpPackets_loop (length (packets s)) force s.

(** The loop of [popSample] over the packets of a frame. *)
Fixpoint unmarshal_all (ps : list Packet) (data : bytes) (ok : bool) s : bytes * bool * SampleBuilder D :=
  match ps with
  | [] => (data, ok, s)
  | p :: ps =>
      let '(data, ok, s) :=
        if ok then
          let '(buf, d) := Unmarshal (Payload p) (depacketizer s) in
          (data ++ default [] buf, bool_decide (is_Some buf), set_depacketizer d s)
        else (data, ok, s) in
      unmarshal_all ps data ok (set_log (released s ++ [p]) (dropped s) s)
  end.

(** [time.Duration(float64(samples) / float64(rate) * float64(time.Second))],
    in binary64; the conversion truncates. *)
Definition float64 (z : Z) : spec_float := binary_normalize 53 1024 z 0 false.

Definition int64_of_float (f : spec_float) : Z :=
  match f with
  | S754_finite s m e =>
      let v := if 0 <=? e then Z.pos m * 2 ^ e else Z.pos m / 2 ^ (- e) in
      if s then - v else v
  | _ => 0
  end.

Definition sampleDuration (samples rate : Z) : Z :=
  int64_of_float (SFmul 53 1024 (SFdiv 53 1024 (float64 samples) (float64 rate)) (float64 second)).

Definition popSample (force : bool) s : option (option Sample * Z * SampleBuilder D) :=
  r ← popRtpPackets force s;
  let '(ps, ts, s) := r in
  match ps with
  | None => Some (None, 0, s)
  | Some ps =>
      let '(data, ok, s) := unmarshal_all ps [] true s in
      if negb ok then Some (None, 0, s)
      else
        let samples := if lastTimestampValid s then u32 (ts - lastTimestamp s) else 0 in
        Some (Some {| Data := data; Duration := sampleDuration samples (sampleRate s) |}, ts,
              set_lastTimestamp ts s)
  end.

Definition PopWithTimestamp s := popSample false s.
Definition ForcePopWithTimestamp s := popSample true s.
Definition Pop s : option (option Sample * SampleBuilder D) :=
  r ← PopWithTimestamp s; Some (fst (fst r), snd r).
Definition PopPackets s : option (option (list Packet) * SampleBuilder D) :=
  r ← popRtpPackets false s; Some (fst (fst r), snd r).
Definition ForcePopPackets s : option (option (list Packet) * SampleBuilder D) :=
  r ← popRtpPackets true s; Some (fst (fst r), snd r).

End Builder.
