(* ===== verification/SampleRing.v ===== *)
(** The circular array of the sample builder ([SampleBuilder]) as a list: the
    window of slots from [tail] to [head], and what each of the builder's
    primitive steps does to it. *)

From S2P Require Import Prelude SampleBuilder.

#[local] Open Scope list_scope.
#[local] Open Scope Z_scope.

#[export] Instance slot_inhabited : Inhabited slot := populate empty_slot.

(** * Positions *)

(** The place of the [i]-th slot after [t] in an array of [n] slots. *)
Definition pos (n t : Z) (i : nat) : Z := (t + Z.of_nat i) mod n.

Lemma pos_eq n t i : 0 <= t < n -> Z.of_nat i <= n ->
  pos n t i = if t + Z.of_nat i <? n then t + Z.of_nat i else t + Z.of_nat i - n.
Proof.
  intros Ht Hi. unfold pos. destruct (Z.ltb_spec (t + Z.of_nat i) n); [rewrite Z.mod_small; lia|].
  rewrite <- (Z_mod_plus_full _ (-1)). rewrite Z.mod_small; lia.
Qed.

Ltac posl := repeat rewrite pos_eq in * by lia;
  repeat match goal with
  | |- context [?a <? ?b] => destruct (Z.ltb_spec a b)
  | H : context [?a <? ?b] |- _ => destruct (Z.ltb_spec a b)
  end; try lia.

Lemma pos_range n t i : 0 < n -> 0 <= pos n t i < n.
Proof. intros. apply Z.mod_pos_bound. lia. Qed.

Lemma pos_inj n t i j : 0 <= t < n -> Z.of_nat i < n -> Z.of_nat j < n -> pos n t i = pos n t j -> i = j.
Proof. intros. posl. Qed.

Lemma pos_onto n t j : 0 <= t < n -> 0 <= j < n -> exists i, Z.of_nat i < n /\ pos n t i = j.
Proof.
  intros Ht Hj. exists (Z.to_nat (if t <=? j then j - t else j + n - t)).
  destruct (Z.leb_spec t j); split; posl.
Qed.

Lemma total_app_l (l k : list slot) i : (i < length l)%nat -> (l ++ k) !!! i = l !!! i.
Proof. intros. by rewrite lookup_total_app_l. Qed.

Lemma total_out (l : list slot) i : (length l <= i)%nat -> l !!! i = empty_slot.
Proof. intros. rewrite list_lookup_total_alt, lookup_ge_None_2 by done. done. Qed.

(** * The window *)

(** [ring l h t late W]: the array [l] of a builder with [maxLate] = [late]
    holds the slots [W] from [t] up to [h], and empty slots elsewhere.  The
    bound on [late] keeps sums of two positions within uint16. *)
Record ring (l : list slot) (h t late : Z) (W : list slot) : Prop := {
  g_len : Z.of_nat (length l) = 2 * late + 1;
  g_late : 2 <= late <= 16383;
  g_tail : 0 <= t < Z.of_nat (length l);
  g_window : Z.of_nat (length W) < Z.of_nat (length l);
  g_head : h = pos (Z.of_nat (length l)) t (length W);
  g_slots i : Z.of_nat i < Z.of_nat (length l) ->
    l !! Z.to_nat (pos (Z.of_nat (length l)) t i) = Some (W !!! i);
}.

Section Ring.
Context {D : Type} {DP : Depacketizer D}.
Implicit Types s : SampleBuilder D.

Definition holds s (W : list slot) : Prop := ring (packets s) (head s) (tail s) (maxLate s) W.

Definition size s : Z := Z.of_nat (length (packets s)).

Section Facts.
Context s (W : list slot) (G : holds s W).

Lemma size_range : 5 <= size s <= 32767.
Proof. destruct G. unfold size. lia. Qed.

Lemma len_eq : len s = size s.
Proof. pose proof size_range. unfold len. apply u16_small. unfold size in *. lia. Qed.

Lemma cap_eq : cap_ s = size s - 1.
Proof. pose proof size_range. unfold cap_. rewrite len_eq. apply u16_small. lia. Qed.

Lemma inc_pos i : Z.of_nat i < size s -> inc s (pos (size s) (tail s) i) = pos (size s) (tail s) (S i).
Proof.
  intros Hi. pose proof size_range. pose proof (g_tail _ _ _ _ _ G) as Ht. fold (size s) in Ht.
  unfold inc. rewrite len_eq, (u16_small (size s - 1)) by lia. posl; rewrite ?u16_small; lia.
Qed.

Lemma dec_pos i : Z.of_nat i < size s -> dec s (pos (size s) (tail s) (S i)) = pos (size s) (tail s) i.
Proof.
  intros Hi. pose proof size_range. pose proof (g_tail _ _ _ _ _ G) as Ht. fold (size s) in Ht.
  unfold dec. rewrite len_eq, (u16_small (size s - 1)) by lia. posl; rewrite ?u16_small; lia.
Qed.

Lemma tail_pos : tail s = pos (size s) (tail s) 0.
Proof. pose proof (g_tail _ _ _ _ _ G) as Ht. fold (size s) in Ht. posl. Qed.

Lemma head_pos : head s = pos (size s) (tail s) (length W).
Proof. apply (g_head _ _ _ _ _ G). Qed.

Lemma window_size : Z.of_nat (length W) < size s.
Proof. apply (g_window _ _ _ _ _ G). Qed.

Lemma slot_pos i : Z.of_nat i < size s -> slot_at s (pos (size s) (tail s) i) = Some (W !!! i).
Proof. apply (g_slots _ _ _ _ _ G). Qed.

Lemma slot_tail : slot_at s (tail s) = Some (W !!! 0%nat).
Proof. pose proof size_range. rewrite tail_pos. apply slot_pos. lia. Qed.

Lemma empty_iff : tail s = head s <-> W = [].
Proof.
  pose proof size_range. pose proof window_size. pose proof (g_tail _ _ _ _ _ G) as Ht. fold (size s) in Ht.
  rewrite head_pos. split; [|intros HW; rewrite HW; simpl; posl]. intros E. rewrite tail_pos in E at 1.
  apply pos_inj in E; [by destruct W|lia..].
Qed.

Lemma length_eq : length_ s = Z.of_nat (length W).
Proof.
  pose proof size_range. pose proof window_size as HW. pose proof (g_tail _ _ _ _ _ G) as Ht. fold (size s) in Ht.
  unfold length_. rewrite len_eq, head_pos. posl.
  - destruct (Z.leb_spec (tail s) (tail s + Z.of_nat (length W))); rewrite u16_small; lia.
  - destruct (Z.leb_spec (tail s) (tail s + Z.of_nat (length W) - size s)); [lia|].
    rewrite (u16_small (_ + size s)) by lia. rewrite u16_small; lia.
Qed.

Lemma all_empty : W = [] -> forall j, 0 <= j < size s -> slot_at s j = Some empty_slot.
Proof.
  intros HW j Hj. pose proof (g_tail _ _ _ _ _ G) as Ht. fold (size s) in Ht.
  destruct (pos_onto (size s) (tail s) j Ht Hj) as (i & Hi & <-). rewrite slot_pos, HW by done. done.
Qed.

End Facts.

(** ** Writing slots *)

Lemma lookup_put (l : list slot) n t i j (x : slot) : Z.of_nat (length l) = n -> 0 <= t < n ->
  Z.of_nat i < n -> Z.of_nat j < n ->
  <[Z.to_nat (pos n t i) := x]> l !! Z.to_nat (pos n t j) =
    if decide (i = j) then Some x else l !! Z.to_nat (pos n t j).
Proof.
  intros Hl Ht Hi Hj. pose proof (pos_range n t i ltac:(lia)). pose proof (pos_range n t j ltac:(lia)).
  case_decide as E; [subst; apply list_lookup_insert_eq; lia|]. apply list_lookup_insert_ne.
  intros E'. apply E, (pos_inj n t); lia.
Qed.

(** Any window that agrees with [W] but at the place written to. *)
Lemma ring_put l h t late W i x h' W' : ring l h t late W ->
  Z.of_nat i < Z.of_nat (length l) -> Z.of_nat (length W') < Z.of_nat (length l) ->
  h' = pos (Z.of_nat (length l)) t (length W') -> W' !!! i = x -> (forall j, j <> i -> W' !!! j = W !!! j) ->
  ring (<[Z.to_nat (pos (Z.of_nat (length l)) t i) := x]> l) h' t late W'.
Proof.
  intros [] Hi HW' -> Hx Hj. split; rewrite ?length_insert; try done. intros j Hjl.
  rewrite lookup_put by done. case_decide as E; [by subst|]. rewrite g_slots0 by done. f_equal. symmetry. auto.
Qed.

Lemma holds_set s W i x : holds s W -> (i < length W)%nat ->
  holds (put s (pos (size s) (tail s) i) x) (<[i := x]> W).
Proof.
  intros G Hi. pose proof (window_size s W G) as HW. unfold size in HW.
  apply (ring_put _ (head s) _ _ W); try done; rewrite ?length_insert; try lia.
  - apply G.
  - by rewrite list_lookup_total_insert_eq.
  - intros j Hj. by rewrite list_lookup_total_insert_ne.
Qed.

Lemma holds_upd s W i f : holds s W -> (i < length W)%nat ->
  holds (upd s (pos (size s) (tail s) i) f) (alter f i W).
Proof.
  intros G Hi. pose proof (window_size s W G) as HW.
  assert (alter f (Z.to_nat (pos (size s) (tail s) i)) (packets s) =
          <[Z.to_nat (pos (size s) (tail s) i) := f (W !!! i)]> (packets s)) as E.
  { apply list_eq. intros j. destruct (decide (j = Z.to_nat (pos (size s) (tail s) i))) as [->|Hj].
    - rewrite list_lookup_alter_eq. change (packets s !! _) with (slot_at s (pos (size s) (tail s) i)).
      rewrite (slot_pos s W G) by lia. simpl. symmetry. apply list_lookup_insert_eq.
      pose proof (pos_range (size s) (tail s) i ltac:(lia)). unfold size in *. lia.
    - by rewrite list_lookup_alter_ne, list_lookup_insert_ne. }
  assert (alter f i W = <[i := f (W !!! i)]> W) as ->.
  { apply list_eq. intros j. destruct (decide (i = j)) as [->|Hj].
    - rewrite list_lookup_alter_eq, list_lookup_insert_eq by done. rewrite list_lookup_total_alt.
      destruct (W !! j) eqn:E'; [done|]. apply lookup_ge_None in E'. lia.
    - by rewrite list_lookup_alter_ne, list_lookup_insert_ne. }
  unfold holds, upd. simpl. rewrite E. by apply holds_set.
Qed.

(** Appending a slot [k] places behind the window. *)
Lemma holds_append s W k x : holds s W -> Z.of_nat (length W + k) + 1 < size s ->
  let i := pos (size s) (tail s) (length W + k) in
  holds (set_head (inc s i) (put s i x)) (W ++ replicate k empty_slot ++ [x]).
Proof.
  intros G Hk i. unfold i. pose proof (window_size s W G) as HW. unfold holds, set_head, put. simpl.
  apply (ring_put _ (head s) _ _ W); try done; rewrite ?length_app, ?length_replicate; simpl; fold (size s); try lia.
  - rewrite (inc_pos s W G) by lia. f_equal. lia.
  - rewrite lookup_total_app_r by lia. rewrite lookup_total_app_r; rewrite length_replicate; [|lia].
    by replace (length W + k - length W - k)%nat with 0%nat by lia.
  - intros j Hj. destruct (decide (j < length W)%nat) as [Hlt|Hge]; [by rewrite total_app_l|].
    rewrite (total_out W j) by lia. rewrite lookup_total_app_r by lia.
    destruct (decide (j - length W < k)%nat) as [Hjk|Hjk].
    + rewrite lookup_total_app_l by (by rewrite length_replicate). by apply lookup_total_replicate_2.
    + rewrite lookup_total_app_r; rewrite length_replicate; [|lia]. apply total_out. simpl. lia.
Qed.

(** The first packet of an empty builder. *)
Lemma holds_first s W x : holds s W -> W = [] ->
  holds (set_ring (<[0%nat := x]> (packets s)) 1 0 s) [x].
Proof.
  intros G HW. pose proof (size_range s W G) as Hs. pose proof (all_empty s W G HW) as He.
  unfold holds. simpl. destruct G. split; rewrite ?length_insert; fold (size s); simpl; try done; try lia.
  - posl.
  - intros i Hi. assert (pos (size s) 0 i = Z.of_nat i) as -> by posl. rewrite Nat2Z.id.
    destruct i as [|i]; [apply list_lookup_insert_eq; unfold size in *; lia|].
    rewrite list_lookup_insert_ne by done. specialize (He (Z.of_nat (S i)) ltac:(lia)).
    unfold slot_at in He. rewrite Nat2Z.id in He. by rewrite He.
Qed.

(** ** Moving the tail *)

(** Past a slot that is empty. *)
Lemma holds_skip s W : holds s (empty_slot :: W) -> holds (set_tail (inc s (tail s)) s) W.
Proof.
  intros G. pose proof (size_range s _ G) as Hs. pose proof (window_size s _ G) as HW. simpl in HW.
  pose proof (g_tail _ _ _ _ _ G) as Ht. fold (size s) in Ht.
  assert (inc s (tail s) = pos (size s) (tail s) 1) as Ei.
  { rewrite (tail_pos s _ G) at 1. apply (inc_pos s _ G). lia. }
  assert (forall i, Z.of_nat i < size s -> pos (size s) (inc s (tail s)) i =
    pos (size s) (tail s) (if decide (Z.of_nat i = size s - 1) then 0%nat else S i)) as Ep.
  { intros i Hi. rewrite Ei. pose proof (pos_range (size s) (tail s) 1 ltac:(lia)).
    case_decide; posl. }
  pose proof (head_pos s _ G) as Hh. destruct G as [G1 G2 G3 G4 G5 G6]. unfold holds, set_tail. simpl.
  split; fold (size s); try done; try lia.
  - rewrite Ei. apply pos_range. lia.
  - rewrite Hh, Ep by lia. rewrite decide_False by lia. done.
  - intros i Hi. rewrite Ep by done. fold (size s) in G6. rewrite G6 by (case_decide; lia).
    case_decide; [|done]. simpl. by rewrite total_out by (unfold size in *; lia).
Qed.

(** Back over [k] free slots. *)
Lemma holds_extend s W k t' : holds s W -> W <> [] -> Z.of_nat (length W + k) < size s ->
  0 <= t' < size s -> tail s = pos (size s) t' k ->
  holds (set_tail t' s) (replicate k empty_slot ++ W).
Proof.
  intros G Hne Hk Ht' Et. pose proof (size_range s _ G) as Hs.
  pose proof (g_tail _ _ _ _ _ G) as Ht. fold (size s) in Ht.
  pose proof (head_pos s _ G) as Hh. destruct G as [G1 G2 G3 G4 G5 G6]. unfold holds, set_tail. simpl.
  split; fold (size s); rewrite ?length_app, ?length_replicate; try done; try lia.
  - rewrite Hh, Et. pose proof (pos_range (size s) t' k ltac:(lia)). posl.
  - intros i Hi. fold (size s) in G6. destruct (decide (i < k)%nat) as [Hik|Hik].
    + rewrite lookup_total_app_l, lookup_total_replicate_2 by (rewrite ?length_replicate; lia).
      replace (pos (size s) t' i) with (pos (size s) (tail s) (Z.to_nat (size s) - k + i)).
      * rewrite G6 by lia. f_equal. apply total_out. lia.
      * rewrite Et. pose proof (pos_range (size s) t' k ltac:(lia)). posl.
    + rewrite lookup_total_app_r by (rewrite length_replicate; lia). rewrite length_replicate.
      replace (pos (size s) t' i) with (pos (size s) (tail s) (i - k)); [apply G6; lia|].
      rewrite Et. pose proof (pos_range (size s) t' k ltac:(lia)). posl.
Qed.

(** Starting over when nothing is left. *)
Lemma holds_reset s : holds s [] -> holds (set_ring (packets s) 0 0 s) [].
Proof.
  intros G. pose proof (all_empty s _ G eq_refl) as He. pose proof (size_range s _ G) as Hs.
  destruct G as [G1 G2 G3 G4 G5 G6]. unfold holds. simpl. split; fold (size s); simpl; try done; try lia.
  intros i Hi. rewrite (total_out []) by (simpl; lia). apply He. apply pos_range. lia.
Qed.

End Ring.
