(* ===== verification/SampleWindow.v ===== *)
(** The sample builder as a window of slots: the abstract operations on a
    list, and the proof that the circular array of [SampleBuilder] implements
    them without a panic. *)

From S2P Require Import Prelude SampleBuilder SampleRing.

#[local] Open Scope list_scope.
#[local] Open Scope Z_scope.

(** * Windows *)

(** The state of a builder with its slots in order; [recent] and [stamp] are
    the last sequence number and time stamp where they are valid. *)
Record window {D : Type} := {
  slots : list slot;
  recent : option Z;
  stamp : option Z;
  freed : list Packet;
  losses : Z;
  late : Z;
  dep : D;
  rate : Z;
}.
Arguments window D : clear implicits.

(** The window without the missing packets at its front. *)
Fixpoint trim (W : list slot) : list slot :=
  match W with
  | [] => []
  | x :: W' => match packet x with None => trim W' | Some _ => W end
  end.

(** The rest of a frame of time stamp [ts] and what follows it. *)
Fixpoint drop_frame (ts : Z) (W : list slot) : list Packet * list slot :=
  match W with
  | [] => ([], [])
  | x :: W' =>
      match packet x with
      | None => drop_frame ts W'
      | Some p =>
          if start x || negb (Timestamp p =? ts) then ([], W)
          else let '(r, W'') := drop_frame ts W' in (p :: r, W'')
      end
  end.

(** The packets of a window. *)
Definition held (W : list slot) : list Packet := omap packet W.

Inductive found := FoundEnd (n : nat) | FoundMissing | FoundNone.

(** The first slot that ends a frame, unless a packet before it is
    missing. *)
Fixpoint find_end (W : list slot) : found :=
  match W with
  | [] => FoundNone
  | x :: W' =>
      if end_ x then FoundEnd 0
      else match packet x with
           | None => FoundMissing
           | Some _ => match find_end W' with FoundEnd n => FoundEnd (S n) | r => r end
           end
  end.

(** What every builder keeps: the window begins and ends with a packet,
    missing packets leave nothing behind, the sequence numbers are those of
    the places, and neighbours agree where a frame ends, in any case where the
    time stamp changes. *)
Record slots_ok (W : list slot) : Prop := {
  o_first : W = [] \/ is_Some (packet (W !!! 0%nat));
  o_last : W = [] \/ is_Some (packet (W !!! (length W - 1)%nat));
  o_empty i : packet (W !!! i) = None -> W !!! i = empty_slot;
  o_seq : exists base, 0 <= base < 65536 /\
    forall i p, packet (W !!! i) = Some p -> SequenceNumber p = u16 (base + Z.of_nat i);
  o_link i p q : packet (W !!! i) = Some p -> packet (W !!! S i) = Some q ->
    end_ (W !!! i) = start (W !!! S i) /\ (Timestamp p <> Timestamp q -> end_ (W !!! i) = true);
}.

Lemma slots_ok_nil : slots_ok [].
Proof.
  split; [by left|by left| | |]; try done. exists 0. split; [lia|]. intros i p. by rewrite total_out by (simpl; lia).
Qed.

Lemma total_drop (W : list slot) k i : drop k W !!! i = W !!! (k + i)%nat.
Proof. by rewrite lookup_total_drop. Qed.

Lemma slots_ok_drop W k : slots_ok W -> (length W <= k)%nat \/ is_Some (packet (W !!! k)) -> slots_ok (drop k W).
Proof.
  intros [O1 O2 O3 (base & Hb & O4) O5] Hk. destruct (decide (length W <= k)%nat) as [Hle|Hgt].
  { rewrite drop_ge by done. apply slots_ok_nil. }
  destruct Hk as [|Hk]; [lia|]. split.
  - right. by rewrite total_drop, Nat.add_0_r.
  - right. rewrite total_drop, length_drop. replace (k + (length W - k - 1))%nat with (length W - 1)%nat by lia.
    destruct O2 as [->|]; [simpl in Hgt; lia|done].
  - intros i. rewrite total_drop. apply O3.
  - exists (u16 (base + Z.of_nat k)). split; [apply u16_range|]. intros i p. rewrite total_drop. intros Hp.
    rewrite (O4 _ _ Hp). unfold u16. rewrite Zplus_mod_idemp_l. f_equal. lia.
  - intros i p q. rewrite !total_drop. replace (k + S i)%nat with (S (k + i)) by lia. apply O5.
Qed.

(** Removing packets from the front leaves a suffix. *)
Lemma trim_drop W : exists k, trim W = drop k W /\ held (take k W) = [] /\
  ((length W <= k)%nat \/ is_Some (packet (W !!! k))).
Proof.
  induction W as [|x W (k & E & Hh & Hk)]; [exists 0%nat; simpl; auto with lia|]. simpl. rewrite E.
  destruct (packet x) as [p|] eqn:Hx.
  - exists 0%nat. simpl. split_and!; [done|done|]. right. rewrite Hx. eauto.
  - exists (S k). simpl. rewrite Hx. split_and!; [done|done|]. destruct Hk; [left; lia|by right].
Qed.

Lemma slots_ok_trim W : slots_ok W -> slots_ok (trim W).
Proof. intros O. destruct (trim_drop W) as (k & -> & _ & Hk). by apply slots_ok_drop. Qed.

Lemma slots_ok_tail x W : slots_ok (x :: W) -> slots_ok (trim W).
Proof.
  intros O. destruct (trim_drop W) as (k & -> & _ & Hk). change (drop k W) with (drop (S k) (x :: W)).
  apply slots_ok_drop; [done|]. destruct Hk; [left; simpl; lia|by right].
Qed.

Lemma length_trim W : (length (trim W) <= length W)%nat.
Proof. destruct (trim_drop W) as (k & -> & _). rewrite length_drop. lia. Qed.

Lemma held_trim W : held (trim W) = held W.
Proof. induction W as [|x W IH]; simpl; [done|]. destruct (packet x) eqn:Hx; simpl; [by rewrite Hx|done]. Qed.

Lemma drop_frame_trim ts W : drop_frame ts (trim W) = drop_frame ts W.
Proof. induction W as [|x W IH]; simpl; [done|]. destruct (packet x) eqn:Hx; simpl; [by rewrite Hx|done]. Qed.

Lemma drop_frame_drop ts W : let '(r, W') := drop_frame ts W in
  held W = r ++ held W' /\ exists k, W' = drop k W /\ ((length W <= k)%nat \/ is_Some (packet (W !!! k))).
Proof.
  induction W as [|x W IH]; simpl; [split; [done|]; exists 0%nat; auto with lia|].
  destruct (packet x) as [p|] eqn:Hx.
  - destruct (_ || _).
    + split; [simpl; by rewrite Hx|]. exists 0%nat. split; [done|]. right. simpl. rewrite Hx. eauto.
    + destruct (drop_frame ts W) as [r W']. destruct IH as [IH (k & -> & Hk)]. simpl. rewrite IH.
      split; [done|]. exists (S k). split; [done|]. destruct Hk; [left; lia|by right].
  - destruct (drop_frame ts W) as [r W']. destruct IH as [IH (k & -> & Hk)]. rewrite IH.
    split; [done|]. exists (S k). split; [done|]. destruct Hk; [left; lia|by right].
Qed.

Lemma slots_ok_drop_frame ts x W : slots_ok (x :: W) -> slots_ok (snd (drop_frame ts W)).
Proof.
  intros O. pose proof (drop_frame_drop ts W) as H. destruct (drop_frame ts W) as [r W'].
  destruct H as [_ (k & -> & Hk)]. simpl. change (drop k W) with (drop (S k) (x :: W)).
  apply slots_ok_drop; [done|]. destruct Hk; [left; simpl; lia|by right].
Qed.

Section Window.
Context {D : Type} {DP : Depacketizer D}.
Implicit Types (s : SampleBuilder D) (w : window D).

Definition set_slots (W : list slot) w : window D :=
  {| slots := W; recent := recent w; stamp := stamp w; freed := freed w; losses := losses w;
     late := late w; dep := dep w; rate := rate w |}.

(** Slots given up, with the last packet among them and those that the
    release handler gets. *)
Definition forgo (W : list slot) (p : Packet) (r : list Packet) w : window D :=
  {| slots := W; recent := Some (SequenceNumber p); stamp := stamp w; freed := freed w ++ r;
     losses := losses w; late := late w; dep := dep w; rate := rate w |}.

Definition w_release (give : bool) w : window D :=
  match slots w with
  | x :: W => match packet x with
              | Some p => forgo (trim W) p (if give then [p] else []) w
              | None => w
              end
  | [] => w
  end.

Definition w_drop w : bool * Z * window D :=
  match slots w with
  | x :: W =>
      match packet x with
      | Some p =>
          let '(r, W') := drop_frame (Timestamp p) W in
          let w := forgo W' (default p (last r)) (p :: r) w in
          (true, Timestamp p,
           {| slots := slots w; recent := recent w;
              stamp := Some (default (Timestamp p) (stamp w)); freed := freed w;
              losses := losses w + 1; late := late w; dep := dep w; rate := rate w |})
      | None => (false, 0, w)
      end
  | [] => (false, 0, w)
  end.

(** The builder [s] implements the window [w]. *)
Record Rep s w : Prop := {
  R_ring : holds s (slots w);
  R_recent : recent w = if lastSeqnoValid s then Some (lastSeqno s) else None;
  R_stamp : stamp w = if lastTimestampValid s then Some (lastTimestamp s) else None;
  R_freed : freed w = released s;
  R_losses : losses w = dropped s;
  R_late : late w = maxLate s;
  R_dep : dep w = depacketizer s;
  R_rate : rate w = sampleRate s;
}.

(** ** Releasing *)

Lemma skip_spec fuel : forall s W, holds s W -> (forall i, packet (W !!! i) = None -> W !!! i = empty_slot) ->
  (length W <= fuel)%nat -> exists t, skip fuel s = Some (set_tail t s) /\ holds (set_tail t s) (trim W).
Proof.
  induction fuel as [|fuel IH]; intros s W G He Hf.
  - destruct W; [|simpl in Hf; lia]. exists (tail s). simpl.
    rewrite (proj2 (Z.eqb_eq _ _) (proj2 (empty_iff s _ G) eq_refl)). by destruct s.
  - simpl. destruct W as [|x W].
    { exists (tail s). rewrite (proj2 (Z.eqb_eq _ _) (proj2 (empty_iff s _ G) eq_refl)). by destruct s. }
    destruct (Z.eqb_spec (tail s) (head s)) as [E|E]; [by apply (empty_iff s _ G) in E|].
    unfold present. rewrite (slot_tail s _ G). simpl. destruct (packet x) as [p|] eqn:Hx; simpl.
    + exists (tail s). by destruct s.
    + pose proof (He 0%nat Hx) as Ex. simpl in Ex. subst x.
      destruct (IH (set_tail (inc s (tail s)) s) W) as (t & -> & Ht); [by apply holds_skip| |simpl in Hf; lia|].
      { intros i. apply (He (S i)). }
      exists t. done.
Qed.

Lemma release_spec give s w : Rep s w -> slots_ok (slots w) -> slots w <> [] ->
  exists s', release give s = Some (true, s') /\ Rep s' (w_release give w) /\
    (slots (w_release give w) <> [] -> head s' = head s).
Proof.
  intros [G R2 R3 R4 R5 R6 R7 R8] O Hne. unfold w_release. destruct (slots w) as [|x W] eqn:EW; [done|].
  destruct (o_first _ O) as [|[p Hp]]; [done|]. simpl in Hp. rewrite Hp.
  pose proof (size_range s _ G) as Hs. pose proof (window_size s _ G) as HW.
  unfold release. destruct (Z.eqb_spec (head s) (tail s)) as [E|E]; [by symmetry in E; apply (empty_iff s _ G) in E|].
  unfold pkt_at. rewrite (slot_tail s _ G). cbn [mbind option_bind].
  change ((x :: W) !!! 0%nat) with x. rewrite Hp. cbn [mbind option_bind]. cbv zeta.
  set (s1 := if give then _ else _).
  assert (packets s1 = packets s /\ head s1 = head s /\ tail s1 = tail s /\ maxLate s1 = maxLate s
    /\ lastSeqnoValid s1 = true /\ lastSeqno s1 = SequenceNumber p /\ lastTimestampValid s1 = lastTimestampValid s
    /\ lastTimestamp s1 = lastTimestamp s /\ released s1 = released s ++ (if give then [p] else [])
    /\ dropped s1 = dropped s /\ depacketizer s1 = depacketizer s /\ sampleRate s1 = sampleRate s)
    as (E1 & E2 & E3 & E4 & E5 & E6 & E7 & E8 & E9 & E10 & E11 & E12).
  { unfold s1. destruct give; simpl; rewrite ?app_nil_r; by split_and!. }
  clearbody s1. assert (holds s1 (x :: W)) as G1 by (unfold holds; by rewrite E1, E2, E3, E4).
  assert (holds (put s1 (tail s1) empty_slot) (empty_slot :: W)) as G2.
  { rewrite (tail_pos s1 _ G1) at 1. apply (holds_set s1 (x :: W) 0 empty_slot G1). simpl. lia. }
  pose proof (holds_skip _ _ G2) as G3.
  change (inc (put s1 (tail s1) empty_slot) (tail s1)) with
    (inc (put s1 (tail s1) empty_slot) (tail (put s1 (tail s1) empty_slot))).
  set (s2 := set_tail _ _) in *.
  destruct (skip_spec (length (packets s2)) s2 W G3) as (t & -> & Ht).
  { intros i. apply (o_empty _ O (S i)). }
  { simpl. rewrite length_insert, E1. simpl in HW. unfold size in *. lia. }
  cbn [mbind option_bind]. cbv zeta. set (s3 := set_tail t s2) in *.
  assert (head s3 = head s) as Hh by done.
  destruct (Z.eqb_spec (tail s3) (head s3)) as [Et|Et]; (eexists; split; [done|]); (split; [|simpl]).
  - apply (empty_iff s3 _ Ht) in Et. rewrite Et in *. split; simpl; try congruence; try done.
    + by apply (holds_reset s3).
    + by rewrite E5, E6.
    + by rewrite E7, E8.
  - intros Hn. by apply (empty_iff s3 _ Ht) in Et.
  - split; simpl; try congruence; try done; [by rewrite E5, E6|by rewrite E7, E8].
  - done.
Qed.

Lemma tail_head s w : Rep s w -> (tail s =? head s) = match slots w with [] => true | _ => false end.
Proof.
  intros R. pose proof (empty_iff s _ (R_ring _ _ R)) as E. destruct (Z.eqb_spec (tail s) (head s)) as [H|H].
  - by rewrite (proj1 E H).
  - destruct (slots w); [|done]. by destruct H; apply E.
Qed.

Lemma head_tail s w : Rep s w -> (head s =? tail s) = match slots w with [] => true | _ => false end.
Proof. rewrite Z.eqb_sym. apply tail_head. Qed.

Lemma w_slot s w i : Rep s w -> (i <= length (slots w))%nat ->
  slot_at s (pos (size s) (tail s) i) = Some (slots w !!! i).
Proof.
  intros R Hi. pose proof (window_size s _ (R_ring _ _ R)). apply (slot_pos s _ (R_ring _ _ R)). lia.
Qed.

Lemma fuel_enough s w : Rep s w -> (length (slots w) <= length (packets s))%nat.
Proof. intros R. pose proof (window_size s _ (R_ring _ _ R)). unfold size in *. lia. Qed.

(** ** Dropping *)

Lemma drop_rest_spec ts fuel : forall s w, Rep s w -> slots_ok (slots w) -> (length (slots w) <= fuel)%nat ->
  exists s', drop_rest fuel ts s = Some s' /\
  (snd (drop_frame ts (slots w)) <> [] -> head s' = head s) /\
  Rep s' (let '(r, W) := drop_frame ts (slots w) in
          match last r with Some p => forgo W p r w | None => set_slots W w end).
Proof.
  induction fuel as [|fuel IH]; intros s w R O Hf; simpl; rewrite (tail_head _ _ R);
    destruct (slots w) as [|x W] eqn:EW; simpl.
  - exists s. split; [done|]. split; [done|]. destruct R. split; simpl; congruence.
  - simpl in Hf. lia.
  - exists s. split; [done|]. split; [done|]. destruct R. split; simpl; congruence.
  - destruct (o_first _ O) as [|[p Hp]]; [done|]. simpl in Hp.
    rewrite (slot_tail s _ (R_ring _ _ R)), EW. cbn [mbind option_bind]. change ((x :: W) !!! 0%nat) with x.
    rewrite Hp. destruct (start x); simpl.
    { exists s. split; [done|]. split; [done|]. destruct R. split; simpl; congruence. }
    destruct (Timestamp p =? ts); simpl.
    2:{ exists s. split; [done|]. split; [done|]. destruct R. split; simpl; congruence. }
    destruct (release_spec true s w R) as (s1 & -> & R1 & H1); [by rewrite EW|by rewrite EW|]. simpl.
    unfold w_release in R1, H1. rewrite EW, Hp in R1, H1.
    destruct (IH s1 _ R1) as (s2 & -> & H2 & R2); simpl; [by eapply slots_ok_tail| |].
    { pose proof (length_trim W). simpl in Hf. lia. }
    exists s2. split; [done|]. simpl in R2, H2, H1. rewrite drop_frame_trim in R2, H2.
    assert (snd (drop_frame ts W) <> [] -> trim W <> []) as Hne.
    { intros Hn Ht. apply Hn. by rewrite <- drop_frame_trim, Ht. }
    destruct (drop_frame ts W) as [r W']. simpl in *. split; [intros; rewrite H2, H1; auto|]. rewrite last_cons.
    destruct (last r) as [q|] eqn:Hl; simpl in *.
    + destruct R2; split; simpl in *; try congruence. rewrite <- R_freed0. by rewrite <- app_assoc.
    + apply last_None in Hl as ->. destruct R2; split; simpl in *; congruence.
Qed.

Lemma drop_spec s w : Rep s w -> slots_ok (slots w) -> exists s',
  drop_ s = Some (fst (w_drop w), s') /\ Rep s' (snd (w_drop w)) /\
  (slots (snd (w_drop w)) <> [] -> head s' = head s).
Proof.
  intros R O. unfold drop_, w_drop. rewrite (tail_head _ _ R). destruct (slots w) as [|x W] eqn:EW; [exists s; split; [done|]; split; [done|]; by simpl; rewrite EW|].
  destruct (o_first _ O) as [|[p Hp]]; [done|]. simpl in Hp. rewrite Hp.
  set (s0 := set_log _ _ s). set (w0 := {| slots := slots w; recent := recent w; stamp := stamp w; freed := freed w;
    losses := losses w + 1; late := late w; dep := dep w; rate := rate w |}).
  assert (Rep s0 w0) as R0 by (destruct R; split; simpl; try done; congruence).
  unfold pkt_at. rewrite (slot_tail s0 _ (R_ring _ _ R0)). unfold w0 at 1. cbn [slots]. rewrite EW.
  cbn [mbind option_bind]. change ((x :: W) !!! 0%nat) with x. rewrite Hp. cbn [mbind option_bind]. cbv zeta.
  destruct (release_spec true s0 w0 R0) as (s1 & -> & R1 & H1); [by unfold w0; simpl; rewrite EW|by unfold w0; simpl; rewrite EW|].
  cbn [mbind option_bind snd]. unfold w_release, w0 in R1, H1. cbn [slots] in R1, H1. rewrite EW, Hp in R1, H1.
  destruct (drop_rest_spec (Timestamp p) (length (packets s0)) s1 _ R1) as (s2 & -> & H2 & R2); simpl.
  { by eapply slots_ok_tail. }
  { pose proof (length_trim W). pose proof (fuel_enough _ _ R) as Hf. rewrite EW in Hf. simpl in Hf. lia. }
  simpl in R2, H1, H2. rewrite drop_frame_trim in R2, H2.
  assert (snd (drop_frame (Timestamp p) W) <> [] -> trim W <> []) as Hne.
  { intros Hn Ht. apply Hn. by rewrite <- drop_frame_trim, Ht. }
  destruct (drop_frame (Timestamp p) W) as [r W']. simpl in Hne, H2.
  assert (Rep s2 {| slots := W'; recent := Some (SequenceNumber (default p (last r))); stamp := stamp w;
    freed := freed w ++ p :: r; losses := losses w + 1; late := late w; dep := dep w; rate := rate w |}) as R3.
  { destruct (last r) as [q|] eqn:Hl.
    - destruct R2; split; simpl in *; try congruence. rewrite <- R_freed0. by rewrite <- app_assoc.
    - apply last_None in Hl as ->. destruct R2; split; simpl in *; congruence. }
  simpl. eexists. split; [done|]. destruct R3. simpl in *. split; destruct (lastTimestampValid s2) eqn:Ev.
  - rewrite R_stamp0. split; simpl; try done. by rewrite Ev.
  - rewrite R_stamp0. split; simpl; done.
  - intros. rewrite H2, H1; auto.
  - intros. simpl. rewrite H2, H1; auto.
Qed.

Lemma slots_ok_w_drop w : slots_ok (slots w) -> slots_ok (slots (snd (w_drop w))).
Proof.
  intros O. unfold w_drop. destruct (slots w) as [|x W] eqn:EW; [simpl; by rewrite EW|].
  destruct (packet x) as [p|]; [|simpl; by rewrite EW]. pose proof (slots_ok_drop_frame (Timestamp p) x W O) as H.
  by destruct (drop_frame (Timestamp p) W).
Qed.

(** ** Releasing everything *)

Definition w_clear w : window D :=
  match last (held (slots w)) with
  | Some p => forgo [] p (held (slots w)) w
  | None => set_slots [] w
  end.

Lemma releaseAll_spec fuel : forall s w, Rep s w -> slots_ok (slots w) -> (length (slots w) <= fuel)%nat ->
  exists s', releaseAll_loop fuel s = Some s' /\ Rep s' (w_clear w).
Proof.
  induction fuel as [|fuel IH]; intros s w R O Hf; simpl; rewrite (tail_head _ _ R);
    destruct (slots w) as [|x W] eqn:EW; simpl.
  - exists s. split; [done|]. unfold w_clear. rewrite EW. destruct R. split; simpl; congruence.
  - simpl in Hf. lia.
  - exists s. split; [done|]. unfold w_clear. rewrite EW. destruct R. split; simpl; congruence.
  - destruct (o_first _ O) as [|[p Hp]]; [done|]. simpl in Hp.
    destruct (release_spec true s w R) as (s1 & -> & R1 & _); [by rewrite EW|by rewrite EW|]. simpl.
    unfold w_release in R1. rewrite EW, Hp in R1.
    destruct (IH s1 _ R1) as (s2 & -> & R2); simpl; [by eapply slots_ok_tail| |].
    { pose proof (length_trim W). simpl in Hf. lia. }
    exists s2. split; [done|]. unfold w_clear in *. rewrite EW. simpl in *. rewrite held_trim in R2.
    change (omap packet W) with (held W). rewrite Hp, last_cons. destruct (last (held W)) as [q|] eqn:Hl.
    + destruct R2; split; simpl in *; try congruence. rewrite <- R_freed0. by rewrite <- app_assoc.
    + apply last_None in Hl. rewrite Hl. destruct R2; split; simpl in *; congruence.
Qed.

End Window.
