(* ===== verification/SamplePush.v ===== *)
(** [Push] of the sample builder on windows: what it does to the list of
    slots, that the circular array does the same, and that the result is
    again a proper window. *)

From S2P Require Import Prelude SampleBuilder SampleRing SampleWindow.

#[local] Open Scope list_scope.
#[local] Open Scope Z_scope.

(** * Sequence numbers *)

Lemma forward_iff d : 0 <= d < 65536 -> forward d = true <-> d < 32768.
Proof.
  intros Hd. unfold forward. change 0x8000 with (2 ^ 15). rewrite Z.eqb_eq.
  assert (Z.land d (2 ^ 15) = if Z.testbit d 15 then 2 ^ 15 else 0) as ->.
  { apply Z.bits_inj'. intros n Hn. rewrite Z.land_spec, Z.pow2_bits_eqb by lia.
    destruct (Z.eqb_spec 15 n) as [<-|Hne].
    - rewrite andb_true_r. destruct (Z.testbit d 15); [by rewrite Z.pow2_bits_true|by rewrite Z.bits_0].
    - rewrite andb_false_r. destruct (Z.testbit d 15); [by rewrite Z.pow2_bits_false|by rewrite Z.bits_0]. }
  rewrite Z.testbit_eqb by lia. change (2 ^ 15) with 32768.
  destruct (Z.ltb_spec d 32768).
  - rewrite Z.div_small by lia. simpl. lia.
  - assert (d / 32768 = 1) as -> by (symmetry; apply (Z.div_unique _ _ _ (d - 32768)); lia). simpl. lia.
Qed.

Lemma forward_case d : 0 <= d < 65536 -> forward d = (d <? 32768).
Proof. intros. apply eq_true_iff_eq. rewrite forward_iff by done. symmetry. apply Z.ltb_lt. Qed.

(** Differences of uint16 values. *)
Lemma u16_difference x y : 0 <= x < 65536 -> 0 <= y < 65536 ->
  u16 (x - y) = if y <=? x then x - y else x - y + 65536.
Proof.
  intros. unfold u16. destruct (Z.leb_spec y x); [rewrite Z.mod_small; lia|].
  rewrite <- (Z_mod_plus_full _ 1). rewrite Z.mod_small; lia.
Qed.

Lemma u16_add x y : 0 <= x < 65536 -> 0 <= y < 65536 ->
  u16 (x + y) = if x + y <? 65536 then x + y else x + y - 65536.
Proof.
  intros. unfold u16. destruct (Z.ltb_spec (x + y) 65536); [rewrite Z.mod_small; lia|].
  rewrite <- (Z_mod_plus_full _ (-1)). rewrite Z.mod_small; lia.
Qed.

Lemma bind_some {A B} (x : A) (f : A -> option B) : Some x ≫= f = f x.
Proof. done. Qed.

Section Push.
Context {D : Type} {DP : Depacketizer D}.
Implicit Types (s : SampleBuilder D) (w : window D).

Definition set_recent (r : option Z) w : window D :=
  {| slots := slots w; recent := r; stamp := stamp w; freed := freed w; losses := losses w;
     late := late w; dep := dep w; rate := rate w |}.

Definition first w : option Packet := packet (slots w !!! 0%nat).
Definition newest w : option Packet := packet (slots w !!! (length (slots w) - 1)%nat).

(** Whether a packet comes too late, and how far the builder still waits. *)
Definition w_accept (p : Packet) w : bool * window D :=
  match recent w with
  | None => (true, w)
  | Some l =>
      let d := u16 (l - SequenceNumber p) in
      if forward d then if late w <? d then (true, set_recent None w) else (false, w)
      else
        let lst := u16 (SequenceNumber p - late w) in
        if forward (u16 (lst - l)) then
          (true, set_recent (Some match first w with
                                  | Some q => let n := u16 (SequenceNumber q - 1) in
                                              if forward (u16 (lst - n)) then n else lst
                                  | None => lst
                                  end) w)
        else (true, w)
  end.

Definition w_first (p : Packet) w : window D := set_slots [mk_slot (isStart p) (isEnd p) p] w.

Definition capacity w : Z := 2 * late w.

(** A packet right behind the newest. *)
Definition append_slot (p : Packet) (W : list slot) : list slot :=
  let i := (length W - 1)%nat in
  match packet (W !!! i) with
  | Some q =>
      let st := end_ (W !!! i) || negb (Timestamp q =? Timestamp p) || isStart p in
      (if st then alter set_end i W else W) ++ [mk_slot st (isEnd p) p]
  | None => [mk_slot (isStart p) (isEnd p) p]
  end.

Definition w_sequential (p : Packet) w : window D :=
  let w := if Z.of_nat (length (slots w)) =? capacity w then snd (w_drop w) else w in
  set_slots (append_slot p (slots w)) w.

Fixpoint w_room (fuel : nat) (count : Z) w : bool * window D :=
  if capacity w <=? Z.of_nat (length (slots w)) + count + 1 then
    let '(d, _, w) := w_drop w in
    if negb d then (false, w) else match fuel with O => (false, w) | S fuel => w_room fuel count w end
  else (true, w).

(** A packet behind a gap.  Making room may empty the window; the gap is
    then at its front. *)
Definition w_future (p : Packet) (count : Z) w : window D :=
  if capacity w <=? count then
    let '(go, w) := w_accept p (w_clear w) in
    if go then w_first p w else w
  else
    let '(room, w) := w_room (length (slots w)) count w in
    if negb room then w
    else set_slots (slots w ++ replicate (Z.to_nat count) empty_slot ++
                    [mk_slot (isStart p) (isEnd p) p]) w.

Definition w_link_prev (p : Packet) (i : nat) (W : list slot) : bool * list slot :=
  match i with
  | O => (isStart p, W)
  | S j =>
      match packet (W !!! j) with
      | None => (isStart p, W)
      | Some q => if isStart p || negb (Timestamp q =? Timestamp p) then (true, alter set_end j W)
                  else (end_ (W !!! j), W)
      end
  end.

Definition w_link_next (p : Packet) (i : nat) (W : list slot) : bool * list slot :=
  match packet (W !!! S i) with
  | None => (isEnd p, W)
  | Some q => if isEnd p || negb (Timestamp q =? Timestamp p) then (true, alter set_start (S i) W)
              else (start (W !!! S i), W)
  end.

(** A packet at place [i] of the window. *)
Definition insert_slot (p : Packet) (i : nat) (W : list slot) : list slot :=
  let '(st, W1) := w_link_prev p i W in
  let '(en, W2) := w_link_next p i W1 in
  <[i := mk_slot st en p]> W2.

Definition w_past (p : Packet) (count : Z) w : window D :=
  if capacity w <=? count then w
  else
    let n := Z.to_nat count in
    let W := replicate (n - length (slots w)) empty_slot ++ slots w in
    let i := (length (slots w) - n)%nat in
    match packet (W !!! i) with
    | Some _ => {| slots := slots w; recent := recent w; stamp := stamp w; freed := freed w ++ [p];
                   losses := losses w; late := late w; dep := dep w; rate := rate w |}
    | None => set_slots (insert_slot p i W) w
    end.

Definition w_push (p : Packet) w : window D :=
  let '(go, w) := w_accept p w in
  if negb go then w
  else match newest w with
       | None => w_first p w
       | Some q =>
           if SequenceNumber p =? u16 (SequenceNumber q + 1) then w_sequential p w
           else if forward (u16 (SequenceNumber p - SequenceNumber q)) then
             w_future p (u16 (u16 (SequenceNumber p - SequenceNumber q) - 1)) w
           else w_past p (u16 (u16 (SequenceNumber q - SequenceNumber p) + 1)) w
       end.

(** * The circular array does the same *)

Lemma first_ok w : slots_ok (slots w) -> slots w <> [] -> is_Some (first w).
Proof. intros O Hne. by destruct (o_first _ O). Qed.

Lemma newest_ok w : slots_ok (slots w) -> slots w <> [] -> is_Some (newest w).
Proof. intros O Hne. by destruct (o_last _ O). Qed.

Lemma accept_seqno_spec p s w : Rep s w -> slots_ok (slots w) ->
  exists s', accept_seqno p s = Some (fst (w_accept p w), s') /\ Rep s' (snd (w_accept p w)).
Proof.
  intros R O. unfold accept_seqno, w_accept. rewrite (R_recent _ _ R).
  destruct (lastSeqnoValid s) eqn:Ev; [|by exists s].
  assert (forall v n, Rep (set_lastSeqno v n s) (set_recent (if v then Some n else None) w)) as Hset.
  { intros v n. destruct R. split; simpl; try done; congruence. }
  rewrite (R_late _ _ R). destruct (forward (u16 (lastSeqno s - _))).
  - destruct (_ <? _); [|by exists s]. eexists. split; [done|]. apply (Hset false).
  - destruct (forward (u16 (u16 (_ - _) - lastSeqno s))); [|by exists s]. rewrite (head_tail _ _ R).
    unfold pkt_at. rewrite (slot_tail s _ (R_ring _ _ R)). destruct (slots w) as [|x W] eqn:EW.
    + unfold first. rewrite EW. simpl. eexists. split; [done|]. apply (Hset true).
    + destruct (first_ok w) as [q Hq]; [by rewrite EW|by rewrite EW|]. rewrite Hq. unfold first in Hq. rewrite EW in Hq.
      cbn [negb mbind option_bind]. rewrite Hq. cbn [mbind option_bind]. eexists. split; [done|]. apply (Hset true).
Qed.

Lemma Rep_set s w s' W : Rep s w -> holds s' W ->
  (exists l h t, s' = set_ring l h t s) -> Rep s' (set_slots W w).
Proof. intros [] G (l & h & t & ->). split; simpl; try done; congruence. Qed.

Lemma first_spec p s w : Rep s w -> slots w = [] ->
  Rep (set_ring (<[0%nat := mk_slot (isStart p) (isEnd p) p]> (packets s)) 1 0 s) (w_first p w).
Proof.
  intros R HW. eapply Rep_set; [done| |eauto]. by apply (holds_first s (slots w)), HW; apply R.
Qed.

Lemma cap_capacity s w : Rep s w -> cap_ s = capacity w /\ capacity w = size s - 1.
Proof.
  intros R. rewrite (cap_eq s _ (R_ring _ _ R)). destruct (R_ring _ _ R) as [Hl _ _ _ _ _].
  unfold capacity. rewrite (R_late _ _ R). unfold size. lia.
Qed.

Lemma upd_put_shape s i f : exists l h t, upd s i f = set_ring l h t s.
Proof. by exists (alter f (Z.to_nat i) (packets s)), (head s), (tail s). Qed.

Lemma inc_put s i x n : inc (put s i x) n = inc s n.
Proof. unfold inc, len. simpl. by rewrite length_insert. Qed.

Lemma append_spec p s w : Rep s w -> Z.of_nat (length (slots w)) + 1 < size s -> slots_ok (slots w) ->
  exists s2 st, link_last p (dec s (head s)) s = Some (st, s2) /\
    Rep (set_head (inc s2 (head s2)) (put s2 (head s2) (mk_slot st (isEnd p) p)))
        (set_slots (append_slot p (slots w)) w).
Proof.
  intros R Hsz O. pose proof (R_ring _ _ R) as G. unfold link_last. rewrite (tail_head _ _ R). unfold append_slot.
  destruct (decide (slots w = [])) as [HW|HW].
  - rewrite HW. simpl. eexists s, _. split; [done|]. eapply Rep_set; [done| |].
    + rewrite (head_pos s _ G), HW. pose proof (holds_append s _ 0 (mk_slot (isStart p) (isEnd p) p) G) as H.
      rewrite HW in H. simpl in H. apply H. rewrite HW in Hsz. simpl in Hsz. lia.
    + by eexists _, _, _.
  - destruct (newest_ok w O HW) as [q Hq]. unfold newest in Hq. rewrite Hq.
    destruct (slots w) as [|x0 W0] eqn:EW; [done|]. rewrite <- EW in *. clear x0 W0 EW. cbn [negb].
    assert (length (slots w) = S (length (slots w) - 1)) as HL by (destruct (slots w); [done|simpl; lia]).
    assert (dec s (head s) = pos (size s) (tail s) (length (slots w) - 1)) as ->.
    { rewrite (head_pos s _ G). rewrite HL at 1. apply (dec_pos s _ G). lia. }
    rewrite (w_slot s w _ R) by lia. cbn [mbind option_bind]. rewrite Hq. cbn [mbind option_bind]. cbv zeta.
    set (st := end_ _ || _ || _). eexists _, st. split; [done|].
    set (s2 := if st then _ else s). set (W2 := if st then alter set_end _ _ else slots w).
    assert (holds s2 W2 /\ (exists l h t, s2 = set_ring l h t s) /\ length W2 = length (slots w)
            /\ size s2 = size s /\ tail s2 = tail s /\ head s2 = head s) as (G2 & Hsh & HL2 & Hs2 & Ht2 & Hh2).
    { unfold s2, W2. destruct st.
      - split; [apply (holds_upd s (slots w)); [done|lia]|]. split; [apply upd_put_shape|].
        rewrite length_alter. unfold size. simpl. by rewrite length_alter.
      - split; [done|]. split; [by exists (packets s), (head s), (tail s); destruct s|done]. }
    clearbody s2 W2. eapply Rep_set; [done| |].
    + pose proof (holds_append s2 W2 0 (mk_slot st (isEnd p) p) G2) as H. simpl in H. rewrite Nat.add_0_r in H.
      rewrite (head_pos s2 _ G2) at 1 2. apply H. lia.
    + destruct Hsh as (l & h & t & ->). by eexists _, _, _.
Qed.

Lemma w_drop_late w : late (snd (w_drop w)) = late w.
Proof. unfold w_drop. by repeat case_match. Qed.

Lemma w_drop_shorter w : slots_ok (slots w) -> slots w <> [] ->
  fst (fst (w_drop w)) = true /\ (length (slots (snd (w_drop w))) < length (slots w))%nat.
Proof.
  intros O Hne. unfold w_drop. destruct (slots w) as [|x W] eqn:EW; [done|].
  destruct (o_first _ O) as [|[q Hq]]; [done|]. simpl in Hq. rewrite Hq.
  pose proof (drop_frame_drop (Timestamp q) W) as Hd. destruct (drop_frame (Timestamp q) W) as [r W'].
  destruct Hd as [_ (k & -> & _)]. simpl. rewrite length_drop. split; [done|lia].
Qed.

Lemma sequential_spec p s w : Rep s w -> slots_ok (slots w) ->
  exists s', push_sequential p (dec s (head s)) s = Some s' /\ Rep s' (w_sequential p w).
Proof.
  intros R O. pose proof (R_ring _ _ R) as G. pose proof (size_range s _ G) as Hs.
  pose proof (window_size s _ G) as HW. destruct (cap_capacity s w R) as [_ Hcap].
  unfold push_sequential, w_sequential.
  assert ((tail s =? inc s (head s)) = (Z.of_nat (length (slots w)) =? capacity w)) as ->.
  { rewrite (head_pos s _ G), (inc_pos s _ G) by done. pose proof (g_tail _ _ _ _ _ G) as Ht. fold (size s) in Ht.
    rewrite Hcap. apply eq_true_iff_eq. rewrite !Z.eqb_eq. split; intros E; posl. }
  set (w1 := if _ =? capacity w then snd (w_drop w) else w).
  assert (exists s1, (if Z.of_nat (length (slots w)) =? capacity w then r ← drop_ s; Some (snd r) else Some s) = Some s1 /\
    Rep s1 w1 /\ slots_ok (slots w1) /\ (slots w1 <> [] -> head s1 = head s) /\ size s1 = size s /\
    Z.of_nat (length (slots w1)) + 1 < size s) as (s1 & -> & R1 & O1 & Hh & Hs1 & HL).
  { unfold w1. destruct (Z.eqb_spec (Z.of_nat (length (slots w))) (capacity w)) as [E|E].
    - destruct (drop_spec s w R O) as (s1 & -> & R1 & Hh). exists s1. split; [done|].
      destruct (w_drop_shorter w O) as [_ Hlt]; [intros H; rewrite H in E; unfold capacity in *; simpl in *; lia|].
      split_and!; try done; [by apply slots_ok_w_drop| |lia].
      destruct (cap_capacity _ _ R1) as [_ Hc]. unfold capacity in *. rewrite w_drop_late in Hc. lia.
    - exists s. split_and!; try done. lia. }
  rewrite bind_some.
  destruct (append_spec p s1 w1 R1 ltac:(lia) O1) as (s2 & st & Hx & R2).
  assert (dec s (head s) = dec s1 (head s1) \/ slots w1 = []) as Hdec.
  { destruct (decide (slots w1 = [])) as [|Hne]; [by right|left]. rewrite (Hh Hne). unfold dec, len.
    unfold size in Hs1. by rewrite Hs1. }
  eexists. split; [|exact R2].
  assert (link_last p (dec s (head s)) s1 = Some (st, s2)) as Hx'.
  { destruct Hdec as [->|He]; [done|]. rewrite <- Hx. unfold link_last. by rewrite (tail_head _ _ R1), He. }
  rewrite Hx', bind_some. cbv beta iota zeta. by rewrite inc_put.
Qed.

(** ** A gap *)

Lemma w_room_unfold fuel count w : w_room fuel count w =
  if capacity w <=? Z.of_nat (length (slots w)) + count + 1 then
    let '(d, _, w) := w_drop w in
    if negb d then (false, w) else match fuel with O => (false, w) | S fuel => w_room fuel count w end
  else (true, w).
Proof. by destruct fuel. Qed.

Lemma room_spec count f1 : forall f2 s w, Rep s w -> slots_ok (slots w) ->
  (length (slots w) <= f1)%nat -> (length (slots w) <= f2)%nat -> 0 <= count < capacity w ->
  let r := w_room f2 count w in
  (exists s', make_room f1 count s = Some (fst r, s') /\ Rep s' (snd r)) /\ slots_ok (slots (snd r)) /\
  late (snd r) = late w /\ (fst r = true -> Z.of_nat (length (slots (snd r))) + count + 1 < capacity w) /\
  (fst r = false -> slots (snd r) = []).
Proof.
  induction f1 as [|f1 IH]; intros f2 s w R O H1 H2 Hc; pose proof (R_ring _ _ R) as G;
    pose proof (size_range s _ G) as Hs; pose proof (window_size s _ G) as HW;
    destruct (cap_capacity s w R) as [Ec Ec']; cbn [make_room];
    rewrite Ec, (length_eq s _ G), (u16_small (_ + count)), u16_small by lia;
    rewrite (w_room_unfold f2); destruct (drop_spec s w R O) as (s1 & -> & R1 & _);
    destruct (Z.leb_spec (capacity w) (Z.of_nat (length (slots w)) + count + 1)) as [Hfull|Hfull];
    try (split; [by exists s|by split_and!]);
    pose proof (w_drop_shorter w O) as Hd; pose proof (slots_ok_w_drop w O) as O1; pose proof (w_drop_late w) as Hl;
    rewrite bind_some; destruct (decide (slots w = [])) as [He|He].
  1, 3: unfold w_drop in *; rewrite He in *; cbn in *; split; [by exists s1|by split_and!].
  all: destruct (Hd He) as [Hd1 Hd2]; destruct (w_drop w) as [[d ts] w1]; cbn in Hd1, Hd2, O1, Hl, R1; subst d;
    cbn [negb fst snd].
  - lia.
  - destruct f2 as [|f2]; [lia|]. unfold capacity in *. rewrite <- Hl in *. apply (IH f2 s1 w1); try done; lia.
Qed.

Lemma future_spec p count s w : Rep s w -> slots_ok (slots w) -> 0 <= count ->
  (forall s', Rep s' (w_clear w) -> exists s'', Push_with (fun _ => None) p s' = Some s'' /\
     Rep s'' (let '(go, w) := w_accept p (w_clear w) in if go then w_first p w else w)) ->
  exists s', push_future (Push_with (fun _ => None) p) p count s = Some s' /\ Rep s' (w_future p count w).
Proof.
  intros R O Hc Hag. unfold push_future, w_future. destruct (cap_capacity s w R) as [Ec Ec']. rewrite Ec.
  destruct (Z.leb_spec (capacity w) count) as [Hb|Hb].
  { unfold releaseAll. destruct (releaseAll_spec (length (packets s)) s w R O) as (s1 & -> & R1).
    { apply (fuel_enough s w R). }
    rewrite bind_some. destruct (Hag s1 R1) as (s2 & -> & R2). by exists s2. }
  destruct (room_spec count (length (packets s)) (length (slots w)) s w R O) as ((s1 & -> & R1) & O1 & Hl & Hr & _);
    [apply (fuel_enough s w R)|done|lia|].
  rewrite bind_some. destruct (w_room _ count w) as [room w1]. cbn [fst snd] in *. cbv beta iota.
  destruct room; cbn [negb]; [|by exists s1]. specialize (Hr eq_refl).
  pose proof (R_ring _ _ R1) as G1. pose proof (size_range s1 _ G1) as Hs1. pose proof (window_size s1 _ G1) as HW1.
  destruct (cap_capacity s1 w1 R1) as [_ Ec1]. unfold capacity in *. rewrite Hl in Ec1.
  assert (u16 (head s1 + count) mod len s1 = pos (size s1) (tail s1) (length (slots w1) + Z.to_nat count)) as ->.
  { rewrite (len_eq s1 _ G1), (head_pos s1 _ G1). pose proof (pos_range (size s1) (tail s1) (length (slots w1)) ltac:(lia)).
    rewrite u16_small by lia. unfold pos. rewrite Zplus_mod_idemp_l. f_equal. lia. }
  eexists. split; [done|]. eapply Rep_set; [exact R1| |by eexists _, _, _]. rewrite inc_put.
  apply (holds_append s1 (slots w1)); [done|lia].
Qed.

(** ** A packet of the past *)

(** The place of the packet, and the window extended to it. *)
Lemma extend_spec count s w : Rep s w -> slots w <> [] -> 2 <= count < capacity w ->
  let n := Z.to_nat count in
  let W := replicate (n - length (slots w)) empty_slot ++ slots w in
  let index := if count <=? head s then u16 (head s - count) else u16 (u16 (head s + len s) - count) in
  let t := if tail s <? head s then if (index <? tail s) || (head s <? index) then index else tail s
           else if (index <? tail s) && (head s <? index) then index else tail s in
  holds (set_tail t s) W /\ index = pos (size s) t (length (slots w) - n) /\
  ((n <= length (slots w))%nat -> t = tail s).
Proof.
  intros R Hne Hc n W index t. pose proof (R_ring _ _ R) as G. pose proof (size_range s _ G) as Hs.
  pose proof (window_size s _ G) as HW. destruct (cap_capacity s w R) as [_ Ec].
  pose proof (g_tail _ _ _ _ _ G) as Ht. fold (size s) in Ht. pose proof (head_pos s _ G) as Hh.
  assert (0 < Z.of_nat (length (slots w))) as HL by (destruct (slots w); [done|simpl; lia]).
  rewrite pos_eq in Hh by lia.
  assert (index = if count <=? head s then head s - count else head s + size s - count) as Ei.
  { unfold index. rewrite (len_eq s _ G).
    destruct (Z.leb_spec count (head s)), (Z.ltb_spec (tail s + Z.of_nat (length (slots w))) (size s));
      rewrite ?(u16_small (_ + size s)) by lia; rewrite u16_small; lia. }
  clearbody index.
  assert ((n <= length (slots w))%nat -> t = tail s /\ index = pos (size s) (tail s) (length (slots w) - n)) as Hin.
  { intros Hn. unfold t. rewrite pos_eq by lia. subst index n.
    destruct (Z.leb_spec count (head s)), (Z.ltb_spec (tail s + Z.of_nat (length (slots w))) (size s)),
      (Z.ltb_spec (tail s) (head s)); try lia;
    repeat match goal with |- context [?a <? ?b] => destruct (Z.ltb_spec a b) end; simpl; lia. }
  assert ((length (slots w) < n)%nat -> t = index /\ 0 <= index < size s /\ tail s = pos (size s) index (n - length (slots w))) as Hout.
  { intros Hn. assert (0 <= index < size s) as Hi.
    { destruct (Z.leb_spec count (head s)), (Z.ltb_spec (tail s + Z.of_nat (length (slots w))) (size s)); lia. }
    rewrite pos_eq by lia. unfold t.
    subst n. destruct (Z.leb_spec count (head s)), (Z.ltb_spec (tail s + Z.of_nat (length (slots w))) (size s)),
      (Z.ltb_spec (tail s) (head s)); try lia;
    repeat match goal with |- context [?a <? ?b] => destruct (Z.ltb_spec a b) end; simpl; lia. }
  clearbody t. destruct (decide (n <= length (slots w))%nat) as [Hn|Hn].
  - destruct (Hin Hn) as [-> E]. split_and!; try done. unfold W. replace (n - _)%nat with 0%nat by lia. by destruct s.
  - destruct (Hout ltac:(lia)) as (-> & Hi & Et). split_and!; [|rewrite pos_eq by lia|lia].
    + unfold W. apply holds_extend; try done. lia.
    + replace (length (slots w) - n)%nat with 0%nat by lia. destruct (Z.ltb_spec (index + Z.of_nat 0) (size s)); lia.
Qed.

Lemma link_prev_spec p i s W : holds s W -> (i < length W)%nat ->
  exists s', link_prev p (pos (size s) (tail s) i) s = Some (fst (w_link_prev p i W), s') /\
    holds s' (snd (w_link_prev p i W)) /\ length (snd (w_link_prev p i W)) = length W /\
    size s' = size s /\ tail s' = tail s /\ exists l h t, s' = set_ring l h t s.
Proof.
  intros G Hi. pose proof (size_range s _ G) as Hs. pose proof (window_size s _ G) as HW.
  assert (exists l h t, s = set_ring l h t s) as Hsh by (by exists (packets s), (head s), (tail s); destruct s).
  unfold link_prev. destruct i as [|i]; cbn [w_link_prev].
  { rewrite <- (tail_pos s _ G), Z.eqb_refl. by exists s. }
  destruct (Z.eqb_spec (pos (size s) (tail s) (S i)) (tail s)) as [E|_].
  { rewrite (tail_pos s _ G) in E at 2. apply pos_inj in E; try done; try lia. apply G. }
  cbn [negb]. cbv zeta. rewrite (dec_pos s _ G), (slot_pos s _ G), bind_some by lia.
  destruct (packet (W !!! i)) as [q|]; [|by exists s]. destruct (isStart p || _); [|by exists s].
  eexists. split; [done|]. cbn [fst snd]. split_and!; try done.
  - apply holds_upd; [done|lia].
  - by rewrite length_alter.
  - unfold size. simpl. by rewrite length_alter.
  - by eexists _, _, _.
Qed.

Lemma link_next_spec p i s W : holds s W -> (S i < length W)%nat ->
  exists s', link_next p (pos (size s) (tail s) i) s = Some (fst (w_link_next p i W), s') /\
    holds s' (snd (w_link_next p i W)) /\ length (snd (w_link_next p i W)) = length W /\
    size s' = size s /\ tail s' = tail s /\ exists l h t, s' = set_ring l h t s.
Proof.
  intros G Hi. pose proof (size_range s _ G) as Hs. pose proof (window_size s _ G) as HW.
  assert (exists l h t, s = set_ring l h t s) as Hsh by (by exists (packets s), (head s), (tail s); destruct s).
  unfold link_next, w_link_next. cbv zeta. rewrite (inc_pos s _ G), (slot_pos s _ G), bind_some by lia.
  destruct (packet (W !!! S i)) as [q|]; [|by exists s]. destruct (isEnd p || _); [|by exists s].
  eexists. split; [done|]. cbn [fst snd]. split_and!; try done.
  - apply holds_upd; [done|lia].
  - by rewrite length_alter.
  - unfold size. simpl. by rewrite length_alter.
  - by eexists _, _, _.
Qed.

Lemma past_spec p count s w : Rep s w -> slots w <> [] -> 2 <= count ->
  exists s', push_past p count s = Some s' /\ Rep s' (w_past p count w).
Proof.
  intros R Hne Hc. unfold push_past, w_past. destruct (cap_capacity s w R) as [Ec _]. rewrite Ec.
  destruct (Z.leb_spec (capacity w) count) as [Hb|Hb]; [by exists s|]. cbv zeta.
  destruct (extend_spec count s w R Hne ltac:(lia)) as (G & Ei & Ht).
  set (index := if count <=? head s then _ else _) in *.
  set (W := replicate _ _ ++ _) in *. set (i := (length (slots w) - Z.to_nat count)%nat) in *.
  set (t := if tail s <? head s then if (index <? tail s) || (head s <? index) then _ else _ else _) in *.
  assert ((if tail s <? head s then if (index <? tail s) || (head s <? index) then set_tail index s else s
           else if (index <? tail s) && (head s <? index) then set_tail index s else s) = set_tail t s) as ->.
  { unfold t. destruct s. by repeat case_match. }
  set (s1 := set_tail t s) in *. assert (index = pos (size s1) (tail s1) i) as Ei1 by done. clear Ei. clearbody t index. subst index.
  assert (0 < length (slots w))%nat as HL by (destruct (slots w); [done|simpl; lia]).
  assert (S i < length W)%nat as Hi by (unfold W, i; rewrite length_app, length_replicate; lia).
  pose proof (window_size _ _ G) as HW. unfold present. rewrite (slot_pos s1 _ G) by lia. cbn [fmap option_fmap option_map].
  rewrite bind_some. destruct (packet (W !!! i)) as [q|] eqn:Hq.
  - rewrite bool_decide_true by eauto. eexists. split; [done|].
    assert (t = tail s) as ->.
    { apply Ht. destruct (decide (Z.to_nat count <= length (slots w))%nat) as [|Hn]; [done|].
      replace i with 0%nat in Hq by (unfold i; lia). unfold W in Hq.
      rewrite lookup_total_app_l, lookup_total_replicate_2 in Hq by (rewrite ?length_replicate; lia). done. }
    destruct R. split; simpl; try done; try congruence.
  - rewrite bool_decide_false by (by intros [? ?]).
    destruct (link_prev_spec p i s1 W G ltac:(lia)) as (s2 & -> & G2 & HL2 & Hs2 & Ht2 & l2 & h2 & t2 & E2).
    rewrite bind_some. cbn [fst snd]. unfold insert_slot. destruct (w_link_prev p i W) as [st W2]. cbn [fst snd] in *.
    destruct (link_next_spec p i s2 W2 G2 ltac:(lia)) as (s3 & E3' & G3 & HL3 & Hs3 & Ht3 & l3 & h3 & t3 & E3).
    rewrite Hs2, Ht2 in E3'. rewrite E3', bind_some. cbn [fst snd]. destruct (w_link_next p i W2) as [en W3]. cbn [fst snd] in *.
    eexists. split; [done|]. eapply Rep_set; [exact R| |subst s3 s2; by eexists _, _, _].
    rewrite <- Hs2, <- Ht2, <- Hs3, <- Ht3. apply holds_set; [done|lia].
Qed.

(** ** Push *)

Lemma w_accept_slots p w : slots (snd (w_accept p w)) = slots w.
Proof. unfold w_accept. by repeat case_match. Qed.

Lemma w_clear_slots w : slots (w_clear w) = [].
Proof. unfold w_clear. by repeat case_match. Qed.

Lemma push_empty_spec again p s w : Rep s w -> slots w = [] ->
  exists s', Push_with again p s = Some s' /\
    Rep s' (let '(go, w) := w_accept p w in if go then w_first p w else w).
Proof.
  intros R HW. unfold Push_with.
  destruct (accept_seqno_spec p s w R) as (s1 & -> & R1); [rewrite HW; apply slots_ok_nil|]. rewrite bind_some.
  pose proof (w_accept_slots p w) as Hsl. rewrite HW in Hsl. destruct (w_accept p w) as [go w1]. cbn [fst snd] in *.
  destruct go; cbn [negb]; [|by exists s1]. rewrite (head_tail _ _ R1), Hsl. eexists. split; [done|].
  by apply first_spec.
Qed.

Lemma Push_spec p s w : Rep s w -> slots_ok (slots w) ->
  exists s', Push p s = Some s' /\ Rep s' (w_push p w).
Proof.
  intros R O. unfold Push, w_push. destruct (decide (slots w = [])) as [HW|HW].
  { destruct (push_empty_spec (Push_with (fun _ => None) p) p s w R HW) as (s' & E & R'). exists s'. split; [done|].
    pose proof (w_accept_slots p w) as Hsl. destruct (w_accept p w) as [go w1]. cbn [fst snd] in *.
    destruct go; cbn [negb]; [|done]. unfold newest. by rewrite Hsl, HW. }
  unfold Push_with at 1. destruct (accept_seqno_spec p s w R O) as (s1 & -> & R1). rewrite bind_some.
  pose proof (w_accept_slots p w) as Hsl. destruct (w_accept p w) as [go w1]. cbn [fst snd] in *.
  destruct go; cbn [negb]; [|by exists s1]. rewrite <- Hsl in O, HW.
  destruct (newest_ok w1 O HW) as [q Hq]. rewrite Hq. rewrite (head_tail _ _ R1).
  destruct (slots w1) as [|x0 W0] eqn:EW; [done|]. rewrite <- EW in *. clear x0 W0 EW.
  assert (length (slots w1) = S (length (slots w1) - 1)) as HL by (destruct (slots w1); [done|simpl; lia]).
  assert (dec s1 (head s1) = pos (size s1) (tail s1) (length (slots w1) - 1)) as Ed.
  { pose proof (window_size _ _ (R_ring _ _ R1)). rewrite (head_pos s1 _ (R_ring _ _ R1)). rewrite HL at 1.
    apply (dec_pos s1 _ (R_ring _ _ R1)). lia. }
  cbv zeta. unfold pkt_at at 1. rewrite Ed, (w_slot s1 w1 _ R1), bind_some by lia. unfold newest in Hq. rewrite Hq, bind_some.
  rewrite <- Ed. destruct (_ =? _); [by apply sequential_spec|].
  pose proof (forward_case (u16 (SequenceNumber p - SequenceNumber q)) (u16_range _)) as Hf. rewrite Hf.
  destruct (Z.ltb_spec (u16 (SequenceNumber p - SequenceNumber q)) 32768).
  - apply future_spec; try done; [apply u16_range|]. intros s2 R2. apply push_empty_spec; [done|]. apply w_clear_slots.
  - apply past_spec; try done. unfold u16 in *. Z.to_euclidean_division_equations. lia.
Qed.

End Push.
