(* ===== verification/SampleInvariant.v ===== *)
(** The invariant of the sample builder's window, which the source's [check]
    states: sequence numbers belong to places, neighbours agree on where frames
    end, and the last sequence number given up lies before the first packet. *)

From S2P Require Import Prelude SampleBuilder SampleRing SampleWindow SamplePush.

#[local] Open Scope list_scope.
#[local] Open Scope Z_scope.

(** Arithmetic of sequence numbers. *)
Ltac seqno := unfold u16 in *; Z.to_euclidean_division_equations; lia.

Record proper {D} (w : window D) : Prop := {
  P_slots : slots_ok (slots w);
  P_late : 2 <= late w <= 16383;
  P_size : Z.of_nat (length (slots w)) <= 2 * late w;
  P_recent l : recent w = Some l -> 0 <= l < 65536;
  P_before l q : recent w = Some l -> packet (slots w !!! 0%nat) = Some q ->
    0 < u16 (SequenceNumber q - l) < 32768;
}.

(** * Slots *)

Lemma total_insert (W : list slot) i j x :
  <[i := x]> W !!! j = if decide (i = j /\ (j < length W)%nat) then x else W !!! j.
Proof.
  case_decide as H; [destruct H as [-> H]; by apply list_lookup_total_insert_eq|].
  destruct (decide (i = j)) as [->|Hne]; [|by apply list_lookup_total_insert_ne].
  rewrite !total_out; rewrite ?length_insert; try done; lia.
Qed.

Lemma total_alter (W : list slot) f i j :
  alter f i W !!! j = if decide (i = j /\ (j < length W)%nat) then f (W !!! j) else W !!! j.
Proof.
  rewrite !list_lookup_total_alt. case_decide as H.
  - destruct H as [-> H]. rewrite list_lookup_alter_eq. destruct (lookup_lt_is_Some_2 _ _ H) as [x ->]. done.
  - destruct (decide (i = j)) as [->|Hne]; [|by rewrite list_lookup_alter_ne].
    rewrite list_lookup_alter_eq. destruct (W !! j) eqn:E; [|done]. apply lookup_lt_Some in E. tauto.
Qed.

Lemma total_app (W W' : list slot) j :
  (W ++ W') !!! j = if decide (j < length W)%nat then W !!! j else W' !!! (j - length W)%nat.
Proof. case_decide; [by apply lookup_total_app_l|]. apply lookup_total_app_r. lia. Qed.

Lemma total_gap k j : replicate k empty_slot !!! j = empty_slot.
Proof.
  destruct (decide (j < k)%nat); [by apply lookup_total_replicate_2|]. apply total_out. rewrite length_replicate. lia.
Qed.

Lemma in_window (W : list slot) i p : packet (W !!! i) = Some p -> (i < length W)%nat.
Proof. intros H. destruct (decide (i < length W)%nat); [done|]. rewrite total_out in H by lia. done. Qed.

Lemma elem_held W p : p ∈ held W <-> exists i, packet (W !!! i) = Some p.
Proof.
  unfold held. rewrite list_elem_of_omap. split.
  - intros (x & Hx & Hp). apply list_elem_of_lookup in Hx as [i Hi]. exists i. by rewrite list_lookup_total_alt, Hi.
  - intros [i Hp]. exists (W !!! i). split; [|done]. apply in_window in Hp as Hi.
    apply list_elem_of_lookup. exists i. by apply list_lookup_lookup_total_lt.
Qed.

Lemma held_app W W' : held (W ++ W') = held W ++ held W'.
Proof. apply omap_app. Qed.

Lemma last_held W : slots_ok W -> W <> [] -> last (held W) = packet (W !!! (length W - 1)%nat).
Proof.
  intros O Hne. destruct (o_last _ O) as [|[p Hp]]; [done|]. rewrite Hp.
  destruct W as [|x W _] using rev_ind; [done|]. rewrite length_app in Hp. simpl in Hp.
  rewrite total_app in Hp. rewrite decide_False in Hp by lia.
  replace (length W + 1 - 1 - length W)%nat with 0%nat in Hp by lia. simpl in Hp.
  rewrite held_app. simpl. rewrite Hp. apply last_snoc.
Qed.

(** Differences of sequence numbers are differences of places. *)
Lemma seq_places W i j p q : slots_ok W -> packet (W !!! i) = Some p -> packet (W !!! j) = Some q ->
  u16 (SequenceNumber q - SequenceNumber p) = u16 (Z.of_nat j - Z.of_nat i).
Proof.
  intros O Hp Hq. destruct (o_seq _ O) as (base & _ & Hb). rewrite (Hb _ _ Hp), (Hb _ _ Hq).
  unfold u16. rewrite <- Zminus_mod. f_equal. lia.
Qed.

Lemma seq_range W i p : slots_ok W -> packet (W !!! i) = Some p -> 0 <= SequenceNumber p < 65536.
Proof. intros O Hp. destruct (o_seq _ O) as (base & _ & Hb). rewrite (Hb _ _ Hp). apply u16_range. Qed.

(** The sequence number of a packet [d] places away. *)
Lemma seq_at W i p n d : slots_ok W -> packet (W !!! i) = Some p -> n = u16 (SequenceNumber p + d) ->
  exists base, 0 <= base < 65536 /\ n = u16 (base + (Z.of_nat i + d)) /\
    forall j q, packet (W !!! j) = Some q -> SequenceNumber q = u16 (base + Z.of_nat j).
Proof.
  intros O Hp ->. destruct (o_seq _ O) as (base & Hb & Hs). exists base. split; [done|]. split; [|done].
  rewrite (Hs _ _ Hp). unfold u16. rewrite Zplus_mod_idemp_l. f_equal. lia.
Qed.

Lemma slots_ok_one st en p : 0 <= SequenceNumber p < 65536 -> slots_ok [mk_slot st en p].
Proof.
  intros Hp. split.
  - right. by exists p.
  - right. by exists p.
  - intros [|i]; [done|]. intros _. apply total_out. simpl. lia.
  - exists (SequenceNumber p). split; [done|]. intros [|i] q; simpl.
    + intros [= <-]. rewrite u16_small; lia.
    + intros H. apply (in_window [] i) in H. simpl in H. lia.
  - intros i q q' _ H. apply in_window in H. simpl in H. lia.
Qed.

(** ** Appending *)

(** Appending behind a gap, or without one when the newest slot agrees. *)
Lemma slots_ok_app W k x p q : slots_ok W -> packet (W !!! (length W - 1)%nat) = Some q ->
  packet x = Some p -> SequenceNumber p = u16 (SequenceNumber q + Z.of_nat (k + 1)) ->
  (k = 0%nat -> end_ (W !!! (length W - 1)%nat) = start x /\
     (Timestamp q <> Timestamp p -> start x = true)) ->
  slots_ok (W ++ replicate k empty_slot ++ [x]).
Proof.
  intros O Hq Hx Hseq Hl. pose proof (in_window _ _ _ Hq) as HL.
  destruct (seq_at W _ q _ _ O Hq Hseq) as (base & Hb & Hp & Hs).
  assert (forall j, (W ++ replicate k empty_slot ++ [x]) !!! j =
    if decide (j < length W)%nat then W !!! j else if decide (j = length W + k)%nat then x else empty_slot) as Hlk.
  { intros j. rewrite total_app. repeat case_decide; try done; rewrite total_app, length_replicate; case_decide; try lia.
    - by replace (j - length W - k)%nat with 0%nat by lia.
    - apply total_gap.
    - apply total_out. simpl. lia. }
  split.
  - right. rewrite Hlk, decide_True by lia. destruct (o_first _ O) as [->|]; [simpl in HL; lia|done].
  - right. rewrite Hlk, !length_app, length_replicate. simpl. rewrite decide_False, decide_True by lia. eauto.
  - intros j. rewrite Hlk. repeat case_decide; [apply (o_empty _ O)|by rewrite Hx|done].
  - exists base. split; [done|]. intros j p'. rewrite Hlk. repeat case_decide; [apply Hs|rewrite Hx|done].
    intros [= <-]. rewrite Hp. f_equal. lia.
  - intros j p1 p2. rewrite !Hlk. destruct (decide (j < length W)%nat), (decide (S j < length W)%nat); try lia.
    + apply (o_link _ O).
    + intros H1. case_decide as E; [|done]. rewrite Hx. intros [= <-]. replace j with (length W - 1)%nat in * by lia.
      rewrite Hq in H1. injection H1 as <-. destruct Hl as [Hl1 Hl2]; [lia|]. rewrite Hl1. auto.
    + case_decide; [|done]. rewrite decide_False by lia. done.
Qed.

Lemma alter_end_ok W : slots_ok W -> slots_ok (alter set_end (length W - 1)%nat W).
Proof.
  intros O. destruct (decide (W = [])) as [->|Hne]; [done|].
  assert (0 < length W)%nat by (destruct W; [done|simpl; lia]). assert (forall i, packet (alter set_end (length W - 1)%nat W !!! i) = packet (W !!! i)) as Hp.
  { intros i. rewrite total_alter. by case_decide. }
  destruct O as [O1 O2 O3 O4 O5]. split; rewrite ?Hp, ?length_alter.
  - by right; destruct O1.
  - by right; destruct O2.
  - intros i. rewrite Hp, total_alter. case_decide as E; [|apply O3]. destruct E as [<- _].
    destruct O2 as [|[p E]]; [done|]. by rewrite E.
  - destruct O4 as (base & Hb & Hs). exists base. split; [done|]. intros i p. rewrite Hp. apply Hs.
  - intros i p q. rewrite !Hp, !total_alter. intros H1 H2. apply in_window in H2 as Hi.
    rewrite (decide_False (P := _ = i /\ _)) by lia.
    assert (forall b (y : slot), start (if b : bool then set_end y else y) = start y) as Hst by (by intros []).
    case_decide; by apply O5.
Qed.

Section Invariant.
Context {D : Type} {DP : Depacketizer D}.
Implicit Types (w : window D) (W : list slot).

(** ** Inserting *)

(** What [insert_slot] does to each place. *)
Lemma insert_lookup p i W j : (i < length W)%nat -> packet (W !!! i) = None ->
  let starts := match i with O => false | S k => match packet (W !!! k) with
    Some q => isStart p || negb (Timestamp q =? Timestamp p) | None => false end end in
  let ends := match packet (W !!! S i) with
    Some q => isEnd p || negb (Timestamp q =? Timestamp p) | None => false end in
  let st := match i with O => isStart p | S k => match packet (W !!! k) with
    Some q => starts || end_ (W !!! k) | None => isStart p end end in
  let en := match packet (W !!! S i) with Some q => ends || start (W !!! S i) | None => isEnd p end in
  insert_slot p i W !!! j =
    if decide (j = i) then mk_slot st en p
    else if decide (S j = i) then if starts then set_end (W !!! j) else W !!! j
    else if decide (j = S i) then if ends then set_start (W !!! j) else W !!! j
    else W !!! j.
Proof.
  intros Hi Hn starts ends st en. unfold insert_slot.
  assert (w_link_prev p i W = (st, if starts then alter set_end (i - 1)%nat W else W)) as ->.
  { unfold w_link_prev, st, starts. destruct i as [|k]; [done|]. destruct (packet (W !!! k)) as [q|]; [|done].
    simpl. rewrite Nat.sub_0_r. by destruct (isStart p || _). }
  set (W1 := if starts then _ else _).
  assert (forall k, W1 !!! k = if decide (S k = i) then if starts then set_end (W !!! k) else W !!! k else W !!! k) as H1.
  { intros k. unfold W1. destruct starts eqn:Es; [|by case_decide]. rewrite total_alter.
    assert (i <> 0%nat) as Hi0 by (intros ->; done). repeat case_decide; try done; lia. }
  assert (W1 !!! S i = W !!! S i) as H1i by (rewrite H1, decide_False by lia; done).
  assert (length W1 = length W) as HL by (unfold W1; destruct starts; [apply length_alter|done]).
  clearbody W1 starts st.
  assert (w_link_next p i W1 = (en, if ends then alter set_start (S i) W1 else W1)) as ->.
  { unfold w_link_next, en, ends. rewrite H1i. destruct (packet (W !!! S i)) as [q|]; [|done]. by destruct (isEnd p || _). }
  rewrite total_insert. destruct (decide (j = i)) as [->|Hj].
  { rewrite decide_True; [done|]. split; [done|]. destruct ends; rewrite ?length_alter; lia. }
  rewrite decide_False by lia. destruct ends eqn:Ee; [rewrite total_alter|]; rewrite !H1.
  - destruct (decide (j = S i)) as [->|Hj'].
    + rewrite decide_True, !decide_False; [done|lia..|]. split; [done|]. rewrite HL. unfold ends in Ee.
      destruct (packet (W !!! S i)) as [q|] eqn:Hq; [by apply in_window in Hq|done].
    + rewrite decide_False by (intros [E _]; congruence). done.
  - by repeat case_decide.
Qed.

Lemma insert_length p i W : length (insert_slot p i W) = length W.
Proof.
  unfold insert_slot, w_link_prev, w_link_next. repeat case_match; simplify_eq; by rewrite length_insert, ?length_alter.
Qed.

Lemma insert_packet p i W j : (i < length W)%nat -> packet (W !!! i) = None ->
  packet (insert_slot p i W !!! j) = if decide (j = i) then Some p else packet (W !!! j).
Proof. intros Hi Hn. rewrite insert_lookup by done. by repeat case_decide; repeat case_match. Qed.

Lemma slots_ok_insert p i W base : (S i < length W)%nat -> packet (W !!! i) = None ->
  (forall j, packet (W !!! j) = None -> W !!! j = empty_slot) ->
  (i = 0%nat \/ is_Some (packet (W !!! 0%nat))) -> is_Some (packet (W !!! (length W - 1)%nat)) ->
  0 <= base < 65536 -> SequenceNumber p = u16 (base + Z.of_nat i) ->
  (forall j q, packet (W !!! j) = Some q -> SequenceNumber q = u16 (base + Z.of_nat j)) ->
  (forall j q q', packet (W !!! j) = Some q -> packet (W !!! S j) = Some q' ->
     end_ (W !!! j) = start (W !!! S j) /\ (Timestamp q <> Timestamp q' -> end_ (W !!! j) = true)) ->
  slots_ok (insert_slot p i W).
Proof.
  intros Hi Hn He H0 HL Hb Hp Hs Hl.
  pose proof (fun j => insert_packet p i W j ltac:(lia) Hn) as Hpk. pose proof (insert_length p i W) as Hlen.
  split.
  - right. rewrite Hpk. case_decide; [eauto|]. by destruct H0.
  - right. rewrite Hpk, Hlen. rewrite decide_False by lia. done.
  - intros j. rewrite Hpk. case_decide; [done|]. intros Hj. rewrite insert_lookup, decide_False by (done || lia).
    destruct (decide (S j = i)) as [<-|]; [rewrite Hj; auto|]. destruct (decide (j = S i)) as [->|]; [rewrite Hj|]; auto.
  - exists base. split; [done|]. intros j q. rewrite Hpk. case_decide; [subst; by intros [= <-]|apply Hs].
  - intros j q q'. rewrite !Hpk. destruct (decide (j = i)) as [->|Hj].
    + rewrite decide_False by lia. intros [= <-] Hq. rewrite !insert_lookup by (done || lia).
      rewrite decide_True by done. rewrite !(decide_False (P := S i = i)) by lia.
      rewrite (decide_False (P := S (S i) = i)), (decide_True (P := S i = S i)) by lia. rewrite Hq. simpl.
      destruct (isEnd p) eqn:Een; simpl; [done|]. destruct (Z.eqb_spec (Timestamp q') (Timestamp p)) as [Et|Et]; simpl; [|done].
      split; [done|]. by intros [].
    + destruct (decide (S j = i)) as [Hj'|Hj'].
      * intros Hq [= <-]. rewrite !insert_lookup by (done || lia). rewrite (decide_False (P := j = i)) by done.
        rewrite !(decide_True (P := S j = i)) by done. subst i. rewrite Hq.
        destruct (isStart p) eqn:Est; simpl; [done|].
        destruct (Z.eqb_spec (Timestamp q) (Timestamp p)) as [Et|Et]; simpl; [|done]. split; [done|]. by intros [].
      * intros Hq Hq'. destruct (Hl j q q' Hq Hq') as [L1 L2]. rewrite !insert_lookup by (done || lia).
        rewrite (decide_False (P := j = i)), !(decide_False (P := S j = i)), (decide_False (P := S j = S i)) by lia.
        destruct (decide (j = S i)) as [Hs1|Hs1], (decide (S (S j) = i)) as [Hs2|Hs2]; try lia; try done.
        -- subst j. rewrite Hq. by destruct (isEnd p || _).
        -- subst i. rewrite Hq'. by destruct (isStart p || _).
Qed.
(** * Giving up packets *)

(** Cutting off a prefix, whose packets come before all others. *)
Lemma proper_cut w w' k p : proper w -> slots w' = drop k (slots w) ->
  ((length (slots w) <= k)%nat \/ is_Some (packet (slots w !!! k))) ->
  recent w' = Some (SequenceNumber p) -> p ∈ held (take k (slots w)) -> late w' = late w -> proper w'.
Proof.
  intros [O Hl Hsz Hr Hf] Hs Hk Hrec Hp Hlt. apply elem_held in Hp as [i Hi].
  pose proof (in_window _ _ _ Hi) as Hik. rewrite length_take in Hik.
  assert (packet (slots w !!! i) = Some p) as Hi'.
  { rewrite list_lookup_total_alt, lookup_take_lt in Hi by lia. by rewrite list_lookup_total_alt. }
  split; rewrite ?Hs, ?Hlt; try done.
  - by apply slots_ok_drop.
  - rewrite length_drop. lia.
  - intros l. rewrite Hrec. intros [= <-]. by apply (seq_range (slots w) i).
  - intros l q. rewrite Hrec, total_drop, Nat.add_0_r. intros [= <-] Hq. rewrite (seq_places (slots w) i k) by done.
    apply in_window in Hq. rewrite u16_small; lia.
Qed.

Lemma held_take_drop k W r : held W = r ++ held (drop k W) -> r = held (take k W).
Proof. intros H. rewrite <- (take_drop k W) in H at 1. rewrite held_app in H. by apply app_inv_tail in H. Qed.

(** What [w_drop] removes. *)
Lemma w_drop_cut w : slots_ok (slots w) -> slots w <> [] -> exists k p,
  slots (snd (w_drop w)) = drop k (slots w) /\
  ((length (slots w) <= k)%nat \/ is_Some (packet (slots w !!! k))) /\
  last (held (take k (slots w))) = Some p /\ recent (snd (w_drop w)) = Some (SequenceNumber p) /\
  freed (snd (w_drop w)) = freed w ++ held (take k (slots w)).
Proof.
  intros O Hne. unfold w_drop. destruct (slots w) as [|x W] eqn:EW; [done|].
  destruct (o_first _ O) as [|[p Hp]]; [done|]. simpl in Hp. rewrite Hp.
  pose proof (drop_frame_drop (Timestamp p) W) as Hd. destruct (drop_frame (Timestamp p) W) as [r W'].
  destruct Hd as [Hh (k & -> & Hk)]. simpl. exists (S k), (default p (last r)). simpl. rewrite Hp.
  change (omap packet (take k W)) with (held (take k W)). rewrite <- (held_take_drop k W r Hh).
  split_and!; try done; [destruct Hk; [left; lia|by right]|]. rewrite last_cons. by destruct (last r).
Qed.

Lemma last_elem {A} (l : list A) x : last l = Some x -> x ∈ l.
Proof. intros H. destruct l as [|y l _] using rev_ind; [done|]. rewrite last_snoc in H. set_solver. Qed.

Lemma proper_drop w : proper w -> proper (snd (w_drop w)).
Proof.
  intros P. destruct (decide (slots w = [])) as [He|Hne]; [unfold w_drop; by rewrite He|].
  destruct (w_drop_cut w (P_slots _ P) Hne) as (k & p & H1 & H2 & H3 & H4 & _).
  apply (proper_cut w _ k p); try done; [by apply last_elem|]. apply w_drop_late.
Qed.

Lemma proper_release give w : proper w -> proper (w_release give w).
Proof.
  intros P. unfold w_release. destruct (slots w) as [|x W] eqn:EW; [done|]. destruct (packet x) as [p|] eqn:Hp; [|done].
  destruct (trim_drop W) as (k & E & Hh & Hk). apply (proper_cut w _ (S k) p); simpl; rewrite ?EW; try done.
  - destruct Hk; [left; simpl; lia|by right].
  - simpl. rewrite Hp. apply elem_of_cons. by left.
Qed.

(** After the whole window is given up, the newest packet is the last one. *)
Lemma dropped_all w q : slots_ok (slots w) -> newest w = Some q -> slots (snd (w_drop w)) = [] ->
  recent (snd (w_drop w)) = Some (SequenceNumber q).
Proof.
  intros O Hq He. assert (slots w <> []) as Hne by (intros E; unfold newest in Hq; by rewrite E in Hq).
  destruct (w_drop_cut w O Hne) as (k & p & H1 & _ & H3 & -> & _). rewrite He in H1. symmetry in H1.
  assert (length (slots w) <= k)%nat by (apply (f_equal length) in H1; rewrite length_drop in H1; simpl in H1; lia).
  rewrite take_ge, last_held in H3 by done. unfold newest in Hq. congruence.
Qed.

Lemma dropped_some w : slots_ok (slots w) -> slots (snd (w_drop w)) <> [] -> newest (snd (w_drop w)) = newest w.
Proof.
  intros O He. destruct (decide (slots w = [])) as [E|Hne]; [unfold w_drop; by rewrite E|].
  destruct (w_drop_cut w O Hne) as (k & p & H1 & _). unfold newest. rewrite H1, total_drop, length_drop.
  f_equal. f_equal. rewrite H1 in He. assert (0 < length (drop k (slots w)))%nat as HL; [destruct (drop k (slots w)); [done|simpl; lia]|].
  rewrite length_drop in HL. lia.
Qed.

Lemma w_clear_recent w q : slots_ok (slots w) -> newest w = Some q -> recent (w_clear w) = Some (SequenceNumber q).
Proof.
  intros O Hq. unfold w_clear. rewrite last_held; [|done|intros E; unfold newest in Hq; by rewrite E in Hq].
  unfold newest in Hq. by rewrite Hq.
Qed.

Lemma proper_empty w : slots w = [] -> 2 <= late w <= 16383 -> (forall l, recent w = Some l -> 0 <= l < 65536) -> proper w.
Proof. intros E Hl Hr. split; rewrite ?E; try done; [apply slots_ok_nil|simpl; lia]. Qed.

Lemma w_clear_late w : late (w_clear w) = late w.
Proof. unfold w_clear. by case_match. Qed.

Lemma proper_clear w : proper w -> proper (w_clear w).
Proof.
  intros P. apply proper_empty; [apply w_clear_slots|rewrite w_clear_late; apply P|].
  unfold w_clear. intros l. destruct (last (held (slots w))) as [p|] eqn:E; [|apply P].
  intros [= <-]. apply last_elem, elem_held in E as [i Hi]. by apply (seq_range (slots w) i); [apply P|].
Qed.

(** * Push keeps the invariant *)

(** The builder waits for [p]: it comes after the last one given up, or at
    least after the first one held. *)
Definition awaited (p : Packet) w : Prop := forall l, recent w = Some l ->
  0 < u16 (SequenceNumber p - l) < 32768 \/
  exists q, first w = Some q /\ 0 < u16 (SequenceNumber p - SequenceNumber q) < 32768.

Lemma accept_ok p w : proper w -> 0 <= SequenceNumber p < 65536 ->
  proper (snd (w_accept p w)) /\ (fst (w_accept p w) = true -> awaited p (snd (w_accept p w))).
Proof.
  intros P Hp. pose proof (P_late _ P) as Hl. unfold w_accept. destruct (recent w) as [l|] eqn:Er.
  2:{ split; [done|]. intros _ l. simpl. congruence. }
  pose proof (P_recent _ P l Er) as Hr. rewrite !forward_case by apply u16_range.
  destruct (Z.ltb_spec (u16 (l - SequenceNumber p)) 32768).
  { destruct (Z.ltb_spec (late w) (u16 (l - SequenceNumber p))); [|done]. split; [by destruct P|by intros _ n]. }
  destruct (Z.ltb_spec (u16 (u16 (SequenceNumber p - late w) - l)) 32768).
  2:{ split; [done|]. intros _ n. simpl. rewrite Er. intros [= <-]. left. seqno. }
  assert (forall n, 0 <= n < 65536 ->
    (forall q, first w = Some q -> 0 < u16 (SequenceNumber q - n) < 32768) -> proper (set_recent (Some n) w)) as Hset.
  { intros n Hn Hq. destruct P. split; simpl; try done; [by intros ? [= <-]|]. intros ? q [= <-]. apply Hq. }
  destruct (first w) as [q|] eqn:Hq.
  - pose proof (P_before _ P l q Er Hq) as Hb. pose proof (seq_range _ 0 q (P_slots _ P) Hq) as Hqr.
    rewrite forward_case by apply u16_range.
    destruct (Z.ltb_spec (u16 (u16 (SequenceNumber p - late w) - u16 (SequenceNumber q - 1))) 32768).
    + split; [apply Hset; [apply u16_range|]|].
      * intros q' [= <-]. seqno.
      * intros _ n [= <-]. right. exists q. split; [done|]. seqno.
    + split; [apply Hset; [apply u16_range|]|].
      * intros q' [= <-]. seqno.
      * intros _ n [= <-]. left. seqno.
  - split; [by apply Hset; [apply u16_range|]|]. intros _ n [= <-]. left. seqno.
Qed.

Lemma accept_late p w : late (snd (w_accept p w)) = late w.
Proof. unfold w_accept. by repeat case_match. Qed.

Lemma proper_first p w : proper w -> slots w = [] -> awaited p w -> 0 <= SequenceNumber p < 65536 -> proper (w_first p w).
Proof.
  intros P He Ha Hp. pose proof (P_late _ P). split; simpl; try apply P; try lia; [by apply slots_ok_one|].
  intros l q Hl [= <-]. destruct (Ha l Hl) as [|(q & Hq & _)]; [done|]. unfold first in Hq. by rewrite He in Hq.
Qed.

(** Slots appended to a window that is not empty. *)
Lemma proper_app W w : proper w -> slots_ok W -> Z.of_nat (length W) <= 2 * late w ->
  packet (W !!! 0%nat) = packet (slots w !!! 0%nat) -> proper (set_slots W w).
Proof. intros [] O Hl Hf. split; simpl; try done. by rewrite Hf. Qed.

Lemma proper_append p q w : proper w -> 0 <= SequenceNumber p < 65536 -> newest w = Some q ->
  SequenceNumber p = u16 (SequenceNumber q + 1) -> Z.of_nat (length (slots w)) < 2 * late w ->
  proper (set_slots (append_slot p (slots w)) w).
Proof.
  intros P Hp Hq Hs Hl. unfold append_slot. pose proof Hq as Hq'. unfold newest in Hq'. rewrite Hq'.
  set (i := (length (slots w) - 1)%nat) in *. set (st := end_ _ || _ || _).
  set (W := if st then _ else _).
  assert (slots_ok W) as OW by (unfold W; destruct st; [apply alter_end_ok|]; apply P).
  assert (length W = length (slots w)) as HL by (unfold W; destruct st; [apply length_alter|done]).
  assert (forall j, packet (W !!! j) = packet (slots w !!! j)) as Hpk.
  { intros j. unfold W. destruct st; [|done]. rewrite total_alter. by case_decide. }
  assert (end_ (W !!! i) = st) as Hend.
  { unfold W. destruct st eqn:Est.
    - rewrite total_alter, decide_True; [done|]. split; [done|]. by apply (in_window _ _ q).
    - unfold st in Est. destruct (end_ (slots w !!! i)); done. }
  apply proper_app; [done| | |].
  - apply (slots_ok_app W 0 _ p q); rewrite ?HL; fold i; rewrite ?Hpk; try done.
    intros _. split; [done|]. intros Ht. simpl. unfold st.
    destruct (Z.eqb_spec (Timestamp q) (Timestamp p)); [done|]. by rewrite orb_true_r.
  - rewrite length_app, HL. simpl. lia.
  - rewrite total_app, decide_True; [done|]. apply in_window in Hq'. lia.
Qed.

Lemma proper_sequential p q w : proper w -> 0 <= SequenceNumber p < 65536 -> newest w = Some q ->
  SequenceNumber p = u16 (SequenceNumber q + 1) -> proper (w_sequential p w).
Proof.
  intros P Hp Hq Hs. unfold w_sequential. pose proof (P_size _ P) as Hsz. pose proof (P_late _ P) as Hl. unfold capacity.
  destruct (Z.eqb_spec (Z.of_nat (length (slots w))) (2 * late w)) as [E|E]; [|by apply (proper_append p q); try done; lia].
  pose proof (proper_drop w P) as P'. pose proof (w_drop_late w) as Hl'.
  destruct (w_drop_shorter w (P_slots _ P)) as [_ Hlt]; [intros H; rewrite H in E; simpl in E; lia|].
  destruct (decide (slots (snd (w_drop w)) = [])) as [He|He].
  - unfold append_slot. rewrite He. simpl. apply (proper_first p (snd (w_drop w))); try done.
    intros l. rewrite (dropped_all w q) by (done || apply P). intros [= <-]. left.
    pose proof (seq_range (slots w) _ q (P_slots _ P) Hq). seqno.
  - apply (proper_append p q); try done; [|lia]. by rewrite dropped_some; [|apply P|].
Qed.

Lemma w_room_nil fuel count w : slots w = [] -> slots (snd (w_room fuel count w)) = [].
Proof. intros E. rewrite w_room_unfold. case_match; [|done]. unfold w_drop. by rewrite E. Qed.

Lemma room_ok count fuel : forall w, proper w -> (length (slots w) <= fuel)%nat ->
  let r := w_room fuel count w in
  proper (snd r) /\ late (snd r) = late w /\ (slots (snd r) <> [] -> newest (snd r) = newest w) /\
  (fst r = true -> Z.of_nat (length (slots (snd r))) + count + 1 < 2 * late w).
Proof.
  induction fuel as [|fuel IH]; intros w P Hf; pose proof (w_drop_shorter w (P_slots _ P)) as Hd; cbv zeta;
    rewrite w_room_unfold; unfold capacity;
    destruct (Z.leb_spec (2 * late w) (Z.of_nat (length (slots w)) + count + 1)); try by split_and!.
  all: destruct (decide (slots w = [])) as [E|E]; [unfold w_drop; rewrite E; by split_and!|destruct (Hd E) as [Hd1 Hd2]].
  { destruct (slots w); [done|simpl in Hf; lia]. }
  pose proof (proper_drop w P) as P1. pose proof (w_drop_late w) as Hl. pose proof (dropped_some w (P_slots _ P)) as Hn.
  destruct (w_drop w) as [[d ts] w1]; cbn in Hd1, Hd2, P1, Hl, Hn; subst d; cbn [negb].
  destruct (IH w1 P1 ltac:(lia)) as (H1 & H2 & H3 & H4). rewrite Hl in H2, H4. split_and!; try done.
  intros H5. rewrite (H3 H5). apply Hn. intros E1. by apply H5, w_room_nil.
Qed.

(** The window begins with a missing packet. *)
Definition front_missing w : bool :=
  match slots w with x :: _ => bool_decide (packet x = None) | [] => false end.

Lemma proper_front w : proper w -> front_missing w = false.
Proof.
  intros P. unfold front_missing. destruct (o_first _ (P_slots _ P)) as [->|[p Hp]]; [done|].
  destruct (slots w) as [|x W]; [done|]. simpl in Hp. by rewrite Hp.
Qed.

Lemma proper_future p q w : proper w -> 0 <= SequenceNumber p < 65536 -> newest w = Some q ->
  SequenceNumber p <> u16 (SequenceNumber q + 1) -> u16 (SequenceNumber p - SequenceNumber q) < 32768 ->
  let w' := w_future p (u16 (u16 (SequenceNumber p - SequenceNumber q) - 1)) w in
  front_missing w' = false -> proper w'.
Proof.
  intros P Hp Hq Hne Hf. pose proof (seq_range (slots w) _ q (P_slots _ P) Hq) as Hqr. pose proof (P_late _ P) as Hl.
  set (count := u16 (_ - 1)). unfold w_future, capacity. cbv zeta.
  destruct (Z.leb_spec (2 * late w) count) as [Hc|Hc].
  - intros _. destruct (accept_ok p (w_clear w) (proper_clear w P) Hp) as [P1 Ha].
    pose proof (w_accept_slots p (w_clear w)) as Hs. rewrite w_clear_slots in Hs.
    destruct (w_accept p (w_clear w)) as [[] w1]; [|done]. apply proper_first; auto.
  - destruct (room_ok count (length (slots w)) w P ltac:(done)) as (P1 & Hl1 & Hn & Hr).
    destruct (w_room (length (slots w)) count w) as [[] w1]; cbn [fst snd negb] in *; [|done].
    unfold front_missing. cbn [slots set_slots].
    destruct (slots w1) as [|x W] eqn:EW.
    { destruct (Z.to_nat count) eqn:Ec; [exfalso; unfold count in *; seqno|]. done. }
    rewrite <- EW in *. intros _. specialize (Hn ltac:(by rewrite EW)). specialize (Hr eq_refl). rewrite Hq in Hn.
    assert (0 < count) as Hc0 by (unfold count in *; seqno).
    apply proper_app; [done| | |].
    + apply (slots_ok_app (slots w1) (Z.to_nat count) _ p q); try done; [apply P1| |lia].
      rewrite Nat2Z.inj_add, Z2Nat.id by lia. unfold count in *. seqno.
    + rewrite !length_app, length_replicate. simpl. lia.
    + rewrite total_app, decide_True; [done|]. rewrite EW. simpl. lia.
Qed.

Lemma total_extend k W j : (replicate k empty_slot ++ W) !!! j =
  if decide (j < k)%nat then empty_slot else W !!! (j - k)%nat.
Proof. rewrite total_app, length_replicate. by rewrite total_gap. Qed.

Lemma slots_ok_extend p i k W base : slots_ok W -> W <> [] -> (i + 1 < k + length W)%nat ->
  packet ((replicate k empty_slot ++ W) !!! i) = None -> (i = 0%nat \/ k = 0%nat) ->
  SequenceNumber p = u16 (base + (Z.of_nat i - Z.of_nat k)) ->
  (forall j q, packet (W !!! j) = Some q -> SequenceNumber q = u16 (base + Z.of_nat j)) ->
  slots_ok (insert_slot p i (replicate k empty_slot ++ W)).
Proof.
  intros O Hne Hi Hd H0 Hp Hs. set (W' := replicate k empty_slot ++ W) in *.
  assert (forall j r, packet (W' !!! j) = Some r -> (k <= j)%nat /\ packet (W !!! (j - k)%nat) = Some r) as HW.
  { intros j r. unfold W'. rewrite total_extend. case_decide; [done|]. intros. split; [lia|done]. }
  apply (slots_ok_insert p i W' (u16 (base - Z.of_nat k))); try done.
  - unfold W'. rewrite length_app, length_replicate. lia.
  - intros j. unfold W'. rewrite total_extend. case_decide; [done|]. apply (o_empty _ O).
  - destruct H0 as [|Hk]; [by left|right]. unfold W'. rewrite total_extend, decide_False by lia.
    replace (0 - k)%nat with 0%nat by lia. by destruct (o_first _ O).
  - assert (0 < length W)%nat by (destruct W; [done|simpl; lia]).
    unfold W'. rewrite length_app, length_replicate, total_extend, decide_False by lia.
    replace (k + length W - 1 - k)%nat with (length W - 1)%nat by lia. by destruct (o_last _ O).
  - apply u16_range.
  - rewrite Hp. unfold u16. rewrite Zplus_mod_idemp_l. f_equal. lia.
  - intros j r Hr. apply HW in Hr as [Hj Hr]. rewrite (Hs _ _ Hr). unfold u16. rewrite Zplus_mod_idemp_l. f_equal. lia.
  - intros j r r' Hr Hr'. apply HW in Hr as [Hj Hr]. apply HW in Hr' as [_ Hr']. unfold W'. rewrite !total_extend, !decide_False by lia.
    replace (S j - k)%nat with (S (j - k)) in * by lia. by apply (o_link _ O).
Qed.

Lemma proper_past p q w : proper w -> 0 <= SequenceNumber p < 65536 -> newest w = Some q -> awaited p w ->
  32768 <= u16 (SequenceNumber p - SequenceNumber q) ->
  proper (w_past p (u16 (u16 (SequenceNumber q - SequenceNumber p) + 1)) w).
Proof.
  intros P Hp Hq Ha Hb. pose proof (seq_range (slots w) _ q (P_slots _ P) Hq) as Hqr. pose proof (P_late _ P) as Hl.
  set (count := u16 (_ + 1)). assert (2 <= count /\ SequenceNumber p = u16 (SequenceNumber q + (1 - count))) as [Hc Hs]
    by (unfold count; seqno).
  clearbody count. unfold w_past, capacity. destruct (Z.leb_spec (2 * late w) count) as [|Hcap]; [done|].
  set (k := (Z.to_nat count - length (slots w))%nat). set (W := replicate k empty_slot ++ slots w).
  set (i := (length (slots w) - Z.to_nat count)%nat). cbv zeta.
  destruct (packet (W !!! i)) as [d|] eqn:Hd; [destruct P; by split|].
  pose proof (in_window _ _ _ Hq) as HL. pose proof (P_slots _ P) as O.
  destruct (seq_at (slots w) _ q _ _ O Hq Hs) as (base & Hbase & Hps & Hss).
  assert (forall j r, packet (W !!! j) = Some r -> (k <= j)%nat /\ packet (slots w !!! (j - k)%nat) = Some r) as HW.
  { intros j r. unfold W. rewrite total_extend. case_decide; [done|]. intros. split; [lia|done]. }
  assert (i = 0%nat -> (0 < k)%nat) as Hik.
  { intros E. destruct (decide (k = 0%nat)) as [Ek|]; [|lia]. exfalso. unfold W in Hd. rewrite E, Ek in Hd. simpl in Hd.
    destruct (o_first _ O) as [E'|[z E']]; [rewrite E' in HL; simpl in HL; lia|congruence]. }
  assert (slots_ok (insert_slot p i W)) as OK.
  { apply (slots_ok_extend p _ _ _ base); try done; [by intros E; rewrite E in HL; simpl in HL; lia|unfold i, k in *; lia| |].
    - destruct (decide (i = 0%nat)); [by left|right; unfold i, k in *; lia].
    - rewrite Hps. f_equal. unfold i, k in *. lia. }
  assert (i < length W)%nat as HiW by (unfold W; rewrite length_app, length_replicate; unfold i, k in *; lia).
  split; simpl; try apply P; [done| |].
  - rewrite insert_length.
    unfold W. rewrite length_app, length_replicate. pose proof (P_size _ P). unfold k. lia.
  - intros l r Hlr. rewrite insert_packet by done. case_decide as E.
    + intros [= <-]. destruct (Ha l Hlr) as [|(f & Hf & Hlt)]; [done|exfalso].
      specialize (Hik (eq_sym E)). rewrite Hps, (Hss _ _ Hf) in Hlt. unfold i, k in *. seqno.
    + intros Hr. apply HW in Hr as [Hk Hr]. replace (0 - k)%nat with 0%nat in Hr by lia. by apply (P_before _ P).
Qed.

(** A push keeps the invariant unless it leaves the gap at the front. *)
Lemma proper_push p w : proper w -> 0 <= SequenceNumber p < 65536 ->
  front_missing (w_push p w) = false -> proper (w_push p w).
Proof.
  intros P Hp. unfold w_push. destruct (accept_ok p w P Hp) as [P1 Ha].
  destruct (w_accept p w) as [[] w1]; cbn [fst snd negb] in *; [|done]. specialize (Ha eq_refl).
  destruct (newest w1) as [q|] eqn:Hq.
  - rewrite forward_case by apply u16_range. destruct (Z.eqb_spec (SequenceNumber p) (u16 (SequenceNumber q + 1))).
    + intros _. by apply (proper_sequential p q).
    + destruct (Z.ltb_spec (u16 (SequenceNumber p - SequenceNumber q)) 32768).
      * by apply proper_future.
      * intros _. by apply proper_past.
  - intros _. apply proper_first; try done. unfold newest in Hq.
    destruct (o_last _ (P_slots _ P1)) as [|[z Hz]]; [done|congruence].
Qed.

End Invariant.
