(* ===== verification/SamplePop.v ===== *)
(** Taking frames out of the sample builder, on windows: what the pops and
    [check] do on a proper window, without a panic and within their fuel. *)

From S2P Require Import Prelude SampleBuilder SampleRing SampleWindow SamplePush SampleInvariant.

#[local] Open Scope list_scope.
#[local] Open Scope Z_scope.

Section Pop.
Context {D : Type} {DP : Depacketizer D}.
Implicit Types (s : SampleBuilder D) (w : window D) (W : list slot).

(** * Frames *)

Fixpoint w_take (n : nat) w : window D :=
  match n with O => w | S n => w_take n (w_release false w) end.

(** [popRtpPackets] on windows; [again] is the jump back. *)
Definition w_pop_body (force : bool) (again : window D -> option (list Packet) * Z * window D) w :=
  match first w, newest w with
  | Some p, Some q =>
      if negb (start (slots w !!! 0%nat)) then
        if force || (late w <? u16 (SequenceNumber q - SequenceNumber p)) then again (snd (w_drop w))
        else (None, 0, w)
      else if negb force && match recent w with Some l => negb (u16 (l + 1) =? SequenceNumber p) | None => false end
      then (None, 0, w)
      else match find_end (slots w) with
           | FoundMissing => if force then again (snd (w_drop w)) else (None, 0, w)
           | FoundNone => (None, 0, w)
           | FoundEnd n => (Some (held (take (S n) (slots w))), Timestamp p, w_take (S n) w)
           end
  | _, _ => (None, 0, w)
  end.

Fixpoint w_pop_loop (fuel : nat) (force : bool) w : option (list Packet) * Z * window D :=
  w_pop_body force (match fuel with O => fun w => (None, 0, w) | S fuel => w_pop_loop fuel force end) w.

Definition w_pop (force : bool) w := w_pop_loop (length (slots w)) force w.

(** The slots before the one found all hold a packet and belong to one frame. *)
Lemma find_end_found W n : slots_ok W -> find_end W = FoundEnd n ->
  end_ (W !!! n) = true /\ (n < length W)%nat /\
  forall i, (i <= n)%nat -> is_Some (packet (W !!! i)) /\ ((i < n)%nat -> end_ (W !!! i) = false).
Proof.
  intros O. pose proof (o_empty _ O) as He. clear O. revert n. induction W as [|x W IH]; intros n; simpl; [done|].
  destruct (end_ x) eqn:Ex.
  - intros [= <-]. split_and!; [done|lia|]. intros i Hi. replace i with 0%nat by lia. split; [|lia]. simpl.
    destruct (packet x) eqn:Hx; [eauto|]. specialize (He 0%nat Hx). simpl in He. by rewrite He in Ex.
  - destruct (packet x) as [p|] eqn:Hx; [|done]. destruct (find_end W) as [m| |] eqn:Hf; try done. intros [= <-].
    destruct (IH (fun i => He (S i)) m eq_refl) as (H1 & H2 & H3). split_and!; [done|lia|].
    intros [|i] Hi; simpl; [split; [rewrite Hx; eauto|done]|]. destruct (H3 i ltac:(lia)) as [H4 H5].
    split; [done|]. intros. apply H5. lia.
Qed.

(** ** The search *)

Lemma scan_spec s W fuel : holds s W -> forall i, (length W - i <= fuel)%nat -> (i <= length W)%nat ->
  scan fuel (pos (size s) (tail s) i) s =
    Some match find_end (drop i W) with
         | FoundEnd n => ScanEnd (pos (size s) (tail s) (i + n))
         | FoundMissing => ScanMissing
         | FoundNone => ScanHead
         end.
Proof.
  intros G. pose proof (window_size s _ G) as HW. pose proof (g_tail _ _ _ _ _ G) as Ht. fold (size s) in Ht.
  assert (forall i, (i <= length W)%nat -> (pos (size s) (tail s) i =? head s) = bool_decide (i = length W)) as Heq.
  { intros i Hi. rewrite (head_pos s _ G). case_bool_decide as E; [subst; by apply Z.eqb_refl|].
    apply Z.eqb_neq. intros E'. apply pos_inj in E'; lia. }
  induction fuel as [|fuel IH]; intros i Hf Hi; cbn [scan]; rewrite Heq by done; case_bool_decide as E.
  1, 3: by rewrite drop_ge by lia.
  - lia.
  - rewrite (slot_pos s _ G), bind_some by lia.
    destruct (lookup_lt_is_Some_2 W i ltac:(lia)) as [x Hx]. rewrite (drop_S _ x) by done. cbn [find_end].
    assert (W !!! i = x) as -> by (by rewrite list_lookup_total_alt, Hx).
    destruct (end_ x); [by rewrite Nat.add_0_r|]. destruct (packet x); [|done].
    rewrite (inc_pos s _ G), IH by lia. destruct (find_end (drop (S i) W)); try done. do 3 f_equal. lia.
Qed.

(** ** Taking the packets of a frame *)

Lemma trim_present W : is_Some (packet (W !!! 0%nat)) -> trim W = W.
Proof. intros [p Hp]. destruct W as [|x W]; [done|]. simpl in *. by rewrite Hp. Qed.

Lemma w_take_slots n : forall w, (forall i, (i < n)%nat -> is_Some (packet (slots w !!! i))) ->
  slots (w_take n w) = (if decide (n = 0%nat) then slots w else trim (drop n (slots w))) /\
  freed (w_take n w) = freed w /\ late (w_take n w) = late w /\ losses (w_take n w) = losses w /\
  stamp (w_take n w) = stamp w.
Proof.
  induction n as [|n IH]; intros w H; [done|]. cbn [w_take]. rewrite decide_False by done.
  destruct (H 0%nat ltac:(lia)) as [p Hp]. destruct (slots w) as [|x W] eqn:EW; [done|]. simpl in Hp.
  assert (w_release false w = forgo (trim W) p [] w) as ->.
  { unfold w_release. by rewrite EW, Hp. }
  destruct (IH (forgo (trim W) p [] w)) as (-> & -> & -> & -> & ->).
  { intros i Hi. simpl. rewrite trim_present; [apply (H (S i)); lia|apply (H 1%nat); lia]. }
  simpl. rewrite app_nil_r. split_and!; try done. case_decide as E; [by rewrite E|].
  rewrite (trim_present W); [done|]. apply (H 1%nat). lia.
Qed.

Lemma take_spec n : forall s w acc, Rep s w -> slots_ok (slots w) ->
  (forall i, (i < n)%nat -> is_Some (packet (slots w !!! i))) ->
  exists s', take_frame n acc s = Some (acc ++ held (take n (slots w)), s') /\ Rep s' (w_take n w).
Proof.
  induction n as [|n IH]; intros s w acc R O H; [exists s; simpl; by rewrite app_nil_r|].
  destruct (H 0%nat ltac:(lia)) as [p Hp]. cbn [take_frame w_take].
  destruct (slots w) as [|x W] eqn:EW; [done|]. unfold pkt_at.
  rewrite (slot_tail s _ (R_ring _ _ R)), EW, bind_some, Hp, bind_some.
  destruct (release_spec false s w R) as (s1 & -> & R1 & _); [by rewrite EW|by rewrite EW|].
  rewrite bind_some. cbn [snd]. simpl in Hp.
  assert (slots (w_release false w) = trim W) as E1 by (unfold w_release; by rewrite EW, Hp).
  destruct (IH s1 _ (acc ++ [p]) R1) as (s2 & -> & R2).
  - rewrite E1. by eapply slots_ok_tail.
  - intros i Hi. rewrite E1, trim_present; [apply (H (S i)); lia|apply (H 1%nat); lia].
  - exists s2. split; [|done]. do 2 f_equal. rewrite <- app_assoc. f_equal. cbn [take held omap list_omap]. rewrite Hp. simpl. f_equal.
    rewrite E1. destruct n; [done|]. rewrite trim_present; [done|]. apply (H 1%nat). lia.
Qed.

Lemma proper_take n : forall w, proper w -> proper (w_take n w).
Proof. induction n as [|n IH]; intros w P; [done|]. by apply IH, proper_release. Qed.

(** ** Popping *)

Lemma frame_count s W n : holds s W -> (n < length W)%nat ->
  let last := pos (size s) (tail s) n in
  (if last <? tail s then u16 (u16 (u16 (len s + last) - tail s) + 1) else u16 (u16 (last - tail s) + 1)) = Z.of_nat (S n).
Proof.
  intros G Hn last. pose proof (size_range s _ G) as Hs. pose proof (window_size s _ G) as HW.
  pose proof (g_tail _ _ _ _ _ G) as Ht. fold (size s) in Ht. unfold last. rewrite (len_eq s _ G), pos_eq by lia.
  destruct (Z.ltb_spec (tail s + Z.of_nat n) (size s)).
  - destruct (Z.ltb_spec (tail s + Z.of_nat n) (tail s)); [lia|]. rewrite (u16_small (_ - _)), u16_small; lia.
  - destruct (Z.ltb_spec (tail s + Z.of_nat n - size s) (tail s)); [|lia].
    rewrite (u16_small (size s + _)), (u16_small (_ - _)), u16_small; lia.
Qed.

Lemma newest_spec s w q : Rep s w -> newest w = Some q -> pkt_at s (dec s (head s)) = Some q.
Proof.
  intros R Hq. unfold newest in Hq. apply in_window in Hq as HL. pose proof (R_ring _ _ R) as G.
  pose proof (window_size _ _ G). unfold pkt_at.
  assert (dec s (head s) = pos (size s) (tail s) (length (slots w) - 1)) as ->.
  { rewrite (head_pos s _ G). replace (length (slots w)) with (S (length (slots w) - 1)) at 1 by lia.
    apply (dec_pos s _ G). lia. }
  by rewrite (w_slot s w _ R), bind_some by lia.
Qed.

Lemma not_empty w : proper w -> slots w <> [] -> exists p q, first w = Some p /\ newest w = Some q.
Proof.
  intros P Hne. destruct (first_ok w (P_slots _ P) Hne) as [p Hp]. destruct (newest_ok w (P_slots _ P) Hne) as [q Hq]. eauto.
Qed.

Lemma w_pop_empty fuel force w : slots w = [] -> w_pop_loop fuel force w = (None, 0, w).
Proof. intros E. destruct fuel; cbn [w_pop_loop]; unfold w_pop_body, first; by rewrite E. Qed.

Lemma pop_spec force f1 : forall f2 s w, Rep s w -> proper w -> (length (slots w) <= f1)%nat -> (length (slots w) <= f2)%nat ->
  let r := w_pop_loop f2 force w in
  (exists s', popRtpPackets_loop f1 force s = Some (fst r, s') /\ Rep s' (snd r)) /\ proper (snd r).
Proof.
  induction f1 as [|f1 IH]; intros f2 s w R P H1 H2; cbv zeta;
    (destruct (decide (slots w = [])) as [E|E];
     [rewrite w_pop_empty by done; split; [|done]; exists s; cbn [popRtpPackets_loop]; by rewrite (tail_head _ _ R), E|]).
  { destruct (slots w); [done|simpl in *; lia]. }
  destruct f2 as [|f2]; [destruct (slots w); [done|simpl in *; lia]|].
  destruct (not_empty w P E) as (p & q & Hp & Hq). cbn [popRtpPackets_loop w_pop_loop]. unfold w_pop_body. rewrite (tail_head _ _ R).
  destruct (slots w) as [|x0 W0] eqn:EW; [done|]. rewrite <- EW in *. clear x0 W0 EW.
  rewrite (slot_tail s _ (R_ring _ _ R)), bind_some. pose proof Hp as Hp'. unfold first in Hp'. rewrite Hp, Hq, Hp'.
  destruct (w_drop_shorter w (P_slots _ P) E) as [_ Hlt]. destruct (drop_spec s w R (P_slots _ P)) as (s1 & Hd & R1 & _).
  assert (let r := w_pop_loop f2 force (snd (w_drop w)) in
    (exists s', (r ← drop_ s; popRtpPackets_loop f1 force (snd r)) = Some (fst r, s') /\ Rep s' (snd r)) /\ proper (snd r)) as Hagain.
  { rewrite Hd, bind_some. apply IH; [done|by apply proper_drop|lia..]. }
  destruct (start (slots w !!! 0%nat)); cbn [negb].
  - rewrite !bind_some.
    assert ((negb force && lastSeqnoValid s && negb (u16 (lastSeqno s + 1) =? SequenceNumber p)) =
      (negb force && match recent w with Some l => negb (u16 (l + 1) =? SequenceNumber p) | None => false end)) as ->.
    { rewrite (R_recent _ _ R). by destruct force, (lastSeqnoValid s). }
    case_match; [split; [by exists s|done]|]. pose proof (scan_spec s _ (length (packets s)) (R_ring _ _ R) 0%nat) as Hsc.
    rewrite <- (tail_pos s _ (R_ring _ _ R)) in Hsc. change (drop 0 (slots w)) with (slots w) in Hsc.
    rewrite Hsc, bind_some by (pose proof (fuel_enough s w R); lia). pose proof (find_end_found (slots w)) as Hfe.
    destruct (find_end (slots w)) as [n| |].
    + destruct (Hfe n (P_slots _ P) eq_refl) as (_ & Hn & Hall). rewrite Nat.add_0_l, (frame_count s _ n (R_ring _ _ R) Hn), Nat2Z.id.
      destruct (take_spec (S n) s w [] R (P_slots _ P)) as (s2 & -> & R2); [intros; apply Hall; lia|].
      split; [by exists s2|by apply proper_take].
    + destruct force; [exact Hagain|]. split; [by exists s|done].
    + split; [by exists s|done].
  - rewrite (newest_spec s w q R Hq), !bind_some, (R_late _ _ R). destruct (_ || _); [exact Hagain|]. split; [by exists s|done].
Qed.

Lemma popRtpPackets_spec force s w : Rep s w -> proper w ->
  (exists s', popRtpPackets force s = Some (fst (w_pop force w), s') /\ Rep s' (snd (w_pop force w))) /\ proper (snd (w_pop force w)).
Proof. intros R P. apply pop_spec; try done. apply (fuel_enough s w R). Qed.

(** * Where packets go *)

(** From [w] to [w'] the packets [rel] at the front are released. *)
Definition releases w rel w' : Prop := freed w' = freed w ++ rel /\ held (slots w) = rel ++ held (slots w').

Lemma releases_refl w w' : freed w' = freed w -> held (slots w') = held (slots w) -> releases w [] w'.
Proof. intros H1 H2. split; [by rewrite app_nil_r|done]. Qed.

Lemma releases_trans w1 r1 w2 r2 w3 : releases w1 r1 w2 -> releases w2 r2 w3 -> releases w1 (r1 ++ r2) w3.
Proof. intros [H1 H2] [H3 H4]. split; [by rewrite H3, H1, app_assoc|by rewrite H2, H4, app_assoc]. Qed.

Lemma releases_drop w : slots_ok (slots w) -> exists rel, releases w rel (snd (w_drop w)) /\
  (slots w <> [] -> exists d, last rel = Some d /\ recent (snd (w_drop w)) = Some (SequenceNumber d)).
Proof.
  intros O. destruct (decide (slots w = [])) as [E|E].
  { exists []. split; [|done]. apply releases_refl; unfold w_drop; rewrite E; simpl; by rewrite ?E. }
  destruct (w_drop_cut w O E) as (k & d & H1 & _ & H3 & H4 & H5). exists (held (take k (slots w))). split; [|eauto].
  split; [done|]. by rewrite H1, <- held_app, take_drop.
Qed.

Lemma releases_room count fuel : forall w, proper w -> exists rel, releases w rel (snd (w_room fuel count w)).
Proof.
  induction fuel as [|fuel IH]; intros w P; rewrite w_room_unfold;
    (case_match; [|exists []; by apply releases_refl]);
    pose proof (proper_drop w P) as P1; destruct (releases_drop w (P_slots _ P)) as (r1 & H1 & _);
    destruct (w_drop w) as [[[] ts] w1]; cbn [fst snd negb] in *; eauto.
  destruct (IH w1 P1) as [r2 H2]. exists (r1 ++ r2). by eapply releases_trans.
Qed.

Lemma releases_clear w : slots_ok (slots w) -> releases w (held (slots w)) (w_clear w).
Proof.
  intros O. unfold w_clear. destruct (last (held (slots w))) as [d|] eqn:E.
  - split; simpl; [done|by rewrite app_nil_r].
  - apply last_None in E. rewrite E. apply releases_refl; [done|by rewrite E].
Qed.

Lemma held_packets W : held W = omap id (packet <$> W).
Proof. unfold held. by induction W as [|x W IH]; csimpl; [|rewrite IH; by destruct (packet x)]. Qed.

Lemma held_same W W' : length W = length W' -> (forall i, packet (W !!! i) = packet (W' !!! i)) -> held W = held W'.
Proof.
  intros HL H. rewrite !held_packets. f_equal. apply list_eq_same_length with (n := length W); rewrite ?length_fmap; try done.
  intros i x y Hi. rewrite !list_lookup_fmap. specialize (H i). rewrite !list_lookup_total_alt in H.
  destruct (lookup_lt_is_Some_2 W i ltac:(lia)) as [a Ha]. destruct (lookup_lt_is_Some_2 W' i ltac:(lia)) as [b Hb].
  rewrite Ha, Hb in *. simpl in *. congruence.
Qed.

Lemma held_gap k : held (replicate k empty_slot) = [].
Proof. by induction k. Qed.

Lemma held_append p W : slots_ok W -> held (append_slot p W) = held W ++ [p].
Proof.
  intros O. unfold append_slot. destruct (packet (W !!! (length W - 1)%nat)) as [q|] eqn:Hq.
  - rewrite held_app. f_equal. set (st := _ || _ || _). destruct st; [|done]. apply held_same; [apply length_alter|].
    intros i. rewrite total_alter. by case_decide.
  - destruct (o_last _ O) as [->|[z Hz]]; [done|congruence].
Qed.

Lemma held_insert p i W : (i < length W)%nat -> packet (W !!! i) = None -> held (insert_slot p i W) ≡ₚ p :: held W.
Proof.
  intros Hi Hn. transitivity (held (<[i := mk_slot false false p]> W)).
  - apply reflexive_eq, held_same; [by rewrite insert_length, length_insert|]. intros j.
    rewrite insert_packet, total_insert by done. repeat case_decide; try done; lia.
  - rewrite insert_take_drop by done. rewrite <- (take_drop i W) at 3.
    destruct (lookup_lt_is_Some_2 W i Hi) as [x Hx]. rewrite (drop_S _ x i) by done.
    rewrite list_lookup_total_alt, Hx in Hn. simpl in Hn. rewrite !held_app. simpl. rewrite Hn.
    by rewrite Permutation_middle.
Qed.

(** A packet that a push ignores: it comes after what was given up already,
    it has the number of the newest packet, or it is exactly as far ahead of it
    as the window is long, or further behind. *)
Definition w_ignored (p : Packet) w : bool :=
  match recent w with
  | Some l => forward (u16 (l - SequenceNumber p)) && (u16 (l - SequenceNumber p) <=? late w)
  | None => false
  end ||
  match newest w with
  | Some q =>
      let d := u16 (SequenceNumber p - SequenceNumber q) in
      (d =? 0) || (d =? 2 * late w) ||
      ((32768 <=? d) && (2 * late w <=? u16 (u16 (SequenceNumber q - SequenceNumber p) + 1)))
  | None => false
  end.

Lemma accept_verdict p w : fst (w_accept p w) =
  negb match recent w with
       | Some l => forward (u16 (l - SequenceNumber p)) && (u16 (l - SequenceNumber p) <=? late w)
       | None => false
       end.
Proof.
  unfold w_accept. destruct (recent w) as [l|]; [|done]. destruct (forward (u16 (l - SequenceNumber p))); [|by case_match].
  rewrite andb_true_l, Z.leb_antisym. by destruct (_ <? _).
Qed.

Lemma room_verdict count fuel : forall w, proper w -> (length (slots w) <= fuel)%nat -> 0 <= count ->
  fst (w_room fuel count w) = (count + 1 <? 2 * late w).
Proof.
  induction fuel as [|fuel IH]; intros w P Hf Hc; rewrite w_room_unfold; unfold capacity;
    (destruct (Z.leb_spec (2 * late w) (Z.of_nat (length (slots w)) + count + 1)); [|simpl; symmetry; apply Z.ltb_lt; lia]);
    (destruct (decide (slots w = [])) as [E|E];
     [unfold w_drop; rewrite E in *; simpl in *; symmetry; apply Z.ltb_ge; lia|]).
  { destruct (slots w); [done|simpl in Hf; lia]. }
  destruct (w_drop_shorter w (P_slots _ P) E) as [H1 H2]. pose proof (proper_drop w P) as P1. pose proof (w_drop_late w) as Hl.
  destruct (w_drop w) as [[d ts] w1]. cbn in H1, H2, P1, Hl. subst d. cbn [negb]. rewrite IH by (done || lia). by rewrite Hl.
Qed.

Lemma future_conserves p q w : proper w -> 0 <= SequenceNumber p < 65536 -> newest w = Some q ->
  let d := u16 (SequenceNumber p - SequenceNumber q) in
  d <> 1 -> d < 32768 -> exists rel,
  freed (w_future p (u16 (d - 1)) w) = freed w ++ rel /\
  held (slots (w_future p (u16 (d - 1)) w)) ++ rel ≡ₚ held (slots w) ++ (if (d =? 0) || (d =? 2 * late w) then [] else [p]).
Proof.
  intros P Hp Hq d Hd Hf. pose proof (P_slots _ P) as O. pose proof (P_late _ P) as Hl.
  pose proof (seq_range (slots w) _ q O Hq) as Hqr. pose proof (u16_range (SequenceNumber p - SequenceNumber q)) as Hdr. fold d in Hdr.
  assert (d = u16 (SequenceNumber p - SequenceNumber q)) as Ed by done. clearbody d.
  unfold w_future, capacity. destruct (Z.leb_spec (2 * late w) (u16 (d - 1))) as [Hb|Hb].
  - pose proof (releases_clear w O) as [H1 _]. exists (held (slots w)).
    assert (freed (snd (w_accept p (w_clear w))) = freed (w_clear w)) as Hf' by (unfold w_accept; by repeat case_match).
    pose proof (w_accept_slots p (w_clear w)) as Hs. rewrite w_clear_slots in Hs.
    pose proof (accept_verdict p (w_clear w)) as Hv. rewrite (w_clear_recent w q O Hq), w_clear_late, forward_case in Hv by apply u16_range.
    assert ((d =? 2 * late w) = false) as -> by (apply Z.eqb_neq; seqno). rewrite orb_false_r.
    destruct (Z.eqb_spec d 0) as [E|E].
    + assert (u16 (SequenceNumber q - SequenceNumber p) = 0) as E' by seqno. rewrite E' in Hv.
      rewrite (proj2 (Z.leb_le 0 (late w))) in Hv by lia.
      destruct (w_accept p (w_clear w)) as [go w2]; cbn [fst snd] in *. rewrite Hv. simpl. split; [congruence|].
      rewrite Hs, app_nil_r. done.
    + rewrite (proj2 (Z.ltb_ge (u16 (SequenceNumber q - SequenceNumber p)) 32768)) in Hv by seqno.
      destruct (w_accept p (w_clear w)) as [go w2]; cbn [fst snd] in *. rewrite Hv. simpl. split; [congruence|].
      solve_Permutation.
  - assert (d <> 0) as Hd0 by seqno. rewrite (u16_small (d - 1)) in * by lia.
    destruct (releases_room (d - 1) (length (slots w)) w P) as (rel & H1 & H2).
    pose proof (room_verdict (d - 1) (length (slots w)) w P ltac:(done) ltac:(lia)) as Hv.
    rewrite (proj2 (Z.eqb_neq d 0)) by done. simpl.
    destruct (w_room _ _ w) as [room w2]; cbn [fst snd] in *; exists rel.
    destruct (Z.eqb_spec d (2 * late w)) as [E|E].
    + rewrite (proj2 (Z.ltb_ge _ _)) in Hv by lia. subst room. simpl. split; [done|]. rewrite H2. solve_Permutation.
    + rewrite (proj2 (Z.ltb_lt _ _)) in Hv by lia. subst room. simpl. split; [done|].
      rewrite !held_app, held_gap, H2. simpl. solve_Permutation.
Qed.

(** What happens to a packet that is pushed: it is kept, or released at once
    as a duplicate, unless it is ignored. *)
Lemma w_push_conserves p w : proper w -> 0 <= SequenceNumber p < 65536 -> exists rel,
  freed (w_push p w) = freed w ++ rel /\
  held (slots (w_push p w)) ++ rel ≡ₚ held (slots w) ++ (if w_ignored p w then [] else [p]).
Proof.
  intros P Hp. unfold w_push, w_ignored. destruct (accept_ok p w P Hp) as [P1 _]. pose proof (accept_verdict p w) as Hv.
  assert (newest (snd (w_accept p w)) = newest w) as <- by (unfold newest; by rewrite w_accept_slots).
  assert (freed (snd (w_accept p w)) = freed w) as <- by (unfold w_accept; by repeat case_match).
  rewrite <- (w_accept_slots p w). set (b := match recent w with Some _ => _ | None => _ end) in *. clearbody b.
  rewrite <- (accept_late p w). destruct (w_accept p w) as [go w1]; cbn [fst snd] in *. subst go.
  destruct b; simpl; [exists []; by rewrite !app_nil_r|]. pose proof (P_slots _ P1) as O. pose proof (P_late _ P1) as Hl.
  destruct (newest w1) as [q|] eqn:Hq.
  2:{ exists []. rewrite !app_nil_r. split; [done|]. simpl. unfold newest in Hq.
      destruct (o_last _ O) as [->|[z Hz]]; [done|congruence]. }
  pose proof (seq_range (slots w1) _ q O Hq) as Hqr. rewrite forward_case by apply u16_range.
  destruct (Z.eqb_spec (SequenceNumber p) (u16 (SequenceNumber q + 1))) as [E|E];
    [|destruct (Z.ltb_spec (u16 (SequenceNumber p - SequenceNumber q)) 32768) as [Hf|Hf]].
  - assert (u16 (SequenceNumber p - SequenceNumber q) = 1) as -> by seqno.
    rewrite (proj2 (Z.eqb_neq 1 (2 * late w1))) by lia. simpl. unfold w_sequential. destruct (_ =? _).
    + destruct (releases_drop w1 O) as (rel & [H1 H2] & _). exists rel. split; [done|]. simpl.
      rewrite held_append, H2 by (by apply slots_ok_w_drop). solve_Permutation.
    + exists []. rewrite !app_nil_r. split; [done|]. simpl. by rewrite held_append.
  - rewrite (proj2 (Z.leb_gt 32768 _)) by done. simpl. rewrite orb_false_r. apply future_conserves; try done. seqno.
  - rewrite (proj2 (Z.leb_le 32768 _)), (proj2 (Z.eqb_neq _ 0)), (proj2 (Z.eqb_neq _ (2 * late w1))) by lia. simpl.
    assert (2 <= u16 (u16 (SequenceNumber q - SequenceNumber p) + 1)) as Hc by seqno.
    unfold w_past, capacity. destruct (_ <=? _); [exists []; rewrite !app_nil_r; auto|]. cbv zeta.
    destruct (packet _) as [d|] eqn:Hd; [by exists [p]; auto|]. exists []. rewrite !app_nil_r. split; [done|]. simpl.
    rewrite held_insert, held_app, held_gap by (done || (rewrite length_app, length_replicate; apply in_window in Hq; lia)).
    simpl. solve_Permutation.
Qed.

(** ** What a pop returns *)

(** A frame: packets of one time stamp with consecutive sequence numbers. *)
Definition is_frame (ts : Z) (ps : list Packet) : Prop :=
  ps <> [] /\ Forall (fun p => Timestamp p = ts) ps /\
  forall i p q, ps !! i = Some p -> ps !! S i = Some q -> SequenceNumber q = u16 (SequenceNumber p + 1).

Lemma held_take m : forall W i, (forall j, (j < m)%nat -> is_Some (packet (W !!! j))) ->
  held (take m W) !! i = if decide (i < m)%nat then packet (W !!! i) else None.
Proof.
  induction m as [|m IH]; intros W i H; [by rewrite decide_False by lia|].
  destruct (H 0%nat ltac:(lia)) as [p Hp]. destruct W as [|x W]; [done|]. simpl in Hp. simpl. rewrite Hp.
  destruct i as [|i]; [by rewrite decide_True by lia|]. simpl. fold (held (take m W)). rewrite IH by (intros j Hj; apply (H (S j)); lia).
  repeat case_decide; try done; lia.
Qed.

(** A run of packets without an end before its last one is a frame. *)
Lemma run_frame W n p : slots_ok W -> packet (W !!! 0%nat) = Some p ->
  (forall i, (i <= n)%nat -> is_Some (packet (W !!! i)) /\ ((i < n)%nat -> end_ (W !!! i) = false)) ->
  is_frame (Timestamp p) (held (take (S n) W)) /\ held (take (S n) W) !! 0%nat = Some p.
Proof.
  intros O Hp Hall.
  assert (forall i, held (take (S n) W) !! i = if decide (i < S n)%nat then packet (W !!! i) else None) as Hlk.
  { intros i. apply held_take. intros j Hj. apply Hall. lia. }
  assert (forall i q, (i <= n)%nat -> packet (W !!! i) = Some q -> Timestamp q = Timestamp p) as Hts.
  { induction i as [|i IH]; intros q Hi Hq; [congruence|]. destruct (Hall i ltac:(lia)) as [[r Hr] He].
    rewrite <- (IH r) by (done || lia). destruct (o_link _ O i r q Hr Hq) as [_ Hl]. rewrite He in Hl by lia.
    destruct (Z.eq_dec (Timestamp r) (Timestamp q)) as [|Hne]; [done|]. by specialize (Hl Hne). }
  rewrite Hlk, decide_True by lia. split; [|done]. split_and!.
  - intros E. specialize (Hlk 0%nat). rewrite E, decide_True in Hlk by lia. simpl in Hlk. congruence.
  - apply Forall_lookup_2. intros i q. rewrite Hlk. case_decide; [|done]. apply Hts. lia.
  - intros i q r. rewrite !Hlk. repeat case_decide; try done. intros Hq Hr. pose proof (seq_places W i (S i) q r O Hq Hr) as Hs.
    pose proof (seq_range W i q O Hq). pose proof (seq_range W (S i) r O Hr). seqno.
Qed.

Lemma found_frame W n p : slots_ok W -> find_end W = FoundEnd n -> packet (W !!! 0%nat) = Some p ->
  is_frame (Timestamp p) (held (take (S n) W)) /\ held (take (S n) W) !! 0%nat = Some p.
Proof. intros O Hf Hp. destruct (find_end_found W n O Hf) as (_ & _ & Hall). by apply run_frame. Qed.

Lemma find_end_none W : find_end W = FoundNone ->
  forall i, (i < length W)%nat -> is_Some (packet (W !!! i)) /\ end_ (W !!! i) = false.
Proof.
  induction W as [|x W IH]; simpl; [intros; lia|]. destruct (end_ x) eqn:Ex; [done|].
  destruct (packet x) as [p|] eqn:Hx; [|done]. destruct (find_end W); try done.
  intros _ [|i] Hi; [simpl; rewrite Hx; eauto|]. apply IH; [done|lia].
Qed.

Lemma unfinished_frame W : slots_ok W -> find_end W = FoundNone -> W = [] \/ exists ts, is_frame ts (held W).
Proof.
  intros O Hf. destruct (o_first _ O) as [|[p Hp]]; [by left|right]. exists (Timestamp p).
  pose proof (find_end_none W Hf) as Hall. apply in_window in Hp as HL.
  destruct (run_frame W (length W - 1) p O Hp) as [H _].
  { intros i Hi. destruct (Hall i ltac:(lia)). auto. }
  by rewrite take_ge in H by lia.
Qed.

(** The result [r] of popping from [w], with [rel] released on the way: the
    front of the window, as a frame that follows what was given up last. *)
Definition pop_result (force : bool) w (rel : list Packet) (r : option (list Packet)) (ts : Z) w' : Prop :=
  freed w' = freed w ++ rel /\ held (slots w) = rel ++ default [] r ++ held (slots w') /\
  match r with
  | None => True
  | Some ps => is_frame ts ps /\
      (force = false -> forall p, ps !! 0%nat = Some p ->
         match last rel with
         | Some d => SequenceNumber p = u16 (SequenceNumber d + 1)
         | None => forall l, recent w = Some l -> SequenceNumber p = u16 (l + 1)
         end)
  end.

Lemma w_pop_nothing force w : pop_result force w [] None 0 w.
Proof. split_and!; try done. by rewrite app_nil_r. Qed.

Lemma w_pop_again force w r ts w' rel : slots_ok (slots w) -> slots w <> [] ->
  pop_result force (snd (w_drop w)) rel r ts w' -> exists rel, pop_result force w rel r ts w'.
Proof.
  intros O Hne (H1 & H2 & H3). destruct (releases_drop w O) as (rd & [D1 D2] & Hd). destruct (Hd Hne) as (d & Hl & Hr).
  exists (rd ++ rel). split_and!; [by rewrite H1, D1, app_assoc|by rewrite D2, H2, <- app_assoc|].
  destruct r as [ps|]; [|done]. destruct H3 as [H3 H4]. split; [done|]. intros Hf p Hp. specialize (H4 Hf p Hp).
  rewrite last_app. destruct (last rel); [done|]. rewrite Hl. by apply H4.
Qed.

Lemma w_pop_step force again w : proper w ->
  (slots w <> [] -> let '(r, ts, w') := again (snd (w_drop w)) in exists rel, pop_result force (snd (w_drop w)) rel r ts w') ->
  let '(r, ts, w') := w_pop_body force again w in exists rel, pop_result force w rel r ts w'.
Proof.
  intros P Hag. unfold w_pop_body. pose proof (P_slots _ P) as O.
  destruct (first w) as [p|] eqn:Hp; [|exists []; apply w_pop_nothing].
  destruct (newest w) as [q|] eqn:Hq; [|exists []; apply w_pop_nothing].
  assert (slots w <> []) as Hne by (intros E; unfold first in Hp; by rewrite E in Hp). specialize (Hag Hne).
  assert (let '(r, ts, w') := again (snd (w_drop w)) in exists rel, pop_result force w rel r ts w') as Hagain.
  { destruct (again (snd (w_drop w))) as [[r ts] w']. destruct Hag as [rel H]. by eapply w_pop_again. }
  clear Hag. destruct (start _); cbn [negb].
  - destruct (negb force && _) eqn:Hb; [exists []; apply w_pop_nothing|].
    pose proof (find_end_found (slots w)) as Hfe. pose proof (found_frame (slots w)) as Hff.
    destruct (find_end (slots w)) as [n| |].
    + destruct (Hfe n O eq_refl) as (_ & Hn & Hall). destruct (Hff n p O eq_refl Hp) as [Hfr Hfirst].
      destruct (w_take_slots (S n) w) as (Hs & Hfd & _); [intros; apply Hall; lia|]. rewrite decide_False in Hs by done.
      exists []. split; [|split].
      * by rewrite app_nil_r.
      * rewrite Hs, held_trim. rewrite <- (take_drop (S n) (slots w)) at 1. by rewrite held_app.
      * split; [done|]. intros -> p' Hp'. rewrite Hfirst in Hp'. injection Hp' as <-. simpl. intros l Hl. rewrite Hl in Hb.
        simpl in Hb. destruct (Z.eqb_spec (u16 (l + 1)) (SequenceNumber p)); done.
    + destruct force; [done|]. exists []. apply w_pop_nothing.
    + exists []. apply w_pop_nothing.
  - destruct (force || _); [done|]. exists []. apply w_pop_nothing.
Qed.

Lemma w_pop_result force fuel : forall w, proper w ->
  let '(r, ts, w') := w_pop_loop fuel force w in exists rel, pop_result force w rel r ts w'.
Proof.
  induction fuel as [|fuel IH]; intros w P; cbn [w_pop_loop]; apply w_pop_step; try done.
  - intros _. exists []. apply w_pop_nothing.
  - intros _. by apply IH, proper_drop.
Qed.

(** A forced pop gives up nothing but an unfinished frame. *)
Lemma w_force_nothing fuel : forall w ts w', proper w -> (length (slots w) <= fuel)%nat ->
  w_pop_loop fuel true w = (None, ts, w') -> find_end (slots w') = FoundNone.
Proof.
  assert (forall again w ts w', proper w -> w_pop_body true again w = (None, ts, w') ->
    (slots w <> [] /\ again (snd (w_drop w)) = (None, ts, w')) \/ (w' = w /\ find_end (slots w') = FoundNone)) as Hstep.
  { intros again w ts w' P. unfold w_pop_body. destruct (decide (slots w = [])) as [E|E].
    - unfold first. rewrite E. simpl. intros [= <- <-]. right. by rewrite E.
    - destruct (not_empty w P E) as (p & q & Hp & Hq). rewrite Hp, Hq. cbn [orb negb andb].
      destruct (negb (start _)); [by left|]. destruct (find_end (slots w)) eqn:Ef; try done; [by left|].
      intros [= <- <-]. right. done. }
  induction fuel as [|fuel IH]; intros w ts w' P Hf H; cbn [w_pop_loop] in H;
    destruct (Hstep _ _ _ _ P H) as [[Hne Ha]|[_ H']]; try done.
  - destruct (slots w); [done|simpl in Hf; lia].
  - apply (IH (snd (w_drop w)) ts); [by apply proper_drop| |done].
    destruct (w_drop_shorter w (P_slots _ P) Hne). lia.
Qed.

End Pop.
