(* ===== verification/SampleTheorems.v ===== *)
(** What the sample builder guarantees: its own [check] never fails, no
    operation panics, popped frames are complete and in order, and no packet
    is lost or duplicated; and the one case in which [Push] breaks this. *)

From S2P Require Import Prelude SampleBuilder SampleRing SampleWindow SamplePush SampleInvariant SamplePop.

#[local] Open Scope list_scope.
#[local] Open Scope Z_scope.

Section Theorems.
Context {D : Type} {DP : Depacketizer D}.
Implicit Types (s : SampleBuilder D) (w : window D) (W : list slot).

(** * The source's check *)

Lemma check_window_ok s W seq0 fuel : holds s W -> slots_ok W ->
  (exists p, packet (W !!! 0%nat) = Some p /\ SequenceNumber p = seq0) ->
  forall i, (i <= length W)%nat -> (length W - i <= fuel)%nat -> check_window fuel seq0 (Z.of_nat i) s = Some None.
Proof.
  intros G O (p0 & Hp0 & Hs0). pose proof (size_range s _ G) as Hs. pose proof (window_size s _ G) as HW.
  pose proof (g_tail _ _ _ _ _ G) as Ht. fold (size s) in Ht. pose proof (in_window _ _ _ Hp0) as HL.
  induction fuel as [|fuel IH]; intros i Hi Hf; cbn [check_window]; rewrite (length_eq s _ G);
    destruct (Z.ltb_spec (Z.of_nat i) (Z.of_nat (length W))); try done; [lia|].
  assert (u16 (tail s + Z.of_nat i) mod len s = pos (size s) (tail s) i) as ->.
  { rewrite (len_eq s _ G), u16_small by lia. done. }
  rewrite (u16_small (Z.of_nat i + 1)) by lia. replace (Z.of_nat i + 1) with (Z.of_nat (S i)) by lia.
  cbv zeta. rewrite (slot_pos s _ G), bind_some by lia. destruct (packet (W !!! i)) as [p|] eqn:Hp; [|apply IH; lia].
  pose proof (seq_places W 0 i p0 p O Hp0 Hp) as Hseq. pose proof (seq_range W _ p O Hp). pose proof (seq_range W _ p0 O Hp0).
  rewrite (proj2 (Z.eqb_eq (SequenceNumber p) (u16 (seq0 + Z.of_nat i)))) by (rewrite <- Hs0; seqno). cbn [negb].
  assert (other_frame (negb (pos (size s) (tail s) i =? tail s) && negb (start (W !!! i))) (Timestamp p)
            (dec s (pos (size s) (tail s) i)) s = Some false) as ->.
  { unfold other_frame. destruct i as [|i]; [by rewrite <- (tail_pos s _ G), Z.eqb_refl|].
    destruct (start (W !!! S i)) eqn:Hst; [by rewrite andb_false_r|]. case_match; [|done].
    rewrite (dec_pos s _ G), (slot_pos s _ G), bind_some by lia. f_equal.
    destruct (packet (W !!! i)) as [q|] eqn:Hq; [|done]. destruct (o_link _ O i q p Hq Hp) as [Hl1 Hl2].
    rewrite Hst in Hl1. destruct (Z.eqb_spec (Timestamp q) (Timestamp p)) as [|Hne]; [done|]. rewrite (Hl2 Hne) in Hl1. done. }
  rewrite bind_some.
  assert (other_frame (negb (pos (size s) (tail s) i =? dec s (head s)) && negb (end_ (W !!! i))) (Timestamp p)
            (inc s (pos (size s) (tail s) i)) s = Some false) as ->.
  { unfold other_frame. destruct (end_ (W !!! i)) eqn:He; [by rewrite andb_false_r|]. case_match; [|done].
    rewrite (inc_pos s _ G), (slot_pos s _ G), bind_some by lia. f_equal.
    destruct (packet (W !!! S i)) as [q|] eqn:Hq; [|done]. destruct (o_link _ O i p q Hp Hq) as [Hl1 Hl2].
    destruct (Z.eqb_spec (Timestamp q) (Timestamp p)) as [|Hne]; [done|]. rewrite Hl2 in He; congruence. }
  rewrite bind_some. apply IH; lia.
Qed.

Lemma check_free_ok s W fuel : holds s W -> W <> [] -> forall j, (length W <= j)%nat -> Z.of_nat j <= size s ->
  size s - Z.of_nat j <= Z.of_nat fuel -> check_free fuel (pos (size s) (tail s) j) s = Some None.
Proof.
  intros G Hne. pose proof (size_range s _ G) as Hs. pose proof (g_tail _ _ _ _ _ G) as Ht. fold (size s) in Ht.
  assert (0 < length W)%nat as HL by (destruct W; [done|simpl; lia]).
  induction fuel as [|fuel IH]; intros j Hj Hjs Hf; cbn [check_free];
    destruct (Z.eqb_spec (pos (size s) (tail s) j) (tail s)) as [E|E]; try done; [posl|].
  assert (Z.of_nat j < size s) as Hlt by (destruct (Z.eq_dec (Z.of_nat j) (size s)); posl).
  unfold present. rewrite (slot_pos s _ G), total_out by lia. cbn. rewrite (inc_pos s _ G) by lia. apply IH; lia.
Qed.

Lemma check_ok s w : Rep s w -> proper w -> check s = Some None.
Proof.
  intros R P. unfold check. rewrite (head_tail _ _ R). destruct (decide (slots w = [])) as [E|E]; [by rewrite E|].
  destruct (not_empty w P E) as (p & q & Hp & Hq). pose proof (newest_spec s w q R Hq) as Hn.
  destruct (slots w) as [|x0 W0] eqn:EW; [done|]. rewrite <- EW in *. clear x0 W0 EW.
  pose proof (R_ring _ _ R) as G. unfold present. rewrite (slot_tail s _ G). cbn [fmap option_fmap option_map].
  unfold first in Hp. rewrite bind_some, Hp, bool_decide_true by eauto. cbn [negb].
  unfold pkt_at in Hn. destruct (slot_at s (dec s (head s))) as [y|]; [|done]. rewrite bind_some in Hn.
  cbn [fmap option_fmap option_map]. rewrite bind_some, Hn, bool_decide_true by eauto. cbn [negb].
  unfold pkt_at. rewrite (slot_tail s _ G), bind_some, Hp, bind_some. cbv zeta.
  assert (lastSeqnoValid s && ((u16 (SequenceNumber p - lastSeqno s) =? 0) ||
    negb (Z.land (u16 (SequenceNumber p - lastSeqno s)) 0x8000 =? 0)) = false) as ->.
  { destruct (lastSeqnoValid s) eqn:Hv; [|done]. pose proof (R_recent _ _ R) as Hr. rewrite Hv in Hr.
    pose proof (P_before _ P _ _ Hr Hp) as Hb. pose proof (forward_case (u16 (SequenceNumber p - lastSeqno s)) (u16_range _)) as Hf.
    unfold forward in Hf. rewrite Hf. simpl. apply orb_false_iff. split; [apply Z.eqb_neq; lia|].
    apply negb_false_iff, Z.ltb_lt. lia. }
  pose proof (fuel_enough s w R). pose proof (window_size _ _ G). unfold size in *.
  rewrite (check_window_ok s (slots w) (SequenceNumber p) _ G (P_slots _ P)) with (i := 0%nat) by (eauto || lia).
  rewrite bind_some, (head_pos s _ G). apply (check_free_ok s (slots w)); try done; unfold size; lia.
Qed.

(** * Builders in use *)

(** The packets held, oldest first. *)
Definition contents s : list Packet :=
  omap (fun i => pkt_at s ((tail s + Z.of_nat i) mod len s)) (seq 0 (Z.to_nat (length_ s))).

Definition tail_present s : bool := (tail s =? head s) || default false (present s (tail s)).

(** What can be reached from a new builder, as long as no push leaves the
    first slot empty. *)
Inductive reachable (late : Z) (d : D) (rate : Z) : SampleBuilder D -> Prop :=
| reach_new : reachable late d rate (New late d rate)
| reach_push s p s' : reachable late d rate s -> 0 <= SequenceNumber p < 65536 ->
    Push p s = Some s' -> tail_present s' = true -> reachable late d rate s'
| reach_packets force s r ts s' : reachable late d rate s ->
    popRtpPackets force s = Some (r, ts, s') -> reachable late d rate s'
| reach_sample force s r ts s' : reachable late d rate s ->
    popSample force s = Some (r, ts, s') -> reachable late d rate s'.

Lemma held_seq W : omap (fun i => packet (W !!! i)) (seq 0 (length W)) = held W.
Proof.
  induction W as [|x W IH]; [done|]. simpl length. rewrite <- cons_seq, <- fmap_S_seq. simpl. fold (held W). rewrite <- IH.
  assert (forall l : list nat, omap (fun i => packet ((x :: W) !!! i)) (S <$> l) = omap (fun i => packet (W !!! i)) l) as E.
  { induction l as [|i l IHl]; [done|]. csimpl. by rewrite IHl. }
  by rewrite E.
Qed.

Lemma contents_spec s w : Rep s w -> contents s = held (slots w).
Proof.
  intros R. pose proof (R_ring _ _ R) as G. pose proof (window_size _ _ G) as HW. unfold contents.
  rewrite (length_eq s _ G), Nat2Z.id, <- held_seq. apply list_omap_ext, Forall2_same_length_lookup_2; [done|].
  intros i x y Hx Hy. rewrite Hx in Hy. injection Hy as <-. apply lookup_seq in Hx as [-> Hx].
  rewrite (len_eq s _ G). change (_ mod _) with (pos (size s) (tail s) (0 + i)). unfold pkt_at.
  by rewrite (slot_pos s _ G) by lia.
Qed.

Lemma New_spec late d rate : 0 <= late <= 16383 -> exists w, Rep (New late d rate) w /\ proper w.
Proof.
  intros Hl. set (l := if late <? 2 then 2 else late).
  assert (2 <= l <= 16383) as Hl2 by (unfold l; destruct (Z.ltb_spec late 2); lia).
  exists {| slots := []; recent := None; stamp := None; freed := []; losses := 0; SampleWindow.late := l; dep := d; rate := rate |}.
  split; [|by apply proper_empty]. assert (New late d rate =
    {| packets := replicate (Z.to_nat (2 * l + 1)) empty_slot; head := 0; tail := 0; maxLate := l; depacketizer := d;
       sampleRate := rate; lastSeqnoValid := false; lastSeqno := 0; lastTimestampValid := false; lastTimestamp := 0;
       released := []; dropped := 0 |}) as ->.
  { unfold New. fold l. destruct (Z.ltb_spec 32767 l); [lia|]. by rewrite (u16_small (2 * l)), (u16_small (2 * l + 1)) by lia. }
  split; try done. unfold holds. simpl. split; rewrite ?length_replicate; simpl; try lia.
  - by rewrite Z2Nat.id by lia.
  - intros i Hi. rewrite total_out by (simpl; lia). apply lookup_replicate_2.
    pose proof (pos_range (Z.of_nat (Z.to_nat (2 * l + 1))) 0 i ltac:(lia)). lia.
Qed.

Lemma unmarshal_spec ps : forall data ok s w, Rep s w ->
  exists w', Rep (snd (unmarshal_all ps data ok s)) w' /\ slots w' = slots w /\ recent w' = recent w /\
    late w' = late w /\ freed w' = freed w ++ ps.
Proof.
  induction ps as [|p ps IH]; intros data ok s w R; [exists w; by rewrite app_nil_r|]. cbn [unmarshal_all].
  set (x := if ok then _ else _). assert (exists w0, Rep (snd x) w0 /\ slots w0 = slots w /\ recent w0 = recent w /\
    late w0 = late w /\ freed w0 = freed w) as (w0 & R0 & E1 & E2 & E3 & E4).
  { unfold x. destruct ok; [|by exists w]. destruct (Unmarshal _ _) as [buf d].
    exists {| slots := slots w; recent := recent w; stamp := stamp w; freed := freed w; losses := losses w;
              late := late w; dep := d; rate := rate w |}. split; [destruct R; by split|done]. }
  destruct x as [[data1 ok1] s1]. cbn [snd] in R0.
  destruct (IH data1 ok1 (set_log (released s1 ++ [p]) (dropped s1) s1)
    {| slots := slots w0; recent := recent w0; stamp := stamp w0; freed := freed w0 ++ [p]; losses := losses w0;
       late := late w0; dep := dep w0; rate := rate w0 |}) as (w' & R' & F1 & F2 & F3 & F4).
  { destruct R0. split; simpl; try done. by rewrite R_freed. }
  exists w'. simpl in *. split; [done|]. split_and!; try congruence. rewrite F4, E4. by rewrite <- app_assoc.
Qed.

Lemma popSample_spec force s w : Rep s w -> proper w -> exists r s' w', popSample force s = Some (r, s') /\ Rep s' w' /\
  proper w' /\ slots w' = slots (snd (w_pop force w)) /\
  freed w' = freed (snd (w_pop force w)) ++ default [] (fst (fst (w_pop force w))).
Proof.
  intros R P. unfold popSample. destruct (popRtpPackets_spec force s w R P) as [(s1 & -> & R1) P1]. rewrite bind_some.
  destruct (w_pop force w) as [[[ps|] ts] w1]; cbn [fst snd] in *; [|eexists _, s1, w1; by rewrite app_nil_r].
  destruct (unmarshal_spec ps [] true s1 w1 R1) as (w2 & R2 & E1 & E2 & E3 & E4).
  assert (proper w2) as P2 by (destruct P1; split; rewrite ?E1, ?E2, ?E3; done).
  destruct (unmarshal_all ps [] true s1) as [[data ok] s2]. cbn [snd] in R2.
  destruct ok; cbn [negb]; [|by eexists _, s2, w2].
  eexists _, _, {| slots := slots w2; recent := recent w2; stamp := Some ts; freed := freed w2; losses := losses w2;
              late := late w2; dep := dep w2; rate := rate w2 |}.
  split; [done|]. split; [by destruct R2; split|]. split; [by destruct P2; split|done].
Qed.

Lemma tail_present_spec s w : Rep s w -> tail_present s = negb (front_missing w).
Proof.
  intros R. unfold tail_present, present, front_missing. rewrite (tail_head _ _ R), (slot_tail s _ (R_ring _ _ R)).
  destruct (slots w) as [|x W]; [done|]. simpl. by destruct (packet x).
Qed.

Lemma reachable_proper l d rate s : 0 <= l <= 16383 -> reachable l d rate s -> exists w, Rep s w /\ proper w.
Proof.
  intros Hl. induction 1 as [|s p s' _ (w & R & P) Hp Hs Ht|force s r ts s' _ (w & R & P) Hs|force s r ts s' _ (w & R & P) Hs].
  - by apply New_spec.
  - destruct (Push_spec p s w R (P_slots _ P)) as (s1 & Hs1 & R1). rewrite Hs in Hs1. injection Hs1 as <-.
    exists (w_push p w). split; [done|]. apply proper_push; try done. rewrite (tail_present_spec _ _ R1) in Ht.
    by apply negb_true_iff in Ht.
  - destruct (popRtpPackets_spec force s w R P) as [(s1 & Hs1 & R1) P1]. rewrite Hs in Hs1. injection Hs1 as _ <-. eauto.
  - destruct (popSample_spec force s w R P) as (r1 & s1 & w1 & Hs1 & R1 & P1 & _). rewrite Hs in Hs1. injection Hs1 as _ <-. eauto.
Qed.

(** The push that leaves a gap at the front has given up all other packets. *)
Lemma front_missing_shape p w : proper w -> 0 <= SequenceNumber p < 65536 -> front_missing (w_push p w) = true ->
  held (slots (w_push p w)) = [p] /\ freed (w_push p w) = freed w ++ held (slots w).
Proof.
  intros P Hp. pose proof (proper_push p w P Hp) as Hpp. unfold w_push in *. destruct (accept_ok p w P Hp) as [P1 Ha].
  assert (freed (snd (w_accept p w)) = freed w) as <- by (unfold w_accept; by repeat case_match).
  rewrite <- (w_accept_slots p w). destruct (w_accept p w) as [[] w1]; cbn [fst snd negb] in *; [|by rewrite proper_front].
  specialize (Ha eq_refl). destruct (newest w1) as [q|] eqn:Hq; [|done].
  rewrite forward_case in * by apply u16_range.
  destruct (Z.eqb_spec (SequenceNumber p) (u16 (SequenceNumber q + 1))); [by rewrite proper_front by (by apply (proper_sequential p q))|].
  destruct (Z.ltb_spec (u16 (SequenceNumber p - SequenceNumber q)) 32768); [|by rewrite proper_front by (by apply proper_past)].
  clear Hpp. set (count := u16 (_ - 1)). unfold w_future. destruct (capacity w1 <=? count) eqn:Hc.
  - destruct (accept_ok p (w_clear w1) (proper_clear w1 P1) Hp) as [P2 Ha2].
    pose proof (w_accept_slots p (w_clear w1)) as Hs. rewrite w_clear_slots in Hs.
    destruct (w_accept p (w_clear w1)) as [[] w2]; cbn [fst snd] in *; [|by rewrite proper_front].
    by rewrite proper_front by (apply proper_first; auto).
  - destruct (room_ok count (length (slots w1)) w1 P1 ltac:(done)) as (P2 & _).
    destruct (releases_room count (length (slots w1)) w1 P1) as (rel & H1 & H2).
    destruct (w_room (length (slots w1)) count w1) as [[] w2]; cbn [fst snd negb] in *; [|by rewrite proper_front].
    pose proof (proper_front w2 P2) as Hf. unfold front_missing in *. cbn [slots set_slots freed].
    destruct (slots w2) as [|x W]; [|simpl in *; congruence]. intros _. rewrite app_nil_l, held_app, held_gap. split; [done|].
    rewrite H1, H2. by rewrite app_nil_r.
Qed.

Lemma missing_panics s w : Rep s w -> front_missing w = true -> forall force, popRtpPackets force s = None.
Proof.
  intros R Hm force. unfold popRtpPackets, front_missing in *. pose proof (size_range s _ (R_ring _ _ R)) as Hs. unfold size in Hs.
  destruct (length (packets s)) as [|n] eqn:En; [lia|]. cbn [popRtpPackets_loop]. rewrite (tail_head _ _ R), (slot_tail s _ (R_ring _ _ R)).
  destruct (slots w) as [|x W] eqn:EW; [done|]. apply bool_decide_eq_true in Hm. rewrite bind_some.
  change ((x :: W) !!! 0%nat) with x. rewrite Hm. destruct (start x); cbn [negb]; [done|].
  by destruct (pkt_at s (dec s (head s))).
Qed.

Lemma clears_duplicate p q w : proper w -> 0 <= SequenceNumber p < 65536 -> newest w = Some q ->
  SequenceNumber p = SequenceNumber q -> (forall n, recent w = Some n -> 0 < u16 (SequenceNumber p - n) < 32768) ->
  held (slots (w_push p w)) = [] /\ freed (w_push p w) = freed w ++ held (slots w).
Proof.
  intros P Hp Hq Hpq Hr. unfold w_push. pose proof (accept_verdict p w) as Hv. destruct (accept_ok p w P Hp) as [P1 _].
  assert (match recent w with Some n => forward (u16 (n - SequenceNumber p)) && (u16 (n - SequenceNumber p) <=? late w) | None => false end = false) as E.
  { destruct (recent w) as [n|]; [|done]. specialize (Hr n eq_refl). rewrite forward_case by apply u16_range.
    apply andb_false_iff. left. apply Z.ltb_ge. seqno. }
  assert (newest (snd (w_accept p w)) = newest w) as Hn by (unfold newest; by rewrite w_accept_slots). rewrite Hq in Hn.
  assert (freed (snd (w_accept p w)) = freed w) as <- by (unfold w_accept; by repeat case_match).
  rewrite E in Hv. rewrite <- (w_accept_slots p w). destruct (w_accept p w) as [go w1]. cbn [fst snd] in *. subst go. cbn [negb].
  rewrite Hn, Hpq, (proj2 (Z.eqb_neq _ _)) by (rewrite Hpq in Hp; seqno). rewrite Z.sub_diag.
  change (forward (u16 0)) with true. cbv iota.
  destruct (future_conserves p q w1 P1 Hp Hn) as (rel & H1 & H2); [rewrite Hpq, Z.sub_diag; done..|].
  rewrite Hpq, Z.sub_diag in H1, H2. unfold w_future, capacity in *. change (u16 (u16 0 - 1)) with 65535 in *.
  pose proof (P_late _ P1) as Hl. rewrite (proj2 (Z.leb_le _ _)) in * by lia.
  pose proof (w_accept_slots p (w_clear w1)) as Hs. rewrite w_clear_slots in Hs.
  pose proof (accept_verdict p (w_clear w1)) as Hv. rewrite (w_clear_recent w1 q (P_slots _ P1) Hn), Hpq, Z.sub_diag, w_clear_late in Hv.
  change (forward (u16 0)) with true in Hv. rewrite (proj2 (Z.leb_le (u16 0) (late w1))) in Hv by (change (u16 0) with 0; lia).
  pose proof (releases_clear w1 (P_slots _ P1)) as [H3 _].
  assert (freed (snd (w_accept p (w_clear w1))) = freed (w_clear w1)) as Hf by (unfold w_accept; by repeat case_match).
  destruct (w_accept p (w_clear w1)) as [go w2]. cbn [fst snd] in *. subst go. simpl. rewrite Hs. split; [done|]. congruence.
Qed.

(** * The properties *)

(** C17. A builder with maxLate of at most 16383 stays in order: as long as no push has left the
    first slot empty, its state passes the source's own [check] (sequence numbers match places, neighbours
    agree on the ends of frames, all slots outside the window are free); no pop, forced or not,
    panics or loops, and each leaves a state that passes [check]; and a push does not
    panic and either leaves such a state again or has given up every packet held and
    keeps only the new one, behind a gap. *)
Theorem builder_invariant l d rate s : 0 <= l <= 16383 -> reachable l d rate s ->
  check s = Some None /\
  (forall p, 0 <= SequenceNumber p < 65536 -> exists s', Push p s = Some s' /\
     (check s' = Some None \/
      tail_present s' = false /\ contents s' = [p] /\ released s' = released s ++ contents s)) /\
  (forall force, (exists r ts s', popRtpPackets force s = Some (r, ts, s') /\ check s' = Some None) /\
                 (exists r ts s', popSample force s = Some (r, ts, s') /\ check s' = Some None)).
Proof.
  intros Hl Hs. destruct (reachable_proper l d rate s Hl Hs) as (w & R & P). split; [by apply (check_ok s w)|]. split.
  - intros p Hp. destruct (Push_spec p s w R (P_slots _ P)) as (s' & E & R1). exists s'. split; [done|].
    destruct (front_missing (w_push p w)) eqn:Hf.
    + right. rewrite (tail_present_spec _ _ R1), Hf. destruct (front_missing_shape p w P Hp Hf) as [H1 H2].
      rewrite (contents_spec s w R), (contents_spec s' _ R1), <- (R_freed _ _ R), <- (R_freed _ _ R1). done.
    + left. apply (check_ok s' (w_push p w)); [done|]. by apply proper_push.
  - intros force. destruct (popRtpPackets_spec force s w R P) as [(s1 & E1 & R1) P1].
    destruct (popSample_spec force s w R P) as (r & s2 & w2 & E2 & R2 & P2 & _).
    destruct (w_pop force w) as [[r1 ts1] w1]. cbn [fst snd] in *.
    split; [exists r1, ts1, s1; split; [done|by apply (check_ok s1 w1)]|].
    destruct r as [r ts]. exists r, ts, s2. split; [done|by apply (check_ok s2 w2)].
Qed.

Section Use.
Context (l : Z) (d : D) (rate : Z) s (Hl : 0 <= l <= 16383) (Hs : reachable l d rate s).

(** A packet that [Push] ignores. *)
Definition ignored (p : Packet) : bool :=
  (lastSeqnoValid s && forward (u16 (lastSeqno s - SequenceNumber p))
     && (u16 (lastSeqno s - SequenceNumber p) <=? maxLate s)) ||
  match last (contents s) with
  | Some q =>
      let n := u16 (SequenceNumber p - SequenceNumber q) in
      (n =? 0) || (n =? 2 * maxLate s) ||
      ((32768 <=? n) && (2 * maxLate s <=? u16 (u16 (SequenceNumber q - SequenceNumber p) + 1)))
  | None => false
  end.

(** [Push] loses no packet and invents none: afterwards the packets held and
    those newly given to the release handler are those held before and the
    pushed one, unless that one is ignored: when it comes before what was given
    up, has the number of the newest packet, or is too far behind or exactly
    2*maxLate ahead of it. *)
Theorem Push_conserves p s' : 0 <= SequenceNumber p < 65536 -> Push p s = Some s' ->
  exists rel, released s' = released s ++ rel /\
    contents s' ++ rel ≡ₚ contents s ++ (if ignored p then [] else [p]).
Proof.
  intros Hp Hpush. destruct (reachable_proper l d rate s Hl Hs) as (w & R & P).
  destruct (Push_spec p s w R (P_slots _ P)) as (s1 & E & R1). rewrite Hpush in E. injection E as <-.
  destruct (w_push_conserves p w P Hp) as (rel & H1 & H2). exists rel.
  rewrite <- (R_freed _ _ R), <- (R_freed _ _ R1), (contents_spec s w R), (contents_spec s' _ R1). split; [done|].
  rewrite H2. f_equiv. unfold ignored, w_ignored. rewrite (R_recent _ _ R), (R_late _ _ R), (contents_spec s w R).
  replace (last (held (slots w))) with (newest w); [by destruct (lastSeqnoValid s)|].
  destruct (decide (slots w = [])) as [E|E]; [unfold newest; by rewrite E|]. symmetry. by apply last_held; [apply P|].
Qed.

(** C18. [Pop] takes the packets in order: it returns, the oldest packets are released, the next
    ones are the frame that is returned, if there is one, and the rest is kept.  A frame has packets
    of one time stamp and consecutive sequence numbers and follows the last packet given up
    or returned before.  maxLate is at most 16383 and no push has left the first slot
    empty. *)
Theorem pop_in_order : exists r ts s', popRtpPackets false s = Some (r, ts, s') /\
  exists rel, released s' = released s ++ rel /\ contents s = rel ++ default [] r ++ contents s' /\
    forall ps, r = Some ps -> is_frame ts ps /\
      (forall p, ps !! 0%nat = Some p ->
         match last rel with
         | Some q => SequenceNumber p = u16 (SequenceNumber q + 1)
         | None => lastSeqnoValid s = true -> SequenceNumber p = u16 (lastSeqno s + 1)
         end).
Proof.
  destruct (reachable_proper l d rate s Hl Hs) as (w & R & P).
  destruct (popRtpPackets_spec false s w R P) as [(s1 & E & R1) _].
  pose proof (w_pop_result false (length (slots w)) w P) as H. fold (w_pop false w) in H.
  destruct (w_pop false w) as [[r1 ts1] w1]. cbn [fst snd] in *. destruct H as (rel & H1 & H2 & H3).
  exists r1, ts1, s1. split; [done|].
  exists rel. rewrite <- (R_freed _ _ R), <- (R_freed _ _ R1), (contents_spec s w R), (contents_spec s1 _ R1).
  split; [done|]. split; [done|]. intros ps ->. destruct H3 as [H3 H4]. split; [done|]. intros p Hp.
  specialize (H4 eq_refl p Hp). destruct (last rel); [done|]. intros Hv. apply H4. by rewrite (R_recent _ _ R), Hv.
Qed.

(** When a forced pop returns nil, at most one unfinished frame is left in
    the builder. *)
Theorem force_pop_rest ts s' : popRtpPackets true s = Some (None, ts, s') ->
  contents s' = [] \/ exists ts, is_frame ts (contents s').
Proof.
  intros Hpop. destruct (reachable_proper l d rate s Hl Hs) as (w & R & P).
  destruct (popRtpPackets_spec true s w R P) as [(s1 & E & R1) P1]. rewrite Hpop in E. injection E as E <-.
  pose proof (w_force_nothing (length (slots w)) w) as H. fold (w_pop true w) in H.
  destruct (w_pop true w) as [[r1 ts1] w1]. cbn [fst snd] in *. injection E as <- <-. rewrite (contents_spec s' _ R1).
  destruct (unfinished_frame (slots w1)) as [->|]; [apply P1|by eapply H|by left|by right].
Qed.

(** A push that leaves the first slot empty has released every other packet
    and makes all later pops panic. *)
Theorem gap_at_front_panics p s' : 0 <= SequenceNumber p < 65536 -> Push p s = Some s' -> tail_present s' = false ->
  contents s' = [p] /\ released s' = released s ++ contents s /\ forall force, popRtpPackets force s' = None.
Proof.
  intros Hp Hpush Ht. destruct (reachable_proper l d rate s Hl Hs) as (w & R & P).
  destruct (Push_spec p s w R (P_slots _ P)) as (s1 & E & R1). rewrite Hpush in E. injection E as <-.
  rewrite (tail_present_spec _ _ R1) in Ht. apply negb_false_iff in Ht.
  destruct (front_missing_shape p w P Hp Ht) as [H1 H2].
  rewrite (contents_spec s w R), (contents_spec s' _ R1), <- (R_freed _ _ R), <- (R_freed _ _ R1).
  split; [done|]. split; [done|]. by apply (missing_panics s' (w_push p w)).
Qed.

(** A second copy of the newest packet empties the builder: all packets are
    released, whether their frames are complete or not. *)
Theorem duplicate_of_newest_clears p q s' : 0 <= SequenceNumber p < 65536 -> last (contents s) = Some q ->
  SequenceNumber p = SequenceNumber q ->
  (lastSeqnoValid s = true -> 0 < u16 (SequenceNumber p - lastSeqno s) < 32768) -> Push p s = Some s' ->
  contents s' = [] /\ released s' = released s ++ contents s.
Proof.
  intros Hp Hlast Hpq Hlate Hpush. destruct (reachable_proper l d rate s Hl Hs) as (w & R & P).
  destruct (Push_spec p s w R (P_slots _ P)) as (s1 & E & R1). rewrite Hpush in E. injection E as <-.
  rewrite (contents_spec s w R) in Hlast |- *. rewrite (contents_spec s' _ R1), <- (R_freed _ _ R), <- (R_freed _ _ R1).
  assert (newest w = Some q) as Hq.
  { destruct (decide (slots w = [])) as [E|E]; [by rewrite E in Hlast|]. unfold newest. by rewrite <- last_held by (done || apply P). }
  apply (clears_duplicate p q w P Hp Hq Hpq). rewrite (R_recent _ _ R). intros n Hn.
  destruct (lastSeqnoValid s); [|done]. injection Hn as <-. auto.
Qed.

End Use.

End Theorems.

(** * A builder at work *)

(** A depacketizer whose payloads begin with a byte that is 1 at the start of
    a frame; the marker ends a frame. *)
#[export] Instance FlagDepacketizer : Depacketizer unit := {
  IsPartitionHead := fun b => match b with 1 :: _ => true | _ => false end;
  IsPartitionTail := fun m _ => m;
  Unmarshal := fun b d => (Some (skipn 1 b), d);
}.

Definition rtp (n ts flag : Z) (m : bool) : Packet :=
  {| SequenceNumber := n; Timestamp := ts; Marker := m; Payload := [flag; n] |}.

(** Pushes in order; [None] if one panics. *)
Fixpoint push_all (ps : list Packet) (s : SampleBuilder unit) : option (SampleBuilder unit) :=
  match ps with [] => Some s | p :: ps => s ← Push p s; push_all ps s end.

Definition seq_valid (p : Packet) : bool := (0 <=? SequenceNumber p) && (SequenceNumber p <? 65536).

(** The states on the way all have a packet at the front. *)
Fixpoint pushable (ps : list Packet) (s : SampleBuilder unit) : bool :=
  match ps with
  | [] => true
  | p :: ps => seq_valid p && match Push p s with Some s' => tail_present s' && pushable ps s' | None => false end
  end.

Lemma reachable_pushes l rate ps : forall s s', reachable l tt rate s -> pushable ps s = true -> push_all ps s = Some s' ->
  reachable l tt rate s'.
Proof.
  induction ps as [|p ps IH]; intros s s' Hs Hp H; simpl in *; [congruence|].
  apply andb_prop in Hp as [Hv Hp]. destruct (Push p s) as [s1|] eqn:E; [|done]. apply andb_prop in Hp as [Ht Hp].
  apply andb_prop in Hv as [Hv1 Hv2]. apply (IH s1); [|done|done]. eapply reach_push; [exact Hs| |exact E|exact Ht]. lia.
Qed.

(** The state after pushing to a new builder. *)
Definition after (l rate : Z) (ps : list Packet) : SampleBuilder unit :=
  default (New l tt rate) (push_all ps (New l tt rate)).

Lemma reachable_after l rate ps : pushable ps (New l tt rate) = true ->
  is_Some (push_all ps (New l tt rate)) -> reachable l tt rate (after l rate ps).
Proof. intros Hp [s E]. unfold after. rewrite E. simpl. by eapply reachable_pushes; [apply reach_new|..]. Qed.

Ltac reached := apply reachable_after; [by vm_compute|by vm_compute; eexists].

(** Two frames, received out of order across the wrap of sequence numbers. *)
Definition two_frames : list Packet :=
  [rtp 65535 10 1 false; rtp 2 20 0 true; rtp 1 20 1 false; rtp 0 10 0 true].

Example two_frames_popped :
  (match PopPackets (after 10 90000 two_frames) with
   | Some (Some f1, s) => match PopPackets s with
                          | Some (Some f2, s) => Some (SequenceNumber <$> f1, SequenceNumber <$> f2, contents s)
                          | _ => None
                          end
   | _ => None
   end) = Some ([65535; 0], [1; 2], []).
Proof. by vm_compute. Qed.

Lemma builder_invariant_witness :
  contents (after 10 90000 two_frames) <> [] /\ check (after 10 90000 two_frames) = Some None.
Proof.
  split; [by vm_compute|]. apply (builder_invariant 10 tt 90000 (after 10 90000 two_frames)); [lia|]. reached.
Defined.

Lemma Push_conserves_witness : exists s',
  let s := after 10 90000 two_frames in let p := rtp 3 30 1 true in
  ignored s p = false /\ Push p s = Some s' /\
  exists rel, released s' = released s ++ rel /\ contents s' ++ rel ≡ₚ contents s ++ (if ignored s p then [] else [p]).
Proof.
  eexists. split; [by vm_compute|]. split; [by vm_compute|].
  eapply (Push_conserves 10 tt 90000 (after 10 90000 two_frames) ltac:(lia) ltac:(reached) (rtp 3 30 1 true));
    [simpl; lia|by vm_compute].
Defined.

Lemma pop_in_order_witness : exists r ts s',
  popRtpPackets false (after 10 90000 two_frames) = Some (Some r, ts, s') /\ is_frame ts r /\ SequenceNumber <$> r = [65535; 0].
Proof.
  destruct (pop_in_order 10 tt 90000 (after 10 90000 two_frames) ltac:(lia) ltac:(reached)) as (r & ts & s' & E & rel & _ & _ & H).
  assert ((fun x => fst (fst x)) <$> popRtpPackets false (after 10 90000 two_frames) =
    Some (Some [rtp 65535 10 1 false; rtp 0 10 0 true])) as E' by (by vm_compute).
  rewrite E in E'. injection E' as ->. eexists _, ts, s'. split; [exact E|]. split; [apply (H _ eq_refl)|reflexivity].
Defined.

(** A frame without an end is not returned by a forced pop, and stays. *)
Definition unfinished : list Packet := [rtp 7 10 1 false; rtp 8 10 0 false].

Example force_pop_leaves_packets :
  (r ← ForcePopPackets (after 10 90000 unfinished); Some (fst r, SequenceNumber <$> contents (snd r))) = Some (None, [7; 8]).
Proof. by vm_compute. Qed.

Lemma force_pop_rest_witness : exists ts s',
  popRtpPackets true (after 10 90000 unfinished) = Some (None, ts, s') /\
  (contents s' = [] \/ exists ts, is_frame ts (contents s')).
Proof.
  eexists _, _. split; [by vm_compute|].
  eapply (force_pop_rest 10 tt 90000 (after 10 90000 unfinished) ltac:(lia) ltac:(reached)). by vm_compute.
Defined.

(** With the smallest buffer, a gap behind an unfinished frame of three
    packets. *)
Definition crowded : list Packet := [rtp 1 10 1 false; rtp 2 10 0 false; rtp 3 10 0 false].

Lemma gap_at_front_panics_witness : exists s', Push (rtp 5 20 1 true) (after 2 90000 crowded) = Some s' /\
  contents s' = [rtp 5 20 1 true] /\ popRtpPackets false s' = None.
Proof.
  eexists. split; [by vm_compute|].
  edestruct (gap_at_front_panics 2 tt 90000 (after 2 90000 crowded) ltac:(lia) ltac:(reached) (rtp 5 20 1 true))
    as (H1 & _ & H2); [simpl; lia|by vm_compute|by vm_compute|]. split; [exact H1|apply H2].
Defined.

Lemma duplicate_of_newest_clears_witness : exists s',
  Push (rtp 2 20 0 true) (after 10 90000 two_frames) = Some s' /\
  contents s' = [] /\ released s' = [] ++ contents (after 10 90000 two_frames).
Proof.
  eexists. split; [by vm_compute|].
  eapply (duplicate_of_newest_clears 10 tt 90000 (after 10 90000 two_frames) ltac:(lia) ltac:(reached) (rtp 2 20 0 true));
    [simpl; lia|by vm_compute|done|by vm_compute|by vm_compute].
Defined.
