(* ===== verification/MediaIvf.v ===== *)
(** The IVF container of pion-webrtc (pkg/media/ivfreader, pkg/media/ivfwriter):
    the writer that assembles frames out of RTP packets, the reader, and that
    what the one writes is what the other reads.

    The depacketizers of github.com/pion/rtp are parameters; [None] is a
    panic. *)

From S2P Require Import Prelude GoText GoIO.

#[local] Open Scope string_scope.
#[local] Open Scope list_scope.
#[local] Open Scope Z_scope.

Definition ivfFileHeaderSignature : bytes := text "DKIF".
Definition ivfFileHeaderSize : Z := 32.
Definition ivfFrameHeaderSize : Z := 12.

Inductive ivf_error :=
| IvfRead (e : read_error)
| errIncompleteFrameHeader | errIncompleteFrameData | errIncompleteFileHeader | errSignatureMismatch | errUnknownIVFVersion
| errFileNotOpened | errCodecAlreadySet | errNoSuchCodec | errUnmarshal | errIvfWrite.

(** * Reader *)

Record IVFFileHeader := {
  signature : bytes;
  version : Z;
  headerSize : Z;
  FourCC : bytes;
  Width : Z;
  Height : Z;
  TimebaseDenominator : Z;
  TimebaseNumerator : Z;
  NumFrames : Z;
  unused : Z;
}.

Record IVFFrameHeader := { FrameSize : Z; Timestamp : Z }.

Record IVFReader := { r_stream : stream; bytesReadSuccesfully : Z }.

(** The branches that follow every [io.ReadFull]. *)
Definition incomplete (e : read_error) (err : ivf_error) : ivf_error :=
  match e with ErrUnexpectedEOF => err | _ => IvfRead e end.

Definition file_header_of (buffer : bytes) : IVFFileHeader :=
  {| signature := slice buffer 0 4; version := leUint16 (slice buffer 4 6); headerSize := leUint16 (slice buffer 6 8);
     FourCC := slice buffer 8 12; Width := leUint16 (slice buffer 12 14); Height := leUint16 (slice buffer 14 16);
     TimebaseDenominator := leUint32 (slice buffer 16 20); TimebaseNumerator := leUint32 (slice buffer 20 24);
     NumFrames := leUint32 (slice buffer 24 28); unused := leUint32 (slice buffer 28 32) |}.

Definition parseFileHeader (i : IVFReader) : result ivf_error IVFFileHeader * IVFReader :=
  match ReadFull ivfFileHeaderSize (r_stream i) with
  | (Err e, s) => (Err (incomplete e errIncompleteFileHeader), {| r_stream := s; bytesReadSuccesfully := bytesReadSuccesfully i |})
  | (Ok buffer, s) =>
      let header := file_header_of buffer in
      let i' := {| r_stream := s; bytesReadSuccesfully := bytesReadSuccesfully i |} in
      if negb (bool_decide (signature header = ivfFileHeaderSignature)) then (Err errSignatureMismatch, i')
      else if negb (version header =? 0) then (Err errUnknownIVFVersion, i')
      else (Ok header, {| r_stream := s; bytesReadSuccesfully := i64 (bytesReadSuccesfully i + blen buffer) |})
  end.

(** [ivfreader.NewWith]. *)
Definition NewReader (s : stream) : result ivf_error (IVFReader * IVFFileHeader) :=
  match parseFileHeader {| r_stream := s; bytesReadSuccesfully := 0 |} with
  | (Err e, _) => Err e
  | (Ok header, i) => Ok (i, header)
  end.

Definition ResetReader (reset : Z -> stream) (i : IVFReader) : IVFReader :=
  {| r_stream := reset (bytesReadSuccesfully i); bytesReadSuccesfully := bytesReadSuccesfully i |}.

Definition ParseNextFrame (i : IVFReader) : result ivf_error (bytes * IVFFrameHeader) * IVFReader :=
  match ReadFull ivfFrameHeaderSize (r_stream i) with
  | (Err e, s) => (Err (incomplete e errIncompleteFrameHeader), {| r_stream := s; bytesReadSuccesfully := bytesReadSuccesfully i |})
  | (Ok buffer, s) =>
      let header := {| FrameSize := leUint32 (slice buffer 0 4); Timestamp := leUint64 (slice buffer 4 12) |} in
      match ReadFull (FrameSize header) s with
      | (Err e, s) => (Err (incomplete e errIncompleteFrameData), {| r_stream := s; bytesReadSuccesfully := bytesReadSuccesfully i |})
      | (Ok payload, s) =>
          (Ok (payload, header), {| r_stream := s; bytesReadSuccesfully := i64 (bytesReadSuccesfully i + (blen buffer + blen payload)) |})
      end
  end.

(** * Writer *)

Record RtpPacket := { Marker : bool; Payload : bytes }.

Section Writer.
Context {A P : Type}.
(** [codecs.VP8Packet.Unmarshal]: the bit S and the payload. *)
Context (VP8_Unmarshal : bytes -> option (Z * bytes)).
(** [codecs.AV1Packet.Unmarshal] and [frame.AV1.ReadFrames]. *)
Context (AV1_Unmarshal : bytes -> option P) (ReadFrames : P -> A -> option (list bytes) * A).

(** [open] tells whether [ioWriter] is set; the file below it is [ioWriter].
    A nil [currentFrame] is [None]. *)
Record IVFWriter := {
  open : bool;
  ioWriter : file;
  count : Z;
  seenKeyFrame : bool;
  isVP8 : bool;
  isAV1 : bool;
  currentFrame : option bytes;
  av1Frame : A;
}.

Definition set_io (w : file) (i : IVFWriter) : IVFWriter :=
  {| open := open i; ioWriter := w; count := count i; seenKeyFrame := seenKeyFrame i; isVP8 := isVP8 i; isAV1 := isAV1 i;
     currentFrame := currentFrame i; av1Frame := av1Frame i |}.
Definition set_count (c : Z) (i : IVFWriter) : IVFWriter :=
  {| open := open i; ioWriter := ioWriter i; count := c; seenKeyFrame := seenKeyFrame i; isVP8 := isVP8 i; isAV1 := isAV1 i;
     currentFrame := currentFrame i; av1Frame := av1Frame i |}.
Definition set_frame (seen : bool) (f : option bytes) (i : IVFWriter) : IVFWriter :=
  {| open := open i; ioWriter := ioWriter i; count := count i; seenKeyFrame := seen; isVP8 := isVP8 i; isAV1 := isAV1 i;
     currentFrame := f; av1Frame := av1Frame i |}.
Definition set_codec (v a : bool) (i : IVFWriter) : IVFWriter :=
  {| open := open i; ioWriter := ioWriter i; count := count i; seenKeyFrame := seenKeyFrame i; isVP8 := v; isAV1 := a;
     currentFrame := currentFrame i; av1Frame := av1Frame i |}.
Definition set_av1 (a : A) (i : IVFWriter) : IVFWriter :=
  {| open := open i; ioWriter := ioWriter i; count := count i; seenKeyFrame := seenKeyFrame i; isVP8 := isVP8 i; isAV1 := isAV1 i;
     currentFrame := currentFrame i; av1Frame := a |}.
Definition closed (i : IVFWriter) : IVFWriter :=
  {| open := false; ioWriter := ioWriter i; count := count i; seenKeyFrame := seenKeyFrame i; isVP8 := isVP8 i; isAV1 := isAV1 i;
     currentFrame := currentFrame i; av1Frame := av1Frame i |}.

(** A write, as an error. *)
Definition write (b : bytes) (i : IVFWriter) : option ivf_error * IVFWriter :=
  let '(ok, w) := Write b (ioWriter i) in
  (if ok then None else Some errIvfWrite, set_io w i).

Definition file_header (fourcc : bytes) : bytes :=
  let header := replicate 32 0 in
  let header := put_at 0 ivfFileHeaderSignature header in
  let header := put_at 4 (lePutUint16 0) header in
  let header := put_at 6 (lePutUint16 32) header in
  let header := put_at 8 fourcc header in
  let header := put_at 12 (lePutUint16 640) header in
  let header := put_at 14 (lePutUint16 480) header in
  let header := put_at 16 (lePutUint32 30) header in
  let header := put_at 20 (lePutUint32 1) header in
  let header := put_at 24 (lePutUint32 900) header in
  put_at 28 (lePutUint32 0) header.

Definition writeHeader (i : IVFWriter) : option ivf_error * IVFWriter :=
  write (file_header (if isVP8 i then text "VP80" else if isAV1 i then text "AV01" else [])) i.

Definition WithCodec (mimeType : string) (i : IVFWriter) : option ivf_error * IVFWriter :=
  if isVP8 i || isAV1 i then (Some errCodecAlreadySet, i)
  else if String.eqb mimeType "video/VP8" then (None, set_codec true (isAV1 i) i)
  else if String.eqb mimeType "video/AV1" then (None, set_codec (isVP8 i) true i)
  else (Some errNoSuchCodec, i).

Fixpoint apply_options (opts : list string) (i : IVFWriter) : option ivf_error * IVFWriter :=
  match opts with
  | [] => (None, i)
  | o :: opts =>
      match WithCodec o i with
      | (Some e, i) => (Some e, i)
      | (None, i) => apply_options opts i
      end
  end.

(** [ivfwriter.NewWith]; the options are mime types given to [WithCodec]. *)
Definition NewWriter (out : option file) (a0 : A) (opts : list string) : result ivf_error IVFWriter :=
  match out with
  | None => Err errFileNotOpened
  | Some out =>
      let i := {| open := true; ioWriter := out; count := 0; seenKeyFrame := false; isVP8 := false; isAV1 := false;
                  currentFrame := None; av1Frame := a0 |} in
      match apply_options opts i with
      | (Some e, _) => Err e
      | (None, i) =>
          let i := if negb (isAV1 i) && negb (isVP8 i) then set_codec true (isAV1 i) i else i in
          match writeHeader i with
          | (Some e, _) => Err e
          | (None, i) => Ok i
          end
      end
  end.

Definition frame_header (n count : Z) : bytes :=
  put_at 4 (lePutUint64 count) (put_at 0 (lePutUint32 (u32 n)) (replicate 12 0)).

Definition writeFrame (frame : bytes) (i : IVFWriter) : option ivf_error * IVFWriter :=
  let frameHeader := frame_header (blen frame) (count i) in
  let i := set_count (u64 (count i + 1)) i in
  match write frameHeader i with
  | (Some e, i) => (Some e, i)
  | (None, i) => write frame i
  end.

(** The loop over the frames of an AV1 packet. *)
Fixpoint writeFrames (obus : list bytes) (i : IVFWriter) : option ivf_error * IVFWriter :=
  match obus with
  | [] => (None, i)
  | o :: obus =>
      match writeFrame o i with
      | (Some e, i) => (Some e, i)
      | (None, i) => writeFrames obus i
      end
  end.

Definition WriteRTP (packet : RtpPacket) (i : IVFWriter) : option (option ivf_error * IVFWriter) :=
  if negb (open i) then Some (Some errFileNotOpened, i)
  else if blen (Payload packet) =? 0 then Some (None, i)
  else if isVP8 i then
    match VP8_Unmarshal (Payload packet) with
    | None => Some (Some errUnmarshal, i)
    | Some (S_, payload) =>
        match payload with
        | [] => None
        | b :: _ =>
            let isKeyFrame := Z.land b 1 in
            if negb (seenKeyFrame i) && (isKeyFrame =? 1) then Some (None, i)
            else if bool_decide (currentFrame i = None) && negb (S_ =? 1) then Some (None, i)
            else
              let frame := default [] (currentFrame i) ++ payload in
              let i := set_frame true (Some frame) i in
              if negb (Marker packet) then Some (None, i)
              else if blen frame =? 0 then Some (None, i)
              else
                match writeFrame frame i with
                | (Some e, i) => Some (Some e, i)
                | (None, i) => Some (None, set_frame true None i)
                end
        end
    end
  else if isAV1 i then
    match AV1_Unmarshal (Payload packet) with
    | None => Some (Some errUnmarshal, i)
    | Some p =>
        let '(obus, a) := ReadFrames p (av1Frame i) in
        let i := set_av1 a i in
        match obus with
        | None => Some (Some errUnmarshal, i)
        | Some obus => Some (writeFrames obus i)
        end
    end
  else Some (None, i).

(** Closing the file below, where it can be closed, is the operating system's. *)
Definition Close (i : IVFWriter) : option ivf_error * IVFWriter :=
  if negb (open i) then (None, i)
  else if seekable (ioWriter i) then
    let '(ok, w) := Seek 24 (ioWriter i) in
    let i := set_io w i in
    if negb ok then (Some errIvfWrite, closed i)
    else
      let '(e, i) := write (lePutUint32 (u32 (count i))) i in
      (e, closed i)
  else (None, closed i).
End Writer.

(** * What is written is read *)

(** Reading frame after frame, up to the first error. *)
Fixpoint read_all (fuel : nat) (i : IVFReader) : option (list (bytes * IVFFrameHeader) * ivf_error * IVFReader) :=
  match fuel with
  | O => None
  | S fuel =>
      match ParseNextFrame i with
      | (Err e, i) => Some ([], e, i)
      | (Ok x, i) => '(l, e, i) ← read_all fuel i; Some (x :: l, e, i)
      end
  end.

Definition frame_bytes (k : nat) (f : bytes) : bytes := frame_header (blen f) (Z.of_nat k) ++ f.
(** The frames [fs] in a file, numbered from [k]. *)
Fixpoint frames_bytes (k : nat) (fs : list bytes) : bytes :=
  match fs with [] => [] | f :: fs => frame_bytes k f ++ frames_bytes (S k) fs end.
Fixpoint numbered (k : nat) (fs : list bytes) : list (bytes * IVFFrameHeader) :=
  match fs with
  | [] => []
  | f :: fs => (f, {| FrameSize := blen f; Timestamp := Z.of_nat k |}) :: numbered (S k) fs
  end.

Lemma frames_bytes_snoc k fs f : frames_bytes k (fs ++ [f]) = frames_bytes k fs ++ frame_bytes (k + length fs) f.
Proof.
  revert k. induction fs as [|x fs IH]; intros k; simpl; [by rewrite Nat.add_0_r, app_nil_r|].
  rewrite IH, <- app_assoc. by replace (S k + length fs)%nat with (k + S (length fs))%nat by lia.
Qed.

Lemma frame_header_eq n c : frame_header n c = lePutUint32 (u32 n) ++ lePutUint64 c.
Proof. reflexivity. Qed.

Lemma ParseNextFrame_frame k f l b n : blen f < 4294967296 -> Z.of_nat k < 18446744073709551616 ->
  ParseNextFrame {| r_stream := {| rest := frame_bytes k f ++ l; fails := b |}; bytesReadSuccesfully := n |} =
    (Ok (f, {| FrameSize := blen f; Timestamp := Z.of_nat k |}), {| r_stream := {| rest := l; fails := b |}; bytesReadSuccesfully := i64 (n + (12 + blen f)) |}).
Proof.
  intros Hf Hk. unfold ParseNextFrame, frame_bytes. cbn [r_stream bytesReadSuccesfully]. rewrite <- app_assoc, ReadFull_app by done.
  pose proof (blen_nonneg f). rewrite frame_header_eq, (u32_small (blen f)) by lia.
  change (leUint32 (slice (lePutUint32 (blen f) ++ lePutUint64 (Z.of_nat k)) 0 4)) with (leUint32 (lePutUint32 (blen f) ++ [])).
  change (slice (lePutUint32 (blen f) ++ lePutUint64 (Z.of_nat k)) 4 12) with (lePutUint64 (Z.of_nat k) ++ []).
  rewrite leUint32_put, leUint64_put by lia. cbn [FrameSize]. by rewrite ReadFull_app.
Qed.

Lemma read_all_frames fs t e b : (forall n, exists i', ParseNextFrame {| r_stream := {| rest := t; fails := b |}; bytesReadSuccesfully := n |} = (Err e, i')) ->
  forall k n, Forall (fun f => blen f < 4294967296) fs -> Z.of_nat (k + length fs) < 18446744073709551616 ->
  exists i', read_all (S (length fs)) {| r_stream := {| rest := frames_bytes k fs ++ t; fails := b |}; bytesReadSuccesfully := n |} =
    Some (numbered k fs, e, i').
Proof.
  intros Ht. induction fs as [|f fs IH]; intros k n Hf Hk.
  { cbn [frames_bytes app length read_all]. destruct (Ht n) as [i' ->]. by eexists. }
  apply Forall_cons in Hf as [Hf Hfs]. simpl in Hk. cbn [length frames_bytes]. rewrite <- app_assoc. cbn [read_all].
  rewrite ParseNextFrame_frame by (done || lia). destruct (IH (S k) (i64 (n + (12 + blen f)))) as [i' E]; [done|lia|].
  cbn [read_all] in E. rewrite E. by eexists.
Qed.

Lemma ParseNextFrame_end n : exists i', ParseNextFrame {| r_stream := stream_of []; bytesReadSuccesfully := n |} = (Err (IvfRead EOF), i').
Proof. by eexists. Qed.

(** How the reader reports a file cut [n] bytes into a frame. *)
Definition cut_error (n : nat) : ivf_error :=
  if (n =? 0)%nat || (n =? 12)%nat then IvfRead EOF
  else if (n <? 12)%nat then errIncompleteFrameHeader else errIncompleteFrameData.

Lemma ParseNextFrame_cut k f n m : blen f < 4294967296 -> (n < length (frame_bytes k f))%nat ->
  exists i', ParseNextFrame {| r_stream := stream_of (take n (frame_bytes k f)); bytesReadSuccesfully := m |} = (Err (cut_error n), i').
Proof.
  intros Hf Hn. pose proof (blen_nonneg f). unfold ParseNextFrame, frame_bytes in *. rewrite frame_header_eq, (u32_small (blen f)) in * by lia.
  set (h := lePutUint32 (blen f) ++ lePutUint64 (Z.of_nat k)) in *. assert (length h = 12%nat) as Hh by done. cbn [r_stream bytesReadSuccesfully].
  rewrite length_app, Hh in Hn. unfold cut_error. destruct (Nat.ltb_spec n 12).
  - rewrite ReadFull_short by (rewrite blen_take; unfold ivfFrameHeaderSize; lia). rewrite take_app_le by lia.
    destruct (Nat.eqb_spec n 0) as [->|]; [by eexists|]. rewrite (proj2 (Nat.eqb_neq n 12)) by lia. cbn [orb].
    rewrite (proj2 (Z.eqb_neq _ 0)) by (rewrite blen_take; unfold blen; lia). by eexists.
  - rewrite take_app_ge by lia. unfold stream_of. rewrite ReadFull_app by done.
    change (leUint32 (slice h 0 4)) with (leUint32 (lePutUint32 (blen f) ++ [])). rewrite leUint32_put by lia. cbn [FrameSize].
    change {| rest := ?l; fails := false |} with (stream_of l). rewrite ReadFull_short by (rewrite blen_take; unfold blen in *; lia).
    rewrite (proj2 (Nat.eqb_neq n 0)) by lia. cbn [orb]. rewrite Hh, blen_take. destruct (Nat.eqb_spec n 12) as [->|].
    + rewrite (proj2 (Z.eqb_eq _ 0)) by lia. by eexists.
    + rewrite (proj2 (Z.eqb_neq _ 0)) by (unfold blen in *; lia). by eexists.
Qed.

(** A file that ends inside a frame gives its whole frames, and then an error
    that tells what is missing, unless it ends after the header of the frame:
    this is reported as the end of a complete file. *)
Theorem ivf_cut_detected fs f n : Forall (fun f => blen f < 4294967296) (f :: fs) -> Z.of_nat (length fs) < 18446744073709551616 ->
  (n < length (frame_bytes (length fs) f))%nat ->
  exists r, read_all (S (length fs)) {| r_stream := stream_of (frames_bytes 0 fs ++ take n (frame_bytes (length fs) f)); bytesReadSuccesfully := 0 |} =
    Some (numbered 0 fs, cut_error n, r).
Proof.
  intros [Hf Hfs]%Forall_cons Hk Hn. apply read_all_frames; [|done|done]. intros m. by apply ParseNextFrame_cut.
Qed.

(** The header a writer leaves, with its number of frames. *)
Definition written_header (fourcc : bytes) (n : Z) : bytes :=
  take 24 (file_header fourcc) ++ lePutUint32 n ++ lePutUint32 0.

Lemma NewReader_written n l b : 0 <= n < 4294967296 ->
  NewReader {| rest := written_header (text "VP80") n ++ l; fails := b |} =
    Ok ({| r_stream := {| rest := l; fails := b |}; bytesReadSuccesfully := 32 |},
        {| signature := ivfFileHeaderSignature; version := 0; headerSize := 32; FourCC := text "VP80"; Width := 640; Height := 480;
           TimebaseDenominator := 30; TimebaseNumerator := 1; NumFrames := n; unused := 0 |}).
Proof.
  intros Hn. unfold NewReader, parseFileHeader. cbn [r_stream bytesReadSuccesfully]. rewrite ReadFull_app by done.
  assert (file_header_of (written_header (text "VP80") n) =
    {| signature := ivfFileHeaderSignature; version := 0; headerSize := 32; FourCC := text "VP80"; Width := 640; Height := 480;
           TimebaseDenominator := 30; TimebaseNumerator := 1; NumFrames := leUint32 (lePutUint32 n ++ []); unused := 0 |}) as -> by reflexivity.
  rewrite leUint32_put by done. reflexivity.
Qed.

Lemma close_header l n : put_at 24 (lePutUint32 n) (file_header (text "VP80") ++ l) = written_header (text "VP80") n ++ l.
Proof. reflexivity. Qed.

Section Written.
Context {A P : Type}.
Context (VP8_Unmarshal : bytes -> option (Z * bytes)).
Context (AV1_Unmarshal : bytes -> option P) (ReadFrames : P -> A -> option (list bytes) * A).
#[local] Abbreviation write_rtp := (WriteRTP VP8_Unmarshal AV1_Unmarshal ReadFrames).

(** Packet after packet, up to the first error. *)
Fixpoint write_all (ps : list RtpPacket) (i : IVFWriter) : option (option ivf_error * IVFWriter) :=
  match ps with
  | [] => Some (None, i)
  | p :: ps =>
      match write_rtp p i with
      | Some (None, i) => write_all ps i
      | r => r
      end
  end.

(** A packet is the part [c] of a frame. *)
Definition carries (first : bool) (p : RtpPacket) (c : bytes) : Prop :=
  Payload p <> [] /\ c <> [] /\ exists S_, VP8_Unmarshal (Payload p) = Some (S_, c) /\ (first = true -> S_ = 1).

(** The packets of a frame: the first has the bit S, the last the marker. *)
Inductive frame_packets : bool -> bytes -> list RtpPacket -> Prop :=
| fp_last first p c : carries first p c -> Marker p = true -> frame_packets first c [p]
| fp_more first p c f ps : carries first p c -> Marker p = false -> frame_packets false f ps -> frame_packets first (c ++ f) (p :: ps).

Inductive stream_packets : list bytes -> list RtpPacket -> Prop :=
| sp_nil : stream_packets [] []
| sp_cons f fs ps qs : frame_packets true f ps -> stream_packets fs qs -> stream_packets (f :: fs) (ps ++ qs).

(** Packets before the first key frame: empty, of another frame, or not the
    first one of a frame. *)
Definition skipped (p : RtpPacket) : Prop :=
  Payload p = [] \/ exists S_ b c, VP8_Unmarshal (Payload p) = Some (S_, b :: c) /\ (Z.land b 1 = 1 \/ S_ <> 1).

(** The writer after the frames [fs], of which the last may be incomplete. *)
Definition wrote (sk : bool) (seen : bool) (fs : list bytes) (cur : option bytes) (a : A) : IVFWriter :=
  {| open := true; ioWriter := good_file sk (file_header (text "VP80") ++ frames_bytes 0 fs); count := u64 (Z.of_nat (length fs));
     seenKeyFrame := seen; isVP8 := true; isAV1 := false; currentFrame := cur; av1Frame := a |}.

Lemma write_all_app ps qs i i' : write_all ps i = Some (None, i') -> write_all (ps ++ qs) i = write_all qs i'.
Proof.
  revert i. induction ps as [|p ps IH]; simpl; intros i H; [by simplify_eq|].
  destruct (write_rtp p i) as [[[e|] i1]|]; [done| |done]. by apply IH.
Qed.

Lemma NewWriter_ok sk a : NewWriter (Some (good_file sk [])) a [] = Ok (wrote sk false [] None a).
Proof.
  unfold NewWriter. cbn -[writeHeader good_file]. unfold writeHeader, write. cbn -[Write good_file file_header]. rewrite Write_good.
  unfold wrote, set_io. cbn. reflexivity.
Qed.

Lemma writeFrame_ok sk seen fs cur a f : Z.of_nat (length fs) < 18446744073709551616 ->
  writeFrame f (wrote sk seen fs cur a) = (None, wrote sk seen (fs ++ [f]) cur a).
Proof.
  intros Hn. unfold writeFrame, write, wrote. cbn -[Write good_file file_header frame_header frames_bytes u64]. rewrite Write_good.
  cbn -[Write good_file file_header frame_header frames_bytes u64]. rewrite Write_good. unfold set_io, set_count. cbn -[good_file file_header frame_header frames_bytes u64].
  rewrite frames_bytes_snoc. unfold frame_bytes. rewrite (u64_small (Z.of_nat (length fs))) by lia.
  rewrite length_app. cbn [length]. rewrite <- !app_assoc. do 3 f_equal. lia.
Qed.

Lemma skipped_ok sk a ps : Forall skipped ps -> write_all ps (wrote sk false [] None a) = Some (None, wrote sk false [] None a).
Proof.
  induction 1 as [|p ps Hp _ IH]; [done|]. cbn [write_all]. unfold WriteRTP. cbn [wrote open negb isVP8].
  destruct Hp as [->|(S_ & b & c & E & Hd)]; [exact IH|].
  destruct (blen (Payload p) =? 0); [exact IH|]. rewrite E. cbn [wrote seenKeyFrame negb andb].
  destruct (Z.eqb_spec (Z.land b 1) 1); [exact IH|]. destruct Hd as [?|Hs]; [done|]. cbn [wrote currentFrame].
  rewrite bool_decide_true by done. rewrite (proj2 (Z.eqb_neq _ _) Hs). exact IH.
Qed.

(** The frame starts with a byte that marks it as a key frame. *)
Definition key_frame (f : bytes) : Prop := Z.land (hd 0 f) 1 <> 1.

Lemma part_ok sk seen fs cur a first p c : carries first p c -> seen = true \/ key_frame c -> (first = false -> cur <> None) ->
  Z.of_nat (length fs) < 18446744073709551616 ->
  write_rtp p (wrote sk seen fs cur a) =
    Some (None, if Marker p then wrote sk true (fs ++ [default [] cur ++ c]) None a else wrote sk true fs (Some (default [] cur ++ c)) a).
Proof.
  intros (Hp & Hc & S_ & E & HS) Hk Hf Hn. unfold WriteRTP. cbn [wrote open negb isVP8].
  destruct (Z.eqb_spec (blen (Payload p)) 0); [by destruct (Payload p)|]. rewrite E. destruct c as [|b c]; [done|].
  cbn [wrote seenKeyFrame currentFrame].
  assert (negb seen && (Z.land b 1 =? 1) = false) as ->.
  { destruct Hk as [->|Hk]; [done|]. unfold key_frame in Hk. cbn [hd] in Hk. by rewrite (proj2 (Z.eqb_neq _ _) Hk), andb_false_r. }
  assert (bool_decide (cur = None) && negb (S_ =? 1) = false) as ->.
  { destruct first; [by rewrite HS, andb_false_r|]. rewrite bool_decide_false by auto. done. }
  change (set_frame true (Some (default [] cur ++ b :: c)) _) with (wrote sk true fs (Some (default [] cur ++ b :: c)) a).
  destruct (Marker p); [|done]. cbn [negb].
  destruct (Z.eqb_spec (blen (default [] cur ++ b :: c)) 0) as [H0|_].
  { rewrite blen_app in H0. pose proof (blen_nonneg (default [] cur)). unfold blen in H0 at 2. simpl in H0. lia. }
  by rewrite writeFrame_ok.
Qed.

Lemma frame_ok sk fs a first f ps : frame_packets first f ps -> forall seen cur, seen = true \/ key_frame f -> (first = false -> cur <> None) ->
  Z.of_nat (length fs) < 18446744073709551616 ->
  write_all ps (wrote sk seen fs cur a) = Some (None, wrote sk true (fs ++ [default [] cur ++ f]) None a).
Proof.
  induction 1 as [first p c Hc Hm|first p c f ps Hc Hm _ IH]; intros seen cur Hk Hf Hn; cbn [write_all].
  - by rewrite (part_ok _ _ _ _ _ first p c), Hm.
  - assert (seen = true \/ key_frame c) as Hk'.
    { destruct Hk as [?|Hk]; [by left|right]. destruct Hc as (_ & Hc & _). by destruct c. }
    rewrite (part_ok _ _ _ _ _ first p c) by done. rewrite Hm, IH by auto. simpl. by rewrite <- app_assoc.
Qed.

Lemma stream_ok sk a qs ps : stream_packets qs ps -> forall seen fs, seen = true \/ key_frame (hd [] qs) -> qs <> [] ->
  Z.of_nat (length fs + length qs) < 18446744073709551616 ->
  write_all ps (wrote sk seen fs None a) = Some (None, wrote sk true (fs ++ qs) None a).
Proof.
  induction 1 as [|f qs ps ps' Hf H IH]; intros seen fs Hk Hne Hn; [done|]. simpl in Hn.
  rewrite (write_all_app _ _ _ (wrote sk true (fs ++ [f]) None a)); [|rewrite (frame_ok _ _ _ _ _ _ Hf); simpl; auto; lia].
  destruct qs as [|q qs]; [by inversion H|]. rewrite IH; [|by left|done|rewrite length_app; simpl in *; lia]. by rewrite <- app_assoc.
Qed.

(** Frames sent as VP8 packets, after packets that come before the first key
    frame, are all in the file once the writer is closed: the reader gives them
    in their order, numbered from 0, with their number in the header if the
    file can be repositioned, and then the end of the file. *)
Theorem ivf_roundtrip sk a pre fs ps : Forall skipped pre -> stream_packets fs ps -> fs <> [] -> key_frame (hd [] fs) ->
  Forall (fun f => blen f < 4294967296) fs -> Z.of_nat (length fs) < 18446744073709551616 ->
  exists i0 i1 i2 r h r', NewWriter (Some (good_file sk [])) a [] = Ok i0 /\ write_all (pre ++ ps) i0 = Some (None, i1) /\ Close i1 = (None, i2) /\
    NewReader (stream_of (contents (ioWriter i2))) = Ok (r, h) /\
    FourCC h = text "VP80" /\ NumFrames h = (if sk then u32 (Z.of_nat (length fs)) else 900) /\
    read_all (S (length fs)) r = Some (numbered 0 fs, IvfRead EOF, r').
Proof.
  intros Hpre Hs Hne Hk Hsz Hn. eexists _, (wrote sk true fs None a). rewrite (NewWriter_ok sk a).
  set (n := if sk then u32 (Z.of_nat (length fs)) else 900).
  assert (0 <= n < 4294967296) as Hnn by (subst n; destruct sk; [apply u32_range|lia]).
  assert (exists i2, Close (wrote sk true fs None a) = (None, i2) /\
    contents (ioWriter i2) = written_header (text "VP80") n ++ frames_bytes 0 fs) as (i2 & HC & Hc).
  { unfold Close. destruct sk; subst n.
    - cbn -[Seek Write good_file file_header frames_bytes u64 u32]. rewrite (u64_small (Z.of_nat (length fs))) by lia. by eexists.
    - cbn -[file_header frames_bytes]. eexists. split; [done|]. reflexivity. }
  exists i2. rewrite Hc, HC. unfold stream_of. destruct (read_all_frames fs [] _ false ParseNextFrame_end 0 32 Hsz ltac:(lia)) as [r' Hr]. rewrite app_nil_r in Hr.
  do 2 eexists. exists r'. split; [done|]. split; [|split; [done|]; split; [by apply NewReader_written|done]].
  rewrite (write_all_app _ _ _ (wrote sk false [] None a)) by (by apply skipped_ok).
  by rewrite (stream_ok sk a fs ps) by auto.
Qed.
End Written.

(** * Concrete runs *)

Module TestIvf.
(** Packets whose first byte is the bit S. *)
Definition vp8 (p : bytes) : option (Z * bytes) := match p with [] => None | s :: p => Some (s, p) end.
Definition av1 (p : bytes) : option bytes := None.
Definition no_frames (p : bytes) (a : unit) : option (list bytes) * unit := (None, a).

Definition packet (m : bool) (p : bytes) : RtpPacket := {| Marker := m; Payload := p |}.

(** A frame that is not a key frame, then a key frame in two packets, then
    another frame. *)
Definition pre : list RtpPacket := [packet true [1;3;3]].
Definition packets : list RtpPacket := [packet false [1;2;5]; packet true [0;7]; packet true [1;9]].

Lemma packets_frames : stream_packets vp8 [[2;5;7]; [9]] packets.
Proof.
  change [[2;5;7]; [9]] with [[2;5] ++ [7]; [9]]. change packets with ([packet false [1;2;5]; packet true [0;7]] ++ [packet true [1;9]] ++ []).
  constructor; [|constructor; [|constructor]].
  - apply fp_more; [|done|apply fp_last; [|done]]; (split; [done|split; [done|]]; eexists; done).
  - apply fp_last; [|done]. split; [done|split; [done|]]. by eexists.
Qed.

Lemma ivf_roundtrip_witness : exists i0 i1 i2 r h r', NewWriter (Some (good_file true [])) tt [] = Ok i0 /\
  write_all vp8 av1 no_frames (pre ++ packets) i0 = Some (None, i1) /\ Close i1 = (None, i2) /\
  NewReader (stream_of (contents (ioWriter i2))) = Ok (r, h) /\ NumFrames h = 2 /\
  read_all 3 r = Some (numbered 0 [[2;5;7]; [9]], IvfRead EOF, r').
Proof.
  destruct (ivf_roundtrip vp8 av1 no_frames true tt pre [[2;5;7]; [9]] packets)
    as (i0 & i1 & i2 & r & h & r' & H1 & H2 & H3 & H4 & _ & H5 & H6).
  - constructor; [|constructor]. right. exists 1, 3, [3]. split; [done|by left].
  - apply packets_frames.
  - done.
  - done.
  - repeat constructor.
  - reflexivity.
  - by exists i0, i1, i2, r, h, r'.
Defined.

Lemma ivf_cut_detected_witness : exists r,
  read_all 2 {| r_stream := stream_of (frames_bytes 0 [[2;5;7]] ++ take 12 (frame_bytes 1 [9])); bytesReadSuccesfully := 0 |} =
    Some (numbered 0 [[2;5;7]], IvfRead EOF, r).
Proof.
  apply (ivf_cut_detected [[2;5;7]] [9] 12); [repeat constructor|reflexivity|cbn; lia].
Defined.
End TestIvf.
