(* ===== verification/MediaRtpDump.v ===== *)
(** The rtpdump files of pion-webrtc (pkg/media/rtpdump): headers, packets, the
    writer and the reader.  A time is in nanoseconds since 1970. *)

From S2P Require Import Prelude GoNet GoText GoIO.

#[local] Open Scope string_scope.
#[local] Open Scope list_scope.
#[local] Open Scope Z_scope.

Definition pktHeaderLen : Z := 8.
Definition headerLen : Z := 16.
Definition preambleLen : Z := 36.

Inductive dump_error := errMalformed | DumpRead (e : read_error) | errDumpWrite.

(** * Headers and packets *)

Record Header := { Start : Z; Source : list Z; Port : Z }.

Definition Header_Marshal (h : Header) : bytes :=
  let d := replicate 16 0 in
  let startNano := Start h in
  let startSec := u32 (Z.quot startNano second) in
  let startUsec := u32 (Z.quot (Z.rem startNano second) 1000) in
  let d := put_at 0 (putUint32 startSec) d in
  let d := put_at 4 (putUint32 startUsec) d in
  let d := put_at 8 (default [] (NetIP.To4 (Source h))) d in
  put_at 12 (putUint16 (Port h)) d.

Definition Header_Unmarshal (d : bytes) : result dump_error Header :=
  if blen d <? headerLen then Err errMalformed
  else
    let startSec := getUint32 d in
    let startUsec := getUint32 (drop 4 d) in
    Ok {| Start := startSec * second + startUsec * 1000;
          Source := NetIP.v4InV6Prefix ++ [byte_at d 8; byte_at d 9; byte_at d 10; byte_at d 11];
          Port := getUint16 (drop 12 d) |}.

Record Packet := { Offset : Z; IsRTCP : bool; Payload : bytes }.

Record packetHeader := { Length : Z; PacketLength : Z; hOffset : Z }.

Definition packetHeader_Marshal (p : packetHeader) : bytes :=
  let d := replicate 8 0 in
  let d := put_at 0 (putUint16 (Length p)) d in
  let d := put_at 2 (putUint16 (PacketLength p)) d in
  put_at 4 (putUint32 (hOffset p)) d.

Definition packetHeader_Unmarshal (d : bytes) : result dump_error packetHeader :=
  if blen d <? pktHeaderLen then Err errMalformed
  else Ok {| Length := getUint16 d; PacketLength := getUint16 (drop 2 d); hOffset := getUint32 (drop 4 d) |}.

Definition offset (p : packetHeader) : Z := hOffset p * millisecond.
Definition offsetMs (p : Packet) : Z := u32 (Z.quot (Offset p) millisecond).

Definition Packet_Marshal (p : Packet) : bytes :=
  let packetLength := if IsRTCP p then 0 else blen (Payload p) in
  packetHeader_Marshal {| Length := u16 (u16 (blen (Payload p)) + 8); PacketLength := u16 packetLength; hOffset := offsetMs p |}
    ++ Payload p.

Definition Packet_Unmarshal (d : bytes) : result dump_error Packet :=
  match packetHeader_Unmarshal d with
  | Err e => Err e
  | Ok hdr =>
      if Length hdr <? 8 then Err errMalformed
      else if blen d <? Length hdr then Err errMalformed
      else Ok {| Offset := offset hdr; IsRTCP := negb (Length hdr =? 0) && (PacketLength hdr =? 0); Payload := slice d 8 (Length hdr) |}
  end.

(** * Writer *)

Definition preamble (hdr : Header) : bytes :=
  text ("#!rtpplay1.0 " +:+ NetIP.ipString (default [] (NetIP.To4 (Source hdr))) +:+ "/" +:+ itoa (Port hdr)) ++ [10].

Definition NewWriter (w : file) (hdr : Header) : option dump_error * file :=
  let '(ok, w) := Write (preamble hdr) w in
  if negb ok then (Some errDumpWrite, w)
  else
    let '(ok, w) := Write (Header_Marshal hdr) w in
    (if ok then None else Some errDumpWrite, w).

Definition WritePacket (p : Packet) (w : file) : option dump_error * file :=
  let '(ok, w) := Write (Packet_Marshal p) w in
  (if ok then None else Some errDumpWrite, w).

(** * Reader *)

Definition is_digit (b : Z) : bool := (48 <=? b) && (b <=? 57).

(** [\d{1,n}], which takes all the digits it can: what follows it in the
    expression is not a digit. *)
Fixpoint digit_run (n : nat) (l : bytes) : bytes :=
  match n, l with
  | S n, b :: l' => if is_digit b then digit_run n l' else l
  | _, _ => l
  end.
Definition some_digits (n : nat) (l : bytes) : option bytes :=
  match l with
  | b :: l' => if is_digit b then Some (digit_run (n - 1) l') else None
  | [] => None
  end.

(** A literal. *)
Fixpoint literal (s l : bytes) : option bytes :=
  match s, l with
  | [], l => Some l
  | a :: s, b :: l => if a =? b then literal s l else None
  | _, [] => None
  end.

(** The regular expression of the preamble, at the start of [l]. *)
Definition preamble_at (l : bytes) : bool :=
  match
    l ← literal (text "#!rtpplay1.0 ") l;
    l ← some_digits 3 l; l ← literal (text ".") l;
    l ← some_digits 3 l; l ← literal (text ".") l;
    l ← some_digits 3 l; l ← literal (text ".") l;
    l ← some_digits 3 l; l ← literal (text "/") l;
    l ← some_digits 5 l; literal [10] l
  with Some _ => true | None => false end.

(** It is not anchored. *)
Fixpoint preamble_match (l : bytes) : bool :=
  preamble_at l || match l with [] => false | _ :: l => preamble_match l end.

(** What follows the first line. *)
Fixpoint after_line (l : bytes) : bytes :=
  match l with [] => [] | b :: l => if b =? 10 then l else after_line l end.

Definition malformed_if (e : read_error) : dump_error :=
  match e with EOF | ErrUnexpectedEOF => errMalformed | ReadFailed => DumpRead e end.

(** The line is in the bytes that were looked at: [ReadLine] does not fail. *)
Definition NewReader (r : stream) : result dump_error (stream * Header) :=
  if blen (rest r) <? preambleLen then Err (if fails r then DumpRead ReadFailed else errMalformed)
  else if negb (preamble_match (take (Z.to_nat preambleLen) (rest r))) then Err errMalformed
  else
    match ReadFull headerLen {| rest := after_line (rest r); fails := fails r |} with
    | (Err e, _) => Err (malformed_if e)
    | (Ok hBuf, r) => hdr ← Header_Unmarshal hBuf; Ok (r, hdr)
    end.

(** The branches that follow the reads of [Next]. *)
Definition unexpected (e : read_error) : dump_error :=
  match e with ErrUnexpectedEOF => errMalformed | _ => DumpRead e end.

Definition Next (r : stream) : result dump_error Packet * stream :=
  match ReadFull pktHeaderLen r with
  | (Err e, r) => (Err (unexpected e), r)
  | (Ok hBuf, r) =>
      match packetHeader_Unmarshal hBuf with
      | Err e => (Err e, r)
      | Ok h =>
          if Length h =? 0 then (Err errMalformed, r)
          else
            match ReadFull (u16 (Length h - pktHeaderLen)) r with
            | (Err e, r) => (Err (unexpected e), r)
            | (Ok payload, r) => (Ok {| Offset := offset h; IsRTCP := PacketLength h =? 0; Payload := payload |}, r)
            end
      end
  end.

(** * What is written is read *)

(** Packets that the format can hold. *)
Definition packet_ok (p : Packet) : Prop :=
  0 <= Offset p < 4294967296 * millisecond /\ Offset p mod millisecond = 0 /\ blen (Payload p) <= 65527 /\
  (IsRTCP p = true \/ Payload p <> []).

Definition header_ok (h : Header) : Prop :=
  0 <= Start h < 4294967296 * second /\ Start h mod 1000 = 0 /\ 0 <= Port h < 65536 /\
  exists a b c d, NetIP.To4 (Source h) = Some [a;b;c;d] /\ byte_ok a /\ byte_ok b /\ byte_ok c /\ byte_ok d.

(** The header with its address in the form [net.IPv4] gives it. *)
Definition normal (h : Header) : Header :=
  {| Start := Start h; Source := NetIP.v4InV6Prefix ++ default [] (NetIP.To4 (Source h)); Port := Port h |}.

Lemma packet_header_ok p : packet_ok p -> packetHeader_Unmarshal (packetHeader_Marshal
    {| Length := u16 (u16 (blen (Payload p)) + 8); PacketLength := u16 (if IsRTCP p then 0 else blen (Payload p)); hOffset := offsetMs p |}) =
  Ok {| Length := blen (Payload p) + 8; PacketLength := if IsRTCP p then 0 else blen (Payload p); hOffset := Offset p / millisecond |}.
Proof.
  intros (Ho & Hm & Hl & _). pose proof (blen_nonneg (Payload p)) as H0. unfold offsetMs. unfold millisecond in *.
  rewrite Z.quot_div_nonneg by lia.
  assert (0 <= Offset p / 1000000 < 4294967296) by (split; [apply Z.div_pos; lia|apply Z.div_lt_upper_bound; lia]).
  rewrite (u32_small (_ / _)), (u16_small (blen _)), (u16_small (_ + 8)) by lia.
  set (pl := u16 _). unfold packetHeader_Unmarshal. cbn [blen].
  change (blen _ <? pktHeaderLen) with false. cbv iota.
  set (h := packetHeader_Marshal _).
  change h with (putUint16 (blen (Payload p) + 8) ++ drop 2 h). rewrite getUint16_put by lia.
  change (drop 2 (putUint16 _ ++ drop 2 h)) with (putUint16 pl ++ drop 4 h). rewrite getUint16_put by apply u16_range.
  change (drop 4 (putUint16 _ ++ drop 2 h)) with (putUint32 (Offset p / 1000000) ++ []). rewrite getUint32_put by lia.
  subst pl. rewrite u16_small by (destruct (IsRTCP p); lia). done.
Qed.

Lemma packet_again p : packet_ok p ->
  {| Offset := offset {| Length := blen (Payload p) + 8; PacketLength := if IsRTCP p then 0 else blen (Payload p); hOffset := Offset p / millisecond |};
     IsRTCP := (if IsRTCP p then 0 else blen (Payload p)) =? 0; Payload := Payload p |} = p.
Proof.
  intros (Ho & Hm & Hl & Hr). unfold offset. cbn [hOffset]. rewrite Z.mul_comm, <- Z_div_exact_full_2 by done.
  destruct p as [o r l]. cbn in *. f_equal. destruct r; [done|]. destruct Hr as [?|Hr]; [done|]. apply Z.eqb_neq. by destruct l.
Qed.

Lemma Next_packet p l b : packet_ok p -> Next {| rest := Packet_Marshal p ++ l; fails := b |} = (Ok p, {| rest := l; fails := b |}).
Proof.
  intros Hp. unfold Next, Packet_Marshal. rewrite <- app_assoc, ReadFull_app by done. rewrite packet_header_ok by done. cbn [Length PacketLength].
  pose proof (blen_nonneg (Payload p)). destruct Hp as (Ho & Hm & Hl & Hr) eqn:Ep.
  rewrite (proj2 (Z.eqb_neq _ 0)) by lia. unfold pktHeaderLen. rewrite u16_small by lia.
  rewrite ReadFull_app by lia. by rewrite packet_again.
Qed.

Lemma Packet_roundtrip p l : packet_ok p -> Packet_Unmarshal (Packet_Marshal p ++ l) = Ok p.
Proof.
  intros Hp. pose proof (blen_nonneg (Payload p)). pose proof (blen_nonneg l). unfold Packet_Unmarshal, Packet_Marshal. rewrite <- app_assoc.
  set (h := packetHeader_Marshal _).
  assert (packetHeader_Unmarshal (h ++ Payload p ++ l) = packetHeader_Unmarshal h) as ->.
  { unfold packetHeader_Unmarshal. rewrite blen_app. change (blen h) with 8. change (pktHeaderLen) with 8.
    pose proof (blen_nonneg (Payload p ++ l)). rewrite (proj2 (Z.ltb_ge _ _)) by lia. reflexivity. }
  subst h. rewrite packet_header_ok by done. cbn [Length PacketLength]. set (h := packetHeader_Marshal _).
  assert (blen (h ++ Payload p ++ l) = 8 + (blen (Payload p) + blen l)) as -> by (by rewrite !blen_app).
  rewrite (proj2 (Z.ltb_ge _ 8)), (proj2 (Z.ltb_ge (8 + _) _)) by lia. rewrite (proj2 (Z.eqb_neq _ 0)) by lia. cbn [negb andb].
  replace (slice (h ++ Payload p ++ l) 8 (blen (Payload p) + 8)) with (Payload p); [by rewrite packet_again|].
  unfold slice. change (Z.to_nat 8) with (length h). rewrite drop_app_length.
  replace (Z.to_nat (blen (Payload p) + 8 - 8)) with (length (Payload p)) by (unfold blen; lia). by rewrite take_app_length.
Qed.

Lemma text_app a b : text (a +:+ b) = text a ++ text b.
Proof.
  unfold text. rewrite <- fmap_app. f_equal. induction a as [|c a IH]; [done|].
  change (String c a +:+ b) with (String c (a +:+ b)). cbn [list_ascii_of_string app]. by rewrite IH.
Qed.

Lemma length_text s : length (text s) = String.length s.
Proof. unfold text. rewrite length_fmap. induction s; simpl; congruence. Qed.

Lemma text_digits s : all_chars is_dec s = true -> Forall (fun b => is_digit b = true) (text s).
Proof.
  induction s as [|c s IH]; intros H; [constructor|]. cbn [all_chars] in H. apply andb_true_iff in H as [Hc Hs].
  unfold text. cbn [list_ascii_of_string fmap list_fmap]. constructor; [|by apply IH].
  unfold is_dec, dec_digit in Hc. unfold is_digit. destruct (_ && _) eqn:E; done.
Qed.

Lemma dec_all_digits n : 0 <= n -> all_chars is_dec (NetIP.dec n) = true.
Proof. intros. unfold NetIP.dec, NetIP.digits. by apply dec_chars. Qed.

Lemma digits_length fuel : forall n acc k, 0 <= n < 10 ^ Z.of_nat k -> (1 <= k)%nat ->
  (String.length (NetIP.digits_aux fuel 10 n acc) <= k + String.length acc)%nat.
Proof.
  induction fuel as [|fuel IH]; intros n acc k Hn Hk; cbn [NetIP.digits_aux]; [lia|].
  destruct (Z.eqb_spec (n / 10) 0); [simpl; lia|]. destruct k as [|[|k]]; [lia| |].
  - change (10 ^ Z.of_nat 1) with 10 in Hn. rewrite Z.div_small in * by lia. done.
  - specialize (IH (n / 10) (String (NetIP.digit (n mod 10)) acc) (S k)). cbn [String.length] in IH.
    rewrite Nat2Z.inj_succ, Z.pow_succ_r in Hn by lia.
    assert (0 <= n / 10 < 10 ^ Z.of_nat (S k)) by (split; [apply Z.div_pos; lia|apply Z.div_lt_upper_bound; lia]).
    specialize (IH H ltac:(lia)). lia.
Qed.

Lemma digit_run_app n ds l : Forall (fun b => is_digit b = true) ds -> (length ds <= n)%nat -> match l with [] => True | b :: _ => is_digit b = false end ->
  digit_run n (ds ++ l) = l.
Proof.
  intros H. revert n. induction H as [|d ds Hd _ IH]; intros n Hn Hl.
  - destruct n, l as [|b l]; [done..|]. cbn. by rewrite Hl.
  - destruct n as [|n]; [simpl in Hn; lia|]. cbn [app digit_run]. rewrite Hd. apply IH; [simpl in Hn; lia|done].
Qed.

Lemma text_dec_length n k : 0 <= n < 10 ^ Z.of_nat k -> (1 <= k)%nat -> (1 <= length (text (NetIP.dec n)) <= k)%nat.
Proof.
  intros Hn Hk. rewrite length_text. split.
  - destruct (NetIP.dec n) eqn:E; [|simpl; lia]. exfalso. revert E. apply digits_nonempty.
  - pose proof (digits_length 64 n "" k Hn Hk) as H. change (String.length (NetIP.dec n) <= k + 0)%nat in H. lia.
Qed.

(** A printed number, where a number is expected. *)
Lemma some_digits_dec k n l : 0 <= n < 10 ^ Z.of_nat k -> (1 <= k)%nat -> match l with [] => True | b :: _ => is_digit b = false end ->
  some_digits k (text (NetIP.dec n) ++ l) = Some l.
Proof.
  intros Hn Hk Hl. pose proof (text_digits _ (dec_all_digits n ltac:(lia))) as Hd.
  pose proof (text_dec_length n k Hn Hk) as Hlen. destruct (text (NetIP.dec n)) as [|b ds] eqn:E; [simpl in Hlen; lia|].
  apply Forall_cons in Hd as [Hb Hd]. cbn [app some_digits]. rewrite Hb. f_equal. apply digit_run_app; [done|simpl in Hlen; lia|done].
Qed.

Lemma literal_app s l : literal s (s ++ l) = Some l.
Proof. induction s as [|a s IH]; [done|]. simpl. by rewrite Z.eqb_refl. Qed.

Lemma after_line_app s l : Forall (fun b => b <> 10) s -> after_line (s ++ [10] ++ l) = l.
Proof. induction 1 as [|b s Hb _ IH]; [done|]. cbn [app after_line]. rewrite (proj2 (Z.eqb_neq _ _) Hb). exact IH. Qed.

(** The preamble, field by field. *)
Definition preamble_of (a b c d port : Z) : bytes :=
  text "#!rtpplay1.0 " ++ text (NetIP.dec a) ++ text "." ++ text (NetIP.dec b) ++ text "." ++ text (NetIP.dec c) ++ text "." ++
  text (NetIP.dec d) ++ text "/" ++ text (NetIP.dec port).

Lemma preamble_eq h a b c d : NetIP.To4 (Source h) = Some [a;b;c;d] -> 0 <= Port h -> preamble h = preamble_of a b c d (Port h) ++ [10].
Proof.
  intros E Hp. unfold preamble, preamble_of. rewrite E, itoa_nonneg by done.
  change (NetIP.ipString (default [] (Some [a;b;c;d]))) with
    (NetIP.dec a +:+ "." +:+ (NetIP.dec b +:+ "." +:+ (NetIP.dec c +:+ "." +:+ NetIP.dec d))).
  by rewrite !text_app, <- !app_assoc.
Qed.

Lemma preamble_matches a b c d port l : byte_ok a -> byte_ok b -> byte_ok c -> byte_ok d -> 0 <= port < 65536 ->
  preamble_match (preamble_of a b c d port ++ [10] ++ l) = true.
Proof.
  unfold byte_ok. intros. assert (preamble_at (preamble_of a b c d port ++ [10] ++ l) = true) as H'.
  { unfold preamble_at, preamble_of. rewrite <- !app_assoc, literal_app. cbn [mbind option_bind].
    do 4 (rewrite some_digits_dec by (done || lia); cbn [mbind option_bind]; rewrite literal_app; cbn [mbind option_bind]).
    rewrite some_digits_dec by (done || lia). cbn [mbind option_bind]. by rewrite literal_app. }
  destruct (preamble_of a b c d port ++ [10] ++ l); [done|]. cbn [preamble_match]. by rewrite H'.
Qed.

Lemma preamble_of_length a b c d port : byte_ok a -> byte_ok b -> byte_ok c -> byte_ok d -> 0 <= port < 65536 ->
  22 <= blen (preamble_of a b c d port) <= 34.
Proof.
  unfold byte_ok. intros. pose proof (fun n H => text_dec_length n 3 H ltac:(lia)) as L. change (10 ^ Z.of_nat 3) with 1000 in L.
  pose proof (L a ltac:(lia)). pose proof (L b ltac:(lia)). pose proof (L c ltac:(lia)). pose proof (L d ltac:(lia)).
  pose proof (text_dec_length port 5 ltac:(change (10 ^ Z.of_nat 5) with 100000; lia) ltac:(lia)).
  unfold preamble_of, blen. rewrite !length_app. change (length (text "#!rtpplay1.0 ")) with 13%nat.
  change (length (text ".")) with 1%nat. change (length (text "/")) with 1%nat. lia.
Qed.

Lemma preamble_one_line a b c d port : byte_ok a -> byte_ok b -> byte_ok c -> byte_ok d -> 0 <= port < 65536 ->
  Forall (fun x => x <> 10) (preamble_of a b c d port).
Proof.
  unfold byte_ok. intros. assert (forall n, 0 <= n -> Forall (fun x => x <> 10) (text (NetIP.dec n))) as Hd.
  { intros n Hn. eapply Forall_impl; [apply text_digits, dec_all_digits, Hn|]. intros x Hx ->. done. }
  unfold preamble_of. rewrite !Forall_app. repeat split; try (apply Hd; lia); repeat constructor; done.
Qed.

Lemma Header_roundtrip h : header_ok h -> Header_Unmarshal (Header_Marshal h) = Ok (normal h).
Proof.
  intros (Hs & Hm & Hp & a & b & c & d & E & _). unfold normal, Header_Marshal. rewrite E. cbv zeta. unfold second in *.
  rewrite (Z.quot_div_nonneg (Start h)), (Z.rem_mod_nonneg (Start h)) by lia. pose proof (Z.mod_pos_bound (Start h) 1000000000 ltac:(lia)).
  rewrite Z.quot_div_nonneg by lia.
  assert (0 <= Start h / 1000000000 < 4294967296) by (split; [apply Z.div_pos; lia|apply Z.div_lt_upper_bound; lia]).
  set (u := Start h mod 1000000000) in *.
  assert (0 <= u / 1000 < 1000000) by (split; [apply Z.div_pos; lia|apply Z.div_lt_upper_bound; lia]).
  rewrite (u32_small (_ / 1000000000)), (u32_small (u / 1000)) by lia. cbn [default]. unfold Header_Unmarshal. set (m := put_at 12 _ _).
  change (blen m <? headerLen) with false. cbv iota.
  change m with (putUint32 (Start h / 1000000000) ++ drop 4 m) at 1. rewrite getUint32_put by lia.
  change (drop 4 m) with (putUint32 (u / 1000) ++ drop 8 m). rewrite getUint32_put by lia.
  change (drop 12 m) with (putUint16 (Port h) ++ drop 14 m). rewrite getUint16_put by lia.
  change (byte_at m 8) with a. change (byte_at m 9) with b. change (byte_at m 10) with c. change (byte_at m 11) with d.
  do 2 f_equal. unfold second. subst u. pose proof (Z.div_mod (Start h) 1000000000 ltac:(lia)).
  assert (Start h mod 1000000000 = 1000 * (Start h mod 1000000000 / 1000)); [|lia].
  apply Z_div_exact_full_2; [lia|]. change 1000000000 with (1000 * 1000000). rewrite Z.rem_mul_r by lia.
  by rewrite Hm, Z.add_0_l, Z.mul_comm, Z.mod_mul by lia.
Qed.

Lemma NewReader_ok h l b : header_ok h ->
  NewReader {| rest := preamble h ++ Header_Marshal h ++ l; fails := b |} = Ok ({| rest := l; fails := b |}, normal h).
Proof.
  intros Hh. pose proof Hh as (Hs & Hm & Hp & a & b' & c & d & E & Ha & Hb & Hc & Hd). unfold NewReader. cbn [rest fails].
  rewrite (preamble_eq _ _ _ _ _ E) by lia. rewrite <- app_assoc.
  pose proof (preamble_of_length a b' c d (Port h) Ha Hb Hc Hd Hp) as Hl. assert (blen (Header_Marshal h) = 16) as Hm16.
  { unfold Header_Marshal. by rewrite E. }
  rewrite !blen_app, Hm16. change (blen [10]) with 1. pose proof (blen_nonneg l). change preambleLen with 36. rewrite (proj2 (Z.ltb_ge _ _)) by lia.
  change (Z.to_nat 36) with 36%nat.
  rewrite take_app_ge by (unfold blen in Hl; lia). rewrite (take_app_ge [10]) by (unfold blen in Hl; change (length [10]) with 1%nat; lia). rewrite preamble_matches by done. cbn [negb].
  rewrite after_line_app by (by apply preamble_one_line). rewrite ReadFull_app by done. by rewrite Header_roundtrip.
Qed.

(** Packet after packet. *)
Fixpoint write_packets (ps : list Packet) (w : file) : option dump_error * file :=
  match ps with
  | [] => (None, w)
  | p :: ps => match WritePacket p w with (None, w) => write_packets ps w | r => r end
  end.

Fixpoint read_packets (fuel : nat) (r : stream) : option (list Packet * dump_error) :=
  match fuel with
  | O => None
  | S fuel =>
      match Next r with
      | (Err e, _) => Some ([], e)
      | (Ok p, r) => '(ps, e) ← read_packets fuel r; Some (p :: ps, e)
      end
  end.

Lemma write_packets_ok ps : forall sk l, write_packets ps (good_file sk l) = (None, good_file sk (l ++ (ps ≫= Packet_Marshal))).
Proof.
  induction ps as [|p ps IH]; intros sk l; cbn [write_packets]; [by rewrite app_nil_r|].
  unfold WritePacket. rewrite Write_good, IH. by rewrite bind_cons, <- app_assoc.
Qed.

Lemma read_packets_ok ps t e : (exists r, Next t = (Err e, r)) -> Forall packet_ok ps ->
  read_packets (S (length ps)) {| rest := (ps ≫= Packet_Marshal) ++ rest t; fails := fails t |} = Some (ps, e).
Proof.
  intros [r Ht]. induction 1 as [|p ps Hp _ IH].
  { cbn [length]. cbn [read_packets]. cbn [mbind list_bind app]. destruct t as [tr tf]. cbn [rest fails] in *. by rewrite Ht. }
  cbn [length]. rewrite bind_cons, <- app_assoc. remember (S (length ps)) as n. cbn [read_packets]. rewrite Next_packet by done. by rewrite IH.
Qed.

(** A file with a header and packets that the format can hold is read back:
    the header with its IPv4 address, the packets in their order, and then the
    end of the file. *)
Theorem rtpdump_roundtrip h ps : header_ok h -> Forall packet_ok ps ->
  exists w w' r, NewWriter (new_file false None) h = (None, w) /\ write_packets ps w = (None, w') /\
    NewReader (stream_of (contents w')) = Ok (r, normal h) /\
    read_packets (S (length ps)) r = Some (ps, DumpRead EOF).
Proof.
  intros Hh Hp. exists (good_file false (preamble h ++ Header_Marshal h)), (good_file false ((preamble h ++ Header_Marshal h) ++ (ps ≫= Packet_Marshal))).
  exists {| rest := ps ≫= Packet_Marshal; fails := false |}. repeat split.
  - unfold NewWriter. change (new_file false None) with (good_file false []). rewrite Write_good. cbn [negb app]. by rewrite Write_good.
  - apply write_packets_ok.
  - cbn [good_file contents]. unfold stream_of. rewrite <- app_assoc. by apply NewReader_ok.
  - pose proof (read_packets_ok ps (stream_of []) (DumpRead EOF) ltac:(by eexists) Hp) as H. cbn [stream_of rest fails] in H.
    by rewrite app_nil_r in H.
Qed.

(** [Next] takes a packet whose length is less than that of its header, which
    [Packet_Unmarshal] refuses, for one of almost 65,536 bytes. *)
Theorem short_length_wraps n pl o data : 1 <= n <= 7 -> 0 <= pl < 65536 -> 0 <= o < 4294967296 -> blen data = 65528 + n ->
  let d := packetHeader_Marshal {| Length := n; PacketLength := pl; hOffset := o |} ++ data in
  Next (stream_of d) = (Ok {| Offset := o * millisecond; IsRTCP := pl =? 0; Payload := data |}, stream_of []) /\
  Packet_Unmarshal d = Err errMalformed.
Proof.
  intros Hn Hp Ho Hd d. subst d. unfold Next, Packet_Unmarshal, stream_of. set (h := packetHeader_Marshal _).
  assert (forall l, packetHeader_Unmarshal (h ++ l) = Ok {| Length := n; PacketLength := pl; hOffset := o |}) as Hu.
  { intros l. unfold packetHeader_Unmarshal. rewrite blen_app. change (blen h) with 8. change pktHeaderLen with 8. pose proof (blen_nonneg l).
    rewrite (proj2 (Z.ltb_ge _ _)) by lia. change (h ++ l) with (putUint16 n ++ drop 2 h ++ l).
    change (drop 2 (_ ++ _)) with (putUint16 pl ++ drop 4 h ++ l). change (drop 4 (_ ++ _)) with (putUint32 o ++ l).
    by rewrite !getUint16_put, getUint32_put by lia. }
  split.
  - rewrite ReadFull_app by done. rewrite <- (app_nil_r h), Hu. cbn [Length PacketLength offset hOffset].
    rewrite (proj2 (Z.eqb_neq n 0)) by lia. rewrite <- (app_nil_r data) at 1. rewrite ReadFull_app; [done|]. unfold u16, pktHeaderLen.
    replace (n - 8) with (65528 + n + (-1) * 65536) by lia. rewrite Z.mod_add, Z.mod_small by lia. done.
  - rewrite Hu. cbn [Length]. by rewrite (proj2 (Z.ltb_lt n 8)) by lia.
Qed.

(** A file cut after the header of a packet is taken for a complete one. *)
Theorem cut_packet_is_end p : packet_ok p -> Payload p <> [] -> fst (Next (stream_of (take 8 (Packet_Marshal p)))) = Err (DumpRead EOF).
Proof.
  intros Hp Hne. unfold Next, Packet_Marshal. pose proof (packet_header_ok p Hp) as Hu. set (h := packetHeader_Marshal _) in *.
  change 8%nat with (length h). rewrite take_app_length. unfold stream_of. rewrite <- (app_nil_r h), ReadFull_app by done. rewrite Hu.
  pose proof (blen_nonneg (Payload p)). destruct Hp as (_ & _ & Hl & _). assert (blen (Payload p) <> 0) by (by destruct (Payload p)).
  cbn [Length]. rewrite (proj2 (Z.eqb_neq _ 0)) by lia. change pktHeaderLen with 8. rewrite u16_small by lia.
  change {| rest := []; fails := false |} with (stream_of []). rewrite ReadFull_short by (change (blen []) with 0; lia). done.
Qed.

(** The preamble is accepted after another line, and then read as the header. *)
Example preamble_after_line : exists r h, NewReader (stream_of ([10] ++ preamble {| Start := 0; Source := [1;1;1;1]; Port := 1 |} ++ replicate 16 0)) = Ok (r, h) /\
  Port h = 8241.
Proof. vm_compute. by do 2 eexists. Qed.

(** An RTP packet without payload comes back as an RTCP packet. *)
Example empty_rtp_becomes_rtcp :
  Packet_Unmarshal (Packet_Marshal {| Offset := 0; IsRTCP := false; Payload := [] |}) = Ok {| Offset := 0; IsRTCP := true; Payload := [] |}.
Proof. reflexivity. Qed.

(** * Concrete runs *)

Module TestDump.
Definition header : Header := {| Start := 9 * second; Source := [2;2;2;2]; Port := 2222 |}.
Definition dumped : list Packet :=
  [{| Offset := millisecond; IsRTCP := false; Payload := [9] |}; {| Offset := 999 * millisecond; IsRTCP := true; Payload := [9] |}].

Lemma dumped_ok : Forall packet_ok dumped.
Proof. repeat constructor; cbn; try (vm_compute; congruence); (by left) || (by right). Qed.

Lemma rtpdump_roundtrip_witness : exists w w' r, NewWriter (new_file false None) header = (None, w) /\ write_packets dumped w = (None, w') /\
  NewReader (stream_of (contents w')) = Ok (r, {| Start := 9 * second; Source := NetIP.v4InV6Prefix ++ [2;2;2;2]; Port := 2222 |}) /\
  read_packets 3 r = Some (dumped, DumpRead EOF).
Proof.
  apply (rtpdump_roundtrip header dumped); [|apply dumped_ok].
  split; [split; vm_compute; congruence|]. split; [done|]. split; [cbn; lia|]. exists 2, 2, 2, 2. repeat split; done || lia.
Defined.

Lemma short_length_wraps_witness : fst (Next (stream_of (packetHeader_Marshal {| Length := 1; PacketLength := 0; hOffset := 0 |} ++ replicate 65529 0))) =
  Ok {| Offset := 0; IsRTCP := true; Payload := replicate 65529 0 |}.
Proof.
  refine (f_equal fst (proj1 (short_length_wraps 1 0 0 (replicate 65529 0) _ _ _ _))); [lia|lia|lia|].
  vm_compute. reflexivity.
Defined.

Lemma cut_packet_is_end_witness :
  fst (Next (stream_of (take 8 (Packet_Marshal {| Offset := millisecond; IsRTCP := false; Payload := [9] |})))) = Err (DumpRead EOF).
Proof. apply cut_packet_is_end; [|done]. exact (Forall_inv dumped_ok). Defined.
End TestDump.
