(* ===== verification/MediaOgg.v ===== *)
(** Ogg files with Opus audio: the writer and the page reader of pion-webrtc
    (pkg/media/oggwriter, pkg/media/oggreader), and the packet reader of the
    LiveKit SDK (pkg/oggreader).

    The Opus depacketizer of github.com/pion/rtp and the random serial number
    are parameters; [None] is a panic. *)

From S2P Require Import Prelude GoText GoIO.

#[local] Open Scope string_scope.
#[local] Open Scope list_scope.
#[local] Open Scope Z_scope.

Definition pageHeaderTypeContinuationOfStream : Z := 0x00.
Definition pageHeaderTypeBeginningOfStream : Z := 0x02.
Definition pageHeaderTypeEndOfStream : Z := 0x04.
Definition defaultPreSkip : Z := 3840.
Definition idPageSignature : bytes := text "OpusHead".
Definition commentPageSignature : bytes := text "OpusTags".
Definition pageHeaderSignature : bytes := text "OggS".
Definition pageHeaderSize : Z := 27.
Definition idPagePayloadLength : Z := 19.

Inductive ogg_error :=
| errBadIDPageSignature | errBadIDPageType | errBadIDPageLength | errBadIDPagePayloadSignature | errChecksumMismatch
| OggRead (e : read_error) | errFileNotOpened | errInvalidNilPacket | errOpus | errOggWrite | errSeek.

(** * Checksums *)

Definition poly : Z := 0x04c11db7.

Definition table_step (r : Z) : Z :=
  if Z.land r 0x80000000 =? 0 then u32 (Z.shiftl r 1) else Z.lxor (u32 (Z.shiftl r 1)) poly.

Definition generateChecksumTable : list Z :=
  (fun i => Z.land (Nat.iter 8 table_step (u32 (Z.shiftl (Z.of_nat i) 24))) 0xffffffff) <$> seq 0 256.

Definition updateChecksum (table : list Z) (checksum v : Z) : Z :=
  Z.lxor (u32 (Z.shiftl checksum 8)) (nth (Z.to_nat (Z.lxor (u8 (Z.shiftr checksum 24)) v)) table 0).

Definition checksum_of (table : list Z) (l : bytes) : Z := fold_left (updateChecksum table) l 0.

(** * Writer *)

(** [fd] tells whether the writer was opened on a file, [open] whether [stream]
    is set; [out] is the file or buffer. *)
Record OggWriter := {
  open : bool;
  out : file;
  fd : bool;
  sampleRate : Z;
  channelCount : Z;
  serial : Z;
  pageIndex : Z;
  checksumTable : list Z;
  previousGranulePosition : Z;
  previousTimestamp : Z;
  lastPayloadSize : Z;
}.

Definition set_out (o : file) (i : OggWriter) : OggWriter :=
  {| open := open i; out := o; fd := fd i; sampleRate := sampleRate i; channelCount := channelCount i; serial := serial i;
     pageIndex := pageIndex i; checksumTable := checksumTable i; previousGranulePosition := previousGranulePosition i;
     previousTimestamp := previousTimestamp i; lastPayloadSize := lastPayloadSize i |}.
Definition set_state (open fd : bool) (i : OggWriter) : OggWriter :=
  {| MediaOgg.open := open; out := out i; MediaOgg.fd := fd; sampleRate := sampleRate i; channelCount := channelCount i; serial := serial i;
     pageIndex := pageIndex i; checksumTable := checksumTable i; previousGranulePosition := previousGranulePosition i;
     previousTimestamp := previousTimestamp i; lastPayloadSize := lastPayloadSize i |}.
Definition set_index (n : Z) (i : OggWriter) : OggWriter :=
  {| open := open i; out := out i; fd := fd i; sampleRate := sampleRate i; channelCount := channelCount i; serial := serial i;
     pageIndex := n; checksumTable := checksumTable i; previousGranulePosition := previousGranulePosition i;
     previousTimestamp := previousTimestamp i; lastPayloadSize := lastPayloadSize i |}.
Definition set_clock (granule timestamp : Z) (i : OggWriter) : OggWriter :=
  {| open := open i; out := out i; fd := fd i; sampleRate := sampleRate i; channelCount := channelCount i; serial := serial i;
     pageIndex := pageIndex i; checksumTable := checksumTable i; previousGranulePosition := granule;
     previousTimestamp := timestamp; lastPayloadSize := lastPayloadSize i |}.
Definition set_size (n : Z) (i : OggWriter) : OggWriter :=
  {| open := open i; out := out i; fd := fd i; sampleRate := sampleRate i; channelCount := channelCount i; serial := serial i;
     pageIndex := pageIndex i; checksumTable := checksumTable i; previousGranulePosition := previousGranulePosition i;
     previousTimestamp := previousTimestamp i; lastPayloadSize := n |}.

(** The header of a page before its checksum is known. *)
Definition page_header (headerType granulePos serial pageIndex nSegments : Z) : bytes :=
  let page := replicate 27 0 in
  let page := put_at 0 pageHeaderSignature page in
  let page := put_at 4 [0] page in
  let page := put_at 5 [headerType] page in
  let page := put_at 6 (lePutUint64 granulePos) page in
  let page := put_at 14 (lePutUint32 serial) page in
  let page := put_at 18 (lePutUint32 pageIndex) page in
  put_at 26 [u8 nSegments] page.

(** The segment table: full segments and a last one. *)
Definition lacing (n : Z) : bytes := replicate (Z.to_nat (n / 255)) 255 ++ [u8 (n mod 255)].

Definition page_of (table : list Z) (payload : bytes) (headerType granulePos serial pageIndex : Z) : bytes :=
  let nSegments := blen payload / 255 + 1 in
  let page := page_header headerType granulePos serial pageIndex nSegments ++ lacing (blen payload) ++ payload in
  put_at 22 (lePutUint32 (checksum_of table page)) page.

Definition createPage (payload : bytes) (headerType granulePos pageIndex : Z) (i : OggWriter) : bytes * OggWriter :=
  (page_of (checksumTable i) payload headerType granulePos (serial i) pageIndex, set_size (blen payload) i).

Definition writeToStream (p : bytes) (i : OggWriter) : option ogg_error * OggWriter :=
  if negb (open i) then (Some errFileNotOpened, i)
  else let '(ok, o) := Write p (out i) in (if ok then None else Some errOggWrite, set_out o i).

Definition id_header (channelCount sampleRate : Z) : bytes :=
  let h := replicate 19 0 in
  let h := put_at 0 idPageSignature h in
  let h := put_at 8 [1] h in
  let h := put_at 9 [u8 channelCount] h in
  let h := put_at 10 (lePutUint16 defaultPreSkip) h in
  let h := put_at 12 (lePutUint32 sampleRate) h in
  let h := put_at 16 (lePutUint16 0) h in
  put_at 18 [0] h.

Definition comment_header : bytes :=
  let h := replicate 21 0 in
  let h := put_at 0 commentPageSignature h in
  let h := put_at 8 (lePutUint32 5) h in
  let h := put_at 12 (text "pion") h in
  put_at 17 (lePutUint32 0) h.

Definition writeHeaders (i : OggWriter) : option ogg_error * OggWriter :=
  let '(data, i) := createPage (id_header (channelCount i) (sampleRate i)) pageHeaderTypeBeginningOfStream 0 (pageIndex i) i in
  match writeToStream data i with
  | (Some e, i) => (Some e, i)
  | (None, i) =>
      let i := set_index (u32 (pageIndex i + 1)) i in
      let '(data, i) := createPage comment_header pageHeaderTypeContinuationOfStream 0 (pageIndex i) i in
      match writeToStream data i with
      | (Some e, i) => (Some e, i)
      | (None, i) => (None, set_index (u32 (pageIndex i + 1)) i)
      end
  end.

(** [oggwriter.NewWith]; [random] is the serial number. *)
Definition NewWith (o : option file) (sampleRate channelCount random : Z) : result ogg_error OggWriter :=
  match o with
  | None => Err errFileNotOpened
  | Some o =>
      let writer := {| open := true; out := o; fd := false; MediaOgg.sampleRate := sampleRate; MediaOgg.channelCount := channelCount;
                       serial := random; pageIndex := 0; checksumTable := generateChecksumTable; previousGranulePosition := 1;
                       previousTimestamp := 1; lastPayloadSize := 0 |} in
      match writeHeaders writer with
      | (Some e, _) => Err e
      | (None, writer) => Ok writer
      end
  end.

(** [New] on a file that could be created; when the headers cannot be written
    it returns the error of closing the file, which is nil. *)
Definition New (f : file) (sampleRate channelCount random : Z) : option OggWriter * option ogg_error :=
  match NewWith (Some f) sampleRate channelCount random with
  | Err _ => (None, None)
  | Ok writer => (Some (set_state true true writer), None)
  end.

Record RtpPacket := { Timestamp : Z; Payload : bytes }.

Section Writer.
(** [codecs.OpusPacket.Unmarshal]. *)
Context (Opus_Unmarshal : bytes -> option bytes).

Definition WriteRTP (packet : option RtpPacket) (i : OggWriter) : option ogg_error * OggWriter :=
  match packet with
  | None => (Some errInvalidNilPacket, i)
  | Some packet =>
      if blen (Payload packet) =? 0 then (None, i)
      else
        match Opus_Unmarshal (Payload packet) with
        | None => (Some errOpus, i)
        | Some payload =>
            let granule :=
              if negb (previousTimestamp i =? 1) then u64 (previousGranulePosition i + u32 (Timestamp packet - previousTimestamp i))
              else previousGranulePosition i in
            let i := set_clock granule (Timestamp packet) i in
            let '(data, i) := createPage payload pageHeaderTypeContinuationOfStream (previousGranulePosition i) (pageIndex i) i in
            let i := set_index (u32 (pageIndex i + 1)) i in
            writeToStream data i
        end
  end.
End Writer.

(** The last page is marked as the end of the stream, if the writer was opened
    on a file. *)
Definition Close (i : OggWriter) : option ogg_error * OggWriter :=
  if negb (fd i) then (None, set_state false false i)
  else
    let pageOffset := blen (contents (out i)) - (lastPayloadSize i + pageHeaderSize + 1) in
    if pageOffset <? 0 then (Some errSeek, set_state false false i)
    else
      match Seek (Z.to_nat pageOffset) (out i) with
      | (false, o) => (Some errSeek, set_state false false (set_out o i))
      | (true, o) =>
          let i := set_out o i in
          let payload := slice (contents (out i)) (pageOffset + pageHeaderSize + 1) (pageOffset + pageHeaderSize + 1 + lastPayloadSize i) in
          let '(data, i) := createPage payload pageHeaderTypeEndOfStream (previousGranulePosition i) (u32 (pageIndex i - 1)) i in
          let '(e, i) := writeToStream data i in
          (e, set_state false false i)
      end.

(** * Page reader *)

Record OggHeader := { ChannelMap : Z; Channels : Z; OutputGain : Z; PreSkip : Z; SampleRate : Z; Version : Z }.

(** A page: its header, segment table and payload. *)
Record OggPage := {
  GranulePosition : Z;
  sig : bytes;
  version : Z;
  headerType : Z;
  p_serial : Z;
  index : Z;
  segmentsTable : list Z;
  payload : bytes;
}.

(** The header without its checksum. *)
Definition masked (h : bytes) : bytes := put_at 22 [0;0;0;0] h.

(** [ParseNextPage] of pion and [readPage] of LiveKit, which differ in what they
    keep of a page. *)
Definition readPage (doChecksum : bool) (table : list Z) (s : stream) : result ogg_error OggPage * stream :=
  match ReadFull pageHeaderSize s with
  | (Err e, s) => (Err (OggRead e), s)
  | (Ok h, s) =>
      match ReadFull (byte_at h 26) s with
      | (Err e, s) => (Err (OggRead e), s)
      | (Ok sizeBuffer, s) =>
          let payloadSize := fold_left Z.add sizeBuffer 0 in
          match ReadFull payloadSize s with
          | (Err e, s) => (Err (OggRead e), s)
          | (Ok payload, s) =>
              if doChecksum && negb (leUint32 (slice h 22 26) =? checksum_of table (masked h ++ sizeBuffer ++ payload))
              then (Err errChecksumMismatch, s)
              else
                (Ok {| GranulePosition := leUint64 (slice h 6 14); sig := slice h 0 4; version := byte_at h 4; headerType := byte_at h 5;
                       p_serial := leUint32 (slice h 14 18); index := leUint32 (slice h 18 22);
                       segmentsTable := sizeBuffer; MediaOgg.payload := payload |}, s)
          end
      end
  end.

Definition header_of (page : OggPage) : result ogg_error OggHeader :=
  let payload := payload page in
  if negb (bool_decide (sig page = pageHeaderSignature)) then Err errBadIDPageSignature
  else if negb (headerType page =? pageHeaderTypeBeginningOfStream) then Err errBadIDPageType
  else if negb (blen payload =? idPagePayloadLength) then Err errBadIDPageLength
  else if negb (bool_decide (slice payload 0 8 = idPageSignature)) then Err errBadIDPagePayloadSignature
  else Ok {| Version := byte_at payload 8; Channels := byte_at payload 9; PreSkip := leUint16 (slice payload 10 12);
             SampleRate := leUint32 (slice payload 12 16); OutputGain := leUint16 (slice payload 16 18);
             ChannelMap := byte_at payload 18 |}.

Definition readHeaders (doChecksum : bool) (table : list Z) (s : stream) : result ogg_error OggHeader * stream :=
  match readPage doChecksum table s with
  | (Err e, s) => (Err e, s)
  | (Ok page, s) => (header_of page, s)
  end.

(** pion's reader: a stream, and a count that is never updated. *)
Record OggReader := { r_stream : stream; bytesReadSuccesfully : Z; r_table : list Z; r_doChecksum : bool }.

Definition newWith (s : stream) (doChecksum : bool) : result ogg_error (OggReader * OggHeader) :=
  let table := generateChecksumTable in
  match readHeaders doChecksum table s with
  | (Err e, _) => Err e
  | (Ok header, s) => Ok ({| r_stream := s; bytesReadSuccesfully := 0; r_table := table; r_doChecksum := doChecksum |}, header)
  end.

Definition ParseNextPage (o : OggReader) : result ogg_error OggPage * OggReader :=
  let '(r, s) := readPage (r_doChecksum o) (r_table o) (r_stream o) in
  (r, {| r_stream := s; bytesReadSuccesfully := bytesReadSuccesfully o; r_table := r_table o; r_doChecksum := r_doChecksum o |}).

Definition ResetReader (reset : Z -> stream) (o : OggReader) : OggReader :=
  {| r_stream := reset (bytesReadSuccesfully o); bytesReadSuccesfully := bytesReadSuccesfully o; r_table := r_table o; r_doChecksum := r_doChecksum o |}.

(** * Packet reader of LiveKit *)

Record LkReader := { l_stream : stream; page : option OggPage; segment : Z; offset : Z; l_table : list Z; l_doChecksum : bool }.

Definition NewOggReader (s : stream) : result ogg_error (LkReader * OggHeader) :=
  let table := generateChecksumTable in
  match readHeaders true table s with
  | (Err e, _) => Err e
  | (Ok header, s) =>
      let '(_, s) := readPage true table s in
      Ok ({| l_stream := s; page := None; segment := 0; offset := 0; l_table := table; l_doChecksum := true |}, header)
  end.

(** The loop over the segments of a packet, with the segments that are left:
    the size, the next segment, and whether the page is used up. *)
Fixpoint packet_size (segments : Z) (l : list Z) (size segment : Z) : option (Z * Z * bool) :=
  match l with
  | [] => None
  | segmentSize :: l =>
      let size := size + segmentSize in
      let segment := u8 (segment + 1) in
      if segment =? u8 segments then Some (size, segment, true)
      else if negb (segmentSize =? 255) then Some (size, segment, false)
      else packet_size segments l size segment
  end.

(** [None] is a panic. *)
Definition ReadPacket (o : LkReader) : option (result ogg_error bytes * LkReader) :=
  let '(r, o) :=
    match page o with
    | Some p => (Ok p : result ogg_error OggPage, o)
    | None =>
        match readPage (l_doChecksum o) (l_table o) (l_stream o) with
        | (Err e, s) =>
            (Err e, {| l_stream := s; page := None; segment := segment o; offset := offset o; l_table := l_table o; l_doChecksum := l_doChecksum o |})
        | (Ok p, s) =>
            (Ok p, {| l_stream := s; page := Some p; segment := 0; offset := 0; l_table := l_table o; l_doChecksum := l_doChecksum o |})
        end
    end in
  match r with
  | Err e => Some (Err e, o)
  | Ok p =>
      match packet_size (blen (segmentsTable p)) (drop (Z.to_nat (segment o)) (segmentsTable p)) 0 (segment o) with
      | None => None
      | Some (packetSize, seg, used) =>
          Some (Ok (slice (payload p) (offset o) (offset o + packetSize)),
                {| l_stream := l_stream o; page := if used then None else Some p; segment := seg; offset := offset o + packetSize;
                   l_table := l_table o; l_doChecksum := l_doChecksum o |})
      end
  end.

(** * Pages *)

Lemma lacing_sum n : 0 <= n -> fold_left Z.add (lacing n) 0 = n.
Proof.
  intros Hn. unfold lacing. rewrite fold_left_app.
  assert (forall k a, fold_left Z.add (replicate k 255) a = a + 255 * Z.of_nat k) as ->.
  { induction k as [|k IH]; intros a; [simpl; lia|]. cbn [replicate fold_left]. rewrite IH. lia. }
  cbn [fold_left]. pose proof (Z.mod_pos_bound n 255 ltac:(lia)). pose proof (Z.div_mod n 255 ltac:(lia)). pose proof (Z.div_pos n 255 Hn).
  unfold u8. rewrite Z.mod_small by lia. rewrite Z2Nat.id by lia. lia.
Qed.

Lemma lacing_length n : 0 <= n -> blen (lacing n) = n / 255 + 1.
Proof.
  intros. unfold lacing. rewrite blen_app. unfold blen at 1. rewrite length_replicate, Z2Nat.id by (apply Z.div_pos; lia). done.
Qed.

(** A page as it is read back. *)
Definition page_read (p : bytes) (headerType granulePos serial pageIndex : Z) : OggPage :=
  {| GranulePosition := granulePos; sig := pageHeaderSignature; version := 0; MediaOgg.headerType := headerType; p_serial := serial;
     index := pageIndex; segmentsTable := lacing (blen p); payload := p |}.

(** Payloads that fit a page of 255 segments. *)
Definition fits (p : bytes) : Prop := blen p < 65025.

Lemma readPage_page b table p ht g ser ix l : fits p -> 0 <= ht < 256 -> 0 <= g < 18446744073709551616 -> 0 <= ser < 4294967296 -> 0 <= ix < 4294967296 ->
  (forall x, 0 <= checksum_of table x < 4294967296) ->
  readPage true table {| rest := page_of table p ht g ser ix ++ l; fails := b |} = (Ok (page_read p ht g ser ix), {| rest := l; fails := b |}).
Proof.
  intros Hp Hh Hg Hs Hi Hc. unfold fits in Hp. pose proof (blen_nonneg p). unfold page_of.
  set (n := blen p / 255 + 1). assert (0 <= blen p / 255 < 255) by (split; [apply Z.div_pos; lia|apply Z.div_lt_upper_bound; lia]).
  set (cs := checksum_of table _).
  set (h := put_at 22 (lePutUint32 cs) (page_header ht g ser ix n)).
  change (put_at 22 (lePutUint32 cs) (page_header ht g ser ix n ++ lacing (blen p) ++ p)) with (h ++ lacing (blen p) ++ p).
  unfold readPage. rewrite <- !app_assoc, ReadFull_app by done. change (byte_at h 26) with (u8 n). unfold u8. rewrite Z.mod_small by lia.
  rewrite ReadFull_app by (rewrite lacing_length; lia). rewrite lacing_sum by lia. rewrite ReadFull_app by done.
  change (slice h 22 26) with (lePutUint32 cs ++ []). rewrite leUint32_put by apply Hc.
  change (masked h) with (page_header ht g ser ix n). fold cs. rewrite Z.eqb_refl. cbn [andb negb].
  change (slice h 6 14) with (lePutUint64 g ++ []). change (slice h 14 18) with (lePutUint32 ser ++ []).
  change (slice h 18 22) with (lePutUint32 ix ++ []). rewrite leUint64_put, !leUint32_put by done. reflexivity.
Qed.

Lemma lxor_range a b n : 0 <= n -> 0 <= a < 2 ^ n -> 0 <= b < 2 ^ n -> 0 <= Z.lxor a b < 2 ^ n.
Proof.
  intros Hn Ha Hb. assert (0 <= Z.lxor a b) by (apply Z.lxor_nonneg; lia). split; [done|].
  destruct (decide (Z.lxor a b = 0)) as [->|]; [lia|]. apply Z.log2_lt_pow2; [lia|].
  eapply Z.le_lt_trans; [apply Z.log2_lxor; lia|]. destruct (decide (n = 0)) as [->|].
  { change (2 ^ 0) with 1 in *. assert (a = 0) as -> by lia. assert (b = 0) as -> by lia. done. }
  apply Z.max_lub_lt; [destruct (decide (a = 0)) as [->|]|destruct (decide (b = 0)) as [->|]]; try (simpl; lia); apply Z.log2_lt_pow2; lia.
Qed.

Lemma table_range : Forall (fun x => 0 <= x < 2 ^ 32) generateChecksumTable.
Proof.
  apply Forall_forall. intros x Hx. assert (forallb (fun x => (0 <=? x) && (x <? 2 ^ 32)) generateChecksumTable = true) as H by (vm_compute; reflexivity).
  rewrite forallb_forall in H. apply list_elem_of_In in Hx. apply H in Hx. boolp. lia.
Qed.

Lemma checksum_range x : 0 <= checksum_of generateChecksumTable x < 4294967296.
Proof.
  unfold checksum_of. change 4294967296 with (2 ^ 32). assert (forall c, 0 <= c < 2 ^ 32 -> 0 <= fold_left (updateChecksum generateChecksumTable) x c < 2 ^ 32) as H;
    [|apply H; lia].
  induction x as [|v x IH]; intros c Hc; [exact Hc|]. cbn [fold_left]. apply IH. unfold updateChecksum. apply lxor_range; [lia|apply u32_range|].
  pose proof table_range as Ht. rewrite Forall_forall in Ht.
  destruct (nth_in_or_default (Z.to_nat (Z.lxor (u8 (Z.shiftr c 24)) v)) generateChecksumTable 0) as [Hin| ->]; [|lia].
  apply Ht. by apply list_elem_of_In.
Qed.

(** * What is written is read *)

(** Audio packets with their times, which grow and do not wrap around. *)
Abbreviation timed := (list (Z * bytes)).

Definition page_index (k : nat) : Z := u32 (Z.of_nat k + 2).
Definition granule (t0 t : Z) : Z := u64 (1 + (t - t0)).

(** The pages of the packets [l], of which the first is the [k]-th of the
    file, as bytes and as they are read. *)
Fixpoint audio_bytes (ser t0 : Z) (k : nat) (l : timed) : bytes :=
  match l with
  | [] => []
  | (t, p) :: l => page_of generateChecksumTable p 0 (granule t0 t) ser (page_index k) ++ audio_bytes ser t0 (S k) l
  end.
Fixpoint audio_pages (ser t0 : Z) (k : nat) (l : timed) : list OggPage :=
  match l with
  | [] => []
  | (t, p) :: l => page_read p 0 (granule t0 t) ser (page_index k) :: audio_pages ser t0 (S k) l
  end.

Definition header_bytes (rate chans ser : Z) : bytes :=
  page_of generateChecksumTable (id_header chans rate) 2 0 ser 0 ++ page_of generateChecksumTable comment_header 0 0 ser 1.

Lemma audio_bytes_snoc ser t0 l t p : forall k,
  audio_bytes ser t0 k (l ++ [(t, p)]) = audio_bytes ser t0 k l ++ page_of generateChecksumTable p 0 (granule t0 t) ser (page_index (k + length l)).
Proof.
  induction l as [|[t' p'] l IH]; intros k; cbn [app audio_bytes length]; [by rewrite Nat.add_0_r, app_nil_r|].
  rewrite IH, <- app_assoc. by replace (S k + length l)%nat with (k + S (length l))%nat by lia.
Qed.

(** The writer after [l]. *)
Definition writing (isfd : bool) (rate chans ser t0 : Z) (l : timed) (size : Z) : OggWriter :=
  {| open := true; out := good_file true (header_bytes rate chans ser ++ audio_bytes ser t0 0 l); fd := isfd; sampleRate := rate;
     channelCount := chans; serial := ser; pageIndex := page_index (length l); checksumTable := generateChecksumTable;
     previousGranulePosition := match last l with Some (t, _) => granule t0 t | None => 1 end;
     previousTimestamp := match last l with Some (t, _) => u32 t | None => 1 end; lastPayloadSize := size |}.

Lemma NewWith_ok rate chans ser t0 : NewWith (Some (good_file true [])) rate chans ser = Ok (writing false rate chans ser t0 [] 21).
Proof.
  unfold NewWith, writeHeaders, createPage, writeToStream, set_size, set_out, set_index, writing.
  cbn [open out fd sampleRate channelCount serial pageIndex checksumTable previousGranulePosition previousTimestamp lastPayloadSize negb].
  rewrite Write_good. cbn [open out fd sampleRate channelCount serial pageIndex checksumTable previousGranulePosition previousTimestamp lastPayloadSize negb].
  rewrite Write_good. cbn [open out fd sampleRate channelCount serial pageIndex checksumTable previousGranulePosition previousTimestamp lastPayloadSize audio_bytes app last length].
  rewrite app_nil_r. reflexivity.
Qed.

Section Roundtrip.
Context (Opus_Unmarshal : bytes -> option bytes).

Fixpoint write_all (ps : list RtpPacket) (i : OggWriter) : option ogg_error * OggWriter :=
  match ps with
  | [] => (None, i)
  | p :: ps => match WriteRTP Opus_Unmarshal (Some p) i with (None, i) => write_all ps i | r => r end
  end.

(** The RTP packet of a packet at time [t]; the timestamp 1 is excluded. *)
Definition carries (p : RtpPacket) (x : Z * bytes) : Prop :=
  Payload p <> [] /\ Opus_Unmarshal (Payload p) = Some (snd x) /\ Timestamp p = u32 (fst x) /\ Timestamp p <> 1.

(** Times grow, by less than 2^32 each. *)
Definition later (t : Z) (x : option (Z * bytes)) : Prop :=
  match x with Some (t', _) => 0 <= t - t' < 4294967296 | None => True end.
Fixpoint increasing (prev : option (Z * bytes)) (l : timed) : Prop :=
  match l with [] => True | x :: l => later (fst x) prev /\ increasing (Some x) l end.

Lemma u32_diff a b : 0 <= a - b < 4294967296 -> u32 (u32 a - u32 b) = a - b.
Proof. intros. unfold u32. rewrite <- Zminus_mod. by apply Z.mod_small. Qed.

Lemma granule_next t0 t t' : 0 <= t' - t -> u64 (granule t0 t + (t' - t)) = granule t0 t'.
Proof. intros. unfold granule, u64. rewrite Zplus_mod_idemp_l. f_equal. lia. Qed.

Lemma page_index_next k : u32 (page_index k + 1) = page_index (S k).
Proof. unfold page_index, u32. rewrite Zplus_mod_idemp_l. f_equal. lia. Qed.

(** Before the first packet, the time of the first one is the origin. *)
Definition origin (t0 : Z) (l : timed) : Prop := match head l with Some (t, _) => t = t0 | None => True end.

Lemma WriteRTP_ok isfd rate chans ser t0 l size p t o : carries p (t, o) -> later t (last l) -> Forall (fun x => u32 (fst x) <> 1) l -> origin t0 (l ++ [(t, o)]) ->
  WriteRTP Opus_Unmarshal (Some p) (writing isfd rate chans ser t0 l size) = (None, writing isfd rate chans ser t0 (l ++ [(t, o)]) (blen o)).
Proof.
  intros (Hp & Ho & Ht & H1) Hl Hf Hor. cbn [fst snd] in *. unfold WriteRTP. destruct (Z.eqb_spec (blen (Payload p)) 0) as [H0|_].
  { by destruct (Payload p). }
  rewrite Ho, Ht. cbv zeta.
  match goal with |- context [set_clock ?g _ _] => assert (g = granule t0 t) as -> end.
  { unfold writing. cbn [previousTimestamp previousGranulePosition]. destruct (last l) as [[t' o']|] eqn:El.
    - assert (u32 t' <> 1). { rewrite Forall_forall in Hf. apply (Hf (t', o')). by apply last_Some_elem_of. }
      rewrite (proj2 (Z.eqb_neq _ _)) by done. cbn [negb]. simpl in Hl. rewrite u32_diff by done. apply granule_next. lia.
    - apply last_None in El as ->. cbn in Hor. subst t0. unfold granule. rewrite Z.sub_diag. done. }
  unfold createPage, writeToStream, set_clock, set_size, set_index, set_out, writing.
  cbn [open out fd sampleRate channelCount serial pageIndex checksumTable previousGranulePosition previousTimestamp lastPayloadSize negb].
  rewrite Write_good. rewrite last_snoc, audio_bytes_snoc, length_app, page_index_next. cbn [length]. rewrite Nat.add_1_r, <- app_assoc. done.
Qed.

Lemma write_all_ok isfd rate chans ser t0 ps l : Forall2 carries ps l -> forall l1 size, increasing (last l1) l -> Forall (fun x => u32 (fst x) <> 1) l1 ->
  origin t0 (l1 ++ l) ->
  write_all ps (writing isfd rate chans ser t0 l1 size) =
    (None, writing isfd rate chans ser t0 (l1 ++ l) (match last l with Some (_, o) => blen o | None => size end)).
Proof.
  induction 1 as [|p [t o] ps l Hp _ IH]; intros l1 size Hi Hf Ho; cbn [write_all]; [by rewrite app_nil_r|].
  destruct Hi as [Hl Hi]. cbn [fst] in Hl.
  assert (origin t0 (l1 ++ [(t, o)])) as Ho1 by (by destruct l1).
  rewrite (WriteRTP_ok _ _ _ _ _ _ _ _ t o) by done. rewrite IH.
  - rewrite <- app_assoc. rewrite last_cons. by destruct (last l) as [[t' o']|].
  - by rewrite last_snoc.
  - apply Forall_app. split; [done|]. constructor; [|done]. destruct Hp as (_ & _ & Ht & H1). cbn [fst] in *. congruence.
  - by rewrite <- app_assoc.
Qed.

(** Page after page, up to the first error. *)
Fixpoint read_pages (fuel : nat) (o : OggReader) : option (list OggPage * ogg_error) :=
  match fuel with
  | O => None
  | S fuel =>
      match ParseNextPage o with
      | (Err e, _) => Some ([], e)
      | (Ok p, o) => match read_pages fuel o with Some (ps, e) => Some (p :: ps, e) | None => None end
      end
  end.

Definition ready (l : bytes) : OggReader := {| r_stream := stream_of l; bytesReadSuccesfully := 0; r_table := generateChecksumTable; r_doChecksum := true |}.

Lemma granule_range t0 t : 0 <= granule t0 t < 18446744073709551616.
Proof. apply u64_range. Qed.
Lemma page_index_range k : 0 <= page_index k < 4294967296.
Proof. apply u32_range. Qed.

Lemma ParseNextPage_page p ht g ser ix l : fits p -> 0 <= ht < 256 -> 0 <= g < 18446744073709551616 -> 0 <= ser < 4294967296 -> 0 <= ix < 4294967296 ->
  ParseNextPage (ready (page_of generateChecksumTable p ht g ser ix ++ l)) = (Ok (page_read p ht g ser ix), ready l).
Proof.
  intros. unfold ParseNextPage, ready, stream_of. cbn [r_stream r_table r_doChecksum bytesReadSuccesfully].
  rewrite readPage_page by (done || apply checksum_range). done.
Qed.

Lemma read_pages_audio ser t0 l tail rs : 0 <= ser < 4294967296 -> Forall (fun x => fits (snd x)) l -> forall k n,
  read_pages n (ready tail) = Some rs ->
  read_pages (length l + n) (ready (audio_bytes ser t0 k l ++ tail)) = Some (audio_pages ser t0 k l ++ fst rs, snd rs).
Proof.
  intros Hs Hf. induction Hf as [|[t p] l Hp _ IH]; intros k n Hn; cbn [length audio_bytes audio_pages app Nat.add].
  { rewrite Hn. by destruct rs. }
  cbn [read_pages]. rewrite <- app_assoc, ParseNextPage_page; try done; [|apply granule_range|apply page_index_range]. by rewrite (IH (S k) n).
Qed.

Definition opus_header (rate chans : Z) : OggHeader :=
  {| ChannelMap := 0; Channels := u8 chans; OutputGain := 0; PreSkip := 3840; SampleRate := rate; Version := 1 |}.

Lemma header_of_id rate chans ser : 0 <= rate < 4294967296 -> header_of (page_read (id_header chans rate) 2 0 ser 0) = Ok (opus_header rate chans).
Proof.
  intros Hr. unfold header_of, opus_header. cbn [page_read sig headerType payload]. rewrite bool_decide_true by done.
  change (blen (id_header chans rate)) with 19. rewrite bool_decide_true by done. cbn [negb Z.eqb].
  change (slice (id_header chans rate) 12 16) with (lePutUint32 rate ++ []). rewrite leUint32_put by done. reflexivity.
Qed.

Lemma readHeaders_written rate chans ser l : 0 <= rate < 4294967296 -> 0 <= ser < 4294967296 ->
  readHeaders true generateChecksumTable (stream_of (header_bytes rate chans ser ++ l)) =
    (Ok (opus_header rate chans), stream_of (page_of generateChecksumTable comment_header 0 0 ser 1 ++ l)).
Proof.
  intros Hr Hs. unfold readHeaders, header_bytes, stream_of. rewrite <- app_assoc.
  rewrite readPage_page by (done || lia || apply checksum_range). by rewrite header_of_id.
Qed.

(** The pages before the audio. *)
Definition comment_page (ser : Z) : OggPage := page_read comment_header 0 0 ser 1.

(** Opus packets written to a stream are read back by pion's reader: the header
    with rate and channels, the page of the comments, and one page per packet
    in their order, numbered, with the granule position of its time since the
    first packet; then the end of the stream.  Closing the writer does not
    change the stream. *)
Theorem ogg_roundtrip rate chans ser ps l : 0 <= rate < 4294967296 -> 0 <= ser < 4294967296 ->
  Forall2 carries ps l -> increasing None l -> Forall (fun x => fits (snd x)) l ->
  exists w w' w'' r, NewWith (Some (good_file true [])) rate chans ser = Ok w /\ write_all ps w = (None, w') /\ Close w' = (None, w'') /\
    newWith (stream_of (contents (out w''))) true = Ok (r, opus_header rate chans) /\
    read_pages (S (S (length l))) r =
      Some (comment_page ser :: audio_pages ser (match head l with Some (t, _) => t | None => 0 end) 0 l, OggRead EOF).
Proof.
  intros Hr Hs Hps Hi Hf. set (t0 := match head l with Some (t, _) => t | None => 0 end).
  assert (origin t0 ([] ++ l)) as Ho by (unfold origin, t0; simpl; by destruct (head l) as [[? ?]|]).
  exists (writing false rate chans ser t0 [] 21). eexists _, _, (ready _).
  split; [apply NewWith_ok|]. split; [by apply write_all_ok|]. split; [reflexivity|]. split.
  - cbn [set_state out writing good_file contents app]. unfold newWith. by rewrite readHeaders_written.
  - change (S (S (length l))) with (S (S (length l)))%nat. cbn [read_pages]. rewrite ParseNextPage_page by (done || lia).
    pose proof (read_pages_audio ser t0 l [] ([], OggRead EOF) Hs Hf 0%nat 1%nat eq_refl) as H.
    rewrite Nat.add_1_r, !app_nil_r in H. cbn [read_pages fst snd] in H. rewrite H. done.
Qed.

(** ** LiveKit's reader *)

Fixpoint read_packets (fuel : nat) (o : LkReader) : option (list bytes * ogg_error) :=
  match fuel with
  | O => None
  | S fuel =>
      match ReadPacket o with
      | Some (Ok p, o) => match read_packets fuel o with Some (ps, e) => Some (p :: ps, e) | None => None end
      | Some (Err e, _) => Some ([], e)
      | None => None
      end
  end.

Lemma packet_size_full segments x k : forall size seg, 0 <= seg -> seg + Z.of_nat k + 1 = segments -> segments < 256 ->
  packet_size segments (replicate k 255 ++ [x]) size seg = Some (size + 255 * Z.of_nat k + x, segments, true).
Proof.
  induction k as [|k IH]; intros size seg H0 Hs Hl; cbn [replicate app packet_size]; unfold u8; rewrite !Z.mod_small by lia.
  - rewrite (proj2 (Z.eqb_eq _ _)) by lia. do 3 f_equal; lia.
  - rewrite (proj2 (Z.eqb_neq _ _)) by lia. cbn [negb Z.eqb]. rewrite IH by lia. do 3 f_equal. lia.
Qed.

Definition lk_ready (l : bytes) (seg off : Z) : LkReader :=
  {| l_stream := stream_of l; page := None; segment := seg; offset := off; l_table := generateChecksumTable; l_doChecksum := true |}.

Lemma ReadPacket_page p g ser ix l seg off : fits p -> 0 <= g < 18446744073709551616 -> 0 <= ser < 4294967296 -> 0 <= ix < 4294967296 ->
  exists seg' off', ReadPacket (lk_ready (page_of generateChecksumTable p 0 g ser ix ++ l) seg off) = Some (Ok p, lk_ready l seg' off').
Proof.
  intros Hp Hg Hs Hi. unfold ReadPacket, lk_ready, stream_of. cbn [page l_doChecksum l_table l_stream].
  rewrite readPage_page by (done || lia || apply checksum_range). cbn [segment segmentsTable page_read].
  pose proof (blen_nonneg p). unfold fits in Hp. assert (0 <= blen p / 255 < 255) by (split; [apply Z.div_pos; lia|apply Z.div_lt_upper_bound; lia]).
  pose proof (Z.div_mod (blen p) 255 ltac:(lia)). pose proof (Z.mod_pos_bound (blen p) 255 ltac:(lia)).
  change (drop (Z.to_nat 0) (lacing (blen p))) with (lacing (blen p)). rewrite lacing_length by lia. unfold lacing.
  rewrite packet_size_full by lia. do 2 eexists. cbn [offset l_stream l_table l_doChecksum payload]. do 3 f_equal.
  rewrite Z2Nat.id by lia. unfold u8. rewrite (Z.mod_small (_ mod _)) by lia. cbn [page_read payload].
  rewrite slice_prefix. apply take_ge. unfold blen in *. lia.
Qed.

Lemma read_packets_audio ser t0 l : 0 <= ser < 4294967296 -> Forall (fun x => fits (snd x)) l -> forall k seg off,
  read_packets (S (length l)) (lk_ready (audio_bytes ser t0 k l) seg off) = Some (snd <$> l, OggRead EOF).
Proof.
  intros Hs Hf. induction Hf as [|[t p] l Hp _ IH]; intros k seg off; [done|]. cbn [length audio_bytes]. remember (S (length l)) as n. cbn [read_packets].
  destruct (ReadPacket_page p (granule t0 t) ser (page_index k) (audio_bytes ser t0 (S k) l) seg off Hp) as (seg' & off' & ->);
    [apply granule_range|done|apply page_index_range|]. by rewrite IH.
Qed.

(** LiveKit's reader gives back the Opus packets themselves. *)
Theorem livekit_reads_packets rate chans ser ps l : 0 <= rate < 4294967296 -> 0 <= ser < 4294967296 ->
  Forall2 carries ps l -> increasing None l -> Forall (fun x => fits (snd x)) l ->
  exists w w' r, NewWith (Some (good_file true [])) rate chans ser = Ok w /\ write_all ps w = (None, w') /\
    NewOggReader (stream_of (contents (out w'))) = Ok (r, opus_header rate chans) /\
    read_packets (S (length l)) r = Some (snd <$> l, OggRead EOF).
Proof.
  intros Hr Hs Hps Hi Hf. set (t0 := match head l with Some (t, _) => t | None => 0 end).
  assert (origin t0 ([] ++ l)) as Ho by (unfold origin, t0; simpl; by destruct (head l) as [[? ?]|]).
  exists (writing false rate chans ser t0 [] 21). eexists _, (lk_ready _ 0 0).
  split; [apply NewWith_ok|]. split; [by apply write_all_ok|]. split.
  - cbn [out writing good_file contents app]. unfold NewOggReader. rewrite readHeaders_written by done.
    unfold stream_of. rewrite readPage_page by (done || lia || apply checksum_range). reflexivity.
  - by apply read_packets_audio.
Qed.

(** ** Closing a file *)

Lemma page_of_length table p ht g ser ix : blen (page_of table p ht g ser ix) = 27 + (blen p / 255 + 1) + blen p.
Proof.
  unfold page_of. set (n := _ + 1). set (cs := checksum_of _ _).
  change (put_at 22 (lePutUint32 cs) (page_header ht g ser ix n ++ lacing (blen p) ++ p)) with (put_at 22 (lePutUint32 cs) (page_header ht g ser ix n) ++ lacing (blen p) ++ p).
  rewrite !blen_app, lacing_length by apply blen_nonneg. change (blen (put_at _ _ _)) with 27. lia.
Qed.

Lemma page_of_payload table p ht g ser ix : blen p < 255 -> drop 28 (page_of table p ht g ser ix) = p.
Proof.
  intros H. unfold page_of. set (cs := checksum_of _ _). set (n := _ + 1). pose proof (blen_nonneg p).
  change (put_at 22 (lePutUint32 cs) (page_header ht g ser ix n ++ lacing (blen p) ++ p)) with (put_at 22 (lePutUint32 cs) (page_header ht g ser ix n) ++ lacing (blen p) ++ p).
  unfold lacing. rewrite Z.div_small by lia. reflexivity.
Qed.

(** Writing over the end of a file, as many bytes as it has there. *)
Lemma put_at_end pre old new : length old = length new -> put_at (length pre) new (pre ++ old) = pre ++ new.
Proof. intros H. unfold put_at. rewrite take_app_length. rewrite drop_ge by (rewrite length_app; lia). by rewrite app_nil_r. Qed.

Lemma Close_file rate chans ser t0 l t o size : blen o = size -> size < 255 ->
  exists w, Close (writing true rate chans ser t0 (l ++ [(t, o)]) size) = (None, w) /\
    contents (out w) = (header_bytes rate chans ser ++ audio_bytes ser t0 0 l) ++ page_of generateChecksumTable o 4 (granule t0 t) ser (page_index (length l)).
Proof.
  intros <- Hlt. pose proof (blen_nonneg o) as H0. set (pre := header_bytes rate chans ser ++ audio_bytes ser t0 0 l).
  set (new := page_of generateChecksumTable o 4 (granule t0 t) ser (page_index (length l))).
  unfold Close, writing. cbn [fd negb out good_file contents lastPayloadSize]. rewrite audio_bytes_snoc. cbn [Nat.add].
  set (old := page_of _ o 0 _ _ _). rewrite app_assoc. fold pre. change pageHeaderSize with 27.
  assert (blen old = blen o + 27 + 1) as Hold by (subst old; rewrite page_of_length, Z.div_small by lia; lia).
  replace (blen (pre ++ old) - (blen o + 27 + 1)) with (blen pre) by (rewrite blen_app; lia). pose proof (blen_nonneg pre).
  rewrite (proj2 (Z.ltb_ge _ _)) by lia. unfold Seek, on_file. cbn [budget good_file set_out out contents lastPayloadSize].
  assert (slice (pre ++ old) (blen pre + 27 + 1) (blen pre + 27 + 1 + blen o) = o) as ->.
  { unfold slice. replace (Z.to_nat (blen pre + 27 + 1)) with (length pre + 28)%nat by (unfold blen; lia).
    rewrite <- drop_drop, drop_app_length. subst old. rewrite page_of_payload by done. apply take_ge. unfold blen. lia. }
  unfold createPage, set_size, writeToStream, set_out. cbn [open out fd sampleRate channelCount serial pageIndex checksumTable previousGranulePosition previousTimestamp lastPayloadSize negb].
  rewrite last_snoc, length_app. cbn [length].
  replace (u32 (page_index (length l + 1) - 1)) with (page_index (length l)).
  2: { rewrite Nat.add_1_r, <- page_index_next. unfold page_index, u32. rewrite Zminus_mod_idemp_l, Z.add_simpl_r, Z.mod_mod by lia. done. }
  change (page_of generateChecksumTable o pageHeaderTypeEndOfStream (granule t0 t) ser (page_index (length l))) with new.
  unfold Write, on_file. cbn [budget pos contents seekable]. eexists. split; [done|].
  cbn [set_state out contents]. unfold blen at 1. rewrite Nat2Z.id. apply put_at_end. apply Nat2Z.inj.
  change (blen old = blen new). subst new. rewrite Hold, page_of_length, Z.div_small by lia. lia.
Qed.

(** When the last packet has fewer than 255 bytes, closing a file marks its
    page as the end of the stream, and changes nothing else. *)
Theorem close_marks_last_page rate chans ser ps l t o : 0 <= rate < 4294967296 -> 0 <= ser < 4294967296 ->
  Forall2 carries ps (l ++ [(t, o)]) -> increasing None (l ++ [(t, o)]) -> Forall (fun x => fits (snd x)) l -> blen o < 255 ->
  exists w w' w'' r, New (good_file true []) rate chans ser = (Some w, None) /\ write_all ps w = (None, w') /\ Close w' = (None, w'') /\
    newWith (stream_of (contents (out w''))) true = Ok (r, opus_header rate chans) /\
    let t0 := match head (l ++ [(t, o)]) with Some (t, _) => t | None => 0 end in
    read_pages (S (S (length l + 1))) r =
      Some (comment_page ser :: audio_pages ser t0 0 l ++ [page_read o 4 (granule t0 t) ser (page_index (length l))], OggRead EOF).
Proof.
  intros Hr Hs Hps Hi Hf Hlt. set (t0 := match head (l ++ _) with Some (t, _) => t | None => 0 end).
  assert (origin t0 ([] ++ l ++ [(t, o)])) as Ho by (unfold origin, t0; simpl; by destruct (head (l ++ _)) as [[? ?]|]).
  pose proof (blen_nonneg o) as H0.
  set (pre := header_bytes rate chans ser ++ audio_bytes ser t0 0 l).
  set (new := page_of generateChecksumTable o 4 (granule t0 t) ser (page_index (length l))).
  exists (writing true rate chans ser t0 [] 21).
  exists (writing true rate chans ser t0 (l ++ [(t, o)]) (blen o)).
  destruct (Close_file rate chans ser t0 l t o (blen o) eq_refl Hlt) as (w'' & HC & Hc). fold pre new in Hc.
  exists w'', (ready (page_of generateChecksumTable comment_header 0 0 ser 1 ++ audio_bytes ser t0 0 l ++ new)).
  split; [unfold New; by rewrite (NewWith_ok rate chans ser t0)|]. split.
  { rewrite (write_all_ok true rate chans ser t0 ps (l ++ [(t, o)]) Hps [] 21) by done. by rewrite last_snoc. }
  split; [done|]. split.
  - rewrite Hc. subst pre. rewrite <- app_assoc. unfold newWith. by rewrite readHeaders_written.
  - cbv zeta. cbn [read_pages]. rewrite ParseNextPage_page by (done || lia).
    assert (read_pages 2 (ready new) = Some ([page_read o 4 (granule t0 t) ser (page_index (length l))], OggRead EOF)) as Hn.
    { cbn [read_pages]. subst new. rewrite <- (app_nil_r (page_of _ _ _ _ _ _)), ParseNextPage_page; try done;
        [unfold fits; lia|apply granule_range|apply page_index_range]. }
    pose proof (read_pages_audio ser t0 l new _ Hs Hf 0%nat 2%nat Hn) as H. cbn [fst snd] in H.
    replace (length l + 2)%nat with (S (length l + 1))%nat in H by lia. cbn [read_pages] in H. rewrite H. done.
Qed.
End Roundtrip.

(** * Where it goes wrong *)

(** [New] gives neither a writer nor an error when the headers cannot be
    written. *)
Theorem New_hides_error rate chans ser : New (new_file true (Some 0%nat)) rate chans ser = (None, None).
Proof. reflexivity. Qed.

(** A page without segments is allowed in Ogg; [ReadPacket] indexes its empty
    table. *)
Theorem empty_page_panics o p s : page o = None -> readPage (l_doChecksum o) (l_table o) (l_stream o) = (Ok p, s) -> segmentsTable p = [] -> ReadPacket o = None.
Proof. intros E Hr Ht. unfold ReadPacket. rewrite E, Hr. cbn [segment]. by rewrite Ht. Qed.

Module TestOgg.
Definition opus (p : bytes) : option bytes := Some p.
Definition packet (t : Z) (p : bytes) : RtpPacket := {| Timestamp := t; Payload := p |}.

(** What pion's reader gives of a file with these packets, closed. *)
Definition file_of (ps : list RtpPacket) : bytes :=
  match New (new_file true None) 48000 2 7 with
  | (Some w, _) => let '(_, w) := write_all opus ps w in let '(_, w) := Close w in contents (out w)
  | _ => []
  end.
Definition pages_of (ps : list RtpPacket) : option (list (Z * Z * bytes) * ogg_error) :=
  match newWith (stream_of (file_of ps)) true with
  | Ok (r, _) => match read_pages (2 + length ps) r with Some (l, e) => Some ((fun p => (headerType p, GranulePosition p, payload p)) <$> tail l, e) | None => None end
  | Err e => None
  end.

Example two_packets : pages_of [packet 1000 [1;2]; packet 1960 [3]] = Some ([(0, 1, [1;2]); (4, 961, [3])], OggRead EOF).
Proof. vm_compute. reflexivity. Qed.

(** Closing a file whose last packet has 255 bytes or more spoils its page. *)
Example close_spoils_long_page : pages_of [packet 1000 [1;2]; packet 1960 (replicate 255 3)] = Some ([(0, 1, [1;2])], OggRead ErrUnexpectedEOF).
Proof. vm_compute. reflexivity. Qed.

(** A packet with timestamp 1 is taken for the first one: the time from it to
    the next is lost. *)
Example timestamp_one_loses_time : pages_of [packet 1 [1]; packet 961 [2]; packet 1921 [3]] = Some ([(0, 1, [1]); (0, 1, [2]); (4, 961, [3])], OggRead EOF).
Proof. vm_compute. reflexivity. Qed.

(** 65,025 bytes have 256 segments, of which the header says there are none. *)
Example long_page_reads_empty :
  let p := page_of generateChecksumTable (replicate 65025 0) 0 1 7 2 in
  match readPage false [] (stream_of p) with (Ok q, _) => payload q = [] | _ => False end.
Proof. vm_compute. reflexivity. Qed.

Definition times : timed := [(1000, [1;2]); (1960, [3])].
Definition sent : list RtpPacket := [packet 1000 [1;2]; packet 1960 [3]].

Lemma sent_times : Forall2 (carries opus) sent times.
Proof. repeat constructor; done. Qed.
Lemma times_increase : increasing None times.
Proof. split; [done|]. split; [cbn; lia|done]. Qed.

Lemma ogg_roundtrip_witness : exists w w' w'' r, NewWith (Some (good_file true [])) 48000 2 7 = Ok w /\ write_all opus sent w = (None, w') /\
  Close w' = (None, w'') /\ newWith (stream_of (contents (out w''))) true = Ok (r, opus_header 48000 2) /\
  read_pages 4 r = Some ([comment_page 7; page_read [1;2] 0 1 7 2; page_read [3] 0 961 7 3], OggRead EOF).
Proof.
  apply (ogg_roundtrip opus 48000 2 7 sent times); [lia|lia|apply sent_times|apply times_increase|repeat constructor].
Defined.

Lemma livekit_reads_packets_witness : exists w w' r, NewWith (Some (good_file true [])) 48000 2 7 = Ok w /\ write_all opus sent w = (None, w') /\
  NewOggReader (stream_of (contents (out w'))) = Ok (r, opus_header 48000 2) /\ read_packets 3 r = Some ([[1;2]; [3]], OggRead EOF).
Proof.
  apply (livekit_reads_packets opus 48000 2 7 sent times); [lia|lia|apply sent_times|apply times_increase|repeat constructor].
Defined.

Lemma close_marks_last_page_witness : exists w w' w'' r, New (good_file true []) 48000 2 7 = (Some w, None) /\ write_all opus sent w = (None, w') /\
  Close w' = (None, w'') /\ newWith (stream_of (contents (out w''))) true = Ok (r, opus_header 48000 2) /\
  read_pages 4 r = Some ([comment_page 7; page_read [1;2] 0 1 7 2; page_read [3] 4 961 7 3], OggRead EOF).
Proof.
  apply (close_marks_last_page opus 48000 2 7 sent [(1000, [1;2])] 1960 [3]); [lia|lia|apply sent_times|apply times_increase|repeat constructor|reflexivity].
Defined.

Definition empty_page : bytes :=
  let h := page_header 0 0 7 2 0 in put_at 22 (lePutUint32 (checksum_of generateChecksumTable h)) h.

Lemma empty_page_panics_witness : ReadPacket (lk_ready empty_page 0 0) = None.
Proof.
  destruct (readPage true generateChecksumTable (stream_of empty_page)) as [[p|e] s] eqn:E; [|vm_compute in E; discriminate].
  apply (empty_page_panics (lk_ready empty_page 0 0) p s); [reflexivity|exact E|]. vm_compute in E. by injection E as <- _.
Defined.
End TestOgg.
