(* ===== verification/MediaH264.v ===== *)
(** H.264 streams of pion-webrtc: the Annex B reader (pkg/media/h264reader) and
    the writer (pkg/media/h264writer).

    The stream below the reader is the list of what its calls of [Read] return;
    the depacketizer of github.com/pion/rtp is a parameter. *)

From S2P Require Import Prelude GoText GoIO.

(** * Reader *)

Inductive h264_error := errDataIsNotH264Stream | H264EOF | H264Read.

Definition NalUnitTypeSEI : Z := 6.

Record NAL := { PictureOrderCount : Z; ForbiddenZeroBit : bool; RefIdc : Z; UnitType : Z; Data : bytes }.

Definition newNal (data : bytes) : NAL :=
  {| PictureOrderCount := 0; ForbiddenZeroBit := false; RefIdc := 0; UnitType := 0; Data := data |}.

Definition parseHeader (h : NAL) : NAL :=
  let firstByte := byte_at (Data h) 0 in
  {| PictureOrderCount := PictureOrderCount h;
     ForbiddenZeroBit := Z.shiftr (Z.land firstByte 0x80) 7 =? 1;
     RefIdc := Z.shiftr (Z.land firstByte 0x60) 5;
     UnitType := Z.shiftr (Z.land firstByte 0x1F) 0;
     Data := Data h |}.

(** [reads] are the results of the calls of [Read] to come: the bytes, and
    whether an error comes with them.  After them comes the end. *)
Record H264Reader := {
  reads : list (bytes * bool);
  nalBuffer : bytes;
  countOfConsecutiveZeroBytes : Z;
  nalPrefixParsed : bool;
  readBuffer : bytes;
}.

Definition NewReader (l : list (bytes * bool)) : H264Reader :=
  {| reads := l; nalBuffer := []; countOfConsecutiveZeroBytes := 0; nalPrefixParsed := false; readBuffer := [] |}.

Definition set_reads (l : list (bytes * bool)) (buf : bytes) (r : H264Reader) : H264Reader :=
  {| reads := l; nalBuffer := nalBuffer r; countOfConsecutiveZeroBytes := countOfConsecutiveZeroBytes r; nalPrefixParsed := nalPrefixParsed r; readBuffer := buf |}.
Definition set_nal (z : Z) (b : bytes) (r : H264Reader) : H264Reader :=
  {| reads := reads r; nalBuffer := b; countOfConsecutiveZeroBytes := z; nalPrefixParsed := nalPrefixParsed r; readBuffer := readBuffer r |}.
Definition set_parsed (r : H264Reader) : H264Reader :=
  {| reads := reads r; nalBuffer := nalBuffer r; countOfConsecutiveZeroBytes := countOfConsecutiveZeroBytes r; nalPrefixParsed := true; readBuffer := readBuffer r |}.

(** The loop of [read]: [true] when a call of [Read] failed; the bytes that came
    with the error are dropped. *)
Fixpoint fill (numToRead : Z) (buf : bytes) (l : list (bytes * bool)) : bool * bytes * list (bytes * bool) :=
  if numToRead <=? blen buf then (false, buf, l)
  else
    match l with
    | [] => (true, buf, [])
    | (d, true) :: l => (true, buf, l)
    | (d, false) :: l => if blen d =? 0 then (false, buf, l) else fill numToRead (buf ++ d) l
    end.

Definition read (numToRead : Z) (r : H264Reader) : result h264_error bytes * H264Reader :=
  let '(failed, buf, l) := fill numToRead (readBuffer r) (reads r) in
  if failed then (Err H264Read, set_reads l buf r)
  else
    let numShouldRead := if numToRead <=? blen buf then numToRead else blen buf in
    (Ok (slice buf 0 numShouldRead), set_reads l (drop (Z.to_nat numShouldRead) buf) r).

(** The length of the prefix. *)
Definition bitStreamStartsWithH264Prefix (r : H264Reader) : result h264_error Z * H264Reader :=
  match read 4 r with
  | (Err e, r) => (Err e, r)
  | (Ok prefixBuffer, r) =>
      let n := blen prefixBuffer in
      if n =? 0 then (Err H264EOF, r)
      else if n <? 3 then (Err errDataIsNotH264Stream, r)
      else
        let nalPrefix3BytesFound := bool_decide (slice prefixBuffer 0 3 = [0;0;1]) in
        if n =? 3 then (Err (if nalPrefix3BytesFound then H264EOF else errDataIsNotH264Stream), r)
        else if nalPrefix3BytesFound then (Ok 3, set_nal (countOfConsecutiveZeroBytes r) (nalBuffer r ++ [byte_at prefixBuffer 3]) r)
        else if bool_decide (prefixBuffer = [0;0;0;1]) then (Ok 4, r)
        else (Err errDataIsNotH264Stream, r)
  end.

Definition processByte (readByte : Z) (r : H264Reader) : bool * H264Reader :=
  let zeros := countOfConsecutiveZeroBytes r in
  if readByte =? 0 then (false, set_nal (zeros + 1) (nalBuffer r) r)
  else if readByte =? 1 then
    if 2 <=? zeros then
      let inPrefix := if 2 <? zeros then 3 else 2 in
      let nalUnitLength := blen (nalBuffer r) - inPrefix in
      if 0 <? nalUnitLength then (true, set_nal 0 (slice (nalBuffer r) 0 nalUnitLength) r)
      else (false, set_nal 0 (nalBuffer r) r)
    else (false, set_nal 0 (nalBuffer r) r)
  else (false, set_nal 0 (nalBuffer r) r).

(** The loop of [NextNAL]. *)
Fixpoint nal_loop (fuel : nat) (r : H264Reader) : option H264Reader :=
  match fuel with
  | O => None
  | S fuel =>
      match read 1 r with
      | (Err _, r) => Some r
      | (Ok buffer, r) =>
          if negb (blen buffer =? 1) then Some r
          else
            let readByte := byte_at buffer 0 in
            let '(nalFound, r) := processByte readByte r in
            if nalFound then
              let nal := parseHeader (newNal (nalBuffer r)) in
              if UnitType nal =? NalUnitTypeSEI then nal_loop fuel (set_nal (countOfConsecutiveZeroBytes r) [] r)
              else Some r
            else nal_loop fuel (set_nal (countOfConsecutiveZeroBytes r) (nalBuffer r ++ [readByte]) r)
      end
  end.

(** All that is still to come. *)
Definition view (r : H264Reader) : bytes := readBuffer r ++ (reads r ≫= fst).

(** One iteration per byte, and one that finds the end. *)
Definition NextNAL (r : H264Reader) : option (result h264_error NAL * H264Reader) :=
  let '(err, r) :=
    if negb (nalPrefixParsed r) then
      match bitStreamStartsWithH264Prefix r with
      | (Err e, r) => (Some e, r)
      | (Ok _, r) => (None, set_parsed r)
      end
    else (None, r) in
  match err with
  | Some e => Some (Err e, r)
  | None =>
      match nal_loop (S (length (view r))) r with
      | None => None
      | Some r =>
          if blen (nalBuffer r) =? 0 then Some (Err H264EOF, r)
          else Some (Ok (parseHeader (newNal (nalBuffer r))), set_nal (countOfConsecutiveZeroBytes r) [] r)
      end
  end.

(** * Writer *)

Definition isKeyFrame (data : bytes) : bool :=
  if blen data <? 4 then false
  else
    let word := getUint32 data in
    let naluType := Z.land (Z.shiftr word 24) 0x1F in
    if (naluType =? 24) && (Z.land word 0x1F =? 7) then true
    else naluType =? 7.

Section Writer.
Context {P : Type}.
(** [codecs.H264Packet{}] and its [Unmarshal]. *)
Context (packet0 : P) (Unmarshal : bytes -> P -> option bytes * P).

Record H264Writer := { writer : file; hasKeyFrame : bool; cachedPacket : option P }.

Inductive write_error := errUnmarshal | errH264Write.

Definition NewWith (w : file) : H264Writer := {| writer := w; hasKeyFrame := false; cachedPacket := None |}.

Definition WriteRTP (payload : bytes) (h : H264Writer) : option write_error * H264Writer :=
  if blen payload =? 0 then (None, h)
  else if negb (hasKeyFrame h) && negb (isKeyFrame payload) then (None, h)
  else
    let p := default packet0 (cachedPacket h) in
    match Unmarshal payload p with
    | (None, p) => (Some errUnmarshal, {| writer := writer h; hasKeyFrame := true; cachedPacket := Some p |})
    | (Some data, p) =>
        let '(ok, w) := Write data (writer h) in
        (if ok then None else Some errH264Write, {| writer := w; hasKeyFrame := true; cachedPacket := Some p |})
    end.
End Writer.

(** * The loop ends *)

Lemma fill_view n l : forall buf, let '(_, buf', l') := fill n buf l in (length (buf' ++ (l' ≫= fst)) <= length (buf ++ (l ≫= fst)))%nat.
Proof.
  induction l as [|[d e] l IH]; intros buf; cbn [fill]; destruct (n <=? blen buf); try done.
  destruct e; [rewrite bind_cons, !length_app; lia|]. destruct (blen d =? 0); [rewrite bind_cons, !length_app; lia|].
  specialize (IH (buf ++ d)). rewrite bind_cons. cbn [fst]. by rewrite <- app_assoc in IH.
Qed.

Lemma read_view n r b r' : 0 <= n -> read n r = (Ok b, r') -> (length (view r') + length b <= length (view r))%nat.
Proof.
  intros Hn. unfold read, view. pose proof (fill_view n (reads r) (readBuffer r)) as H. destruct (fill n _ _) as [[f buf] l]. destruct f; [done|].
  intros; simplify_eq. cbn [set_reads readBuffer reads]. rewrite slice_prefix. rewrite !length_app, length_take, length_drop in *. lia.
Qed.

Lemma processByte_frame b r : let '(_, r') := processByte b r in view r' = view r.
Proof.
  unfold processByte. destruct (b =? 0); [done|]. destruct (b =? 1); [|done].
  destruct (2 <=? countOfConsecutiveZeroBytes r); [|done]. by destruct (0 <? _).
Qed.

Lemma nal_loop_ends fuel : forall r, (length (view r) < fuel)%nat -> nal_loop fuel r <> None.
Proof.
  induction fuel as [|fuel IH]; intros r Hf; [lia|]. cbn [nal_loop]. destruct (read 1 r) as [[b|e] r1] eqn:E; [|done].
  apply read_view in E; [|lia]. destruct (Z.eqb_spec (blen b) 1) as [Hb|]; [|done]. cbn [negb].
  assert (length b = 1%nat) by (unfold blen in Hb; lia).
  pose proof (processByte_frame (byte_at b 0) r1) as Hv. destruct (processByte _ r1) as [[] r2].
  - destruct (_ =? _); [|done]. apply IH. change (view (set_nal _ _ r2)) with (view r2). rewrite Hv. lia.
  - apply IH. change (view (set_nal _ _ r2)) with (view r2). rewrite Hv. lia.
Qed.

(** Whatever the stream gives, [NextNAL] returns. *)
Theorem NextNAL_returns r : NextNAL r <> None.
Proof.
  unfold NextNAL. destruct (if negb (nalPrefixParsed r) then _ else _) as [[e|] r1]; [done|].
  pose proof (nal_loop_ends (S (length (view r1))) r1 ltac:(lia)). destruct (nal_loop _ r1); [|done]. by destruct (_ =? _).
Qed.

(** * Streams of NAL units *)

(** Calls of [Read] that give bytes and no error. *)
Definition good_reads (l : list (bytes * bool)) : Prop := Forall (fun c => fst c <> [] /\ snd c = false) l.

Lemma fill_good n l : good_reads l -> forall buf, let '(failed, buf', l') := fill n buf l in
  buf' ++ (l' ≫= fst) = buf ++ (l ≫= fst) /\ good_reads l' /\
  (failed = true /\ l' = [] /\ blen buf' < n \/ failed = false /\ n <= blen buf').
Proof.
  induction 1 as [|[d e] l [Hd He] Hl IH]; intros buf; cbn [fill]; destruct (Z.leb_spec n (blen buf)).
  - split; [done|]. split; [constructor|]. by right.
  - split; [done|]. split; [constructor|]. by left.
  - split; [done|]. split; [by constructor|]. by right.
  - cbn [fst snd] in *. subst e. destruct (Z.eqb_spec (blen d) 0); [by destruct d|]. specialize (IH (buf ++ d)).
    destruct (fill n (buf ++ d) l) as [[f buf'] l']. rewrite bind_cons, app_assoc. exact IH.
Qed.

(** A reader between two calls. *)
Definition at_ (r : H264Reader) (z : Z) (b l : bytes) (parsed : bool) : Prop :=
  view r = l /\ good_reads (reads r) /\ countOfConsecutiveZeroBytes r = z /\ nalBuffer r = b /\ nalPrefixParsed r = parsed.

Lemma read_good n r z b l p : at_ r z b l p -> 0 <= n <= blen l -> exists r', read n r = (Ok (take (Z.to_nat n) l), r') /\ at_ r' z b (drop (Z.to_nat n) l) p.
Proof.
  intros (Hv & Hg & Hz & Hb & Hp) Hn. unfold read. pose proof (fill_good n (reads r) Hg (readBuffer r)) as H.
  destruct (fill n _ _) as [[f buf] l']. change (readBuffer r ++ _) with (view r) in H. rewrite Hv in H. destruct H as (He & Hg' & [(-> & -> & Hlt)|(-> & Hle)]).
  - rewrite app_nil_r in He. subst buf. lia.
  - rewrite (proj2 (Z.leb_le _ _)) by done. rewrite slice_prefix. eexists. split; [f_equal; f_equal|].
    + rewrite <- He. rewrite take_app_le; [done|]. unfold blen in Hle. lia.
    + split; [|done]. unfold view. cbn [set_reads readBuffer reads]. rewrite <- He, drop_app_le; [done|]. unfold blen in Hle. lia.
Qed.

Lemma read_end n r z b p : at_ r z b [] p -> 0 < n -> exists r', read n r = (Err H264Read, r') /\ at_ r' z b [] p.
Proof.
  intros (Hv & Hg & Hz & Hb & Hp) Hn. unfold read. pose proof (fill_good n (reads r) Hg (readBuffer r)) as H.
  destruct (fill n _ _) as [[f buf] l']. change (readBuffer r ++ _) with (view r) in H. rewrite Hv in H. destruct H as (He & Hg' & [(-> & -> & Hlt)|(-> & Hle)]).
  - rewrite app_nil_r in He. subst buf. eexists. split; [done|]. split; [done|]. split; [constructor|done].
  - apply app_nil in He as [-> _]. unfold blen in Hle. simpl in Hle. lia.
Qed.

(** The loop, on the bytes. *)
Definition process (b z : Z) (buf : bytes) : bool * Z * bytes :=
  if b =? 0 then (false, z + 1, buf)
  else if b =? 1 then
    if 2 <=? z then
      let n := blen buf - (if 2 <? z then 3 else 2) in
      if 0 <? n then (true, 0, slice buf 0 n) else (false, 0, buf)
    else (false, 0, buf)
  else (false, 0, buf).

Definition is_sei (b : bytes) : bool := UnitType (parseHeader (newNal b)) =? NalUnitTypeSEI.

Fixpoint scan (z : Z) (buf l : bytes) : Z * bytes * bytes :=
  match l with
  | [] => (z, buf, [])
  | b :: l =>
      let '(found, z', buf') := process b z buf in
      if found then if is_sei buf' then scan z' [] l else (z', buf', l)
      else scan z' (buf' ++ [b]) l
  end.

Lemma processByte_at x r z b l p : at_ r z b l p ->
  let '(found, r') := processByte x r in let '(found', z', b') := process x z b in found = found' /\ at_ r' z' b' l p.
Proof.
  intros (Hv & Hg & Hz & Hb & Hp). unfold processByte, process. rewrite Hz, Hb.
  destruct (x =? 0); [done|]. destruct (x =? 1); [|done]. destruct (2 <=? z); [|done]. by destruct (0 <? _).
Qed.

Lemma nal_loop_scan l : forall fuel r z b p, at_ r z b l p -> (length l < fuel)%nat ->
  exists r', nal_loop fuel r = Some r' /\ let '(z', b', l') := scan z b l in at_ r' z' b' l' p.
Proof.
  induction l as [|x l IH]; intros fuel r z b p Hr Hf; (destruct fuel as [|fuel]; [simpl in Hf; lia|]); cbn [nal_loop scan].
  - destruct (read_end 1 r z b p Hr ltac:(lia)) as (r' & -> & H). by eexists.
  - destruct (read_good 1 r z b (x :: l) p Hr) as (r1 & -> & H1); [unfold blen; simpl; lia|].
    change (take (Z.to_nat 1) (x :: l)) with [x]. change (drop (Z.to_nat 1) (x :: l)) with l in H1. change (blen [x] =? 1) with true.
    change (byte_at [x] 0) with x. cbn [negb]. pose proof (processByte_at x r1 z b l p H1) as H2.
    destruct (processByte x r1) as [found r2]. destruct (process x z b) as [[found' z'] b']. destruct H2 as [<- H2]. simpl in Hf.
    pose proof H2 as (Hv & Hg & Hz & Hb & Hp). destruct found.
    + unfold is_sei. rewrite Hb. destruct (_ =? NalUnitTypeSEI); [|by eexists].
      apply IH; [|lia]. rewrite Hz. by split.
    + apply IH; [|lia]. rewrite Hz, Hb. by split.
Qed.

(** ** Units and start codes *)

(** A unit: not empty, without a start code inside, and not ending in 0. *)
Definition clean (n : bytes) : Prop := n <> [] /\ last n <> Some 0 /\ ~ exists a b, n = a ++ [0;0;1] ++ b.

Definition start_code (long : bool) : bytes := if long then [0;0;0;1] else [0;0;1].

(** No start code ends inside [l] after [z] zeros. *)
Fixpoint no_start (z : Z) (l : bytes) : bool :=
  match l with
  | [] => true
  | x :: l => if x =? 0 then no_start (z + 1) l else if x =? 1 then (z <? 2) && no_start 0 l else no_start 0 l
  end.

Lemma no_start_infix l : forall z, 0 <= z -> no_start z l = false -> exists a b, replicate (Z.to_nat z) 0 ++ l = a ++ [0;0;1] ++ b.
Proof.
  induction l as [|x l IH]; intros z Hz; cbn [no_start]; [done|]. destruct (Z.eqb_spec x 0) as [->|].
  - intros H. destruct (IH (z + 1) ltac:(lia) H) as (a & b & E). exists a, b. rewrite <- E.
    rewrite Z2Nat.inj_add, Nat.add_1_r, replicate_S_end, <- app_assoc by lia. done.
  - assert (no_start 0 l = false -> exists a b, replicate (Z.to_nat z) 0 ++ x :: l = a ++ [0;0;1] ++ b) as Hr.
    { intros H. destruct (IH 0 ltac:(lia) H) as (a & b & E). exists (replicate (Z.to_nat z) 0 ++ x :: a), b. change (replicate (Z.to_nat 0) 0 ++ l) with l in E.
      by rewrite E, <- app_assoc. }
    destruct (Z.eqb_spec x 1) as [->|]; [|exact Hr]. intros [H|H]%andb_false_iff; [|by apply Hr]. apply Z.ltb_ge in H.
    exists (replicate (Z.to_nat (z - 2)) 0), l. replace (Z.to_nat z) with (Z.to_nat (z - 2) + 2)%nat by lia. by rewrite replicate_add, <- app_assoc.
Qed.

Lemma no_start_mono l z : forall z', z' <= z -> no_start z l = true -> no_start z' l = true.
Proof.
  revert z. induction l as [|x l IH]; intros z z' Hz; cbn [no_start]; [done|]. destruct (x =? 0); [apply IH; lia|].
  destruct (x =? 1); [|done]. intros [H ->]%andb_true_iff. apply Z.ltb_lt in H. by rewrite (proj2 (Z.ltb_lt _ _)) by lia.
Qed.

Lemma clean_no_start n : clean n -> no_start 0 n = true.
Proof.
  intros (_ & _ & H). destruct (no_start 0 n) eqn:E; [done|]. destruct H. by apply (no_start_infix n 0).
Qed.

(** Zeros at the end of what was read. *)
Definition zeros_after (z : Z) (l : bytes) : Z := fold_left (fun z x => if x =? 0 then z + 1 else 0) l z.

Lemma scan_unit n l : forall z buf, no_start z n = true -> scan z buf (n ++ l) = scan (zeros_after z n) (buf ++ n) l.
Proof.
  induction n as [|x n IH]; intros z buf H; cbn [app]; [by rewrite app_nil_r|]. cbn [scan no_start] in *. unfold process.
  assert (zeros_after z (x :: n) = zeros_after (if x =? 0 then z + 1 else 0) n) as -> by done.
  replace (buf ++ x :: n) with ((buf ++ [x]) ++ n) by (by rewrite <- app_assoc).
  destruct (x =? 0); [by apply IH|]. destruct (x =? 1); [|by apply IH]. apply andb_true_iff in H as [H1 H2].
  apply Z.ltb_lt in H1. rewrite (proj2 (Z.leb_gt 2 z)) by lia. by apply IH.
Qed.

Lemma zeros_after_last n z : last n <> Some 0 -> n <> [] -> zeros_after z n = 0.
Proof.
  intros Hl Hn. destruct (exists_last Hn) as (n' & x & ->). unfold zeros_after. rewrite fold_left_app. cbn [fold_left].
  rewrite last_snoc in Hl. destruct (Z.eqb_spec x 0) as [->|]; done.
Qed.

Lemma process_one z n k : n <> [] -> k = (if 2 <? z then 3%nat else 2%nat) -> 2 <= z -> process 1 z (n ++ replicate k 0) = (true, 0, n).
Proof.
  intros Hn -> Hz. assert (0 < blen n) by (destruct n; [done|unfold blen; simpl; lia]). unfold process. cbn [Z.eqb].
  rewrite (proj2 (Z.leb_le 2 z)) by done. rewrite blen_app. unfold blen at 2 4. rewrite length_replicate.
  replace (blen n + _ - _) with (blen n) by (destruct (2 <? z); lia). rewrite (proj2 (Z.ltb_lt 0 _)) by done.
  rewrite slice_prefix. unfold blen. by rewrite Nat2Z.id, take_app_length.
Qed.

Lemma scan_code long n l : n <> [] -> scan 0 n (start_code long ++ l) = if is_sei n then scan 0 [] l else (0, n, l).
Proof.
  intros Hn. destruct long; cbn [start_code app].
  - change (scan 0 n (0 :: 0 :: 0 :: 1 :: l)) with (scan 3 (((n ++ [0]) ++ [0]) ++ [0]) (1 :: l)). cbn [scan].
    rewrite <- !app_assoc. change ([0] ++ [0] ++ [0]) with (replicate 3 0). by rewrite process_one.
  - change (scan 0 n (0 :: 0 :: 1 :: l)) with (scan 2 ((n ++ [0]) ++ [0]) (1 :: l)). cbn [scan].
    rewrite <- !app_assoc. change ([0] ++ [0]) with (replicate 2 0). by rewrite process_one.
Qed.

(** The units of a stream after their first start code. *)
Fixpoint body (l : list (bool * bytes)) : bytes :=
  match l with [] => [] | (long, n) :: l => start_code long ++ n ++ body l end.

Definition annexb (first : bool * bytes) (l : list (bool * bytes)) : bytes := start_code (fst first) ++ snd first ++ body l.

(** What the reader gives of them: all but the SEI units, of which only one at
    the end is given. *)
Fixpoint shown (n : bytes) (l : list (bool * bytes)) : list bytes :=
  match l with
  | [] => [n]
  | (_, m) :: l => if is_sei n then shown m l else n :: shown m l
  end.

(** Scanning the rest [n'] of the unit [pre ++ n']. *)
Lemma scan_units l : forall pre n', clean (pre ++ n') -> Forall (fun x => clean (snd x)) l -> no_start 0 n' = true -> (n' = [] -> pre <> []) ->
  exists n, scan 0 pre (n' ++ body l) = (0, n, []) /\ shown (pre ++ n') l = [n] \/
  exists m l', scan 0 pre (n' ++ body l) = (0, n, m ++ body l') /\ shown (pre ++ n') l = n :: shown m l' /\ clean m /\ Forall (fun x => clean (snd x)) l'.
Proof.
  induction l as [|[long m] l IH]; intros pre n' Hc Hl Hs Hne;
    pose proof Hc as (Hn & Hlast & _); rewrite scan_unit by done;
    (assert (zeros_after 0 n' = 0) as ->;
      [destruct n' as [|x n']; [done|]; apply zeros_after_last; [|done]; by rewrite last_app_cons in Hlast|]).
  - exists (pre ++ n'). left. by cbn.
  - apply Forall_cons in Hl as [Hm Hl]. cbn [body shown]. rewrite scan_code by done. cbn [snd] in Hm.
    destruct (is_sei (pre ++ n')).
    + destruct (IH [] m Hm Hl (clean_no_start m Hm)) as (n & H); [intros ->; by destruct Hm|]. exists n. exact H.
    + exists (pre ++ n'). right. by exists m, l.
Qed.

(** Unit after unit, up to the first error. *)
Fixpoint read_nals (fuel : nat) (r : H264Reader) : option (list NAL * h264_error) :=
  match fuel with
  | O => None
  | S fuel =>
      match NextNAL r with
      | Some (Ok n, r) => match read_nals fuel r with Some (ns, e) => Some (n :: ns, e) | None => None end
      | Some (Err e, _) => Some ([], e)
      | None => None
      end
  end.

Definition unit_of (n : bytes) : NAL := parseHeader (newNal n).

Lemma NextNAL_scan r pre l : at_ r 0 pre l true -> let '(z, n, l') := scan 0 pre l in
  exists r', NextNAL r = Some (if blen n =? 0 then Err H264EOF else Ok (unit_of n), r') /\ (n <> [] -> at_ r' z [] l' true).
Proof.
  intros Hr. pose proof Hr as (Hv & _ & _ & _ & Hp). unfold NextNAL. rewrite Hp. cbn [negb].
  destruct (nal_loop_scan l (S (length (view r))) r 0 pre true Hr) as (r' & -> & H); [rewrite Hv; lia|].
  destruct (scan 0 pre l) as [[z n] l']. pose proof H as (Hv' & Hg & Hz & Hb & Hp'). rewrite Hb.
  destruct (Z.eqb_spec (blen n) 0) as [H0|]; eexists; (split; [done|]); intros Hne; [by destruct n|]. rewrite Hz. by split.
Qed.

Lemma shown_clean l : forall n, n <> [] -> Forall (fun x => clean (snd x)) l -> Forall (fun m => m <> []) (shown n l).
Proof.
  induction l as [|[b m] l IH]; intros n Hn Hl; cbn [shown]; [by constructor|]. apply Forall_cons in Hl as [[Hm _] Hl].
  destruct (is_sei n); [by apply IH|constructor; [done|by apply IH]].
Qed.

Lemma read_nals_units k : forall r pre n' l, k = length (shown (pre ++ n') l) -> at_ r 0 pre (n' ++ body l) true ->
  clean (pre ++ n') -> Forall (fun x => clean (snd x)) l -> no_start 0 n' = true -> (n' = [] -> pre <> []) ->
  read_nals (S k) r = Some (unit_of <$> shown (pre ++ n') l, H264EOF).
Proof.
  induction k as [|k IH]; intros r pre n' l Hk Hr Hc Hl Hs Hne; pose proof (NextNAL_scan r pre (n' ++ body l) Hr) as Hn;
    pose proof (shown_clean l (pre ++ n') (proj1 Hc) Hl) as Hsh;
    destruct (scan_units l pre n' Hc Hl Hs Hne) as (n & [[E Esh]|(m & l' & E & Esh & Hm & Hl')]); rewrite E in Hn; rewrite Esh in Hk, Hsh |- *;
    destruct Hn as (r' & En & Hr'); apply Forall_cons in Hsh as [Hnn _]; try done; specialize (Hr' Hnn);
    assert (blen n =? 0 = false) as Hb by (by destruct n); rewrite Hb in En.
  - injection Hk as ->. cbn [read_nals]. rewrite En. destruct (NextNAL_scan r' [] [] Hr') as (r2 & -> & _). done.
  - injection Hk as Hk. remember (S k) as k'. cbn [read_nals]. rewrite En. subst k'.
    rewrite (IH r' [] m l') by (done || (by apply clean_no_start) || (intros ->; by destruct Hm)). done.
Qed.

Lemma units_read first l rs : clean (snd first) -> Forall (fun x => clean (snd x)) l -> good_reads rs -> rs ≫= fst = annexb first l ->
  read_nals (S (length (shown (snd first) l))) (NewReader rs) = Some (unit_of <$> shown (snd first) l, H264EOF).
Proof.
  intros Hc Hl Hg Hv. destruct first as [long n]. unfold annexb in Hv. cbn [fst snd] in *.
  assert (exists r pre n', at_ r 0 pre (n' ++ body l) true /\ n = pre ++ n' /\ no_start 0 n' = true /\ (n' = [] -> pre <> []) /\
    NextNAL (NewReader rs) = NextNAL r) as (r & pre & n' & Hr & -> & Hs & Hne & HN).
  2: { pose proof (read_nals_units _ r pre n' l eq_refl Hr Hc Hl Hs Hne) as H. cbn [read_nals] in H |- *. by rewrite HN. }
  assert (at_ (NewReader rs) 0 [] (start_code long ++ n ++ body l) false) as H0 by (split; [exact Hv|done]).
  destruct n as [|x n]; [by destruct Hc|].
  assert (4 <= blen (start_code long ++ (x :: n) ++ body l)).
  { rewrite !blen_app. pose proof (blen_nonneg (body l)). unfold blen at 1 2. destruct long; simpl; lia. }
  destruct (read_good 4 _ _ _ _ _ H0) as (r & Er & Hr); [lia|].
  assert (forall r1, bitStreamStartsWithH264Prefix (NewReader rs) = (Ok (if long then 4 else 3), r1) -> nalPrefixParsed r1 = false ->
    NextNAL (NewReader rs) = NextNAL (set_parsed r1)) as HN.
  { intros r1 E1 _. unfold NextNAL. cbn [NewReader nalPrefixParsed negb]. by rewrite E1. }
  pose proof Hr as (Hrv & Hrg & Hrz & Hrb & Hrp). unfold bitStreamStartsWithH264Prefix in HN. rewrite Er in HN.
  destruct long; cbn [start_code] in *.
  - exists (set_parsed r), [], (x :: n). split; [by split|]. split; [done|]. split; [by apply clean_no_start|]. split; [done|]. by apply HN.
  - change (take (Z.to_nat 4) _) with [0;0;1;x] in HN. exists (set_parsed (set_nal 0 [x] r)), [x], n.
    split; [by split|]. split; [done|]. split.
    { apply clean_no_start in Hc. cbn [no_start] in Hc. destruct (x =? 0); [by eapply no_start_mono; [|exact Hc]|].
      destruct (x =? 1); [|done]. by apply andb_true_iff in Hc as [_ ?]. }
    split; [done|]. apply HN; [|done]. rewrite Hrz, Hrb. done.
Qed.

(** Units with any start codes between them, however the stream is cut into
    calls of [Read], are read one by one, with their headers; SEI units are left
    out except at the end of the stream. *)
Theorem h264_units_read first l rs : clean (snd first) -> Forall (fun x => clean (snd x)) l -> good_reads rs -> rs ≫= fst = annexb first l ->
  read_nals (S (length (shown (snd first) l))) (NewReader rs) = Some (unit_of <$> shown (snd first) l, H264EOF).
Proof. apply units_read. Qed.

(** [io.Reader] may give bytes together with the end of the stream; [read]
    drops them. *)
Theorem bytes_with_error_dropped d l : exists r, NextNAL (NewReader ((d, true) :: l)) = Some (Err H264Read, r) /\ view r = l ≫= fst.
Proof. by eexists. Qed.

(** A call of [Read] without bytes, which is no error, ends a unit early. *)
Example empty_read_cuts_unit :
  read_nals 3 (NewReader [([0;0;0;1;65;7], false); ([], false); ([8;9], false)]) = Some ([unit_of [65;7]; unit_of [8;9]], H264EOF).
Proof. reflexivity. Qed.

(** * What the writer keeps *)

Section Written.
Context {P : Type} (packet0 : P) (Unmarshal : bytes -> P -> option bytes * P).

Fixpoint write_all (ps : list bytes) (h : H264Writer) : option write_error * H264Writer :=
  match ps with
  | [] => (None, h)
  | p :: ps => match WriteRTP packet0 Unmarshal p h with (None, h) => write_all ps h | r => r end
  end.

(** The packets from the first key frame on, without empty ones. *)
Fixpoint from_key (seen : bool) (ps : list bytes) : list bytes :=
  match ps with
  | [] => []
  | p :: ps => if bool_decide (p = []) then from_key seen ps
               else if seen || isKeyFrame p then p :: from_key true ps else from_key false ps
  end.

(** What the depacketizer makes of them. *)
Fixpoint depacketized (ps : list bytes) (st : P) : option bytes :=
  match ps with
  | [] => Some []
  | p :: ps => match Unmarshal p st with
               | (Some d, st) => match depacketized ps st with Some r => Some (d ++ r) | None => None end
               | (None, _) => None
               end
  end.

Lemma h264_write_all_ok sk ps : forall seen l c d, (seen = false -> c = None) -> depacketized (from_key seen ps) (default packet0 c) = Some d ->
  exists h, write_all ps {| writer := good_file sk l; hasKeyFrame := seen; cachedPacket := c |} = (None, h) /\ writer h = good_file sk (l ++ d).
Proof.
  induction ps as [|p ps IH]; intros seen l c d Hs; cbn [from_key write_all].
  { cbn [depacketized]. intros; simplify_eq. eexists. split; [done|]. by rewrite app_nil_r. }
  unfold WriteRTP. cbn [hasKeyFrame cachedPacket writer].
  destruct p as [|b p]; [cbn; apply IH, Hs|]. rewrite bool_decide_false by done. change (blen (b :: p) =? 0) with false.
  destruct seen, (isKeyFrame (b :: p)); cbn [orb negb andb]; try (apply IH, Hs); cbn [depacketized];
    (destruct (Unmarshal (b :: p) (default packet0 c)) as [[d1|] st]; [|done]);
    (destruct (depacketized (from_key true ps) st) as [d2|] eqn:E2; [|done]); intros; simplify_eq; rewrite Write_good;
    (destruct (IH true (l ++ d1) (Some st) d2) as (h & -> & Hw); [done|exact E2|]); exists h; by rewrite Hw, <- app_assoc.
Qed.

(** The file has what the depacketizer makes of the packets from the first key
    frame on; the reader gives back the units in it. *)
Theorem h264_written_read sk ps first l rs : depacketized (from_key false ps) packet0 = Some (annexb first l) ->
  clean (snd first) -> Forall (fun x => clean (snd x)) l ->
  exists h, write_all ps (NewWith (good_file sk [])) = (None, h) /\
    (good_reads rs -> rs ≫= fst = contents (writer h) ->
     read_nals (S (length (shown (snd first) l))) (NewReader rs) = Some (unit_of <$> shown (snd first) l, H264EOF)).
Proof.
  intros Hd Hc Hl. destruct (h264_write_all_ok sk ps false [] None _ (fun _ => eq_refl) Hd) as (h & Hw & Hf). exists h. split; [exact Hw|].
  intros Hg Hv. rewrite Hf in Hv. cbn in Hv. exact (units_read first l rs Hc Hl Hg Hv).
Qed.
End Written.

(** * Concrete runs *)

Module TestH264.
Definition sps : bytes := [103;66;0;10].
Definition sei : bytes := [6;5].
Definition idr : bytes := [101;1;2].

Ltac clean_tac := split; [done|split; [done|]]; intros (a & b & E); unfold sps, sei, idr in E; do 6 (try (destruct a as [|? a]; simplify_eq/=)).

Lemma sps_clean : clean sps.
Proof. clean_tac. Qed.
Lemma sei_clean : clean sei.
Proof. clean_tac. Qed.
Lemma idr_clean : clean idr.
Proof. clean_tac. Qed.

Definition calls : list (bytes * bool) := [([0;0;0], false); ([1;103;66;0;10;0;0], false); ([1;6;5;0;0;0;1], false); (idr, false)].

Lemma h264_units_read_witness : read_nals 3 (NewReader calls) = Some ([unit_of sps; unit_of idr], H264EOF).
Proof.
  apply (h264_units_read (true, sps) [(false, sei); (true, idr)] calls);
    [apply sps_clean|constructor; [exact sei_clean|constructor; [exact idr_clean|constructor]]|by repeat constructor|reflexivity].
Defined.

(** A depacketizer that puts a start code before each packet. *)
Definition depacketize (p : bytes) (st : unit) : option bytes * unit := (Some (start_code true ++ p), st).

Lemma h264_written_read_witness : exists h, write_all tt depacketize [idr; sps; idr] (NewWith (good_file false [])) = (None, h) /\
  (good_reads [(contents (writer h), false)] -> [(contents (writer h), false)] ≫= fst = contents (writer h) ->
   read_nals 3 (NewReader [(contents (writer h), false)]) = Some ([unit_of sps; unit_of idr], H264EOF)).
Proof.
  eexists. split; [reflexivity|].
  destruct (h264_written_read tt depacketize false [idr; sps; idr] (true, sps) [(true, idr)] [(start_code true ++ sps ++ start_code true ++ idr, false)])
    as (h & Hw & H); [reflexivity|apply sps_clean|constructor; [exact idr_clean|constructor]|].
  injection Hw as <-. exact H.
Defined.
End TestH264.
