(* ===== verification/TurnClient.v ===== *)
(** The TURN client's relayed connection: lib/pion-turn/internal/client.

    Permissions and channel bindings are objects shared between maps and
    callers, so each kind lives in a store indexed by object identity and the
    maps hold identities.  [PerformTransaction] and [WriteTo] of the
    [Client] interface, and the messages of pion/stun, are the class
    [ClientEnv].  Goroutines started by [WriteTo] are pending tasks, run by
    [runBindTask]. *)

From S2P Require Import Prelude GoNet Stun TurnProto.

(** * binding.go *)

Module Binding.

Definition minChannelNumber : Z := 0x4000.
Definition maxChannelNumber : Z := 0x7fff.

Inductive bindingState := Idle | Request | Ready | Refreshing | Failed.

#[global] Instance bindingState_eq_dec : EqDecision bindingState.
Proof. solve_decision. Defined.

Record binding := { number : Z; st : bindingState; addr : net_Addr; refreshedAt : Z }.

(** [setState], [setRefreshedAt]. *)
Definition setState (s : bindingState) (b : binding) : binding :=
  {| number := number b; st := s; addr := addr b; refreshedAt := refreshedAt b |}.
Definition setRefreshedAt (t : Z) (b : binding) : binding :=
  {| number := number b; st := st b; addr := addr b; refreshedAt := t |}.

(** [bindingManager], with the store of the bindings it has created. *)
Record bindingManager := {
  objs : list binding;
  chanMap : gmap Z nat;
  addrMap : gmap string nat;
  next : Z;
}.

(** [newBindingManager]. *)
Definition newBindingManager : bindingManager :=
  {| objs := []; chanMap := ∅; addrMap := ∅; next := minChannelNumber |}.

(** [assignChannelNumber]. *)
Definition assignChannelNumber (m : bindingManager) : bindingManager * Z :=
  let n := next m in
  ({| objs := objs m; chanMap := chanMap m; addrMap := addrMap m;
      next := if next m =? maxChannelNumber then minChannelNumber else u16 (next m + 1) |}, n).

(** [create]. *)
Definition create (now : Z) (a : net_Addr) (m : bindingManager) : bindingManager * nat :=
  let '(m1, n) := assignChannelNumber m in
  let b := {| number := n; st := Idle; addr := a; refreshedAt := now |} in
  let i := length (objs m1) in
  ({| objs := objs m1 ++ [b]; chanMap := <[n := i]> (chanMap m1);
      addrMap := <[addrString a := i]> (addrMap m1); next := next m1 |}, i).

(** [findByAddr], [findByNumber]. *)
Definition findByAddr (a : net_Addr) (m : bindingManager) : option nat := addrMap m !! addrString a.
Definition findByNumber (n : Z) (m : bindingManager) : option nat := chanMap m !! n.

(** [deleteByAddr]. *)
Definition deleteByAddr (a : net_Addr) (m : bindingManager) : bindingManager * bool :=
  match addrMap m !! addrString a ≫= fun i => objs m !! i with
  | None => (m, false)
  | Some b =>
      ({| objs := objs m; chanMap := delete (number b) (chanMap m);
          addrMap := delete (addrString a) (addrMap m); next := next m |}, true)
  end.

(** [deleteByNumber]. *)
Definition deleteByNumber (n : Z) (m : bindingManager) : bindingManager * bool :=
  match chanMap m !! n ≫= fun i => objs m !! i with
  | None => (m, false)
  | Some b =>
      ({| objs := objs m; chanMap := delete n (chanMap m);
          addrMap := delete (addrString (addr b)) (addrMap m); next := next m |}, true)
  end.

(** [size]. *)
Definition size (m : bindingManager) : Z := Z.of_nat (stdpp.base.size (chanMap m)).

(** An update through a binding's pointer. *)
Definition update (i : nat) (f : binding -> binding) (m : bindingManager) : bindingManager :=
  {| objs := alter f i (objs m); chanMap := chanMap m; addrMap := addrMap m; next := next m |}.

End Binding.

(** * permission.go *)

Module Perm.

Inductive permState := Idle | Permitted.

#[global] Instance permState_eq_dec : EqDecision permState.
Proof. solve_decision. Defined.

Record permission := { addr : net_Addr; st : permState }.

(** [permissionMap], with the store of permissions. *)
Record permissionMap := { objs : list permission; permMap : gmap string nat }.

(** [newPermissionMap]. *)
Definition newPermissionMap : permissionMap := {| objs := []; permMap := ∅ |}.

(** [insert] of a new permission [&permission{}]. *)
Definition insert (a : net_Addr) (m : permissionMap) : permissionMap * nat :=
  let i := length (objs m) in
  ({| objs := objs m ++ [{| addr := a; st := Idle |}];
      permMap := <[FingerprintAddr a := i]> (permMap m) |}, i).

(** [find]. *)
Definition find (a : net_Addr) (m : permissionMap) : option nat :=
  permMap m !! FingerprintAddr a.

(** [delete]. *)
Definition delete (a : net_Addr) (m : permissionMap) : permissionMap :=
  {| objs := objs m; permMap := base.delete (FingerprintAddr a) (permMap m) |}.

(** [addrs], in the order the map is iterated. *)
Definition addrs (m : permissionMap) : list net_Addr :=
  map_to_list (permMap m) ≫= fun ki => option_list (addr <$> objs m !! ki.2).

(** [setState] through the pointer. *)
Definition setState (i : nat) (s : permState) (m : permissionMap) : permissionMap :=
  {| objs := alter (fun p => {| addr := addr p; st := s |}) i (objs m); permMap := permMap m |}.

(** [state]. *)
Definition state (i : nat) (m : permissionMap) : permState :=
  match objs m !! i with Some p => st p | None => Idle end.

End Perm.

(** * trylock.go, periodic_timer.go *)

(** [TryLock.Lock]: compare-and-swap; the flag and whether it was taken. *)
Definition TryLock_Lock (n : Z) : Z * bool := if n =? 0 then (1, true) else (n, false).
Definition TryLock_Unlock (n : Z) : Z := 0.

(** [PeriodicTimer]: [stopFunc] is set while the timer's goroutine runs. *)
Record PeriodicTimer := { timerID : Z; interval : Z; stopFunc : bool }.

Definition NewPeriodicTimer (id interval : Z) : PeriodicTimer :=
  {| timerID := id; interval := interval; stopFunc := false |}.
Definition PeriodicTimer_Start (t : PeriodicTimer) : PeriodicTimer * bool :=
  if stopFunc t then (t, false)
  else ({| timerID := timerID t; interval := interval t; stopFunc := true |}, true).
Definition PeriodicTimer_Stop (t : PeriodicTimer) : PeriodicTimer :=
  {| timerID := timerID t; interval := interval t; stopFunc := false |}.
Definition PeriodicTimer_IsRunning (t : PeriodicTimer) : bool := stopFunc t.

(** * What the client calls *)

Class ClientEnv (S : StunMessage) := {
  cworld : Type;
  ClientError : Type;
  (** the client's socket, [c.conn.WriteTo] *)
  connWriteTo : cworld -> bytes -> net_Addr -> cworld * option ClientError;
  (** [stun.Build] and the raw bytes of the message *)
  build : list Setter -> result ClientError Message;
  msg_Raw : Message -> bytes;
  (** [Client.PerformTransaction] with [dontWait], and [Client.WriteTo] *)
  performTransaction : cworld -> Message -> net_Addr -> bool -> cworld * result ClientError Message;
  clientWriteTo : cworld -> bytes -> net_Addr -> cworld * result ClientError Z;
  (** [Client.OnDeallocated] *)
  onDeallocated : cworld -> net_Addr -> cworld;
  res_Class : Message -> MessageClass;
  res_Method : Message -> Method;
  errorCode_GetFrom : Message -> result ClientError ErrorCode;
  resNonce_GetFrom : Message -> result ClientError string;
}.

(** * transaction.go and the retransmissions of client.go *)

Module Transactions.
Section Transactions.
Context {S : StunMessage} {CE : ClientEnv S}.

Definition maxRtxInterval : Z := 1600 * millisecond.
Definition defaultRTO : Z := 200 * millisecond.
Definition maxRtxCount : Z := 7.

Inductive tr_error :=
| errAllRetransmissionsFailed | errFailedToRetransmitTransaction | errTransactionClosed.

Record Transaction := {
  Raw : bytes;
  To : net_Addr;
  nRtx : Z;
  tr_interval : Z;
  (** the deadline of the running timer *)
  timer : option Z;
  (** whether [resultCh] exists *)
  hasResult : bool;
}.

(** The client's transactions, and the results handed to their waiters. *)
Record engine := {
  clock : Z;
  socket : cworld;
  trMap : gmap string Transaction;
  results : list (string * (Message + tr_error));
}.

(** [NewTransaction]. *)
Definition NewTransaction (raw : bytes) (to : net_Addr) (itv : Z) (ignoreResult : bool) : Transaction :=
  {| Raw := raw; To := to; nRtx := 0; tr_interval := itv; timer := None;
     hasResult := negb ignoreResult |}.

(** [StartRtxTimer] at time [t], and what its callback does before calling
    [onTimeout]. *)
Definition StartRtxTimer (t : Z) (tr : Transaction) : Transaction :=
  {| Raw := Raw tr; To := To tr; nRtx := nRtx tr; tr_interval := tr_interval tr;
     timer := Some (t + tr_interval tr); hasResult := hasResult tr |}.

Definition rtxFired (tr : Transaction) : Transaction :=
  {| Raw := Raw tr; To := To tr; nRtx := nRtx tr + 1;
     tr_interval := let i := i64 (tr_interval tr * 2) in
                    if maxRtxInterval <? i then maxRtxInterval else i;
     timer := None; hasResult := hasResult tr |}.

(** [StopRtxTimer]. *)
Definition StopRtxTimer (tr : Transaction) : Transaction :=
  {| Raw := Raw tr; To := To tr; nRtx := nRtx tr; tr_interval := tr_interval tr;
     timer := None; hasResult := hasResult tr |}.

Definition set_trMap (f : gmap string Transaction -> gmap string Transaction) (e : engine) : engine :=
  {| clock := clock e; socket := socket e; trMap := f (trMap e); results := results e |}.

(** [Insert], [Find], [Delete] of [TransactionMap]. *)
Definition Insert (key : string) (tr : Transaction) : engine -> engine := set_trMap (<[key := tr]>).
Definition Find (key : string) (e : engine) : option Transaction := trMap e !! key.
Definition Delete (key : string) : engine -> engine := set_trMap (delete key).

(** [WriteResult]. *)
Definition WriteResult (key : string) (tr : Transaction) (r : Message + tr_error) (e : engine)
    : engine :=
  if hasResult tr
  then {| clock := clock e; socket := socket e; trMap := trMap e;
          results := results e ++ [(key, r)] |}
  else e.

(** Sending on the client's socket. *)
Definition send (raw : bytes) (to : net_Addr) (e : engine) : engine * option ClientError :=
  let '(w, err) := connWriteTo (socket e) raw to in
  ({| clock := clock e; socket := w; trMap := trMap e; results := results e |}, err).

(** [Client.PerformTransaction] up to [WaitForResult]. *)
Definition startTransaction (key : string) (raw : bytes) (to : net_Addr) (rto : Z)
    (ignoreResult : bool) (e : engine) : engine * option ClientError :=
  let tr := NewTransaction raw to rto ignoreResult in
  let '(e1, err) := send raw to (Insert key tr e) in
  match err with
  | Some x => (e1, Some x)
  | None => (Insert key (StartRtxTimer (clock e1) tr) e1, None)
  end.

(** [Client.onRtxTimeout]. *)
Definition onRtxTimeout (key : string) (n : Z) (e : engine) : engine :=
  match Find key e with
  | None => e
  | Some tr =>
      if n =? maxRtxCount
      then WriteResult key tr (inr errAllRetransmissionsFailed) (Delete key e)
      else
        let '(e1, err) := send (Raw tr) (To tr) e in
        match err with
        | Some _ => WriteResult key tr (inr errFailedToRetransmitTransaction) (Delete key e1)
        | None => Insert key (StartRtxTimer (clock e1) tr) e1
        end
  end.

(** The timer of a transaction fires when it is due: the clock moves there,
    the callback runs. *)
Definition fire (key : string) (e : engine) : engine :=
  match Find key e with
  | Some tr =>
      match timer tr with
      | Some d =>
          let tr' := rtxFired tr in
          onRtxTimeout key (nRtx tr')
            (Insert key tr' {| clock := Z.max (clock e) d; socket := socket e;
                               trMap := trMap e; results := results e |})
      | None => e
      end
  | None => e
  end.

(** [Client.handleSTUNMessage] for a response to the transaction [key]. *)
Definition handleResponse (key : string) (m : Message) (e : engine) : engine :=
  match Find key e with
  | None => e
  | Some tr => WriteResult key (StopRtxTimer tr) (inl m) (Delete key e)
  end.

(** [TransactionMap.CloseAndDeleteAll]: closing the result channel of a
    transaction gives its waiter [errTransactionClosed]; and [Size]. *)
Definition CloseAndDeleteAll (e : engine) : engine :=
  {| clock := clock e; socket := socket e; trMap := ∅;
     results := results e ++
       (map_to_list (trMap e) ≫= fun kt =>
          if hasResult kt.2 then [(kt.1, inr errTransactionClosed)] else []) |}.
Definition Size (e : engine) : Z := Z.of_nat (stdpp.base.size (trMap e)).

(** ** The retransmission schedule *)

(** The interval after [k] retransmissions. *)
Definition rtxInterval (rto : Z) (k : nat) : Z :=
  match k with
  | O => rto
  | _ => Z.min (rto * 2 ^ Z.of_nat k) maxRtxInterval
  end.

(** The time of the [k]-th timeout after a start at [t]. *)
Fixpoint rtxTime (t rto : Z) (k : nat) : Z :=
  match k with
  | O => t
  | Datatypes.S k' => rtxTime t rto k' + rtxInterval rto k'
  end.

(** The socket after sending [k] times. *)
Fixpoint sends (k : nat) (raw : bytes) (to : net_Addr) (w : cworld) : cworld :=
  match k with O => w | Datatypes.S k' => fst (connWriteTo (sends k' raw to w) raw to) end.

Lemma rtxInterval_step rto k :
  0 < rto <= maxRtxInterval ->
  (let i := i64 (rtxInterval rto k * 2) in if maxRtxInterval <? i then maxRtxInterval else i)
  = rtxInterval rto (Datatypes.S k).
Proof.
  intros Hr. unfold maxRtxInterval, millisecond in *.
  assert (forall x, 0 < x <= 1600 * 1000000 -> i64 (x * 2) = x * 2) as Hi.
  { intros x Hx. unfold i64. rewrite Z.mod_small by lia. lia. }
  assert (0 < rtxInterval rto k <= 1600 * 1000000) as Hk.
  { unfold rtxInterval, maxRtxInterval, millisecond. destruct k; [lia|].
    assert (0 < 2 ^ Z.of_nat (Datatypes.S k)) by (apply Z.pow_pos_nonneg; lia). nia. }
  cbv zeta. rewrite Hi by done. clear Hi.
  unfold rtxInterval in *. unfold maxRtxInterval, millisecond in *.
  rewrite (Nat2Z.inj_succ k), Z.pow_succ_r by lia. destruct k as [|k].
  - change (2 ^ Z.of_nat 0) with 1. destruct (_ <? _) eqn:E; boolp; lia.
  - set (p := 2 ^ Z.of_nat (Datatypes.S k)) in *. destruct (_ <? _) eqn:E; boolp; nia.
Qed.

(** The state of a transaction that has been sent [k + 1] times. *)
Record outstanding (t rto : Z) (key : string) (raw : bytes) (to : net_Addr) (w : cworld)
    (rs : list (string * (Message + tr_error))) (k : nat) (e : engine) : Prop := {
  out_clock : clock e = rtxTime t rto k;
  out_socket : socket e = sends (Datatypes.S k) raw to w;
  out_results : results e = rs;
  out_tr : trMap e !! key =
    Some {| Raw := raw; To := to; nRtx := Z.of_nat k; tr_interval := rtxInterval rto k;
            timer := Some (rtxTime t rto (Datatypes.S k)); hasResult := true |};
}.

Lemma rtxTime_le t rto k : 0 < rto -> rtxTime t rto k <= rtxTime t rto (Datatypes.S k).
Proof.
  intros Hr. simpl. unfold rtxInterval, maxRtxInterval, millisecond. destruct k; [lia|].
  assert (0 < 2 ^ Z.of_nat (Datatypes.S k)) by (apply Z.pow_pos_nonneg; lia). nia.
Qed.

Lemma fire_outstanding t rto key raw to w rs k e :
  0 < rto <= maxRtxInterval ->
  snd (connWriteTo (sends (Datatypes.S k) raw to w) raw to) = None ->
  (k + 1 < 7)%nat ->
  outstanding t rto key raw to w rs k e -> outstanding t rto key raw to w rs (Datatypes.S k) (fire key e).
Proof.
  intros Hr Hw Hk [Hc Hs Hrs Htr]. unfold fire, Find. rewrite Htr. cbn [timer].
  unfold onRtxTimeout, Find, Insert, set_trMap. cbn [trMap clock socket results].
  rewrite lookup_insert_eq. unfold rtxFired. cbn [nRtx Raw To tr_interval hasResult].
  destruct (Z.of_nat k + 1 =? maxRtxCount) eqn:E; boolp; [unfold maxRtxCount in E; lia|].
  unfold send. cbn [socket]. rewrite Hs.
  destruct (connWriteTo _ raw to) as [w' err] eqn:Ew. simpl in Hw. subst err.
  pose proof (rtxTime_le t rto k ltac:(lia)) as Hle.
  split; cbn [clock socket results trMap].
  - rewrite Hc. rewrite Z.max_r by done. done.
  - change (sends (Datatypes.S (Datatypes.S k)) raw to w)
      with (fst (connWriteTo (sends (Datatypes.S k) raw to w) raw to)). by rewrite Ew.
  - done.
  - rewrite lookup_insert_eq. unfold StartRtxTimer. cbn [Raw To nRtx tr_interval hasResult].
    rewrite rtxInterval_step by done. f_equal. f_equal.
    + lia.
    + rewrite Hc, Z.max_r by done. done.
Qed.

Lemma fire_gives_up t rto key raw to w rs e :
  0 < rto ->
  outstanding t rto key raw to w rs 6 e ->
  let e' := fire key e in
  clock e' = rtxTime t rto 7 /\ socket e' = sends 7 raw to w /\ trMap e' !! key = None /\
  results e' = rs ++ [(key, inr errAllRetransmissionsFailed)].
Proof.
  intros Hr [Hc Hs Hrs Htr]. unfold fire, Find. rewrite Htr. cbn [timer].
  unfold onRtxTimeout, Find, Insert, Delete, set_trMap, WriteResult.
  cbn [trMap clock socket results]. rewrite lookup_insert_eq. simpl. rewrite Hs, Hrs.
  pose proof (rtxTime_le t rto 6 Hr) as Hle. rewrite Hc. split_and!; try done.
  - by apply Z.max_r.
  - apply lookup_delete_eq.
Qed.

End Transactions.
End Transactions.

(** * allocation.go and udp_conn.go *)

Module UdpConn.
Section UdpConn.
Context {S : StunMessage} {CE : ClientEnv S}.

Definition maxReadQueueSize : nat := 1024.
Definition permRefreshInterval : Z := 120 * second.
Definition maxRetryAttempts : nat := 3.
Definition timerIDRefreshAlloc : Z := 0.
Definition timerIDRefreshPerms : Z := 1.

Inductive error :=
| errUDPAddrCast | errTimeout | errTryAgain | errAlreadyClosed | ErrShortBuffer | errClosed
| ErrClient (e : ClientError)
| errFailedToBuildRefreshRequest (e : ClientError)
| errFailedToRefreshAllocation (e : ClientError)
| errFailedToGetLifetime (e : StunError)
| errResponse (c : MessageClass) (code : option ErrorCode)
| errUnexpectedResponseType (m : Method) (c : MessageClass).

(** The fields of [allocation] that change, and its credentials. *)
Record allocation := {
  relayedAddr : net_Addr;
  serverAddr : net_Addr;
  permMap : Perm.permissionMap;
  integrity : bytes;
  username : string;
  realm : string;
  nonce : string;
  lifetime : Z;
  refreshAllocTimer : PeriodicTimer;
  refreshPermsTimer : PeriodicTimer;
}.

(** [UDPConn], with the sockets of the environment; [bindTasks] are the
    goroutines running [bind], each with its binding and whether it is a
    refresh. *)
Record UDPConn := {
  world : cworld;
  alloc : allocation;
  bindingMgr : Binding.bindingManager;
  readCh : list (bytes * net_Addr);
  closeCh : bool;
  (** the time [readTimer] is due, and whether its channel holds a tick *)
  readTimer : option Z;
  readTick : bool;
  bindTasks : list (nat * bool);
}.

Definition with_world (w : cworld) (c : UDPConn) : UDPConn :=
  {| world := w; alloc := alloc c; bindingMgr := bindingMgr c; readCh := readCh c;
     closeCh := closeCh c; readTimer := readTimer c; readTick := readTick c;
     bindTasks := bindTasks c |}.
Definition with_bindingMgr (m : Binding.bindingManager) (c : UDPConn) : UDPConn :=
  {| world := world c; alloc := alloc c; bindingMgr := m; readCh := readCh c;
     closeCh := closeCh c; readTimer := readTimer c; readTick := readTick c;
     bindTasks := bindTasks c |}.
Definition with_tasks (l : list (nat * bool)) (c : UDPConn) : UDPConn :=
  {| world := world c; alloc := alloc c; bindingMgr := bindingMgr c; readCh := readCh c;
     closeCh := closeCh c; readTimer := readTimer c; readTick := readTick c;
     bindTasks := l |}.
Definition with_readCh (l : list (bytes * net_Addr)) (c : UDPConn) : UDPConn :=
  {| world := world c; alloc := alloc c; bindingMgr := bindingMgr c; readCh := l;
     closeCh := closeCh c; readTimer := readTimer c; readTick := readTick c;
     bindTasks := bindTasks c |}.
Definition with_alloc (a : allocation) (c : UDPConn) : UDPConn :=
  {| world := world c; alloc := a; bindingMgr := bindingMgr c; readCh := readCh c;
     closeCh := closeCh c; readTimer := readTimer c; readTick := readTick c;
     bindTasks := bindTasks c |}.

Definition with_perms (p : Perm.permissionMap) (c : UDPConn) : UDPConn :=
  let a := alloc c in
  with_alloc {| relayedAddr := relayedAddr a; serverAddr := serverAddr a; permMap := p;
                integrity := integrity a; username := username a; realm := realm a;
                nonce := nonce a; lifetime := lifetime a;
                refreshAllocTimer := refreshAllocTimer a;
                refreshPermsTimer := refreshPermsTimer a |} c.
(** [setNonce], [setLifetime]. *)
Definition setNonce (n : string) (c : UDPConn) : UDPConn :=
  let a := alloc c in
  with_alloc {| relayedAddr := relayedAddr a; serverAddr := serverAddr a; permMap := permMap a;
                integrity := integrity a; username := username a; realm := realm a;
                nonce := n; lifetime := lifetime a;
                refreshAllocTimer := refreshAllocTimer a;
                refreshPermsTimer := refreshPermsTimer a |} c.
Definition setLifetime (l : Z) (c : UDPConn) : UDPConn :=
  let a := alloc c in
  with_alloc {| relayedAddr := relayedAddr a; serverAddr := serverAddr a; permMap := permMap a;
                integrity := integrity a; username := username a; realm := realm a;
                nonce := nonce a; lifetime := l;
                refreshAllocTimer := refreshAllocTimer a;
                refreshPermsTimer := refreshPermsTimer a |} c.
Definition stopTimers (c : UDPConn) : UDPConn :=
  let a := alloc c in
  with_alloc {| relayedAddr := relayedAddr a; serverAddr := serverAddr a; permMap := permMap a;
                integrity := integrity a; username := username a; realm := realm a;
                nonce := nonce a; lifetime := lifetime a;
                refreshAllocTimer := PeriodicTimer_Stop (refreshAllocTimer a);
                refreshPermsTimer := PeriodicTimer_Stop (refreshPermsTimer a) |} c.

(** [math.MaxInt64] as a duration. *)
Definition maxDuration : Z := 2 ^ 63 - 1.

(** [NewUDPConn] at time [now], of the fields of its configuration. *)
Definition NewUDPConn (now : Z) (w : cworld) (relayed server : net_Addr) (key : bytes) (user rlm nce : string)
    (life : Z) : UDPConn :=
  {| world := w;
     alloc := {| relayedAddr := relayed; serverAddr := server; permMap := Perm.newPermissionMap;
                 integrity := key; username := user; realm := rlm; nonce := nce; lifetime := life;
                 refreshAllocTimer :=
                   fst (PeriodicTimer_Start (NewPeriodicTimer timerIDRefreshAlloc (Z.quot life 2)));
                 refreshPermsTimer :=
                   fst (PeriodicTimer_Start (NewPeriodicTimer timerIDRefreshPerms permRefreshInterval)) |};
     bindingMgr := Binding.newBindingManager; readCh := []; closeCh := false;
     readTimer := Some (now + maxDuration); readTick := false; bindTasks := [] |}.

(** [addr2PeerAddress]. *)
Definition addr2PeerAddress (a : net_Addr) : Setter :=
  match a with
  | UDPAddr ip port _ | TCPAddr ip port _ => SetPeerAddress ip port
  | _ => SetPeerAddress [] 0
  end.

(** The credentials every request ends with. *)
Definition credentials (a : allocation) : list Setter :=
  [SetUsername (username a); SetRealm (realm a); SetNonce (nonce a);
   SetMessageIntegrity (integrity a); SetFingerprint].

(** [setNonceFromMsg]. *)
Definition setNonceFromMsg (m : Message) (c : UDPConn) : UDPConn :=
  match resNonce_GetFrom m with Ok n => setNonce n c | Err _ => c end.

(** [refreshAllocation]; on an error response whose code is not Stale Nonce
    the code returns the nil error of [code.GetFrom]. *)
Definition refreshAllocation (life : Z) (dontWait : bool) (c : UDPConn) : UDPConn * option error :=
  match build ([SetNewTransactionID; SetType MethodRefresh ClassRequest; SetLifetime life]
               ++ credentials (alloc c)) with
  | Err e => (c, Some (errFailedToBuildRefreshRequest e))
  | Ok msg =>
      let '(w, r) := performTransaction (world c) msg (serverAddr (alloc c)) dontWait in
      let c1 := with_world w c in
      match r with
      | Err e => (c1, Some (errFailedToRefreshAllocation e))
      | Ok res =>
          if dontWait then (c1, None)
          else if decide (res_Class res = ClassErrorResponse) then
            match errorCode_GetFrom res with
            | Ok code =>
                if decide (code = CodeStaleNonce) then (setNonceFromMsg res c1, Some errTryAgain)
                else (c1, None)
            | Err _ => (c1, Some (errResponse ClassErrorResponse None))
            end
          else
            match Lifetime_GetFrom res with
            | Err e => (c1, Some (errFailedToGetLifetime e))
            | Ok d => (setLifetime d c1, None)
            end
      end
  end.

(** [CreatePermissions]. *)
Definition CreatePermissions (addrs : list net_Addr) (c : UDPConn) : UDPConn * option error :=
  match build ([SetNewTransactionID; SetType MethodCreatePermission ClassRequest]
               ++ (addr2PeerAddress <$> addrs) ++ credentials (alloc c)) with
  | Err e => (c, Some (ErrClient e))
  | Ok msg =>
      let '(w, r) := performTransaction (world c) msg (serverAddr (alloc c)) false in
      let c1 := with_world w c in
      match r with
      | Err e => (c1, Some (ErrClient e))
      | Ok res =>
          if decide (res_Class res = ClassErrorResponse) then
            match errorCode_GetFrom res with
            | Ok code =>
                if decide (code = CodeStaleNonce) then (setNonceFromMsg res c1, Some errTryAgain)
                else (c1, Some (errResponse ClassErrorResponse (Some code)))
            | Err _ => (c1, Some (errResponse ClassErrorResponse None))
            end
          else (c1, None)
      end
  end.

(** [createPermission] of the permission object [p]. *)
Definition createPermission (p : nat) (a : net_Addr) (c : UDPConn) : UDPConn * option error :=
  if decide (Perm.state p (permMap (alloc c)) = Perm.Idle) then
    let '(c1, err) := CreatePermissions [a] c in
    match err with
    | Some e => (with_perms (Perm.delete a (permMap (alloc c1))) c1, Some e)
    | None => (with_perms (Perm.setState p Perm.Permitted (permMap (alloc c1))) c1, None)
    end
  else (c, None).

(** [refreshPermissions]. *)
Definition refreshPermissions (c : UDPConn) : UDPConn * option error :=
  match Perm.addrs (permMap (alloc c)) with
  | [] => (c, None)
  | addrs => CreatePermissions addrs c
  end.

Definition is_tryAgain (e : option error) : bool :=
  match e with Some errTryAgain => true | _ => false end.

(** The loops [for i := 0; i < maxRetryAttempts; i++] that repeat an
    operation while it fails with [errTryAgain]. *)
Fixpoint retry (tries : nat) (op : UDPConn -> UDPConn * option error) (c : UDPConn)
    (last : option error) : UDPConn * option error :=
  match tries with
  | O => (c, last)
  | Datatypes.S tries' =>
      let '(c1, err) := op c in
      if is_tryAgain err then retry tries' op c1 err else (c1, err)
  end.

(** [onRefreshTimers]; the error is only logged. *)
Definition onRefreshTimers (id : Z) (c : UDPConn) : UDPConn :=
  if id =? timerIDRefreshAlloc
  then fst (retry maxRetryAttempts (refreshAllocation (lifetime (alloc c)) false) c None)
  else if id =? timerIDRefreshPerms
  then fst (retry maxRetryAttempts refreshPermissions c None)
  else c.

(** [sendChannelData]; [extra] is the spare capacity the runtime gives the
    encoder's slices. *)
Definition sendChannelData (extra : nat -> nat) (data : bytes) (n : Z) (c : UDPConn)
    : UDPConn * result error Z :=
  let cd := {| ChannelData.Data := data; ChannelData.Length := 0; ChannelData.Number := n;
               ChannelData.Raw := {| ChannelData.content := []; ChannelData.spare := [] |} |} in
  let raw := ChannelData.content (ChannelData.Raw (ChannelData.Encode extra cd)) in
  let '(w, r) := clientWriteTo (world c) raw (serverAddr (alloc c)) in
  (with_world w c, match r with Ok _ => Ok (blen data) | Err e => Err (ErrClient e) end).

(** [bind] of the binding object [i]. *)
Definition bind (i : nat) (c : UDPConn) : UDPConn * option error :=
  match Binding.objs (bindingMgr c) !! i with
  | None => (c, None)
  | Some b =>
      match build ([SetNewTransactionID; SetType MethodChannelBind ClassRequest;
                    addr2PeerAddress (Binding.addr b); SetChannelNumber (Binding.number b)]
                   ++ credentials (alloc c)) with
      | Err e => (c, Some (ErrClient e))
      | Ok msg =>
          let '(w, r) := performTransaction (world c) msg (serverAddr (alloc c)) false in
          let c1 := with_world w c in
          match r with
          | Err e =>
              (with_bindingMgr (fst (Binding.deleteByAddr (Binding.addr b) (bindingMgr c1))) c1,
               Some (ErrClient e))
          | Ok res =>
              if decide (res_Method res = MethodChannelBind /\ res_Class res = ClassSuccessResponse)
              then (c1, None)
              else (c1, Some (errUnexpectedResponseType (res_Method res) (res_Class res)))
          end
      end
  end.

Definition set_binding (i : nat) (s : Binding.bindingState) (c : UDPConn) : UDPConn :=
  with_bindingMgr (Binding.update i (Binding.setState s) (bindingMgr c)) c.

(** A goroutine of [WriteTo]: the first pending one runs at time [now]. *)
Definition runBindTask (now : Z) (c : UDPConn) : UDPConn :=
  match bindTasks c with
  | [] => c
  | (i, refresh) :: rest =>
      let '(c1, err) := bind i (with_tasks rest c) in
      match err with
      | Some _ => set_binding i Binding.Failed c1
      | None =>
          let c2 := if refresh : bool
                    then with_bindingMgr
                           (Binding.update i (Binding.setRefreshedAt now) (bindingMgr c1)) c1
                    else c1 in
          set_binding i Binding.Ready c2
      end
  end.

(** The part of [WriteTo] after the permission: by Send indication while the
    channel is not bound, by ChannelData on it otherwise. *)
Definition writeVia (extra : nat -> nat) (now : Z) (i : nat) (p : bytes) (a : net_Addr) (c : UDPConn)
    : UDPConn * result error Z :=
  match Binding.objs (bindingMgr c) !! i with
  | None => (c, Err errClosed)
  | Some b =>
      let s := Binding.st b in
      if decide (s = Binding.Idle \/ s = Binding.Request \/ s = Binding.Failed) then
        let c1 := if decide (s = Binding.Idle)
                  then with_tasks (bindTasks c ++ [(i, false)]) (set_binding i Binding.Request c)
                  else c in
        match build [SetNewTransactionID; SetType MethodSend ClassIndication; SetData p;
                     addr2PeerAddress a; SetFingerprint] with
        | Err e => (c1, Err (ErrClient e))
        | Ok msg =>
            let '(w, r) := clientWriteTo (world c1) (msg_Raw msg) (serverAddr (alloc c1)) in
            (with_world w c1, match r with Ok n => Ok n | Err e => Err (ErrClient e) end)
        end
      else
        let c1 :=
          if bool_decide (s = Binding.Ready) && (5 * minute <? now - Binding.refreshedAt b)
          then with_tasks (bindTasks c ++ [(i, true)]) (set_binding i Binding.Refreshing c)
          else c in
        let '(c2, r) := sendChannelData extra p (Binding.number b) c1 in
        (c2, match r with Ok _ => Ok (blen p) | Err e => Err e end)
  end.

(** [WriteTo]. *)
Definition WriteTo (extra : nat -> nat) (now : Z) (p : bytes) (a : net_Addr) (c : UDPConn)
    : UDPConn * result error Z :=
  match a with
  | UDPAddr _ _ _ =>
      let '(c1, perm) :=
        match Perm.find a (permMap (alloc c)) with
        | Some i => (c, i)
        | None => let '(m, i) := Perm.insert a (permMap (alloc c)) in (with_perms m c, i)
        end in
      let '(c2, err) := retry maxRetryAttempts (createPermission perm a) c1 None in
      match err with
      | Some e => (c2, Err e)
      | None =>
          let '(c3, i) :=
            match Binding.findByAddr a (bindingMgr c2) with
            | Some i => (c2, i)
            | None => let '(m, i) := Binding.create now a (bindingMgr c2) in
                      (with_bindingMgr m c2, i)
            end in
          writeVia extra now i p a c3
      end
  | _ => (c, Err errUDPAddrCast)
  end.

(** [HandleInbound]: a full channel drops the data. *)
Definition HandleInbound (data : bytes) (from : net_Addr) (c : UDPConn) : UDPConn :=
  if (length (readCh c) <? maxReadQueueSize)%nat then with_readCh (readCh c ++ [(data, from)]) c
  else c.

(** The state of the read timer. *)
Definition with_readTimer (due : option Z) (tick : bool) (c : UDPConn) : UDPConn :=
  {| world := world c; alloc := alloc c; bindingMgr := bindingMgr c; readCh := readCh c;
     closeCh := closeCh c; readTimer := due; readTick := tick; bindTasks := bindTasks c |}.

(** [SetReadDeadline] at time [now]; [None] is the zero time.  [Reset] re-arms
    the timer and leaves a tick that was not received in the channel. *)
Definition SetReadDeadline (now : Z) (t : option Z) (c : UDPConn) : UDPConn :=
  let d := match t with None => maxDuration | Some t => t - now end in
  with_readTimer (Some (now + d)) (readTick c) c.

(** The runtime at time [now]: a due timer puts a tick in its channel. *)
Definition fireReadTimer (now : Z) (c : UDPConn) : UDPConn :=
  match readTimer c with
  | Some due => if due <=? now then with_readTimer None true c else c
  | None => c
  end.

(** The cases of the [select] of [ReadFrom]. *)
Inductive read_case := CaseData | CaseTimer | CaseClosed.

(** [ReadFrom] into a slice of [plen] bytes, when the [select] picks the case
    [k]; [None] if that case is not ready.  It waits while none is, and picks
    any one that is. *)
Definition ReadFrom (k : read_case) (plen : nat) (c : UDPConn)
    : option (UDPConn * result error (bytes * net_Addr)) :=
  match k with
  | CaseData =>
      match readCh c with
      | [] => None
      | (data, from) :: rest =>
          let n := Nat.min plen (length data) in
          Some (with_readCh rest c,
                if (n <? length data)%nat then Err ErrShortBuffer else Ok (take n data, from))
      end
  | CaseTimer =>
      if readTick c then Some (with_readTimer (readTimer c) false c, Err errTimeout) else None
  | CaseClosed => if closeCh c then Some (c, Err errClosed) else None
  end.

(** [FindAddrByChannelNumber]. *)
Definition FindAddrByChannelNumber (n : Z) (c : UDPConn) : option net_Addr :=
  Binding.findByNumber n (bindingMgr c) ≫= fun i =>
  Binding.addr <$> Binding.objs (bindingMgr c) !! i.

(** [Close]. *)
Definition Close (c : UDPConn) : UDPConn * option error :=
  let c1 := stopTimers c in
  if closeCh c1 then (c1, Some errAlreadyClosed)
  else
    let c2 := {| world := onDeallocated (world c1) (relayedAddr (alloc c1)); alloc := alloc c1;
                 bindingMgr := bindingMgr c1; readCh := readCh c1; closeCh := true;
                 readTimer := readTimer c1; readTick := readTick c1; bindTasks := bindTasks c1 |} in
    refreshAllocation 0 true c2.

(** [Client.handleChannelData], for a client whose relayed connection is [c]. *)
Definition handleChannelData (data : bytes) (c : UDPConn) : UDPConn * bool :=
  match ChannelData.Decode (ChannelData.of_raw data) with
  | (_, Some _) => (c, false)
  | (cd, None) =>
      match FindAddrByChannelNumber (ChannelData.Number cd) c with
      | None => (c, false)
      | Some a => (HandleInbound (ChannelData.Data cd) a c, true)
      end
  end.

End UdpConn.
End UdpConn.

(** * The bindings' two maps *)

(** What the connection does with its binding manager: [WriteTo] creates a
    binding only for an address that has none. *)
Inductive bop := FindOrCreate (now : Z) (a : net_Addr) | DeleteByAddr (a : net_Addr)
  | DeleteByNumber (n : Z).

Definition run_bop (m : Binding.bindingManager) (op : bop) : Binding.bindingManager :=
  match op with
  | FindOrCreate now a =>
      match Binding.findByAddr a m with
      | Some _ => m
      | None => fst (Binding.create now a m)
      end
  | DeleteByAddr a => fst (Binding.deleteByAddr a m)
  | DeleteByNumber n => fst (Binding.deleteByNumber n m)
  end.

Record bm_inv (m : Binding.bindingManager) : Prop := {
  bm_next : Z.of_nat (length (Binding.objs m)) < 16384 ->
    Binding.next m = 0x4000 + Z.of_nat (length (Binding.objs m));
  bm_number : forall i b, Binding.objs m !! i = Some b -> Binding.number b = 0x4000 + Z.of_nat i;
  bm_chan : forall n i, Binding.chanMap m !! n = Some i ->
    exists b, Binding.objs m !! i = Some b /\ Binding.number b = n;
  bm_addr : forall s i, Binding.addrMap m !! s = Some i ->
    exists b, Binding.objs m !! i = Some b /\ addrString (Binding.addr b) = s;
  bm_inverse : forall i b, Binding.objs m !! i = Some b ->
    Binding.chanMap m !! Binding.number b = Some i <->
    Binding.addrMap m !! addrString (Binding.addr b) = Some i;
}.

Lemma bm_new : bm_inv Binding.newBindingManager.
Proof. split; simpl; try done; intros ? ? H; by rewrite ?lookup_nil, ?lookup_empty in H. Qed.

Lemma bm_create now a m :
  bm_inv m -> Binding.findByAddr a m = None -> Z.of_nat (length (Binding.objs m)) < 16384 ->
  bm_inv (fst (Binding.create now a m)).
Proof.
  intros [H1 H2 H3 H4 H5] Ha Hl. specialize (H1 Hl). unfold Binding.findByAddr in Ha.
  set (b0 := {| Binding.number := Binding.next m; Binding.st := Binding.Idle;
                Binding.addr := a; Binding.refreshedAt := now |}).
  assert (forall i b, (Binding.objs m ++ [b0]) !! i = Some b ->
    (Binding.objs m !! i = Some b /\ (i < length (Binding.objs m))%nat) \/
    (i = length (Binding.objs m) /\ b = b0)) as Hlk.
  { intros i b. rewrite lookup_app_Some. intros [H|[Hge H]].
    - left. split; [done|]. by eapply lookup_lt_Some.
    - right. apply list_lookup_singleton_Some in H as [? ->]. split; [lia|done]. }
  assert (Binding.objs m ++ [b0] = Binding.objs (fst (Binding.create now a m))) as Eo by done.
  split; simpl; fold b0.
  - rewrite length_app. simpl. intros Hlt. unfold Binding.maxChannelNumber in *.
    destruct (_ =? _) eqn:E; boolp; [lia|]. rewrite u16_small by lia. lia.
  - intros i b [[Hb _]|[-> ->]]%Hlk; [by apply H2|done].
  - intros n i. rewrite lookup_insert. case_decide as D.
    + intros [= <-]. exists b0. split; [|done]. apply lookup_app_Some. right. by rewrite Nat.sub_diag.
    + intros (b & Hb & Hn)%H3. exists b. split; [|done]. by apply lookup_app_l_Some.
  - intros s i. rewrite lookup_insert. case_decide as D.
    + intros [= <-]. exists b0. split; [|done]. apply lookup_app_Some. right. by rewrite Nat.sub_diag.
    + intros (b & Hb & Hn)%H4. exists b. split; [|done]. by apply lookup_app_l_Some.
  - intros i b [[Hb Hi]|[-> ->]]%Hlk; simpl.
    + rewrite lookup_insert_ne by (rewrite (H2 i b Hb); lia). rewrite (H5 i b Hb).
      rewrite lookup_insert. case_decide as D; [|done].
      rewrite <- D, Ha. split; [done|]. intros [= ?]. lia.
    + by rewrite !lookup_insert_eq.
Qed.

Lemma bm_unlink m i b :
  bm_inv m -> Binding.objs m !! i = Some b ->
  Binding.chanMap m !! Binding.number b = Some i -> 
  bm_inv {| Binding.objs := Binding.objs m;
            Binding.chanMap := delete (Binding.number b) (Binding.chanMap m);
            Binding.addrMap := delete (addrString (Binding.addr b)) (Binding.addrMap m);
            Binding.next := Binding.next m |}.
Proof.
  intros [H1 H2 H3 H4 H5] Hb Hc. pose proof (proj1 (H5 i b Hb) Hc) as Ha. split; simpl; try done.
  - intros n j [_ Hj]%lookup_delete_Some. by apply H3.
  - intros s j [_ Hj]%lookup_delete_Some. by apply H4.
  - intros j b' Hb'. rewrite !lookup_delete_Some, (H5 j b' Hb').
    split; intros [Hne Hj]; (split; [|done]); intros Heq.
    + rewrite <- Heq, Ha in Hj. by simplify_eq.
    + apply Hne. destruct (decide (i = j)) as [->|Hij]; [by simplify_eq|].
      rewrite (H2 i b Hb), (H2 j b' Hb') in Heq. lia.
Qed.

Lemma bm_step m op :
  bm_inv m -> Z.of_nat (length (Binding.objs (run_bop m op))) <= 16384 -> bm_inv (run_bop m op).
Proof.
  intros Hm. destruct op as [now a|a|n]; simpl.
  - destruct (Binding.findByAddr a m) eqn:E; [done|]. simpl. rewrite length_app. simpl. intros Hl.
    apply bm_create; (done || lia).
  - intros _. unfold Binding.deleteByAddr.
    destruct (Binding.addrMap m !! addrString a) as [i|] eqn:Ea; simpl; [|done].
    destruct (bm_addr m Hm _ _ Ea) as (b & Hb & Hs). rewrite Hb. simpl. rewrite <- Hs in Ea |- *.
    eapply bm_unlink; [done..|]. by apply (bm_inverse m Hm i b Hb).
  - intros _. unfold Binding.deleteByNumber.
    destruct (Binding.chanMap m !! n) as [i|] eqn:Ec; simpl; [|done].
    destruct (bm_chan m Hm _ _ Ec) as (b & Hb & <-). rewrite Hb. simpl. by eapply bm_unlink.
Qed.

Lemma objs_grow m op : (length (Binding.objs m) <= length (Binding.objs (run_bop m op)))%nat.
Proof.
  destruct op as [now a|a|n]; simpl.
  - destruct (Binding.findByAddr a m); [done|]. simpl. rewrite length_app. lia.
  - unfold Binding.deleteByAddr. by destruct (_ ≫= _).
  - unfold Binding.deleteByNumber. by destruct (_ ≫= _).
Qed.

Lemma objs_grow_run ops m :
  (length (Binding.objs m) <= length (Binding.objs (foldl run_bop m ops)))%nat.
Proof.
  revert m. induction ops as [|op ops IH]; intros m; simpl; [done|].
  etrans; [apply objs_grow|apply IH].
Qed.

Lemma bm_run ops m :
  bm_inv m -> Z.of_nat (length (Binding.objs (foldl run_bop m ops))) <= 16384 ->
  bm_inv (foldl run_bop m ops).
Proof.
  revert m. induction ops as [|op ops IH]; intros m Hm Hl; simpl in *; [done|].
  apply IH; [|done]. apply bm_step; [done|].
  pose proof (objs_grow_run ops (run_bop m op)). lia.
Qed.

(** * Theorems *)

(** A connection's address map and channel map are inverses of each
    other: as long as no more than 16,384 bindings have been created, the
    binding found for an address is found again under its channel number, the
    binding found under a number is found again under its address, and every
    number is a valid channel number, whatever was created and deleted in
    between. *)
Theorem bindings_inverse (ops : list bop) :
  let m := foldl run_bop Binding.newBindingManager ops in
  Z.of_nat (length (Binding.objs m)) <= 16384 ->
  (forall a i, Binding.findByAddr a m = Some i ->
     exists b, Binding.objs m !! i = Some b /\ addrString (Binding.addr b) = addrString a /\
       ChannelNumber.isChannelNumberValid (Binding.number b) = true /\
       Binding.findByNumber (Binding.number b) m = Some i) /\
  (forall n i, Binding.findByNumber n m = Some i ->
     exists b, Binding.objs m !! i = Some b /\ Binding.number b = n /\
       ChannelNumber.isChannelNumberValid n = true /\
       Binding.findByAddr (Binding.addr b) m = Some i).
Proof.
  intros m Hl. pose proof (bm_run ops _ bm_new Hl) as Hm. fold m in Hm.
  assert (forall i b, Binding.objs m !! i = Some b ->
    ChannelNumber.isChannelNumberValid (Binding.number b) = true) as Hv.
  { intros i b Hb. rewrite (bm_number m Hm i b Hb). apply lookup_lt_Some in Hb.
    unfold ChannelNumber.isChannelNumberValid, ChannelNumber.MinChannelNumber,
      ChannelNumber.MaxChannelNumber. apply andb_true_iff. rewrite !Z.leb_le. lia. }
  split.
  - intros a i Ha. destruct (bm_addr m Hm _ _ Ha) as (b & Hb & Hs). exists b.
    split_and!; [done|done|by eapply Hv|]. apply (bm_inverse m Hm i b Hb). by rewrite Hs.
  - intros n i Hn. destruct (bm_chan m Hm _ _ Hn) as (b & Hb & <-). exists b.
    split_and!; [done|done|by eapply Hv|]. by apply (bm_inverse m Hm i b Hb).
Qed.

Definition demo_peer (port : Z) : net_Addr := UDPAddr [10;0;0;1] port "".
Definition demo_ops : list bop :=
  [FindOrCreate 0 (demo_peer 1); FindOrCreate 0 (demo_peer 2); DeleteByAddr (demo_peer 1);
   FindOrCreate 0 (demo_peer 1)].

Lemma bindings_inverse_witness :
  let m := foldl run_bop Binding.newBindingManager demo_ops in
  Binding.findByAddr (demo_peer 1) m = Some 2%nat /\
  exists b, Binding.objs m !! 2%nat = Some b /\
    addrString (Binding.addr b) = addrString (demo_peer 1) /\
    ChannelNumber.isChannelNumberValid (Binding.number b) = true /\
    Binding.findByNumber (Binding.number b) m = Some 2%nat.
Proof.
  assert (Hl : Z.of_nat (length (Binding.objs (foldl run_bop Binding.newBindingManager demo_ops)))
    <= 16384) by (vm_compute; congruence).
  split; [vm_compute; reflexivity|].
  apply (proj1 (bindings_inverse demo_ops Hl) (demo_peer 1) 2%nat). vm_compute. reflexivity.
Defined.

Section ClientTheorems.
Context {S : StunMessage} {CE : ClientEnv S}.
Import UdpConn.

Lemma setNonceFromMsg_perms m c : permMap (alloc (setNonceFromMsg m c)) = permMap (alloc c).
Proof. unfold setNonceFromMsg. by destruct (resNonce_GetFrom m). Qed.

Lemma CreatePermissions_perms addrs c c' e :
  CreatePermissions addrs c = (c', e) -> permMap (alloc c') = permMap (alloc c).
Proof.
  unfold CreatePermissions. destruct (build _); [|intros; by simplify_eq].
  destruct (performTransaction _ _ _ _) as [w [res|err]]; [|intros; by simplify_eq].
  case_decide; [|intros; by simplify_eq].
  destruct (errorCode_GetFrom res); [|intros; by simplify_eq].
  case_decide; intros; simplify_eq; [by rewrite setNonceFromMsg_perms|done].
Qed.

(** A permission obtained on a retry is not recorded: when the first
    CreatePermission of a [WriteTo] is answered with Stale Nonce and the
    second one succeeds, the retry loop reports success and the permission
    object is marked as permitted, but the connection's permission map has no
    entry for the address any more, so the periodic refresh will not renew
    it. *)
Theorem retried_permission_is_lost (p : nat) (a : net_Addr) (c c1 c2 : UDPConn) :
  Perm.find a (permMap (alloc c)) = Some p ->
  (p < length (Perm.objs (permMap (alloc c))))%nat ->
  Perm.state p (permMap (alloc c)) = Perm.Idle ->
  CreatePermissions [a] c = (c1, Some errTryAgain) ->
  CreatePermissions [a] (with_perms (Perm.delete a (permMap (alloc c1))) c1) = (c2, None) ->
  exists c', retry maxRetryAttempts (createPermission p a) c None = (c', None) /\
    Perm.state p (permMap (alloc c')) = Perm.Permitted /\
    Perm.find a (permMap (alloc c')) = None.
Proof.
  intros Hf Hp Hs H1 H2.
  pose proof (CreatePermissions_perms _ _ _ _ H1) as E1.
  pose proof (CreatePermissions_perms _ _ _ _ H2) as E2.
  assert (createPermission p a c =
    (with_perms (Perm.delete a (permMap (alloc c1))) c1, Some errTryAgain)) as C1.
  { unfold createPermission. by rewrite decide_True, H1. }
  assert (createPermission p a (with_perms (Perm.delete a (permMap (alloc c1))) c1) =
    (with_perms (Perm.setState p Perm.Permitted (permMap (alloc c2))) c2, None)) as C2.
  { unfold createPermission. rewrite decide_True, H2; [done|]. simpl. by rewrite E1. }
  eexists. unfold maxRetryAttempts. simpl. rewrite C1. simpl. rewrite C2. simpl. split; [done|].
  simpl in E2. rewrite E2, E1. unfold Perm.state, Perm.find. simpl. split; [|apply lookup_delete_eq].
  destruct (lookup_lt_is_Some_2 _ _ Hp) as [x Hx].
  by rewrite list_lookup_alter_eq, Hx.
Qed.

Import Transactions.

(** The retransmission schedule: a request whose transmissions all
    succeed and that nobody answers is sent at the start and at each of the
    first six timeouts, seven times in all, with intervals that double from
    the initial one up to 1.6 seconds; at the seventh timeout nothing is sent,
    the transaction is removed and its waiter is told that all
    retransmissions failed. *)
Theorem retransmission_schedule (key : string) (raw : bytes) (to : net_Addr) (rto : Z) (e : engine) :
  0 < rto <= maxRtxInterval ->
  (forall k, (k < 7)%nat -> snd (connWriteTo (sends k raw to (socket e)) raw to) = None) ->
  exists e1, startTransaction key raw to rto false e = (e1, None) /\
    (forall k, (k < 7)%nat ->
       let ek := Nat.iter k (fire key) e1 in
       clock ek = rtxTime (clock e) rto k /\
       socket ek = sends (Datatypes.S k) raw to (socket e) /\
       results ek = results e /\ is_Some (Find key ek)) /\
    let e8 := Nat.iter 7 (fire key) e1 in
    clock e8 = rtxTime (clock e) rto 7 /\ socket e8 = sends 7 raw to (socket e) /\
    Find key e8 = None /\
    results e8 = results e ++ [(key, inr errAllRetransmissionsFailed)].
Proof.
  intros Hr Hw.
  assert (exists e1, startTransaction key raw to rto false e = (e1, None) /\
    outstanding (clock e) rto key raw to (socket e) (results e) 0 e1) as (e1 & E1 & O1).
  { unfold startTransaction, send. simpl. pose proof (Hw 0%nat ltac:(lia)) as H0. simpl in H0.
    destruct (connWriteTo (socket e) raw to) as [w1 err] eqn:Ew. simpl in H0. subst err.
    eexists. split; [done|]. split; simpl; [done|by rewrite Ew|done|]. by rewrite lookup_insert_eq. }
  assert (forall k, (k < 7)%nat -> outstanding (clock e) rto key raw to (socket e) (results e) k
    (Nat.iter k (fire key) e1)) as Hout.
  { induction k as [|k IH]; intros Hk; [done|].
    change (Nat.iter (Datatypes.S k) (fire key) e1) with (fire key (Nat.iter k (fire key) e1)).
    apply fire_outstanding; [done|by apply Hw|lia|apply IH; lia]. }
  exists e1. split; [done|]. split.
  - intros k Hk. destruct (Hout k Hk) as [Hc Hs Hrs Htr]. by split_and!.
  - change (Nat.iter 7 (fire key) e1) with (fire key (Nat.iter 6 (fire key) e1)).
    apply fire_gives_up; [lia|]. apply Hout. lia.
Qed.

End ClientTheorems.

(** * A concrete client *)

Module TestClient.

Record tmsg := { tClass : MessageClass; tMethod : Method; tCode : option ErrorCode;
                 tNonce : string; tSetters : list Setter }.

#[export] Instance msgs : StunMessage := {|
  Message := tmsg; StunError := unit;
  msg_Get _ _ := Err tt; msg_Add m _ _ := m;
  CheckSize _ got expected := if got =? expected then None else Some tt |}.

(** The server's answers to come, and what was sent. *)
Record net := { answers : list (@Message msgs); sent : list (bytes * net_Addr) }.

Definition request (l : list Setter) : @Message msgs :=
  {| tClass := ClassRequest; tMethod := MethodBinding; tCode := None; tNonce := ""; tSetters := l |}.
Definition success (m : Method) : @Message msgs :=
  {| tClass := ClassSuccessResponse; tMethod := m; tCode := None; tNonce := ""; tSetters := [] |}.
Definition stale (n : string) : @Message msgs :=
  {| tClass := ClassErrorResponse; tMethod := MethodCreatePermission; tCode := Some CodeStaleNonce;
     tNonce := n; tSetters := [] |}.

Definition answer (w : net) : net * result unit (@Message msgs) :=
  match answers w with
  | [] => (w, Err tt)
  | m :: rest => ({| answers := rest; sent := sent w |}, Ok m)
  end.

#[export] Instance env : ClientEnv msgs := {|
  cworld := net; ClientError := unit;
  connWriteTo w b to := ({| answers := answers w; sent := sent w ++ [(b, to)] |}, None);
  build l := Ok (request l);
  msg_Raw m := [Z.of_nat (length (tSetters m))];
  performTransaction w _ _ _ := answer w;
  clientWriteTo w b to := ({| answers := answers w; sent := sent w ++ [(b, to)] |}, Ok (blen b));
  onDeallocated w _ := w;
  res_Class := tClass; res_Method := tMethod;
  errorCode_GetFrom m := match tCode m with Some c => Ok c | None => Err tt end;
  resNonce_GetFrom m := Ok (tNonce m) |}.

Definition server : net_Addr := UDPAddr [192;168;1;1] 3478 "".
Definition relayed : net_Addr := UDPAddr [10;0;0;1] 49152 "".

(** A connection with an idle permission for a peer, whose server will answer
    Stale Nonce and then success. *)
Definition conn0 : UdpConn.UDPConn :=
  let c := UdpConn.NewUDPConn 0 {| answers := [stale "n2"; success MethodCreatePermission]; sent := [] |}
             relayed server [1] "user" "realm" "n1" (10 * minute) in
  UdpConn.with_perms (fst (Perm.insert (demo_peer 1) Perm.newPermissionMap)) c.

Definition engine0 : Transactions.engine :=
  {| Transactions.clock := 0; Transactions.socket := {| answers := []; sent := [] |} : @cworld msgs env;
     Transactions.trMap := ∅; Transactions.results := [] |}.

End TestClient.

Import TestClient.

Lemma retried_permission_is_lost_witness :
  exists c', UdpConn.retry UdpConn.maxRetryAttempts (UdpConn.createPermission 0 (demo_peer 1))
      conn0 None = (c', None) /\
    Perm.state 0 (UdpConn.permMap (UdpConn.alloc c')) = Perm.Permitted /\
    Perm.find (demo_peer 1) (UdpConn.permMap (UdpConn.alloc c')) = None.
Proof.
  eapply (retried_permission_is_lost 0 (demo_peer 1) conn0); try (vm_compute; reflexivity).
Defined.

Lemma retransmission_schedule_witness :
  (Transactions.rtxTime 0 Transactions.defaultRTO <$> seq 0 8) =
    ((fun t => t * millisecond) <$> [0; 200; 600; 1400; 3000; 4600; 6200; 7800]) /\
  exists e1, Transactions.startTransaction "k" [1] server Transactions.defaultRTO false engine0 =
      (e1, None) /\
    let e8 := Nat.iter 7 (Transactions.fire "k") e1 in
    Transactions.clock e8 = 7800 * millisecond /\ Transactions.Find "k" e8 = None /\
    Transactions.results e8 = [("k"%string, inr Transactions.errAllRetransmissionsFailed)].
Proof.
  split; [vm_compute; reflexivity|].
  destruct (retransmission_schedule "k" [1] server Transactions.defaultRTO engine0)
    as (e1 & H1 & _ & H2 & _ & H3 & H4).
  - vm_compute. split; congruence.
  - intros k Hk. do 7 (destruct k as [|k]; [reflexivity|]). lia.
  - exists e1. split; [exact H1|]. split; [exact H2|]. split; [exact H3|exact H4].
Defined.
