(* ===== verification/IceCandidate.v ===== *)
(** ICE candidates: lib/pion-ice/candidate_base.go, candidate_host.go,
    candidate_server_reflexive.go, candidate_peer_reflexive.go,
    candidate_relay.go, candidatetype.go, tcptype.go, networktype.go,
    candidaterelatedaddress.go and addr.go.

    The four Go types that embed [candidateBase] are one record, whose
    [candidateType] tells them apart.  The theorems: priorities do not
    overflow and order the candidate types as RFC 8445 wants them, and a
    candidate survives [Marshal] and [UnmarshalCandidate]. *)

From S2P Require Import Prelude GoNet GoText.

#[local] Open Scope string_scope.
#[local] Open Scope list_scope.
#[local] Open Scope Z_scope.

(** The errors of package ice that the modelled code returns. *)
Inductive ice_error :=
| ErrAddressParseFailed | ErrDetermineNetworkType | errAttributeTooShortICECandidate
| errParseComponent | errParsePriority | errParsePort | errParseRelatedAddr
| errParseTCPType | ErrUnknownCandidateTyp
| ErrClosed | ErrMultipleStart | ErrRemoteUfragEmpty | ErrRemotePwdEmpty
| ErrLocalUfragInsufficientBits | ErrLocalPwdInsufficientBits
| errWriteSTUNMessageToIceConn | io_ErrClosedPipe | ErrRandom.

#[export] Instance ice_error_eq_dec : EqDecision ice_error.
Proof. solve_decision. Defined.

(** * networktype.go *)

Inductive NetworkType := NetworkTypeUDP4 | NetworkTypeUDP6 | NetworkTypeTCP4 | NetworkTypeTCP6.

#[export] Instance NetworkType_eq_dec : EqDecision NetworkType.
Proof. solve_decision. Defined.

(** The number Go gives to the constant. *)
Definition NetworkType_num (t : NetworkType) : nat :=
  match t with
  | NetworkTypeUDP4 => 1 | NetworkTypeUDP6 => 2 | NetworkTypeTCP4 => 3 | NetworkTypeTCP6 => 4
  end.

#[export] Instance NetworkType_countable : Countable NetworkType.
Proof.
  apply (inj_countable' NetworkType_num (fun n =>
    match n with 1 => NetworkTypeUDP4 | 2 => NetworkTypeUDP6 | 3 => NetworkTypeTCP4
    | _ => NetworkTypeTCP6 end%nat)).
  by intros [].
Defined.

Definition NetworkType_String (t : NetworkType) : string :=
  match t with
  | NetworkTypeUDP4 => "udp4" | NetworkTypeUDP6 => "udp6"
  | NetworkTypeTCP4 => "tcp4" | NetworkTypeTCP6 => "tcp6"
  end.

Definition IsTCP (t : NetworkType) : bool :=
  match t with NetworkTypeTCP4 | NetworkTypeTCP6 => true | _ => false end.

Definition NetworkShort (t : NetworkType) : string :=
  match t with
  | NetworkTypeUDP4 | NetworkTypeUDP6 => "udp"
  | NetworkTypeTCP4 | NetworkTypeTCP6 => "tcp"
  end.

Definition determineNetworkType (network : string) (ip : list Z) : result ice_error NetworkType :=
  let ipv4 := bool_decide (is_Some (NetIP.To4 ip)) in
  if HasPrefix (ToLower network) "udp" then
    Ok (if ipv4 then NetworkTypeUDP4 else NetworkTypeUDP6)
  else if HasPrefix (ToLower network) "tcp" then
    Ok (if ipv4 then NetworkTypeTCP4 else NetworkTypeTCP6)
  else Err ErrDetermineNetworkType.

(** * tcptype.go *)

Inductive TCPType := TCPTypeUnspecified | TCPTypeActive | TCPTypePassive | TCPTypeSimultaneousOpen.

#[export] Instance TCPType_eq_dec : EqDecision TCPType.
Proof. solve_decision. Defined.

Definition NewTCPType (value : string) : TCPType :=
  let v := ToLower value in
  if String.eqb v "active" then TCPTypeActive
  else if String.eqb v "passive" then TCPTypePassive
  else if String.eqb v "so" then TCPTypeSimultaneousOpen
  else TCPTypeUnspecified.

Definition TCPType_String (t : TCPType) : string :=
  match t with
  | TCPTypeUnspecified => ""
  | TCPTypeActive => "active"
  | TCPTypePassive => "passive"
  | TCPTypeSimultaneousOpen => "so"
  end.

(** * candidatetype.go *)

Inductive CandidateType :=
| CandidateTypeUnspecified | CandidateTypeHost | CandidateTypeServerReflexive
| CandidateTypePeerReflexive | CandidateTypeRelay.

#[export] Instance CandidateType_eq_dec : EqDecision CandidateType.
Proof. solve_decision. Defined.

Definition CandidateType_String (c : CandidateType) : string :=
  match c with
  | CandidateTypeHost => "host"
  | CandidateTypeServerReflexive => "srflx"
  | CandidateTypePeerReflexive => "prflx"
  | CandidateTypeRelay => "relay"
  | CandidateTypeUnspecified => "Unknown candidate type"
  end.

Definition Preference (c : CandidateType) : Z :=
  match c with
  | CandidateTypeHost => 126
  | CandidateTypePeerReflexive => 110
  | CandidateTypeServerReflexive => 100
  | CandidateTypeRelay | CandidateTypeUnspecified => 0
  end.

(** * candidaterelatedaddress.go *)

Record CandidateRelatedAddress := { relAddress : string; relPort : Z }.

#[export] Instance CandidateRelatedAddress_eq_dec : EqDecision CandidateRelatedAddress.
Proof. solve_decision. Defined.

Definition RelatedAddress_Equal (c other : option CandidateRelatedAddress) : bool :=
  match c, other with
  | None, None => true
  | Some c, Some other =>
      String.eqb (relAddress c) (relAddress other) && (relPort c =? relPort other)
  | _, _ => false
  end.

(** * addr.go *)

(** [parseAddr]: the network type it reports does not look at the address
    family. *)
Definition parseAddr (a : net_Addr) : option (list Z * Z * NetworkType) :=
  match a with
  | UDPAddr ip port _ => Some (ip, port, NetworkTypeUDP4)
  | TCPAddr ip port _ => Some (ip, port, NetworkTypeTCP4)
  | OtherAddr _ => None
  end.

Definition createAddr (network : NetworkType) (ip : list Z) (port : Z) : net_Addr :=
  if IsTCP network then TCPAddr ip port "" else UDPAddr ip port "".

Definition addrEqual (a b : net_Addr) : bool :=
  match parseAddr a with
  | None => false
  | Some (aIP, aPort, aType) =>
      match parseAddr b with
      | None => false
      | Some (bIP, bPort, bType) =>
          bool_decide (aType = bType) && NetIP.Equal aIP bIP && (aPort =? bPort)
      end
  end.

(** [toAddrPort]: sixteen bytes of address and two of port; [IP.To16] of
    anything but four or sixteen bytes is nil, which copies nothing. *)
Definition to16 (ip : list Z) : list Z :=
  if decide (length ip = 4%nat) then NetIP.v4InV6Prefix ++ ip
  else if decide (length ip = 16%nat) then ip else replicate 16 0.

Definition toAddrPort (addr : net_Addr) : list Z :=
  match addr with
  | UDPAddr ip port _ | TCPAddr ip port _ => to16 ip ++ [u8 (Z.shiftr port 8); u8 port]
  | OtherAddr _ => replicate 18 0
  end.

(** * Candidates *)

Definition defaultLocalPreference : Z := 65535.
Definition ComponentRTP : Z := 1.
Definition defaultTCPPriorityOffset : Z := 27.

(** [candidateBase] and the fields of the types that embed it.  [started] is
    [conn != nil]: [start] sets the connection, the agent and the two
    channels at once; [closing] says that [closeCh] is closed.  A
    [time.Time] that was never set is [None]. *)
Record Candidate := {
  id : string;
  networkType : NetworkType;
  candidateType : CandidateType;
  component : Z;
  address : string;
  port : Z;
  relatedAddress : option CandidateRelatedAddress;
  tcpType : TCPType;
  resolvedAddr : option net_Addr;
  lastSent : option Z;
  lastReceived : option Z;
  started : bool;
  closing : bool;
  foundationOverride : string;
  priorityOverride : Z;
  remoteCandidateCaches : gmap (list Z) nat;
  network : string;
  relayProtocol : string;
  onClose : bool;
}.

Definition Foundation (c : Candidate) : string :=
  if negb (String.eqb (foundationOverride c) "") then foundationOverride c
  else NetIP.dec (ChecksumIEEE (CandidateType_String (candidateType c) +:+ address c
                                  +:+ NetworkType_String (networkType c))).

Definition directionPref (c : Candidate) : Z :=
  match candidateType c with
  | CandidateTypeHost | CandidateTypeRelay =>
      match tcpType c with
      | TCPTypeActive => 6 | TCPTypePassive => 4 | TCPTypeSimultaneousOpen => 2
      | TCPTypeUnspecified => 0
      end
  | CandidateTypePeerReflexive | CandidateTypeServerReflexive =>
      match tcpType c with
      | TCPTypeSimultaneousOpen => 6 | TCPTypeActive => 4 | TCPTypePassive => 2
      | TCPTypeUnspecified => 0
      end
  | CandidateTypeUnspecified => 0
  end.

Definition LocalPreference (c : Candidate) : Z :=
  if IsTCP (networkType c) then u16 (u16 (Z.shiftl 1 13 * directionPref c) + 8191)
  else defaultLocalPreference.

(** [agentOffset] is [tcpPriorityOffset] of the agent that started the
    candidate. *)
Definition TypePreference (agentOffset : Z) (c : Candidate) : Z :=
  let pref := Preference (candidateType c) in
  if pref =? 0 then 0
  else if IsTCP (networkType c) then
    u16 (pref - (if started c then agentOffset else defaultTCPPriorityOffset))
  else pref.

Definition Priority (agentOffset : Z) (c : Candidate) : Z :=
  if negb (priorityOverride c =? 0) then priorityOverride c
  else u32 (u32 (u32 (Z.shiftl 1 24 * TypePreference agentOffset c)
                 + u32 (Z.shiftl 1 8 * LocalPreference c))
            + u16 (256 - component c)).

Definition Candidate_Equal (c other : Candidate) : bool :=
  bool_decide (networkType c = networkType other) &&
  bool_decide (candidateType c = candidateType other) &&
  String.eqb (address c) (address other) &&
  (port c =? port other) &&
  bool_decide (tcpType c = tcpType other) &&
  RelatedAddress_Equal (relatedAddress c) (relatedAddress other).

(** ** Constructors *)

Record CandidateHostConfig := {
  hNetwork : string; hAddress : string; hPort : Z; hComponent : Z; hPriority : Z;
  hFoundation : string; hTCPType : TCPType;
}.

(** [CandidateServerReflexiveConfig] and [CandidatePeerReflexiveConfig] have
    the same fields, [CandidateRelayConfig] two more. *)
Record CandidateReflexiveConfig := {
  rNetwork : string; rAddress : string; rPort : Z; rComponent : Z; rPriority : Z;
  rFoundation : string; rRelAddr : string; rRelPort : Z;
}.

Section Constructors.

(** [globalCandidateIDGenerator.Generate()]. *)
Variable newID : string.

Definition setIP (ip : list Z) (c : Candidate) : result ice_error Candidate :=
  match determineNetworkType (network c) ip with
  | Err e => Err e
  | Ok nt =>
      Ok {| id := id c; networkType := nt; candidateType := candidateType c;
            component := component c; address := address c; port := port c;
            relatedAddress := relatedAddress c; tcpType := tcpType c;
            resolvedAddr := Some (createAddr nt ip (port c));
            lastSent := lastSent c; lastReceived := lastReceived c; started := started c;
            closing := closing c; foundationOverride := foundationOverride c;
            priorityOverride := priorityOverride c;
            remoteCandidateCaches := remoteCandidateCaches c; network := network c;
            relayProtocol := relayProtocol c; onClose := onClose c |}
  end.

(** The type of a name that mDNS has not resolved yet is taken to be UDPv4. *)
Definition NewCandidateHost (config : CandidateHostConfig) : result ice_error Candidate :=
  let c := {| id := newID; networkType := NetworkTypeUDP4; candidateType := CandidateTypeHost;
              component := hComponent config; address := hAddress config; port := hPort config;
              relatedAddress := None; tcpType := hTCPType config; resolvedAddr := None;
              lastSent := None; lastReceived := None; started := false; closing := false;
              foundationOverride := hFoundation config; priorityOverride := hPriority config;
              remoteCandidateCaches := ∅; network := hNetwork config; relayProtocol := "";
              onClose := false |} in
  if negb (HasSuffix (hAddress config) ".local") then
    match ParseIP (hAddress config) with
    | None => Err ErrAddressParseFailed
    | Some ip => setIP ip c
    end
  else Ok c.

(** The common part of the three other constructors: their type, whether the
    resolved address follows the network type, and what is left to a relay. *)
Definition newCandidate (typ : CandidateType) (byNetwork : bool) (relayProto : string) (close : bool)
  (config : CandidateReflexiveConfig) : result ice_error Candidate :=
  match ParseIP (rAddress config) with
  | None => Err ErrAddressParseFailed
  | Some ip =>
      match determineNetworkType (rNetwork config) ip with
      | Err e => Err e
      | Ok nt =>
          Ok {| id := newID; networkType := nt; candidateType := typ;
                component := rComponent config; address := rAddress config; port := rPort config;
                relatedAddress := Some {| relAddress := rRelAddr config; relPort := rRelPort config |};
                tcpType := TCPTypeUnspecified;
                resolvedAddr := Some (if byNetwork then createAddr nt ip (rPort config)
                                      else UDPAddr ip (rPort config) "");
                lastSent := None; lastReceived := None; started := false; closing := false;
                foundationOverride := rFoundation config; priorityOverride := rPriority config;
                remoteCandidateCaches := ∅; network := ""; relayProtocol := relayProto;
                onClose := close |}
      end
  end.

Definition NewCandidateServerReflexive := newCandidate CandidateTypeServerReflexive false "" false.
Definition NewCandidatePeerReflexive := newCandidate CandidateTypePeerReflexive true "" false.
Definition NewCandidateRelay (relayProto : string) (close : bool) :=
  newCandidate CandidateTypeRelay false relayProto close.

(** ** Text *)

Definition removeZoneIDFromAddress (addr : string) : string := before_char "%" addr.

Definition Marshal (agentOffset : Z) (c : Candidate) : string :=
  let val := Foundation c in
  let val := if String.eqb val " " then "" else val in
  let val := NetIP.join " " [val; itoa (component c); NetworkShort (networkType c);
               itoa (Priority agentOffset c); removeZoneIDFromAddress (address c); itoa (port c);
               "typ"; CandidateType_String (candidateType c)] in
  let val := if decide (tcpType c <> TCPTypeUnspecified)
             then val +:+ " tcptype " +:+ TCPType_String (tcpType c) else val in
  match relatedAddress c with
  | Some r =>
      if negb (String.eqb (relAddress r) "") && negb (relPort r =? 0)
      then val +:+ " raddr " +:+ relAddress r +:+ " rport " +:+ itoa (relPort r)
      else val
  | None => val
  end.

(** What follows the eight mandatory fields: only the first extension is
    looked at. *)
Definition parseExtension (ext : list string) : result ice_error (string * Z * TCPType) :=
  match ext with
  | [] => Ok ("", 0, TCPTypeUnspecified)
  | key :: _ =>
      if String.eqb key "raddr" then
        match ext with
        | _ :: relAddr :: _ :: rawRelatedPort :: _ =>
            match ParseUint rawRelatedPort 16 with
            | None => Err errParsePort
            | Some p => Ok (relAddr, p, TCPTypeUnspecified)
            end
        | _ => Err errParseRelatedAddr
        end
      else if String.eqb key "tcptype" then
        match ext with
        | _ :: t :: _ => Ok ("", 0, NewTCPType t)
        | _ => Err errParseTCPType
        end
      else Ok ("", 0, TCPTypeUnspecified)
  end.

Definition UnmarshalCandidate (raw : string) : result ice_error Candidate :=
  let split := Fields raw in
  let split := if HasPrefix raw " " then " " :: split else split in
  match split with
  | foundation :: rawComponent :: protocol :: priorityRaw :: rawAddress :: rawPort :: _ :: typ :: ext =>
      match ParseUint rawComponent 16 with
      | None => Err errParseComponent
      | Some component =>
      match ParseUint priorityRaw 32 with
      | None => Err errParsePriority
      | Some priority =>
      let address := removeZoneIDFromAddress rawAddress in
      match ParseUint rawPort 16 with
      | None => Err errParsePort
      | Some port =>
      match parseExtension ext with
      | Err e => Err e
      | Ok (relatedAddress, relatedPort, tcpType) =>
      let reflexive := {| rNetwork := protocol; rAddress := address; rPort := port;
                          rComponent := component; rPriority := priority; rFoundation := foundation;
                          rRelAddr := relatedAddress; rRelPort := relatedPort |} in
      if String.eqb typ "host" then
        NewCandidateHost {| hNetwork := protocol; hAddress := address; hPort := port;
                            hComponent := component; hPriority := priority;
                            hFoundation := foundation; hTCPType := tcpType |}
      else if String.eqb typ "srflx" then NewCandidateServerReflexive reflexive
      else if String.eqb typ "prflx" then NewCandidatePeerReflexive reflexive
      else if String.eqb typ "relay" then NewCandidateRelay "" false reflexive
      else Err ErrUnknownCandidateTyp
      end end end end
  | _ => Err errAttributeTooShortICECandidate
  end.

(** [candidateBase.copy], and the relay protocol that [CandidateRelay.copy]
    keeps. *)
Definition copy (agentOffset : Z) (c : Candidate) : result ice_error Candidate :=
  match UnmarshalCandidate (Marshal agentOffset c) with
  | Err e => Err e
  | Ok cc =>
      Ok (if decide (candidateType c = CandidateTypeRelay /\ candidateType cc = CandidateTypeRelay) then
            {| id := id cc; networkType := networkType cc; candidateType := candidateType cc;
               component := component cc; address := address cc; port := port cc;
               relatedAddress := relatedAddress cc; tcpType := tcpType cc;
               resolvedAddr := resolvedAddr cc; lastSent := lastSent cc;
               lastReceived := lastReceived cc; started := started cc; closing := closing cc;
               foundationOverride := foundationOverride cc; priorityOverride := priorityOverride cc;
               remoteCandidateCaches := remoteCandidateCaches cc; network := network cc;
               relayProtocol := relayProtocol c; onClose := onClose cc |}
          else cc)
  end.

End Constructors.

(** * Priorities *)

Lemma directionPref_range c : 0 <= directionPref c <= 6.
Proof. unfold directionPref. destruct (candidateType c), (tcpType c); lia. Qed.

Lemma LocalPreference_range c : 0 <= LocalPreference c < 65536.
Proof.
  unfold LocalPreference, defaultLocalPreference. case_goal; [apply u16_range|lia].
Qed.

Lemma TypePreference_range off c : 0 <= off <= 100 -> 0 <= TypePreference off c <= 126.
Proof.
  intros Ho. unfold TypePreference, Preference, defaultTCPPriorityOffset, u16.
  destruct (candidateType c), (IsTCP _), (started c); simpl; try lia;
    rewrite Z.mod_small; lia.
Qed.

(** The formula of RFC 8445, section 5.1.2.1. *)
Definition rfc_priority (typePreference localPreference component : Z) : Z :=
  2 ^ 24 * typePreference + 2 ^ 8 * localPreference + (256 - component).

(** With an offset for TCP candidates of at most 100, the machine
    arithmetic of [Priority] computes the formula of RFC 8445 for every
    component from 1 to 256, the result is in the range that RFC demands, and
    a candidate with a higher type preference is preferred whatever the rest
    is. *)
Theorem Priority_correct off c :
  0 <= off <= 100 -> priorityOverride c = 0 -> 1 <= component c <= 256 ->
  Priority off c = rfc_priority (TypePreference off c) (LocalPreference c) (component c)
  /\ 0 <= Priority off c < 2 ^ 31
  /\ forall d, priorityOverride d = 0 -> 1 <= component d <= 256 ->
       TypePreference off d < TypePreference off c -> Priority off d < Priority off c.
Proof.
  intros Ho Hov Hc.
  assert (forall c, priorityOverride c = 0 -> 1 <= component c <= 256 ->
    Priority off c = rfc_priority (TypePreference off c) (LocalPreference c) (component c)
    /\ 0 <= TypePreference off c <= 126 /\ 0 <= LocalPreference c < 65536) as P.
  { clear c Hov Hc. intros c Hov Hc. pose proof (TypePreference_range off c Ho).
    pose proof (LocalPreference_range c). split; [|done]. unfold Priority, rfc_priority.
    rewrite Hov. simpl negb. cbv iota. change (Z.shiftl 1 24) with 16777216. change (Z.shiftl 1 8) with 256.
    rewrite (u16_small (256 - component c)) by lia.
    rewrite (u32_small (16777216 * _)), (u32_small (256 * _)) by lia.
    rewrite (u32_small (_ * _ + _ * _)) by lia. rewrite u32_small by lia. lia. }
  destruct (P c Hov Hc) as (E & ? & ?). unfold rfc_priority in *.
  split; [done|]. split; [lia|]. intros d Hd Hdc Hlt. destruct (P d Hd Hdc) as (Ed & ? & ?). lia.
Qed.

(** * Text *)

(** A candidate one of the constructors has returned. *)
Inductive built (c : Candidate) : Prop :=
| built_host i config : NewCandidateHost i config = Ok c -> built c
| built_other i typ byNetwork relayProto close config :
    (typ, byNetwork) ∈ [(CandidateTypeServerReflexive, false); (CandidateTypePeerReflexive, true);
                        (CandidateTypeRelay, false)] ->
    newCandidate i typ byNetwork relayProto close config = Ok c -> built c.

(** The fields have values that the grammar of the attribute can express. *)
Record printable (off : Z) (c : Candidate) : Prop := {
  p_component : 0 <= component c < 65536;
  p_port : 0 <= port c < 65536;
  p_priority : 0 < Priority off c < 2 ^ 32;
  p_foundation : Foundation c = " " \/ token (Foundation c);
  p_address : token (address c);
  p_zone : has_char "%" (address c) = false;
  p_related r : relatedAddress c = Some r ->
    (relAddress r = "" /\ relPort r = 0) \/ (token (relAddress r) /\ 0 < relPort r < 65536);
}.

(** The words after the mandatory ones. *)
Definition extension (c : Candidate) : list string :=
  (if decide (tcpType c <> TCPTypeUnspecified) then ["tcptype"; TCPType_String (tcpType c)] else []) ++
  match relatedAddress c with
  | Some r =>
      if negb (String.eqb (relAddress r) "") && negb (relPort r =? 0)
      then ["raddr"; relAddress r; "rport"; itoa (relPort r)] else []
  | None => []
  end.

Definition words (off : Z) (c : Candidate) : list string :=
  [itoa (component c); NetworkShort (networkType c); itoa (Priority off c);
   removeZoneIDFromAddress (address c); itoa (port c); "typ";
   CandidateType_String (candidateType c)] ++ extension c.

Lemma join_snoc l k : l <> [] -> k <> [] ->
  NetIP.join " " l +:+ " " +:+ NetIP.join " " k = NetIP.join " " (l ++ k).
Proof. intros. by rewrite join_app_nonempty. Qed.

Lemma Marshal_words off c :
  Marshal off c = NetIP.join " " ((if String.eqb (Foundation c) " " then "" else Foundation c) :: words off c).
Proof.
  unfold Marshal, words, extension. set (f := if String.eqb _ _ then _ else _).
  set (l := [f; _; _; _; _; _; _; _]).
  assert (forall m x y, m <> [] -> NetIP.join " " m +:+ " raddr " +:+ x +:+ " rport " +:+ y =
            NetIP.join " " (m ++ ["raddr"; x; "rport"; y])) as R.
  { intros m x y Hm. rewrite <- join_snoc by done. done. }
  assert (forall x, NetIP.join " " l +:+ " tcptype " +:+ x = NetIP.join " " (l ++ ["tcptype"; x])) as T0.
  { intros x. rewrite <- join_snoc by done. done. }
  case_decide; destruct (relatedAddress c) as [r|]; try destruct (_ && _);
    rewrite ?T0, ?R by done; rewrite ?app_nil_r; done.
Qed.

Lemma NetworkShort_determine n ip nt :
  determineNetworkType n ip = Ok nt -> determineNetworkType (NetworkShort nt) ip = Ok nt.
Proof.
  unfold determineNetworkType. intros H. case_all; simplify_eq/=; done.
Qed.

Lemma TCPType_roundtrip t : NewTCPType (TCPType_String t) = t.
Proof. by destruct t. Qed.

Lemma RelatedAddress_refl r : RelatedAddress_Equal r r = true.
Proof. destruct r as [r|]; [|done]. simpl. by rewrite String.eqb_refl, Z.eqb_refl. Qed.

Lemma Candidate_Equal_spec c d : Candidate_Equal c d = true <->
  networkType c = networkType d /\ candidateType c = candidateType d /\ address c = address d
  /\ port c = port d /\ tcpType c = tcpType d /\ relatedAddress c = relatedAddress d.
Proof.
  unfold Candidate_Equal. rewrite !andb_true_iff, !bool_decide_eq_true, String.eqb_eq, Z.eqb_eq.
  assert (RelatedAddress_Equal (relatedAddress c) (relatedAddress d) = true <->
          relatedAddress c = relatedAddress d) as E.
  { split; [|intros ->; apply RelatedAddress_refl].
    destruct (relatedAddress c) as [[]|], (relatedAddress d) as [[]|]; simpl; try done.
    rewrite andb_true_iff, String.eqb_eq, Z.eqb_eq. naive_solver. }
  rewrite E. naive_solver.
Qed.

(** What the constructors establish. *)
Definition host_facts (c : Candidate) : Prop :=
  candidateType c = CandidateTypeHost /\ relatedAddress c = None /\
  (if HasSuffix (address c) ".local" then networkType c = NetworkTypeUDP4 /\ resolvedAddr c = None
   else exists ip n, ParseIP (address c) = Some ip /\ determineNetworkType n ip = Ok (networkType c)
          /\ resolvedAddr c = Some (createAddr (networkType c) ip (port c))).

Definition other_facts (c : Candidate) : Prop :=
  tcpType c = TCPTypeUnspecified /\ is_Some (relatedAddress c) /\
  exists ip n byNetwork, ParseIP (address c) = Some ip /\ determineNetworkType n ip = Ok (networkType c)
    /\ (candidateType c, byNetwork) ∈ [(CandidateTypeServerReflexive, false);
          (CandidateTypePeerReflexive, true); (CandidateTypeRelay, false)]
    /\ resolvedAddr c = Some (if byNetwork : bool then createAddr (networkType c) ip (port c)
                              else UDPAddr ip (port c) "").

Lemma built_facts c : built c -> host_facts c \/ other_facts c.
Proof.
  intros [i config H|i typ b rp cl config Ht H]; [left|right].
  - unfold NewCandidateHost, setIP in H. unfold host_facts.
    destruct (HasSuffix (hAddress config) ".local") eqn:E; simpl in H; simplify_eq/=; [by rewrite E|].
    destruct (ParseIP (hAddress config)) as [ip|] eqn:Ei; [|done].
    destruct (determineNetworkType _ ip) eqn:Ed; simplify_eq/=. rewrite E. eauto 10.
  - unfold newCandidate in H. destruct (ParseIP (rAddress config)) as [ip|] eqn:Ei; [|done].
    destruct (determineNetworkType _ ip) eqn:Ed; simplify_eq/=. unfold other_facts. simpl. eauto 10.
Qed.

Lemma CandidateType_token c : built c -> token (CandidateType_String (candidateType c)).
Proof.
  intros [(-> & _)|(_ & _ & ip & n & b & _ & _ & Ht & _)]%built_facts; [done|].
  rewrite !elem_of_cons in Ht. destruct Ht as [Ht|[Ht|[Ht|Ht]]]; [injection Ht as -> _; done..|].
  by apply elem_of_nil in Ht.
Qed.

Lemma extension_tokens off c : printable off c -> Forall token (extension c).
Proof.
  intros P. apply Forall_app. split.
  - case_decide; [|done]. repeat constructor; try done; by destruct (tcpType c).
  - destruct (relatedAddress c) as [r|] eqn:Er; [|done]. destruct (_ && _) eqn:E; [|done].
    apply andb_true_iff in E as [E1 E2]. boolp.
    destruct (p_related _ _ P r Er) as [[? ?]|[? ?]]; [done|].
    repeat constructor; try done; try (by apply itoa_token; lia); by destruct H.
Qed.

Lemma words_tokens off c : printable off c -> built c -> Forall token (words off c).
Proof.
  intros P Hb. apply Forall_app. split; [|by eapply extension_tokens]. destruct P.
  unfold removeZoneIDFromAddress. rewrite before_char_absent by done.
  repeat apply Forall_cons_2; try (apply itoa_token; lia); try done.
  - by destruct (networkType c).
  - by apply CandidateType_token.
Qed.

Lemma token_no_space s rest : token s -> HasPrefix (s +:+ rest) " " = false.
Proof.
  intros [Hs Hc]. destruct s as [|c s]; [done|]. simpl in Hc. apply andb_true_iff in Hc as [Hc _].
  rewrite app_cons. unfold HasPrefix. cbn [String.prefix]. destruct (ascii_dec " " c) as [<-|]; done.
Qed.

(** The fields that [UnmarshalCandidate] works on. *)
Lemma Marshal_fields off c : printable off c -> built c ->
  (let split := Fields (Marshal off c) in
   if HasPrefix (Marshal off c) " " then " " :: split else split) = Foundation c :: words off c.
Proof.
  intros P Hb. cbv zeta. rewrite Marshal_words. pose proof (words_tokens off c P Hb) as Hw.
  destruct (p_foundation _ _ P) as [E|Ht].
  - rewrite E. change (String.eqb " " " ") with true. cbv iota.
    assert (exists x l, words off c = x :: l) as (x & l & El) by (unfold words; simpl; eauto).
    rewrite El, join_cons2 in *. change ("" +:+ ?y) with y. rewrite Fields_space, Fields_join by done.
    rewrite app_cons. by destruct (NetIP.join " " (x :: l)).
  - assert (String.eqb (Foundation c) " " = false) as ->.
    { apply String.eqb_neq. intros E. by rewrite E in Ht; destruct Ht. }
    assert (exists x l, words off c = x :: l) as (x & l & El) by (unfold words; simpl; eauto).
    rewrite Fields_join by by constructor. rewrite El, join_cons2. by rewrite token_no_space.
Qed.

Definition related_fields (c : Candidate) : string * Z :=
  match relatedAddress c with Some r => (relAddress r, relPort r) | None => ("", 0) end.

Lemma parseExtension_extension off c : printable off c -> built c ->
  parseExtension (extension c) = Ok (fst (related_fields c), snd (related_fields c), tcpType c).
Proof.
  intros P Hb. unfold extension, related_fields.
  destruct (built_facts c Hb) as [(_ & -> & _)|(-> & [r Er] & _)].
  - case_decide; simpl; [by rewrite TCPType_roundtrip|]. destruct (tcpType c); naive_solver.
  - rewrite Er, decide_False by naive_solver. simpl.
    destruct (p_related _ _ P r Er) as [[-> ->]|[[Ht _] Hp]]; [done|].
    rewrite (proj2 (String.eqb_neq _ _)), (proj2 (Z.eqb_neq (relPort r) 0)) by (done || lia). simpl.
    by rewrite itoa_nonneg, ParseUint_dec by lia.
Qed.

(** [UnmarshalCandidate] after the text has been cut into words and the
    numbers have been read. *)
Definition rebuild (i : string) (off : Z) (c : Candidate) : result ice_error Candidate :=
  let reflexive := {| rNetwork := NetworkShort (networkType c); rAddress := address c; rPort := port c;
                      rComponent := component c; rPriority := Priority off c;
                      rFoundation := Foundation c; rRelAddr := fst (related_fields c);
                      rRelPort := snd (related_fields c) |} in
  match candidateType c with
  | CandidateTypeHost =>
      NewCandidateHost i {| hNetwork := NetworkShort (networkType c); hAddress := address c;
                            hPort := port c; hComponent := component c; hPriority := Priority off c;
                            hFoundation := Foundation c; hTCPType := tcpType c |}
  | CandidateTypeServerReflexive => NewCandidateServerReflexive i reflexive
  | CandidateTypePeerReflexive => NewCandidatePeerReflexive i reflexive
  | CandidateTypeRelay => NewCandidateRelay i "" false reflexive
  | CandidateTypeUnspecified => Err ErrUnknownCandidateTyp
  end.

Lemma Unmarshal_Marshal i off c : built c -> printable off c ->
  UnmarshalCandidate i (Marshal off c) = rebuild i off c.
Proof.
  intros Hb P. unfold UnmarshalCandidate. pose proof (Marshal_fields off c P Hb) as E.
  cbv zeta in E |- *. rewrite E. unfold words. cbn [app].
  rewrite (parseExtension_extension off c P Hb). destruct P.
  rewrite !itoa_nonneg by lia. rewrite !ParseUint_dec by lia.
  unfold removeZoneIDFromAddress. rewrite !(before_char_absent "%" (address c)) by done.
  unfold rebuild. by destruct (candidateType c).
Qed.

Lemma Foundation_override c : Foundation c <> "" -> forall d, foundationOverride d = Foundation c ->
  Foundation d = Foundation c.
Proof.
  intros Hne d Hd. unfold Foundation at 1. rewrite Hd. by rewrite (proj2 (String.eqb_neq _ _)).
Qed.

Lemma Priority_override off off' c d : 0 < Priority off c -> priorityOverride d = Priority off c ->
  Priority off' d = Priority off c.
Proof.
  intros Hp Hd. unfold Priority at 1. rewrite Hd. by rewrite (proj2 (Z.eqb_neq _ _)) by lia.
Qed.

(** What a copy of a candidate agrees with it in. *)
Definition same_candidate (off : Z) (c c' : Candidate) : Prop :=
  Candidate_Equal c c' = true /\ resolvedAddr c' = resolvedAddr c /\ component c' = component c
  /\ Foundation c' = Foundation c /\ forall off', Priority off' c' = Priority off c.

Lemma rebuild_same i off c : built c -> printable off c ->
  exists c', rebuild i off c = Ok c' /\ same_candidate off c c'.
Proof.
  intros Hb P. assert (Foundation c <> "") as Hf.
  { destruct (p_foundation _ _ P) as [->|[? _]]; done. }
  assert (0 < Priority off c) as Hp by (destruct P; lia).
  assert (forall c', foundationOverride c' = Foundation c -> priorityOverride c' = Priority off c ->
    networkType c = networkType c' /\ candidateType c = candidateType c' /\ address c = address c'
    /\ port c = port c' /\ tcpType c = tcpType c' /\ relatedAddress c = relatedAddress c' ->
    resolvedAddr c' = resolvedAddr c -> component c' = component c -> same_candidate off c c') as Hsame.
  { intros c' H1 H2 H3 H4 H5. split_and!; [by apply Candidate_Equal_spec|done..| |].
    - by apply Foundation_override.
    - intros off'. by apply Priority_override. }
  unfold rebuild, related_fields. destruct (built_facts c Hb) as [(Ht & Hr & Hs)|(Htcp & [r Hr] & ip & n & b & Hip & Hd & Ht & Ha)].
  - rewrite Ht. unfold NewCandidateHost, setIP. simpl. destruct (HasSuffix _ _) eqn:E; simpl.
    + eexists. split; [done|]. destruct Hs. apply Hsame; simpl; split_and?; congruence.
    + destruct Hs as (ip & n & Hip & Hd & Ha). rewrite Hip, (NetworkShort_determine _ _ _ Hd). simpl.
      eexists. split; [done|]. apply Hsame; simpl; split_and?; congruence.
  - rewrite Hr. rewrite !elem_of_cons in Ht. destruct Ht as [Ht|[Ht|[Ht|Ht]]];
      [injection Ht as Ht ->..|by apply elem_of_nil in Ht];
      rewrite Ht; unfold NewCandidateServerReflexive, NewCandidatePeerReflexive, NewCandidateRelay, newCandidate;
      simpl; rewrite Hip, (NetworkShort_determine _ _ _ Hd); eexists; (split; [done|]);
      apply Hsame; simpl; split_and?; try congruence; rewrite Hr; by destruct r.
Qed.

(** C16. A candidate of the constructors whose fields the attribute can express is
    read back from its text: the copy is equal to it in the sense of [Equal],
    has the same resolved address and component, and the priority and foundation
    that the original computes, whatever agent the copy belongs to.  Expressible
    are: component and port of 16 bits, a priority above zero of 32 bits,
    foundation and address without spaces, no zone in the address, and a related
    address that is either wholly absent or has a port above zero (one with port
    0 is left out of the text). *)
Theorem candidate_roundtrip i off c :
  built c -> printable off c ->
  exists c', UnmarshalCandidate i (Marshal off c) = Ok c' /\ same_candidate off c c'.
Proof. intros Hb P. rewrite Unmarshal_Marshal by done. by apply rebuild_same. Qed.

(** * Examples *)

Definition host_config : CandidateHostConfig :=
  {| hNetwork := "tcp4"; hAddress := "192.168.1.7"; hPort := 9; hComponent := 1; hPriority := 0;
     hFoundation := ""; hTCPType := TCPTypeActive |}.

Definition host_candidate : Candidate :=
  {| id := "a"; networkType := NetworkTypeTCP4; candidateType := CandidateTypeHost; component := 1;
     address := "192.168.1.7"; port := 9; relatedAddress := None; tcpType := TCPTypeActive;
     resolvedAddr := Some (TCPAddr (NetIP.v4InV6Prefix ++ [192; 168; 1; 7]) 9 "");
     lastSent := None; lastReceived := None; started := false; closing := false;
     foundationOverride := ""; priorityOverride := 0; remoteCandidateCaches := ∅;
     network := "tcp4"; relayProtocol := ""; onClose := false |}.

Lemma host_built : NewCandidateHost "a" host_config = Ok host_candidate.
Proof. reflexivity. Qed.

Example host_text :
  Marshal 27 host_candidate = "117033986 1 tcp 1675624447 192.168.1.7 9 typ host tcptype active".
Proof. vm_compute. reflexivity. Qed.

Lemma candidate_roundtrip_witness :
  exists c', UnmarshalCandidate "b" (Marshal 27 host_candidate) = Ok c'
             /\ same_candidate 27 host_candidate c'.
Proof.
  apply (candidate_roundtrip "b" 27 host_candidate).
  - exact (built_host _ "a" host_config host_built).
  - split; try (vm_compute; split; congruence); try done.
    right. by split; vm_compute.
Defined.

Lemma Priority_correct_witness :
  Priority 27 host_candidate = rfc_priority (TypePreference 27 host_candidate)
                                 (LocalPreference host_candidate) 1
  /\ 0 <= Priority 27 host_candidate < 2 ^ 31
  /\ forall d, priorityOverride d = 0 -> 1 <= component d <= 256 ->
       TypePreference 27 d < TypePreference 27 host_candidate -> Priority 27 d < Priority 27 host_candidate.
Proof. apply (Priority_correct 27 host_candidate); [lia|reflexivity|simpl; lia]. Defined.
