(* ===== verification/IceAttr.v ===== *)
(** The attributes ICE adds to STUN: lib/pion-ice/icecontrol.go (the roles
    and their tie-breaker), priority.go and usecandidate.go, with the
    interface [AttrCodec] of the TURN attributes. *)

From S2P Require Import Prelude Stun TurnProto.

(** [m.Contains(t)]. *)
Definition Contains {S : StunMessage} (m : Message) (t : AttrType) : bool := is_ok (msg_Get m t).

(** role.go *)
Inductive Role := Controlling | Controlled.

Section Attributes.
Context {S : StunMessage}.

Definition tiebreakerSize : Z := 8.

Definition tiebreaker_AddToAs (a : Z) (m : Message) (t : AttrType) : result StunError Message :=
  Ok (msg_Add m t (putUint64 a)).

Definition tiebreaker_GetFromAs (m : Message) (t : AttrType) : result StunError Z :=
  match getSized m t tiebreakerSize with
  | Err e => Err e
  | Ok v => Ok (getUint64 v)
  end.

Definition AttrControlled_AddTo (c : Z) (m : Message) := tiebreaker_AddToAs c m AttrICEControlled.
Definition AttrControlled_GetFrom (m : Message) := tiebreaker_GetFromAs m AttrICEControlled.
Definition AttrControlling_AddTo (c : Z) (m : Message) := tiebreaker_AddToAs c m AttrICEControlling.
Definition AttrControlling_GetFrom (m : Message) := tiebreaker_GetFromAs m AttrICEControlling.

Record AttrControl := { acRole : Role; acTiebreaker : Z }.

Definition AttrControl_AddTo (c : AttrControl) (m : Message) : result StunError Message :=
  match acRole c with
  | Controlling => tiebreaker_AddToAs (acTiebreaker c) m AttrICEControlling
  | Controlled => tiebreaker_AddToAs (acTiebreaker c) m AttrICEControlled
  end.

(** [errNotFound] is [stun.ErrAttributeNotFound]. *)
Definition AttrControl_GetFrom (errNotFound : StunError) (m : Message) : result StunError AttrControl :=
  if Contains m AttrICEControlling then
    match tiebreaker_GetFromAs m AttrICEControlling with
    | Err e => Err e
    | Ok t => Ok {| acRole := Controlling; acTiebreaker := t |}
    end
  else if Contains m AttrICEControlled then
    match tiebreaker_GetFromAs m AttrICEControlled with
    | Err e => Err e
    | Ok t => Ok {| acRole := Controlled; acTiebreaker := t |}
    end
  else Err errNotFound.

(** priority.go *)

Definition prioritySize : Z := 4.

Definition PriorityAttr_AddTo (p : Z) (m : Message) : result StunError Message :=
  Ok (msg_Add m AttrPriority (putUint32 p)).

Definition PriorityAttr_GetFrom (m : Message) : result StunError Z :=
  match getSized m AttrPriority prioritySize with
  | Err e => Err e
  | Ok v => Ok (getUint32 v)
  end.

(** usecandidate.go *)

Definition UseCandidate_AddTo (m : Message) : result StunError Message :=
  Ok (msg_Add m AttrUseCandidate []).

Definition UseCandidate_IsSet (m : Message) : bool := is_ok (msg_Get m AttrUseCandidate).

Definition AttrControlled_codec : AttrCodec S Z := {|
  codec_type := AttrICEControlled;
  codec_encodable n := 0 <= n < 18446744073709551616;
  codec_add := AttrControlled_AddTo;
  codec_get := AttrControlled_GetFrom |}.

Definition AttrControlling_codec : AttrCodec S Z := {|
  codec_type := AttrICEControlling;
  codec_encodable n := 0 <= n < 18446744073709551616;
  codec_add := AttrControlling_AddTo;
  codec_get := AttrControlling_GetFrom |}.

Definition PriorityAttr_codec : AttrCodec S Z := {|
  codec_type := AttrPriority;
  codec_encodable n := 0 <= n < 4294967296;
  codec_add := PriorityAttr_AddTo;
  codec_get := PriorityAttr_GetFrom |}.

Context {L : StunMessageLaws S}.

Lemma uint64_roundtrip v : 0 <= v < 18446744073709551616 -> getUint64 (putUint64 v) = v.
Proof. intros. rewrite <- (app_nil_r (putUint64 v)). by apply getUint64_put. Qed.

Lemma tiebreaker_laws (C : AttrCodec S Z) :
  (forall a m, codec_add a m = tiebreaker_AddToAs a m codec_type) ->
  (forall m, codec_get m = tiebreaker_GetFromAs m codec_type) ->
  (forall a, codec_encodable a -> 0 <= a < 18446744073709551616) -> AttrCodecLaws S C.
Proof.
  intros Ha Hg Hr. apply (fixed_codec _ _ putUint64 tiebreakerSize getUint64).
  - intros. by rewrite Ha.
  - intros a m m' E. rewrite Ha in E. unfold tiebreaker_AddToAs in E. by simplify_eq.
  - intros m v E. rewrite Hg. unfold tiebreaker_GetFromAs. by rewrite E.
  - intros a Hok. split; [done|]. by apply uint64_roundtrip, Hr.
Qed.

Lemma AttrControlled_laws : AttrCodecLaws S AttrControlled_codec.
Proof. by apply tiebreaker_laws. Qed.

Lemma AttrControlling_laws : AttrCodecLaws S AttrControlling_codec.
Proof. by apply tiebreaker_laws. Qed.

Lemma PriorityAttr_laws : AttrCodecLaws S PriorityAttr_codec.
Proof.
  apply (fixed_codec _ _ putUint32 prioritySize getUint32).
  - done.
  - intros a m m' E. simpl in E. unfold PriorityAttr_AddTo in E. by simplify_eq.
  - intros m v E. simpl in *. unfold PriorityAttr_GetFrom. by rewrite E.
  - intros a Ha. split; [done|]. by apply getUint32_put1.
Qed.

(** The two role attributes are told apart: what [AttrControl] writes to a
    message with neither of them, it reads back. *)
Lemma AttrControl_roundtrip c m e1 e2 nf :
  0 <= acTiebreaker c < 18446744073709551616 ->
  msg_Get m AttrICEControlling = Err e1 -> msg_Get m AttrICEControlled = Err e2 ->
  exists m', AttrControl_AddTo c m = Ok m' /\ AttrControl_GetFrom nf m' = Ok c.
Proof.
  intros Hr H1 H2. destruct c as [[|] t]; simpl in Hr; unfold AttrControl_AddTo, tiebreaker_AddToAs,
    AttrControl_GetFrom, Contains, tiebreaker_GetFromAs; simpl; eexists; (split; [done|]).
  - rewrite (get_add_absent _ _ _ _ H1). simpl.
    rewrite (getSized_add S _ _ _ tiebreakerSize _ H1) by done. by rewrite uint64_roundtrip.
  - rewrite get_add_other, H1 by done. simpl. rewrite (get_add_absent _ _ _ _ H2). simpl.
    rewrite (getSized_add S _ _ _ tiebreakerSize _ H2) by done. by rewrite uint64_roundtrip.
Qed.

End Attributes.
