(* ===== verification/IceAgent.v ===== *)
(** The ICE agent: lib/pion-ice/agent.go, selection.go, candidatepair.go,
    candidatepair_state.go, ice.go, transport.go, and the parts of
    candidate_base.go that work on a running agent.

    Candidates and candidate pairs are shared by reference in the source: the
    same candidate is in the agent's maps and in pairs, the same pair in the
    checklist, in [selectedPair] and in the selector.  Here they live in two
    stores of the agent, [candidates] and [pairs], and are named by their
    position.  All methods that change the agent run on its task loop, one
    after the other: a task is a function from agents to agents. *)

From S2P Require Import Prelude GoNet GoText Stun IceAttr IceCandidate PacketBuffer.

#[local] Open Scope string_scope.
#[local] Open Scope list_scope.
#[local] Open Scope Z_scope.

(** * What the agent calls *)

(** The part of pion/stun that only ICE uses. *)
Class IceStun (S : StunMessage) := {
  ice_Method : Message -> Method;
  ice_Class : Message -> MessageClass;
  ice_TransactionID : Message -> bytes;
  ice_Raw : Message -> bytes;
  (** [stun.IsMessage] and [Message.Decode] *)
  IsMessage : bytes -> bool;
  ice_Decode : bytes -> result StunError Message;
  (** [Username.GetFrom] *)
  ice_Username : Message -> result StunError string;
  (** [MessageIntegrity([]byte(pwd)).Check]; [None] is the nil error *)
  ice_Integrity : string -> Message -> option StunError;
}.

(** Errors of a connection's [WriteTo]: [io.ErrClosedPipe] or another one. *)
Inductive write_error := WriteClosedPipe | WriteOther.

(** Clock, sockets, multiplexers, interfaces, mDNS and random numbers. *)
Class IceEnv (S : StunMessage) (W : Type) := {
  timeNow : W -> Z;
  stun_Build : list Setter -> W -> result StunError Message * W;
  (** [conn.WriteTo] of a candidate's connection: the count and the error *)
  conn_WriteTo : nat -> bytes -> option net_Addr -> W -> Z * option write_error * W;
  (** [SetDeadline] and [Close] of a candidate's connection *)
  conn_Close : nat -> W -> W;
  (** the [onClose] of a relay candidate *)
  relay_onClose : nat -> W -> W;
  (** [RemoveConnByUfrag] of the multiplexers *)
  mux_Remove : string -> W -> W;
  (** the local addresses to a remote passive candidate and the port each
      connection gets; [None] for a connection without a TCP address *)
  activeTCP : NetworkType -> string -> Z -> W -> list (list Z * option Z) * W;
  (** the address an mDNS query is answered with *)
  mdns_Query : string -> W -> option (list Z) * W;
  newCandidateID : W -> string * W;
  generateUFrag : W -> option string * W;
  generatePwd : W -> option string * W;
  cancelGathering : W -> W;
}.

(** * Enumerations *)

(** ice.go *)
Inductive ConnectionState :=
| ConnectionStateUnknown | ConnectionStateNew | ConnectionStateChecking | ConnectionStateConnected
| ConnectionStateCompleted | ConnectionStateFailed | ConnectionStateDisconnected
| ConnectionStateClosed.

#[export] Instance ConnectionState_eq_dec : EqDecision ConnectionState.
Proof. solve_decision. Defined.

Inductive GatheringState :=
| GatheringStateUnknown | GatheringStateNew | GatheringStateGathering | GatheringStateComplete.

#[export] Instance GatheringState_eq_dec : EqDecision GatheringState.
Proof. solve_decision. Defined.

(** candidatepair_state.go *)
Inductive CandidatePairState :=
| CandidatePairStateWaiting | CandidatePairStateInProgress | CandidatePairStateFailed
| CandidatePairStateSucceeded.

#[export] Instance CandidatePairState_eq_dec : EqDecision CandidatePairState.
Proof. solve_decision. Defined.

Inductive MulticastDNSMode :=
| MulticastDNSModeDisabled | MulticastDNSModeQueryOnly | MulticastDNSModeQueryAndGather.

#[export] Instance MulticastDNSMode_eq_dec : EqDecision MulticastDNSMode.
Proof. solve_decision. Defined.

(** * Constants of agent_config.go *)

Definition maxBindingRequestTimeout : Z := 4000 * millisecond.
Definition defaultKeepaliveInterval : Z := 2 * second.
Definition maxBufferSize : Z := 1000 * 1000.
Definition maxDuration : Z := 9223372036854775807.

(** * Data *)

Record CandidatePair := {
  iceRoleControlling : bool;
  Remote : nat;
  Local : nat;
  bindingRequestCount : Z;
  state : CandidatePairState;
  nominated : bool;
  nominateOnBindingSuccess : bool;
}.

(** [newCandidatePair]. *)
Definition newCandidatePair (local remote : nat) (controlling : bool) : CandidatePair :=
  {| iceRoleControlling := controlling; Remote := remote; Local := local; bindingRequestCount := 0;
     state := CandidatePairStateWaiting; nominated := false; nominateOnBindingSuccess := false |}.

#[export] Instance CandidatePair_inhabited : Inhabited CandidatePair := populate (newCandidatePair 0 0 false).

#[export] Instance Candidate_inhabited : Inhabited Candidate :=
  populate {| id := ""; networkType := NetworkTypeUDP4; candidateType := CandidateTypeUnspecified;
     component := 0; address := ""; port := 0; relatedAddress := None; tcpType := TCPTypeUnspecified;
     resolvedAddr := None; lastSent := None; lastReceived := None; started := false; closing := false;
     foundationOverride := ""; priorityOverride := 0; remoteCandidateCaches := ∅; network := "";
     relayProtocol := ""; onClose := false |}.

Record bindingRequest := {
  timestamp : Z;
  transactionID : bytes;
  destination : option net_Addr;
  isUseCandidate : bool;
}.

(** The two selectors; [startTime] and [nominatedPair] belong to the
    controlling one.  [liteSelector] wraps either. *)
Inductive pairCandidateSelector :=
| controllingSelector (startTime : option Z) (nominatedPair : option nat)
| controlledSelector.

Record Selector := { liteSelector : bool; inner : pairCandidateSelector }.

(** The fields of [Agent] that [NewAgent] sets and nothing changes. *)
Record Settings {S : StunMessage} := {
  tieBreaker : Z;
  lite : bool;
  maxBindingRequests : Z;
  hostAcceptanceMinWait : Z;
  srflxAcceptanceMinWait : Z;
  prflxAcceptanceMinWait : Z;
  relayAcceptanceMinWait : Z;
  tcpPriorityOffset : Z;
  disableActiveTCP : bool;
  disconnectedTimeout : Z;
  failedTimeout : Z;
  keepaliveInterval : Z;
  checkInterval : Z;
  networkTypes : list NetworkType;
  mDNSMode : MulticastDNSMode;
  userBindingRequestHandler : option (Message -> Candidate -> Candidate -> CandidatePair -> bool);
}.
Arguments Settings S : clear implicits.

(** [lastConnectionState] and [checkingDuration] are the variables of
    [connectivityChecks]; [onConnected], [startedCh] and [done] say whether
    the channel is closed, [forceCandidateContact] whether the slot of the
    channel is taken.  The three lists at the end are what has been passed to
    the notifiers. *)
Record Agent {S : StunMessage} {W : Type} := {
  cfg : Settings S;
  connectionState : ConnectionState;
  gatheringState : GatheringState;
  isControlling : bool;
  startedCh : bool;
  localUfrag : string;
  localPwd : string;
  remoteUfrag : string;
  remotePwd : string;
  localCandidates : gmap NetworkType (list nat);
  remoteCandidates : gmap NetworkType (list nat);
  checklist : list nat;
  selector : option Selector;
  selectedPair : option nat;
  pendingBindingRequests : list bindingRequest;
  buf : Buffer;
  isDone : bool;
  forceCandidateContact : bool;
  onConnected : bool;
  lastConnectionState : ConnectionState;
  checkingDuration : option Z;
  candidates : list Candidate;
  pairs : list CandidatePair;
  stateNotes : list ConnectionState;
  pairNotes : list nat;
  candidateNotes : list (option nat);
  env : W;
}.
Arguments Agent S W : clear implicits.

(** * Field updates *)

Definition set_lastSent (v : option Z) (x : Candidate) : Candidate :=
  {| id := id x; networkType := networkType x; candidateType := candidateType x;
     component := component x; address := address x; port := port x;
     relatedAddress := relatedAddress x; tcpType := tcpType x; resolvedAddr := resolvedAddr x;
     lastSent := v; lastReceived := lastReceived x; started := started x;
     closing := closing x; foundationOverride := foundationOverride x;
     priorityOverride := priorityOverride x; remoteCandidateCaches := remoteCandidateCaches x;
     network := network x; relayProtocol := relayProtocol x; onClose := onClose x |}.
Definition set_lastReceived (v : option Z) (x : Candidate) : Candidate :=
  {| id := id x; networkType := networkType x; candidateType := candidateType x;
     component := component x; address := address x; port := port x;
     relatedAddress := relatedAddress x; tcpType := tcpType x; resolvedAddr := resolvedAddr x;
     lastSent := lastSent x; lastReceived := v; started := started x; closing := closing x;
     foundationOverride := foundationOverride x; priorityOverride := priorityOverride x;
     remoteCandidateCaches := remoteCandidateCaches x; network := network x;
     relayProtocol := relayProtocol x; onClose := onClose x |}.
Definition set_started (v : bool) (x : Candidate) : Candidate :=
  {| id := id x; networkType := networkType x; candidateType := candidateType x;
     component := component x; address := address x; port := port x;
     relatedAddress := relatedAddress x; tcpType := tcpType x; resolvedAddr := resolvedAddr x;
     lastSent := lastSent x; lastReceived := lastReceived x; started := v;
     closing := closing x; foundationOverride := foundationOverride x;
     priorityOverride := priorityOverride x; remoteCandidateCaches := remoteCandidateCaches x;
     network := network x; relayProtocol := relayProtocol x; onClose := onClose x |}.
Definition set_closing (v : bool) (x : Candidate) : Candidate :=
  {| id := id x; networkType := networkType x; candidateType := candidateType x;
     component := component x; address := address x; port := port x;
     relatedAddress := relatedAddress x; tcpType := tcpType x; resolvedAddr := resolvedAddr x;
     lastSent := lastSent x; lastReceived := lastReceived x; started := started x;
     closing := v; foundationOverride := foundationOverride x;
     priorityOverride := priorityOverride x; remoteCandidateCaches := remoteCandidateCaches x;
     network := network x; relayProtocol := relayProtocol x; onClose := onClose x |}.
Definition set_caches (v : gmap (list Z) nat) (x : Candidate) : Candidate :=
  {| id := id x; networkType := networkType x; candidateType := candidateType x;
     component := component x; address := address x; port := port x;
     relatedAddress := relatedAddress x; tcpType := tcpType x; resolvedAddr := resolvedAddr x;
     lastSent := lastSent x; lastReceived := lastReceived x; started := started x;
     closing := closing x; foundationOverride := foundationOverride x;
     priorityOverride := priorityOverride x; remoteCandidateCaches := v; network := network x;
     relayProtocol := relayProtocol x; onClose := onClose x |}.
Definition set_onClose (v : bool) (x : Candidate) : Candidate :=
  {| id := id x; networkType := networkType x; candidateType := candidateType x;
     component := component x; address := address x; port := port x;
     relatedAddress := relatedAddress x; tcpType := tcpType x; resolvedAddr := resolvedAddr x;
     lastSent := lastSent x; lastReceived := lastReceived x; started := started x;
     closing := closing x; foundationOverride := foundationOverride x;
     priorityOverride := priorityOverride x; remoteCandidateCaches := remoteCandidateCaches x;
     network := network x; relayProtocol := relayProtocol x; onClose := v |}.

Definition set_count (v : Z) (x : CandidatePair) : CandidatePair :=
  {| iceRoleControlling := iceRoleControlling x; Remote := Remote x; Local := Local x;
     bindingRequestCount := v; state := state x; nominated := nominated x;
     nominateOnBindingSuccess := nominateOnBindingSuccess x |}.
Definition set_state (v : CandidatePairState) (x : CandidatePair) : CandidatePair :=
  {| iceRoleControlling := iceRoleControlling x; Remote := Remote x; Local := Local x;
     bindingRequestCount := bindingRequestCount x; state := v; nominated := nominated x;
     nominateOnBindingSuccess := nominateOnBindingSuccess x |}.
Definition set_nominated (v : bool) (x : CandidatePair) : CandidatePair :=
  {| iceRoleControlling := iceRoleControlling x; Remote := Remote x; Local := Local x;
     bindingRequestCount := bindingRequestCount x; state := state x; nominated := v;
     nominateOnBindingSuccess := nominateOnBindingSuccess x |}.
Definition set_nominateOnBindingSuccess (v : bool) (x : CandidatePair) : CandidatePair :=
  {| iceRoleControlling := iceRoleControlling x; Remote := Remote x; Local := Local x;
     bindingRequestCount := bindingRequestCount x; state := state x; nominated := nominated x;
     nominateOnBindingSuccess := v |}.

Section Agents.
Context {SM : StunMessage} {SI : IceStun SM} {W : Type} {E : IceEnv SM W}.

Definition set_connectionState (v : ConnectionState) (x : Agent SM W) : Agent SM W :=
  {| cfg := cfg x; connectionState := v; gatheringState := gatheringState x;
     isControlling := isControlling x; startedCh := startedCh x; localUfrag := localUfrag x;
     localPwd := localPwd x; remoteUfrag := remoteUfrag x; remotePwd := remotePwd x;
     localCandidates := localCandidates x; remoteCandidates := remoteCandidates x;
     checklist := checklist x; selector := selector x; selectedPair := selectedPair x;
     pendingBindingRequests := pendingBindingRequests x; buf := buf x; isDone := isDone x;
     forceCandidateContact := forceCandidateContact x; onConnected := onConnected x;
     lastConnectionState := lastConnectionState x; checkingDuration := checkingDuration x;
     candidates := candidates x; pairs := pairs x; stateNotes := stateNotes x;
     pairNotes := pairNotes x; candidateNotes := candidateNotes x; env := env x |}.
Definition set_gatheringState (v : GatheringState) (x : Agent SM W) : Agent SM W :=
  {| cfg := cfg x; connectionState := connectionState x; gatheringState := v;
     isControlling := isControlling x; startedCh := startedCh x; localUfrag := localUfrag x;
     localPwd := localPwd x; remoteUfrag := remoteUfrag x; remotePwd := remotePwd x;
     localCandidates := localCandidates x; remoteCandidates := remoteCandidates x;
     checklist := checklist x; selector := selector x; selectedPair := selectedPair x;
     pendingBindingRequests := pendingBindingRequests x; buf := buf x; isDone := isDone x;
     forceCandidateContact := forceCandidateContact x; onConnected := onConnected x;
     lastConnectionState := lastConnectionState x; checkingDuration := checkingDuration x;
     candidates := candidates x; pairs := pairs x; stateNotes := stateNotes x;
     pairNotes := pairNotes x; candidateNotes := candidateNotes x; env := env x |}.
Definition set_isControlling (v : bool) (x : Agent SM W) : Agent SM W :=
  {| cfg := cfg x; connectionState := connectionState x; gatheringState := gatheringState x;
     isControlling := v; startedCh := startedCh x; localUfrag := localUfrag x;
     localPwd := localPwd x; remoteUfrag := remoteUfrag x; remotePwd := remotePwd x;
     localCandidates := localCandidates x; remoteCandidates := remoteCandidates x;
     checklist := checklist x; selector := selector x; selectedPair := selectedPair x;
     pendingBindingRequests := pendingBindingRequests x; buf := buf x; isDone := isDone x;
     forceCandidateContact := forceCandidateContact x; onConnected := onConnected x;
     lastConnectionState := lastConnectionState x; checkingDuration := checkingDuration x;
     candidates := candidates x; pairs := pairs x; stateNotes := stateNotes x;
     pairNotes := pairNotes x; candidateNotes := candidateNotes x; env := env x |}.
Definition set_startedCh (v : bool) (x : Agent SM W) : Agent SM W :=
  {| cfg := cfg x; connectionState := connectionState x; gatheringState := gatheringState x;
     isControlling := isControlling x; startedCh := v; localUfrag := localUfrag x;
     localPwd := localPwd x; remoteUfrag := remoteUfrag x; remotePwd := remotePwd x;
     localCandidates := localCandidates x; remoteCandidates := remoteCandidates x;
     checklist := checklist x; selector := selector x; selectedPair := selectedPair x;
     pendingBindingRequests := pendingBindingRequests x; buf := buf x; isDone := isDone x;
     forceCandidateContact := forceCandidateContact x; onConnected := onConnected x;
     lastConnectionState := lastConnectionState x; checkingDuration := checkingDuration x;
     candidates := candidates x; pairs := pairs x; stateNotes := stateNotes x;
     pairNotes := pairNotes x; candidateNotes := candidateNotes x; env := env x |}.
Definition set_localCandidates (v : gmap NetworkType (list nat)) (x : Agent SM W) : Agent SM W :=
  {| cfg := cfg x; connectionState := connectionState x; gatheringState := gatheringState x;
     isControlling := isControlling x; startedCh := startedCh x; localUfrag := localUfrag x;
     localPwd := localPwd x; remoteUfrag := remoteUfrag x; remotePwd := remotePwd x;
     localCandidates := v; remoteCandidates := remoteCandidates x; checklist := checklist x;
     selector := selector x; selectedPair := selectedPair x;
     pendingBindingRequests := pendingBindingRequests x; buf := buf x; isDone := isDone x;
     forceCandidateContact := forceCandidateContact x; onConnected := onConnected x;
     lastConnectionState := lastConnectionState x; checkingDuration := checkingDuration x;
     candidates := candidates x; pairs := pairs x; stateNotes := stateNotes x;
     pairNotes := pairNotes x; candidateNotes := candidateNotes x; env := env x |}.
Definition set_remoteCandidates (v : gmap NetworkType (list nat)) (x : Agent SM W) : Agent SM W :=
  {| cfg := cfg x; connectionState := connectionState x; gatheringState := gatheringState x;
     isControlling := isControlling x; startedCh := startedCh x; localUfrag := localUfrag x;
     localPwd := localPwd x; remoteUfrag := remoteUfrag x; remotePwd := remotePwd x;
     localCandidates := localCandidates x; remoteCandidates := v; checklist := checklist x;
     selector := selector x; selectedPair := selectedPair x;
     pendingBindingRequests := pendingBindingRequests x; buf := buf x; isDone := isDone x;
     forceCandidateContact := forceCandidateContact x; onConnected := onConnected x;
     lastConnectionState := lastConnectionState x; checkingDuration := checkingDuration x;
     candidates := candidates x; pairs := pairs x; stateNotes := stateNotes x;
     pairNotes := pairNotes x; candidateNotes := candidateNotes x; env := env x |}.
Definition set_checklist (v : list nat) (x : Agent SM W) : Agent SM W :=
  {| cfg := cfg x; connectionState := connectionState x; gatheringState := gatheringState x;
     isControlling := isControlling x; startedCh := startedCh x; localUfrag := localUfrag x;
     localPwd := localPwd x; remoteUfrag := remoteUfrag x; remotePwd := remotePwd x;
     localCandidates := localCandidates x; remoteCandidates := remoteCandidates x;
     checklist := v; selector := selector x; selectedPair := selectedPair x;
     pendingBindingRequests := pendingBindingRequests x; buf := buf x; isDone := isDone x;
     forceCandidateContact := forceCandidateContact x; onConnected := onConnected x;
     lastConnectionState := lastConnectionState x; checkingDuration := checkingDuration x;
     candidates := candidates x; pairs := pairs x; stateNotes := stateNotes x;
     pairNotes := pairNotes x; candidateNotes := candidateNotes x; env := env x |}.
Definition set_selector (v : option Selector) (x : Agent SM W) : Agent SM W :=
  {| cfg := cfg x; connectionState := connectionState x; gatheringState := gatheringState x;
     isControlling := isControlling x; startedCh := startedCh x; localUfrag := localUfrag x;
     localPwd := localPwd x; remoteUfrag := remoteUfrag x; remotePwd := remotePwd x;
     localCandidates := localCandidates x; remoteCandidates := remoteCandidates x;
     checklist := checklist x; selector := v; selectedPair := selectedPair x;
     pendingBindingRequests := pendingBindingRequests x; buf := buf x; isDone := isDone x;
     forceCandidateContact := forceCandidateContact x; onConnected := onConnected x;
     lastConnectionState := lastConnectionState x; checkingDuration := checkingDuration x;
     candidates := candidates x; pairs := pairs x; stateNotes := stateNotes x;
     pairNotes := pairNotes x; candidateNotes := candidateNotes x; env := env x |}.
Definition set_selectedPair (v : option nat) (x : Agent SM W) : Agent SM W :=
  {| cfg := cfg x; connectionState := connectionState x; gatheringState := gatheringState x;
     isControlling := isControlling x; startedCh := startedCh x; localUfrag := localUfrag x;
     localPwd := localPwd x; remoteUfrag := remoteUfrag x; remotePwd := remotePwd x;
     localCandidates := localCandidates x; remoteCandidates := remoteCandidates x;
     checklist := checklist x; selector := selector x; selectedPair := v;
     pendingBindingRequests := pendingBindingRequests x; buf := buf x; isDone := isDone x;
     forceCandidateContact := forceCandidateContact x; onConnected := onConnected x;
     lastConnectionState := lastConnectionState x; checkingDuration := checkingDuration x;
     candidates := candidates x; pairs := pairs x; stateNotes := stateNotes x;
     pairNotes := pairNotes x; candidateNotes := candidateNotes x; env := env x |}.
Definition set_pendingBindingRequests (v : list bindingRequest) (x : Agent SM W) : Agent SM W :=
  {| cfg := cfg x; connectionState := connectionState x; gatheringState := gatheringState x;
     isControlling := isControlling x; startedCh := startedCh x; localUfrag := localUfrag x;
     localPwd := localPwd x; remoteUfrag := remoteUfrag x; remotePwd := remotePwd x;
     localCandidates := localCandidates x; remoteCandidates := remoteCandidates x;
     checklist := checklist x; selector := selector x; selectedPair := selectedPair x;
     pendingBindingRequests := v; buf := buf x; isDone := isDone x;
     forceCandidateContact := forceCandidateContact x; onConnected := onConnected x;
     lastConnectionState := lastConnectionState x; checkingDuration := checkingDuration x;
     candidates := candidates x; pairs := pairs x; stateNotes := stateNotes x;
     pairNotes := pairNotes x; candidateNotes := candidateNotes x; env := env x |}.
Definition set_buf (v : Buffer) (x : Agent SM W) : Agent SM W :=
  {| cfg := cfg x; connectionState := connectionState x; gatheringState := gatheringState x;
     isControlling := isControlling x; startedCh := startedCh x; localUfrag := localUfrag x;
     localPwd := localPwd x; remoteUfrag := remoteUfrag x; remotePwd := remotePwd x;
     localCandidates := localCandidates x; remoteCandidates := remoteCandidates x;
     checklist := checklist x; selector := selector x; selectedPair := selectedPair x;
     pendingBindingRequests := pendingBindingRequests x; buf := v; isDone := isDone x;
     forceCandidateContact := forceCandidateContact x; onConnected := onConnected x;
     lastConnectionState := lastConnectionState x; checkingDuration := checkingDuration x;
     candidates := candidates x; pairs := pairs x; stateNotes := stateNotes x;
     pairNotes := pairNotes x; candidateNotes := candidateNotes x; env := env x |}.
Definition set_isDone (v : bool) (x : Agent SM W) : Agent SM W :=
  {| cfg := cfg x; connectionState := connectionState x; gatheringState := gatheringState x;
     isControlling := isControlling x; startedCh := startedCh x; localUfrag := localUfrag x;
     localPwd := localPwd x; remoteUfrag := remoteUfrag x; remotePwd := remotePwd x;
     localCandidates := localCandidates x; remoteCandidates := remoteCandidates x;
     checklist := checklist x; selector := selector x; selectedPair := selectedPair x;
     pendingBindingRequests := pendingBindingRequests x; buf := buf x; isDone := v;
     forceCandidateContact := forceCandidateContact x; onConnected := onConnected x;
     lastConnectionState := lastConnectionState x; checkingDuration := checkingDuration x;
     candidates := candidates x; pairs := pairs x; stateNotes := stateNotes x;
     pairNotes := pairNotes x; candidateNotes := candidateNotes x; env := env x |}.
Definition set_forceCandidateContact (v : bool) (x : Agent SM W) : Agent SM W :=
  {| cfg := cfg x; connectionState := connectionState x; gatheringState := gatheringState x;
     isControlling := isControlling x; startedCh := startedCh x; localUfrag := localUfrag x;
     localPwd := localPwd x; remoteUfrag := remoteUfrag x; remotePwd := remotePwd x;
     localCandidates := localCandidates x; remoteCandidates := remoteCandidates x;
     checklist := checklist x; selector := selector x; selectedPair := selectedPair x;
     pendingBindingRequests := pendingBindingRequests x; buf := buf x; isDone := isDone x;
     forceCandidateContact := v; onConnected := onConnected x;
     lastConnectionState := lastConnectionState x; checkingDuration := checkingDuration x;
     candidates := candidates x; pairs := pairs x; stateNotes := stateNotes x;
     pairNotes := pairNotes x; candidateNotes := candidateNotes x; env := env x |}.
Definition set_onConnected (v : bool) (x : Agent SM W) : Agent SM W :=
  {| cfg := cfg x; connectionState := connectionState x; gatheringState := gatheringState x;
     isControlling := isControlling x; startedCh := startedCh x; localUfrag := localUfrag x;
     localPwd := localPwd x; remoteUfrag := remoteUfrag x; remotePwd := remotePwd x;
     localCandidates := localCandidates x; remoteCandidates := remoteCandidates x;
     checklist := checklist x; selector := selector x; selectedPair := selectedPair x;
     pendingBindingRequests := pendingBindingRequests x; buf := buf x; isDone := isDone x;
     forceCandidateContact := forceCandidateContact x; onConnected := v;
     lastConnectionState := lastConnectionState x; checkingDuration := checkingDuration x;
     candidates := candidates x; pairs := pairs x; stateNotes := stateNotes x;
     pairNotes := pairNotes x; candidateNotes := candidateNotes x; env := env x |}.
Definition set_candidates (v : list Candidate) (x : Agent SM W) : Agent SM W :=
  {| cfg := cfg x; connectionState := connectionState x; gatheringState := gatheringState x;
     isControlling := isControlling x; startedCh := startedCh x; localUfrag := localUfrag x;
     localPwd := localPwd x; remoteUfrag := remoteUfrag x; remotePwd := remotePwd x;
     localCandidates := localCandidates x; remoteCandidates := remoteCandidates x;
     checklist := checklist x; selector := selector x; selectedPair := selectedPair x;
     pendingBindingRequests := pendingBindingRequests x; buf := buf x; isDone := isDone x;
     forceCandidateContact := forceCandidateContact x; onConnected := onConnected x;
     lastConnectionState := lastConnectionState x; checkingDuration := checkingDuration x;
     candidates := v; pairs := pairs x; stateNotes := stateNotes x; pairNotes := pairNotes x;
     candidateNotes := candidateNotes x; env := env x |}.
Definition set_pairs (v : list CandidatePair) (x : Agent SM W) : Agent SM W :=
  {| cfg := cfg x; connectionState := connectionState x; gatheringState := gatheringState x;
     isControlling := isControlling x; startedCh := startedCh x; localUfrag := localUfrag x;
     localPwd := localPwd x; remoteUfrag := remoteUfrag x; remotePwd := remotePwd x;
     localCandidates := localCandidates x; remoteCandidates := remoteCandidates x;
     checklist := checklist x; selector := selector x; selectedPair := selectedPair x;
     pendingBindingRequests := pendingBindingRequests x; buf := buf x; isDone := isDone x;
     forceCandidateContact := forceCandidateContact x; onConnected := onConnected x;
     lastConnectionState := lastConnectionState x; checkingDuration := checkingDuration x;
     candidates := candidates x; pairs := v; stateNotes := stateNotes x;
     pairNotes := pairNotes x; candidateNotes := candidateNotes x; env := env x |}.
Definition set_stateNotes (v : list ConnectionState) (x : Agent SM W) : Agent SM W :=
  {| cfg := cfg x; connectionState := connectionState x; gatheringState := gatheringState x;
     isControlling := isControlling x; startedCh := startedCh x; localUfrag := localUfrag x;
     localPwd := localPwd x; remoteUfrag := remoteUfrag x; remotePwd := remotePwd x;
     localCandidates := localCandidates x; remoteCandidates := remoteCandidates x;
     checklist := checklist x; selector := selector x; selectedPair := selectedPair x;
     pendingBindingRequests := pendingBindingRequests x; buf := buf x; isDone := isDone x;
     forceCandidateContact := forceCandidateContact x; onConnected := onConnected x;
     lastConnectionState := lastConnectionState x; checkingDuration := checkingDuration x;
     candidates := candidates x; pairs := pairs x; stateNotes := v; pairNotes := pairNotes x;
     candidateNotes := candidateNotes x; env := env x |}.
Definition set_pairNotes (v : list nat) (x : Agent SM W) : Agent SM W :=
  {| cfg := cfg x; connectionState := connectionState x; gatheringState := gatheringState x;
     isControlling := isControlling x; startedCh := startedCh x; localUfrag := localUfrag x;
     localPwd := localPwd x; remoteUfrag := remoteUfrag x; remotePwd := remotePwd x;
     localCandidates := localCandidates x; remoteCandidates := remoteCandidates x;
     checklist := checklist x; selector := selector x; selectedPair := selectedPair x;
     pendingBindingRequests := pendingBindingRequests x; buf := buf x; isDone := isDone x;
     forceCandidateContact := forceCandidateContact x; onConnected := onConnected x;
     lastConnectionState := lastConnectionState x; checkingDuration := checkingDuration x;
     candidates := candidates x; pairs := pairs x; stateNotes := stateNotes x; pairNotes := v;
     candidateNotes := candidateNotes x; env := env x |}.
Definition set_candidateNotes (v : list (option nat)) (x : Agent SM W) : Agent SM W :=
  {| cfg := cfg x; connectionState := connectionState x; gatheringState := gatheringState x;
     isControlling := isControlling x; startedCh := startedCh x; localUfrag := localUfrag x;
     localPwd := localPwd x; remoteUfrag := remoteUfrag x; remotePwd := remotePwd x;
     localCandidates := localCandidates x; remoteCandidates := remoteCandidates x;
     checklist := checklist x; selector := selector x; selectedPair := selectedPair x;
     pendingBindingRequests := pendingBindingRequests x; buf := buf x; isDone := isDone x;
     forceCandidateContact := forceCandidateContact x; onConnected := onConnected x;
     lastConnectionState := lastConnectionState x; checkingDuration := checkingDuration x;
     candidates := candidates x; pairs := pairs x; stateNotes := stateNotes x;
     pairNotes := pairNotes x; candidateNotes := v; env := env x |}.
Definition set_env (v : W) (x : Agent SM W) : Agent SM W :=
  {| cfg := cfg x; connectionState := connectionState x; gatheringState := gatheringState x;
     isControlling := isControlling x; startedCh := startedCh x; localUfrag := localUfrag x;
     localPwd := localPwd x; remoteUfrag := remoteUfrag x; remotePwd := remotePwd x;
     localCandidates := localCandidates x; remoteCandidates := remoteCandidates x;
     checklist := checklist x; selector := selector x; selectedPair := selectedPair x;
     pendingBindingRequests := pendingBindingRequests x; buf := buf x; isDone := isDone x;
     forceCandidateContact := forceCandidateContact x; onConnected := onConnected x;
     lastConnectionState := lastConnectionState x; checkingDuration := checkingDuration x;
     candidates := candidates x; pairs := pairs x; stateNotes := stateNotes x;
     pairNotes := pairNotes x; candidateNotes := candidateNotes x; env := v |}.
Definition set_local_cred (ufrag pwd : string) (x : Agent SM W) : Agent SM W :=
  {| cfg := cfg x; connectionState := connectionState x; gatheringState := gatheringState x;
     isControlling := isControlling x; startedCh := startedCh x; localUfrag := ufrag;
     localPwd := pwd; remoteUfrag := remoteUfrag x; remotePwd := remotePwd x;
     localCandidates := localCandidates x; remoteCandidates := remoteCandidates x;
     checklist := checklist x; selector := selector x; selectedPair := selectedPair x;
     pendingBindingRequests := pendingBindingRequests x; buf := buf x; isDone := isDone x;
     forceCandidateContact := forceCandidateContact x; onConnected := onConnected x;
     lastConnectionState := lastConnectionState x; checkingDuration := checkingDuration x;
     candidates := candidates x; pairs := pairs x; stateNotes := stateNotes x;
     pairNotes := pairNotes x; candidateNotes := candidateNotes x; env := env x |}.
Definition set_remote_cred (ufrag pwd : string) (x : Agent SM W) : Agent SM W :=
  {| cfg := cfg x; connectionState := connectionState x; gatheringState := gatheringState x;
     isControlling := isControlling x; startedCh := startedCh x; localUfrag := localUfrag x;
     localPwd := localPwd x; remoteUfrag := ufrag; remotePwd := pwd;
     localCandidates := localCandidates x; remoteCandidates := remoteCandidates x;
     checklist := checklist x; selector := selector x; selectedPair := selectedPair x;
     pendingBindingRequests := pendingBindingRequests x; buf := buf x; isDone := isDone x;
     forceCandidateContact := forceCandidateContact x; onConnected := onConnected x;
     lastConnectionState := lastConnectionState x; checkingDuration := checkingDuration x;
     candidates := candidates x; pairs := pairs x; stateNotes := stateNotes x;
     pairNotes := pairNotes x; candidateNotes := candidateNotes x; env := env x |}.
Definition set_loop (last : ConnectionState) (since : option Z) (x : Agent SM W) : Agent SM W :=
  {| cfg := cfg x; connectionState := connectionState x; gatheringState := gatheringState x;
     isControlling := isControlling x; startedCh := startedCh x; localUfrag := localUfrag x;
     localPwd := localPwd x; remoteUfrag := remoteUfrag x; remotePwd := remotePwd x;
     localCandidates := localCandidates x; remoteCandidates := remoteCandidates x;
     checklist := checklist x; selector := selector x; selectedPair := selectedPair x;
     pendingBindingRequests := pendingBindingRequests x; buf := buf x; isDone := isDone x;
     forceCandidateContact := forceCandidateContact x; onConnected := onConnected x;
     lastConnectionState := last; checkingDuration := since; candidates := candidates x;
     pairs := pairs x; stateNotes := stateNotes x; pairNotes := pairNotes x;
     candidateNotes := candidateNotes x; env := env x |}.

Implicit Types a : Agent SM W.

(** ** Following references *)

Definition cand a (i : nat) : Candidate := candidates a !!! i.
Definition pair a (p : nat) : CandidatePair := pairs a !!! p.
Definition upd_cand (i : nat) (f : Candidate -> Candidate) a : Agent SM W :=
  set_candidates (alter f i (candidates a)) a.
Definition upd_pair (p : nat) (f : CandidatePair -> CandidatePair) a : Agent SM W :=
  set_pairs (alter f p (pairs a)) a.

(** A candidate created by the task that runs. *)
Definition alloc_cand (c : Candidate) a : nat * Agent SM W :=
  (length (candidates a), set_candidates (candidates a ++ [c]) a).

(** [time.Since]; a time that was never set is in the distant past. *)
Definition since a (t : option Z) : Z :=
  match t with Some t => timeNow (env a) - t | None => maxDuration end.

(** * Candidates of a running agent: candidate_base.go *)

(** [seen]. *)
Definition seen (outbound : bool) (i : nat) a : Agent SM W :=
  let now := Some (timeNow (env a)) in
  upd_cand i (if outbound then set_lastSent now else set_lastReceived now) a.

(** [start]; a candidate that has a connection stays as it is. *)
Definition start (i : nat) a : Agent SM W :=
  if started (cand a i) then a else upd_cand i (set_started true) a.

(** [candidateBase.close], and what [CandidateRelay.close] adds to it. *)
Definition closeBase (i : nat) a : Agent SM W :=
  if negb (started (cand a i)) then a
  else if closing (cand a i) then a
  else set_env (conn_Close i (env a)) (upd_cand i (set_closing true) a).

Definition close (i : nat) a : Agent SM W :=
  let a := closeBase i a in
  if decide (candidateType (cand a i) = CandidateTypeRelay) then
    if onClose (cand a i) then
      set_env (relay_onClose i (env a)) (upd_cand i (set_onClose false) a)
    else a
  else a.

(** [writeTo]: only a closed pipe is reported to the caller. *)
Definition writeTo (local : nat) (raw : bytes) (dst : nat) a : Z * option ice_error * Agent SM W :=
  let '(n, err, w) := conn_WriteTo local raw (resolvedAddr (cand a dst)) (env a) in
  let a := set_env w a in
  match err with
  | Some WriteClosedPipe => (n, Some io_ErrClosedPipe, a)
  | Some WriteOther => (n, None, a)
  | None => (n, None, seen true local a)
  end.

(** * Candidate pairs: candidatepair.go *)

Definition priority_of (g d : Z) : Z :=
  let min := if g <? d then g else d in
  let max := if d <? g then g else d in
  let cmp := if d <? g then 1 else 0 in
  u64 (u64 ((Z.shiftl 1 32 - 1) * min) + u64 (2 * max) + cmp).

Definition priority a (p : CandidatePair) : Z :=
  let off := tcpPriorityOffset (cfg a) in
  let l := Priority off (cand a (Local p)) in
  let r := Priority off (cand a (Remote p)) in
  if iceRoleControlling p then priority_of l r else priority_of r l.

(** [equal] of two pairs that are not nil. *)
Definition pair_equal a (p other : CandidatePair) : bool :=
  Candidate_Equal (cand a (Local p)) (cand a (Local other)) &&
  Candidate_Equal (cand a (Remote p)) (cand a (Remote other)).

(** [sendSTUN]; a failed write is only logged.  The text of the log names the addresses of both
    candidates, which every candidate that is added to an agent has. *)
Definition sendSTUN (msg : Message) (local remote : nat) a : Agent SM W :=
  let '(_, _, a) := writeTo local (ice_Raw msg) remote a in a.

(** * The state of the connection *)

Definition requestConnectivityCheck a : Agent SM W := set_forceCandidateContact true a.

Definition removeUfragFromMux a : Agent SM W := set_env (mux_Remove (localUfrag a) (env a)) a.

Definition deleteAllCandidates a : Agent SM W :=
  let all m := (map_to_list (m a : gmap NetworkType (list nat))) ≫= snd in
  let a := foldl (fun a i => close i a) a (all localCandidates) in
  let a := set_localCandidates ∅ a in
  let a := foldl (fun a i => close i a) a (all remoteCandidates) in
  set_remoteCandidates ∅ a.

Definition updateConnectionState (newState : ConnectionState) a : Agent SM W :=
  if decide (connectionState a = newState) then a
  else
    let a :=
      if decide (newState = ConnectionStateFailed) then
        let a := removeUfragFromMux a in
        let a := set_checklist [] a in
        let a := set_pendingBindingRequests [] a in
        let a := set_selectedPair None a in
        deleteAllCandidates a
      else a in
    let a := set_connectionState newState a in
    set_stateNotes (stateNotes a ++ [newState]) a.

Definition setSelectedPair (p : option nat) a : Agent SM W :=
  match p with
  | None => set_selectedPair None a
  | Some p =>
      let a := upd_pair p (set_nominated true) a in
      let a := set_selectedPair (Some p) a in
      let a := updateConnectionState ConnectionStateConnected a in
      let a := set_pairNotes (pairNotes a ++ [p]) a in
      set_onConnected true a
  end.

(** * The checklist *)

Definition addPair (local remote : nat) a : nat * Agent SM W :=
  let p := length (pairs a) in
  let a := set_pairs (pairs a ++ [newCandidatePair local remote (isControlling a)]) a in
  (p, set_checklist (checklist a ++ [p]) a).

Definition findPair (local remote : nat) a : option nat :=
  list_find (fun p => Candidate_Equal (cand a (Local (pair a p))) (cand a local) &&
                      Candidate_Equal (cand a (Remote (pair a p))) (cand a remote)) (checklist a)
  ≫= fun ip => Some (snd ip).

(** The loop both searches for the best pair share: the pairs that are not
    skipped, the first one of the highest priority. *)
Definition best_of (keep : CandidatePairState -> bool) a : option nat :=
  foldl (fun best p =>
    if keep (state (pair a p)) then
      match best with
      | None => Some p
      | Some b => if priority a (pair a b) <? priority a (pair a p) then Some p else best
      end
    else best) None (checklist a).

Definition getBestAvailableCandidatePair a : option nat :=
  best_of (fun s => negb (bool_decide (s = CandidatePairStateFailed))) a.

Definition getBestValidCandidatePair a : option nat :=
  best_of (fun s => bool_decide (s = CandidatePairStateSucceeded)) a.

(** * Binding requests *)

Definition invalidatePendingBindingRequests (filterTime : Z) a : Agent SM W :=
  set_pendingBindingRequests
    (filter (fun r => filterTime - timestamp r < maxBindingRequestTimeout) (pendingBindingRequests a)) a.

Definition sendBindingRequest (m : Message) (local remote : nat) a : Agent SM W :=
  let a := invalidatePendingBindingRequests (timeNow (env a)) a in
  let r := {| timestamp := timeNow (env a); transactionID := ice_TransactionID m;
              destination := resolvedAddr (cand a remote);
              isUseCandidate := Contains m AttrUseCandidate |} in
  let a := set_pendingBindingRequests (pendingBindingRequests a ++ [r]) a in
  sendSTUN m local remote a.

Definition sendBindingSuccess (m : Message) (local remote : nat) a : Agent SM W :=
  match resolvedAddr (cand a remote) ≫= parseAddr with
  | None => a
  | Some (ip, port, _) =>
      let '(out, w) := stun_Build [SetTransactionID (ice_TransactionID m);
                         SetType MethodBinding ClassSuccessResponse; SetXORMappedAddress ip port;
                         SetShortTermIntegrity (localPwd a); SetFingerprint] (env a) in
      let a := set_env w a in
      match out with
      | Err _ => a
      | Ok out => sendSTUN out local remote a
      end
  end.

(** [handleInboundBindingSuccess]: the request the response answers, taken
    off the list. *)
Definition handleInboundBindingSuccess (tid : bytes) a : option bindingRequest * Agent SM W :=
  let a := invalidatePendingBindingRequests (timeNow (env a)) a in
  match list_find (fun r => transactionID r = tid) (pendingBindingRequests a) with
  | Some (i, r) =>
      (Some r, set_pendingBindingRequests
                 (take i (pendingBindingRequests a) ++ drop (S i) (pendingBindingRequests a)) a)
  | None => (None, a)
  end.

(** The setters of a check, with the role attribute of the selector. *)
Definition check_setters (use : bool) (local : nat) (s : pairCandidateSelector) a : list Setter :=
  [SetType MethodBinding ClassRequest; SetNewTransactionID;
   SetUsername (remoteUfrag a +:+ ":" +:+ localUfrag a)] ++
  (if use then [SetUseCandidate] else []) ++
  [match s with
   | controllingSelector _ _ => SetICEControlling (tieBreaker (cfg a))
   | controlledSelector => SetICEControlled (tieBreaker (cfg a))
   end;
   SetPriority (Priority (tcpPriorityOffset (cfg a)) (cand a local));
   SetShortTermIntegrity (remotePwd a); SetFingerprint].

Definition buildAndSendRequest (setters : list Setter) (local remote : nat) a : Agent SM W :=
  let '(msg, w) := stun_Build setters (env a) in
  let a := set_env w a in
  match msg with
  | Err _ => a
  | Ok msg => sendBindingRequest msg local remote a
  end.

(** [PingCandidate] of either selector. *)
Definition PingCandidate (local remote : nat) a : Agent SM W :=
  match selector a with
  | None => a
  | Some s => buildAndSendRequest (check_setters false local (inner s) a) local remote a
  end.

(** [nominatePair]; only the controlling selector has it. *)
Definition nominatePair (p : nat) (s : pairCandidateSelector) a : Agent SM W :=
  let local := Local (pair a p) in
  buildAndSendRequest (check_setters true local s a) local (Remote (pair a p)) a.

Definition pingPair (p : nat) a : Agent SM W :=
  let st := state (pair a p) in
  if decide (st = CandidatePairStateWaiting \/ st = CandidatePairStateInProgress) then
    let a := upd_pair p (set_state CandidatePairStateInProgress) a in
    if maxBindingRequests (cfg a) <? bindingRequestCount (pair a p) then
      upd_pair p (set_state CandidatePairStateFailed) a
    else
      let a := PingCandidate (Local (pair a p)) (Remote (pair a p)) a in
      upd_pair p (fun x => set_count (u16 (bindingRequestCount x + 1)) x) a
  else a.

Definition pingAllCandidates a : Agent SM W := foldl (fun a p => pingPair p a) a (checklist a).

(** * Supervision *)

Definition validateSelectedPair a : bool * Agent SM W :=
  match selectedPair a with
  | None => (false, a)
  | Some p =>
      let disconnectedTime := since a (lastReceived (cand a (Remote (pair a p)))) in
      let disc := disconnectedTimeout (cfg a) in
      let total := if negb (failedTimeout (cfg a) =? 0) then i64 (failedTimeout (cfg a) + disc)
                   else failedTimeout (cfg a) in
      (true,
       if negb (total =? 0) && (total <? disconnectedTime)
       then updateConnectionState ConnectionStateFailed a
       else if negb (disc =? 0) && (disc <? disconnectedTime)
       then updateConnectionState ConnectionStateDisconnected a
       else updateConnectionState ConnectionStateConnected a)
  end.

Definition checkKeepalive a : Agent SM W :=
  match selectedPair a with
  | None => a
  | Some p =>
      let k := keepaliveInterval (cfg a) in
      if negb (k =? 0) &&
         ((k <? since a (lastSent (cand a (Local (pair a p))))) ||
          (k <? since a (lastReceived (cand a (Remote (pair a p))))))
      then PingCandidate (Local (pair a p)) (Remote (pair a p)) a
      else a
  end.

(** * Selectors: selection.go *)

Definition set_inner (s : pairCandidateSelector) a : Agent SM W :=
  set_selector ((fun x => {| liteSelector := liteSelector x; inner := s |}) <$> selector a) a.

(** [Start]. *)
Definition selector_Start a : Agent SM W :=
  match inner <$> selector a with
  | Some (controllingSelector _ _) => set_inner (controllingSelector (Some (timeNow (env a))) None) a
  | _ => a
  end.

Definition isNominatable (startTime : option Z) (c : nat) a : bool :=
  let elapsed := since a startTime in
  match candidateType (cand a c) with
  | CandidateTypeHost => hostAcceptanceMinWait (cfg a) <? elapsed
  | CandidateTypeServerReflexive => srflxAcceptanceMinWait (cfg a) <? elapsed
  | CandidateTypePeerReflexive => prflxAcceptanceMinWait (cfg a) <? elapsed
  | CandidateTypeRelay => relayAcceptanceMinWait (cfg a) <? elapsed
  | CandidateTypeUnspecified => false
  end.

Definition pairNominatable (startTime : option Z) (p : nat) a : bool :=
  isNominatable startTime (Local (pair a p)) a && isNominatable startTime (Remote (pair a p)) a.

Definition validateAndKeepAlive a : Agent SM W :=
  let '(ok, a) := validateSelectedPair a in
  if ok then checkKeepalive a else a.

Definition controlling_ContactCandidates (startTime : option Z) (nominatedPair : option nat) a : Agent SM W :=
  match selectedPair a, nominatedPair with
  | Some _, _ => validateAndKeepAlive a
  | None, Some p => nominatePair p (controllingSelector startTime nominatedPair) a
  | None, None =>
      match getBestValidCandidatePair a with
      | Some p =>
          if pairNominatable startTime p a then
            let a := upd_pair p (set_nominated true) a in
            let s := controllingSelector startTime (Some p) in
            nominatePair p s (set_inner s a)
          else pingAllCandidates a
      | None => pingAllCandidates a
      end
  end.

Definition controlled_ContactCandidates a : Agent SM W :=
  match selectedPair a with
  | Some _ => validateAndKeepAlive a
  | None => pingAllCandidates a
  end.

(** [ContactCandidates]; a lite agent that is controlled only watches its
    selected pair. *)
Definition ContactCandidates a : Agent SM W :=
  match selector a with
  | None => a
  | Some s =>
      match inner s with
      | controllingSelector t n => controlling_ContactCandidates t n a
      | controlledSelector =>
          if liteSelector s then snd (validateSelectedPair a) else controlled_ContactCandidates a
      end
  end.

(** The end of both handlers of requests. *)
Definition callUserHandler (m : Message) (local remote p : nat) a : Agent SM W :=
  match userBindingRequestHandler (cfg a) with
  | None => a
  | Some h =>
      if h m (cand a local) (cand a remote) (pair a p) then setSelectedPair (Some p) a else a
  end.

Definition controlling_HandleBindingRequest (startTime : option Z) (nominatedPair : option nat)
  (m : Message) (local remote : nat) a : Agent SM W :=
  let a := sendBindingSuccess m local remote a in
  match findPair local remote a with
  | None => snd (addPair local remote a)
  | Some p =>
      let a :=
        if decide (state (pair a p) = CandidatePairStateSucceeded /\ nominatedPair = None
                   /\ selectedPair a = None) then
          match getBestAvailableCandidatePair a with
          | None => a
          | Some best =>
              if pair_equal a (pair a best) (pair a p) && pairNominatable startTime p a then
                let s := controllingSelector startTime (Some p) in
                nominatePair p s (set_inner s a)
              else a
          end
        else a in
      callUserHandler m local remote p a
  end.

(** The check both handlers of responses begin with: the pair that was
    checked and the request that was answered. *)
Definition acceptResponse (m : Message) (local remote : nat) (remoteAddr : net_Addr) a
  : option (nat * bindingRequest) * Agent SM W :=
  match handleInboundBindingSuccess (ice_TransactionID m) a with
  | (None, a) => (None, a)
  | (Some r, a) =>
      if match destination r with Some d => addrEqual d remoteAddr | None => false end then
        match findPair local remote a with
        | None => (None, a)
        | Some p => (Some (p, r), upd_pair p (set_state CandidatePairStateSucceeded) a)
        end
      else (None, a)
  end.

Definition controlling_HandleSuccessResponse (m : Message) (local remote : nat) (remoteAddr : net_Addr) a
  : Agent SM W :=
  match acceptResponse m local remote remoteAddr a with
  | (None, a) => a
  | (Some (p, r), a) =>
      if isUseCandidate r && bool_decide (selectedPair a = None)
      then setSelectedPair (Some p) a else a
  end.

(** Whether the controlled agent moves to the pair that is nominated. *)
Definition selectNominated (p : nat) a : Agent SM W :=
  match selectedPair a with
  | None => setSelectedPair (Some p) a
  | Some q =>
      if negb (q =? p)%nat && (priority a (pair a q) <=? priority a (pair a p))
      then setSelectedPair (Some p) a else a
  end.

Definition controlled_HandleSuccessResponse (m : Message) (local remote : nat) (remoteAddr : net_Addr) a
  : Agent SM W :=
  match acceptResponse m local remote remoteAddr a with
  | (None, a) => a
  | (Some (p, r), a) =>
      if nominateOnBindingSuccess (pair a p) then selectNominated p a else a
  end.

Definition controlled_HandleBindingRequest (m : Message) (local remote : nat) a : Agent SM W :=
  let '(p, a) := match findPair local remote a with
                 | Some p => (p, a)
                 | None => addPair local remote a
                 end in
  let a :=
    if Contains m AttrUseCandidate then
      if decide (state (pair a p) = CandidatePairStateSucceeded) then selectNominated p a
      else upd_pair p (set_nominateOnBindingSuccess true) a
    else a in
  let a := sendBindingSuccess m local remote a in
  let a := PingCandidate local remote a in
  callUserHandler m local remote p a.

Definition HandleSuccessResponse (m : Message) (local remote : nat) (remoteAddr : net_Addr) a : Agent SM W :=
  match inner <$> selector a with
  | Some (controllingSelector _ _) => controlling_HandleSuccessResponse m local remote remoteAddr a
  | Some controlledSelector => controlled_HandleSuccessResponse m local remote remoteAddr a
  | None => a
  end.

Definition HandleBindingRequest (m : Message) (local remote : nat) a : Agent SM W :=
  match inner <$> selector a with
  | Some (controllingSelector t n) => controlling_HandleBindingRequest t n m local remote a
  | Some controlledSelector => controlled_HandleBindingRequest m local remote a
  | None => a
  end.

(** * Candidates come and go *)

Definition candidates_of (m : gmap NetworkType (list nat)) (t : NetworkType) : list nat :=
  default [] (m !! t).

(** [addPair] for every candidate of a list, in either position. *)
Definition addPairs (mk : nat -> nat * nat) (l : list nat) a : Agent SM W :=
  foldl (fun a i => snd (addPair (fst (mk i)) (snd (mk i)) a)) a l.

(** One local address of [addRemotePassiveTCPCandidate]. *)
Definition addActiveCandidate (remote : nat) (ip : list Z) (port : option Z) a : Agent SM W :=
  match port with
  | None => a
  | Some port =>
      let '(newID, w) := newCandidateID (env a) in
      let a := set_env w a in
      match NewCandidateHost newID
              {| hNetwork := NetworkType_String (networkType (cand a remote));
                 hAddress := NetIP.ipString ip; hPort := port; hComponent := ComponentRTP;
                 hPriority := 0; hFoundation := ""; hTCPType := TCPTypeActive |} with
      | Err _ => a
      | Ok c =>
          let '(i, a) := alloc_cand c a in
          let a := start i a in
          let t := networkType c in
          let a := set_localCandidates
                     (<[t := candidates_of (localCandidates a) t ++ [i]]> (localCandidates a)) a in
          let a := set_candidateNotes (candidateNotes a ++ [Some i]) a in
          snd (addPair i remote a)
      end
  end.

Definition addRemotePassiveTCPCandidate (remote : nat) a : Agent SM W :=
  let c := cand a remote in
  let '(locals, w) := activeTCP (networkType c) (address c) (port c) (env a) in
  foldl (fun a l => addActiveCandidate remote (fst l) (snd l) a) (set_env w a) locals.

Definition addRemoteCandidate (c : nat) a : Agent SM W :=
  let t := networkType (cand a c) in
  if existsb (fun i => Candidate_Equal (cand a i) (cand a c)) (candidates_of (remoteCandidates a) t) then a
  else
    let set := candidates_of (remoteCandidates a) t in
    let passive := bool_decide (tcpType (cand a c) = TCPTypePassive) in
    let a := if negb (disableActiveTCP (cfg a)) && existsb IsTCP (networkTypes (cfg a)) && passive
             then addRemotePassiveTCPCandidate c a else a in
    let a := set_remoteCandidates (<[t := set ++ [c]]> (remoteCandidates a)) a in
    let a := if passive then a
             else addPairs (fun l => (l, c)) (candidates_of (localCandidates a) t) a in
    requestConnectivityCheck a.

(** The task of [addCandidate]. *)
Definition addCandidate (c : nat) a : Agent SM W :=
  let t := networkType (cand a c) in
  if existsb (fun i => Candidate_Equal (cand a i) (cand a c)) (candidates_of (localCandidates a) t) then
    let a := close c a in set_env (conn_Close c (env a)) a
  else
    let a := start c a in
    let a := set_localCandidates
               (<[t := candidates_of (localCandidates a) t ++ [c]]> (localCandidates a)) a in
    let a := addPairs (fun r => (c, r)) (candidates_of (remoteCandidates a) t) a in
    let a := requestConnectivityCheck a in
    set_candidateNotes (candidateNotes a ++ [Some c]) a.

Definition findRemoteCandidate (t : NetworkType) (addr : net_Addr) a : option nat :=
  match parseAddr addr with
  | None => None
  | Some (ip, port, _) =>
      snd <$> list_find (fun i => String.eqb (address (cand a i)) (NetIP.ipString ip) &&
                                  (IceCandidate.port (cand a i) =? port))
                (candidates_of (remoteCandidates a) t)
  end.

(** * Incoming packets *)

(** [AssertUsername] of internal/stun. *)
Definition AssertUsername (m : Message) (expected : string) : bool :=
  match ice_Username m with Ok u => String.eqb u expected | Err _ => false end.

(** The messages a role excludes. *)
Definition roleConflict (m : Message) a : bool :=
  if isControlling a then Contains m AttrICEControlling || Contains m AttrUseCandidate
  else Contains m AttrICEControlled.

(** The candidate for a request from an address that is not known yet. *)
Definition newPeerReflexive (local : nat) (remote : net_Addr) a : option nat * Agent SM W :=
  match parseAddr remote with
  | None => (None, a)
  | Some (ip, port, t) =>
      let '(newID, w) := newCandidateID (env a) in
      let a := set_env w a in
      match NewCandidatePeerReflexive newID
              {| rNetwork := NetworkType_String t; rAddress := NetIP.ipString ip; rPort := port;
                 rComponent := component (cand a local); rPriority := 0; rFoundation := "";
                 rRelAddr := ""; rRelPort := 0 |} with
      | Err _ => (None, a)
      | Ok c =>
          let '(i, a) := alloc_cand c a in
          (Some i, addRemoteCandidate i a)
      end
  end.

Definition handleInbound (m : Message) (local : nat) (remote : net_Addr) a : Agent SM W :=
  let class := ice_Class m in
  if negb (bool_decide (ice_Method m = MethodBinding)) ||
     negb (bool_decide (class = ClassSuccessResponse) || bool_decide (class = ClassRequest)
           || bool_decide (class = ClassIndication))
  then a
  else if roleConflict m a then a
  else
    let remoteCandidate := findRemoteCandidate (networkType (cand a local)) remote a in
    match class with
    | ClassSuccessResponse =>
        match ice_Integrity (remotePwd a) m with
        | Some _ => a
        | None =>
            match remoteCandidate with
            | None => a
            | Some r => seen false r (HandleSuccessResponse m local r remote a)
            end
        end
    | ClassRequest =>
        if negb (AssertUsername m (localUfrag a +:+ ":" +:+ remoteUfrag a)) then a
        else
          match ice_Integrity (localPwd a) m with
          | Some _ => a
          | None =>
              let '(found, a) := match remoteCandidate with
                                 | Some r => (Some r, a)
                                 | None => newPeerReflexive local remote a
                                 end in
              match found with
              | None => a
              | Some r => seen false r (HandleBindingRequest m local r a)
              end
          end
    | _ =>
        match remoteCandidate with
        | Some r => seen false r a
        | None => a
        end
    end.

(** [Agent.run]: a task is refused once the agent is closed. *)
Definition run (task : Agent SM W -> Agent SM W) a : option ice_error * Agent SM W :=
  if isDone a then (Some ErrClosed, a) else (None, task a).

(** [validateNonSTUNTraffic]. *)
Definition validateNonSTUNTraffic (local : nat) (remote : net_Addr) a : option nat * Agent SM W :=
  if isDone a then (None, a)
  else
    match findRemoteCandidate (networkType (cand a local)) remote a with
    | None => (None, a)
    | Some r => (Some r, seen false r a)
    end.

(** [validateSTUNTrafficCache]. *)
Definition validateSTUNTrafficCache (local : nat) (addr : net_Addr) a : bool * Agent SM W :=
  match remoteCandidateCaches (cand a local) !! toAddrPort addr with
  | Some r => (true, seen false r a)
  | None => (false, a)
  end.

(** [addRemoteCandidateCache]. *)
Definition addRemoteCandidateCache (local r : nat) (srcAddr : net_Addr) a : Agent SM W :=
  let '(known, a) := validateSTUNTrafficCache local srcAddr a in
  if known then a
  else upd_cand local (fun c => set_caches (<[toAddrPort srcAddr := r]> (remoteCandidateCaches c)) c) a.

(** [a.buf.Write], built without the tag packetioSizeHardLimit; an error is
    logged only. *)
Definition deliver (p : bytes) a : Agent SM W :=
  match PacketBuffer.Write false p (buf a) with
  | Some (b, _) => set_buf b a
  | None => a
  end.

Definition handleInboundPacket (local : nat) (p : bytes) (srcAddr : net_Addr) a : Agent SM W :=
  if IsMessage p then
    match ice_Decode p with
    | Err _ => a
    | Ok m => snd (run (handleInbound m local srcAddr) a)
    end
  else
    let '(known, a) := validateSTUNTrafficCache local srcAddr a in
    if known then deliver p a
    else
      match validateNonSTUNTraffic local srcAddr a with
      | (None, a) => a
      | (Some r, a) => deliver p (addRemoteCandidateCache local r srcAddr a)
      end.

(** * Starting, restarting, closing *)

Definition SetRemoteCredentials (ufrag pwd : string) a : option ice_error * Agent SM W :=
  if String.eqb ufrag "" then (Some ErrRemoteUfragEmpty, a)
  else if String.eqb pwd "" then (Some ErrRemotePwdEmpty, a)
  else run (set_remote_cred ufrag pwd) a.

(** The task of [startConnectivityChecks]; the loop it starts begins with an
    unknown last state. *)
Definition startTask (controlling : bool) (ufrag pwd : string) a : Agent SM W :=
  let a := set_remote_cred ufrag pwd (set_isControlling controlling a) in
  let s := if controlling then controllingSelector None None else controlledSelector in
  let a := set_selector (Some {| liteSelector := lite (cfg a); inner := s |}) a in
  let a := selector_Start a in
  let a := set_startedCh true a in
  let a := updateConnectionState ConnectionStateChecking a in
  let a := requestConnectivityCheck a in
  set_loop ConnectionStateUnknown None a.

Definition startConnectivityChecks (controlling : bool) (ufrag pwd : string) a
  : option ice_error * Agent SM W :=
  if startedCh a then (Some ErrMultipleStart, a)
  else
    match SetRemoteCredentials ufrag pwd a with
    | (Some err, a) => (Some err, a)
    | (None, a) => run (startTask controlling ufrag pwd) a
    end.

(** The task [contact] of [connectivityChecks], with the deferred update of
    [lastConnectionState]. *)
Definition contactTask a : Agent SM W :=
  let a :=
    match connectionState a with
    | ConnectionStateFailed => a
    | ConnectionStateChecking =>
        let a := if decide (lastConnectionState a <> ConnectionStateChecking)
                 then set_loop (lastConnectionState a) (Some (timeNow (env a))) a else a in
        if i64 (disconnectedTimeout (cfg a) + failedTimeout (cfg a)) <? since a (checkingDuration a)
        then updateConnectionState ConnectionStateFailed a
        else ContactCandidates a
    | _ => ContactCandidates a
    end in
  set_loop (connectionState a) (checkingDuration a) a.

Definition contact a : Agent SM W := snd (run contactTask a).

(** The interval the loop waits before the next [contact]. *)
Definition checkLoopInterval a : Z :=
  let updateInterval x interval :=
    if negb (x =? 0) && ((interval =? 0) || (x <? interval)) then x else interval in
  let interval := defaultKeepaliveInterval in
  let interval :=
    match lastConnectionState a with
    | ConnectionStateNew | ConnectionStateChecking => updateInterval (checkInterval (cfg a)) interval
    | ConnectionStateConnected | ConnectionStateDisconnected =>
        updateInterval (keepaliveInterval (cfg a)) interval
    | _ => interval
    end in
  let interval := updateInterval (disconnectedTimeout (cfg a)) interval in
  updateInterval (failedTimeout (cfg a)) interval.

(** The task of [Restart]. *)
Definition restartTask (ufrag pwd : string) a : Agent SM W :=
  let a := if decide (gatheringState a = GatheringStateGathering)
           then set_env (cancelGathering (env a)) a else a in
  let a := removeUfragFromMux a in
  let a := set_local_cred ufrag pwd a in
  let a := set_remote_cred "" "" a in
  let a := set_gatheringState GatheringStateNew a in
  let a := set_checklist [] a in
  let a := set_pendingBindingRequests [] a in
  let a := setSelectedPair None a in
  let a := deleteAllCandidates a in
  let a := selector_Start a in
  if decide (connectionState a <> ConnectionStateNew)
  then updateConnectionState ConnectionStateChecking a else a.

(** A credential that was not given is generated. *)
Definition orGenerate (s : string) (gen : W -> option string * W) a : option string * Agent SM W :=
  if String.eqb s "" then let '(r, w) := gen (env a) in (r, set_env w a) else (Some s, a).

Definition runeBits (s : string) : Z := RuneCount s * 8.

Definition Restart (ufrag pwd : string) a : option ice_error * Agent SM W :=
  match orGenerate ufrag generateUFrag a with
  | (None, a) => (Some ErrRandom, a)
  | (Some ufrag, a) =>
      match orGenerate pwd generatePwd a with
      | (None, a) => (Some ErrRandom, a)
      | (Some pwd, a) =>
          if runeBits ufrag <? 24 then (Some ErrLocalUfragInsufficientBits, a)
          else if runeBits pwd <? 128 then (Some ErrLocalPwdInsufficientBits, a)
          else run (restartTask ufrag pwd) a
      end
  end.

(** [Close], with what the task loop does when it ends. *)
Definition Close a : option ice_error * Agent SM W :=
  if isDone a then (Some ErrClosed, a)
  else
    let a := removeUfragFromMux a in
    let a := set_isDone true a in
    let a := deleteAllCandidates a in
    let a := set_startedCh true a in
    let a := set_buf (PacketBuffer.Close (buf a)) a in
    let a := updateConnectionState ConnectionStateClosed a in
    (None, set_env (cancelGathering (env a)) a).

(** [setGatheringState]. *)
Definition setGatheringState (newState : GatheringState) a : option ice_error * Agent SM W :=
  run (fun a =>
    let a := if decide (gatheringState a <> newState /\ newState = GatheringStateComplete)
             then set_candidateNotes (candidateNotes a ++ [None]) a else a in
    set_gatheringState newState a) a.

(** [AddRemoteCandidate], for a candidate that is not nil, together with the
    goroutine it starts. *)
Definition AddRemoteCandidate (c : Candidate) a : option ice_error * Agent SM W :=
  let add c a := let '(i, a) := alloc_cand c a in snd (run (addRemoteCandidate i) a) in
  if decide (tcpType c = TCPTypeActive) then (None, a)
  else if decide (candidateType c = CandidateTypeHost /\ HasSuffix (address c) ".local" = true) then
    if decide (mDNSMode (cfg a) = MulticastDNSModeDisabled) then (None, a)
    else
      let '(answer, w) := mdns_Query (address c) (env a) in
      let a := set_env w a in
      (None,
       match answer with
       | None => a
       | Some ip => match setIP ip c with Err _ => a | Ok c => add c a end
       end)
  else (None, add c a).

(** * The connection: transport.go *)

Record Conn := { bytesReceived : Z; bytesSent : Z }.

Definition Conn_Write (p : bytes) (c : Conn) a : Z * option ice_error * Conn * Agent SM W :=
  if isDone a then (0, Some ErrClosed, c, a)
  else if IsMessage p then (0, Some errWriteSTUNMessageToIceConn, c, a)
  else
    match match selectedPair a with Some q => Some q | None => getBestValidCandidatePair a end with
    | None => (0, None, c, a)
    | Some q =>
        let c := {| bytesReceived := bytesReceived c; bytesSent := u64 (bytesSent c + blen p) |} in
        let '(n, err, a) := writeTo (Local (pair a q)) p (Remote (pair a q)) a in
        (n, err, c, a)
    end.

(** What one turn of [Conn.Read] comes to, for a slice of [plen] bytes. *)
Definition Conn_Read (plen : nat) (c : Conn) a : option ice_error * read_outcome * Conn * Agent SM W :=
  if isDone a then (Some ErrClosed, ReadEOF, c, a)
  else
    let '(b, out) := PacketBuffer.Read plen (buf a) in
    let n := match out with ReadPacket copied _ => blen copied | _ => 0 end in
    (None, out, {| bytesReceived := u64 (bytesReceived c + n); bytesSent := bytesSent c |}, set_buf b a).

(** * A new agent *)

(** The agent as [NewAgent] allocates it, before it calls [Restart]. *)
Definition allocAgent (settings : Settings SM) (w : W) : Agent SM W :=
  {| cfg := settings; connectionState := ConnectionStateNew; gatheringState := GatheringStateNew;
     isControlling := false; startedCh := false; localUfrag := ""; localPwd := ""; remoteUfrag := "";
     remotePwd := ""; localCandidates := ∅; remoteCandidates := ∅; checklist := []; selector := None;
     selectedPair := None; pendingBindingRequests := [];
     buf := PacketBuffer.SetLimitSize maxBufferSize PacketBuffer.NewBuffer; isDone := false;
     forceCandidateContact := false; onConnected := false;
     lastConnectionState := ConnectionStateUnknown; checkingDuration := None; candidates := [];
     pairs := []; stateNotes := []; pairNotes := []; candidateNotes := []; env := w |}.

(** [NewAgent] for settings that have been validated. *)
Definition NewAgent (settings : Settings SM) (ufrag pwd : string) (w : W) : result ice_error (Agent SM W) :=
  match Restart ufrag pwd (allocAgent settings w) with
  | (Some err, _) => Err err
  | (None, a) => Ok a
  end.

(** * Every call an agent serves *)

Inductive iop :=
| OpPacket (local : nat) (p : bytes) (src : net_Addr)
| OpAddRemote (c : Candidate)
| OpAddLocal (c : Candidate)
| OpContact
| OpStart (controlling : bool) (ufrag pwd : string)
| OpRestart (ufrag pwd : string)
| OpSetRemoteCredentials (ufrag pwd : string)
| OpSetGatheringState (s : GatheringState)
| OpWrite (p : bytes) (c : Conn)
| OpRead (plen : nat) (c : Conn)
| OpClose.

Definition run_iop (o : iop) a : Agent SM W :=
  match o with
  | OpPacket local p src => handleInboundPacket local p src a
  | OpAddRemote c => snd (AddRemoteCandidate c a)
  | OpAddLocal c => let '(i, a) := alloc_cand c a in snd (run (addCandidate i) a)
  | OpContact => contact a
  | OpStart controlling ufrag pwd => snd (startConnectivityChecks controlling ufrag pwd a)
  | OpRestart ufrag pwd => snd (Restart ufrag pwd a)
  | OpSetRemoteCredentials ufrag pwd => snd (SetRemoteCredentials ufrag pwd a)
  | OpSetGatheringState s => snd (setGatheringState s a)
  | OpWrite p c => snd (Conn_Write p c a)
  | OpRead plen c => snd (Conn_Read plen c a)
  | OpClose => snd (Close a)
  end.

(** A candidate that has not been given to an agent. *)
Definition fresh_candidate (c : Candidate) : Prop :=
  started c = false /\ closing c = false /\ remoteCandidateCaches c = ∅.

(** When a call can happen: packets are read by the loops of local
    candidates, which run once the agent has started; candidates are given to
    one agent only. *)
Definition allowed (o : iop) a : Prop :=
  match o with
  | OpPacket local _ _ =>
      startedCh a = true /\ local ∈ candidates_of (localCandidates a) (networkType (cand a local))
  | OpAddRemote c | OpAddLocal c => fresh_candidate c
  | OpContact => startedCh a = true
  | _ => True
  end.

Inductive istep : Agent SM W -> Agent SM W -> Prop :=
| step_iop o a : allowed o a -> istep a (run_iop o a)
| step_env w a : istep a (set_env w a).

End Agents.
