(* ===== verification/IceInvariant.v ===== *)
(** The invariant of the ICE agent ([IceAgent]): references lead somewhere,
    the checklist is made of known candidates, the selected pair has passed a
    check, and the connection state says whether there is one.  It holds
    under every sequence of calls, packets and timer ticks. *)

From S2P Require Import Prelude GoNet GoText Stun IceAttr IceCandidate PacketBuffer IceAgent.

#[local] Open Scope list_scope.
#[local] Open Scope Z_scope.

(** * Frames *)

(** What identifies a candidate for [Equal]. *)
Definition key (c : Candidate) :=
  (networkType c, candidateType c, address c, port c, tcpType c, relatedAddress c).

Lemma Equal_key c d : Candidate_Equal c d = true <-> key c = key d.
Proof.
  rewrite Candidate_Equal_spec. unfold key. split.
  - intros (-> & -> & -> & -> & -> & ->). done.
  - intros H. by simplify_eq.
Qed.

(** The fields of a candidate that no method changes once it has been
    started. *)
Definition fixed (c : Candidate) :=
  (key c, (id c, component c, resolvedAddr c, started c),
   (foundationOverride c, priorityOverride c, network c, relayProtocol c)).

Lemma fixed_key c d : fixed c = fixed d -> key c = key d.
Proof. unfold fixed. intros H. congruence. Qed.

Lemma fixed_Priority off c d : fixed c = fixed d -> Priority off c = Priority off d.
Proof.
  unfold fixed, key. intros H. simplify_eq. unfold Priority, TypePreference, LocalPreference, directionPref.
  by repeat match goal with H : _ c = _ d |- _ => rewrite H; clear H end.
Qed.

Lemma fixed_lookup (l l' : list Candidate) i :
  fixed <$> l' = fixed <$> l -> fixed (l' !!! i) = fixed (l !!! i).
Proof.
  intros H. apply (f_equal (.!! i)) in H. rewrite !list_lookup_fmap in H. rewrite !list_lookup_total_alt.
  destruct (l' !! i), (l !! i); [|discriminate H..|done]. apply (inj Some) in H. exact H.
Qed.

Section Invariant.
Context {SM : StunMessage} {SI : IceStun SM} {W : Type} {E : IceEnv SM W}.
Implicit Types a : Agent SM W.

(** [quiet a a']: the tasks that only send, receive and wait.  Pairs,
    checklist, maps and states are as before, candidates differ in their
    clocks, flags and caches. *)
Record quiet a a' : Prop := {
  q_cfg : cfg a' = cfg a;
  q_state : connectionState a' = connectionState a;
  q_controlling : isControlling a' = isControlling a;
  q_started : startedCh a' = startedCh a;
  q_done : isDone a' = isDone a;
  q_checklist : checklist a' = checklist a;
  q_selector : selector a' = selector a;
  q_selected : selectedPair a' = selectedPair a;
  q_pairs : pairs a' = pairs a;
  q_local : localCandidates a' = localCandidates a;
  q_remote : remoteCandidates a' = remoteCandidates a;
  q_candidates : fixed <$> candidates a' = fixed <$> candidates a;
  q_notes : stateNotes a' = stateNotes a;
}.

Lemma quiet_same a : quiet a a.
Proof. by split. Qed.

Lemma quiet_then a b c : quiet a b -> quiet b c -> quiet a c.
Proof. intros [] []. split; congruence. Qed.

Lemma quiet_length a a' : quiet a a' -> length (candidates a') = length (candidates a).
Proof. intros Q. pose proof (f_equal length (q_candidates _ _ Q)) as H. by rewrite !length_fmap in H. Qed.

Lemma quiet_cand a a' i : quiet a a' -> fixed (cand a' i) = fixed (cand a i).
Proof. intros Q. apply fixed_lookup, Q. Qed.

Lemma quiet_key a a' i : quiet a a' -> key (cand a' i) = key (cand a i).
Proof. intros. by apply fixed_key, quiet_cand. Qed.

Lemma quiet_pair a a' p : quiet a a' -> pair a' p = pair a p.
Proof. intros Q. unfold pair. by rewrite (q_pairs _ _ Q). Qed.

Lemma quiet_priority a a' p : quiet a a' -> priority a' p = priority a p.
Proof.
  intros Q. unfold priority. rewrite (q_cfg _ _ Q).
  by rewrite !(fixed_Priority _ _ _ (quiet_cand _ _ _ Q)).
Qed.

Lemma fixed_alter f i (l : list Candidate) :
  (forall c, fixed (f c) = fixed c) -> fixed <$> alter f i l = fixed <$> l.
Proof.
  intros Hf. apply list_eq. intros j. rewrite !list_lookup_fmap.
  destruct (decide (i = j)) as [->|Hj].
  - rewrite list_lookup_alter_eq. destruct (l !! j) as [c|]; [|done]. apply (f_equal Some), Hf.
  - by rewrite list_lookup_alter_ne.
Qed.

Lemma quiet_upd_cand i f a : (forall c, fixed (f c) = fixed c) -> quiet a (upd_cand i f a).
Proof. intros Hf. split; try done. simpl. by apply fixed_alter. Qed.

Lemma quiet_set_env w a : quiet a (set_env w a).
Proof. by split. Qed.

Lemma quiet_pending l a : quiet a (set_pendingBindingRequests l a).
Proof. by split. Qed.

Lemma quiet_buf b a : quiet a (set_buf b a).
Proof. by split. Qed.

Lemma quiet_force b a : quiet a (set_forceCandidateContact b a).
Proof. by split. Qed.

Lemma quiet_seen o i a : quiet a (seen o i a).
Proof. unfold seen. destruct o; by apply quiet_upd_cand. Qed.

Lemma quiet_close i a : quiet a (close i a).
Proof.
  assert (quiet a (closeBase i a)) as H.
  { unfold closeBase. repeat case_match; try apply quiet_same.
    eapply quiet_then; [by apply (quiet_upd_cand i (set_closing true))|apply quiet_set_env]. }
  unfold close. repeat case_match; try done. eapply quiet_then; [done|].
  eapply quiet_then; [by apply (quiet_upd_cand i (set_onClose false))|apply quiet_set_env].
Qed.

Lemma quiet_foldl {B} (f : B -> Agent SM W -> Agent SM W) l a :
  (forall x a, quiet a (f x a)) -> quiet a (foldl (fun a x => f x a) a l).
Proof.
  intros Hf. revert a. induction l as [|x l IH]; intros a; simpl; [apply quiet_same|].
  eapply quiet_then; [apply Hf|apply IH].
Qed.

Lemma quiet_writeTo local raw dst a n e a' : writeTo local raw dst a = (n, e, a') -> quiet a a'.
Proof.
  unfold writeTo. destruct (conn_WriteTo _ _ _ _) as [[n' err] w]. intros H.
  repeat case_match; simplify_eq; try apply quiet_set_env.
  eapply quiet_then; [apply quiet_set_env|apply quiet_seen].
Qed.

Lemma quiet_sendSTUN m local remote a : quiet a (sendSTUN m local remote a).
Proof.
  unfold sendSTUN. destruct (writeTo _ _ _ _) as [[n e] a'] eqn:H. by eapply quiet_writeTo.
Qed.

Lemma quiet_invalidate t a : quiet a (invalidatePendingBindingRequests t a).
Proof. apply quiet_pending. Qed.

Lemma quiet_sendBindingRequest m local remote a : quiet a (sendBindingRequest m local remote a).
Proof.
  unfold sendBindingRequest. eapply quiet_then; [|apply quiet_sendSTUN].
  eapply quiet_then; [|apply quiet_pending]. apply quiet_invalidate.
Qed.

Lemma quiet_sendBindingSuccess m local remote a : quiet a (sendBindingSuccess m local remote a).
Proof.
  unfold sendBindingSuccess. destruct (_ ≫= _) as [[[ip port] t]|]; [|apply quiet_same].
  destruct (stun_Build _ _) as [[out|] w]; [|apply quiet_set_env].
  eapply quiet_then; [apply quiet_set_env|apply quiet_sendSTUN].
Qed.

Lemma quiet_buildAndSend l local remote a : quiet a (buildAndSendRequest l local remote a).
Proof.
  unfold buildAndSendRequest. destruct (stun_Build _ _) as [[msg|] w]; [|apply quiet_set_env].
  eapply quiet_then; [apply quiet_set_env|apply quiet_sendBindingRequest].
Qed.

Lemma quiet_Ping local remote a : quiet a (PingCandidate local remote a).
Proof. unfold PingCandidate. destruct (selector a); [apply quiet_buildAndSend|apply quiet_same]. Qed.

Lemma quiet_nominate p s a : quiet a (nominatePair p s a).
Proof. apply quiet_buildAndSend. Qed.

Lemma quiet_inboundSuccess tid a r a' : handleInboundBindingSuccess tid a = (r, a') -> quiet a a'.
Proof.
  unfold handleInboundBindingSuccess. destruct (list_find _ _) as [[i x]|]; intros; simplify_eq.
  - eapply quiet_then; [apply quiet_invalidate|apply quiet_pending].
  - apply quiet_invalidate.
Qed.

Lemma quiet_keepalive a : quiet a (checkKeepalive a).
Proof.
  unfold checkKeepalive. destruct (selectedPair a); [|apply quiet_same].
  destruct (_ && _); [apply quiet_Ping|apply quiet_same].
Qed.

(** * The invariant *)

Definition ends (p : CandidatePair) : nat * nat := (Local p, Remote p).

Definition pair_key a (p : nat) := (key (cand a (Local (pair a p))), key (cand a (Remote (pair a p)))).

(** Some candidate of the map is equal to [c]. *)
Definition known (m : gmap NetworkType (list nat)) (c : nat) a : Prop :=
  exists i, i ∈ candidates_of m (networkType (cand a c)) /\ key (cand a i) = key (cand a c).

Definition keys a (l : list nat) := (fun i => key (cand a i)) <$> l.

(** References lead to candidates and pairs of the right kind; a pair of the
    checklist connects known candidates until the agent is closed, which
    removes the candidates only; nothing is there twice.  Connections
    that the agent opens to passive candidates get their addresses from the
    system, so local candidates and pairs are known to be distinct when there
    are none of them. *)
Record refs_ok a : Prop := {
  r_local t i : i ∈ candidates_of (localCandidates a) t ->
    (i < length (candidates a))%nat /\ networkType (cand a i) = t;
  r_remote t i : i ∈ candidates_of (remoteCandidates a) t ->
    (i < length (candidates a))%nat /\ networkType (cand a i) = t;
  r_pairs p : (p < length (pairs a))%nat ->
    (Local (pair a p) < length (candidates a))%nat /\ (Remote (pair a p) < length (candidates a))%nat;
  r_checklist p : p ∈ checklist a -> (p < length (pairs a))%nat /\
    (isDone a = false -> known (localCandidates a) (Local (pair a p)) a /\
                         known (remoteCandidates a) (Remote (pair a p)) a);
  r_nominated lt t p : selector a = Some {| liteSelector := lt; inner := controllingSelector t (Some p) |} ->
    (p < length (pairs a))%nat;
  r_remote_distinct t : NoDup (keys a (candidates_of (remoteCandidates a) t));
  r_local_distinct t : disableActiveTCP (cfg a) = true -> NoDup (keys a (candidates_of (localCandidates a) t));
  r_distinct : disableActiveTCP (cfg a) = true -> NoDup (pair_key a <$> checklist a);
}.

Definition connected (s : ConnectionState) : bool :=
  match s with ConnectionStateConnected | ConnectionStateDisconnected => true | _ => false end.

(** The states of an agent that has started and is not closed. *)
Definition live (s : ConnectionState) : bool :=
  match s with
  | ConnectionStateChecking | ConnectionStateConnected | ConnectionStateDisconnected
  | ConnectionStateFailed => true
  | _ => false
  end.

(** The selected pair is a nominated pair of the checklist whose check
    succeeded, unless the application chooses pairs itself; the connection
    state tells whether there is one. *)
Record selection_ok a : Prop := {
  s_selected p : selectedPair a = Some p ->
    p ∈ checklist a /\ nominated (pair a p) = true /\
    (userBindingRequestHandler (cfg a) = None -> state (pair a p) = CandidatePairStateSucceeded);
  s_none : selectedPair a = None -> connected (connectionState a) = false;
  s_some : selectedPair a <> None ->
    connected (connectionState a) = true \/ connectionState a = ConnectionStateClosed;
  s_unstarted : startedCh a = false ->
    connectionState a = ConnectionStateNew /\ selectedPair a = None /\ selector a = None;
  s_open : isDone a = false -> connectionState a <> ConnectionStateClosed;
  s_live : startedCh a = true -> isDone a = false -> live (connectionState a) = true;
}.

(** No pair gets more than one check above the configured maximum, and only
    pairs that got them all are given up. *)
Definition count_ok (max : Z) (p : CandidatePair) : Prop :=
  0 <= bindingRequestCount p <= max + 1 /\
  (state p = CandidatePairStateFailed -> max < bindingRequestCount p).

Record agent_inv a : Prop := {
  inv_refs : refs_ok a;
  inv_selection : selection_ok a;
  inv_max : 0 <= maxBindingRequests (cfg a) < 65536;
  inv_count p : (p < length (pairs a))%nat -> count_ok (maxBindingRequests (cfg a)) (pair a p);
}.

(** ** References *)

(** [keeps a a']: the same candidates, pairs and lists, up to new entries of
    the stores. *)
Record keeps a a' : Prop := {
  k_cfg : cfg a' = cfg a;
  k_local : localCandidates a' = localCandidates a;
  k_remote : remoteCandidates a' = remoteCandidates a;
  k_checklist : checklist a' = checklist a;
  k_ends : ends <$> pairs a' = ends <$> pairs a;
  k_length : (length (candidates a) <= length (candidates a'))%nat;
  k_key i : (i < length (candidates a))%nat -> key (cand a' i) = key (cand a i);
  k_done : isDone a' = false -> isDone a = false;
  k_selector lt t p : selector a' = Some {| liteSelector := lt; inner := controllingSelector t (Some p) |} ->
    (p < length (pairs a))%nat \/
    selector a = Some {| liteSelector := lt; inner := controllingSelector t (Some p) |};
}.

Lemma keeps_pairs a a' : keeps a a' -> length (pairs a') = length (pairs a).
Proof. intros K. pose proof (f_equal length (k_ends _ _ K)) as H. by rewrite !length_fmap in H. Qed.

Lemma keeps_ends a a' p : keeps a a' -> (p < length (pairs a))%nat -> ends (pair a' p) = ends (pair a p).
Proof.
  intros K Hp. pose proof (k_ends _ _ K) as H. apply (f_equal (.!! p)) in H.
  rewrite !list_lookup_fmap in H. unfold pair. rewrite !list_lookup_total_alt.
  assert (is_Some (pairs a !! p)) as [x Hx] by by apply lookup_lt_is_Some.
  rewrite Hx in *. destruct (pairs a' !! p); [|discriminate H]. by apply (inj Some) in H.
Qed.

Lemma keeps_known (m : Agent SM W -> gmap NetworkType (list nat)) a a' c :
  (forall t i, i ∈ candidates_of (m a) t -> (i < length (candidates a))%nat) -> m a' = m a ->
  keeps a a' -> (c < length (candidates a))%nat -> known (m a) c a -> known (m a') c a'.
Proof.
  intros Hm E' K Hc (i & Hi & Ek). exists i. pose proof (k_key _ _ K c Hc) as Kc.
  pose proof (k_key _ _ K i (Hm _ _ Hi)) as Ki. rewrite E', Ki, Kc, Ek. split; [|done].
  assert (networkType (cand a' c) = networkType (cand a c)) as -> by (unfold key in Kc; congruence).
  done.
Qed.

Lemma keys_ext a a' l :
  (forall i, i ∈ l -> key (cand a' i) = key (cand a i)) -> keys a' l = keys a l.
Proof.
  intros H. unfold keys. apply list_fmap_ext. intros j i Hi. apply H. by eapply list_elem_of_lookup_2.
Qed.

Lemma refs_keeps a a' : keeps a a' -> refs_ok a -> refs_ok a'.
Proof.
  intros K R. pose proof (keeps_pairs _ _ K) as Lp. pose proof (k_length _ _ K) as Lc.
  assert (forall p, (p < length (pairs a))%nat ->
    Local (pair a' p) = Local (pair a p) /\ Remote (pair a' p) = Remote (pair a p)) as Ee.
  { intros p Hp. pose proof (keeps_ends _ _ p K Hp) as H. unfold ends in H. split; congruence. }
  split.
  - intros t i Hi. rewrite (k_local _ _ K) in Hi. destruct (r_local _ R t i Hi) as [Hl Ht].
    pose proof (k_key _ _ K i Hl) as Hk. split; [lia|]. unfold key in Hk. congruence.
  - intros t i Hi. rewrite (k_remote _ _ K) in Hi. destruct (r_remote _ R t i Hi) as [Hl Ht].
    pose proof (k_key _ _ K i Hl) as Hk. split; [lia|]. unfold key in Hk. congruence.
  - intros p Hp. rewrite Lp in Hp. destruct (Ee p Hp) as [-> ->]. destruct (r_pairs _ R p Hp). lia.
  - intros p Hp. rewrite (k_checklist _ _ K) in Hp. destruct (r_checklist _ R p Hp) as (Hlt & Hlr).
    destruct (Ee p Hlt) as [-> ->]. destruct (r_pairs _ R p Hlt). rewrite Lp. split; [done|].
    intros Hd. destruct (Hlr (k_done _ _ K Hd)) as [Hl Hr]. split.
    + apply (keeps_known localCandidates a); auto using k_local. intros t i Hi. by apply (r_local _ R t).
    + apply (keeps_known remoteCandidates a); auto using k_remote. intros t i Hi. by apply (r_remote _ R t).
  - intros lt t p Hs. rewrite Lp. destruct (k_selector _ _ K lt t p Hs) as [|Hs']; [done|].
    by eapply r_nominated.
  - intros t. rewrite (k_remote _ _ K), (keys_ext a); [by apply r_remote_distinct|].
    intros i Hi. apply (k_key _ _ K). by eapply r_remote.
  - intros t Hd. rewrite (k_cfg _ _ K) in Hd. rewrite (k_local _ _ K), (keys_ext a); [by apply r_local_distinct|].
    intros i Hi. apply (k_key _ _ K). by eapply r_local.
  - intros Hd. rewrite (k_cfg _ _ K) in Hd. rewrite (k_checklist _ _ K).
    rewrite (list_fmap_ext _ (pair_key a)); [by apply r_distinct|]. intros j p Hj.
    apply list_elem_of_lookup_2 in Hj. destruct (r_checklist _ R p Hj) as (Hlt & _).
    unfold pair_key. destruct (Ee p Hlt) as [-> ->]. destruct (r_pairs _ R p Hlt).
    by rewrite !(k_key _ _ K).
Qed.

Lemma quiet_keeps a a' : quiet a a' -> keeps a a'.
Proof.
  intros Q. pose proof (quiet_length _ _ Q) as L. destruct Q eqn:EQ. split; try done.
  - congruence.
  - by rewrite L.
  - intros i _. by apply quiet_key.
  - congruence.
  - intros lt t p Hs. right. congruence.
Qed.

Lemma inv_quiet a a' : quiet a a' -> agent_inv a -> agent_inv a'.
Proof.
  intros Q [R Se M C]. pose proof (quiet_keeps _ _ Q) as K.
  split.
  - by eapply refs_keeps.
  - destruct Q, Se. split; unfold pair in *; rewrite ?q_selected0, ?q_state0, ?q_checklist0, ?q_pairs0,
      ?q_started0, ?q_done0, ?q_selector0, ?q_cfg0; auto.
  - by rewrite (q_cfg _ _ Q).
  - intros p Hp. rewrite (q_pairs _ _ Q) in Hp. rewrite (quiet_pair _ _ _ Q), (q_cfg _ _ Q). auto.
Qed.

(** ** Changing a pair *)

Lemma upd_pair_eq p f a q : (p < length (pairs a))%nat ->
  pair (upd_pair p f a) q = if decide (p = q) then f (pair a p) else pair a q.
Proof.
  intros Hp. unfold pair, upd_pair. simpl. rewrite !list_lookup_total_alt. case_decide; subst.
  - rewrite list_lookup_alter_eq.
    assert (is_Some (pairs a !! q)) as [x Hx] by by apply lookup_lt_is_Some. by rewrite Hx.
  - by rewrite list_lookup_alter_ne.
Qed.

Lemma upd_pair_ends p f a : (forall x, ends (f x) = ends x) ->
  ends <$> alter f p (pairs a) = ends <$> pairs a.
Proof.
  intros Hf. apply list_eq. intros j. rewrite !list_lookup_fmap.
  destruct (decide (p = j)) as [->|Hj].
  - rewrite list_lookup_alter_eq. destruct (pairs a !! j) as [c|]; [|done]. apply (f_equal Some), Hf.
  - by rewrite list_lookup_alter_ne.
Qed.

Lemma keeps_upd_pair p f a : (forall x, ends (f x) = ends x) -> keeps a (upd_pair p f a).
Proof. intros Hf. split; try done; auto. simpl. by apply upd_pair_ends. Qed.

(** A change that does not undo a success or a nomination. *)
Lemma inv_upd_pair p f a :
  (forall x, ends (f x) = ends x) -> (p < length (pairs a))%nat ->
  (nominated (pair a p) = true -> nominated (f (pair a p)) = true) ->
  (state (pair a p) = CandidatePairStateSucceeded -> state (f (pair a p)) = CandidatePairStateSucceeded) ->
  count_ok (maxBindingRequests (cfg a)) (f (pair a p)) ->
  agent_inv a -> agent_inv (upd_pair p f a).
Proof.
  intros Hf Hp Hn Hs Hc [R Se M C].
  assert (forall q, pair (upd_pair p f a) q = if decide (p = q) then f (pair a p) else pair a q) as Ep
    by (intros q; by apply upd_pair_eq).
  split; [by eapply refs_keeps, R; apply keeps_upd_pair| |done|].
  - destruct Se. split; try done. intros q Hq. simpl in Hq. destruct (s_selected0 q Hq) as (? & ? & Hu).
    rewrite Ep. case_decide; subst; auto.
  - intros q Hq. simpl in Hq. rewrite length_alter in Hq. rewrite Ep. simpl.
    case_decide; subst; auto.
Qed.

Lemma inv_succeeded p a : (p < length (pairs a))%nat ->
  agent_inv a -> agent_inv (upd_pair p (set_state CandidatePairStateSucceeded) a).
Proof.
  intros Hp I. apply inv_upd_pair; try done. destruct (inv_count _ I p Hp). by split.
Qed.

Lemma inv_nominated p a : (p < length (pairs a))%nat ->
  agent_inv a -> agent_inv (upd_pair p (set_nominated true) a).
Proof. intros Hp I. apply inv_upd_pair; try done. by apply inv_count. Qed.

Lemma inv_nominateOn p a : (p < length (pairs a))%nat ->
  agent_inv a -> agent_inv (upd_pair p (set_nominateOnBindingSuccess true) a).
Proof. intros Hp I. apply inv_upd_pair; try done. by apply inv_count. Qed.

(** ** The connection state *)

Lemma deleteAll_spec a : exists b, quiet a b /\
  deleteAllCandidates a = set_remoteCandidates ∅ (set_localCandidates ∅ b).
Proof.
  unfold deleteAllCandidates. set (b := foldl _ a _).
  assert (quiet a b) as Q1 by (apply quiet_foldl; intros; apply quiet_close).
  set (c := foldl _ (set_localCandidates ∅ b) _).
  assert (quiet (set_localCandidates ∅ b) c) as Q2 by (apply quiet_foldl; intros; apply quiet_close).
  exists (set_localCandidates (localCandidates b) c). split.
  - eapply quiet_then; [exact Q1|]. destruct Q2. by split.
  - destruct c eqn:Ec. pose proof (q_local _ _ Q2) as H. simpl in *. by subst.
Qed.

(** The agent after a failure, a restart or a close: no candidate, no pair. *)
Lemma inv_clear a b :
  agent_inv a -> checklist b = [] -> selectedPair b = None ->
  localCandidates b = ∅ -> remoteCandidates b = ∅ ->
  cfg b = cfg a -> pairs b = pairs a -> fixed <$> candidates b = fixed <$> candidates a ->
  (forall lt t p, selector b = Some {| liteSelector := lt; inner := controllingSelector t (Some p) |} ->
     selector a = Some {| liteSelector := lt; inner := controllingSelector t (Some p) |}) ->
  connected (connectionState b) = false ->
  (startedCh b = false -> connectionState b = ConnectionStateNew /\ selector b = None) ->
  (isDone b = false -> connectionState b <> ConnectionStateClosed) ->
  (startedCh b = true -> isDone b = false -> live (connectionState b) = true) ->
  agent_inv b.
Proof.
  intros [R Se M C] Hc Hs Hl Hr Hcfg Hp Hf Hsel Hst Hun Hd Hlive.
  assert (length (candidates b) = length (candidates a)) as L.
  { apply (f_equal length) in Hf. by rewrite !length_fmap in Hf. }
  assert (forall t, candidates_of ∅ t = []) as Hempty by done.
  split; [split|split|by rewrite Hcfg|].
  - intros t i Hi. rewrite Hl, Hempty in Hi. by apply elem_of_nil in Hi.
  - intros t i Hi. rewrite Hr, Hempty in Hi. by apply elem_of_nil in Hi.
  - intros p. unfold pair. rewrite Hp, L. apply (r_pairs _ R).
  - intros p Hin. rewrite Hc in Hin. by apply elem_of_nil in Hin.
  - intros lt t p Hsb. rewrite Hp. eapply (r_nominated _ R), Hsel, Hsb.
  - intros t. rewrite Hr, Hempty. constructor.
  - intros t _. rewrite Hl, Hempty. constructor.
  - intros _. rewrite Hc. constructor.
  - intros p Hsb. congruence.
  - done.
  - done.
  - intros Hsb. destruct (Hun Hsb). done.
  - done.
  - done.
  - intros p. unfold pair. rewrite Hp, Hcfg. apply C.
Qed.

Lemma update_failed_spec a : connectionState a <> ConnectionStateFailed ->
  let b := updateConnectionState ConnectionStateFailed a in
  checklist b = [] /\ pendingBindingRequests b = [] /\ selectedPair b = None
  /\ localCandidates b = ∅ /\ remoteCandidates b = ∅ /\ connectionState b = ConnectionStateFailed
  /\ cfg b = cfg a /\ pairs b = pairs a /\ fixed <$> candidates b = fixed <$> candidates a
  /\ selector b = selector a /\ startedCh b = startedCh a /\ isDone b = isDone a.
Proof.
  intros Hne b. unfold b, updateConnectionState. rewrite decide_False by done. rewrite decide_True by done.
  set (c := set_selectedPair None _).
  assert (pendingBindingRequests (deleteAllCandidates c) = []) as Hpend.
  { assert (forall l x, pendingBindingRequests (foldl (fun a i => close i a) x l) = pendingBindingRequests x) as Hf.
    { induction l as [|i l IH]; intros x; simpl; [done|]. rewrite IH. unfold close, closeBase.
      repeat case_match; done. }
    unfold deleteAllCandidates. cbn [pendingBindingRequests set_remoteCandidates].
    rewrite Hf. cbn [pendingBindingRequests set_localCandidates]. by rewrite Hf. }
  destruct (deleteAll_spec c) as (d & Q & Hd). set (d0 := deleteAllCandidates c) in *.
  clearbody d0. simpl. rewrite Hpend, Hd. destruct Q; simpl in *. by split_and!.
Qed.

Lemma inv_update_failed a :
  startedCh a = true -> agent_inv a -> agent_inv (updateConnectionState ConnectionStateFailed a).
Proof.
  intros Hst I. destruct (decide (connectionState a = ConnectionStateFailed)) as [Hf|Hf].
  - unfold updateConnectionState. by rewrite decide_True.
  - destruct (update_failed_spec a Hf) as (H1 & H2 & H3 & H4 & H5 & H6 & H7 & H8 & H9 & H10 & H11 & H12).
    eapply inv_clear; try done; rewrite ?H6, ?H10, ?H11; try done; congruence.
Qed.

Lemma update_plain s a : s <> ConnectionStateFailed ->
  updateConnectionState s a =
    if decide (connectionState a = s) then a
    else set_stateNotes (stateNotes a ++ [s]) (set_connectionState s a).
Proof. intros. unfold updateConnectionState. case_decide; [done|]. by rewrite decide_False. Qed.

Lemma inv_set_state s l a : agent_inv a -> connected s = true -> selectedPair a <> None ->
  startedCh a = true -> agent_inv (set_stateNotes l (set_connectionState s a)).
Proof.
  intros [R Se M C] Hs Hn Hst. split; try done.
  - apply (refs_keeps a); [split; simpl; auto|done].
  - destruct Se. split; simpl; try done; try congruence; auto.
    + by intros _ ->.
    + intros _ _. by destruct s.
Qed.

Lemma inv_update_connected s a : connected s = true -> selectedPair a <> None -> startedCh a = true ->
  agent_inv a -> agent_inv (updateConnectionState s a).
Proof.
  intros Hs Hn Hst I. rewrite update_plain by (by destruct s). case_decide; [done|]. by apply inv_set_state.
Qed.

Lemma setSelected_spec p a : exists l1 l2,
  setSelectedPair (Some p) a =
  set_onConnected true (set_pairNotes l2 (set_stateNotes l1 (set_connectionState ConnectionStateConnected
    (set_selectedPair (Some p) (upd_pair p (set_nominated true) a))))).
Proof.
  unfold setSelectedPair. rewrite update_plain by done. case_decide as Hc.
  - exists (stateNotes a), (pairNotes a ++ [p]). simpl in Hc. unfold upd_pair, set_pairs in *. simpl in *.
    by rewrite Hc.
  - eexists _, _. done.
Qed.

Lemma inv_setSelected p a :
  p ∈ checklist a -> startedCh a = true ->
  (userBindingRequestHandler (cfg a) = None -> state (pair a p) = CandidatePairStateSucceeded) ->
  agent_inv a -> agent_inv (setSelectedPair (Some p) a).
Proof.
  intros Hp Hst Hs I. pose proof (inv_refs _ I) as R. destruct (r_checklist _ R p Hp) as (Hlt & _).
  pose proof (inv_nominated p a Hlt I) as [R' Se' M' C'].
  destruct (setSelected_spec p a) as (l1 & l2 & ->). split; try done.
  - apply (refs_keeps (upd_pair p (set_nominated true) a)); [split; simpl; auto|done].
  - split; simpl; try done; try congruence.
    + intros q [= <-]. split; [done|]. unfold pair. simpl.
      change (alter (set_nominated true) p (pairs a)) with (pairs (upd_pair p (set_nominated true) a)).
      change (pairs (upd_pair p (set_nominated true) a) !!! p) with (pair (upd_pair p (set_nominated true) a) p).
      rewrite upd_pair_eq, decide_True by done. done.
    + intros _. by left.
Qed.

(** ** Checks *)

Lemma inv_pingPair p a : (p < length (pairs a))%nat -> agent_inv a -> agent_inv (pingPair p a).
Proof.
  intros Hp I. unfold pingPair. case_decide as Hst; [|done].
  pose proof (inv_count _ I p Hp) as [Hc Hf]. pose proof (inv_max _ I) as Hm.
  assert (agent_inv (upd_pair p (set_state CandidatePairStateInProgress) a)) as I1.
  { apply inv_upd_pair; try done. intros Hs. destruct Hst; congruence. }
  set (b := upd_pair p (set_state CandidatePairStateInProgress) a) in *.
  assert (p < length (pairs b))%nat as Hp1 by (simpl; by rewrite length_alter).
  assert (state (pair b p) = CandidatePairStateInProgress
    /\ bindingRequestCount (pair b p) = bindingRequestCount (pair a p)) as [Hs1 Hc1].
  { unfold b. rewrite upd_pair_eq, decide_True by done. done. }
  change (cfg b) with (cfg a). destruct (_ <? _) eqn:E1; boolp.
  - apply inv_upd_pair; try done; [by rewrite Hs1|]. split; [|intros _; exact E1].
    change (0 <= bindingRequestCount (pair b p) <= maxBindingRequests (cfg a) + 1). by rewrite Hc1.
  - pose proof (quiet_Ping (Local (pair b p)) (Remote (pair b p)) b) as Q.
    set (c := PingCandidate _ _ b) in *. pose proof (inv_quiet _ _ Q I1) as I2.
    pose proof (quiet_pair _ _ p Q) as Ep. apply inv_upd_pair; try done.
    + by rewrite (q_pairs _ _ Q).
    + rewrite Ep, (q_cfg _ _ Q). split; simpl; rewrite ?Hs1, ?Hc1; [|done].
      rewrite Hc1 in E1. unfold u16. change (cfg b) with (cfg a).
      destruct (decide (bindingRequestCount (pair a p) + 1 = 65536)) as [->|].
      * change (65536 mod 65536) with 0. lia.
      * rewrite Z.mod_small by lia. lia.
Qed.

Lemma pingPair_length p a : length (pairs (pingPair p a)) = length (pairs a).
Proof.
  unfold pingPair. case_decide; [|done]. destruct (_ <? _); simpl; rewrite ?length_alter; [done|].
  set (b := upd_pair _ _ a). pose proof (quiet_Ping (Local (pair b p)) (Remote (pair b p)) b) as Q.
  rewrite (q_pairs _ _ Q). simpl. by rewrite length_alter.
Qed.

Lemma inv_pingAll a : agent_inv a -> agent_inv (pingAllCandidates a).
Proof.
  intros I. unfold pingAllCandidates.
  assert (forall p, p ∈ checklist a -> (p < length (pairs a))%nat) as Hl.
  { intros p Hp. by apply (r_checklist _ (inv_refs _ I)). }
  revert Hl I. generalize (checklist a). intros l. revert a.
  induction l as [|p l IH]; intros a Hl I; simpl; [done|]. apply IH.
  - intros q Hq. rewrite pingPair_length. apply Hl. by apply list_elem_of_further.
  - apply inv_pingPair; [|done]. apply Hl. apply list_elem_of_here.
Qed.

(** ** Finding and adding pairs *)

Lemma findPair_Some local remote a p : findPair local remote a = Some p ->
  p ∈ checklist a /\ pair_key a p = (key (cand a local), key (cand a remote)).
Proof.
  unfold findPair. destruct (list_find _ _) as [[j q]|] eqn:F; [|done]. simpl. intros [= <-].
  apply list_find_Some in F as (Hj & Hb & _). apply Is_true_true, andb_true_iff in Hb as [H1 H2].
  split; [by eapply list_elem_of_lookup_2|]. unfold pair_key. by apply Equal_key in H1 as ->, H2 as ->.
Qed.

Lemma findPair_None local remote a : findPair local remote a = None ->
  (key (cand a local), key (cand a remote)) ∉ pair_key a <$> checklist a.
Proof.
  unfold findPair. destruct (list_find _ _) as [[j q]|] eqn:F; [done|]. intros _.
  apply list_find_None in F. rewrite list_elem_of_fmap. intros (p & Hk & Hp).
  rewrite Forall_forall in F. apply (F p Hp). apply Is_true_true, andb_true_iff.
  unfold pair_key in Hk. rewrite !Equal_key. split; congruence.
Qed.

(** Tasks that leave pairs and selection alone. *)
Lemma inv_same a a' : keeps a a' -> pairs a' = pairs a -> connectionState a' = connectionState a ->
  selectedPair a' = selectedPair a -> startedCh a' = startedCh a -> isDone a' = isDone a ->
  selector a' = selector a -> agent_inv a -> agent_inv a'.
Proof.
  intros K Hp Hs Hsel Hst Hd Hse [R Se M C]. split.
  - by eapply refs_keeps.
  - destruct Se. split; unfold pair in *; rewrite ?Hp, ?Hs, ?Hsel, ?Hst, ?Hd, ?Hse, ?(k_cfg _ _ K),
      ?(k_checklist _ _ K); auto.
  - by rewrite (k_cfg _ _ K).
  - intros p. unfold pair. rewrite Hp, (k_cfg _ _ K). apply C.
Qed.

Lemma inv_alloc c a : agent_inv a -> agent_inv (snd (alloc_cand c a)).
Proof.
  intros I. apply (inv_same a); try done. split; simpl; auto.
  - rewrite length_app. lia.
  - intros i Hi. unfold cand. simpl. rewrite !list_lookup_total_alt. by rewrite lookup_app_l.
Qed.

Lemma alloc_cand_new c a : cand (snd (alloc_cand c a)) (fst (alloc_cand c a)) = c.
Proof.
  unfold cand, alloc_cand. simpl. rewrite list_lookup_total_alt, lookup_app_r by done.
  by rewrite Nat.sub_diag.
Qed.

Lemma inv_start i a : agent_inv a -> agent_inv (start i a).
Proof.
  intros I. unfold start. case_match; [done|]. apply (inv_same a); try done. split; simpl; auto.
  - by rewrite length_alter.
  - intros j Hj. unfold cand. simpl. rewrite !list_lookup_total_alt, list_lookup_alter.
    case_decide; [|done]. subst. by destruct (candidates a !! j).
Qed.

Definition addPair_ok (local remote : nat) a : Prop :=
  (local < length (candidates a))%nat /\ (remote < length (candidates a))%nat /\
  known (localCandidates a) local a /\ known (remoteCandidates a) remote a.

Lemma addPair_pair local remote a q :
  pair (snd (addPair local remote a)) q =
    if decide (q = length (pairs a)) then newCandidatePair local remote (isControlling a) else pair a q.
Proof.
  unfold pair. simpl. rewrite !list_lookup_total_alt. case_decide as Hq; subst.
  - by rewrite lookup_app_r, Nat.sub_diag.
  - destruct (decide (q < length (pairs a))%nat); [by rewrite lookup_app_l|].
    rewrite (lookup_ge_None_2 (pairs a)) by lia. rewrite lookup_ge_None_2; [done|].
    rewrite length_app. simpl. lia.
Qed.

Lemma addPair_length local remote a :
  length (pairs (snd (addPair local remote a))) = S (length (pairs a)).
Proof. simpl. rewrite length_app. simpl. lia. Qed.

Lemma addPair_pair_key local remote a p : (p < length (pairs a))%nat ->
  pair_key (snd (addPair local remote a)) p = pair_key a p.
Proof. intros Hp. unfold pair_key. rewrite addPair_pair, decide_False by lia. done. Qed.

Lemma addPair_new_key local remote a :
  pair_key (snd (addPair local remote a)) (length (pairs a)) = (key (cand a local), key (cand a remote)).
Proof. unfold pair_key. rewrite addPair_pair, decide_True by done. done. Qed.

Lemma addPair_keys local remote a : refs_ok a ->
  pair_key (snd (addPair local remote a)) <$> checklist (snd (addPair local remote a)) =
  (pair_key a <$> checklist a) ++ [(key (cand a local), key (cand a remote))].
Proof.
  intros R. change (checklist (snd (addPair local remote a))) with (checklist a ++ [length (pairs a)]).
  rewrite fmap_app. f_equal.
  - apply list_fmap_ext. intros j p Hj. apply addPair_pair_key. apply list_elem_of_lookup_2 in Hj.
    by apply (r_checklist _ R).
  - rewrite <- addPair_new_key. done.
Qed.

Lemma inv_addPair local remote a :
  addPair_ok local remote a ->
  (disableActiveTCP (cfg a) = true ->
     (key (cand a local), key (cand a remote)) ∉ pair_key a <$> checklist a) ->
  agent_inv a -> agent_inv (snd (addPair local remote a)).
Proof.
  intros (Hl & Hr & Kl & Kr) Hd [R Se M C]. pose proof (addPair_pair local remote a) as Ep.
  assert (forall p, p ∈ checklist a -> pair (snd (addPair local remote a)) p = pair a p) as Eold.
  { intros p Hp. rewrite Ep. case_decide; [|done]. subst. apply (r_checklist _ R) in Hp as (? & _). lia. }
  split; [split|split| |].
  - exact (r_local _ R).
  - exact (r_remote _ R).
  - intros p Hp. rewrite addPair_length in Hp. rewrite Ep. case_decide; [done|].
    apply (r_pairs _ R). lia.
  - intros p Hp. rewrite addPair_length. simpl in Hp. apply elem_of_app in Hp as [Hp|Hp].
    + destruct (r_checklist _ R p Hp) as (? & ?). rewrite (Eold p Hp). split; [lia|done].
    + apply list_elem_of_singleton in Hp as ->. rewrite Ep, decide_True by done. split; [lia|done].
  - intros lt t p Hs. rewrite addPair_length. simpl in Hs. apply (r_nominated _ R) in Hs. lia.
  - exact (r_remote_distinct _ R).
  - exact (r_local_distinct _ R).
  - intros Hdis. rewrite addPair_keys by done. apply NoDup_app. split; [by apply (r_distinct _ R)|].
    split; [|by apply NoDup_singleton]. intros x Hx Hin. apply list_elem_of_singleton in Hin as ->.
    by apply (Hd Hdis).
  - intros p Hp. simpl in Hp. destruct (s_selected _ Se p Hp) as (Hin & Hrest). rewrite (Eold p Hin).
    split; [simpl; apply elem_of_app; by left|done].
  - exact (s_none _ Se).
  - exact (s_some _ Se).
  - exact (s_unstarted _ Se).
  - exact (s_open _ Se).
  - exact (s_live _ Se).
  - exact M.
  - intros p Hp. rewrite addPair_length in Hp. rewrite Ep. simpl cfg. case_decide.
    + split; simpl; [lia|done].
    + apply C. lia.
Qed.

Definition ends_key a (x : nat * nat) := (key (cand a (fst x)), key (cand a (snd x))).

Lemma inv_addPairs mk l a :
  (forall i, i ∈ l -> addPair_ok (fst (mk i)) (snd (mk i)) a) ->
  (disableActiveTCP (cfg a) = true ->
     NoDup ((fun i => ends_key a (mk i)) <$> l) /\
     forall i, i ∈ l -> ends_key a (mk i) ∉ pair_key a <$> checklist a) ->
  agent_inv a -> agent_inv (addPairs mk l a).
Proof.
  unfold addPairs. revert a. induction l as [|x l IH]; intros a Hok Hd I; [done|].
  cbn [foldl]. apply IH.
  - intros i Hi. exact (Hok i (list_elem_of_further _ _ _ Hi)).
  - intros Hdis. destruct (Hd Hdis) as [Hnd Hnot]. simpl in Hnd. apply NoDup_cons in Hnd as [Hx Hnd].
    split; [exact Hnd|]. intros i Hi. rewrite addPair_keys by (by apply inv_refs).
    rewrite elem_of_app, list_elem_of_singleton. intros [Hin|Hin].
    + by apply (Hnot i (list_elem_of_further _ _ _ Hi)).
    + apply Hx. rewrite list_elem_of_fmap. by exists i.
  - apply inv_addPair; [apply Hok, list_elem_of_here| |done].
    intros Hdis. destruct (Hd Hdis) as [_ Hnot]. apply Hnot, list_elem_of_here.
Qed.

(** ** New candidates *)

Lemma candidates_of_insert (m : gmap NetworkType (list nat)) t l t' :
  candidates_of (<[t := l]> m) t' = if decide (t = t') then l else candidates_of m t'.
Proof.
  unfold candidates_of. case_decide; subst; [by rewrite lookup_insert_eq|by rewrite lookup_insert_ne].
Qed.

Lemma existsb_keys a c l :
  existsb (fun i => Candidate_Equal (cand a i) (cand a c)) l = false -> key (cand a c) ∉ keys a l.
Proof.
  intros H Hin. apply list_elem_of_fmap in Hin as (i & Hk & Hi).
  assert (existsb (fun i => Candidate_Equal (cand a i) (cand a c)) l = true); [|congruence].
  apply existsb_exists. exists i. split; [by apply list_elem_of_In|]. by apply Equal_key.
Qed.

Lemma existsb_known m a c :
  existsb (fun i => Candidate_Equal (cand a i) (cand a c)) (candidates_of m (networkType (cand a c))) = true ->
  known m c a.
Proof.
  intros H. apply existsb_exists in H as (i & Hi & He). exists i.
  split; [by apply list_elem_of_In|]. by apply Equal_key.
Qed.

(** [m] with the candidate [c] at the end of its list. *)
Definition put_cand (c : nat) (m : gmap NetworkType (list nat)) a : gmap NetworkType (list nat) :=
  let t := networkType (cand a c) in <[t := candidates_of m t ++ [c]]> m.

Lemma put_elem c m a t i : i ∈ candidates_of (put_cand c m a) t ->
  i ∈ candidates_of m t \/ (i = c /\ t = networkType (cand a c)).
Proof.
  unfold put_cand. rewrite candidates_of_insert. case_decide; subst; [|by left].
  rewrite elem_of_app, list_elem_of_singleton. intros [?| ->]; auto.
Qed.

Lemma put_known c m a x : known m x a -> known (put_cand c m a) x a.
Proof.
  intros (i & Hi & Hk). exists i. split; [|done]. unfold put_cand. rewrite candidates_of_insert.
  case_decide as Ht; [|done]. rewrite Ht. apply elem_of_app. by left.
Qed.

Lemma put_self c m a : known (put_cand c m a) c a.
Proof.
  exists c. split; [|done]. unfold put_cand. rewrite candidates_of_insert, decide_True by done.
  apply elem_of_app. right. by apply list_elem_of_singleton.
Qed.

Lemma put_distinct c m a t : (forall t, NoDup (keys a (candidates_of m t))) ->
  key (cand a c) ∉ keys a (candidates_of m (networkType (cand a c))) ->
  NoDup (keys a (candidates_of (put_cand c m a) t)).
Proof.
  intros Hn Hc. unfold put_cand. rewrite candidates_of_insert. case_decide as Ht; [|done].
  unfold keys. rewrite fmap_app. apply NoDup_app. split; [apply Hn|]. split; [|by apply NoDup_singleton].
  intros x Hx Hin. simpl in Hin. by apply list_elem_of_singleton in Hin as ->.
Qed.

Lemma inv_put_remote c a : (c < length (candidates a))%nat ->
  key (cand a c) ∉ keys a (candidates_of (remoteCandidates a) (networkType (cand a c))) ->
  agent_inv a -> agent_inv (set_remoteCandidates (put_cand c (remoteCandidates a) a) a).
Proof.
  intros Hc Hk [R Se M C]. split; [split| |exact M|exact C]; simpl.
  - exact (r_local _ R).
  - intros t i [Hi|[-> ->]]%put_elem; [by apply (r_remote _ R)|done].
  - exact (r_pairs _ R).
  - intros p Hp. destruct (r_checklist _ R p Hp) as (? & Hk'). split; [done|]. intros Hd.
    destruct (Hk' Hd) as [Kl Kr]. split; [done|]. exact (put_known c _ a _ Kr).
  - exact (r_nominated _ R).
  - intros t. exact (put_distinct c _ a t (r_remote_distinct _ R) Hk).
  - exact (r_local_distinct _ R).
  - exact (r_distinct _ R).
  - destruct Se. by split.
Qed.

Lemma inv_put_local c a : (c < length (candidates a))%nat ->
  (disableActiveTCP (cfg a) = true ->
     key (cand a c) ∉ keys a (candidates_of (localCandidates a) (networkType (cand a c)))) ->
  agent_inv a -> agent_inv (set_localCandidates (put_cand c (localCandidates a) a) a).
Proof.
  intros Hc Hk [R Se M C]. split; [split| |exact M|exact C]; simpl.
  - intros t i [Hi|[-> ->]]%put_elem; [by apply (r_local _ R)|done].
  - exact (r_remote _ R).
  - exact (r_pairs _ R).
  - intros p Hp. destruct (r_checklist _ R p Hp) as (? & Hk'). split; [done|]. intros Hd.
    destruct (Hk' Hd) as [Kl Kr]. split; [|done]. exact (put_known c _ a _ Kl).
  - exact (r_nominated _ R).
  - exact (r_remote_distinct _ R).
  - intros t Hd. exact (put_distinct c _ a t (fun t' => r_local_distinct _ R t' Hd) (Hk Hd)).
  - exact (r_distinct _ R).
  - destruct Se. by split.
Qed.

Lemma addPairs_frame mk l a : exists ps cl, addPairs mk l a = set_checklist cl (set_pairs ps a).
Proof.
  unfold addPairs. revert a. induction l as [|x l IH]; intros a.
  - exists (pairs a), (checklist a). by destruct a.
  - cbn [foldl]. destruct (IH (snd (addPair (fst (mk x)) (snd (mk x)) a))) as (ps & cl & ->). by eexists _, _.
Qed.

(** A pair's candidate is in the map that holds its equals. *)
Lemma checklist_remote_keys p a : refs_ok a -> isDone a = false -> p ∈ checklist a ->
  key (cand a (Remote (pair a p))) ∈
    keys a (candidates_of (remoteCandidates a) (networkType (cand a (Remote (pair a p))))).
Proof.
  intros R Hd Hp. destruct (r_checklist _ R p Hp) as (_ & Hlr). destruct (Hlr Hd) as (_ & i & Hi & Hk). rewrite <- Hk.
  apply list_elem_of_fmap. by exists i.
Qed.

Lemma checklist_local_keys p a : refs_ok a -> isDone a = false -> p ∈ checklist a ->
  key (cand a (Local (pair a p))) ∈
    keys a (candidates_of (localCandidates a) (networkType (cand a (Local (pair a p))))).
Proof.
  intros R Hd Hp. destruct (r_checklist _ R p Hp) as (_ & Hlr). destruct (Hlr Hd) as ((i & Hi & Hk) & _). rewrite <- Hk.
  apply list_elem_of_fmap. by exists i.
Qed.

Lemma known_self m t i a : networkType (cand a i) = t -> i ∈ candidates_of m t -> known m i a.
Proof. intros <- Hi. by exists i. Qed.

(** Pairing a candidate that is new on one side with all of the other. *)
Lemma inv_pair_remote c a :
  let b := set_remoteCandidates (put_cand c (remoteCandidates a) a) a in
  isDone a = false -> (c < length (candidates a))%nat ->
  key (cand a c) ∉ keys a (candidates_of (remoteCandidates a) (networkType (cand a c))) ->
  agent_inv a -> agent_inv (addPairs (fun l => (l, c)) (candidates_of (localCandidates b) (networkType (cand a c))) b).
Proof.
  intros b Hdone Hc Hk I. pose proof (inv_put_remote c a Hc Hk I) as Ib. pose proof (inv_refs _ I) as R.
  apply inv_addPairs; [| |done].
  - intros i Hi. destruct (r_local _ R _ _ Hi) as [Hl Ht]. split_and!; try done.
    + by apply (known_self _ (networkType (cand a c))).
    + apply (put_self c (remoteCandidates a) a).
  - intros Hd. split.
    + pose proof (r_local_distinct _ R (networkType (cand a c)) Hd) as Hn.
      unfold keys in Hn. apply (NoDup_fmap_2_strong (fun k => (k, key (cand a c)))) in Hn.
      * by rewrite <- list_fmap_compose in Hn.
      * intros x y _ _ Hxy. congruence.
    + intros i Hi. rewrite list_elem_of_fmap. intros (p & Hp & Hin).
      assert (key (cand a c) = key (cand a (Remote (pair a p)))) as Hkey by exact (f_equal snd Hp).
      apply Hk. rewrite Hkey. assert (networkType (cand a c) = networkType (cand a (Remote (pair a p)))) as ->
        by (unfold key in Hkey; congruence). by apply checklist_remote_keys.
Qed.

Lemma inv_pair_local c a :
  let b := set_localCandidates (put_cand c (localCandidates a) a) a in
  isDone a = false -> (c < length (candidates a))%nat ->
  key (cand a c) ∉ keys a (candidates_of (localCandidates a) (networkType (cand a c))) ->
  agent_inv a -> agent_inv (addPairs (fun r => (c, r)) (candidates_of (remoteCandidates b) (networkType (cand a c))) b).
Proof.
  intros b Hdone Hc Hk I. pose proof (inv_put_local c a Hc (fun _ => Hk) I) as Ib. pose proof (inv_refs _ I) as R.
  apply inv_addPairs; [| |done].
  - intros i Hi. destruct (r_remote _ R _ _ Hi) as [Hl Ht]. split_and!; try done.
    + apply (put_self c (localCandidates a) a).
    + by apply (known_self _ (networkType (cand a c))).
  - intros Hd. split.
    + pose proof (r_remote_distinct _ R (networkType (cand a c))) as Hn.
      unfold keys in Hn. apply (NoDup_fmap_2_strong (fun k => (key (cand a c), k))) in Hn.
      * by rewrite <- list_fmap_compose in Hn.
      * intros x y _ _ Hxy. congruence.
    + intros i Hi. rewrite list_elem_of_fmap. intros (p & Hp & Hin).
      assert (key (cand a c) = key (cand a (Local (pair a p)))) as Hkey by exact (f_equal fst Hp).
      apply Hk. rewrite Hkey. assert (networkType (cand a c) = networkType (cand a (Local (pair a p)))) as ->
        by (unfold key in Hkey; congruence). by apply checklist_local_keys.
Qed.

End Invariant.

#[export] Hint Resolve quiet_same quiet_set_env quiet_pending quiet_buf quiet_force quiet_seen quiet_close
  quiet_sendSTUN quiet_invalidate quiet_sendBindingRequest quiet_sendBindingSuccess
  quiet_buildAndSend quiet_Ping quiet_nominate quiet_keepalive : turn.
