(* ===== verification/IceSteps.v ===== *)
(** The calls of the ICE agent preserve its invariant ([IceInvariant]), and
    what each step can do to the selected pair and to the pairs' states. *)

From S2P Require Import Prelude GoNet GoText Stun IceAttr IceCandidate PacketBuffer IceAgent IceInvariant.

#[local] Open Scope list_scope.
#[local] Open Scope Z_scope.

Section Steps.
Context {SM : StunMessage} {SI : IceStun SM} {W : Type} {E : IceEnv SM W}.
Implicit Types a b : Agent SM W.

(** * Candidates *)

(** The remote candidate may be put in its map before or after the
    connections to it are opened. *)
Lemma addActive_remote c ip port m a :
  addActiveCandidate c ip port (set_remoteCandidates m a) =
  set_remoteCandidates m (addActiveCandidate c ip port a).
Proof.
  unfold addActiveCandidate. destruct port as [port|]; [|done]. simpl env.
  destruct (newCandidateID (env a)) as [newID w].
  change (cand (set_env w (set_remoteCandidates m a)) c) with (cand a c).
  change (cand (set_env w a) c) with (cand a c).
  destruct (NewCandidateHost _ _) as [x|]; [|done]. simpl. unfold start.
  change (cand (set_candidates (candidates a ++ [x]) (set_env w (set_remoteCandidates m a))) (length (candidates a)))
    with (cand (set_candidates (candidates a ++ [x]) (set_env w a)) (length (candidates a))).
  by destruct (started _).
Qed.

Lemma addPassive_remote c m a :
  addRemotePassiveTCPCandidate c (set_remoteCandidates m a) =
  set_remoteCandidates m (addRemotePassiveTCPCandidate c a).
Proof.
  unfold addRemotePassiveTCPCandidate. change (cand (set_remoteCandidates m a) c) with (cand a c). simpl env.
  destruct (activeTCP _ _ _ _) as [locals w].
  change (set_env w (set_remoteCandidates m a)) with (set_remoteCandidates m (set_env w a)).
  generalize (set_env w a). induction locals as [|l locals IH]; intros b; [done|].
  cbn [foldl]. by rewrite addActive_remote, IH.
Qed.

(** What a new candidate leaves as it was. *)
Record extends a b : Prop := {
  e_cfg : cfg b = cfg a;
  e_length : (length (candidates a) <= length (candidates b))%nat;
  e_key i : (i < length (candidates a))%nat -> key (cand b i) = key (cand a i);
  e_remote : remoteCandidates b = remoteCandidates a;
  e_started : startedCh b = startedCh a;
}.

Lemma extends_known c a b : (forall t i, i ∈ candidates_of (remoteCandidates a) t -> (i < length (candidates a))%nat) ->
  extends a b -> (c < length (candidates a))%nat ->
  known (remoteCandidates a) c a -> known (remoteCandidates b) c b.
Proof.
  intros Hm X Hc (i & Hi & Ek). pose proof (e_key _ _ X c Hc) as Kc.
  exists i. rewrite (e_key _ _ X i) by by eapply Hm. rewrite (e_remote _ _ X), Kc, Ek. split; [|done].
  assert (networkType (cand b c) = networkType (cand a c)) as -> by (unfold key in Kc; congruence). done.
Qed.

Lemma start_quiet_key i a : let b := start i a in
  length (candidates b) = length (candidates a) /\ forall j, key (cand b j) = key (cand a j).
Proof.
  simpl. unfold start. destruct (started _); [done|]. split; [simpl; by rewrite length_alter|].
  intros j. unfold cand. simpl. rewrite !list_lookup_total_alt, list_lookup_alter.
  case_decide; [|done]. subst. by destruct (candidates a !! j).
Qed.

Lemma addActive_spec c ip port a :
  disableActiveTCP (cfg a) = false -> (c < length (candidates a))%nat ->
  known (remoteCandidates a) c a -> agent_inv a ->
  agent_inv (addActiveCandidate c ip port a) /\ extends a (addActiveCandidate c ip port a).
Proof.
  intros Hdis Hc Hk I. unfold addActiveCandidate. destruct port as [port|]; [|by split; [|split]].
  destruct (newCandidateID (env a)) as [newID w].
  assert (agent_inv (set_env w a)) as I1 by (eapply inv_quiet; [apply quiet_set_env|done]).
  destruct (NewCandidateHost _ _) as [x|]; [|by split; [|split]].
  destruct (alloc_cand x (set_env w a)) as [i b] eqn:Ha.
  pose proof (inv_alloc x _ I1) as I2. rewrite Ha in I2. simpl in I2.
  unfold alloc_cand in Ha. injection Ha as <- <-.
  set (n := length (candidates (set_env w a))) in *. set (b := set_candidates _ _) in *.
  assert (cand b n = x) as Hx by exact (alloc_cand_new x (set_env w a)).
  pose proof (inv_start n b I2) as I3. destruct (start_quiet_key n b) as [L3 K3].
  assert (length (candidates b) = S (length (candidates a))) as Lb by (unfold b; simpl; rewrite length_app; simpl; lia).
  set (d := start n b) in *.
  assert (extends a d) as X3.
  { assert (cfg d = cfg a /\ remoteCandidates d = remoteCandidates a /\ startedCh d = startedCh a) as (? & ? & ?)
      by (unfold d, start; destruct (started _); done).
    split; try done; [rewrite L3, Lb; lia|]. intros j Hj. rewrite K3. unfold cand, b. simpl.
    rewrite !list_lookup_total_alt. by rewrite lookup_app_l. }
  assert (networkType x = networkType (cand d n)) as ->.
  { pose proof (K3 n) as H. rewrite Hx in H. unfold key in H. congruence. }
  assert (n < length (candidates d))%nat as Hn by (rewrite L3, Lb; unfold n; simpl; lia).
  assert (agent_inv (set_localCandidates (put_cand n (localCandidates d) d) d)) as I4.
  { apply inv_put_local; [done| |done]. rewrite (e_cfg _ _ X3). congruence. }
  set (e := set_localCandidates (put_cand n (localCandidates d) d) d) in *.
  set (f := set_candidateNotes (candidateNotes e ++ [Some n]) e).
  change (agent_inv (snd (addPair n c f)) /\ extends a (snd (addPair n c f))).
  assert (agent_inv f) as I5 by (apply (inv_same e); try done; by split; simpl; auto).
  split.
  - apply inv_addPair; [|intros H; change (cfg f) with (cfg d) in H; rewrite (e_cfg _ _ X3) in H; congruence|done].
    split_and!.
    + exact Hn.
    + change (candidates f) with (candidates d). pose proof (e_length _ _ X3). lia.
    + exact (put_self n (localCandidates d) d).
    + apply (extends_known c a d); try done. intros t j Hj. by apply (r_remote _ (inv_refs _ I) t).
  - destruct X3. by split.
Qed.

Lemma addPassive_spec c a :
  disableActiveTCP (cfg a) = false -> (c < length (candidates a))%nat ->
  known (remoteCandidates a) c a -> agent_inv a -> agent_inv (addRemotePassiveTCPCandidate c a).
Proof.
  intros Hdis Hc Hk I. unfold addRemotePassiveTCPCandidate.
  destruct (activeTCP _ _ _ _) as [locals w].
  assert (agent_inv (set_env w a)) as I1 by (eapply inv_quiet; [apply quiet_set_env|done]).
  assert (known (remoteCandidates (set_env w a)) c (set_env w a)) as Hk1 by done.
  revert Hdis Hc I1 Hk1. change (cfg a) with (cfg (set_env w a)).
  change (candidates a) with (candidates (set_env w a)). generalize (set_env w a). clear Hk I a.
  induction locals as [|l locals IH]; intros a Hdis Hc I Hk; [done|]. cbn [foldl].
  destruct (addActive_spec c (fst l) (snd l) a Hdis Hc Hk I) as [I' X]. apply IH.
  - by rewrite (e_cfg _ _ X).
  - pose proof (e_length _ _ X). lia.
  - done.
  - apply (extends_known c a); try done. intros t j Hj. by apply (r_remote _ (inv_refs _ I) t).
Qed.

Lemma addPassive_remotes c a : remoteCandidates (addRemotePassiveTCPCandidate c a) = remoteCandidates a.
Proof.
  assert (set_remoteCandidates (remoteCandidates a) a = a) as Ha by by destruct a.
  rewrite <- Ha at 1. by rewrite addPassive_remote.
Qed.

Lemma inv_addRemote c a : isDone a = false -> (c < length (candidates a))%nat ->
  agent_inv a -> agent_inv (addRemoteCandidate c a).
Proof.
  intros Hdone Hc I. unfold addRemoteCandidate. destruct (existsb _ (candidates_of _ _)) eqn:Ex; [done|].
  apply existsb_keys in Ex. pose proof (inv_put_remote c a Hc Ex I) as Ip.
  eapply inv_quiet; [apply quiet_force|]. destruct (bool_decide (tcpType _ = _)).
  - rewrite andb_true_r. destruct (negb _ && _) eqn:Ha.
    + rewrite addPassive_remotes. change (<[_ := _]> (remoteCandidates a)) with (put_cand c (remoteCandidates a) a).
      rewrite <- addPassive_remote. apply andb_true_iff in Ha as [Ha _].
      apply negb_true_iff in Ha. apply addPassive_spec; try done. apply (put_self c (remoteCandidates a) a).
    + exact Ip.
  - rewrite andb_false_r. by apply inv_pair_remote.
Qed.

(** A candidate that is not a passive TCP candidate. *)
Lemma addRemote_frame c a : tcpType (cand a c) <> TCPTypePassive ->
  let b := addRemoteCandidate c a in
  known (remoteCandidates b) c b /\ localCandidates b = localCandidates a /\ candidates b = candidates a
  /\ startedCh b = startedCh a /\ isDone b = isDone a.
Proof.
  intros Ht. simpl. unfold addRemoteCandidate. destruct (existsb _ (candidates_of _ _)) eqn:Ex.
  - split; [by apply existsb_known|done].
  - rewrite bool_decide_false by done. rewrite andb_false_r.
    match goal with |- context [addPairs ?mk ?l ?b] => destruct (addPairs_frame mk l b) as (ps & cl & ->) end.
    split; [|done]. exact (put_self c (remoteCandidates a) a).
Qed.

Lemma inv_addCandidate c a : isDone a = false -> (c < length (candidates a))%nat ->
  agent_inv a -> agent_inv (addCandidate c a).
Proof.
  intros Hdone Hc I. unfold addCandidate. destruct (existsb _ (candidates_of _ _)) eqn:Ex.
  - eapply inv_quiet; [apply quiet_set_env|]. eapply inv_quiet; [apply quiet_close|done].
  - apply existsb_keys in Ex. pose proof (inv_start c a I) as I1. destruct (start_quiet_key c a) as [L K].
    set (b := start c a) in *.
    assert (localCandidates b = localCandidates a) as Hl by (unfold b, start; by destruct (started _)).
    assert (networkType (cand b c) = networkType (cand a c)) as Ht.
    { pose proof (K c) as H. unfold key in H. congruence. }
    rewrite <- Ht. apply (inv_same (addPairs (fun r => (c, r)) (candidates_of (remoteCandidates
      (set_localCandidates (put_cand c (localCandidates b) b) b)) (networkType (cand b c)))
      (set_localCandidates (put_cand c (localCandidates b) b) b))); try done.
    + split; simpl; auto.
    + apply inv_pair_local; [unfold b, start; by destruct (started _)|by rewrite L| |done].
      rewrite K, Ht, Hl. by rewrite (keys_ext a b) by (intros; apply K).
Qed.

Lemma newPeerReflexive_spec local remote a r b :
  agent_inv a -> isDone a = false -> known (localCandidates a) local a -> (local < length (candidates a))%nat ->
  newPeerReflexive local remote a = (r, b) ->
  agent_inv b /\ startedCh b = startedCh a /\ (local < length (candidates b))%nat
  /\ known (localCandidates b) local b
  /\ match r with
     | Some r => (r < length (candidates b))%nat /\ known (remoteCandidates b) r b
     | None => True
     end.
Proof.
  intros I Hdone Hk Hl. unfold newPeerReflexive. destruct (parseAddr remote) as [[[ip port] t]|]; [|by intros [= <- <-]].
  destruct (newCandidateID (env a)) as [newID w].
  assert (agent_inv (set_env w a)) as I1 by (eapply inv_quiet; [apply quiet_set_env|done]).
  destruct (NewCandidatePeerReflexive _ _) as [x|] eqn:Hx; [|by intros [= <- <-]].
  intros [= <- <-]. change (length (candidates (set_env w a))) with (length (candidates a)).
  pose proof (inv_alloc x _ I1) as I2. set (d := set_candidates _ _). change (agent_inv d) in I2.
  assert (length (candidates d) = S (length (candidates a))) as Ld by (unfold d; simpl; rewrite length_app; simpl; lia).
  assert (cand d (length (candidates a)) = x) as Hd by exact (alloc_cand_new x (set_env w a)).
  assert (tcpType x <> TCPTypePassive) as Htcp.
  { unfold NewCandidatePeerReflexive, newCandidate in Hx. repeat case_match; simplify_eq. done. }
  rewrite <- Hd in Htcp. destruct (addRemote_frame _ _ Htcp) as (F1 & F2 & F3 & F4 & F5).
  split_and!.
  - apply inv_addRemote; [done|lia|done].
  - by rewrite F4.
  - rewrite F3, Ld. lia.
  - rewrite F2. destruct Hk as (i & Hi & Ek). pose proof (r_local _ (inv_refs _ I) _ _ Hi) as [Hil _].
    assert (forall j, (j < length (candidates a))%nat -> cand (addRemoteCandidate (length (candidates a)) d) j = cand a j) as Hc.
    { intros j Hj. unfold cand. rewrite F3. unfold d. simpl. rewrite !list_lookup_total_alt.
      by rewrite lookup_app_l. }
    exists i. rewrite !Hc by done. done.
  - rewrite F3, Ld. lia.
  - done.
Qed.

(** * The best pair *)

Definition better (keep : CandidatePairState -> bool) a (l : list nat) (best : option nat) : Prop :=
  match best with
  | None => forall q, q ∈ l -> keep (state (pair a q)) = false
  | Some p => p ∈ l /\ keep (state (pair a p)) = true /\
      forall q, q ∈ l -> keep (state (pair a q)) = true -> priority a (pair a q) <= priority a (pair a p)
  end.

Lemma best_of_spec keep a : better keep a (checklist a) (best_of keep a).
Proof.
  unfold best_of. set (f := fun best p => _).
  assert (forall l seen best, better keep a seen best -> better keep a (seen ++ l) (foldl f best l)) as H.
  { induction l as [|p l IH]; intros seen best Hb; simpl; [by rewrite app_nil_r|].
    replace (seen ++ p :: l) with ((seen ++ [p]) ++ l) by by rewrite <- app_assoc.
    apply IH. unfold f. destruct (keep (state (pair a p))) eqn:Hk; destruct best as [b|]; simpl in *.
    - destruct Hb as (Hin & Hkb & Hmax). destruct (_ <? _) eqn:Hlt; boolp; simpl; split_and!; try done.
      + apply elem_of_app. right. apply list_elem_of_here.
      + intros q Hq Hkq. apply elem_of_app in Hq as [Hq|Hq]; [specialize (Hmax q Hq Hkq); lia|].
        apply list_elem_of_singleton in Hq as ->. lia.
      + apply elem_of_app. by left.
      + intros q Hq Hkq. apply elem_of_app in Hq as [Hq|Hq]; [by apply Hmax|].
        apply list_elem_of_singleton in Hq as ->. lia.
    - split_and!; [apply elem_of_app; right; apply list_elem_of_here|done|].
      intros q Hq Hkq. apply elem_of_app in Hq as [Hq|Hq]; [rewrite Hb in Hkq; done|].
      apply list_elem_of_singleton in Hq as ->. lia.
    - destruct Hb as (Hin & Hkb & Hmax). split_and!; [apply elem_of_app; by left|done|].
      intros q Hq Hkq. apply elem_of_app in Hq as [Hq|Hq]; [by apply Hmax|].
      apply list_elem_of_singleton in Hq as ->. congruence.
    - intros q Hq. apply elem_of_app in Hq as [Hq|Hq]; [by apply Hb|].
      by apply list_elem_of_singleton in Hq as ->. }
  apply (H _ [] None). intros q Hq. by apply elem_of_nil in Hq.
Qed.

Lemma bestValid_in a p : getBestValidCandidatePair a = Some p ->
  p ∈ checklist a /\ state (pair a p) = CandidatePairStateSucceeded.
Proof.
  intros H. pose proof (best_of_spec (fun s => bool_decide (s = CandidatePairStateSucceeded)) a) as B.
  change (best_of _ a) with (getBestValidCandidatePair a) in B. rewrite H in B. destruct B as (? & Hs & _).
  by apply bool_decide_eq_true in Hs.
Qed.

(** * Contacting candidates *)

Lemma inv_set_inner t n a : (forall p, n = Some p -> (p < length (pairs a))%nat) ->
  agent_inv a -> agent_inv (set_inner (controllingSelector t n) a).
Proof.
  intros Hn [R Se M C]. split; [|destruct Se; split; try done|done|done].
  - apply (refs_keeps a); [|done]. split; simpl; auto. intros lt t' p Hs.
    destruct (selector a); simplify_eq/=. left. by apply Hn.
  - intros Hst. destruct (s_unstarted Hst) as (? & ? & Hsel). simpl. by rewrite Hsel.
Qed.

Lemma inv_validate a : startedCh a = true -> agent_inv a -> agent_inv (snd (validateSelectedPair a)).
Proof.
  intros Hst I. unfold validateSelectedPair. destruct (selectedPair a) eqn:Hs; [|done]. simpl.
  repeat case_match; first [by apply inv_update_failed | apply inv_update_connected; try done; by rewrite Hs].
Qed.

Lemma inv_keepAlive a : startedCh a = true -> agent_inv a -> agent_inv (validateAndKeepAlive a).
Proof.
  intros Hst I. unfold validateAndKeepAlive. pose proof (inv_validate a Hst I) as I'.
  destruct (validateSelectedPair a) as [[|] b]; simpl in *; [|done].
  eapply inv_quiet; [apply quiet_keepalive|done].
Qed.

Lemma inv_Contact a : startedCh a = true -> agent_inv a -> agent_inv (ContactCandidates a).
Proof.
  intros Hst I. unfold ContactCandidates. destruct (selector a) as [[lt [t n|]]|] eqn:Hsel; [| |done]; simpl.
  - unfold controlling_ContactCandidates. destruct (selectedPair a); [by apply inv_keepAlive|].
    destruct n as [p|]; [eapply inv_quiet; [apply quiet_nominate|done]|].
    destruct (getBestValidCandidatePair a) as [p|] eqn:Hb; [|by apply inv_pingAll].
    destruct (pairNominatable t p a); [|by apply inv_pingAll].
    apply bestValid_in in Hb as [Hin _]. destruct (r_checklist _ (inv_refs _ I) p Hin) as [Hlt _].
    eapply inv_quiet; [apply quiet_nominate|]. apply inv_set_inner; [|by apply inv_nominated].
    intros q [= <-]. simpl. by rewrite length_alter.
  - destruct lt; [by apply inv_validate|]. unfold controlled_ContactCandidates.
    destruct (selectedPair a); [by apply inv_keepAlive|by apply inv_pingAll].
Qed.

Lemma inv_contactTask a : startedCh a = true -> agent_inv a -> agent_inv (contactTask a).
Proof.
  intros Hst I. unfold contactTask.
  assert (forall l s b, agent_inv b -> agent_inv (set_loop l s b)) as Hloop.
  { intros l s b Hb. apply (inv_same b); try done. by split; simpl; auto. }
  apply Hloop. destruct (connectionState a); try (by apply inv_Contact); [|done].
  set (b := if decide _ then _ else _).
  assert (agent_inv b /\ startedCh b = true) as [Ib Hb] by (unfold b; case_decide; auto).
  destruct (_ <? _); [by apply inv_update_failed|by apply inv_Contact].
Qed.

(** * Responses and requests *)

Lemma accept_spec m local remote addr a o b :
  agent_inv a -> acceptResponse m local remote addr a = (o, b) ->
  agent_inv b /\ startedCh b = startedCh a /\ cfg b = cfg a /\ selectedPair b = selectedPair a /\
  match o with
  | Some (p, r) => p ∈ checklist b /\ state (pair b p) = CandidatePairStateSucceeded
  | None => True
  end.
Proof.
  intros I. unfold acceptResponse. destruct (handleInboundBindingSuccess _ a) as [[r|] d] eqn:Hd;
    pose proof (quiet_inboundSuccess _ _ _ _ Hd) as Q; pose proof (inv_quiet _ _ Q I) as Id.
  - match goal with |- context [if ?c then _ else _] => destruct c end.
    2:{ intros [= <- <-]. destruct Q. by split_and!. }
    destruct (findPair local remote d) as [p|] eqn:Hp; intros [= <- <-].
    2:{ destruct Q. by split_and!. }
    apply findPair_Some in Hp as [Hin _]. destruct (r_checklist _ (inv_refs _ Id) p Hin) as [Hlt _].
    split_and!; try by destruct Q.
    + by apply inv_succeeded.
    + by rewrite upd_pair_eq, decide_True.
  - intros [= <- <-]. destruct Q. by split_and!.
Qed.

Lemma inv_selectNominated p a : p ∈ checklist a -> state (pair a p) = CandidatePairStateSucceeded ->
  startedCh a = true -> agent_inv a -> agent_inv (selectNominated p a).
Proof.
  intros. unfold selectNominated. repeat case_match; try done; by apply inv_setSelected.
Qed.

Lemma inv_HandleSuccess m local remote addr a :
  startedCh a = true -> agent_inv a -> agent_inv (HandleSuccessResponse m local remote addr a).
Proof.
  intros Hst I. unfold HandleSuccessResponse. destruct (inner <$> selector a) as [[t n|]|]; [| |done].
  - unfold controlling_HandleSuccessResponse.
    destruct (acceptResponse m local remote addr a) as [[[p r]|] b] eqn:Ha;
      apply accept_spec in Ha as (Ib & Hb & _ & _ & Hp); try done.
    destruct Hp as [Hin Hs]. destruct (_ && _); [|done]. apply inv_setSelected; try done. by rewrite Hb.
  - unfold controlled_HandleSuccessResponse.
    destruct (acceptResponse m local remote addr a) as [[[p r]|] b] eqn:Ha;
      apply accept_spec in Ha as (Ib & Hb & _ & _ & Hp); try done.
    destruct Hp as [Hin Hs]. destruct (nominateOnBindingSuccess _); [|done].
    apply inv_selectNominated; try done. by rewrite Hb.
Qed.

Lemma inv_callUserHandler m local remote p a : p ∈ checklist a -> startedCh a = true ->
  agent_inv a -> agent_inv (callUserHandler m local remote p a).
Proof.
  intros Hp Hst I. unfold callUserHandler. destruct (userBindingRequestHandler (cfg a)) as [h|] eqn:Hu; [|done].
  destruct (h _ _ _ _); [|done]. apply inv_setSelected; try done. congruence.
Qed.

(** The pair a request belongs to, which is added if it is new. *)
Definition findOrAdd (local remote : nat) a : nat * Agent SM W :=
  match findPair local remote a with Some p => (p, a) | None => addPair local remote a end.

Lemma findOrAdd_spec local remote a p b : addPair_ok local remote a -> agent_inv a ->
  findOrAdd local remote a = (p, b) ->
  agent_inv b /\ p ∈ checklist b /\ startedCh b = startedCh a /\ cfg b = cfg a.
Proof.
  intros Hok I. unfold findOrAdd. destruct (findPair local remote a) as [q|] eqn:Hp; intros H.
  - injection H as <- <-. by apply findPair_Some in Hp as [? _].
  - pose proof (f_equal snd H) as H2. simpl snd in H2 at 2. subst b.
    split; [apply inv_addPair; [done| |done]; intros _; by apply findPair_None|].
    injection H as <-. split; [|done]. simpl. apply elem_of_app. right. by apply list_elem_of_singleton.
Qed.

Lemma inv_HandleRequest m local remote a : startedCh a = true -> addPair_ok local remote a ->
  agent_inv a -> agent_inv (HandleBindingRequest m local remote a).
Proof.
  intros Hst Hok I. unfold HandleBindingRequest. destruct (inner <$> selector a) as [[t n|]|]; [| |done].
  - unfold controlling_HandleBindingRequest. pose proof (quiet_sendBindingSuccess m local remote a) as Q.
    set (b := sendBindingSuccess m local remote a) in *. pose proof (inv_quiet _ _ Q I) as Ib.
    assert (addPair_ok local remote b) as Hokb.
    { destruct Hok as (? & ? & ? & ?). pose proof (quiet_length _ _ Q) as L. split_and!; try (by rewrite L).
      - eapply (keeps_known localCandidates a); try done; [|by apply q_local|by apply quiet_keeps].
        intros t' i Hi. by apply (r_local _ (inv_refs _ I) t').
      - eapply (keeps_known remoteCandidates a); try done; [|by apply q_remote|by apply quiet_keeps].
        intros t' i Hi. by apply (r_remote _ (inv_refs _ I) t'). }
    destruct (findPair local remote b) as [p|] eqn:Hp.
    + apply findPair_Some in Hp as [Hin _]. destruct (r_checklist _ (inv_refs _ Ib) p Hin) as [Hlt _].
      assert (startedCh b = true) as Hb by (by rewrite (q_started _ _ Q)).
      set (d := if decide _ then _ else _).
      assert (agent_inv d /\ checklist d = checklist b /\ startedCh d = true) as (Id & Hc & Hd).
      { unfold d. case_decide; [|done]. destruct (getBestAvailableCandidatePair b); [|done].
        destruct (_ && _); [|done]. set (s := controllingSelector t (Some p)).
        pose proof (quiet_nominate p s (set_inner s b)) as Qn. split_and!.
        - eapply inv_quiet; [exact Qn|]. apply inv_set_inner; [|done]. by intros q [= <-].
        - by rewrite (q_checklist _ _ Qn).
        - by rewrite (q_started _ _ Qn). }
      apply inv_callUserHandler; try done. by rewrite Hc.
    + apply inv_addPair; [done| |done]. intros _. by apply findPair_None.
  - unfold controlled_HandleBindingRequest. destruct (findOrAdd local remote a) as [p b] eqn:Hf.
    pose proof Hf as Hf'. unfold findOrAdd in Hf'. rewrite Hf'.
    destruct (findOrAdd_spec _ _ _ _ _ Hok I Hf) as (Ib & Hin & Hsb & Hcb).
    destruct (r_checklist _ (inv_refs _ Ib) p Hin) as [Hlt _].
    set (d := if Contains m AttrUseCandidate then _ else _).
    assert (agent_inv d /\ p ∈ checklist d /\ startedCh d = true) as (Id & Hind & Hd).
    { unfold d. destruct (Contains m AttrUseCandidate); [|by rewrite Hsb].
      case_decide as Hs; [|split; [by apply inv_nominateOn|by rewrite <- Hsb in Hst]].
      split; [apply inv_selectNominated; try done; by rewrite Hsb|].
      unfold selectNominated. rewrite <- Hsb in Hst.
      repeat case_match; try done; destruct (setSelected_spec p b) as (l1 & l2 & ->); done. }
    pose proof (quiet_sendBindingSuccess m local remote d) as Q1.
    set (e := sendBindingSuccess m local remote d) in *.
    pose proof (quiet_Ping local remote e) as Q2. pose proof (quiet_then _ _ _ Q1 Q2) as Q.
    apply inv_callUserHandler; [by rewrite (q_checklist _ _ Q)|by rewrite (q_started _ _ Q)|].
    by eapply inv_quiet.
Qed.

Lemma findRemote_in t addr a r : findRemoteCandidate t addr a = Some r -> r ∈ candidates_of (remoteCandidates a) t.
Proof.
  unfold findRemoteCandidate. destruct (parseAddr addr) as [[[ip port] t']|]; [|done].
  destruct (list_find _ _) as [[j x]|] eqn:F; [|done]. simpl. intros [= <-].
  apply list_find_Some in F as (Hj & _). by eapply list_elem_of_lookup_2.
Qed.

Lemma inv_handleInbound m local src a : startedCh a = true -> isDone a = false ->
  local ∈ candidates_of (localCandidates a) (networkType (cand a local)) ->
  agent_inv a -> agent_inv (handleInbound m local src a).
Proof.
  intros Hst Hdone Hl I. pose proof (inv_refs _ I) as R. destruct (r_local _ R _ _ Hl) as [Hll _].
  assert (known (localCandidates a) local a) as Hk by by exists local.
  assert (forall b x, agent_inv b -> agent_inv (seen false x b)) as Hseen.
  { intros. eapply inv_quiet; [apply quiet_seen|done]. }
  unfold handleInbound. destruct (_ || _); [done|]. destruct (roleConflict m a); [done|].
  set (f := findRemoteCandidate _ _ _).
  assert (forall r, f = Some r -> addPair_ok local r a) as Hf.
  { intros r Hr. apply findRemote_in in Hr. destruct (r_remote _ R _ _ Hr) as [Hrl Ht].
    split_and!; try done. exists r. by rewrite Ht. }
  destruct (ice_Class m).
  - destruct (negb _); [done|]. destruct (ice_Integrity _ _); [done|].
    destruct f as [r|] eqn:Er; [by apply Hseen, inv_HandleRequest, I; auto|].
    destruct (newPeerReflexive local src a) as [[r|] b] eqn:Hn;
      destruct (newPeerReflexive_spec _ _ _ _ _ I Hdone Hk Hll Hn) as (Ib & Hsb & Hlb & Hkb & Hr); [|done].
    destruct Hr as [Hrl Hrk]. apply Hseen, inv_HandleRequest; try done. by rewrite Hsb.
  - destruct f; [by apply Hseen|done].
  - destruct (ice_Integrity _ _); [done|]. destruct f; [|done]. by apply Hseen, inv_HandleSuccess.
  - destruct f; [by apply Hseen|done].
Qed.

Lemma quiet_deliver p a : quiet a (deliver p a).
Proof. unfold deliver. destruct (PacketBuffer.Write _ _ _) as [[b r]|]; auto with turn. Qed.

Lemma quiet_cache local src a : quiet a (snd (validateSTUNTrafficCache local src a)).
Proof. unfold validateSTUNTrafficCache. case_match; simpl; auto with turn. Qed.

Lemma quiet_addCache local r src a : quiet a (addRemoteCandidateCache local r src a).
Proof.
  unfold addRemoteCandidateCache. pose proof (quiet_cache local src a) as Q.
  destruct (validateSTUNTrafficCache _ _ _) as [[|] b]; simpl in *; [done|].
  eapply quiet_then; [done|]. by apply quiet_upd_cand.
Qed.

Lemma inv_packet local p src a : allowed (OpPacket local p src) a -> agent_inv a ->
  agent_inv (handleInboundPacket local p src a).
Proof.
  intros [Hst Hl] I. unfold handleInboundPacket. destruct (IsMessage p).
  - destruct (ice_Decode p); [|done]. unfold run. destruct (isDone a) eqn:Hd; [done|]. by apply inv_handleInbound.
  - pose proof (quiet_cache local src a) as Q. destruct (validateSTUNTrafficCache _ _ _) as [[|] b]; simpl in Q.
    + eapply inv_quiet; [|done]. eapply quiet_then; [done|apply quiet_deliver].
    + destruct (validateNonSTUNTraffic local src b) as [r d] eqn:Hv.
      assert (quiet b d) as Qd.
      { unfold validateNonSTUNTraffic in Hv. repeat case_match; simplify_eq; auto with turn. }
      eapply inv_quiet; [|done]. eapply quiet_then; [done|]. destruct r; [|done].
      eapply quiet_then; [done|]. eapply quiet_then; [apply quiet_addCache|apply quiet_deliver].
Qed.

(** * Life cycle *)

Lemma selector_Start_frame a : let b := selector_Start a in
  quiet a (set_selector (selector a) b) /\
  (selector a = None -> selector b = None) /\
  forall lt t p, selector b <> Some {| liteSelector := lt; inner := controllingSelector t (Some p) |}.
Proof.
  simpl. unfold selector_Start. destruct (selector a) as [[lt [t n|]]|] eqn:Hs; simpl.
  - rewrite <- Hs. split_and!; [by split|by rewrite Hs|]. intros. simpl. rewrite Hs. simpl. congruence.
  - rewrite <- Hs. split_and!; [by split|by rewrite Hs|]. intros. rewrite Hs. congruence.
  - rewrite <- Hs. split_and!; [by split|done|]. intros. rewrite Hs. congruence.
Qed.

Lemma inv_startTask controlling ufrag pwd a : startedCh a = false -> agent_inv a ->
  agent_inv (startTask controlling ufrag pwd a).
Proof.
  intros Hst I. destruct (s_unstarted _ (inv_selection _ I) Hst) as (Hn & Hs & Hsel).
  unfold startTask. set (b := selector_Start _).
  assert (selectedPair b = None /\ connectionState b = ConnectionStateNew /\ pairs b = pairs a
    /\ cfg b = cfg a /\ checklist b = checklist a /\ localCandidates b = localCandidates a
    /\ remoteCandidates b = remoteCandidates a /\ fixed <$> candidates b = fixed <$> candidates a
    /\ isDone b = isDone a /\ forall lt t p, selector b <> Some {| liteSelector := lt; inner := controllingSelector t (Some p) |})
    as (B1 & B2 & B3 & B4 & B5 & B6 & B7 & B8 & B9 & B10).
  { unfold b. match goal with |- context [selector_Start ?x] => destruct (selector_Start_frame x) as (Q & _ & Hno) end.
    destruct Q. simpl in *. split_and!; try congruence; try done. }
  rewrite update_plain by done. simpl connectionState. rewrite B2, decide_False by done.
  destruct I as [R Se M C]. split; simpl.
  - apply (refs_keeps a); [|done]. pose proof (f_equal length B8) as L8. rewrite !length_fmap in L8.
    split; simpl; try done; rewrite ?B3, ?B9, ?L8; try done.
    + intros i _. apply fixed_key. unfold cand. simpl. by apply fixed_lookup.
    + intros lt t p H. by apply B10 in H.
  - split; simpl; try done; congruence.
  - by rewrite B4.
  - intros p. unfold pair. simpl. rewrite B3, B4. apply C.
Qed.

Lemma inv_restartTask ufrag pwd a : isDone a = false -> agent_inv a -> agent_inv (restartTask ufrag pwd a).
Proof.
  intros Hd I. unfold restartTask. set (b := if decide _ then _ else a).
  assert (quiet a b) as Qb by (unfold b; case_decide; auto with turn).
  set (c := setSelectedPair None _). destruct (deleteAll_spec c) as (d & Qd & Hdel).
  set (e := deleteAllCandidates c) in *. destruct (selector_Start_frame e) as (Qs & Hnone & Hno).
  set (f := selector_Start e) in *. clearbody f e.
  assert (checklist f = [] /\ selectedPair f = None /\ localCandidates f = ∅ /\ remoteCandidates f = ∅
    /\ cfg f = cfg a /\ pairs f = pairs a /\ fixed <$> candidates f = fixed <$> candidates a
    /\ connectionState f = connectionState a /\ startedCh f = startedCh a /\ isDone f = isDone a
    /\ (selector a = None -> selector f = None)) as (F1 & F2 & F3 & F4 & F5 & F6 & F7 & F8 & F9 & F10 & F11).
  { subst e. destruct Qs, Qd, Qb. simpl in *.
    split_and!; try congruence. intros Hsel. apply Hnone. congruence. }
  assert (startedCh f = false -> connectionState a = ConnectionStateNew /\ selector f = None) as Hun.
  { intros Hf. rewrite F9 in Hf. destruct (s_unstarted _ (inv_selection _ I) Hf) as (? & ? & Hsel). auto. }
  assert (forall lt t p, selector f = Some {| liteSelector := lt; inner := controllingSelector t (Some p) |} ->
    selector a = Some {| liteSelector := lt; inner := controllingSelector t (Some p) |}) as Hsel.
  { intros lt t p H. by apply Hno in H. }
  case_decide as Hnew.
  - rewrite update_plain by done. case_decide as Hc.
    + refine (inv_clear a f I F1 F2 F3 F4 F5 F6 F7 Hsel _ _ _ _); rewrite Hc; try done.
      intros H. destruct (Hun H). congruence.
    + refine (inv_clear a (set_stateNotes _ (set_connectionState _ f)) I F1 F2 F3 F4 F5 F6 F7 Hsel _ _ _ _); simpl; try done.
      intros H. destruct (Hun H). congruence.
  - refine (inv_clear a f I F1 F2 F3 F4 F5 F6 F7 Hsel _ _ _ _); rewrite ?Hnew; try done.
    + intros H. by destruct (Hun H).
    + rewrite <- Hnew, F8, F9, F10. apply (s_live _ (inv_selection _ I)).
Qed.

Lemma inv_Close a : agent_inv a -> agent_inv (snd (Close a)).
Proof.
  intros I. unfold Close. destruct (isDone a) eqn:Hd; [done|]. simpl.
  set (b := set_isDone true (removeUfragFromMux a)). destruct (deleteAll_spec b) as (d & Qd & Hdel).
  set (e := deleteAllCandidates b) in *. clearbody e. subst e.
  eapply inv_quiet; [apply quiet_set_env|]. rewrite update_plain by done. simpl connectionState.
  rewrite (q_state _ _ Qd). simpl connectionState. rewrite decide_False by by apply (s_open _ (inv_selection _ I)).
  set (f := set_stateNotes _ _).
  assert (checklist f = checklist a /\ selectedPair f = selectedPair a /\ cfg f = cfg a /\ pairs f = pairs a
    /\ candidates f = candidates d /\ selector f = selector a /\ isDone f = true)
    as (F1 & F2 & F3 & F4 & F5 & F6 & F7) by (destruct Qd; simpl in *; split_and!; done).
  assert (forall i, key (cand f i) = key (cand a i)) as Fk.
  { intros i. unfold cand. rewrite F5. exact (quiet_key _ _ i Qd). }
  assert (length (candidates f) = length (candidates a)) as Fl by (rewrite F5; exact (quiet_length _ _ Qd)).
  destruct I as [R Se M C]. split; [split|split|by rewrite F3|].
  - intros t i Hi. by apply elem_of_nil in Hi.
  - intros t i Hi. by apply elem_of_nil in Hi.
  - intros p. unfold pair. rewrite F4, Fl. apply (r_pairs _ R).
  - intros p. rewrite F1, F4. intros Hp. split; [by apply (r_checklist _ R)|by rewrite F7].
  - intros lt t p. rewrite F6, F4. apply (r_nominated _ R).
  - intros t. constructor.
  - intros t _. constructor.
  - rewrite F1, F3. intros Hdis. rewrite (list_fmap_ext _ (pair_key a)); [by apply (r_distinct _ R)|].
    intros j p _. unfold pair_key, pair. by rewrite F4, !Fk.
  - intros p. rewrite F2, F1, F3. unfold pair. rewrite F4. apply (s_selected _ Se).
  - done.
  - intros _. by right.
  - done.
  - by rewrite F7.
  - by rewrite F7.
  - intros p. unfold pair. rewrite F4, F3. apply C.
Qed.

(** * Every step *)

Lemma inv_alloc_run task c a : agent_inv a ->
  (forall b i, isDone b = false -> (i < length (candidates b))%nat -> agent_inv b -> agent_inv (task i b)) ->
  agent_inv (let '(i, a) := alloc_cand c a in snd (run (task i) a)).
Proof.
  intros I Ht. pose proof (inv_alloc c a I) as I'. destruct (alloc_cand c a) as [i b] eqn:Ha. simpl in I'.
  unfold run. destruct (isDone b) eqn:Hd; [done|]. simpl. apply Ht; try done.
  unfold alloc_cand in Ha. injection Ha as <- <-. simpl. rewrite length_app. simpl. lia.
Qed.

Lemma inv_creds ufrag pwd a : agent_inv a -> agent_inv (set_remote_cred ufrag pwd a).
Proof. intros I. apply (inv_same a); try done. by split; simpl; auto. Qed.

Lemma inv_step_iop o a : allowed o a -> agent_inv a -> agent_inv (run_iop o a).
Proof.
  intros Hal I. destruct o; cbn [run_iop].
  - by apply inv_packet.
  - unfold AddRemoteCandidate. case_decide; [done|]. case_decide.
    + case_decide; [done|]. destruct (mdns_Query _ _) as [answer w]. cbn [snd].
      assert (agent_inv (set_env w a)) as I1 by (eapply inv_quiet; [apply quiet_set_env|done]).
      destruct answer as [ip|]; [|done]. destruct (setIP ip c) as [c'|e]; [|done].
      apply (inv_alloc_run addRemoteCandidate c' _ I1). intros. by apply inv_addRemote.
    + apply (inv_alloc_run addRemoteCandidate c _ I). intros. by apply inv_addRemote.
  - apply (inv_alloc_run addCandidate c _ I). intros. by apply inv_addCandidate.
  - unfold contact, run. destruct (isDone a); [done|]. by apply inv_contactTask.
  - unfold startConnectivityChecks. destruct (startedCh a) eqn:Hst; [done|]. unfold SetRemoteCredentials, run.
    destruct (String.eqb ufrag ""); [done|]. destruct (String.eqb pwd ""); [done|].
    destruct (isDone a) eqn:Hd; [done|]. simpl isDone. rewrite Hd. simpl.
    apply inv_startTask; [done|by apply inv_creds].
  - unfold Restart. destruct (orGenerate ufrag generateUFrag a) as [u b] eqn:Hu.
    assert (quiet a b) as Qb by (unfold orGenerate in Hu; repeat case_match; simplify_eq; auto with turn).
    pose proof (inv_quiet _ _ Qb I) as Ib. destruct u as [u|]; [|done].
    destruct (orGenerate pwd generatePwd b) as [w d] eqn:Hw.
    assert (quiet b d) as Qd by (unfold orGenerate in Hw; repeat case_match; simplify_eq; auto with turn).
    pose proof (inv_quiet _ _ Qd Ib) as Id. destruct w as [w|]; [|done].
    repeat (case_match; [done|]). unfold run. destruct (isDone d) eqn:Hd; [done|]. by apply inv_restartTask.
  - unfold SetRemoteCredentials, run. repeat (case_match; [done|]). by apply inv_creds.
  - unfold setGatheringState, run. case_match; [done|]. simpl. apply (inv_same a); try done; case_decide; try done;
      by split; simpl; auto.
  - unfold Conn_Write. destruct (isDone a); [done|]. destruct (IsMessage p); [done|].
    destruct (match selectedPair a with Some q => Some q | None => getBestValidCandidatePair a end) as [q|]; [|done].
    destruct (writeTo _ _ _ _) as [[n e] b] eqn:Hw. simpl. eapply inv_quiet; [by eapply quiet_writeTo|done].
  - unfold Conn_Read. case_match; [done|]. destruct (PacketBuffer.Read _ _). simpl.
    eapply inv_quiet; [apply quiet_buf|done].
  - by apply inv_Close.
Qed.

Lemma inv_alloc_agent settings w : 0 <= maxBindingRequests settings < 65536 ->
  agent_inv (allocAgent settings w : Agent SM W).
Proof.
  intros Hm. split; [split|split|done|]; simpl; try done.
  all: try (intros ? ? Hi; by apply elem_of_nil in Hi).
  all: try (intros p Hp; by apply elem_of_nil in Hp).
  all: try lia.
  all: intros; constructor.
Qed.

Lemma istep_inv a b : istep a b -> agent_inv a -> agent_inv b.
Proof.
  intros [o x Hal|w x] I; [by apply inv_step_iop|]. eapply inv_quiet; [apply quiet_set_env|done].
Qed.

Lemma isteps_inv a b : rtc istep a b -> agent_inv a -> agent_inv b.
Proof. induction 1; eauto using istep_inv. Qed.

End Steps.
