(* ===== verification/IceTheorems.v ===== *)
(** What the ICE agent guarantees: which pairs pass a check, what an
    unauthenticated message can do, how the state of the connection moves,
    how pairs are ordered, and when a connection is given up. *)

From S2P Require Import Prelude GoNet GoText Stun IceAttr IceCandidate PacketBuffer IceAgent IceInvariant IceSteps.

#[local] Open Scope string_scope.
#[local] Open Scope list_scope.
#[local] Open Scope Z_scope.

(** * The states of a connection *)

(** The abstract machine: what a state can be followed by. *)
Definition transition (s s' : ConnectionState) : bool :=
  match s, s' with
  | ConnectionStateNew, (ConnectionStateChecking | ConnectionStateClosed) => true
  | ConnectionStateChecking,
      (ConnectionStateConnected | ConnectionStateFailed | ConnectionStateClosed) => true
  | ConnectionStateConnected,
      (ConnectionStateDisconnected | ConnectionStateFailed | ConnectionStateChecking | ConnectionStateClosed) => true
  | ConnectionStateDisconnected,
      (ConnectionStateConnected | ConnectionStateFailed | ConnectionStateChecking | ConnectionStateClosed) => true
  | ConnectionStateFailed,
      (ConnectionStateChecking | ConnectionStateConnected | ConnectionStateClosed) => true
  | _, _ => false
  end.

(** [path s l s']: from [s] through the states of [l], the last of which is
    [s']. *)
Fixpoint path (s : ConnectionState) (l : list ConnectionState) (s' : ConnectionState) : Prop :=
  match l with
  | [] => s = s'
  | x :: l => transition s x = true /\ path x l s'
  end.

Lemma path_app s l s' l' s'' : path s l s' -> path s' l' s'' -> path s (l ++ l') s''.
Proof. revert s. induction l as [|x l IH]; simpl; intros s; [by intros ->|]. intros [? ?] ?. auto. Qed.

Section Theorems.
Context {SM : StunMessage} {SI : IceStun SM} {W : Type} {E : IceEnv SM W}.
Implicit Types a b : Agent SM W.

(** * What most of the code leaves alone *)

(** No pair passes its check. *)
Definition nosucc a b : Prop :=
  forall p, state (pair b p) = CandidatePairStateSucceeded -> state (pair a p) = CandidatePairStateSucceeded.

(** Neither the state of the connection moves nor does a pair pass its
    check. *)
Record calm a b : Prop := {
  c_state : connectionState b = connectionState a;
  c_notes : stateNotes b = stateNotes a;
  c_pairs : nosucc a b;
}.

(** The state moves along the machine; a live agent stays live. *)
Definition progress a b : Prop :=
  (exists l, stateNotes b = stateNotes a ++ l /\ path (connectionState a) l (connectionState b)) /\
  (live (connectionState a) = true -> live (connectionState b) = true).

Lemma nosucc_trans a b c : nosucc a b -> nosucc b c -> nosucc a c.
Proof. unfold nosucc. auto. Qed.

Lemma nosucc_pairs a b : pairs b = pairs a -> nosucc a b.
Proof. intros H p. unfold pair. by rewrite H. Qed.

Lemma calm_refl a : calm a a.
Proof. split; auto using nosucc_pairs. Qed.

Lemma calm_trans a b c : calm a b -> calm b c -> calm a c.
Proof. intros [] []. split; try congruence. by eapply nosucc_trans. Qed.

Lemma calm_same a b : connectionState b = connectionState a -> stateNotes b = stateNotes a ->
  pairs b = pairs a -> calm a b.
Proof. intros. split; auto using nosucc_pairs. Qed.

Lemma quiet_calm a b : quiet a b -> calm a b.
Proof. intros []. by apply calm_same. Qed.

Lemma calm_foldl {B} (f : B -> Agent SM W -> Agent SM W) l a :
  (forall x a, calm a (f x a)) -> calm a (foldl (fun a x => f x a) a l).
Proof.
  intros Hf. revert a. induction l as [|x l IH]; intros a; simpl; [apply calm_refl|].
  eapply calm_trans; [apply Hf|apply IH].
Qed.

Lemma progress_trans a b c : progress a b -> progress b c -> progress a c.
Proof.
  intros [(l & H1 & P1) L1] [(l' & H2 & P2) L2]. split; [|auto]. exists (l ++ l').
  rewrite H2, H1, app_assoc. eauto using path_app.
Qed.

Lemma calm_progress a b : calm a b -> progress a b.
Proof. intros [Hs Hn _]. split; [|by rewrite Hs]. exists []. by rewrite Hs, Hn, app_nil_r. Qed.

Lemma progress_refl a : progress a a.
Proof. apply calm_progress, calm_refl. Qed.

(** ** Pairs *)

Lemma nosucc_upd_pair p f a :
  (forall x, state (f x) = CandidatePairStateSucceeded -> state x = CandidatePairStateSucceeded) ->
  calm a (upd_pair p f a).
Proof.
  intros Hf. split; try done. intros q. unfold pair. simpl. rewrite !list_lookup_total_alt.
  destruct (decide (p = q)) as [->|Hq]; [rewrite list_lookup_alter_eq|by rewrite list_lookup_alter_ne].
  destruct (pairs a !! q) as [x|]; simpl; auto.
Qed.

Lemma calm_addPair local remote a : calm a (snd (addPair local remote a)).
Proof.
  split; try done. intros q. unfold pair. simpl. rewrite !list_lookup_total_alt.
  destruct (decide (q < length (pairs a))%nat) as [Hq|Hq].
  - by rewrite lookup_app_l.
  - rewrite lookup_app_r by lia. by destruct (q - length (pairs a))%nat.
Qed.

Lemma calm_addPairs mk l a : calm a (addPairs mk l a).
Proof. apply (calm_foldl (fun i a => snd (addPair (fst (mk i)) (snd (mk i)) a))). intros. apply calm_addPair. Qed.

Lemma calm_pingPair p a : calm a (pingPair p a).
Proof.
  unfold pingPair. case_decide; [|apply calm_refl].
  eapply calm_trans; [by apply (nosucc_upd_pair p (set_state CandidatePairStateInProgress))|].
  destruct (_ <? _); [by apply nosucc_upd_pair|].
  eapply calm_trans; [apply quiet_calm, quiet_Ping|by apply nosucc_upd_pair].
Qed.

Lemma calm_pingAll a : calm a (pingAllCandidates a).
Proof. apply (calm_foldl pingPair). intros. apply calm_pingPair. Qed.

(** ** Candidates *)

Lemma calm_start i a : calm a (start i a).
Proof. unfold start. destruct (started _); [apply calm_refl|by apply calm_same]. Qed.

Lemma calm_addActive c ip port a : calm a (addActiveCandidate c ip port a).
Proof.
  unfold addActiveCandidate. destruct port as [port|]; [|apply calm_refl].
  destruct (newCandidateID _) as [n w]. destruct (NewCandidateHost _ _) as [h|e]; [|by apply calm_same].
  cbn [alloc_cand].
  match goal with |- calm _ (snd (addPair ?i ?r ?x)) =>
    apply (calm_trans _ x); [|apply calm_addPair] end.
  match goal with |- context [start ?i ?x] => apply (calm_trans _ (start i x)); [|by apply calm_same];
    apply (calm_trans _ x); [by apply calm_same|apply calm_start] end.
Qed.

Lemma calm_addPassive c a : calm a (addRemotePassiveTCPCandidate c a).
Proof.
  unfold addRemotePassiveTCPCandidate. destruct (activeTCP _ _ _ _) as [l w].
  apply (calm_trans _ (set_env w a)); [by apply calm_same|].
  apply (calm_foldl (fun x a => addActiveCandidate c (fst x) (snd x) a)). intros. apply calm_addActive.
Qed.

Lemma calm_addRemote c a : calm a (addRemoteCandidate c a).
Proof.
  unfold addRemoteCandidate. destruct (existsb _ _); [apply calm_refl|].
  set (b := if _ && _ && _ then addRemotePassiveTCPCandidate c a else a).
  assert (calm a b) as Hb by (unfold b; destruct (_ && _ && _); auto using calm_refl, calm_addPassive).
  apply (calm_trans _ b); [done|]. clearbody b. clear Hb.
  set (d := set_remoteCandidates _ b). apply (calm_trans _ d); [by apply calm_same|].
  set (e := if bool_decide _ then _ else _). apply (calm_trans _ e); [|by apply calm_same].
  unfold e. destruct (bool_decide _); [apply calm_refl|apply calm_addPairs].
Qed.

Lemma calm_addCandidate c a : calm a (addCandidate c a).
Proof.
  unfold addCandidate. destruct (existsb _ _).
  - eapply calm_trans; apply quiet_calm; [apply quiet_close|apply quiet_set_env].
  - set (b := start c a). apply (calm_trans _ b); [apply calm_start|].
    set (d := set_localCandidates _ b). apply (calm_trans _ d); [by apply calm_same|].
    set (e := addPairs _ _ d). apply (calm_trans _ e); [apply calm_addPairs|by apply calm_same].
Qed.

Lemma calm_newPeerReflexive local src a : calm a (snd (newPeerReflexive local src a)).
Proof.
  unfold newPeerReflexive. destruct (parseAddr src) as [[[ip port] t]|]; [|apply calm_refl].
  destruct (newCandidateID _) as [n w]. destruct (NewCandidatePeerReflexive _ _) as [h|e]; [|by apply calm_same].
  cbn [alloc_cand snd].
  match goal with |- calm _ (addRemoteCandidate ?i ?x) => apply (calm_trans _ x); [by apply calm_same|] end.
  apply calm_addRemote.
Qed.

(** ** Changes of state *)

Lemma update_effect s a : let b := updateConnectionState s a in
  pairs b = pairs a /\ connectionState b = s /\
  stateNotes b = if decide (connectionState a = s) then stateNotes a else stateNotes a ++ [s].
Proof.
  simpl. destruct (decide (connectionState a = s)) as [Hs|Hs].
  { unfold updateConnectionState. by rewrite decide_True. }
  destruct (decide (s = ConnectionStateFailed)) as [->|Hf].
  - unfold updateConnectionState. rewrite decide_False, decide_True by done.
    set (c := set_selectedPair None _). destruct (deleteAll_spec c) as (d & Q & ->). simpl.
    destruct Q. simpl in *. split_and!; congruence.
  - by rewrite update_plain, decide_False.
Qed.

Lemma nosucc_update s a : nosucc a (updateConnectionState s a).
Proof. apply nosucc_pairs, update_effect. Qed.

Lemma progress_update s a : live s = true -> connectionState a = s \/ transition (connectionState a) s = true ->
  progress a (updateConnectionState s a).
Proof.
  intros Hl Ht. destruct (update_effect s a) as (_ & Hs & Hn). rewrite <- Hs in Hl. split; [|done].
  rewrite Hn, Hs. case_decide as Hd; [exists []; by rewrite app_nil_r|].
  destruct Ht as [|Ht]; [done|]. by exists [s].
Qed.

Lemma nosucc_setSelected p a : nosucc a (setSelectedPair (Some p) a).
Proof.
  destruct (setSelected_spec p a) as (l1 & l2 & ->).
  eapply nosucc_trans; [apply (c_pairs _ _ (nosucc_upd_pair p (set_nominated true) a ltac:(done)))|].
  by apply nosucc_pairs.
Qed.

Lemma progress_setSelected p a : live (connectionState a) = true -> progress a (setSelectedPair (Some p) a).
Proof.
  intros Hl. unfold setSelectedPair. set (b := set_selectedPair _ _).
  assert (calm a b) as Hb.
  { eapply calm_trans; [by apply (nosucc_upd_pair p (set_nominated true))|by apply calm_same]. }
  apply (progress_trans _ b); [by apply calm_progress|].
  eapply (progress_trans _ (updateConnectionState ConnectionStateConnected b));
    [|by apply calm_progress, calm_same].
  apply progress_update; [done|]. rewrite (c_state _ _ Hb). destruct (connectionState a); auto; done.
Qed.

Lemma nosucc_selectNominated p a : nosucc a (selectNominated p a).
Proof. unfold selectNominated. repeat case_match; auto using nosucc_setSelected, nosucc_pairs. Qed.

Lemma progress_selectNominated p a : live (connectionState a) = true -> progress a (selectNominated p a).
Proof. intros. unfold selectNominated. repeat case_match; auto using progress_setSelected, progress_refl. Qed.

Lemma nosucc_callUserHandler m local remote p a : nosucc a (callUserHandler m local remote p a).
Proof. unfold callUserHandler. repeat case_match; auto using nosucc_setSelected, nosucc_pairs. Qed.

Lemma progress_callUserHandler m local remote p a :
  live (connectionState a) = true -> progress a (callUserHandler m local remote p a).
Proof. intros. unfold callUserHandler. repeat case_match; auto using progress_setSelected, progress_refl. Qed.

(** ** Supervision *)

Lemma nosucc_validate a : nosucc a (snd (validateSelectedPair a)).
Proof.
  unfold validateSelectedPair. destruct (selectedPair a); [|by apply nosucc_pairs]. simpl.
  repeat case_match; apply nosucc_update.
Qed.

Lemma selected_connected a : agent_inv a -> live (connectionState a) = true -> selectedPair a <> None ->
  connected (connectionState a) = true.
Proof.
  intros I Hl Hs. destruct (s_some _ (inv_selection _ I) Hs) as [|Hc]; [done|]. by rewrite Hc in Hl.
Qed.

Lemma progress_validate a : agent_inv a -> live (connectionState a) = true ->
  progress a (snd (validateSelectedPair a)).
Proof.
  intros I Hl. unfold validateSelectedPair. destruct (selectedPair a) eqn:Hs; [|apply progress_refl].
  assert (connected (connectionState a) = true) as Hc by (apply selected_connected; congruence). simpl.
  repeat case_match; (apply progress_update; [done|]); destruct (connectionState a); auto; done.
Qed.

Lemma validateAndKeepAlive_calm a : calm (snd (validateSelectedPair a)) (validateAndKeepAlive a).
Proof.
  unfold validateAndKeepAlive. destruct (validateSelectedPair a) as [[|] b]; simpl; [|apply calm_refl].
  apply quiet_calm, quiet_keepalive.
Qed.

(** What a selector does when it contacts candidates: it supervises the
    selected pair, or nothing but checks. *)
Lemma Contact_cases a :
  calm (snd (validateSelectedPair a)) (ContactCandidates a) \/ calm a (ContactCandidates a).
Proof.
  unfold ContactCandidates. destruct (selector a) as [[lt [t n|]]|]; [| |right; apply calm_refl]; simpl.
  - unfold controlling_ContactCandidates. destruct (selectedPair a); [left; apply validateAndKeepAlive_calm|].
    right. destruct n as [p|]; [apply quiet_calm, quiet_nominate|].
    destruct (getBestValidCandidatePair a) as [p|]; [|apply calm_pingAll].
    destruct (pairNominatable t p a); [|apply calm_pingAll].
    eapply calm_trans; [by apply (nosucc_upd_pair p (set_nominated true))|].
    eapply calm_trans; [|apply quiet_calm, quiet_nominate]. by apply calm_same.
  - destruct lt; [left; apply calm_refl|]. unfold controlled_ContactCandidates.
    destruct (selectedPair a); [left; apply validateAndKeepAlive_calm|right; apply calm_pingAll].
Qed.

Lemma nosucc_Contact a : nosucc a (ContactCandidates a).
Proof.
  destruct (Contact_cases a) as [H|H]; [|apply H]. eapply nosucc_trans; [apply nosucc_validate|apply H].
Qed.

Lemma progress_Contact a : agent_inv a -> live (connectionState a) = true -> progress a (ContactCandidates a).
Proof.
  intros I Hl. destruct (Contact_cases a) as [H|H]; [|by apply calm_progress].
  eapply progress_trans; [by apply progress_validate|by apply calm_progress].
Qed.

Lemma nosucc_contactTask a : nosucc a (contactTask a).
Proof.
  unfold contactTask.
  match goal with |- nosucc _ (set_loop _ _ ?b) => apply (nosucc_trans _ b); [|by apply nosucc_pairs] end.
  destruct (connectionState a); try apply nosucc_Contact; [|by apply nosucc_pairs].
  set (d := if decide _ then _ else _). apply (nosucc_trans _ d); [unfold d; case_decide; by apply nosucc_pairs|].
  destruct (_ <? _); [apply nosucc_update|apply nosucc_Contact].
Qed.

Lemma progress_contactTask a : agent_inv a -> live (connectionState a) = true -> progress a (contactTask a).
Proof.
  intros I Hl. unfold contactTask.
  match goal with |- progress _ (set_loop _ _ ?b) =>
    apply (progress_trans _ b); [|by apply calm_progress, calm_same] end.
  destruct (connectionState a) eqn:Hc; try done; try (apply progress_Contact; [done|by rewrite Hc]);
    [|apply progress_refl].
  set (d := if decide _ then _ else _).
  assert (agent_inv d /\ calm a d) as [Id Cd].
  { unfold d. case_decide; [|by split; [|apply calm_refl]]. split; [|by apply calm_same].
    apply (inv_same a); try done. by split; simpl; auto. }
  assert (connectionState d = ConnectionStateChecking) as Hd by (by rewrite (c_state _ _ Cd)).
  eapply progress_trans; [by apply calm_progress|]. destruct (_ <? _).
  - apply progress_update; [done|]. rewrite Hd. by right.
  - apply progress_Contact; [done|by rewrite Hd].
Qed.

(** ** Responses and requests *)

(** The request that a response from [src] answers: it is pending, at most
    four seconds old, and it was sent to the address of the response. *)
Definition answered (m : Message) (src : net_Addr) a : Prop :=
  exists r d, r ∈ pendingBindingRequests a /\ transactionID r = ice_TransactionID m /\
    timeNow (env a) - timestamp r < maxBindingRequestTimeout /\
    destination r = Some d /\ addrEqual d src = true.

Lemma accept_effect m local remote src a o b :
  acceptResponse m local remote src a = (o, b) ->
  connectionState b = connectionState a /\ stateNotes b = stateNotes a /\
  forall p, state (pair b p) = CandidatePairStateSucceeded ->
    state (pair a p) = CandidatePairStateSucceeded \/
    (answered m src a /\ findPair local remote a = Some p).
Proof.
  unfold acceptResponse, handleInboundBindingSuccess.
  set (x := invalidatePendingBindingRequests _ a).
  destruct (list_find _ (pendingBindingRequests x)) as [[i r]|] eqn:F; [|intros [= <- <-]; auto].
  apply list_find_Some in F as (Hi & Ht & _). apply list_elem_of_lookup_2 in Hi.
  unfold x in Hi. simpl in Hi. apply list_elem_of_filter in Hi as [Hold Hin].
  destruct (destination r) as [d|] eqn:Hd; [|intros [= <- <-]; auto].
  destruct (addrEqual d src) eqn:Ha; [|intros [= <- <-]; auto].
  set (y := set_pendingBindingRequests _ x). change (findPair local remote y) with (findPair local remote a).
  destruct (findPair local remote a) as [q|]; intros [= <- <-]; [|auto]. split_and!; try done. intros p.
  destruct (decide (p = q)) as [->|Hp].
  - right. split; [|done]. by exists r, d.
  - left. revert H. unfold pair. simpl. rewrite !list_lookup_total_alt, list_lookup_alter_ne by done. done.
Qed.

(** A response makes a pair succeed only if it answers a request. *)
Lemma HandleSuccess_effect m local remote src a p :
  state (pair (HandleSuccessResponse m local remote src a) p) = CandidatePairStateSucceeded ->
  state (pair a p) = CandidatePairStateSucceeded \/
  (answered m src a /\ findPair local remote a = Some p).
Proof.
  intros H. unfold HandleSuccessResponse in H. destruct (inner <$> selector a) as [[t n|]|]; [| |by left].
  - unfold controlling_HandleSuccessResponse in H.
    destruct (acceptResponse m local remote src a) as [[[q r]|] b] eqn:Ha;
      apply accept_effect in Ha as (_ & _ & Hb); [|auto].
    destruct (_ && _) in H; [apply nosucc_setSelected in H|]; auto.
  - unfold controlled_HandleSuccessResponse in H.
    destruct (acceptResponse m local remote src a) as [[[q r]|] b] eqn:Ha;
      apply accept_effect in Ha as (_ & _ & Hb); [|auto].
    destruct (nominateOnBindingSuccess _) in H; [apply nosucc_selectNominated in H|]; auto.
Qed.

Lemma accept_progress m local remote src a o b :
  acceptResponse m local remote src a = (o, b) -> progress a b /\ connectionState b = connectionState a.
Proof.
  intros H. apply accept_effect in H as (Hs & Hn & _). split; [|done]. split; [|by rewrite Hs].
  exists []. by rewrite Hs, Hn, app_nil_r.
Qed.

Lemma progress_HandleSuccess m local remote src a : live (connectionState a) = true ->
  progress a (HandleSuccessResponse m local remote src a).
Proof.
  intros Hl. unfold HandleSuccessResponse. destruct (inner <$> selector a) as [[t n|]|]; [| |apply progress_refl].
  - unfold controlling_HandleSuccessResponse.
    destruct (acceptResponse m local remote src a) as [[[q r]|] b] eqn:Ha;
      apply accept_progress in Ha as [Pb Hb]; [|done]. rewrite <- Hb in Hl.
    destruct (_ && _); [|done]. eapply progress_trans; [done|by apply progress_setSelected].
  - unfold controlled_HandleSuccessResponse.
    destruct (acceptResponse m local remote src a) as [[[q r]|] b] eqn:Ha;
      apply accept_progress in Ha as [Pb Hb]; [|done]. rewrite <- Hb in Hl.
    destruct (nominateOnBindingSuccess _); [|done]. eapply progress_trans; [done|by apply progress_selectNominated].
Qed.

Lemma calm_findOrAdd local remote a : calm a (snd (findOrAdd local remote a)).
Proof. unfold findOrAdd. destruct (findPair local remote a); [apply calm_refl|apply calm_addPair]. Qed.

Lemma request_effect m local remote a :
  nosucc a (HandleBindingRequest m local remote a) /\
  (live (connectionState a) = true -> progress a (HandleBindingRequest m local remote a)).
Proof.
  unfold HandleBindingRequest. destruct (inner <$> selector a) as [[t n|]|];
    [| |split; [by apply nosucc_pairs|intros; apply progress_refl]].
  - unfold controlling_HandleBindingRequest. set (b := sendBindingSuccess m local remote a).
    assert (calm a b) as Cb by apply quiet_calm, quiet_sendBindingSuccess. clearbody b.
    destruct (findPair local remote b) as [p|].
    2:{ assert (calm a (snd (addPair local remote b))) as C by (eapply calm_trans; [done|apply calm_addPair]).
        split; [apply C|intros; by apply calm_progress]. }
    set (d := if decide _ then _ else _).
    assert (calm a d) as Cd.
    { apply (calm_trans _ b); [done|]. unfold d. case_decide; [|apply calm_refl].
      destruct (getBestAvailableCandidatePair b); [|apply calm_refl]. destruct (_ && _); [|apply calm_refl].
      set (s := controllingSelector t (Some p)). eapply calm_trans; [|apply quiet_calm, quiet_nominate].
      by apply calm_same. }
    clearbody d. split; [eapply nosucc_trans; [apply Cd|apply nosucc_callUserHandler]|].
    intros Hl. rewrite <- (c_state _ _ Cd) in Hl.
    eapply progress_trans; [by apply calm_progress|by apply progress_callUserHandler].
  - unfold controlled_HandleBindingRequest. pose proof (calm_findOrAdd local remote a) as Cb.
    unfold findOrAdd in Cb. destruct (match findPair local remote a with Some p => _ | None => _ end) as [p b].
    simpl in Cb. set (d := if Contains m AttrUseCandidate then _ else _).
    assert (nosucc a d /\ (live (connectionState a) = true -> progress a d)) as [Nd Pd].
    { unfold d. destruct (Contains m AttrUseCandidate); [case_decide|].
      - split; [eapply nosucc_trans; [apply Cb|apply nosucc_selectNominated]|]. intros Hl.
        eapply progress_trans; [by apply calm_progress|]. apply progress_selectNominated. by rewrite (c_state _ _ Cb).
      - assert (calm a (upd_pair p (set_nominateOnBindingSuccess true) b)) as C
          by (eapply calm_trans; [done|by apply nosucc_upd_pair]).
        split; [apply C|intros; by apply calm_progress].
      - split; [apply Cb|intros; by apply calm_progress]. }
    clearbody d. set (e := PingCandidate local remote _).
    assert (calm d e) as Ce by (eapply calm_trans; apply quiet_calm; [apply quiet_sendBindingSuccess|apply quiet_Ping]).
    clearbody e. split.
    + eapply nosucc_trans; [exact Nd|]. eapply nosucc_trans; [apply Ce|apply nosucc_callUserHandler].
    + intros Hl. eapply progress_trans; [by apply Pd|]. eapply progress_trans; [by apply calm_progress|].
      apply progress_callUserHandler. rewrite (c_state _ _ Ce). by apply (Pd Hl).
Qed.

(** ** Packets *)

(** The pair [p] was checked and [m] is the answer. *)
Definition passes (m : Message) (local : nat) (src : net_Addr) (p : nat) a : Prop :=
  ice_Class m = ClassSuccessResponse /\ ice_Integrity (remotePwd a) m = None /\ answered m src a /\
  exists r, findRemoteCandidate (networkType (cand a local)) src a = Some r /\ findPair local r a = Some p.

Lemma handleInbound_succ m local src a p :
  state (pair (handleInbound m local src a) p) = CandidatePairStateSucceeded ->
  state (pair a p) = CandidatePairStateSucceeded \/ passes m local src p a.
Proof.
  unfold handleInbound. destruct (_ || _); [auto|]. destruct (roleConflict m a); [auto|].
  set (f := findRemoteCandidate _ src a).
  destruct (ice_Class m) eqn:Hc.
  - destruct (negb _); [auto|]. destruct (ice_Integrity _ _); [auto|].
    destruct f as [r|]; [intros H; left; by apply (proj1 (request_effect m local r a)) in H|].
    pose proof (calm_newPeerReflexive local src a) as C. destruct (newPeerReflexive local src a) as [[r|] b];
      simpl in C; [|intros H; left; by apply C in H].
    intros H. left. apply C. by apply (proj1 (request_effect m local r b)) in H.
  - destruct f; auto.
  - destruct (ice_Integrity _ _) eqn:Hi; [auto|]. destruct f as [r|] eqn:Hf; [|auto].
    intros H. apply HandleSuccess_effect in H as [|[Ha Hp]]; [by left|]. right. by split_and!; [..|exists r].
  - destruct f; auto.
Qed.

Lemma progress_seen o i a b : progress a b -> progress a (seen o i b).
Proof. intros. eapply progress_trans; [done|]. apply calm_progress, quiet_calm, quiet_seen. Qed.

Lemma progress_handleInbound m local src a : live (connectionState a) = true ->
  progress a (handleInbound m local src a).
Proof.
  intros Hl. unfold handleInbound. destruct (_ || _); [apply progress_refl|].
  destruct (roleConflict m a); [apply progress_refl|]. set (f := findRemoteCandidate _ src a).
  destruct (ice_Class m).
  - destruct (negb _); [apply progress_refl|]. destruct (ice_Integrity _ _); [apply progress_refl|].
    destruct f as [r|]; [by apply progress_seen, request_effect|].
    pose proof (calm_newPeerReflexive local src a) as C. destruct (newPeerReflexive local src a) as [[r|] b];
      simpl in C; [|by apply calm_progress]. apply progress_seen.
    eapply progress_trans; [by apply calm_progress|]. apply request_effect. by rewrite (c_state _ _ C).
  - destruct f; auto using progress_seen, progress_refl.
  - destruct (ice_Integrity _ _); [apply progress_refl|]. destruct f; [|apply progress_refl].
    by apply progress_seen, progress_HandleSuccess.
  - destruct f; auto using progress_seen, progress_refl.
Qed.

(** Data does not touch checks or states. *)
Lemma quiet_data local p src a : IsMessage p = false -> quiet a (handleInboundPacket local p src a).
Proof.
  intros Hm. unfold handleInboundPacket. rewrite Hm.
  pose proof (quiet_cache local src a) as Q. destruct (validateSTUNTrafficCache local src a) as [[|] b]; simpl in Q.
  { eapply quiet_then; [done|apply quiet_deliver]. }
  destruct (validateNonSTUNTraffic local src b) as [r d] eqn:Hv.
  assert (quiet b d) as Qd by (unfold validateNonSTUNTraffic in Hv; repeat case_match; simplify_eq; auto with turn).
  eapply quiet_then; [done|]. destruct r; [|done]. eapply quiet_then; [done|].
  eapply quiet_then; [apply quiet_addCache|apply quiet_deliver].
Qed.

(** * Every step *)

Lemma calm_alloc_run task c a : (forall b i, calm b (task i b)) ->
  calm a (let '(i, a) := alloc_cand c a in snd (run (task i) a)).
Proof.
  intros Ht. cbn [alloc_cand]. set (b := set_candidates _ a).
  apply (calm_trans _ b); [by apply calm_same|]. unfold run. destruct (isDone b); [apply calm_refl|apply Ht].
Qed.

Lemma calm_orGenerate s gen a r b : orGenerate s gen a = (r, b) -> quiet a b.
Proof. unfold orGenerate. repeat case_match; intros; simplify_eq; auto with turn. Qed.

(** The calls that leave checks and states alone. *)
Definition plain_op (o : iop) : bool :=
  match o with
  | OpPacket _ p _ => negb (IsMessage p)
  | OpContact | OpStart _ _ _ | OpRestart _ _ | OpClose => false
  | _ => true
  end.

Lemma calm_plain o a : plain_op o = true -> calm a (run_iop o a).
Proof.
  destruct o; cbn [plain_op run_iop]; try done; intros Ho.
  - apply quiet_calm, quiet_data. by destruct (IsMessage p).
  - unfold AddRemoteCandidate. case_decide; [apply calm_refl|]. case_decide.
    + case_decide; [apply calm_refl|]. destruct (mdns_Query _ _) as [answer w]. cbn [snd].
      apply (calm_trans _ (set_env w a)); [by apply calm_same|].
      destruct answer as [ip|]; [|apply calm_refl]. destruct (setIP ip c) as [c'|e]; [|apply calm_refl].
      apply (calm_alloc_run addRemoteCandidate). intros. apply calm_addRemote.
    + apply (calm_alloc_run addRemoteCandidate). intros. apply calm_addRemote.
  - apply (calm_alloc_run addCandidate). intros. apply calm_addCandidate.
  - unfold SetRemoteCredentials, run. repeat (case_match; [apply calm_refl|]). by apply calm_same.
  - unfold setGatheringState, run. case_match; [apply calm_refl|]. simpl. apply calm_same; by case_decide.
  - unfold Conn_Write. destruct (isDone a); [apply calm_refl|]. destruct (IsMessage p); [apply calm_refl|].
    destruct (match selectedPair a with Some q => Some q | None => getBestValidCandidatePair a end); [|apply calm_refl].
    destruct (writeTo _ _ _ _) as [[n' e] b] eqn:Hw. simpl. apply quiet_calm. by eapply quiet_writeTo.
  - unfold Conn_Read. case_match; [apply calm_refl|]. destruct (PacketBuffer.Read _ _). by apply calm_same.
Qed.

(** [advance]: the states an agent goes through. *)
Definition advance a b : Prop :=
  exists l, stateNotes b = stateNotes a ++ l /\ path (connectionState a) l (connectionState b).

Lemma calm_advance a b : calm a b -> advance a b.
Proof. intros H. apply (calm_progress _ _ H). Qed.

Lemma advance_trans a b c : advance a b -> advance b c -> advance a c.
Proof.
  intros (l & H1 & P1) (l' & H2 & P2). exists (l ++ l'). rewrite H2, H1, app_assoc. eauto using path_app.
Qed.

Lemma advance_update s a : connectionState a = s \/ transition (connectionState a) s = true ->
  advance a (updateConnectionState s a).
Proof.
  intros Ht. destruct (update_effect s a) as (_ & Hs & Hn). unfold advance. rewrite Hn, Hs.
  case_decide as Hd; [exists []; by rewrite app_nil_r|]. destruct Ht as [|Ht]; [done|]. by exists [s].
Qed.

Lemma calm_selector_Start a : calm a (selector_Start a).
Proof.
  unfold selector_Start. destruct (inner <$> selector a) as [[t n|]|]; try apply calm_refl. by apply calm_same.
Qed.

Lemma calm_deleteAll a : calm a (deleteAllCandidates a).
Proof. destruct (deleteAll_spec a) as (d & Q & ->). destruct Q. by apply calm_same. Qed.

(** Starting, restarting and closing first prepare the agent and then move
    its state. *)
Lemma startTask_shape controlling ufrag pwd a : exists x, calm a x /\
  calm (updateConnectionState ConnectionStateChecking x) (startTask controlling ufrag pwd a).
Proof.
  unfold startTask. set (b := set_selector _ _). set (x := set_startedCh true (selector_Start b)). exists x.
  split; [|set (y := updateConnectionState _ x); clearbody y; by apply calm_same]. apply (calm_trans _ b); [by apply calm_same|].
  eapply calm_trans; [apply calm_selector_Start|by apply calm_same].
Qed.

Lemma restartTask_shape ufrag pwd a : exists x, calm a x /\
  restartTask ufrag pwd a =
    if decide (connectionState x <> ConnectionStateNew)
    then updateConnectionState ConnectionStateChecking x else x.
Proof.
  unfold restartTask. set (b := if decide (gatheringState a = _) then _ else a). set (c := setSelectedPair None _).
  eexists. split; [|done]. apply (calm_trans _ b); [unfold b; case_decide; by apply calm_same|].
  apply (calm_trans _ c); [by apply calm_same|].
  eapply calm_trans; [apply calm_deleteAll|apply calm_selector_Start].
Qed.

Lemma Close_shape a : isDone a = false -> exists x, calm a x /\
  calm (updateConnectionState ConnectionStateClosed x) (snd (Close a)).
Proof.
  intros Hd. unfold Close. rewrite Hd. cbn [snd]. set (b := set_isDone true _). set (x := set_buf _ _). exists x.
  split; [|set (y := updateConnectionState _ x); clearbody y; by apply calm_same]. apply (calm_trans _ b); [by apply calm_same|].
  eapply calm_trans; [apply calm_deleteAll|by apply calm_same].
Qed.

(** The states of an agent that is not closed. *)
Lemma open_state a : agent_inv a -> isDone a = false ->
  connectionState a = ConnectionStateNew \/ live (connectionState a) = true.
Proof.
  intros I Hd. destruct (inv_selection _ I). destruct (startedCh a); [right; auto|left].
  by apply s_unstarted.
Qed.

Lemma advance_startTask controlling ufrag pwd a : connectionState a = ConnectionStateNew ->
  advance a (startTask controlling ufrag pwd a).
Proof.
  intros Hn. destruct (startTask_shape controlling ufrag pwd a) as (x & Cx & Cr).
  eapply advance_trans; [by apply calm_advance|]. eapply advance_trans; [|by apply calm_advance].
  apply advance_update. rewrite (c_state _ _ Cx), Hn. by right.
Qed.

Lemma advance_restartTask ufrag pwd a : agent_inv a -> isDone a = false -> advance a (restartTask ufrag pwd a).
Proof.
  intros I Hd. destruct (restartTask_shape ufrag pwd a) as (x & Cx & ->).
  eapply advance_trans; [by apply calm_advance|]. pose proof (open_state a I Hd) as Ho.
  rewrite <- (c_state _ _ Cx) in Ho. case_decide as Hn; [|apply calm_advance, calm_refl].
  apply advance_update. destruct Ho as [|Hl]; [done|]. destruct (connectionState x); auto; done.
Qed.

Lemma advance_Close a : agent_inv a -> advance a (snd (Close a)).
Proof.
  intros I. destruct (isDone a) eqn:Hd; [unfold Close; rewrite Hd; apply calm_advance, calm_refl|].
  destruct (Close_shape a Hd) as (x & Cx & Cr). pose proof (open_state a I Hd) as Ho.
  rewrite <- (c_state _ _ Cx) in Ho.
  eapply advance_trans; [by apply calm_advance|]. eapply advance_trans; [|by apply calm_advance].
  apply advance_update. right. destruct Ho as [->|Hl]; [done|]. by destruct (connectionState x).
Qed.

Lemma advance_step o a : allowed o a -> agent_inv a -> advance a (run_iop o a).
Proof.
  intros Hal I. destruct (plain_op o) eqn:Hp; [by apply calm_advance, calm_plain|].
  pose proof (s_live _ (inv_selection _ I)) as Hlive.
  destruct o as [local p src| | | |controlling ufrag pwd|ufrag pwd| | | | |]; cbn [plain_op run_iop] in *; try done.
  - destruct Hal as [Hst _]. unfold handleInboundPacket. destruct (IsMessage p); [|done].
    destruct (ice_Decode p); [|apply calm_advance, calm_refl]. unfold run.
    destruct (isDone a) eqn:Hd; [apply calm_advance, calm_refl|]. apply progress_handleInbound. auto.
  - unfold contact, run. destruct (isDone a) eqn:Hd; [apply calm_advance, calm_refl|].
    apply progress_contactTask; auto.
  - unfold startConnectivityChecks. destruct (startedCh a) eqn:Hst; [apply calm_advance, calm_refl|].
    unfold SetRemoteCredentials, run. do 2 (destruct (String.eqb _ _); [apply calm_advance, calm_refl|]).
    destruct (isDone a) eqn:Hd; [apply calm_advance, calm_refl|]. simpl isDone. rewrite Hd. simpl snd.
    apply (advance_trans _ (set_remote_cred ufrag pwd a)); [by apply calm_advance, calm_same|].
    apply advance_startTask. by apply (s_unstarted _ (inv_selection _ I)).
  - unfold Restart. destruct (orGenerate ufrag generateUFrag a) as [u b] eqn:Hu. apply calm_orGenerate in Hu as Qb.
    destruct u as [u|]; [|by apply calm_advance, quiet_calm].
    destruct (orGenerate pwd generatePwd b) as [w d] eqn:Hw. apply calm_orGenerate in Hw as Qd.
    pose proof (quiet_then _ _ _ Qb Qd) as Q. pose proof (calm_advance _ _ (quiet_calm _ _ Q)) as Ad.
    destruct w as [w|]; [|done]. repeat (case_match; [done|]). unfold run.
    destruct (isDone d) eqn:Hd; [done|]. eapply advance_trans; [done|].
    apply advance_restartTask; [|done]. by eapply inv_quiet.
  - by apply advance_Close.
Qed.

Lemma advance_steps a b : rtc istep a b -> agent_inv a -> advance a b.
Proof.
  induction 1 as [a|a b c Hs _ IH]; intros I; [apply calm_advance, calm_refl|].
  apply (advance_trans _ b); [|by apply IH, (istep_inv a)]. destruct Hs; [by apply advance_step|].
  by apply calm_advance, calm_same.
Qed.

Lemma nosucc_step o a p :
  state (pair (run_iop o a) p) = CandidatePairStateSucceeded ->
  state (pair a p) = CandidatePairStateSucceeded \/
  exists local pkt src m, o = OpPacket local pkt src /\ IsMessage pkt = true /\ ice_Decode pkt = Ok m /\
    isDone a = false /\ passes m local src p a.
Proof.
  destruct (plain_op o) eqn:Hp; [intros H; left; by apply (c_pairs _ _ (calm_plain o a Hp))|].
  destruct o as [local pkt src| | | |controlling ufrag pwd|ufrag pwd| | | | |]; cbn [plain_op run_iop] in *; try done.
  - unfold handleInboundPacket. destruct (IsMessage pkt) eqn:Hm; [|done].
    destruct (ice_Decode pkt) as [m|] eqn:Hdec; [|auto]. unfold run. destruct (isDone a) eqn:Hd; [auto|].
    intros H. apply handleInbound_succ in H as [|H]; [by left|]. right. by exists local, pkt, src, m.
  - unfold contact, run. destruct (isDone a); [auto|]. intros H. left. by apply nosucc_contactTask.
  - unfold startConnectivityChecks. destruct (startedCh a); [auto|]. unfold SetRemoteCredentials, run.
    do 2 (destruct (String.eqb _ _); [auto|]). destruct (isDone a) eqn:Hd; [auto|].
    simpl isDone. rewrite Hd. simpl snd. intros H. left.
    destruct (startTask_shape controlling ufrag pwd (set_remote_cred ufrag pwd a)) as (x & Cx & Cr).
    by apply Cr, nosucc_update, Cx in H.
  - unfold Restart. destruct (orGenerate ufrag generateUFrag a) as [u b] eqn:Hu. apply calm_orGenerate in Hu as Qb.
    destruct u as [u|]; [|intros H; left; by apply (quiet_calm _ _ Qb)].
    destruct (orGenerate pwd generatePwd b) as [w d] eqn:Hw. apply calm_orGenerate in Hw as Qd.
    pose proof (quiet_calm _ _ (quiet_then _ _ _ Qb Qd)) as C. destruct w as [w|]; [|intros H; left; by apply C].
    repeat (case_match; [intros Hx; left; by apply C|]). unfold run.
    destruct (isDone d) eqn:Hd; [intros Hx; left; by apply C|]. simpl snd. intros Hx. left. apply C.
    destruct (restartTask_shape u w d) as (x & Cx & Hr). rewrite Hr in Hx. apply Cx.
    case_decide; [by apply nosucc_update in Hx|done].
  - intros H. left. destruct (isDone a) eqn:Hd; [unfold Close in H; by rewrite Hd in H|].
    destruct (Close_shape a Hd) as (x & Cx & Cr). by apply Cr, nosucc_update, Cx in H.
Qed.

(** * The guarantees *)

(** C4. The ICE agent keeps its invariant under every sequence of calls,
    incoming packets and timer ticks: references lead to candidates and pairs,
    no remote candidate is kept twice, and neither a local candidate nor a pair is if
    the agent opens no TCP connections itself; until the agent is closed the
    checklist has only pairs of known candidates; the selected pair is a nominated
    pair of the checklist, whose check succeeded if the application has not
    installed a handler of its own for binding requests; without a selected pair the
    connection is neither Connected nor Disconnected, with one it is one of them
    until the agent is closed; an agent not yet started is New without a pair; and
    only a closed one is Closed. *)
Theorem agent_invariant (settings : Settings SM) (w : W) a :
  0 <= maxBindingRequests settings < 65536 -> rtc istep (allocAgent settings w) a ->
  refs_ok a /\ selection_ok a.
Proof.
  intros Hm H. assert (agent_inv a) as [Hr Hs _ _]; [|done].
  eapply isteps_inv; [done|]. by apply inv_alloc_agent.
Qed.

(** C5. The state of the connection refines the machine [transition]: the
    states an agent has reported to its handler are a path of that machine
    from New to the state the agent is in, whatever calls, packets and timer
    ticks it has served. *)
Theorem connection_state_refines (settings : Settings SM) (w : W) a :
  0 <= maxBindingRequests settings < 65536 -> rtc istep (allocAgent settings w) a ->
  path ConnectionStateNew (stateNotes a) (connectionState a).
Proof.
  intros Hm H. destruct (advance_steps _ _ H (inv_alloc_agent settings w Hm)) as (l & Hl & Hp).
  simpl in Hl. by rewrite Hl.
Qed.

(** C6. A candidate pair passes its check only in one way: by a packet that
    decodes to a success response with a valid message integrity under the
    remote password, whose transaction is that of a pending request at most
    four seconds old, that comes from the address this request was sent to,
    and that arrived on the local candidate of the pair from its remote
    candidate.  No other call, packet or timer tick makes a pair Succeeded. *)
Theorem pair_succeeds_only_by_answered_check o a p :
  state (pair a p) <> CandidatePairStateSucceeded ->
  state (pair (run_iop o a) p) = CandidatePairStateSucceeded ->
  exists local pkt src m r, o = OpPacket local pkt src /\ ice_Decode pkt = Ok m /\
    ice_Class m = ClassSuccessResponse /\ ice_Integrity (remotePwd a) m = None /\ answered m src a /\
    findRemoteCandidate (networkType (cand a local)) src a = Some r /\
    key (cand a (Local (pair a p))) = key (cand a local) /\
    key (cand a (Remote (pair a p))) = key (cand a r).
Proof.
  intros Hn Hs. destruct (nosucc_step o a p Hs) as [|(local & pkt & src & m & -> & _ & Hd & _ & Hp)]; [done|].
  destruct Hp as (Hc & Hi & Ha & r & Hr & Hf). apply findPair_Some in Hf as [_ Hk].
  pose proof (f_equal fst Hk) as Hkl. pose proof (f_equal snd Hk) as Hkr. by exists local, pkt, src, m, r.
Qed.

(** Whether the agent accepts the message as one of its peer. *)
Definition authentic (m : Message) a : bool :=
  match ice_Class m with
  | ClassRequest =>
      AssertUsername m (localUfrag a +:+ ":" +:+ remoteUfrag a) &&
      match ice_Integrity (localPwd a) m with None => true | Some _ => false end
  | ClassSuccessResponse => match ice_Integrity (remotePwd a) m with None => true | Some _ => false end
  | _ => false
  end.

(** C15. A STUN packet that is not an authentic request or response of the
    peer changes nothing: the agent is as before, except that an indication
    from the address of a known candidate counts as a sign of life of that
    candidate. *)
Theorem unauthenticated_message_ignored local pkt src a :
  IsMessage pkt = true -> (forall m, ice_Decode pkt = Ok m -> authentic m a = false) ->
  handleInboundPacket local pkt src a = a \/
  exists m r, ice_Decode pkt = Ok m /\ ice_Class m = ClassIndication /\
    findRemoteCandidate (networkType (cand a local)) src a = Some r /\
    handleInboundPacket local pkt src a = seen false r a.
Proof.
  intros Hm Hauth. unfold handleInboundPacket. rewrite Hm. destruct (ice_Decode pkt) as [m|]; [|by left].
  specialize (Hauth m eq_refl). unfold run. destruct (isDone a); [by left|]. simpl snd.
  unfold handleInbound. destruct (_ || _) eqn:Hcls; [by left|]. destruct (roleConflict m a); [by left|].
  unfold authentic in Hauth. destruct (ice_Class m) eqn:Hc.
  - left. destruct (AssertUsername _ _); [|done]. simpl in *. by destruct (ice_Integrity _ _).
  - destruct (findRemoteCandidate _ src a) as [r|] eqn:Hf; [|by left]. right. by exists m, r.
  - left. by destruct (ice_Integrity _ _).
  - exfalso. destruct (bool_decide (ice_Method m = MethodBinding)); done.
Qed.

(** ** Supervision *)

(** What silence of [idle] makes of a connection with a selected pair, and
    the time [elapsed] of an agent that is checking. *)
Definition supervised (disc fail idle : Z) : ConnectionState :=
  if bool_decide (0 < fail /\ disc + fail < idle) then ConnectionStateFailed
  else if bool_decide (0 < disc /\ disc < idle) then ConnectionStateDisconnected
  else ConnectionStateConnected.

Definition checking_for (disc fail elapsed : Z) : ConnectionState :=
  if bool_decide (disc + fail < elapsed) then ConnectionStateFailed else ConnectionStateChecking.

Lemma contact_connected a : isDone a = false -> selector a <> None -> selectedPair a <> None ->
  connected (connectionState a) = true ->
  let v := snd (validateSelectedPair a) in
  connectionState (contact a) = connectionState v /\ selectedPair (contact a) = selectedPair v /\
  checklist (contact a) = checklist v /\ localCandidates (contact a) = localCandidates v /\
  remoteCandidates (contact a) = remoteCandidates v.
Proof.
  intros Hd Hsel Hsp Hc v. unfold contact, run. rewrite Hd. cbn [snd]. unfold contactTask.
  assert (quiet v (ContactCandidates a)) as Q.
  { unfold ContactCandidates. destruct (selector a) as [[lt s]|]; [|done].
    assert (quiet v (validateAndKeepAlive a)) as Qv.
    { unfold validateAndKeepAlive, v. destruct (validateSelectedPair a) as [[|] b]; simpl;
        [apply quiet_keepalive|apply quiet_same]. }
    simpl. destruct s as [t n|].
    - unfold controlling_ContactCandidates. by destruct (selectedPair a).
    - destruct lt; [apply quiet_same|]. unfold controlled_ContactCandidates. by destruct (selectedPair a). }
  destruct Q. destruct (connectionState a); done.
Qed.

(** C29. Supervision of the selected pair: at a tick of the timer the
    connection becomes Failed when nothing was received from the selected
    remote candidate for longer than the disconnected and the failed timeout
    together, Disconnected when for longer than the disconnected timeout, and
    Connected otherwise (the two timeouts are not negative and their sum is a
    [time.Duration], below 2^63 ns); a timeout of zero is never reached.  A failed
    connection has given up its pairs, its candidates and its selected pair,
    one that is not failed keeps the selected pair. *)
Theorem supervision_correct a p :
  agent_inv a -> startedCh a = true -> isDone a = false -> selector a <> None -> selectedPair a = Some p ->
  0 <= disconnectedTimeout (cfg a) -> 0 <= failedTimeout (cfg a) ->
  disconnectedTimeout (cfg a) + failedTimeout (cfg a) < 2 ^ 63 ->
  let next := supervised (disconnectedTimeout (cfg a)) (failedTimeout (cfg a))
                (since a (lastReceived (cand a (Remote (pair a p))))) in
  connectionState (contact a) = next /\
  (if decide (next = ConnectionStateFailed)
   then selectedPair (contact a) = None /\ checklist (contact a) = [] /\
        localCandidates (contact a) = ∅ /\ remoteCandidates (contact a) = ∅
   else selectedPair (contact a) = Some p).
Proof.
  intros I Hst Hd Hsel Hp Hdisc Hfail Hsum next. unfold next, supervised.
  set (idle := since a _). set (disc := disconnectedTimeout (cfg a)). set (fail := failedTimeout (cfg a)).
  assert (connected (connectionState a) = true) as Hc.
  { apply selected_connected; [done| |congruence]. by apply (s_live _ (inv_selection _ I)). }
  destruct (contact_connected a Hd Hsel ltac:(congruence) Hc) as (-> & -> & -> & -> & ->).
  unfold validateSelectedPair. rewrite Hp. fold idle disc fail. cbn [snd].
  rewrite i64_small by (unfold disc, fail; lia).
  set (total := if negb (fail =? 0) then fail + disc else fail).
  assert (negb (total =? 0) && (total <? idle) = bool_decide (0 < fail /\ disc + fail < idle)) as ->.
  { apply eq_true_iff_eq. rewrite bool_decide_eq_true, andb_true_iff, negb_true_iff, Z.eqb_neq, Z.ltb_lt.
    unfold total, disc, fail in *. destruct (Z.eqb_spec (failedTimeout (cfg a)) 0); simpl; lia. }
  assert (negb (disc =? 0) && (disc <? idle) = bool_decide (0 < disc /\ disc < idle)) as ->.
  { unfold disc in *. apply eq_true_iff_eq. rewrite bool_decide_eq_true. lia. }
  case_bool_decide; [rewrite decide_True by done|].
  - destruct (update_failed_spec a) as (H1 & H2 & H3 & H4 & H5 & H6 & _); [by intros Hx; rewrite Hx in Hc|].
    by rewrite H1, H3, H4, H5, H6.
  - assert (forall s, s <> ConnectionStateFailed -> selectedPair (updateConnectionState s a) = Some p) as Hu.
    { intros s Hs. rewrite update_plain by done. by case_decide. }
    case_bool_decide; rewrite decide_False by done; (split; [apply update_effect|by apply Hu]).
Qed.

(** An agent that is checking gives up after the disconnected and the
    failed timeout together, also when the failed timeout is zero, and keeps
    checking until then. *)
Theorem checking_gives_up a :
  agent_inv a -> isDone a = false -> connectionState a = ConnectionStateChecking ->
  lastConnectionState a = ConnectionStateChecking ->
  - 2 ^ 63 <= disconnectedTimeout (cfg a) + failedTimeout (cfg a) < 2 ^ 63 ->
  connectionState (contact a) =
    checking_for (disconnectedTimeout (cfg a)) (failedTimeout (cfg a)) (since a (checkingDuration a)).
Proof.
  intros I Hd Hc Hl Hsum. unfold checking_for. unfold contact, run. rewrite Hd. cbn [snd]. unfold contactTask. rewrite Hc.
  rewrite (decide_False (P := lastConnectionState a <> ConnectionStateChecking)) by (by intros []).
  cbn [connectionState set_loop]. rewrite i64_small by lia. rewrite bool_decide_decide. destruct (_ <? _) eqn:E1; case_decide; try lia.
  - apply update_effect.
  - destruct (Contact_cases a) as [C|C]; rewrite (c_state _ _ C); [|done].
    assert (selectedPair a = None) as Hs.
    { destruct (selectedPair a) eqn:Hs; [|done].
      destruct (s_some _ (inv_selection _ I)) as [Hx|Hx]; [congruence|by rewrite Hc in Hx|congruence]. }
    unfold validateSelectedPair. by rewrite Hs.
Qed.

(** ** Nomination *)

Lemma list_find_unique {A} (P : A -> Prop) `{forall x, Decision (P x)} (l : list A) q :
  q ∈ l -> P q -> (forall x, x ∈ l -> P x -> x = q) -> exists i, list_find P l = Some (i, q).
Proof.
  intros Hin Hq Hu. destruct (list_find_elem_of P l q Hin Hq) as [[i x] Hx]. exists i. rewrite Hx.
  apply list_find_Some in Hx as (Hi & Hpx & _). by rewrite (Hu x (list_elem_of_lookup_2 _ _ _ Hi) Hpx).
Qed.

(** Nomination completes: when the controlling agent has no selected pair
    and receives the authentic answer to a pending request that carried
    USE-CANDIDATE, from the address the request went to, it selects the pair
    of the candidates, the pair is nominated and Succeeded, the connection is
    Connected, whoever waits for it is released and the handler is told, and
    the request is no longer pending. *)
Theorem nomination_answered_connects m local src a t n r q d p :
  agent_inv a -> inner <$> selector a = Some (controllingSelector t n) -> selectedPair a = None ->
  ice_Method m = MethodBinding -> ice_Class m = ClassSuccessResponse -> roleConflict m a = false ->
  ice_Integrity (remotePwd a) m = None ->
  findRemoteCandidate (networkType (cand a local)) src a = Some r -> findPair local r a = Some p ->
  q ∈ pendingBindingRequests a -> transactionID q = ice_TransactionID m ->
  (forall x, x ∈ pendingBindingRequests a -> transactionID x = ice_TransactionID m -> x = q) ->
  timeNow (env a) - timestamp q < maxBindingRequestTimeout -> isUseCandidate q = true ->
  destination q = Some d -> addrEqual d src = true ->
  let b := handleInbound m local src a in
  selectedPair b = Some p /\ connectionState b = ConnectionStateConnected /\
  state (pair b p) = CandidatePairStateSucceeded /\ nominated (pair b p) = true /\
  onConnected b = true /\ pairNotes b = pairNotes a ++ [p] /\
  (NoDup (pendingBindingRequests a) -> q ∉ pendingBindingRequests b).
Proof.
  intros I Hsel Hnone Hmeth Hcls Hrole Hint Hr Hp Hq Htid Huniq Hage Huse Hd Haddr b.
  destruct (findPair_Some _ _ _ _ Hp) as [Hin _]. destruct (r_checklist _ (inv_refs _ I) p Hin) as [Hlt _].
  unfold b, handleInbound. rewrite Hmeth, Hcls. cbn [negb orb bool_decide]. rewrite Hrole, Hint, Hr. simpl.
  unfold HandleSuccessResponse. rewrite Hsel. unfold controlling_HandleSuccessResponse, acceptResponse, handleInboundBindingSuccess.
  set (x := invalidatePendingBindingRequests _ a).
  destruct (list_find_unique (fun r => transactionID r = ice_TransactionID m) (pendingBindingRequests x) q) as [i Hi];
    [by apply list_elem_of_filter|done| |].
  { intros y Hy. apply list_elem_of_filter in Hy as [_ Hy]. by apply Huniq. }
  rewrite Hi, Hd, Haddr. set (y := set_pendingBindingRequests _ x).
  change (findPair local r y) with (findPair local r a). rewrite Hp, Huse. simpl selectedPair. rewrite Hnone. simpl bool_decide.
  cbn [andb]. set (z := upd_pair p _ y). unfold setSelectedPair. rewrite update_plain by done.
  assert (pair (seen false r (upd_pair p (set_nominated true) z)) p = set_nominated true (set_state CandidatePairStateSucceeded (pair a p))) as Hpair.
  { unfold pair. simpl. rewrite !list_lookup_total_alter, length_alter. by rewrite !decide_True. }
  assert (NoDup (pendingBindingRequests a) -> q ∉ pendingBindingRequests y) as Hgone.
  { intros Hnd Hqy. simpl in Hqy. apply list_find_Some in Hi as (Hi & _).
    assert (NoDup (pendingBindingRequests x)) as Hndx by by apply NoDup_filter.
    rewrite <- (take_drop_middle _ _ _ Hi) in Hndx. apply NoDup_app in Hndx as (_ & Hdis & Hndr).
    apply NoDup_cons in Hndr as [Hnr _]. apply elem_of_app in Hqy as [Hqt|Hqt]; [|done].
    apply (Hdis q Hqt). apply list_elem_of_here. }
  case_decide as Hcs.
  - simpl in Hcs. unfold pair. simpl. rewrite Hcs. unfold pair in Hpair. simpl in Hpair. rewrite Hpair. done.
  - unfold pair in *. simpl in *. rewrite Hpair. done.
Qed.

End Theorems.

(** * Priorities of pairs *)

(** The priority of RFC 8445, 6.1.2.3, and the formula of the code without
    the wrap-around of uint64. *)
Definition pairPriority (k g d : Z) : Z :=
  k * Z.min g d + 2 * Z.max g d + (if d <? g then 1 else 0).

Lemma priority_of_exact g d : 0 <= g < 2 ^ 32 -> 0 <= d < 2 ^ 32 ->
  priority_of g d = pairPriority (2 ^ 32 - 1) g d.
Proof.
  intros Hg Hd. unfold priority_of, pairPriority.
  replace (if g <? d then g else d) with (Z.min g d) by (destruct (Z.ltb_spec g d); lia).
  replace (if d <? g then g else d) with (Z.max g d) by (destruct (Z.ltb_spec d g); lia).
  change (Z.shiftl 1 32 - 1) with (2 ^ 32 - 1).
  rewrite (u64_small ((2 ^ 32 - 1) * _)), (u64_small (2 * _)) by lia.
  destruct (Z.ltb_spec d g); apply u64_small; lia.
Qed.

(** The smaller priority decides, then the larger one, then the role. *)
Lemma pairPriority_lex k g d g' d' : 2 ^ 32 - 1 <= k -> 1 <= g < 2 ^ 31 -> 1 <= d < 2 ^ 31 ->
  1 <= g' < 2 ^ 31 -> 1 <= d' < 2 ^ 31 ->
  pairPriority k g d < pairPriority k g' d' <->
  Z.min g d < Z.min g' d' \/
  (Z.min g d = Z.min g' d' /\ pairPriority 0 g d < pairPriority 0 g' d').
Proof.
  intros Hk Hg Hd Hg' Hd'. unfold pairPriority.
  set (e := if d <? g then 1 else 0). set (e' := if d' <? g' then 1 else 0).
  assert (0 <= e <= 1 /\ 0 <= e' <= 1) as [He He'] by (unfold e, e'; destruct (d <? g), (d' <? g'); lia).
  clearbody e e'. set (m := Z.min g d). set (m' := Z.min g' d').
  assert (m < m' -> k * m + k <= k * m') by nia. assert (m' < m -> k * m' + k <= k * m) by nia.
  assert (m = m' -> k * m = k * m') by congruence. lia.
Qed.

(** The priority of a candidate pair: whatever the 32-bit priorities of
    its candidates are, the computation in uint64 does not wrap around, and for
    the priorities that RFC 8445 allows (1 to 2^31 - 1) pairs are ordered as
    by the RFC's formula, although the code multiplies by 2^32 - 1 where the
    RFC has 2^32. *)
Theorem pair_priority_correct (g d g' d' : Z) :
  1 <= g < 2 ^ 31 -> 1 <= d < 2 ^ 31 -> 1 <= g' < 2 ^ 31 -> 1 <= d' < 2 ^ 31 ->
  (forall x y, 0 <= x < 2 ^ 32 -> 0 <= y < 2 ^ 32 ->
     priority_of x y = pairPriority (2 ^ 32 - 1) x y /\ 0 <= priority_of x y < 2 ^ 64) /\
  (priority_of g d < priority_of g' d' <-> pairPriority (2 ^ 32) g d < pairPriority (2 ^ 32) g' d') /\
  (priority_of g d = priority_of g' d' <-> pairPriority (2 ^ 32) g d = pairPriority (2 ^ 32) g' d').
Proof.
  intros Hg Hd Hg' Hd'. split.
  - intros x y Hx Hy. split; [by apply priority_of_exact|]. apply u64_range.
  - rewrite !priority_of_exact by lia.
    pose proof (pairPriority_lex (2 ^ 32 - 1) g d g' d') as L1. pose proof (pairPriority_lex (2 ^ 32) g d g' d') as L2.
    pose proof (pairPriority_lex (2 ^ 32 - 1) g' d' g d) as L3. pose proof (pairPriority_lex (2 ^ 32) g' d' g d) as L4.
    lia.
Qed.

Lemma pair_priority_correct_witness :
  priority_of 2130706431 1694498815 = pairPriority (2 ^ 32 - 1) 2130706431 1694498815 /\
  (priority_of 100 200 < priority_of 200 101 <-> pairPriority (2 ^ 32) 100 200 < pairPriority (2 ^ 32) 200 101).
Proof.
  split; [apply (pair_priority_correct 1 1 1 1); lia|apply (pair_priority_correct 100 200 200 101); lia].
Defined.

(** * Two concrete agents *)

(** Messages are their bytes: a zero, the class, the transaction, the role
    attribute, USE-CANDIDATE, the username and, as integrity, the password
    itself.  Connections record what is written to them. *)
Module TestAgents.

Definition text (s : string) : bytes := char_code <$> list_ascii_of_string s.

Definition field (m : bytes) (t : AttrType) : result unit bytes :=
  let has b := if b : bool then Ok [] else Err tt in
  match t with
  | AttrICEControlling => has (byte_at m 3 =? 1)
  | AttrICEControlled => has (byte_at m 3 =? 2)
  | AttrUseCandidate => has (byte_at m 4 =? 1)
  | _ => Err tt
  end.

#[export] Instance msgs : StunMessage := {|
  Message := bytes; StunError := unit; msg_Get := field; msg_Add m _ _ := m;
  CheckSize _ got expected := if got =? expected then None else Some tt |}.

Definition class_code (c : MessageClass) : Z :=
  match c with ClassRequest => 0 | ClassIndication => 1 | ClassSuccessResponse => 2 | ClassErrorResponse => 3 end.

Definition ulen (m : bytes) : nat := Z.to_nat (byte_at m 5).

#[export] Instance stun : IceStun msgs := {|
  ice_Method _ := MethodBinding;
  ice_Class m := if byte_at m 1 =? 0 then ClassRequest else if byte_at m 1 =? 1 then ClassIndication
                 else if byte_at m 1 =? 2 then ClassSuccessResponse else ClassErrorResponse;
  ice_TransactionID m := [byte_at m 2];
  ice_Raw m := m;
  IsMessage p := byte_at p 0 =? 0;
  ice_Decode p := Ok p;
  ice_Username m := Ok (string_of_list_ascii ((fun z => ascii_of_nat (Z.to_nat z)) <$> take (ulen m) (drop 6 m)));
  ice_Integrity pwd m := if decide (drop (6 + ulen m) m = text pwd) then None else Some tt |}.

Record world := { now : Z; counter : Z; sent : list (nat * bytes * option net_Addr) }.

(** What the setters write: class, transaction, role, USE-CANDIDATE, username
    and password. *)
Definition build1 (fresh : Z) (x : bytes * bytes * bytes) (s : Setter) : bytes * bytes * bytes :=
  let '(h, u, k) := x in
  match s with
  | SetType _ c => (<[1%nat := class_code c]> h, u, k)
  | SetTransactionID t => (<[2%nat := byte_at t 0]> h, u, k)
  | SetNewTransactionID => (<[2%nat := fresh]> h, u, k)
  | SetICEControlling _ => (<[3%nat := 1]> h, u, k)
  | SetICEControlled _ => (<[3%nat := 2]> h, u, k)
  | SetUseCandidate => (<[4%nat := 1]> h, u, k)
  | SetUsername s => (h, text s, k)
  | SetShortTermIntegrity s => (h, u, text s)
  | _ => x
  end.

Definition build (l : list Setter) (w : world) : result unit bytes * world :=
  let '(h, u, k) := foldl (build1 (counter w)) ([0;0;0;0;0], [], []) l in
  (Ok (h ++ [Z.of_nat (length u)] ++ u ++ k),
   {| now := now w; counter := counter w + 1; sent := sent w |}).

#[export] Instance env : IceEnv msgs world := {|
  timeNow := now;
  stun_Build := build;
  conn_WriteTo i p dst w :=
    (blen p, None, {| now := now w; counter := counter w; sent := sent w ++ [(i, p, dst)] |});
  conn_Close _ w := w;
  relay_onClose _ w := w;
  mux_Remove _ w := w;
  activeTCP _ _ _ w := ([], w);
  mdns_Query _ w := (None, w);
  newCandidateID w := ("candidate:x", w);
  generateUFrag w := (Some "ufrag", w);
  generatePwd w := (Some "0123456789012345", w);
  cancelGathering w := w |}.

Definition settings : Settings msgs :=
  {| tieBreaker := 7; lite := false; maxBindingRequests := 7; hostAcceptanceMinWait := 0;
     srflxAcceptanceMinWait := 500 * millisecond; prflxAcceptanceMinWait := 1000 * millisecond;
     relayAcceptanceMinWait := 2000 * millisecond; tcpPriorityOffset := 27; disableActiveTCP := true;
     disconnectedTimeout := 5 * second; failedTimeout := 25 * second; keepaliveInterval := 2 * second;
     checkInterval := 200 * millisecond; networkTypes := [NetworkTypeUDP4];
     mDNSMode := MulticastDNSModeDisabled; userBindingRequestHandler := None |}.

Definition host (ip : string) (port : Z) : Candidate :=
  match NewCandidateHost "candidate:x"
          {| hNetwork := "udp"; hAddress := ip; hPort := port; hComponent := ComponentRTP;
             hPriority := 0; hFoundation := ""; hTCPType := TCPTypeUnspecified |} with
  | Ok c => c
  | Err _ => inhabitant
  end.

Definition hostL : Candidate := host "192.0.2.1" 5000.
Definition hostR : Candidate := host "192.0.2.2" 6000.
Definition addrL : net_Addr := createAddr NetworkTypeUDP4 [192;0;2;1] 5000.
Definition addrR : net_Addr := createAddr NetworkTypeUDP4 [192;0;2;2] 6000.

(** The clock moves on; what has been sent is taken from the wire. *)
Definition tick (dt : Z) (a : Agent msgs world) : Agent msgs world :=
  set_env {| now := now (IceAgent.env a) + dt; counter := counter (IceAgent.env a); sent := [] |} a.

Inductive event := Do (o : iop) | Wait (dt : Z).

Definition happen (a : Agent msgs world) (e : event) : Agent msgs world :=
  match e with Do o => run_iop o a | Wait dt => tick dt a end.
Definition runs (l : list event) (a : Agent msgs world) : Agent msgs world := foldl happen a l.

Fixpoint all_allowed (l : list event) (a : Agent msgs world) : Prop :=
  match l with
  | [] => True
  | e :: l => match e with Do o => allowed o a | Wait _ => True end /\ all_allowed l (happen a e)
  end.

Lemma runs_rtc l a : all_allowed l a -> rtc istep a (runs l a).
Proof.
  revert a. induction l as [|e l IH]; intros a; [constructor|]. intros [He Hl].
  apply rtc_l with (happen a e); [|by apply IH]. destruct e; [by apply step_iop|apply step_env].
Qed.

(** Both have one candidate; L controls. *)
Definition begin (controlling : bool) (local remote : Candidate) (u p u' p' : string) : list event :=
  [Do (OpRestart u p); Do (OpAddLocal local); Do (OpAddRemote remote); Do (OpStart controlling u' p')].

Definition w0 : world := {| now := 1000; counter := 1; sent := [] |}.
Definition pwL : string := "LLLLLLLLLLLLLLLL".
Definition pwR : string := "RRRRRRRRRRRRRRRR".
Definition newL : Agent msgs world := allocAgent settings w0.
Definition beginL : list event := begin true hostL hostR "left" pwL "right" pwR.
Definition agentL : Agent msgs world := runs beginL newL.
Definition agentR : Agent msgs world :=
  runs (begin false hostR hostL "right" pwR "left" pwL) (allocAgent settings w0).

(** What one agent sends is received by the other on its only candidate. *)
Definition wire (a : Agent msgs world) : list bytes := (fun x => snd (fst x)) <$> sent (IceAgent.env a).
Definition receive (src : net_Addr) (l : list bytes) (a : Agent msgs world) : Agent msgs world :=
  foldl (fun a p => handleInboundPacket 0 p src a) a l.
Definition pass (x : Agent msgs world * Agent msgs world) : Agent msgs world * Agent msgs world :=
  let '(l, r) := x in
  (receive addrR (wire r) (tick 0 l), receive addrL (wire l) (tick 0 r)).

(** A round: both timers fire, then the packets cross three times. *)
Definition round (x : Agent msgs world * Agent msgs world) : Agent msgs world * Agent msgs world :=
  let '(l, r) := x in
  pass (pass (pass (contact (tick (200 * millisecond) l), contact (tick (200 * millisecond) r)))).

(** In the first round the checks succeed both ways and L nominates when R's
    check arrives; in the second L nominates again and is connected, too. *)
Example two_agents_connect :
  let '(l, r) := round (round (agentL, agentR)) in
  connectionState l = ConnectionStateConnected /\ connectionState r = ConnectionStateConnected /\
  selectedPair l = Some 0%nat /\ selectedPair r = Some 0%nat /\
  stateNotes l = [ConnectionStateChecking; ConnectionStateConnected].
Proof. vm_compute. done. Qed.

(** L alone, with answers to its check and to its nomination. *)
Definition answer (tid : Z) (pwd : string) : bytes := [0;2;tid;0;0;0] ++ text pwd.
Definition checked : list event := beginL ++ [Wait second; Do OpContact].
Definition nominating : list event :=
  checked ++ [Do (OpPacket 0 (answer 1 pwR) addrR); Wait second; Do OpContact].
Definition connectedL : list event := nominating ++ [Do (OpPacket 0 (answer 2 pwR) addrR)].

Ltac evaluate := vm_compute; repeat split; try done; try by left.

Lemma all_allowed_app l l' a : all_allowed l a -> all_allowed l' (runs l a) -> all_allowed (l ++ l') a.
Proof. revert a. induction l as [|e l IH]; simpl; intros a; [done|]. intros [] ?. auto. Qed.

Lemma connectedL_allowed : all_allowed connectedL newL.
Proof. unfold connectedL. repeat apply all_allowed_app; cbn [all_allowed]; evaluate. Qed.

End TestAgents.

(** * The guarantees on the concrete agents *)

Section Witnesses.
Import TestAgents.

Lemma reachL l : all_allowed l newL -> rtc istep newL (runs l newL).
Proof. apply runs_rtc. Qed.

Lemma invL l : all_allowed l newL -> agent_inv (runs l newL).
Proof. intros H. eapply isteps_inv; [by apply reachL|]. by apply inv_alloc_agent. Qed.

Lemma nominating_allowed : all_allowed nominating newL.
Proof. unfold nominating, checked. repeat apply all_allowed_app; cbn [all_allowed]; evaluate. Qed.

Lemma checked_allowed : all_allowed checked newL.
Proof. unfold checked. repeat apply all_allowed_app; cbn [all_allowed]; evaluate. Qed.

Lemma agent_invariant_witness : refs_ok (runs connectedL newL) /\ selection_ok (runs connectedL newL).
Proof. apply (agent_invariant settings w0); [simpl; lia|]. apply reachL, connectedL_allowed. Defined.

Lemma connection_state_refines_witness :
  path ConnectionStateNew [ConnectionStateChecking; ConnectionStateConnected] ConnectionStateConnected.
Proof.
  apply (connection_state_refines settings w0 (runs connectedL newL)); [simpl; lia|].
  apply reachL, connectedL_allowed.
Defined.

Lemma pair_succeeds_only_by_answered_check_witness :
  answered (answer 1 pwR) addrR (runs checked newL).
Proof.
  destruct (pair_succeeds_only_by_answered_check (OpPacket 0 (answer 1 pwR) addrR) (runs checked newL) 0)
    as (local & pkt & src & m & r & Ho & Hd & _ & _ & Ha & _); [by vm_compute|by vm_compute|].
  injection Ho as _ <- <-. injection Hd as <-. exact Ha.
Defined.

Lemma unauthenticated_message_ignored_witness :
  let a := runs checked newL in
  handleInboundPacket 0 (answer 1 pwL) addrR a = a \/
  exists m r, ice_Decode (answer 1 pwL) = Ok m /\ ice_Class m = ClassIndication /\
    findRemoteCandidate (networkType (cand a 0)) addrR a = Some r /\
    handleInboundPacket 0 (answer 1 pwL) addrR a = seen false r a.
Proof.
  apply unauthenticated_message_ignored; [reflexivity|]. intros m [= <-]. vm_compute. reflexivity.
Defined.

Lemma supervision_correct_witness :
  connectionState (contact (tick (6 * second) (runs connectedL newL))) = ConnectionStateDisconnected /\
  connectionState (contact (tick (31 * second) (runs connectedL newL))) = ConnectionStateFailed.
Proof.
  assert (forall dt, agent_inv (tick dt (runs connectedL newL))) as I.
  { intros dt. eapply inv_quiet; [apply quiet_set_env|]. apply invL, connectedL_allowed. }
  split.
  - destruct (supervision_correct (tick (6 * second) (runs connectedL newL)) 0) as [-> _];
      [apply I|by vm_compute..].
  - destruct (supervision_correct (tick (31 * second) (runs connectedL newL)) 0) as [-> _];
      [apply I|by vm_compute..].
Defined.

Lemma checking_gives_up_witness :
  connectionState (contact (tick (31 * second) (runs checked newL))) = ConnectionStateFailed.
Proof.
  rewrite (checking_gives_up (tick (31 * second) (runs checked newL))); [by vm_compute| |by vm_compute..].
  eapply inv_quiet; [apply quiet_set_env|]. apply invL, checked_allowed.
Defined.

Lemma nomination_answered_connects_witness :
  selectedPair (handleInbound (answer 2 pwR) 0 addrR (runs nominating newL)) = Some 0%nat.
Proof.
  set (q := {| timestamp := 2000001000; transactionID := [2];
               destination := resolvedAddr hostR; isUseCandidate := true |}).
  assert (pendingBindingRequests (runs nominating newL) = [q]) as Hq by (by vm_compute).
  refine (proj1 (nomination_answered_connects (answer 2 pwR) 0 addrR (runs nominating newL)
    (Some 1000) (Some 0%nat) 1 q (createAddr NetworkTypeUDP4 (NetIP.v4InV6Prefix ++ [192;0;2;2]) 6000) 0
    _ _ _ _ _ _ _ _ _ _ _ _ _ _ _ _)); try (vm_compute; reflexivity).
  - apply invL, nominating_allowed.
  - rewrite Hq. apply list_elem_of_here.
  - rewrite Hq. intros x Hx _. by apply list_elem_of_singleton in Hx.
Defined.

End Witnesses.
