(* ===== verification/IceTcp.v ===== *)
(** ICE over TCP (lib/pion-ice): the framing of RFC 4571 in tcp_mux.go, and the
    packet connection of tcp_packet_conn.go, which merges the packets of several
    TCP connections into one channel.

    The goroutines of a packet connection are steps of a relation: each reader
    has a state of its own, and the operations of the mutex are atomic. *)

From S2P Require Import Prelude.

#[local] Open Scope list_scope.
#[local] Open Scope Z_scope.

(** * Framing *)

Definition streamingPacketHeaderLen : nat := 2.
Definition receiveMTU : nat := Z.to_nat 8192.

(** What a TCP connection has still to deliver, in the pieces it comes in; then
    every [Read] fails. *)
Abbreviation tcp := (list bytes).

Definition Read (n : nat) (c : tcp) : option (bytes * tcp) :=
  match c with
  | [] => None
  | p :: c => Some (take n p, match drop n p with [] => c | r => r :: c end)
  end.

(** [for bytesRead < n { conn.Read(buf[bytesRead:n]) }]; the fuel is one call for
    every piece. *)
Fixpoint read_loop (fuel n : nat) (c : tcp) : option (bytes * tcp) :=
  match n, fuel with
  | O, _ => Some ([], c)
  | _, O => None
  | _, S fuel =>
      '(p, c) ← Read n c;
      '(q, c) ← read_loop fuel (n - length p) c;
      Some (p ++ q, c)
  end.

Inductive stream_error := ErrConn | ErrShortBuffer (length : nat).

Definition readStreamingPacket (cap : nat) (c : tcp) : result stream_error bytes * tcp :=
  match read_loop (S (length c)) streamingPacketHeaderLen c with
  | None => (Err ErrConn, [])
  | Some (header, c) =>
      let n := Z.to_nat (getUint16 header) in
      if (cap <? n)%nat then (Err (ErrShortBuffer n), c)
      else match read_loop (S (length c)) n c with
           | None => (Err ErrConn, [])
           | Some (buf, c) => (Ok buf, c)
           end
  end.

(** What is written to the connection for a packet. *)
Definition writeStreamingPacket (buf : bytes) : bytes := putUint16 (u16 (blen buf)) ++ buf.

(** ** What is read does not depend on the pieces *)

Lemma Read_concat n c p c' : Read n c = Some (p, c') -> concat c = p ++ concat c' /\ (length p <= n)%nat.
Proof.
  destruct c as [|x c]; [done|]. cbn [Read]. intros [= <- <-]. split; [|rewrite length_take; lia]. cbn [concat].
  rewrite <- (take_drop n x) at 1. rewrite <- app_assoc. f_equal. by destruct (drop n x).
Qed.

(** A call that does not get everything uses up a piece. *)
Lemma Read_piece n c p c' : Read n c = Some (p, c') -> length p = n \/ (length c' < length c)%nat.
Proof.
  destruct c as [|x c]; [done|]. cbn [Read]. intros [= <- <-]. rewrite length_take. destruct (drop n x) as [|y r] eqn:E; [right; cbn; lia|].
  apply (f_equal length) in E. rewrite length_drop in E. cbn in E. left. lia.
Qed.

Lemma read_loop_spec fuel n c : (length c < fuel)%nat ->
  match read_loop fuel n c with
  | Some (p, c') => p = take n (concat c) /\ concat c' = drop n (concat c) /\ (n <= length (concat c))%nat
  | None => (length (concat c) < n)%nat
  end.
Proof.
  revert n c. induction fuel as [|fuel IH]; intros n c Hf; [lia|]. destruct n as [|n]; [cbn; split; [done|split; [done|lia]]|].
  cbn [read_loop]. destruct (Read (S n) c) as [[p c1]|] eqn:E; [|destruct c; [cbn; lia|done]]. cbn [mbind option_bind].
  destruct (Read_concat _ _ _ _ E) as [Ec Hl]. pose proof (Read_piece _ _ _ _ E) as Hp. rewrite Ec, length_app.
  destruct (decide (length p = S n)) as [Hn|Hn].
  - rewrite Hn, Nat.sub_diag. destruct fuel; cbn [read_loop mbind option_bind]; rewrite app_nil_r, <- Hn, take_app_length, drop_app_length; split; [done|split; [done|lia]|done|split; [done|lia]].
  - destruct Hp as [|Hp]; [done|]. specialize (IH (S n - length p)%nat c1). destruct (read_loop fuel (S n - length p) c1) as [[q c2]|].
    + destruct IH as (-> & Ec2 & Hle); [lia|]. cbn [mbind option_bind]. rewrite Ec2. split; [|split; [|lia]].
      * rewrite take_app_ge by lia. done.
      * rewrite drop_app_ge by lia. done.
    + specialize (IH ltac:(lia)). cbn [mbind option_bind]. lia.
Qed.

(** The same on the bytes. *)
Definition next_packet (cap : nat) (s : bytes) : result stream_error (bytes * bytes) :=
  if (length s <? 2)%nat then Err ErrConn
  else
    let n := Z.to_nat (getUint16 (take 2 s)) in
    if (cap <? n)%nat then Err (ErrShortBuffer n)
    else if (length s - 2 <? n)%nat then Err ErrConn
    else Ok (take n (drop 2 s), drop n (drop 2 s)).

Lemma readStreamingPacket_bytes cap c :
  match readStreamingPacket cap c, next_packet cap (concat c) with
  | (Ok p, c'), Ok (q, s) => p = q /\ concat c' = s
  | (Err e, _), Err e' => e = e'
  | _, _ => False
  end.
Proof.
  unfold readStreamingPacket, next_packet, streamingPacketHeaderLen. pose proof (read_loop_spec (S (length c)) 2 c ltac:(lia)) as H.
  destruct (read_loop _ 2 c) as [[h c1]|]; [|by rewrite (proj2 (Nat.ltb_lt _ _) H)]. destruct H as (-> & Ec & Hl).
  rewrite (proj2 (Nat.ltb_ge _ _) Hl). destruct (Nat.ltb_spec cap (Z.to_nat (getUint16 (take 2 (concat c))))); [done|].
  set (n := Z.to_nat (getUint16 (take 2 (concat c)))) in *. pose proof (read_loop_spec (S (length c1)) n c1 ltac:(lia)) as H1. rewrite Ec, length_drop in H1.
  destruct (read_loop _ n c1) as [[b c2]|]; [|by rewrite (proj2 (Nat.ltb_lt _ _) H1)]. destruct H1 as (-> & Ec2 & Hl2).
  by rewrite (proj2 (Nat.ltb_ge _ _) Hl2).
Qed.

(** All the packets of a byte sequence, up to the first that does not fit or is
    not complete; a step per packet, of at least two bytes. *)
Fixpoint packets_of (fuel cap : nat) (s : bytes) : list bytes :=
  match fuel with
  | O => []
  | S fuel => match next_packet cap s with Ok (p, s) => p :: packets_of fuel cap s | Err _ => [] end
  end.

Definition all_packets (s : bytes) : list bytes := packets_of (length s) receiveMTU s.

Lemma next_packet_shorter cap s p s' : next_packet cap s = Ok (p, s') -> (length s' < length s)%nat.
Proof.
  unfold next_packet. destruct (Nat.ltb_spec (length s) 2); [done|]. destruct (Nat.ltb_spec cap (Z.to_nat (getUint16 (take 2 s)))); [done|].
  destruct (Nat.ltb_spec (length s - 2) (Z.to_nat (getUint16 (take 2 s)))); [done|]. intros [= <- <-]. rewrite !length_drop. lia.
Qed.

Lemma packets_of_fuel cap f1 f2 s : (length s <= f1)%nat -> (length s <= f2)%nat -> packets_of f1 cap s = packets_of f2 cap s.
Proof.
  revert f2 s. induction f1 as [|f1 IH]; intros f2 s H1 H2.
  - destruct s; [|cbn in H1; lia]. by destruct f2.
  - destruct f2 as [|f2]; [destruct s; [done|cbn in H2; lia]|]. cbn [packets_of]. destruct (next_packet cap s) as [[p s']|] eqn:E; [|done].
    apply next_packet_shorter in E. f_equal. apply IH; lia.
Qed.

Lemma all_packets_next s : all_packets s = match next_packet receiveMTU s with Ok (p, s') => p :: all_packets s' | Err _ => [] end.
Proof.
  unfold all_packets. destruct (length s) as [|n] eqn:En; [by destruct s|]. cbn [packets_of]. destruct (next_packet receiveMTU s) as [[p s']|] eqn:E; [|done].
  apply next_packet_shorter in E. f_equal. apply packets_of_fuel; lia.
Qed.

Lemma next_packet_written cap b s : (length b <= cap)%nat -> blen b < 65536 -> next_packet cap (writeStreamingPacket b ++ s) = Ok (b, s).
Proof.
  intros Hc Hb. pose proof (blen_nonneg b). unfold next_packet, writeStreamingPacket. rewrite u16_small by lia. rewrite <- app_assoc.
  change (take 2 (putUint16 (blen b) ++ b ++ s)) with (putUint16 (blen b)). change (drop 2 (putUint16 (blen b) ++ b ++ s)) with (b ++ s).
  rewrite getUint16_put1 by lia. rewrite (proj2 (Nat.ltb_ge _ 2)) by (cbn; lia). unfold blen. rewrite Nat2Z.id. rewrite (proj2 (Nat.ltb_ge cap _)) by lia.
  rewrite !length_app. rewrite (proj2 (Nat.ltb_ge _ _)) by (cbn; lia). by rewrite take_app_length, drop_app_length.
Qed.

Lemma written_packets ps s : Forall (fun b => (length b <= receiveMTU)%nat) ps ->
  all_packets (concat (writeStreamingPacket <$> ps) ++ s) = ps ++ all_packets s.
Proof.
  induction 1 as [|b ps Hb Hps IH]; [done|]. cbn [fmap list_fmap concat]. rewrite <- app_assoc, all_packets_next, next_packet_written; [|done|].
  - cbn [app]. f_equal. exact IH.
  - unfold blen, receiveMTU in *. lia.
Qed.

(** A packet too long for its length field is announced as a shorter one; its
    rest is read as the packets that follow. *)
Theorem oversize_packet_splits cap b s n : blen b = 65536 + Z.of_nat n -> (n <= cap)%nat -> (n < Z.to_nat 65536)%nat ->
  next_packet cap (writeStreamingPacket b ++ s) = Ok (take n b, drop n b ++ s).
Proof.
  intros Hb Hc Hn. unfold next_packet, writeStreamingPacket. rewrite Hb. assert (u16 (65536 + Z.of_nat n) = Z.of_nat n) as ->.
  { unfold u16. rewrite Z.add_mod, Z.mod_same by lia. rewrite Z.add_0_l, Z.mod_mod, Z.mod_small by lia. done. }
  rewrite <- app_assoc. change (take 2 (putUint16 (Z.of_nat n) ++ b ++ s)) with (putUint16 (Z.of_nat n)). change (drop 2 (putUint16 (Z.of_nat n) ++ b ++ s)) with (b ++ s).
  rewrite getUint16_put1 by lia. rewrite Nat2Z.id. rewrite (proj2 (Nat.ltb_ge _ 2)) by (cbn; lia). rewrite (proj2 (Nat.ltb_ge cap _)) by lia.
  assert (n <= length b)%nat as Hl by (unfold blen in Hb; lia). rewrite (proj2 (Nat.ltb_ge _ _)) by (rewrite !length_app; cbn; lia).
  by rewrite take_app_le, drop_app_le by lia.
Qed.

(** Packets that fit are read as they were written, in whatever pieces the
    connection delivers them: first the packets, one per call, then the error
    of the connection. *)
Fixpoint read_packets (n : nat) (c : tcp) : list (result stream_error bytes) :=
  match n with
  | O => []
  | S n => let '(r, c) := readStreamingPacket receiveMTU c in r :: read_packets n c
  end.

Theorem framing_roundtrip ps c : Forall (fun b => (length b <= receiveMTU)%nat) ps -> concat c = concat (writeStreamingPacket <$> ps) ->
  read_packets (S (length ps)) c = (Ok <$> ps) ++ [Err ErrConn].
Proof.
  intros Hps. revert c. induction Hps as [|b ps Hb Hps IH]; intros c Ec.
  - cbn [read_packets length]. pose proof (readStreamingPacket_bytes receiveMTU c) as H. rewrite Ec in H. cbn [fmap list_fmap concat] in H.
    change (next_packet receiveMTU []) with (Err ErrConn : result stream_error (bytes * bytes)) in H.
    destruct (readStreamingPacket receiveMTU c) as [[p|e] c']; [done|]. by subst.
  - cbn [length]. change (read_packets (S (S (length ps))) c) with (let '(r, c) := readStreamingPacket receiveMTU c in r :: read_packets (S (length ps)) c).
    pose proof (readStreamingPacket_bytes receiveMTU c) as H. rewrite Ec in H. cbn [fmap list_fmap concat] in H.
    rewrite next_packet_written in H; [|done|unfold blen, receiveMTU in *; lia].
    destruct (readStreamingPacket receiveMTU c) as [[p|e] c']; [|done]. destruct H as [-> Ec']. cbn [fmap list_fmap app]. f_equal. by apply IH.
Qed.

(** * Concrete streams *)

Module TestFraming.
Lemma framing_roundtrip_witness : read_packets 3 [[0]; [2; 7]; [8; 0; 0]] = [Ok [7; 8]; Ok []; Err ErrConn].
Proof. apply (framing_roundtrip [[7; 8]; []] [[0]; [2; 7]; [8; 0; 0]]); [|reflexivity]. repeat (apply Forall_cons; split; [unfold receiveMTU; cbn [length]; lia|]). constructor. Defined.

Lemma oversize_packet_splits_witness : let b := replicate (Z.to_nat 65538) 0 in
  next_packet receiveMTU (writeStreamingPacket b ++ []) = Ok (take 2 b, drop 2 b ++ []).
Proof.
  intros b. apply oversize_packet_splits; [subst b; unfold blen; rewrite length_replicate; lia|unfold receiveMTU; lia|lia].
Defined.
End TestFraming.
