(* ===== verification/IceTcpConn.v ===== *)
(** The packet connection of ICE over TCP (lib/pion-ice/tcp_packet_conn.go): one
    reading goroutine per TCP connection, a channel they all put packets into,
    and [Close], which waits for them. *)

From S2P Require Import Prelude IceTcp.

#[local] Open Scope list_scope.

Inductive payload := Data (d : bytes) | Failure (e : stream_error).

(** Where a reading goroutine is: it has a first packet to hand on, it reads, it is
    before the lock of [handleRecv], it offers a packet to the channel, it is
    about to remove its connection, or it has ended. *)
Inductive rstate := First (d : option bytes) | Reading | Sending (p : payload) | Offering (p : payload) | Removing | Done.

#[export] Instance stream_error_eq_dec : EqDecision stream_error.
Proof. solve_decision. Defined.
#[export] Instance payload_eq_dec : EqDecision payload.
Proof. solve_decision. Defined.
#[export] Instance rstate_eq_dec : EqDecision rstate.
Proof. solve_decision. Defined.

(** [orig] is for the proofs: all packets that the connection will bring. *)
Record reader := { addr : string; conn : tcp; shut : bool; st : rstate; orig : list bytes }.

(** [got] is for the proofs: what [ReadFrom] has taken from the channel.  The
    packets in the channel have the number of their reader instead of its
    address. *)
Record tcpPacketConn := {
  conns : gmap string nat;
  readers : list reader;
  recvChan : list (nat * payload);
  ReadBuffer : nat;
  closed : bool;
  recvClosed : bool;
  got : list (nat * payload);
}.

Definition set_readers (f : list reader -> list reader) (t : tcpPacketConn) : tcpPacketConn :=
  {| conns := conns t; readers := f (readers t); recvChan := recvChan t; ReadBuffer := ReadBuffer t; closed := closed t; recvClosed := recvClosed t; got := got t |}.
Definition set_conns (f : gmap string nat -> gmap string nat) (t : tcpPacketConn) : tcpPacketConn :=
  {| conns := f (conns t); readers := readers t; recvChan := recvChan t; ReadBuffer := ReadBuffer t; closed := closed t; recvClosed := recvClosed t; got := got t |}.
Definition set_chan (f : list (nat * payload) -> list (nat * payload)) (t : tcpPacketConn) : tcpPacketConn :=
  {| conns := conns t; readers := readers t; recvChan := f (recvChan t); ReadBuffer := ReadBuffer t; closed := closed t; recvClosed := recvClosed t; got := got t |}.
Definition log_got (x : nat * payload) (t : tcpPacketConn) : tcpPacketConn :=
  {| conns := conns t; readers := readers t; recvChan := recvChan t; ReadBuffer := ReadBuffer t; closed := closed t; recvClosed := recvClosed t; got := got t ++ [x] |}.

Definition set_st (x : rstate) (r : reader) : reader := {| addr := addr r; conn := conn r; shut := shut r; st := x; orig := orig r |}.
Definition set_conn (c : tcp) (r : reader) : reader := {| addr := addr r; conn := c; shut := shut r; st := st r; orig := orig r |}.
Definition close_conn (r : reader) : reader := {| addr := addr r; conn := conn r; shut := true; st := st r; orig := orig r |}.

Definition newTCPPacketConn (readBuffer : nat) : tcpPacketConn :=
  {| conns := ∅; readers := []; recvChan := []; ReadBuffer := readBuffer; closed := false; recvClosed := false; got := [] |}.

Inductive conn_error := ErrClosedPipe | errConnectionAddrAlreadyExist | ErrShort | ErrRead (e : stream_error).

Definition AddConn (a : string) (c : tcp) (firstPacketData : option bytes) (t : tcpPacketConn) : option conn_error * tcpPacketConn :=
  if closed t then (Some ErrClosedPipe, t)
  else if bool_decide (is_Some (conns t !! a)) then (Some errConnectionAddrAlreadyExist, t)
  else
    let r := {| addr := a; conn := c; shut := false; st := First firstPacketData; orig := option_list firstPacketData ++ all_packets (concat c) |} in
    (None, set_conns <[a := length (readers t)]> (set_readers (fun l => l ++ [r]) t)).

(** [readStreamingPacket] on the connection of a reader: a connection that was
    closed gives an error. *)
Definition read_conn (r : reader) : reader :=
  if shut r then set_st (Sending (Failure ErrConn)) r
  else match readStreamingPacket receiveMTU (conn r) with
       | (Ok d, c) => set_st (Sending (Data d)) (set_conn c r)
       | (Err e, c) => set_st (Sending (Failure e)) (set_conn c r)
       end.

(** After a packet was handed on or dropped. *)
Definition after (p : payload) : rstate := match p with Data _ => Reading | Failure _ => Removing end.

Definition removeConn (i : nat) (t : tcpPacketConn) : tcpPacketConn :=
  match readers t !! i with
  | None => t
  | Some r => set_conns (delete (addr r)) (set_readers (alter (fun r => set_st Done (close_conn r)) i) t)
  end.

(** The first part of [Close], under the lock. *)
Definition Close_begin (t : tcpPacketConn) : tcpPacketConn :=
  {| conns := ∅;
     readers := imap (fun i r => if bool_decide (conns t !! addr r = Some i) then close_conn r else r) (readers t);
     recvChan := recvChan t; ReadBuffer := ReadBuffer t; closed := true; recvClosed := recvClosed t; got := got t |}.

Definition Close_end (t : tcpPacketConn) : tcpPacketConn :=
  {| conns := conns t; readers := readers t; recvChan := recvChan t; ReadBuffer := ReadBuffer t; closed := closed t; recvClosed := true; got := got t |}.

(** What [ReadFrom] returns for a packet and a buffer of [cap] bytes; a packet that
    does not fit is lost. *)
Definition ReadFrom (cap : nat) (p : payload) : result conn_error bytes :=
  match p with
  | Failure e => Err (ErrRead e)
  | Data d => if (cap <? length d)%nat then Err ErrShort else Ok d
  end.

(** The steps of reader [i]. *)
Inductive rstep (i : nat) (t : tcpPacketConn) : tcpPacketConn -> Prop :=
| r_first r : readers t !! i = Some r -> st r = First None -> rstep i t (set_readers (alter (set_st Reading) i) t)
| r_first_send r d : readers t !! i = Some r -> st r = First (Some d) -> (length (recvChan t) < ReadBuffer t)%nat ->
    rstep i t (set_chan (fun l => l ++ [(i, Data d)]) (set_readers (alter (set_st Reading) i) t))
| r_first_closed r d : readers t !! i = Some r -> st r = First (Some d) -> closed t = true -> rstep i t (set_readers (alter (set_st Done) i) t)
| r_read r : readers t !! i = Some r -> st r = Reading -> rstep i t (set_readers (alter read_conn i) t)
| r_lock r p : readers t !! i = Some r -> st r = Sending p ->
    rstep i t (set_readers (alter (set_st (if closed t then after p else Offering p)) i) t)
| r_send r p : readers t !! i = Some r -> st r = Offering p -> (length (recvChan t) < ReadBuffer t)%nat ->
    rstep i t (set_chan (fun l => l ++ [(i, p)]) (set_readers (alter (set_st (after p)) i) t))
| r_drop r p : readers t !! i = Some r -> st r = Offering p -> closed t = true -> rstep i t (set_readers (alter (set_st (after p)) i) t)
| r_remove r : readers t !! i = Some r -> st r = Removing -> rstep i t (removeConn i t).

(** The steps of the connection: those of its readers, calls from outside, a packet
    taken from the channel, and one handed over directly when the channel is
    empty. *)
Inductive pstep (t : tcpPacketConn) : tcpPacketConn -> Prop :=
| p_reader i t' : rstep i t t' -> pstep t t'
| p_add a c d : pstep t (AddConn a c d t).2
| p_recv x l : recvChan t = x :: l -> pstep t (log_got x (set_chan (fun _ => l) t))
| p_handoff i r p : recvChan t = [] -> recvClosed t = false -> readers t !! i = Some r -> st r = Offering p ->
    pstep t (log_got (i, p) (set_readers (alter (set_st (after p)) i) t))
| p_handoff_first i r d : recvChan t = [] -> recvClosed t = false -> readers t !! i = Some r -> st r = First (Some d) ->
    pstep t (log_got (i, Data d) (set_readers (alter (set_st Reading) i) t))
| p_close : pstep t (Close_begin t)
| p_closed : closed t = true -> Forall (fun r => st r = Done) (readers t) -> pstep t (Close_end t).

(** * The invariant *)

Inductive reachable : tcpPacketConn -> Prop :=
| reach_new n : reachable (newTCPPacketConn n)
| reach_step t t' : reachable t -> pstep t t' -> reachable t'.

(** The packets of reader [i] in a log. *)
Definition data_of (i : nat) (l : list (nat * payload)) : list bytes :=
  omap (fun x => match x with (j, Data d) => if decide (j = i) then Some d else None | _ => None end) l.

(** What reader [i] has handed on so far. *)
Definition flow (i : nat) (t : tcpPacketConn) : list bytes := data_of i (got t) ++ data_of i (recvChan t).

(** The packet a reader may still hand on after the connection was closed, and all
    it hands on if it is not closed. *)
Definition offered (r : reader) : list bytes :=
  match st r with Offering (Data d) => [d] | First (Some d) => [d] | _ => [] end.
Definition remaining (r : reader) : list bytes :=
  match st r with
  | First d => option_list d ++ all_packets (concat (conn r))
  | Reading => all_packets (concat (conn r))
  | Sending (Data d) | Offering (Data d) => d :: all_packets (concat (conn r))
  | _ => []
  end.

Record inv (t : tcpPacketConn) : Prop := {
  i_prefix i r : readers t !! i = Some r -> (flow i t ++ offered r) `prefix_of` orig r;
  i_whole i r : readers t !! i = Some r -> closed t = false -> flow i t ++ remaining r = orig r;
  i_conns i r : readers t !! i = Some r -> st r <> Done -> if closed t then shut r = true else conns t !! addr r = Some i;
  i_open i r : readers t !! i = Some r -> shut r = true -> closed t = true \/ st r = Done;
  i_logs x : x ∈ got t ++ recvChan t -> (x.1 < length (readers t))%nat;
  i_end : recvClosed t = true -> closed t = true /\ Forall (fun r => st r = Done) (readers t);
}.

Lemma data_of_app i l k : data_of i (l ++ k) = data_of i l ++ data_of i k.
Proof. apply omap_app. Qed.

Lemma data_of_one i j p : data_of i [(j, p)] = match p with Data d => if decide (j = i) then [d] else [] | Failure _ => [] end.
Proof. unfold data_of. cbn. destruct p; [|done]. by destruct (decide (j = i)). Qed.

Lemma alter_insert {A} (f : A -> A) i (l : list A) x : l !! i = Some x -> alter f i l = <[i := f x]> l.
Proof. revert i. induction l as [|y l IH]; intros [|i] H; try done; cbn in *; [by injection H as ->|]. f_equal. by apply IH. Qed.

(** What a step of one reader has to keep. *)
Record local (t t' : tcpPacketConn) (i : nat) (r r' : reader) : Prop := {
  l_readers : readers t' = <[i := r']> (readers t);
  l_closed : closed t' = closed t;
  l_recvClosed : recvClosed t' = recvClosed t;
  l_conns : conns t' = conns t \/ st r' = Done /\ conns t' = delete (addr r) (conns t);
  l_flow j : j <> i -> flow j t' = flow j t;
  l_logs x : x ∈ got t' ++ recvChan t' -> x ∈ got t ++ recvChan t \/ x.1 = i;
  l_orig : addr r' = addr r /\ orig r' = orig r;
  l_prefix : (flow i t' ++ offered r') `prefix_of` orig r;
  l_whole : closed t = false -> flow i t' ++ remaining r' = orig r;
  l_alive : st r <> Done;
  l_shut : st r' <> Done -> shut r' = shut r;
}.

Lemma inv_local t t' i r r' : inv t -> readers t !! i = Some r -> local t t' i r r' -> inv t'.
Proof.
  intros I Hr L. pose proof (lookup_lt_Some _ _ _ Hr) as Hlt. destruct L as [L1 L2 L3 L4 L5 L6 [La Lo] L8 L9 L10 L11].
  assert (forall j x, readers t' !! j = Some x -> j = i /\ x = r' \/ j <> i /\ readers t !! j = Some x) as Hl.
  { intros j x. rewrite L1. destruct (decide (i = j)) as [<-|Hne]; [rewrite list_lookup_insert_eq by done; intros [= <-]; by left|].
    rewrite list_lookup_insert_ne by done. intros H. right. by split. }
  split.
  - intros j x Hx. destruct (Hl j x Hx) as [[-> ->]|[Hne Hx']]; [by rewrite Lo|]. rewrite L5 by done. by apply (i_prefix t I).
  - intros j x Hx Hc. rewrite L2 in Hc. destruct (Hl j x Hx) as [[-> ->]|[Hne Hx']]; [rewrite Lo; by apply L9|]. rewrite L5 by done. by apply (i_whole t I).
  - intros j x Hx Hd. rewrite L2. destruct (Hl j x Hx) as [[-> ->]|[Hne Hx']].
    + pose proof (i_conns t I i r Hr L10) as Hc. destruct (closed t); [by rewrite L11|]. rewrite La. destruct L4 as [->|[Hd' _]]; done.
    + pose proof (i_conns t I j x Hx' Hd) as Hc. destruct (closed t) eqn:Ec; [done|]. destruct L4 as [->|[_ ->]]; [done|]. rewrite lookup_delete_ne; [done|].
      intros Ea. pose proof (i_conns t I i r Hr L10) as Hc'. rewrite Ec in Hc'. congruence.
  - intros j x Hx Hs. rewrite L2. destruct (Hl j x Hx) as [[-> ->]|[Hne Hx']]; [|by apply (i_open t I j)].
    destruct (decide (st r' = Done)) as [|Hd]; [by right|]. rewrite L11 in Hs by done. destruct (i_open t I i r Hr Hs); [by left|done].
  - intros x Hx. rewrite L1, length_insert. destruct (L6 x Hx) as [Hx'| ->]; [by apply (i_logs t I)|done].
  - rewrite L3. intros Hc. destruct (i_end t I Hc) as [_ Hd]. rewrite Forall_lookup in Hd. by specialize (Hd i r Hr).
Qed.

Lemma read_conn_spec r : st r = Reading -> shut r = false ->
  remaining (read_conn r) = remaining r /\ offered (read_conn r) = [] /\ st (read_conn r) <> Done.
Proof.
  intros Hs Ho. unfold read_conn, remaining, offered. rewrite Ho, Hs. pose proof (readStreamingPacket_bytes receiveMTU (conn r)) as H.
  rewrite (all_packets_next (concat (conn r))). destruct (readStreamingPacket receiveMTU (conn r)) as [[d|e] c], (next_packet receiveMTU (concat (conn r))) as [[q s]|e'];
    try done; cbn [set_st set_conn st conn]; try done. destruct H as [-> <-]. done.
Qed.

Lemma read_conn_fixed r : addr (read_conn r) = addr r /\ orig (read_conn r) = orig r /\ shut (read_conn r) = shut r /\ offered (read_conn r) = [] /\ st (read_conn r) <> Done.
Proof. unfold read_conn. destruct (shut r) eqn:E; [done|]. by destruct (readStreamingPacket receiveMTU (conn r)) as [[d|e] c]. Qed.

(** A step of reader [i] that leaves the logs alone. *)
Lemma local_quiet t t' i r f : inv t -> readers t !! i = Some r -> t' = set_readers (alter f i) t -> st r <> Done ->
  addr (f r) = addr r -> orig (f r) = orig r -> (st (f r) <> Done -> shut (f r) = shut r) ->
  (flow i t ++ offered (f r)) `prefix_of` orig r -> (closed t = false -> flow i t ++ remaining (f r) = orig r) -> local t t' i r (f r).
Proof.
  intros I Hr -> Hd Ha Ho Hs Hp Hw. split; try done.
  - cbn. by apply alter_insert.
  - by left.
  - intros x Hx. by left.
Qed.

(** One that hands a packet on, to the channel or to a caller. *)
Lemma local_hand t t' i r p x : inv t -> readers t !! i = Some r -> st r <> Done -> x <> Done ->
  readers t' = alter (set_st x) i (readers t) -> closed t' = closed t -> recvClosed t' = recvClosed t -> conns t' = conns t ->
  got t' ++ recvChan t' = got t ++ recvChan t ++ [(i, p)] -> (forall j, flow j t' = flow j t ++ data_of j [(i, p)]) ->
  (flow i t ++ data_of i [(i, p)]) `prefix_of` orig r -> offered (set_st x r) = [] ->
  (closed t = false -> flow i t ++ data_of i [(i, p)] ++ remaining (set_st x r) = orig r) -> local t t' i r (set_st x r).
Proof.
  intros I Hr Hd Hx Er Ec Erc Eco El Hf Hp Ho Hw. split; try done.
  - rewrite Er. by apply alter_insert.
  - by left.
  - intros j Hj. rewrite Hf, data_of_one. destruct p; [|by rewrite app_nil_r]. rewrite decide_False by done. by rewrite app_nil_r.
  - intros y. rewrite El, app_assoc, elem_of_app, list_elem_of_singleton. intros [Hy| ->]; [by left|by right].
  - rewrite Hf, Ho, app_nil_r. done.
  - intros Hc. rewrite Hf, <- app_assoc. by apply Hw.
Qed.

Lemma prefix_less (a b c : list bytes) : (a ++ b) `prefix_of` c -> a `prefix_of` c.
Proof. intros [k ->]. exists (b ++ k). by rewrite app_assoc. Qed.

Lemma flow_send i j p t : flow j (set_chan (fun l => l ++ [(i, p)]) t) = flow j t ++ data_of j [(i, p)].
Proof. unfold flow. cbn [set_chan got recvChan]. by rewrite data_of_app, app_assoc. Qed.

Lemma flow_handoff i j p t : recvChan t = [] -> flow j (log_got (i, p) t) = flow j t ++ data_of j [(i, p)].
Proof. intros E. unfold flow. cbn [log_got got recvChan]. rewrite E. rewrite data_of_app. change (data_of j []) with (@nil bytes). by rewrite !app_nil_r. Qed.

Lemma flow_readers j f t : flow j (set_readers f t) = flow j t.
Proof. done. Qed.

(** What a reader offers, with what it has handed on. *)
Lemma offered_hand t i r p : inv t -> readers t !! i = Some r -> st r = Offering p ->
  (flow i t ++ data_of i [(i, p)]) `prefix_of` orig r /\ offered (set_st (after p) r) = [] /\ after p <> Done /\
  (closed t = false -> flow i t ++ data_of i [(i, p)] ++ remaining (set_st (after p) r) = orig r).
Proof.
  intros I Hr Hs. pose proof (i_prefix t I i r Hr) as Hp. pose proof (i_whole t I i r Hr) as Hw. unfold offered, remaining in *. rewrite Hs in *. rewrite data_of_one.
  destruct p as [d|e]; [rewrite decide_True by done|]; done.
Qed.

Lemma first_hand t i r d : inv t -> readers t !! i = Some r -> st r = First (Some d) ->
  (flow i t ++ data_of i [(i, Data d)]) `prefix_of` orig r /\ offered (set_st Reading r) = [] /\
  (closed t = false -> flow i t ++ data_of i [(i, Data d)] ++ remaining (set_st Reading r) = orig r).
Proof.
  intros I Hr Hs. pose proof (i_prefix t I i r Hr) as Hp. pose proof (i_whole t I i r Hr) as Hw. unfold offered, remaining in *. rewrite Hs in *. rewrite data_of_one.
  rewrite decide_True by done. done.
Qed.

Lemma rstep_inv i t t' : inv t -> rstep i t t' -> inv t'.
Proof.
  intros I H. assert (exists r r', readers t !! i = Some r /\ local t t' i r r') as (r & r' & Hr & L); [|by eapply inv_local].
  destruct H as [r Hr Hs|r d Hr Hs Hc|r d Hr Hs Hc|r Hr Hs|r p Hr Hs|r p Hr Hs Hc|r p Hr Hs Hc|r Hr Hs];
    pose proof (prefix_less _ _ _ (i_prefix t I i r Hr)) as Hp; pose proof (i_whole t I i r Hr) as Hw; assert (st r <> Done) as Hd by (by rewrite Hs).
  - exists r, (set_st Reading r). split; [done|]. eapply local_quiet; try done; [by rewrite app_nil_r|]. intros Hc. specialize (Hw Hc). unfold remaining in *. by rewrite Hs in Hw.
  - exists r, (set_st Reading r). split; [done|]. destruct (first_hand t i r d I Hr Hs) as (H1 & H2 & H3).
    apply (local_hand t _ i r (Data d) Reading I Hr Hd); try done. intros j. by rewrite flow_send, flow_readers.
  - exists r, (set_st Done r). split; [done|]. eapply local_quiet; try done; [by rewrite app_nil_r|congruence].
  - exists r, (read_conn r). split; [done|]. destruct (read_conn_fixed r) as (F1 & F2 & F3 & F4 & F5). eapply local_quiet; try done.
    + by rewrite F4, app_nil_r.
    + intros Hc. destruct (shut r) eqn:Esh; [destruct (i_open t I i r Hr Esh); congruence|]. destruct (read_conn_spec r Hs Esh) as (-> & _). by apply Hw.
  - exists r, (set_st (if closed t then after p else Offering p) r). split; [done|]. eapply local_quiet; try done.
    + destruct (closed t) eqn:Ec; [by destruct p; rewrite app_nil_r|]. destruct p as [d|e]; [|by rewrite app_nil_r]. specialize (Hw eq_refl). unfold remaining in Hw. rewrite Hs in Hw.
      unfold offered. cbn [set_st st]. rewrite <- Hw. exists (all_packets (concat (conn r))). by rewrite <- app_assoc.
    + intros Ec. rewrite Ec in *. specialize (Hw eq_refl). unfold remaining in *. rewrite Hs in Hw. cbn [set_st st conn]. by destruct p.
  - exists r, (set_st (after p) r). split; [done|]. destruct (offered_hand t i r p I Hr Hs) as (H1 & H2 & H3 & H4).
    apply (local_hand t _ i r p (after p) I Hr Hd); try done. intros j. by rewrite flow_send, flow_readers.
  - exists r, (set_st (after p) r). split; [done|]. eapply local_quiet; try done; [by destruct p; rewrite app_nil_r|congruence].
  - exists r, (set_st Done (close_conn r)). split; [done|]. unfold removeConn. rewrite Hr. split; try done.
    + exact (alter_insert (fun r => set_st Done (close_conn r)) i (readers t) r Hr).
    + by right.
    + intros x Hx. by left.
    + cbn. by rewrite app_nil_r.
    + intros Hc. specialize (Hw Hc). unfold remaining in *. by rewrite Hs in Hw.
Qed.

Lemma data_of_absent i l : (forall x, x ∈ l -> x.1 <> i) -> data_of i l = [].
Proof.
  induction l as [|[j p] l IH]; intros H; [done|]. change (data_of i ([(j, p)] ++ l) = []). rewrite data_of_app, data_of_one, IH, app_nil_r.
  - destruct p; [|done]. rewrite decide_False; [done|]. apply (H (j, Data d)). by left.
  - intros x Hx. apply H. by right.
Qed.

Lemma add_inv a c d t : inv t -> inv (AddConn a c d t).2.
Proof.
  intros I. unfold AddConn. destruct (closed t) eqn:Ec; [done|]. case_bool_decide as Hn; [done|]. cbn [snd].
  set (r := {| addr := a; conn := c; shut := false; st := First d; orig := option_list d ++ all_packets (concat c) |}).
  assert (forall i x, (readers t ++ [r]) !! i = Some x -> readers t !! i = Some x \/ i = length (readers t) /\ x = r) as Hl.
  { intros i x [H|[Hge H]]%lookup_app_Some; [by left|]. destruct (i - length (readers t))%nat eqn:E; [|done]. cbn in H. injection H as <-. right. split; [lia|done]. }
  assert (flow (length (readers t)) t = []) as Hf.
  { unfold flow. rewrite <- data_of_app. apply data_of_absent. intros x Hx. pose proof (i_logs t I x Hx). lia. }
  split; cbn [set_conns set_readers conns readers closed recvClosed].
  - intros i x Hx. change (flow i _) with (flow i t). destruct (Hl i x Hx) as [Hx'|[-> ->]]; [by apply (i_prefix t I)|]. rewrite Hf. subst r. cbn [app orig].
    unfold offered. cbn [st]. destruct d; [|apply prefix_nil]. by exists (all_packets (concat c)).
  - intros i x Hx _. change (flow i _) with (flow i t). destruct (Hl i x Hx) as [Hx'|[-> ->]]; [by apply (i_whole t I)|]. by rewrite Hf.
  - intros i x Hx Hd. rewrite Ec. destruct (Hl i x Hx) as [Hx'|[-> ->]]; [|apply lookup_insert_eq]. pose proof (i_conns t I i x Hx' Hd) as H. rewrite Ec in H.
    rewrite lookup_insert_ne; [done|]. intros ->. apply Hn. by rewrite H.
  - intros i x Hx Hs. destruct (Hl i x Hx) as [Hx'|[-> ->]]; [by apply (i_open t I i)|done].
  - intros x Hx. rewrite length_app. pose proof (i_logs t I x Hx). lia.
  - intros Hc. destruct (i_end t I Hc). congruence.
Qed.

Lemma close_inv t : inv t -> inv (Close_begin t).
Proof.
  intros I. set (f := fun i r => if bool_decide (conns t !! addr r = Some i) then close_conn r else r).
  assert (forall i x, readers (Close_begin t) !! i = Some x -> exists r, readers t !! i = Some r /\ x = f i r) as Hl.
  { intros i x Hx. change (readers (Close_begin t)) with (imap f (readers t)) in Hx. rewrite list_lookup_imap in Hx. destruct (readers t !! i) as [r|] eqn:Er; [|done].
    cbn in Hx. injection Hx as <-. by exists r. }
  assert (forall i r, st (f i r) = st r /\ orig (f i r) = orig r /\ conn (f i r) = conn r /\ addr (f i r) = addr r) as Hf by (intros i r; unfold f; by case_bool_decide).
  split.
  - intros i x (r & Hr & ->)%Hl. destruct (Hf i r) as (E1 & E2 & E3 & E4). rewrite E2. unfold offered. rewrite E1. by apply (i_prefix t I).
  - done.
  - intros i x (r & Hr & ->)%Hl Hd. destruct (Hf i r) as (E1 & E2 & E3 & E4). rewrite E1 in Hd. cbn [Close_begin closed]. pose proof (i_conns t I i r Hr Hd) as H. unfold f.
    destruct (closed t); [case_bool_decide; done|]. by rewrite bool_decide_true.
  - intros. by left.
  - intros x Hx. change (readers (Close_begin t)) with (imap f (readers t)). rewrite length_imap. by apply (i_logs t I).
  - intros Hc. destruct (i_end t I Hc) as [_ Hd]. split; [done|]. change (readers (Close_begin t)) with (imap f (readers t)). rewrite Forall_lookup in *.
    intros i x (r & Hr & ->)%Hl. destruct (Hf i r) as (-> & _). by apply (Hd i).
Qed.

Lemma pstep_inv t t' : inv t -> pstep t t' -> inv t'.
Proof.
  intros I H. destruct H as [i t' H|a c d|x l E|i r p E Ec Hr Hs|i r d E Ec Hr Hs| |Hc Hd].
  - by eapply rstep_inv.
  - by apply add_inv.
  - assert (forall i, flow i (log_got x (set_chan (fun _ => l) t)) = flow i t) as Hf.
    { intros i. unfold flow. cbn [log_got set_chan got recvChan]. rewrite E, data_of_app, <- app_assoc. f_equal. symmetry. apply (data_of_app i [x] l). }
    split; cbn [log_got set_chan conns readers closed recvClosed]; try apply I.
    + intros i r Hr. rewrite Hf. by apply (i_prefix t I).
    + intros i r Hr. rewrite Hf. by apply (i_whole t I).
    + intros y. cbn [log_got set_chan got recvChan]. rewrite <- app_assoc. change ([x] ++ l) with (x :: l). rewrite <- E. apply (i_logs t I).
  - destruct (offered_hand t i r p I Hr Hs) as (H1 & H2 & H3 & H4). eapply inv_local; [exact I|exact Hr|].
    apply (local_hand t _ i r p (after p) I Hr); try done; [by rewrite Hs| |intros j; by rewrite flow_handoff].
    cbn [log_got set_readers got recvChan]. by rewrite E, app_nil_r.
  - destruct (first_hand t i r d I Hr Hs) as (H1 & H2 & H3). eapply inv_local; [exact I|exact Hr|].
    apply (local_hand t _ i r (Data d) Reading I Hr); try done; [by rewrite Hs| |intros j; by rewrite flow_handoff].
    cbn [log_got set_readers got recvChan]. by rewrite E, app_nil_r.
  - by apply close_inv.
  - split; try apply I. done.
Qed.

Lemma tcp_reachable_inv t : reachable t -> inv t.
Proof.
  induction 1 as [n|t t' _ IH H]; [|by eapply pstep_inv]. split; try done. intros x Hx. by apply elem_of_nil in Hx.
Qed.

(** Whatever the interleaving of the readers, the callers and [Close], what has been
    received of a TCP connection, with what waits in the channel, is the
    beginning of the packets on that connection, in their order; as long as the
    packet connection is not closed, what is missing is still to come. *)
Theorem tcp_packets_in_order t i r : reachable t -> readers t !! i = Some r ->
  (data_of i (got t) ++ data_of i (recvChan t)) `prefix_of` orig r /\
  (closed t = false -> data_of i (got t) ++ data_of i (recvChan t) ++ remaining r = orig r).
Proof.
  intros I%tcp_reachable_inv Hr. split; [exact (prefix_less _ _ _ (i_prefix t I i r Hr))|]. intros Hc. rewrite app_assoc. exact (i_whole t I i r Hr Hc).
Qed.

(** The channel is closed only when no reader is left that could write to it. *)
Theorem closed_channel_unused t i t' : reachable t -> recvClosed t = true -> ~ rstep i t t'.
Proof.
  intros I%tcp_reachable_inv Hc H. destruct (i_end t I Hc) as [_ Hd]. rewrite Forall_lookup in Hd.
  destruct H as [r Hr Hs|r d Hr Hs _|r d Hr Hs _|r Hr Hs|r p Hr Hs|r p Hr Hs _|r p Hr Hs _|r Hr Hs]; specialize (Hd i r Hr); congruence.
Qed.

(** * Closing ends *)

(** How many steps a reader can still make once the connection is closed. *)
Definition rank (r : reader) : nat :=
  match st r with
  | First _ => 6
  | Sending (Data _) | Offering (Data _) => 5
  | Reading => 4
  | Sending (Failure _) => 3
  | Offering (Failure _) => 2
  | Removing => 1
  | Done => 0
  end.
Fixpoint ranks (l : list reader) : nat := match l with [] => 0 | r :: l => rank r + ranks l end.
Definition total (t : tcpPacketConn) : nat := ranks (readers t).

Lemma sum_insert l i r r' : l !! i = Some r -> (ranks (<[i := r']> l) + rank r = ranks l + rank r')%nat.
Proof.
  revert i. induction l as [|x l IH]; intros [|i] H; try done.
  - injection H as ->. cbn [insert list_insert ranks]. lia.
  - specialize (IH i H). change (ranks (<[S i := r']> (x :: l))) with (rank x + ranks (<[i := r']> l))%nat. change (ranks (x :: l)) with (rank x + ranks l)%nat. lia.
Qed.

Lemma ranks_imap f l : (forall i r, rank (f i r) = rank r) -> ranks (imap f l) = ranks l.
Proof. revert f. induction l as [|r l IH]; intros f Hf; [done|]. cbn [imap ranks]. rewrite Hf, IH; [done|]. intros i x. apply Hf. Qed.

Lemma tcp_total_alter t i f r : readers t !! i = Some r -> (total (set_readers (alter f i) t) + rank r = total t + rank (f r))%nat.
Proof. intros Hr. unfold total. cbn [set_readers readers]. rewrite (alter_insert f i _ r Hr). by apply sum_insert. Qed.

Lemma after_rank p r : (rank (set_st (after p) r) < rank (set_st (Offering p) r))%nat /\ (rank (set_st (after p) r) < rank (set_st (Sending p) r))%nat.
Proof. destruct p; cbn; lia. Qed.

Lemma rstep_total i t t' : inv t -> closed t = true -> rstep i t t' -> (total t' < total t)%nat.
Proof.
  intros I Hc H. destruct H as [r Hr Hs|r d Hr Hs _|r d Hr Hs _|r Hr Hs|r p Hr Hs|r p Hr Hs _|r p Hr Hs _|r Hr Hs].
  - pose proof (tcp_total_alter t i (set_st Reading) r Hr) as E. unfold rank in E at 1 2. cbn [set_st st] in E. rewrite Hs in E. lia.
  - pose proof (tcp_total_alter t i (set_st Reading) r Hr) as E. unfold rank in E at 1 2. cbn [set_st st] in E. rewrite Hs in E. change (total (set_chan ?f ?x)) with (total x). lia.
  - pose proof (tcp_total_alter t i (set_st Done) r Hr) as E. unfold rank in E at 1 2. cbn [set_st st] in E. rewrite Hs in E. lia.
  - pose proof (tcp_total_alter t i read_conn r Hr) as E. pose proof (i_conns t I i r Hr) as Hsh. rewrite Hs, Hc in Hsh. unfold read_conn in E at 2. rewrite (Hsh ltac:(done)) in E.
    unfold rank in E at 1 2. cbn [set_st st] in E. rewrite Hs in E. lia.
  - rewrite Hc. pose proof (tcp_total_alter t i (set_st (after p)) r Hr) as E. destruct (after_rank p r) as [_ Ha]. assert (rank r = rank (set_st (Sending p) r)) as Er by (unfold rank; by rewrite Hs). lia.
  - pose proof (tcp_total_alter t i (set_st (after p)) r Hr) as E. destruct (after_rank p r) as [Ha _]. assert (rank r = rank (set_st (Offering p) r)) as Er by (unfold rank; by rewrite Hs).
    change (total (set_chan ?f ?x)) with (total x). lia.
  - pose proof (tcp_total_alter t i (set_st (after p)) r Hr) as E. destruct (after_rank p r) as [Ha _]. assert (rank r = rank (set_st (Offering p) r)) as Er by (unfold rank; by rewrite Hs). lia.
  - unfold removeConn. rewrite Hr. change (total (set_conns ?f ?x)) with (total x).
    pose proof (tcp_total_alter t i (fun r => set_st Done (close_conn r)) r Hr) as E. unfold rank in E at 1 2. cbn [set_st st] in E. rewrite Hs in E. lia.
Qed.

Lemma total_zero t : total t = 0%nat -> Forall (fun r => st r = Done) (readers t).
Proof.
  unfold total. induction (readers t) as [|r l IH]; [constructor|]. cbn [ranks]. intros E. constructor; [|apply IH; lia].
  assert (rank r = 0%nat) as Er by lia. unfold rank in Er. by destruct (st r) as [| |[]|[]| |].
Qed.

(** A reader that has not ended can go on. *)
Lemma reader_goes_on t i r : closed t = true -> readers t !! i = Some r -> st r <> Done -> exists t', rstep i t t'.
Proof.
  intros Hc Hr Hd. destruct (st r) as [[d|]| |p|p| |] eqn:Hs; [..|done]; eexists.
  - by eapply r_first_closed.
  - by eapply r_first.
  - by eapply r_read.
  - by eapply r_lock.
  - by eapply r_drop.
  - by eapply r_remove.
Qed.

(** [Close] returns: after it has begun, no step adds work for the readers, each
    of their own steps leaves less of it, as long as there is some a reader can
    make a step even if nobody receives, and when there is none [Close] ends. *)
Theorem close_returns t : reachable t -> closed t = true ->
  (forall t', pstep t t' -> closed t' = true /\ (total t' <= total t)%nat) /\
  (forall i t', rstep i t t' -> (total t' < total t)%nat) /\
  (total t <> 0%nat -> exists i t', rstep i t t') /\
  (total t = 0%nat -> pstep t (Close_end t)).
Proof.
  intros I%tcp_reachable_inv Hc. split; [|split; [|split]].
  - intros t' H. destruct H as [i t' H|a c d|x l E|i r p E Ec Hr Hs|i r d E Ec Hr Hs| |_ _]; try done.
    + split; [|pose proof (rstep_total i t t' I Hc H); lia]. destruct H; try done. unfold removeConn. by destruct (readers t !! i).
    + unfold AddConn. rewrite Hc. done.
    + split; [done|]. change (total (log_got ?f ?x)) with (total x). pose proof (tcp_total_alter t i (set_st (after p)) r Hr) as Et. destruct (after_rank p r) as [Ha _].
      assert (rank r = rank (set_st (Offering p) r)) as Er by (unfold rank; by rewrite Hs). lia.
    + split; [done|]. change (total (log_got ?f ?x)) with (total x). pose proof (tcp_total_alter t i (set_st Reading) r Hr) as Et. unfold rank in Et at 1 2. cbn [set_st st] in Et. rewrite Hs in Et. lia.
    + split; [done|]. unfold total, Close_begin. cbn [readers]. apply Nat.eq_le_incl. apply ranks_imap.
      intros i r. by case_bool_decide.
  - intros i t'. by apply rstep_total.
  - intros Hn. destruct (decide (Forall (fun r => st r = Done) (readers t))) as [Hd|Hd].
    + exfalso. apply Hn. unfold total. clear Hn. induction Hd as [|r l Hr Hl IH]; [done|]. cbn [ranks].
      unfold rank. rewrite Hr. done.
    + apply not_Forall_Exists in Hd; [|apply _]. apply Exists_exists in Hd as (r & Hin & Hd). apply list_elem_of_lookup in Hin as [i Hi].
      destruct (reader_goes_on t i r Hc Hi Hd) as [t' H]. by exists i, t'.
  - intros E. apply p_closed; [done|]. by apply total_zero.
Qed.

(** * Concrete runs *)

Module TestTcpConn.
Definition c0 : tcp := [[0; 1]; [7; 0]; [2; 8; 9]]%Z.
Definition t0 : tcpPacketConn := newTCPPacketConn 1%nat.
Definition t1 : tcpPacketConn := (AddConn "10.0.0.9:5" c0 (Some [5]%Z) t0).2.
Definition t2 : tcpPacketConn := set_chan (fun l => l ++ [(0%nat, Data [5]%Z)]) (set_readers (alter (set_st Reading) 0%nat) t1).
Definition t3 : tcpPacketConn := set_readers (alter read_conn 0%nat) t2.
Definition t4 : tcpPacketConn := Close_begin t3.

Lemma t3_reachable : reachable t3.
Proof.
  eapply reach_step; [eapply reach_step; [eapply reach_step; [apply (reach_new 1%nat)|apply (p_add t0 "10.0.0.9:5" c0 (Some [5]%Z))]|]|].
  - apply (p_reader t1 0%nat). eapply r_first_send; [reflexivity|reflexivity|vm_compute; lia].
  - apply (p_reader t2 0%nat). eapply r_read; reflexivity.
Qed.

Lemma t4_reachable : reachable t4.
Proof. eapply reach_step; [apply t3_reachable|apply p_close]. Qed.

Lemma tcp_packets_in_order_witness : data_of 0%nat (got t3) ++ data_of 0%nat (recvChan t3) ++ [[7]; [8; 9]]%Z = [[5]; [7]; [8; 9]]%Z.
Proof.
  destruct (readers t3 !! 0%nat) as [r|] eqn:E; [|vm_compute in E; discriminate E].
  destruct (tcp_packets_in_order t3 0%nat r t3_reachable E) as [_ H]. specialize (H eq_refl). vm_compute in E. injection E as <-. vm_compute in H. vm_compute. exact H.
Defined.

Lemma closed_channel_unused_witness : exists t, recvClosed t = true /\ forall i t', ~ rstep i t t'.
Proof.
  exists (Close_end (Close_begin t0)). split; [reflexivity|]. intros i t'. apply closed_channel_unused; [|reflexivity].
  eapply reach_step; [eapply reach_step; [apply (reach_new 1%nat)|apply p_close]|]. apply p_closed; [reflexivity|constructor].
Defined.

Lemma close_returns_witness : total t4 = 5%nat /\ exists i t', rstep i t4 t'.
Proof.
  split; [vm_compute; reflexivity|]. destruct (close_returns t4 t4_reachable eq_refl) as (_ & _ & H & _). apply H. vm_compute. discriminate.
Defined.
End TestTcpConn.
