(* ===== verification/IceTcpMux.v ===== *)
(** The TCP multiplexer of ICE (lib/pion-ice/tcp_mux.go): it hands every accepted TCP
    connection to the packet connection of the user fragment in its first STUN
    message, and creates packet connections on demand.

    Packet connections live in a store, because the maps of the multiplexer, the
    agents and the goroutines that wait for them to close all refer to them.
    What pion/stun finds in a message is a parameter. *)

From S2P Require Import Prelude GoText IceTcp IceTcpConn.

#[local] Open Scope list_scope.

(** A packet connection with what it was created for, and its alive timer. *)
Record pobj := { ufrag : string; isIPv6 : bool; local_ip : string; pconn : tcpPacketConn; alive : bool }.

(** [watchers]: the packet connections whose goroutine in [createConn] still waits;
    [removed]: those that a goroutine has taken from the maps and has yet to close,
    which it does without the lock; [adding]: accepted connections, with their remote address
    and first packet, for which [handleConn] has found the packet connection and which it has yet to add. *)
Record TCPMux := {
  objs : list pobj;
  connsIPv4 : gmap string (gmap string nat);
  connsIPv6 : gmap string (gmap string nat);
  mclosed : bool;
  watchers : list nat;
  removed : list nat;
  adding : list (nat * string * tcp * bytes);
  bufferSize : nat;
}.

Definition set_objs (f : list pobj -> list pobj) (m : TCPMux) : TCPMux :=
  {| objs := f (objs m); connsIPv4 := connsIPv4 m; connsIPv6 := connsIPv6 m; mclosed := mclosed m; watchers := watchers m; removed := removed m; adding := adding m; bufferSize := bufferSize m |}.
Definition set_maps (v4 v6 : gmap string (gmap string nat)) (m : TCPMux) : TCPMux :=
  {| objs := objs m; connsIPv4 := v4; connsIPv6 := v6; mclosed := mclosed m; watchers := watchers m; removed := removed m; adding := adding m; bufferSize := bufferSize m |}.
Definition set_watchers (l : list nat) (m : TCPMux) : TCPMux :=
  {| objs := objs m; connsIPv4 := connsIPv4 m; connsIPv6 := connsIPv6 m; mclosed := mclosed m; watchers := l; removed := removed m; adding := adding m; bufferSize := bufferSize m |}.
Definition set_removed (l : list nat) (m : TCPMux) : TCPMux :=
  {| objs := objs m; connsIPv4 := connsIPv4 m; connsIPv6 := connsIPv6 m; mclosed := mclosed m; watchers := watchers m; removed := l; adding := adding m; bufferSize := bufferSize m |}.
Definition set_adding (l : list (nat * string * tcp * bytes)) (m : TCPMux) : TCPMux :=
  {| objs := objs m; connsIPv4 := connsIPv4 m; connsIPv6 := connsIPv6 m; mclosed := mclosed m; watchers := watchers m; removed := removed m; adding := l; bufferSize := bufferSize m |}.

Definition on_pconn (f : tcpPacketConn -> tcpPacketConn) (o : pobj) : pobj :=
  {| ufrag := ufrag o; isIPv6 := isIPv6 o; local_ip := local_ip o; pconn := f (pconn o); alive := alive o |}.
Definition stop_timer (o : pobj) : pobj := {| ufrag := ufrag o; isIPv6 := isIPv6 o; local_ip := local_ip o; pconn := pconn o; alive := false |}.

Definition NewTCPMuxDefault (readBufferSize : nat) : TCPMux :=
  {| objs := []; connsIPv4 := ∅; connsIPv6 := ∅; mclosed := false; watchers := []; removed := []; adding := []; bufferSize := readBufferSize |}.

Definition table (v6 : bool) (m : TCPMux) : gmap string (gmap string nat) := if v6 then connsIPv6 m else connsIPv4 m.

Definition getConn (uf : string) (v6 : bool) (loc : string) (m : TCPMux) : option nat := table v6 m !! uf ≫= fun l => l !! loc.

(** The conversion of the listener's address cannot fail for a TCP listener. *)
Definition createConn (uf : string) (v6 : bool) (loc : string) (fromStun : bool) (m : TCPMux) : nat * TCPMux :=
  let i := length (objs m) in
  let o := {| ufrag := uf; isIPv6 := v6; local_ip := loc; pconn := newTCPPacketConn (bufferSize m); alive := fromStun |} in
  let t := <[uf := <[loc := i]> (default ∅ (table v6 m !! uf))]> (table v6 m) in
  (i, set_watchers (i :: watchers m) (set_objs (fun l => l ++ [o]) (if v6 then set_maps (connsIPv4 m) t m else set_maps t (connsIPv6 m) m))).

Definition GetConnByUfrag (uf : string) (v6 : bool) (loc : string) (m : TCPMux) : option nat * TCPMux :=
  if mclosed m then (None, m)
  else match getConn uf v6 loc m with
       | Some i => (Some i, set_objs (alter stop_timer i) m)
       | None => let '(i, m) := createConn uf v6 loc false m in (Some i, m)
       end.

Definition close_all (l : list nat) (m : TCPMux) : TCPMux := set_objs (imap (fun i o => if bool_decide (i ∈ l) then stop_timer (on_pconn Close_begin o) else o)) m.

Definition members (t : gmap string (gmap string nat)) (uf : string) : list nat := snd <$> map_to_list (default ∅ (t !! uf)).

(** The critical section of [RemoveConnByUfrag]. *)
Definition RemoveConnByUfrag (uf : string) (m : TCPMux) : TCPMux :=
  set_removed (removed m ++ members (connsIPv4 m) uf ++ members (connsIPv6 m) uf) (set_maps (delete uf (connsIPv4 m)) (delete uf (connsIPv6 m)) m).

(** What it and [removeConnByUfragAndLocalHost] do after it, for one of the connections: close it. *)
Definition close_removed (k i : nat) (m : TCPMux) : TCPMux :=
  set_objs (alter (fun o => stop_timer (on_pconn Close_begin o)) i) (set_removed (delete k (removed m)) m).

(** One of the two maps without the entry of a local address. *)
Definition drop_local (uf loc : string) (t : gmap string (gmap string nat)) : gmap string (gmap string nat) * list nat :=
  match t !! uf with
  | None => (t, [])
  | Some l =>
      match l !! loc with
      | None => (t, [])
      | Some i => (if bool_decide (delete loc l = ∅) then delete uf t else <[uf := delete loc l]> t, [i])
      end
  end.

(** The critical section of [removeConnByUfragAndLocalHost]. *)
Definition removeConnByUfragAndLocalHost (uf loc : string) (m : TCPMux) : TCPMux :=
  let '(v4, l4) := drop_local uf loc (connsIPv4 m) in
  let '(v6, l6) := drop_local uf loc (connsIPv6 m) in
  set_removed (removed m ++ l4 ++ l6) (set_maps v4 v6 m).

Definition all_members (t : gmap string (gmap string nat)) : list nat := map_to_list t ≫= fun ul => snd <$> map_to_list ul.2.

Definition Close (m : TCPMux) : TCPMux :=
  let m := close_all (all_members (connsIPv4 m) ++ all_members (connsIPv6 m)) m in
  {| objs := objs m; connsIPv4 := ∅; connsIPv6 := ∅; mclosed := true; watchers := watchers m; removed := removed m; adding := adding m; bufferSize := bufferSize m |}.

(** The goroutine of [createConn], when its packet connection has been closed. *)
Definition watch (i : nat) (m : TCPMux) : TCPMux :=
  match objs m !! i with
  | Some o => removeConnByUfragAndLocalHost (ufrag o) (local_ip o) (set_watchers (List.remove Nat.eq_dec i (watchers m)) m)
  | None => m
  end.

(** The alive timer. *)
Definition alive_fired (i : nat) (m : TCPMux) : TCPMux := set_objs (alter (fun o => stop_timer (on_pconn Close_begin o)) i) m.

Section Mux.
(** Whether a message is a binding, and its username; [None] if it cannot be
    decoded. *)
Context (decode : bytes -> option (bool * option string)).

Definition firstPacketCap : nat := 512.

(** [handleConn]: an accepted connection, the address it comes from, whether that
    is IPv6, and the local address.  Up to the end of the critical section: [None] when the
    connection is closed, else the packet connection, what is left of the stream and the packet. *)
Definition handleConn_find (c : tcp) (v6 : bool) (loc : string) (m : TCPMux) : option (nat * tcp * bytes) * TCPMux :=
  match readStreamingPacket firstPacketCap c with
  | (Err _, _) => (None, m)
  | (Ok buf, c) =>
      match decode buf with
      | Some (true, Some username) =>
          let uf := before_char ":" username in
          let '(i, m) := match getConn uf v6 loc m with Some i => (i, m) | None => createConn uf v6 loc true m end in
          (Some (i, c, buf), m)
      | _ => (None, m)
      end
  end.

(** After it; [false]: the connection is closed. *)
Definition handleConn_add (i : nat) (remote : string) (c : tcp) (buf : bytes) (m : TCPMux) : bool * TCPMux :=
  match objs m !! i with
  | None => (false, m)
  | Some o =>
      let '(e, p) := AddConn remote c (Some buf) (pconn o) in
      (bool_decide (e = None), set_objs (alter (on_pconn (fun _ => p)) i) m)
  end.

(** Both parts without another step between them. *)
Definition handleConn (c : tcp) (remote : string) (v6 : bool) (loc : string) (m : TCPMux) : bool * TCPMux :=
  match handleConn_find c v6 loc m with
  | (None, m) => (false, m)
  | (Some (i, c, buf), m) => handleConn_add i remote c buf m
  end.

(** The steps of a multiplexer. *)
Inductive mstep (m : TCPMux) : TCPMux -> Prop :=
| m_get uf v6 loc : mstep m (GetConnByUfrag uf v6 loc m).2
| m_refuse c v6 loc m' : handleConn_find c v6 loc m = (None, m') -> mstep m m'
| m_find c remote v6 loc i c' buf m' : handleConn_find c v6 loc m = (Some (i, c', buf), m') ->
    mstep m (set_adding (adding m' ++ [(i, remote, c', buf)]) m')
| m_add k i remote c buf : adding m !! k = Some (i, remote, c, buf) ->
    mstep m (handleConn_add i remote c buf (set_adding (delete k (adding m)) m)).2
| m_remove uf : mstep m (RemoveConnByUfrag uf m)
| m_removed k i : removed m !! k = Some i -> mstep m (close_removed k i m)
| m_close : mstep m (Close m)
| m_alive i o : objs m !! i = Some o -> alive o = true -> mstep m (alive_fired i m)
| m_watch i o : i ∈ watchers m -> objs m !! i = Some o -> closed (pconn o) = true -> mstep m (watch i m)
| m_conn i o p : objs m !! i = Some o -> pstep (pconn o) p -> mstep m (set_objs (alter (on_pconn (fun _ => p)) i) m).

Inductive mreachable : TCPMux -> Prop :=
| mreach_new n : mreachable (NewTCPMuxDefault n)
| mreach_step m m' : mreachable m -> mstep m m' -> mreachable m'.
End Mux.

(** * The invariant *)

Record minv (m : TCPMux) : Prop := {
  m_key uf v6 loc i : getConn uf v6 loc m = Some i -> exists o, objs m !! i = Some o /\ ufrag o = uf /\ isIPv6 o = v6 /\ local_ip o = loc;
  m_reach i o : objs m !! i = Some o -> reachable (pconn o);
  m_mapped i o : objs m !! i = Some o -> closed (pconn o) = false ->
    getConn (ufrag o) (isIPv6 o) (local_ip o) m = Some i \/ i ∈ removed m;
}.

(** An object that stays what it was made for, of a connection that has made steps
    and is not opened again. *)
Definition later (o o' : pobj) : Prop :=
  ufrag o' = ufrag o /\ isIPv6 o' = isIPv6 o /\ local_ip o' = local_ip o /\ (reachable (pconn o) -> reachable (pconn o')) /\
  (closed (pconn o') = false -> closed (pconn o) = false).

(** A step that changes objects in this way and takes from the maps only what it
    closes. *)
Lemma minv_later m m' : minv m ->
  (forall i o', objs m' !! i = Some o' -> exists o, objs m !! i = Some o /\ later o o') ->
  (forall i o, objs m !! i = Some o -> exists o', objs m' !! i = Some o' /\ later o o') ->
  (forall uf v6 loc i, getConn uf v6 loc m' = Some i -> getConn uf v6 loc m = Some i) ->
  (forall uf v6 loc i o', getConn uf v6 loc m = Some i -> objs m' !! i = Some o' -> closed (pconn o') = false -> getConn uf v6 loc m' = Some i \/ i ∈ removed m') ->
  (forall i o', i ∈ removed m -> objs m' !! i = Some o' -> closed (pconn o') = false -> i ∈ removed m') -> minv m'.
Proof.
  intros I Hback Hforth Hget Hkeep Hrem. split.
  - intros uf v6 loc i Hi. destruct (m_key m I uf v6 loc i (Hget _ _ _ _ Hi)) as (o & Ho & E1 & E2 & E3). destruct (Hforth i o Ho) as (o' & Ho' & L1 & L2 & L3 & _).
    exists o'. by rewrite L1, L2, L3.
  - intros i o' Ho'. destruct (Hback i o' Ho') as (o & Ho & _ & _ & _ & Hr & _). by apply Hr, (m_reach m I i).
  - intros i o' Ho' Hc. destruct (Hback i o' Ho') as (o & Ho & L1 & L2 & L3 & _ & Hc'). rewrite L1, L2, L3.
    destruct (m_mapped m I i o Ho (Hc' Hc)) as [Hm|Hm]; [by eapply Hkeep|right; by eapply Hrem].
Qed.

Lemma later_refl o : later o o.
Proof. by repeat split. Qed.

Lemma later_timer o : later o (stop_timer o).
Proof. by repeat split. Qed.

Lemma later_conn o p : pstep (pconn o) p -> (closed p = false -> closed (pconn o) = false) -> later o (on_pconn (fun _ => p) o).
Proof. intros Hp Hc. repeat split; [|exact Hc]. intros Hr. cbn. by eapply reach_step. Qed.

Lemma later_close o : later o (stop_timer (on_pconn Close_begin o)).
Proof. repeat split; [|done]. intros Hr. cbn. eapply reach_step; [exact Hr|]. apply p_close. Qed.

Lemma pstep_closed t t' : pstep t t' -> closed t' = false -> closed t = false.
Proof.
  intros H. destruct H as [i t' H|a c d|x l E|i r p E Ec Hr Hs|i r d E Ec Hr Hs| |Hc Hd]; try done.
  - destruct H; try done. unfold removeConn. by destruct (readers t !! i).
  - unfold AddConn. destruct (closed t) eqn:Ec; [cbn [snd]; congruence|done].
Qed.

(** Objects under [alter] and [imap]. *)
Lemma objs_alter f i (l : list pobj) : (forall o, l !! i = Some o -> later o (f o)) ->
  (forall j o', alter f i l !! j = Some o' -> exists o, l !! j = Some o /\ later o o') /\ (forall j o, l !! j = Some o -> exists o', alter f i l !! j = Some o' /\ later o o').
Proof.
  intros Hf. split; intros j o Ho; destruct (decide (i = j)) as [<-|Hne].
  - rewrite list_lookup_alter_eq in Ho. destruct (l !! i) as [x|] eqn:E; [|done]. injection Ho as <-. exists x. split; [done|by apply Hf].
  - rewrite list_lookup_alter_ne in Ho by done. exists o. split; [done|apply later_refl].
  - exists (f o). rewrite list_lookup_alter_eq, Ho. split; [done|by apply Hf].
  - exists o. rewrite list_lookup_alter_ne by done. split; [done|apply later_refl].
Qed.

Definition close_in (l : list nat) (i : nat) (o : pobj) : pobj := if bool_decide (i ∈ l) then stop_timer (on_pconn Close_begin o) else o.

Lemma close_all_lookup l m i : objs (close_all l m) !! i = close_in l i <$> objs m !! i.
Proof. unfold close_all. cbn [set_objs objs]. apply list_lookup_imap. Qed.

Lemma close_in_later l i o : later o (close_in l i o).
Proof. unfold close_in. case_bool_decide; [apply later_close|apply later_refl]. Qed.

(** Removing entries that are to be closed, or that are closed at once. *)
Lemma minv_remove m t4 t6 l : minv m -> let m' := set_maps t4 t6 m in
  (forall uf v6 loc i, getConn uf v6 loc m' = Some i -> getConn uf v6 loc m = Some i) ->
  (forall uf v6 loc i, getConn uf v6 loc m = Some i -> i ∈ l \/ getConn uf v6 loc m' = Some i) ->
  minv (set_removed (removed m ++ l) m') /\ minv (close_all l m').
Proof.
  intros I m' Hget Hkeep. split; apply (minv_later m); try done.
  - intros i o Ho. exists o. split; [done|apply later_refl].
  - intros i o Ho. exists o. split; [done|apply later_refl].
  - intros uf v6 loc i o' Hi _ _. destruct (Hkeep uf v6 loc i Hi) as [Hin|Hk]; [right; by apply elem_of_app; right|by left].
  - intros i o' Hi _ _. by apply elem_of_app; left.
  - intros i o'. rewrite close_all_lookup. cbn [m' set_maps objs]. destruct (objs m !! i) as [o|]; [|done]. intros [= <-]. exists o. split; [done|apply close_in_later].
  - intros i o Ho. exists (close_in l i o). rewrite close_all_lookup. cbn [m' set_maps objs]. rewrite Ho. split; [done|apply close_in_later].
  - intros uf v6 loc i o' Hi. destruct (Hkeep uf v6 loc i Hi) as [Hin|Hk]; [|by left]. rewrite close_all_lookup. cbn [m' set_maps objs]. destruct (objs m !! i) as [o|]; [|done].
    intros [= <-]. unfold close_in. by rewrite bool_decide_true.
Qed.

Lemma minv_fields m m' : objs m' = objs m -> connsIPv4 m' = connsIPv4 m -> connsIPv6 m' = connsIPv6 m -> removed m' = removed m -> minv m -> minv m'.
Proof.
  intros E1 E2 E3 E4 I. assert (forall uf v6 loc, getConn uf v6 loc m' = getConn uf v6 loc m) as Eg by (intros uf [] loc; unfold getConn, table; by rewrite ?E2, ?E3).
  split.
  - intros uf v6 loc i. rewrite Eg, E1. apply I.
  - intros i o. rewrite E1. apply I.
  - intros i o. rewrite E1, Eg, E4. apply I.
Qed.

Lemma close_removed_inv k i m : minv m -> removed m !! k = Some i -> minv (close_removed k i m).
Proof.
  intros I Hk. destruct (objs_alter (fun o => stop_timer (on_pconn Close_begin o)) i (objs m)) as [H1 H2]; [intros; apply later_close|].
  apply (minv_later m); [done|exact H1|exact H2|done|by left|]. intros j o' Hj Ho' Hc. cbn [close_removed set_objs set_removed removed objs] in *.
  apply list_elem_of_lookup in Hj as [k' Hk']. destruct (decide (k' = k)) as [->|Hne].
  - assert (j = i) as -> by congruence. rewrite list_lookup_alter_eq in Ho'. destruct (objs m !! i); [|done]. injection Ho' as <-. done.
  - destruct (decide (k' < k)%nat).
    + apply list_elem_of_lookup. exists k'. by rewrite list_lookup_delete_lt.
    + apply list_elem_of_lookup. exists (k' - 1)%nat. rewrite list_lookup_delete_ge by lia. replace (S (k' - 1)) with k' by lia. done.
Qed.

Lemma create_inv uf v6 loc b m : minv m -> getConn uf v6 loc m = None -> minv (createConn uf v6 loc b m).2 /\
  getConn uf v6 loc (createConn uf v6 loc b m).2 = Some (createConn uf v6 loc b m).1 /\
  objs (createConn uf v6 loc b m).2 !! (createConn uf v6 loc b m).1 =
    Some {| ufrag := uf; isIPv6 := v6; local_ip := loc; pconn := newTCPPacketConn (bufferSize m); alive := b |}.
Proof.
  intros I Hn. unfold createConn. cbn [fst snd]. set (o := {| ufrag := uf |}). set (m' := set_watchers _ _).
  assert (forall uf' v6' loc', getConn uf' v6' loc' m' = if decide (uf' = uf /\ v6' = v6 /\ loc' = loc) then Some (length (objs m)) else getConn uf' v6' loc' m) as Hg.
  { intros uf' v6' loc'. unfold getConn. subst m'. destruct v6, v6'; cbn [table set_watchers set_objs set_maps connsIPv4 connsIPv6];
      try (rewrite decide_False by naive_solver; done);
      (destruct (decide (uf = uf')) as [<-|Hne]; [rewrite lookup_insert_eq; cbn [mbind option_bind]|rewrite lookup_insert_ne, decide_False by naive_solver; done]);
      (destruct (decide (loc = loc')) as [<-|Hne]; [rewrite lookup_insert_eq, decide_True by done; done|]);
      rewrite lookup_insert_ne, decide_False by naive_solver; by destruct (_ !! uf). }
  assert (objs m' = objs m ++ [o]) as Eo by (subst m'; by destruct v6).
  assert (forall i x, objs m' !! i = Some x -> objs m !! i = Some x \/ i = length (objs m) /\ x = o) as Hl.
  { intros i x. rewrite Eo. intros [H|[Hge H]]%lookup_app_Some; [by left|]. destruct (i - length (objs m))%nat eqn:E; [|done]. cbn in H. injection H as <-. right. split; [lia|done]. }
  assert (objs m' !! length (objs m) = Some o) as Elast by (rewrite Eo, lookup_app_r, Nat.sub_diag by lia; done).
  split; [split|split; [rewrite Hg; by rewrite decide_True|exact Elast]].
  - intros uf' v6' loc' i. rewrite Hg. case_decide as Hd; [intros [= <-]; destruct Hd as (-> & -> & ->); by exists o|].
    intros Hi. destruct (m_key m I _ _ _ _ Hi) as (x & Hx & Hk). exists x. split; [|done]. rewrite Eo. by apply lookup_app_l_Some.
  - intros i x Hx. destruct (Hl i x Hx) as [Hx'|[-> ->]]; [by apply (m_reach m I i)|]. apply reach_new.
  - assert (removed m' = removed m) as Er by (subst m'; by destruct v6). intros i x Hx Hc. rewrite Hg, Er.
    destruct (Hl i x Hx) as [Hx'|[-> ->]]; [|left; by rewrite decide_True]. destruct (m_mapped m I i x Hx' Hc) as [Hi|Hi]; [left|by right]. rewrite decide_False; [done|].
    intros (E1 & E2 & E3). rewrite E1, E2, E3 in Hi. congruence.
Qed.

Lemma minv_alter f i m : minv m -> (forall o, objs m !! i = Some o -> later o (f o)) -> minv (set_objs (alter f i) m).
Proof.
  intros I Hf. destruct (objs_alter f i (objs m) Hf) as [H1 H2]. apply (minv_later m); try done. by left.
Qed.

Lemma drop_local_get uf loc t t' l uf' loc' : drop_local uf loc t = (t', l) ->
  (t' !! uf' ≫= fun l => l !! loc') = (if decide (uf' = uf /\ loc' = loc) then None else t !! uf' ≫= fun l => l !! loc') /\
  (forall i, (t !! uf ≫= fun l => l !! loc) = Some i -> i ∈ l).
Proof.
  unfold drop_local. destruct (t !! uf) as [x|] eqn:Ex.
  2:{ intros [= <- <-]. split; [|done]. case_decide as Hd; [|done]. destruct Hd as [-> ->]. by rewrite Ex. }
  cbn [mbind option_bind]. destruct (x !! loc) as [i|] eqn:Ei.
  2:{ intros [= <- <-]. split; [|done]. case_decide as Hd; [|done]. destruct Hd as [-> ->]. rewrite Ex. exact Ei. }
  intros [= <- <-]. split; [|intros j [= <-]; by left].
  destruct (decide (uf = uf')) as [<-|Hne].
  - assert (forall y, delete loc x = y -> (y !! loc') = (if decide (uf = uf /\ loc' = loc) then None else x !! loc')) as Hy.
    { intros y <-. destruct (decide (loc = loc')) as [<-|Hl]; [rewrite lookup_delete_eq, decide_True by done; done|]. rewrite lookup_delete_ne, decide_False by naive_solver. done. }
    rewrite Ex. case_bool_decide as Hb.
    + rewrite lookup_delete_eq. specialize (Hy ∅ Hb). rewrite lookup_empty in Hy. exact Hy.
    + rewrite lookup_insert_eq. by apply Hy.
  - rewrite decide_False by naive_solver. case_bool_decide; [by rewrite lookup_delete_ne|by rewrite lookup_insert_ne].
Qed.

Lemma remove_local_inv uf loc m : minv m -> minv (removeConnByUfragAndLocalHost uf loc m).
Proof.
  intros I. unfold removeConnByUfragAndLocalHost. destruct (drop_local uf loc (connsIPv4 m)) as [t4 l4] eqn:E4. destruct (drop_local uf loc (connsIPv6 m)) as [t6 l6] eqn:E6.
  assert (forall uf' v6 loc', getConn uf' v6 loc' (set_maps t4 t6 m) = if decide (uf' = uf /\ loc' = loc) then None else getConn uf' v6 loc' m) as Hg.
  { intros uf' [] loc'; unfold getConn; cbn [table set_maps connsIPv4 connsIPv6]; [apply (drop_local_get _ _ _ _ _ _ _ E6)|apply (drop_local_get _ _ _ _ _ _ _ E4)]. }
  apply (minv_remove m); [done| |].
  - intros uf' v6 loc' i. rewrite Hg. by case_decide.
  - intros uf' v6 loc' i Hi. rewrite Hg. case_decide as Hd; [|by right]. left. destruct Hd as [-> ->]. apply elem_of_app.
    destruct v6; [right; by apply (drop_local_get _ _ _ _ _ uf loc E6)|left; by apply (drop_local_get _ _ _ _ _ uf loc E4)].
Qed.

Lemma members_in t uf loc i : (t !! uf ≫= fun l : gmap string nat => l !! loc) = Some i -> i ∈ members t uf.
Proof.
  unfold members. destruct (t !! uf) as [l|]; [|done]. cbn [mbind option_bind]. intros H. apply list_elem_of_fmap. exists (loc, i). split; [done|].
  by apply elem_of_map_to_list.
Qed.

Lemma remove_ufrag_inv uf m : minv m -> minv (RemoveConnByUfrag uf m).
Proof.
  intros I. unfold RemoveConnByUfrag.
  assert (forall uf' v6 loc', getConn uf' v6 loc' (set_maps (delete uf (connsIPv4 m)) (delete uf (connsIPv6 m)) m) = if decide (uf' = uf) then None else getConn uf' v6 loc' m) as Hg.
  { intros uf' v6 loc'. unfold getConn. destruct (decide (uf' = uf)) as [->|Hne]; destruct v6; cbn [table set_maps connsIPv4 connsIPv6];
      [by rewrite lookup_delete_eq|by rewrite lookup_delete_eq|by rewrite lookup_delete_ne|by rewrite lookup_delete_ne]. }
  apply (minv_remove m); [done| |].
  - intros uf' v6 loc' i. rewrite Hg. by case_decide.
  - intros uf' v6 loc' i Hi. rewrite Hg. case_decide as Hd; [|by right]. left. subst uf'. apply elem_of_app. unfold getConn in Hi.
    destruct v6; [right|left]; by eapply members_in.
Qed.

Lemma all_members_in t uf loc i : (t !! uf ≫= fun l : gmap string nat => l !! loc) = Some i -> i ∈ all_members t.
Proof.
  unfold all_members. destruct (t !! uf) as [l|] eqn:E; [|done]. cbn [mbind option_bind]. intros H. apply list_elem_of_bind. exists (uf, l). split.
  - apply list_elem_of_fmap. exists (loc, i). split; [done|]. by apply elem_of_map_to_list.
  - by apply elem_of_map_to_list.
Qed.

Lemma mux_close_inv m : minv m -> minv (Close m).
Proof.
  intros I. set (l := all_members (connsIPv4 m) ++ all_members (connsIPv6 m)).
  assert (minv (close_all l (set_maps ∅ ∅ m))) as H.
  { apply (minv_remove m); [done| |].
    - intros uf [] loc i; unfold getConn; cbn [table set_maps connsIPv4 connsIPv6]; by rewrite lookup_empty.
    - intros uf v6 loc i Hi. left. apply elem_of_app. unfold getConn in Hi. destruct v6; [right|left]; by eapply all_members_in. }
  by apply (minv_fields (close_all l (set_maps ∅ ∅ m))).
Qed.

Lemma add_conn_inv i o a c d m : minv m -> objs m !! i = Some o -> minv (set_objs (alter (on_pconn (fun _ => (AddConn a c d (pconn o)).2)) i) m).
Proof.
  intros I Ho. apply minv_alter; [done|]. intros o' Ho'. assert (o' = o) as -> by congruence. apply later_conn; [apply p_add|]. intros Hc.
  eapply pstep_closed; [apply p_add|exact Hc].
Qed.

Section MuxTheorems.
Context (decode : bytes -> option (bool * option string)).

Lemma find_inv c v6 loc m r m' : minv m -> handleConn_find decode c v6 loc m = (r, m') -> minv m' /\
  forall i c' buf, r = Some (i, c', buf) -> exists username, readStreamingPacket firstPacketCap c = (Ok buf, c') /\
    decode buf = Some (true, Some username) /\ getConn (before_char ":" username) v6 loc m' = Some i.
Proof.
  intros I. unfold handleConn_find. destruct (readStreamingPacket firstPacketCap c) as [[buf|e] c']; [|intros; by simplify_eq].
  destruct (decode buf) as [[[] [username|]]|] eqn:Ed; try (intros; by simplify_eq).
  destruct (getConn (before_char ":" username) v6 loc m) as [i|] eqn:Eg.
  - intros [= <- <-]. split; [done|]. intros i' c1 b [= <- <- <-]. by exists username.
  - destruct (create_inv _ _ _ true m I Eg) as (Hi & Hg & _). destruct (createConn _ v6 loc true m) as [i m1]. cbn [fst snd] in *.
    intros [= <- <-]. split; [done|]. intros i' c1 b [= <- <- <-]. by exists username.
Qed.

Lemma handle_add_inv i remote c buf m : minv m -> minv (handleConn_add i remote c buf m).2.
Proof.
  intros I. unfold handleConn_add. destruct (objs m !! i) as [o|] eqn:Eo; [|done].
  pose proof (add_conn_inv i o remote c (Some buf) m I Eo) as H. by destruct (AddConn remote c (Some buf) (pconn o)).
Qed.

Lemma muxstep_inv m m' : minv m -> mstep decode m m' -> minv m'.
Proof.
  intros I H. destruct H as [uf v6 loc|c v6 loc m' E|c remote v6 loc i c' buf m' E|k i remote c buf Hk|uf|k i Hk| |i o Ho Ha|i o Hw Ho Hc|i o p Ho Hp].
  - unfold GetConnByUfrag. destruct (mclosed m); [done|]. destruct (getConn uf v6 loc m) as [i|] eqn:Eg.
    + apply minv_alter; [done|]. intros o _. apply later_timer.
    + destruct (create_inv uf v6 loc false m I Eg) as [Hi _]. by destruct (createConn uf v6 loc false m).
  - by destruct (find_inv _ _ _ _ _ _ I E).
  - destruct (find_inv _ _ _ _ _ _ I E) as [I' _]. by apply (minv_fields m').
  - apply handle_add_inv. by apply (minv_fields m).
  - by apply remove_ufrag_inv.
  - by apply close_removed_inv.
  - by apply mux_close_inv.
  - apply minv_alter; [done|]. intros o' _. apply later_close.
  - unfold watch. rewrite Ho. apply remove_local_inv. by apply (minv_fields m).
  - apply minv_alter; [done|]. intros o' Ho'. assert (o' = o) as -> by congruence. apply later_conn; [done|]. by eapply pstep_closed.
Qed.

Lemma mreachable_inv m : mreachable decode m -> minv m.
Proof.
  induction 1 as [n|m m' _ IH H]; [|by eapply muxstep_inv]. split; [|done|done].
  intros uf [] loc i; unfold getConn; cbn; by rewrite lookup_empty.
Qed.

(** C23. Whatever happens to a multiplexer, in any interleaving of its goroutines: its maps have the packet connections under
    what they were created for; every one that is open is in them or has been taken out by a
    goroutine that is about to close it, so none is forgotten; and every one delivers the packets of
    each of its TCP connections in order. *)
Theorem mux_invariant m : mreachable decode m ->
  (forall uf v6 loc i, getConn uf v6 loc m = Some i -> exists o, objs m !! i = Some o /\ ufrag o = uf /\ isIPv6 o = v6 /\ local_ip o = loc) /\
  (forall i o, objs m !! i = Some o -> closed (pconn o) = false -> getConn (ufrag o) (isIPv6 o) (local_ip o) m = Some i \/ i ∈ removed m) /\
  (forall i o j r, objs m !! i = Some o -> readers (pconn o) !! j = Some r ->
    (data_of j (got (pconn o)) ++ data_of j (recvChan (pconn o))) `prefix_of` orig r).
Proof.
  intros I%mreachable_inv. split; [apply I|]. split; [apply I|]. intros i o j r Ho Hr. pose proof (tcp_reachable_inv _ (m_reach m I i o Ho)) as Ip.
  exact (prefix_less _ _ _ (i_prefix _ Ip j r Hr)).
Qed.

(** An accepted connection, when nothing comes between the two parts of [handleConn], goes to the packet connection of the user fragment that
    its first message names, and that message is the first packet to come from
    it. *)
Theorem connection_routed m c remote v6 loc m' : mreachable decode m -> handleConn decode c remote v6 loc m = (true, m') ->
  exists buf c' username i o j r, readStreamingPacket firstPacketCap c = (Ok buf, c') /\ decode buf = Some (true, Some username) /\
    getConn (before_char ":" username) v6 loc m' = Some i /\ objs m' !! i = Some o /\ ufrag o = before_char ":" username /\
    readers (pconn o) !! j = Some r /\ addr r = remote /\ orig r = buf :: all_packets (concat c').
Proof.
  intros I%mreachable_inv. unfold handleConn. destruct (handleConn_find decode c v6 loc m) as [[[[i c'] buf]|] m1] eqn:Ef; [|done].
  destruct (find_inv _ _ _ _ _ _ I Ef) as [I1 Hf]. destruct (Hf _ _ _ eq_refl) as (username & Er & Ed & Hg).
  destruct (m_key m1 I1 _ _ _ _ Hg) as (o & Ho & Ek & _). unfold handleConn_add. rewrite Ho.
  destruct (AddConn remote c' (Some buf) (pconn o)) as [e p] eqn:Ea. case_bool_decide as He; [|done]. intros [= <-].
  unfold AddConn in Ea. destruct (closed (pconn o)); [by simplify_eq|]. case_bool_decide; [by simplify_eq|]. injection Ea as _ <-.
  eexists buf, c', username, i, _, (length (readers (pconn o))), _. split; [done|]. split; [done|]. split; [exact Hg|]. cbn [set_objs objs].
  split; [rewrite list_lookup_alter_eq, Ho; reflexivity|]. split; [exact Ek|]. cbn [on_pconn pconn set_conns set_readers readers].
  split; [rewrite lookup_app_r, Nat.sub_diag by lia; reflexivity|]. done.
Qed.
End MuxTheorems.

(** The goroutine that waits for a packet connection removes whatever is in the maps
    under its user fragment and address by then: a new connection that an agent
    has got there in the meantime is taken out, to be closed. *)
Theorem stale_watcher_closes_successor m i j o o' : objs m !! i = Some o -> objs m !! j = Some o' -> i <> j -> closed (pconn o') = false ->
  getConn (ufrag o) (isIPv6 o) (local_ip o) m = Some j ->
  j ∈ removed (watch i m) /\ getConn (ufrag o) (isIPv6 o) (local_ip o) (watch i m) = None.
Proof.
  intros Ho Ho' _ _ Hg. unfold watch. rewrite Ho. unfold removeConnByUfragAndLocalHost. cbn [set_watchers connsIPv4 connsIPv6].
  destruct (drop_local (ufrag o) (local_ip o) (connsIPv4 m)) as [t4 l4] eqn:E4. destruct (drop_local (ufrag o) (local_ip o) (connsIPv6 m)) as [t6 l6] eqn:E6.
  destruct (drop_local_get _ _ _ _ _ (ufrag o) (local_ip o) E4) as [G4 H4]. destruct (drop_local_get _ _ _ _ _ (ufrag o) (local_ip o) E6) as [G6 H6].
  rewrite decide_True in G4, G6 by done. split.
  - cbn [set_removed removed]. apply elem_of_app. right. apply elem_of_app. unfold getConn, table in Hg. destruct (isIPv6 o); [right; by apply H6|left; by apply H4].
  - unfold getConn. destruct (isIPv6 o); [exact G6|exact G4].
Qed.

(** * Concrete runs *)

Module TestMux.
Definition decode (b : bytes) : option (bool * option string) := match b with [1%Z; 2%Z] => Some (true, Some "frag:other"%string) | _ => None end.
Definition m0 : TCPMux := NewTCPMuxDefault 8.
Definition m1 : TCPMux := (GetConnByUfrag "frag" false "10.0.0.1" m0).2.
Definition m2 : TCPMux := RemoveConnByUfrag "frag" m1.
Definition m3 : TCPMux := (GetConnByUfrag "frag" false "10.0.0.1" m2).2.

Lemma m3_reachable : mreachable decode m3.
Proof.
  eapply mreach_step; [eapply mreach_step; [eapply mreach_step; [apply (mreach_new decode 8)|apply (m_get decode m0 "frag" false "10.0.0.1")]|apply (m_remove decode m1 "frag")]|].
  apply (m_get decode m2 "frag" false "10.0.0.1").
Qed.

Lemma stale_watcher_closes_successor_witness : 1%nat ∈ removed (watch 0 m3) /\ getConn "frag" false "10.0.0.1" (watch 0 m3) = None.
Proof.
  destruct (objs m3 !! 0%nat) as [o|] eqn:E0; [|vm_compute in E0; discriminate E0]. destruct (objs m3 !! 1%nat) as [o'|] eqn:E1; [|vm_compute in E1; discriminate E1].
  pose proof (stale_watcher_closes_successor m3 0 1 o o' E0 E1) as H. vm_compute in E0. injection E0 as <-. vm_compute in E1. injection E1 as <-.
  apply H; [discriminate|reflexivity|vm_compute; reflexivity].
Defined.

Definition c0 : tcp := [[0; 2; 1]; [2; 0]; [1; 7]]%Z.
Definition m4 : TCPMux := (handleConn decode c0 "10.0.0.9:5" false "10.0.0.1" m3).2.

Lemma mux_invariant_witness : getConn "frag" false "10.0.0.1" m3 = Some 1%nat /\ exists o, objs m3 !! 1%nat = Some o /\ ufrag o = "frag"%string /\ isIPv6 o = false /\ local_ip o = "10.0.0.1"%string.
Proof. assert (getConn "frag" false "10.0.0.1" m3 = Some 1%nat) as E by (vm_compute; reflexivity). split; [exact E|]. by apply (mux_invariant decode m3 m3_reachable). Defined.

Lemma connection_routed_witness : exists buf c' username i o j r, readStreamingPacket firstPacketCap c0 = (Ok buf, c') /\ decode buf = Some (true, Some username) /\
  getConn (before_char ":" username) false "10.0.0.1" m4 = Some i /\ objs m4 !! i = Some o /\ ufrag o = before_char ":" username /\
  readers (pconn o) !! j = Some r /\ addr r = "10.0.0.9:5"%string /\ orig r = buf :: all_packets (concat c').
Proof. apply (connection_routed decode m3 c0 "10.0.0.9:5" false "10.0.0.1" m4 m3_reachable). vm_compute. reflexivity. Defined.
End TestMux.
