(* ===== verification/TurnTcp.v ===== *)
(** TCP allocations of the TURN client (lib/pion-turn/internal/client/tcp_alloc.go):
    binding a data connection to a connection of a peer, the queue of connection
    attempts and the deadline of [Accept].

    What pion/stun says of the bytes of a message is a parameter; [Connect] and
    the permissions go through the transactions of the client and are not part of
    this file. *)

From S2P Require Import Prelude GoNet IceTcp.

#[local] Open Scope list_scope.
#[local] Open Scope Z_scope.

Definition stunHeaderSize : nat := 20.

Inductive bind_error :=
| errBuild | errWrite | errIncompleteTURNFrame | errInvalidTURNFrame | errRead | errDecode
| errResponse (code : option Z) | errUnexpectedSTUNRequestMessage.

(** The class of a decoded message that is answered, with its error code if it has
    one. *)
Inductive answer := Success | ErrorAnswer (code : option Z) | Other.

(** One call of [Read] on a slice of [n] bytes; an empty slice is filled at once. *)
Definition read_once (n : nat) (c : tcp) : option (bytes * tcp) := match n with O => Some ([], c) | _ => Read n c end.

Section Bind.
(** [stun.IsMessage] and [Message.Decode]. *)
Context (IsMessage : bytes -> bool) (decode : bytes -> option answer).

(** [BindConnection], where [built] and [sent] say whether the request can be built and
    written, and [c] is what the data connection delivers.  The outer [None] is a
    panic: [raw[stunHeaderSize:]] of a slice that is shorter. *)
Definition BindConnection (built sent : bool) (c : tcp) : option (option bind_error * tcp) :=
  if negb built then Some (Some errBuild, c)
  else if negb sent then Some (Some errWrite, c)
  else
    let '(b, c) := default ([], []) (read_once stunHeaderSize c) in
    if negb (length b =? stunHeaderSize)%nat then Some (Some errIncompleteTURNFrame, c)
    else if negb (IsMessage b) then Some (Some errInvalidTURNFrame, c)
    else
      let datagramSize := Z.to_nat (u16 (getUint16 (slice b 2 4) + Z.of_nat stunHeaderSize)) in
      if (datagramSize <? stunHeaderSize)%nat then None
      else
        match read_once (datagramSize - stunHeaderSize) c with
        | None => Some (Some errRead, [])
        | Some (p, c) =>
            let raw := b ++ p ++ replicate (datagramSize - stunHeaderSize - length p) 0 in
            match decode raw with
            | None => Some (Some errDecode, c)
            | Some (ErrorAnswer code) => Some (Some (errResponse code), c)
            | Some Success => Some (None, c)
            | Some Other => Some (Some errUnexpectedSTUNRequestMessage, c)
            end
        end.

(** What a message of the class makes of the call. *)
Definition verdict (m : bytes) : option bind_error :=
  match decode m with None => Some errDecode | Some (ErrorAnswer code) => Some (errResponse code) | Some Success => None | Some Other => Some errUnexpectedSTUNRequestMessage end.

Lemma Read_within n p c : (n < length p)%nat -> Read n (p :: c) = Some (take n p, drop n p :: c).
Proof. intros H. cbn [Read]. destruct (drop n p) eqn:E; [|done]. apply (f_equal length) in E. rewrite length_drop in E. cbn in E. lia. Qed.

(** A header that announces [n] bytes. *)
Definition header_for (h : bytes) (n : nat) : Prop := length h = stunHeaderSize /\ IsMessage h = true /\ getUint16 (slice h 2 4) = Z.of_nat n.

(** When the response comes in one piece, whatever follows it, the answer decides, and
    what follows is left for the user. *)
Theorem bind_reads_one_message h body rest c : header_for h (length body) -> (length body < Z.to_nat 65516)%nat -> rest <> [] ->
  BindConnection true true ((h ++ body ++ rest) :: c) = Some (verdict (h ++ body), rest :: c).
Proof.
  intros (Hh & Hm & Hn) Hb Hr. unfold BindConnection. cbn [negb]. unfold stunHeaderSize in *.
  assert (0 < length rest)%nat as Hr' by (destruct rest; [done|cbn; lia]). unfold read_once at 1.
  rewrite Read_within by (rewrite !length_app; lia). change (default ([], []) (Some ?x)) with x. cbv iota beta.
  rewrite take_app_length', drop_app_length', Hh, Nat.eqb_refl, Hm, Hn by done. cbn [negb].
  rewrite u16_small by lia. replace (Z.to_nat (Z.of_nat (length body) + Z.of_nat 20)) with (length body + 20)%nat by lia.
  rewrite (proj2 (Nat.ltb_ge _ _)) by lia. replace (length body + 20 - 20)%nat with (length body) by lia.
  assert (read_once (length body) ((body ++ rest) :: c) = Some (body, rest :: c)) as ->.
  { unfold read_once. destruct body as [|x body]; [done|]. cbn [length]. rewrite Read_within by (rewrite length_app; cbn; lia).
    change (S (length body)) with (length (x :: body)). by rewrite take_app_length, drop_app_length. }
  rewrite Nat.sub_diag. cbn [replicate]. rewrite app_nil_r. unfold verdict. destruct (decode (h ++ body)) as [[| |]|]; done.
Qed.

(** A length near the end of the range wraps around in uint16, and the client
    panics. *)
Theorem bind_long_answer_panics h c n : header_for h n -> (Z.to_nat 65516 <= n < Z.to_nat 65536)%nat -> BindConnection true true (h :: c) = None.
Proof.
  intros (Hh & Hm & Hn) Hl. unfold BindConnection. cbn [negb]. unfold stunHeaderSize in *. unfold read_once at 1. cbn [Read].
  rewrite take_ge, drop_ge by lia. change (default ([], []) (Some ?x)) with x. cbv iota beta. rewrite Hh, Nat.eqb_refl, Hm, Hn. cbn [negb].
  assert (u16 (Z.of_nat n + Z.of_nat 20) = Z.of_nat n + 20 - 65536) as ->.
  { unfold u16. rewrite <- (Z.mod_add _ (-1)) by lia. rewrite Z.mod_small by lia. lia. }
  by rewrite (proj2 (Nat.ltb_lt _ _)) by lia.
Qed.

(** When the body of the response comes in two pieces, the second one is not read: the
    message is decoded with zeros in its place, and the piece is left for the
    user. *)
Theorem bind_split_answer_misread h body1 body2 c : header_for h (length body1 + length body2) -> body1 <> [] ->
  (length body1 + length body2 < Z.to_nat 65516)%nat ->
  BindConnection true true ((h ++ body1) :: body2 :: c) = Some (verdict (h ++ body1 ++ replicate (length body2) 0), body2 :: c).
Proof.
  intros (Hh & Hm & Hn) Hb Hl. unfold BindConnection. cbn [negb]. unfold stunHeaderSize in *.
  assert (0 < length body1)%nat as Hb' by (destruct body1; [done|cbn; lia]). unfold read_once at 1.
  rewrite Read_within by (rewrite length_app; lia). change (default ([], []) (Some ?x)) with x. cbv iota beta.
  rewrite take_app_length', drop_app_length', Hh, Nat.eqb_refl, Hm, Hn by done. cbn [negb].
  rewrite u16_small by lia. replace (Z.to_nat (Z.of_nat (length body1 + length body2) + Z.of_nat 20)) with (length body1 + length body2 + 20)%nat by lia.
  rewrite (proj2 (Nat.ltb_ge _ _)) by lia. replace (length body1 + length body2 + 20 - 20)%nat with (length body1 + length body2)%nat by lia.
  assert (read_once (length body1 + length body2) (body1 :: body2 :: c) = Some (body1, body2 :: c)) as ->.
  { unfold read_once. destruct (length body1 + length body2)%nat eqn:E; [lia|]. cbn [Read]. by rewrite take_ge, drop_ge by lia. }
  replace (length body1 + length body2 - length body1)%nat with (length body2) by lia. unfold verdict. destruct (decode _) as [[| |]|]; done.
Qed.
End Bind.

(** * Accepting *)

Record connectionAttempt := { from : net_Addr; cid : Z }.

(** The queue of attempts has room for ten; [acceptTimer] is when it is due, and
    whether its channel holds a tick. *)
Record TCPAllocation := { connAttemptCh : list connectionAttempt; acceptTimer : option Z; acceptTick : bool }.

Definition attemptQueueSize : nat := 10.
Definition maxTimer : Z := 2 ^ 63 - 1.

Definition NewTCPAllocation (now : Z) : TCPAllocation := {| connAttemptCh := []; acceptTimer := Some (now + maxTimer); acceptTick := false |}.

(** [None]: the caller, the client's inbound loop, has to wait. *)
Definition HandleConnectionAttempt (x : connectionAttempt) (a : TCPAllocation) : option TCPAllocation :=
  if (length (connAttemptCh a) <? attemptQueueSize)%nat
  then Some {| connAttemptCh := connAttemptCh a ++ [x]; acceptTimer := acceptTimer a; acceptTick := acceptTick a |}
  else None.

(** The deadline; [None] is the zero time. *)
Definition SetDeadline (now : Z) (t : option Z) (a : TCPAllocation) : TCPAllocation :=
  {| connAttemptCh := connAttemptCh a; acceptTimer := Some (match t with None => now + maxTimer | Some t => t end); acceptTick := acceptTick a |}.

Definition fireAcceptTimer (now : Z) (a : TCPAllocation) : TCPAllocation :=
  match acceptTimer a with
  | Some t => if t <=? now then {| connAttemptCh := connAttemptCh a; acceptTimer := None; acceptTick := true |} else a
  | None => a
  end.

(** A connection that [AcceptTCPWithConn] returns: its id, the address of the peer and
    what is left to read. *)
Inductive accepted := Accepted (id : Z) (peer : net_Addr) (data : tcp) | AcceptTimeout | NotTCP | BindFailed (e : bind_error).

(** [AcceptTCPWithConn]; [timer] is the case that [select] takes when both are ready.
    The outer [None]: it waits, the inner one: it panics. *)
Definition AcceptTCPWithConn (IsMessage : bytes -> bool) (decode : bytes -> option answer) (timer isTCP built sent : bool) (c : tcp) (a : TCPAllocation) :
    option (option accepted * TCPAllocation) :=
  let timeout := if acceptTick a then Some (Some AcceptTimeout, {| connAttemptCh := connAttemptCh a; acceptTimer := acceptTimer a; acceptTick := false |}) else None in
  match connAttemptCh a with
  | [] => timeout
  | x :: l =>
      if timer && acceptTick a then timeout
      else
        let a := {| connAttemptCh := l; acceptTimer := acceptTimer a; acceptTick := acceptTick a |} in
        if negb isTCP then Some (Some NotTCP, a)
        else match BindConnection IsMessage decode built sent c with
             | None => Some (None, a)
             | Some (Some e, _) => Some (Some (BindFailed e), a)
             | Some (None, c) => Some (Some (Accepted (cid x) (from x) c), a)
             end
  end.

(** Attempts are accepted in the order in which the server announced them, each with
    its own connection id and peer. *)
Fixpoint announce (l : list connectionAttempt) (a : TCPAllocation) : option TCPAllocation :=
  match l with [] => Some a | x :: l => a ← HandleConnectionAttempt x a; announce l a end.

Lemma announce_queue l a a' : announce l a = Some a' -> connAttemptCh a' = connAttemptCh a ++ l /\ acceptTick a' = acceptTick a.
Proof.
  revert a. induction l as [|x l IH]; intros a; [intros [= <-]; by rewrite app_nil_r|]. cbn [announce]. unfold HandleConnectionAttempt.
  destruct (_ <? _)%nat; [|done]. cbn [mbind option_bind]. intros [-> ->]%IH. cbn. by rewrite <- app_assoc.
Qed.

Theorem attempts_accepted_in_order IsMessage decode l x l' a a' c : announce l a = Some a' -> connAttemptCh a = [] -> acceptTick a = false -> l = x :: l' ->
  BindConnection IsMessage decode true true c = Some (None, []) ->
  exists a'', AcceptTCPWithConn IsMessage decode true true true true c a' = Some (Some (Accepted (cid x) (from x) []), a'') /\ connAttemptCh a'' = l'.
Proof.
  intros Ha Hq Ht -> Hb. destruct (announce_queue _ _ _ Ha) as [E1 E2]. rewrite Hq in E1. unfold AcceptTCPWithConn. rewrite E1, E2, Ht, Hb. cbn. by eexists.
Qed.

(** * Concrete connections *)

Module TestTurnTcp.
Definition is_message (b : bytes) : bool := (20 <=? length b)%nat && (byte_at b 0 <=? 3).
Definition decode (b : bytes) : option answer := if byte_at b 0 =? 1 then Some Success else Some Other.
Definition header (n : Z) : bytes := [1; 1] ++ putUint16 n ++ replicate 16 0.

Lemma bind_reads_one_message_witness : BindConnection is_message decode true true [(header 4 ++ [9; 9; 9; 9] ++ [7; 7])] = Some (None, [[7; 7]]).
Proof. apply (bind_reads_one_message is_message decode (header 4) [9; 9; 9; 9] [7; 7] []); [by repeat split|cbn [length]; lia|discriminate]. Defined.

Lemma bind_long_answer_panics_witness : BindConnection is_message decode true true [header 65520] = None.
Proof. apply (bind_long_answer_panics is_message decode (header 65520) [] (Z.to_nat 65520)); [|lia]. split; [reflexivity|]. split; [reflexivity|]. vm_compute. reflexivity. Defined.

Lemma bind_split_answer_misread_witness : BindConnection is_message decode true true [header 4 ++ [9; 9]; [8; 8]] = Some (None, [[8; 8]]).
Proof. apply (bind_split_answer_misread is_message decode (header 4) [9; 9] [8; 8] []); [by repeat split|discriminate|cbn [length]; lia]. Defined.

Definition peer (n : Z) : net_Addr := TCPAddr [10; 0; 0; n] 80 "".

Lemma attempts_accepted_in_order_witness : exists a a'', announce [{| from := peer 1; cid := 5 |}; {| from := peer 2; cid := 6 |}] (NewTCPAllocation 0) = Some a /\
  AcceptTCPWithConn is_message decode true true true true [header 0] a = Some (Some (Accepted 5 (peer 1) []), a'') /\ connAttemptCh a'' = [{| from := peer 2; cid := 6 |}].
Proof.
  eexists. assert (announce [{| from := peer 1; cid := 5 |}; {| from := peer 2; cid := 6 |}] (NewTCPAllocation 0) = Some {| connAttemptCh := [{| from := peer 1; cid := 5 |}; {| from := peer 2; cid := 6 |}]; acceptTimer := Some (0 + maxTimer); acceptTick := false |}) as E by reflexivity.
  destruct (attempts_accepted_in_order is_message decode _ {| from := peer 1; cid := 5 |} _ _ _ [header 0] E eq_refl eq_refl eq_refl) as (a'' & H1 & H2); [vm_compute; reflexivity|].
  exists a''. split; [exact E|]. by split.
Defined.
End TestTurnTcp.
