(* ===== verification/WsMask.v ===== *)
(** Masking of WebSocket payloads: lib/websocket/mask.go, which masks a whole
    machine word at a time, and lib/websocket/mask_safe.go, the loop over
    single bytes that other platforms compile instead.

    The word-wise version depends on the machine: its word size, its byte
    order and the address of the slice.  They are arguments of the
    definitions, and the theorem holds for all of them. *)

From S2P Require Import Prelude.

(** [key[pos&3]]. *)
Definition keyByte (key : bytes) (pos : Z) : Z := byte_at key (Z.to_nat (Z.land pos 3)).

(** [for i := range b { b[i] ^= key[pos&3]; pos++ }]: the slice and [pos]
    after the loop. *)
Fixpoint mask_loop (key : bytes) (pos : Z) (b : bytes) : bytes * Z :=
  match b with
  | [] => ([], pos)
  | x :: b' =>
      let '(r, pos') := mask_loop key (pos + 1) b' in
      (Z.lxor x (keyByte key pos) :: r, pos')
  end.

Module Safe.

(** [maskBytes] of mask_safe.go. *)
Definition maskBytes (key : bytes) (pos : Z) (b : bytes) : bytes * Z :=
  let '(r, pos') := mask_loop key pos b in (r, Z.land pos' 3).

End Safe.

(** ** Words in memory *)

Fixpoint leLoad (b : bytes) : Z :=
  match b with [] => 0 | x :: b' => x + 256 * leLoad b' end.

Fixpoint leStore (n : nat) (v : Z) : bytes :=
  match n with
  | O => []
  | S n' => u8 v :: leStore n' (Z.shiftr v 8)
  end.

(** A word at an address, read and written in the byte order of the machine. *)
Definition loadWord (bigEndian : bool) (b : bytes) : Z :=
  leLoad (if bigEndian then rev b else b).
Definition storeWord (bigEndian : bool) (n : nat) (v : Z) : bytes :=
  if bigEndian then rev (leStore n v) else leStore n v.

Section Words.

(** [wordSize], the byte order, and the address of [b[0]]. *)
Variables (wordSize : nat) (bigEndian : bool).

(** [for i := 0; i < n; i += wordSize ... ^= kw], for [count] words. *)
Fixpoint mask_words (kw : Z) (count : nat) (b : bytes) : bytes :=
  match count with
  | O => b
  | S count' =>
      storeWord bigEndian wordSize (Z.lxor (loadWord bigEndian (take wordSize b)) kw)
        ++ mask_words kw count' (drop wordSize b)
  end.

(** The aligned part of [maskBytes]: whole words, then the remaining bytes.
    [pos] does not move over the words. *)
Definition mask_aligned (key : bytes) (pos : Z) (b : bytes) : bytes * Z :=
  let k := (fun i => keyByte key (pos + Z.of_nat i)) <$> seq 0 wordSize in
  let kw := loadWord bigEndian k in
  let count := (length b / wordSize)%nat in
  let n := (count * wordSize)%nat in
  let words := mask_words kw count (take n b) in
  let '(r, pos') := mask_loop key pos (drop n b) in
  (words ++ r, Z.land pos' 3).

(** [maskBytes] of mask.go. *)
Definition maskBytes (addr : Z) (key : bytes) (pos : Z) (b : bytes) : bytes * Z :=
  if blen b <? 2 * Z.of_nat wordSize then
    let '(r, pos') := mask_loop key pos b in (r, Z.land pos' 3)
  else
    let n := addr mod Z.of_nat wordSize in
    if n =? 0 then mask_aligned key pos b
    else
      let n := Z.to_nat (Z.of_nat wordSize - n) in
      let '(head, pos) := mask_loop key pos (take n b) in
      let '(tail, pos) := mask_aligned key pos (drop n b) in
      (head ++ tail, pos).

End Words.

(** * The byte-wise loop *)

Lemma mask_loop_pos key pos b : snd (mask_loop key pos b) = pos + blen b.
Proof.
  revert pos. induction b as [|x b IH]; intros pos; simpl; [unfold blen; simpl; lia|].
  specialize (IH (pos + 1)). destruct (mask_loop key (pos + 1) b) as [r p]. simpl in *.
  rewrite IH. unfold blen. simpl. lia.
Qed.

Lemma keyByte_mod key pos pos' : pos mod 4 = pos' mod 4 -> keyByte key pos = keyByte key pos'.
Proof.
  intros H. unfold keyByte. change 3 with (Z.ones 2). rewrite !Z.land_ones by lia.
  change (2 ^ 2) with 4. by rewrite H.
Qed.

(** The loop as a map over the positions. *)
Definition mask_bytes (key : bytes) (pos : Z) (b : bytes) : bytes :=
  imap (fun i x => Z.lxor x (keyByte key (pos + Z.of_nat i))) b.

Lemma mask_loop_bytes key pos b : mask_loop key pos b = (mask_bytes key pos b, pos + blen b).
Proof.
  revert pos. induction b as [|x b IH]; intros pos; simpl.
  - unfold blen. simpl. do 2 f_equal. lia.
  - rewrite IH. unfold mask_bytes. simpl. f_equal.
    + f_equal; [do 2 f_equal; lia|]. apply imap_ext. intros i y _. simpl.
      do 2 f_equal. lia.
    + unfold blen. simpl. lia.
Qed.

Lemma mask_bytes_app key pos b c :
  mask_bytes key pos (b ++ c) = mask_bytes key pos b ++ mask_bytes key (pos + blen b) c.
Proof.
  unfold mask_bytes. rewrite imap_app. f_equal. apply imap_ext. intros i x _. simpl.
  do 2 f_equal. unfold blen. lia.
Qed.

Lemma mask_bytes_mod key pos pos' b :
  pos mod 4 = pos' mod 4 -> mask_bytes key pos b = mask_bytes key pos' b.
Proof.
  intros H. apply imap_ext. intros i x _. f_equal. apply keyByte_mod.
  rewrite Zplus_mod, H, <- Zplus_mod. done.
Qed.

Lemma length_mask_bytes key pos b : length (mask_bytes key pos b) = length b.
Proof. apply length_imap. Qed.

Lemma mask_bytes_twice key pos b : mask_bytes key pos (mask_bytes key pos b) = b.
Proof.
  apply list_eq. intros i. unfold mask_bytes. rewrite !list_lookup_imap.
  destruct (b !! i); simpl; [|done]. by rewrite Z.lxor_assoc, Z.lxor_nilpotent, Z.lxor_0_r.
Qed.

Lemma keyByte_ok key pos : bytes_ok key -> byte_ok (keyByte key pos).
Proof. intros. by apply byte_at_ok. Qed.

Lemma lxor_byte x y : byte_ok x -> byte_ok y -> byte_ok (Z.lxor x y).
Proof.
  unfold byte_ok. intros [Hx0 Hx] [Hy0 Hy]. split; [by apply Z.lxor_nonneg|].
  destruct (decide (Z.lxor x y = 0)) as [->|Hne]; [lia|].
  assert (0 <= Z.lxor x y) by by apply Z.lxor_nonneg.
  assert (Hlog : forall z, 0 <= z < 256 -> Z.log2 z < 8).
  { intros z Hz. destruct (decide (z = 0)) as [->|]; [done|]. apply Z.log2_lt_pow2; lia. }
  change 256 with (2 ^ 8). apply Z.log2_lt_pow2; [lia|].
  eapply Z.le_lt_trans; [by apply Z.log2_lxor|].
  apply Z.max_lub_lt; apply Hlog; lia.
Qed.

Lemma mask_bytes_ok key pos b : bytes_ok key -> bytes_ok b -> bytes_ok (mask_bytes key pos b).
Proof.
  intros Hk Hb. apply Forall_lookup. intros i x. unfold mask_bytes.
  rewrite list_lookup_imap. intros (y & Hy & ->)%fmap_Some.
  apply lxor_byte; [by eapply Forall_lookup_1|by apply keyByte_ok].
Qed.

(** * Words *)

Lemma u8_testbit v i : 0 <= i < 8 -> Z.testbit (u8 v) i = Z.testbit v i.
Proof. intros. unfold u8. change 256 with (2 ^ 8). apply Z.mod_pow2_bits_low. lia. Qed.

Lemma u8_lxor a b : u8 (Z.lxor a b) = Z.lxor (u8 a) (u8 b).
Proof.
  unfold u8. change 256 with (2 ^ 8). rewrite <- !Z.land_ones by lia.
  apply Z.bits_inj'. intros i Hi. rewrite !Z.lxor_spec, !Z.land_spec, Z.lxor_spec.
  by destruct (Z.testbit a i), (Z.testbit b i), (Z.testbit (Z.ones 8) i).
Qed.

Lemma u8_split x v : byte_ok x -> u8 (x + 256 * v) = x.
Proof.
  unfold byte_ok, u8. intros. rewrite (Z.mul_comm 256), Z.mod_add by lia.
  by apply Z.mod_small.
Qed.

Lemma shiftr_split x v : byte_ok x -> Z.shiftr (x + 256 * v) 8 = v.
Proof.
  unfold byte_ok. intros. rewrite shiftr_div by lia. change (2 ^ 8) with 256.
  rewrite (Z.mul_comm 256), Z.div_add by lia. rewrite Z.div_small by lia. lia.
Qed.

(** The exclusive or of two words is the exclusive or of their bytes. *)
Lemma leStore_lxor x y :
  bytes_ok x -> bytes_ok y -> length x = length y ->
  leStore (length x) (Z.lxor (leLoad x) (leLoad y)) = zip_with Z.lxor x y.
Proof.
  intros Hx. revert y. induction Hx as [|a x Ha Hx IH]; intros [|b y] Hy Hlen; try done.
  apply Forall_cons in Hy as [Hb Hy]. simpl. f_equal.
  - by rewrite u8_lxor, !u8_split.
  - rewrite Z.shiftr_lxor, !shiftr_split by done. apply IH; [done|]. simpl in Hlen. lia.
Qed.

Lemma zip_with_rev {A B C} (f : A -> B -> C) l k :
  length l = length k -> zip_with f (rev l) (rev k) = rev (zip_with f l k).
Proof.
  revert k. induction l as [|a l IH]; intros [|b k] H; simpl in *; try done.
  rewrite zip_with_app by (rewrite !length_rev; lia). rewrite IH by lia. done.
Qed.

Lemma storeWord_lxor be x y :
  bytes_ok x -> bytes_ok y -> length x = length y ->
  storeWord be (length x) (Z.lxor (loadWord be x) (loadWord be y)) = zip_with Z.lxor x y.
Proof.
  intros Hx Hy Hlen. unfold storeWord, loadWord. destruct be; [|by apply leStore_lxor].
  rewrite <- (length_rev x), leStore_lxor.
  - rewrite zip_with_rev by done. apply rev_involutive.
  - by apply Forall_rev.
  - by apply Forall_rev.
  - by rewrite !length_rev.
Qed.

(** * The word-wise version *)

Section WordProofs.

Variables (wordSize : nat) (bigEndian : bool) (key : bytes).
(** The code is compiled for words of 4 or 8 bytes. *)
Hypothesis wordSize_4 : (wordSize mod 4 = 0)%nat.
Hypothesis wordSize_pos : (0 < wordSize)%nat.
Hypothesis key_ok : bytes_ok key.

Lemma wordSize_mod4 : Z.of_nat wordSize mod 4 = 0.
Proof using wordSize_4. change 4 with (Z.of_nat 4). by rewrite <- Nat2Z.inj_mod, wordSize_4. Qed.

Definition keyWord (pos : Z) : bytes :=
  (fun i => keyByte key (pos + Z.of_nat i)) <$> seq 0 wordSize.

Lemma mask_one_word pos b :
  bytes_ok b -> length b = wordSize ->
  storeWord bigEndian wordSize (Z.lxor (loadWord bigEndian b) (loadWord bigEndian (keyWord pos)))
  = mask_bytes key pos b.
Proof using key_ok wordSize_4 wordSize_pos.
  intros Hb Hlen. rewrite <- Hlen at 1. rewrite storeWord_lxor; [|done| |].
  - apply list_eq. intros i. unfold mask_bytes, keyWord.
    rewrite list_lookup_imap, lookup_zip_with, list_lookup_fmap.
    destruct (b !! i) as [x|] eqn:Hx; simpl; [|done].
    apply lookup_lt_Some in Hx. by rewrite lookup_seq_lt by lia.
  - apply Forall_fmap, Forall_true. intros. by apply keyByte_ok.
  - unfold keyWord. by rewrite length_fmap, length_seq.
Qed.

Lemma mask_words_bytes pos count b :
  bytes_ok b -> length b = (count * wordSize)%nat ->
  mask_words wordSize bigEndian (loadWord bigEndian (keyWord pos)) count b = mask_bytes key pos b.
Proof using key_ok wordSize_4 wordSize_pos.
  intros Hb. revert b Hb. induction count as [|count IH]; intros b Hb Hlen.
  - apply nil_length_inv in Hlen. by subst.
  - cbn [mask_words]. rewrite IH by (try rewrite length_drop; auto using Forall_drop; lia).
    rewrite mask_one_word by (try rewrite length_take; auto using Forall_take; lia).
    rewrite <- (take_drop wordSize b) at 3. rewrite mask_bytes_app. f_equal.
    apply mask_bytes_mod. unfold blen. rewrite length_take, Hlen.
    replace (Nat.min _ _) with wordSize by lia.
    rewrite Zplus_mod. rewrite wordSize_mod4, Z.add_0_r, Z.mod_mod by lia. done.
Qed.

Lemma mask_aligned_bytes pos b :
  bytes_ok b ->
  mask_aligned wordSize bigEndian key pos b
  = (mask_bytes key pos b, Z.land (pos + blen b) 3).
Proof using key_ok wordSize_4 wordSize_pos.
  intros Hb. unfold mask_aligned. set (n := (length b / wordSize * wordSize)%nat).
  assert (Hn : (n <= length b)%nat).
  { unfold n. rewrite Nat.mul_comm. apply Nat.Div0.mul_div_le. }
  fold (keyWord pos). rewrite mask_loop_bytes, mask_words_bytes;
    [|by apply Forall_take|rewrite length_take; lia].
  assert (Hmod : forall z, (z + Z.of_nat n) mod 4 = z mod 4).
  { intros z. rewrite Zplus_mod. replace (Z.of_nat n mod 4) with 0.
    - rewrite Z.add_0_r, Z.mod_mod by lia. done.
    - unfold n. rewrite Nat2Z.inj_mul, Zmult_mod.
      by rewrite wordSize_mod4, Z.mul_0_r. }
  f_equal.
  - rewrite <- (take_drop n b) at 3. rewrite mask_bytes_app. f_equal.
    apply mask_bytes_mod. unfold blen. rewrite length_take.
    replace (Nat.min _ _) with n by lia. symmetry. apply Hmod.
  - change 3 with (Z.ones 2). rewrite !Z.land_ones by lia. change (2 ^ 2) with 4.
    rewrite <- Hmod. f_equal. unfold blen. rewrite length_drop. lia.
Qed.

End WordProofs.

(** The result of the byte-wise loop. *)
Lemma safe_maskBytes key pos b :
  Safe.maskBytes key pos b = (mask_bytes key pos b, Z.land (pos + blen b) 3).
Proof. unfold Safe.maskBytes. by rewrite mask_loop_bytes. Qed.

Lemma maskBytes_bytes wordSize bigEndian addr key pos b :
  wordSize = 4%nat \/ wordSize = 8%nat -> bytes_ok key -> bytes_ok b ->
  maskBytes wordSize bigEndian addr key pos b
  = (mask_bytes key pos b, Z.land (pos + blen b) 3).
Proof.
  intros Hw Hk Hb. unfold maskBytes. rewrite mask_loop_bytes.
  assert ((wordSize mod 4 = 0)%nat /\ (0 < wordSize)%nat) as [H4 H0] by (destruct Hw; subst; split; (done || lia)).
  destruct (_ <? _) eqn:Hs; [done|]. boolp.
  destruct (_ =? 0) eqn:Ha; [by apply mask_aligned_bytes|].
  set (n := Z.to_nat _).
  assert (Hn : (n <= wordSize)%nat).
  { unfold n. pose proof (Z.mod_pos_bound addr (Z.of_nat wordSize) ltac:(lia)). lia. }
  rewrite mask_loop_bytes, mask_aligned_bytes by (auto using Forall_drop).
  rewrite <- mask_bytes_app, take_drop. do 2 f_equal.
  rewrite blen_take, blen_drop. lia.
Qed.

(** C34. Masking a machine word at a time (mask.go) gives the bytes and the next
    key position that masking byte by byte (mask_safe.go) gives, for either
    word size, either byte order, every alignment of the slice and every
    starting position; and masking a second time from the same position
    restores the payload. *)
Theorem maskBytes_equiv (wordSize : nat) (bigEndian : bool) (addr : Z) key pos b :
  wordSize = 4%nat \/ wordSize = 8%nat -> bytes_ok key -> bytes_ok b ->
  maskBytes wordSize bigEndian addr key pos b = Safe.maskBytes key pos b
  /\ fst (maskBytes wordSize bigEndian addr key pos
            (fst (maskBytes wordSize bigEndian addr key pos b))) = b.
Proof.
  intros Hw Hk Hb. rewrite !maskBytes_bytes by (simpl; auto using mask_bytes_ok).
  rewrite safe_maskBytes. split; [done|]. apply mask_bytes_twice.
Qed.

Lemma maskBytes_equiv_witness :
  maskBytes 8 false 4099 [17; 34; 51; 68] 1 (Z.of_nat <$> seq 0 21)
  = Safe.maskBytes [17; 34; 51; 68] 1 (Z.of_nat <$> seq 0 21)
  /\ fst (maskBytes 8 false 4099 [17; 34; 51; 68] 1
            (fst (maskBytes 8 false 4099 [17; 34; 51; 68] 1 (Z.of_nat <$> seq 0 21))))
     = (Z.of_nat <$> seq 0 21).
Proof.
  apply (maskBytes_equiv 8 false 4099 [17; 34; 51; 68] 1 (Z.of_nat <$> seq 0 21));
    [by right| |]; vm_compute; repeat constructor; discriminate.
Defined.
