(* ===== verification/WsWrite.v ===== *)
(** The write half of a WebSocket connection: lib/websocket/conn.go.

    The state is [WConn], the fields that conn.go lists under "Write fields",
    with the network connection and the other things outside the package in
    an environment type [W].  An application's writers are [messageWriter]s in
    a store, [writer] names the current one, so that a writer kept by the
    application after its message has ended is still the same object.

    The channel [mu] is held from the check of [writeErr] to the end of the
    network write, so a frame is written in one step.  Per-message compression
    (compression.go) is not negotiated: [newCompressionWriter] is nil.
    [isWriting] detects a misuse by concurrent writers and is left out, the
    steps here being sequential. *)

From S2P Require Import Prelude WsMask.

(** * Constants *)

Definition finalBit : Z := Z.shiftl 1 7.
Definition rsv1Bit : Z := Z.shiftl 1 6.
Definition rsv2Bit : Z := Z.shiftl 1 5.
Definition rsv3Bit : Z := Z.shiftl 1 4.
Definition maskBit : Z := Z.shiftl 1 7.
Definition maxFrameHeaderSize : nat := 14.
Definition maxControlFramePayloadSize : Z := 125.
Definition writeWait : Z := second.
Definition defaultReadBufferSize : Z := 4096.
Definition defaultWriteBufferSize : Z := 4096.
Definition continuationFrame : Z := 0.
Definition noFrame : Z := -1.

Definition CloseNormalClosure : Z := 1000.
Definition CloseGoingAway : Z := 1001.
Definition CloseProtocolError : Z := 1002.
Definition CloseUnsupportedData : Z := 1003.
Definition CloseNoStatusReceived : Z := 1005.
Definition CloseAbnormalClosure : Z := 1006.
Definition CloseInvalidFramePayloadData : Z := 1007.
Definition ClosePolicyViolation : Z := 1008.
Definition CloseMessageTooBig : Z := 1009.
Definition CloseMandatoryExtension : Z := 1010.
Definition CloseInternalServerErr : Z := 1011.
Definition CloseServiceRestart : Z := 1012.
Definition CloseTryAgainLater : Z := 1013.
Definition CloseTLSHandshake : Z := 1015.

Definition TextMessage : Z := 1.
Definition BinaryMessage : Z := 2.
Definition CloseMessage : Z := 8.
Definition PingMessage : Z := 9.
Definition PongMessage : Z := 10.

Definition isControl (frameType : Z) : bool :=
  (frameType =? CloseMessage) || (frameType =? PingMessage) || (frameType =? PongMessage).
Definition isData (frameType : Z) : bool :=
  (frameType =? TextMessage) || (frameType =? BinaryMessage).

(** * Errors *)

(** The errors of the package.  [net_error] is an error of the network
    connection, by its identity.  [repeated_read] is the panic of [NextReader],
    and [out_of_fuel] is no error of the code: a loop of the model would
    return it if its bound were too small. *)
Inductive ws_error :=
| ErrCloseSent
| ErrReadLimit
| errWriteTimeout
| CloseError (code : Z) (text : bytes)
| errBadWriteOpCode
| errWriteClosed
| errInvalidControlFrame
| errInternalExtra
| errProtocol (message : string)
| errInternalReader
| io_EOF
| bufio_ErrBufferFull
| net_error (id : Z)
| repeated_read
| out_of_fuel.

#[export] Instance ws_error_eq_dec : EqDecision ws_error.
Proof. solve_decision. Defined.

(** * The environment *)

Class WsEnv (W : Type) := {
  netWrite : bytes -> W -> option ws_error * W;       (* conn.Write *)
  netSetWriteDeadline : Z -> W -> option ws_error * W;
  newMaskKey : W -> bytes * W;                        (* reads maskRand *)
  timeNow : W -> Z;
  muWait : W -> Z;        (* how long another goroutine still holds [mu] *)
  poolGet : W -> option bytes * W;                    (* writePool.Get *)
  poolPut : bytes -> W -> W;                          (* writePool.Put *)
}.

(** What the code relies on.  [wire] is everything the connection has
    accepted; a failed write may have accepted a part of its argument. *)
Class WsEnvLaws (W : Type) `{WsEnv W} := {
  wire : W -> bytes;
  netWrite_ok b w w' : netWrite b w = (None, w') -> wire w' = wire w ++ b;
  netWrite_err b w e w' :
    netWrite b w = (Some e, w') -> exists n, wire w' = wire w ++ take n b;
  deadline_wire d w : wire (snd (netSetWriteDeadline d w)) = wire w;
  maskKey_wire w : wire (snd (newMaskKey w)) = wire w;
  maskKey_ok w : bytes_ok (fst (newMaskKey w)) /\ length (fst (newMaskKey w)) = 4%nat;
  poolGet_wire w : wire (snd (poolGet w)) = wire w;
  poolGet_size w b : fst (poolGet w) = Some b -> (maxFrameHeaderSize < length b)%nat;
  poolGet_bytes w b : fst (poolGet w) = Some b -> bytes_ok b;
  poolPut_wire b w : wire (poolPut b w) = wire w;
}.

(** * State *)

(** [pos] is the end of the data in [writeBuf]. *)
Record messageWriter := {
  compress : bool;
  pos : nat;
  frameType : Z;
  mw_err : option ws_error;
}.

(** [writeBuf] is [[]] for nil; [hasPool] says that [writePool] is not nil;
    time 0 is Go's zero time. *)
Record WConn (W : Type) := {
  isServer : bool;
  writeBuf : bytes;
  hasPool : bool;
  writeBufSize : nat;
  writeDeadline : Z;
  writer : option nat;
  mws : list messageWriter;
  writeErr : option ws_error;
  net : W;
}.
Arguments isServer {W} _.
Arguments writeBuf {W} _.
Arguments hasPool {W} _.
Arguments writeBufSize {W} _.
Arguments writeDeadline {W} _.
Arguments writer {W} _.
Arguments mws {W} _.
Arguments writeErr {W} _.
Arguments net {W} _.

Section Setters.
Context {W : Type}.
Implicit Types c : WConn W.

Definition set_buf b c := {| isServer := isServer c; writeBuf := b; hasPool := hasPool c;
  writeBufSize := writeBufSize c; writeDeadline := writeDeadline c; writer := writer c;
  mws := mws c; writeErr := writeErr c; net := net c |}.
Definition set_deadline d c := {| isServer := isServer c; writeBuf := writeBuf c;
  hasPool := hasPool c; writeBufSize := writeBufSize c; writeDeadline := d;
  writer := writer c; mws := mws c; writeErr := writeErr c; net := net c |}.
Definition set_writer o c := {| isServer := isServer c; writeBuf := writeBuf c;
  hasPool := hasPool c; writeBufSize := writeBufSize c; writeDeadline := writeDeadline c;
  writer := o; mws := mws c; writeErr := writeErr c; net := net c |}.
Definition set_mws l c := {| isServer := isServer c; writeBuf := writeBuf c;
  hasPool := hasPool c; writeBufSize := writeBufSize c; writeDeadline := writeDeadline c;
  writer := writer c; mws := l; writeErr := writeErr c; net := net c |}.
Definition set_writeErr e c := {| isServer := isServer c; writeBuf := writeBuf c;
  hasPool := hasPool c; writeBufSize := writeBufSize c; writeDeadline := writeDeadline c;
  writer := writer c; mws := mws c; writeErr := e; net := net c |}.
Definition set_net (w : W) c : WConn W := {| isServer := isServer c; writeBuf := writeBuf c;
  hasPool := hasPool c; writeBufSize := writeBufSize c; writeDeadline := writeDeadline c;
  writer := writer c; mws := mws c; writeErr := writeErr c; net := w |}.

End Setters.

Definition mw_set_err e w := {| compress := compress w; pos := pos w;
  frameType := frameType w; mw_err := e |}.
Definition mw_set_pos p w := {| compress := compress w; pos := p;
  frameType := frameType w; mw_err := mw_err w |}.
Definition mw_set_type t w := {| compress := compress w; pos := pos w;
  frameType := t; mw_err := mw_err w |}.
Definition mw_set_compress b w := {| compress := b; pos := pos w;
  frameType := frameType w; mw_err := mw_err w |}.

(** * Bytes *)

(** [copy(l[i:], new)] and [PutUintN(l[i:], v)]. *)
Definition copy_at (l : bytes) (i : nat) (new : bytes) : bytes :=
  let new := take (length l - i) new in
  take i l ++ new ++ drop (i + length new) l.

(** [l[a:b]] by natural numbers. *)
Definition sub (l : bytes) (a b : nat) : bytes := take (b - a) (drop a l).

Definition bytes_of_string (s : string) : bytes :=
  (fun a => Z.of_nat (nat_of_ascii a)) <$> String.list_ascii_of_string s.

(** [FormatCloseMessage]. *)
Definition FormatCloseMessage (closeCode : Z) (text : bytes) : bytes :=
  if closeCode =? CloseNoStatusReceived then [] else putUint16 (u16 closeCode) ++ text.

(** * Operations *)

Section Write.
Context {W : Type} `{WsEnv W}.
Implicit Types (c : WConn W) (w : messageWriter).

(** [writeFatal]: the first fatal error stays. *)
Definition writeFatal (err : ws_error) c : option ws_error * WConn W :=
  (Some err,
   match writeErr c with
   | None => set_writeErr (Some err) c
   | Some _ => c
   end).

(** [net.Buffers.WriteTo]: one buffer after the other until an error. *)
Definition writeBufs (buf0 buf1 : bytes) (n : W) : option ws_error * W :=
  match netWrite buf0 n with
  | (None, n) => netWrite buf1 n
  | r => r
  end.

(** The part of [write] and [WriteControl] after [mu] is held. *)
Definition write_locked (frameType deadline : Z) (send : W -> option ws_error * W) c
  : option ws_error * WConn W :=
  match writeErr c with
  | Some err => (Some err, c)
  | None =>
      match netSetWriteDeadline deadline (net c) with
      | (Some err, n) => writeFatal err (set_net n c)
      | (None, n) =>
          match send n with
          | (Some err, n) => writeFatal err (set_net n c)
          | (None, n) =>
              let c := set_net n c in
              if frameType =? CloseMessage then (None, snd (writeFatal ErrCloseSent c))
              else (None, c)
          end
      end
  end.

(** [Conn.write]. *)
Definition write (frameType deadline : Z) (buf0 buf1 : bytes) c : option ws_error * WConn W :=
  write_locked frameType deadline
    (fun n => if blen buf1 =? 0 then netWrite buf0 n else writeBufs buf0 buf1 n) c.

(** [Conn.WriteControl]. *)
Definition WriteControl (messageType : Z) (data : bytes) (deadline : Z) c
  : option ws_error * WConn W :=
  if negb (isControl messageType) then (Some errBadWriteOpCode, c)
  else if maxControlFramePayloadSize <? blen data then (Some errInvalidControlFrame, c)
  else
    let b0 := Z.lor (u8 messageType) finalBit in
    let b1 := u8 (blen data) in
    let b1 := if negb (isServer c) then Z.lor b1 maskBit else b1 in
    let buf := [b0; b1] in
    let '(buf, c) :=
      if isServer c then (buf ++ data, c)
      else
        let '(key, n) := newMaskKey (net c) in
        (buf ++ key ++ fst (Safe.maskBytes key 0 data), set_net n c) in
    let go := write_locked messageType deadline (netWrite buf) c in
    if deadline =? 0 then go
    else
      let d := deadline - timeNow (net c) in
      if d <? 0 then (Some errWriteTimeout, c)
      else if d <? muWait (net c) then (Some errWriteTimeout, c)
      else go.

(** [messageWriter.endMessage]. *)
Definition endMessage (err : ws_error) w c : option ws_error * messageWriter * WConn W :=
  match mw_err w with
  | Some _ => (Some err, w, c)
  | None =>
      let w := mw_set_err (Some err) w in
      let c := set_writer None c in
      if hasPool c then (Some err, w, set_buf [] (set_net (poolPut (writeBuf c) (net c)) c))
      else (Some err, w, c)
  end.

(** The header that [flushFrame] puts in the buffer: its position and the
    buffer. *)
Definition putHeader (isServer : bool) (b0 b1 length : Z) (buf : bytes) : nat * bytes :=
  let framePos := (if isServer then 4 else 0)%nat in
  if 65536 <=? length then
    (framePos,
     copy_at (copy_at buf framePos [b0; Z.lor b1 127]) (framePos + 2) (putUint64 (u64 length)))
  else if 125 <? length then
    let framePos := (framePos + 6)%nat in
    (framePos,
     copy_at (copy_at buf framePos [b0; Z.lor b1 126]) (framePos + 2) (putUint16 (u16 length)))
  else
    let framePos := (framePos + 8)%nat in
    (framePos, copy_at buf framePos [b0; Z.lor b1 (u8 length)]).

(** A client draws a key, puts it before the payload and masks the payload in
    the buffer. *)
Definition maskPayload w (buf : bytes) c : WConn W :=
  if negb (isServer c) then
    let '(key, n) := newMaskKey (net c) in
    let buf := copy_at buf (maxFrameHeaderSize - 4) key in
    let buf := copy_at buf maxFrameHeaderSize
                 (fst (Safe.maskBytes key 0 (sub buf maxFrameHeaderSize (pos w)))) in
    set_buf buf (set_net n c)
  else set_buf buf c.

(** The end of [flushFrame]: the frame at [framePos] goes out. *)
Definition sendFrame (final : bool) (extra : bytes) (framePos : nat) w c
  : option ws_error * messageWriter * WConn W :=
  if negb (isServer c) && (0 <? blen extra) then
    let '(_, c) := writeFatal errInternalExtra c in endMessage errInternalExtra w c
  else
    match write (frameType w) (writeDeadline c) (sub (writeBuf c) framePos (pos w)) extra c with
    | (Some err, c) => endMessage err w c
    | (None, c) =>
        if final then
          let '(_, w, c) := endMessage errWriteClosed w c in (None, w, c)
        else (None, mw_set_type continuationFrame (mw_set_pos maxFrameHeaderSize w), c)
    end.

(** [messageWriter.flushFrame]. *)
Definition flushFrame (final : bool) (extra : bytes) w c
  : option ws_error * messageWriter * WConn W :=
  let length := Z.of_nat (pos w) - Z.of_nat maxFrameHeaderSize + blen extra in
  if isControl (frameType w) && (negb final || (maxControlFramePayloadSize <? length)) then
    endMessage errInvalidControlFrame w c
  else
    let b0 := u8 (frameType w) in
    let b0 := if final then Z.lor b0 finalBit else b0 in
    let b0 := if compress w then Z.lor b0 rsv1Bit else b0 in
    let w := mw_set_compress false w in
    let b1 := if negb (isServer c) then maskBit else 0 in
    let '(framePos, buf) := putHeader (isServer c) b0 b1 length (writeBuf c) in
    sendFrame final extra framePos w (maskPayload w buf c).

(** [messageWriter.ncopy]. *)
Definition ncopy (max : nat) w c : result ws_error nat * messageWriter * WConn W :=
  let room w c := (length (writeBuf c) - pos w)%nat in
  if (room w c =? 0)%nat then
    match flushFrame false [] w c with
    | (Some err, w, c) => (Err err, w, c)
    | (None, w, c) => (Ok (Nat.min (room w c) max), w, c)
    end
  else (Ok (Nat.min (room w c) max), w, c).

(** [for len(p) > 0 { ... }] of [Write] and [WriteString]. *)
Fixpoint write_loop (fuel : nat) (p : bytes) w c : option ws_error * messageWriter * WConn W :=
  match p with
  | [] => (None, w, c)
  | _ =>
      match fuel with
      | O => (Some out_of_fuel, w, c)
      | S fuel =>
          match ncopy (length p) w c with
          | (Err err, w, c) => (Some err, w, c)
          | (Ok n, w, c) =>
              let c := set_buf (copy_at (writeBuf c) (pos w) (take n p)) c in
              write_loop fuel (drop n p) (mw_set_pos (pos w + n) w) c
          end
      end
  end.

(** [messageWriter.Write]; the number it returns is the length of [p] or,
    with an error, 0. *)
Definition mw_Write (p : bytes) w c : option ws_error * messageWriter * WConn W :=
  match mw_err w with
  | Some err => (Some err, w, c)
  | None =>
      if (2 * blen (writeBuf c) <? blen p) && isServer c then flushFrame false p w c
      else write_loop (length p) p w c
  end.

(** [messageWriter.WriteString]. *)
Definition mw_WriteString (p : bytes) w c : option ws_error * messageWriter * WConn W :=
  match mw_err w with
  | Some err => (Some err, w, c)
  | None => write_loop (length p) p w c
  end.

(** [messageWriter.Close]. *)
Definition mw_Close w c : option ws_error * messageWriter * WConn W :=
  match mw_err w with
  | Some err => (Some err, w, c)
  | None => flushFrame true [] w c
  end.

(** An [io.Reader] that delivers [chunks], at most as many bytes a call as
    the caller has room for, and then the error. *)
Definition reader_Read (room : nat) (chunks : list bytes) (rerr : ws_error)
  : bytes * option ws_error * list bytes :=
  match chunks with
  | [] => ([], Some rerr, [])
  | b :: chunks' =>
      if (length b <=? room)%nat then (b, None, chunks')
      else (take room b, None, drop room b :: chunks')
  end.

(** The loop of [messageWriter.ReadFrom]; the count and the error. *)
Fixpoint readFrom_loop (fuel : nat) (chunks : list bytes) (rerr : ws_error) (nn : nat) w c
  : nat * option ws_error * messageWriter * WConn W :=
  match fuel with
  | O => (nn, Some out_of_fuel, w, c)
  | S fuel =>
      let '(err, w, c) :=
        if (pos w =? length (writeBuf c))%nat then flushFrame false [] w c else (None, w, c) in
      match err with
      | Some err => (nn, Some err, w, c)
      | None =>
          let '(b, err, chunks) := reader_Read (length (writeBuf c) - pos w) chunks rerr in
          let c := set_buf (copy_at (writeBuf c) (pos w) b) c in
          let w := mw_set_pos (pos w + length b) w in
          let nn := (nn + length b)%nat in
          match err with
          | Some err => (nn, if decide (err = io_EOF) then None else Some err, w, c)
          | None => readFrom_loop fuel chunks rerr nn w c
          end
      end
  end.

(** Every turn of the loop takes a byte or a chunk off the reader. *)
Definition readFrom_fuel (chunks : list bytes) : nat := S (length chunks + length (concat chunks)).

(** [messageWriter.ReadFrom]. *)
Definition mw_ReadFrom (chunks : list bytes) (rerr : ws_error) w c
  : nat * option ws_error * messageWriter * WConn W :=
  match mw_err w with
  | Some err => (0%nat, Some err, w, c)
  | None => readFrom_loop (readFrom_fuel chunks) chunks rerr 0 w c
  end.

(** A method of the writer [h], which is updated in the store. *)
Definition with_writer (h : nat)
    (f : messageWriter -> WConn W -> option ws_error * messageWriter * WConn W) c
  : option ws_error * WConn W :=
  match mws c !! h with
  | None => (None, c)
  | Some w =>
      let '(err, w, c) := f w c in (err, set_mws (<[h := w]> (mws c)) c)
  end.

(** [Conn.beginMessage]; on success the writer it initialises. *)
Definition beginMessage (messageType : Z) c : result ws_error messageWriter * WConn W :=
  let c :=
    match writer c with
    | Some h => set_writer None (snd (with_writer h mw_Close c))
    | None => c
    end in
  if negb (isControl messageType) && negb (isData messageType) then (Err errBadWriteOpCode, c)
  else
    match writeErr c with
    | Some err => (Err err, c)
    | None =>
        let w := {| compress := false; pos := maxFrameHeaderSize;
                    frameType := messageType; mw_err := None |} in
        if decide (writeBuf c = []) then
          match poolGet (net c) with
          | (Some buf, n) => (Ok w, set_buf buf (set_net n c))
          | (None, n) => (Ok w, set_buf (replicate (writeBufSize c) 0) (set_net n c))
          end
        else (Ok w, c)
    end.

(** [Conn.NextWriter]; the new writer is a new object of the store. *)
Definition NextWriter (messageType : Z) c : result ws_error nat * WConn W :=
  match beginMessage messageType c with
  | (Err err, c) => (Err err, c)
  | (Ok w, c) =>
      let h := length (mws c) in
      (Ok h, set_writer (Some h) (set_mws (mws c ++ [w]) c))
  end.

Definition Writer_Write (h : nat) (p : bytes) c := with_writer h (mw_Write p) c.
Definition Writer_WriteString (h : nat) (p : bytes) c := with_writer h (mw_WriteString p) c.
Definition Writer_Close (h : nat) c := with_writer h mw_Close c.
Definition Writer_ReadFrom (h : nat) (chunks : list bytes) (rerr : ws_error) c :=
  with_writer h (fun w c => let '(_, e, w, c) := mw_ReadFrom chunks rerr w c in (e, w, c)) c.

(** [Conn.WriteMessage]. *)
Definition WriteMessage (messageType : Z) (data : bytes) c : option ws_error * WConn W :=
  if isServer c then
    match beginMessage messageType c with
    | (Err err, c) => (Some err, c)
    | (Ok w, c) =>
        let n := Nat.min (length (writeBuf c) - pos w) (length data) in
        let c := set_buf (copy_at (writeBuf c) (pos w) data) c in
        let w := mw_set_pos (pos w + n) w in
        let '(err, _, c) := flushFrame true (drop n data) w c in (err, c)
    end
  else
    match NextWriter messageType c with
    | (Err err, c) => (Some err, c)
    | (Ok h, c) =>
        match Writer_Write h data c with
        | (Some err, c) => (Some err, c)
        | (None, c) => Writer_Close h c
        end
    end.

(** [Conn.SetWriteDeadline]. *)
Definition SetWriteDeadline (t : Z) c : WConn W := set_deadline t c.

(** The write half of [newConn]. *)
Definition newWConn (isServer : bool) (writeBufferSize : Z) (pool : bool) (writeBuf : bytes) (n : W)
  : WConn W :=
  let writeBufferSize := if writeBufferSize <=? 0 then defaultWriteBufferSize else writeBufferSize in
  let size := (Z.to_nat writeBufferSize + maxFrameHeaderSize)%nat in
  {| isServer := isServer;
     writeBuf := if decide (writeBuf = [] /\ pool = false) then replicate size 0 else writeBuf;
     hasPool := pool; writeBufSize := size; writeDeadline := 0; writer := None; mws := [];
     writeErr := None; net := n |}.

End Write.

(** * Frames on the wire *)

(** A frame of RFC 6455, section 5.2; [f_key] is the masking key of a frame
    sent by a client. *)
Record frame := Frame { f_fin : bool; f_op : Z; f_key : option bytes; f_payload : bytes }.

Definition encode_len (len : Z) : Z * bytes :=
  if len <=? 125 then (len, [])
  else if len <? 65536 then (126, putUint16 len)
  else (127, putUint64 len).

Definition encode_frame (f : frame) : bytes :=
  let '(len7, ext) := encode_len (blen (f_payload f)) in
  [(if f_fin f then 128 else 0) + f_op f;
   (match f_key f with Some _ => 128 | None => 0 end) + len7]
  ++ ext
  ++ match f_key f with
     | Some key => key ++ mask_bytes key 0 (f_payload f)
     | None => f_payload f
     end.

Definition opcode_ok (op : Z) : Prop := op = continuationFrame \/ isControl op = true \/ isData op = true.

(** A frame as a server or a client sends it. *)
Definition frame_ok (server : bool) (f : frame) : Prop :=
  opcode_ok (f_op f)
  /\ match f_key f with
     | Some key => server = false /\ length key = 4%nat /\ bytes_ok key
     | None => server = true
     end.

(** What a sequence of frames carries: the control frames and complete
    messages in the order they end, and the message under way.  [None] when
    the sequence is not one the protocol allows. *)
Definition closed (log : list (Z * bytes)) : bool :=
  existsb (fun m => fst m =? CloseMessage) log.

Definition assemble_frame (s : list (Z * bytes) * option (Z * bytes)) (f : frame)
  : option (list (Z * bytes) * option (Z * bytes)) :=
  let '(log, frag) := s in
  let op := f_op f in
  if closed log then None
  else if isControl op then
    if f_fin f && (blen (f_payload f) <=? maxControlFramePayloadSize)
    then Some (log ++ [(op, f_payload f)], frag) else None
  else
    match (if isData op then
             match frag with None => Some (op, f_payload f) | Some _ => None end
           else if op =? continuationFrame then
             match frag with Some (t, d) => Some (t, d ++ f_payload f) | None => None end
           else None) with
    | Some m => if f_fin f then Some (log ++ [m], None) else Some (log, Some m)
    | None => None
    end.

Definition assemble (s : list (Z * bytes) * option (Z * bytes)) (fs : list frame) :=
  foldl (fun o f => o ≫= fun s => assemble_frame s f) (Some s) fs.

Lemma assemble_snoc s fs f :
  assemble s (fs ++ [f]) = assemble s fs ≫= fun s => assemble_frame s f.
Proof. unfold assemble. by rewrite foldl_app. Qed.

(** * Arithmetic of the header bytes *)

Lemma lor_128 x : 0 <= x < 128 -> Z.lor 128 x = 128 + x.
Proof.
  intros.
  assert (Z.land 128 x = 0) as Hl.
  { apply Z.bits_inj'. intros i Hi. rewrite Z.land_spec, Z.bits_0.
    change 128 with (2 ^ 7). rewrite Z.pow2_bits_eqb by lia.
    destruct (Z.eqb_spec 7 i) as [<-|]; [|done]. rewrite andb_true_l.
    apply Z.bits_above_log2; [lia|].
    destruct (decide (x = 0)) as [->|]; [done|]. apply Z.log2_lt_pow2; lia. }
  pose proof (Z.add_lor_land 128 x). lia.
Qed.

Lemma opcode_range op : opcode_ok op -> 0 <= op < 16.
Proof.
  unfold opcode_ok, continuationFrame, isControl, isData, CloseMessage, PingMessage,
    PongMessage, TextMessage, BinaryMessage.
  intros [->|[H|H]]; boolp; [lia| |]; repeat (destruct H as [H|H]); boolp; try lia.
Qed.

Lemma isControl_cases op : isControl op = true -> op = 8 \/ op = 9 \/ op = 10.
Proof.
  unfold isControl, CloseMessage, PingMessage, PongMessage. intros H. boolp.
  destruct H as [H|H]; boolp; [|tauto]. destruct H; boolp; tauto.
Qed.

Lemma isData_cases op : isData op = true -> op = 1 \/ op = 2.
Proof. unfold isData, TextMessage, BinaryMessage. intros H. boolp. destruct H; boolp; tauto. Qed.

Lemma isControl_not_data op : isControl op = true -> isData op = false.
Proof. intros [->|[->| ->]]%isControl_cases; done. Qed.

(** The header as [putHeader] writes it. *)
Definition header (b0 b1 len : Z) : bytes :=
  if 65536 <=? len then [b0; Z.lor b1 127] ++ putUint64 (u64 len)
  else if 125 <? len then [b0; Z.lor b1 126] ++ putUint16 (u16 len)
  else [b0; Z.lor b1 (u8 len)].

Lemma putUint64_u64 v : putUint64 (u64 v) = putUint64 v.
Proof.
  unfold putUint64. do 2 f_equal.
  - unfold u32, u64. rewrite !shiftr_div by lia. change (2 ^ 32) with 4294967296.
    rewrite <- (Z.mod_mod (v / 4294967296) 4294967296) at 1 by lia. 
    change 18446744073709551616 with (4294967296 * 4294967296).
    rewrite Z.rem_mul_r by lia. rewrite Z.add_comm, (Z.mul_comm 4294967296 (_ mod _)), Z.div_add_l by lia.
    rewrite (Z.div_small (v mod 4294967296)) by (apply Z.mod_pos_bound; lia).
    by rewrite Z.add_0_r.
  - unfold u32, u64. change 18446744073709551616 with (4294967296 * 4294967296).
    rewrite Z.rem_mul_r by lia. rewrite (Z.mul_comm 4294967296 (_ mod _)), Z.mod_add by lia.
    by apply Z.mod_mod.
Qed.

Lemma header_encode (fin : bool) op (masked : bool) len :
  opcode_ok op -> 0 <= len ->
  header (if fin then Z.lor (u8 op) finalBit else u8 op) (if masked then maskBit else 0) len
  = [(if fin then 128 else 0) + op;
     (if masked then 128 else 0) + fst (encode_len len)] ++ snd (encode_len len).
Proof.
  intros Hop%opcode_range Hlen. unfold header, encode_len.
  assert (Hb0 : (if fin then Z.lor (u8 op) finalBit else u8 op) = (if fin then 128 else 0) + op).
  { unfold u8. rewrite Z.mod_small by lia. destruct fin; [|done].
    rewrite Z.lor_comm. change finalBit with 128. apply lor_128. lia. }
  assert (Hb1 : forall x, 0 <= x < 128 ->
            Z.lor (if masked then maskBit else 0) x = (if masked then 128 else 0) + x).
  { intros x Hx. destruct masked; [by apply lor_128|done]. }
  rewrite Hb0, putUint64_u64, putUint16_u16.
  destruct (Z.leb_spec 65536 len), (Z.ltb_spec 125 len), (Z.leb_spec len 125),
    (Z.ltb_spec len 65536); try lia; simpl; rewrite Hb1 by (unfold u8; try rewrite Z.mod_small; lia); 
    try done. unfold u8. by rewrite Z.mod_small by lia.
Qed.

Lemma blen_nil_inv {A} (l : list A) : blen l = 0 -> l = [].
Proof. destruct l; [done|]. unfold blen. simpl. lia. Qed.

(** * The frame in the buffer *)

Lemma length_copy_at l i new : length (copy_at l i new) = length l.
Proof.
  unfold copy_at. rewrite !length_app, length_drop, !length_take. lia.
Qed.

Lemma copy_at_fits l i new :
  (i + length new <= length l)%nat ->
  copy_at l i new = take i l ++ new ++ drop (i + length new) l.
Proof. intros. unfold copy_at. by rewrite (take_ge new) by lia. Qed.

Lemma copy_at_app (l1 l2 new : bytes) :
  (length new <= length l2)%nat ->
  copy_at (l1 ++ l2) (length l1) new = l1 ++ new ++ drop (length new) l2.
Proof.
  intros. unfold copy_at. rewrite length_app, take_app_length, (take_ge new) by lia.
  do 2 f_equal. by rewrite drop_app_add.
Qed.

(** A buffer that is large enough for a header, cut where the payload
    starts and ends. *)
Lemma buffer_split (buf : bytes) (p : nat) :
  (maxFrameHeaderSize <= p <= length buf)%nat ->
  exists h d rest, buf = h ++ d ++ rest /\ length h = maxFrameHeaderSize
    /\ p = (maxFrameHeaderSize + length d)%nat.
Proof.
  unfold maxFrameHeaderSize. intros Hp. exists (take 14 buf), (take (p - 14) (drop 14 buf)), (drop (p - 14) (drop 14 buf)).
  rewrite !take_drop, length_take, length_take, length_drop. repeat split; lia.
Qed.

(** Lists of a known length, element by element. *)
Ltac explode H :=
  repeat match type of H with
  | length ?l = O => apply nil_length_inv in H; subst l
  | length ?l = S _ => destruct l; [discriminate H|simpl in H; injection H as H]
  end.

Lemma take_app_exact (l k : bytes) n : n = length l -> take n (l ++ k) = l.
Proof. intros ->. apply take_app_length. Qed.

Lemma sub_payload h d rest :
  length h = maxFrameHeaderSize ->
  sub (h ++ d ++ rest) maxFrameHeaderSize (maxFrameHeaderSize + length d) = d.
Proof.
  intros <-. unfold sub. rewrite drop_app_length. apply take_app_exact. lia.
Qed.

(** [putHeader] puts the header right before the payload, or before the four
    bytes that a client keeps for its key. *)
Lemma putHeader_spec (srv : bool) b0 b1 len h tail :
  length h = maxFrameHeaderSize ->
  exists h1 k, putHeader srv b0 b1 len (h ++ tail) = (length h1, h1 ++ header b0 b1 len ++ k ++ tail)
    /\ length k = (if srv then 0 else 4)%nat
    /\ (length h1 + length (header b0 b1 len) + length k)%nat = maxFrameHeaderSize.
Proof.
  intros Hh. unfold putHeader, header, maxFrameHeaderSize in *.
  destruct (65536 <=? len); [|destruct (125 <? len)];
    [exists (take (if srv then 4 else 0) h)|exists (take (if srv then 10 else 6) h)|
     exists (take (if srv then 12 else 8) h)];
    exists (if srv then [] else drop 10 h); explode Hh;
    rewrite !copy_at_fits by (rewrite ?length_copy_at; destruct srv; simpl; lia);
    destruct srv; split_and!; reflexivity.
Qed.

Lemma length_header_ge b0 b1 len : (2 <= length (header b0 b1 len))%nat.
Proof. unfold header. repeat case_match; simpl; lia. Qed.

Lemma sub_server (h1 hdr d rest : bytes) :
  sub (h1 ++ hdr ++ d ++ rest) (length h1) (length h1 + length hdr + length d) = hdr ++ d.
Proof.
  unfold sub. rewrite drop_app_length, app_assoc. apply take_app_exact. rewrite length_app. lia.
Qed.

(** The client overwrites the space for the key and masks the payload. *)
Lemma sub_client (h1 hdr k d rest key : bytes) :
  (length h1 + length hdr + length k)%nat = maxFrameHeaderSize ->
  length k = 4%nat -> length key = 4%nat ->
  let buf := copy_at (h1 ++ hdr ++ k ++ d ++ rest) (maxFrameHeaderSize - 4) key in
  let p := (maxFrameHeaderSize + length d)%nat in
  let masked := mask_bytes key 0 (sub buf maxFrameHeaderSize p) in
  copy_at buf maxFrameHeaderSize masked = h1 ++ hdr ++ key ++ mask_bytes key 0 d ++ rest
  /\ sub (copy_at buf maxFrameHeaderSize masked) (length h1) p
     = hdr ++ key ++ mask_bytes key 0 d.
Proof.
  intros Hlen Hk Hkey buf p masked.
  assert (Hbuf : buf = (h1 ++ hdr ++ key) ++ d ++ rest).
  { unfold buf. rewrite app_assoc. replace (maxFrameHeaderSize - 4)%nat with (length (h1 ++ hdr))
      by (rewrite length_app; lia).
    rewrite copy_at_app by (rewrite length_app; lia).
    rewrite Hkey, <- Hk, drop_app_length, <- !app_assoc. done. }
  assert (Hm : masked = mask_bytes key 0 d).
  { unfold masked, p. rewrite Hbuf, sub_payload; [done|]. rewrite !length_app. lia. }
  assert (Hc : copy_at buf maxFrameHeaderSize masked
               = h1 ++ hdr ++ key ++ mask_bytes key 0 d ++ rest).
  { rewrite Hm, Hbuf. replace maxFrameHeaderSize with (length (h1 ++ hdr ++ key))
      by (rewrite !length_app; lia).
    rewrite copy_at_app by (rewrite length_mask_bytes, length_app; lia).
    rewrite length_mask_bytes, drop_app_length, <- !app_assoc. done. }
  split; [done|]. rewrite Hc. unfold sub. rewrite drop_app_length, !app_assoc, <- (app_assoc _ _ rest).
  rewrite app_assoc. apply take_app_exact. unfold p.
  rewrite !length_app, length_mask_bytes. lia.
Qed.

(** Data copied into the buffer extends the payload. *)
Lemma sub_copy (buf b : bytes) (p : nat) :
  (maxFrameHeaderSize <= p)%nat -> (p + length b <= length buf)%nat ->
  sub (copy_at buf p b) maxFrameHeaderSize (p + length b) = sub buf maxFrameHeaderSize p ++ b.
Proof.
  intros Hp Hfit. destruct (buffer_split buf p) as (h & d & rest & -> & Hh & ->); [lia|].
  rewrite sub_payload by done. rewrite !length_app, Hh in Hfit.
  rewrite app_assoc. replace (maxFrameHeaderSize + length d)%nat with (length (h ++ d)) at 1
    by (rewrite length_app; lia).
  rewrite copy_at_app by lia. rewrite <- app_assoc, (app_assoc d).
  replace (maxFrameHeaderSize + length d + length b)%nat
    with (maxFrameHeaderSize + length (d ++ b))%nat by (rewrite length_app; lia).
  by apply sub_payload.
Qed.
