(* ===== verification/WsStream.v ===== *)
(** The stream of frames that a WebSocket connection writes: the theorems about
    the write half of lib/websocket/conn.go ([WsWrite]).

    [sent] says what handing one frame to the network does, [conn_ok] relates a
    connection to the log of messages it has carried and to the message its
    application is writing, [run_op] is one call by the application and [wstep]
    any interleaving of calls.  [BufferNet] is a network in memory for
    concrete runs. *)

From S2P Require Import Prelude WsMask WsWrite.

(** * Sending one frame *)

Section WriteProofs.
Context {W : Type} `{WsEnvLaws W}.
Implicit Types (c : WConn W) (w : messageWriter).

(** What [write] does with the bytes [b] of a frame of type [op]: they are
    sent, or an earlier error comes back and nothing is sent, or the
    connection fails and stays failed. *)
Definition sent (op : Z) (b : bytes) c c' (err : option ws_error) : Prop :=
  match err with
  | None =>
      writeErr c = None /\ wire (net c') = wire (net c) ++ b
      /\ writeErr c' = (if op =? CloseMessage then Some ErrCloseSent else None)
  | Some e =>
      writeErr c' = Some e
      /\ ((writeErr c = Some e /\ wire (net c') = wire (net c))
          \/ (writeErr c = None /\ exists n, wire (net c') = wire (net c) ++ take n b))
  end.

(** Only the network and the sticky error change. *)
Definition only_net c c' : Prop := c' = set_writeErr (writeErr c') (set_net (net c') c).

Lemma write_locked_sent op d send b c err c' :
  (forall n n', send n = (None, n') -> wire n' = wire n ++ b) ->
  (forall n e n', send n = (Some e, n') -> exists k, wire n' = wire n ++ take k b) ->
  write_locked op d send c = (err, c') ->
  sent op b c c' err /\ only_net c c'.
Proof.
  intros Hok Herr Hw. unfold write_locked, writeFatal, only_net in *.
  destruct c as [s buf hp bs wd wr ms [e0|] n0]; simpl in *.
  { simplify_eq. split; [split; [done|by left]|done]. }
  pose proof (deadline_wire d n0) as Hd.
  destruct (netSetWriteDeadline d n0) as [[e|] n1]; simpl in *; simplify_eq; simpl.
  { split; [|done]. split; [done|]. right. split; [done|]. exists 0%nat.
    by rewrite take_0, app_nil_r. }
  destruct (send n1) as [[e|] n2] eqn:Hs; simpl in *.
  - simplify_eq. simpl. apply Herr in Hs as [k Hs]. split; [|done]. split; [done|].
    right. split; [done|]. exists k. by rewrite Hs, Hd.
  - apply Hok in Hs. rewrite Hd in Hs.
    destruct (op =? CloseMessage) eqn:Ho; simplify_eq; (split; [split_and!|]; simpl; rewrite ?Ho; done).
Qed.

Lemma write_sent op d buf0 buf1 c err c' :
  write op d buf0 buf1 c = (err, c') ->
  sent op (buf0 ++ buf1) c c' err /\ only_net c c'.
Proof.
  apply write_locked_sent; intros n; intros *; destruct (_ =? 0) eqn:E; boolp.
  - apply blen_nil_inv in E as ->. rewrite app_nil_r. apply netWrite_ok.
  - unfold writeBufs. destruct (netWrite buf0 n) as [[e'|] n1] eqn:H1; [done|].
    intros ->%netWrite_ok. apply netWrite_ok in H1 as ->. by rewrite app_assoc.
  - apply blen_nil_inv in E as ->. rewrite app_nil_r. apply netWrite_err.
  - unfold writeBufs. destruct (netWrite buf0 n) as [[e'|] n1] eqn:H1.
    + intros ?; simplify_eq. apply netWrite_err in H1 as [k Hk].
      exists (Nat.min k (length buf0)). rewrite Hk. f_equal.
      rewrite take_app_le by lia. destruct (decide (k <= length buf0)%nat).
      * by rewrite Nat.min_l.
      * by rewrite Nat.min_r, !take_ge by lia.
    + intros [k Hk]%netWrite_err. apply netWrite_ok in H1. exists (length buf0 + k)%nat.
      by rewrite Hk, H1, take_app_add, app_assoc.
Qed.

(** [WriteControl] sends one whole control frame. *)
Definition control_key c : option bytes :=
  if isServer c then None else Some (fst (newMaskKey (net c))).

Lemma WriteControl_spec t data d c err c' :
  WriteControl t data d c = (err, c') ->
  only_net c c'
  /\ ((isControl t = true /\ blen data <= maxControlFramePayloadSize
       /\ frame_ok (isServer c) (Frame true t (control_key c) data)
       /\ sent t (encode_frame (Frame true t (control_key c) data)) c c' err)
      \/ (err <> None /\ wire (net c') = wire (net c) /\ writeErr c' = writeErr c)).
Proof.
  unfold WriteControl. destruct (isControl t) eqn:Ht; simpl.
  2:{ intros; simplify_eq. split; [by destruct c'|right]; done. }
  destruct (_ <? blen data) eqn:Hl.
  { intros; simplify_eq. split; [by destruct c'|right]; done. }
  boolp. unfold maxControlFramePayloadSize in *. pose proof (blen_nonneg data).
  set (b0 := Z.lor (u8 t) finalBit). set (b1 := if negb (isServer c) then _ else _).
  destruct (if isServer c then _ else _) as [buf c1] eqn:Hb.
  assert (Hop : opcode_ok t) by (right; left; done).
  assert (Hc1 : only_net c c1 /\ wire (net c1) = wire (net c) /\ writeErr c1 = writeErr c
                /\ buf = encode_frame (Frame true t (control_key c) data)
                /\ frame_ok (isServer c) (Frame true t (control_key c) data)).
  { pose proof (maskKey_wire (net c)) as Hkw. pose proof (maskKey_ok (net c)) as [Hk1 Hk2].
    pose proof (header_encode true t (negb (isServer c)) (blen data) Hop ltac:(lia)) as Hh.
    unfold header, encode_len in Hh.
    destruct (Z.leb_spec 65536 (blen data)), (Z.ltb_spec 125 (blen data)),
      (Z.leb_spec (blen data) 125); try lia. simpl in Hh.
    unfold encode_frame, encode_len, control_key, frame_ok. simpl.
    rewrite (proj2 (Z.leb_le (blen data) 125)) by lia.
    destruct (isServer c) eqn:Hs; simpl in *.
    - injection Hb as <- <-. split_and!; try (done || by destruct c).
      injection Hh as Hh1 Hh2. unfold b0, b1. simpl. rewrite Hh1. by rewrite <- Hh2.
    - destruct (newMaskKey (net c)) as [key n]. simpl in *. injection Hb as <- <-.
      split_and!; try (done || by destruct c).
      injection Hh as Hh1 Hh2. rewrite safe_maskBytes. simpl.
      unfold b0, b1. rewrite Hh1, Z.lor_comm, Hh2. done. }
  destruct Hc1 as (Hon & Hw & He & -> & Hf).
  assert (Hgo : forall r, write_locked t d (netWrite (encode_frame (Frame true t (control_key c) data))) c1 = r ->
     only_net c (snd r) /\ sent t (encode_frame (Frame true t (control_key c) data)) c (snd r) (fst r)).
  { intros [e2 c2] Hr. apply (write_locked_sent _ _ _ _ _ _ _ (netWrite_ok _) (netWrite_err _)) in Hr
      as [Hsent Hon2]. simpl. split.
    - unfold only_net in *. rewrite Hon2, Hon. by destruct c.
    - unfold sent in *. by rewrite <- Hw, <- He. }
  intros Hr. destruct (d =? 0); [|destruct (_ <? 0); [|destruct (_ <? muWait _)]].
  - apply Hgo in Hr as [??]. auto 10.
  - simplify_eq. split; [done|right]; done.
  - simplify_eq. split; [done|right]; done.
  - apply Hgo in Hr as [??]. auto 10.
Qed.

(** The writer [w] is open and its data lies within the buffer. *)
Definition open_ok w c : Prop :=
  mw_err w = None /\ compress w = false /\ opcode_ok (frameType w)
  /\ (maxFrameHeaderSize <= pos w <= length (writeBuf c))%nat
  /\ (maxFrameHeaderSize < length (writeBuf c))%nat.

Definition payload w c : bytes := sub (writeBuf c) maxFrameHeaderSize (pos w).

(** A buffer is there, or can be had from the pool. *)
Definition buf_ok c : Prop :=
  (maxFrameHeaderSize < length (writeBuf c))%nat \/ (hasPool c = true /\ writeBuf c = []).

(** The fields no operation of a writer changes. *)
Definition static c c' : Prop :=
  isServer c' = isServer c /\ hasPool c' = hasPool c /\ writeBufSize c' = writeBufSize c
  /\ writeDeadline c' = writeDeadline c /\ mws c' = mws c.

Lemma static_refl c : static c c.
Proof. done. Qed.

Lemma static_trans c1 c2 c3 : static c1 c2 -> static c2 c3 -> static c1 c3.
Proof. unfold static. intros (?&?&?&?&?) (?&?&?&?&?). split_and!; congruence. Qed.

Definition ended c : Prop := writer c = None /\ buf_ok c.

Definition legal (final : bool) (op len : Z) : Prop :=
  isControl op = true -> final = true /\ len <= maxControlFramePayloadSize.

(** The frame that [flushFrame] builds. *)
Definition flushed (final : bool) (extra : bytes) w c : frame :=
  Frame final (frameType w) (control_key c) (payload w c ++ extra).

(** The bytes in the buffer before [extra], and the buffer, which keeps its
    size. *)
Lemma flush_buffer (final : bool) extra w c :
  open_ok w c -> (isServer c = false -> extra = []) ->
  let b0 := if final then Z.lor (u8 (frameType w)) finalBit else u8 (frameType w) in
  let b1 := if negb (isServer c) then maskBit else 0 in
  let len := Z.of_nat (pos w) - Z.of_nat maxFrameHeaderSize + blen extra in
  let '(framePos, buf) := putHeader (isServer c) b0 b1 len (writeBuf c) in
  let buf' := writeBuf (maskPayload w buf c) in
  sub buf' framePos (pos w) ++ extra = encode_frame (flushed final extra w c)
  /\ length buf' = length (writeBuf c).
Proof.
  intros (_ & _ & Hop & Hpos & _) Hex b0 b1 len.
  destruct (buffer_split _ _ Hpos) as (h & d & rest & Hbuf & Hh & Hp).
  unfold flushed, payload, control_key. rewrite Hbuf, Hp, sub_payload by done.
  assert (Hlen : len = blen (d ++ extra)).
  { unfold len. rewrite Hp, blen_app. unfold blen. lia. }
  destruct (putHeader_spec (isServer c) b0 b1 len h (d ++ rest) Hh) as (h1 & k & Heq & Hk & Hsum).
  rewrite Heq. pose proof (header_encode final (frameType w) (negb (isServer c)) len Hop
    ltac:(rewrite Hlen; apply blen_nonneg)) as Hhdr. fold b0 b1 in Hhdr.
  destruct (maskKey_ok (net c)) as [_ Hk4].
  unfold encode_frame. simpl f_payload. rewrite <- Hlen.
  destruct (encode_len len) as [len7 ext]. simpl in Hhdr.
  unfold maskPayload. destruct (isServer c); simpl negb in *; cbv iota in *.
  - cbn [writeBuf set_buf]. apply nil_length_inv in Hk as ->. cbn [length] in Hsum. rewrite app_nil_l.
    rewrite <- Hsum, Nat.add_0_r, sub_server. split; [by rewrite Hhdr; simpl; rewrite <- app_assoc|].
    rewrite !length_app. lia.
  - rewrite Hex, !app_nil_r by done. destruct (newMaskKey (net c)) as [key n].
    cbn [writeBuf set_buf fst] in *. rewrite safe_maskBytes, Hp.
    destruct (sub_client h1 (header b0 b1 len) k d rest _ Hsum Hk Hk4) as [_ Hsub].
    cbn [fst]. split; [|rewrite !length_copy_at, !length_app in *; lia].
    by rewrite Hsub, Hhdr.
Qed.

Lemma endMessage_spec err w c e w' c' :
  mw_err w = None -> buf_ok c -> endMessage err w c = (e, w', c') ->
  e = Some err /\ w' = mw_set_err (Some err) w /\ static c c' /\ ended c'
  /\ writeErr c' = writeErr c /\ wire (net c') = wire (net c).
Proof.
  unfold endMessage. intros -> Hb Hr. unfold static, ended, buf_ok in *.
  destruct (hasPool (set_writer None c)) eqn:Hp; simplify_eq; simpl in *;
    split_and!; auto using poolPut_wire.
Qed.

Lemma legal_dec final op len :
  isControl op && (negb final || (maxControlFramePayloadSize <? len)) = false <->
  legal final op len.
Proof.
  unfold legal. destruct (isControl op); simpl; [|done].
  destruct final; simpl; [|split; [done|intros H1; by destruct (H1 eq_refl)]].
  rewrite Z.ltb_ge. naive_solver.
Qed.

Lemma control_key_ok c f :
  f_key f = control_key c -> opcode_ok (f_op f) -> frame_ok (isServer c) f.
Proof.
  unfold frame_ok, control_key. intros -> Hop. split; [done|].
  destruct (maskKey_ok (net c)). by destruct (isServer c).
Qed.

(** The state of writer and connection after a frame was handed to [write]. *)
Definition after_flush (final : bool) c (err : option ws_error) w' c' : Prop :=
  match err with
  | Some _ => mw_err w' = err /\ ended c'
  | None =>
      if final then mw_err w' = Some errWriteClosed /\ ended c'
      else w' = {| compress := false; pos := maxFrameHeaderSize;
                   frameType := continuationFrame; mw_err := None |}
           /\ writer c' = writer c /\ length (writeBuf c') = length (writeBuf c)
  end.

Lemma sendFrame_spec final extra framePos w c err w' c' :
  mw_err w = None -> compress w = false -> (maxFrameHeaderSize < length (writeBuf c))%nat ->
  (isServer c = false -> extra = []) ->
  sendFrame final extra framePos w c = (err, w', c') ->
  static c c' /\ after_flush final c err w' c'
  /\ sent (frameType w) (sub (writeBuf c) framePos (pos w) ++ extra) c c' err.
Proof.
  intros Hw Hco Hlen Hex Hr. unfold sendFrame in Hr.
  assert (negb (isServer c) && (0 <? blen extra) = false) as Hn.
  { destruct (isServer c); [done|]. by rewrite Hex. }
  rewrite Hn in Hr. destruct (write _ _ _ _ _) as [e c1] eqn:Hwr.
  apply write_sent in Hwr as [Hs Hon].
  assert (Hst : static c c1 /\ buf_ok c1 /\ writer c1 = writer c
                /\ length (writeBuf c1) = length (writeBuf c)).
  { rewrite Hon. unfold static, buf_ok. simpl. auto 10. }
  destruct Hst as (Hst & Hb & Hwc & Hl).
  destruct e as [e|]; [|destruct final].
  - apply endMessage_spec in Hr as (-> & -> & Hst' & Hend & Hwe & Hwi); [|done..].
    split; [by eapply static_trans|]. split; [done|]. unfold sent in *. by rewrite Hwe, Hwi.
  - destruct (endMessage errWriteClosed w c1) as [[e2 w2] c2] eqn:He.
    apply endMessage_spec in He as (-> & -> & Hst' & Hend & Hwe & Hwi); [|done..]. simplify_eq.
    split; [by eapply static_trans|]. split; [done|]. unfold sent in *. by rewrite Hwe, Hwi.
  - simplify_eq. split; [done|]. split; [|done]. split_and!; [|done..].
    unfold mw_set_type, mw_set_pos. simpl. by rewrite Hw, Hco.
Qed.

(** [flushFrame] sends the buffered data and [extra] as one frame, and ends
    the message after the final one and after any error. *)
Lemma flushFrame_spec final extra w c err w' c' :
  open_ok w c -> (isServer c = false -> extra = []) ->
  flushFrame final extra w c = (err, w', c') ->
  let f := flushed final extra w c in
  static c c'
  /\ ((isControl (frameType w) = true /\ err = Some errInvalidControlFrame
       /\ ~ legal final (frameType w) (blen (f_payload f))
       /\ mw_err w' = err /\ ended c' /\ wire (net c') = wire (net c) /\ writeErr c' = writeErr c)
      \/ (legal final (frameType w) (blen (f_payload f)) /\ frame_ok (isServer c) f
          /\ sent (frameType w) (encode_frame f) c c' err /\ after_flush final c err w' c')).
Proof.
  intros Ho Hex Hr f. pose proof (flush_buffer final extra w c Ho Hex) as Hbuf.
  destruct Ho as (He & Hc & Hop & Hpos & Hlen).
  assert (Hpl : Z.of_nat (pos w) - Z.of_nat maxFrameHeaderSize + blen extra = blen (f_payload f)).
  { unfold f, flushed, payload, sub. simpl f_payload. rewrite blen_app, blen_take, blen_drop.
    unfold blen at 2. lia. }
  unfold flushFrame in Hr. rewrite Hpl, Hc in *. cbv zeta in Hbuf.
  destruct (_ && _) eqn:Hleg in Hr.
  { apply endMessage_spec in Hr as (-> & -> & Hst & Hend & Hwe & Hwi); [|done|by left].
    split; [done|left]. split_and!; try done; [by apply andb_true_iff in Hleg as [? _]|].
    rewrite <- legal_dec, Hleg. done. }
  apply legal_dec in Hleg. destruct (putHeader _ _ _ _ _) as [framePos buf].
  destruct Hbuf as [Henc Hblen]. fold f in Henc.
  change (maskPayload (mw_set_compress false w) buf c) with (maskPayload w buf c) in Hr.
  assert (Hc1 : static c (maskPayload w buf c) /\ wire (net (maskPayload w buf c)) = wire (net c)
     /\ writeErr (maskPayload w buf c) = writeErr c /\ writer (maskPayload w buf c) = writer c).
  { pose proof (maskKey_wire (net c)) as Hk. unfold maskPayload, static.
    destruct (newMaskKey (net c)) as [key n]. destruct (negb (isServer c)); simpl; auto 10. }
  destruct Hc1 as (Hs1 & Hwi & Hwe & Hwr).
  apply sendFrame_spec in Hr as (Hst & Haf & Hsent); [|done|done|lia|by rewrite (proj1 Hs1)].
  split; [by eapply static_trans|right].
  split_and!; [done|by apply control_key_ok| |].
  - cbn [frameType pos mw_set_compress] in Hsent. rewrite Henc in Hsent.
    unfold sent in *. by rewrite <- Hwi, <- Hwe.
  - unfold after_flush in *. by rewrite <- Hwr, <- Hblen.
Qed.

(** * The stream as a whole *)

(** Everything sent since [s0] is a sequence of frames that carries [log], with
    the message [frag] under way; the sticky error is set exactly by a close
    frame. *)
Definition stream (s0 : bytes) c (log : list (Z * bytes)) (frag : option (Z * bytes)) : Prop :=
  exists fs, wire (net c) = s0 ++ concat (encode_frame <$> fs)
    /\ Forall (frame_ok (isServer c)) fs
    /\ assemble ([], None) fs = Some (log, frag)
    /\ writeErr c = (if closed log then Some ErrCloseSent else None)
    /\ (forall t d, frag = Some (t, d) -> isData t = true).

(** The connection has failed: at most one incomplete frame follows the whole
    ones, and the error stays. *)
Definition dead (s0 : bytes) c : Prop :=
  exists fs s f n e, wire (net c) = s0 ++ concat (encode_frame <$> fs) ++ take n (encode_frame f)
    /\ Forall (frame_ok (isServer c)) fs /\ frame_ok (isServer c) f
    /\ assemble ([], None) fs = Some s /\ is_Some (assemble_frame s f)
    /\ writeErr c = Some e.

Lemma closed_app log m : closed (log ++ [m]) = closed log || (fst m =? CloseMessage).
Proof. unfold closed. rewrite existsb_app. simpl. by rewrite orb_false_r. Qed.

Lemma assemble_frame_frag log frag f log' frag' :
  assemble_frame (log, frag) f = Some (log', frag') ->
  (forall t d, frag = Some (t, d) -> isData t = true) ->
  (forall t d, frag' = Some (t, d) -> isData t = true)
  /\ closed log = false
  /\ (closed log' = (f_op f =? CloseMessage)).
Proof.
  unfold assemble_frame. intros Ha Hf. destruct (closed log) eqn:Hc; [done|].
  destruct (isControl (f_op f)) eqn:Hctl.
  { destruct (_ && _); simplify_eq. rewrite closed_app, Hc. done. }
  assert (Ho : f_op f =? CloseMessage = false).
  { by do 2 apply orb_false_iff in Hctl as [Hctl _]. }
  assert (Hdc : forall t, isData t = true -> t =? CloseMessage = false).
  { intros t [->| ->]%isData_cases; done. }
  destruct (isData (f_op f)) eqn:Hd; [destruct frag as [[t d]|]; [done|]|
    destruct (_ =? continuationFrame); [|done]; destruct frag as [[t d]|]; [|done]];
    destruct (f_fin f); simplify_eq; rewrite ?closed_app, Hc, Ho; simpl;
    split_and!; try done; try naive_solver; apply Hdc; eauto.
Qed.

Lemma stream_ext s0 c c' log frag :
  net c' = net c -> isServer c' = isServer c -> writeErr c' = writeErr c ->
  stream s0 c log frag -> stream s0 c' log frag.
Proof. unfold stream. intros -> -> ->. done. Qed.

Lemma concat_snoc {A} (l : list (list A)) x : concat (l ++ [x]) = concat l ++ x.
Proof. rewrite concat_app. simpl. by rewrite app_nil_r. Qed.

(** The effect on the stream of handing a frame to [write]. *)
Lemma stream_sent s0 c c' log frag f s' err :
  stream s0 c log frag ->
  (closed log = false -> assemble_frame (log, frag) f = Some s') ->
  frame_ok (isServer c) f -> isServer c' = isServer c ->
  sent (f_op f) (encode_frame f) c c' err ->
  match err with
  | None => stream s0 c' (fst s') (snd s')
  | Some _ => (stream s0 c' log frag /\ closed log = true) \/ dead s0 c'
  end.
Proof.
  intros (fs & Hw & Hfs & Ha & He & Hd) Hs' Hf Hsrv Hsent. destruct err as [e|].
  - destruct Hsent as (He' & [[Hc Hwi]|[Hc [n Hwi]]]); rewrite He in Hc.
    + left. destruct (closed log) eqn:Hcl; [|done]. split; [|done]. exists fs.
      rewrite Hwi, Hsrv, He', Hcl. split_and!; done.
    + right. destruct (closed log) eqn:Hcl; [done|].
      exists fs, (log, frag), f, n, e. rewrite Hwi, Hw, Hsrv, app_assoc, Hs' by done.
      split_and!; done.
  - destruct Hsent as (Hc & Hwi & He'). rewrite He in Hc.
    destruct (closed log) eqn:Hcl; [done|]. specialize (Hs' eq_refl).
    destruct s' as [log' frag']. apply assemble_frame_frag in Hs' as Hx; [|done].
    destruct Hx as (Hd' & _ & Hcl'). exists (fs ++ [f]). simpl.
    rewrite Hwi, Hw, Hsrv, fmap_app, He', Hcl', assemble_snoc, Ha. simpl.
    rewrite concat_snoc, app_assoc. split_and!; try done.
    apply Forall_app; split; [done|by constructor].
Qed.

(** ** The message under way *)

(** The writer [w] holds the message of type [t], the data of which are [d] so
    far: the frames already sent and what is in the buffer. *)
Definition cur_ok w c (t : Z) (d : bytes) (frag : option (Z * bytes)) : Prop :=
  open_ok w c
  /\ match frag with
     | None => frameType w = t /\ (isControl t = true \/ isData t = true) /\ d = payload w c
     | Some (t', d') => t' = t /\ frameType w = continuationFrame /\ d = d' ++ payload w c
     end.

(** How a method of a writer ends: the message goes on, it has been sent, or
    the writer has failed. *)
Definition goes_on s0 c log t d w' c' : Prop :=
  static c c' /\ writer c' = writer c
  /\ exists frag, stream s0 c' log frag /\ cur_ok w' c' t d frag.
Definition finished s0 c log t d w' c' : Prop :=
  static c c' /\ mw_err w' = Some errWriteClosed /\ ended c'
  /\ stream s0 c' (log ++ [(t, d)]) None.
Definition failed s0 c log e w' c' : Prop :=
  static c c' /\ mw_err w' = Some e /\ ended c'
  /\ ((exists frag, stream s0 c' log frag /\ (frag = None \/ closed log = true)) \/ dead s0 c').

Lemma assemble_flushed s0 c log frag w t d final extra :
  stream s0 c log frag -> cur_ok w c t d frag ->
  legal final (frameType w) (blen (f_payload (flushed final extra w c))) ->
  closed log = false ->
  assemble_frame (log, frag) (flushed final extra w c)
  = Some (if final then (log ++ [(t, d ++ extra)], None) else (log, Some (t, d ++ extra))).
Proof.
  intros (_ & _ & _ & _ & _ & Hfrag) [_ Hcur] Hleg Hcl.
  unfold assemble_frame. rewrite Hcl. unfold legal in Hleg. simpl in *.
  destruct frag as [[t' d']|].
  - destruct Hcur as (-> & -> & ->). simpl. rewrite <- app_assoc. by destruct final.
  - destruct Hcur as (Hft & Ht & ->). rewrite Hft in *. destruct (isControl t) eqn:Hc.
    + destruct (Hleg eq_refl) as [-> Hl]. simpl. apply Z.leb_le in Hl. by rewrite Hl.
    + destruct Ht as [|Ht]; [done|]. rewrite Ht. by destruct final.
Qed.

Lemma flush_step s0 c log frag w t d final extra err w' c' :
  stream s0 c log frag -> cur_ok w c t d frag -> (isServer c = false -> extra = []) ->
  flushFrame final extra w c = (err, w', c') ->
  match err with
  | Some e => failed s0 c log e w' c'
  | None => if final then finished s0 c log t (d ++ extra) w' c'
            else goes_on s0 c log t (d ++ extra) w' c' /\ pos w' = maxFrameHeaderSize
  end.
Proof.
  intros Hst Hcur Hex Hr. pose proof Hcur as [Hop Hcase].
  apply flushFrame_spec in Hr as [Hstat [Hbad|Hgood]]; [| |done|done].
  - destruct Hbad as (Hctl & -> & _ & He & Hend & Hwi & Hwe).
    split_and!; try done. left. exists frag. split.
    + destruct Hst as (fs & Hw & Hrest). exists fs. by rewrite Hwi, Hwe, (proj1 Hstat).
    + left. destruct frag as [[t' d']|]; [|done]. destruct Hcase as (_ & Hx & _).
      by rewrite Hx in Hctl.
  - destruct Hgood as (Hleg & Hf & Hsent & Haf).
    pose proof (stream_sent s0 c c' log frag (flushed final extra w c) _ err Hst
      (assemble_flushed s0 c log frag w t d final extra Hst Hcur Hleg) Hf (proj1 Hstat) Hsent) as Hs.
    destruct err as [e|].
    + destruct Haf as [He Hend]. split_and!; try done.
      destruct Hs as [[? ?]|?]; [left; exists frag; auto|by right].
    + destruct final; simpl in *; [by destruct Haf; split_and!|].
      destruct Haf as (-> & Hwr & Hl). split; [|done]. split_and!; try done. eexists. split; [exact Hs|].
      destruct Hop as (_ & _ & _ & _ & Hlen). split.
      * unfold open_ok. simpl. rewrite Hl. split_and!; try done; [by left|lia].
      * simpl. split_and!; try done. unfold payload, sub. simpl. by rewrite app_nil_r.
Qed.

Lemma fill_step s0 c log frag w t d b :
  stream s0 c log frag -> cur_ok w c t d frag ->
  (pos w + length b <= length (writeBuf c))%nat ->
  goes_on s0 c log t (d ++ b) (mw_set_pos (pos w + length b) w)
    (set_buf (copy_at (writeBuf c) (pos w) b) c).
Proof.
  intros Hst [(He & Hc & Hop & Hpos & Hlen) Hcase] Hfit. split_and!; try done.
  exists frag. split; [by eapply stream_ext|]. split.
  - unfold open_ok. simpl. rewrite length_copy_at. split_and!; try done; lia.
  - unfold payload in *. simpl. rewrite sub_copy by lia.
    destruct frag as [[t' d']|].
    + destruct Hcase as (-> & -> & ->). by rewrite app_assoc.
    + destruct Hcase as (-> & ? & ->). done.
Qed.

Lemma goes_on_trans s0 c c1 log t d w2 c2 :
  static c c1 -> writer c1 = writer c ->
  goes_on s0 c1 log t d w2 c2 -> goes_on s0 c log t d w2 c2.
Proof.
  intros Hst Hw (Hst2 & Hw2 & Hx). split_and!; [by eapply static_trans|congruence|done].
Qed.

Lemma failed_trans s0 c c1 log e w2 c2 :
  static c c1 -> failed s0 c1 log e w2 c2 -> failed s0 c log e w2 c2.
Proof. intros Hst (Hst2 & Hx). split; [by eapply static_trans|done]. Qed.

Lemma ncopy_step s0 c log frag w t d max r w' c' :
  stream s0 c log frag -> cur_ok w c t d frag -> ncopy max w c = (r, w', c') ->
  match r with
  | Err e => failed s0 c log e w' c'
  | Ok n => goes_on s0 c log t d w' c'
            /\ exists room, (0 < room)%nat /\ n = Nat.min room max
               /\ (pos w' + room)%nat = length (writeBuf c')
  end.
Proof.
  intros Hst Hcur Hr. unfold ncopy in Hr. destruct (_ =? 0)%nat eqn:Hroom in Hr.
  - destruct (flushFrame false [] w c) as [[[e|] w1] c1] eqn:Hf; simplify_eq;
      eapply flush_step in Hf; try done.
    rewrite app_nil_r in Hf. destruct Hf as [Hgo Hp]. split; [done|].
    destruct Hgo as (_ & _ & frag' & _ & (_ & _ & _ & _ & Hl) & _). rewrite Hp.
    eexists. split_and!; [|reflexivity|]; lia.
  - simplify_eq. apply Nat.eqb_neq in Hroom. split.
    + split_and!; [apply static_refl|done|]. by exists frag.
    + destruct Hcur as [(_ & _ & _ & Hp & _) _]. eexists. split_and!; [|reflexivity|]; lia.
Qed.

(** The loop puts all of [p] into the message; its fuel, the length of [p], is
    enough. *)
Lemma write_loop_step s0 log t fuel p : forall c frag w d err w' c',
  stream s0 c log frag -> cur_ok w c t d frag -> (length p <= fuel)%nat ->
  write_loop fuel p w c = (err, w', c') ->
  match err with
  | Some e => failed s0 c log e w' c'
  | None => goes_on s0 c log t (d ++ p) w' c'
  end.
Proof.
  revert p. induction fuel as [|fuel IH]; intros [|x p] c frag w d err w' c' Hst Hcur Hfuel Hr;
    simpl in Hfuel; try lia;
    [simpl in Hr; simplify_eq; rewrite app_nil_r; split_and!; [apply static_refl|done|by exists frag]..|].
  cbn [write_loop] in Hr. set (xs := x :: p) in *.
  destruct (ncopy _ w c) as [[[n|e] w1] c1] eqn:Hn; eapply ncopy_step in Hn; try done;
    [|by simplify_eq].
  destruct Hn as [(Hst1 & Hw1 & frag1 & Hs1 & Hc1) (room & Hr0 & -> & Hroom)].
  set (b := take (Nat.min room (length xs)) xs) in *.
  assert (Hlb : length b = Nat.min room (length xs)) by (unfold b; rewrite length_take; lia).
  rewrite <- Hlb in Hr.
  destruct (fill_step _ _ _ _ _ _ _ b Hs1 Hc1 ltac:(lia)) as (Hst2 & Hw2 & frag2 & Hs2 & Hc2).
  pose proof (static_trans _ _ _ Hst1 Hst2) as Hst12.
  eapply (IH _ _ _ _ _ _ _ _ Hs2 Hc2) in Hr; [|rewrite length_drop, Hlb; simpl; lia].
  destruct err as [e|]; [by eapply failed_trans|].
  rewrite Hlb in Hr. rewrite <- app_assoc in Hr. unfold b in Hr. rewrite take_drop in Hr.
  eapply goes_on_trans; [exact Hst12|congruence|done].
Qed.

Lemma mw_Write_step s0 c log frag w t d p err w' c' :
  stream s0 c log frag -> cur_ok w c t d frag -> mw_Write p w c = (err, w', c') ->
  match err with
  | Some e => failed s0 c log e w' c'
  | None => goes_on s0 c log t (d ++ p) w' c'
  end.
Proof.
  intros Hst Hcur Hr. unfold mw_Write in Hr. rewrite (proj1 (proj1 Hcur)) in Hr.
  destruct (_ && isServer c) eqn:Hs; [|by eapply write_loop_step].
  apply andb_true_iff in Hs as [_ Hs]. eapply flush_step in Hr; [|done..|congruence].
  destruct err; [done|]. apply Hr.
Qed.

Lemma mw_WriteString_step s0 c log frag w t d p err w' c' :
  stream s0 c log frag -> cur_ok w c t d frag -> mw_WriteString p w c = (err, w', c') ->
  match err with
  | Some e => failed s0 c log e w' c'
  | None => goes_on s0 c log t (d ++ p) w' c'
  end.
Proof.
  intros Hst Hcur Hr. unfold mw_WriteString in Hr. rewrite (proj1 (proj1 Hcur)) in Hr.
  by eapply write_loop_step.
Qed.

Lemma mw_Close_step s0 c log frag w t d err w' c' :
  stream s0 c log frag -> cur_ok w c t d frag -> mw_Close w c = (err, w', c') ->
  match err with
  | Some e => failed s0 c log e w' c'
  | None => finished s0 c log t d w' c'
  end.
Proof.
  intros Hst Hcur Hr. unfold mw_Close in Hr. rewrite (proj1 (proj1 Hcur)) in Hr.
  eapply flush_step in Hr; [|done..]. by rewrite app_nil_r in Hr.
Qed.

Lemma reader_Read_spec room chunks rerr b e chunks' :
  (0 < room)%nat -> reader_Read room chunks rerr = (b, e, chunks') ->
  (length b <= room)%nat
  /\ ((chunks = [] /\ b = [] /\ e = Some rerr)
      \/ (e = None /\ concat chunks = b ++ concat chunks'
          /\ (readFrom_fuel chunks' < readFrom_fuel chunks)%nat)).
Proof.
  intros Hroom. unfold reader_Read, readFrom_fuel. destruct chunks as [|x chunks]; intros.
  { simplify_eq. split; [simpl; lia|by left]. }
  destruct (Nat.leb_spec (length x) room); simplify_eq; simpl.
  - rewrite length_app. split; [done|right]. split_and!; [done|done|lia].
  - rewrite !length_app, length_take, length_drop, app_assoc, take_drop.
    split; [lia|right]. split_and!; [done|done|lia].
Qed.

(** [ReadFrom] puts all that the reader delivers into the message; its fuel is
    enough. *)
Lemma readFrom_loop_step s0 log t rerr fuel : forall chunks c frag w d nn n err w' c',
  stream s0 c log frag -> cur_ok w c t d frag -> (readFrom_fuel chunks <= fuel)%nat ->
  readFrom_loop fuel chunks rerr nn w c = (n, err, w', c') ->
  (exists e, err = Some e /\ failed s0 c log e w' c')
  \/ (err = (if decide (rerr = io_EOF) then None else Some rerr)
      /\ n = (nn + length (concat chunks))%nat /\ goes_on s0 c log t (d ++ concat chunks) w' c').
Proof.
  induction fuel as [|fuel IH]; intros chunks c frag w d nn n err w' c' Hst Hcur Hfuel Hr;
    [unfold readFrom_fuel in Hfuel; lia|].
  cbn [readFrom_loop] in Hr.
  destruct (if (_ =? _)%nat then _ else _) as [[e1 w1] c1] eqn:Hfl.
  assert (Hgo : match e1 with
                | Some e => failed s0 c log e w1 c1
                | None => goes_on s0 c log t d w1 c1 /\ (pos w1 < length (writeBuf c1))%nat
                end).
  { destruct (_ =? _)%nat eqn:Hp.
    - eapply flush_step in Hfl; [|done..]. destruct e1; [done|]. rewrite app_nil_r in Hfl.
      destruct Hfl as [Hg Hp1]. split; [done|]. destruct Hg as (_ & _ & ? & _ & (_ & _ & _ & _ & ?) & _).
      lia.
    - simplify_eq. apply Nat.eqb_neq in Hp. split; [|destruct Hcur as [(_&_&_&?&_) _]; lia].
      split_and!; [apply static_refl|done|by exists frag]. }
  destruct e1 as [e1|]; [simplify_eq; left; eauto|].
  destruct Hgo as [(Hst1 & Hw1 & frag1 & Hs1 & Hc1) Hroom].
  destruct (reader_Read _ chunks rerr) as [[b e] chunks'] eqn:Hrd.
  apply reader_Read_spec in Hrd as [Hlb Hcases]; [|lia].
  destruct (fill_step _ _ _ _ _ _ _ b Hs1 Hc1 ltac:(lia)) as (Hst2 & Hw2 & frag2 & Hs2 & Hc2).
  pose proof (static_trans _ _ _ Hst1 Hst2) as Hst12.
  destruct Hcases as [(-> & -> & ->)|(-> & Hcat & Hlt)].
  - simplify_eq. right. split_and!; [by case_decide|done|].
    split_and!; [done|by rewrite Hw2|by exists frag2].
  - eapply (IH chunks') in Hr; [|exact Hs2|exact Hc2|lia].
    destruct Hr as [(e & -> & Hf)|(-> & -> & Hg)].
    + left. exists e. split; [done|]. by eapply failed_trans.
    + right. rewrite Hcat, length_app. split_and!; [done|lia|].
      rewrite app_assoc. eapply goes_on_trans; [exact Hst12|congruence|done].
Qed.

(** ** The connection *)

(** The state of a connection that has carried [log] and whose application
    holds the writer, type and data [cur]. *)
Definition conn_ok (s0 : bytes) c (log : list (Z * bytes)) (cur : option (nat * Z * bytes)) : Prop :=
  (hasPool c = true -> (maxFrameHeaderSize < writeBufSize c)%nat) /\ buf_ok c
  /\ (forall h w, mws c !! h = Some w -> mw_err w = None -> writer c = Some h)
  /\ exists frag, stream s0 c log frag
     /\ match cur with
        | None => writer c = None /\ (frag = None \/ closed log = true)
        | Some (h, t, d) =>
            writer c = Some h /\ exists w, mws c !! h = Some w /\ cur_ok w c t d frag
        end.

(** ** Updating a writer in the store *)

Definition put_writer (h : nat) w c : WConn W := set_mws (<[h := w]> (mws c)) c.

Lemma put_writer_others c h w w' c' :
  (forall i wi, mws c !! i = Some wi -> mw_err wi = None -> writer c = Some i) ->
  writer c = Some h -> static c c' -> mws c !! h = Some w ->
  forall i wi, mws (put_writer h w' c') !! i = Some wi -> mw_err wi = None ->
    i = h /\ wi = w'.
Proof using.
  intros Hws Hh (_ & _ & _ & _ & Hm) Hw i wi Hi Hn. simpl in Hi. rewrite Hm in Hi.
  apply list_lookup_insert_Some in Hi as [(-> & -> & _)|(Hne & Hi)]; [done|].
  specialize (Hws _ _ Hi Hn). congruence.
Qed.

Section Outcomes.
Variables (s0 : bytes) (c : WConn W) (log : list (Z * bytes)) (h : nat) (t : Z) (d : bytes).
Variable w : messageWriter.
Hypothesis Hconn : conn_ok s0 c log (Some (h, t, d)).
Hypothesis Hw : mws c !! h = Some w.

Lemma conn_goes_on d' w' c' :
  goes_on s0 c log t d' w' c' -> conn_ok s0 (put_writer h w' c') log (Some (h, t, d')).
Proof using Hconn Hw.
  destruct Hconn as (Hsz & Hb & Hws & frag & Hst & Hwr & _).
  intros (Hs & Hwr' & frag' & Hst' & Hcur').
  pose proof (put_writer_others _ h w w' c' Hws Hwr Hs Hw) as Hothers.
  destruct Hs as (? & Hp' & Hsz' & ? & Hm).
  split_and!; simpl; [by rewrite Hsz', Hp'|left; apply Hcur'| |].
  - intros i wi Hi Hn. destruct (Hothers i wi Hi Hn) as [-> _]. congruence.
  - exists frag'. split; [by eapply stream_ext|]. split; [congruence|]. exists w'.
    split; [|done]. rewrite Hm. apply list_lookup_insert_eq. by eapply lookup_lt_Some.
Qed.

Lemma conn_ended log' frag' w' c' :
  static c c' -> mw_err w' <> None -> ended c' ->
  stream s0 c' log' frag' -> (frag' = None \/ closed log' = true) ->
  conn_ok s0 (put_writer h w' c') log' None.
Proof using Hconn Hw.
  destruct Hconn as (Hsz & Hb & Hws & frag & Hst & Hwr & _). intros Hs He [Hnone Hbuf] Hst' Hfr.
  pose proof (put_writer_others _ h w w' c' Hws Hwr Hs Hw) as Hothers.
  split_and!; simpl; [by rewrite (proj1 (proj2 (proj2 Hs))), (proj1 (proj2 Hs))|done| |].
  - intros i wi Hi Hn. destruct (Hothers i wi Hi Hn) as [-> ->]. done.
  - exists frag'. split; [by eapply stream_ext|done].
Qed.

Lemma conn_finished w' c' :
  finished s0 c log t d w' c' -> conn_ok s0 (put_writer h w' c') (log ++ [(t, d)]) None.
Proof using Hconn Hw.
  intros (Hs & He & Hend & Hst). eapply conn_ended; [done|by rewrite He|done|done|by left].
Qed.

Lemma conn_failed e w' c' :
  failed s0 c log e w' c' ->
  conn_ok s0 (put_writer h w' c') log None \/ dead s0 (put_writer h w' c').
Proof using Hconn Hw.
  intros (Hs & He & Hend & [(frag & Hst & Hfr)|Hdead]); [left|by right].
  eapply conn_ended; [done|by rewrite He|done|done|done].
Qed.

End Outcomes.

(** ** Operations of the application *)

Inductive wop :=
| OpControl (t : Z) (p : bytes) (deadline : Z)
| OpNext (t : Z)
| OpWrite (h : nat) (p : bytes)
| OpWriteString (h : nat) (p : bytes)
| OpReadFrom (h : nat) (chunks : list bytes) (rerr : ws_error)
| OpClose (h : nat)
| OpMessage (t : Z) (p : bytes)
| OpDeadline (d : Z).

Definition run_op (o : wop) c : option ws_error * WConn W :=
  match o with
  | OpControl t p d => WriteControl t p d c
  | OpNext t => match NextWriter t c with (Ok _, c) => (None, c) | (Err e, c) => (Some e, c) end
  | OpWrite h p => Writer_Write h p c
  | OpWriteString h p => Writer_WriteString h p c
  | OpReadFrom h chunks rerr => Writer_ReadFrom h chunks rerr c
  | OpClose h => Writer_Close h c
  | OpMessage t p => WriteMessage t p c
  | OpDeadline d => (None, SetWriteDeadline d c)
  end.

(** A method of an open writer is a method of the current writer. *)
Lemma current_writer s0 c log cur h w :
  conn_ok s0 c log cur -> mws c !! h = Some w -> mw_err w = None ->
  exists t d frag, cur = Some (h, t, d) /\ stream s0 c log frag /\ cur_ok w c t d frag.
Proof.
  intros (_ & _ & Hws & frag & Hst & Hcur) Hw He. specialize (Hws _ _ Hw He).
  destruct cur as [[[h' t] d]|]; [|destruct Hcur; congruence].
  destruct Hcur as (Hh & w2 & Hw2 & Hc). assert (h' = h) as -> by congruence.
  assert (w2 = w) as -> by congruence. eauto 10.
Qed.

Lemma mw_Close_legal s0 c log frag w t d err w' c' :
  stream s0 c log frag -> cur_ok w c t d frag -> mw_Close w c = (err, w', c') ->
  match err with
  | None => legal true t (blen d)
  | Some _ => writeErr c' = None -> ~ legal true t (blen d)
  end.
Proof.
  intros Hst Hcur Hr. unfold mw_Close in Hr. rewrite (proj1 (proj1 Hcur)) in Hr.
  apply flushFrame_spec in Hr as [_ Hr]; [|apply Hcur|done].
  simpl in Hr. rewrite app_nil_r in Hr.
  assert (Hl : legal true (frameType w) (blen (payload w c)) <-> legal true t (blen d)).
  { destruct Hcur as [_ Hcase]. destruct frag as [[t' d']|].
    - destruct Hcase as (-> & -> & ->). destruct Hst as (_ & _ & _ & _ & _ & Hf).
      specialize (Hf _ _ eq_refl). unfold legal. simpl.
      apply isData_cases in Hf as [->| ->]; done.
    - destruct Hcase as (-> & _ & ->). done. }
  destruct Hr as [(_ & -> & Hn & _)|(Hleg & _ & Hsent & _)].
  - by rewrite <- Hl.
  - destruct err; [by destruct Hsent as [-> _]|by apply Hl].
Qed.

(** The log once the current message has been ended by [Close]: a control
    message that is too long is dropped. *)
Definition finish_cur (log : list (Z * bytes)) (cur : option (nat * Z * bytes)) :=
  match cur with
  | None => log
  | Some (_, t, d) =>
      if isControl t && (maxControlFramePayloadSize <? blen d) then log else log ++ [(t, d)]
  end.

(** What a successful operation does to the log and the current message;
    [n] is the number of writers made so far. *)
Definition expected (n : nat) (o : wop) (a : list (Z * bytes) * option (nat * Z * bytes)) :=
  let '(log, cur) := a in
  let append h p :=
    match cur with
    | Some (h', t, d) => if decide (h = h') then (log, Some (h, t, d ++ p)) else (log, cur)
    | None => (log, cur)
    end in
  match o with
  | OpControl t p _ => (log ++ [(t, p)], cur)
  | OpNext t => (finish_cur log cur, Some (n, t, []))
  | OpWrite h p => append h p
  | OpWriteString h p => append h p
  | OpReadFrom h chunks _ => append h (concat chunks)
  | OpClose h =>
      match cur with
      | Some (h', t, d) => if decide (h = h') then (log ++ [(t, d)], None) else (log, cur)
      | None => (log, cur)
      end
  | OpMessage t p => (finish_cur log cur ++ [(t, p)], None)
  | OpDeadline _ => (log, cur)
  end.

Definition result_ok s0 c' (err : option ws_error) (a : list (Z * bytes) * option (nat * Z * bytes)) : Prop :=
  match err with
  | None => conn_ok s0 c' (fst a) (snd a)
  | Some _ => (exists log cur, conn_ok s0 c' log cur) \/ dead s0 c'
  end.

Lemma conn_same s0 c c' log log' cur :
  conn_ok s0 c log cur -> only_net c c' ->
  (forall frag, stream s0 c log frag -> stream s0 c' log' frag) ->
  (closed log = true -> closed log' = true) ->
  conn_ok s0 c' log' cur.
Proof.
  intros (Hsz & Hb & Hws & frag & Hst & Hcur) Hon Hs Hcl.
  unfold conn_ok, buf_ok. rewrite Hon. simpl. split_and!; try done.
  exists frag. split; [by apply Hs in Hst; rewrite Hon in Hst|].
  destruct cur as [[[h t] d]|]; [done|]. destruct Hcur as [? [|]]; auto.
Qed.

(** Methods of a writer through the store. *)
Lemma with_writer_append s0 c log cur n h p
    (f : messageWriter -> WConn W -> option ws_error * messageWriter * WConn W) err c' :
  conn_ok s0 c log cur ->
  (forall w e, mw_err w = Some e -> f w c = (Some e, w, c)) ->
  (forall w t d frag err w' c',
     stream s0 c log frag -> cur_ok w c t d frag -> f w c = (err, w', c') ->
     (exists e, err = Some e /\ failed s0 c log e w' c') \/ goes_on s0 c log t (d ++ p) w' c') ->
  with_writer h f c = (err, c') -> result_ok s0 c' err (expected n (OpWrite h p) (log, cur)).
Proof.
  intros Hc Hstale Hf Hr. unfold with_writer in Hr.
  assert (Hsame : conn_ok s0 c log cur -> writer c <> Some h ->
    conn_ok s0 c (fst (expected n (OpWrite h p) (log, cur))) (snd (expected n (OpWrite h p) (log, cur)))).
  { intros Hc1 Hne. simpl. destruct cur as [[[h' t] d]|]; [|done].
    destruct (decide (h = h')) as [->|]; [|done].
    destruct Hc1 as (_ & _ & _ & ? & _ & Hh & _). congruence. }
  destruct (mws c !! h) as [w|] eqn:Hw.
  2:{ simplify_eq. apply Hsame; [done|]. intros Hx. destruct Hc as (_ & _ & _ & frag & _ & Hcur).
      destruct cur as [[[h' t] d]|]; [|destruct Hcur; congruence].
      destruct Hcur as (Hh & w & Hw2 & _). congruence. }
  destruct (f w c) as [[e w'] c1] eqn:Hfw. injection Hr as <- <-. change (set_mws (<[h:=w']> (mws c1)) c1) with (put_writer h w' c1).
  destruct (mw_err w) as [e0|] eqn:He.
  { rewrite (Hstale w e0 He) in Hfw. simplify_eq. left. exists log, cur.
    unfold put_writer. rewrite list_insert_id by done. by destruct c1. }
  destruct (current_writer _ _ _ _ _ _ Hc Hw He) as (t & d & frag & -> & Hst & Hcur).
  destruct (Hf _ _ _ _ _ _ _ Hst Hcur Hfw) as [(e1 & -> & Hfail)|Hgo].
  - destruct (conn_failed _ _ _ _ _ _ _ Hc Hw _ _ _ Hfail); [left; eauto|by right].
  - pose proof (conn_goes_on _ _ _ _ _ _ _ Hc Hw _ _ _ Hgo) as Hok. unfold result_ok.
    destruct e as [e|]; [by left; eauto|]. simpl. by rewrite decide_True.
Qed.

Lemma Writer_Write_ok s0 c log cur n h p err c' :
  conn_ok s0 c log cur -> Writer_Write h p c = (err, c') ->
  result_ok s0 c' err (expected n (OpWrite h p) (log, cur)).
Proof.
  intros Hc. apply with_writer_append; [done|intros w e He; unfold mw_Write; by rewrite He|].
  intros w t d frag e w' c1 Hst Hcur Hr. eapply mw_Write_step in Hr; [|done..].
  destruct e; eauto.
Qed.

Lemma Writer_WriteString_ok s0 c log cur n h p err c' :
  conn_ok s0 c log cur -> Writer_WriteString h p c = (err, c') ->
  result_ok s0 c' err (expected n (OpWrite h p) (log, cur)).
Proof.
  intros Hc. apply with_writer_append; [done|intros w e He; unfold mw_WriteString; by rewrite He|].
  intros w t d frag e w' c1 Hst Hcur Hr. eapply mw_WriteString_step in Hr; [|done..].
  destruct e; eauto.
Qed.

Lemma Writer_ReadFrom_ok s0 c log cur n h chunks rerr err c' :
  conn_ok s0 c log cur -> Writer_ReadFrom h chunks rerr c = (err, c') ->
  result_ok s0 c' err (expected n (OpWrite h (concat chunks)) (log, cur)).
Proof.
  intros Hc. apply with_writer_append; [done|intros w e He; unfold mw_ReadFrom; by rewrite He|].
  intros w t d frag e w' c1 Hst Hcur Hr. unfold mw_ReadFrom in Hr.
  rewrite (proj1 (proj1 Hcur)) in Hr.
  destruct (readFrom_loop _ _ _ _ _ _) as [[[k e1] w1] c2] eqn:Hl. simplify_eq.
  eapply readFrom_loop_step in Hl; [|done..].
  destruct Hl as [(e1 & -> & Hf)|(_ & _ & Hg)]; eauto.
Qed.

Lemma Writer_Close_ok s0 c log cur n h err c' :
  conn_ok s0 c log cur -> Writer_Close h c = (err, c') ->
  result_ok s0 c' err (expected n (OpClose h) (log, cur)).
Proof.
  intros Hc Hr. unfold Writer_Close, with_writer in Hr.
  destruct (mws c !! h) as [w|] eqn:Hw.
  2:{ simplify_eq. simpl. destruct cur as [[[h' t] d]|]; [|done].
      destruct (decide (h = h')) as [->|]; [|done].
      destruct Hc as (_ & _ & _ & frag & _ & _ & w & Hw2 & _). congruence. }
  destruct (mw_Close w c) as [[e w'] c1] eqn:Hfw. injection Hr as <- <-.
  change (set_mws (<[h:=w']> (mws c1)) c1) with (put_writer h w' c1).
  destruct (mw_err w) as [e0|] eqn:He.
  { unfold mw_Close in Hfw. rewrite He in Hfw. simplify_eq. left. exists log, cur.
    unfold put_writer. rewrite list_insert_id by done. by destruct c1. }
  destruct (current_writer _ _ _ _ _ _ Hc Hw He) as (t & d & frag & -> & Hst & Hcur).
  eapply mw_Close_step in Hfw; [|done..]. destruct e as [e|].
  - destruct (conn_failed _ _ _ _ _ _ _ Hc Hw _ _ _ Hfw); [left; eauto|by right].
  - simpl. rewrite decide_True by done. by eapply conn_finished.
Qed.

(** The writer that was current when a new message begins is closed, and
    [c.writer] is nil. *)
Definition close_current c : WConn W :=
  match writer c with
  | Some h => set_writer None (snd (with_writer h mw_Close c))
  | None => c
  end.

Lemma conn_writer_none s0 c log : conn_ok s0 c log None -> set_writer None c = c.
Proof. intros (_ & _ & _ & frag & _ & Hw & _). destruct c. simpl in *. by rewrite Hw. Qed.

Lemma close_current_ok s0 c log cur :
  conn_ok s0 c log cur ->
  static c (set_mws (mws c) (close_current c))
  /\ (dead s0 (close_current c)
      \/ exists log', conn_ok s0 (close_current c) log' None
          /\ (writeErr (close_current c) = None -> log' = finish_cur log cur)).
Proof.
  intros Hc. pose proof Hc as (Hsz & Hb & Hws & frag & Hst & Hcur). unfold close_current.
  destruct cur as [[[h t] d]|].
  2:{ rewrite (proj1 Hcur). split; [by destruct c|right; eauto]. }
  destruct Hcur as (Hh & w & Hw & Hcw). rewrite Hh. unfold with_writer. rewrite Hw.
  destruct (mw_Close w c) as [[e w'] c1] eqn:Hfw. simpl.
  change (set_mws (<[h:=w']> (mws c1)) c1) with (put_writer h w' c1).
  pose proof (mw_Close_legal _ _ _ _ _ _ _ _ _ _ Hst Hcw Hfw) as Hleg.
  eapply mw_Close_step in Hfw; [|done..].
  assert (Hs : static c c1) by (destruct e; apply Hfw).
  split; [destruct Hs as (?&?&?&?&?); by split_and!|].
  unfold finish_cur. destruct e as [e|].
  - destruct (conn_failed _ _ _ _ _ _ _ Hc Hw _ _ _ Hfw) as [Hok|Hd]; [right|by left].
    exists log. rewrite (conn_writer_none _ _ _ Hok). split; [done|]. intros Hn.
    destruct (_ && _) eqn:Hx; [done|]. exfalso. apply (Hleg Hn). apply legal_dec. exact Hx.
  - right. pose proof (conn_finished _ _ _ _ _ _ _ Hc Hw _ _ Hfw) as Hok.
    exists (log ++ [(t, d)]). rewrite (conn_writer_none _ _ _ Hok). split; [done|].
    intros _. apply legal_dec in Hleg. simpl in Hleg. by rewrite Hleg.
Qed.

Lemma close_current_length s0 c log cur :
  conn_ok s0 c log cur -> length (mws (close_current c)) = length (mws c).
Proof.
  intros Hc. unfold close_current. destruct (writer c) as [h|] eqn:Hwr; [|done].
  unfold with_writer. destruct (mws c !! h) as [w|] eqn:Hw; [|done].
  destruct (mw_Close w c) as [[e w'] c2] eqn:Hfw. simpl. rewrite length_insert.
  destruct (mw_err w) as [e0|] eqn:He; [unfold mw_Close in Hfw; rewrite He in Hfw; by simplify_eq|].
  destruct (current_writer _ _ _ _ _ _ Hc Hw He) as (t & d & frag & -> & Hst & Hcur).
  eapply mw_Close_step in Hfw; [|done..].
  assert (static c c2) as (_ & _ & _ & _ & ->) by (destruct e; apply Hfw). done.
Qed.

Definition new_writer (t : Z) : messageWriter :=
  {| compress := false; pos := maxFrameHeaderSize; frameType := t; mw_err := None |}.

(** A buffer obtained for a new message. *)
Lemma fresh_buffer s0 c c' log t :
  conn_ok s0 c log None -> writeErr c = None -> isControl t = true \/ isData t = true ->
  wire (net c') = wire (net c) -> isServer c' = isServer c -> writeErr c' = writeErr c ->
  mws c' = mws c -> writer c' = writer c -> writeBufSize c' = writeBufSize c ->
  hasPool c' = hasPool c -> (maxFrameHeaderSize < length (writeBuf c'))%nat ->
  conn_ok s0 c' log None /\ stream s0 c' log None /\ cur_ok (new_writer t) c' t [] None.
Proof.
  intros (Hsz & Hb & Hws & frag & Hst & Hwn & Hfr) Hwe Ht H1 H2 H3 H4 H5 H6 H7 Hbig.
  assert (frag = None) as ->.
  { destruct Hfr as [|Hcl]; [done|]. destruct Hst as (? & _ & _ & _ & He & _). rewrite Hcl in He. congruence. }
  assert (Hst' : stream s0 c' log None).
  { destruct Hst as (fs & Hw & Hrest). exists fs. by rewrite H1, H2, H3. }
  split_and!; try done.
  - split_and!; [by rewrite H6, H7|by left|by rewrite H4, H5|]. exists None. rewrite H5. auto.
  - split; [|done]. unfold open_ok, opcode_ok. simpl. split_and!; try done; try lia. by right.
Qed.

(** A new message starts with an empty buffer that is large enough. *)
Lemma beginMessage_ok s0 c log cur t r c' :
  conn_ok s0 c log cur -> beginMessage t c = (r, c') ->
  match r with
  | Err _ => (exists log cur, conn_ok s0 c' log cur) \/ dead s0 c'
  | Ok w => w = new_writer t /\ isServer c' = isServer c /\ length (mws c') = length (mws c)
            /\ conn_ok s0 c' (finish_cur log cur) None
            /\ stream s0 c' (finish_cur log cur) None /\ cur_ok w c' t [] None
  end.
Proof.
  intros Hc Hr. unfold beginMessage in Hr. fold (close_current c) (new_writer t) in Hr.
  pose proof (close_current_ok s0 c log cur Hc) as [(Hsrv & _) Hcl].
  pose proof (close_current_length s0 c log cur Hc) as Hlen.
  set (c1 := close_current c) in *.
  destruct (_ && _) eqn:Ht in Hr.
  { simplify_eq. destruct Hcl as [|(log' & ? & _)]; [by right|left; eauto]. }
  assert (Htt : isControl t = true \/ isData t = true).
  { destruct (isControl t), (isData t); auto. }
  destruct (writeErr c1) as [e|] eqn:Hwe.
  { simplify_eq. destruct Hcl as [|(log' & ? & _)]; [by right|left; eauto]. }
  destruct Hcl as [(? & ? & ? & ? & ? & _ & _ & _ & _ & _ & ?)|(log' & Hok & Hlog)]; [congruence|].
  specialize (Hlog eq_refl) as ->. pose proof Hok as (Hsz & Hb & _).
  pose proof (poolGet_wire (net c1)) as Hpw. pose proof (poolGet_size (net c1)) as Hps.
  case_decide as Hbuf.
  2:{ simplify_eq. split; [done|]. split; [exact Hsrv|]. split; [exact Hlen|].
      eapply fresh_buffer; [exact Hok|try done..]. destruct Hb as [|[_ ?]]; done. }
  destruct (poolGet (net c1)) as [[b|] n]; simplify_eq; (split; [done|]; split; [exact Hsrv|]; split; [exact Hlen|]);
    (eapply fresh_buffer; [exact Hok|try done..]); simpl in *; auto.
  rewrite length_replicate. apply Hsz. by destruct Hb as [Hb|[? _]]; [rewrite Hbuf in Hb; simpl in Hb; lia|].
Qed.

Lemma NextWriter_ok s0 c log cur t r c' :
  conn_ok s0 c log cur -> NextWriter t c = (r, c') ->
  match r with
  | Err _ => (exists log cur, conn_ok s0 c' log cur) \/ dead s0 c'
  | Ok h => h = length (mws c) /\ isServer c' = isServer c
            /\ conn_ok s0 c' (finish_cur log cur) (Some (h, t, []))
  end.
Proof.
  intros Hc Hr. unfold NextWriter in Hr.
  destruct (beginMessage t c) as [[w|e] c1] eqn:Hb; eapply beginMessage_ok in Hb; try done;
    simplify_eq; [|done].
  destruct Hb as (-> & Hsrv & Hlen & (Hsz & Hbuf & Hws & frag & _ & Hwn & _) & Hst & Hcur).
  split; [done|]. split; [done|]. split_and!; [done|done| |].
  - simpl. intros h wh Hh Hn. apply lookup_app_Some in Hh as [Hh|[Hge Hh]].
    + specialize (Hws _ _ Hh Hn). congruence.
    + apply list_lookup_singleton_Some in Hh as [Hh _]. f_equal. lia.
  - exists None. split; [by eapply stream_ext|]. split; [done|]. exists (new_writer t).
    split; [|done]. simpl. by rewrite lookup_app_r, Nat.sub_diag by lia.
Qed.

(** A message written without a writer in the store. *)
Lemma conn_local s0 c c' log log' frag :
  conn_ok s0 c log None -> static c c' -> ended c' ->
  stream s0 c' log' frag -> (frag = None \/ closed log' = true) -> conn_ok s0 c' log' None.
Proof.
  intros (Hsz & Hb & Hws & ? & _ & Hwn & _) (_ & Hs2 & Hs3 & _ & Hs5) [Hn Hbuf] Hst Hfr.
  split_and!; [by rewrite Hs2, Hs3|done| |by exists frag].
  rewrite Hs5, Hn. intros h w Hh He. specialize (Hws _ _ Hh He). congruence.
Qed.

Lemma copy_at_take l i (b : bytes) : copy_at l i b = copy_at l i (take (Nat.min (length l - i) (length b)) b).
Proof.
  unfold copy_at. rewrite take_take. replace (Nat.min (length l - i) (Nat.min (length l - i) (length b)))
    with (Nat.min (length l - i) (length b)) by lia.
  destruct (decide (length l - i <= length b)%nat); [by rewrite Nat.min_l by lia|].
  rewrite Nat.min_r by lia. by rewrite (take_ge b (length l - i)), (take_ge b (length b)) by lia.
Qed.

Lemma WriteMessage_ok s0 c log cur n t p err c' :
  conn_ok s0 c log cur -> WriteMessage t p c = (err, c') ->
  result_ok s0 c' err (expected n (OpMessage t p) (log, cur)).
Proof.
  intros Hc Hr. unfold WriteMessage in Hr. destruct (isServer c) eqn:Hsrv.
  - destruct (beginMessage t c) as [[w|e] c1] eqn:Hb; eapply beginMessage_ok in Hb; try done;
      [|by simplify_eq].
    destruct Hb as (-> & Hsrv1 & _ & Hok & Hst & Hcur).
    rewrite copy_at_take in Hr. set (k := Nat.min _ _) in Hr.
    assert (Hk : length (take k p) = k) by (rewrite length_take; lia).
    rewrite <- Hk in Hr at 2.
    destruct (fill_step _ _ _ _ _ _ _ (take k p) Hst Hcur) as (Hst2 & Hw2 & frag2 & Hs2 & Hc2).
    { rewrite Hk. destruct Hcur as [(_&_&_&?&_) _]. lia. }
    destruct (flushFrame _ _ _ _) as [[e w3] c3] eqn:Hfl. simplify_eq.
    eapply flush_step in Hfl; [|exact Hs2|exact Hc2|simpl; congruence].
    assert (Hst3 : static c1 c') by (destruct err; eapply static_trans; [exact Hst2|apply Hfl|exact Hst2|apply Hfl]).
    destruct err as [e|].
    + destruct Hfl as (_ & _ & Hend & [(frag & Hs3 & Hfr)|]); [left|by right].
      exists (finish_cur log cur), None. by eapply conn_local.
    + destruct Hfl as (_ & _ & Hend & Hs3). simpl. rewrite app_nil_l, take_drop in Hs3.
      eapply conn_local; [done..|by left].
  - destruct (NextWriter t c) as [[h|e] c1] eqn:Hn; eapply NextWriter_ok in Hn; try done;
      [|by simplify_eq].
    destruct Hn as (-> & Hsrv1 & Hok).
    destruct (Writer_Write _ p c1) as [[e|] c2] eqn:Hw;
      eapply (Writer_Write_ok _ _ _ _ 0) in Hw; try exact Hok.
    + by simplify_eq.
    + simpl in Hw. rewrite decide_True in Hw by done.
      eapply (Writer_Close_ok _ _ _ _ 0) in Hr; [|exact Hw]. simpl in Hr.
      rewrite decide_True in Hr by done. done.
Qed.

Lemma WriteControl_ok s0 c log cur n t p d err c' :
  conn_ok s0 c log cur -> WriteControl t p d c = (err, c') ->
  result_ok s0 c' err (expected n (OpControl t p d) (log, cur)).
Proof.
  intros Hc Hr. apply WriteControl_spec in Hr as [Hon Hr].
  assert (Hsrv : isServer c' = isServer c) by (by rewrite Hon).
  destruct Hr as [(Hctl & Hlen & Hf & Hsent)|(Hne & Hwi & Hwe)].
  - assert (Hasm : forall frag, closed log = false ->
      assemble_frame (log, frag) (Frame true t (control_key c) p) = Some (log ++ [(t, p)], frag)).
    { intros frag Hcl. unfold assemble_frame. simpl. rewrite Hcl, Hctl.
      by rewrite (proj2 (Z.leb_le _ _) Hlen). }
    pose proof (fun frag Hst => stream_sent s0 c c' log frag _ _ err Hst (Hasm frag) Hf Hsrv Hsent)
      as Hstep. unfold result_ok. simpl. destruct err as [e|].
    + pose proof Hc as (_ & _ & _ & frag & Hst & _).
      destruct (Hstep frag Hst) as [[_ Hcl]|Hd]; [left|by right]. exists log, cur.
      eapply conn_same; [done|done| |done]. intros fr Hfr.
      destruct Hsent as (He & [[He0 Hwi]|[He0 _]]).
      * destruct Hfr as (fs & Hw & Hrest). exists fs. rewrite Hwi, Hsrv, He, <- He0. done.
      * destruct Hfr as (_ & _ & _ & _ & Hx & _). rewrite Hcl in Hx. congruence.
    + eapply conn_same; [done|done|done|]. rewrite closed_app. by intros ->.
  - unfold result_ok. destruct err; [left|done]. exists log, cur.
    eapply conn_same; [done|done| |done]. intros frag (fs & Hw & Hrest). exists fs.
    by rewrite Hwi, Hsrv, Hwe.
Qed.

(** Every operation keeps the connection in order or leaves it failed, and a
    successful one does what it is expected to. *)
Lemma run_op_ok s0 c log cur o err c' :
  conn_ok s0 c log cur -> run_op o c = (err, c') ->
  result_ok s0 c' err (expected (length (mws c)) o (log, cur)).
Proof.
  intros Hc Hr. destruct o; simpl in Hr.
  - by eapply WriteControl_ok.
  - destruct (NextWriter t c) as [[h|e] c1] eqn:Hn; apply (NextWriter_ok s0 c log cur) in Hn;
      try done; simplify_eq; [|done]. by destruct Hn as (-> & _ & ?).
  - by eapply Writer_Write_ok.
  - by eapply (Writer_WriteString_ok _ _ _ _ 0).
  - by eapply (Writer_ReadFrom_ok _ _ _ _ 0).
  - by eapply Writer_Close_ok.
  - by eapply WriteMessage_ok.
  - simplify_eq. by destruct c.
Qed.

(** ** After a fatal error *)

(** Nothing is sent, and the error stays. *)
Definition quiet c c' : Prop :=
  wire (net c') = wire (net c) /\ writeErr c' = writeErr c /\ isServer c' = isServer c.

Lemma quiet_trans c1 c2 c3 : quiet c1 c2 -> quiet c2 c3 -> quiet c1 c3.
Proof. unfold quiet. intros (?&?&?) (?&?&?). split_and!; congruence. Qed.

(** A preorder that holds for the changes of local state, for the use of the
    random source and of the pool, for setting the sticky error and for the two
    ways to send, holds for every operation. *)
Section Preserved.
Variable R : WConn W -> WConn W -> Prop.
Hypothesis R_trans : forall c1 c2 c3, R c1 c2 -> R c2 c3 -> R c1 c3.
Hypothesis R_local : forall c c',
  net c' = net c -> isServer c' = isServer c -> writeErr c' = writeErr c -> R c c'.
Hypothesis R_mask : forall c, R c (set_net (snd (newMaskKey (net c))) c).
Hypothesis R_get : forall c, R c (set_net (snd (poolGet (net c))) c).
Hypothesis R_put : forall b c, R c (set_net (poolPut b (net c)) c).
Hypothesis R_fatal : forall e c, R c (snd (writeFatal e c)).
Hypothesis R_write : forall t d b0 b1 c, R c (snd (write t d b0 b1 c)).
Hypothesis R_control : forall t p d c, R c (snd (WriteControl t p d c)).

Lemma endMessage_R e w c : R c (snd (endMessage e w c)).
Proof using R_fatal R_get R_local R_mask R_put R_trans R_write.
  unfold endMessage. destruct (mw_err w); [by apply R_local|]. simpl.
  destruct (hasPool c); [|by apply R_local].
  eapply R_trans; [apply (R_put (writeBuf c))|]. by apply R_local.
Qed.

Lemma flushFrame_R final extra w c : R c (snd (flushFrame final extra w c)).
Proof using R_fatal R_get R_local R_mask R_put R_trans R_write.
  unfold flushFrame. destruct (_ && _); [apply endMessage_R|].
  destruct (putHeader _ _ _ _ _) as [fp buf]. set (c1 := maskPayload _ _ _).
  assert (Hq : R c c1).
  { unfold c1, maskPayload. pose proof (R_mask c) as Hk.
    destruct (newMaskKey (net c)) as [key n], (negb (isServer c)); [|by apply R_local].
    eapply R_trans; [exact Hk|]. by apply R_local. }
  eapply R_trans; [exact Hq|]. unfold sendFrame. destruct (_ && _).
  - pose proof (R_fatal errInternalExtra c1) as Hf. destruct (writeFatal errInternalExtra c1) as [e c2].
    eapply R_trans; [exact Hf|apply endMessage_R].
  - match goal with |- context [write ?a ?b ?c ?d ?x] => pose proof (R_write a b c d x) as Hw;
      destruct (write a b c d x) as [[e|] c2] end; simpl in Hw.
    + eapply R_trans; [exact Hw|apply endMessage_R].
    + destruct final; [|done]. pose proof (endMessage_R errWriteClosed (mw_set_compress false w) c2).
      destruct (endMessage _ _ c2) as [[? ?] ?]. by eapply R_trans.
Qed.

Lemma write_loop_R fuel p : forall w c, R c (snd (write_loop fuel p w c)).
Proof using R_fatal R_get R_local R_mask R_put R_trans R_write.
  assert (Hrefl : forall c, R c c) by (intros; by apply R_local).
  revert p. induction fuel as [|fuel IH]; intros [|x p] w c; try apply Hrefl.
  cbn [write_loop]. set (xs := x :: p). unfold ncopy.
  pose proof (flushFrame_R false [] w c) as Hq. destruct (_ =? 0)%nat.
  - destruct (flushFrame false [] w c) as [[[e|] w1] c1]; simpl in Hq; [done|].
    eapply R_trans; [exact Hq|]. eapply R_trans; [|apply IH]. by apply R_local.
  - eapply R_trans; [|apply IH]. by apply R_local.
Qed.

Lemma readFrom_loop_R fuel rerr : forall chunks nn w c,
  R c (snd (readFrom_loop fuel chunks rerr nn w c)).
Proof using R_fatal R_get R_local R_mask R_put R_trans R_write.
  induction fuel as [|fuel IH]; intros chunks nn w c; [by apply R_local|]. cbn [readFrom_loop].
  assert (Hq : R c (snd (if (pos w =? length (writeBuf c))%nat
                         then flushFrame false [] w c else (None, w, c)))).
  { destruct (_ =? _)%nat; [by apply flushFrame_R|by apply R_local]. }
  destruct (if (_ =? _)%nat then _ else _) as [[[e|] w1] c1]; simpl in Hq; [done|].
  destruct (reader_Read _ _ _) as [[b [e|]] chunks']; (eapply R_trans; [exact Hq|]);
    [by apply R_local|]. eapply R_trans; [|apply IH]. by apply R_local.
Qed.

Lemma with_writer_R h f c : (forall w, R c (snd (f w c))) -> R c (snd (with_writer h f c)).
Proof using R_fatal R_get R_local R_mask R_put R_trans R_write.
  intros Hf. unfold with_writer. destruct (mws c !! h) as [w|]; [|by apply R_local].
  specialize (Hf w). destruct (f w c) as [[e w'] c']. eapply R_trans; [exact Hf|]. by apply R_local.
Qed.

Lemma mw_Write_R p w c : R c (snd (mw_Write p w c)).
Proof using R_fatal R_get R_local R_mask R_put R_trans R_write.
  unfold mw_Write. destruct (mw_err w); [by apply R_local|].
  destruct (_ && _); auto using flushFrame_R, write_loop_R.
Qed.

Lemma mw_Close_R w c : R c (snd (mw_Close w c)).
Proof using R_fatal R_get R_local R_mask R_put R_trans R_write.
  unfold mw_Close. destruct (mw_err w); [by apply R_local|]. by apply flushFrame_R.
Qed.

Lemma close_current_R c : R c (close_current c).
Proof using R_fatal R_get R_local R_mask R_put R_trans R_write.
  unfold close_current. destruct (writer c); [|by apply R_local].
  eapply R_trans; [apply with_writer_R; intros; apply mw_Close_R|]. by apply R_local.
Qed.

Lemma beginMessage_R t c : R c (snd (beginMessage t c)).
Proof using R_fatal R_get R_local R_mask R_put R_trans R_write.
  unfold beginMessage. fold (close_current c). pose proof (close_current_R c) as Hq.
  destruct (_ && _); [done|]. destruct (writeErr _); [done|].
  case_decide; [|done]. pose proof (R_get (close_current c)) as Hp.
  destruct (poolGet _) as [[b|] n]; (eapply R_trans; [exact Hq|]);
    (eapply R_trans; [exact Hp|]); by apply R_local.
Qed.

Lemma NextWriter_R t c : R c (snd (NextWriter t c)).
Proof using R_fatal R_get R_local R_mask R_put R_trans R_write.
  unfold NextWriter. pose proof (beginMessage_R t c) as Hb.
  destruct (beginMessage t c) as [[w|e] c1]; [|done]. eapply R_trans; [exact Hb|]. by apply R_local.
Qed.

Lemma WriteMessage_R t p c : R c (snd (WriteMessage t p c)).
Proof using R_fatal R_get R_local R_mask R_put R_trans R_write.
  unfold WriteMessage. destruct (isServer c).
  - pose proof (beginMessage_R t c) as Hb. destruct (beginMessage t c) as [[w|e] c1]; [|done].
    match goal with |- context [flushFrame ?a ?b ?x ?y] => pose proof (flushFrame_R a b x y) as Hf;
      destruct (flushFrame a b x y) as [[? ?] ?] end.
    eapply R_trans; [exact Hb|]. eapply R_trans; [|exact Hf]. by apply R_local.
  - pose proof (NextWriter_R t c) as Hn. destruct (NextWriter t c) as [[h|e] c1]; [|done].
    pose proof (with_writer_R h (mw_Write p) c1 (fun w => mw_Write_R p w c1)) as Hw.
    unfold Writer_Write. destruct (with_writer h (mw_Write p) c1) as [[e|] c2]; simpl in *;
      (eapply R_trans; [exact Hn|]); [done|].
    eapply R_trans; [exact Hw|]. apply with_writer_R. intros. apply mw_Close_R.
Qed.

Lemma run_op_R o c : R c (snd (run_op o c)).
Proof using R_control R_fatal R_get R_local R_mask R_put R_trans R_write.
  destruct o; simpl; try (apply with_writer_R; intros w).
  - apply R_control.
  - pose proof (NextWriter_R t c) as Hn. by destruct (NextWriter t c) as [[h|e] c1].
  - apply mw_Write_R.
  - unfold mw_WriteString. destruct (mw_err w); [by apply R_local|]. by apply write_loop_R.
  - unfold mw_ReadFrom. destruct (mw_err w); [by apply R_local|].
    pose proof (readFrom_loop_R (readFrom_fuel chunks) rerr chunks 0 w c) as Hq.
    by destruct (readFrom_loop _ _ _ _ _ _) as [[[? ?] ?] ?].
  - apply mw_Close_R.
  - apply WriteMessage_R.
  - by apply R_local.
Qed.

End Preserved.

(** A server stays a server. *)
Lemma run_op_server o c : isServer (snd (run_op o c)) = isServer c.
Proof.
  apply (run_op_R (fun c c' => isServer c' = isServer c)); try done; [congruence| | |].
  - intros e c0. unfold writeFatal. by destruct (writeErr c0).
  - intros t d b0 b1 c0. destruct (write t d b0 b1 c0) as [e c1] eqn:Hw.
    apply write_sent in Hw as [_ Hon]. simpl. by rewrite Hon.
  - intros t p d c0. destruct (WriteControl t p d c0) as [e c1] eqn:Hw.
    apply WriteControl_spec in Hw as [Hon _]. simpl. by rewrite Hon.
Qed.

Section Quiet.
Variable e0 : ws_error.

Definition quiet_if c c' : Prop := writeErr c = Some e0 -> quiet c c'.

Lemma quiet_if_trans c1 c2 c3 : quiet_if c1 c2 -> quiet_if c2 c3 -> quiet_if c1 c3.
Proof.
  intros H1 H2 He. pose proof (H1 He) as Hq. eapply quiet_trans; [done|].
  apply H2. by rewrite (proj1 (proj2 Hq)).
Qed.

Lemma quiet_if_local c c' :
  net c' = net c -> isServer c' = isServer c -> writeErr c' = writeErr c -> quiet_if c c'.
Proof. intros Hn Hs He _. unfold quiet. by rewrite Hn. Qed.

Lemma quiet_if_mask c : quiet_if c (set_net (snd (newMaskKey (net c))) c).
Proof. intros _. split_and!; try done. apply maskKey_wire. Qed.

Lemma quiet_if_get c : quiet_if c (set_net (snd (poolGet (net c))) c).
Proof. intros _. split_and!; try done. apply poolGet_wire. Qed.

Lemma quiet_if_put b c : quiet_if c (set_net (poolPut b (net c)) c).
Proof. intros _. split_and!; try done. apply poolPut_wire. Qed.

Lemma writeFatal_quiet e c : quiet_if c (snd (writeFatal e c)).
Proof. intros He. unfold writeFatal. by rewrite He. Qed.

Lemma write_quiet t d b0 b1 c : quiet_if c (snd (write t d b0 b1 c)).
Proof. intros He. unfold write, write_locked. by rewrite He. Qed.

Lemma WriteControl_quiet t p d c : quiet_if c (snd (WriteControl t p d c)).
Proof.
  intros He. destruct (WriteControl t p d c) as [err c'] eqn:Hr. simpl.
  apply WriteControl_spec in Hr as [Hon Hr].
  assert (Hs : isServer c' = isServer c) by (by rewrite Hon).
  destruct Hr as [(_ & _ & _ & Hsent)|(_ & ? & ?)]; [|done].
  destruct err as [e|]; [|destruct Hsent; congruence].
  destruct Hsent as (He' & [[? ?]|[? _]]); [|congruence]. split_and!; congruence.
Qed.

Lemma run_op_quiet o c : quiet_if c (snd (run_op o c)).
Proof.
  apply (run_op_R quiet_if); [apply quiet_if_trans|apply quiet_if_local|apply quiet_if_mask|
    apply quiet_if_get|apply quiet_if_put|apply writeFatal_quiet|apply write_quiet|
    apply WriteControl_quiet].
Qed.

Lemma beginMessage_quiet t c :
  writeErr c = Some e0 ->
  fst (beginMessage t c) = Err (if negb (isControl t) && negb (isData t)
                                then errBadWriteOpCode else e0).
Proof.
  intros He. unfold beginMessage. fold (close_current c).
  assert (Hq : quiet c (close_current c)).
  { apply (close_current_R quiet_if); [apply quiet_if_trans|apply quiet_if_local|apply quiet_if_mask|
    apply quiet_if_get|apply quiet_if_put|apply writeFatal_quiet|apply write_quiet|done]. }
  destruct (_ && _); simpl; [done|]. by rewrite (proj1 (proj2 Hq)), He.
Qed.

End Quiet.

(** * Theorems about the write half *)

(** An application's steps: operations in any order, with any arguments, and
    changes of the environment in between, such as the clock. *)
Inductive wstep : WConn W -> WConn W -> Prop :=
| step_op o c : wstep c (snd (run_op o c))
| step_env n c : wire n = wire (net c) -> wstep c (set_net n c).

(** A buffer that the caller passes in is large enough, or nil. *)
Definition given_ok (writeBuf : bytes) : Prop :=
  writeBuf = [] \/ (maxFrameHeaderSize < length writeBuf)%nat.

Lemma newWConn_ok srv size pool buf n :
  given_ok buf -> conn_ok (wire n) (newWConn srv size pool buf n) [] None.
Proof.
  intros Hb. unfold conn_ok, newWConn, buf_ok. cbn [writeBufSize writeBuf hasPool mws writer].
  assert (Hsz : forall z : Z,
    (maxFrameHeaderSize < Z.to_nat (if (z <=? 0)%Z then defaultWriteBufferSize else z) + maxFrameHeaderSize)%nat).
  { intros z. unfold defaultWriteBufferSize. destruct (Z.leb_spec z 0); lia. }
  split_and!; [intros _; apply Hsz| |done|].
  - case_decide as Hd; [left; rewrite length_replicate; apply Hsz|].
    destruct Hb as [->|]; [right|by left]. split; [|done]. destruct pool; [done|tauto].
  - exists None. split; [|auto]. exists []. simpl. rewrite app_nil_r. split_and!; done.
Qed.

Lemma dead_quiet s0 c c' : dead s0 c -> quiet c c' -> dead s0 c'.
Proof.
  unfold dead. intros (fs & st & f & n & e & Hd) (Hw & He & Hs). exists fs, st, f, n, e.
  by rewrite Hw, He, Hs.
Qed.

Lemma wstep_ok s0 c c' :
  (exists log cur, conn_ok s0 c log cur) \/ dead s0 c -> wstep c c' ->
  (exists log cur, conn_ok s0 c' log cur) \/ dead s0 c'.
Proof.
  intros Hc Hs. destruct Hs as [o c|n c Hn].
  - destruct Hc as [(log & cur & Hc)|Hd].
    + destruct (run_op o c) as [err c1] eqn:Hr. apply (run_op_ok s0 c log cur) in Hr; [|done].
      destruct err as [e|]; simpl in *; [done|left; eauto].
    + right. pose proof Hd as (_ & _ & _ & _ & e & _ & _ & _ & _ & _ & He).
      eapply dead_quiet; [exact Hd|]. by apply (run_op_quiet e).
  - destruct Hc as [(log & cur & Hc)|Hd].
    + left. exists log, cur. eapply conn_same; [done|by destruct c| |done].
      intros frag (fs & Hw & Hrest). exists fs. simpl. by rewrite Hn, Hw.
    + right. eapply dead_quiet; [done|]. done.
Qed.

(** What an observer of the wire sees: whole frames that follow the rules of
    RFC 6455 about fragmentation, control frames, masking and the end of the
    connection, and at most one incomplete frame, after which nothing more is
    sent. *)
Definition stream_wellformed (s0 : bytes) c : Prop :=
  exists fs log frag tail,
    wire (net c) = s0 ++ concat (encode_frame <$> fs) ++ tail
    /\ Forall (frame_ok (isServer c)) fs
    /\ assemble ([], None) fs = Some (log, frag)
    /\ (tail = [] \/ (exists f n, tail = take n (encode_frame f) /\ frame_ok (isServer c) f
                         /\ is_Some (assemble_frame (log, frag) f)) /\ writeErr c <> None)
    /\ (closed log = true -> writeErr c <> None).

Lemma stream_wellformed_ok s0 c :
  (exists log cur, conn_ok s0 c log cur) \/ dead s0 c -> stream_wellformed s0 c.
Proof.
  intros [(log & cur & _ & _ & _ & frag & (fs & Hw & Hfs & Ha & He & _) & _)|Hd].
  - exists fs, log, frag, []. rewrite app_nil_r. split_and!; try done; [by left|].
    intros Hcl. by rewrite He, Hcl.
  - destruct Hd as (fs & [log frag] & f & n & e & Hw & Hfs & Hf & Ha & Hsome & He).
    exists fs, log, frag, (take n (encode_frame f)). rewrite He. split_and!; try done.
    right. eauto 10.
Qed.

(** Whatever an application does with a connection, [WritePreparedMessage] apart (WsPrepared.v has
    what it does and how it can break the order of frames), in any order and with
    any arguments (writers that it abandons, keeps using after their message,
    control frames in the middle of messages, messages of a bad type, control
    messages that are too long), the bytes it sends are a stream of complete
    frames with the right masking whose fragments, control frames and close
    frame are where RFC 6455 allows them; only after an error of the network
    can an incomplete frame follow, as the last thing ever sent. *)
Theorem write_stream_wellformed srv size pool buf n c :
  given_ok buf -> rtc wstep (newWConn srv size pool buf n) c ->
  stream_wellformed (wire n) c.
Proof.
  intros Hb Hs. apply stream_wellformed_ok.
  assert (H1 : (exists log cur, conn_ok (wire n) (newWConn srv size pool buf n) log cur)
               \/ dead (wire n) (newWConn srv size pool buf n)) by eauto using newWConn_ok.
  induction Hs; eauto using wstep_ok.
Qed.

Lemma wsteps_quiet e c c' :
  writeErr c = Some e -> rtc wstep c c' -> quiet c c'.
Proof.
  intros He Hs. induction Hs as [c|c1 c2 c3 Hs _ IH]; [done|].
  assert (Hq : quiet c1 c2).
  { destruct Hs; [by eapply run_op_quiet|by split_and!]. }
  eapply quiet_trans; [done|]. apply IH. destruct Hq as (_ & -> & _). done.
Qed.

(** After a close frame has been sent, or after the network has failed, no
    operation sends another byte, whatever the application does, and new
    messages are refused with the error. *)
Theorem nothing_after_close c e c' t p :
  writeErr c = Some e -> isControl t = true \/ isData t = true ->
  rtc wstep c c' ->
  wire (net c') = wire (net c) /\ writeErr c' = Some e
  /\ fst (WriteMessage t p c') = Some e /\ fst (NextWriter t c') = Err e.
Proof.
  intros He Ht Hs. destruct (wsteps_quiet _ _ _ He Hs) as (Hw & He' & _).
  pose proof (beginMessage_quiet e t c' ltac:(congruence)) as Hb.
  replace (negb (isControl t) && negb (isData t)) with false in Hb
    by (destruct Ht as [->| ->]; by destruct (isControl t)).
  split_and!; [done|congruence| |].
  - unfold WriteMessage, NextWriter. destruct (beginMessage t c'). simpl in *. subst.
    by destruct (isServer c').
  - unfold NextWriter. destruct (beginMessage t c'). simpl in *. by subst.
Qed.

End WriteProofs.

(** * A connection in memory *)

(** A network that accepts everything and keeps it, as [prepareConn] of
    prepared.go does; every frame gets the key of the example in RFC 6455. *)
Module BufferNet.

Definition key : bytes := [55; 250; 33; 61].

#[export] Instance env : WsEnv bytes := {|
  netWrite b w := (None, w ++ b);
  netSetWriteDeadline _ w := (None, w);
  newMaskKey w := (key, w);
  timeNow _ := 1;
  muWait _ := 0;
  poolGet w := (None, w);
  poolPut _ w := w |}.

#[export] Instance laws : WsEnvLaws bytes.
Proof.
  refine {| wire := fun w : bytes => w |}; simpl; intros; simplify_eq; try done.
  split; [|done]. repeat constructor; unfold byte_ok; lia.
Defined.

End BufferNet.
Import BufferNet.

(** A client that writes a text message in two fragments, with a ping
    between. *)
Definition client0 : WConn bytes := newWConn false 4 false [] [].
Definition client_ops : list wop :=
  [OpNext TextMessage; OpWrite 0 [104; 101; 108; 108; 111]; OpControl PingMessage [33] 0; OpClose 0].
Definition run_ops {W} `{WsEnv W} (os : list wop) (c : WConn W) : WConn W :=
  foldl (fun c o => snd (run_op o c)) c os.

Lemma run_ops_rtc {W} `{WsEnvLaws W} os (c : WConn W) : rtc wstep c (run_ops os c).
Proof.
  revert c. induction os as [|o os IH]; intros c; [done|].
  eapply rtc_l; [apply (step_op o)|apply IH].
Qed.

Lemma write_stream_wellformed_witness :
  given_ok [] /\ rtc wstep client0 (run_ops client_ops client0)
  /\ stream_wellformed (wire []) (run_ops client_ops client0).
Proof.
  split; [by left|]. split; [apply run_ops_rtc|].
  apply (write_stream_wellformed false 4 false [] []); [by left|apply run_ops_rtc].
Defined.

Definition closed_client : WConn bytes :=
  snd (run_op (OpControl CloseMessage (FormatCloseMessage CloseNormalClosure []) 0) client0).

Lemma nothing_after_close_witness :
  writeErr closed_client = Some ErrCloseSent
  /\ wire (net (run_ops client_ops closed_client)) = wire (net closed_client).
Proof.
  split; [reflexivity|].
  apply (nothing_after_close closed_client ErrCloseSent _ TextMessage []);
    [reflexivity|by right|apply run_ops_rtc].
Defined.

(** The bytes of that message: a text frame, the ping and the continuation. *)
Example client_frames :
  net (run_ops client_ops client0)
  = [1; 132; 55; 250; 33; 61; 95; 159; 77; 81] ++ [137; 129; 55; 250; 33; 61; 22]
    ++ [128; 129; 55; 250; 33; 61; 88].
Proof. reflexivity. Qed.
