(* ===== verification/WsRead.v ===== *)
(** The read half of a WebSocket connection: lib/websocket/conn.go.

    [Conn] holds the write half ([WConn]), to which the default handlers and
    the protocol errors write control frames, and the fields that conn.go lists
    under "Read fields".  The buffered reader [br] is the bytes that will still
    arrive ([input]), the error that follows them, and [feed], which says how
    many bytes each [Read] of the network delivers.  The loops of the code end
    because every frame takes at least two bytes; their fuel is the length of
    the input.

    Compression is not negotiated, so a frame with RSV1 set is an error. *)

From S2P Require Import Prelude GoNet WsMask WsWrite WsStream.

(** * Close codes and UTF-8 *)

Definition validReceivedCloseCodes : list (Z * bool) :=
  [(CloseNormalClosure, true); (CloseGoingAway, true); (CloseProtocolError, true);
   (CloseUnsupportedData, true); (CloseNoStatusReceived, false);
   (CloseAbnormalClosure, false); (CloseInvalidFramePayloadData, true);
   (ClosePolicyViolation, true); (CloseMessageTooBig, true);
   (CloseMandatoryExtension, true); (CloseInternalServerErr, true);
   (CloseServiceRestart, true); (CloseTryAgainLater, true); (CloseTLSHandshake, false)].

Definition isValidReceivedCloseCode (code : Z) : bool :=
  match find (fun p => fst p =? code) validReceivedCloseCodes with
  | Some (_, b) => b
  | None => false
  end || ((3000 <=? code) && (code <=? 4999)).

(** [utf8.ValidString]: the number of continuation bytes and the range of the
    first of them, by the leading byte. *)
Definition utf8_lead (b : Z) : option (nat * Z * Z) :=
  if b <? 128 then Some (0%nat, 0, 0)
  else if (194 <=? b) && (b <=? 223) then Some (1%nat, 128, 191)
  else if b =? 224 then Some (2%nat, 160, 191)
  else if (225 <=? b) && (b <=? 236) then Some (2%nat, 128, 191)
  else if b =? 237 then Some (2%nat, 128, 159)
  else if (238 <=? b) && (b <=? 239) then Some (2%nat, 128, 191)
  else if b =? 240 then Some (3%nat, 144, 191)
  else if (241 <=? b) && (b <=? 243) then Some (3%nat, 128, 191)
  else if b =? 244 then Some (3%nat, 128, 143)
  else None.

(** [more], [lo] and [hi]: continuation bytes still expected, and the range of
    the next one. *)
Fixpoint utf8_valid (more : nat) (lo hi : Z) (s : bytes) : bool :=
  match s, more with
  | [], O => true
  | [], S _ => false
  | b :: s', O =>
      match utf8_lead b with
      | Some (n, lo, hi) => utf8_valid n lo hi s'
      | None => false
      end
  | b :: s', S n => (lo <=? b) && (b <=? hi) && utf8_valid n 128 191 s'
  end.

Definition ValidString (s : bytes) : bool := utf8_valid 0 0 0 s.

(** [IsCloseError] and [IsUnexpectedCloseError]. *)
Definition IsCloseError (err : ws_error) (codes : list Z) : bool :=
  match err with
  | CloseError code _ => existsb (fun c => code =? c) codes
  | _ => false
  end.
Definition IsUnexpectedCloseError (err : ws_error) (codes : list Z) : bool :=
  match err with
  | CloseError code _ => negb (existsb (fun c => code =? c) codes)
  | _ => false
  end.

(** * State *)

Definition errUnexpectedEOF : ws_error :=
  CloseError CloseAbnormalClosure (bytes_of_string "unexpected EOF").

Record Conn (W : Type) := {
  wconn : WConn W;
  input : bytes;
  inputErr : ws_error;
  brSize : nat;
  feed : list (nat * bool);
  readErr : option ws_error;
  readRemaining : Z;
  readFinal : bool;
  readLength : Z;
  readLimit : Z;
  readMaskPos : Z;
  readMaskKey : bytes;
  handlePong : bytes -> WConn W -> option ws_error * WConn W;
  handlePing : bytes -> WConn W -> option ws_error * WConn W;
  handleClose : Z -> bytes -> WConn W -> option ws_error * WConn W;
  readErrCount : Z;
  messageReader : option nat;
  readers : nat;
}.
Arguments wconn {W} _.
Arguments input {W} _.
Arguments inputErr {W} _.
Arguments brSize {W} _.
Arguments feed {W} _.
Arguments readErr {W} _.
Arguments readRemaining {W} _.
Arguments readFinal {W} _.
Arguments readLength {W} _.
Arguments readLimit {W} _.
Arguments readMaskPos {W} _.
Arguments readMaskKey {W} _.
Arguments handlePong {W} _ _ _.
Arguments handlePing {W} _ _ _.
Arguments handleClose {W} _ _ _ _.
Arguments readErrCount {W} _.
Arguments messageReader {W} _.
Arguments readers {W} _.

Section ReadSetters.
Context {W : Type}.
Implicit Types c : Conn W.

Definition r_set_wconn v c : Conn W := {| wconn := v; input := input c; inputErr := inputErr c;
  brSize := brSize c; feed := feed c; readErr := readErr c; readRemaining := readRemaining c;
  readFinal := readFinal c; readLength := readLength c; readLimit := readLimit c; readMaskPos :=
  readMaskPos c; readMaskKey := readMaskKey c; handlePong := handlePong c; handlePing :=
  handlePing c; handleClose := handleClose c; readErrCount := readErrCount c; messageReader :=
  messageReader c; readers := readers c |}.
Definition r_set_input v c : Conn W := {| wconn := wconn c; input := v; inputErr := inputErr c;
  brSize := brSize c; feed := feed c; readErr := readErr c; readRemaining := readRemaining c;
  readFinal := readFinal c; readLength := readLength c; readLimit := readLimit c; readMaskPos :=
  readMaskPos c; readMaskKey := readMaskKey c; handlePong := handlePong c; handlePing :=
  handlePing c; handleClose := handleClose c; readErrCount := readErrCount c; messageReader :=
  messageReader c; readers := readers c |}.
Definition r_set_feed v c : Conn W := {| wconn := wconn c; input := input c; inputErr :=
  inputErr c; brSize := brSize c; feed := v; readErr := readErr c; readRemaining := readRemaining
  c; readFinal := readFinal c; readLength := readLength c; readLimit := readLimit c; readMaskPos
  := readMaskPos c; readMaskKey := readMaskKey c; handlePong := handlePong c; handlePing :=
  handlePing c; handleClose := handleClose c; readErrCount := readErrCount c; messageReader :=
  messageReader c; readers := readers c |}.
Definition r_set_readErr v c : Conn W := {| wconn := wconn c; input := input c; inputErr :=
  inputErr c; brSize := brSize c; feed := feed c; readErr := v; readRemaining := readRemaining c;
  readFinal := readFinal c; readLength := readLength c; readLimit := readLimit c; readMaskPos :=
  readMaskPos c; readMaskKey := readMaskKey c; handlePong := handlePong c; handlePing :=
  handlePing c; handleClose := handleClose c; readErrCount := readErrCount c; messageReader :=
  messageReader c; readers := readers c |}.
Definition r_set_remaining v c : Conn W := {| wconn := wconn c; input := input c; inputErr :=
  inputErr c; brSize := brSize c; feed := feed c; readErr := readErr c; readRemaining := v;
  readFinal := readFinal c; readLength := readLength c; readLimit := readLimit c; readMaskPos :=
  readMaskPos c; readMaskKey := readMaskKey c; handlePong := handlePong c; handlePing :=
  handlePing c; handleClose := handleClose c; readErrCount := readErrCount c; messageReader :=
  messageReader c; readers := readers c |}.
Definition r_set_final v c : Conn W := {| wconn := wconn c; input := input c; inputErr :=
  inputErr c; brSize := brSize c; feed := feed c; readErr := readErr c; readRemaining :=
  readRemaining c; readFinal := v; readLength := readLength c; readLimit := readLimit c;
  readMaskPos := readMaskPos c; readMaskKey := readMaskKey c; handlePong := handlePong c;
  handlePing := handlePing c; handleClose := handleClose c; readErrCount := readErrCount c;
  messageReader := messageReader c; readers := readers c |}.
Definition r_set_readLength v c : Conn W := {| wconn := wconn c; input := input c; inputErr :=
  inputErr c; brSize := brSize c; feed := feed c; readErr := readErr c; readRemaining :=
  readRemaining c; readFinal := readFinal c; readLength := v; readLimit := readLimit c;
  readMaskPos := readMaskPos c; readMaskKey := readMaskKey c; handlePong := handlePong c;
  handlePing := handlePing c; handleClose := handleClose c; readErrCount := readErrCount c;
  messageReader := messageReader c; readers := readers c |}.
Definition r_set_readLimit v c : Conn W := {| wconn := wconn c; input := input c; inputErr :=
  inputErr c; brSize := brSize c; feed := feed c; readErr := readErr c; readRemaining :=
  readRemaining c; readFinal := readFinal c; readLength := readLength c; readLimit := v;
  readMaskPos := readMaskPos c; readMaskKey := readMaskKey c; handlePong := handlePong c;
  handlePing := handlePing c; handleClose := handleClose c; readErrCount := readErrCount c;
  messageReader := messageReader c; readers := readers c |}.
Definition r_set_maskPos v c : Conn W := {| wconn := wconn c; input := input c; inputErr :=
  inputErr c; brSize := brSize c; feed := feed c; readErr := readErr c; readRemaining :=
  readRemaining c; readFinal := readFinal c; readLength := readLength c; readLimit := readLimit c;
  readMaskPos := v; readMaskKey := readMaskKey c; handlePong := handlePong c; handlePing :=
  handlePing c; handleClose := handleClose c; readErrCount := readErrCount c; messageReader :=
  messageReader c; readers := readers c |}.
Definition r_set_maskKey v c : Conn W := {| wconn := wconn c; input := input c; inputErr :=
  inputErr c; brSize := brSize c; feed := feed c; readErr := readErr c; readRemaining :=
  readRemaining c; readFinal := readFinal c; readLength := readLength c; readLimit := readLimit c;
  readMaskPos := readMaskPos c; readMaskKey := v; handlePong := handlePong c; handlePing :=
  handlePing c; handleClose := handleClose c; readErrCount := readErrCount c; messageReader :=
  messageReader c; readers := readers c |}.
Definition r_set_handlePong v c : Conn W := {| wconn := wconn c; input := input c; inputErr :=
  inputErr c; brSize := brSize c; feed := feed c; readErr := readErr c; readRemaining :=
  readRemaining c; readFinal := readFinal c; readLength := readLength c; readLimit := readLimit c;
  readMaskPos := readMaskPos c; readMaskKey := readMaskKey c; handlePong := v; handlePing :=
  handlePing c; handleClose := handleClose c; readErrCount := readErrCount c; messageReader :=
  messageReader c; readers := readers c |}.
Definition r_set_handlePing v c : Conn W := {| wconn := wconn c; input := input c; inputErr :=
  inputErr c; brSize := brSize c; feed := feed c; readErr := readErr c; readRemaining :=
  readRemaining c; readFinal := readFinal c; readLength := readLength c; readLimit := readLimit c;
  readMaskPos := readMaskPos c; readMaskKey := readMaskKey c; handlePong := handlePong c;
  handlePing := v; handleClose := handleClose c; readErrCount := readErrCount c; messageReader :=
  messageReader c; readers := readers c |}.
Definition r_set_handleClose v c : Conn W := {| wconn := wconn c; input := input c; inputErr :=
  inputErr c; brSize := brSize c; feed := feed c; readErr := readErr c; readRemaining :=
  readRemaining c; readFinal := readFinal c; readLength := readLength c; readLimit := readLimit c;
  readMaskPos := readMaskPos c; readMaskKey := readMaskKey c; handlePong := handlePong c;
  handlePing := handlePing c; handleClose := v; readErrCount := readErrCount c; messageReader :=
  messageReader c; readers := readers c |}.
Definition r_set_errCount v c : Conn W := {| wconn := wconn c; input := input c; inputErr :=
  inputErr c; brSize := brSize c; feed := feed c; readErr := readErr c; readRemaining :=
  readRemaining c; readFinal := readFinal c; readLength := readLength c; readLimit := readLimit c;
  readMaskPos := readMaskPos c; readMaskKey := readMaskKey c; handlePong := handlePong c;
  handlePing := handlePing c; handleClose := handleClose c; readErrCount := v; messageReader :=
  messageReader c; readers := readers c |}.
Definition r_set_messageReader v c : Conn W := {| wconn := wconn c; input := input c; inputErr
  := inputErr c; brSize := brSize c; feed := feed c; readErr := readErr c; readRemaining :=
  readRemaining c; readFinal := readFinal c; readLength := readLength c; readLimit := readLimit c;
  readMaskPos := readMaskPos c; readMaskKey := readMaskKey c; handlePong := handlePong c;
  handlePing := handlePing c; handleClose := handleClose c; readErrCount := readErrCount c;
  messageReader := v; readers := readers c |}.
Definition r_set_readers v c : Conn W := {| wconn := wconn c; input := input c; inputErr :=
  inputErr c; brSize := brSize c; feed := feed c; readErr := readErr c; readRemaining :=
  readRemaining c; readFinal := readFinal c; readLength := readLength c; readLimit := readLimit c;
  readMaskPos := readMaskPos c; readMaskKey := readMaskKey c; handlePong := handlePong c;
  handlePing := handlePing c; handleClose := handleClose c; readErrCount := readErrCount c;
  messageReader := messageReader c; readers := v |}.

End ReadSetters.

(** * Reading as a computation *)

(** A step of the read half: a value or an error, and the connection. *)
Definition RM (W A : Type) : Type := Conn W -> result ws_error A * Conn W.

Section Monad.
Context {W : Type}.

Definition rret {A} (a : A) : RM W A := fun c => (Ok a, c).
Definition rbind {A B} (m : RM W A) (k : A -> RM W B) : RM W B := fun c =>
  match m c with
  | (Ok a, c) => k a c
  | (Err e, c) => (Err e, c)
  end.
Definition rthrow {A} (e : ws_error) : RM W A := fun c => (Err e, c).
Definition rget : RM W (Conn W) := fun c => (Ok c, c).
Definition rmodify (f : Conn W -> Conn W) : RM W unit := fun c => (Ok tt, f c).

End Monad.

Declare Scope rm_scope.
Delimit Scope rm_scope with rm.
Notation "'let!' x := m 'in' k" := (rbind m (fun x => k))
  (at level 200, x name, m at level 100, k at level 200, right associativity) : rm_scope.
Open Scope rm_scope.

(** [strings.Join]. *)
Fixpoint Join (l : list string) (sep : string) : string :=
  match l with
  | [] => ""
  | [s] => s
  | s :: l' => s +:+ sep +:+ Join l' sep
  end.

Section Read.
Context {W : Type} `{WsEnv W}.
Implicit Types c : Conn W.

(** ** The buffered reader *)

Definition br_Peek (n : nat) c : bytes * option ws_error :=
  if (brSize c <? n)%nat then (take (brSize c) (input c), Some bufio_ErrBufferFull)
  else if (n <=? length (input c))%nat then (take n (input c), None)
  else (input c, Some (inputErr c)).

(** [Conn.read]; the bytes are meaningful together with an error, too. *)
Definition read (n : nat) c : bytes * option ws_error * Conn W :=
  let '(p, err) := br_Peek n c in
  let err := if decide (err = Some io_EOF) then Some errUnexpectedEOF else err in
  (p, err, r_set_input (drop (length p) (input c)) c).

Definition readN (n : nat) : RM W bytes := fun c =>
  match read n c with
  | (p, None, c) => (Ok p, c)
  | (_, Some err, c) => (Err err, c)
  end.

(** [br.Read] into a slice of [m] bytes: at least one byte if there is room
    and input, and the error together with the last bytes or after them. *)
Definition br_Read (m : nat) c : bytes * option ws_error * Conn W :=
  let '(k, early) := match feed c with x :: _ => x | [] => (length (input c), false) end in
  let c' := r_set_feed (tail (feed c)) c in
  match input c with
  | [] => ([], if (0 <? m)%nat || early then Some (inputErr c) else None, c')
  | _ =>
      let n := Nat.min (Nat.max 1 k) (Nat.min m (length (input c))) in
      (take n (input c),
       if (n =? length (input c))%nat && early then Some (inputErr c) else None,
       r_set_input (drop n (input c)) c')
  end.

(** [setReadRemaining]. *)
Definition setReadRemaining (n : Z) : RM W unit :=
  if n <? 0 then rthrow ErrReadLimit else rmodify (r_set_remaining n).

(** [_ = c.WriteControl(...)], within a second. *)
Definition sendControl (messageType : Z) (data : bytes) (w : WConn W) : WConn W :=
  snd (WriteControl messageType data (timeNow (net w) + writeWait) w).

Definition handleProtocolError {A} (message : string) : RM W A :=
  let data := FormatCloseMessage CloseProtocolError (bytes_of_string message) in
  let data := take 125 data in
  let! _ := rmodify (fun c => r_set_wconn (sendControl CloseMessage data (wconn c)) c) in
  rthrow (errProtocol message).

(** ** [advanceFrame] *)

(** 1. Skip the remainder of the previous frame: [io.CopyN(io.Discard, ...)]. *)
Definition skipFrame : RM W unit := fun c =>
  if 0 <? readRemaining c then
    if readRemaining c <=? blen (input c) then
      (Ok tt, r_set_input (drop (Z.to_nat (readRemaining c)) (input c)) c)
    else (Err (inputErr c), r_set_input [] c)
  else (Ok tt, c).

Definition bit_set (b mask : Z) : bool := negb (Z.land b mask =? 0).

(** 2. The errors of the first two bytes [b0] and [b1] of a header. *)
Definition headerErrors (server readFinal : bool) (b0 b1 : Z) : list string :=
  let frameType := Z.land b0 15 in
  let final := bit_set b0 finalBit in
  (if bit_set b0 rsv1Bit then ["RSV1 set"] else [])
  ++ (if bit_set b0 rsv2Bit then ["RSV2 set"] else [])
  ++ (if bit_set b0 rsv3Bit then ["RSV3 set"] else [])
  ++ (if isControl frameType then
        (if maxControlFramePayloadSize <? Z.land b1 127 then ["len > 125 for control"] else [])
        ++ (if negb final then ["FIN not set on control"] else [])
      else if isData frameType then
        (if negb readFinal then ["data before FIN"] else [])
      else if frameType =? continuationFrame then
        (if readFinal then ["continuation after FIN"] else [])
      else [("bad opcode " +:+ NetIP.dec frameType)%string])
  ++ (if negb (Bool.eqb (bit_set b1 maskBit) server) then ["bad MASK"] else []).

Definition isMessageFrame (frameType : Z) : bool :=
  (frameType =? continuationFrame) || isData frameType.

(** 3. The extended length. *)
Definition readExtendedLength : RM W unit :=
  let! c := rget in
  if readRemaining c =? 126 then
    let! p := readN 2 in setReadRemaining (getUint16 p)
  else if readRemaining c =? 127 then
    let! p := readN 8 in setReadRemaining (i64 (getUint64 p))
  else rret tt.

(** 4. The masking key. *)
Definition readMask (mask : bool) : RM W unit :=
  if mask then
    let! _ := rmodify (r_set_maskPos 0) in
    let! p := readN 4 in
    rmodify (r_set_maskKey p)
  else rret tt.

(** 5. The read limit, for frames of messages. *)
Definition enforceLimit (frameType : Z) : RM W Z :=
  let! _ := rmodify (fun c => r_set_readLength (i64 (readLength c + readRemaining c)) c) in
  let! c := rget in
  if readLength c <? 0 then rthrow ErrReadLimit
  else if (0 <? readLimit c) && (readLimit c <? readLength c) then
    let! _ := rmodify (fun c => r_set_wconn
        (sendControl CloseMessage (FormatCloseMessage CloseMessageTooBig []) (wconn c)) c) in
    rthrow ErrReadLimit
  else rret frameType.

(** 6. The payload of a control frame. *)
Definition readControlPayload : RM W bytes := fun c =>
  if 0 <? readRemaining c then
    let '(payload, err, c) := read (Z.to_nat (readRemaining c)) c in
    let c := r_set_remaining 0 c in
    match err with
    | Some err => (Err err, c)
    | None =>
        (Ok (if isServer (wconn c) then fst (Safe.maskBytes (readMaskKey c) 0 payload) else payload), c)
    end
  else (Ok [], c).

(** A handler of the application runs on the write half. *)
Definition callHandler (h : WConn W -> option ws_error * WConn W) : RM W unit := fun c =>
  match h (wconn c) with
  | (None, w) => (Ok tt, r_set_wconn w c)
  | (Some err, w) => (Err err, r_set_wconn w c)
  end.

(** 7. Process a control frame. *)
Definition processControl (frameType : Z) (payload : bytes) : RM W Z :=
  let! c := rget in
  if frameType =? PongMessage then
    let! _ := callHandler (handlePong c payload) in rret frameType
  else if frameType =? PingMessage then
    let! _ := callHandler (handlePing c payload) in rret frameType
  else if frameType =? CloseMessage then
    let close closeCode closeText :=
      let! _ := callHandler (handleClose c closeCode closeText) in
      rthrow (CloseError closeCode closeText) in
    if 2 <=? blen payload then
      let closeCode := getUint16 payload in
      if negb (isValidReceivedCloseCode closeCode) then
        handleProtocolError ("bad close code " +:+ NetIP.dec closeCode)
      else
        let closeText := drop 2 payload in
        if negb (ValidString closeText) then
          handleProtocolError "invalid utf8 payload in close frame"
        else close closeCode closeText
    else close CloseNoStatusReceived []
  else rret frameType.

(** [Conn.advanceFrame]. *)
Definition advanceFrame : RM W Z :=
  let! _ := skipFrame in
  let! p := readN 2 in
  let b0 := byte_at p 0 in
  let b1 := byte_at p 1 in
  let frameType := Z.land b0 15 in
  let! _ := rmodify (r_set_remaining (Z.land b1 127)) in
  let! c := rget in
  let! _ := rmodify (if isMessageFrame frameType
                     then r_set_final (bit_set b0 finalBit) else fun c => c) in
  match headerErrors (isServer (wconn c)) (readFinal c) b0 b1 with
  | [] =>
      let! _ := readExtendedLength in
      let! _ := readMask (bit_set b1 maskBit) in
      if isMessageFrame frameType then enforceLimit frameType
      else
        let! payload := readControlPayload in
        processControl frameType payload
  | errors => handleProtocolError (Join errors ", ")
  end.

(** ** [NextReader] *)

(** [for c.readErr == nil { ... }]; the frame type when a message starts. *)
Fixpoint nextReader_loop (fuel : nat) c : option Z * Conn W :=
  match readErr c with
  | Some _ => (None, c)
  | None =>
      match fuel with
      | O => (None, r_set_readErr (Some out_of_fuel) c)
      | S fuel =>
          match advanceFrame c with
          | (Err err, c) => (None, r_set_readErr (Some err) c)
          | (Ok frameType, c) =>
              if isData frameType then (Some frameType, c) else nextReader_loop fuel c
          end
      end
  end.

(** [Conn.NextReader]; the new reader is a new identity. *)
Definition NextReader c : result ws_error (Z * nat) * Conn W :=
  let c := r_set_readLength 0 (r_set_messageReader None c) in
  match nextReader_loop (S (length (input c))) c with
  | (Some frameType, c) =>
      let r := readers c in
      (Ok (frameType, r), r_set_readers (S r) (r_set_messageReader (Some r) c))
  | (None, c) =>
      let c := r_set_errCount (readErrCount c + 1) c in
      if 1000 <=? readErrCount c then (Err repeated_read, c)
      else (Err (default io_EOF (readErr c)), c)
  end.

(** ** [messageReader.Read] *)

(** The branch of the loop with bytes left in the frame. *)
Definition readFrame (m : nat) c : bytes * option ws_error * Conn W :=
  let m := if readRemaining c <? Z.of_nat m then Z.to_nat (readRemaining c) else m in
  let '(b, err, c) := br_Read m c in
  let c := r_set_readErr err c in
  let '(b, c) :=
    if isServer (wconn c) then
      let '(b, pos) := Safe.maskBytes (readMaskKey c) (readMaskPos c) b in (b, r_set_maskPos pos c)
    else (b, c) in
  let c := r_set_remaining (readRemaining c - blen b) c in
  let c := if (0 <? readRemaining c) && bool_decide (readErr c = Some io_EOF)
           then r_set_readErr (Some errUnexpectedEOF) c else c in
  (b, readErr c, c).

Fixpoint read_loop (fuel : nat) (r m : nat) c : bytes * option ws_error * Conn W :=
  match readErr c with
  | Some err =>
      ([], Some (if decide (err = io_EOF /\ messageReader c = Some r)
                 then errUnexpectedEOF else err), c)
  | None =>
      if 0 <? readRemaining c then readFrame m c
      else if readFinal c then ([], Some io_EOF, r_set_messageReader None c)
      else
        match fuel with
        | O => ([], Some out_of_fuel, c)
        | S fuel =>
            match advanceFrame c with
            | (Err err, c) => read_loop fuel r m (r_set_readErr (Some err) c)
            | (Ok frameType, c) =>
                if isData frameType
                then read_loop fuel r m (r_set_readErr (Some errInternalReader) c)
                else read_loop fuel r m c
            end
        end
  end.

(** [Read] of the reader [r] into a slice of [m] bytes. *)
Definition Reader_Read (r m : nat) c : bytes * option ws_error * Conn W :=
  if decide (messageReader c = Some r) then read_loop (S (length (input c))) r m c
  else ([], Some io_EOF, c).

(** [io.ReadAll]: the slice grows by [append] when it is full, to a capacity
    that the runtime chooses. *)
Fixpoint readAll_loop (appendCap : nat -> nat) (fuel : nat) (r : nat) (b : bytes) (cap : nat) c
  : bytes * option ws_error * Conn W :=
  match fuel with
  | O => (b, Some out_of_fuel, c)
  | S fuel =>
      let '(p, err, c) := Reader_Read r (cap - length b) c in
      let b := b ++ p in
      match err with
      | Some err => (b, if decide (err = io_EOF) then None else Some err, c)
      | None =>
          let cap := if (length b =? cap)%nat then appendCap cap else cap in
          readAll_loop appendCap fuel r b cap c
      end
  end.

(** [Conn.ReadMessage]: the message type, the data and the error. *)
Definition ReadMessage (appendCap : nat -> nat) c : Z * bytes * option ws_error * Conn W :=
  match NextReader c with
  | (Err err, c) => (noFrame, [], Some err, c)
  | (Ok (messageType, r), c) =>
      let '(p, err, c) := readAll_loop appendCap (S (S (length (input c)))) r [] 512 c in
      (messageType, p, err, c)
  end.

(** ** Settings *)

Definition SetReadLimit (limit : Z) c : Conn W := r_set_readLimit limit c.

Definition defaultCloseHandler (code : Z) (text : bytes) (w : WConn W) : option ws_error * WConn W :=
  (None, sendControl CloseMessage (FormatCloseMessage code []) w).
Definition defaultPingHandler (message : bytes) (w : WConn W) : option ws_error * WConn W :=
  (None, sendControl PongMessage message w).
Definition defaultPongHandler (message : bytes) (w : WConn W) : option ws_error * WConn W :=
  (None, w).

Definition SetCloseHandler (h : option (Z -> bytes -> WConn W -> option ws_error * WConn W)) c :=
  r_set_handleClose (default defaultCloseHandler h) c.
Definition SetPingHandler (h : option (bytes -> WConn W -> option ws_error * WConn W)) c :=
  r_set_handlePing (default defaultPingHandler h) c.
Definition SetPongHandler (h : option (bytes -> WConn W -> option ws_error * WConn W)) c :=
  r_set_handlePong (default defaultPongHandler h) c.

(** [newConn] with [br] nil; [inp], [err] and [f] are what the network will
    deliver. *)
Definition newConn (isServer : bool) (readBufferSize writeBufferSize : Z) (pool : bool)
    (writeBuf : bytes) (n : W) (inp : bytes) (err : ws_error) (f : list (nat * bool)) : Conn W :=
  let size := if readBufferSize =? 0 then defaultReadBufferSize
              else if readBufferSize <? maxControlFramePayloadSize
                   then maxControlFramePayloadSize else readBufferSize in
  let c := {| wconn := newWConn isServer writeBufferSize pool writeBuf n;
              input := inp; inputErr := err; brSize := Z.to_nat size; feed := f;
              readErr := None; readRemaining := 0; readFinal := true; readLength := 0;
              readLimit := 0; readMaskPos := 0; readMaskKey := [0; 0; 0; 0];
              handlePong := defaultPongHandler; handlePing := defaultPingHandler;
              handleClose := defaultCloseHandler;
              readErrCount := 0; messageReader := None; readers := 0 |} in
  SetPongHandler None (SetPingHandler None (SetCloseHandler None c)).

End Read.

(** * Decoding what the write half encodes *)

(** The second byte of a header, for every length. *)
Lemma header_byte1 (masked : bool) x :
  0 <= x < 128 ->
  Z.land ((if masked then 128 else 0) + x) 127 = x
  /\ bit_set ((if masked then 128 else 0) + x) maskBit = masked.
Proof.
  intros Hx.
  assert (Hall : forallb (fun n => let x := Z.of_nat n in
     (Z.land (128 + x) 127 =? x) && (Z.land x 127 =? x)
     && bit_set (128 + x) maskBit && negb (bit_set x maskBit)) (seq 0 128) = true)
    by (vm_compute; reflexivity).
  rewrite forallb_forall in Hall. specialize (Hall (Z.to_nat x)).
  rewrite in_seq, Z2Nat.id in Hall by lia. specialize (Hall ltac:(lia)).
  cbv zeta in Hall. boolp. destruct masked; rewrite ?Z.add_0_l; auto.
Qed.

(** The first byte, for every opcode. *)
Lemma header_byte0 (fin : bool) op :
  opcode_ok op ->
  let b := (if fin then 128 else 0) + op in
  Z.land b 15 = op /\ bit_set b finalBit = fin /\ bit_set b rsv1Bit = false
  /\ bit_set b rsv2Bit = false /\ bit_set b rsv3Bit = false.
Proof.
  intros [->|[H|H]]; [|apply isControl_cases in H as [->|[->| ->]]|
    apply isData_cases in H as [->| ->]]; destruct fin; vm_compute; auto.
Qed.

Section ReadProofs.
Context {W : Type} `{WsEnvLaws W}.
Implicit Types c : Conn W.

Lemma read_app n p rest c :
  input c = p ++ rest -> length p = n -> (n <= brSize c)%nat ->
  read n c = (p, None, r_set_input rest c).
Proof.
  intros Hi Hl Hn. unfold read, br_Peek.
  rewrite (proj2 (Nat.ltb_ge _ _)) by lia. rewrite Hi, length_app.
  rewrite (proj2 (Nat.leb_le _ _)) by lia. cbn. rewrite <- Hl, take_app_length.
  by rewrite drop_app_length.
Qed.

Lemma readN_app n p rest c :
  input c = p ++ rest -> length p = n -> (n <= brSize c)%nat ->
  readN n c = (Ok p, r_set_input rest c).
Proof. intros. unfold readN. by rewrite (read_app n p rest). Qed.

(** The payload as it is on the wire. *)
Definition body (f : frame) : bytes :=
  match f_key f with Some key => mask_bytes key 0 (f_payload f) | None => f_payload f end.

(** The connection after the header of [f]. *)
Definition after_header (f : frame) (rest : bytes) c : Conn W :=
  let c := r_set_remaining (blen (f_payload f)) c in
  let c := if isMessageFrame (f_op f) then r_set_final (f_fin f) c else c in
  let c := match f_key f with
           | Some key => r_set_maskKey key (r_set_maskPos 0 c)
           | None => c
           end in
  r_set_input (body f ++ rest) c.

(** Where the protocol allows the frame. *)
Definition allowed (readFinal : bool) (f : frame) : Prop :=
  (isControl (f_op f) = true -> f_fin f = true /\ blen (f_payload f) <= maxControlFramePayloadSize)
  /\ (isData (f_op f) = true -> readFinal = true)
  /\ (f_op f = continuationFrame -> readFinal = false).

Definition int64_ok (n : Z) : Prop := n < 9223372036854775808.

Lemma headerErrors_nil server readFinal f len7 :
  frame_ok (negb server) f -> allowed readFinal f -> 0 <= len7 < 128 ->
  (isControl (f_op f) = true -> len7 <= maxControlFramePayloadSize) ->
  headerErrors server readFinal ((if f_fin f then 128 else 0) + f_op f)
    ((match f_key f with Some _ => 128 | None => 0 end) + len7) = [].
Proof.
  intros [Hop Hkey] (Hc & Hd & Hcont) Hlen Hctl.
  destruct (header_byte0 (f_fin f) _ Hop) as (H1 & H2 & H3 & H4 & H5).
  destruct (header_byte1 (match f_key f with Some _ => true | None => false end) len7 Hlen) as [H6 H7].
  replace (match f_key f with Some _ => 128 | None => 0 end)
    with (if match f_key f with Some _ => true | None => false end then 128 else 0)
    by (by destruct (f_key f)).
  unfold headerErrors. cbv zeta in *. rewrite H1, H2, H3, H4, H5, H6, H7. simpl.
  assert (Hm : match f_key f with Some _ => true | None => false end = server).
  { destruct (f_key f); [destruct Hkey as [Hs _]|]; by destruct server. }
  rewrite Hm, Bool.eqb_reflx. simpl. rewrite app_nil_r.
  destruct (isControl (f_op f)) eqn:Hctl'.
  - destruct (Hc eq_refl) as [-> _]. rewrite (proj2 (Z.ltb_ge _ _)) by auto. done.
  - destruct (isData (f_op f)) eqn:Hd'; [by rewrite Hd|].
    destruct Hop as [Ho|[|]]; [|congruence..]. rewrite Ho. simpl. by rewrite Hcont.
Qed.

Lemma encode_len_range len : 0 <= len -> 0 <= fst (encode_len len) < 128.
Proof. intros. unfold encode_len. destruct (Z.leb_spec len 125); [|destruct (_ <? _)]; simpl; lia. Qed.

Lemma setReadRemaining_ok n c : 0 <= n -> setReadRemaining n c = (Ok tt, r_set_remaining n c).
Proof. intros. unfold setReadRemaining. by rewrite (proj2 (Z.ltb_ge _ _)). Qed.

Lemma readExtendedLength_ok len r c :
  0 <= len -> int64_ok len -> (8 <= brSize c)%nat ->
  readRemaining c = fst (encode_len len) -> input c = snd (encode_len len) ++ r ->
  readExtendedLength c = (Ok tt, r_set_remaining len (r_set_input r c)).
Proof.
  unfold int64_ok, readExtendedLength, encode_len. intros Hnn Hlen Hbr Hrem Hin.
  unfold rbind at 1, rget. destruct (Z.leb_spec len 125); [|destruct (Z.ltb_spec len 65536)];
    simpl in Hrem, Hin; rewrite Hrem.
  - rewrite (proj2 (Z.eqb_neq len 126)), (proj2 (Z.eqb_neq len 127)) by lia.
    unfold rret. f_equal. destruct c. simpl in *. by subst.
  - cbn [Z.eqb Pos.eqb]. unfold rbind. rewrite (readN_app 2 (putUint16 len) r) by (done || lia).
    rewrite getUint16_put1, setReadRemaining_ok by lia. done.
  - cbn [Z.eqb Pos.eqb]. unfold rbind. rewrite (readN_app 8 (putUint64 len) r) by (done || lia).
    rewrite <- (app_nil_r (putUint64 len)), getUint64_put, i64_small by lia.
    by rewrite setReadRemaining_ok.
Qed.

Lemma readMask_ok f rest c :
  frame_ok (negb (isServer (wconn c))) f -> (8 <= brSize c)%nat ->
  input c = match f_key f with Some key => key ++ body f ++ rest | None => body f ++ rest end ->
  readMask (match f_key f with Some _ => true | None => false end) c
  = (Ok tt, r_set_input (body f ++ rest)
              match f_key f with Some key => r_set_maskKey key (r_set_maskPos 0 c) | None => c end).
Proof.
  intros [_ Hkey] Hbr Hin. unfold readMask. destruct (f_key f) as [key|].
  - destruct Hkey as (_ & Hk & _). unfold rbind, rmodify.
    rewrite (readN_app 4 key (body f ++ rest)); [done|done|done|simpl; lia].
  - unfold rret. f_equal. destruct c. simpl in *. by subst.
Qed.

Lemma advance_header c f rest :
  readRemaining c = 0 -> input c = encode_frame f ++ rest ->
  frame_ok (negb (isServer (wconn c))) f -> allowed (readFinal c) f ->
  (8 <= brSize c)%nat -> int64_ok (blen (f_payload f)) ->
  advanceFrame c =
  (if isMessageFrame (f_op f) then enforceLimit (f_op f)
   else let! payload := readControlPayload in processControl (f_op f) payload) (after_header f rest c).
Proof.
  intros Hrem Hin Hf Hal Hbr Hlen.
  pose proof (blen_nonneg (f_payload f)) as Hnn.
  pose proof (encode_len_range _ Hnn) as Hr7.
  destruct (header_byte0 (f_fin f) _ (proj1 Hf)) as (Hop & Hfin & _).
  set (masked := match f_key f with Some _ => true | None => false end).
  assert (Hm : match f_key f with Some _ => 128 | None => 0 end = if masked then 128 else 0)
    by (unfold masked; by destruct (f_key f)).
  destruct (header_byte1 masked _ Hr7) as [Hl7 Hmask]. rewrite <- Hm in Hl7, Hmask.
  set (b0 := (if f_fin f then 128 else 0) + f_op f) in *.
  set (b1 := match f_key f with Some _ => 128 | None => 0 end + fst (encode_len (blen (f_payload f)))) in *.
  set (r2 := match f_key f with Some key => key ++ body f ++ rest | None => body f ++ rest end).
  assert (Hin' : input c = [b0; b1] ++ snd (encode_len (blen (f_payload f))) ++ r2).
  { rewrite Hin. unfold encode_frame, b0, b1, r2, body. destruct (encode_len _) as [l7 ext]. simpl.
    do 2 f_equal. rewrite <- app_assoc. f_equal. destruct (f_key f); [|done].
    by rewrite <- app_assoc. }
  unfold advanceFrame. unfold rbind at 1. unfold skipFrame. rewrite Hrem.
  change (0 <? 0) with false. cbv iota. unfold rbind at 1.
  rewrite (readN_app 2 [b0; b1] _ c Hin' eq_refl) by lia.
  change (byte_at [b0; b1] 0) with b0. change (byte_at [b0; b1] 1) with b1.
  cbv zeta. rewrite Hop, Hl7, Hmask, Hfin. unfold rbind at 1, rmodify at 1.
  unfold rbind at 1, rget. unfold rbind at 1, rmodify at 1.
  change (headerErrors _ _ b0 b1) with (headerErrors (isServer (wconn c)) (readFinal c) b0 b1).
  assert (headerErrors (isServer (wconn c)) (readFinal c) b0 b1 = []) as ->.
  { apply headerErrors_nil; [done..|]. intros Hc. destruct (proj1 Hal Hc) as [_ Hsmall].
    unfold encode_len. by rewrite (proj2 (Z.leb_le _ _)). }
  unfold rbind at 1.
  rewrite (readExtendedLength_ok (blen (f_payload f)) r2); [|done|done| | |].
  2-4: destruct (isMessageFrame (f_op f)); done.
  unfold rbind at 1. unfold masked. rewrite (readMask_ok f rest).
  2-4: destruct (isMessageFrame (f_op f)); done.
  destruct c. unfold after_header. destruct (isMessageFrame (f_op f)), (f_key f); done.
Qed.

(** ** One frame *)

Definition within_limit c (n : Z) : Prop :=
  int64_ok n /\ (readLimit c <= 0 \/ n <= readLimit c).

Lemma advance_data c f rest :
  readRemaining c = 0 -> input c = encode_frame f ++ rest ->
  frame_ok (negb (isServer (wconn c))) f -> allowed (readFinal c) f ->
  (8 <= brSize c)%nat -> isMessageFrame (f_op f) = true ->
  0 <= readLength c -> within_limit c (readLength c + blen (f_payload f)) ->
  advanceFrame c
  = (Ok (f_op f), r_set_readLength (readLength c + blen (f_payload f)) (after_header f rest c)).
Proof.
  intros Hrem Hin Hf Hal Hbr Hmsg Hrl [Hlen Hlim].
  pose proof (blen_nonneg (f_payload f)) as Hnn. unfold int64_ok in Hlen.
  rewrite (advance_header c f rest) by (done || (unfold int64_ok; lia)).
  rewrite Hmsg. unfold enforceLimit, rbind, rmodify, rget, rret.
  set (c1 := after_header f rest c).
  assert (Hc1 : readLength c1 = readLength c /\ readRemaining c1 = blen (f_payload f)
                /\ readLimit c1 = readLimit c).
  { unfold c1, after_header. by destruct (isMessageFrame (f_op f)), (f_key f). }
  destruct Hc1 as (-> & -> & Hl1). rewrite i64_small by lia. cbn [readLength readLimit r_set_readLength].
  rewrite (proj2 (Z.ltb_ge _ _)) by lia. rewrite Hl1.
  destruct Hlim; [rewrite (proj2 (Z.ltb_ge 0 _)) by lia|
    rewrite (proj2 (Z.ltb_ge (readLimit c) _)), andb_false_r by lia]; done.
Qed.

(** The handler that a ping or a pong runs. *)
Definition handler c (m : Z * bytes) : WConn W -> option ws_error * WConn W :=
  if fst m =? PongMessage then handlePong c (snd m) else handlePing c (snd m).

Definition after_control (f : frame) (rest : bytes) (w : WConn W) c : Conn W :=
  r_set_wconn w (r_set_remaining 0 (r_set_input rest (after_header f rest c))).

Lemma readControlPayload_ok f rest c :
  isMessageFrame (f_op f) = false -> frame_ok (negb (isServer (wconn c))) f ->
  blen (f_payload f) <= 125 -> (125 <= brSize c)%nat ->
  readControlPayload (after_header f rest c)
  = (Ok (f_payload f), r_set_remaining 0 (r_set_input rest (after_header f rest c))).
Proof.
  intros Hmsg [_ Hkey] Hlen Hbr. pose proof (blen_nonneg (f_payload f)) as Hnn.
  set (c1 := after_header f rest c).
  assert (Hc1 : readRemaining c1 = blen (f_payload f) /\ input c1 = body f ++ rest
     /\ brSize c1 = brSize c /\ wconn c1 = wconn c
     /\ match f_key f with Some key => readMaskKey c1 = key | None => True end).
  { unfold c1, after_header. rewrite Hmsg. by destruct (f_key f). }
  destruct Hc1 as (Hr & Hi & Hb & Hw & Hk). unfold readControlPayload. rewrite Hr.
  assert (Hlb : length (body f) = length (f_payload f)).
  { unfold body. destruct (f_key f); [apply length_mask_bytes|done]. }
  destruct (Z.ltb_spec 0 (blen (f_payload f))) as [Hpos|Hz].
  - rewrite (read_app _ (body f) rest c1); [|done|unfold blen; lia|unfold blen in *; lia].
    cbn [wconn r_set_remaining r_set_input readMaskKey]. rewrite Hw.
    unfold body in *. destruct (f_key f) as [key|].
    + destruct Hkey as (Hs & _). apply negb_false_iff in Hs. rewrite Hs, Hk, safe_maskBytes.
      simpl. by rewrite mask_bytes_twice.
    + apply negb_true_iff in Hkey. by rewrite Hkey.
  - assert (f_payload f = []) as Hnil by (apply blen_nil_inv; lia). rewrite Hnil in *.
    apply nil_length_inv in Hlb. rewrite Hlb in Hi. change (blen []) with 0 in Hr. f_equal.
    clearbody c1. destruct c1. simpl in *. by subst.
Qed.

Lemma advance_control c f rest w :
  readRemaining c = 0 -> input c = encode_frame f ++ rest ->
  frame_ok (negb (isServer (wconn c))) f -> allowed (readFinal c) f ->
  (125 <= brSize c)%nat -> f_op f = PingMessage \/ f_op f = PongMessage ->
  handler c (f_op f, f_payload f) (wconn c) = (None, w) ->
  advanceFrame c = (Ok (f_op f), after_control f rest w c).
Proof.
  intros Hrem Hin Hf Hal Hbr Hop Hh.
  assert (Hctl : isControl (f_op f) = true) by (by destruct Hop as [->| ->]).
  destruct (proj1 Hal Hctl) as [_ Hlen]. unfold maxControlFramePayloadSize in Hlen.
  rewrite (advance_header c f rest) by (done || (unfold int64_ok; lia)).
  assert (isMessageFrame (f_op f) = false) as Hmsg by (by destruct Hop as [->| ->]).
  rewrite Hmsg. unfold rbind at 1. rewrite (readControlPayload_ok f rest c) by done.
  set (c1 := after_header f rest c). unfold processControl, rbind, rget, callHandler, rret.
  assert (Hc1 : wconn c1 = wconn c /\ handlePing c1 = handlePing c /\ handlePong c1 = handlePong c).
  { unfold c1, after_header. by destruct (isMessageFrame (f_op f)), (f_key f). }
  destruct Hc1 as (Hw & Hpi & Hpo). unfold handler in Hh. simpl in Hh.
  destruct Hop as [Ho|Ho]; rewrite Ho in *; simpl in *; rewrite ?Hw, ?Hpi, ?Hpo, Hh;
    unfold after_control; fold c1; done.
Qed.

End ReadProofs.
