(* ===== verification/WsMessages.v ===== *)
(** Messages read from a WebSocket connection: the theorems about the read half
    of lib/websocket/conn.go ([WsRead]), and the composition of a writing and a
    reading connection.

    [message_frames] describes the frames of one message as they may arrive,
    with control frames among them; a [ReadMessage] of such frames returns the
    message and runs the handlers of the control frames.  For arbitrary input,
    [ReadMessage] ends and respects the read limit. *)

From S2P Require Import Prelude GoNet WsMask WsWrite WsStream WsRead.

(** * The frames of a message *)

(** A ping or a pong. *)
Definition control_frame (f : frame) : Prop :=
  (f_op f = PingMessage \/ f_op f = PongMessage)
  /\ f_fin f = true /\ blen (f_payload f) <= maxControlFramePayloadSize.

(** The frames after one that is not final, what they carry and the control
    frames among them. *)
Inductive tail_frames : list frame -> bytes -> list (Z * bytes) -> Prop :=
| tail_control f fs d ctl :
    control_frame f -> tail_frames fs d ctl ->
    tail_frames (f :: fs) d ((f_op f, f_payload f) :: ctl)
| tail_final f :
    f_op f = continuationFrame -> f_fin f = true -> tail_frames [f] (f_payload f) []
| tail_more f fs d ctl :
    f_op f = continuationFrame -> f_fin f = false -> tail_frames fs d ctl ->
    tail_frames (f :: fs) (f_payload f ++ d) ctl.

(** The frames of a message of type [t]. *)
Inductive message_frames (t : Z) : list frame -> bytes -> list (Z * bytes) -> Prop :=
| msg_control f fs d ctl :
    control_frame f -> message_frames t fs d ctl ->
    message_frames t (f :: fs) d ((f_op f, f_payload f) :: ctl)
| msg_single f : f_op f = t -> f_fin f = true -> message_frames t [f] (f_payload f) []
| msg_first f fs d ctl :
    f_op f = t -> f_fin f = false -> tail_frames fs d ctl ->
    message_frames t (f :: fs) (f_payload f ++ d) ctl.

(** ** The messages of a stream *)

Lemma foldl_None {A B} (g : A -> B -> option A) l :
  foldl (fun (o : option A) b => o ≫= fun a => g a b) None l = None.
Proof. induction l; simpl; auto. Qed.

Lemma assemble_cons s f fs : assemble s (f :: fs) = assemble_frame s f ≫= fun s => assemble s fs.
Proof. unfold assemble. simpl. destruct (assemble_frame s f); [done|]. apply foldl_None. Qed.

Lemma assemble_frame_prefix l0 l frag f :
  closed l0 = false ->
  assemble_frame (l0 ++ l, frag) f
  = (fun s => (l0 ++ fst s, snd s)) <$> assemble_frame (l, frag) f.
Proof.
  intros Hc. unfold assemble_frame.
  assert (closed (l0 ++ l) = closed l) as ->.
  { unfold closed in *. by rewrite existsb_app, Hc. }
  destruct (closed l); [done|]. destruct (isControl (f_op f)).
  { destruct (_ && _); simpl; [|done]. by rewrite app_assoc. }
  destruct (if isData (f_op f) then _ else _) as [m|]; [|done].
  destruct (f_fin f); simpl; [by rewrite app_assoc|done].
Qed.

Lemma assemble_prefix l0 fs : forall l frag,
  closed l0 = false ->
  assemble (l0 ++ l, frag) fs = (fun s => (l0 ++ fst s, snd s)) <$> assemble (l, frag) fs.
Proof.
  induction fs as [|f fs IH]; intros l frag Hc; [done|].
  rewrite !assemble_cons, assemble_frame_prefix by done.
  destruct (assemble_frame (l, frag) f) as [[l' frag']|]; simpl; [|done]. by apply IH.
Qed.

(** Starting over with an empty log. *)
Lemma assemble_restart l frag fs log frag' :
  assemble (l, frag) fs = Some (log, frag') -> closed log = false ->
  exists log', log = l ++ log' /\ assemble ([], frag) fs = Some (log', frag').
Proof.
  intros Ha Hlog. assert (Hc : closed l = false).
  { destruct fs as [|f fs]; [unfold assemble in Ha; simpl in Ha; congruence|].
    rewrite assemble_cons in Ha. unfold assemble_frame in Ha. by destruct (closed l). } rewrite <- (app_nil_r l), assemble_prefix in Ha by done.
  destruct (assemble ([], frag) fs) as [[log' fr]|]; simplify_eq/=. eauto.
Qed.

Definition dataMessages (log : list (Z * bytes)) : list (Z * bytes) :=
  List.filter (fun m => isData (fst m)) log.

Lemma closed_cons m log : closed (m :: log) = (fst m =? CloseMessage) || closed log.
Proof. done. Qed.

(** A control frame that is not a close frame. *)
Lemma control_not_close f log :
  isControl (f_op f) = true -> closed ((f_op f, f_payload f) :: log) = false ->
  f_op f = PingMessage \/ f_op f = PongMessage.
Proof.
  rewrite closed_cons. simpl. intros [->|[->| ->]]%isControl_cases; auto. done.
Qed.

(** The frames up to the end of the message under way. *)
Lemma assemble_tail fs : forall t d log frag',
  assemble ([], Some (t, d)) fs = Some (log, frag') -> closed log = false ->
  isData t = true -> dataMessages log <> [] ->
  exists fs1 fs2 d' ctl log2, fs = fs1 ++ fs2 /\ tail_frames fs1 d' ctl
    /\ log = ctl ++ (t, d ++ d') :: log2 /\ dataMessages ctl = []
    /\ assemble ([], None) fs2 = Some (log2, frag').
Proof.
  induction fs as [|f fs IH]; intros t d log frag' Ha Hc Ht Hne; [unfold assemble in Ha; simpl in Ha; simplify_eq; by destruct Hne|].
  rewrite assemble_cons in Ha.
  destruct (assemble_frame ([], Some (t, d)) f) as [[l fr]|] eqn:Hf; [|done]. simpl in Ha, Hf.
  destruct (isControl (f_op f)) eqn:Hctl.
  - destruct (f_fin f && _) eqn:Hfin; simplify_eq. apply andb_true_iff in Hfin as [Hfin Hlen].
    apply assemble_restart in Ha as (log' & -> & Ha); [|done].
    pose proof (control_not_close f log' Hctl Hc) as Hop.
    simpl in Hc, Hne. apply orb_false_iff in Hc as [_ Hc].
    unfold dataMessages in Hne. simpl in Hne. rewrite isControl_not_data in Hne by done.
    destruct (IH _ _ _ _ Ha Hc Ht Hne) as (fs1 & fs2 & d' & ctl & log2 & -> & Htl & -> & Hd & Ha2).
    exists (f :: fs1), fs2, d', ((f_op f, f_payload f) :: ctl), log2.
    split_and!; try done; [|by unfold dataMessages; simpl; rewrite isControl_not_data].
    constructor; [|done]. split_and!; try done. by apply Z.leb_le.
  - destruct (isData (f_op f)); [done|]. destruct (Z.eqb_spec (f_op f) continuationFrame); [|done].
    destruct (f_fin f) eqn:Hfin; simplify_eq.
    + apply assemble_restart in Ha as (log' & -> & Ha); [|done].
      exists [f], fs, (f_payload f), [], log'. split_and!; try done. by constructor.
    + destruct (IH _ _ _ _ Ha Hc Ht Hne) as (fs1 & fs2 & d' & ctl & log2 & -> & Htl & -> & Hd & Ha2).
      exists (f :: fs1), fs2, (f_payload f ++ d'), ctl, log2.
      split_and!; try done; [by constructor|]. by rewrite app_assoc.
Qed.

(** The frames up to the end of the first message. *)
Lemma assemble_message fs : forall log frag',
  assemble ([], None) fs = Some (log, frag') -> closed log = false -> dataMessages log <> [] ->
  exists fs1 fs2 t d ctl log2, fs = fs1 ++ fs2 /\ isData t = true /\ message_frames t fs1 d ctl
    /\ log = ctl ++ (t, d) :: log2 /\ dataMessages ctl = []
    /\ assemble ([], None) fs2 = Some (log2, frag').
Proof.
  induction fs as [|f fs IH]; intros log frag' Ha Hc Hne; [unfold assemble in Ha; simpl in Ha; simplify_eq; by destruct Hne|].
  rewrite assemble_cons in Ha.
  destruct (assemble_frame ([], None) f) as [[l fr]|] eqn:Hf; [|done]. simpl in Ha, Hf.
  destruct (isControl (f_op f)) eqn:Hctl.
  - destruct (f_fin f && _) eqn:Hfin; simplify_eq. apply andb_true_iff in Hfin as [Hfin Hlen].
    apply assemble_restart in Ha as (log' & -> & Ha); [|done].
    pose proof (control_not_close f log' Hctl Hc) as Hop.
    simpl in Hc, Hne. apply orb_false_iff in Hc as [_ Hc].
    unfold dataMessages in Hne. simpl in Hne. rewrite isControl_not_data in Hne by done.
    destruct (IH _ _ Ha Hc Hne) as (fs1 & fs2 & t & d & ctl & log2 & -> & Ht & Hm & -> & Hd & Ha2).
    exists (f :: fs1), fs2, t, d, ((f_op f, f_payload f) :: ctl), log2.
    split_and!; try done; [|by unfold dataMessages; simpl; rewrite isControl_not_data].
    constructor; [|done]. split_and!; try done. by apply Z.leb_le.
  - destruct (isData (f_op f)) eqn:Hd0; [|destruct (Z.eqb_spec (f_op f) continuationFrame); done].
    destruct (f_fin f) eqn:Hfin; simplify_eq.
    + apply assemble_restart in Ha as (log' & -> & Ha); [|done].
      exists [f], fs, (f_op f), (f_payload f), [], log'. split_and!; try done. by constructor.
    + destruct (assemble_tail _ _ _ _ _ Ha Hc Hd0 Hne)
        as (fs1 & fs2 & d' & ctl & log2 & -> & Htl & -> & Hd & Ha2).
      exists (f :: fs1), fs2, (f_op f), (f_payload f ++ d'), ctl, log2.
      split_and!; try done. by constructor.
Qed.

(** * Reading one message *)

Section Reading.
Context {W : Type} `{WsEnvLaws W}.
Implicit Types c : Conn W.

(** Ping and pong handlers that succeed, as the default ones do, and that do
    not turn a server into a client. *)
Definition handlers_ok c : Prop :=
  forall m w, fst (handler c m w) = None /\ isServer (snd (handler c m w)) = isServer w.

(** The buffer holds a control frame, and the network reports an error by
    itself, not together with data. *)
Definition cfg c : Prop :=
  (125 <= brSize c)%nat /\ Forall (fun x => snd x = false) (feed c) /\ handlers_ok c.

(** What reading does not change. *)
Definition rstatic c c' : Prop :=
  isServer (wconn c') = isServer (wconn c) /\ brSize c' = brSize c /\ readLimit c' = readLimit c
  /\ inputErr c' = inputErr c
  /\ handlePing c' = handlePing c /\ handlePong c' = handlePong c /\ handleClose c' = handleClose c.

Lemma rstatic_trans c1 c2 c3 : rstatic c1 c2 -> rstatic c2 c3 -> rstatic c1 c3.
Proof.
  unfold rstatic. intros (?&?&?&?&?&?&?) (?&?&?&?&?&?&?). split_and!; congruence.
Qed.

Lemma rstatic_handler c c' m : rstatic c c' -> handler c' m = handler c m.
Proof. unfold handler. intros (_&_&_&_&->&->&_). done. Qed.

Lemma cfg_static c c' :
  cfg c -> rstatic c c' -> Forall (fun x => snd x = false) (feed c') -> cfg c'.
Proof.
  intros (Hb & _ & Hh) Hs Hf. split_and!; [|done|].
  - by destruct Hs as (_ & -> & _).
  - intros m w. rewrite (rstatic_handler _ _ _ Hs). apply Hh.
Qed.

(** The handlers of a list of control frames, in order. *)
Definition run_handlers c (ctl : list (Z * bytes)) (w : WConn W) : WConn W :=
  foldl (fun w m => snd (handler c m w)) w ctl.

Lemma run_handlers_static c c' ctl w : rstatic c c' -> run_handlers c' ctl w = run_handlers c ctl w.
Proof.
  intros Hs. revert w. induction ctl as [|m ctl IH]; intros w; [done|].
  simpl. rewrite (rstatic_handler _ _ _ Hs). apply IH.
Qed.

(** The rest [pl] of a payload as it arrives. *)
Definition wire_payload c (pl : bytes) : bytes :=
  if isServer (wconn c) then mask_bytes (readMaskKey c) (readMaskPos c) pl else pl.

(** The reader [r] is in a frame of which [pl] is left, [fs] are the other
    frames of the message, which will still deliver [d] and contain the control
    frames [ctl]; [rest] follows the message. *)
Definition in_message c (r : nat) (pl : bytes) (fs : list frame) (d : bytes)
    (ctl : list (Z * bytes)) (rest : bytes) : Prop :=
  cfg c /\ readErr c = None /\ messageReader c = Some r
  /\ readRemaining c = blen pl
  /\ input c = wire_payload c pl ++ concat (encode_frame <$> fs) ++ rest
  /\ Forall (frame_ok (negb (isServer (wconn c)))) fs
  /\ 0 <= readLength c
  /\ exists d', d = pl ++ d' /\ within_limit c (readLength c + blen d')
     /\ ((readFinal c = true /\ fs = [] /\ d' = [] /\ ctl = [])
         \/ (readFinal c = false /\ tail_frames fs d' ctl)).

(** The message has been read. *)
Definition after_message c c' (ctl : list (Z * bytes)) (rest : bytes) : Prop :=
  rstatic c c' /\ cfg c' /\ readErr c' = None /\ readRemaining c' = 0 /\ readFinal c' = true
  /\ input c' = rest /\ wconn c' = run_handlers c ctl (wconn c)
  /\ readErrCount c' = readErrCount c.

Lemma mask_pos_land key pos b : mask_bytes key (Z.land pos 3) b = mask_bytes key pos b.
Proof.
  apply mask_bytes_mod. change 3 with (Z.ones 2). rewrite Z.land_ones by lia.
  change (2 ^ 2) with 4. by rewrite Z.mod_mod.
Qed.

Lemma mask_split key pos n b :
  (n <= length b)%nat ->
  take n (mask_bytes key pos b) = mask_bytes key pos (take n b)
  /\ drop n (mask_bytes key pos b) = mask_bytes key (pos + Z.of_nat n) (drop n b).
Proof.
  intros Hn. assert (Hl : length (mask_bytes key pos (take n b)) = n)
    by (rewrite length_mask_bytes, length_take; lia).
  assert (Hs : mask_bytes key pos b
    = mask_bytes key pos (take n b) ++ mask_bytes key (pos + Z.of_nat n) (drop n b)).
  { rewrite <- (take_drop n b) at 1. rewrite mask_bytes_app. do 2 f_equal.
    unfold blen. rewrite length_take. lia. }
  rewrite Hs. split; [by apply take_app_exact|].
  rewrite <- Hl at 1. apply drop_app_length.
Qed.

Lemma br_Read_ok c x y m :
  input c = x ++ y -> (0 < m <= length x)%nat -> Forall (fun x => snd x = false) (feed c) ->
  exists n, (0 < n <= m)%nat
    /\ br_Read m c = (take n x, None, r_set_input (drop n x ++ y) (r_set_feed (tail (feed c)) c)).
Proof.
  intros Hin Hm Hf. unfold br_Read.
  destruct (match feed c with [] => _ | x :: _ => x end) as [k early] eqn:Hk.
  assert (early = false) as ->.
  { destruct Hf as [|[k' e] f He _]; simpl in *; by simplify_eq. }
  set (n := Nat.min (Nat.max 1 k) (Nat.min m (length (input c)))).
  assert (Hn : (0 < n <= m)%nat) by (unfold n; rewrite Hin, length_app; lia).
  exists n. split; [done|]. rewrite andb_false_r. rewrite Hin at 1.
  destruct x as [|a x]; [simpl in Hm; lia|]. cbn [app]. rewrite Hin.
  rewrite take_app_le, drop_app_le by lia. done.
Qed.

(** Bytes of the current frame. *)
Lemma readFrame_step c r pl fs d ctl rest m :
  in_message c r pl fs d ctl rest -> pl <> [] -> (0 < m)%nat ->
  exists b pl' d' c', readFrame m c = (b, None, c') /\ b <> [] /\ (length b <= m)%nat
    /\ d = b ++ d' /\ in_message c' r pl' fs d' ctl rest
    /\ rstatic c c' /\ wconn c' = wconn c /\ readErrCount c' = readErrCount c
    /\ (length (input c') < length (input c))%nat.
Proof.
  intros (Hcfg & He & Hr & Hrem & Hin & Hfs & Hrl & d' & -> & Hlim & Htail) Hpl Hm.
  pose proof Hcfg as (Hbr & Hfeed & Hh).
  unfold readFrame. set (m' := if _ <? _ then _ else m).
  assert (Hm' : (0 < m' <= length pl)%nat /\ (m' <= m)%nat).
  { unfold m'. rewrite Hrem. assert (0 < length pl)%nat by (destruct pl; simpl; [done|lia]).
    unfold blen. destruct (Z.ltb_spec (Z.of_nat (length pl)) (Z.of_nat m)); lia. }
  assert (Hwl : length (wire_payload c pl) = length pl).
  { unfold wire_payload. destruct (isServer (wconn c)); [apply length_mask_bytes|done]. }
  destruct (br_Read_ok c _ _ m' Hin) as (n & Hn & ->); [lia|done|].
  cbn [isServer wconn readMaskKey readMaskPos r_set_readErr r_set_input r_set_feed readErr].
  set (c1 := r_set_readErr None _).
  destruct (mask_split (readMaskKey c) (readMaskPos c) n pl) as [Htk Hdr]; [lia|].
  set (pos' := if isServer (wconn c) then Z.land (readMaskPos c + Z.of_nat n) 3 else readMaskPos c).
  set (c2 := r_set_maskPos pos' c1).
  assert (Hmask : (if isServer (wconn c) then
      let '(b, p) := Safe.maskBytes (readMaskKey c) (readMaskPos c) (take n (wire_payload c pl)) in
      (b, r_set_maskPos p c1) else (take n (wire_payload c pl), c1))
      = (take n pl, c2)).
  { unfold c2, pos', wire_payload. destruct (isServer (wconn c)) eqn:Hs; [|by destruct c].
    rewrite safe_maskBytes, Htk, mask_bytes_twice.
    unfold blen. rewrite length_mask_bytes, length_take. repeat f_equal; lia. }
  rewrite Hmask. set (c3 := r_set_remaining _ c2). assert (Hc3 : readErr c3 = None) by done.
  rewrite (bool_decide_eq_false_2 (readErr c3 = Some io_EOF)) by (by rewrite Hc3).
  rewrite andb_false_r, Hc3.
  assert (Hbl : length (take n pl) = n) by (rewrite length_take; lia).
  exists (take n pl), (drop n pl), (drop n pl ++ d').
  eexists. split; [reflexivity|].
  split_and!; [intros Hnil; rewrite Hnil in Hbl; simpl in Hbl; lia|lia|by rewrite app_assoc, take_drop| |done|done|done|].
  2:{ simpl. rewrite Hin, !length_app, length_drop. lia. }
  split_and!; [|done|done| | |done|done|exists d'; split; [done|]; split; [done|done]].
  - eapply cfg_static; [done|done|]. simpl. by destruct Hfeed.
  - simpl. rewrite Hrem. unfold blen. rewrite length_drop, Hbl. lia.
  - change (wire_payload c3 (drop n pl)) with
      (if isServer (wconn c) then mask_bytes (readMaskKey c) pos' (drop n pl) else drop n pl).
    change (input c3) with (drop n (wire_payload c pl) ++ concat (encode_frame <$> fs) ++ rest).
    f_equal. unfold wire_payload, pos'. destruct (isServer (wconn c)); [|done].
    by rewrite mask_pos_land, Hdr.
Qed.

(** ** The next frame *)

(** What a step of the reader leaves for the following ones. *)
Definition moved c c' (ctl0 : list (Z * bytes)) : Prop :=
  rstatic c c' /\ wconn c' = run_handlers c ctl0 (wconn c) /\ readErrCount c' = readErrCount c
  /\ (length (input c') < length (input c))%nat.

Lemma moved_trans c1 c2 c3 l1 l2 : moved c1 c2 l1 -> moved c2 c3 l2 -> moved c1 c3 (l1 ++ l2).
Proof.
  intros (Hs1 & Hw1 & He1 & Hl1) (Hs2 & Hw2 & He2 & Hl2).
  split_and!; [by eapply rstatic_trans| |congruence|lia].
  rewrite Hw2, Hw1, (run_handlers_static _ _ _ _ Hs1). unfold run_handlers. by rewrite foldl_app.
Qed.

Lemma encode_frame_length f : (2 <= length (encode_frame f))%nat.
Proof. unfold encode_frame. destruct (encode_len _). simpl. lia. Qed.

Lemma encode_body_length f : (length (body f) < length (encode_frame f))%nat.
Proof.
  unfold encode_frame, body. destruct (encode_len _), (f_key f); simpl; rewrite !length_app; lia.
Qed.

Lemma after_header_fields f rest c :
  let c1 := after_header f rest c in
  wconn c1 = wconn c /\ feed c1 = feed c /\ rstatic c c1 /\ readErr c1 = readErr c
  /\ messageReader c1 = messageReader c /\ readLength c1 = readLength c
  /\ readErrCount c1 = readErrCount c /\ readers c1 = readers c
  /\ readRemaining c1 = blen (f_payload f) /\ input c1 = body f ++ rest
  /\ readFinal c1 = (if isMessageFrame (f_op f) then f_fin f else readFinal c)
  /\ match f_key f with Some key => readMaskKey c1 = key /\ readMaskPos c1 = 0 | None => True end.
Proof.
  unfold after_header, rstatic. destruct (isMessageFrame (f_op f)), (f_key f); simpl; auto 20.
Qed.

Lemma wire_payload_body c c1 f :
  frame_ok (negb (isServer (wconn c))) f -> wconn c1 = wconn c ->
  match f_key f with Some key => readMaskKey c1 = key /\ readMaskPos c1 = 0 | None => True end ->
  wire_payload c1 (f_payload f) = body f.
Proof.
  intros [_ Hk] Hw Hm. unfold wire_payload, body. rewrite Hw. destruct (f_key f).
  - destruct Hk as [Hs _]. apply negb_false_iff in Hs. destruct Hm as [-> ->]. by rewrite Hs.
  - apply negb_true_iff in Hk. by rewrite Hk.
Qed.

Lemma control_step c f fs rest :
  cfg c -> readRemaining c = 0 -> control_frame f ->
  Forall (frame_ok (negb (isServer (wconn c)))) (f :: fs) ->
  input c = concat (encode_frame <$> f :: fs) ++ rest ->
  exists c1, advanceFrame c = (Ok (f_op f), c1) /\ isData (f_op f) = false
    /\ moved c c1 [(f_op f, f_payload f)] /\ cfg c1
    /\ readErr c1 = readErr c /\ messageReader c1 = messageReader c /\ readers c1 = readers c
    /\ readLength c1 = readLength c /\ readFinal c1 = readFinal c /\ readRemaining c1 = 0
    /\ Forall (frame_ok (negb (isServer (wconn c1)))) fs
    /\ input c1 = concat (encode_frame <$> fs) ++ rest.
Proof.
  intros Hcfg Hrem (Hop & Hfin & Hlen) Hfs Hin. pose proof Hcfg as (Hbr & Hfeed & Hh).
  apply Forall_cons in Hfs as [Hf Hfs].
  destruct (handler c (f_op f, f_payload f) (wconn c)) as [e w] eqn:Hhd.
  destruct (Hh (f_op f, f_payload f) (wconn c)) as [Hnone Hsrv]. rewrite Hhd in Hnone, Hsrv.
  simpl in Hnone, Hsrv. subst e.
  assert (Hctl : isControl (f_op f) = true) by (by destruct Hop as [->| ->]).
  assert (Hmsg : isMessageFrame (f_op f) = false) by (by destruct Hop as [->| ->]).
  rewrite fmap_cons in Hin. cbn [concat] in Hin. rewrite <- app_assoc in Hin.
  exists (after_control f (concat (encode_frame <$> fs) ++ rest) w c). split.
  { apply advance_control; try done. split_and!; try done.
    - by intros Hd; rewrite isControl_not_data in Hd.
    - intros Ho. rewrite Ho in Hop. by destruct Hop. }
  destruct (after_header_fields f (concat (encode_frame <$> fs) ++ rest) c)
    as (Hw & Hfe & Hst & He & Hmr & Hrl & Hec & Hrs & Hrr & Hi & Hfi & _).
  unfold after_control. set (c1 := after_header f _ c) in *. rewrite Hmsg in Hfi.
  assert (Hst1 : rstatic c (r_set_wconn w (r_set_remaining 0
            (r_set_input (concat (encode_frame <$> fs) ++ rest) c1)))).
  { destruct Hst as (?&?&?&?&?&?&?). by split_and!. }
  split; [by apply isControl_not_data|]. split.
  { split_and!; [done|simpl; unfold run_handlers; simpl; by rewrite Hhd|done|].
    cbn [input r_set_wconn r_set_remaining r_set_input]. pose proof (encode_frame_length f).
    rewrite Hin, (length_app (encode_frame f)). lia. }
  split; [eapply cfg_static; [done|done|]; change (Forall (fun x => snd x = false) (feed c1)); by rewrite Hfe|].
  split_and!; try done. cbn [wconn r_set_wconn]. by rewrite Hsrv.
Qed.

(** A data or continuation frame. *)
Lemma data_step c f fs rest d :
  cfg c -> readRemaining c = 0 -> isMessageFrame (f_op f) = true -> allowed (readFinal c) f ->
  Forall (frame_ok (negb (isServer (wconn c)))) (f :: fs) ->
  input c = concat (encode_frame <$> f :: fs) ++ rest ->
  0 <= readLength c -> within_limit c (readLength c + blen (f_payload f ++ d)) ->
  exists c1, advanceFrame c = (Ok (f_op f), c1)
    /\ moved c c1 [] /\ cfg c1
    /\ readErr c1 = readErr c /\ messageReader c1 = messageReader c /\ readers c1 = readers c
    /\ 0 <= readLength c1 /\ within_limit c1 (readLength c1 + blen d)
    /\ readFinal c1 = f_fin f /\ readRemaining c1 = blen (f_payload f)
    /\ Forall (frame_ok (negb (isServer (wconn c1)))) fs
    /\ input c1 = wire_payload c1 (f_payload f) ++ concat (encode_frame <$> fs) ++ rest.
Proof.
  intros Hcfg Hrem Hmsg Hal Hfs Hin Hrl Hlim. pose proof Hcfg as (Hbr & Hfeed & Hh).
  apply Forall_cons in Hfs as [Hf Hfs]. rewrite fmap_cons in Hin. cbn [concat] in Hin.
  rewrite <- app_assoc in Hin. rewrite blen_app in Hlim.
  pose proof (blen_nonneg (f_payload f)). pose proof (blen_nonneg d).
  assert (Hlim1 : within_limit c (readLength c + blen (f_payload f))).
  { unfold within_limit, int64_ok in *. lia. }
  rewrite (advance_data c f _ Hrem Hin Hf Hal ltac:(lia) Hmsg Hrl Hlim1).
  destruct (after_header_fields f (concat (encode_frame <$> fs) ++ rest) c)
    as (Hw & Hfe & Hst & He & Hmr & Hrl1 & Hec & Hrs & Hrr & Hi & Hfi & Hkey).
  set (c1 := after_header f _ c) in *. rewrite Hmsg in Hfi.
  eexists. split; [reflexivity|]. set (c2 := r_set_readLength _ c1).
  assert (Hst2 : rstatic c c2) by (destruct Hst as (?&?&?&?&?&?&?); by split_and!).
  split.
  { split_and!; [done|done|done|]. change (input c2) with (input c1). rewrite Hi, Hin.
    pose proof (encode_body_length f). rewrite (length_app (body f)), (length_app (encode_frame f)). lia. }
  split; [eapply cfg_static; [done|done|]; change (Forall (fun x => snd x = false) (feed c1)); by rewrite Hfe|].
  split_and!; try done.
  - simpl. lia.
  - destruct Hst as (_ & _ & Hl & _). unfold within_limit in *. change (readLimit c2) with (readLimit c1).
    rewrite Hl. simpl. by rewrite <- Z.add_assoc.
  - change (wconn c2) with (wconn c1). by rewrite Hw.
  - rewrite (wire_payload_body c c2 f); done.
Qed.

(** The next frame of a message, once the current one has been read. *)
Lemma advance_tail c r f fs d ctl rest :
  in_message c r [] (f :: fs) d ctl rest ->
  exists op c1 pl1 ctl0 ctl1, advanceFrame c = (Ok op, c1) /\ isData op = false
    /\ in_message c1 r pl1 fs d ctl1 rest /\ ctl = ctl0 ++ ctl1 /\ moved c c1 ctl0.
Proof.
  intros (Hcfg & He & Hr & Hrem & Hin & Hfs & Hrl & d' & -> & Hlim & [(_ & ? & _)|[Hfin Htail]]);
    [done|].
  assert (Hin' : input c = concat (encode_frame <$> f :: fs) ++ rest).
  { rewrite Hin. unfold wire_payload. by destruct (isServer (wconn c)). }
  inversion Htail as [f' fs' dd ctl' Hc Ht|f' Hop Hf|f' fs' dd ctl' Hop Hf Ht]; simplify_eq.
  - destruct (control_step c f fs rest Hcfg Hrem Hc Hfs Hin')
      as (c1 & Ha & Hd & Hmv & Hcfg1 & He1 & Hr1 & _ & Hrl1 & Hf1 & Hrem1 & Hfs1 & Hin1).
    exists (f_op f), c1, [], [(f_op f, f_payload f)], ctl'. split_and!; try done.
    split_and!; try done; [congruence|congruence| |congruence|].
    + rewrite Hin1. unfold wire_payload. by destruct (isServer (wconn c1)).
    + exists d'. split; [done|]. split; [|right; by rewrite Hf1].
      destruct Hmv as ((_ & _ & Hl & _) & _). unfold within_limit in *. by rewrite Hrl1, Hl.
  - assert (Hal : allowed (readFinal c) f).
    { split_and!; rewrite Hop; done. }
    destruct (data_step c f [] rest [] Hcfg Hrem ltac:(by rewrite Hop) Hal Hfs Hin' Hrl
       ltac:(by rewrite app_nil_r))
      as (c1 & Ha & Hmv & Hcfg1 & He1 & Hr1 & _ & Hrl1 & Hl1 & Hf1 & Hrem1 & Hfs1 & Hin1).
    exists (f_op f), c1, (f_payload f), [], []. split_and!; try done; [by rewrite Hop|].
    split_and!; try done; [congruence|congruence|].
    exists []. rewrite app_nil_r, Hf1. split_and!; try done. by left.
  - assert (Hal : allowed (readFinal c) f).
    { split_and!; rewrite Hop; done. }
    destruct (data_step c f fs rest dd Hcfg Hrem ltac:(by rewrite Hop) Hal Hfs Hin' Hrl Hlim)
      as (c1 & Ha & Hmv & Hcfg1 & He1 & Hr1 & _ & Hrl1 & Hl1 & Hf1 & Hrem1 & Hfs1 & Hin1).
    exists (f_op f), c1, (f_payload f), [], ctl. split_and!; try done; [by rewrite Hop|].
    split_and!; try done; [congruence|congruence|].
    exists dd. rewrite Hf1. split_and!; try done. by right.
Qed.

Lemma read_loop_frame fuel r m c :
  readErr c = None -> 0 < readRemaining c -> read_loop fuel r m c = readFrame m c.
Proof. intros He Hr. apply Z.ltb_lt in Hr. destruct fuel; simpl; by rewrite He, Hr. Qed.

Lemma read_loop_end fuel r m c :
  readErr c = None -> readRemaining c = 0 -> readFinal c = true ->
  read_loop fuel r m c = ([], Some io_EOF, r_set_messageReader None c).
Proof. intros He Hr Hf. destruct fuel; simpl; by rewrite He, Hr, Hf. Qed.

Lemma read_loop_next fuel r m c op c1 :
  readErr c = None -> readRemaining c = 0 -> readFinal c = false ->
  advanceFrame c = (Ok op, c1) -> isData op = false ->
  read_loop (S fuel) r m c = read_loop fuel r m c1.
Proof. intros He Hr Hf Ha Hd. simpl. by rewrite He, Hr, Hf, Ha, Hd. Qed.

(** A call of [Read] that delivers [b]. *)
Definition delivers c r m d ctl rest (res : bytes * option ws_error * Conn W) : Prop :=
  exists b pl' fs' d' ctl1 ctl2 c', res = (b, None, c')
    /\ b <> [] /\ (length b <= m)%nat /\ d = b ++ d' /\ ctl = ctl1 ++ ctl2
    /\ in_message c' r pl' fs' d' ctl2 rest /\ moved c c' ctl1.

Lemma read_loop_delivers fuel c r pl fs d ctl rest m :
  in_message c r pl fs d ctl rest -> pl <> [] -> (0 < m)%nat ->
  delivers c r m d ctl rest (read_loop fuel r m c).
Proof.
  intros Hin Hpl Hm. pose proof Hin as (_ & He & _ & Hrem & _).
  rewrite read_loop_frame by (done || (rewrite Hrem; destruct pl; [done|unfold blen; simpl; lia])).
  destruct (readFrame_step _ _ _ _ _ _ _ m Hin Hpl Hm)
      as (b & pl' & d' & c' & Hrf & Hb & Hbm & Hdd & Hin' & Hst & Hw & Hec & Hlen).
  exists b, pl', fs, d', [], ctl, c'. split_and!; try done.
Qed.

(** One call of [Read]: some bytes of the message, or its end. *)
Lemma read_loop_step m (Hm : (0 < m)%nat) fs : forall fuel c r pl d ctl rest,
  in_message c r pl fs d ctl rest -> (length fs <= fuel)%nat ->
  (d = [] /\ exists c', read_loop fuel r m c = ([], Some io_EOF, c') /\ after_message c c' ctl rest)
  \/ delivers c r m d ctl rest (read_loop fuel r m c).
Proof.
  induction fs as [|f fs IH]; intros fuel c r pl d ctl rest Hin Hfuel;
    (destruct (decide (pl = [])) as [->|Hpl]; [|right; by eapply read_loop_delivers]);
    pose proof Hin as (Hcfg & He & Hr & Hrem & Hi & Hfs & Hrl & d0 & Hd & Hlim & Htail).
  - destruct Htail as [(Hfin & _ & -> & ->)|[_ Ht]]; [|inversion Ht]. left. split; [done|].
    rewrite read_loop_end by done. eexists. split; [done|]. split_and!; try done.
    simpl. rewrite Hi. unfold wire_payload. by destruct (isServer (wconn c)).
  - destruct fuel as [|fuel]; [simpl in Hfuel; lia|].
    destruct Htail as [(_ & ? & _)|[Hfin _]]; [done|].
    destruct (advance_tail _ _ _ _ _ _ _ Hin) as (op & c1 & pl1 & ctl0 & ctl1 & Ha & Hop & Hin1 & -> & Hmv).
    rewrite (read_loop_next _ _ _ _ _ _ He Hrem Hfin Ha Hop).
    destruct (IH fuel c1 r pl1 d ctl1 rest Hin1 ltac:(simpl in Hfuel; lia))
      as [(-> & c' & -> & Haf)|(b & pl' & fs' & d' & l1 & l2 & c' & -> & Hb & Hbm & -> & -> & Hin' & Hmv')].
    + left. split; [done|]. exists c'. split; [done|].
      destruct Haf as (Hst & Hcfg' & He' & Hrem' & Hf' & Hi' & Hw' & Hec').
      destruct Hmv as (Hst1 & Hw1 & Hec1 & _).
      split_and!; try done; [by eapply rstatic_trans| |congruence].
      rewrite Hw', Hw1, (run_handlers_static _ _ _ _ Hst1). unfold run_handlers. by rewrite foldl_app.
    + right. exists b, pl', fs', d', (ctl0 ++ l1), l2, c'. split_and!; try done.
      * by rewrite app_assoc.
      * by eapply moved_trans.
Qed.

Lemma after_moved c c1 c' ctl0 ctl1 rest :
  moved c c1 ctl0 -> after_message c1 c' ctl1 rest -> after_message c c' (ctl0 ++ ctl1) rest.
Proof.
  intros (Hst1 & Hw1 & Hec1 & _) (Hst & Hcfg & He & Hrem & Hf & Hi & Hw & Hec).
  split_and!; try done; [by eapply rstatic_trans| |congruence].
  rewrite Hw, Hw1, (run_handlers_static _ _ _ _ Hst1). unfold run_handlers. by rewrite foldl_app.
Qed.

Lemma frames_length fs : (length fs <= length (concat (encode_frame <$> fs)))%nat.
Proof.
  induction fs as [|f fs IH]; [done|]. rewrite fmap_cons. cbn [concat length].
  rewrite length_app. pose proof (encode_frame_length f). lia.
Qed.

(** [io.ReadAll] returns the whole message. *)
Lemma readAll_message appendCap (Hcap : forall n, (n < appendCap n)%nat) fuel :
  forall c r pl fs d ctl rest b cap,
  in_message c r pl fs d ctl rest -> (length b < cap)%nat -> (length (input c) < fuel)%nat ->
  exists c', readAll_loop appendCap fuel r b cap c = (b ++ d, None, c')
    /\ after_message c c' ctl rest.
Proof.
  induction fuel as [|fuel IH]; intros c r pl fs d ctl rest b cap Hin Hb Hfuel; [lia|].
  cbn [readAll_loop]. unfold Reader_Read.
  pose proof Hin as (_ & _ & Hr & _ & Hi & _). rewrite decide_True by done.
  assert (Hlen : (length fs <= S (length (input c)))%nat).
  { rewrite Hi, !length_app. pose proof (frames_length fs). lia. }
  destruct (read_loop_step (cap - length b) ltac:(lia) fs _ c r pl d ctl rest Hin Hlen)
    as [(-> & c' & -> & Haf)|(p & pl' & fs' & d' & l1 & l2 & c' & -> & Hp & Hpm & -> & -> & Hin' & Hmv)].
  - exists c'. rewrite decide_True by done. done.
  - destruct (IH c' r pl' fs' d' l2 rest (b ++ p)
      (if (length (b ++ p) =? cap)%nat then appendCap cap else cap) Hin') as (c2 & Hr2 & Haf).
    + rewrite length_app. destruct (Nat.eqb_spec (length b + length p) cap) as [Heq|Hne].
      * rewrite Heq. apply Hcap.
      * lia.
    + destruct Hmv as (_ & _ & _ & Hl). lia.
    + exists c2. rewrite Hr2, app_assoc. split; [done|]. by eapply after_moved.
Qed.

(** Between two messages. *)
Definition idle c : Prop :=
  cfg c /\ readErr c = None /\ readRemaining c = 0 /\ readFinal c = true.

(** [NextReader] runs the handlers of control frames before the message and
    stops in its first data frame. *)
Lemma nextReader_message t fs d ctl (Ht : isData t = true) :
  message_frames t fs d ctl -> forall fuel c rest,
  idle c -> readLength c = 0 -> within_limit c (blen d) ->
  Forall (frame_ok (negb (isServer (wconn c)))) fs ->
  input c = concat (encode_frame <$> fs) ++ rest -> (length fs <= fuel)%nat ->
  exists c1 pl fs1 ctl0 ctl1, nextReader_loop fuel c = (Some t, c1)
    /\ ctl = ctl0 ++ ctl1 /\ moved c c1 ctl0
    /\ forall r n, in_message (r_set_readers n (r_set_messageReader (Some r) c1)) r pl fs1 d ctl1 rest.
Proof.
  induction 1 as [f fs d ctl Hc Hm IH|f Hop Hf|f fs d ctl Hop Hf Htail];
    intros fuel c rest (Hcfg & He & Hrem & Hfin) Hrl Hlim Hfs Hin Hfuel;
    (destruct fuel as [|fuel]; [simpl in Hfuel; lia|]); cbn [nextReader_loop]; rewrite He.
  - destruct (control_step c f fs rest Hcfg Hrem Hc Hfs Hin)
      as (c1 & -> & -> & Hmv & Hcfg1 & He1 & Hr1 & _ & Hrl1 & Hf1 & Hrem1 & Hfs1 & Hin1).
    destruct (IH fuel c1 rest) as (c2 & pl & fs1 & l0 & l1 & Hloop & -> & Hmv2 & Hin2); try done;
      [by split_and!; congruence|congruence| |simpl in Hfuel; lia|].
    + destruct Hmv as ((_ & _ & Hl & _) & _). unfold within_limit in *. by rewrite Hl.
    + exists c2, pl, fs1, ((f_op f, f_payload f) :: l0), l1. split_and!; try done.
      by apply (moved_trans c c1 c2 [(f_op f, f_payload f)] l0).
  - subst t. assert (Hal : allowed (readFinal c) f).
    { split_and!; [|done|]; intros Ho.
      - by rewrite isControl_not_data in Ht.
      - by rewrite Ho in Ht. }
    destruct (data_step c f [] rest [] Hcfg Hrem) as
      (c1 & -> & Hmv & Hcfg1 & He1 & Hr1 & _ & Hrl1 & Hl1 & Hf1 & Hrem1 & Hfs1 & Hin1); try done.
    { unfold isMessageFrame. by rewrite Ht, orb_true_r. }
    { by rewrite Hrl. }
    { by rewrite Hrl, app_nil_r. }
    rewrite Ht. exists c1, (f_payload f), [], [], []. split_and!; try done. intros r n.
    split_and!; try done; [simpl; congruence|].
    exists []. rewrite app_nil_r. split_and!; try done. left. simpl. split_and!; congruence.
  - subst t. assert (Hal : allowed (readFinal c) f).
    { split_and!; [|done|]; intros Ho.
      - by rewrite isControl_not_data in Ht.
      - by rewrite Ho in Ht. }
    destruct (data_step c f fs rest d Hcfg Hrem) as
      (c1 & -> & Hmv & Hcfg1 & He1 & Hr1 & _ & Hrl1 & Hl1 & Hf1 & Hrem1 & Hfs1 & Hin1); try done.
    { unfold isMessageFrame. by rewrite Ht, orb_true_r. }
    { by rewrite Hrl. }
    { by rewrite Hrl. }
    rewrite Ht. exists c1, (f_payload f), fs, [], ctl. split_and!; try done. intros r n.
    split_and!; try done; [simpl; congruence|].
    exists d. split_and!; try done. right. simpl. split; [congruence|done].
Qed.

(** [ReadMessage] returns the message that the frames carry and runs the
    handlers of the control frames among them, in order. *)
Lemma ReadMessage_frames appendCap t fs d ctl c rest :
  (forall n, (n < appendCap n)%nat) -> isData t = true -> message_frames t fs d ctl ->
  idle c -> within_limit c (blen d) ->
  Forall (frame_ok (negb (isServer (wconn c)))) fs ->
  input c = concat (encode_frame <$> fs) ++ rest ->
  exists c', ReadMessage appendCap c = (t, d, None, c') /\ after_message c c' ctl rest.
Proof.
  intros Hcap Ht Hm Hidle Hlim Hfs Hin. unfold ReadMessage, NextReader.
  set (c0 := r_set_readLength 0 (r_set_messageReader None c)).
  destruct (nextReader_message t fs d ctl Ht Hm (S (length (input c0))) c0 rest)
    as (c1 & pl & fs1 & l0 & l1 & -> & -> & Hmv & Hin1); try done.
  { change (input c0) with (input c). rewrite Hin, length_app. pose proof (frames_length fs). lia. }
  set (c2 := r_set_readers _ _).
  destruct (readAll_message appendCap Hcap (S (S (length (input c2)))) c2 (readers c1) pl fs1 d l1 rest [] 512
    (Hin1 _ _)) as (c' & -> & Haf); [simpl; lia|lia|].
  exists c'. split; [done|]. by eapply (after_moved c c2).
Qed.

(** ** A stream of messages *)

(** [n] calls of [ReadMessage] and what they return. *)
Fixpoint readMessages (appendCap : nat -> nat) (n : nat) c
  : list (Z * bytes * option ws_error) * Conn W :=
  match n with
  | O => ([], c)
  | S n =>
      let '(t, p, err, c) := ReadMessage appendCap c in
      let '(l, c) := readMessages appendCap n c in
      ((t, p, err) :: l, c)
  end.

Lemma dataMessages_app l1 l2 : dataMessages (l1 ++ l2) = dataMessages l1 ++ dataMessages l2.
Proof. apply List.filter_app. Qed.

Lemma dataMessages_data t d l : isData t = true -> dataMessages ((t, d) :: l) = (t, d) :: dataMessages l.
Proof. intros Ht. unfold dataMessages. simpl. by rewrite Ht. Qed.

Lemma closed_split l1 l2 : closed (l1 ++ l2) = closed l1 || closed l2.
Proof. apply existsb_app. Qed.

Lemma readMessages_stream appendCap (Hcap : forall n, (n < appendCap n)%nat) k :
  forall fs log frag c rest,
  assemble ([], None) fs = Some (log, frag) -> closed log = false ->
  length (dataMessages log) = k ->
  idle c -> Forall (fun m => within_limit c (blen (snd m))) (dataMessages log) ->
  Forall (frame_ok (negb (isServer (wconn c)))) fs ->
  input c = concat (encode_frame <$> fs) ++ rest ->
  fst (readMessages appendCap k c) = (fun m => (fst m, snd m, None)) <$> dataMessages log.
Proof.
  induction k as [|k IH]; intros fs log frag c rest Ha Hc Hk Hidle Hlim Hfs Hin.
  { by apply nil_length_inv in Hk as ->. }
  destruct (assemble_message fs log frag Ha Hc) as
    (fs1 & fs2 & t & d & ctl & log2 & -> & Ht & Hm & -> & Hctl & Ha2).
  { intros Hn. by rewrite Hn in Hk. }
  rewrite dataMessages_app, Hctl, (dataMessages_data t d log2 Ht) in *.
  apply Forall_cons in Hlim as [Hlim1 Hlim2]. apply Forall_app in Hfs as [Hfs1 Hfs2].
  rewrite closed_split in Hc. apply orb_false_iff in Hc as [_ Hc].
  rewrite closed_cons in Hc. apply orb_false_iff in Hc as [_ Hc].
  rewrite fmap_app, concat_app, <- app_assoc in Hin. cbn [readMessages].
  destruct (ReadMessage_frames appendCap t fs1 d ctl c _ Hcap Ht Hm Hidle Hlim1 Hfs1 Hin)
    as (c' & -> & (Hst & Hcfg & He & Hrem & Hf & Hi & Hw & _)).
  destruct (readMessages appendCap k c') as [l c2] eqn:Hr. simpl. f_equal.
  change l with (fst (l, c2)). rewrite <- Hr. pose proof Hst as (Hsrv & _ & Hl & _).
  eapply (IH fs2 log2 frag c' rest Ha2 Hc); [simpl in Hk; lia|done| |by rewrite Hsrv|done].
  eapply Forall_impl; [done|]. intros m. unfold within_limit. by rewrite Hl.
Qed.

End Reading.

(** * Sending and receiving *)

Section EndToEnd.
Context {W : Type} `{WsEnvLaws W}.

Lemma sendControl_server t p (w : WConn W) : isServer (sendControl t p w) = isServer w.
Proof.
  unfold sendControl. destruct (WriteControl _ _ _ _) as [e w'] eqn:Hr. simpl.
  apply WriteControl_spec in Hr as [Hon _]. by rewrite Hon.
Qed.

Lemma newConn_idle srv rsize wsize pool buf (n : W) inp err f :
  Forall (fun x => snd x = false) f -> idle (newConn srv rsize wsize pool buf n inp err f).
Proof.
  intros Hf. split_and!; try done. split_and!; try done.
  - unfold newConn, SetPongHandler, SetPingHandler, SetCloseHandler, r_set_handlePong,
      r_set_handlePing, r_set_handleClose, defaultReadBufferSize, maxControlFramePayloadSize.
    cbn [brSize]. destruct (Z.eqb_spec rsize 0); [lia|]. destruct (Z.ltb_spec rsize 125); lia.
  - intros [t p] w. unfold handler. simpl. destruct (_ =? _); simpl; [done|].
    by rewrite sendControl_server.
Qed.

(** The operations [os], if all of them succeed: the connection, and the log
    and current message that they are expected to leave. *)
Fixpoint spec_ops (os : list wop) (c : WConn W) (a : list (Z * bytes) * option (nat * Z * bytes))
  : option (WConn W * (list (Z * bytes) * option (nat * Z * bytes))) :=
  match os with
  | [] => Some (c, a)
  | o :: os =>
      match run_op o c with
      | (None, c') => spec_ops os c' (expected (length (mws c)) o a)
      | (Some _, _) => None
      end
  end.

Lemma spec_ops_ok s0 os : forall c a c' a',
  conn_ok s0 c (fst a) (snd a) -> spec_ops os c a = Some (c', a') ->
  conn_ok s0 c' (fst a') (snd a') /\ isServer c' = isServer c.
Proof.
  induction os as [|o os IH]; intros c a c' a' Hc Hs; simpl in Hs; [by simplify_eq|].
  pose proof (run_op_server o c) as Hsrv. destruct (run_op o c) as [[e|] c1] eqn:Hr; [done|].
  simpl in Hsrv. rewrite <- Hsrv. eapply IH; [|exact Hs]. destruct a as [log cur].
  by apply (run_op_ok s0 c log cur) in Hr.
Qed.

(** C11. What one connection writes the other reads.  Let an application use a
    new connection in any way (messages by [WriteMessage], or by writers fed
    with any pieces of data by [Write], [WriteString] and [ReadFrom], control
    frames in the middle of messages, messages begun while another is open),
    all calls returning nil, and let the peer read the bytes, however the
    network cuts them up: the calls of [ReadMessage] return the text and binary
    messages that were written, with their types and their complete data, in
    order, whatever fragmentation and masking did to them on the way. *)
Theorem messages_delivered srv size pool buf (n : W) os cw log cur
    rsize wsize rpool rbuf (n' : W) rerr f appendCap :
  given_ok buf ->
  spec_ops os (newWConn srv size pool buf n) ([], None) = Some (cw, (log, cur)) ->
  closed log = false -> Forall (fun m => int64_ok (blen (snd m))) log ->
  (forall k, (k < appendCap k)%nat) -> Forall (fun x => snd x = false) f ->
  fst (readMessages appendCap (length (dataMessages log))
        (newConn (negb srv) rsize wsize rpool rbuf n'
           (drop (length (wire n)) (wire (net cw))) rerr f))
  = (fun m => (fst m, snd m, None)) <$> dataMessages log.
Proof.
  intros Hb Hs Hcl Hlen Hcap Hf.
  destruct (spec_ops_ok (wire n) os _ ([], None) _ _ (newWConn_ok srv size pool buf n Hb) Hs)
    as [(_ & _ & _ & frag & (fs & Hw & Hfs & Ha & _) & _) Hsrv]. simpl in *.
  eapply (readMessages_stream appendCap Hcap _ fs log frag _ []); try done.
  - by apply newConn_idle.
  - apply List.Forall_forall. intros m Hm. apply List.filter_In in Hm as [Hm _].
    apply List.Forall_forall with (x := m) in Hlen; [|done]. split; [done|]. left. done.
  - rewrite Hsrv in Hfs. simpl. by rewrite negb_involutive.
  - simpl. rewrite Hw, drop_app_length. by rewrite app_nil_r.
Qed.

End EndToEnd.

(** * Arbitrary input *)

Section AnyInput.
Context {W : Type} `{WsEnvLaws W}.
Implicit Types c : Conn W.

(** An error the code can return, as opposed to a bound of the model. *)
Definition go_error (e : ws_error) : Prop := e <> out_of_fuel.

(** The network and the handlers return errors of the code. *)
Definition go_errors c : Prop :=
  go_error (inputErr c)
  /\ (forall p w e w', handlePing c p w = (Some e, w') -> go_error e)
  /\ (forall p w e w', handlePong c p w = (Some e, w') -> go_error e)
  /\ (forall t p w e w', handleClose c t p w = (Some e, w') -> go_error e).

(** What a step of reading keeps, whatever it reads. *)
Definition kept c c' : Prop :=
  readErr c' = readErr c /\ messageReader c' = messageReader c /\ readLimit c' = readLimit c
  /\ inputErr c' = inputErr c /\ handlePing c' = handlePing c /\ handlePong c' = handlePong c
  /\ handleClose c' = handleClose c /\ (length (input c') <= length (input c))%nat
  /\ (bytes_ok (input c) -> bytes_ok (input c')).

Lemma kept_refl c : kept c c.
Proof. by split_and!. Qed.

Lemma kept_trans c1 c2 c3 : kept c1 c2 -> kept c2 c3 -> kept c1 c3.
Proof.
  unfold kept. intros (?&?&?&?&?&?&?&?&?) (?&?&?&?&?&?&?&?&?). split_and!; (congruence || lia || auto).
Qed.

Lemma kept_go_errors c c' : kept c c' -> go_errors c -> go_errors c'.
Proof. unfold go_errors. intros (_&_&_&->&->&->&->&_). done. Qed.

Lemma kept_length c c' : kept c c' -> (length (input c') <= length (input c))%nat.
Proof. by intros (_&_&_&_&_&_&_&?&_). Qed.

Lemma kept_bytes c c' : kept c c' -> bytes_ok (input c) -> bytes_ok (input c').
Proof. by intros (_&_&_&_&_&_&_&_&?). Qed.

Lemma rbind_inv {A B} (m : RM W A) (k : A -> RM W B) c r c' :
  rbind m k c = (r, c') ->
  (exists e, m c = (Err e, c') /\ r = Err e) \/ (exists a c1, m c = (Ok a, c1) /\ k a c1 = (r, c')).
Proof. unfold rbind. destruct (m c) as [[a|e] c1]; intros; simplify_eq; eauto. Qed.

(** [kept], and an error of the code if any. *)
Definition keeps {A} c (r : result ws_error A) c' : Prop :=
  kept c c' /\ match r with Ok _ => True | Err e => go_error e end.

Definition same_frame c c' : Prop :=
  readRemaining c' = readRemaining c /\ readLength c' = readLength c.

Lemma read_any n c p e c' :
  go_errors c -> read n c = (p, e, c') ->
  kept c c' /\ same_frame c c'
  /\ match e with
     | None => length p = n /\ (length (input c') + n <= length (input c))%nat
               /\ (bytes_ok (input c) -> bytes_ok p)
     | Some e => go_error e
     end.
Proof.
  intros (Hgo & _) Hr. unfold read, br_Peek in Hr.
  destruct (_ <? _)%nat eqn:Hb; [|destruct (Nat.leb_spec n (length (input c)))]; simplify_eq;
    (split; [split_and!; try done; simpl; [rewrite length_drop; lia|apply Forall_drop]|split; [done|]]).
  - by case_decide; simplify_eq.
  - case_decide; [done|]. simpl. rewrite length_drop, length_take.
    split_and!; [lia|lia|apply Forall_take].
  - by case_decide.
Qed.

Lemma readN_any n c r c' :
  go_errors c -> readN n c = (r, c') ->
  keeps c r c' /\ same_frame c c'
  /\ match r with
     | Ok p => length p = n /\ (length (input c') + n <= length (input c))%nat
               /\ (bytes_ok (input c) -> bytes_ok p)
     | Err _ => True
     end.
Proof.
  intros Hgo Hr. unfold readN in Hr. destruct (read n c) as [[p [e|]] c1] eqn:Hrd;
    apply read_any in Hrd as (Hk & Hs & Hx); simplify_eq; done.
Qed.

Lemma skipFrame_any c r c' :
  go_errors c -> skipFrame c = (r, c') -> keeps c r c' /\ readLength c' = readLength c.
Proof.
  intros (Hgo & _) Hr. unfold skipFrame in Hr. repeat case_match; simplify_eq;
    (split; [split; [split_and!; try done; simpl; try (rewrite ?length_drop; lia); auto using Forall_drop|done]|done]).
Qed.

Lemma setReadRemaining_any n c r c' :
  setReadRemaining n c = (r, c') ->
  keeps c r c' /\ readLength c' = readLength c
  /\ match r with Ok _ => readRemaining c' = n /\ 0 <= n | Err _ => True end.
Proof.
  unfold setReadRemaining, rthrow, rmodify. intros Hr. destruct (Z.ltb_spec n 0); simplify_eq;
    (split; [split; [by split_and!|done]|done]).
Qed.

(** Invert a sequence of computations. *)
Ltac rinv H e a c1 H1 :=
  apply rbind_inv in H as [(e & H1 & ->)|(a & c1 & H1 & H)].

Lemma i64_range z : -9223372036854775808 <= i64 z < 9223372036854775808.
Proof.
  unfold i64. pose proof (Z.mod_pos_bound (z + 9223372036854775808) 18446744073709551616). lia.
Qed.

Lemma readExtendedLength_any c r c' :
  go_errors c -> 0 <= readRemaining c -> readExtendedLength c = (r, c') ->
  keeps c r c' /\ readLength c' = readLength c
  /\ match r with
     | Ok _ => 0 <= readRemaining c'
               /\ (bytes_ok (input c) -> int64_ok (readRemaining c) -> int64_ok (readRemaining c'))
     | Err _ => True
     end.
Proof.
  intros Hgo Hrem Hr. unfold readExtendedLength in Hr. rinv Hr e c0 c1 Hg; [done|].
  unfold rget in Hg. simplify_eq.
  destruct (_ =? 126); [|destruct (_ =? 127)].
  3:{ unfold rret in Hr. simplify_eq. split; [split; [apply kept_refl|done]|done]. }
  all: rinv Hr e p c2 H1;
    (apply readN_any in H1 as ((Hk & Hge) & (_ & Hl) & Hx); [|done]); [done|];
    apply setReadRemaining_any in Hr as ((Hk2 & Hge2) & Hl2 & Hx2);
    (split; [split; [by eapply kept_trans|done]|split; [congruence|]]);
    (destruct r; [destruct Hx2 as [-> ?]|done]); (split; [done|]); intros Hb _; unfold int64_ok.
  - destruct Hx as (_ & _ & Hp). specialize (Hp Hb). apply getUint16_range in Hp. lia.
  - apply i64_range.
Qed.

Lemma readMask_any b c r c' :
  go_errors c -> readMask b c = (r, c') -> keeps c r c' /\ same_frame c c'.
Proof.
  intros Hgo Hr. unfold readMask in Hr. destruct b.
  2:{ unfold rret in Hr. simplify_eq. split; [split; [apply kept_refl|done]|done]. }
  rinv Hr e u c1 H1; [done|]. unfold rmodify in H1. simplify_eq.
  rinv Hr e p c2 H2; (apply readN_any in H2 as ((Hk & Hge) & Hs & Hx); [|done]).
  - split; [split; [done|done]|done].
  - unfold rmodify in Hr. simplify_eq. split; [split; [by destruct Hk as (?&?&?&?&?&?&?&?&?); split_and!|done]|done].
Qed.

Definition limit_ok c (n : Z) : Prop := 0 <= n /\ (readLimit c <= 0 \/ n <= readLimit c).

Lemma enforceLimit_any ft c r c' :
  enforceLimit ft c = (r, c') ->
  keeps c r c'
  /\ match r with
     | Ok t => t = ft /\ readRemaining c' = readRemaining c /\ input c' = input c
               /\ readLength c' = i64 (readLength c + readRemaining c)
               /\ limit_ok c (readLength c')
     | Err _ => True
     end.
Proof.
  unfold enforceLimit, rbind, rmodify, rget, rthrow, rret. intros Hr. simpl in Hr.
  destruct (Z.ltb_spec (i64 (readLength c + readRemaining c)) 0); [|destruct (_ && _) eqn:Hl];
    simplify_eq; (split; [split; [by split_and!|done]|try done]).
  split_and!; try done. split; [done|]. simpl. apply andb_false_iff in Hl as [Hl|Hl]; boolp; lia.
Qed.

Lemma handleProtocolError_any {A} msg c (r : result ws_error A) c' :
  handleProtocolError msg c = (r, c') -> keeps c r c' /\ exists e, r = Err e.
Proof.
  unfold handleProtocolError, rbind, rmodify, rthrow. intros Hr. simplify_eq.
  split; [split; [by split_and!|done]|by eexists].
Qed.

Lemma readControlPayload_any c r c' :
  go_errors c -> 0 <= readRemaining c -> readControlPayload c = (r, c') ->
  keeps c r c' /\ readLength c' = readLength c
  /\ match r with Ok _ => readRemaining c' = 0 | Err _ => True end.
Proof.
  intros Hgo Hrem Hr. unfold readControlPayload in Hr. destruct (Z.ltb_spec 0 (readRemaining c)).
  - destruct (read _ c) as [[p e] c1] eqn:Hrd. apply read_any in Hrd as (Hk & (_ & Hl) & Hx); [|done].
    destruct e; simplify_eq; split_and!; try done.
  - simplify_eq. split; [split; [apply kept_refl|done]|]. split; [done|lia].
Qed.

Lemma callHandler_any h c r c' :
  (forall w e w', h w = (Some e, w') -> go_error e) -> callHandler h c = (r, c') ->
  keeps c r c' /\ same_frame c c'.
Proof.
  intros Hh Hr. unfold callHandler in Hr. destruct (h (wconn c)) as [[e|] w] eqn:Hw; simplify_eq;
    (split; [split; [by split_and!|try done]|done]). by eapply Hh.
Qed.

Lemma processControl_any ft p c r c' :
  go_errors c -> processControl ft p c = (r, c') ->
  keeps c r c' /\ match r with Ok t => t = ft /\ same_frame c c' | Err _ => True end.
Proof.
  intros (_ & Hpi & Hpo & Hcl) Hr. unfold processControl in Hr. rinv Hr e c0 c1 Hg; [done|].
  unfold rget in Hg. simplify_eq.
  assert (Hclose : forall code text (r : result ws_error Z) c',
    rbind (callHandler (handleClose c0 code text)) (fun _ => rthrow (CloseError code text)) c0 = (r, c') ->
    keeps c0 r c' /\ exists e, r = Err e).
  { intros code text r0 c2 H2. rinv H2 e u c3 H3; apply callHandler_any in H3 as [[? ?] _]; eauto;
      [split; [done|eauto]|]. unfold rthrow in H2. simplify_eq. split; [done|eauto]. }
  destruct (_ =? PongMessage); [|destruct (_ =? PingMessage)].
  1,2: rinv Hr e u c2 H2; (apply callHandler_any in H2 as [[? ?] ?]; [|by eauto]);
    [done|unfold rret in Hr; by simplify_eq].
  destruct (_ =? CloseMessage); [|unfold rret in Hr; simplify_eq; split; [split; [apply kept_refl|done]|done]].
  destruct (2 <=? _); [destruct (negb _); [|destruct (negb _)]|];
    first [apply handleProtocolError_any in Hr as [? [e ->]]; done|
           apply Hclose in Hr as [? [e ->]]; done].
Qed.

Lemma land_127 b : 0 <= Z.land b 127 < 9223372036854775808.
Proof.
  change 127 with (Z.ones 7). rewrite Z.land_ones by lia.
  pose proof (Z.mod_pos_bound b (2 ^ 7)). lia.
Qed.

(** [advanceFrame] of any input: a frame takes at least two bytes, and a frame
    of a message is within the limit. *)
Lemma advanceFrame_any c r c' :
  go_errors c -> advanceFrame c = (r, c') ->
  keeps c r c'
  /\ match r with
     | Ok ft => (length (input c') + 2 <= length (input c))%nat /\ 0 <= readRemaining c'
         /\ (bytes_ok (input c) -> int64_ok (readRemaining c'))
         /\ (if isMessageFrame ft
             then readLength c' = i64 (readLength c + readRemaining c') /\ limit_ok c (readLength c')
             else readRemaining c' = 0 /\ readLength c' = readLength c)
     | Err _ => True
     end.
Proof.
  intros Hgo Hr. unfold advanceFrame in Hr.
  rinv Hr e u c1 H1; (apply skipFrame_any in H1 as [[Hk1 He1] Hl1]; [|done]); [done|].
  pose proof (kept_go_errors _ _ Hk1 Hgo) as Hgo1.
  rinv Hr e p c2 H2; (apply readN_any in H2 as ((Hk2 & He2) & (_ & Hl2) & Hp); [|done]);
    [split; [split; [by eapply kept_trans|done]|done]|].
  pose proof (kept_trans _ _ _ Hk1 Hk2) as Hk.
  assert (Hlen2 : (length (input c2) + 2 <= length (input c))%nat).
  { destruct Hp as (_ & ? & _). apply kept_length in Hk1. lia. }
  clear Hk1 Hk2.
  rinv Hr e v c3 H3; [done|]. unfold rmodify in H3. simplify_eq.
  rinv Hr e c4 c5 H4; [done|]. unfold rget in H4. simplify_eq.
  rinv Hr e v4 c6 H5; [done|]. unfold rmodify in H5. injection H5 as <- <-.
  set (b0 := byte_at p 0) in *. set (b1 := byte_at p 1) in *.
  set (c3 := (if isMessageFrame _ then _ else _) _) in Hr.
  assert (Hc3 : kept c c3 /\ input c3 = input c2 /\ readLength c3 = readLength c2
                /\ 0 <= readRemaining c3 /\ int64_ok (readRemaining c3)).
  { pose proof (land_127 b1). unfold c3, int64_ok. destruct (isMessageFrame _); simpl;
      destruct Hk as (?&?&?&?&?&?&?&?&?); split_and!; try (done || lia); by split_and!. }
  clearbody c3. destruct Hc3 as (Hk3 & Hi3 & Hl3 & Hr3 & Hi64). clear Hk.
  pose proof (kept_go_errors _ _ Hk3 Hgo) as Hgo3.
  destruct (headerErrors _ _ b0 b1).
  2:{ apply handleProtocolError_any in Hr as [[Hk4 He4] [e ->]].
      split; [split; [by eapply kept_trans|done]|done]. }
  rinv Hr e v5 c4 H6; (apply readExtendedLength_any in H6 as ((Hk4 & He4) & Hl4 & Hr4); [|done..]);
    pose proof (kept_trans _ _ _ Hk3 Hk4) as Hk; [done|]. destruct Hr4 as [Hr4 Hr4'].
  pose proof (kept_go_errors _ _ Hk Hgo) as Hgo4.
  rinv Hr e v6 c5 H7; (apply readMask_any in H7 as ((Hk5 & He5) & Hs5 & Hl5); [|done]);
    pose proof (kept_trans _ _ _ Hk Hk5) as Hk'; [done|].
  pose proof (kept_go_errors _ _ Hk' Hgo) as Hgo5.
  assert (Hlen : (length (input c5) + 2 <= length (input c))%nat).
  { apply kept_length in Hk4, Hk5. rewrite Hi3 in *. lia. }
  destruct (isMessageFrame (Z.land b0 15)) eqn:Hmsg.
  - apply enforceLimit_any in Hr as [[Hk6 He6] Hx]. split; [split; [by eapply kept_trans|done]|].
    destruct r as [ft|e]; [|done]. destruct Hx as (-> & Hr6 & Hi6 & Hl6 & Hlim).
    rewrite Hmsg, Hi6. split_and!; [lia|lia| | |].
    + intros Hb. rewrite Hr6, Hs5. eauto using kept_bytes.
    + rewrite Hl6, Hr6, Hl5, Hl4, Hl3, Hl2, Hl1. done.
    + destruct Hk' as (_ & _ & Hlm & _). unfold limit_ok in *. by rewrite <- Hlm.
  - rinv Hr e pl c6 H8; (apply readControlPayload_any in H8 as ((Hk6 & He6) & Hl6 & Hr6); [|done|lia]);
      pose proof (kept_trans _ _ _ Hk' Hk6) as Hk7; [done|].
    pose proof (kept_go_errors _ _ Hk7 Hgo) as Hgo6.
    apply processControl_any in Hr as [[Hk8 He8] Hx]; [|done].
    split; [split; [by eapply kept_trans|done]|]. destruct r as [ft|e]; [|done].
    destruct Hx as (-> & Hr8 & Hl8). rewrite Hmsg.
    apply kept_length in Hk6, Hk8.
    split_and!; [lia|lia|unfold int64_ok; lia|lia|congruence].
Qed.

(** ** The loops *)

(** What the loops keep. *)
Definition kept0 c c' : Prop :=
  readLimit c' = readLimit c /\ go_errors c' /\ bytes_ok (input c')
  /\ (length (input c') <= length (input c))%nat.

Lemma kept_kept0 c c' : kept c c' -> go_errors c -> bytes_ok (input c) -> kept0 c c'.
Proof.
  intros Hk Hg Hb. pose proof (kept_go_errors _ _ Hk Hg). destruct Hk as (?&?&?&?&?&?&?&?&?).
  split_and!; auto.
Qed.

Lemma kept0_trans c1 c2 c3 : kept0 c1 c2 -> kept0 c2 c3 -> kept0 c1 c3.
Proof. unfold kept0. intros (?&?&?&?) (?&?&?&?). split_and!; (congruence || lia || done). Qed.

(** [dl] bytes of the message have been delivered, and the frames so far are
    within the limit. *)
Definition counted c (dl : Z) : Prop :=
  0 <= readRemaining c /\ dl + readRemaining c <= readLength c
  /\ limit_ok c (readLength c) /\ int64_ok (readLength c).

Lemma i64_exact a b :
  0 <= a -> int64_ok a -> 0 <= b -> int64_ok b -> 0 <= i64 (a + b) ->
  i64 (a + b) = a + b /\ int64_ok (a + b).
Proof.
  unfold int64_ok, i64. intros Ha1 Ha2 Hb1 Hb2 Hs.
  destruct (Z.lt_ge_cases (a + b) 9223372036854775808) as [Hlt|Hge].
  - rewrite Z.mod_small by lia. lia.
  - exfalso. replace (a + b + 9223372036854775808)
      with (a + b - 9223372036854775808 + 1 * 18446744073709551616) in Hs by lia.
    rewrite Z.mod_add, Z.mod_small in Hs by lia. lia.
Qed.

Lemma advance_counted c dl ft c' :
  go_errors c -> bytes_ok (input c) -> 0 <= dl <= readLength c -> limit_ok c (readLength c) ->
  int64_ok (readLength c) -> advanceFrame c = (Ok ft, c') ->
  kept c c' /\ counted c' dl /\ (length (input c') + 2 <= length (input c))%nat
  /\ (isMessageFrame ft = false -> readLength c' = readLength c).
Proof.
  intros Hgo Hb Hdl Hlim H64 Ha.
  apply advanceFrame_any in Ha as ([Hk _] & Hlen & Hrem & Hr64 & Hx); [|done]. specialize (Hr64 Hb).
  assert (Hrl : readLimit c' = readLimit c) by (by destruct Hk as (_&_&?&_)).
  destruct (isMessageFrame ft).
  - destruct Hx as [Heq Hl']. rewrite Heq in Hl'.
    destruct (i64_exact (readLength c) (readRemaining c')) as [He H64'];
      [lia|done|done|done|apply Hl'|].
    split; [done|]. split; [|done]. unfold counted. rewrite Heq, He in *.
    split_and!; try done; [lia|]. unfold limit_ok in *. by rewrite Hrl.
  - destruct Hx as [Hz Heq]. split; [done|]. split; [|done]. unfold counted, limit_ok in *.
    rewrite Heq, Hz, Hrl. split_and!; try done; lia.
Qed.

Lemma counted_start c dl :
  counted c dl -> 0 <= dl -> 0 <= dl <= readLength c /\ limit_ok c (readLength c) /\ int64_ok (readLength c).
Proof. intros (?&?&?&?) ?. split_and!; try done; lia. Qed.

Lemma nextReader_loop_any fuel : forall c o c',
  go_errors c -> bytes_ok (input c) ->
  limit_ok c (readLength c) -> int64_ok (readLength c) ->
  (forall e, readErr c = Some e -> go_error e) -> (length (input c) < fuel)%nat ->
  nextReader_loop fuel c = (o, c') ->
  kept0 c c'
  /\ match o with
     | Some t => isData t = true /\ readErr c' = None /\ counted c' 0
                 /\ (length (input c') < length (input c))%nat
     | None => exists e, readErr c' = Some e /\ go_error e
     end.
Proof.
  induction fuel as [|fuel IH]; intros c o c' Hgo Hb Hlim H64 Hre Hfuel Hr; [lia|].
  cbn [nextReader_loop] in Hr. destruct (readErr c) as [e|] eqn:He.
  { simplify_eq. split; [apply kept_kept0; [apply kept_refl|done|done]|]. eauto. }
  destruct (advanceFrame c) as [[ft|e] c1] eqn:Ha.
  - apply (advance_counted c 0) in Ha as (Hk & Hcnt & Hlen & _);
      [|done|done|split; [lia|apply Hlim]|done|done].
    pose proof (kept_kept0 _ _ Hk Hgo Hb) as Hk0. pose proof Hk0 as (_ & Hgo1 & Hb1 & _).
    assert (He1 : readErr c1 = None) by (destruct Hk as [-> _]; done).
    destruct (isData ft) eqn:Hd; simplify_eq.
    + split; [done|]. split_and!; try done. lia.
    + destruct (counted_start _ _ Hcnt ltac:(lia)) as (_ & Hl1 & H1).
      apply IH in Hr as [Hk1 Ho]; [|done..|by rewrite He1|lia].
      split; [by eapply kept0_trans|]. destruct o; [|done]. destruct Ho as (?&?&?&?).
      split_and!; try done. lia.
  - apply advanceFrame_any in Ha as ([Hk Hge] & _); [|done]. simplify_eq.
    pose proof (kept_kept0 _ _ Hk Hgo Hb) as (?&?&?&?). split; [by split_and!|]. by exists e.
Qed.

(** A call of [br.Read] with room for at least a byte. *)
Lemma br_Read_any m c b e c' :
  go_errors c -> bytes_ok (input c) -> (0 < m)%nat -> br_Read m c = (b, e, c') ->
  kept c c' /\ same_frame c c' /\ (length b <= m)%nat
  /\ match e with
     | None => b <> [] /\ (length (input c') < length (input c))%nat
     | Some e => go_error e
     end.
Proof.
  intros (Hgo & _) Hb Hm Hr. unfold br_Read in Hr.
  destruct (match feed c with [] => _ | x :: _ => x end) as [k early].
  destruct (input c) as [|x inp] eqn:Hin.
  - rewrite (proj2 (Nat.ltb_lt 0 m)) in Hr by done. simplify_eq/=. split_and!; try done; simpl; lia.
  - set (n := Nat.min _ _) in Hr. assert (Hn : (0 < n <= m)%nat /\ (n <= length (x :: inp))%nat).
    { unfold n. simpl. lia. }
    injection Hr as <- <- <-. split.
    { split_and!; try done; cbn [input r_set_input r_set_feed]; rewrite ?Hin;
        [rewrite length_drop; lia|apply Forall_drop]. }
    split; [done|]. split; [rewrite length_take; lia|]. destruct (_ && early); [done|].
    split; [by destruct n; [lia|]|]. cbn [input r_set_input r_set_feed]. rewrite length_drop.
    cbn [length] in *. lia.
Qed.

Lemma readFrame_any m c dl b e c' :
  go_errors c -> bytes_ok (input c) -> (0 < m)%nat -> 0 < readRemaining c -> counted c dl ->
  readFrame m c = (b, e, c') ->
  kept0 c c' /\ counted c' (dl + blen b) /\ readErr c' = e /\ (length b <= m)%nat
  /\ match e with
     | None => b <> [] /\ (length (input c') < length (input c))%nat
     | Some e => go_error e
     end.
Proof.
  intros Hgo Hb Hm Hrem (H1 & H2 & H3 & H4) Hr. unfold readFrame in Hr.
  set (m' := if _ <? _ then _ else m) in Hr.
  assert (Hm' : (0 < m' <= m)%nat /\ Z.of_nat m' <= readRemaining c).
  { unfold m'. destruct (Z.ltb_spec (readRemaining c) (Z.of_nat m)); lia. }
  destruct (br_Read m' c) as [[b1 e1] c1] eqn:Hbr.
  apply br_Read_any in Hbr as (Hk & [Hr1 Hl1] & Hlen & Hx); [|done|done|lia].
  pose proof (kept_kept0 _ _ Hk Hgo Hb) as (Hk1 & Hk2 & Hk3 & Hk4).
  destruct (if isServer _ then _ else _) as [b2 c2] eqn:Hm2.
  assert (Hc2 : length b2 = length b1 /\ exists p, c2 = r_set_maskPos p (r_set_readErr e1 c1)).
  { destruct (isServer _); [|injection Hm2 as <- <-; split; [done|eexists; by destruct c1]].
    rewrite safe_maskBytes in Hm2. injection Hm2 as <- <-. rewrite length_mask_bytes. eauto. }
  destruct Hc2 as [Hlb [p ->]]. cbn [readErr r_set_remaining r_set_maskPos r_set_readErr readRemaining] in Hr.
  assert (Hbl : blen b2 = blen b1) by (unfold blen; lia).
  destruct (_ && bool_decide _) eqn:Heof; injection Hr as <- <- <-;
    (split; [split_and!; done|]; split;
     [unfold counted, limit_ok in *; simpl; rewrite Hr1, Hl1, Hk1, Hbl; unfold blen; split_and!; try done; lia|];
     split; [done|]; split; [lia|]); [done|].
  simpl. destruct e1; [done|]. destruct Hx as [Hne ?]. split; [|done].
  intros ->. destruct b1; [done|]. simpl in Hlb. lia.
Qed.

Lemma read_loop_failed fuel r m c e :
  readErr c = Some e -> go_error e ->
  exists e', read_loop fuel r m c = ([], Some e', c) /\ go_error e'.
Proof.
  intros He Hge. destruct fuel; simpl; rewrite He; eexists; (split; [done|]); by case_decide.
Qed.

(** A call of [Read] returns: bytes, or an error of the code. *)
Lemma read_loop_any m (Hm : (0 < m)%nat) r fuel : forall c dl b e c',
  go_errors c -> bytes_ok (input c) -> readErr c = None -> 0 <= dl -> counted c dl ->
  (length (input c) < fuel)%nat -> read_loop fuel r m c = (b, e, c') ->
  limit_ok c (dl + blen b) /\ kept0 c c' /\ (length b <= m)%nat
  /\ match e with
     | None => b <> [] /\ (length (input c') < length (input c))%nat /\ readErr c' = None
               /\ counted c' (dl + blen b)
     | Some e => go_error e
     end.
Proof.
  induction fuel as [|fuel IH]; intros c dl b e c' Hgo Hb He Hdl Hcnt Hfuel Hr; [lia|].
  assert (Hself : kept0 c c) by (apply kept_kept0; [apply kept_refl|done|done]).
  assert (Hlim0 : limit_ok c (dl + 0)).
  { destruct Hcnt as (?&?&?&?). unfold limit_ok in *. lia. }
  destruct (decide (0 < readRemaining c)) as [Hrem|Hrem].
  { rewrite read_loop_frame in Hr by done.
    eapply readFrame_any in Hr as (Hk & Hc' & He' & Hbm & Hx); [|done..].
    split; [|split; [done|split; [done|destruct e; [done|by destruct Hx; split_and!]]]].
    destruct Hc' as (?&?&?&?), Hk as (Hl & _). unfold limit_ok in *. rewrite Hl in *.
    pose proof (blen_nonneg b). lia. }
  assert (Hz : readRemaining c = 0) by (destruct Hcnt; lia).
  cbn [read_loop] in Hr. rewrite He, Hz in Hr. change (0 <? 0) with false in Hr. cbv iota in Hr.
  destruct (readFinal c); [simplify_eq; by split_and!; simpl; try lia|].
  destruct (counted_start _ _ Hcnt Hdl) as (Hs1 & Hs2 & Hs3).
  assert (Hfail : forall c1 e1, kept c c1 -> go_error e1 ->
    read_loop fuel r m (r_set_readErr (Some e1) c1) = (b, e, c') ->
    limit_ok c (dl + blen b) /\ kept0 c c' /\ (length b <= m)%nat
    /\ match e with None => False | Some e => go_error e end).
  { intros c1 e1 Hk Hge Hrd. destruct (read_loop_failed fuel r m (r_set_readErr (Some e1) c1) e1)
      as (e2 & Heq & Hge2); [done|done|]. rewrite Heq in Hrd. simplify_eq.
    pose proof (kept_kept0 _ _ Hk Hgo Hb) as (?&?&?&?). split; [done|]. split; [by split_and!|]. split; [simpl; lia|done]. }
  destruct (advanceFrame c) as [[ft|e1] c1] eqn:Ha.
  - apply (advance_counted c dl) in Ha as (Hk & Hcnt1 & Hlen & _); [|done..].
    destruct (isData ft).
    { apply Hfail in Hr as (?&?&?&Hx); [|done|done]. split_and!; try done. by destruct e. }
    pose proof (kept_kept0 _ _ Hk Hgo Hb) as Hk0. pose proof Hk0 as (Hl1 & Hgo1 & Hb1 & _).
    assert (He1 : readErr c1 = None) by (destruct Hk as [-> _]; done).
    eapply IH in Hr as (Hlim & Hk1 & Hbm & Hx); [|done..|lia].
    split; [unfold limit_ok in *; by rewrite Hl1 in Hlim|]. split; [by eapply kept0_trans|].
    split; [done|]. destruct e; [done|]. destruct Hx as (?&?&?&?). split_and!; try done. lia.
  - apply advanceFrame_any in Ha as ([Hk Hge] & _); [|done].
    apply Hfail in Hr as (?&?&?&Hx); [|done|done]. split_and!; try done. by destruct e.
Qed.

Lemma readAll_any appendCap (Hcap : forall n, (n < appendCap n)%nat) r fuel : forall c b cap p e c',
  go_errors c -> bytes_ok (input c) -> readErr c = None -> counted c (blen b) ->
  (length b < cap)%nat -> (length (input c) < fuel)%nat ->
  readAll_loop appendCap fuel r b cap c = (p, e, c') ->
  limit_ok c (blen p) /\ kept0 c c' /\ (forall e', e = Some e' -> go_error e').
Proof.
  induction fuel as [|fuel IH]; intros c b cap p e c' Hgo Hb He Hcnt Hcapb Hfuel Hr; [lia|].
  cbn [readAll_loop] in Hr. destruct (Reader_Read r (cap - length b) c) as [[q e1] c1] eqn:Hq.
  assert (Hrd : limit_ok c (blen b + blen q) /\ kept0 c c1 /\ (length q <= cap - length b)%nat
    /\ match e1 with
       | None => q <> [] /\ (length (input c1) < length (input c))%nat /\ readErr c1 = None
                 /\ counted c1 (blen b + blen q)
       | Some e => go_error e
       end).
  { unfold Reader_Read in Hq. case_decide.
    - eapply read_loop_any in Hq; eauto using blen_nonneg; lia.
    - simplify_eq. split; [|split; [apply kept_kept0; [apply kept_refl|done|done]|split; [simpl; lia|done]]].
      destruct Hcnt as (?&?&?&?). unfold limit_ok in *. pose proof (blen_nonneg b).
      change (blen (@nil Z)) with 0. lia. }
  rewrite <- blen_app in Hrd. destruct Hrd as (Hlim & Hk & Hqm & Hx). destruct e1 as [e1|].
  - simplify_eq. split; [done|]. split; [done|]. intros e'. case_decide; [done|]. by intros; simplify_eq.
  - destruct Hx as (Hne & Hlen & He1 & Hcnt1). pose proof Hk as (Hl & Hgo1 & Hb1 & _).
    apply IH in Hr as (Hlim2 & Hk2 & Hge); try done; [| |lia].
    + split; [unfold limit_ok in *; by rewrite Hl in Hlim2|]. split; [by eapply kept0_trans|done].
    + rewrite length_app. destruct (Nat.eqb_spec (length b + length q) cap) as [->|]; [apply Hcap|lia].
Qed.

(** What is known of [ReadMessage] for any input. *)
Lemma ReadMessage_any appendCap c t p e c' :
  (forall n, (n < appendCap n)%nat) -> go_errors c -> bytes_ok (input c) ->
  (forall e, readErr c = Some e -> go_error e) ->
  ReadMessage appendCap c = (t, p, e, c') ->
  (forall e', e = Some e' -> go_error e') /\ (length (input c') <= length (input c))%nat
  /\ (e = None -> isData t = true /\ (length (input c') < length (input c))%nat)
  /\ (0 < readLimit c -> blen p <= readLimit c).
Proof.
  intros Hcap Hgo Hb Hre Hr. unfold ReadMessage, NextReader in Hr.
  set (c0 := r_set_readLength 0 (r_set_messageReader None c)) in Hr.
  destruct (nextReader_loop _ c0) as [o c1] eqn:Hn.
  apply nextReader_loop_any in Hn as [Hk Ho];
    [|done|done|unfold limit_ok; simpl; lia|unfold int64_ok; simpl; lia|done|simpl; lia].
  pose proof Hk as (Hl & Hgo1 & Hb1 & Hlen). change (readLimit c0) with (readLimit c) in Hl.
  change (input c0) with (input c) in *. destruct o as [ft|].
  - destruct Ho as (Hd & He1 & Hcnt & Hlt). set (c2 := r_set_readers _ _) in Hr.
    destruct (readAll_loop _ _ _ _ _ c2) as [[p1 e1] c3] eqn:Hra. simplify_eq.
    apply readAll_any in Hra as (Hlim & (_ & _ & _ & Hlen3) & Hge); try done; [|simpl; lia|lia].
    change (input c2) with (input c1) in Hlen3. change (limit_ok c1 (blen p)) in Hlim.
    split_and!; try done; [lia|intros _; split; [done|lia]|].
    unfold limit_ok in Hlim. rewrite Hl in Hlim. lia.
  - destruct Ho as (e1 & He1 & Hge). simpl in Hr. rewrite He1 in Hr.
    destruct (1000 <=? _); simplify_eq; (split; [intros; by simplify_eq|]);
      (split; [simpl; lia|]); (split; [done|]); intros; change (blen (@nil Z)) with 0; lia.
Qed.

(** C39. Reading ends on every input: for any bytes from the peer, delivered in
    any portions, the loops of [NextReader], of the reader and of [io.ReadAll]
    finish; a call that returns a message has a text or binary message and has
    taken input, and any other call returns an error of the code. *)
Theorem ReadMessage_terminates appendCap c t p e c' :
  (forall n, (n < appendCap n)%nat) -> go_errors c -> bytes_ok (input c) ->
  readErr c = None -> ReadMessage appendCap c = (t, p, e, c') ->
  e <> Some out_of_fuel /\ (length (input c') <= length (input c))%nat
  /\ (e = None -> isData t = true /\ (length (input c') < length (input c))%nat).
Proof.
  intros Hcap Hgo Hb He Hr. apply ReadMessage_any in Hr as (Hge & Hl & Hn & _); try done.
  - split_and!; try done. intros ->. by apply (Hge out_of_fuel).
  - by rewrite He.
Qed.


End AnyInput.

Import BufferNet.

(** A server that sends a large text message in pieces, with a ping in between,
    and a short binary one; the client's network delivers three bytes at a
    time. *)
Definition server0 : WConn bytes := newWConn true 20 false [] [].
Definition server_ops : list wop :=
  [OpNext TextMessage; OpWrite 0 (Z.of_nat <$> seq 0 30); OpControl PingMessage [33] 0;
   OpWriteString 0 (Z.of_nat <$> seq 30 15); OpMessage BinaryMessage [1; 2; 3]].

Definition server_log : list (Z * bytes) :=
  [(PingMessage, [33]); (TextMessage, Z.of_nat <$> seq 0 45); (BinaryMessage, [1; 2; 3])].

Definition server_sent : option (WConn bytes * (list (Z * bytes) * option (nat * Z * bytes))) :=
  spec_ops server_ops server0 ([], None).

Definition client_reads (cw : WConn bytes) : list (Z * bytes * option ws_error) :=
  fst (readMessages (fun n => 2 * n + 1)%nat (length (dataMessages server_log))
        (newConn (negb true) 0 0 false [] [] (drop (length (wire [])) (wire (net cw)))
           io_EOF (replicate 30 (3%nat, false)))).

Lemma messages_delivered_witness :
  exists cw, server_sent = Some (cw, (server_log, None))
  /\ client_reads cw = (fun m => (fst m, snd m, None)) <$> dataMessages server_log.
Proof.
  eexists. split; [vm_compute; reflexivity|].
  apply (messages_delivered true 20 false [] [] server_ops _ server_log None
    0 0 false [] [] io_EOF (replicate 30 (3%nat, false)) (fun n => 2 * n + 1)%nat);
    [by left|vm_compute; reflexivity|reflexivity| |intros; lia|].
  - repeat constructor; vm_compute; reflexivity.
  - apply Forall_replicate. reflexivity.
Defined.

(** * Concrete connections *)

(** A client that reads [inp], with a limit. *)
Definition client (limit : Z) (inp : bytes) : Conn bytes :=
  SetReadLimit limit (newConn false 0 0 false [] [] inp io_EOF []).

Lemma client_go_errors limit inp : go_errors (client limit inp).
Proof. split_and!; intros; try done; simplify_eq/=. Qed.

(** A frame that announces more than the limit, then one that is cut off. *)
Definition greedy : bytes := [1; 3; 104; 101; 108; 128; 126; 255; 255; 108; 111].

Lemma ReadMessage_terminates_witness :
  snd (fst (ReadMessage (fun n => 2 * n + 1)%nat (client 0 greedy))) <> Some out_of_fuel.
Proof.
  destruct (ReadMessage (fun n => 2 * n + 1)%nat (client 0 greedy)) as [[[t p] e] c'] eqn:Hr.
  eapply (ReadMessage_terminates (fun n => 2 * n + 1)%nat (client 0 greedy) t p e c');
    [intros; lia|apply client_go_errors| |reflexivity|exact Hr].
  repeat constructor; unfold byte_ok; lia.
Defined.


(** Two messages: one of five bytes in two frames, and one of four bytes. *)
Definition two_messages : bytes :=
  [1; 3; 97; 97; 97] ++ [128; 2; 98; 98] ++ [129; 4; 99; 99; 99; 99].

(** The limit also counts what is left of a message that the application
    abandoned: with a limit of five bytes, the second call of [NextReader]
    skips the first message, adds the length of its continuation frame to that
    of the second message, which has four bytes, and refuses it; the same
    message is accepted when the first one has been read, and when it comes
    alone. *)
Theorem limit_counts_abandoned_message :
  let c1 := snd (NextReader (client 5 two_messages)) in
  fst (NextReader c1) = Err ErrReadLimit
  /\ fst (readMessages (fun n => 2 * n + 1)%nat 2 (client 5 two_messages))
     = [(TextMessage, [97; 97; 97; 98; 98], None); (TextMessage, [99; 99; 99; 99], None)]
  /\ fst (readMessages (fun n => 2 * n + 1)%nat 1 (client 5 (drop 9 two_messages)))
     = [(TextMessage, [99; 99; 99; 99], None)].
Proof. vm_compute. repeat split. Qed.

(** ** The checks of a header *)

(** The first two bytes of a frame as RFC 6455 allows them, for a connection
    that has no extension: no reserved bit, a known opcode, a control frame
    that is final and short, a new message only after the end of the last and a
    continuation only before it, and a mask exactly on frames from a client. *)
Definition header_valid (server readFinal : bool) (b0 b1 : Z) : bool :=
  let op := b0 mod 16 in
  let fin := 128 <=? b0 in
  (b0 / 16 mod 8 =? 0)
  && Bool.eqb (128 <=? b1) server
  && (((8 <=? op) && (op <=? 10) && fin && (b1 mod 128 <=? 125))
      || ((1 <=? op) && (op <=? 2) && readFinal)
      || ((op =? 0) && negb readFinal)).

(** [P] for all bytes, by evaluation. *)
Definition all_bytes (P : Z -> bool) : bool := forallb (fun n => P (Z.of_nat n)) (seq 0 256).

Lemma all_bytes_spec P b : all_bytes P = true -> byte_ok b -> P b = true.
Proof.
  unfold all_bytes, byte_ok. rewrite forallb_forall. intros Hall Hb.
  specialize (Hall (Z.to_nat b) ltac:(apply in_seq; lia)). by rewrite Z2Nat.id in Hall by lia.
Qed.

(** Only the mask bit of the second byte matters, and whether its length is a
    short one: four bytes stand for all. *)
Definition byte1_class (b1 : Z) : Z :=
  (if bit_set b1 maskBit then 128 else 0) + (if maxControlFramePayloadSize <? Z.land b1 127 then 127 else 0).

Lemma headerErrors_class server readFinal b0 b1 :
  byte_ok b1 ->
  headerErrors server readFinal b0 b1 = headerErrors server readFinal b0 (byte1_class b1)
  /\ header_valid server readFinal b0 b1 = header_valid server readFinal b0 (byte1_class b1)
  /\ In (byte1_class b1) [0; 127; 128; 255].
Proof.
  intros Hb.
  assert (Hc : all_bytes (fun b => let k := byte1_class b in
     Bool.eqb (bit_set b maskBit) (bit_set k maskBit)
     && Bool.eqb (maxControlFramePayloadSize <? Z.land b 127) (maxControlFramePayloadSize <? Z.land k 127)
     && Bool.eqb (128 <=? b) (128 <=? k) && Bool.eqb (b mod 128 <=? 125) (k mod 128 <=? 125)) = true)
    by (vm_compute; reflexivity).
  apply (all_bytes_spec _ b1) in Hc; [|done]. cbv zeta in Hc.
  apply andb_true_iff in Hc as [Hc E4]. apply andb_true_iff in Hc as [Hc E3].
  apply andb_true_iff in Hc as [E1 E2]. apply eqb_prop in E1, E2, E3, E4.
  unfold headerErrors, header_valid. split_and!; [by rewrite E1, E2|by rewrite E3, E4|].
  clear.   unfold byte1_class. destruct (bit_set b1 maskBit), (_ <? _); simpl; auto.
Qed.

Lemma headerErrors_exact server readFinal b0 b1 :
  byte_ok b0 -> byte_ok b1 ->
  header_valid server readFinal b0 b1 = match headerErrors server readFinal b0 b1 with [] => true | _ => false end.
Proof.
  intros H0 H1. destruct (headerErrors_class server readFinal b0 b1 H1) as (-> & -> & Hin).
  assert (Hall : all_bytes (fun b => forallb (fun k => forallb (fun s => forallb (fun f =>
      Bool.eqb (header_valid s f b k)
        match headerErrors s f b k with [] => true | _ => false end)
      [true; false]) [true; false]) [0; 127; 128; 255]) = true) by (vm_compute; reflexivity).
  apply (all_bytes_spec _ b0) in Hall; [|done]. rewrite forallb_forall in Hall.
  specialize (Hall _ Hin). rewrite forallb_forall in Hall.
  specialize (Hall server ltac:(destruct server; simpl; auto)). rewrite forallb_forall in Hall.
  specialize (Hall readFinal ltac:(destruct readFinal; simpl; auto)). by apply eqb_prop in Hall.
Qed.

(** *** Errors that are not the reader's own

    The network and the handlers of the application have other errors than the
    protocol errors of the reader. *)
Section Tame.
Context {W : Type} `{WsEnv W}.
Implicit Types c : Conn W.

Definition not_protocol (e : option ws_error) : Prop := forall m, e <> Some (errProtocol m).

Definition foreign_errors c : Prop :=
  not_protocol (Some (inputErr c))
  /\ (forall p w, not_protocol (fst (handlePing c p w)))
  /\ (forall p w, not_protocol (fst (handlePong c p w)))
  /\ (forall t p w, not_protocol (fst (handleClose c t p w))).

(** A step of reading that raises no protocol error. *)
Definition tame {A} (m : RM W A) : Prop := forall c r c', foreign_errors c -> m c = (r, c') ->
  foreign_errors c' /\ forall s, r <> Err (errProtocol s).

Lemma tame_bind {A B} (m : RM W A) (k : A -> RM W B) :
  tame m -> (forall a, tame (k a)) -> tame (rbind m k).
Proof.
  intros Hm Hk c r c' Hc. unfold rbind. destruct (m c) as [[x|e] c1] eqn:E.
  - intros Hr. apply Hm in E as [Hc1 _]; [|done]. by eapply Hk.
  - intros Hr. apply Hm in E as [Hc1 He]; [|done]. simplify_eq. split; [done|]. intros s' [=->]. by apply (He s').
Qed.

Lemma tame_modify (f : Conn W -> Conn W) : (forall c, foreign_errors c -> foreign_errors (f c)) -> tame (rmodify f).
Proof. intros Hf c r c' Hc [= <- <-]. split; [by apply Hf|done]. Qed.

Lemma tame_throw {A} e : (forall s, e <> errProtocol s) -> tame (rthrow (A := A) e).
Proof. intros He c r c' Hc [= <- <-]. split; [done|]. intros s' [=->]. by apply (He s'). Qed.

Lemma tame_ret {A} (a : A) : tame (rret a).
Proof. intros c r c' Hc [= <- <-]. done. Qed.

Lemma read_foreign n c p e c' : foreign_errors c -> read n c = (p, e, c') -> foreign_errors c' /\ not_protocol e.
Proof.
  intros Hc. unfold read, br_Peek. pose proof (proj1 Hc) as Hi.
  destruct (_ <? _)%nat; [|destruct (_ <=? _)%nat]; case_decide; intros; simplify_eq; split; try done.
Qed.

Lemma tame_readN n : tame (readN (W := W) n).
Proof.
  intros c r c' Hc. unfold readN. destruct (read n c) as [[p e] c1] eqn:E. apply read_foreign in E as [Hc1 He]; [|done].
  destruct e as [e|]; intros; simplify_eq; split; try done. intros s' [=->]. by apply (He s').
Qed.

Lemma tame_setReadRemaining n : tame (setReadRemaining (W := W) n).
Proof. unfold setReadRemaining. destruct (n <? 0); [by apply tame_throw|by apply tame_modify]. Qed.

Lemma tame_rget {A} (k : Conn W -> RM W A) : (forall c, foreign_errors c -> tame (k c)) -> tame (rbind rget k).
Proof. intros Hk c r c' Hc Hr. unfold rbind, rget in Hr. by eapply (Hk c). Qed.

#[local] Hint Resolve tame_bind tame_throw tame_ret tame_readN tame_setReadRemaining tame_rget : tame.

Lemma tame_readExtendedLength : tame (readExtendedLength (W := W)).
Proof. apply tame_rget. intros c _. destruct (_ =? 126); [|destruct (_ =? 127)]; auto with tame. Qed.

Lemma tame_readMask b : tame (readMask (W := W) b).
Proof.
  unfold readMask. destruct b; [|apply tame_ret]. apply tame_bind; [by apply tame_modify|]. intros _.
  apply tame_bind; [apply tame_readN|]. intros p. by apply tame_modify.
Qed.

Lemma tame_enforceLimit t : tame (enforceLimit (W := W) t).
Proof.
  apply tame_bind; [by apply tame_modify|]. intros _. apply tame_rget. intros c _.
  destruct (_ <? 0); [by apply tame_throw|]. destruct (_ && _); [|apply tame_ret].
  apply tame_bind; [by apply tame_modify|]. intros _. by apply tame_throw.
Qed.

Lemma tame_readControlPayload : tame (readControlPayload (W := W)).
Proof.
  intros c r c' Hc. unfold readControlPayload. destruct (0 <? _); [|intros [= <- <-]; done].
  destruct (read _ c) as [[p e] c1] eqn:E. apply read_foreign in E as [Hc1 He]; [|done].
  destruct e as [e|]; intros; simplify_eq; split; try done. intros s' [=->]. by apply (He s').
Qed.

Lemma tame_callHandler h : (forall w, not_protocol (fst (h w))) -> tame (callHandler (W := W) h).
Proof.
  intros Hh c r c' Hc. unfold callHandler. specialize (Hh (wconn c)). destruct (h (wconn c)) as [[e|] w]; intros; simplify_eq;
    (split; [done|]); [|done]. intros s' [=->]. by apply (Hh s').
Qed.

(** What a close frame can still be refused for. *)
Definition close_refusal (message : string) : Prop :=
  (exists code, message = ("bad close code " +:+ NetIP.dec code)%string) \/
  message = "invalid utf8 payload in close frame".

Lemma processControl_protocol t p c r c' : foreign_errors c -> processControl t p c = (r, c') ->
  forall message, r = Err (errProtocol message) -> t = CloseMessage /\ close_refusal message.
Proof.
  intros Hc Hr message ->. pose proof Hc as (_ & Hpi & Hpo & Hcl).
  assert (forall m : RM W Z, tame m -> m c = (Err (errProtocol message), c') -> False) as Ht.
  { intros m Hm E. apply (Hm _ _ _ Hc) in E as [_ E]. by apply (E message). }
  unfold processControl, rbind at 1, rget in Hr.
  destruct (_ =? PongMessage); [exfalso; revert Hr; apply Ht; apply tame_bind; [by apply tame_callHandler|intros; apply tame_ret]|].
  destruct (_ =? PingMessage); [exfalso; revert Hr; apply Ht; apply tame_bind; [by apply tame_callHandler|intros; apply tame_ret]|].
  destruct (Z.eqb_spec t CloseMessage) as [->|]; [|exfalso; revert Hr; apply Ht, tame_ret]. split; [done|].
  assert (forall code text, tame (rbind (callHandler (handleClose c code text)) (fun _ => rthrow (A := Z) (CloseError code text)))) as Hclose.
  { intros code text. apply tame_bind; [by apply tame_callHandler|]. intros _. by apply tame_throw. }
  destruct (2 <=? blen p); [|exfalso; revert Hr; apply Ht, Hclose].
  destruct (negb (isValidReceivedCloseCode _)); [left; unfold handleProtocolError, rbind, rmodify, rthrow in Hr; simplify_eq; eauto|].
  destruct (negb (ValidString _)); [right; unfold handleProtocolError, rbind, rmodify, rthrow in Hr; by simplify_eq|].
  exfalso. revert Hr. apply Ht, Hclose.
Qed.

(** After a good header. *)
Lemma rest_protocol t mask c message c' : foreign_errors c ->
  (let! _ := readExtendedLength in
   let! _ := readMask mask in
   if isMessageFrame t then enforceLimit t
   else (let! payload := readControlPayload in processControl t payload)) c = (Err (errProtocol message), c') ->
  t = CloseMessage /\ close_refusal message.
Proof.
  intros Hc Hr. apply rbind_inv in Hr as [(e & H1 & [= <-])|(u & c1 & H1 & Hr)]; [apply tame_readExtendedLength in H1 as [_ H1]; [by destruct (H1 message)|done]|].
  apply tame_readExtendedLength in H1 as [Hc1 _]; [|done].
  apply rbind_inv in Hr as [(e & H2 & [= <-])|(u1 & c2 & H2 & Hr)]; [apply tame_readMask in H2 as [_ H2]; [by destruct (H2 message)|done]|].
  apply tame_readMask in H2 as [Hc2 _]; [|done]. destruct (isMessageFrame t).
  - apply tame_enforceLimit in Hr as [_ Hr]; [|done]. by destruct (Hr message).
  - apply rbind_inv in Hr as [(e & H3 & [= <-])|(pl & c3 & H3 & Hr)]; [apply tame_readControlPayload in H3 as [_ H3]; [by destruct (H3 message)|done]|].
    apply tame_readControlPayload in H3 as [Hc3 _]; [|done]. by eapply processControl_protocol.
Qed.
End Tame.

(** C38. A header is refused exactly when RFC 6455 forbids it.  With the first
    two bytes of a frame at hand and no part of a frame before it left, [advanceFrame]
    on a header that is not valid fails with a protocol error that lists all that is wrong and
    sends a close frame with code 1002 and that text; on a valid one it gives no protocol
    error, unless it is a close frame whose payload has a bad code or a text that is not
    UTF-8.  The errors of the network and of the application's handlers are not protocol
    errors of the reader, and its buffer has room for two bytes. *)
Theorem invalid_header_refused {W} `{WsEnvLaws W} (c : Conn W) b0 b1 rest :
  input c = b0 :: b1 :: rest -> byte_ok b0 -> byte_ok b1 ->
  readRemaining c = 0 -> (2 <= brSize c)%nat -> foreign_errors c ->
  let server := isServer (wconn c) in
  if header_valid server (readFinal c) b0 b1
  then forall message c', advanceFrame c = (Err (errProtocol message), c') ->
       Z.land b0 15 = CloseMessage /\ close_refusal message
  else exists message c', advanceFrame c = (Err (errProtocol message), c')
       /\ message = Join (headerErrors server (readFinal c) b0 b1) ", "
       /\ wconn c' = sendControl CloseMessage
            (take 125 (FormatCloseMessage CloseProtocolError (bytes_of_string message))) (wconn c).
Proof.
  intros Hin Hb0 Hb1 Hrem Hbr Hf server. rewrite headerErrors_exact by done.
  set (c1 := (if isMessageFrame (Z.land b0 15) then r_set_final (bit_set b0 finalBit) else fun c => c)
               (r_set_remaining (Z.land b1 127) (r_set_input rest c))).
  assert (advanceFrame c = match headerErrors server (readFinal c) b0 b1 with
    | [] => (let! _ := readExtendedLength in
             let! _ := readMask (bit_set b1 maskBit) in
             if isMessageFrame (Z.land b0 15) then enforceLimit (Z.land b0 15)
             else (let! payload := readControlPayload in processControl (Z.land b0 15) payload)) c1
    | errors => handleProtocolError (Join errors ", ") c1
    end) as ->.
  { unfold advanceFrame, rbind at 1, skipFrame. rewrite Hrem. change (0 <? 0) with false. cbv iota.
    unfold rbind at 1. rewrite (readN_app 2 [b0; b1] rest c Hin eq_refl Hbr).
    change (byte_at [b0; b1] 0) with b0. change (byte_at [b0; b1] 1) with b1. cbv zeta.
    unfold rbind at 1, rmodify at 1. unfold rbind at 1, rget. unfold rbind at 1, rmodify at 1.
    change (headerErrors (isServer (wconn (r_set_remaining _ _))) _ b0 b1) with (headerErrors server (readFinal c) b0 b1).
    by destruct (headerErrors server (readFinal c) b0 b1). }
  destruct (headerErrors server (readFinal c) b0 b1) as [|e es] eqn:He.
  - intros message c'. apply rest_protocol. unfold c1. by destruct (isMessageFrame _).
  - unfold handleProtocolError, rbind, rmodify, rthrow. do 2 eexists. split; [reflexivity|].
    split; [done|]. unfold c1. by destruct (isMessageFrame _).
Qed.

Lemma invalid_header_refused_witness :
  header_valid false true 195 132 = false
  /\ exists c', advanceFrame (client 0 [195; 132]) =
       (Err (errProtocol "RSV1 set, bad opcode 3, bad MASK"), c').
Proof.
  split; [reflexivity|].
  destruct (invalid_header_refused (client 0 [195; 132]) 195 132 []) as (msg & c' & Ha & Hmsg & _);
    [reflexivity|unfold byte_ok; lia|unfold byte_ok; lia|reflexivity|vm_compute; lia| |].
  { split; [intros m; discriminate|]. split; [|split]; intros; intros m; vm_compute; discriminate. }
  exists c'. rewrite Ha, Hmsg. reflexivity.
Defined.
