(* ===== verification/WsPrepared.v ===== *)
(** Prepared messages: lib/websocket/prepared.go and [WritePreparedMessage] of
    conn.go.

    A prepared message keeps the bytes of its frames, one version per kind of
    connection, so that it can be sent to many of them.  The frames are made by
    [WriteMessage] on a connection whose network is a buffer ([prepareConn]). *)

From S2P Require Import Prelude WsMask WsWrite WsStream WsRead WsMessages.

(** [prepareConn]: writes go to a buffer; mask keys come from the package's
    source of randomness as elsewhere. *)
#[export] Instance prepareConn {W} `{WsEnv W} : WsEnv (bytes * W) := {|
  netWrite b w := (None, (fst w ++ b, snd w));
  netSetWriteDeadline _ w := (None, w);
  newMaskKey w := let '(key, n) := newMaskKey (snd w) in (key, (fst w, n));
  timeNow w := timeNow (snd w);
  muWait _ := 0;
  poolGet w := (None, w);
  poolPut _ w := w |}.

#[export] Instance prepareConn_laws {W} `{WsEnvLaws W} : WsEnvLaws (bytes * W).
Proof.
  refine (@Build_WsEnvLaws (bytes * W) prepareConn fst _ _ _ _ _ _ _ _ _); simpl; intros;
    simplify_eq; try done.
  - by destruct (newMaskKey w.2).
  - pose proof (maskKey_ok w.2). by destruct (newMaskKey w.2).
Defined.

(** [prepareKey]: isServer, compress and compressionLevel. *)
Definition prepareKey : Type := bool * bool * Z.

(** A frame is in the map once its [once] has run. *)
Record PreparedMessage := {
  pm_messageType : Z;
  pm_data : bytes;
  pm_frames : gmap prepareKey bytes;
}.

Section Prepared.
Context {W : Type} `{WsEnv W}.

(** The connection that [frame] makes up. *)
Definition prepare_conn (srv : bool) (n : W) : WConn (bytes * W) :=
  {| isServer := srv;
     writeBuf := replicate (Z.to_nat defaultWriteBufferSize + maxFrameHeaderSize) 0;
     hasPool := false; writeBufSize := 0; writeDeadline := 0; writer := None; mws := [];
     writeErr := None; net := ([], n) |}.

(** [PreparedMessage.frame]: the message type, the bytes and the error, which is
    nil whenever the frame had been prepared before. *)
Definition frame (key : prepareKey) (pm : PreparedMessage) (n : W)
  : Z * bytes * option ws_error * PreparedMessage * W :=
  match pm_frames pm !! key with
  | Some data => (pm_messageType pm, data, None, pm, n)
  | None =>
      let '(err, c) := WriteMessage (pm_messageType pm) (pm_data pm)
                         (prepare_conn (fst (fst key)) n) in
      let data := fst (net c) in
      (pm_messageType pm, data, err,
       {| pm_messageType := pm_messageType pm; pm_data := pm_data pm;
          pm_frames := <[key := data]> (pm_frames pm) |}, snd (net c))
  end.

(** [NewPreparedMessage]. *)
Definition NewPreparedMessage (messageType : Z) (data : bytes) (n : W)
  : result ws_error PreparedMessage * W :=
  let pm := {| pm_messageType := messageType; pm_data := data; pm_frames := ∅ |} in
  match frame (true, false, 0) pm n with
  | (_, _, Some err, _, n) => (Err err, n)
  | (_, frameData, None, pm, n) =>
      (Ok {| pm_messageType := pm_messageType pm;
             pm_data := drop (length frameData - length data) frameData;
             pm_frames := pm_frames pm |}, n)
  end.

(** [Conn.WritePreparedMessage]; [level] is the compression level of the
    connection, and no compression has been negotiated. *)
Definition WritePreparedMessage (level : Z) (pm : PreparedMessage) (c : WConn W)
  : option ws_error * PreparedMessage * WConn W :=
  match frame (isServer c, false, level) pm (net c) with
  | (_, _, Some err, pm, n) => (Some err, pm, set_net n c)
  | (frameType, frameData, None, pm, n) =>
      let '(err, c) := write frameType (writeDeadline c) frameData [] (set_net n c) in (err, pm, c)
  end.

End Prepared.

Section ServerFrame.
Context {W : Type} `{WsEnvLaws W}.
Implicit Types c : WConn W.

(** A server sends a message as one frame. *)
Lemma WriteMessage_server s0 c log t data c' :
  conn_ok s0 c log None -> isServer c = true -> WriteMessage t data c = (None, c') ->
  wire (net c') = wire (net c) ++ encode_frame (Frame true t None data)
  /\ frame_ok true (Frame true t None data)
  /\ (closed log = false -> is_Some (assemble_frame (log, None) (Frame true t None data))).
Proof.
  intros Hc Hsrv Hr. unfold WriteMessage in Hr. rewrite Hsrv in Hr.
  assert (Hcc : close_current c = c).
  { unfold close_current. destruct Hc as (_ & _ & _ & ? & _ & Hw & _). by rewrite Hw. }
  destruct (beginMessage t c) as [[w|e] c1] eqn:Hb; [|done].
  assert (Hw1 : wire (net c1) = wire (net c)).
  { unfold beginMessage in Hb. fold (close_current c) in Hb. rewrite Hcc in Hb.
    destruct (_ && _); [done|]. destruct (writeErr c); [done|].
    pose proof (poolGet_wire (net c)) as Hp. case_decide; [|by simplify_eq].
    destruct (poolGet (net c)) as [[b|] n]; by simplify_eq. }
  eapply beginMessage_ok in Hb as (-> & Hsrv1 & _ & Hok & Hst & Hcur); [|done].
  rewrite copy_at_take in Hr. set (k := Nat.min _ _) in Hr.
  assert (Hk : length (take k data) = k) by (rewrite length_take; lia).
  rewrite <- Hk in Hr at 2.
  destruct (fill_step _ _ _ _ _ _ _ (take k data) Hst Hcur) as (Hst2 & _ & frag & _ & Hc2).
  { rewrite Hk. destruct Hcur as [(_&_&_&?&_) _]. lia. }
  destruct (flushFrame _ _ _ _) as [[e w3] c3] eqn:Hfl. injection Hr as -> ->.
  pose proof (sub_copy (writeBuf c1) (take k data) (pos (new_writer t))) as Hpl.
  apply flushFrame_spec in Hfl as [_ Hfl]; [|apply Hc2|simpl; congruence].
  destruct Hfl as [(_ & ? & _)|(Hleg & Hf & (_ & Hwi & _) & _)]; [done|].
  assert (Hfr : flushed true (drop k data) (mw_set_pos (pos (new_writer t) + length (take k data)) (new_writer t))
      (set_buf (copy_at (writeBuf c1) (pos (new_writer t)) (take k data)) c1) = Frame true t None data).
  { unfold flushed, control_key, payload. cbn [isServer writeBuf set_buf pos mw_set_pos frameType].
    rewrite Hsrv1, Hsrv. rewrite Hpl.
    - f_equal. unfold sub. cbn [pos new_writer]. rewrite Nat.sub_diag. apply take_drop.
    - cbn [pos new_writer]. lia.
    - rewrite Hk. unfold k. destruct Hcur as [(_&_&_&?&?) _]. lia. }
  rewrite Hfr in *. split; [|split].
  - rewrite Hwi. simpl. by rewrite Hw1.
  - simpl in Hf. by rewrite Hsrv1, Hsrv in Hf.
  - intros Hcl. unfold assemble_frame, legal in *. simpl in *. rewrite Hcl.
    destruct Hcur as [_ (_ & Ht & _)]. destruct (isControl t) eqn:Hctl.
    + destruct (Hleg eq_refl) as [_ Hl]. apply Z.leb_le in Hl. by rewrite Hl.
    + destruct Ht as [|Ht]; [done|]. rewrite Ht. eauto.
Qed.

End ServerFrame.

(** * The frames of a prepared message *)

Section PreparedProofs.
Context {W : Type} `{WsEnvLaws W}.
Implicit Types (c : WConn W) (pm : PreparedMessage).

(** The bytes are frames that carry exactly one message. *)
Definition carries (srv : bool) (t : Z) (data b : bytes) : Prop :=
  exists fs, b = concat (encode_frame <$> fs) /\ Forall (frame_ok srv) fs
    /\ assemble ([], None) fs = Some ([(t, data)], None).

Lemma prepare_conn_ok srv (n : W) : conn_ok (wire ([] : bytes, n)) (prepare_conn srv n) [] None.
Proof.
  split_and!; [done|left; unfold prepare_conn; cbn [writeBuf]; rewrite length_replicate;
    unfold defaultWriteBufferSize; lia|done|].
  exists None. split; [|auto]. exists []. split_and!; done.
Qed.

(** Sending to the buffer leaves the real network alone. *)
Lemma prepared_wire t data srv (n : W) :
  wire (snd (net (snd (WriteMessage t data (prepare_conn srv n))))) = wire n.
Proof.
  apply (WriteMessage_R (fun c c' : WConn (bytes * W) => wire (snd (net c')) = wire (snd (net c)))
    ) with (c := prepare_conn srv n); try done.
  - congruence.
  - intros c c' -> _ _. done.
  - intros c. simpl. pose proof (maskKey_wire (snd (net c))) as Hm.
    by destruct (newMaskKey (snd (net c))).
  - intros e c. unfold writeFatal. by destruct (writeErr c).
  - intros t' d b0 b1 c. unfold write, write_locked. destruct (writeErr c) eqn:He; [done|]. simpl.
    destruct (blen b1 =? 0); simpl; (destruct (t' =? CloseMessage); simpl; [|done]);
      unfold writeFatal; simpl; by rewrite He.
Qed.

Lemma prepared_frames t data srv (n : W) (c : WConn (bytes * W)) :
  t <> CloseMessage -> WriteMessage t data (prepare_conn srv n) = (None, c) ->
  carries srv t data (fst (net c)) /\ wire (snd (net c)) = wire n.
Proof.
  intros Ht Hr. pose proof (prepared_wire t data srv n) as Hw.
  pose proof (run_op_server (OpMessage t data) (prepare_conn srv n)) as Hsrv.
  simpl in Hsrv. rewrite Hr in Hw, Hsrv. split; [|done].
  apply (WriteMessage_ok (wire ([] : bytes, n)) _ [] None 0) in Hr; [|apply prepare_conn_ok].
  destruct Hr as (_ & _ & _ & frag & (fs & Hfs & Hok & Ha & _) & _ & Hfr). simpl in *.
  exists fs. rewrite Hsrv in Hok. split_and!; try done.
  destruct Hfr as [->|Hcl]; [done|]. apply orb_true_iff in Hcl as [Hcl|]; [|done].
  apply Z.eqb_eq in Hcl. done.
Qed.

(** A prepared message in order: its data are the message's, and every frame it
    keeps carries the message. *)
Definition prepared pm (t : Z) (data : bytes) : Prop :=
  pm_messageType pm = t /\ pm_data pm = data
  /\ map_Forall (fun (key : prepareKey) b => carries (fst (fst key)) t data b) (pm_frames pm).

Lemma frame_prepared key pm t data n ft b pm' n' :
  t <> CloseMessage -> prepared pm t data -> frame key pm n = (ft, b, None, pm', n') ->
  ft = t /\ carries (fst (fst key)) t data b /\ prepared pm' t data /\ wire n' = wire n.
Proof.
  intros Ht (Hpt & Hpd & Hfr) Hf. unfold frame in Hf. destruct (pm_frames pm !! key) as [d|] eqn:Hk.
  - simplify_eq. split_and!; try done. by apply (Hfr key).
  - rewrite Hpt, Hpd in Hf. destruct (WriteMessage _ _ _) as [err c] eqn:Hr. simplify_eq.
    apply prepared_frames in Hr as [Hc Hw]; [|done]. split_and!; try done.
    split_and!; try done. by apply map_Forall_insert_2.
Qed.

Lemma encode_frame_suffix t data :
  let b := encode_frame (Frame true t None data) in drop (length b - length data) b = data.
Proof.
  unfold encode_frame. destruct (encode_len _) as [l ext]. simpl f_key. simpl f_payload. cbv iota zeta.
  rewrite app_assoc. set (h := [_; _] ++ ext). rewrite length_app.
  replace (length h + length data - length data)%nat with (length h) by lia.
  apply drop_app_length.
Qed.

Lemma NewPreparedMessage_ok t data (n : W) pm n' :
  t <> CloseMessage -> NewPreparedMessage t data n = (Ok pm, n') ->
  prepared pm t data /\ wire n' = wire n.
Proof.
  intros Ht Hr. unfold NewPreparedMessage in Hr. set (pm0 := {| pm_frames := ∅ |}) in Hr.
  destruct (frame (true, false, 0) pm0 n) as [[[[ft b] [e|]] pm1] n1] eqn:Hf; [done|]. simplify_eq.
  assert (Hb : b = encode_frame (Frame true t None data)).
  { unfold frame in Hf. simpl in Hf. rewrite lookup_empty in Hf.
    destruct (WriteMessage _ _ _) as [err c] eqn:Hr. simplify_eq.
    eapply WriteMessage_server in Hr as [Hw _]; [|apply prepare_conn_ok|done]. exact Hw. }
  apply (frame_prepared _ _ t data) in Hf as (-> & _ & (Hp1 & _ & Hp3) & Hw);
    [|done|split_and!; try done; apply map_Forall_empty].
  split; [|done]. split_and!; try done. simpl. rewrite Hb. apply encode_frame_suffix.
Qed.

(** A prepared message is the message: what [NewPreparedMessage] keeps and
    what [WritePreparedMessage] later sends, on a server or on a client, with
    the frame taken from the cache or made then, carries the type and data given
    to [NewPreparedMessage], and the connection's stream stays in order, provided
    that no message is being written on it. *)
Theorem prepared_message_sent s0 c log t data n pm n1 level err pm' c' :
  t <> CloseMessage -> NewPreparedMessage t data n = (Ok pm, n1) ->
  conn_ok s0 c log None -> WritePreparedMessage level pm c = (err, pm', c') -> err = None ->
  conn_ok s0 c' (log ++ [(t, data)]) None /\ prepared pm' t data.
Proof.
  intros Ht Hnew Hc Hr ->. apply NewPreparedMessage_ok in Hnew as [Hpm _]; [|done].
  unfold WritePreparedMessage in Hr.
  destruct (frame _ pm (net c)) as [[[[ft b] [e|]] pm1] n2] eqn:Hf; [done|].
  apply (frame_prepared _ _ t data) in Hf as (-> & (fs & -> & Hfs & Ha) & Hpm1 & Hw); [|done|done].
  destruct (write _ _ _ _ _) as [e c2] eqn:Hwr. injection Hr as -> -> ->.
  split; [|done]. apply write_sent in Hwr as [(He & Hwi & He') Hon].
  assert (Hcl : closed log = false).
  { destruct Hc as (_ & _ & _ & frag & (? & _ & _ & _ & Hx & _) & _). simpl in He.
    rewrite He in Hx. by destruct (closed log). }
  rewrite app_nil_r in Hwi. simpl in Hwi, Hfs. rewrite Hw in Hwi.
  assert (Ht8 : t =? CloseMessage = false) by by apply Z.eqb_neq. rewrite Ht8 in He'.
  destruct Hc as (Hsz & Hb & Hws & frag & Hst & Hwn & Hfr).
  assert (frag = None) as -> by (destruct Hfr; [done|congruence]).
  rewrite Hon in *. split_and!; try done. exists None. split; [|auto].
  destruct Hst as (fs0 & Hw0 & Hfs0 & Ha0 & He0 & _). exists (fs0 ++ fs). simpl in *.
  rewrite Hwi, Hw0, fmap_app, concat_app, app_assoc. split_and!; try done.
  - by apply Forall_app.
  - unfold assemble in *. rewrite foldl_app, Ha0. fold (assemble (log, None) fs).
    rewrite <- (app_nil_r log) at 1. rewrite assemble_prefix by done. unfold assemble. by rewrite Ha.
  - rewrite He', closed_app, Hcl. simpl. by rewrite Ht8.
Qed.

End PreparedProofs.

Import BufferNet.

Definition hello : bytes := [104; 101; 108; 108; 111].

Lemma prepared_message_sent_witness :
  exists pm n1 pm' c', NewPreparedMessage TextMessage hello [] = (Ok pm, n1)
    /\ WritePreparedMessage 1 pm client0 = (None, pm', c')
    /\ conn_ok (wire []) c' [(TextMessage, hello)] None.
Proof.
  destruct (NewPreparedMessage TextMessage hello []) as [[pm|e] n1] eqn:Hn;
    [|vm_compute in Hn; discriminate].
  destruct (WritePreparedMessage 1 pm client0) as [[err pm'] c'] eqn:Hw.
  assert (He : err = None).
  { assert (fst (fst (match fst (NewPreparedMessage TextMessage hello []) with
       | Ok pm => WritePreparedMessage 1 pm client0
       | Err e => (Some e, {| pm_messageType := 0; pm_data := []; pm_frames := ∅ |}, client0)
       end)) = None) as Hx by (vm_compute; reflexivity).
    rewrite Hn in Hx. simpl fst in Hx. rewrite Hw in Hx. exact Hx. }
  subst err. exists pm, n1, pm', c'. split; [reflexivity|]. split; [exact Hw|].
  apply (prepared_message_sent (wire []) client0 [] TextMessage hello [] pm n1 1 None pm' c');
    [discriminate|exact Hn|apply newWConn_ok; left; reflexivity|exact Hw|reflexivity].
Defined.

(** A server with a message under way, part of which has been sent, that sends
    a prepared message and goes on. *)
Definition interrupted : WConn bytes :=
  let c := run_ops [OpNext TextMessage; OpWrite 0 (replicate 50 97)] (newWConn true 20 false [] []) in
  match NewPreparedMessage BinaryMessage [1; 2; 3] [] with
  | (Ok pm, _) => run_ops [OpClose 0] (snd (WritePreparedMessage 1 pm c))
  | (Err _, _) => c
  end.

(** [WritePreparedMessage] does not close a writer that is still open, as
    [NextWriter] and [WriteMessage] do: sent while a part of a message is
    already on the wire, the prepared message lands between the fragments, which
    the protocol forbids, and the peer's [ReadMessage] fails. *)
Theorem prepared_message_interrupts :
  (exists fs, net interrupted = concat (encode_frame <$> fs) /\ assemble ([], None) fs = None)
  /\ snd (fst (ReadMessage (fun n => 2 * n + 1)%nat (newConn false 0 0 false [] [] (net interrupted) io_EOF [])))
     = Some (errProtocol "data before FIN").
Proof.
  split; [|vm_compute; reflexivity].
  exists [Frame false 1 None (replicate 20 97); Frame false 0 None (replicate 20 97);
          Frame true 2 None [1; 2; 3]; Frame true 0 None (replicate 10 97)].
  split; vm_compute; reflexivity.
Qed.
