(* ===== verification/WsTokens.v ===== *)
(** The text functions of the WebSocket handshake (lib/websocket/util.go): tokens
    and quoted strings of RFC 2616, token lists, extensions, and the keys.

    Loops that cut elements off a header line have one step per character and
    one more; every element takes at least one character. *)

From S2P Require Import Prelude GoText GoHash.

#[local] Open Scope string_scope.
#[local] Open Scope list_scope.
#[local] Open Scope Z_scope.

(** http.Header: values by canonical name. *)
Abbreviation Header := (gmap string (list string)).

Definition quote_char : ascii := ascii_of_nat 34.
Definition backslash : ascii := ascii_of_nat 92.
Definition tab : ascii := ascii_of_nat 9.

(** * Tokens *)

Definition token_octets : string := "!#$%&'*+-.0123456789ABCDEFGHIJKLMNOPQRSTUWVXYZ^_`abcdefghijklmnopqrstuvwxyz|~".

Definition isTokenOctet (c : ascii) : bool := existsb (Ascii.eqb c) (list_ascii_of_string token_octets).

Definition isBlank (c : ascii) : bool := Ascii.eqb c " " || Ascii.eqb c tab.

Fixpoint skipSpace (s : string) : string :=
  match s with
  | EmptyString => EmptyString
  | String b s' => if isBlank b then skipSpace s' else s
  end.

Fixpoint nextToken (s : string) : string * string :=
  match s with
  | EmptyString => ("", "")
  | String b s' => if isTokenOctet b then let '(token, rest) := nextToken s' in (String b token, rest) else ("", s)
  end.

Definition push (b : ascii) (r : option (string * string)) : option (string * string) :=
  '(p, rest) ← r; Some (String b p, rest).

(** After a first backslash; [None]: no closing quote. *)
Fixpoint unescape (escape : bool) (s : string) : option (string * string) :=
  match s with
  | EmptyString => None
  | String b s' =>
      if escape then push b (unescape false s')
      else if Ascii.eqb b backslash then unescape true s'
      else if Ascii.eqb b quote_char then Some ("", s')
      else push b (unescape false s')
  end.

Fixpoint quoted (s : string) : option (string * string) :=
  match s with
  | EmptyString => None
  | String b s' =>
      if Ascii.eqb b quote_char then Some ("", s')
      else if Ascii.eqb b backslash then unescape true s'
      else push b (quoted s')
  end.

Definition nextTokenOrQuoted (s : string) : string * string :=
  match s with
  | String b s' => if Ascii.eqb b quote_char then default ("", "") (quoted s') else nextToken s
  | EmptyString => nextToken s
  end.

(** * Comparing without case *)

(** The first rune of a text, [utf8.RuneError] for what is not valid. *)
Definition rune_at (s : list Z) : Z :=
  match rune_width s, s with
  | 1%nat, b :: _ => if b <? 128 then b else 0xFFFD
  | 2%nat, b0 :: b1 :: _ => (b0 - 192) * 64 + (b1 - 128)
  | 3%nat, b0 :: b1 :: b2 :: _ => (b0 - 224) * 4096 + (b1 - 128) * 64 + (b2 - 128)
  | 4%nat, b0 :: b1 :: b2 :: b3 :: _ => (b0 - 240) * 262144 + (b1 - 128) * 4096 + (b2 - 128) * 64 + (b3 - 128)
  | _, _ => 0xFFFD
  end.

Fixpoint runes (skip : nat) (s : list Z) : list Z :=
  match s, skip with
  | [], _ => []
  | _ :: s', S skip => runes skip s'
  | _ :: s', O => rune_at s :: runes (rune_width s - 1) s'
  end.

Definition fold_rune (r : Z) : Z := if (65 <=? r) && (r <=? 90) then r + 32 else r.

Fixpoint fold_loop (s t : list Z) : bool :=
  match s, t with
  | sr :: s, tr :: t => if sr =? tr then fold_loop s t else if fold_rune sr =? fold_rune tr then fold_loop s t else false
  | [], [] => true
  | _, _ => false
  end.

Definition equalASCIIFold (s t : string) : bool := fold_loop (runes 0 (to_bytes s)) (runes 0 (to_bytes t)).

(** * Token lists *)

Fixpoint list_loop (fuel : nat) (value s : string) : bool :=
  match fuel with
  | O => false
  | S fuel =>
      let '(t, s) := nextToken (skipSpace s) in
      if String.eqb t "" then false
      else
        match skipSpace s with
        | EmptyString => equalASCIIFold t value
        | String c s => if negb (Ascii.eqb c ",") then false else if equalASCIIFold t value then true else list_loop fuel value s
        end
  end.

Definition tokenListContainsValue (header : Header) (name value : string) : bool :=
  existsb (fun s => list_loop (S (String.length s)) value s) (default [] (header !! name)).

(** * Extensions *)

Fixpoint params_loop (fuel : nat) (ext : gmap string string) (s : string) : option (gmap string string * string) :=
  match fuel with
  | O => None
  | S fuel =>
      let s := skipSpace s in
      match s with
      | String c s1 =>
          if negb (Ascii.eqb c ";") then Some (ext, s)
          else
            let '(k, s) := nextToken (skipSpace s1) in
            if String.eqb k "" then None
            else
              let s := skipSpace s in
              let '(v, s) :=
                match s with
                | String c s1 => if Ascii.eqb c "=" then let '(v, s) := nextTokenOrQuoted (skipSpace s1) in (v, skipSpace s) else ("", s)
                | EmptyString => ("", s)
                end in
              match s with
              | String c _ => if negb (Ascii.eqb c ",") && negb (Ascii.eqb c ";") then None else params_loop fuel (<[k := v]> ext) s
              | EmptyString => params_loop fuel (<[k := v]> ext) s
              end
      | EmptyString => Some (ext, s)
      end
  end.

Fixpoint extensions_loop (fuel : nat) (s : string) : list (gmap string string) :=
  match fuel with
  | O => []
  | S fuel =>
      let '(t, s) := nextToken (skipSpace s) in
      if String.eqb t "" then []
      else
        match params_loop (S (String.length s)) {["" := t]} s with
        | None => []
        | Some (ext, s) =>
            match s with
            | EmptyString => [ext]
            | String c s => if negb (Ascii.eqb c ",") then [] else ext :: extensions_loop fuel s
            end
        end
  end.

Definition parseExtensions (header : Header) : list (gmap string string) :=
  default [] (header !! "Sec-Websocket-Extensions") ≫= fun s => extensions_loop (S (String.length s)) s.

(** * Keys *)

Definition keyGUID : string := "258EAFA5-E914-47DA-95CA-C5AB0DC85B11".

Definition computeAcceptKey (challengeKey : string) : string := EncodeToString (sha1 (to_bytes challengeKey ++ to_bytes keyGUID)).

(** [p]: the sixteen bytes of the random source, if it gives them. *)
Definition generateChallengeKey (p : option bytes) : option string := EncodeToString <$> p.

Definition isValidChallengeKey (s : string) : bool :=
  if String.eqb s "" then false
  else match DecodeString s with Some decoded => (length decoded =? 16)%nat | None => false end.

(** * Lemmas on texts *)

Lemma text_cons c a b : String c a +:+ b = String c (a +:+ b).
Proof. reflexivity. Qed.

Lemma skipSpace_app a s : all_chars isBlank a = true -> skipSpace (a +:+ s) = skipSpace s.
Proof. induction a as [|c a IH]; [done|]. cbn [all_chars]. intros [H1 H2]%andb_true_iff. rewrite text_cons. cbn [skipSpace]. by rewrite H1, IH. Qed.

Lemma skipSpace_blank a : all_chars isBlank a = true -> skipSpace a = "".
Proof. intros H. rewrite <- (string_app_nil_r a), skipSpace_app by done. done. Qed.

(** A text that does not begin with a character of [f]. *)
Definition stops (f : ascii -> bool) (s : string) : Prop := match s with String c _ => f c = false | EmptyString => True end.

Lemma skipSpace_stops s : stops isBlank s -> skipSpace s = s.
Proof. destruct s as [|c s]; [done|]. cbn. by intros ->. Qed.

Lemma skipSpace_spec s : exists a, all_chars isBlank a = true /\ s = a +:+ skipSpace s /\ stops isBlank (skipSpace s).
Proof.
  induction s as [|c s (a & Ha & E & Hs)]; [by exists ""|]. cbn [skipSpace]. destruct (isBlank c) eqn:Ec.
  - exists (String c a). cbn [all_chars]. rewrite Ec, text_cons. split; [done|]. split; [by f_equal|done].
  - exists "". split; [done|]. split; [done|exact Ec].
Qed.

Lemma nextToken_app t s : all_chars isTokenOctet t = true -> stops isTokenOctet s -> nextToken (t +:+ s) = (t, s).
Proof.
  intros Ht Hs. induction t as [|c t IH].
  - destruct s as [|c s]; [done|]. change (stops isTokenOctet (String c s)) with (isTokenOctet c = false) in Hs. change ("" +:+ String c s) with (String c s). cbn [nextToken]. by rewrite Hs.
  - cbn [all_chars] in Ht. apply andb_true_iff in Ht as [Hc Ht]. rewrite text_cons. cbn [nextToken]. by rewrite Hc, IH.
Qed.

Lemma nextToken_spec s : let '(t, r) := nextToken s in s = t +:+ r /\ all_chars isTokenOctet t = true /\ stops isTokenOctet r.
Proof.
  induction s as [|c s IH]; [done|]. cbn [nextToken]. destruct (isTokenOctet c) eqn:Ec.
  - destruct (nextToken s) as [t r]. destruct IH as (-> & Ht & Hr). cbn [all_chars]. by rewrite Ec.
  - by split.
Qed.

Lemma token_not_blank c : isTokenOctet c = true -> isBlank c = false.
Proof. destruct c as [[][][][][][][][]]; vm_compute; congruence. Qed.

(** * Comparing without case *)

Lemma char_code_range c : 0 <= char_code c < 256.
Proof. unfold char_code. pose proof (nat_ascii_bounded c). lia. Qed.

Lemma rune_ascii b s : b < 128 -> rune_at (b :: s) = b /\ rune_width (b :: s) = 1%nat.
Proof.
  intros H. unfold rune_at, rune_width. rewrite !(proj2 (Z.leb_gt 194 b)), !(proj2 (Z.leb_gt 224 b)), !(proj2 (Z.leb_gt 240 b)) by lia. cbn.
  by rewrite (proj2 (Z.ltb_lt b 128)) by lia.
Qed.

Lemma rune_wide b s : 128 <= b -> 128 <= rune_at (b :: s).
Proof.
  intros H. unfold rune_at, rune_width.
  repeat match goal with
  | |- context [match ?x with _ => _ end] => lazymatch x with
     | context [match _ with _ => _ end] => fail
     | _ => destruct x eqn:?
     end
  end; try lia.
Qed.

Definition is_ascii (c : ascii) : bool := char_code c <? 128.

Lemma fold_code c : fold_rune (char_code c) = char_code (lower c).
Proof. destruct c as [[][][][][][][][]]; reflexivity. Qed.

Lemma char_code_inj c d : char_code c = char_code d -> c = d.
Proof. unfold char_code. intros H%Nat2Z.inj. rewrite <- (ascii_nat_embedding c), <- (ascii_nat_embedding d). by f_equal. Qed.

Lemma lower_wide c : 128 <= char_code c -> lower c = c.
Proof. intros H. unfold lower. by rewrite (proj2 (Z.leb_gt (char_code c) 90)), andb_false_r by lia. Qed.

Lemma lower_ascii c : char_code c < 128 -> char_code (lower c) < 128.
Proof. destruct c as [[][][][][][][][]]; vm_compute; congruence. Qed.

Lemma runes_ascii c s : char_code c < 128 -> runes 0 (to_bytes (String c s)) = char_code c :: runes 0 (to_bytes s).
Proof.
  intros H. unfold to_bytes. cbn [list_ascii_of_string fmap list_fmap runes]. destruct (rune_ascii (char_code c) (char_code <$> list_ascii_of_string s) H) as [-> ->]. done.
Qed.

(** Against an ASCII text, such as the names of the protocol, the comparison is
    equality of the texts in lower case, whatever bytes are compared. *)
Lemma equalASCIIFold_lower s t : all_chars is_ascii t = true -> equalASCIIFold s t = true <-> ToLower s = ToLower t.
Proof.
  revert s. induction t as [|d t IH]; intros s Ht.
  - destruct s as [|c s]; [done|]. cbn. by split.
  - cbn [all_chars] in Ht. apply andb_true_iff in Ht as [Hd%Z.ltb_lt Ht]. unfold equalASCIIFold. rewrite (runes_ascii d t Hd).
    destruct s as [|c s]; [by split|]. cbn [ToLower]. destruct (Z_lt_ge_dec (char_code c) 128) as [Hc|Hc].
    + rewrite (runes_ascii c s Hc). cbn [fold_loop]. specialize (IH s Ht). unfold equalASCIIFold in IH. rewrite !fold_code.
      destruct (Z.eqb_spec (char_code c) (char_code d)) as [->%char_code_inj|Hne]; [rewrite IH; split; [by intros ->|by intros [= ->]]|].
      destruct (Z.eqb_spec (char_code (lower c)) (char_code (lower d))) as [->%char_code_inj|Hl]; [rewrite IH; split; [by intros ->|by intros [= ->]]|].
      split; [done|]. intros [= E _]. by rewrite E in Hl.
    + split; [|intros [= E _]; rewrite lower_wide in E by lia; pose proof (lower_ascii d Hd); rewrite E in Hc; lia].
      unfold to_bytes. cbn [list_ascii_of_string fmap list_fmap runes fold_loop].
      assert (128 <= rune_at (char_code c :: (char_code <$> list_ascii_of_string s))) as Hr by (apply rune_wide; lia).
      unfold fold_rune. rewrite (proj2 (Z.eqb_neq _ (char_code d))), (proj2 (Z.leb_gt (rune_at _) 90)), andb_false_r by lia.
      destruct ((65 <=? char_code d) && (char_code d <=? 90)) eqn:E; rewrite (proj2 (Z.eqb_neq _ _)) by lia; done.
Qed.

(** Bytes that are not UTF-8 all count as the same character. *)
Theorem invalid_bytes_equal : equalASCIIFold (of_bytes [255]) (of_bytes [254]) = true.
Proof. reflexivity. Qed.

(** * Token lists *)

(** An element of a list: a token between blanks. *)
Definition element (s t : string) : Prop :=
  exists a b, all_chars isBlank a = true /\ all_chars isBlank b = true /\ t <> "" /\ all_chars isTokenOctet t = true /\ s = a +:+ t +:+ b.

(** [t] stands in the line [s], after nothing but elements; what is behind it
    need not be well formed. *)
Inductive listed : string -> string -> Prop :=
| listed_last s t : element s t -> listed s t
| listed_here s t rest : element s t -> listed (s +:+ String "," rest) t
| listed_later s t' rest t : element s t' -> listed rest t -> listed (s +:+ String "," rest) t.

Lemma blank_stops b c rest : all_chars isBlank b = true -> isTokenOctet c = false -> stops isTokenOctet (b +:+ String c rest).
Proof.
  destruct b as [|d b]; [done|]. cbn [all_chars]. intros [H _]%andb_true_iff _. change (isTokenOctet d = false). destruct (isTokenOctet d) eqn:E; [|done].
  apply token_not_blank in E. congruence.
Qed.

Lemma blank_stops' b : all_chars isBlank b = true -> stops isTokenOctet b.
Proof.
  destruct b as [|d b]; [done|]. cbn [all_chars]. intros [H _]%andb_true_iff. change (isTokenOctet d = false). destruct (isTokenOctet d) eqn:E; [|done].
  apply token_not_blank in E. congruence.
Qed.

Lemma token_stops t s : t <> "" -> all_chars isTokenOctet t = true -> stops isBlank (t +:+ s).
Proof. destruct t as [|c t]; [done|]. cbn [all_chars]. intros _ [H _]%andb_true_iff. change (isBlank c = false). by apply token_not_blank. Qed.

(** What is cut off a line that begins with an element. *)
Lemma cut_element s t c rest : element s t -> isTokenOctet c = false -> isBlank c = false ->
  exists r, nextToken (skipSpace (s +:+ String c rest)) = (t, r) /\ skipSpace r = String c rest.
Proof.
  intros (a & b & Ha & Hb & Ht & Htt & ->) Hc Hc'. exists (b +:+ String c rest). rewrite !string_app_assoc. rewrite skipSpace_app by done.
  rewrite skipSpace_stops by (by apply token_stops). rewrite nextToken_app; [|done|by apply blank_stops]. split; [done|].
  rewrite skipSpace_app by done. cbn. by rewrite Hc'.
Qed.

Lemma cut_last s t : element s t -> exists r, nextToken (skipSpace s) = (t, r) /\ skipSpace r = "".
Proof.
  intros (a & b & Ha & Hb & Ht & Htt & ->). exists b. rewrite skipSpace_app by done. rewrite skipSpace_stops by (by apply token_stops).
  rewrite nextToken_app; [|done|by apply blank_stops']. split; [done|]. by apply skipSpace_blank.
Qed.

Lemma cut_sound s t r : nextToken (skipSpace s) = (t, r) -> t <> "" ->
  exists e, element e t /\ s = e +:+ skipSpace r /\ (String.length (skipSpace r) < String.length s)%nat.
Proof.
  intros E Ht. destruct (skipSpace_spec s) as (a & Ha & Es & _). pose proof (nextToken_spec (skipSpace s)) as Hn. rewrite E in Hn. destruct Hn as (En & Htt & _).
  destruct (skipSpace_spec r) as (b & Hb & Er & _). exists (a +:+ t +:+ b). split; [by exists a, b|]. split.
  - rewrite Es at 1. rewrite En. rewrite Er at 1. by rewrite !string_app_assoc.
  - apply (f_equal String.length) in Es, En, Er. rewrite append_length in Es, En, Er. destruct t; [done|]. cbn [String.length] in En. lia.
Qed.

Lemma list_loop_spec fuel value s : (String.length s < fuel)%nat ->
  list_loop fuel value s = true <-> exists t, listed s t /\ equalASCIIFold t value = true.
Proof.
  revert s. induction fuel as [|fuel IH]; intros s Hf; [lia|]. cbn [list_loop]. destruct (nextToken (skipSpace s)) as [t r] eqn:E. split.
  - destruct (String.eqb_spec t "") as [|Ht]; [done|]. destruct (cut_sound s t r E Ht) as (e & He & Es & Hl).
    destruct (skipSpace r) as [|c rest]; [intros Hv; exists t; split; [|done]; rewrite Es, string_app_nil_r; by apply listed_last|].
    destruct (Ascii.eqb_spec c ","%char) as [->|]; [|done]. cbn [negb]. destruct (equalASCIIFold t value) eqn:Ev.
    + intros _. exists t. split; [|done]. rewrite Es. by apply listed_here.
    + cbn [String.length] in Hl. rewrite IH by lia. intros (t' & Ht' & Hv). exists t'. split; [|done]. rewrite Es. by eapply listed_later.
  - intros (t' & Hl & Hv). destruct Hl as [s t' He|s t' rest He|s t0 rest t' He Hl].
    + destruct (cut_last s t' He) as (r' & E' & Er). rewrite E' in E. injection E as <- <-. rewrite Er.
      destruct He as (? & ? & ? & ? & Ht & _). by rewrite (proj2 (String.eqb_neq t' "")).
    + destruct (cut_element s t' ","%char rest He eq_refl eq_refl) as (r' & E' & Er). rewrite E' in E. injection E as <- <-. rewrite Er.
      destruct He as (? & ? & ? & ? & Ht & _). rewrite (proj2 (String.eqb_neq t' "")) by done. cbn. by rewrite Hv.
    + destruct (cut_element s t0 ","%char rest He eq_refl eq_refl) as (r' & E' & Er). rewrite E' in E. injection E as <- <-. rewrite Er.
      rewrite append_length in Hf. cbn [String.length] in Hf.
      destruct He as (? & ? & ? & ? & Ht & _). rewrite (proj2 (String.eqb_neq t0 "")) by done. cbn [negb Ascii.eqb Bool.eqb]. 
      destruct (equalASCIIFold t0 value); [done|]. apply IH; [lia|]. by exists t'.
Qed.

Lemma token_list_spec header name value : all_chars is_ascii value = true ->
  tokenListContainsValue header name value = true <->
  exists line t, line ∈ default [] (header !! name) /\ listed line t /\ ToLower t = ToLower value.
Proof.
  intros Hv. unfold tokenListContainsValue. rewrite existsb_exists. split.
  - intros (line & Hl & (t & Ht & E)%list_loop_spec); [|lia]. exists line, t. split; [by apply list_elem_of_In|]. split; [done|]. by apply equalASCIIFold_lower.
  - intros (line & t & Hl & Ht & E). exists line. split; [by apply list_elem_of_In|]. apply list_loop_spec; [lia|]. exists t. split; [done|]. by apply equalASCIIFold_lower.
Qed.

(** A header has a value exactly when one of its lines lists it, in upper or
    lower case. *)
Theorem token_list_exact header name value : all_chars is_ascii value = true ->
  tokenListContainsValue header name value = true <->
  exists line t, line ∈ default [] (header !! name) /\ listed line t /\ ToLower t = ToLower value.
Proof. apply token_list_spec. Qed.

(** * Quoted strings *)

Fixpoint escape (s : string) : string :=
  match s with
  | EmptyString => EmptyString
  | String c s => if Ascii.eqb c quote_char || Ascii.eqb c backslash then String backslash (String c (escape s)) else String c (escape s)
  end.
Definition quote (s : string) : string := String quote_char (escape s +:+ String quote_char "").

Lemma unescape_escape s rest : unescape false (escape s +:+ String quote_char rest) = Some (s, rest).
Proof.
  induction s as [|c s IH]; [reflexivity|]. cbn [escape]. destruct (Ascii.eqb_spec c quote_char) as [->|Hq].
  - cbn [orb]. rewrite !text_cons. cbn. by rewrite IH.
  - destruct (Ascii.eqb_spec c backslash) as [->|Hb]; [cbn [orb]; rewrite !text_cons; cbn; by rewrite IH|]. cbn [orb]. rewrite text_cons. cbn [unescape].
    rewrite (proj2 (Ascii.eqb_neq c backslash) Hb), (proj2 (Ascii.eqb_neq c quote_char) Hq), IH. done.
Qed.

Lemma quoted_escape s rest : quoted (escape s +:+ String quote_char rest) = Some (s, rest).
Proof.
  induction s as [|c s IH]; [reflexivity|]. cbn [escape]. destruct (Ascii.eqb_spec c quote_char) as [->|Hq].
  - cbn [orb]. rewrite !text_cons. cbn. by rewrite unescape_escape.
  - destruct (Ascii.eqb_spec c backslash) as [->|Hb]; [cbn [orb]; rewrite !text_cons; cbn; by rewrite unescape_escape|]. cbn [orb]. rewrite text_cons. cbn [quoted].
    rewrite (proj2 (Ascii.eqb_neq c backslash) Hb), (proj2 (Ascii.eqb_neq c quote_char) Hq), IH. done.
Qed.

Lemma quote_read s rest : nextTokenOrQuoted (quote s +:+ rest) = (s, rest).
Proof. unfold quote. rewrite text_cons, string_app_assoc, text_cons. cbn [nextTokenOrQuoted]. change (Ascii.eqb quote_char quote_char) with true. cbv iota. by rewrite quoted_escape. Qed.

(** * Extensions *)

Inductive param_value := NoValue | TokenValue (s : string) | QuotedValue (s : string).
Definition show_value (v : param_value) : string :=
  match v with NoValue => "" | TokenValue s => String "=" s | QuotedValue s => String "=" (quote s) end.
Definition value_of (v : param_value) : string := match v with NoValue => "" | TokenValue s | QuotedValue s => s end.

Abbreviation extension := (string * list (string * param_value))%type.

Fixpoint show_params (l : list (string * param_value)) (rest : string) : string :=
  match l with [] => rest | (k, v) :: l => String ";" (String " " (k +:+ show_value v +:+ show_params l rest)) end.

(** The header line of a list of extensions. *)
Fixpoint show_extensions (l : list extension) : string :=
  match l with
  | [] => ""
  | [(n, ps)] => n +:+ show_params ps ""
  | (n, ps) :: l => n +:+ show_params ps (String "," (String " " (show_extensions l)))
  end.

Definition is_token (s : string) : Prop := s <> "" /\ all_chars isTokenOctet s = true.
Definition value_ok (v : param_value) : Prop := match v with TokenValue s => all_chars isTokenOctet s = true | _ => True end.
Definition params_ok (l : list (string * param_value)) : Prop := Forall (fun kv => is_token kv.1 /\ value_ok kv.2) l.
Definition extensions_ok (l : list extension) : Prop := Forall (fun e => is_token e.1 /\ params_ok e.2) l.

Definition meaning (e : extension) : gmap string string := foldl (fun m kv => <[kv.1 := value_of kv.2]> m) {["" := e.1]} e.2.

(** The end of an extension, or what follows one of its parameters. *)
Definition ends (s : string) : Prop := match s with EmptyString => True | String c _ => c = ","%char \/ c = ";"%char end.

Lemma ends_stops s : ends s -> stops isBlank s /\ stops isTokenOctet s.
Proof. destruct s as [|c s]; [done|]. by intros [-> | ->]. Qed.

Lemma show_params_ends l rest : ends rest -> ends (show_params l rest).
Proof. destruct l as [|[k v] l]; [done|]. intros _. by right. Qed.

(** The value of a parameter, and the blanks around it. *)
Lemma value_read v rest : value_ok v -> ends rest ->
  match skipSpace (show_value v +:+ rest) with
  | String c s1 => if Ascii.eqb c "=" then let '(v, s) := nextTokenOrQuoted (skipSpace s1) in (v, skipSpace s) else ("", skipSpace (show_value v +:+ rest))
  | EmptyString => ("", skipSpace (show_value v +:+ rest))
  end = (value_of v, rest).
Proof.
  intros Hv He. destruct (ends_stops rest He) as [Hb Ht]. destruct v as [|s|s]; cbn [show_value value_of].
  - change ("" +:+ rest) with rest. rewrite (skipSpace_stops rest) by done. destruct rest as [|c rest]; [done|]. by destruct He as [-> | ->].
  - rewrite text_cons. change (skipSpace (String "=" (s +:+ rest))) with (String "=" (s +:+ rest)). change (Ascii.eqb "=" "=") with true. cbv iota.
    assert (skipSpace (s +:+ rest) = s +:+ rest) as ->.
    { apply skipSpace_stops. destruct s as [|c s]; [done|]. by apply token_stops. }
    assert (nextTokenOrQuoted (s +:+ rest) = nextToken (s +:+ rest)) as ->.
    { destruct s as [|c s].
      - change ("" +:+ rest) with rest. destruct rest as [|c rest]; [done|]. by destruct He as [-> | ->].
      - cbn in Hv. apply andb_true_iff in Hv as [Hc _]. rewrite text_cons. unfold nextTokenOrQuoted. destruct (Ascii.eqb_spec c quote_char) as [->|]; [|done].
        vm_compute in Hc. discriminate Hc. }
    rewrite nextToken_app by done. by rewrite skipSpace_stops.
  - rewrite text_cons. change (skipSpace (String "=" (quote s +:+ rest))) with (String "=" (quote s +:+ rest)). change (Ascii.eqb "=" "=") with true. cbv iota.
    assert (skipSpace (quote s +:+ rest) = quote s +:+ rest) as -> by done. rewrite quote_read. by rewrite skipSpace_stops.
Qed.

Lemma params_read l fuel ext rest : params_ok l -> (rest = "" \/ exists s, rest = String "," s) -> (length l < fuel)%nat ->
  params_loop fuel ext (show_params l rest) = Some (foldl (fun m kv => <[kv.1 := value_of kv.2]> m) ext l, rest).
Proof.
  intros Hl Hr. revert fuel ext. induction Hl as [|[k v] l [[Hk Hkt] Hv] Hl IH]; intros [|fuel] ext Hf; try lia.
  - destruct Hr as [-> | (s & ->)]; reflexivity.
  - cbn [show_params fst snd] in *. cbn [params_loop]. change (skipSpace (String ";" ?s)) with (String ";" s).
    assert (ends rest) as He by (destruct Hr as [-> | (s & ->)]; [done|by left]). pose proof (show_params_ends l rest He) as He'.
    change (negb (Ascii.eqb ";" ";")) with false. cbv iota. change (skipSpace (String " " ?s)) with (skipSpace s).
    rewrite skipSpace_stops by (by apply token_stops). rewrite nextToken_app; [|done|].
    2:{ destruct v; cbn [show_value]; [|done|done]. change ("" +:+ ?s) with s. by apply ends_stops. }
    cbv zeta. rewrite (proj2 (String.eqb_neq k "")) by done. rewrite value_read by done. cbn [length] in Hf.
    assert (params_loop fuel (<[k := value_of v]> ext) (show_params l rest) = Some (foldl (fun m kv => <[kv.1 := value_of kv.2]> m) ext ((k, v) :: l), rest)) as ->
      by (rewrite IH by lia; done).
    destruct (show_params l rest) as [|c s]; [done|]. by destruct He' as [-> | ->].
Qed.

Lemma show_params_length l rest : params_ok l -> (length l + String.length rest <= String.length (show_params l rest))%nat.
Proof.
  induction 1 as [|[k v] l _ _ IH]; [done|]. cbn [show_params length String.length]. rewrite !append_length. lia.
Qed.

Lemma one_extension n ps rest : is_token n -> params_ok ps -> (rest = "" \/ exists s, rest = String "," s) ->
  nextToken (skipSpace (n +:+ show_params ps rest)) = (n, show_params ps rest) /\
  params_loop (S (String.length (show_params ps rest))) {["" := n]} (show_params ps rest) = Some (meaning (n, ps), rest).
Proof.
  intros [Hn Hnt] Hps Hr. assert (ends rest) as He by (destruct Hr as [-> | (s & ->)]; [done|by left]). split.
  - rewrite skipSpace_stops by (by apply token_stops). apply nextToken_app; [done|]. by apply ends_stops, show_params_ends.
  - pose proof (show_params_length ps rest Hps). apply params_read; [done|done|lia].
Qed.

Lemma extensions_read l fuel a : extensions_ok l -> all_chars isBlank a = true -> (length l < fuel)%nat -> extensions_loop fuel (a +:+ show_extensions l) = meaning <$> l.
Proof.
  intros Hl. revert fuel a. induction Hl as [|[n ps] l [Hn Hps] Hl IH]; intros [|fuel] a Ha Hf; try (cbn in Hf; lia).
  - cbn [extensions_loop show_extensions]. rewrite string_app_nil_r, skipSpace_blank by done. done.
  - cbn [fst snd length] in *. cbn [extensions_loop]. rewrite skipSpace_app by done. destruct l as [|e l].
    + cbn [show_extensions]. destruct (one_extension n ps "" Hn Hps (or_introl eq_refl)) as [-> ->]. by rewrite (proj2 (String.eqb_neq n "")) by apply Hn.
    + change (show_extensions ((n, ps) :: e :: l)) with (n +:+ show_params ps (String "," (String " " (show_extensions (e :: l))))).
      destruct (one_extension n ps (String "," (String " " (show_extensions (e :: l)))) Hn Hps (or_intror (ex_intro _ _ eq_refl))) as [-> ->].
      rewrite (proj2 (String.eqb_neq n "")) by apply Hn. change (negb (Ascii.eqb "," ",")) with false. cbv iota.
      change (String " " ?s) with (String " " "" +:+ s). rewrite IH by (done || lia). done.
Qed.

Lemma show_extensions_length l : extensions_ok l -> (length l <= String.length (show_extensions l))%nat.
Proof.
  induction 1 as [|[n ps] l [Hn Hps] Hl IH]; [done|]. cbn [fst snd] in *. destruct Hn as [Hn _]. destruct l as [|e l].
  - cbn [show_extensions length]. rewrite append_length. destruct n; [done|]. cbn. lia.
  - change (show_extensions ((n, ps) :: e :: l)) with (n +:+ show_params ps (String "," (String " " (show_extensions (e :: l))))).
    rewrite append_length. pose proof (show_params_length ps (String "," (String " " (show_extensions (e :: l)))) Hps) as H. cbn [length String.length] in *. lia.
Qed.

Lemma parse_shown lines header : header !! "Sec-Websocket-Extensions" = Some (show_extensions <$> lines) -> Forall extensions_ok lines ->
  parseExtensions header = lines ≫= fun l => meaning <$> l.
Proof.
  intros Hh Hl. unfold parseExtensions. rewrite Hh. change (default [] (Some ?x)) with x. clear Hh. induction Hl as [|l lines H Hl IH]; [done|].
  cbn [fmap list_fmap mbind list_bind]. f_equal; [|exact IH]. pose proof (show_extensions_length l H).
  rewrite <- (extensions_read l (S (String.length (show_extensions l))) "" H eq_refl) by lia. done.
Qed.

(** Extensions with parameters, the values as tokens or as quoted strings of any
    characters, are read back from the lines of the header they are written
    in. *)
Theorem extensions_roundtrip lines : Forall extensions_ok lines ->
  parseExtensions {["Sec-Websocket-Extensions" := show_extensions <$> lines]} = lines ≫= fun l => meaning <$> l.
Proof. apply parse_shown, lookup_singleton_eq. Qed.

(** * Keys *)

(** A key that was generated is valid, and a valid key is one of sixteen
    bytes. *)
Lemma generated_valid p : bytes_ok p -> length p = 16%nat -> isValidChallengeKey (EncodeToString p) = true.
Proof.
  intros Hp Hl. unfold isValidChallengeKey. rewrite DecodeString_encode by done. rewrite Hl. destruct p as [|a [|b [|c p]]]; try done.
Qed.

(** * Concrete texts *)

Module TestTokens.
Definition upgrade (s : string) : Header := {["Upgrade" := [s]]}.
Definition q : string := String quote_char "".

Example list_has : (fun s => tokenListContainsValue (upgrade s) "Upgrade" "websocket") <$>
  ["WebSocket"; "WEBSOCKET"; "websocket"; "websockets"; "x websocket"; "websocket x"; "other,websocket,more"; "other, websocket, more"] =
  [true; true; true; false; false; false; true; true].
Proof. vm_compute. reflexivity. Qed.

Example keys_valid : isValidChallengeKey <$> ["dGhlIHNhbXBsZSBub25jZQ=="; ""; "InvalidKey"; "WHQ4eXhscUtKYjBvOGN3WEdtOEQ="] = [true; false; false; false].
Proof. vm_compute. reflexivity. Qed.

(** The example of RFC 6455. *)
Example accept_key : computeAcceptKey "dGhlIHNhbXBsZSBub25jZQ==" = "s3pPLMBiTxaQ9kYGzzhZRbK+xOo=".
Proof. vm_compute. reflexivity. Qed.

Example folds : ((fun '(s, t) => equalASCIIFold s t) <$> [("WebSocket", "websocket"); (of_bytes [195; 150], of_bytes [195; 182]); ("WebSocket", "WetSocket")]) = [true; false; false].
Proof. vm_compute. reflexivity. Qed.

Lemma token_list_exact_witness : exists line t, line ∈ default [] (upgrade "other, WebSocket, more" !! "Upgrade") /\ listed line t /\ ToLower t = ToLower "websocket".
Proof. apply token_list_exact; vm_compute; reflexivity. Defined.

Definition offer : list extension := [("permessage-deflate", [("client_max_window_bits", NoValue)]); ("x-mux", [("y", QuotedValue "a,b;c"); ("z", TokenValue "10")])].

Lemma extensions_roundtrip_witness : parseExtensions {["Sec-Websocket-Extensions" := show_extensions <$> [offer]]} = [offer] ≫= fun l => meaning <$> l.
Proof. apply extensions_roundtrip. repeat constructor; vm_compute; discriminate. Defined.

Definition parsed (s : string) : list (list (string * string)) := map_to_list <$> parseExtensions {["Sec-Websocket-Extensions" := [s]]}.

Example extensions_parsed : parsed <$> ["foo"; "foo; bar=" +:+ q +:+ "b,a;z" +:+ q; "foo, bar; baz=2 junk"; "foo junk, bar; baz=2 junk"; "foo , bar; baz = 2"] =
  [[[("", "foo")]]; [[("bar", "b,a;z"); ("", "foo")]]; [[("", "foo")]]; []; [[("", "foo")]; [("baz", "2"); ("", "bar")]]].
Proof. vm_compute. reflexivity. Qed.
End TestTokens.
