(* ===== verification/WsHandshake.v ===== *)
(** The opening handshake of the WebSocket library: [Upgrader.Upgrade] of
    lib/websocket/server.go, [Dialer.DialContext] of client.go with the HTTP proxy
    of proxy.go, and what they use of Go's net/http to read a response.

    url.Parse is a parameter, of which the scheme, the host and the presence of
    a user are used.  Cookies and the tracing hooks of a dialer are left out, as
    is the body of a refused response. *)

From S2P Require Import Prelude GoText GoHash WsTokens.
From S2P Require Import GoNet.

#[local] Open Scope string_scope.
#[local] Open Scope list_scope.
#[local] Open Scope Z_scope.

Record URL := { Scheme : string; UHost : string; User : bool }.

Record Request := { Method : string; Host : string; rHeader : Header }.

(** [Header.Get] of a canonical name. *)
Definition Get (name : string) (h : Header) : string := default "" (default [] (h !! name) !! 0%nat).

(** * The server *)

Record Upgrader := {
  HandshakeTimeout : Z;
  ReadBufferSize : Z;
  WriteBufferSize : Z;
  WriteBufferPool : bool;
  Subprotocols : option (list string);
  Error : bool;                                   (* the application answers errors itself *)
  CheckOrigin : option (Request -> bool);
  EnableCompression : bool;
}.

Inductive handshake_error :=
| noUpgradeToken | noWebsocketToken | notGet | badVersion | extensionHeader | badOrigin | badKey | hijackFailed.

(** Where the connection reads from: the reader of the HTTP server, or a new one
    over the connection, which may give what that reader had buffered first. *)
Inductive conn_reader := HijackedReader | NewReader (buffered_first : bool).

Record HConn := {
  isServer : bool;
  reader : conn_reader;
  readSize : Z;
  writeSize : Z;
  pool : bool;
  subprotocol : string;
  compress : bool;
}.

(** What becomes of the connection; a response that the library wrote has the
    headers listed, [None] is left to the application. *)
Inductive outcome :=
| Refused (e : handshake_error) (status : Z) (hdrs : option (list (string * string)))
| Broken                                          (* taken over, then closed *)
| Upgraded (c : HConn) (sent : string).

(** What the calls on the connection taken over from the HTTP server give:
    whether it can be taken, the size of its reader and the bytes in it, and
    whether the calls that follow succeed. *)
Record hijack := {
  hijacked : bool;
  readerSize : Z;
  buffered : bytes;
  deadlineSet : bool;
  written : bool;
  deadlineCleared : bool;
}.

Definition crlf : string := String (ascii_of_nat 13) (String (ascii_of_nat 10) "").

(** The application's response header, a map in the order of an iteration; [None]
    is nil. *)
Abbreviation ResponseHeader := (option (list (string * list string))).

Definition has_key (k : string) (h : ResponseHeader) : bool := existsb (fun kv => String.eqb kv.1 k) (default [] h).

Definition get_key (k : string) (h : ResponseHeader) : string :=
  match List.find (fun kv => String.eqb kv.1 k) (default [] h) with Some (_, v :: _) => v | _ => "" end.

Fixpoint clean (v : string) : string :=
  match v with
  | EmptyString => EmptyString
  | String b v => String (if char_code b <=? 31 then " "%char else b) (clean v)
  end.

Definition header_line (k v : string) : string := k +:+ ": " +:+ v +:+ crlf.

Definition extra_lines (h : list (string * list string)) : list string :=
  h ≫= fun '(k, vs) => if String.eqb k "Sec-Websocket-Protocol" then [] else (fun v => header_line k (clean v)) <$> vs.

Definition response (challengeKey sub : string) (comp : bool) (h : ResponseHeader) : string :=
  "HTTP/1.1 101 Switching Protocols" +:+ crlf +:+
  header_line "Upgrade" "websocket" +:+ header_line "Connection" "Upgrade" +:+
  header_line "Sec-WebSocket-Accept" (computeAcceptKey challengeKey) +:+
  (if String.eqb sub "" then "" else header_line "Sec-WebSocket-Protocol" sub) +:+
  (if comp then header_line "Sec-WebSocket-Extensions" "permessage-deflate; server_no_context_takeover; client_no_context_takeover" else "") +:+
  String.concat "" (extra_lines (default [] h)) +:+ crlf.

(** The protocols a client asks for. *)
Definition clientSubprotocols (r : Request) : list string :=
  let h := TrimSpace (Get "Sec-Websocket-Protocol" (rHeader r)) in
  if String.eqb h "" then [] else TrimSpace <$> Split "," h.

Section Server.
Context (url_Parse : string -> option URL).

Definition checkSameOrigin (r : Request) : bool :=
  match default [] (rHeader r !! "Origin") with
  | [] => true
  | origin :: _ => match url_Parse origin with None => false | Some u => equalASCIIFold (UHost u) (Host r) end
  end.

Definition selectSubprotocol (u : Upgrader) (r : Request) (responseHeader : ResponseHeader) : string :=
  match Subprotocols u with
  | Some supported => default "" (List.find (fun p => existsb (String.eqb p) supported) (clientSubprotocols r))
  | None => get_key "Sec-Websocket-Protocol" responseHeader
  end.

Definition returnError (u : Upgrader) (e : handshake_error) (status : Z) (hdrs : list (string * string)) : outcome :=
  Refused e status (if Error u then None else Some (hdrs ++ [("Sec-Websocket-Version", "13")])).

Definition negotiated (u : Upgrader) (r : Request) : bool :=
  EnableCompression u && existsb (fun ext => String.eqb (default "" (ext !! "")) "permessage-deflate") (parseExtensions (rHeader r)).

(** The write buffer of the HTTP server is never used: the slice that the source
    compares with a minimum length has length 0. *)
Definition Upgrade (u : Upgrader) (r : Request) (responseHeader : ResponseHeader) (x : hijack) : outcome :=
  if negb (tokenListContainsValue (rHeader r) "Connection" "upgrade") then returnError u noUpgradeToken 400 []
  else if negb (tokenListContainsValue (rHeader r) "Upgrade" "websocket") then returnError u noWebsocketToken 426 [("Upgrade", "websocket")]
  else if negb (String.eqb (Method r) "GET") then returnError u notGet 405 []
  else if negb (tokenListContainsValue (rHeader r) "Sec-Websocket-Version" "13") then returnError u badVersion 400 []
  else if has_key "Sec-Websocket-Extensions" responseHeader then returnError u extensionHeader 500 []
  else if negb (default checkSameOrigin (CheckOrigin u) r) then returnError u badOrigin 403 []
  else
    let challengeKey := Get "Sec-Websocket-Key" (rHeader r) in
    if negb (isValidChallengeKey challengeKey) then returnError u badKey 400 []
    else
      let sub := selectSubprotocol u r responseHeader in
      let comp := negotiated u r in
      if negb (hijacked x) then returnError u hijackFailed 500 []
      else
        let rd := if (ReadBufferSize u =? 0) && (256 <? readerSize x) then HijackedReader
                  else NewReader (0 <? blen (buffered x)) in
        let c := {| isServer := true; reader := rd; readSize := ReadBufferSize u; writeSize := WriteBufferSize u; pool := WriteBufferPool u;
                    subprotocol := sub; compress := comp |} in
        let sent := response challengeKey sub comp responseHeader in
        if negb (deadlineSet x) then Broken
        else if negb (written x) then Broken
        else if (0 <? HandshakeTimeout u) && negb (deadlineCleared x) then Broken
        else Upgraded c sent.
End Server.

Definition IsWebSocketUpgrade (r : Request) : bool :=
  tokenListContainsValue (rHeader r) "Connection" "upgrade" && tokenListContainsValue (rHeader r) "Upgrade" "websocket".

(** [brNetConn.Read]: the bytes that were buffered, then those of the
    connection; a call reads at most [n] bytes, and [chunk] of them if it has to
    ask the network. *)
Record brNetConn := { br : option bytes; net : bytes }.

Definition brNetConn_Read (n chunk : nat) (b : brNetConn) : bytes * brNetConn :=
  match br b with
  | Some buf => (take n buf, {| br := match drop n buf with [] => None | rest => Some rest end; net := net b |})
  | None => (take (n `min` chunk) (net b), {| br := None; net := drop (n `min` chunk) (net b) |})
  end.

(** * Reading a response (net/http, net/textproto) *)

Definition upper (c : ascii) : ascii :=
  let n := char_code c in
  if (97 <=? n) && (n <=? 122) then ascii_of_nat (Z.to_nat (n - 32)) else c.

Fixpoint canonical_loop (first : bool) (s : string) : string :=
  match s with
  | EmptyString => EmptyString
  | String c s => String (if first then upper c else lower c) (canonical_loop (Ascii.eqb c "-") s)
  end.

(** [textproto.CanonicalMIMEHeaderKey]: a name that is not a token stays as it is. *)
Definition canonical (s : string) : string := if all_chars isTokenOctet s then canonical_loop true s else s.

(** A line up to a line feed, without the carriage return before it. *)
Fixpoint read_line (s : string) : option (string * string) :=
  match s with
  | EmptyString => None
  | String c s' =>
      if char_code c =? 10 then Some ("", s')
      else
        match s' with
        | String d rest =>
            if (char_code c =? 13) && (char_code d =? 10) then Some ("", rest)
            else '(l, rest) ← read_line s'; Some (String c l, rest)
        | EmptyString => None
        end
  end.

Fixpoint trim_blank_right (s : string) : string :=
  match s with
  | EmptyString => EmptyString
  | String c s => let s := trim_blank_right s in if isBlank c && String.eqb s "" then "" else String c s
  end.

(** Name and value of a header line; the text after the first colon, without the
    blanks around it. *)
Fixpoint cut_colon (l : string) : option (string * string) :=
  match l with
  | EmptyString => None
  | String c l => if Ascii.eqb c ":" then Some ("", l) else '(k, v) ← cut_colon l; Some (String c k, v)
  end.

Definition add_field (k v : string) (h : Header) : Header := <[k := default [] (h !! k) ++ [v]]> h.

(** The header lines up to an empty one.  A name has to be a token, so lines that
    continue another one are not accepted. *)
Fixpoint read_fields (fuel : nat) (h : Header) (s : string) : option (Header * string) :=
  match fuel with
  | O => None
  | S fuel =>
      '(l, rest) ← read_line s;
      if String.eqb l "" then Some (h, rest)
      else
        '(k, v) ← cut_colon l;
        if String.eqb k "" || negb (all_chars isTokenOctet k) then None
        else read_fields fuel (add_field (canonical k) (trim_blank_right (skipSpace v)) h) rest
  end.

Record Response := { Status : string; StatusCode : Z; header : Header; rest : string }.

Fixpoint trim_spaces_left (s : string) : string :=
  match s with String c s' => if Ascii.eqb c " " then trim_spaces_left s' else s | EmptyString => s end.

(** [http.ReadResponse] of HTTP 1.1, up to the body. *)
Definition ReadResponse (s : string) : option Response :=
  '(l, s') ← read_line s;
  if negb (HasPrefix l "HTTP/1.1 ") then None
  else
    let status := trim_spaces_left (String.substring 9 (String.length l - 9) l) in
    let code := before_char " " status in
    if negb (String.length code =? 3)%nat then None
    else
      code ← ParseUint code 32;
      '(h, rest) ← read_fields (S (String.length s')) ∅ s';
      Some {| Status := status; StatusCode := code; header := h; rest := rest |}.

(** * The client *)

Record Dialer := {
  NetDial : bool;                                 (* the dial functions the application has set *)
  NetDialContext : bool;
  NetDialTLSContext : bool;
  hasProxy : bool;
  dHandshakeTimeout : Z;
  dReadBufferSize : Z;
  dWriteBufferSize : Z;
  dWriteBufferPool : bool;
  dSubprotocols : list string;
  dEnableCompression : bool;
}.

Inductive dial_error :=
| errRandom | errURL | errMalformedURL | errDuplicateHeader (k : string) | errProxy | errDial | errTLS | errWrite | errResponse
| ErrBadHandshake | errInvalidCompression | errDeadline.

(** The last index of a character. *)
Fixpoint LastIndex (c : ascii) (s : string) : Z :=
  match s with
  | EmptyString => -1
  | String d s => let i := LastIndex c s in if 0 <=? i then i + 1 else if Ascii.eqb c d then 0 else -1
  end.

Definition hostPortNoPort (u : URL) : string * string :=
  let i := LastIndex ":" (UHost u) in
  if LastIndex "]" (UHost u) <? i then (UHost u, String.substring 0 (Z.to_nat i) (UHost u))
  else (UHost u +:+ (if String.eqb (Scheme u) "wss" || String.eqb (Scheme u) "https" then ":443" else ":80"), UHost u).

(** [ws] and [wss] become [http] and [https]. *)
Definition http_url (u : URL) : option URL :=
  if String.eqb (Scheme u) "ws" then Some {| Scheme := "http"; UHost := UHost u; User := User u |}
  else if String.eqb (Scheme u) "wss" then Some {| Scheme := "https"; UHost := UHost u; User := User u |}
  else None.

(** The loop over the application's header, in the order of an iteration. *)
Fixpoint add_headers (d : Dialer) (l : list (string * list string)) (r : Request) : dial_error + Request :=
  match l with
  | [] => inr r
  | (k, vs) :: l =>
      if String.eqb k "Host" then
        add_headers d l {| Method := Method r; Host := match vs with v :: _ => v | [] => Host r end; rHeader := rHeader r |}
      else if existsb (String.eqb k) ["Upgrade"; "Connection"; "Sec-Websocket-Key"; "Sec-Websocket-Version"; "Sec-Websocket-Extensions"]
              || String.eqb k "Sec-Websocket-Protocol" && negb (blen (dSubprotocols d) =? 0) then inl (errDuplicateHeader k)
      else
        let k := if String.eqb k "Sec-Websocket-Protocol" then "Sec-WebSocket-Protocol" else k in
        add_headers d l {| Method := Method r; Host := Host r; rHeader := <[k := vs]> (rHeader r) |}
  end.

Definition request (d : Dialer) (u : URL) (challengeKey : string) (requestHeader : list (string * list string)) : dial_error + Request :=
  let h : Header := {["Upgrade" := ["websocket"]; "Connection" := ["Upgrade"]; "Sec-WebSocket-Key" := [challengeKey]; "Sec-WebSocket-Version" := ["13"]]} in
  let h := if 0 <? blen (dSubprotocols d) then <["Sec-WebSocket-Protocol" := [NetIP.join ", " (dSubprotocols d)]]> h else h in
  match add_headers d requestHeader {| Method := "GET"; Host := UHost u; rHeader := h |} with
  | inl e => inl e
  | inr r =>
      inr (if dEnableCompression d then
             {| Method := Method r; Host := Host r;
                rHeader := <["Sec-WebSocket-Extensions" := ["permessage-deflate; server_no_context_takeover; client_no_context_takeover"]]> (rHeader r) |}
           else r)
  end.

(** What connects to the host: a function of the application or the transport of
    the overlay, possibly through a proxy. *)
Inductive route := ByTLSContext | ByNetDialContext | ByNetDial | ByZiti | Through (p : URL) (r : route).

Definition base_route (d : Dialer) (u : URL) : route :=
  if String.eqb (Scheme u) "https" && NetDialTLSContext d then ByTLSContext
  else if NetDialContext d then ByNetDialContext
  else if NetDial d then ByNetDial
  else ByZiti.

(** The checks of a response, and what is negotiated in it. *)
Fixpoint client_compression (l : list (gmap string string)) : option bool :=
  match l with
  | [] => Some false
  | ext :: l =>
      if negb (String.eqb (default "" (ext !! "")) "permessage-deflate") then client_compression l
      else if bool_decide (is_Some (ext !! "server_no_context_takeover")) && bool_decide (is_Some (ext !! "client_no_context_takeover")) then Some true
      else None
  end.

Definition accept (challengeKey : string) (resp : Response) : dial_error + string * bool :=
  if negb (StatusCode resp =? 101)
     || negb (tokenListContainsValue (header resp) "Upgrade" "websocket")
     || negb (tokenListContainsValue (header resp) "Connection" "upgrade")
     || negb (String.eqb (Get "Sec-Websocket-Accept" (header resp)) (computeAcceptKey challengeKey)) then inl ErrBadHandshake
  else
    match client_compression (parseExtensions (header resp)) with
    | None => inl errInvalidCompression
    | Some comp => inr (Get "Sec-Websocket-Protocol" (header resp), comp)
    end.

(** The network: the proxy to use for a request ([None] is an error), dialling and
    the deadline set on what was dialled, the TLS handshake for a name, the
    exchange of a request for a response, and clearing the deadline. *)
Class Network := {
  proxyFor : Request -> option (option URL);
  proxyFromURL : URL -> bool;
  dialRoute : route -> string -> bool;
  handshakeTLS : string -> bool;
  writeRequest : Request -> bool;
  readResponse : Request -> option Response;
  clearDeadline : bool;
}.

(** What a dial returns, whether the network connection was opened, and whether
    it was closed again. *)
Record dialled := { result_ : dial_error + HConn; resp_ : option Response; opened : bool; closed : bool }.

Definition not_dialled (e : dial_error) : dialled := {| result_ := inl e; resp_ := None; opened := false; closed := false |}.

Section Client.
Context {N : Network} (url_Parse : string -> option URL).

(** The part after the connection is open, with what the variable [netConn] holds
    at the return ([true]: a connection, [false]: nil). *)
Definition over_connection (d : Dialer) (u : URL) (hostNoPort challengeKey : string) (req : Request)
    : (dial_error + HConn) * option Response * bool :=
  let netConn := true in
  if String.eqb (Scheme u) "https" && negb (NetDialTLSContext d) && negb (handshakeTLS hostNoPort) then (inl errTLS, None, netConn)
  else if negb (writeRequest req) then (inl errWrite, None, netConn)
  else
    match readResponse req with
    | None => (inl errResponse, None, netConn)
    | Some resp =>
        match accept challengeKey resp with
        | inl e => (inl e, Some resp, netConn)
        | inr (sub, comp) =>
            if negb clearDeadline then (inl errDeadline, Some resp, netConn)
            else
              let netConn := false in
              (inr {| isServer := false; reader := NewReader false; readSize := dReadBufferSize d; writeSize := dWriteBufferSize d;
                      pool := dWriteBufferPool d; subprotocol := sub; compress := comp |}, Some resp, netConn)
        end
    end.

(** The deferred function closes what [netConn] holds. *)
Definition with_deferred_close (x : (dial_error + HConn) * option Response * bool) : dialled :=
  let '(r, resp, netConn) := x in
  {| result_ := r; resp_ := resp; opened := true; closed := if netConn then true else false |}.

Definition DialContext (d : Dialer) (random : option bytes) (urlStr : string) (requestHeader : list (string * list string)) : dialled :=
  match generateChallengeKey random with
  | None => not_dialled errRandom
  | Some challengeKey =>
      match url_Parse urlStr with
      | None => not_dialled errURL
      | Some u =>
          match http_url u with
          | None => not_dialled errMalformedURL
          | Some u =>
              if User u then not_dialled errMalformedURL
              else
                match request d u challengeKey requestHeader with
                | inl e => not_dialled e
                | inr req =>
                    let netDial :=
                      if negb (hasProxy d) then Some (base_route d u)
                      else match proxyFor req with
                           | None => None
                           | Some None => Some (base_route d u)
                           | Some (Some p) => if proxyFromURL p then Some (Through p (base_route d u)) else None
                           end in
                    match netDial with
                    | None => not_dialled errProxy
                    | Some netDial =>
                        let '(hostPort, hostNoPort) := hostPortNoPort u in
                        if negb (dialRoute netDial hostPort) then not_dialled errDial
                        else with_deferred_close (over_connection d u hostNoPort challengeKey req)
                    end
                end
          end
      end
  end.
End Client.

(** * The HTTP proxy *)

(** [httpProxyDialer.DialContext], after the CONNECT request was sent: the error
    of an answer other than 200 is the text behind its code.  The outer [None]
    is a panic. *)
Definition proxy_answer (resp : option Response) : option (option string + unit) :=
  match resp with
  | None => Some (inl None)
  | Some resp =>
      if negb (StatusCode resp =? 200) then
        if has_char " " (Status resp) then
          Some (inl (Some (String.substring (S (String.length (before_char " " (Status resp)))) (String.length (Status resp)) (Status resp))))
        else None
      else Some (inr tt)
  end.

(** * What is sent *)

Definition visible (c : ascii) : bool := 31 <? char_code c.

Lemma visible_line c : visible c = true -> (char_code c =? 10) = false /\ (char_code c =? 13) = false.
Proof. unfold visible. lia. Qed.

Lemma read_line_crlf l rest : all_chars visible l = true -> read_line (l +:+ crlf +:+ rest) = Some (l, rest).
Proof.
  induction l as [|c l IH]; [reflexivity|]. cbn [all_chars]. intros [Hc Hl]%andb_true_iff. rewrite text_cons. specialize (IH Hl).
  destruct (visible_line c Hc) as [E1 E2]. cbn [read_line]. rewrite E1, E2. rewrite IH. destruct (l +:+ crlf +:+ rest) eqn:E; [|done].
  by destruct l.
Qed.

Lemma cut_colon_token k v : all_chars isTokenOctet k = true -> cut_colon (k +:+ String ":" v) = Some (k, v).
Proof.
  induction k as [|c k IH]; [reflexivity|]. cbn [all_chars]. intros [Hc Hk]%andb_true_iff. rewrite text_cons. cbn [cut_colon]. rewrite IH by done.
  destruct (Ascii.eqb_spec c ":") as [->|]; [vm_compute in Hc; discriminate Hc|]. done.
Qed.

Lemma token_visible c : isTokenOctet c = true -> visible c = true.
Proof. destruct c as [[][][][][][][][]]; vm_compute; congruence. Qed.

Lemma all_chars_app f a b : all_chars f (a +:+ b) = all_chars f a && all_chars f b.
Proof. induction a as [|c a IH]; [done|]. rewrite text_cons. cbn [all_chars]. rewrite IH. by rewrite andb_assoc. Qed.

Fixpoint show_fields (l : list (string * string)) : string :=
  match l with [] => "" | (k, v) :: l => header_line k v +:+ show_fields l end.

Definition field_ok (kv : string * string) : Prop := is_token kv.1 /\ all_chars visible kv.2 = true.

Definition trimmed (v : string) : string := trim_blank_right (skipSpace v).

Definition collect (l : list (string * string)) (h : Header) : Header := foldl (fun h kv => add_field (canonical kv.1) (trimmed kv.2) h) h l.

Lemma fields_read l fuel h : Forall field_ok l -> (length l < fuel)%nat -> read_fields fuel h (show_fields l +:+ crlf) = Some (collect l h, "").
Proof.
  intros Hl. revert fuel h. induction Hl as [|[k v] l [[Hk Hkt] Hv] Hl IH]; intros [|fuel] h Hf; try (cbn in Hf; lia).
  - reflexivity.
  - cbn [fst snd show_fields length] in *. unfold header_line. rewrite !string_app_assoc. cbn [read_fields].
    replace (k +:+ ": " +:+ v +:+ crlf +:+ show_fields l +:+ crlf) with ((k +:+ String ":" (String " " v)) +:+ crlf +:+ show_fields l +:+ crlf)
      by (rewrite !string_app_assoc; done).
    rewrite read_line_crlf.
    2:{ rewrite all_chars_app. cbn [all_chars]. rewrite Hv. rewrite (all_chars_impl isTokenOctet visible k); [done|apply token_visible|done]. }
    cbn [mbind option_bind]. destruct (String.eqb_spec (k +:+ String ":" (String " " v)) "") as [E|_]; [by destruct k|].
    rewrite cut_colon_token by done. cbn [mbind option_bind]. rewrite (proj2 (String.eqb_neq k "")), Hkt by done. cbn [orb negb].
    rewrite IH by lia. done.
Qed.

Lemma show_fields_length l : (length l <= String.length (show_fields l))%nat.
Proof. induction l as [|[k v] l IH]; [done|]. cbn [show_fields length]. unfold header_line. rewrite !append_length. cbn [String.length crlf]. lia. Qed.

Definition status_line : string := "HTTP/1.1 101 Switching Protocols".

Lemma response_parsed l : Forall field_ok l ->
  ReadResponse (status_line +:+ crlf +:+ show_fields l +:+ crlf) = Some {| Status := "101 Switching Protocols"; StatusCode := 101; header := collect l ∅; rest := "" |}.
Proof.
  intros Hl. unfold ReadResponse. rewrite read_line_crlf by done. cbn [mbind option_bind]. change (negb (HasPrefix status_line "HTTP/1.1 ")) with false. cbv iota zeta.
  change (trim_spaces_left (String.substring 9 (String.length status_line - 9) status_line)) with "101 Switching Protocols".
  change (before_char " " "101 Switching Protocols") with "101". cbn [String.length Nat.eqb negb]. change (ParseUint "101" 32) with (Some 101). cbn [mbind option_bind].
  rewrite fields_read; [done|done|]. rewrite append_length. pose proof (show_fields_length l). lia.
Qed.

(** The headers of a response of [Upgrade]. *)
Definition response_fields (challengeKey sub : string) (comp : bool) (h : ResponseHeader) : list (string * string) :=
  [("Upgrade", "websocket"); ("Connection", "Upgrade"); ("Sec-WebSocket-Accept", computeAcceptKey challengeKey)] ++
  (if String.eqb sub "" then [] else [("Sec-WebSocket-Protocol", sub)]) ++
  (if comp then [("Sec-WebSocket-Extensions", "permessage-deflate; server_no_context_takeover; client_no_context_takeover")] else []) ++
  (default [] h ≫= fun '(k, vs) => if String.eqb k "Sec-Websocket-Protocol" then [] else (fun v => (k, clean v)) <$> vs).

Lemma show_fields_app l k : show_fields (l ++ k) = show_fields l +:+ show_fields k.
Proof. induction l as [|[a b] l IH]; [done|]. cbn [app show_fields]. by rewrite IH, string_app_assoc. Qed.

Lemma concat_app l k : String.concat "" (l ++ k) = String.concat "" l +:+ String.concat "" k.
Proof.
  assert (forall s l, String.concat "" (s :: l) = s +:+ String.concat "" l) as H.
  { intros s [|s' l']; [by rewrite string_app_nil_r|]. done. }
  induction l as [|s l IH]; [done|]. cbn [app]. rewrite !H, IH. by rewrite string_app_assoc.
Qed.

Lemma extra_shown h : String.concat "" (extra_lines h) =
  show_fields (h ≫= fun '(k, vs) => if String.eqb k "Sec-Websocket-Protocol" then [] else (fun v => (k, clean v)) <$> vs).
Proof.
  unfold extra_lines. induction h as [|[k vs] h IH]; [done|]. cbn [mbind list_bind]. rewrite concat_app, show_fields_app. f_equal; [|exact IH].
  destruct (String.eqb k "Sec-Websocket-Protocol"); [done|]. induction vs as [|v vs IHv]; [done|]. cbn [fmap list_fmap show_fields].
  rewrite <- IHv. change (?x :: ?l) with ([x] ++ l). rewrite concat_app. done.
Qed.

Lemma response_shown key sub comp h : response key sub comp h = status_line +:+ crlf +:+ show_fields (response_fields key sub comp h) +:+ crlf.
Proof.
  unfold response, response_fields. rewrite !show_fields_app, extra_shown. cbn [show_fields]. rewrite !string_app_assoc. do 2 f_equal.
  do 3 f_equal. destruct (String.eqb sub ""), comp; cbn [show_fields]; rewrite ?string_app_nil_r, ?string_app_assoc; reflexivity.
Qed.

Lemma clean_visible v : all_chars visible (clean v) = true.
Proof. induction v as [|c v IH]; [done|]. cbn [clean all_chars]. rewrite IH, andb_true_r. unfold visible. destruct (Z.leb_spec (char_code c) 31); [done|lia]. Qed.

Definition base64_char (c : ascii) : bool := visible c && negb (isBlank c).

Lemma encode6_char v : 0 <= v < 64 -> base64_char (encode6 v) = true.
Proof.
  intros Hv. rewrite <- (Z2Nat.id v) by lia. assert (Z.to_nat v < 64)%nat as Hn by lia. generalize dependent (Z.to_nat v).
  intros n Hn. do 64 (destruct n as [|n]; [reflexivity|]). lia.
Qed.

Lemma encoded_chars s : bytes_ok s -> all_chars base64_char (EncodeToString s) = true.
Proof.
  revert s. refine (bytes_ind3 _ _ _ _ _); [done| | |];
    [intros a H|intros a b H|intros a b c s IH H]; rewrite ?Forall_cons in H; cbn [EncodeToString all_chars]; destruct_and?;
    rewrite !encode6_char by sextets; [reflexivity|reflexivity|]; by rewrite IH.
Qed.

Lemma sha1_ok m : bytes_ok (sha1 m).
Proof.
  unfold sha1. destruct (foldl _ _ _) as [[[[a b] c] d] e]. cbn [mbind list_bind]. unfold putUint32.
  rewrite !Forall_app, !Forall_cons. repeat split; auto using Forall_nil, u8_ok; apply u8_ok.
Qed.

Lemma accept_chars key : all_chars base64_char (computeAcceptKey key) = true.
Proof. apply encoded_chars, sha1_ok. Qed.

Lemma trim_right_id s : all_chars (fun c => negb (isBlank c)) s = true -> trim_blank_right s = s.
Proof.
  induction s as [|c s IH]; [done|]. cbn [all_chars]. intros [Hc%negb_true_iff Hs]%andb_true_iff. cbn [trim_blank_right]. rewrite IH, Hc by done. done.
Qed.

Lemma trimmed_id s : all_chars (fun c => negb (isBlank c)) s = true -> trimmed s = s.
Proof.
  intros H. unfold trimmed. rewrite skipSpace_stops; [by apply trim_right_id|]. destruct s as [|c s]; [done|]. cbn [all_chars] in H.
  apply andb_true_iff in H as [Hc%negb_true_iff _]. exact Hc.
Qed.

Lemma base64_trimmed key : trimmed (computeAcceptKey key) = computeAcceptKey key.
Proof. apply trimmed_id. eapply all_chars_impl; [|apply accept_chars]. intros c [_ H]%andb_true_iff. exact H. Qed.

(** A response header whose names are tokens in canonical form. *)
Definition names_ok (h : ResponseHeader) : Prop := Forall (fun kv => is_token kv.1 /\ canonical kv.1 = kv.1) (default [] h).

Lemma accept_field key : field_ok ("Sec-WebSocket-Accept", computeAcceptKey key).
Proof.
  split; [split; [discriminate|reflexivity]|]. cbn [snd]. eapply all_chars_impl; [|apply accept_chars]. intros c [H _]%andb_true_iff. exact H.
Qed.

Ltac constant_field := split; [split; [discriminate|reflexivity]|first [reflexivity|assumption]].

Lemma fields_ok key sub comp h : all_chars visible sub = true -> names_ok h -> Forall field_ok (response_fields key sub comp h).
Proof.
  intros Hs Hh. unfold response_fields. rewrite !Forall_app. repeat split.
  - apply Forall_cons. split; [constant_field|]. apply Forall_cons. split; [constant_field|]. apply Forall_singleton, accept_field.
  - destruct (String.eqb sub ""); [constructor|]. apply Forall_singleton. constant_field.
  - destruct comp; [|constructor]. apply Forall_singleton. constant_field.
  - induction Hh as [|[k vs] l [Hk _] Hl IH]; [constructor|]. cbn [mbind list_bind]. rewrite Forall_app. split; [|exact IH].
    destruct (String.eqb k "Sec-Websocket-Protocol"); [constructor|]. apply Forall_fmap, Forall_true. intros v. split; [exact Hk|apply clean_visible].
Qed.

(** What the header has under a name: the values of its lines in their order. *)
Lemma collect_lookup l h n : default [] (collect l h !! n) = default [] (h !! n) ++ ((fun kv => trimmed kv.2) <$> filter (fun kv => canonical kv.1 = n) l).
Proof.
  revert h. induction l as [|[k v] l IH]; intros h; [by rewrite app_nil_r|]. change (collect ((k, v) :: l) h) with (collect l (add_field (canonical k) (trimmed v) h)).
  rewrite IH. unfold add_field. destruct (decide (canonical k = n)) as [<-|Hne].
  - rewrite lookup_insert_eq. change (default [] (Some ?x)) with x. rewrite filter_cons_True by done. cbn [fmap list_fmap snd]. by rewrite <- app_assoc.
  - rewrite lookup_insert_ne by done. by rewrite filter_cons_False.
Qed.

Lemma response_not_split_eq key sub comp h : all_chars visible sub = true -> names_ok h ->
  ReadResponse (response key sub comp h) =
    Some {| Status := "101 Switching Protocols"; StatusCode := 101; header := collect (response_fields key sub comp h) ∅; rest := "" |}.
Proof. intros Hs Hh. rewrite response_shown. by apply response_parsed, fields_ok. Qed.

(** What an application puts into the values of its response header cannot add
    lines to the response: the client reads the headers of the handshake and,
    for each value, one header of the name it was given, control characters
    replaced by blanks. *)
Theorem response_not_split key sub comp h : all_chars visible sub = true -> names_ok h ->
  ReadResponse (response key sub comp h) =
    Some {| Status := "101 Switching Protocols"; StatusCode := 101; header := collect (response_fields key sub comp h) ∅; rest := "" |}.
Proof. apply response_not_split_eq. Qed.

(** The subprotocol is not cleaned: one that the application gives in its
    response header can end the response and begin another. *)
Theorem subprotocol_splits_response key : exists sub resp,
  ReadResponse (response key sub false (Some [("Sec-Websocket-Protocol", [sub])])) = Some resp /\ Get "Set-Cookie" (header resp) = "a=b" /\
  response key sub false (Some [("Sec-Websocket-Protocol", [sub])]) = response key sub false None.
Proof.
  exists ("p" +:+ crlf +:+ "Set-Cookie: a=b"). rewrite !response_shown. eexists. split; [|split; [|reflexivity]].
  - change (show_fields (response_fields key ("p" +:+ crlf +:+ "Set-Cookie: a=b") false (Some [("Sec-Websocket-Protocol", ["p" +:+ crlf +:+ "Set-Cookie: a=b"])])))
      with (show_fields [("Upgrade", "websocket"); ("Connection", "Upgrade"); ("Sec-WebSocket-Accept", computeAcceptKey key); ("Sec-WebSocket-Protocol", "p"); ("Set-Cookie", "a=b")]).
    apply response_parsed. repeat (apply Forall_cons; split; [first [apply accept_field|constant_field]|]). constructor.
  - unfold Get. cbn [header]. rewrite collect_lookup. reflexivity.
Qed.

(** * Subprotocols *)

Lemma rev_rev s a b : rev_string (rev_string s a) b = rev_string a (s +:+ b).
Proof. revert a. induction s as [|c s IH]; intros a; [done|]. cbn [rev_string]. rewrite IH. done. Qed.

Lemma trim_left_stops s : stops IsSpace s -> trim_left s = s.
Proof. destruct s as [|c s]; [done|]. cbn [stops trim_left]. by intros ->. Qed.

Lemma TrimSpace_id s : stops IsSpace s -> stops IsSpace (rev_string s "") -> TrimSpace s = s.
Proof. intros H1 H2. unfold TrimSpace. rewrite (trim_left_stops s), trim_left_stops by done. rewrite rev_rev. apply string_app_nil_r. Qed.

Lemma token_not_space c : isTokenOctet c = true -> IsSpace c = false.
Proof. destruct c as [[][][][][][][][]]; vm_compute; congruence. Qed.

Lemma token_start t s : is_token t -> stops IsSpace (t +:+ s).
Proof. intros [Ht Htt]. destruct t as [|c t]; [done|]. cbn [all_chars] in Htt. apply andb_true_iff in Htt as [Hc _]. by apply token_not_space. Qed.

Lemma token_end t acc : is_token t -> stops IsSpace (rev_string t acc).
Proof.
  intros [Ht Htt]. revert acc. induction t as [|c t IH]; intros acc; [done|]. cbn [all_chars] in Htt. apply andb_true_iff in Htt as [Hc Htt]. cbn [rev_string].
  destruct t as [|d t]; [by apply token_not_space|]. by apply IH.
Qed.

Lemma rev_app a b acc : rev_string (a +:+ b) acc = rev_string b (rev_string a acc).
Proof. revert acc. induction a as [|c a IH]; intros acc; [done|]. rewrite text_cons. cbn [rev_string]. apply IH. Qed.

Lemma join_cons sep t l : l <> [] -> NetIP.join sep (t :: l) = t +:+ sep +:+ NetIP.join sep l.
Proof. by destruct l. Qed.

Lemma join_trimmed l : l <> [] -> Forall is_token l -> TrimSpace (NetIP.join ", " l) = NetIP.join ", " l.
Proof.
  intros Hne Hl. apply TrimSpace_id.
  - destruct Hl as [|t l Ht Hl]; [done|]. destruct l as [|t' l]; [cbn; rewrite <- (string_app_nil_r t); by apply token_start|].
    rewrite join_cons by done. by apply token_start.
  - enough (forall acc, stops IsSpace (rev_string (NetIP.join ", " l) acc)) as H by done.
    induction Hl as [|t l Ht Hl IH]; [done|]. intros acc. destruct l as [|t' l]; [by apply token_end|].
    rewrite join_cons by done. rewrite !rev_app. by apply IH.
Qed.

Lemma split_no_comma t s : all_chars isTokenOctet t = true -> Split "," (t +:+ String "," s) = t :: Split "," s /\ Split "," t = [t].
Proof.
  intros Ht. induction t as [|c t IH]; [done|]. cbn [all_chars] in Ht. apply andb_true_iff in Ht as [Hc Ht]. destruct (IH Ht) as [E1 E2].
  rewrite text_cons. cbn [Split]. destruct (Ascii.eqb_spec "," c) as [<-|]; [vm_compute in Hc; discriminate Hc|]. by rewrite E1, E2.
Qed.

Lemma split_blank s : TrimSpace <$> Split "," (String " " s) = TrimSpace <$> Split "," s.
Proof. cbn [Split]. change (Ascii.eqb "," " ") with false. cbv iota. by destruct (Split "," s). Qed.

Lemma split_join l : l <> [] -> Forall is_token l -> TrimSpace <$> Split "," (NetIP.join ", " l) = l.
Proof.
  intros Hne Hl. induction Hl as [|t l Ht Hl IH]; [done|].
  assert (TrimSpace t = t) as Et by (apply TrimSpace_id; [rewrite <- (string_app_nil_r t); by apply token_start|by apply token_end]).
  destruct l as [|t' l].
  - cbn [NetIP.join]. destruct (split_no_comma t "" (proj2 Ht)) as [_ ->]. cbn. by rewrite Et.
  - rewrite join_cons by done. change (", " +:+ ?s) with (String "," (String " " s)). destruct (split_no_comma t (String " " (NetIP.join ", " (t' :: l))) (proj2 Ht)) as [-> _].
    cbn [fmap list_fmap]. rewrite Et. f_equal. change (list_fmap _ _ TrimSpace ?x) with (TrimSpace <$> x). rewrite split_blank. by apply IH.
Qed.

Lemma join_nonempty l : l <> [] -> Forall is_token l -> NetIP.join ", " l <> "".
Proof. intros Hne Hl. destruct Hl as [|t l [Ht _] Hl]; [done|]. destruct l; [done|]. rewrite join_cons by done. by apply app_nonempty_l. Qed.

Lemma subprotocols_read l r : Forall is_token l -> Get "Sec-Websocket-Protocol" (rHeader r) = (if bool_decide (l = []) then "" else NetIP.join ", " l) -> clientSubprotocols r = l.
Proof.
  intros Hl E. unfold clientSubprotocols. rewrite E. case_bool_decide as Hn; [by subst|]. rewrite join_trimmed by done.
  rewrite (proj2 (String.eqb_neq _ "")) by (by apply join_nonempty). by apply split_join.
Qed.

(** The server takes the first protocol of the client that it supports: the order
    of the client decides. *)
Theorem client_order_decides u r l supported h : Subprotocols u = Some supported -> Forall is_token l ->
  Get "Sec-Websocket-Protocol" (rHeader r) = (if bool_decide (l = []) then "" else NetIP.join ", " l) ->
  selectSubprotocol u r h = default "" (List.find (fun p => existsb (String.eqb p) supported) l).
Proof. intros Hu Hl E. unfold selectSubprotocol. rewrite Hu. by rewrite (subprotocols_read l r Hl E). Qed.

(** * The two sides together *)

(** The request as the HTTP server gives it to the application: names of headers
    in canonical form. *)
Definition arrives (req r : Request) : Prop :=
  Method r = Method req /\ Host r = Host req /\
  (forall k vs, rHeader req !! k = Some vs -> rHeader r !! canonical k = Some vs) /\
  (forall n, is_Some (rHeader r !! n) -> exists k, canonical k = n /\ is_Some (rHeader req !! k)).

Definition deflate : string := "permessage-deflate; server_no_context_takeover; client_no_context_takeover".

Lemma request_header d u key req : request d u key [] = inr req ->
  Method req = "GET" /\ rHeader req !! "Upgrade" = Some ["websocket"] /\ rHeader req !! "Connection" = Some ["Upgrade"] /\
  rHeader req !! "Sec-WebSocket-Key" = Some [key] /\ rHeader req !! "Sec-WebSocket-Version" = Some ["13"] /\
  rHeader req !! "Sec-WebSocket-Protocol" = (if bool_decide (dSubprotocols d = []) then None else Some [NetIP.join ", " (dSubprotocols d)]) /\
  rHeader req !! "Sec-WebSocket-Extensions" = (if dEnableCompression d then Some [deflate] else None) /\
  forall k, is_Some (rHeader req !! k) ->
    k ∈ ["Upgrade"; "Connection"; "Sec-WebSocket-Key"; "Sec-WebSocket-Version"; "Sec-WebSocket-Protocol"; "Sec-WebSocket-Extensions"].
Proof.
  unfold request. cbn [add_headers]. assert ((0 <? blen (dSubprotocols d)) = negb (bool_decide (dSubprotocols d = []))) as ->.
  { destruct (dSubprotocols d); [done|]. rewrite bool_decide_false by done. apply Z.ltb_lt. unfold blen. cbn [length]. lia. }
  intros [= <-].
  assert (forall (h : Header) k0 v k, is_Some (<[k0 := v]> h !! k) -> k = k0 \/ is_Some (h !! k)) as Hi.
  { intros h k0 v k. destruct (decide (k0 = k)) as [->|Hne]; [by left|]. rewrite lookup_insert_ne by done. by right. }
  destruct (bool_decide (dSubprotocols d = [])), (dEnableCompression d); cbn [negb rHeader Method];
    (repeat split); intros k Hk; repeat (apply Hi in Hk as [->|Hk]; [rewrite !elem_of_cons; tauto|]);
    rewrite lookup_empty in Hk; by destruct Hk.
Qed.

Lemma absent_name d u key req r n : request d u key [] = inr req -> arrives req r ->
  Forall (fun k => rHeader req !! k = None \/ canonical k <> n) ["Upgrade"; "Connection"; "Sec-WebSocket-Key"; "Sec-WebSocket-Version"; "Sec-WebSocket-Protocol"; "Sec-WebSocket-Extensions"] ->
  rHeader r !! n = None.
Proof.
  intros E (_ & _ & _ & Ha) Hf. destruct (rHeader r !! n) as [v|] eqn:En; [|done]. destruct (Ha n) as (k & Hk & Hs); [by rewrite En|].
  destruct (request_header d u key req E) as (_ & _ & _ & _ & _ & _ & _ & Hin). specialize (Hin k Hs). rewrite Forall_forall in Hf.
  destruct (Hf k Hin) as [Hnone|Hne]; [by rewrite Hnone in Hs; destruct Hs|done].
Qed.

(** What the server finds in the request of a client. *)
Lemma server_view d u key req r : request d u key [] = inr req -> arrives req r -> Forall is_token (dSubprotocols d) ->
  Method r = "GET" /\ tokenListContainsValue (rHeader r) "Connection" "upgrade" = true /\ tokenListContainsValue (rHeader r) "Upgrade" "websocket" = true /\
  tokenListContainsValue (rHeader r) "Sec-Websocket-Version" "13" = true /\ Get "Sec-Websocket-Key" (rHeader r) = key /\
  clientSubprotocols r = dSubprotocols d /\ rHeader r !! "Origin" = None /\
  existsb (fun ext => String.eqb (default "" (ext !! "")) "permessage-deflate") (parseExtensions (rHeader r)) = dEnableCompression d.
Proof.
  intros E Ha Hd. destruct (request_header d u key req E) as (Hm & Hu & Hc & Hk & Hv & Hp & He & _). pose proof Ha as (Em & _ & Hin & _).
  pose proof (absent_name d u key req r) as Habs. apply Hin in Hu, Hc, Hk, Hv.
  change (canonical "Upgrade") with "Upgrade" in Hu. change (canonical "Connection") with "Connection" in Hc.
  split; [by rewrite Em|]. split; [unfold tokenListContainsValue; by rewrite Hc|]. split; [unfold tokenListContainsValue; by rewrite Hu|].
  split; [unfold tokenListContainsValue; change "Sec-Websocket-Version" with (canonical "Sec-WebSocket-Version"); by rewrite Hv|].
  split; [unfold Get; change "Sec-Websocket-Key" with (canonical "Sec-WebSocket-Key"); by rewrite Hk|].
  split; [|split].
  - apply subprotocols_read; [done|]. unfold Get. case_bool_decide.
    + rewrite (Habs "Sec-Websocket-Protocol"); [done|done|done|]. repeat (apply Forall_cons; split; [first [right; vm_compute; discriminate|by left]|]). constructor.
    + change "Sec-Websocket-Protocol" with (canonical "Sec-WebSocket-Protocol"). by rewrite (Hin _ _ Hp).
  - apply (Habs "Origin"); [done|done|]. repeat (apply Forall_cons; split; [right; vm_compute; discriminate|]). constructor.
  - unfold parseExtensions. destruct (dEnableCompression d).
    + change "Sec-Websocket-Extensions" with (canonical "Sec-WebSocket-Extensions"). rewrite (Hin _ _ He). vm_compute. reflexivity.
    + rewrite (Habs "Sec-Websocket-Extensions"); [done|done|done|]. repeat (apply Forall_cons; split; [first [right; vm_compute; discriminate|by left]|]). constructor.
Qed.

Lemma extras_without n h : names_ok h -> n = "Sec-Websocket-Protocol" \/ has_key n h = false ->
  filter (fun kv => canonical kv.1 = n) (default [] h ≫= fun '(k, vs) => if String.eqb k "Sec-Websocket-Protocol" then [] else (fun v => (k, clean v)) <$> vs) = [].
Proof.
  unfold names_ok, has_key. induction 1 as [|[k vs] l [_ Hk] Hl IH]; [done|]. intros Hn. cbn [mbind list_bind fst] in *. rewrite filter_app, IH, app_nil_r.
  2:{ destruct Hn as [Hn|Hn]; [by left|right]. cbn [existsb] in Hn. by apply orb_false_iff in Hn as [_ Hn]. }
  destruct (String.eqb_spec k "Sec-Websocket-Protocol") as [|Hkp]; [done|]. assert (k <> n) as Hne.
  { destruct Hn as [->|Hn]; [done|]. cbn [existsb fst] in Hn. apply orb_false_iff in Hn as [Hn _]. by apply String.eqb_neq. }
  clear Hn. induction vs as [|v vs IHv]; [done|]. cbn [fmap list_fmap]. rewrite filter_cons_False; [exact IHv|]. cbn [fst]. by rewrite Hk.
Qed.

Ltac skip_field := rewrite filter_cons_False by (vm_compute; discriminate).
Ltac take_field := rewrite filter_cons_True by reflexivity; cbn [fmap list_fmap snd].

(** What the client makes of a response. *)
Lemma client_view key sub comp h resp : (sub = "" \/ is_token sub) -> names_ok h -> has_key "Sec-Websocket-Extensions" h = false ->
  resp = {| Status := "101 Switching Protocols"; StatusCode := 101; header := collect (response_fields key sub comp h) ∅; rest := "" |} ->
  accept key resp = inr (sub, comp).
Proof.
  intros Hs Hh Hx ->. unfold accept. cbn [StatusCode header]. change (negb (101 =? 101)) with false. cbn [orb].
  assert (trimmed sub = sub) as Ets.
  { destruct Hs as [->|[_ Hs]]; [done|]. apply trimmed_id. eapply all_chars_impl; [|exact Hs]. intros c Hc. by rewrite token_not_blank. }
  assert (forall n, default [] (collect (response_fields key sub comp h) ∅ !! n) = (fun kv => trimmed kv.2) <$> filter (fun kv => canonical kv.1 = n) (response_fields key sub comp h)) as Hl
    by (intros n; by rewrite collect_lookup).
  assert (tokenListContainsValue (collect (response_fields key sub comp h) ∅) "Upgrade" "websocket" = true) as ->.
  { unfold tokenListContainsValue. rewrite Hl. unfold response_fields. cbn [app]. take_field. reflexivity. }
  assert (tokenListContainsValue (collect (response_fields key sub comp h) ∅) "Connection" "upgrade" = true) as ->.
  { unfold tokenListContainsValue. rewrite Hl. unfold response_fields. cbn [app]. skip_field. take_field. reflexivity. }
  assert (Get "Sec-Websocket-Accept" (collect (response_fields key sub comp h) ∅) = computeAcceptKey key) as ->.
  { unfold Get. rewrite Hl. unfold response_fields. cbn [app]. skip_field. skip_field. take_field. cbn [lookup list_lookup default]. apply base64_trimmed. }
  rewrite String.eqb_refl. cbn [negb orb].
  assert (parseExtensions (collect (response_fields key sub comp h) ∅) = if comp then parseExtensions {["Sec-Websocket-Extensions" := [deflate]]} else []) as ->.
  { unfold parseExtensions. rewrite Hl. unfold response_fields. rewrite !filter_app, !fmap_app. rewrite extras_without by auto. 
    cbn [app]. do 3 skip_field. destruct (String.eqb sub ""), comp; cbn [app]; try skip_field; try take_field; reflexivity. }
  assert (Get "Sec-Websocket-Protocol" (collect (response_fields key sub comp h) ∅) = sub) as ->.
  { unfold Get. rewrite Hl. unfold response_fields. rewrite !filter_app, !fmap_app. rewrite extras_without by auto. cbn [app]. do 3 skip_field.
    destruct (String.eqb_spec sub "") as [->|]; destruct comp; cbn [app]; try take_field; try skip_field; try reflexivity; exact Ets. }
  destruct comp; vm_compute; reflexivity.
Qed.

Definition all_well (x : hijack) : Prop := hijacked x = true /\ deadlineSet x = true /\ written x = true /\ deadlineCleared x = true.

(** C12. A dialer and an upgrader that meet: the server accepts the request, the
    client reads its response and accepts it, and both agree on the protocol,
    one that both list if there is one and none otherwise, and on compression,
    which is used when both enable it.  The application adds no headers to the
    request, its subprotocols are tokens, the server has a list of its own, allows the origin,
    adds to its response headers with proper names and no extensions, and its connection does
    not fail. *)
Theorem handshake_agrees url_Parse d url p req r u supported h x :
  bytes_ok p -> length p = 16%nat -> Forall is_token (dSubprotocols d) ->
  request d url (EncodeToString p) [] = inr req -> arrives req r ->
  from_option (fun check => check r) true (CheckOrigin u) = true -> Subprotocols u = Some supported ->
  names_ok h -> has_key "Sec-Websocket-Extensions" h = false -> all_well x ->
  exists c sent resp, Upgrade url_Parse u r h x = Upgraded c sent /\ ReadResponse sent = Some resp /\
    accept (EncodeToString p) resp = inr (subprotocol c, compress c) /\
    compress c = EnableCompression u && dEnableCompression d /\
    (subprotocol c <> "" -> subprotocol c ∈ dSubprotocols d /\ subprotocol c ∈ supported) /\
    (subprotocol c = "" -> forall q, q ∈ dSubprotocols d -> q ∉ supported).
Proof.
  intros Hp Hl Hd Hreq Ha Ho Hu Hh Hx (H1 & H2 & H3 & H4).
  destruct (server_view d url _ req r Hreq Ha Hd) as (Em & Ec & Eu & Ev & Ek & Es & Eo & Ee).
  assert (default (checkSameOrigin url_Parse) (CheckOrigin u) r = true) as Ho'.
  { destruct (CheckOrigin u); [exact Ho|]. change (default ?x None) with x. unfold checkSameOrigin. by rewrite Eo. }
  set (sub := default "" (List.find (fun p => existsb (String.eqb p) supported) (dSubprotocols d))).
  assert (sub = "" \/ is_token sub) as Hsub.
  { subst sub. destruct (List.find _ _) as [s|] eqn:Ef; [|by left]. right. apply find_some in Ef as [Hin _]. rewrite Forall_forall in Hd. by apply Hd, list_elem_of_In. }
  assert (selectSubprotocol u r h = sub) as Esel by (unfold selectSubprotocol; by rewrite Hu, Es).
  assert (negotiated u r = EnableCompression u && dEnableCompression d) as Eneg by (unfold negotiated; by rewrite Ee).
  assert (all_chars visible sub = true) as Hvis.
  { destruct Hsub as [->|[_ Hs]]; [done|]. eapply all_chars_impl; [apply token_visible|exact Hs]. }
  unfold Upgrade. rewrite Ec, Eu, Em, Ev, Hx, Ho', Ek, generated_valid, Esel, Eneg, H1, H2, H3, H4 by done. cbn [negb String.eqb Ascii.eqb Bool.eqb].
  rewrite andb_false_r. do 3 eexists. split; [done|]. split; [by apply response_not_split_eq|]. cbn [subprotocol compress].
  split; [by eapply client_view|]. split; [done|]. subst sub. clear -Hd. rewrite Forall_forall in Hd.
  destruct (List.find _ _) as [s|] eqn:Ef; cbn [default from_option]; unfold id.
  - apply find_some in Ef as [Hin%list_elem_of_In (q & Hq%list_elem_of_In & E)%existsb_exists].
    apply String.eqb_eq in E. subst q. split; [done|]. intros ->. by destruct (Hd "" Hin).
  - split; [done|]. intros _ q Hq Hs. apply list_elem_of_In in Hq. apply (find_none _ _ Ef) in Hq.
    assert (existsb (String.eqb q) supported = true) as E; [|congruence]. apply existsb_exists. exists q. split; [by apply list_elem_of_In|apply String.eqb_refl].
Qed.

(** A header lists a word. *)
Definition lists (h : Header) (name word : string) : Prop := exists line t, line ∈ default [] (h !! name) /\ listed line t /\ ToLower t = word.

(** [Upgrade] takes a connection over only for a GET request that lists what
    RFC 6455 asks for, from an origin that is allowed and with a key of sixteen
    bytes; then the response has the answer to that key. *)
Theorem upgrade_only_valid url_Parse u r h x c sent : Upgrade url_Parse u r h x = Upgraded c sent ->
  Method r = "GET" /\ lists (rHeader r) "Connection" "upgrade" /\ lists (rHeader r) "Upgrade" "websocket" /\ lists (rHeader r) "Sec-Websocket-Version" "13" /\
  (CheckOrigin u = None -> forall o l, rHeader r !! "Origin" = Some (o :: l) -> exists origin, url_Parse o = Some origin /\ equalASCIIFold (UHost origin) (Host r) = true) /\
  (exists p, DecodeString (Get "Sec-Websocket-Key" (rHeader r)) = Some p /\ length p = 16%nat) /\
  sent = response (Get "Sec-Websocket-Key" (rHeader r)) (subprotocol c) (compress c) h /\ isServer c = true.
Proof.
  unfold Upgrade.
  destruct (tokenListContainsValue (rHeader r) "Connection" "upgrade") eqn:Ec; [|done].
  destruct (tokenListContainsValue (rHeader r) "Upgrade" "websocket") eqn:Eu; [|done].
  destruct (String.eqb_spec (Method r) "GET") as [Em|]; [|done].
  destruct (tokenListContainsValue (rHeader r) "Sec-Websocket-Version" "13") eqn:Ev; [|done].
  destruct (has_key _ h); [done|]. destruct (default (checkSameOrigin url_Parse) (CheckOrigin u) r) eqn:Eo; [|done].
  destruct (isValidChallengeKey _) eqn:Ek; [|done]. cbn [negb]. destruct (hijacked x), (deadlineSet x), (written x); try done. cbn [negb].
  destruct ((0 <? HandshakeTimeout u) && _); [done|]. intros [= <- <-]. cbn [subprotocol compress isServer].
  apply token_list_spec in Ec, Eu, Ev; [|reflexivity..]. split; [done|]. split; [exact Ec|]. split; [exact Eu|]. split; [exact Ev|]. split; [|split; [|done]].
  - intros Hn o l Ho. rewrite Hn in Eo. change (default ?f None r) with (f r) in Eo. unfold checkSameOrigin in Eo. rewrite Ho in Eo.
    change (default [] (Some ?y)) with y in Eo. cbv iota in Eo. destruct (url_Parse o) as [origin|]; [|done]. by exists origin.
  - unfold isValidChallengeKey in Ek. destruct (String.eqb _ ""); [done|]. destruct (DecodeString _) as [q|]; [|done]. exists q. split; [done|]. by apply Nat.eqb_eq.
Qed.

Lemma add_headers_error d l r e : add_headers d l r = inl e -> exists k, e = errDuplicateHeader k.
Proof.
  revert r. induction l as [|[k vs] l IH]; intros r; [done|]. cbn [add_headers]. destruct (String.eqb k "Host"); [apply IH|].
  destruct (_ || _); [intros [= <-]; by exists k|apply IH].
Qed.

Lemma request_error d u key l e : request d u key l = inl e -> exists k, e = errDuplicateHeader k.
Proof. unfold request. destruct (add_headers _ _ _) as [e'|] eqn:E; [|done]. intros [= <-]. by eapply add_headers_error. Qed.

(** A response that answers the key. *)
Definition answers (key : string) (resp : Response) : Prop :=
  StatusCode resp = 101 /\ lists (header resp) "Upgrade" "websocket" /\ lists (header resp) "Connection" "upgrade" /\
  Get "Sec-Websocket-Accept" (header resp) = computeAcceptKey key.

(** What a client makes of a response to its key: a connection with what was
    negotiated, or the refusal of a response that is no answer. *)
Definition judged (key : string) (resp : option Response) (r : dial_error + HConn) : Prop :=
  match r with
  | inl ErrBadHandshake => exists x, resp = Some x /\ ~ answers key x
  | inl _ => True
  | inr c => exists x, resp = Some x /\ answers key x /\ isServer c = false /\
      subprotocol c = Get "Sec-Websocket-Protocol" (header x) /\
      client_compression (parseExtensions (header x)) = Some (compress c)
  end.

Lemma accept_checks key resp : match accept key resp with
  | inl ErrBadHandshake => ~ answers key resp
  | inl _ => True
  | inr (sub, comp) => answers key resp /\ sub = Get "Sec-Websocket-Protocol" (header resp) /\
      client_compression (parseExtensions (header resp)) = Some comp
  end.
Proof.
  pose proof (token_list_spec (header resp) "Upgrade" "websocket" eq_refl) as HU.
  pose proof (token_list_spec (header resp) "Connection" "upgrade" eq_refl) as HC.
  unfold accept, answers. destruct (Z.eqb_spec (StatusCode resp) 101) as [Es|]; [|by intros (? & _)].
  destruct (tokenListContainsValue (header resp) "Upgrade" "websocket"); [|by intros (_ & ?%HU & _)].
  destruct (tokenListContainsValue (header resp) "Connection" "upgrade"); [|by intros (_ & _ & ?%HC & _)].
  destruct (String.eqb_spec (Get "Sec-Websocket-Accept" (header resp)) (computeAcceptKey key)) as [Ea|]; [|by intros (_ & _ & _ & ?)]. cbn [negb orb].
  destruct (client_compression _) eqn:Ec; [|done]. apply proj1 in HU, HC. split_and!; [done|exact (HU eq_refl)|exact (HC eq_refl)|done..].
Qed.

Lemma connection_checks `{N : Network} d u host key req :
  let '(r, resp, netConn) := over_connection d u host key req in
  (netConn = true <-> exists e, r = inl e) /\ judged key resp r.
Proof.
  assert (forall e : dial_error, true = true <-> exists e', (inl e : dial_error + HConn) = inl e') as He by (intros e; split; [by exists e|done]).
  unfold over_connection. destruct (_ && _ && _); [by split|]. destruct (negb (writeRequest req)); [by split|].
  destruct (readResponse req) as [resp|]; [|by split]. pose proof (accept_checks key resp) as H.
  destruct (accept key resp) as [e|[sub comp]]; [split; [done|]; destruct e; try done; by exists resp|].
  destruct (negb clearDeadline); [by split|]. destruct H as (H1 & H2 & H3). split; [by split; [|intros []]|]. by exists resp.
Qed.


(** A proxy that refuses without a reason phrase makes the client panic. *)
Theorem proxy_without_reason_panics resp : StatusCode resp <> 200 -> has_char " " (Status resp) = false -> proxy_answer (Some resp) = None.
Proof. intros Hs Hc. unfold proxy_answer. by rewrite (proj2 (Z.eqb_neq _ _) Hs), Hc. Qed.

(** * Early data *)

Fixpoint read_all (sizes : list (nat * nat)) (b : brNetConn) : bytes * brNetConn :=
  match sizes with
  | [] => ([], b)
  | (n, chunk) :: sizes => let '(x, b) := brNetConn_Read n chunk b in let '(y, b) := read_all sizes b in (x ++ y, b)
  end.

Definition pending (b : brNetConn) : bytes := default [] (br b) ++ net b.

(** What the client sent before the response arrived is read before what came
    after it, whatever the sizes of the reads; nothing is lost. *)
Theorem early_data_first sizes b : let '(got, b') := read_all sizes b in got ++ pending b' = pending b.
Proof.
  revert b. induction sizes as [|[n chunk] sizes IH]; intros b; [done|]. cbn [read_all]. unfold brNetConn_Read at 1. destruct (br b) as [buf|] eqn:Eb.
  - set (b1 := {| br := _; net := net b |}). specialize (IH b1). destruct (read_all sizes b1) as [y b']. rewrite <- app_assoc, IH. unfold pending. subst b1. cbn [br net].
    rewrite Eb. change (default [] (Some buf)) with buf. rewrite <- (take_drop n buf) at 3. rewrite <- app_assoc. f_equal. by destruct (drop n buf).
  - set (b1 := {| br := None; net := _ |}). specialize (IH b1). destruct (read_all sizes b1) as [y b']. rewrite <- app_assoc, IH. unfold pending. subst b1. cbn [br net].
    rewrite Eb. exact (take_drop _ (net b)).
Qed.

(** * Concrete handshakes *)

Module TestHandshake.
Definition key : bytes := to_bytes "the sample nonce".
Definition dialer : Dialer :=
  {| NetDial := false; NetDialContext := false; NetDialTLSContext := false; hasProxy := false; dHandshakeTimeout := 45 * second; dReadBufferSize := 0;
     dWriteBufferSize := 0; dWriteBufferPool := false; dSubprotocols := ["chat"; "superchat"]; dEnableCompression := true |}.
Definition server : Upgrader :=
  {| HandshakeTimeout := 0; ReadBufferSize := 0; WriteBufferSize := 0; WriteBufferPool := false; Subprotocols := Some ["superchat"; "chat"]; Error := false;
     CheckOrigin := None; EnableCompression := true |}.
Definition livekit : URL := {| Scheme := "https"; UHost := "livekit.ziti.example:7880"; User := false |}.
Definition no_url (s : string) : option URL := None.
Definition cookie : ResponseHeader := Some [("Set-Cookie", ["a=b" +:+ crlf +:+ "X: y"])].
Definition taken : hijack := {| hijacked := true; readerSize := 4096; buffered := []; deadlineSet := true; written := true; deadlineCleared := true |}.

Definition sent : Request :=
  {| Method := "GET"; Host := "livekit.ziti.example:7880";
     rHeader := {["Sec-WebSocket-Extensions" := [deflate]; "Sec-WebSocket-Protocol" := ["chat, superchat"]; "Upgrade" := ["websocket"]; "Connection" := ["Upgrade"];
                  "Sec-WebSocket-Key" := [EncodeToString key]; "Sec-WebSocket-Version" := ["13"]]} |}.
Definition received : Request :=
  {| Method := "GET"; Host := "livekit.ziti.example:7880";
     rHeader := {["Sec-Websocket-Extensions" := [deflate]; "Sec-Websocket-Protocol" := ["chat, superchat"]; "Upgrade" := ["websocket"]; "Connection" := ["Upgrade"];
                  "Sec-Websocket-Key" := [EncodeToString key]; "Sec-Websocket-Version" := ["13"]]} |}.

Lemma sent_arrives : arrives sent received.
Proof.
  split; [done|]. split; [done|]. split.
  - intros k vs. cbn [sent rHeader]. intros H.
    repeat (apply lookup_insert_Some in H as [[<- <-]|[_ H]]; [vm_compute; reflexivity|]). apply lookup_singleton_Some in H as [<- <-]. vm_compute. reflexivity.
  - intros n [v H]. cbn [received rHeader] in H.
    apply lookup_insert_Some in H as [[<- <-]|[_ H]]; [exists "Sec-WebSocket-Extensions"; split; [reflexivity|vm_compute; eauto]|].
    apply lookup_insert_Some in H as [[<- <-]|[_ H]]; [exists "Sec-WebSocket-Protocol"; split; [reflexivity|vm_compute; eauto]|].
    apply lookup_insert_Some in H as [[<- <-]|[_ H]]; [exists "Upgrade"; split; [reflexivity|vm_compute; eauto]|].
    apply lookup_insert_Some in H as [[<- <-]|[_ H]]; [exists "Connection"; split; [reflexivity|vm_compute; eauto]|].
    apply lookup_insert_Some in H as [[<- <-]|[_ H]]; [exists "Sec-WebSocket-Key"; split; [reflexivity|vm_compute; eauto]|].
    apply lookup_singleton_Some in H as [<- <-]. exists "Sec-WebSocket-Version". split; [reflexivity|vm_compute; eauto].
Qed.

Lemma handshake_agrees_witness : exists c sent resp, Upgrade no_url server received cookie taken = Upgraded c sent /\ ReadResponse sent = Some resp /\
  accept (EncodeToString key) resp = inr (subprotocol c, compress c) /\ compress c = true /\
  (subprotocol c <> "" -> subprotocol c ∈ ["chat"; "superchat"] /\ subprotocol c ∈ ["superchat"; "chat"]) /\
  (subprotocol c = "" -> forall q, q ∈ ["chat"; "superchat"] -> q ∉ ["superchat"; "chat"]).
Proof.
  apply (handshake_agrees no_url dialer livekit key sent received server ["superchat"; "chat"] cookie taken).
  - apply Forall_forall. intros b Hb. unfold key, to_bytes in Hb. apply list_elem_of_fmap in Hb as (c & -> & _). apply char_code_range.
  - reflexivity.
  - repeat constructor; vm_compute; discriminate.
  - reflexivity.
  - apply sent_arrives.
  - reflexivity.
  - reflexivity.
  - repeat constructor; vm_compute; discriminate.
  - reflexivity.
  - repeat split.
Defined.

(** The carriage return of the cookie has become a blank. *)
Lemma response_not_split_witness : exists resp, ReadResponse (response "k" "chat" true cookie) = Some resp /\ Get "Set-Cookie" (header resp) = "a=b  X: y".
Proof.
  eexists. split; [apply response_not_split; [reflexivity|repeat constructor; vm_compute; discriminate]|]. vm_compute. reflexivity.
Defined.

Lemma upgrade_only_valid_witness : Method received = "GET" /\ lists (rHeader received) "Connection" "upgrade".
Proof.
  destruct (Upgrade no_url server received cookie taken) as [| |c s] eqn:E; [vm_compute in E; discriminate E|vm_compute in E; discriminate E|].
  destruct (upgrade_only_valid no_url server received cookie taken c s E) as (H1 & H2 & _). by split.
Defined.

Lemma client_order_decides_witness : selectSubprotocol server received cookie = "chat".
Proof. apply (client_order_decides server received ["chat"; "superchat"] ["superchat"; "chat"]); [reflexivity|repeat constructor; vm_compute; discriminate|reflexivity]. Defined.

Definition refusal : Response := {| Status := "403"; StatusCode := 403; header := ∅; rest := "" |}.

Example refusal_read : ReadResponse ("HTTP/1.1 403" +:+ crlf +:+ crlf) = Some refusal.
Proof. vm_compute. reflexivity. Qed.

Lemma proxy_without_reason_panics_witness : proxy_answer (Some refusal) = None.
Proof. apply proxy_without_reason_panics; [discriminate|reflexivity]. Defined.
End TestHandshake.
