(* ===== verification/Operations.v ===== *)
(** The task executor of a peer connection: operations.go of lib/pion-webrtc,
    with [onNegotiationNeeded] of peerconnection.go, whose calls go through it,
    and what [negotiationNeededOp] does with the flag of the executor.

    The goroutines that share an executor are a list of threads; each is at a
    point between two accesses to shared state, and a step of the system is a
    step of one thread, or a new call.  Operations do not panic, and the
    connection is not closed. *)

From S2P Require Import Prelude.

#[local] Open Scope list_scope.

(** An operation: that of the negotiation-needed flag, or any other. *)
Inductive operation := negotiationNeededOp | userOp (n : nat).

#[export] Instance operation_eq_dec : EqDecision operation.
Proof. solve_decision. Defined.

(** Where a goroutine is.  The first group is [start], from its first
    instruction to its deferred function; [AtRunSet] is in the middle of
    [negotiationNeededOp], which has found other operations waiting; [Starting] is a caller of [Enqueue]
    that is about to start it.  The second group are callers of
    [onNegotiationNeeded] and [Enqueue]. *)
Inductive thread :=
| AtPop | AtRun (op : operation) | AtRunSet | AtFlag | AtClear | AtNotify | AtNotifySet | AtNotifyEnqueue | AtDefer | Starting
| CallNotify | CallSet | CallEnqueue (op : operation).

#[export] Instance thread_eq_dec : EqDecision thread.
Proof. solve_decision. Defined.

(** The executor, its goroutines, and the history: what was executed, and what
    was enqueued, in order. *)
Record executor := {
  ops : list operation;
  busy : bool;
  updateFlag : bool;
  threads : list thread;
  executed : list operation;
  enqueued : list operation;
}.

Definition newOperations : executor :=
  {| ops := []; busy := false; updateFlag := false; threads := []; executed := []; enqueued := [] |}.

Definition set_flag (b : bool) (s : executor) : executor :=
  {| ops := ops s; busy := busy s; updateFlag := b; threads := threads s; executed := executed s; enqueued := enqueued s |}.
Definition set_threads (l : list thread) (s : executor) : executor :=
  {| ops := ops s; busy := busy s; updateFlag := updateFlag s; threads := l; executed := executed s; enqueued := enqueued s |}.
Definition set_busy (b : bool) (s : executor) : executor :=
  {| ops := ops s; busy := b; updateFlag := updateFlag s; threads := threads s; executed := executed s; enqueued := enqueued s |}.

(** The part of [Enqueue] under the lock. *)
Definition enqueue (op : operation) (s : executor) : executor :=
  {| ops := ops s ++ [op]; busy := true; updateFlag := updateFlag s; threads := threads s;
     executed := executed s; enqueued := enqueued s ++ [op] |}.

(** [pop]. *)
Definition pop (s : executor) : option operation * executor :=
  match ops s with
  | [] => (None, s)
  | op :: rest => (Some op, {| ops := rest; busy := busy s; updateFlag := updateFlag s; threads := threads s;
                               executed := executed s; enqueued := enqueued s |})
  end.

Definition IsEmpty (s : executor) : bool := match ops s with [] => true | _ => false end.

(** Running an operation. *)
Definition finish (op : operation) (s : executor) : executor :=
  {| ops := ops s; busy := busy s; updateFlag := updateFlag s; threads := threads s;
     executed := executed s ++ [op]; enqueued := enqueued s |}.

(** The next step of a thread: the threads it becomes, and its effect. *)
Definition act (t : thread) (s : executor) : list thread * executor :=
  match t with
  | Starting => ([AtPop], s)
  | AtPop => match pop s with (Some op, s') => ([AtRun op], s') | (None, s') => ([AtFlag], s') end
  | AtRun negotiationNeededOp =>
      if IsEmpty s then ([AtPop], finish negotiationNeededOp s) else ([AtRunSet], s)
  | AtRunSet => ([AtPop], finish negotiationNeededOp (set_flag true s))
  | AtRun op => ([AtPop], finish op s)
  | AtFlag => if updateFlag s then ([AtClear], s) else ([AtDefer], s)
  | AtClear => ([AtNotify], set_flag false s)
  | AtNotify => if IsEmpty s then ([AtNotifyEnqueue], s) else ([AtNotifySet], s)
  | AtNotifySet => ([AtDefer], set_flag true s)
  | AtNotifyEnqueue => (AtDefer :: (if busy s then [] else [Starting]), enqueue negotiationNeededOp s)
  | AtDefer => if IsEmpty s then ([], set_busy false s) else ([AtPop], s)
  | CallNotify => if IsEmpty s then ([CallEnqueue negotiationNeededOp], s) else ([CallSet], s)
  | CallSet => ([], set_flag true s)
  | CallEnqueue op => (if busy s then [] else [Starting], enqueue op s)
  end.

(** A step of the thread number [i]. *)
Definition step_thread (i : nat) (s : executor) : option executor :=
  t ← threads s !! i;
  let '(ts, s') := act t s in
  Some (set_threads (take i (threads s) ++ ts ++ drop (S i) (threads s)) s').

(** A new call, from the program or from an operation. *)
Definition call (t : thread) (s : executor) : executor := set_threads (threads s ++ [t]) s.

Definition is_call (t : thread) : bool :=
  match t with CallNotify | CallEnqueue _ => true | _ => false end.

Inductive reach : executor -> Prop :=
| reach_start : reach newOperations
| reach_call t s : reach s -> is_call t = true -> reach (call t s)
| reach_step i s s' : reach s -> step_thread i s = Some s' -> reach s'.

(** * The invariant *)

(** The goroutines of [start]. *)
Definition is_worker (t : thread) : bool :=
  match t with CallNotify | CallSet | CallEnqueue _ => false | _ => true end.

Definition workers (l : list thread) : list thread := filter (fun t => is_worker t = true) l.

(** What a worker has taken from the queue and not yet executed. *)
Definition in_hand (l : list thread) : list operation :=
  omap (fun t => match t with AtRun op => Some op | AtRunSet => Some negotiationNeededOp | _ => None end) l.

Record sound (s : executor) : Prop := {
  S_workers : length (workers (threads s)) = if busy s then 1%nat else 0%nat;
  S_idle : busy s = false -> ops s = [];
  S_order : enqueued s = executed s ++ in_hand (threads s) ++ ops s;
}.

Lemma workers_app l k : workers (l ++ k) = workers l ++ workers k.
Proof. apply filter_app. Qed.

Lemma workers_cons t l : workers (t :: l) = (if is_worker t then [t] else []) ++ workers l.
Proof. unfold workers. rewrite filter_cons. destruct (is_worker t); case_decide; done. Qed.

Lemma in_hand_app l k : in_hand (l ++ k) = in_hand l ++ in_hand k.
Proof. apply omap_app. Qed.

Lemma no_worker_no_hand l : workers l = [] -> in_hand l = [].
Proof.
  induction l as [|t l IH]; [done|]. rewrite workers_cons. intros H. apply app_nil in H as [H1 H2].
  change (t :: l) with ([t] ++ l). rewrite in_hand_app, IH by done. by destruct t.
Qed.

(** The only worker, where there is one. *)
Lemma only_worker l t k : length (workers (l ++ t :: k)) = 1%nat -> is_worker t = true -> workers l = [] /\ workers k = [].
Proof.
  rewrite workers_app, workers_cons. intros H Hw. rewrite Hw in H. simpl in H. rewrite length_app in H. simpl in H.
  split; apply nil_length_inv; lia.
Qed.

Lemma step_split i s s' : step_thread i s = Some s' -> exists l t k, threads s = l ++ t :: k /\
  s' = set_threads (l ++ fst (act t s) ++ k) (snd (act t s)).
Proof.
  unfold step_thread. destruct (threads s !! i) as [t|] eqn:Ht; [|done]. cbn [mbind option_bind].
  destruct (act t s) as [ts s1] eqn:Ea. intros [= <-]. exists (take i (threads s)), t, (drop (S i) (threads s)).
  rewrite Ea. split; [|done]. by rewrite take_drop_middle.
Qed.

Lemma act_sound l t k s : sound s -> threads s = l ++ t :: k ->
  sound (set_threads (l ++ fst (act t s) ++ k) (snd (act t s))).
Proof.
  intros [S1 S2 S3] E. rewrite E in S1, S3. rewrite in_hand_app in S3. change (t :: k) with ([t] ++ k) in S3. rewrite in_hand_app in S3.
  destruct (is_worker t) eqn:Hw.
  - assert (busy s = true) as Hb.
    { destruct (busy s); [done|]. rewrite workers_app, workers_cons, Hw, length_app in S1. simpl in S1. lia. }
    rewrite Hb in S1. destruct (only_worker l t k S1 Hw) as [Wl Wk]. rewrite (no_worker_no_hand l Wl), (no_worker_no_hand k Wk), app_nil_r, app_nil_l in S3.
    destruct t as [|[]| | | | | | | | | | |]; try done; unfold act, pop, IsEmpty in *;
      repeat match goal with
      | |- context [match ops s with _ => _ end] => destruct (ops s) eqn:?
      | |- context [if updateFlag s then _ else _] => destruct (updateFlag s) eqn:?
      end; simpl in *; rewrite ?Hb; split; simpl; rewrite ?workers_app, ?workers_cons, ?in_hand_app, ?Wl, ?Wk, ?(no_worker_no_hand l Wl), ?(no_worker_no_hand k Wk);
      simpl; rewrite ?(no_worker_no_hand k Wk); try done; rewrite ?S3, ?app_nil_r, <- ?app_assoc; simpl;
      repeat match goal with H : ops s = _ |- _ => rewrite H end; rewrite ?Hb, ?app_nil_r; try done; congruence.
  - destruct t; try done; simpl; unfold IsEmpty.
    + destruct (ops s) eqn:Eo; simpl; (split; simpl; rewrite ?Eo; [by rewrite workers_app, workers_cons in *|done|by rewrite in_hand_app]).
    + split; simpl; [by rewrite workers_app, workers_cons in *|done|by rewrite in_hand_app].
    + rewrite workers_app, workers_cons in S1. simpl in S1. rewrite length_app in S1.
      split; simpl; [|done|].
      * rewrite !workers_app, !length_app. destruct (busy s); simpl; lia.
      * rewrite S3, !in_hand_app. destruct (busy s) eqn:Hb; simpl; by rewrite <- !app_assoc.
Qed.

Lemma reach_sound s : reach s -> sound s.
Proof.
  induction 1 as [|t s _ [S1 S2 S3] Hc|i s s' _ IH Hs].
  - done.
  - split; simpl; [|done|].
    + rewrite workers_app, workers_cons. destruct t; try done; simpl; by rewrite app_nil_r.
    + rewrite in_hand_app. destruct t; try done; simpl; by rewrite app_nil_r.
  - destruct (step_split i s s' Hs) as (l & t & k & E & ->). by apply act_sound.
Qed.

(** C20. However its callers interleave, an executor runs one operation at a
    time, in the order they were enqueued, each exactly once; when it is idle all
    of them have been executed. *)
Theorem operations_in_order s : reach s ->
  enqueued s = executed s ++ in_hand (threads s) ++ ops s /\ (length (in_hand (threads s)) <= 1)%nat /\
  (length (workers (threads s)) <= 1)%nat /\ (workers (threads s) = [] -> executed s = enqueued s).
Proof.
  intros H. destruct (reach_sound s H) as [S1 S2 S3].
  assert (forall l, (length (in_hand l) <= length (workers l))%nat) as Hle.
  { induction l as [|t l IH]; [done|]. rewrite workers_cons. change (t :: l) with ([t] ++ l). rewrite in_hand_app, !length_app.
    destruct t; simpl; lia. }
  pose proof (Hle (threads s)). split; [done|]. split; [destruct (busy s); lia|]. split; [destruct (busy s); lia|].
  intros E. rewrite E in S1. destruct (busy s) eqn:Hb; [done|]. rewrite S3, (no_worker_no_hand _ E), (S2 eq_refl).
  by rewrite !app_nil_r.
Qed.

(** * Progress *)

(** A step of a worker. *)
Definition work (s s' : executor) : Prop :=
  exists i t, threads s !! i = Some t /\ is_worker t = true /\ step_thread i s = Some s'.

Lemma work_at l t k s : threads s = l ++ t :: k -> is_worker t = true ->
  work s (set_threads (l ++ fst (act t s) ++ k) (snd (act t s))).
Proof.
  intros E Ht. assert (threads s !! length l = Some t) as Hi by (rewrite E; by apply list_lookup_middle).
  exists (length l), t. split_and!; try done. unfold step_thread. rewrite Hi. cbn [mbind option_bind].
  destruct (act t s) as [ts s'] eqn:Ea. cbn [fst snd]. rewrite E. rewrite take_app_length.
  replace (drop (S (length l)) (l ++ t :: k)) with k; [done|].
  rewrite drop_app_ge by lia. by replace (S (length l) - length l)%nat with 1%nat by lia.
Qed.

Section Progress.
Context (l k : list thread).

(** The worker is at [t], the queue and the flag are as given. *)
Definition worker_at (t : thread) (q : list operation) (f : bool) (ex en : list operation) : executor :=
  {| ops := q; busy := true; updateFlag := f; threads := l ++ t :: k; executed := ex; enqueued := en |}.

Lemma work_one t q f ex en t' q' f' ex' en' : is_worker t = true ->
  act t (worker_at t q f ex en) = ([t'], {| ops := q'; busy := true; updateFlag := f'; threads := l ++ t :: k; executed := ex'; enqueued := en' |}) ->
  work (worker_at t q f ex en) (worker_at t' q' f' ex' en').
Proof.
  intros Ht Ha. pose proof (work_at l t k (worker_at t q f ex en) eq_refl Ht) as H. by rewrite Ha in H.
Qed.

(** Running an operation; the flag may go up. *)
Lemma run_op op q f ex en : exists f', rtc work (worker_at (AtRun op) q f ex en) (worker_at AtPop q f' (ex ++ [op]) en).
Proof.
  destruct op as [|n], q as [|o q].
  - exists f. apply rtc_once. by apply work_one.
  - exists true. eapply rtc_l; [by apply (work_one (AtRun negotiationNeededOp) _ _ _ _ AtRunSet)|]. apply rtc_once. by apply work_one.
  - exists f. apply rtc_once. by apply work_one.
  - exists f. apply rtc_once. by apply work_one.
Qed.

Lemma drain q : forall f ex en, exists f', rtc work (worker_at AtPop q f ex en) (worker_at AtFlag [] f' (ex ++ q) en).
Proof.
  induction q as [|op q IH]; intros f ex en.
  - exists f. rewrite app_nil_r. apply rtc_once. by apply work_one.
  - destruct (run_op op q f ex en) as [f1 H1]. destruct (IH f1 (ex ++ [op]) en) as [f2 H2]. exists f2.
    eapply rtc_l; [by apply (work_one AtPop _ _ _ _ (AtRun op))|]. etransitivity; [exact H1|]. by rewrite <- app_assoc in H2.
Qed.

Definition idle (f : bool) (ex en : list operation) : executor :=
  {| ops := []; busy := false; updateFlag := f; threads := l ++ k; executed := ex; enqueued := en |}.

Lemma leave f ex en : rtc work (worker_at AtDefer [] f ex en) (idle f ex en).
Proof. apply rtc_once. exact (work_at l AtDefer k (worker_at AtDefer [] f ex en) eq_refl eq_refl). Qed.

(** With the queue empty the operation enqueued on notice is the last. *)
Lemma finish_notify ex en : rtc work (worker_at AtNotify [] false ex en)
  (idle false (ex ++ [negotiationNeededOp]) (en ++ [negotiationNeededOp])).
Proof.
  eapply rtc_l; [by apply (work_one AtNotify _ _ _ _ AtNotifyEnqueue)|].
  eapply rtc_l; [by apply (work_one AtNotifyEnqueue _ _ _ _ AtDefer)|].
  eapply rtc_l; [by apply (work_one AtDefer _ _ _ _ AtPop)|].
  eapply rtc_l; [by apply (work_one AtPop _ _ _ _ (AtRun negotiationNeededOp))|].
  eapply rtc_l; [by apply (work_one (AtRun negotiationNeededOp) _ _ _ _ AtPop)|].
  eapply rtc_l; [by apply (work_one AtPop _ _ _ _ AtFlag)|].
  eapply rtc_l; [by apply (work_one AtFlag _ _ _ _ AtDefer)|apply leave].
Qed.

Lemma finish_flag f ex en : exists en', rtc work (worker_at AtFlag [] f ex en) (idle false (ex ++ en') (en ++ en')).
Proof.
  destruct f.
  - exists [negotiationNeededOp]. eapply rtc_l; [by apply (work_one AtFlag _ _ _ _ AtClear)|].
    eapply rtc_l; [by apply (work_one AtClear _ _ _ _ AtNotify)|apply finish_notify].
  - exists []. rewrite !app_nil_r. eapply rtc_l; [by apply (work_one AtFlag _ _ _ _ AtDefer)|apply leave].
Qed.

Lemma finish_pop q f ex en : exists en', rtc work (worker_at AtPop q f ex en) (idle false (ex ++ q ++ en') (en ++ en')).
Proof.
  destruct (drain q f ex en) as [f' Hd]. destruct (finish_flag f' (ex ++ q) en) as [en' H]. exists en'.
  rewrite app_assoc. by etransitivity.
Qed.

Lemma finish_defer q f ex en : exists en' f', rtc work (worker_at AtDefer q f ex en) (idle f' (ex ++ q ++ en') (en ++ en')).
Proof.
  destruct q as [|op q].
  - exists [], f. rewrite !app_nil_r. apply leave.
  - destruct (finish_pop (op :: q) f ex en) as [en' H]. exists en', false. eapply rtc_l; [by apply (work_one AtDefer _ _ _ _ AtPop)|done].
Qed.

Lemma finish_any t q f ex en : is_worker t = true -> exists en' f',
  rtc work (worker_at t q f ex en) (idle f' (ex ++ in_hand [t] ++ q ++ en') (en ++ en')).
Proof.
  destruct t; intros Ht; try done; simpl.
  - destruct (finish_pop q f ex en) as [en' H]. by exists en', false.
  - destruct (run_op op q f ex en) as [f1 H1]. destruct (finish_pop q f1 (ex ++ [op]) en) as [en' H]. exists en', false.
    rewrite <- app_assoc in H. etransitivity; [exact H1|exact H].
  - destruct (finish_pop q true (ex ++ [negotiationNeededOp]) en) as [en' H]. exists en', false. rewrite <- app_assoc in H.
    eapply rtc_l; [by apply (work_one AtRunSet _ _ _ _ AtPop)|exact H].
  - destruct f.
    + destruct q as [|op q].
      * destruct (finish_flag true ex en) as [en' H]. by exists en', false.
      * destruct (finish_defer (op :: q) true ex en) as (en' & f' & H). exists en', f'.
        eapply rtc_l; [by apply (work_one AtFlag _ _ _ _ AtClear)|]. eapply rtc_l; [by apply (work_one AtClear _ _ _ _ AtNotify)|].
        eapply rtc_l; [by apply (work_one AtNotify _ _ _ _ AtNotifySet)|]. eapply rtc_l; [by apply (work_one AtNotifySet _ _ _ _ AtDefer)|exact H].
    + destruct (finish_defer q false ex en) as (en' & f' & H). exists en', f'.
      eapply rtc_l; [by apply (work_one AtFlag _ _ _ _ AtDefer)|exact H].
  - destruct q as [|op q].
    + exists [negotiationNeededOp], false. eapply rtc_l; [by apply (work_one AtClear _ _ _ _ AtNotify)|apply finish_notify].
    + destruct (finish_defer (op :: q) true ex en) as (en' & f' & H). exists en', f'.
      eapply rtc_l; [by apply (work_one AtClear _ _ _ _ AtNotify)|].
      eapply rtc_l; [by apply (work_one AtNotify _ _ _ _ AtNotifySet)|]. eapply rtc_l; [by apply (work_one AtNotifySet _ _ _ _ AtDefer)|exact H].
  - destruct q as [|op q].
    + destruct (finish_pop [negotiationNeededOp] f ex (en ++ [negotiationNeededOp])) as [en' H]. exists (negotiationNeededOp :: en'), false.
      rewrite <- app_assoc in H. eapply rtc_l; [by apply (work_one AtNotify _ _ _ _ AtNotifyEnqueue)|].
      eapply rtc_l; [by apply (work_one AtNotifyEnqueue _ _ _ _ AtDefer)|]. eapply rtc_l; [by apply (work_one AtDefer _ _ _ _ AtPop)|exact H].
    + destruct (finish_defer (op :: q) true ex en) as (en' & f' & H). exists en', f'.
      eapply rtc_l; [by apply (work_one AtNotify _ _ _ _ AtNotifySet)|]. eapply rtc_l; [by apply (work_one AtNotifySet _ _ _ _ AtDefer)|exact H].
  - destruct (finish_defer q true ex en) as (en' & f' & H). exists en', f'.
    eapply rtc_l; [by apply (work_one AtNotifySet _ _ _ _ AtDefer)|exact H].
  - destruct (finish_defer (q ++ [negotiationNeededOp]) f ex (en ++ [negotiationNeededOp])) as (en' & f' & H).
    exists (negotiationNeededOp :: en'), f'. rewrite <- !app_assoc in H.
    eapply rtc_l; [by apply (work_one AtNotifyEnqueue _ _ _ _ AtDefer)|exact H].
  - apply finish_defer.
  - destruct (finish_pop q f ex en) as [en' H]. exists en', false.
    eapply rtc_l; [by apply (work_one Starting _ _ _ _ AtPop)|exact H].
Qed.

End Progress.

(** C35. A busy executor finishes: by steps of its worker alone it reaches, from
    any state, one in which it is idle, all operations enqueued before and since
    have been executed, and no caller has moved. *)
Theorem operations_finish s : reach s -> busy s = true ->
  exists s', rtc work s s' /\ busy s' = false /\ executed s' = enqueued s' /\ enqueued s `prefix_of` enqueued s' /\
    threads s' = filter (fun t => is_worker t = false) (threads s).
Proof.
  intros H Hb. destruct (reach_sound s H) as [S1 S2 S3]. rewrite Hb in S1.
  destruct (workers (threads s)) as [|t [|]] eqn:Ew; try done.
  assert (t ∈ workers (threads s)) as Hin by (rewrite Ew; apply list_elem_of_here).
  apply list_elem_of_filter in Hin as [Ht Hin]. apply list_elem_of_split in Hin as (l & k & E).
  rewrite E in Ew. pose proof (only_worker l t k ltac:(by rewrite Ew) Ht) as [Wl Wk].
  assert (s = worker_at l k t (ops s) (updateFlag s) (executed s) (enqueued s)) as Es by (unfold worker_at; rewrite <- E, <- Hb; by destruct s).
  destruct (finish_any l k t (ops s) (updateFlag s) (executed s) (enqueued s) Ht) as (en' & f' & Hr). rewrite <- Es in Hr.
  eexists. split; [exact Hr|]. simpl. split; [done|]. split.
  - rewrite S3, E, in_hand_app. change (t :: k) with ([t] ++ k). rewrite in_hand_app, (no_worker_no_hand l Wl), (no_worker_no_hand k Wk), app_nil_r, app_nil_l.
    by rewrite <- !app_assoc.
  - split; [by exists en'|]. rewrite E, filter_app, filter_cons, decide_False by congruence.
    assert (forall j, workers j = [] -> filter (fun t => is_worker t = false) j = j) as Hf; [|by rewrite !Hf].
    induction j as [|x j IH]; [done|]. rewrite workers_cons, filter_cons. intros Hj. apply app_nil in Hj as [Hx Hj].
    destruct (is_worker x); [done|]. rewrite decide_True by done. by rewrite IH.
Qed.

(** ** A lost update *)

(** Steps and calls in sequence. *)
Inductive event := Call (t : thread) | Step (i : nat).

Fixpoint play (es : list event) (s : executor) : option executor :=
  match es with
  | [] => Some s
  | Call t :: es => if is_call t then play es (call t s) else None
  | Step i :: es => s ← step_thread i s; play es s
  end.

Lemma play_reach es : forall s s', reach s -> play es s = Some s' -> reach s'.
Proof.
  induction es as [|[t|i] es IH]; intros s s' Hs; simpl.
  - by intros [= <-].
  - destruct (is_call t) eqn:Ht; [|done]. apply IH. by apply reach_call.
  - destruct (step_thread i s) as [s1|] eqn:E; [|done]. apply IH. by eapply reach_step.
Qed.

(** The queue is not empty when a caller of [onNegotiationNeeded] looks, but the
    worker finishes before the flag is raised. *)
Definition race : list event :=
  [Call (CallEnqueue (userOp 0)); Step 0; Call CallNotify; Step 1; Step 0; Step 0; Step 0; Step 0; Step 0; Step 0; Step 0].

(** A call of [onNegotiationNeeded] that finds the queue occupied can raise
    the flag after the last worker has looked at it: the executor is then idle
    with the flag up, and nothing acts on it. *)
Theorem negotiation_update_lost : exists s, reach s /\ threads s = [] /\ busy s = false /\ updateFlag s = true.
Proof.
  destruct (play race newOperations) as [s|] eqn:E; [|by vm_compute in E].
  exists s. split; [by apply (play_reach race newOperations); [apply reach_start|]|]. vm_compute in E. by injection E as <-.
Qed.

Lemma operations_in_order_witness : exists s, play [Call (CallEnqueue (userOp 1)); Step 0; Call (CallEnqueue (userOp 2)); Step 1; Step 0; Step 0]
  newOperations = Some s /\ enqueued s = executed s ++ in_hand (threads s) ++ ops s /\ in_hand (threads s) = [userOp 1].
Proof.
  eexists. split; [by vm_compute|]. split; [|done]. eapply operations_in_order.
  eapply (play_reach [Call (CallEnqueue (userOp 1)); Step 0; Call (CallEnqueue (userOp 2)); Step 1; Step 0; Step 0]); [apply reach_start|by vm_compute].
Defined.

Lemma operations_finish_witness : exists s s', play [Call (CallEnqueue (userOp 1)); Step 0; Call CallNotify] newOperations = Some s /\
  rtc work s s' /\ executed s' = enqueued s' /\ threads s' = [CallNotify].
Proof.
  edestruct (operations_finish (default newOperations (play [Call (CallEnqueue (userOp 1)); Step 0; Call CallNotify] newOperations)))
    as (s' & H1 & H2 & H3 & _ & H4).
  - eapply (play_reach [Call (CallEnqueue (userOp 1)); Step 0; Call CallNotify]); [apply reach_start|by vm_compute].
  - by vm_compute.
  - eexists _, s'. split; [by vm_compute|]. split; [exact H1|]. split; [exact H3|exact H4].
Defined.
