(* ===== verification/Signaling.v ===== *)
(** The offer/answer state of a peer connection: signalingstate.go, sdptype.go,
    and of peerconnection.go [setDescription], [negotiationNeededOp],
    [updateConnectionState] and the part of [Close] that concerns it
    (lib/pion-webrtc).

    The text of a description is opaque.  The executor of operations is the
    subject of [Operations]; here a call of [onNegotiationNeeded] is an event. *)

From S2P Require Import Prelude.

#[local] Open Scope string_scope.
#[local] Open Scope list_scope.

(** * sdptype.go and signalingstate.go *)

(** The types are integers; any other value is [SDPTypeUnknown]. *)
Inductive SDPType := SDPTypeOffer | SDPTypePranswer | SDPTypeAnswer | SDPTypeRollback | SDPTypeUnknown.

#[export] Instance SDPType_eq_dec : EqDecision SDPType.
Proof. solve_decision. Defined.

Definition SDPType_String (t : SDPType) : string :=
  match t with
  | SDPTypeOffer => "offer" | SDPTypePranswer => "pranswer" | SDPTypeAnswer => "answer"
  | SDPTypeRollback => "rollback" | SDPTypeUnknown => "unknown"
  end.

Definition NewSDPType (raw : string) : SDPType :=
  if String.eqb raw "offer" then SDPTypeOffer
  else if String.eqb raw "pranswer" then SDPTypePranswer
  else if String.eqb raw "answer" then SDPTypeAnswer
  else if String.eqb raw "rollback" then SDPTypeRollback
  else SDPTypeUnknown.

Inductive stateChangeOp := stateChangeOpSetLocal | stateChangeOpSetRemote.

#[export] Instance stateChangeOp_eq_dec : EqDecision stateChangeOp.
Proof. solve_decision. Defined.

Inductive SignalingState :=
| SignalingStateStable | SignalingStateHaveLocalOffer | SignalingStateHaveRemoteOffer
| SignalingStateHaveLocalPranswer | SignalingStateHaveRemotePranswer | SignalingStateClosed
| SignalingStateUnknown.

#[export] Instance SignalingState_eq_dec : EqDecision SignalingState.
Proof. solve_decision. Defined.

Definition SignalingState_String (t : SignalingState) : string :=
  match t with
  | SignalingStateStable => "stable"
  | SignalingStateHaveLocalOffer => "have-local-offer"
  | SignalingStateHaveRemoteOffer => "have-remote-offer"
  | SignalingStateHaveLocalPranswer => "have-local-pranswer"
  | SignalingStateHaveRemotePranswer => "have-remote-pranswer"
  | SignalingStateClosed => "closed"
  | SignalingStateUnknown => "unknown"
  end.

Definition newSignalingState (raw : string) : SignalingState :=
  if String.eqb raw "stable" then SignalingStateStable
  else if String.eqb raw "have-local-offer" then SignalingStateHaveLocalOffer
  else if String.eqb raw "have-remote-offer" then SignalingStateHaveRemoteOffer
  else if String.eqb raw "have-local-pranswer" then SignalingStateHaveLocalPranswer
  else if String.eqb raw "have-remote-pranswer" then SignalingStateHaveRemotePranswer
  else if String.eqb raw "closed" then SignalingStateClosed
  else SignalingStateUnknown.

Inductive pc_error :=
| ErrConnectionClosed | errPeerConnSDPTypeInvalidValue | errSDPDoesNotMatchOffer | errSDPDoesNotMatchAnswer
| errSignalingStateCannotRollback | errSignalingStateProposedTransitionInvalid | errPeerConnStateChangeInvalid
| errPeerConnSDPTypeInvalidValueSetLocalDescription
| ErrNoRemoteDescription | ErrIncorrectSignalingState | errGeneration | errParse.

(** [checkNextSignalingState]; with an error it returns the present state too,
    which nobody uses. *)
Definition checkNextSignalingState (cur next : SignalingState) (op : stateChangeOp) (sdpType : SDPType)
  : result pc_error SignalingState :=
  if bool_decide (sdpType = SDPTypeRollback) && bool_decide (cur = SignalingStateStable)
  then Err errSignalingStateCannotRollback
  else
    let refuse := Err errSignalingStateProposedTransitionInvalid in
    let accept (s : SignalingState) := if bool_decide (next = s) then Ok next else refuse in
    match cur with
    | SignalingStateStable =>
        match op, sdpType with
        | stateChangeOpSetLocal, SDPTypeOffer => accept SignalingStateHaveLocalOffer
        | stateChangeOpSetRemote, SDPTypeOffer => accept SignalingStateHaveRemoteOffer
        | _, _ => refuse
        end
    | SignalingStateHaveLocalOffer =>
        match op, sdpType with
        | stateChangeOpSetRemote, SDPTypeAnswer => accept SignalingStateStable
        | stateChangeOpSetRemote, SDPTypePranswer => accept SignalingStateHaveRemotePranswer
        | _, _ => refuse
        end
    | SignalingStateHaveRemotePranswer =>
        match op, sdpType with
        | stateChangeOpSetRemote, SDPTypeAnswer => accept SignalingStateStable
        | _, _ => refuse
        end
    | SignalingStateHaveRemoteOffer =>
        match op, sdpType with
        | stateChangeOpSetLocal, SDPTypeAnswer => accept SignalingStateStable
        | stateChangeOpSetLocal, SDPTypePranswer => accept SignalingStateHaveLocalPranswer
        | _, _ => refuse
        end
    | SignalingStateHaveLocalPranswer =>
        match op, sdpType with
        | stateChangeOpSetLocal, SDPTypeAnswer => accept SignalingStateStable
        | _, _ => refuse
        end
    | _ => refuse
    end.

(** * The peer connection *)

Record SessionDescription := { Type_ : SDPType; SDP : string }.

#[export] Instance SessionDescription_eq_dec : EqDecision SessionDescription.
Proof. solve_decision. Defined.

Inductive ICEConnectionState :=
| ICENew | ICEChecking | ICEConnected | ICECompleted | ICEDisconnected | ICEFailed | ICEClosed | ICEUnknown.

Inductive DTLSTransportState := DTLSNew | DTLSConnecting | DTLSConnected | DTLSClosed | DTLSFailed.

Inductive PeerConnectionState := PCNew | PCConnecting | PCConnected | PCDisconnected | PCFailed | PCClosed.

#[export] Instance ICEConnectionState_eq_dec : EqDecision ICEConnectionState.
Proof. solve_decision. Defined.
#[export] Instance DTLSTransportState_eq_dec : EqDecision DTLSTransportState.
Proof. solve_decision. Defined.
#[export] Instance PeerConnectionState_eq_dec : EqDecision PeerConnectionState.
Proof. solve_decision. Defined.

(** What the connection tells: a signalling state, a call of
    [onNegotiationNeeded], the negotiationneeded event, a connection state. *)
Inductive event :=
| SignalingChanged (s : SignalingState) | NegotiationCheck | NegotiationNeeded | ConnectionChanged (s : PeerConnectionState).

Record PeerConnection := {
  isClosed : bool;
  signalingState : SignalingState;
  currentLocalDescription : option SessionDescription;
  pendingLocalDescription : option SessionDescription;
  currentRemoteDescription : option SessionDescription;
  pendingRemoteDescription : option SessionDescription;
  lastOffer : string;
  lastAnswer : string;
  isNegotiationNeeded : bool;
  updateNegotiationNeededFlagOnEmptyChain : bool;
  connectionState : PeerConnectionState;
  events : list event;
}.

Definition NewPeerConnection : PeerConnection :=
  {| isClosed := false; signalingState := SignalingStateStable; currentLocalDescription := None;
     pendingLocalDescription := None; currentRemoteDescription := None; pendingRemoteDescription := None;
     lastOffer := ""; lastAnswer := ""; isNegotiationNeeded := false;
     updateNegotiationNeededFlagOnEmptyChain := false; connectionState := PCNew; events := [] |}.

Definition set_descriptions (cl pl cr pr : option SessionDescription) (pc : PeerConnection) : PeerConnection :=
  {| isClosed := isClosed pc; signalingState := signalingState pc; currentLocalDescription := cl;
     pendingLocalDescription := pl; currentRemoteDescription := cr; pendingRemoteDescription := pr;
     lastOffer := lastOffer pc; lastAnswer := lastAnswer pc; isNegotiationNeeded := isNegotiationNeeded pc;
     updateNegotiationNeededFlagOnEmptyChain := updateNegotiationNeededFlagOnEmptyChain pc; connectionState := connectionState pc; events := events pc |}.
Definition set_state (s : SignalingState) (pc : PeerConnection) : PeerConnection :=
  {| isClosed := isClosed pc; signalingState := s; currentLocalDescription := currentLocalDescription pc;
     pendingLocalDescription := pendingLocalDescription pc; currentRemoteDescription := currentRemoteDescription pc;
     pendingRemoteDescription := pendingRemoteDescription pc; lastOffer := lastOffer pc; lastAnswer := lastAnswer pc;
     isNegotiationNeeded := isNegotiationNeeded pc;
     updateNegotiationNeededFlagOnEmptyChain := updateNegotiationNeededFlagOnEmptyChain pc; connectionState := connectionState pc; events := events pc |}.
Definition set_closed (pc : PeerConnection) : PeerConnection :=
  {| isClosed := true; signalingState := signalingState pc; currentLocalDescription := currentLocalDescription pc;
     pendingLocalDescription := pendingLocalDescription pc; currentRemoteDescription := currentRemoteDescription pc;
     pendingRemoteDescription := pendingRemoteDescription pc; lastOffer := lastOffer pc; lastAnswer := lastAnswer pc;
     isNegotiationNeeded := isNegotiationNeeded pc;
     updateNegotiationNeededFlagOnEmptyChain := updateNegotiationNeededFlagOnEmptyChain pc; connectionState := connectionState pc; events := events pc |}.
Definition set_needed (b : bool) (pc : PeerConnection) : PeerConnection :=
  {| isClosed := isClosed pc; signalingState := signalingState pc; currentLocalDescription := currentLocalDescription pc;
     pendingLocalDescription := pendingLocalDescription pc; currentRemoteDescription := currentRemoteDescription pc;
     pendingRemoteDescription := pendingRemoteDescription pc; lastOffer := lastOffer pc; lastAnswer := lastAnswer pc;
     isNegotiationNeeded := b;
     updateNegotiationNeededFlagOnEmptyChain := updateNegotiationNeededFlagOnEmptyChain pc; connectionState := connectionState pc; events := events pc |}.
Definition set_connection (s : PeerConnectionState) (pc : PeerConnection) : PeerConnection :=
  {| isClosed := isClosed pc; signalingState := signalingState pc; currentLocalDescription := currentLocalDescription pc;
     pendingLocalDescription := pendingLocalDescription pc; currentRemoteDescription := currentRemoteDescription pc;
     pendingRemoteDescription := pendingRemoteDescription pc; lastOffer := lastOffer pc; lastAnswer := lastAnswer pc;
     isNegotiationNeeded := isNegotiationNeeded pc;
     updateNegotiationNeededFlagOnEmptyChain := updateNegotiationNeededFlagOnEmptyChain pc; connectionState := s; events := events pc |}.
Definition emit (e : event) (pc : PeerConnection) : PeerConnection :=
  {| isClosed := isClosed pc; signalingState := signalingState pc; currentLocalDescription := currentLocalDescription pc;
     pendingLocalDescription := pendingLocalDescription pc; currentRemoteDescription := currentRemoteDescription pc;
     pendingRemoteDescription := pendingRemoteDescription pc; lastOffer := lastOffer pc; lastAnswer := lastAnswer pc;
     isNegotiationNeeded := isNegotiationNeeded pc;
     updateNegotiationNeededFlagOnEmptyChain := updateNegotiationNeededFlagOnEmptyChain pc; connectionState := connectionState pc; events := events pc ++ [e] |}.
Definition set_flag (b : bool) (pc : PeerConnection) : PeerConnection :=
  {| isClosed := isClosed pc; signalingState := signalingState pc; currentLocalDescription := currentLocalDescription pc;
     pendingLocalDescription := pendingLocalDescription pc; currentRemoteDescription := currentRemoteDescription pc;
     pendingRemoteDescription := pendingRemoteDescription pc; lastOffer := lastOffer pc; lastAnswer := lastAnswer pc;
     isNegotiationNeeded := isNegotiationNeeded pc;
     updateNegotiationNeededFlagOnEmptyChain := b; connectionState := connectionState pc; events := events pc |}.
Definition set_lastOffer (b : string) (pc : PeerConnection) : PeerConnection :=
  {| isClosed := isClosed pc; signalingState := signalingState pc; currentLocalDescription := currentLocalDescription pc;
     pendingLocalDescription := pendingLocalDescription pc; currentRemoteDescription := currentRemoteDescription pc;
     pendingRemoteDescription := pendingRemoteDescription pc; lastOffer := b; lastAnswer := lastAnswer pc;
     isNegotiationNeeded := isNegotiationNeeded pc;
     updateNegotiationNeededFlagOnEmptyChain := updateNegotiationNeededFlagOnEmptyChain pc; connectionState := connectionState pc; events := events pc |}.
Definition set_lastAnswer (b : string) (pc : PeerConnection) : PeerConnection :=
  {| isClosed := isClosed pc; signalingState := signalingState pc; currentLocalDescription := currentLocalDescription pc;
     pendingLocalDescription := pendingLocalDescription pc; currentRemoteDescription := currentRemoteDescription pc;
     pendingRemoteDescription := pendingRemoteDescription pc; lastOffer := lastOffer pc; lastAnswer := b;
     isNegotiationNeeded := isNegotiationNeeded pc;
     updateNegotiationNeededFlagOnEmptyChain := updateNegotiationNeededFlagOnEmptyChain pc; connectionState := connectionState pc; events := events pc |}.

(** [RemoteDescription]. *)
Definition RemoteDescription (pc : PeerConnection) : option SessionDescription :=
  match pendingRemoteDescription pc with
  | Some d => Some d
  | None => currentRemoteDescription pc
  end.

(** The guards of [CreateOffer] and [CreateAnswer], and what the calls leave
    behind; the text generated, with its errors, is an argument.  No identity
    provider is configured. *)
Definition CreateOffer (generated : result pc_error string) (pc : PeerConnection)
  : result pc_error (SessionDescription * PeerConnection) :=
  if isClosed pc then Err ErrConnectionClosed
  else
    sdp ← generated;
    Ok ({| Type_ := SDPTypeOffer; SDP := sdp |}, set_lastOffer sdp pc).

Definition CreateAnswer (generated : result pc_error string) (pc : PeerConnection)
  : result pc_error (SessionDescription * PeerConnection) :=
  match RemoteDescription pc with
  | None => Err ErrNoRemoteDescription
  | Some _ =>
      if isClosed pc then Err ErrConnectionClosed
      else if negb (bool_decide (signalingState pc = SignalingStateHaveRemoteOffer)) &&
              negb (bool_decide (signalingState pc = SignalingStateHaveLocalPranswer))
      then Err ErrIncorrectSignalingState
      else
        sdp ← generated;
        Ok ({| Type_ := SDPTypeAnswer; SDP := sdp |}, set_lastAnswer sdp pc)
  end.

(** The function literal of [setDescription]: the next state and the
    descriptions. *)
Definition applyDescription (sd : SessionDescription) (op : stateChangeOp) (pc : PeerConnection)
  : result pc_error (SignalingState * PeerConnection) :=
  let cur := signalingState pc in
  let cl := currentLocalDescription pc in let pl := pendingLocalDescription pc in
  let cr := currentRemoteDescription pc in let pr := pendingRemoteDescription pc in
  let next st pc' := s ← checkNextSignalingState cur st op (Type_ sd); Ok (s, pc') in
  match op with
  | stateChangeOpSetLocal =>
      match Type_ sd with
      | SDPTypeOffer =>
          if negb (String.eqb (SDP sd) (lastOffer pc)) then Err errSDPDoesNotMatchOffer
          else next SignalingStateHaveLocalOffer (set_descriptions cl (Some sd) cr pr pc)
      | SDPTypeAnswer =>
          if negb (String.eqb (SDP sd) (lastAnswer pc)) then Err errSDPDoesNotMatchAnswer
          else next SignalingStateStable (set_descriptions (Some sd) None pr None pc)
      | SDPTypeRollback => next SignalingStateStable (set_descriptions cl None cr pr pc)
      | SDPTypePranswer =>
          if negb (String.eqb (SDP sd) (lastAnswer pc)) then Err errSDPDoesNotMatchAnswer
          else next SignalingStateHaveLocalPranswer (set_descriptions cl (Some sd) cr pr pc)
      | SDPTypeUnknown => Err errPeerConnStateChangeInvalid
      end
  | stateChangeOpSetRemote =>
      match Type_ sd with
      | SDPTypeOffer => next SignalingStateHaveRemoteOffer (set_descriptions cl pl cr (Some sd) pc)
      | SDPTypeAnswer => next SignalingStateStable (set_descriptions pl None (Some sd) None pc)
      | SDPTypeRollback => next SignalingStateStable (set_descriptions cl pl cr None pc)
      | SDPTypePranswer => next SignalingStateHaveRemotePranswer (set_descriptions cl pl cr (Some sd) pc)
      | SDPTypeUnknown => Err errPeerConnStateChangeInvalid
      end
  end.

(** What [setDescription] does once the lock is released. *)
Definition publish (nextState : SignalingState) (pc : PeerConnection) : PeerConnection :=
  let pc := set_state nextState pc in
  let pc := if bool_decide (signalingState pc = SignalingStateStable)
            then emit NegotiationCheck (set_needed false pc) else pc in
  emit (SignalingChanged nextState) pc.

(** The tests before the lock is taken. *)
Definition admissible (sd : SessionDescription) (pc : PeerConnection) : result pc_error unit :=
  if isClosed pc then Err ErrConnectionClosed
  else if bool_decide (NewSDPType (SDPType_String (Type_ sd)) = SDPTypeUnknown) then Err errPeerConnSDPTypeInvalidValue
  else Ok tt.

Definition setDescription (sd : SessionDescription) (op : stateChangeOp) (pc : PeerConnection)
  : result pc_error PeerConnection :=
  _ ← admissible sd pc;
  r ← applyDescription sd op pc;
  Ok (publish (fst r) (snd r)).

(** An empty description stands for the one created last. *)
Definition fill_local (desc : SessionDescription) (pc : PeerConnection) : result pc_error SessionDescription :=
  if String.eqb (SDP desc) "" then
    match Type_ desc with
    | SDPTypeAnswer | SDPTypePranswer => Ok {| Type_ := Type_ desc; SDP := lastAnswer pc |}
    | SDPTypeOffer => Ok {| Type_ := Type_ desc; SDP := lastOffer pc |}
    | _ => Err errPeerConnSDPTypeInvalidValueSetLocalDescription
    end
  else Ok desc.

(** [SetLocalDescription]: the error and the connection.  Whether the text
    parses is a parameter, and so is the error [later] of what the call does
    after [setDescription] to the transceivers, senders and receivers and to the
    ICE gatherer, none of which is part of the state here: a call that fails
    there has changed the signalling state and the descriptions. *)
Definition SetLocalDescription (parses : string -> bool) (later : option pc_error)
    (desc : SessionDescription) (pc : PeerConnection) : option pc_error * PeerConnection :=
  if isClosed pc then (Some ErrConnectionClosed, pc)
  else
    match fill_local desc pc with
    | Err e => (Some e, pc)
    | Ok desc =>
        if parses (SDP desc) then
          match setDescription desc stateChangeOpSetLocal pc with
          | Err e => (Some e, pc)
          | Ok pc => (later, pc)
          end
        else (Some errParse, pc)
    end.

(** [SetRemoteDescription]; [later] is the error of what follows
    [setDescription]: the media engine, the mids of the media sections,
    transceivers, ICE credentials and candidates, the fingerprint, the senders. *)
Definition SetRemoteDescription (parses : string -> bool) (later : option pc_error)
    (desc : SessionDescription) (pc : PeerConnection) : option pc_error * PeerConnection :=
  if isClosed pc then (Some ErrConnectionClosed, pc)
  else if parses (SDP desc) then
    match setDescription desc stateChangeOpSetRemote pc with
    | Err e => (Some e, pc)
    | Ok pc => (later, pc)
    end
  else (Some errParse, pc).

(** [negotiationNeededOp]; whether other operations wait and whether
    negotiation is needed are arguments. *)
Definition negotiationNeededOp (opsEmpty needed : bool) (pc : PeerConnection) : PeerConnection :=
  if isClosed pc then pc
  else if negb opsEmpty then set_flag true pc
  else if negb (bool_decide (signalingState pc = SignalingStateStable)) then pc
  else if negb needed then set_needed false pc
  else if isNegotiationNeeded pc then pc
  else emit NegotiationNeeded (set_needed true pc).

Definition updateConnectionState (ice : ICEConnectionState) (dtls : DTLSTransportState) (pc : PeerConnection) : PeerConnection :=
  let cs :=
    if isClosed pc then PCClosed
    else if bool_decide (ice = ICEFailed) || bool_decide (dtls = DTLSFailed) then PCFailed
    else if bool_decide (ice = ICEDisconnected) then PCDisconnected
    else if (bool_decide (ice = ICENew) || bool_decide (ice = ICEClosed)) &&
            (bool_decide (dtls = DTLSNew) || bool_decide (dtls = DTLSClosed)) then PCNew
    else if (bool_decide (ice = ICENew) || bool_decide (ice = ICEChecking)) ||
            (bool_decide (dtls = DTLSNew) || bool_decide (dtls = DTLSConnecting)) then PCConnecting
    else if (bool_decide (ice = ICEConnected) || bool_decide (ice = ICECompleted) || bool_decide (ice = ICEClosed)) &&
            (bool_decide (dtls = DTLSConnected) || bool_decide (dtls = DTLSClosed)) then PCConnected
    else PCNew in
  if bool_decide (connectionState pc = cs) then pc
  else emit (ConnectionChanged cs) (set_connection cs pc).

(** [Close], as far as the state here is concerned. *)
Definition Close (ice : ICEConnectionState) (dtls : DTLSTransportState) (pc : PeerConnection) : PeerConnection :=
  if isClosed pc then pc
  else updateConnectionState ice dtls (set_state SignalingStateClosed (set_closed pc)).

(** * The state machine *)

(** The arrows of the comments of [setDescription]. *)
Definition transitions : list (SignalingState * stateChangeOp * SDPType * SignalingState) :=
  [(SignalingStateStable, stateChangeOpSetLocal, SDPTypeOffer, SignalingStateHaveLocalOffer);
   (SignalingStateStable, stateChangeOpSetRemote, SDPTypeOffer, SignalingStateHaveRemoteOffer);
   (SignalingStateHaveLocalOffer, stateChangeOpSetRemote, SDPTypeAnswer, SignalingStateStable);
   (SignalingStateHaveLocalOffer, stateChangeOpSetRemote, SDPTypePranswer, SignalingStateHaveRemotePranswer);
   (SignalingStateHaveRemotePranswer, stateChangeOpSetRemote, SDPTypeAnswer, SignalingStateStable);
   (SignalingStateHaveRemoteOffer, stateChangeOpSetLocal, SDPTypeAnswer, SignalingStateStable);
   (SignalingStateHaveRemoteOffer, stateChangeOpSetLocal, SDPTypePranswer, SignalingStateHaveLocalPranswer);
   (SignalingStateHaveLocalPranswer, stateChangeOpSetLocal, SDPTypeAnswer, SignalingStateStable)].

Definition arrow (cur : SignalingState) (op : stateChangeOp) (t : SDPType) (next : SignalingState) : Prop :=
  (cur, op, t, next) ∈ transitions.

#[export] Instance arrow_dec cur op t next : Decision (arrow cur op t next).
Proof. unfold arrow. apply _. Defined.

Lemma checkNext_arrow cur next op t :
  checkNextSignalingState cur next op t =
  if decide (arrow cur op t next) then Ok next
  else if bool_decide (t = SDPTypeRollback) && bool_decide (cur = SignalingStateStable)
  then Err errSignalingStateCannotRollback else Err errSignalingStateProposedTransitionInvalid.
Proof. destruct cur, op, t, next; vm_compute; reflexivity. Qed.

(** * The descriptions that go with a state *)

Definition typed (t : SDPType) (d : option SessionDescription) : Prop :=
  exists sd, d = Some sd /\ Type_ sd = t.

(** No exchange yet, or the offer of one side and the answer of the other. *)
Definition negotiated (l r : option SessionDescription) : Prop :=
  (l = None /\ r = None) \/ (typed SDPTypeOffer l /\ typed SDPTypeAnswer r) \/ (typed SDPTypeAnswer l /\ typed SDPTypeOffer r).

Definition pending (s : SignalingState) (l r : option SessionDescription) : Prop :=
  match s with
  | SignalingStateStable => l = None /\ r = None
  | SignalingStateHaveLocalOffer => typed SDPTypeOffer l /\ r = None
  | SignalingStateHaveRemoteOffer => l = None /\ typed SDPTypeOffer r
  | SignalingStateHaveLocalPranswer => typed SDPTypePranswer l /\ typed SDPTypeOffer r
  | SignalingStateHaveRemotePranswer => typed SDPTypeOffer l /\ typed SDPTypePranswer r
  | _ => False
  end.

(** The signalling states and the connection states reported so far. *)
Definition signals (es : list event) : list SignalingState :=
  omap (fun e => match e with SignalingChanged s => Some s | _ => None end) es.

Definition connections (es : list event) : list PeerConnectionState :=
  omap (fun e => match e with ConnectionChanged s => Some s | _ => None end) es.

(** The offer/answer state machine as sdptype.go documents it: the arrows above, and a
    provisional answer that takes the place of another. *)
Definition documented (cur : SignalingState) (op : stateChangeOp) (t : SDPType) (next : SignalingState) : Prop :=
  arrow cur op t next \/
  t = SDPTypePranswer /\ cur = next /\
  (next = SignalingStateHaveLocalPranswer /\ op = stateChangeOpSetLocal \/
   next = SignalingStateHaveRemotePranswer /\ op = stateChangeOpSetRemote).

(** Each state follows from the one before it. *)
Fixpoint signal_path (s : SignalingState) (l : list SignalingState) : Prop :=
  match l with
  | [] => True
  | s' :: l' => (exists op t, documented s op t s') /\ signal_path s' l'
  end.

Fixpoint changing (s : PeerConnectionState) (l : list PeerConnectionState) : Prop :=
  match l with
  | [] => True
  | s' :: l' => s <> s' /\ changing s' l'
  end.

Definition final {A} (a : A) (l : list A) : A := default a (last l).

Record consistent (pc : PeerConnection) : Prop := {
  C_current : negotiated (currentLocalDescription pc) (currentRemoteDescription pc);
  C_pending : isClosed pc = false ->
              pending (signalingState pc) (pendingLocalDescription pc) (pendingRemoteDescription pc);
  C_closed : isClosed pc = true -> signalingState pc = SignalingStateClosed /\ connectionState pc = PCClosed;
  C_open : isClosed pc = false -> connectionState pc <> PCClosed;
  C_signals : signal_path SignalingStateStable (signals (events pc));
  C_last : isClosed pc = false -> signalingState pc = final SignalingStateStable (signals (events pc));
  C_connections : changing PCNew (connections (events pc));
  C_connection : connectionState pc = final PCNew (connections (events pc));
}.

(** What can happen to a connection, one call after the other. *)
Inductive step (parses : string -> bool) : PeerConnection -> PeerConnection -> Prop :=
| step_offer g pc d pc' : CreateOffer g pc = Ok (d, pc') -> step parses pc pc'
| step_answer g pc d pc' : CreateAnswer g pc = Ok (d, pc') -> step parses pc pc'
| step_local later d pc e pc' : SetLocalDescription parses later d pc = (e, pc') -> step parses pc pc'
| step_remote later d pc e pc' : SetRemoteDescription parses later d pc = (e, pc') -> step parses pc pc'
| step_needed e n pc : step parses pc (negotiationNeededOp e n pc)
| step_transport i d pc : step parses pc (updateConnectionState i d pc)
| step_close i d pc : step parses pc (Close i d pc).

Lemma final_app {A} (a : A) l x : final a (l ++ [x]) = x.
Proof. unfold final. rewrite last_snoc. done. Qed.

Lemma final_cons {A} (a x : A) l : final a (x :: l) = final x l.
Proof. unfold final. rewrite last_cons. destruct (last l); done. Qed.

Lemma signal_path_snoc s l x :
  signal_path s (l ++ [x]) <-> signal_path s l /\ exists op t, documented (final s l) op t x.
Proof.
  revert s. induction l as [|y l IH]; intros s.
  - unfold final. simpl. naive_solver.
  - cbn [app signal_path]. rewrite IH.
    rewrite final_cons. naive_solver.
Qed.

Lemma changing_snoc s l x : changing s (l ++ [x]) <-> changing s l /\ final s l <> x.
Proof.
  revert s. induction l as [|y l IH]; intros s.
  - unfold final. simpl. naive_solver.
  - cbn [app changing]. rewrite IH.
    rewrite final_cons. naive_solver.
Qed.

(** * The invariant is kept *)

(** An accepted description: the arrow it follows, the fields it leaves alone,
    the descriptions it leaves behind. *)
Lemma applyDescription_ok sd op pc s pc' :
  applyDescription sd op pc = Ok (s, pc') ->
  pending (signalingState pc) (pendingLocalDescription pc) (pendingRemoteDescription pc) ->
  negotiated (currentLocalDescription pc) (currentRemoteDescription pc) ->
  arrow (signalingState pc) op (Type_ sd) s /\
  pending s (pendingLocalDescription pc') (pendingRemoteDescription pc') /\
  negotiated (currentLocalDescription pc') (currentRemoteDescription pc') /\
  isClosed pc' = isClosed pc /\ connectionState pc' = connectionState pc /\ events pc' = events pc.
Proof.
  intros H Hp Hn. unfold applyDescription in H.
  destruct op, (Type_ sd) eqn:Ht; try discriminate H;
    try (destruct (negb (String.eqb _ _)); [discriminate H|]);
    rewrite checkNext_arrow in H; (case_decide as Ha; [|cbn in H; repeat case_match; discriminate H]);
    injection H as <- <-; (split; [exact Ha|]); destruct (signalingState pc);
    try (exfalso; vm_compute in Ha; clear -Ha; by repeat (apply elem_of_cons in Ha as [Ha|Ha]; [discriminate Ha|]); apply elem_of_nil in Ha);
    cbn in *; unfold negotiated, typed in *; naive_solver.
Qed.

Lemma signals_app l k : signals (l ++ k) = signals l ++ signals k.
Proof. apply omap_app. Qed.

Lemma connections_app l k : connections (l ++ k) = connections l ++ connections k.
Proof. apply omap_app. Qed.

Lemma signals_connection l c : signals (l ++ [ConnectionChanged c]) = signals l.
Proof. rewrite signals_app. apply app_nil_r. Qed.

Lemma connections_connection l c : connections (l ++ [ConnectionChanged c]) = connections l ++ [c].
Proof. apply connections_app. Qed.

(** Fields other than those of the invariant do not matter. *)
Lemma consistent_ext pc pc' :
  currentLocalDescription pc' = currentLocalDescription pc -> currentRemoteDescription pc' = currentRemoteDescription pc ->
  pendingLocalDescription pc' = pendingLocalDescription pc -> pendingRemoteDescription pc' = pendingRemoteDescription pc ->
  isClosed pc' = isClosed pc -> signalingState pc' = signalingState pc -> connectionState pc' = connectionState pc ->
  signals (events pc') = signals (events pc) -> connections (events pc') = connections (events pc) ->
  consistent pc -> consistent pc'.
Proof. intros E1 E2 E3 E4 E5 E6 E7 E8 E9 []. split; rewrite ?E1, ?E2, ?E3, ?E4, ?E5, ?E6, ?E7, ?E8, ?E9; done. Qed.

Lemma setDescription_consistent sd op pc pc' :
  consistent pc -> setDescription sd op pc = Ok pc' -> consistent pc'.
Proof.
  intros Hc H. unfold setDescription, admissible in H.
  destruct (isClosed pc) eqn:Ho; [discriminate H|]. case_bool_decide; [discriminate H|]. cbn in H.
  destruct (applyDescription sd op pc) as [[s pc1]|] eqn:Ha; [|discriminate H]. injection H as <-.
  apply applyDescription_ok in Ha as (Harr & Hp & Hn & Ho' & Hcs & Hev); [|by apply C_pending|by apply C_current].
  destruct Hc. unfold publish. cbn [fst snd].
  assert (signals (events pc ++ [NegotiationCheck]) = signals (events pc)) as He
    by (rewrite signals_app; cbn; apply app_nil_r).
  assert (connections (events pc ++ [NegotiationCheck]) = connections (events pc)) as He'
    by (rewrite connections_app; cbn; apply app_nil_r).
  assert (forall es, signals es = signals (events pc) -> connections es = connections (events pc) ->
    signal_path SignalingStateStable (signals (es ++ [SignalingChanged s])) /\
    s = final SignalingStateStable (signals (es ++ [SignalingChanged s])) /\
    connections (es ++ [SignalingChanged s]) = connections (events pc)) as Hes.
  { intros es E1 E2. rewrite signals_app, connections_app, E1, E2. cbn. rewrite app_nil_r, final_app, signal_path_snoc.
    rewrite <- C_last0 by done. unfold documented. naive_solver. }
  case_bool_decide.
  1: destruct (Hes _ He He') as (A & B & C). 2: destruct (Hes _ eq_refl eq_refl) as (A & B & C).
  all: split; cbn -[connections signals final]; rewrite ?Hev, ?Ho', ?Ho, ?Hcs, ?C; auto; done.
Qed.

Lemma updateConnectionState_consistent i d pc :
  consistent pc \/ (isClosed pc = true /\ exists pc0, consistent pc0 /\ isClosed pc0 = false /\
                    pc = set_state SignalingStateClosed (set_closed pc0)) ->
  consistent (updateConnectionState i d pc).
Proof.
  intros H. unfold updateConnectionState.
  match goal with |- context [connectionState pc = ?c] => set (cs := c) end.
  assert (isClosed pc = true -> cs = PCClosed) as Hcl by (unfold cs; by intros ->).
  assert (isClosed pc = false -> cs <> PCClosed) as Hop.
  { unfold cs. intros ->. repeat case_match; done. }
  clearbody cs. destruct H as [[]|(Ho & pc0 & [] & Ho' & ->)].
  - case_bool_decide; [by split|]. split; cbn -[connections signals final]; rewrite ?signals_connection, ?connections_connection; try done.
    + intros Ho. split; [by apply C_closed0|by apply Hcl].
    + apply changing_snoc. rewrite <- C_connection0. done.
    + by rewrite final_app.
  - cbn in *. specialize (C_open0 Ho'). specialize (Hcl eq_refl). subst cs. rewrite bool_decide_false by done.
    split; cbn -[connections signals final]; rewrite ?signals_connection, ?connections_connection; try done.
    + apply changing_snoc. rewrite <- C_connection0. done.
    + by rewrite final_app.
Qed.

Lemma step_consistent parses pc pc' : step parses pc pc' -> consistent pc -> consistent pc'.
Proof.
  intros [g ? d ? H|g ? d ? H|later d ? e ? H|later d ? e ? H|e n ?|i d ?|i d ?] Hc.
  - unfold CreateOffer in H. case_match; [discriminate H|]. destruct g; [|discriminate H]. injection H as <- <-.
    by apply (consistent_ext pc0).
  - unfold CreateAnswer in H. do 3 (case_match; [|discriminate H || idtac]; try discriminate H).
    destruct g; [|discriminate H]. injection H as <- <-. by apply (consistent_ext pc0).
  - unfold SetLocalDescription in H. case_match; [by simplify_eq|].
    destruct (fill_local d pc0) as [d'|]; [|by simplify_eq]. case_match; [|by simplify_eq].
    destruct (setDescription _ _ _) eqn:E; simplify_eq; [by eapply setDescription_consistent|done].
  - unfold SetRemoteDescription in H. case_match; [by simplify_eq|]. case_match; [|by simplify_eq].
    destruct (setDescription _ _ _) eqn:E; simplify_eq; [by eapply setDescription_consistent|done].
  - unfold negotiationNeededOp. repeat case_match; try done; apply (consistent_ext pc0); try done; cbn;
      rewrite ?signals_app, ?connections_app; cbn; by rewrite ?app_nil_r.
  - apply updateConnectionState_consistent. by left.
  - unfold Close. case_match; [done|]. apply updateConnectionState_consistent. right. split; [done|]. eauto.
Qed.

Lemma NewPeerConnection_consistent : consistent NewPeerConnection.
Proof. split; cbn; try done. by left. Qed.

(** A description created last is not changed by [SetLocalDescription]. *)
Lemma fill_local_last t x pc :
  (t = SDPTypeOffer /\ lastOffer pc = x) \/ (t = SDPTypeAnswer /\ lastAnswer pc = x) ->
  fill_local {| Type_ := t; SDP := x |} pc = Ok {| Type_ := t; SDP := x |}.
Proof. intros [[-> <-]|[-> <-]]; unfold fill_local; cbn; by case_match. Qed.

Lemma admissible_ok sd pc : isClosed pc = false -> Type_ sd <> SDPTypeUnknown -> admissible sd pc = Ok tt.
Proof. intros H Ht. unfold admissible. rewrite H. by destruct (Type_ sd). Qed.

(** * Theorems *)

(** [checkNextSignalingState] accepts a proposed next state exactly when
    the state, the side, the type of the description and the next state form
    one of the eight arrows of the offer/answer state machine, and then returns
    the proposed state; in particular nothing leaves the closed state and
    nothing proposes it. *)
Theorem signaling_arrows cur next op t s :
  (checkNextSignalingState cur next op t = Ok s <-> arrow cur op t next /\ s = next) /\
  ~ arrow SignalingStateClosed op t next /\ ~ arrow cur op t SignalingStateClosed.
Proof.
  rewrite checkNext_arrow. split_and!.
  - case_decide; [naive_solver|]. case_match; naive_solver.
  - destruct op, t, next; apply (bool_decide_unpack (~ _)); vm_compute; exact I.
  - destruct cur, op, t; apply (bool_decide_unpack (~ _)); vm_compute; exact I.
Qed.

(** C19. Whatever calls are made, one after the other and those that fail
    included: the current descriptions are the offer of one side and the answer
    of the other, or absent; the signalling states reported form a path of the
    documented state machine from the stable state; each connection state reported
    differs from the one before, and the last is the present one.  While the
    connection is open, its signalling state is the last one reported, the pending
    descriptions fit it (of the right types in the states that have them, none in
    the stable state) and its connection state is not closed; a closed one is closed
    in both states. *)
Theorem signaling_invariant parses pc : rtc (step parses) NewPeerConnection pc -> consistent pc.
Proof.
  intros H. pose proof NewPeerConnection_consistent as Hc. revert H Hc.
  generalize NewPeerConnection. intros pc0 H. induction H as [|a b c Hs _ IH]; [done|].
  intros Hc. by apply IH, (step_consistent parses a b).
Qed.

(** The state of a call that returned no error. *)
Definition ok (r : option pc_error * PeerConnection) : result pc_error PeerConnection :=
  match r with (None, pc) => Ok pc | (Some e, _) => Err e end.

(** An exchange: [a] offers, [b] answers; [l1] to [l4] are the errors of the later
    parts of the four calls. *)
Definition exchange (parses : string -> bool) (l1 l2 l3 l4 : option pc_error) (o n : string)
    (a b : PeerConnection) : result pc_error (PeerConnection * PeerConnection) :=
  '(offer, a) ← CreateOffer (Ok o) a;
  a ← ok (SetLocalDescription parses l1 offer a);
  b ← ok (SetRemoteDescription parses l2 offer b);
  '(answer, b) ← CreateAnswer (Ok n) b;
  b ← ok (SetLocalDescription parses l3 answer b);
  a ← ok (SetRemoteDescription parses l4 answer a);
  Ok (a, b).

Definition idle (pc : PeerConnection) : Prop :=
  isClosed pc = false /\ signalingState pc = SignalingStateStable.

(** From any two open and stable connections, whatever happened before, an
    exchange of an offer and an answer that parse succeeds at every call, if the
    texts can be generated and what the calls do after the signalling step (media sections, transceivers,
    candidates, fingerprint, gathering) does not fail; both
    ends are stable again, with nothing pending, and agree: what is local for
    one is remote for the other. *)
Theorem exchange_completes parses o n a b :
  idle a -> idle b -> parses o = true -> parses n = true ->
  exists a' b', exchange parses None None None None o n a b = Ok (a', b') /\ idle a' /\ idle b' /\
    let offer := {| Type_ := SDPTypeOffer; SDP := o |} in
    let answer := {| Type_ := SDPTypeAnswer; SDP := n |} in
    currentLocalDescription a' = Some offer /\ currentRemoteDescription a' = Some answer /\
    currentLocalDescription b' = Some answer /\ currentRemoteDescription b' = Some offer /\
    pendingLocalDescription a' = None /\ pendingRemoteDescription a' = None /\
    pendingLocalDescription b' = None /\ pendingRemoteDescription b' = None.
Proof.
  intros [Ha1 Ha2] [Hb1 Hb2] Ho Hn. destruct a, b. cbn in *. subst.
  unfold exchange, ok, CreateOffer, SetLocalDescription, SetRemoteDescription, setDescription, applyDescription, CreateAnswer.
  do 2 (lazy -[fill_local admissible String.eqb app]; rewrite fill_local_last by (cbn; auto);
        lazy -[fill_local admissible String.eqb app]; rewrite ?Ho, ?Hn, String.eqb_refl, !admissible_ok by done).
  do 2 eexists. split; [reflexivity|]. done.
Qed.

(** A rollback is refused in every state and on either side, so the branches
    that would drop the pending description never run: an offer made by mistake
    can only be answered, or the connection closed.  A second provisional answer
    and a new offer in place of a pending one are refused as well. *)
Theorem rollback_refused sd op pc :
  consistent pc ->
  (Type_ sd = SDPTypeRollback \/
   (Type_ sd = SDPTypePranswer /\ pendingLocalDescription pc <> None /\ pendingRemoteDescription pc <> None) \/
   (Type_ sd = SDPTypeOffer /\ signalingState pc <> SignalingStateStable)) ->
  exists e, setDescription sd op pc = Err e.
Proof.
  intros Hc Ht. unfold setDescription. destruct (isClosed pc) eqn:Ho; [unfold admissible; rewrite Ho; by eexists|].
  rewrite admissible_ok by (try done; intros E; rewrite E in Ht; naive_solver). cbn.
  destruct (applyDescription sd op pc) as [[s pc']|e] eqn:Ha; [|by eexists].
  pose proof (C_pending _ Hc Ho) as Hp. apply applyDescription_ok in Ha as (Harr & _); [|done|by apply C_current].
  exfalso. unfold arrow, transitions in Harr. unfold typed, pending in Hp.
  repeat (apply elem_of_cons in Harr as [Harr|Harr]; [injection Harr as E1 E2 E3 E4; rewrite E1 in *; rewrite E3 in *; naive_solver|]).
  by apply elem_of_nil in Harr.
Qed.

(** A call that fails after the signalling step has taken it: the description stays
    pending, and the same call made again is refused for the state it is in. *)
Theorem failed_offer_stays parses e sd pc :
  idle pc -> Type_ sd = SDPTypeOffer -> parses (SDP sd) = true ->
  exists pc', SetRemoteDescription parses (Some e) sd pc = (Some e, pc') /\
    signalingState pc' = SignalingStateHaveRemoteOffer /\ pendingRemoteDescription pc' = Some sd /\
    SetRemoteDescription parses None sd pc' = (Some errSignalingStateProposedTransitionInvalid, pc').
Proof.
  intros [Ho Hs] Ht Hp. destruct pc, sd as [t x]. cbn in *. subst. unfold SetRemoteDescription, setDescription. cbn [isClosed SDP].
  rewrite Hp, !admissible_ok by done. eexists. split; [reflexivity|]. split; [done|]. split; [done|].
  cbn [isClosed publish set_state set_descriptions emit set_needed signalingState fst snd]. done.
Qed.

(** The signalling state is written after the lock of [setDescription] is
    released and whatever [Close] has done meanwhile: a connection closed
    between the two parts of a call is closed, and yet in the state of a pending
    local offer. *)
Theorem close_overwritten ice dtls offer pc :
  idle pc -> exists pc1 s pc2 pc3,
    CreateOffer (Ok offer) pc = Ok ({| Type_ := SDPTypeOffer; SDP := offer |}, pc1) /\
    admissible {| Type_ := SDPTypeOffer; SDP := offer |} pc1 = Ok tt /\
    applyDescription {| Type_ := SDPTypeOffer; SDP := offer |} stateChangeOpSetLocal pc1 = Ok (s, pc2) /\
    Close ice dtls pc2 = pc3 /\ signalingState pc3 = SignalingStateClosed /\
    isClosed (publish s pc3) = true /\ signalingState (publish s pc3) = SignalingStateHaveLocalOffer.
Proof.
  intros [Ho Hs]. destruct pc. cbn in Ho, Hs. subst. do 4 eexists. split_and!; try reflexivity.
  - unfold applyDescription. cbn. by rewrite String.eqb_refl.
  - unfold Close, updateConnectionState. cbn. by case_bool_decide.
  - unfold Close, updateConnectionState. cbn. by destruct (bool_decide (connectionState0 = PCClosed)).
  - unfold Close, updateConnectionState. cbn. by destruct (bool_decide (connectionState0 = PCClosed)).
Qed.

(** The connection state after a change of a transport: failed if one of
    the transports failed, disconnected if ICE is, connected exactly when both
    transports are usable; and a transport that is still connecting does not
    keep the connection from being reported disconnected, as the comment in the
    code says it would. *)
Theorem connection_state_correct ice dtls pc :
  isClosed pc = false ->
  let s := connectionState (updateConnectionState ice dtls pc) in
  (s = PCFailed <-> ice = ICEFailed \/ dtls = DTLSFailed) /\
  (s = PCDisconnected <-> ice = ICEDisconnected /\ dtls <> DTLSFailed) /\
  (s = PCConnected <-> (ice = ICEConnected \/ ice = ICECompleted) /\ (dtls = DTLSConnected \/ dtls = DTLSClosed) \/
                       ice = ICEClosed /\ dtls = DTLSConnected) /\
  s <> PCClosed.
Proof.
  intros Ho. cbn zeta.
  assert (forall cs, connectionState (if bool_decide (connectionState pc = cs) then pc
            else emit (ConnectionChanged cs) (set_connection cs pc)) = cs) as E.
  { intros cs. by case_bool_decide. }
  unfold updateConnectionState. rewrite E, Ho. destruct ice, dtls; vm_compute; naive_solver.
Qed.

(** * Witnesses *)

Lemma failed_offer_stays_witness : exists pc',
  SetRemoteDescription (fun _ => true) (Some errParse) {| Type_ := SDPTypeOffer; SDP := "o" |} NewPeerConnection = (Some errParse, pc') /\
  signalingState pc' = SignalingStateHaveRemoteOffer.
Proof.
  destruct (failed_offer_stays (fun _ => true) errParse {| Type_ := SDPTypeOffer; SDP := "o" |} NewPeerConnection) as (pc' & H1 & H2 & _);
    try (split; reflexivity); try reflexivity. exists pc'. split; [exact H1|exact H2].
Defined.

(** An offer, refused by the later part of the call, then a provisional answer
    and an answer; the transports connect, and the connection is closed. *)
Definition offered : PeerConnection :=
  snd (SetLocalDescription (fun _ => true) (Some errParse) {| Type_ := SDPTypeOffer; SDP := "o" |} (set_lastOffer "o" NewPeerConnection)).
Definition provisional : PeerConnection :=
  snd (SetRemoteDescription (fun _ => true) None {| Type_ := SDPTypePranswer; SDP := "p" |} offered).
Definition answered : PeerConnection :=
  snd (SetRemoteDescription (fun _ => true) None {| Type_ := SDPTypeAnswer; SDP := "a" |} provisional).

Lemma signaling_invariant_witness :
  let pc := updateConnectionState ICEConnected DTLSConnected answered in
  consistent pc /\ consistent (Close ICEConnected DTLSConnected pc) /\
  typed SDPTypeOffer (currentLocalDescription pc) /\ typed SDPTypeAnswer (currentRemoteDescription pc) /\
  signals (events pc) = [SignalingStateHaveLocalOffer; SignalingStateHaveRemotePranswer; SignalingStateStable].
Proof.
  assert (rtc (step (fun _ => true)) NewPeerConnection (updateConnectionState ICEConnected DTLSConnected answered)) as H.
  { apply (rtc_l _ _ (set_lastOffer "o" NewPeerConnection)).
    { by apply (step_offer _ (Ok "o"%string) _ {| Type_ := SDPTypeOffer; SDP := "o" |}). }
    apply (rtc_l _ _ offered).
    { by apply (step_local _ (Some errParse) {| Type_ := SDPTypeOffer; SDP := "o" |} _ (Some errParse)). }
    apply (rtc_l _ _ provisional); [by apply (step_remote _ None {| Type_ := SDPTypePranswer; SDP := "p" |} _ None)|].
    apply (rtc_l _ _ answered); [by apply (step_remote _ None {| Type_ := SDPTypeAnswer; SDP := "a" |} _ None)|].
    apply rtc_once, step_transport. }
  split; [apply (signaling_invariant (fun _ => true)), H|].
  split; [apply (signaling_invariant (fun _ => true)); eapply rtc_r; [exact H|apply step_close]|].
  split; [by eexists|]. split; [by eexists|]. vm_compute. reflexivity.
Defined.

Lemma exchange_completes_witness :
  exists a b, exchange (fun _ => true) None None None None "v=0 o" "v=0 a" NewPeerConnection NewPeerConnection = Ok (a, b) /\
    currentLocalDescription a = currentRemoteDescription b /\ signals (events b) = [SignalingStateHaveRemoteOffer; SignalingStateStable].
Proof.
  destruct (exchange_completes (fun _ => true) "v=0 o" "v=0 a" NewPeerConnection NewPeerConnection) as (a & b & E & _ & _ & H);
    try (split; reflexivity); try reflexivity.
  exists a, b. destruct H as (H1 & _ & _ & H2 & _). split_and!; [exact E|by rewrite H1, H2|].
  vm_compute in E. injection E as <- <-. vm_compute. reflexivity.
Defined.

Lemma rollback_refused_witness :
  exists e, setDescription {| Type_ := SDPTypeRollback; SDP := "" |} stateChangeOpSetLocal NewPeerConnection = Err e.
Proof. apply rollback_refused; [split; cbn; try done; by left|]. by left. Defined.

Lemma close_overwritten_witness :
  exists pc, isClosed pc = true /\ signalingState pc = SignalingStateHaveLocalOffer.
Proof.
  destruct (close_overwritten ICENew DTLSNew "v=0" NewPeerConnection) as (pc1 & s & pc2 & pc3 & _ & _ & _ & _ & _ & H1 & H2);
    [split; reflexivity|]. by exists (publish s pc3).
Defined.

Lemma connection_state_correct_witness :
  connectionState (updateConnectionState ICEDisconnected DTLSConnecting NewPeerConnection) = PCDisconnected.
Proof. apply (connection_state_correct ICEDisconnected DTLSConnecting NewPeerConnection); done. Defined.
