(* ===== verification/LkAuth.v ===== *)
(** LiveKit's access tokens (livekit-protocol/auth): the grants of a
    participant and the permissions they stand for, the token that carries them
    and its verification.

    The JSON web tokens of go-jose are a parameter.  A nil pointer to a bool is [None], a nil or
    empty slice or map is empty. *)

From S2P Require Import Prelude GoText.

#[local] Open Scope string_scope.
#[local] Open Scope list_scope.
#[local] Open Scope Z_scope.

(** * Grants *)

(** The protobuf enumerations and their names. *)
Inductive TrackSource := SourceUNKNOWN | SourceCAMERA | SourceMICROPHONE | SourceSCREEN_SHARE | SourceSCREEN_SHARE_AUDIO.
Inductive ParticipantKind := KindSTANDARD | KindINGRESS | KindEGRESS | KindSIP | KindAGENT.

#[export] Instance TrackSource_eq_dec : EqDecision TrackSource.
Proof. solve_decision. Defined.
#[export] Instance ParticipantKind_eq_dec : EqDecision ParticipantKind.
Proof. solve_decision. Defined.

Definition TrackSource_String (s : TrackSource) : string :=
  match s with
  | SourceUNKNOWN => "UNKNOWN" | SourceCAMERA => "CAMERA" | SourceMICROPHONE => "MICROPHONE"
  | SourceSCREEN_SHARE => "SCREEN_SHARE" | SourceSCREEN_SHARE_AUDIO => "SCREEN_SHARE_AUDIO"
  end.
Definition Kind_String (k : ParticipantKind) : string :=
  match k with KindSTANDARD => "STANDARD" | KindINGRESS => "INGRESS" | KindEGRESS => "EGRESS" | KindSIP => "SIP" | KindAGENT => "AGENT" end.

Definition sourceToString (s : TrackSource) : string := ToLower (TrackSource_String s).
Definition sourceToProto (s : string) : TrackSource :=
  if String.eqb s "camera" then SourceCAMERA
  else if String.eqb s "microphone" then SourceMICROPHONE
  else if String.eqb s "screen_share" then SourceSCREEN_SHARE
  else if String.eqb s "screen_share_audio" then SourceSCREEN_SHARE_AUDIO
  else SourceUNKNOWN.

Definition kindFromProto (k : ParticipantKind) : string := ToLower (Kind_String k).
Definition kindToProto (s : string) : ParticipantKind :=
  if String.eqb s "" || String.eqb s "standard" then KindSTANDARD
  else if String.eqb s "ingress" then KindINGRESS
  else if String.eqb s "egress" then KindEGRESS
  else if String.eqb s "sip" then KindSIP
  else if String.eqb s "agent" then KindAGENT
  else KindSTANDARD.

Record VideoGrant := {
  RoomCreate : bool;
  RoomList : bool;
  RoomRecord : bool;
  RoomAdmin : bool;
  RoomJoin : bool;
  Room : string;
  RoomConfiguration : string;
  CanPublish : option bool;
  CanSubscribe : option bool;
  CanPublishData : option bool;
  CanPublishSources : list string;
  CanUpdateOwnMetadata : option bool;
  IngressAdmin : bool;
  Hidden : bool;
  Recorder : bool;
  Agent : bool;
}.

Definition noGrant : VideoGrant :=
  {| RoomCreate := false; RoomList := false; RoomRecord := false; RoomAdmin := false; RoomJoin := false; Room := ""; RoomConfiguration := "";
     CanPublish := None; CanSubscribe := None; CanPublishData := None; CanPublishSources := []; CanUpdateOwnMetadata := None;
     IngressAdmin := false; Hidden := false; Recorder := false; Agent := false |}.

Record SIPGrant := { Admin : bool; Call : bool }.

Record ClaimGrants := {
  Identity : string;
  Name : string;
  Kind : string;
  Video : option VideoGrant;
  SIP : option SIPGrant;
  Sha256 : string;
  Metadata : string;
  Attributes : gmap string string;
}.

(** [livekit.ParticipantPermission]. *)
Record ParticipantPermission := {
  pCanSubscribe : bool;
  pCanPublish : bool;
  pCanPublishData : bool;
  pCanPublishSources : list TrackSource;
  pHidden : bool;
  pRecorder : bool;
  pCanUpdateMetadata : bool;
  pAgent : bool;
}.

Definition GetCanPublish (v : VideoGrant) : bool := default true (CanPublish v).
Definition GetCanSubscribe (v : VideoGrant) : bool := default true (CanSubscribe v).
Definition GetCanUpdateOwnMetadata (v : VideoGrant) : bool := default false (CanUpdateOwnMetadata v).
Definition GetCanPublishData (v : VideoGrant) : bool := default (GetCanPublish v) (CanPublishData v).

Definition GetCanPublishSource (source : TrackSource) (v : VideoGrant) : bool :=
  if negb (GetCanPublish v) then false
  else match CanPublishSources v with
       | [] => true
       | l => existsb (String.eqb (sourceToString source)) l
       end.

Definition GetCanPublishSources (v : VideoGrant) : list TrackSource := sourceToProto <$> CanPublishSources v.

Definition set_publish (x : option bool) (v : VideoGrant) : VideoGrant :=
  {| RoomCreate := RoomCreate v; RoomList := RoomList v; RoomRecord := RoomRecord v; RoomAdmin := RoomAdmin v; RoomJoin := RoomJoin v; Room := Room v;
     RoomConfiguration := RoomConfiguration v; CanPublish := x; CanSubscribe := CanSubscribe v; CanPublishData := CanPublishData v;
     CanPublishSources := CanPublishSources v; CanUpdateOwnMetadata := CanUpdateOwnMetadata v; IngressAdmin := IngressAdmin v;
     Hidden := Hidden v; Recorder := Recorder v; Agent := Agent v |}.
Definition set_publish_data (x : option bool) (v : VideoGrant) : VideoGrant :=
  {| RoomCreate := RoomCreate v; RoomList := RoomList v; RoomRecord := RoomRecord v; RoomAdmin := RoomAdmin v; RoomJoin := RoomJoin v; Room := Room v;
     RoomConfiguration := RoomConfiguration v; CanPublish := CanPublish v; CanSubscribe := CanSubscribe v; CanPublishData := x;
     CanPublishSources := CanPublishSources v; CanUpdateOwnMetadata := CanUpdateOwnMetadata v; IngressAdmin := IngressAdmin v;
     Hidden := Hidden v; Recorder := Recorder v; Agent := Agent v |}.
Definition set_subscribe (x : option bool) (v : VideoGrant) : VideoGrant :=
  {| RoomCreate := RoomCreate v; RoomList := RoomList v; RoomRecord := RoomRecord v; RoomAdmin := RoomAdmin v; RoomJoin := RoomJoin v; Room := Room v;
     RoomConfiguration := RoomConfiguration v; CanPublish := CanPublish v; CanSubscribe := x; CanPublishData := CanPublishData v;
     CanPublishSources := CanPublishSources v; CanUpdateOwnMetadata := CanUpdateOwnMetadata v; IngressAdmin := IngressAdmin v;
     Hidden := Hidden v; Recorder := Recorder v; Agent := Agent v |}.
Definition set_sources (x : list string) (v : VideoGrant) : VideoGrant :=
  {| RoomCreate := RoomCreate v; RoomList := RoomList v; RoomRecord := RoomRecord v; RoomAdmin := RoomAdmin v; RoomJoin := RoomJoin v; Room := Room v;
     RoomConfiguration := RoomConfiguration v; CanPublish := CanPublish v; CanSubscribe := CanSubscribe v; CanPublishData := CanPublishData v;
     CanPublishSources := x; CanUpdateOwnMetadata := CanUpdateOwnMetadata v; IngressAdmin := IngressAdmin v;
     Hidden := Hidden v; Recorder := Recorder v; Agent := Agent v |}.
Definition set_metadata (x : option bool) (v : VideoGrant) : VideoGrant :=
  {| RoomCreate := RoomCreate v; RoomList := RoomList v; RoomRecord := RoomRecord v; RoomAdmin := RoomAdmin v; RoomJoin := RoomJoin v; Room := Room v;
     RoomConfiguration := RoomConfiguration v; CanPublish := CanPublish v; CanSubscribe := CanSubscribe v; CanPublishData := CanPublishData v;
     CanPublishSources := CanPublishSources v; CanUpdateOwnMetadata := x; IngressAdmin := IngressAdmin v;
     Hidden := Hidden v; Recorder := Recorder v; Agent := Agent v |}.
Definition set_flags (hidden recorder agent : bool) (v : VideoGrant) : VideoGrant :=
  {| RoomCreate := RoomCreate v; RoomList := RoomList v; RoomRecord := RoomRecord v; RoomAdmin := RoomAdmin v; RoomJoin := RoomJoin v; Room := Room v;
     RoomConfiguration := RoomConfiguration v; CanPublish := CanPublish v; CanSubscribe := CanSubscribe v; CanPublishData := CanPublishData v;
     CanPublishSources := CanPublishSources v; CanUpdateOwnMetadata := CanUpdateOwnMetadata v; IngressAdmin := IngressAdmin v;
     Hidden := hidden; Recorder := recorder; Agent := agent |}.

Definition SetCanPublish (val : bool) := set_publish (Some val).
Definition SetCanPublishData (val : bool) := set_publish_data (Some val).
Definition SetCanSubscribe (val : bool) := set_subscribe (Some val).
Definition SetCanPublishSources (sources : list TrackSource) := set_sources (sourceToString <$> sources).
Definition SetCanUpdateOwnMetadata (val : bool) := set_metadata (Some val).

(** Permissions; a nil one is [None]. *)
Definition MatchesPermission (permission : option ParticipantPermission) (v : VideoGrant) : bool :=
  match permission with
  | None => false
  | Some p =>
      if negb (Bool.eqb (GetCanPublish v) (pCanPublish p)) then false
      else if negb (Bool.eqb (GetCanPublishData v) (pCanPublishData p)) then false
      else if negb (Bool.eqb (GetCanSubscribe v) (pCanSubscribe p)) then false
      else if negb (Bool.eqb (GetCanUpdateOwnMetadata v) (pCanUpdateMetadata p)) then false
      else if negb (Bool.eqb (Hidden v) (pHidden p)) then false
      else if negb (Bool.eqb (Recorder v) (pRecorder p)) then false
      else if negb (Bool.eqb (Agent v) (pAgent p)) then false
      else bool_decide (GetCanPublishSources v = pCanPublishSources p)
  end.

Definition UpdateFromPermission (permission : option ParticipantPermission) (v : VideoGrant) : VideoGrant :=
  match permission with
  | None => v
  | Some p =>
      let v := SetCanPublish (pCanPublish p) v in
      let v := SetCanPublishData (pCanPublishData p) v in
      let v := SetCanPublishSources (pCanPublishSources p) v in
      let v := SetCanSubscribe (pCanSubscribe p) v in
      let v := SetCanUpdateOwnMetadata (pCanUpdateMetadata p) v in
      set_flags (pHidden p) (pRecorder p) (pAgent p) v
  end.

Definition ToPermission (v : VideoGrant) : ParticipantPermission :=
  {| pCanPublish := GetCanPublish v; pCanPublishData := GetCanPublishData v; pCanSubscribe := GetCanSubscribe v;
     pCanPublishSources := GetCanPublishSources v; pCanUpdateMetadata := GetCanUpdateOwnMetadata v; pHidden := Hidden v;
     pRecorder := Recorder v; pAgent := Agent v |}.

Lemma source_roundtrip s : sourceToProto (sourceToString s) = s.
Proof. by destruct s. Qed.

Lemma kind_roundtrip k : kindToProto (kindFromProto k) = k.
Proof. by destruct k. Qed.

(** A grant matches exactly the permission it stands for; after an update from a
    permission it stands for that one, and everything that is not a permission
    is as before. *)
Theorem permissions_exact v p :
  (MatchesPermission (Some p) v = true <-> ToPermission v = p) /\
  ToPermission (UpdateFromPermission (Some p) v) = p /\
  (RoomJoin (UpdateFromPermission (Some p) v), Room (UpdateFromPermission (Some p) v), RoomAdmin (UpdateFromPermission (Some p) v)) =
    (RoomJoin v, Room v, RoomAdmin v).
Proof.
  split; [|split; [|done]].
  - unfold MatchesPermission. destruct p as [sub pub dat src hid rec upd ag]. unfold ToPermission. cbn. split.
    + intros H. repeat match type of H with context [Bool.eqb ?a ?b] => destruct (Bool.eqb_spec a b); [|done]; cbn [negb] in H end.
      apply bool_decide_eq_true in H. congruence.
    + intros E. injection E as <- <- <- <- <- <- <- <-. rewrite !Bool.eqb_reflx. by apply bool_decide_eq_true.
  - destruct p as [sub pub dat src hid rec upd ag]. unfold ToPermission, GetCanPublishSources. cbn. f_equal.
    rewrite <- list_fmap_compose. rewrite <- (list_fmap_id src) at 2. apply list_fmap_ext. intros _ s _. apply source_roundtrip.
Qed.

(** What may be published: with no sources listed all of them, otherwise those
    listed, and none if publishing is forbidden. *)
Theorem can_publish_source v sources s : GetCanPublishSource s (SetCanPublishSources sources v) = true <->
  GetCanPublish v = true /\ (sources = [] \/ s ∈ sources).
Proof.
  unfold GetCanPublishSource. change (GetCanPublish (SetCanPublishSources sources v)) with (GetCanPublish v).
  destruct (GetCanPublish v); [|naive_solver]. cbn [negb SetCanPublishSources set_sources CanPublishSources].
  destruct sources as [|s0 l]; [naive_solver|]. cbn [fmap list_fmap].
  change (sourceToString s0 :: _) with (sourceToString <$> s0 :: l). rewrite existsb_exists. split.
  - intros (x & Hx & E). split; [done|right]. apply list_elem_of_In, list_elem_of_fmap in Hx as (s' & -> & Hs'). apply String.eqb_eq in E.
    assert (s = s') as -> by (rewrite <- (source_roundtrip s), <- (source_roundtrip s'), E; done). done.
  - intros (_ & [?|Hs]); [done|]. exists (sourceToString s). split; [|by apply String.eqb_eq]. apply list_elem_of_In, list_elem_of_fmap. by exists s.
Qed.

(** The documentation says that listed sources supersede [CanPublish]; a list
    does not help when [CanPublish] is false. *)
Theorem sources_do_not_supersede v s : GetCanPublishSource s (SetCanPublishSources [s] (SetCanPublish false v)) = false.
Proof. done. Qed.

(** * Tokens *)

(** The registered claims of a JSON web token that are used; dates are seconds. *)
Record Claims := { Issuer : string; Subject : string; ID : string; NotBefore : Z; Expiry : Z }.

Inductive auth_error := ErrKeysMissing | JwtError.

Definition defaultValidDuration : Z := 6 * hour.

Record AccessToken := { apiKey : string; secret : string; grant : ClaimGrants; validFor : Z }.

Definition noClaims : ClaimGrants :=
  {| Identity := ""; Name := ""; Kind := ""; Video := None; SIP := None; Sha256 := ""; Metadata := ""; Attributes := ∅ |}.

Definition NewAccessToken (key secret_ : string) : AccessToken := {| apiKey := key; secret := secret_; grant := noClaims; validFor := 0 |}.

Definition set_grant (f : ClaimGrants -> ClaimGrants) (t : AccessToken) : AccessToken :=
  {| apiKey := apiKey t; secret := secret t; grant := f (grant t); validFor := validFor t |}.

Definition SetIdentity (identity : string) : AccessToken -> AccessToken := set_grant (fun g =>
  {| Identity := identity; Name := Name g; Kind := Kind g; Video := Video g; SIP := SIP g; Sha256 := Sha256 g; Metadata := Metadata g; Attributes := Attributes g |}).
Definition SetName (name : string) : AccessToken -> AccessToken := set_grant (fun g =>
  {| Identity := Identity g; Name := name; Kind := Kind g; Video := Video g; SIP := SIP g; Sha256 := Sha256 g; Metadata := Metadata g; Attributes := Attributes g |}).
Definition SetKind (kind : ParticipantKind) : AccessToken -> AccessToken := set_grant (fun g =>
  {| Identity := Identity g; Name := Name g; Kind := kindFromProto kind; Video := Video g; SIP := SIP g; Sha256 := Sha256 g; Metadata := Metadata g; Attributes := Attributes g |}).
Definition AddGrant (v : VideoGrant) : AccessToken -> AccessToken := set_grant (fun g =>
  {| Identity := Identity g; Name := Name g; Kind := Kind g; Video := Some v; SIP := SIP g; Sha256 := Sha256 g; Metadata := Metadata g; Attributes := Attributes g |}).
Definition AddSIPGrant (s : SIPGrant) : AccessToken -> AccessToken := set_grant (fun g =>
  {| Identity := Identity g; Name := Name g; Kind := Kind g; Video := Video g; SIP := Some s; Sha256 := Sha256 g; Metadata := Metadata g; Attributes := Attributes g |}).
Definition SetMetadata (md : string) : AccessToken -> AccessToken := set_grant (fun g =>
  {| Identity := Identity g; Name := Name g; Kind := Kind g; Video := Video g; SIP := SIP g; Sha256 := Sha256 g; Metadata := md; Attributes := Attributes g |}).
Definition SetSha256 (sha : string) : AccessToken -> AccessToken := set_grant (fun g =>
  {| Identity := Identity g; Name := Name g; Kind := Kind g; Video := Video g; SIP := SIP g; Sha256 := sha; Metadata := Metadata g; Attributes := Attributes g |}).
(** New values replace old ones, others stay. *)
Definition SetAttributes (attrs : gmap string string) : AccessToken -> AccessToken := set_grant (fun g =>
  {| Identity := Identity g; Name := Name g; Kind := Kind g; Video := Video g; SIP := SIP g; Sha256 := Sha256 g; Metadata := Metadata g; Attributes := attrs ∪ Attributes g |}).
Definition SetValidFor (duration : Z) (t : AccessToken) : AccessToken :=
  {| apiKey := apiKey t; secret := secret t; grant := grant t; validFor := duration |}.

(** The identity is not part of the JSON text of the grants. *)
Definition without_identity (g : ClaimGrants) : ClaimGrants :=
  {| Identity := ""; Name := Name g; Kind := Kind g; Video := Video g; SIP := SIP g; Sha256 := Sha256 g; Metadata := Metadata g; Attributes := Attributes g |}.
Definition with_identity (i : string) (g : ClaimGrants) : ClaimGrants :=
  {| Identity := i; Name := Name g; Kind := Kind g; Video := Video g; SIP := SIP g; Sha256 := Sha256 g; Metadata := Metadata g; Attributes := Attributes g |}.

(** What is used of go-jose. *)
Class Jose := {
  JSONWebToken : Type;
  (** the text of a token *)
  Raw : Type;
  (** a signed token with the two sets of claims *)
  Sign : string -> Claims -> ClaimGrants -> result unit Raw;
  ParseSigned : Raw -> result unit JSONWebToken;
  UnsafeClaims : JSONWebToken -> result unit Claims;
  (** the claims, if the signature is the key's *)
  VerifiedClaims : JSONWebToken -> string -> result unit (Claims * ClaimGrants);
  (** [Claims.Validate] with the issuer that is expected, at a time *)
  Validate : Claims -> string -> Z -> option unit;
}.

Section Tokens.
Context {J : Jose}.

(** [now1] and [now2] are what the two calls of [time.Now] give. *)
Definition ToJWT (t : AccessToken) (now1 now2 : Z) : result auth_error Raw :=
  if String.eqb (apiKey t) "" || String.eqb (secret t) "" then Err ErrKeysMissing
  else
    let valid := if 0 <? validFor t then validFor t else defaultValidDuration in
    let cl := {| Issuer := apiKey t; NotBefore := now1 / second; Expiry := (now2 + valid) / second; Subject := Identity (grant t); ID := "" |} in
    match Sign (secret t) cl (grant t) with
    | Ok raw => Ok raw
    | Err _ => Err JwtError
    end.

Record APIKeyTokenVerifier := { token : JSONWebToken; identity : string; v_apiKey : string }.

Definition ParseAPIToken (raw : Raw) : result auth_error APIKeyTokenVerifier :=
  match ParseSigned raw with
  | Err _ => Err JwtError
  | Ok tok =>
      match UnsafeClaims tok with
      | Err _ => Err JwtError
      | Ok out => Ok {| token := tok; v_apiKey := Issuer out; identity := if String.eqb (Subject out) "" then ID out else Subject out |}
      end
  end.

(** The key is a string; a nil one is the empty string. *)
Definition Verify (v : APIKeyTokenVerifier) (key : string) (now : Z) : result auth_error ClaimGrants :=
  if String.eqb key "" then Err ErrKeysMissing
  else
    match VerifiedClaims (token v) key with
    | Err _ => Err JwtError
    | Ok (out, claims) =>
        match Validate out (v_apiKey v) now with
        | Some _ => Err JwtError
        | None => Ok (with_identity (identity v) claims)
        end
    end.

End Tokens.

(** * Concrete runs *)

Module TestAuth.
(** Tokens that are not encrypted and name their key. *)
#[export] Instance plain : Jose := {|
  JSONWebToken := string * Claims * ClaimGrants;
  Raw := string * Claims * ClaimGrants;
  Sign k c g := Ok (k, c, without_identity g);
  ParseSigned r := Ok r;
  UnsafeClaims t := Ok (snd (fst t));
  VerifiedClaims t k := if String.eqb k (fst (fst t)) then Ok (snd (fst t), snd t) else Err tt;
  Validate c i now := if String.eqb (Issuer c) i && (NotBefore c * second <=? now + minute) && (now - minute <=? Expiry c * second) then None else Some tt;
|}.

Definition joining : AccessToken := SetValidFor hour (SetIdentity "alice" (AddGrant noGrant (NewAccessToken "key" "secret"))).

(** Its token in its time, after it, and under another secret. *)
Definition checked (key : string) (now : Z) : result auth_error ClaimGrants :=
  match ToJWT joining 0 0 with
  | Err e => Err e
  | Ok raw => match ParseAPIToken raw with Err e => Err e | Ok v => Verify v key now end
  end.

Example token_checked : checked "secret" (30 * minute) = Ok (grant joining) /\ checked "secret" (2 * hour) = Err JwtError /\
  checked "other" (30 * minute) = Err JwtError /\ checked "" (30 * minute) = Err ErrKeysMissing.
Proof. by vm_compute. Qed.
End TestAuth.
