(* ===== verification/LkAuthClone.v ===== *)
(** [Clone] of the grants (livekit-protocol/auth/grants.go), where the optional
    permissions are pointers and the sources a slice: a copy shares nothing with
    what it was copied from. *)

From S2P Require Import Prelude LkAuth.

#[local] Open Scope list_scope.

(** Booleans and slices of strings that are pointed to. *)
Record heap := { bools : gmap positive bool; slices : gmap positive (list string) }.

(** A grant with its pointers; [values] has the fields that are values. *)
Record PVideoGrant := {
  values : VideoGrant;
  pCanPublish : option positive;
  pCanSubscribe : option positive;
  pCanPublishData : option positive;
  pCanPublishSources : option positive;
  pCanUpdateOwnMetadata : option positive;
}.

(** What the grant says in a heap. *)
Definition load (h : heap) (v : PVideoGrant) : VideoGrant :=
  let get p := p ≫= fun l => bools h !! l in
  set_metadata (get (pCanUpdateOwnMetadata v)) (set_sources (default [] (pCanPublishSources v ≫= fun l => slices h !! l))
    (set_publish_data (get (pCanPublishData v)) (set_subscribe (get (pCanSubscribe v)) (set_publish (get (pCanPublish v)) (values v))))).

(** [x := *p; &x]. *)
Definition copy_bool (p : option positive) (h : heap) : option positive * heap :=
  match p ≫= fun l => bools h !! l with
  | None => (p, h)
  | Some b => let l := fresh (dom (bools h)) in (Some l, {| bools := <[l := b]> (bools h); slices := slices h |})
  end.

(** [make] and [copy]. *)
Definition copy_slice (p : option positive) (h : heap) : option positive * heap :=
  match p ≫= fun l => slices h !! l with
  | None => (p, h)
  | Some s => let l := fresh (dom (slices h)) in (Some l, {| bools := bools h; slices := <[l := s]> (slices h) |})
  end.

Definition VideoGrant_Clone (v : PVideoGrant) (h : heap) : PVideoGrant * heap :=
  let '(a, h) := copy_bool (pCanPublish v) h in
  let '(b, h) := copy_bool (pCanSubscribe v) h in
  let '(c, h) := copy_bool (pCanPublishData v) h in
  let '(d, h) := copy_slice (pCanPublishSources v) h in
  let '(e, h) := copy_bool (pCanUpdateOwnMetadata v) h in
  ({| values := values v; pCanPublish := a; pCanSubscribe := b; pCanPublishData := c; pCanPublishSources := d; pCanUpdateOwnMetadata := e |}, h).

(** A write through a pointer. *)
Definition write_bool (l : positive) (b : bool) (h : heap) : heap := {| bools := <[l := b]> (bools h); slices := slices h |}.
Definition write_slice (l : positive) (s : list string) (h : heap) : heap := {| bools := bools h; slices := <[l := s]> (slices h) |}.

Definition bool_ptrs (v : PVideoGrant) : list positive :=
  omap id [pCanPublish v; pCanSubscribe v; pCanPublishData v; pCanUpdateOwnMetadata v].

(** Pointers that are set point somewhere. *)
Definition valid (h : heap) (v : PVideoGrant) : Prop :=
  Forall (fun l => is_Some (bools h !! l)) (bool_ptrs v) /\ forall l, pCanPublishSources v = Some l -> is_Some (slices h !! l).

(** What a heap has grown by. *)
Definition grown (h h' : heap) : Prop := bools h ⊆ bools h' /\ slices h ⊆ slices h'.

Lemma grown_trans h1 h2 h3 : grown h1 h2 -> grown h2 h3 -> grown h1 h3.
Proof. intros [? ?] [? ?]. split; etrans; done. Qed.

(** The pointer that [p] in [h] is copied to, seen from any heap grown from
    there: the same value, and new unless nil. *)
Definition copied (h0 h : heap) (p q : option positive) : Prop :=
  match p with
  | None => q = None
  | Some l => exists l', q = Some l' /\ bools h !! l' = bools h0 !! l /\ bools h0 !! l' = None
  end.

Lemma copy_bool_ok h0 h p : grown h0 h -> (forall l, p = Some l -> is_Some (bools h0 !! l)) ->
  let '(q, h') := copy_bool p h in grown h h' /\ slices h' = slices h /\ forall h'', grown h' h'' -> copied h0 h'' p q.
Proof.
  intros [Hb _] Hv. unfold copy_bool. destruct p as [l|]; cbn [mbind option_bind]; [|split; [split; done|]; by split].
  destruct (Hv l eq_refl) as [b Eb]. rewrite (lookup_weaken _ _ _ _ Eb Hb).
  assert (bools h !! fresh (dom (bools h)) = None) as Hn by apply not_elem_of_dom, is_fresh.
  split; [split; [by apply insert_subseteq|done]|]. split; [done|]. intros h'' [Hg _]. exists (fresh (dom (bools h))). split; [done|]. rewrite Eb. split.
  - eapply lookup_weaken; [|exact Hg]. apply lookup_insert_eq.
  - by eapply lookup_weaken_None.
Qed.

Lemma copy_slice_ok h0 h p : grown h0 h -> (forall l, p = Some l -> is_Some (slices h0 !! l)) ->
  let '(q, h') := copy_slice p h in grown h h' /\ forall h'', grown h' h'' ->
    match p with
    | None => q = None
    | Some l => exists l', q = Some l' /\ slices h'' !! l' = slices h0 !! l /\ slices h0 !! l' = None
    end.
Proof.
  intros [_ Hb] Hv. unfold copy_slice. destruct p as [l|]; cbn [mbind option_bind]; [|split; [split; done|done]].
  destruct (Hv l eq_refl) as [b Eb]. rewrite (lookup_weaken _ _ _ _ Eb Hb).
  assert (slices h !! fresh (dom (slices h)) = None) as Hn by apply not_elem_of_dom, is_fresh.
  split; [split; [done|by apply insert_subseteq]|]. intros h'' [_ Hg]. exists (fresh (dom (slices h))). split; [done|]. rewrite Eb. split.
  - eapply lookup_weaken; [|exact Hg]. apply lookup_insert_eq.
  - by eapply lookup_weaken_None.
Qed.

Lemma valid_bool h v p l : valid h v -> p ∈ [pCanPublish v; pCanSubscribe v; pCanPublishData v; pCanUpdateOwnMetadata v] -> p = Some l -> is_Some (bools h !! l).
Proof.
  intros [Hb _] Hin ->. rewrite Forall_forall in Hb. apply Hb. unfold bool_ptrs. apply list_elem_of_omap. by exists (Some l).
Qed.

(** A clone with everything it was copied to. *)
Lemma Clone_copied h v c h' : valid h v -> VideoGrant_Clone v h = (c, h') -> grown h h' /\ values c = values v /\
  copied h h' (pCanPublish v) (pCanPublish c) /\ copied h h' (pCanSubscribe v) (pCanSubscribe c) /\ copied h h' (pCanPublishData v) (pCanPublishData c) /\
  copied h h' (pCanUpdateOwnMetadata v) (pCanUpdateOwnMetadata c) /\
  match pCanPublishSources v with
  | None => pCanPublishSources c = None
  | Some l => exists l', pCanPublishSources c = Some l' /\ slices h' !! l' = slices h !! l /\ slices h !! l' = None
  end.
Proof.
  intros Hv E. unfold VideoGrant_Clone in E. assert (grown h h) as G0 by (split; done).
  pose proof (copy_bool_ok h h (pCanPublish v) G0 (fun l => valid_bool h v (pCanPublish v) l Hv ltac:(rewrite !elem_of_cons; tauto))) as H1. destruct (copy_bool _ h) as [a h1]. destruct H1 as (G1 & _ & C1).
  pose proof (copy_bool_ok h h1 (pCanSubscribe v) G1 (fun l => valid_bool h v (pCanSubscribe v) l Hv ltac:(rewrite !elem_of_cons; tauto))) as H2. destruct (copy_bool _ h1) as [b h2]. destruct H2 as (G2 & _ & C2).
  pose proof (grown_trans _ _ _ G1 G2) as G02.
  pose proof (copy_bool_ok h h2 (pCanPublishData v) G02 (fun l => valid_bool h v (pCanPublishData v) l Hv ltac:(rewrite !elem_of_cons; tauto))) as H3. destruct (copy_bool _ h2) as [d h3]. destruct H3 as (G3 & _ & C3).
  pose proof (grown_trans _ _ _ G02 G3) as G03.
  pose proof (copy_slice_ok h h3 (pCanPublishSources v) G03 (proj2 Hv)) as H4. destruct (copy_slice _ h3) as [s h4]. destruct H4 as (G4 & C4).
  pose proof (grown_trans _ _ _ G03 G4) as G04.
  pose proof (copy_bool_ok h h4 (pCanUpdateOwnMetadata v) G04 (fun l => valid_bool h v (pCanUpdateOwnMetadata v) l Hv ltac:(rewrite !elem_of_cons; tauto))) as H5. destruct (copy_bool _ h4) as [e h5]. destruct H5 as (G5 & _ & C5).
  injection E as <- <-. cbn. assert (grown h5 h5) as G55 by (split; done).
  split; [by eapply grown_trans|]. split; [done|]. split; [apply C1; repeat (eapply grown_trans; [eassumption|]); done|].
  split; [apply C2; repeat (eapply grown_trans; [eassumption|]); done|]. split; [apply C3; repeat (eapply grown_trans; [eassumption|]); done|].
  split; [by apply C5|by apply C4].
Qed.

Lemma copied_load h h' p q : copied h h' p q -> (q ≫= fun l => bools h' !! l) = (p ≫= fun l => bools h !! l).
Proof. destruct p as [l|]; [intros (l' & -> & E & _); exact E|by intros ->]. Qed.

Lemma load_grown h h' v : valid h v -> grown h h' -> load h' v = load h v.
Proof.
  intros Hv [Gb Gs]. unfold load.
  assert (forall p, p ∈ [pCanPublish v; pCanSubscribe v; pCanPublishData v; pCanUpdateOwnMetadata v] -> (p ≫= fun l => bools h' !! l) = (p ≫= fun l => bools h !! l)) as Hp.
  { intros [l|] Hin; [|done]. cbn [mbind option_bind]. destruct (valid_bool h v (Some l) l Hv Hin eq_refl) as [b Eb]. by rewrite Eb, (lookup_weaken _ _ _ _ Eb Gb). }
  rewrite !Hp by (rewrite !elem_of_cons; tauto).
  destruct Hv as [_ Hs]. destruct (pCanPublishSources v) as [l|]; [|done]. cbn [mbind option_bind]. destruct (Hs l eq_refl) as [x Ex].
  by rewrite Ex, (lookup_weaken _ _ _ _ Ex Gs).
Qed.

(** Two heaps a clone reads the same from: they agree where [h] has nothing. *)
Lemma load_fresh h h' h'' v c : values c = values v ->
  (forall l, bools h !! l = None -> bools h'' !! l = bools h' !! l) -> (forall l, slices h !! l = None -> slices h'' !! l = slices h' !! l) ->
  copied h h' (pCanPublish v) (pCanPublish c) -> copied h h' (pCanSubscribe v) (pCanSubscribe c) -> copied h h' (pCanPublishData v) (pCanPublishData c) ->
  copied h h' (pCanUpdateOwnMetadata v) (pCanUpdateOwnMetadata c) ->
  match pCanPublishSources v with
  | None => pCanPublishSources c = None
  | Some l => exists l', pCanPublishSources c = Some l' /\ slices h' !! l' = slices h !! l /\ slices h !! l' = None
  end -> load h'' c = load h v.
Proof.
  intros Ev Hb Hs C1 C2 C3 C4 C5. unfold load. rewrite Ev.
  assert (forall p q, copied h h' p q -> (q ≫= fun l => bools h'' !! l) = (p ≫= fun l => bools h !! l)) as Hp.
  { intros [l|] q; [|by intros ->]. intros (l' & -> & E & Hn). cbn [mbind option_bind]. by rewrite Hb. }
  rewrite (Hp _ _ C1), (Hp _ _ C2), (Hp _ _ C3), (Hp _ _ C4).
  destruct (pCanPublishSources v) as [l|]; [|by rewrite C5]. destruct C5 as (l' & -> & E & Hn). cbn [mbind option_bind]. by rewrite Hs, E.
Qed.

Lemma copied_new h h' p q l : copied h h' p q -> q = Some l -> bools h !! l = None.
Proof. destruct p as [k|]; [intros (l' & -> & _ & E); by intros [= <-]|by intros ->]. Qed.

(** A clone says what the grant says and shares nothing with it: what is
    written through the pointers of the one is not seen by the other. *)
Theorem clone_deep h v c h' : valid h v -> VideoGrant_Clone v h = (c, h') ->
  load h' c = load h v /\ load h' v = load h v /\
  (forall l b, l ∈ bool_ptrs c -> load (write_bool l b h') v = load h v) /\
  (forall l s, pCanPublishSources c = Some l -> load (write_slice l s h') v = load h v) /\
  (forall l b, l ∈ bool_ptrs v -> load (write_bool l b h') c = load h v) /\
  (forall l s, pCanPublishSources v = Some l -> load (write_slice l s h') c = load h v).
Proof.
  intros Hv E. destruct (Clone_copied h v c h' Hv E) as (G & Ev & C1 & C2 & C3 & C4 & C5).
  pose proof (fun h'' Hb Hs => load_fresh h h' h'' v c Ev Hb Hs C1 C2 C3 C4 C5) as HL. destruct G as [Gb Gs].
  split; [by apply HL|]. split; [by apply load_grown|].
  split; [|split; [|split]].
  - intros l b Hin. apply load_grown; [done|]. split; [|done]. apply insert_subseteq_r; [|done].
    apply list_elem_of_omap in Hin as (q & Hin & Eq). cbn in Eq. subst q. rewrite !elem_of_cons in Hin.
    destruct Hin as [Eq|[Eq|[Eq|[Eq|Hin]]]]; [..|by apply elem_of_nil in Hin]; symmetry in Eq;
      [apply (copied_new h h' _ _ l C1 Eq)|apply (copied_new h h' _ _ l C2 Eq)|apply (copied_new h h' _ _ l C3 Eq)|apply (copied_new h h' _ _ l C4 Eq)].
  - intros l s El. apply load_grown; [done|]. split; [done|]. apply insert_subseteq_r; [|done].
    destruct (pCanPublishSources v); [|congruence]. destruct C5 as (l' & E' & _ & Hn). congruence.
  - intros l b Hin. apply HL; [|done]. intros k Hk. apply lookup_insert_ne. intros ->.
    destruct Hv as [Hv _]. rewrite Forall_forall in Hv. destruct (Hv _ Hin). congruence.
  - intros l s El. apply HL; [done|]. intros k Hk. apply lookup_insert_ne. intros ->.
    destruct Hv as [_ Hv]. destruct (Hv _ El). congruence.
Qed.

Module TestClone.

Definition h0 : heap := {| bools := {[1%positive := false; 2%positive := true]}; slices := {[1%positive := ["camera"%string]]} |}.
Definition v0 : PVideoGrant :=
  {| values := noGrant; pCanPublish := Some 1%positive; pCanSubscribe := Some 2%positive; pCanPublishData := None;
     pCanPublishSources := Some 1%positive; pCanUpdateOwnMetadata := Some 2%positive |}.

Lemma clone_deep_witness : let '(c, h') := VideoGrant_Clone v0 h0 in
  load h' c = load h0 v0 /\ load (write_bool 1%positive true h') c = load h0 v0 /\ load (write_bool 1%positive true h') v0 <> load h0 v0.
Proof.
  assert (valid h0 v0) as Hv by (split; [repeat constructor; vm_compute; eauto|intros l [= <-]; vm_compute; eauto]).
  destruct (VideoGrant_Clone v0 h0) as [c h'] eqn:E. destruct (clone_deep h0 v0 c h' Hv E) as (E1 & _ & _ & _ & Hw & _).
  split; [exact E1|]. split; [apply Hw; vm_compute; constructor|]. vm_compute in E. injection E as <- <-. vm_compute. discriminate.
Defined.

End TestClone.
