(* ===== verification/LkSip.v ===== *)
(** LiveKit's rules for calls that come in by SIP (livekit-protocol/sip/sip.go and
    token.go): which trunk a call is on, which dispatch rule applies to it, what
    the caller becomes in which room, and the token it joins with.

    The slices of trunks and rules hold no nil pointers, nil and empty slices,
    maps and inner messages are the same.  The text of an error is not modelled
    beyond what it is made of.  [sort.Slice] promises a sorted permutation for a
    consistent order and nothing for elements that are equal in it, so it is an
    interface; so is the random text of [guid.New]. *)

From Stdlib Require Import Sorted.
From stdpp Require Import sorting.
From S2P Require Import Prelude GoNet GoText GoHash GoSha256 GoNetip LkAuth.

#[local] Open Scope string_scope.
#[local] Open Scope list_scope.
#[local] Open Scope Z_scope.

(** * Messages *)

(** The alternatives of a rule with their [RoomName] or [RoomPrefix] and [Pin]. *)
Inductive SIPDispatchRule :=
| DispatchRuleDirect (RoomName Pin : string)
| DispatchRuleIndividual (RoomPrefix Pin : string).

Record SIPDispatchRuleInfo := {
  SipDispatchRuleId : string;
  Rule : option SIPDispatchRule;
  TrunkIds : list string;
  HidePhoneNumber : bool;
  InboundNumbers : list string;
  RuleName : string;
  RuleMetadata : string;
  RuleAttributes : gmap string string;
}.

Record SIPInboundTrunkInfo := {
  SipTrunkId : string;
  TrunkName : string;
  TrunkMetadata : string;
  Numbers : list string;
  AllowedAddresses : list string;
  AllowedNumbers : list string;
  AuthUsername : string;
  AuthPassword : string;
}.

Record EvaluateSIPDispatchRulesRequest := {
  SipCallId : string;
  SipParticipantId : string;
  CallingNumber : string;
  CalledNumber : string;
  SrcAddress : string;
  SentPin : string;
  NoPin : bool;
  CalledHost : string;
  ExtraAttributes : gmap string string;
}.

Inductive SIPDispatchResult := LEGACY_ACCEPT_OR_PIN | ACCEPT | REQUEST_PIN | REJECT | DROP.

Record EvaluateSIPDispatchRulesResponse := {
  RoomName : string;
  ParticipantIdentity : string;
  ParticipantName : string;
  ParticipantMetadata : string;
  ParticipantAttributes : gmap string string;
  RequestPin : bool;
  Token : string;
  WsUrl : string;
  Result : SIPDispatchResult;
  RespTrunkId : string;
  RespRuleId : string;
}.

#[export] Instance SIPDispatchResult_eq_dec : EqDecision SIPDispatchResult.
Proof. solve_decision. Defined.

(** The errors, with what their texts are made of. *)
Inductive sip_error :=
| UnsupportedRule
| ConflictingRules (id id2 : string)
| ConflictingTrunks (id id2 : string) (numbers : list string) (allowed : option string)
| MultipleTrunks (called : string)
| MultipleDefaultTrunks (called : string)
| ErrNoDispatchMatched (NoRules NoTrunks : bool) (CalledNumber : string)
| IncorrectPIN.

(** [livekit/attrs.go]. *)
Definition AttrSIPPrefix : string := "sip.".
Definition AttrSIPCallID : string := AttrSIPPrefix +:+ "callID".
Definition AttrSIPTrunkID : string := AttrSIPPrefix +:+ "trunkID".
Definition AttrSIPDispatchRuleID : string := AttrSIPPrefix +:+ "ruleID".
Definition AttrSIPTrunkNumber : string := AttrSIPPrefix +:+ "trunkPhoneNumber".
Definition AttrSIPPhoneNumber : string := AttrSIPPrefix +:+ "phoneNumber".

(** * sort.Slice *)

(** What its documentation asks of the order: it and its negation are
    transitive, and nothing is before what is before it. *)
Record StrictWeak {A} (less : A -> A -> bool) : Prop := {
  less_asym a b : less a b = true -> less b a = false;
  less_negtrans a b c : less a b = false -> less b c = false -> less a c = false;
}.

Class GoSort := { sort_slice : forall {A : Type}, (A -> A -> bool) -> list A -> list A }.
Class GoSortLaws (S : GoSort) := {
  sort_permutation {A} (less : A -> A -> bool) l : StrictWeak less -> sort_slice less l ≡ₚ l;
  sort_sorted {A} (less : A -> A -> bool) l : StrictWeak less -> StronglySorted (fun a b => less b a = false) (sort_slice less l);
}.

(** * Dispatch rules *)

Definition MaxInt32 : Z := 2147483647.

Definition DispatchRulePriority (info : SIPDispatchRuleInfo) : Z :=
  match Rule info with
  | None => MaxInt32
  | Some rule =>
      let priority :=
        match rule with
        | DispatchRuleDirect _ pin => if negb (String.eqb pin "") then 0 else 100
        | DispatchRuleIndividual _ pin => if negb (String.eqb pin "") then 1 else 101
        end in
      if (length (InboundNumbers info) =? 0)%nat then priority + 1000 else priority
  end.

(** The room and the pin; both are empty when there is an error. *)
Definition GetPinAndRoom (info : SIPDispatchRuleInfo) : string * string * option sip_error :=
  match Rule info with
  | None => ("", "", Some UnsupportedRule)
  | Some (DispatchRuleDirect room pin) => (room, pin, None)
  | Some (DispatchRuleIndividual room pin) => (room, pin, None)
  end.

Definition rule_less (a b : SIPDispatchRuleInfo) : bool :=
  let p1 := DispatchRulePriority a in
  let p2 := DispatchRulePriority b in
  if p1 <? p2 then true
  else if p2 <? p1 then false
  else
    let '(room1, _, _) := GetPinAndRoom a in
    let '(room2, _, _) := GetPinAndRoom b in
    String.ltb room1 room2.

Definition SortDispatchRules {S : GoSort} (rules : list SIPDispatchRuleInfo) : list SIPDispatchRuleInfo := sort_slice rule_less rules.

Definition printID (s : string) : string := if String.eqb s "" then "<new>" else s.

Definition normalizeNumber (num : string) : string :=
  if String.eqb num "" then ""
  else if negb (HasPrefix num "+") then "+" +:+ num
  else num.

(** [ruleKey]: pin, trunk and number. *)
Definition ruleKey : Type := string * string * string.

(** The two inner loops of [ValidateDispatchRules]. *)
Fixpoint validate_numbers (r : SIPDispatchRuleInfo) (pin trunk : string) (numbers : list string) (byRuleKey : gmap ruleKey SIPDispatchRuleInfo)
  : result sip_error (gmap ruleKey SIPDispatchRuleInfo) :=
  match numbers with
  | [] => Ok byRuleKey
  | number :: numbers =>
      let key := (pin, trunk, normalizeNumber number) in
      match byRuleKey !! key with
      | Some r2 => Err (ConflictingRules (printID (SipDispatchRuleId r)) (printID (SipDispatchRuleId r2)))
      | None => validate_numbers r pin trunk numbers (<[key := r]> byRuleKey)
      end
  end.
Fixpoint validate_trunks (r : SIPDispatchRuleInfo) (pin : string) (numbers trunks : list string) (byRuleKey : gmap ruleKey SIPDispatchRuleInfo)
  : result sip_error (gmap ruleKey SIPDispatchRuleInfo) :=
  match trunks with
  | [] => Ok byRuleKey
  | trunk :: trunks =>
      match validate_numbers r pin trunk numbers byRuleKey with
      | Err e => Err e
      | Ok byRuleKey => validate_trunks r pin numbers trunks byRuleKey
      end
  end.

(** A rule without trunks or numbers has the empty one. *)
Definition or_empty (l : list string) : list string := if (length l =? 0)%nat then [""] else l.

Fixpoint validate_rules (rules : list SIPDispatchRuleInfo) (byRuleKey : gmap ruleKey SIPDispatchRuleInfo) : option sip_error :=
  match rules with
  | [] => None
  | r :: rules =>
      match GetPinAndRoom r with
      | (_, _, Some err) => Some err
      | (_, pin, None) =>
          match validate_trunks r pin (or_empty (InboundNumbers r)) (or_empty (TrunkIds r)) byRuleKey with
          | Err e => Some e
          | Ok byRuleKey => validate_rules rules byRuleKey
          end
      end
  end.

Definition ValidateDispatchRules (rules : list SIPDispatchRuleInfo) : option sip_error :=
  if (length rules =? 0)%nat then None else validate_rules rules ∅.

Definition SelectDispatchRule {S : GoSort} (rules : list SIPDispatchRuleInfo) : result sip_error (option SIPDispatchRuleInfo) :=
  if (length rules =? 0)%nat then Ok None
  else
    match ValidateDispatchRules rules with
    | Some err => Err err
    | None => Ok (head (SortDispatchRules rules))
    end.

(** [slices.Contains]. *)
Definition contains (l : list string) (s : string) : bool := existsb (fun x => String.eqb x s) l.

(** The loop of [MatchDispatchRule]: the specific and the default rules. *)
Fixpoint filter_rules (trunk : option SIPInboundTrunkInfo) (req : EvaluateSIPDispatchRulesRequest) (rules specificRules defaultRules : list SIPDispatchRuleInfo)
  : list SIPDispatchRuleInfo * list SIPDispatchRuleInfo :=
  match rules with
  | [] => (specificRules, defaultRules)
  | info :: rules =>
      let continue_ := filter_rules trunk req rules in
      if negb (length (InboundNumbers info) =? 0)%nat && negb (contains (InboundNumbers info) (CallingNumber req)) then continue_ specificRules defaultRules
      else
        match GetPinAndRoom info with
        | (_, _, Some _) => continue_ specificRules defaultRules
        | (_, rulePin, None) =>
            let skip :=
              if NoPin req then negb (String.eqb rulePin "")
              else if negb (String.eqb (SentPin req) "") then
                if String.eqb rulePin "" then true else negb (String.eqb (SentPin req) rulePin)
              else false in
            if skip then continue_ specificRules defaultRules
            else if (length (TrunkIds info) =? 0)%nat then continue_ specificRules (defaultRules ++ [info])
            else
              match trunk with
              | None => continue_ specificRules defaultRules
              | Some t =>
                  if negb (contains (TrunkIds info) (SipTrunkId t)) then continue_ specificRules defaultRules
                  else continue_ (specificRules ++ [info]) defaultRules
              end
        end
  end.

Definition is_nil {A} (o : option A) : bool := match o with None => true | Some _ => false end.

Definition MatchDispatchRule {S : GoSort} (trunk : option SIPInboundTrunkInfo) (rules : list SIPDispatchRuleInfo) (req : EvaluateSIPDispatchRulesRequest)
  : result sip_error SIPDispatchRuleInfo :=
  if (length rules =? 0)%nat then Err (ErrNoDispatchMatched true (is_nil trunk) (CalledNumber req))
  else
    let '(specificRules, defaultRules) := filter_rules trunk req rules [] [] in
    match SelectDispatchRule specificRules with
    | Err err => Err err
    | Ok (Some best) => Ok best
    | Ok None =>
        match SelectDispatchRule defaultRules with
        | Err err => Err err
        | Ok (Some best) => Ok best
        | Ok None => Err (ErrNoDispatchMatched false (is_nil trunk) (CalledNumber req))
        end
    end.

(** * Trunks *)

Fixpoint validate_allowed (t : SIPInboundTrunkInfo) (allowed : list string) (byInbound : gmap string SIPInboundTrunkInfo)
  : result sip_error (gmap string SIPInboundTrunkInfo) :=
  match allowed with
  | [] => Ok byInbound
  | num :: allowed =>
      let inboundKey := normalizeNumber num in
      match byInbound !! inboundKey with
      | Some t2 => Err (ConflictingTrunks (printID (SipTrunkId t)) (printID (SipTrunkId t2)) (Numbers t) (Some num))
      | None => validate_allowed t allowed (<[inboundKey := t]> byInbound)
      end
  end.

Definition validateTrunkInbound (byInbound : gmap string SIPInboundTrunkInfo) (t : SIPInboundTrunkInfo) : result sip_error (gmap string SIPInboundTrunkInfo) :=
  if (length (AllowedNumbers t) =? 0)%nat then
    match byInbound !! "" with
    | Some t2 => Err (ConflictingTrunks (printID (SipTrunkId t)) (printID (SipTrunkId t2)) (Numbers t) None)
    | None => Ok (<["" := t]> byInbound)
    end
  else validate_allowed t (AllowedNumbers t) byInbound.

Notation trunk_map := (gmap string (gmap string SIPInboundTrunkInfo)).

(** One number of a trunk: the inner map is made if there is none. *)
Definition validate_number (t : SIPInboundTrunkInfo) (num : string) (m : trunk_map) : result sip_error trunk_map :=
  match validateTrunkInbound (default ∅ (m !! num)) t with
  | Err e => Err e
  | Ok byInbound => Ok (<[num := byInbound]> m)
  end.

Fixpoint validate_trunk_numbers (t : SIPInboundTrunkInfo) (nums : list string) (m : trunk_map) : result sip_error trunk_map :=
  match nums with
  | [] => Ok m
  | num :: nums =>
      match validate_number t num m with
      | Err e => Err e
      | Ok m => validate_trunk_numbers t nums m
      end
  end.

Fixpoint validate_all_trunks (trunks : list SIPInboundTrunkInfo) (m : trunk_map) : option sip_error :=
  match trunks with
  | [] => None
  | t :: trunks =>
      let r := if (length (Numbers t) =? 0)%nat then validate_number t "" m else validate_trunk_numbers t (Numbers t) m in
      match r with
      | Err e => Some e
      | Ok m => validate_all_trunks trunks m
      end
  end.

Definition ValidateTrunks (trunks : list SIPInboundTrunkInfo) : option sip_error :=
  if (length trunks =? 0)%nat then None else validate_all_trunks trunks ∅.

Definition matchAddrMask (addr mask : string) : bool :=
  if negb (has_char "/" mask) then String.eqb addr mask
  else
    match ParseAddr addr with
    | None => false
    | Some ip => match ParsePrefix mask with None => false | Some pref => Contains pref ip end
    end.

Definition matchAddrMasks (addr : string) (masks : list string) : bool :=
  if String.eqb addr "" || (length masks =? 0)%nat then true else existsb (matchAddrMask addr) masks.

Definition matchNumbers (num : string) (allowed : list string) : bool :=
  if (length allowed =? 0)%nat then true
  else existsb (fun allow => String.eqb (normalizeNumber num) (normalizeNumber allow)) allowed.

(** The numbers of one trunk: the trunk that is selected after them. *)
Fixpoint select_trunk (tr : SIPInboundTrunkInfo) (called : string) (nums : list string) (selectedTrunk : option SIPInboundTrunkInfo)
  : result sip_error (option SIPInboundTrunkInfo) :=
  match nums with
  | [] => Ok selectedTrunk
  | num :: nums =>
      if String.eqb (normalizeNumber num) (normalizeNumber called) then
        match selectedTrunk with
        | Some _ => Err (MultipleTrunks called)
        | None => select_trunk tr called nums (Some tr)
        end
      else select_trunk tr called nums selectedTrunk
  end.

Fixpoint match_trunks (srcIP calling called : string) (trunks : list SIPInboundTrunkInfo) (selectedTrunk defaultTrunk : option SIPInboundTrunkInfo) (defaultTrunkCnt : Z)
  : result sip_error (option SIPInboundTrunkInfo) :=
  match trunks with
  | [] =>
      match selectedTrunk with
      | Some t => Ok (Some t)
      | None => if 1 <? defaultTrunkCnt then Err (MultipleDefaultTrunks called) else Ok defaultTrunk
      end
  | tr :: trunks =>
      if negb (matchNumbers calling (AllowedNumbers tr)) then match_trunks srcIP calling called trunks selectedTrunk defaultTrunk defaultTrunkCnt
      else if negb (matchAddrMasks srcIP (AllowedAddresses tr)) then match_trunks srcIP calling called trunks selectedTrunk defaultTrunk defaultTrunkCnt
      else if (length (Numbers tr) =? 0)%nat then match_trunks srcIP calling called trunks selectedTrunk (Some tr) (defaultTrunkCnt + 1)
      else
        match select_trunk tr called (Numbers tr) selectedTrunk with
        | Err e => Err e
        | Ok selectedTrunk => match_trunks srcIP calling called trunks selectedTrunk defaultTrunk defaultTrunkCnt
        end
  end.

Definition MatchTrunk (trunks : list SIPInboundTrunkInfo) (srcIP calling called : string) : result sip_error (option SIPInboundTrunkInfo) :=
  match_trunks srcIP calling called trunks None None 0.

(** * The caller *)

(** [from[len(from)-n:]]; [None] is the panic of an index below zero. *)
Definition last_chars (from : string) (n : nat) : option string :=
  if (String.length from <? n)%nat then None else Some (String.substring (String.length from - n) n from).

(** What is shown of a number that is hidden. *)
Definition mask_number (from : string) : option string := last_chars from (if (String.length from <=? 4)%nat then 1 else 4).
Definition hash_number (from : string) : string := "sip_" +:+ hex_encode (take 8 (Sum256 (to_bytes from))).

(** The part after the number is known: the identity, the name and the
    attributes of the caller. *)
Definition evaluate_as (newGuid : string) (trunkID : string) (rule : SIPDispatchRuleInfo) (sentPin from fromName fromID : string) (attrs : gmap string string)
  : result sip_error EvaluateSIPDispatchRulesResponse :=
  match GetPinAndRoom rule with
  | (_, _, Some err) => Err err
  | (room, rulePin, None) =>
      if negb (String.eqb rulePin "") && String.eqb sentPin "" then
        Ok {| RoomName := ""; ParticipantIdentity := ""; ParticipantName := ""; ParticipantMetadata := ""; ParticipantAttributes := ∅; RequestPin := true;
              Token := ""; WsUrl := ""; Result := REQUEST_PIN; RespTrunkId := trunkID; RespRuleId := SipDispatchRuleId rule |}
      else if negb (String.eqb rulePin "") && negb (String.eqb rulePin sentPin) then Err IncorrectPIN
      else
        let room := match Rule rule with
                    | Some (DispatchRuleIndividual prefix _) => prefix +:+ "_" +:+ from +:+ "_" +:+ newGuid
                    | _ => room
                    end in
        Ok {| RoomName := room; ParticipantIdentity := fromID; ParticipantName := fromName; ParticipantMetadata := RuleMetadata rule;
              ParticipantAttributes := <[AttrSIPDispatchRuleID := SipDispatchRuleId rule]> attrs; RequestPin := false;
              Token := ""; WsUrl := ""; Result := ACCEPT; RespTrunkId := trunkID; RespRuleId := SipDispatchRuleId rule |}
  end.

(** [None] is a panic.  [newGuid] is what [guid.New] gives. *)
Definition EvaluateDispatchRule (newGuid trunkID : string) (rule : SIPDispatchRuleInfo) (req : EvaluateSIPDispatchRulesRequest)
  : option (result sip_error EvaluateSIPDispatchRulesResponse) :=
  let attrs := <[AttrSIPTrunkID := trunkID]> (<[AttrSIPCallID := SipCallId req]> (ExtraAttributes req ∪ RuleAttributes rule)) in
  if HidePhoneNumber rule then
    from ← mask_number (CallingNumber req);
    Some (evaluate_as newGuid trunkID rule (SentPin req) from ("Phone " +:+ from) (hash_number (CallingNumber req)) attrs)
  else
    let attrs := <[AttrSIPTrunkNumber := CalledNumber req]> (<[AttrSIPPhoneNumber := CallingNumber req]> attrs) in
    Some (evaluate_as newGuid trunkID rule (SentPin req) (CallingNumber req) ("Phone " +:+ CallingNumber req) ("sip_" +:+ CallingNumber req) attrs).

(** * The token of a caller *)

Section SipToken.
Context {J : Jose}.

Definition sip_token (apiKey secret roomName participantIdentity participantName participantMeta : string) (participantAttrs : gmap string string) : AccessToken :=
  SetValidFor (24 * hour)
    (SetKind KindSIP
      (SetAttributes participantAttrs
        (SetMetadata participantMeta
          (SetName participantName
            (SetIdentity participantIdentity
              (AddGrant
                {| RoomCreate := false; RoomList := false; RoomRecord := false; RoomAdmin := false; RoomJoin := true; Room := roomName; RoomConfiguration := "";
                   CanPublish := Some true; CanSubscribe := Some true; CanPublishData := Some true; CanPublishSources := []; CanUpdateOwnMetadata := Some true;
                   IngressAdmin := false; Hidden := false; Recorder := false; Agent := false |}
                (NewAccessToken apiKey secret))))))).

(** [now1] and [now2] are what the two calls of [time.Now] give. *)
Definition BuildSIPToken (apiKey secret roomName participantIdentity participantName participantMeta : string) (participantAttrs : gmap string string) (now1 now2 : Z)
  : result auth_error Raw :=
  ToJWT (sip_token apiKey secret roomName participantIdentity participantName participantMeta participantAttrs) now1 now2.
End SipToken.
