(* ===== verification/LkSipTheorems.v ===== *)
(** What LiveKit's SIP rules promise: which sets of trunks and rules are accepted,
    which trunk and which rule a call gets, and what the rule makes of the
    caller. *)

From Stdlib Require Import Sorted.
From stdpp Require Import sorting.
From S2P Require Import Prelude GoNet GoText GoHash GoSha256 GoNetip LkAuth LkSip.

#[local] Open Scope string_scope.
#[local] Open Scope list_scope.
#[local] Open Scope Z_scope.

(** * The order of rules *)

Lemma ltb_asym s t : String.ltb s t = true -> String.ltb t s = false.
Proof. unfold String.ltb. rewrite (String.compare_antisym t s). by destruct (s ?= t)%string. Qed.

Lemma ltb_negtrans s t u : String.ltb s t = false -> String.ltb t u = false -> String.ltb s u = false.
Proof.
  unfold String.ltb. revert t u. induction s as [|a s IH]; intros [|b t] [|c u]; cbn; try done. unfold Ascii.compare.
  destruct (N.compare_spec (N_of_ascii a) (N_of_ascii b)) as [E1|E1|E1], (N.compare_spec (N_of_ascii b) (N_of_ascii c)) as [E2|E2|E2],
    (N.compare_spec (N_of_ascii a) (N_of_ascii c)) as [E3|E3|E3]; try done; try lia. apply IH.
Qed.

Lemma rule_less_weak : StrictWeak rule_less.
Proof.
  split; unfold rule_less.
  - intros a b. destruct (GetPinAndRoom a) as [[r1 ?] ?], (GetPinAndRoom b) as [[r2 ?] ?].
    destruct (Z.ltb_spec (DispatchRulePriority a) (DispatchRulePriority b)), (Z.ltb_spec (DispatchRulePriority b) (DispatchRulePriority a)); try done; [lia|].
    apply ltb_asym.
  - intros a b c. destruct (GetPinAndRoom a) as [[r1 ?] ?], (GetPinAndRoom b) as [[r2 ?] ?], (GetPinAndRoom c) as [[r3 ?] ?].
    destruct (Z.ltb_spec (DispatchRulePriority a) (DispatchRulePriority b)), (Z.ltb_spec (DispatchRulePriority b) (DispatchRulePriority a)),
      (Z.ltb_spec (DispatchRulePriority b) (DispatchRulePriority c)), (Z.ltb_spec (DispatchRulePriority c) (DispatchRulePriority b)),
      (Z.ltb_spec (DispatchRulePriority a) (DispatchRulePriority c)), (Z.ltb_spec (DispatchRulePriority c) (DispatchRulePriority a)); try done; try lia.
    apply ltb_negtrans.
Qed.

(** The priority is that of the comment: pins first, then what names the
    caller's number, then rooms of their own. *)
Lemma DispatchRulePriority_range info : 0 <= DispatchRulePriority info <= MaxInt32.
Proof. unfold DispatchRulePriority, MaxInt32. case_all; lia. Qed.

(** * Rules without conflicts *)

Definition rule_pin (info : SIPDispatchRuleInfo) : string := snd (fst (GetPinAndRoom info)).
Definition rule_room (info : SIPDispatchRuleInfo) : string := fst (fst (GetPinAndRoom info)).
Definition supported (info : SIPDispatchRuleInfo) : Prop := Rule info <> None.

(** The combinations of pin, trunk and number a rule stands for. *)
Definition rule_keys (r : SIPDispatchRuleInfo) : list ruleKey :=
  or_empty (TrunkIds r) ≫= fun trunk => (fun n => (rule_pin r, trunk, normalizeNumber n)) <$> or_empty (InboundNumbers r).

(** A map has exactly the keys of a list. *)
Definition keys_are {K V} `{Countable K} (m : gmap K V) (l : list K) : Prop := forall k, is_Some (m !! k) <-> k ∈ l.

Lemma keys_insert {K V} `{Countable K} (m : gmap K V) l k v : keys_are m l -> keys_are (<[k := v]> m) (l ++ [k]).
Proof. intros H1 k'. specialize (H1 k'). rewrite elem_of_app, list_elem_of_singleton, lookup_insert_is_Some'. naive_solver. Qed.

Lemma keys_fresh {K V} `{Countable K} (m : gmap K V) l k : keys_are m l -> m !! k = None -> k ∉ l.
Proof. intros H1 H2 Hin. apply H1 in Hin. rewrite H2 in Hin. by destruct Hin. Qed.

Lemma NoDup_snoc {A} (l : list A) x : NoDup l -> x ∉ l -> NoDup (l ++ [x]).
Proof. intros. apply NoDup_app. split; [done|]. split; [|apply NoDup_singleton]. intros y Hy ->%list_elem_of_singleton. done. Qed.

Lemma not_NoDup_app {A} (l k : list A) x : x ∈ l -> ~ NoDup (l ++ x :: k).
Proof. intros Hx (_ & H & _)%NoDup_app. apply (H x Hx). left. Qed.

(** What a loop that adds keys and stops at the first it has seen does. *)
Definition adds {K V E} `{Countable K} (r : result E (gmap K V)) (seen new : list K) : Prop :=
  match r with
  | Ok m => keys_are m (seen ++ new) /\ NoDup (seen ++ new)
  | Err _ => ~ NoDup (seen ++ new)
  end.

Lemma validate_numbers_adds r pin trunk numbers m seen : keys_are m seen -> NoDup seen ->
  adds (validate_numbers r pin trunk numbers m) seen ((fun n => (pin, trunk, normalizeNumber n)) <$> numbers) /\
  forall e, validate_numbers r pin trunk numbers m = Err e -> exists i j, e = ConflictingRules i j.
Proof.
  revert m seen. induction numbers as [|n numbers IH]; intros m seen Hk Hn; cbn [validate_numbers fmap list_fmap].
  { cbn. by rewrite app_nil_r. }
  destruct (m !! _) eqn:E.
  - split; [|naive_solver]. apply not_NoDup_app, Hk. eexists. exact E.
  - destruct (IH (<[(pin, trunk, normalizeNumber n) := r]> m) (seen ++ [(pin, trunk, normalizeNumber n)])) as [H1 H2].
    + by apply keys_insert.
    + apply NoDup_snoc; [done|]. by eapply keys_fresh.
    + split; [|done]. unfold adds in *. by rewrite <- app_assoc in H1.
Qed.

Lemma validate_trunks_adds r pin numbers trunks m seen : keys_are m seen -> NoDup seen ->
  adds (validate_trunks r pin numbers trunks m) seen (trunks ≫= fun trunk => (fun n => (pin, trunk, normalizeNumber n)) <$> numbers) /\
  forall e, validate_trunks r pin numbers trunks m = Err e -> exists i j, e = ConflictingRules i j.
Proof.
  revert m seen. induction trunks as [|t trunks IH]; intros m seen Hk Hn; cbn [validate_trunks mbind list_bind].
  { cbn. by rewrite app_nil_r. }
  destruct (validate_numbers_adds r pin t numbers m seen Hk Hn) as [H1 H2]. destruct (validate_numbers _ _ _ _ _) as [m1|e1].
  - destruct H1 as [H1 H3]. destruct (IH m1 _ H1 H3) as [H4 H5]. split; [|done]. unfold adds in *. by rewrite <- app_assoc in H4.
  - split; [|naive_solver]. unfold adds in *. rewrite app_assoc. by intros [? _]%NoDup_app.
Qed.

Lemma GetPinAndRoom_supported r : GetPinAndRoom r = (rule_room r, rule_pin r, if Rule r then None else Some UnsupportedRule).
Proof. unfold rule_room, rule_pin, GetPinAndRoom. by destruct (Rule r) as [[]|]. Qed.

Lemma validate_rules_adds rules m seen : keys_are m seen -> NoDup seen -> Forall supported rules ->
  match validate_rules rules m with
  | None => NoDup (seen ++ (rules ≫= rule_keys))
  | Some e => ~ NoDup (seen ++ (rules ≫= rule_keys)) /\ exists i j, e = ConflictingRules i j
  end.
Proof.
  revert m seen. induction rules as [|r rules IH]; intros m seen Hk Hn Hs; cbn [validate_rules mbind list_bind].
  { by rewrite app_nil_r. }
  apply Forall_cons in Hs as [Hr Hs]. rewrite GetPinAndRoom_supported. destruct (Rule r) eqn:E; [|by destruct Hr].
  destruct (validate_trunks_adds r (rule_pin r) (or_empty (InboundNumbers r)) (or_empty (TrunkIds r)) m seen Hk Hn) as [H1 H2].
  fold (rule_keys r) in H1. destruct (validate_trunks _ _ _ _ _) as [m1|e1].
  - destruct H1 as [H1 H3]. specialize (IH m1 _ H1 H3 Hs). by rewrite <- app_assoc in IH.
  - unfold adds in H1. rewrite app_assoc. split; [|naive_solver]. by intros [? _]%NoDup_app.
Qed.

(** Rules pass exactly if no two of them, and no rule twice, stand for the
    same combination. *)
Lemma ValidateDispatchRules_spec rules : Forall supported rules ->
  match ValidateDispatchRules rules with
  | None => NoDup (rules ≫= rule_keys)
  | Some e => ~ NoDup (rules ≫= rule_keys) /\ exists i j, e = ConflictingRules i j
  end.
Proof.
  intros Hs. unfold ValidateDispatchRules. destruct rules as [|r rules]; [apply NoDup_nil_2|]. cbn [length Nat.eqb].
  apply (validate_rules_adds (r :: rules) ∅ []); [|apply NoDup_nil_2|done]. intros k. rewrite lookup_empty. split; [by intros []|by intros ?%not_elem_of_nil].
Qed.

(** * The best rule *)

(** What a rule asks of a call apart from its trunk. *)
Definition eligible (req : EvaluateSIPDispatchRulesRequest) (info : SIPDispatchRuleInfo) : Prop :=
  supported info /\
  (InboundNumbers info = [] \/ CallingNumber req ∈ InboundNumbers info) /\
  (NoPin req = true -> rule_pin info = "") /\
  (NoPin req = false -> SentPin req <> "" -> rule_pin info = SentPin req).

Definition names_trunk (trunk : option SIPInboundTrunkInfo) (info : SIPDispatchRuleInfo) : Prop :=
  exists t, trunk = Some t /\ SipTrunkId t ∈ TrunkIds info.

#[export] Instance supported_dec info : Decision (supported info).
Proof. unfold supported. destruct (Rule info); [left; done|right; naive_solver]. Defined.
#[export] Instance eligible_dec req info : Decision (eligible req info).
Proof. unfold eligible. apply _. Defined.
#[export] Instance names_trunk_dec trunk info : Decision (names_trunk trunk info).
Proof.
  destruct trunk as [t|]; [|right; intros (? & ? & ?); done].
  destruct (decide (SipTrunkId t ∈ TrunkIds info)); [left; by exists t|right; intros (? & [= <-] & ?); done].
Defined.

Lemma contains_elem l s : contains l s = true <-> s ∈ l.
Proof. unfold contains. rewrite existsb_exists. setoid_rewrite String.eqb_eq. setoid_rewrite <- list_elem_of_In. naive_solver. Qed.

Definition specific_rules (trunk : option SIPInboundTrunkInfo) (req : EvaluateSIPDispatchRulesRequest) (rules : list SIPDispatchRuleInfo) : list SIPDispatchRuleInfo :=
  filter (fun info => eligible req info /\ names_trunk trunk info) rules.
Definition default_rules (req : EvaluateSIPDispatchRulesRequest) (rules : list SIPDispatchRuleInfo) : list SIPDispatchRuleInfo :=
  filter (fun info => eligible req info /\ TrunkIds info = []) rules.

(** The rules that are looked at: the specific ones if there are any. *)
Definition candidates (trunk : option SIPInboundTrunkInfo) (req : EvaluateSIPDispatchRulesRequest) (rules : list SIPDispatchRuleInfo) : list SIPDispatchRuleInfo :=
  match specific_rules trunk req rules with [] => default_rules req rules | l => l end.

Lemma pin_skip req info : Rule info <> None ->
  (if NoPin req then negb (String.eqb (rule_pin info) "")
   else if negb (String.eqb (SentPin req) "") then
     if String.eqb (rule_pin info) "" then true else negb (String.eqb (SentPin req) (rule_pin info))
   else false) = false <->
  (NoPin req = true -> rule_pin info = "") /\ (NoPin req = false -> SentPin req <> "" -> rule_pin info = SentPin req).
Proof.
  intros _. destruct (NoPin req), (String.eqb_spec (rule_pin info) ""), (String.eqb_spec (SentPin req) ""),
    (String.eqb_spec (SentPin req) (rule_pin info)); cbn; split; intros; naive_solver congruence.
Qed.

Lemma not_eligible trunk req info rules : ~ eligible req info ->
  forall sp df : list SIPDispatchRuleInfo,
  (sp ++ specific_rules trunk req rules, df ++ default_rules req rules) =
  (sp ++ specific_rules trunk req (info :: rules), df ++ default_rules req (info :: rules)).
Proof. intros Hn sp df. unfold specific_rules, default_rules. by rewrite !filter_cons_False by tauto. Qed.

Lemma filter_rules_spec trunk req rules sp df :
  filter_rules trunk req rules sp df = (sp ++ specific_rules trunk req rules, df ++ default_rules req rules).
Proof.
  revert sp df. induction rules as [|info rules IH]; intros sp df; cbn [filter_rules]; unfold specific_rules, default_rules in *.
  { by rewrite !app_nil_r. }
  pose proof (not_eligible trunk req info rules) as Hskip. unfold specific_rules, default_rules in Hskip.
  destruct (negb _ && _) eqn:Enum.
  { rewrite IH. apply Hskip. intros (_ & Hi & _). destruct (contains _ _) eqn:Ec; [by rewrite andb_false_r in Enum|].
    destruct Hi as [Hi|Hi]; [by rewrite Hi in Enum|]. by rewrite (proj2 (contains_elem _ _) Hi) in Ec. }
  rewrite GetPinAndRoom_supported. destruct (Rule info) eqn:Er; [|rewrite IH; apply Hskip; intros (Hs & _); by destruct (Hs Er)].
  assert (Rule info <> None) as Hs by (by rewrite Er). pose proof (pin_skip req info Hs) as Hp.
  destruct (if NoPin req then _ else _).
  { rewrite IH. apply Hskip. intros (_ & _ & H). by apply Hp in H. }
  assert (eligible req info) as He.
  { split; [done|]. split; [|by apply Hp]. destruct (InboundNumbers info); [by left|right]. cbn [length Nat.eqb negb andb] in Enum.
    apply contains_elem. by destruct (contains _ _). }
  destruct (TrunkIds info) as [|i ids] eqn:Et; cbn [length Nat.eqb].
  { rewrite IH, filter_cons_False, filter_cons_True, <- !app_assoc; [done|done|]. intros (_ & t & _ & Hin). rewrite Et in Hin. by apply not_elem_of_nil in Hin. }
  destruct trunk as [t|].
  - destruct (contains (i :: ids) (SipTrunkId t)) eqn:Ec; cbn [negb]; rewrite IH.
    + rewrite filter_cons_True, (filter_cons_False _ (info)), <- !app_assoc; [done| |]; [by rewrite Et; intros []|].
      split; [done|]. exists t. split; [done|]. rewrite Et. by apply contains_elem.
    + rewrite !filter_cons_False; [done| |]; [by rewrite Et; intros []|]. intros (_ & t' & [= <-] & Hin). rewrite Et in Hin. apply contains_elem in Hin. congruence.
  - rewrite IH, !filter_cons_False; [done| |]; [by rewrite Et; intros []|]. by intros (_ & ? & ? & _).
Qed.

(** Nothing comes before [r]: no other rule has a lower number as its priority,
    and none with the same one has a room with a name that is before its. *)
Definition first_among (r : SIPDispatchRuleInfo) (l : list SIPDispatchRuleInfo) : Prop := forall r', r' ∈ l ->
  DispatchRulePriority r < DispatchRulePriority r' \/
  DispatchRulePriority r = DispatchRulePriority r' /\ String.ltb (rule_room r') (rule_room r) = false.

Lemma rule_less_false r r' : rule_less r' r = false <->
  DispatchRulePriority r < DispatchRulePriority r' \/
  DispatchRulePriority r = DispatchRulePriority r' /\ String.ltb (rule_room r') (rule_room r) = false.
Proof.
  unfold rule_less, rule_room. destruct (GetPinAndRoom r') as [[? ?] ?], (GetPinAndRoom r) as [[? ?] ?]. cbn.
  destruct (Z.ltb_spec (DispatchRulePriority r') (DispatchRulePriority r)), (Z.ltb_spec (DispatchRulePriority r) (DispatchRulePriority r')); split; intros;
    naive_solver lia.
Qed.

Section Rules.
Context {S : GoSort} {L : GoSortLaws S}.

Lemma SortDispatchRules_head rules : rules <> [] -> exists r, head (SortDispatchRules rules) = Some r /\ r ∈ rules /\ first_among r rules.
Proof.
  intros Hne. unfold SortDispatchRules. pose proof (sort_permutation rule_less rules rule_less_weak) as Hp.
  pose proof (sort_sorted rule_less rules rule_less_weak) as Hs. destruct (sort_slice rule_less rules) as [|r l].
  { by apply Permutation_nil_l in Hp. }
  exists r. split; [done|]. split; [rewrite <- Hp; left|]. intros r' Hr. apply rule_less_false. rewrite <- Hp in Hr. apply StronglySorted_inv in Hs as [_ Hs].
  rewrite Forall_forall in Hs. apply elem_of_cons in Hr as [->|Hr]; [|by apply Hs]. destruct (rule_less r r) eqn:E; [|done]. by rewrite (less_asym _ rule_less_weak _ _ E) in E.
Qed.

Lemma SelectDispatchRule_spec rules : Forall supported rules ->
  match SelectDispatchRule rules with
  | Ok None => rules = []
  | Ok (Some r) => r ∈ rules /\ first_among r rules /\ NoDup (rules ≫= rule_keys)
  | Err e => ~ NoDup (rules ≫= rule_keys) /\ exists i j, e = ConflictingRules i j
  end.
Proof.
  intros Hs. unfold SelectDispatchRule. destruct rules as [|r rules]; [done|]. cbn [length Nat.eqb]. pose proof (ValidateDispatchRules_spec _ Hs) as Hv.
  destruct (ValidateDispatchRules _); [done|]. destruct (SortDispatchRules_head (r :: rules)) as (r' & -> & ? & ?); done.
Qed.

Lemma eligible_supported (P : SIPDispatchRuleInfo -> Prop) `{!forall x, Decision (P x)} req rules :
  Forall supported (filter (fun info => eligible req info /\ P info) rules).
Proof. apply Forall_forall. intros x. rewrite list_elem_of_filter. by intros [[[? _] _] _]. Qed.

Lemma best_rule_spec trunk rules req :
  let cands := candidates trunk req rules in
  match MatchDispatchRule trunk rules req with
  | Ok r => r ∈ cands /\ first_among r cands /\ NoDup (cands ≫= rule_keys)
  | Err (ErrNoDispatchMatched noRules noTrunks called) =>
      cands = [] /\ noRules = bool_decide (rules = []) /\ noTrunks = bool_decide (trunk = None) /\ called = CalledNumber req
  | Err (ConflictingRules _ _) => ~ NoDup (cands ≫= rule_keys)
  | Err _ => False
  end.
Proof.
  intros cands. unfold MatchDispatchRule. destruct (decide (rules = [])) as [->|Hr].
  { cbn. split; [done|]. by destruct trunk. }
  destruct (Nat.eqb_spec (length rules) 0) as [E|_]; [by apply length_zero_iff_nil in E|].
  rewrite filter_rules_spec. cbn [app]. subst cands. unfold candidates.
  pose proof (SelectDispatchRule_spec (specific_rules trunk req rules)) as H1. pose proof (SelectDispatchRule_spec (default_rules req rules)) as H2.
  specialize (H1 (eligible_supported _ _ _)). specialize (H2 (eligible_supported _ _ _)).
  destruct (SelectDispatchRule (specific_rules _ _ _)) as [[r|]|e].
  - destruct (specific_rules _ _ _); [by destruct H1 as [?%not_elem_of_nil _]|done].
  - rewrite H1. destruct (SelectDispatchRule (default_rules _ _)) as [[r|]|e]; [done| |].
    + rewrite bool_decide_eq_false_2 by done. split; [done|]. by destruct trunk.
    + destruct H2 as [? (i & j & ->)]. done.
  - destruct H1 as [Hn (i & j & ->)]. destruct (specific_rules _ _ _); [|done]. by destruct Hn; apply NoDup_nil_2.
Qed.

(** C13. The rule for a call, among rules that are not restricted to numbers.  The candidates are the rules the
    call is eligible for (those with its pin if it sent one, those without a pin if it refuses to, else all) that
    name its trunk or, if there are none, those that name no trunk.  The result is a first one of them in the order of
    priorities; it is an error exactly if there are none, or if the combinations of pin and
    trunk that the candidates stand for are not all different, those of one candidate
    that names a trunk twice included. *)
Theorem best_rule trunk rules req :
  Forall (fun r => InboundNumbers r = []) rules ->
  let cands := candidates trunk req rules in
  match MatchDispatchRule trunk rules req with
  | Ok r => r ∈ cands /\ first_among r cands /\ NoDup (cands ≫= rule_keys)
  | Err (ErrNoDispatchMatched noRules noTrunks called) =>
      cands = [] /\ noRules = bool_decide (rules = []) /\ noTrunks = bool_decide (trunk = None) /\ called = CalledNumber req
  | Err (ConflictingRules _ _) => ~ NoDup (cands ≫= rule_keys)
  | Err _ => False
  end.
Proof. intros _. apply best_rule_spec. Qed.
End Rules.

Lemma candidates_eligible trunk req rules r : r ∈ candidates trunk req rules -> r ∈ rules /\ eligible req r.
Proof.
  unfold candidates. destruct (specific_rules trunk req rules) eqn:E; [|rewrite <- E]; unfold specific_rules, default_rules;
    rewrite list_elem_of_filter; tauto.
Qed.

(** * The caller *)

Lemma last_chars_spec s n : last_chars s n = None <-> (String.length s < n)%nat.
Proof. unfold last_chars. destruct (Nat.ltb_spec (String.length s) n); split; done || lia. Qed.

Lemma mask_number_None n : mask_number n = None <-> n = "".
Proof.
  unfold mask_number. rewrite last_chars_spec. destruct n as [|c n]; cbn [String.length]; [split; [done|cbn; lia]|].
  split; [|done]. destruct (Nat.leb_spec (S (String.length n)) 4); lia.
Qed.

Lemma substring_tail s k : (k <= String.length s)%nat -> exists pre, s = pre +:+ String.substring (String.length s - k) k s.
Proof.
  revert k. induction s as [|c s IH]; intros k Hk; cbn [String.length] in *.
  - exists "". by replace k with 0%nat by lia.
  - destruct (decide (k = S (String.length s))) as [->|Hne].
    + exists "". replace (S (String.length s) - S (String.length s))%nat with 0%nat by lia. symmetry. apply (substring_all (String c s)).
    + destruct (IH k) as [pre E]; [lia|]. exists (String c pre). replace (S (String.length s) - k)%nat with (S (String.length s - k)) by lia.
      exact (f_equal (String c) E).
Qed.

Lemma substring_length s k : (k <= String.length s)%nat -> String.length (String.substring (String.length s - k) k s) = k.
Proof.
  revert k. induction s as [|c s IH]; intros k Hk; cbn [String.length] in *; [by replace k with 0%nat by lia|].
  destruct (decide (k = S (String.length s))) as [->|Hne].
  - replace (S (String.length s) - S (String.length s))%nat with 0%nat by lia. exact (f_equal String.length (substring_all (String c s))).
  - replace (S (String.length s) - k)%nat with (S (String.length s - k)) by lia. apply IH. lia.
Qed.

(** What is shown of a hidden number is its end: four characters, or one if it
    has no more than four. *)
Lemma mask_number_end n m : mask_number n = Some m ->
  (exists pre, n = pre +:+ m) /\ String.length m = if (String.length n <=? 4)%nat then 1%nat else 4%nat.
Proof.
  unfold mask_number, last_chars. generalize (if (String.length n <=? 4)%nat then 1%nat else 4%nat). intros k.
  destruct (Nat.ltb_spec (String.length n) k); [done|]. intros [= <-]. split; [apply substring_tail; lia|apply substring_length; lia].
Qed.

(** The room of a caller of whom [from] is shown. *)
Definition room_of (newGuid : string) (r : SIPDispatchRuleInfo) (from : string) : string :=
  match Rule r with
  | Some (DispatchRuleIndividual prefix _) => prefix +:+ "_" +:+ from +:+ "_" +:+ newGuid
  | _ => rule_room r
  end.

(** The pin is asked for, or the caller enters the room. *)
Definition asked_for_pin (req : EvaluateSIPDispatchRulesRequest) (r : SIPDispatchRuleInfo) (resp : EvaluateSIPDispatchRulesResponse) : Prop :=
  Result resp = REQUEST_PIN /\ RequestPin resp = true /\ RoomName resp = "" /\ rule_pin r <> "" /\ SentPin req = "" /\ NoPin req = false.
Definition let_in (req : EvaluateSIPDispatchRulesRequest) (r : SIPDispatchRuleInfo) (room : string) (resp : EvaluateSIPDispatchRulesResponse) : Prop :=
  Result resp = ACCEPT /\ RequestPin resp = false /\ RoomName resp = room /\ (rule_pin r = "" \/ rule_pin r = SentPin req).

Lemma evaluate_as_eligible g tid r req from name id attrs : eligible req r -> exists resp,
  evaluate_as g tid r (SentPin req) from name id attrs = Ok resp /\ RespTrunkId resp = tid /\ RespRuleId resp = SipDispatchRuleId r /\
  (asked_for_pin req r resp \/ let_in req r (room_of g r from) resp).
Proof.
  intros (Hs & _ & Hn & Hp). unfold evaluate_as, asked_for_pin, let_in, room_of. rewrite GetPinAndRoom_supported. destruct (Rule r) as [rule|] eqn:E; [|by destruct Hs].
  destruct (String.eqb_spec (rule_pin r) "") as [E1|E1], (String.eqb_spec (SentPin req) "") as [E2|E2]; cbn [negb andb].
  1,2: eexists; split; [done|]; cbn; naive_solver.
  - eexists. split; [done|]. cbn. split; [done|]. split; [done|]. left. destruct (NoPin req); naive_solver.
  - assert (rule_pin r = SentPin req) as E3 by (destruct (NoPin req); naive_solver). rewrite E3, String.eqb_refl. cbn [negb]. eexists. split; [done|]. cbn. naive_solver.
Qed.

(** C14. A rule that was matched never fails: a caller who has not sent the pin of the
    rule is asked for it, any other one is let into the room of the rule, and a
    protected room is entered with its pin only.  The exception is a caller
    without a number whose number is to be hidden: that is a panic. *)
Theorem matched_rule_evaluates {S : GoSort} {L : GoSortLaws S} trunk rules req r g tid : MatchDispatchRule trunk rules req = Ok r ->
  match EvaluateDispatchRule g tid r req with
  | None => HidePhoneNumber r = true /\ CallingNumber req = ""
  | Some (Err _) => False
  | Some (Ok resp) =>
      RespTrunkId resp = tid /\ RespRuleId resp = SipDispatchRuleId r /\
      (asked_for_pin req r resp \/
       exists from, (if HidePhoneNumber r then mask_number (CallingNumber req) else Some (CallingNumber req)) = Some from /\
         let_in req r (room_of g r from) resp)
  end.
Proof.
  intros E. pose proof (best_rule_spec trunk rules req) as H. rewrite E in H. destruct H as [[_ He]%candidates_eligible _].
  unfold EvaluateDispatchRule. destruct (HidePhoneNumber r) eqn:Eh.
  - destruct (mask_number (CallingNumber req)) as [from|] eqn:Em; cbn [mbind option_bind]; [|by apply mask_number_None in Em].
    edestruct (evaluate_as_eligible g tid r req from) as (resp & -> & ? & ? & [?|?]); [done| |]; eauto 10.
  - edestruct (evaluate_as_eligible g tid r req (CallingNumber req)) as (resp & -> & ? & ? & [?|?]); [done| |]; eauto 10.
Qed.

(** A request from another number. *)
Definition calling_from (n : string) (req : EvaluateSIPDispatchRulesRequest) : EvaluateSIPDispatchRulesRequest :=
  {| SipCallId := SipCallId req; SipParticipantId := SipParticipantId req; CallingNumber := n; CalledNumber := CalledNumber req; SrcAddress := SrcAddress req;
     SentPin := SentPin req; NoPin := NoPin req; CalledHost := CalledHost req; ExtraAttributes := ExtraAttributes req |}.

(** With a rule that hides numbers nothing of the caller's number is given away but its
    last four characters (its last one, if it has no more than four) and a part of its hash:
    callers who agree in these two get the same answer, and no attribute has the number. *)
Theorem number_hidden g tid r req n : HidePhoneNumber r = true -> n <> "" ->
  (exists m, mask_number n = Some m /\ (exists pre, n = pre +:+ m) /\ String.length m = if (String.length n <=? 4)%nat then 1%nat else 4%nat) /\
  (forall n', mask_number n' = mask_number n -> hash_number n' = hash_number n ->
     EvaluateDispatchRule g tid r (calling_from n' req) = EvaluateDispatchRule g tid r (calling_from n req)) /\
  (forall resp, EvaluateDispatchRule g tid r (calling_from n req) = Some (Ok resp) -> Result resp = ACCEPT ->
     ParticipantAttributes resp !! AttrSIPPhoneNumber = (ExtraAttributes req ∪ RuleAttributes r) !! AttrSIPPhoneNumber /\
     ParticipantAttributes resp !! AttrSIPTrunkNumber = (ExtraAttributes req ∪ RuleAttributes r) !! AttrSIPTrunkNumber).
Proof.
  intros Hh Hn. split; [|split].
  - destruct (mask_number n) as [m|] eqn:E; [|by apply mask_number_None in E]. exists m. split; [done|]. by apply mask_number_end.
  - intros n' Hm Hx. unfold EvaluateDispatchRule. by rewrite Hh; cbn; rewrite Hm, Hx.
  - intros resp. unfold EvaluateDispatchRule. rewrite Hh. cbn [calling_from CallingNumber SipCallId ExtraAttributes SentPin].
    destruct (mask_number n) as [m|]; [|done]. cbn [mbind option_bind]. unfold evaluate_as. rewrite GetPinAndRoom_supported. intros [= E].
    destruct (Rule r); [|done]. destruct (negb _ && _); [injection E as <-; done|]. destruct (negb _ && _); [done|]. injection E as <-. intros _. cbn [ParticipantAttributes].
    rewrite !lookup_insert_ne by (vm_compute; congruence). done.
Qed.

(** * The trunk of a call *)

Definition accepts (srcIP calling : string) (t : SIPInboundTrunkInfo) : bool :=
  matchNumbers calling (AllowedNumbers t) && matchAddrMasks srcIP (AllowedAddresses t).

(** The numbers of the trunks that accept the call that are the one called. *)
Definition trunk_hits (srcIP calling called : string) (trunks : list SIPInboundTrunkInfo) : list (SIPInboundTrunkInfo * string) :=
  trunks ≫= fun t => if accepts srcIP calling t then pair t <$> filter (fun n => normalizeNumber n = normalizeNumber called) (Numbers t) else [].
(** The trunks for all numbers that accept it. *)
Definition default_hits (srcIP calling : string) (trunks : list SIPInboundTrunkInfo) : list SIPInboundTrunkInfo :=
  filter (fun t => accepts srcIP calling t = true /\ Numbers t = []) trunks.

(** The only one of a list of matches, if there is one and no more. *)
Definition only {A B} (e : sip_error) (f : A -> B) (l : list A) (none : result sip_error (option B)) : result sip_error (option B) :=
  match l with [] => none | [a] => Ok (Some (f a)) | _ => Err e end.

Lemma select_trunk_spec tr called nums sel :
  select_trunk tr called nums sel =
    match sel, filter (fun n => normalizeNumber n = normalizeNumber called) nums with
    | _, [] => Ok sel
    | None, [_] => Ok (Some tr)
    | _, _ => Err (MultipleTrunks called)
    end.
Proof.
  revert sel. induction nums as [|n nums IH]; intros sel; cbn [select_trunk]; [by destruct sel|].
  destruct (String.eqb_spec (normalizeNumber n) (normalizeNumber called)) as [E|E].
  - rewrite filter_cons_True by done. destruct sel; [done|]. rewrite IH. by destruct (filter _ _).
  - rewrite filter_cons_False by done. apply IH.
Qed.

(** What the rest of the loop gives, from what it has selected and counted so far. *)
Lemma match_trunks_spec srcIP calling called trunks sel dt cnt :
  match_trunks srcIP calling called trunks sel dt cnt =
    only (MultipleTrunks called) id (option_list sel ++ (fst <$> trunk_hits srcIP calling called trunks))
      (let ds := default_hits srcIP calling trunks in
       if 1 <? cnt + blen ds then Err (MultipleDefaultTrunks called) else Ok (from_option Some dt (last ds))).
Proof.
  revert sel dt cnt. induction trunks as [|t trunks IH]; intros sel dt cnt; cbn [match_trunks trunk_hits mbind list_bind].
  { rewrite app_nil_r, Z.add_0_r. by destruct sel. }
  fold (trunk_hits srcIP calling called trunks). unfold default_hits. 
  destruct (matchNumbers calling (AllowedNumbers t)) eqn:E1, (matchAddrMasks srcIP (AllowedAddresses t)) eqn:E2; unfold accepts at 1; rewrite E1, E2; cbn [negb andb app].
  2-4: rewrite filter_cons_False by (unfold accepts; rewrite E1, E2; by intros []); apply IH.
  assert (accepts srcIP calling t = true) as Ha by (unfold accepts; by rewrite E1, E2).
  destruct (Numbers t) as [|n ns] eqn:En; cbn [length Nat.eqb].
  - rewrite filter_cons_True by done. rewrite IH. cbn. f_equal. unfold default_hits. set (ds := filter _ trunks).
    replace (cnt + 1 + blen ds) with (cnt + blen (t :: ds)) by (unfold blen; cbn; lia). rewrite last_cons. by destruct (last ds).
  - rewrite (filter_cons_False _ t) by (rewrite En; by intros []). rewrite select_trunk_spec, fmap_app.
    destruct (filter _ (n :: ns)) as [|m1 [|m2 ms]], sel as [s|]; cbn [fmap list_fmap app option_list]; try apply IH; try done.
Qed.

(** The trunk of a call: the one of which exactly one number is the one called; if
    there is none, the one for all numbers. *)
Lemma MatchTrunk_spec trunks srcIP calling called :
  MatchTrunk trunks srcIP calling called =
    only (MultipleTrunks called) fst (trunk_hits srcIP calling called trunks)
      (only (MultipleDefaultTrunks called) id (default_hits srcIP calling trunks) (Ok None)).
Proof.
  unfold MatchTrunk. rewrite match_trunks_spec. cbn [option_list app]. destruct (trunk_hits _ _ _ _) as [|h [|h' l]]; cbn [fmap list_fmap only]; [|done|done].
  destruct (default_hits _ _ _) as [|d [|d' l]]; cbn [only]; [done|done|]. by rewrite (proj2 (Z.ltb_lt _ _)) by (unfold blen; cbn; lia).
Qed.

(** * Trunks without conflicts *)

Definition inbound_keys (t : SIPInboundTrunkInfo) : list string := normalizeNumber <$> or_empty (AllowedNumbers t).
Definition trunk_keys (t : SIPInboundTrunkInfo) : list (string * string) := or_empty (Numbers t) ≫= fun num => pair num <$> inbound_keys t.

Lemma validate_allowed_adds t allowed m seen : keys_are m seen -> NoDup seen -> adds (validate_allowed t allowed m) seen (normalizeNumber <$> allowed).
Proof.
  revert m seen. induction allowed as [|n allowed IH]; intros m seen Hk Hn; cbn [validate_allowed fmap list_fmap].
  { cbn. by rewrite app_nil_r. }
  destruct (m !! _) eqn:E.
  - apply not_NoDup_app, Hk. eexists. exact E.
  - specialize (IH (<[normalizeNumber n := t]> m) (seen ++ [normalizeNumber n])). unfold adds in *. rewrite <- app_assoc in IH. apply IH.
    + by apply keys_insert.
    + apply NoDup_snoc; [done|]. by eapply keys_fresh.
Qed.

Lemma validateTrunkInbound_adds m t seen : keys_are m seen -> NoDup seen -> adds (validateTrunkInbound m t) seen (inbound_keys t).
Proof.
  intros Hk Hn. unfold validateTrunkInbound, inbound_keys, or_empty. destruct (AllowedNumbers t); cbn [length Nat.eqb]; [|by apply validate_allowed_adds].
  cbn [fmap list_fmap]. change (normalizeNumber "") with "". destruct (m !! "") eqn:E.
  - apply not_NoDup_app, Hk. by eexists.
  - split; [by apply keys_insert|]. apply NoDup_snoc; [done|]. by eapply keys_fresh.
Qed.

(** The nested map as one of pairs. *)
Definition pairs_are (m : trunk_map) (l : list (string * string)) : Prop := forall num, keys_are (default ∅ (m !! num)) (snd <$> filter (fun p => p.1 = num) l).

Lemma filter_pairs num num' new : filter (fun p : string * string => p.1 = num') (pair num <$> new) = if decide (num = num') then pair num <$> new else [].
Proof.
  induction new as [|b new IH]; cbn [fmap list_fmap]; [by destruct (decide _)|]. destruct (decide (num = num')) as [E|E].
  - by rewrite filter_cons_True, IH.
  - by rewrite filter_cons_False, IH.
Qed.

Lemma snd_pairs (num : string) (new : list string) : snd <$> (pair num <$> new) = new.
Proof. induction new; cbn; [done|]. by f_equal. Qed.

Lemma elem_of_second num b (l : list (string * string)) : b ∈ snd <$> filter (fun p => p.1 = num) l <-> (num, b) ∈ l.
Proof.
  rewrite list_elem_of_fmap. setoid_rewrite list_elem_of_filter. split.
  - intros ([n' b'] & -> & <- & H). done.
  - intros H. by exists (num, b).
Qed.

Lemma NoDup_second num (l : list (string * string)) : NoDup l -> NoDup (snd <$> filter (fun p => p.1 = num) l).
Proof.
  intros H. apply NoDup_fmap_2_strong; [|by apply NoDup_filter]. intros [a b] [a' b'] [? _]%list_elem_of_filter [? _]%list_elem_of_filter; cbn in *. congruence.
Qed.

Lemma NoDup_pairs num seen new : NoDup seen ->
  NoDup (seen ++ (pair num <$> new)) <-> NoDup ((snd <$> filter (fun p : string * string => p.1 = num) seen) ++ new).
Proof.
  intros Hs. rewrite !NoDup_app. split.
  - intros (_ & H1 & H2). split; [by apply NoDup_second|]. split; [|by eapply NoDup_fmap_1].
    intros b Hb Hin. apply elem_of_second in Hb. apply (H1 _ Hb). by apply list_elem_of_fmap_2.
  - intros (_ & H1 & H2). split; [done|]. split; [|by apply NoDup_fmap_2; [intros ?? [= ?]|]].
    intros p Hp (b & -> & Hb)%list_elem_of_fmap. apply elem_of_second in Hp. by apply (H1 b).
Qed.

(** The loops over trunks: the pairs are added, or one of them was there. *)
Definition adds_pairs (r : result sip_error trunk_map) (seen new : list (string * string)) : Prop :=
  match r with
  | Ok m => pairs_are m (seen ++ new) /\ NoDup (seen ++ new)
  | Err _ => ~ NoDup (seen ++ new)
  end.

Lemma validate_number_adds t num m seen : pairs_are m seen -> NoDup seen -> adds_pairs (validate_number t num m) seen (pair num <$> inbound_keys t).
Proof.
  intros Hk Hn. unfold validate_number, adds_pairs. pose proof (validateTrunkInbound_adds _ t _ (Hk num) (NoDup_second num _ Hn)) as H.
  destruct (validateTrunkInbound _ _) as [m'|e]; [|by rewrite NoDup_pairs]. destruct H as [H1 H2]. split; [|by rewrite NoDup_pairs].
  intros num'. rewrite filter_app, filter_pairs, fmap_app. destruct (decide (num = num')) as [<-|Hne].
  - by rewrite lookup_insert_eq, snd_pairs.
  - rewrite lookup_insert_ne by done. cbn. rewrite app_nil_r. apply Hk.
Qed.

Lemma validate_trunk_numbers_adds t nums m seen : pairs_are m seen -> NoDup seen ->
  adds_pairs (validate_trunk_numbers t nums m) seen (nums ≫= fun num => pair num <$> inbound_keys t).
Proof.
  revert m seen. induction nums as [|num nums IH]; intros m seen Hk Hn; cbn [validate_trunk_numbers mbind list_bind].
  { cbn. by rewrite app_nil_r. }
  pose proof (validate_number_adds t num m seen Hk Hn) as H. destruct (validate_number t num m) as [m'|e].
  - destruct H as [H1 H2]. specialize (IH m' _ H1 H2). unfold adds_pairs in *. by rewrite <- app_assoc in IH.
  - unfold adds_pairs in *. rewrite app_assoc. by intros [? _]%NoDup_app.
Qed.

Lemma validate_all_trunks_spec trunks m seen : pairs_are m seen -> NoDup seen ->
  validate_all_trunks trunks m = None <-> NoDup (seen ++ (trunks ≫= trunk_keys)).
Proof.
  revert m seen. induction trunks as [|t trunks IH]; intros m seen Hk Hn; cbn [validate_all_trunks mbind list_bind].
  { by rewrite app_nil_r. }
  assert (adds_pairs (if (length (Numbers t) =? 0)%nat then validate_number t "" m else validate_trunk_numbers t (Numbers t) m) seen (trunk_keys t)) as H.
  { unfold trunk_keys, or_empty. destruct (length (Numbers t) =? 0)%nat; [|by apply validate_trunk_numbers_adds].
    cbn [mbind list_bind]. rewrite app_nil_r. by apply validate_number_adds. }
  rewrite app_assoc. destruct (if (length _ =? 0)%nat then _ else _) as [m'|e].
  - destruct H. by apply IH.
  - split; [done|]. by intros [? _]%NoDup_app.
Qed.

(** Trunks pass exactly if no two of them, and no trunk twice, have the same pair of a
    number and an allowed number. *)
Lemma ValidateTrunks_spec trunks : ValidateTrunks trunks = None <-> NoDup (trunks ≫= trunk_keys).
Proof.
  unfold ValidateTrunks. destruct trunks as [|t trunks]; [split; [intros _; apply NoDup_nil_2|done]|]. cbn [length Nat.eqb].
  apply (validate_all_trunks_spec (t :: trunks) ∅ []); [|apply NoDup_nil_2]. intros num k. rewrite lookup_empty. cbn. rewrite lookup_empty.
  split; [by intros []|by intros ?%not_elem_of_nil].
Qed.

(** The key under which a trunk would let the caller in. *)
Definition caller_key (calling : string) (t : SIPInboundTrunkInfo) : string := if (length (AllowedNumbers t) =? 0)%nat then "" else normalizeNumber calling.

Lemma accepts_key srcIP calling t : accepts srcIP calling t = true -> caller_key calling t ∈ inbound_keys t.
Proof.
  unfold accepts, matchNumbers, caller_key, inbound_keys, or_empty. intros [H _]%andb_true_iff. destruct (AllowedNumbers t) as [|a l]; [left|].
  cbn [length Nat.eqb] in *. apply existsb_exists in H as (n & Hn & ->%String.eqb_eq). apply list_elem_of_fmap_2. by apply list_elem_of_In.
Qed.

Lemma NoDup_submseteq_l {A} (l k : list A) : l ⊆+ k -> NoDup k -> NoDup l.
Proof. intros [r ->]%submseteq_Permutation H. by apply NoDup_app in H as [? _]. Qed.

Lemma hit_keys srcIP calling called trunks :
  (fun h => (snd h, caller_key calling (fst h))) <$> trunk_hits srcIP calling called trunks ⊆+ trunks ≫= trunk_keys.
Proof.
  induction trunks as [|t trunks IH]; cbn [trunk_hits mbind list_bind]; [done|]. rewrite fmap_app. apply submseteq_app; [|exact IH].
  destruct (accepts srcIP calling t) eqn:Ha; [|apply submseteq_nil_l]. apply accepts_key in Ha. unfold trunk_keys, or_empty.
  destruct (Numbers t) as [|n ns]; [apply submseteq_nil_l|]. cbn [length Nat.eqb]. generalize (n :: ns). clear n ns. intros ns. induction ns as [|n ns IHn]; [done|].
  cbn [mbind list_bind]. destruct (decide (normalizeNumber n = normalizeNumber called)).
  - rewrite filter_cons_True by done. apply (submseteq_app [_]); [|exact IHn]. apply singleton_submseteq_l, list_elem_of_fmap_2, Ha.
  - rewrite filter_cons_False by done. etrans; [exact IHn|]. apply submseteq_inserts_l. done.
Qed.

Lemma default_keys srcIP calling trunks : (fun t => ("", caller_key calling t)) <$> default_hits srcIP calling trunks ⊆+ trunks ≫= trunk_keys.
Proof.
  unfold default_hits. induction trunks as [|t trunks IH]; cbn [mbind list_bind]; [done|].
  destruct (decide (accepts srcIP calling t = true /\ Numbers t = [])) as [D|D].
  - rewrite filter_cons_True by done. apply (submseteq_app [_]); [|exact IH]. destruct D as [Ha E]. unfold trunk_keys. rewrite E. cbn [or_empty length Nat.eqb mbind list_bind].
    rewrite app_nil_r. apply singleton_submseteq_l, list_elem_of_fmap_2. by eapply accepts_key.
  - rewrite filter_cons_False by done. etrans; [exact IH|]. apply submseteq_inserts_l. done.
Qed.

(** Two trunks of which one is open to every caller and the other names this one. *)
Definition open_and_named (t1 t2 : SIPInboundTrunkInfo) : Prop := AllowedNumbers t1 = [] /\ AllowedNumbers t2 <> [].

Lemma different_keys calling t1 t2 : caller_key calling t1 <> caller_key calling t2 -> open_and_named t1 t2 \/ open_and_named t2 t1.
Proof. unfold caller_key, open_and_named. destruct (AllowedNumbers t1), (AllowedNumbers t2); cbn; naive_solver. Qed.

Lemma trunk_hits_elem srcIP calling called trunks t n : (t, n) ∈ trunk_hits srcIP calling called trunks ->
  t ∈ trunks /\ accepts srcIP calling t = true /\ n ∈ Numbers t /\ normalizeNumber n = normalizeNumber called.
Proof.
  unfold trunk_hits. intros (t' & Hin & Ht)%list_elem_of_bind. destruct (accepts srcIP calling t') eqn:Ha; [|by apply not_elem_of_nil in Hin].
  apply list_elem_of_fmap in Hin as (n' & [= -> ->] & [? ?]%list_elem_of_filter). done.
Qed.

(** The trunk is one for the number, or for all numbers. *)
Definition for_number (called : string) (t : SIPInboundTrunkInfo) : Prop := exists n, n ∈ Numbers t /\ normalizeNumber n = normalizeNumber called.

(** C25. Of trunks that pass [ValidateTrunks], with numbers in their normal form, a call
    finds more than one only if one of them is open to every caller and another
    one names this caller. *)
Theorem validated_trunks_conflict trunks srcIP calling called e :
  ValidateTrunks trunks = None -> (forall t n, t ∈ trunks -> n ∈ Numbers t -> normalizeNumber n = n) ->
  MatchTrunk trunks srcIP calling called = Err e ->
  exists t1 t2, t1 ∈ trunks /\ t2 ∈ trunks /\ accepts srcIP calling t1 = true /\ accepts srcIP calling t2 = true /\ open_and_named t1 t2 /\
    (e = MultipleTrunks called /\ for_number called t1 /\ for_number called t2 \/
     e = MultipleDefaultTrunks called /\ Numbers t1 = [] /\ Numbers t2 = []).
Proof.
  intros Hv%ValidateTrunks_spec Hc. rewrite MatchTrunk_spec. pose proof (NoDup_submseteq_l _ _ (hit_keys srcIP calling called trunks) Hv) as H1.
  pose proof (NoDup_submseteq_l _ _ (default_keys srcIP calling trunks) Hv) as H2. pose proof (trunk_hits_elem srcIP calling called trunks) as Hh.
  destruct (trunk_hits _ _ _ _) as [|[t1 n1] [|[t2 n2] l]]; cbn [only]; [|done|].
  - assert (forall t, t ∈ default_hits srcIP calling trunks -> t ∈ trunks /\ accepts srcIP calling t = true /\ Numbers t = []) as Hd.
    { intros t [[? ?] ?]%list_elem_of_filter. done. }
    destruct (default_hits _ _ _) as [|t1 [|t2 l]]; cbn [only]; [done|done|]. intros [= <-]. apply NoDup_cons in H2 as [Hne _].
    destruct (Hd t1) as (? & ? & ?); [left|]. destruct (Hd t2) as (? & ? & ?); [right; left|].
    destruct (different_keys calling t1 t2) as [Ho|Ho]; [|exists t1, t2|exists t2, t1]; [|naive_solver..].
    intros E. apply Hne. rewrite E. left.
  - intros [= <-]. apply NoDup_cons in H1 as [Hne _]. destruct (Hh t1 n1) as (? & ? & Hn1 & E1); [left|]. destruct (Hh t2 n2) as (? & ? & Hn2 & E2); [right; left|].
    assert (n1 = n2) as -> by (rewrite <- (Hc t1 n1), <- (Hc t2 n2) by done; congruence).
    assert (for_number called t1 /\ for_number called t2) as [? ?] by (split; by exists n2).
    destruct (different_keys calling t1 t2) as [Ho|Ho]; [|exists t1, t2|exists t2, t1]; [|naive_solver..].
    intros E. apply Hne. cbn. rewrite E. left.
Qed.

(** * The token of a caller *)

(** The token of a caller carries its identity, name, metadata and attributes, and the right to
    join that room and nothing else, for a day. *)
Lemma sip_token_grants key secret_ room id name meta attrs : let t := sip_token key secret_ room id name meta attrs in
  apiKey t = key /\ secret t = secret_ /\ validFor t = 24 * hour /\
  Identity (grant t) = id /\ Name (grant t) = name /\ Metadata (grant t) = meta /\ Attributes (grant t) = attrs /\ kindToProto (Kind (grant t)) = KindSIP /\
  exists video, Video (grant t) = Some video /\ RoomJoin video = true /\ Room video = room /\ RoomAdmin video = false /\ RoomCreate video = false.
Proof. cbn. rewrite (right_id_L ∅ (∪)). repeat split. by eexists. Qed.

(** * Concrete calls *)

Module TestSip.
(** A merge sort in the place of [sort.Slice]. *)
Definition not_after {A} (less : A -> A -> bool) (a b : A) : Prop := less b a = false.
#[export] Instance not_after_dec {A} (less : A -> A -> bool) : RelDecision (not_after less).
Proof. intros a b. unfold not_after. apply _. Defined.

#[export] Instance merge : GoSort := {| sort_slice A less l := merge_sort (not_after less) l |}.
#[export] Instance merge_laws : GoSortLaws merge.
Proof.
  split; intros A less l H.
  - apply merge_sort_Permutation.
  - assert (Transitive (not_after less)) by (intros a b c H1 H2; by eapply (less_negtrans _ H)).
    assert (Total (not_after less)).
    { intros a b. destruct (less b a) eqn:E; [|by left]. right. by apply (less_asym _ H). }
    apply (StronglySorted_merge_sort (not_after less)).
Defined.

Definition rule (id : string) (r : SIPDispatchRule) (trunks numbers : list string) (hide : bool) : SIPDispatchRuleInfo :=
  {| SipDispatchRuleId := id; Rule := Some r; TrunkIds := trunks; HidePhoneNumber := hide; InboundNumbers := numbers; RuleName := ""; RuleMetadata := "";
     RuleAttributes := ∅ |}.
Definition trunk (id : string) (numbers allowed addrs : list string) : SIPInboundTrunkInfo :=
  {| SipTrunkId := id; TrunkName := ""; TrunkMetadata := ""; Numbers := numbers; AllowedAddresses := addrs; AllowedNumbers := allowed; AuthUsername := "";
     AuthPassword := "" |}.
Definition call (from to pin : string) (nopin : bool) : EvaluateSIPDispatchRulesRequest :=
  {| SipCallId := "call"; SipParticipantId := ""; CallingNumber := from; CalledNumber := to; SrcAddress := ""; SentPin := pin; NoPin := nopin; CalledHost := "";
     ExtraAttributes := ∅ |}.

Definition open_room := rule "open" (DispatchRuleDirect "lobby" "") [] [] false.
Definition pin_room := rule "pin" (DispatchRuleDirect "board" "1234") [] [] true.
Definition own_room := rule "own" (DispatchRuleIndividual "desk" "") ["T"] [] true.
Definition lines := trunk "T" ["+100"] [] ["10.0.0.0/8"].
Definition rules := [open_room; pin_room; own_room].

(** A specific rule goes first, then one with a pin; with a pin only its rule is
    left, and without one only the open ones. *)
Example matched : MatchDispatchRule (Some lines) rules (call "+15551234567" "+100" "" false) = Ok own_room /\
  MatchDispatchRule None rules (call "+15551234567" "+100" "" false) = Ok pin_room /\
  MatchDispatchRule None rules (call "+15551234567" "+100" "1234" false) = Ok pin_room /\
  MatchDispatchRule None rules (call "+15551234567" "+100" "" true) = Ok open_room /\
  MatchDispatchRule None rules (call "+15551234567" "+100" "9" false) = Err (ErrNoDispatchMatched false true "+100").
Proof. repeat split; vm_compute; reflexivity. Qed.

Lemma best_rule_witness : own_room ∈ candidates (Some lines) (call "+15551234567" "+100" "" false) rules /\
  NoDup (candidates (Some lines) (call "+15551234567" "+100" "" false) rules ≫= rule_keys).
Proof.
  pose proof (best_rule (Some lines) rules (call "+15551234567" "+100" "" false) ltac:(repeat constructor)) as H. cbv zeta in H. rewrite (proj1 matched) in H.
  destruct H as (H1 & _ & H2). split; [exact H1|exact H2].
Defined.

Lemma matched_rule_evaluates_witness : exists resp,
  EvaluateDispatchRule "guid" "T" own_room (call "+15551234567" "+100" "" false) = Some (Ok resp) /\ Result resp = ACCEPT /\ RoomName resp = "desk_4567_guid".
Proof.
  pose proof (matched_rule_evaluates (Some lines) rules (call "+15551234567" "+100" "" false) own_room "guid" "T" (proj1 matched)) as H.
  destruct (EvaluateDispatchRule "guid" "T" own_room (call "+15551234567" "+100" "" false)) as [[resp|e]|]; [|destruct H|destruct H as [_ H]; discriminate H].
  exists resp. split; [reflexivity|]. destruct H as (_ & _ & [(_ & _ & _ & H & _)|(from & Hf & H1 & _ & H2 & _)]).
  - exfalso. apply H. reflexivity.
  - split; [exact H1|]. rewrite H2. vm_compute in Hf. injection Hf as <-. reflexivity.
Defined.

Lemma number_hidden_witness : exists m, mask_number "+15551234567" = Some m /\ String.length m = 4%nat.
Proof.
  destruct (number_hidden "guid" "T" own_room (call "" "+100" "" false) "+15551234567") as [(m & H1 & _ & H2) _]; [reflexivity|discriminate|].
  exists m. split; [exact H1|]. rewrite H2. reflexivity.
Defined.

(** A hidden number that is not there is a panic. *)
Example empty_number_panics : MatchDispatchRule None rules (call "" "+100" "1234" false) = Ok pin_room /\
  EvaluateDispatchRule "guid" "T" pin_room (call "" "+100" "1234" false) = None.
Proof. split; vm_compute; reflexivity. Qed.

(** Trunks that pass and leave a call without a trunk: one of them is for every
    caller, the other for this one. *)
Definition competing := [trunk "A" ["+100"] [] []; trunk "B" ["+100"] ["+7"] []].

Example competing_fail : ValidateTrunks competing = None /\ MatchTrunk competing "10.0.0.1" "+7" "+100" = Err (MultipleTrunks "+100") /\
  MatchTrunk competing "10.0.0.1" "+8" "+100" = Ok (Some (trunk "A" ["+100"] [] [])).
Proof. repeat split; vm_compute; reflexivity. Qed.

Lemma validated_trunks_conflict_witness : exists t1 t2, t1 ∈ competing /\ t2 ∈ competing /\ open_and_named t1 t2.
Proof.
  destruct (validated_trunks_conflict competing "10.0.0.1" "+7" "+100" (MultipleTrunks "+100")) as (t1 & t2 & H1 & H2 & _ & _ & H3 & _);
    [vm_compute; reflexivity| |vm_compute; reflexivity|exists t1, t2; done].
  intros t n [->|[->|[]%not_elem_of_nil]%elem_of_cons]%elem_of_cons [->|[]%not_elem_of_nil]%elem_of_cons; reflexivity.
Defined.

(** The same number in two forms passes, and is in conflict when it is called; a trunk
    with one number in both forms is in conflict with itself. *)
Example two_forms : ValidateTrunks [trunk "A" ["+100"] [] []; trunk "B" ["100"] [] []] = None /\
  MatchTrunk [trunk "A" ["+100"] [] []; trunk "B" ["100"] [] []] "" "+7" "100" = Err (MultipleTrunks "100") /\
  ValidateTrunks [trunk "A" ["+100"; "100"] [] []] = None /\ MatchTrunk [trunk "A" ["+100"; "100"] [] []] "" "+7" "100" = Err (MultipleTrunks "100").
Proof. repeat split; vm_compute; reflexivity. Qed.

(** The caller's number has to be written as it is in the rule. *)
Example inbound_form : MatchDispatchRule None [rule "r" (DispatchRuleDirect "lobby" "") [] ["15551234567"] false] (call "+15551234567" "+100" "" false) =
    Err (ErrNoDispatchMatched false true "+100") /\
  ValidateDispatchRules [rule "r" (DispatchRuleDirect "a" "") [] ["7"] false; rule "s" (DispatchRuleDirect "b" "") [] ["+7"] false] = Some (ConflictingRules "s" "r").
Proof. split; vm_compute; reflexivity. Qed.
End TestSip.
