(* ===== verification/LkGuid.v ===== *)
(** LiveKit's identifiers (livekit-protocol/utils/guid/id.go): a prefix and
    twelve random characters of an alphabet of 57, and the nine bytes an identifier is
    packed into.

    The alphabet is that of the package shortuuid, a parameter of which its
    documentation says that it has 57 different characters.  The random
    numbers are a stream, of which [fuel] bounds how many are drawn: a number
    may be of no use, and [guid_drawn] says how many are enough. *)

From S2P Require Import Prelude.

#[local] Open Scope list_scope.
#[local] Open Scope Z_scope.

Definition Size : nat := 12.
Definition RoomPrefix : bytes := [82; 77; 95].
Definition ParticipantPrefix : bytes := [80; 65; 95].
Definition TrackPrefix : bytes := [84; 82; 95].

(** [livekit.Guid]: the three types of identifiers. *)
Inductive Guid := TrackID | ParticipantID | RoomID.
Definition guidPrefix (t : Guid) : bytes :=
  match t with TrackID => TrackPrefix | ParticipantID => ParticipantPrefix | RoomID => RoomPrefix end.

(** What is used of shortuuid. *)
Class Alphabet := { b57Chars : bytes }.
Class AlphabetLaws (A : Alphabet) := {
  b57_length : length b57Chars = 57%nat;
  b57_distinct : NoDup b57Chars;
  b57_bytes : bytes_ok b57Chars;
}.

Section Guids.
Context {A : Alphabet}.

(** [newB57Index]: an array of 256 bytes. *)
Fixpoint index_loop (i : nat) (chars : bytes) (index : bytes) : bytes :=
  match chars with
  | [] => index
  | c :: chars => index_loop (S i) chars (<[Z.to_nat c := u8 (Z.of_nat i)]> index)
  end.
Definition newB57Index : bytes := index_loop 0 b57Chars (replicate 256 0).
Definition b57Index (c : Z) : Z := byte_at newB57Index (Z.to_nat c).

(** ** Random identifiers *)

(** The ten sextets of one random number: the characters so far, until there
    are [len]; [true] if there are. *)
Fixpoint read_sextets (i : nat) (r : Z) (len : nat) (b : bytes) : bool * bytes :=
  match i with
  | O => (false, b)
  | S i =>
      let x := Z.land r 63 in
      if x <? blen b57Chars then
        let b := b ++ [byte_at b57Chars (Z.to_nat x)] in
        if (length b =? len)%nat then (true, b) else read_sextets i (Z.shiftr r 6) len b
      else read_sextets i (Z.shiftr r 6) len b
  end.

(** [readIDChars]; [k] numbers have been drawn. *)
Fixpoint readIDChars (fuel : nat) (rng : nat -> Z) (k : nat) (len : nat) (b : bytes) : option bytes :=
  match fuel with
  | O => None
  | S fuel =>
      match read_sextets 10 (rng k) len b with
      | (true, b) => Some b
      | (false, b) => readIDChars fuel rng (S k) len b
      end
  end.

Definition New (fuel : nat) (rng : nat -> Z) (prefix : bytes) : option bytes :=
  (fun b => prefix ++ b) <$> readIDChars fuel rng 0 Size [].

(** ** Packed identifiers *)

(** Three bytes for four characters. *)
Definition pack (a b c d : Z) : bytes :=
  [Z.lor (u8 (Z.shiftl (b57Index a) 2)) (Z.shiftr (b57Index b) 4);
   Z.lor (u8 (Z.shiftl (b57Index b) 4)) (Z.shiftr (b57Index c) 2);
   Z.lor (u8 (Z.shiftl (b57Index c) 6)) (b57Index d)].

(** [Marshal]; an identifier of less than twelve bytes is a panic. *)
Definition Marshal (id : bytes) : option bytes :=
  if (length id <? Size)%nat then None
  else
    match drop (length id - Size) id with
    | [a0; a1; a2; a3; a4; a5; a6; a7; a8; a9; a10; a11] => Some (pack a0 a1 a2 a3 ++ pack a4 a5 a6 a7 ++ pack a8 a9 a10 a11)
    | _ => None
    end.

(** Four characters from three bytes; an index outside the alphabet is a panic. *)
Definition unpack (x y z : Z) : option bytes :=
  a ← b57Chars !! Z.to_nat (Z.shiftr x 2);
  b ← b57Chars !! Z.to_nat (Z.lor (Z.shiftl (Z.land x 3) 4) (Z.shiftr y 4));
  c ← b57Chars !! Z.to_nat (Z.lor (Z.shiftl (Z.land y 15) 2) (Z.shiftr z 6));
  d ← b57Chars !! Z.to_nat (Z.land z 63);
  Some [a; b; c; d].

(** [Unmarshal] of the nine bytes of a [GuidBlock]. *)
Definition Unmarshal (t : Guid) (b : bytes) : option bytes :=
  match b with
  | [x0; x1; x2; x3; x4; x5; x6; x7; x8] =>
      s0 ← unpack x0 x1 x2; s1 ← unpack x3 x4 x5; s2 ← unpack x6 x7 x8;
      Some (guidPrefix t ++ s0 ++ s1 ++ s2)
  | _ => None
  end.

(** ** What is drawn *)

(** The sextets of a number, the last first. *)
Fixpoint sextets_of (i : nat) (r : Z) : list Z :=
  match i with O => [] | S i => Z.land r 63 :: sextets_of i (Z.shiftr r 6) end.

(** The characters of a stream of numbers: those of the sextets that are in
    the alphabet. *)
Definition useful (l : list Z) : bytes := (fun x => byte_at b57Chars (Z.to_nat x)) <$> filter (fun x => x < blen b57Chars) l.
Definition drawn (rng : nat -> Z) (k n : nat) : bytes := seq k n ≫= fun j => useful (sextets_of 10 (rng j)).

Lemma read_sextets_spec i r len b : (length b < len)%nat ->
  let all := b ++ useful (sextets_of i r) in
  read_sextets i r len b = if (len <=? length all)%nat then (true, take len all) else (false, all).
Proof.
  revert r b. induction i as [|i IH]; intros r b Hb; cbn [read_sextets sextets_of]; cbn zeta.
  { change (useful []) with (@nil Z). rewrite app_nil_r. destruct (Nat.leb_spec len (length b)); [lia|done]. }
  unfold useful in *. destruct (Z.ltb_spec (Z.land r 63) (blen b57Chars)) as [Hx|Hx].
  - rewrite filter_cons_True by done. cbn [fmap list_fmap]. set (c := byte_at _ _). set (l := _ <$> filter _ (sextets_of i _)).
    replace (b ++ c :: l) with ((b ++ [c]) ++ l) by (by rewrite <- app_assoc).
    destruct (Nat.eqb_spec (length (b ++ [c])) len) as [E|E].
    + rewrite (proj2 (Nat.leb_le _ _)) by (rewrite (length_app (b ++ [c])); lia). by rewrite take_app_le, take_ge by lia.
    + apply IH. rewrite length_app in *. cbn in *. lia.
  - rewrite filter_cons_False by lia. by apply IH.
Qed.

Lemma readIDChars_spec fuel rng k len b : (length b < len)%nat -> (len <= length (b ++ drawn rng k fuel))%nat ->
  readIDChars fuel rng k len b = Some (take len (b ++ drawn rng k fuel)).
Proof.
  revert k b. induction fuel as [|fuel IH]; intros k b Hb Hl.
  { unfold drawn in Hl. cbn in Hl. rewrite app_nil_r in Hl. lia. }
  assert (drawn rng k (S fuel) = useful (sextets_of 10 (rng k)) ++ drawn rng (S k) fuel) as Ed by done. rewrite Ed, app_assoc in *.
  cbn [readIDChars]. rewrite read_sextets_spec by done. set (all := b ++ useful _) in *. destruct (Nat.leb_spec len (length all)) as [H|H].
  - by rewrite take_app_le by lia.
  - by apply IH.
Qed.

(** ** Round trips *)

Context {L : AlphabetLaws A}.

Lemma index_loop_length i chars index : length (index_loop i chars index) = length index.
Proof. revert i index. induction chars; intros; cbn; [done|]. by rewrite IHchars, length_insert. Qed.

Lemma index_loop_other i chars index c : c ∉ chars -> bytes_ok (c :: chars) -> byte_at (index_loop i chars index) (Z.to_nat c) = byte_at index (Z.to_nat c).
Proof.
  revert i index. induction chars as [|d chars IH]; intros i index Hc Hb; cbn [index_loop]; [done|].
  rewrite not_elem_of_cons in Hc. rewrite !Forall_cons in Hb. destruct Hb as (Hc' & Hd & Hb). rewrite IH; [|tauto|by constructor].
  unfold byte_at. rewrite !nth_lookup, list_lookup_insert_ne; [done|]. unfold byte_ok in *. lia.
Qed.

Lemma index_loop_at i chars index j c : chars !! j = Some c -> NoDup chars -> bytes_ok chars -> length index = 256%nat -> (i + length chars <= 256)%nat ->
  byte_at (index_loop i chars index) (Z.to_nat c) = Z.of_nat (i + j).
Proof.
  revert i index j. induction chars as [|d chars IH]; intros i index j Hj Hn Hb Hi Hl; [done|]. apply NoDup_cons in Hn as [Hd Hn].
  rewrite Forall_cons in Hb. destruct Hb as [Hb0 Hb]. cbn [length] in Hl. cbn [index_loop]. destruct j as [|j]; cbn in Hj.
  - injection Hj as ->. rewrite index_loop_other by (done || by constructor). unfold byte_at. rewrite nth_lookup, list_lookup_insert_eq; cbn.
    + rewrite Nat.add_0_r. apply Z.mod_small. lia.
    + unfold byte_ok in Hb0. lia.
  - rewrite IH with (j := j); [lia|done|done|done|by rewrite length_insert|lia].
Qed.

(** The index is the inverse of the alphabet. *)
Lemma b57Index_at j c : b57Chars !! j = Some c -> b57Index c = Z.of_nat j.
Proof.
  intros Hj. unfold b57Index, newB57Index. rewrite (index_loop_at _ _ _ j); [done|done|apply b57_distinct|apply b57_bytes|done|]. rewrite b57_length. lia.
Qed.

Lemma b57Index_elem c : c ∈ b57Chars -> exists j, b57Chars !! j = Some c /\ b57Index c = Z.of_nat j /\ (j < 57)%nat.
Proof. intros [j Hj]%list_elem_of_lookup. exists j. split; [done|]. split; [by apply b57Index_at|]. rewrite <- b57_length. by eapply lookup_lt_Some. Qed.

(** Two sextets, checked one by one. *)
Lemma sextets_ind (P : Z -> Z -> bool) : forallb (fun a => forallb (fun b => P (Z.of_nat a) (Z.of_nat b)) (seq 0 64)) (seq 0 64) = true ->
  forall a b, (a < 64)%nat -> (b < 64)%nat -> P (Z.of_nat a) (Z.of_nat b) = true.
Proof. intros H a b Ha Hb. rewrite forallb_forall in H. specialize (H a). rewrite forallb_forall in H. apply H; apply in_seq; lia. Qed.

Lemma pack_bits a b : (a < 64)%nat -> (b < 64)%nat ->
  let a := Z.of_nat a in let b := Z.of_nat b in
  let x := Z.lor (u8 (Z.shiftl a 2)) (Z.shiftr b 4) in let y := Z.lor (u8 (Z.shiftl a 4)) (Z.shiftr b 2) in let z := Z.lor (u8 (Z.shiftl a 6)) b in
  Z.shiftr x 2 = a /\ Z.lor (Z.shiftl (Z.land x 3) 4) (Z.land b 15) = b /\
  Z.shiftr y 4 = Z.land a 15 /\ Z.lor (Z.shiftl (Z.land y 15) 2) (Z.land b 3) = b /\
  Z.shiftr z 6 = Z.land a 3 /\ Z.land z 63 = b.
Proof.
  intros Ha Hb. pose proof (sextets_ind (fun a b =>
    let x := Z.lor (u8 (Z.shiftl a 2)) (Z.shiftr b 4) in let y := Z.lor (u8 (Z.shiftl a 4)) (Z.shiftr b 2) in let z := Z.lor (u8 (Z.shiftl a 6)) b in
    (Z.shiftr x 2 =? a) && (Z.lor (Z.shiftl (Z.land x 3) 4) (Z.land b 15) =? b) && (Z.shiftr y 4 =? Z.land a 15) &&
    (Z.lor (Z.shiftl (Z.land y 15) 2) (Z.land b 3) =? b) && (Z.shiftr z 6 =? Z.land a 3) && (Z.land z 63 =? b)) ltac:(vm_compute; reflexivity) a b Ha Hb) as H.
  cbn zeta in *. rewrite !andb_true_iff, !Z.eqb_eq in H. tauto.
Qed.

Lemma unpack_pack a b c d : a ∈ b57Chars -> b ∈ b57Chars -> c ∈ b57Chars -> d ∈ b57Chars ->
  exists x y z, pack a b c d = [x; y; z] /\ unpack x y z = Some [a; b; c; d].
Proof.
  intros (i & Hi & Ei & Li)%b57Index_elem (j & Hj & Ej & Lj)%b57Index_elem (k & Hk & Ek & Lk)%b57Index_elem (l & Hl & El & Ll)%b57Index_elem.
  unfold pack. rewrite Ei, Ej, Ek, El. do 3 eexists. split; [done|]. unfold unpack.
  destruct (pack_bits i j) as (E1 & E2 & _); [lia|lia|]. destruct (pack_bits j k) as (_ & _ & E3 & E4 & _); [lia|lia|].
  destruct (pack_bits k l) as (_ & _ & _ & _ & E5 & E6); [lia|lia|]. cbn zeta in *. rewrite E1, E3, E2, E5, E4, E6, !Nat2Z.id, Hi, Hj, Hk, Hl. done.
Qed.

(** An identifier that is packed into nine bytes is unpacked as it was. *)
Theorem guid_roundtrip t chars : length chars = Size -> Forall (fun c => c ∈ b57Chars) chars ->
  exists b, Marshal (guidPrefix t ++ chars) = Some b /\ length b = 9%nat /\ Unmarshal t b = Some (guidPrefix t ++ chars).
Proof.
  intros Hl Hc. unfold Marshal. rewrite length_app, (proj2 (Nat.ltb_ge _ _)) by lia.
  replace (length (guidPrefix t) + length chars - Size)%nat with (length (guidPrefix t)) by lia. rewrite drop_app_length.
  do 12 (destruct chars as [|? chars]; [done|]). destruct chars; [|done]. rewrite !Forall_cons in Hc. destruct_and!.
  destruct (unpack_pack z z0 z1 z2) as (? & ? & ? & -> & E1); [done..|]. destruct (unpack_pack z3 z4 z5 z6) as (? & ? & ? & -> & E2); [done..|].
  destruct (unpack_pack z7 z8 z9 z10) as (? & ? & ? & -> & E3); [done..|]. eexists. split; [done|]. split; [done|]. unfold Unmarshal. cbn [app].
  by rewrite E1, E2, E3.
Qed.

Lemma drawn_chars rng k n : (forall j, 0 <= rng j) -> Forall (fun c => c ∈ b57Chars) (drawn rng k n).
Proof.
  intros Hr. unfold drawn, useful. apply Forall_forall. intros c (j & Hc & _)%list_elem_of_bind. apply list_elem_of_fmap in Hc as (x & -> & [Hx Hin]%list_elem_of_filter).
  assert (0 <= x).
  { clear Hx. pose proof (Hr j) as Hj. revert Hin Hj. generalize (rng j), 10%nat. intros r i. revert r. induction i as [|i IH]; intros r Hin Hj; [by apply not_elem_of_nil in Hin|].
    cbn in Hin. apply elem_of_cons in Hin as [->|Hin]; [apply Z.land_nonneg; lia|]. apply (IH _ Hin). by apply Z.shiftr_nonneg. }
  unfold byte_at. rewrite nth_lookup. unfold blen in Hx. destruct (lookup_lt_is_Some_2 b57Chars (Z.to_nat x)) as [c Ec]; [lia|]. rewrite Ec. by eapply list_elem_of_lookup_2.
Qed.

(** A new identifier is its prefix and the first twelve useful characters of
    the random numbers, as soon as they have that many. *)
Theorem guid_drawn fuel rng prefix : (forall j, 0 <= rng j) -> (Size <= length (drawn rng 0 fuel))%nat ->
  exists chars, New fuel rng prefix = Some (prefix ++ chars) /\ chars = take Size (drawn rng 0 fuel) /\ length chars = Size /\ Forall (fun c => c ∈ b57Chars) chars.
Proof.
  intros Hr Hl. exists (take Size (drawn rng 0 fuel)). unfold New. rewrite readIDChars_spec; [|unfold Size; cbn; lia|done]. split; [done|]. split; [done|].
  split; [by apply length_take_le|]. by apply Forall_take, drawn_chars.
Qed.
End Guids.

(** * Concrete identifiers *)

Module TestGuid.
(** The digits and letters without 0, 1, I, O and l. *)
#[export] Instance base57 : Alphabet := {| b57Chars := (Z.of_nat <$> (seq 50 8 ++ seq 65 8 ++ seq 74 5 ++ seq 80 11 ++ seq 97 11 ++ seq 109 14)) |}.
#[export] Instance base57_laws : AlphabetLaws base57.
Proof.
  split; [reflexivity| |].
  - apply (bool_decide_unpack _). vm_compute. exact I.
  - repeat constructor; vm_compute; congruence.
Defined.

Definition some_chars : bytes := take 12 b57Chars.

Lemma guid_roundtrip_witness : exists b, Marshal (TrackPrefix ++ some_chars) = Some b /\ Unmarshal TrackID b = Some (TrackPrefix ++ some_chars).
Proof.
  destruct (guid_roundtrip TrackID some_chars) as (b & H1 & _ & H2); [reflexivity| |exists b; split; [exact H1|exact H2]].
  apply Forall_take, Forall_forall. done.
Defined.

(** A stream of which every other number is of no use. *)
Definition some_rng (k : nat) : Z := if Nat.even k then 2 ^ 64 - 1 else 12345678901234567890.

Lemma guid_drawn_witness : exists chars, New 4 some_rng RoomPrefix = Some (RoomPrefix ++ chars) /\ length chars = 12%nat.
Proof.
  destruct (guid_drawn 4 some_rng RoomPrefix) as (chars & H1 & _ & H2 & _); [|vm_compute; lia|exists chars; split; [exact H1|exact H2]].
  intros j. unfold some_rng. destruct (Nat.even j); lia.
Defined.

(** A block that is not of an identifier is a panic. *)
Example foreign_block_panics : Unmarshal RoomID (replicate 9 255) = None /\ Marshal (replicate 11 50) = None.
Proof. split; reflexivity. Qed.
End TestGuid.
