(* ===== verification/LkRate.v ===== *)
(** Two small components of livekit-protocol/utils: the leaky bucket (rate.go) and
    the list of the latest different values (dedupedslice.go).

    Instants are nanoseconds; a duration is kept at its 64 bits and the difference
    of two instants saturates, as in Go's package time.  The mutex makes every
    [Take] one step. *)

From S2P Require Import Prelude.

#[local] Open Scope list_scope.
#[local] Open Scope Z_scope.

(** * The leaky bucket *)

(** [Time.Sub]. *)
Definition Sub (a b : Z) : Z := Z.max (- 2 ^ 63) (Z.min (2 ^ 63 - 1) (a - b)).

Record leakyBucketConfig := { perRequest : Z; maxSlack : Z }.

(** [last] is [None] for the zero time. *)
Record LeakyBucket := { last : option Z; sleepFor : Z; cfg : leakyBucketConfig }.

(** The configuration of a rate and a slack; [None] is a division by zero.  Go's
    division truncates. *)
Definition config_of (rateLimit slack : Z) : option leakyBucketConfig :=
  if rateLimit =? 0 then None
  else
    let per := Z.quot second rateLimit in
    Some {| perRequest := per; maxSlack := i64 (i64 (-1 * slack) * per) |}.

Definition Update (rateLimit slack : Z) (lb : LeakyBucket) : option LeakyBucket :=
  (fun c => {| last := last lb; sleepFor := sleepFor lb; cfg := c |}) <$> config_of rateLimit slack.

Definition NewLeakyBucket (rateLimit slack : Z) : option LeakyBucket :=
  Update rateLimit slack {| last := None; sleepFor := 0; cfg := {| perRequest := 0; maxSlack := 0 |} |}.

(** [Take] at the time [now]: what it returns, how long it sleeps and the bucket. *)
Definition Take (now : Z) (lb : LeakyBucket) : Z * Z * LeakyBucket :=
  match last lb with
  | None => (now, 0, {| last := Some now; sleepFor := sleepFor lb; cfg := cfg lb |})
  | Some l =>
      let s := i64 (sleepFor lb + i64 (perRequest (cfg lb) - Sub now l)) in
      let s := if s <? maxSlack (cfg lb) then maxSlack (cfg lb) else s in
      if 0 <? s then (now + s, s, {| last := Some (now + s); sleepFor := 0; cfg := cfg lb |})
      else (now, 0, {| last := Some now; sleepFor := s; cfg := cfg lb |})
  end.

(** Calls one after the other: a [Take] at its time, an [Update]. *)
Inductive op := OTake (now : Z) | OUpdate (rateLimit slack : Z).

Fixpoint run (ops : list op) (lb : LeakyBucket) : option (list Z) :=
  match ops with
  | [] => Some []
  | OTake now :: ops => let '(t, _, lb) := Take now lb in cons t <$> run ops lb
  | OUpdate r s :: ops => Update r s lb ≫= run ops
  end.

(** A clock that a sleep moves on by at least its length, and that no two calls
    read more than a century apart; rates and slacks in range. *)
Fixpoint ops_ok (ops : list op) (lb : LeakyBucket) : Prop :=
  match ops with
  | [] => True
  | OTake now :: ops =>
      (forall l, last lb = Some l -> l <= now <= l + 2 ^ 61) /\ ops_ok ops (snd (Take now lb))
  | OUpdate r s :: ops =>
      0 < r /\ 0 <= s <= 2 ^ 30 /\ forall lb', Update r s lb = Some lb' -> ops_ok ops lb'
  end.

(** Takes at one rate. *)
Fixpoint takes (nows : list Z) (lb : LeakyBucket) : list Z :=
  match nows with
  | [] => []
  | now :: nows => let '(t, _, lb) := Take now lb in t :: takes nows lb
  end.

(** A clock that a sleep moves on by at least its length, and that no two calls
    read more than a century apart. *)
Fixpoint clock_ok (nows : list Z) (lb : LeakyBucket) : Prop :=
  match nows with
  | [] => True
  | now :: nows => (forall l, last lb = Some l -> l <= now <= l + 2 ^ 61) /\ clock_ok nows (snd (Take now lb))
  end.

(** A rate of at least one in a second and at most so many at once. *)
Definition bucket_ok (rate slack : Z) (lb : LeakyBucket) : Prop :=
  perRequest (cfg lb) = second / rate /\ maxSlack (cfg lb) = - (slack * (second / rate)) /\
  maxSlack (cfg lb) <= sleepFor lb <= 0 /\ (last lb = None -> sleepFor lb = 0).

Section Bucket.
Context (rate slack : Z) (Hrate : 0 < rate) (Hslack : 0 <= slack <= 2 ^ 30).

Lemma per_range : 0 <= second / rate <= second.
Proof. split; [apply Z.div_pos; unfold second; lia|]. apply Z.div_le_upper_bound; unfold second; lia. Qed.

Lemma slack_range : 0 <= slack * (second / rate) <= 2 ^ 60.
Proof. pose proof per_range. unfold second in *. nia. Qed.

Lemma NewLeakyBucket_ok : exists lb, NewLeakyBucket rate slack = Some lb /\ bucket_ok rate slack lb /\ last lb = None.
Proof.
  unfold NewLeakyBucket, Update, config_of. rewrite (proj2 (Z.eqb_neq _ _)) by lia. eexists. split; [done|]. split; [|done].
  pose proof per_range. pose proof slack_range. unfold bucket_ok. cbn [perRequest maxSlack cfg sleepFor last]. rewrite Z.quot_div_nonneg by (unfold second; lia).
  rewrite (i64_small (-1 * slack)) by lia. rewrite i64_small by lia. lia.
Qed.

(** One [Take]: it returns no earlier than it was called, no later than a period
    after the one before, and what is saved of the period is owed. *)
Lemma Take_spec now lb l : bucket_ok rate slack lb -> last lb = Some l -> l <= now <= l + 2 ^ 61 ->
  let '(t, slept, lb') := Take now lb in
  bucket_ok rate slack lb' /\ last lb' = Some t /\ cfg lb' = cfg lb /\ t = now + slept /\ 0 <= slept /\
  t <= Z.max now (l + second / rate) /\ second / rate + sleepFor lb - sleepFor lb' <= t - l.
Proof.
  intros (Hp & Hm & Hs & _) Hl Hn. pose proof per_range as Hr. pose proof slack_range as Hr2. unfold Take. rewrite Hl.
  assert (Sub now l = now - l) as -> by (unfold Sub; lia). unfold second in *.
  rewrite (i64_small (perRequest (cfg lb) - _)) by lia. rewrite i64_small by lia. unfold bucket_ok, second.
  destruct (Z.ltb_spec (sleepFor lb + (perRequest (cfg lb) - (now - l))) (maxSlack (cfg lb)));
    (match goal with |- context [0 <? ?s] => destruct (Z.ltb_spec 0 s) end); cbn [cfg last sleepFor perRequest maxSlack]; repeat split; try done; try lia.
Qed.

Lemma Take_first now lb : bucket_ok rate slack lb -> last lb = None ->
  exists lb', Take now lb = (now, 0, lb') /\ bucket_ok rate slack lb' /\ last lb' = Some now.
Proof. intros (Hp & Hm & Hs & _) Hl. unfold Take. rewrite Hl. eexists. split; [done|]. done. Qed.

Lemma Take_ok now lb : bucket_ok rate slack lb -> (forall l, last lb = Some l -> l <= now <= l + 2 ^ 61) ->
  exists t slept lb', Take now lb = (t, slept, lb') /\ bucket_ok rate slack lb' /\ last lb' = Some t.
Proof.
  intros Hb Hn. destruct (last lb) as [l|] eqn:El.
  - pose proof (Take_spec now lb l Hb El (Hn l eq_refl)) as H. destruct (Take now lb) as [[t1 s1] lb1]. destruct H as (? & ? & _). by do 3 eexists.
  - destruct (Take_first now lb Hb El) as (lb1 & -> & ? & ?). by do 3 eexists.
Qed.

(** The [j]th time after [l]. *)
Lemma takes_after nows lb l j t : bucket_ok rate slack lb -> last lb = Some l -> clock_ok nows lb -> takes nows lb !! j = Some t ->
  (Z.of_nat j + 1) * (second / rate) + sleepFor lb <= t - l.
Proof.
  revert lb l j. induction nows as [|now nows IH]; intros lb l j Hb Hl Hc Hj; [done|]. destruct Hc as [Hn Hc]. cbn [takes] in Hj.
  pose proof (Take_spec now lb l Hb Hl (Hn l Hl)) as H. destruct (Take now lb) as [[t1 s1] lb1]. destruct H as (Hb1 & Hl1 & _ & _ & _ & _ & Hd).
  destruct j as [|j]; cbn in Hj.
  - injection Hj as ->. destruct Hb1 as (_ & _ & [_ H0] & _). lia.
  - specialize (IH lb1 t1 j Hb1 Hl1 Hc Hj). lia.
Qed.

(** The time a state can have at the [i]th take of a run. *)
Lemma takes_window nows lb i j ti tj : bucket_ok rate slack lb -> clock_ok nows lb -> (i < j)%nat ->
  takes nows lb !! i = Some ti -> takes nows lb !! j = Some tj ->
  (Z.of_nat j - Z.of_nat i - slack) * (second / rate) <= tj - ti.
Proof.
  revert lb i j. induction nows as [|now nows IH]; intros lb i j Hb Hc Hij Hi Hj; [done|]. destruct Hc as [Hn Hc]. cbn [takes] in Hi, Hj.
  destruct (Take_ok now lb Hb Hn) as (t1 & s1 & lb1 & E & Hb1 & Hl1). rewrite E in *. cbn [snd] in Hc. destruct j as [|j]; [lia|]. cbn in Hj. destruct i as [|i]; cbn in Hi.
  - injection Hi as <-. pose proof (takes_after _ _ _ _ _ Hb1 Hl1 Hc Hj) as H. destruct Hb1 as (_ & Hm & [H0 _] & _). rewrite Hm in H0. lia.
  - specialize (IH lb1 i j Hb1 Hc). assert (i < j)%nat as Hij' by lia. specialize (IH Hij' Hi Hj). lia.
Qed.

End Bucket.

(** ** The schedule

    The bucket as virtual scheduling: a take is due one period after the one
    before it was, but no longer ago than the slack; it returns when it is due, and at once
    when it was due before.  [per] is the period and [burst] the slack in time. *)
Fixpoint schedule (per burst : Z) (ops : list op) (due : option Z) : list Z :=
  match ops with
  | [] => []
  | OUpdate r s :: ops => schedule (second / r) (s * (second / r)) ops due
  | OTake now :: ops =>
      let due' := match due with None => now | Some d => Z.max (d + per) (now - burst) end in
      Z.max now due' :: schedule per burst ops (Some due')
  end.

(** A bucket that stands for a schedule. *)
Definition scheduled (per burst : Z) (due : option Z) (lb : LeakyBucket) : Prop :=
  cfg lb = {| perRequest := per; maxSlack := - burst |} /\
  0 <= per <= second /\ 0 <= burst <= 2 ^ 60 /\ - 2 ^ 60 <= sleepFor lb <= 0 /\
  due = (fun l => l + sleepFor lb) <$> last lb /\ (last lb = None -> sleepFor lb = 0).

Lemma Take_scheduled per burst due now lb :
  scheduled per burst due lb -> (forall l, last lb = Some l -> l <= now <= l + 2 ^ 61) ->
  let due' := match due with None => now | Some d => Z.max (d + per) (now - burst) end in
  let '(t, slept, lb') := Take now lb in
  t = Z.max now due' /\ t = now + slept /\ scheduled per burst (Some due') lb'.
Proof.
  intros (Hc & Hp & Hb & Hs & -> & H0) Hn due'. unfold Take. rewrite Hc. cbn [perRequest maxSlack].
  unfold second in *. destruct (last lb) as [l|] eqn:El.
  - specialize (Hn l eq_refl). assert (Sub now l = now - l) as -> by (unfold Sub; lia).
    rewrite (i64_small (per - _)) by lia. rewrite i64_small by lia. cbn in due'. unfold due', scheduled, second.
    destruct (Z.ltb_spec (sleepFor lb + (per - (now - l))) (- burst));
      (match goal with |- context [0 <? ?s] => destruct (Z.ltb_spec 0 s) end);
      cbn [cfg last sleepFor perRequest maxSlack option_fmap option_map fmap];
      repeat split; try done; try lia; f_equal; lia.
  - cbn in due'. unfold due', scheduled, second. cbn [cfg last sleepFor option_fmap option_map fmap].
    rewrite (H0 eq_refl). repeat split; try done; try lia. f_equal. lia.
Qed.

Lemma Update_scheduled r s lb lb' per burst due :
  0 < r -> 0 <= s <= 2 ^ 30 -> scheduled per burst due lb -> Update r s lb = Some lb' ->
  scheduled (second / r) (s * (second / r)) due lb'.
Proof.
  intros Hr Hs (_ & _ & _ & Hsl & -> & H0). unfold Update, config_of. rewrite (proj2 (Z.eqb_neq _ _)) by lia.
  pose proof (per_range r Hr). pose proof (slack_range r s Hr Hs). intros [= <-]. unfold scheduled.
  cbn [cfg last sleepFor]. rewrite Z.quot_div_nonneg by (unfold second; lia).
  rewrite (i64_small (-1 * s)) by lia. rewrite i64_small by lia. split; [f_equal; lia|]. repeat split; try done; lia.
Qed.

Lemma run_scheduled ops per burst due lb :
  scheduled per burst due lb -> ops_ok ops lb -> run ops lb = Some (schedule per burst ops due).
Proof.
  revert per burst due lb. induction ops as [|[now|r s] ops IH]; intros per burst due lb H Hok; [done|..]; cbn [run schedule].
  - destruct Hok as [Hn Hok]. pose proof (Take_scheduled per burst due now lb H Hn) as HT. cbn zeta in HT.
    destruct (Take now lb) as [[t sl] lb1]. destruct HT as (-> & _ & H1). by rewrite (IH _ _ _ _ H1 Hok).
  - destruct Hok as (Hr & Hs & Hok). destruct (Update r s lb) as [lb1|] eqn:E.
    + cbn. apply IH; [by eapply Update_scheduled|by apply Hok].
    + unfold Update, config_of in E. rewrite (proj2 (Z.eqb_neq _ _)) in E by lia. done.
Qed.

(** C31. The rate.  Whatever calls [Take] and [Update] a bucket gets, the takes return exactly
    at the times of the schedule: each is due one period, of the rate in force, after the one before was
    due but no longer ago than the slack allows, and returns when it is due or, if that is past, at once.
    With one rate, of any two takes the later returns at least as many periods after the earlier
    as there are takes from one to the other, less the slack.  Rates are positive, slacks
    between 0 and 2^30, and a call reads a clock that is not before the return
    of the call before and less than 2^61 ns after it. *)
Theorem rate_limited rate slack : 0 < rate -> 0 <= slack <= 2 ^ 30 ->
  exists lb, NewLeakyBucket rate slack = Some lb /\
  (forall ops, ops_ok ops lb ->
     run ops lb = Some (schedule (second / rate) (slack * (second / rate)) ops None)) /\
  (forall nows, clock_ok nows lb -> forall i j ti tj, (i < j)%nat ->
     takes nows lb !! i = Some ti -> takes nows lb !! j = Some tj ->
     (Z.of_nat j - Z.of_nat i - slack) * (second / rate) <= tj - ti).
Proof.
  intros Hr Hs. destruct (NewLeakyBucket_ok rate slack Hr Hs) as (lb & E & Hb & Hl).
  exists lb. split; [done|]. split.
  - intros ops. apply run_scheduled. unfold NewLeakyBucket in E.
    eapply Update_scheduled; [exact Hr|exact Hs| |exact E]. instantiate (1 := 0). instantiate (1 := 0).
    unfold scheduled. cbn. unfold second. repeat split; try done; lia.
  - intros nows Hc i j ti tj. by apply takes_window.
Qed.

(** * The latest different values *)

Section Deduped.
Context {T : Type} `{EqDecision T}.

Record DedupedSlice := { maxLen : Z; values : list T }.

Definition NewDedupedSlice (n : Z) : DedupedSlice := {| maxLen := n; values := [] |}.

Definition Has (val : T) (d : DedupedSlice) : bool := bool_decide (val ∈ values d).

(** [None] is the panic of a slice that begins after its end. *)
Definition Add (val : T) (d : DedupedSlice) : option (bool * DedupedSlice) :=
  if bool_decide (val ∈ values d) then Some (false, d)
  else
    let vs := values d ++ [val] in
    if maxLen d <? blen vs then
      if maxLen d <? 0 then None
      else Some (true, {| maxLen := maxLen d; values := drop (Z.to_nat (blen vs - maxLen d)) vs |})
    else Some (true, {| maxLen := maxLen d; values := vs |}).

Definition Clear (d : DedupedSlice) : DedupedSlice := {| maxLen := maxLen d; values := [] |}.

(** Different values, no more than the limit. *)
Definition deduped_ok (d : DedupedSlice) : Prop := 0 <= maxLen d /\ NoDup (values d) /\ blen (values d) <= maxLen d.

(** What is added is there, the rest are the latest of those that were. *)
Theorem deduped_latest val d : deduped_ok d -> exists fresh d',
  Add val d = Some (fresh, d') /\ deduped_ok d' /\ maxLen d' = maxLen d /\ fresh = negb (Has val d) /\
  (fresh = false -> d' = d) /\
  (fresh = true -> exists old, old ++ values d' = values d ++ [val] /\ (old = [] \/ blen (values d') = maxLen d)).
Proof.
  intros (H0 & Hn & Hl). unfold Add, Has. destruct (bool_decide_reflect (val ∈ values d)) as [Hin|Hin]; [by do 2 eexists|].
  assert (NoDup (values d ++ [val])) as Hn'.
  { apply NoDup_app. split; [done|]. split; [|apply NoDup_singleton]. by intros x Hx ->%list_elem_of_singleton. }
  assert (blen (values d ++ [val]) = blen (values d) + 1) as Hlen by (rewrite blen_app; done).
  destruct (Z.ltb_spec (maxLen d) (blen (values d ++ [val]))).
  - rewrite (proj2 (Z.ltb_ge _ _)) by lia. do 2 eexists. split; [done|]. cbn [maxLen values].
    rewrite Hlen. assert (blen (drop (Z.to_nat (blen (values d) + 1 - maxLen d)) (values d ++ [val])) = maxLen d) as Hd.
    { rewrite blen_drop. lia. }
    split; [split; [done|]; cbn [maxLen values]; split; [|lia]|].
    + eapply NoDup_app. rewrite take_drop. exact Hn'.
    + split; [done|]. split; [done|]. split; [done|]. intros _. eexists. split; [apply take_drop|]. by right.
  - do 2 eexists. split; [done|]. split; [done|]. split; [done|]. split; [done|]. split; [done|]. intros _. exists []. split; [done|]. by left.
Qed.
End Deduped.
Arguments DedupedSlice T : clear implicits.

(** * Concrete runs *)

Module TestRate.
(** A hundred in a second, five of them at once after a pause. *)
Definition calls : list Z := [1000; 1000; second; second; second; second; second; second; second + 1].

Example calls_taken : (fun lb => takes calls lb) <$> NewLeakyBucket 100 5 =
  Some [1000; 10001000; second; second; second; second; second; second; second + 10000000].
Proof. vm_compute. reflexivity. Qed.

(** A pause of a second, four takes of saved slack, a change of the rate. *)
Definition mixed : list op := [OTake 0; OTake 0; OTake second; OTake second; OTake second; OUpdate 10 0; OTake second].

Lemma rate_limited_witness : exists lb, NewLeakyBucket 100 2 = Some lb /\
  run mixed lb = Some [0; 10000000; second; second; second; second + 100000000] /\
  (forall ti tj, takes [0; 0; 10000000; 20000000] lb !! 0%nat = Some ti ->
     takes [0; 0; 10000000; 20000000] lb !! 3%nat = Some tj -> 10000000 <= tj - ti).
Proof.
  destruct (rate_limited 100 2) as (lb & E & H1 & H2); [lia|lia|]. exists lb. split; [exact E|].
  pose proof E as E'. vm_compute in E'. injection E' as E'. split.
  - rewrite H1; [reflexivity|]. rewrite <- E'. clear.
    repeat (split; [try lia; intros l Hl; vm_compute in Hl; (discriminate Hl || (injection Hl as <-; unfold second; lia))|]).
    intros lb' Hl. vm_compute in Hl. injection Hl as <-.
    split; [intros l Hl; vm_compute in Hl; injection Hl as <-; unfold second; lia|exact I].
  - intros ti tj Hi Hj. refine (H2 [0; 0; 10000000; 20000000] _ 0%nat 3%nat ti tj _ Hi Hj); [|lia]. rewrite <- E'. clear.
    repeat (split; [intros l Hl; vm_compute in Hl; (discriminate Hl || (injection Hl as <-; lia))|]). exact I.
Defined.

Lemma deduped_latest_witness : exists fresh d', Add 7 (NewDedupedSlice 2) = Some (fresh, d') /\ deduped_ok d'.
Proof.
  destruct (deduped_latest 7 (NewDedupedSlice 2)) as (f & d & H1 & H2 & _).
  - split; [vm_compute; congruence|]. split; [apply NoDup_nil_2|vm_compute; congruence].
  - exists f, d. split; [exact H1|exact H2].
Defined.
End TestRate.
