(* ===== verification/LkSyncTrack.v ===== *)
(** The synchronizer of one track (livekit-server-sdk/pkg/synchronizer/track.go): from
    the RTP timestamps of a track's packets to presentation times, over wrap-around,
    gaps, inserted frames and the corrections of sender reports.

    Times are nanoseconds, RTP timestamps that were extended beyond 32 bits are
    integers.  Every call of [time.Now] is an argument.  [None] is a panic, here a
    division by a frame duration of zero.  The clock rate of a codec is not
    zero. *)

From S2P Require Import Prelude GoFloat LkRate.

#[local] Open Scope list_scope.
#[local] Open Scope Z_scope.

Definition maxDrift : Z := 15 * millisecond.
Definition maxTSDiff : Z := minute.
Definition maxSNDropout : Z := 3000.
Definition uint32Half : Z := 2147483648.
Definition uint32Overflow : Z := 4294967296.
Definition ewmaWeight : float64 := of_ratio 9 10.
Definition ewmaRest : float64 := of_ratio 1 10.

(** The fields of [rtp.Packet] that are used. *)
Record packet := { SequenceNumber : Z; Timestamp : Z }.
(** Those of [rtcp.SenderReport]. *)
Record SenderReport := { SSRC : Z; NTPTime : Z; RTPTime : Z }.

Inductive RTPCodecType := RTPCodecTypeAudio | RTPCodecTypeVideo.

Inductive sync_error := ErrBackwardsPTS | EOF.

(** * Converting durations *)

Record rtpConverter := { conv_n : Z; conv_d : Z }.

(** [for n%i == 0 && d%i == 0]: [n] is at most a thousand million, so that thirty steps
    are more than enough. *)
Fixpoint reduce (fuel : nat) (i n d : Z) : Z * Z :=
  match fuel with
  | O => (n, d)
  | S fuel => if (n mod i =? 0) && (d mod i =? 0) then reduce fuel i (n / i) (d / i) else (n, d)
  end.

Definition newRTPConverter (clockRate : Z) : rtpConverter :=
  let '(n, d) := reduce 30 10 1000000000 clockRate in
  let '(n, d) := reduce 30 3 n d in
  let '(n, d) := reduce 30 2 n d in
  {| conv_n := n; conv_d := d |}.

(** In 64 bits without sign, also for a negative duration. *)
Definition toDuration (rtpDuration : Z) (c : rtpConverter) : Z := i64 (u64 (u64 rtpDuration * conv_n c) / conv_d c).

(** * Statistics *)

Record TrackStats := { AvgSampleDuration : float64; AvgDrift : float64; MaxDrift : Z }.

Definition updateDrift (drift : Z) (st : TrackStats) : TrackStats :=
  let drift := if drift <? 0 then i64 (- drift) else drift in
  {| AvgSampleDuration := AvgSampleDuration st;
     AvgDrift := fadd (fmul ewmaWeight (AvgDrift st)) (fmul ewmaRest (of_int drift));
     MaxDrift := if MaxDrift st <? drift then drift else MaxDrift st |}.

Definition updateSampleDuration (duration : Z) (st : TrackStats) : TrackStats :=
  if 1 <? duration then
    {| AvgSampleDuration := fadd (fmul ewmaWeight (AvgSampleDuration st)) (fmul ewmaRest (of_int duration));
       AvgDrift := AvgDrift st; MaxDrift := MaxDrift st |}
  else st.

(** * The synchronizer of a track *)

Record TrackSynchronizer := {
  sync : bool;
  kind : RTPCodecType;
  clockRate : Z;
  stats : TrackStats;
  converter : rtpConverter;
  lastSR : Z;
  startedAt : Z;
  firstTS : Z;
  maxPTS : Z;
  backwards : Z;
  lastPacket : option Z;
  lastSN : Z;
  lastTS : Z;
  lastPTS : Z;
  lastValid : bool;
  inserted : Z;
  snOffset : Z;
  ptsOffset : Z;
}.

Definition newTrackSynchronizer (k : RTPCodecType) (rate : Z) : TrackSynchronizer :=
  {| sync := true; kind := k; clockRate := rate;
     stats := {| AvgSampleDuration := fdiv (of_int rate) (of_int (match k with RTPCodecTypeAudio => 50 | RTPCodecTypeVideo => 30 end));
                 AvgDrift := of_int 0; MaxDrift := 0 |};
     converter := newRTPConverter rate; lastSR := 0; startedAt := 0; firstTS := 0; maxPTS := 0; backwards := 0; lastPacket := None;
     lastSN := 0; lastTS := 0; lastPTS := 0; lastValid := false; inserted := 0; snOffset := 0; ptsOffset := 0 |}.

(** Assignments to the groups of fields. *)
Definition set_timing (b : bool) (st first max : Z) (t : TrackSynchronizer) : TrackSynchronizer :=
  {| sync := b; kind := kind t; clockRate := clockRate t; stats := stats t; converter := converter t; lastSR := lastSR t; startedAt := st; firstTS := first;
     maxPTS := max; backwards := backwards t; lastPacket := lastPacket t; lastSN := lastSN t; lastTS := lastTS t; lastPTS := lastPTS t; lastValid := lastValid t;
     inserted := inserted t; snOffset := snOffset t; ptsOffset := ptsOffset t |}.
Definition set_previous (back : Z) (lp : option Z) (sn ts pts : Z) (valid : bool) (ins : Z) (t : TrackSynchronizer) : TrackSynchronizer :=
  {| sync := sync t; kind := kind t; clockRate := clockRate t; stats := stats t; converter := converter t; lastSR := lastSR t; startedAt := startedAt t;
     firstTS := firstTS t; maxPTS := maxPTS t; backwards := back; lastPacket := lp; lastSN := sn; lastTS := ts; lastPTS := pts; lastValid := valid;
     inserted := ins; snOffset := snOffset t; ptsOffset := ptsOffset t |}.
Definition set_offsets (sn pts : Z) (t : TrackSynchronizer) : TrackSynchronizer :=
  {| sync := sync t; kind := kind t; clockRate := clockRate t; stats := stats t; converter := converter t; lastSR := lastSR t; startedAt := startedAt t;
     firstTS := firstTS t; maxPTS := maxPTS t; backwards := backwards t; lastPacket := lastPacket t; lastSN := lastSN t; lastTS := lastTS t; lastPTS := lastPTS t;
     lastValid := lastValid t; inserted := inserted t; snOffset := sn; ptsOffset := pts |}.
Definition set_reports (st : TrackStats) (sr : Z) (t : TrackSynchronizer) : TrackSynchronizer :=
  {| sync := sync t; kind := kind t; clockRate := clockRate t; stats := st; converter := converter t; lastSR := sr; startedAt := startedAt t;
     firstTS := firstTS t; maxPTS := maxPTS t; backwards := backwards t; lastPacket := lastPacket t; lastSN := lastSN t; lastTS := lastTS t; lastPTS := lastPTS t;
     lastValid := lastValid t; inserted := inserted t; snOffset := snOffset t; ptsOffset := ptsOffset t |}.

(** [Initialize] at [now] under a synchronizer that started at [started]. *)
Definition Initialize (now started : Z) (pkt : packet) (t : TrackSynchronizer) : TrackSynchronizer :=
  set_offsets (snOffset t) (i64 (now - started)) (set_timing (sync t) started (Timestamp pkt) (maxPTS t) t).

(** [for ts < lim { ts += uint32Overflow }]. *)
Fixpoint unwrap_loop (fuel : nat) (ts lim : Z) : Z :=
  match fuel with
  | O => ts
  | S fuel => if ts <? lim then unwrap_loop fuel (ts + uint32Overflow) lim else ts
  end.
Definition unwrap_ts (ts lim : Z) : Z := unwrap_loop (Z.to_nat ((lim - ts) / uint32Overflow + 1)) ts lim.

Definition getElapsed (ts : Z) (t : TrackSynchronizer) : Z := toDuration (ts - firstTS t) (converter t).

Definition frame_round (t : TrackSynchronizer) : float64 :=
  fdiv (of_int (clockRate t)) (of_int (match kind t with RTPCodecTypeAudio => 400 | RTPCodecTypeVideo => 3000 end)).

Definition getFrameDuration (t : TrackSynchronizer) : Z :=
  let frames := Round (fdiv (AvgSampleDuration (stats t)) (frame_round t)) in
  match kind t with
  | RTPCodecTypeAudio => i64 (to_int64 frames * 2500 * 1000)
  | RTPCodecTypeVideo => to_int64 (Round (fdiv (fmul frames (of_int 1000000)) (of_int 3)))
  end.

Definition getFrameDurationRTP (t : TrackSynchronizer) : Z :=
  to_int64 (fmul (Round (fdiv (AvgSampleDuration (stats t)) (frame_round t))) (frame_round t)).

Definition since (now : Z) (o : option Z) : Z := match o with Some l => Sub now l | None => 2 ^ 63 - 1 end.

Definition resetRTP (now : Z) (pkt : packet) (t : TrackSynchronizer) : option (Z * Z * TrackSynchronizer) :=
  if getFrameDuration t =? 0 then None
  else
    let frames := Z.quot (since now (lastPacket t)) (getFrameDuration t) in
    let duration := i64 (getFrameDurationRTP t * frames) in
    let ts := i64 (lastTS t + duration) in
    let pts := i64 (lastPTS t + toDuration duration (converter t)) in
    Some (ts, pts, set_timing (sync t) (startedAt t) (i64 (firstTS t + (Timestamp pkt - ts))) (maxPTS t) t).

(** The timestamp, the presentation time, whether they are valid, and the packet, whose
    sequence number is changed in place.  [now1] and [now2] are for the check and for the reset. *)
Definition adjust (now1 now2 : Z) (pkt : packet) (t : TrackSynchronizer) : option (Z * Z * bool * packet * TrackSynchronizer) :=
  match lastPacket t with
  | None =>
      let ts := unwrap_ts (Timestamp pkt) (firstTS t - uint32Half) in
      Some (ts, i64 (getElapsed ts t + ptsOffset t), true, pkt, t)
  | Some _ =>
      let sn := u16 (SequenceNumber pkt + snOffset t) in
      if negb (lastTS t =? 0) && (maxSNDropout <? u16 (sn - lastSN t)) && (maxSNDropout <? u16 (lastSN t - sn)) then
        let t := set_offsets (u16 (snOffset t + u16 (u16 (lastSN t + 1) - sn))) (ptsOffset t) t in
        let pkt := {| SequenceNumber := u16 (lastSN t + 1); Timestamp := Timestamp pkt |} in
        '(ts, pts, t) ← resetRTP now2 pkt t;
        Some (ts, pts, false, pkt, t)
      else
        let pkt := {| SequenceNumber := sn; Timestamp := Timestamp pkt |} in
        let ts := unwrap_ts (Timestamp pkt) (lastTS t - uint32Half) in
        if ts =? lastTS t then Some (ts, lastPTS t, lastValid t, pkt, t)
        else
          let pts := i64 (getElapsed ts t + ptsOffset t) in
          let expected := Sub now1 (startedAt t + ptsOffset t) in
          if i64 (expected + maxTSDiff) <? pts then
            '(ts, pts, t) ← resetRTP now2 pkt t;
            Some (ts, pts, false, pkt, t)
          else Some (ts, pts, true, pkt, t)
  end.

(** [GetPTS]; [now3] is when the packet is noted as the last one. *)
Definition GetPTS (now1 now2 now3 : Z) (pkt : packet) (t : TrackSynchronizer) : option (result sync_error Z * packet * TrackSynchronizer) :=
  '(ts, pts, valid, pkt, t) ← adjust now1 now2 pkt t;
  if pts <? lastPTS t then
    Some (Err ErrBackwardsPTS, pkt, set_previous (backwards t + 1) (lastPacket t) (lastSN t) (lastTS t) (lastPTS t) (lastValid t) (inserted t) t)
  else
    let t := set_previous 0 (lastPacket t) (lastSN t) (lastTS t) (lastPTS t) (lastValid t) (inserted t) t in
    let t := if valid && lastValid t && (SequenceNumber pkt =? u16 (lastSN t + 1)) then set_reports (updateSampleDuration (ts - lastTS t) (stats t)) (lastSR t) t else t in
    if (0 <? maxPTS t) && ((maxPTS t <? pts) || negb valid) then Some (Err EOF, pkt, t)
    else Some (Ok pts, pkt, set_previous (backwards t) (Some now3) (SequenceNumber pkt) ts pts valid 0 t).

(** The result, the packet and, if there is one, the next packet, which [adjust] may change. *)
Definition insertFrameBefore (now1 now2 : Z) (pkt : packet) (next : option packet) (t : TrackSynchronizer)
  : option (option Z * packet * option packet * TrackSynchronizer) :=
  let t := set_previous (backwards t) (lastPacket t) (lastSN t) (lastTS t) (lastPTS t) false (inserted t + 1) t in
  let t := set_offsets (u16 (snOffset t + 1)) (ptsOffset t) t in
  let frameDurationRTP := getFrameDurationRTP t in
  let ts := i64 (lastTS t + inserted t * frameDurationRTP) in
  let placed t next :=
    Some (Some (i64 (lastPTS t + toDuration (frameDurationRTP * inserted t) (converter t))),
          {| SequenceNumber := u16 (lastSN t + u16 (inserted t)); Timestamp := u32 ts |}, next, t) in
  match next with
  | None => placed t None
  | Some nx =>
      '(nextTS, _, _, nx, t) ← adjust now1 now2 nx t;
      if nextTS <? i64 (ts + frameDurationRTP) then Some (None, pkt, Some nx, t) else placed t (Some nx)
  end.

Definition InsertFrame (pkt : packet) (t : TrackSynchronizer) : option (option Z * packet * option packet * TrackSynchronizer) :=
  insertFrameBefore 0 0 pkt None t.
Definition InsertFrameBefore (now1 now2 : Z) (pkt next : packet) (t : TrackSynchronizer) := insertFrameBefore now1 now2 pkt (Some next) t.

(** * Sender reports *)

Definition getSenderReportPTS (sr : SenderReport) (t : TrackSynchronizer) : Z :=
  let ts := unwrap_ts (RTPTime sr) (lastTS t - uint32Overflow / 2) in
  i64 (getElapsed ts t + ptsOffset t).

(** [mediatransportutil.NtpTime.Time]. *)
Class NtpClock := { NtpTime : Z -> Z }.

(** When, by the sender's clock, the track began. *)
Definition ntp_start {C : NtpClock} (sr : SenderReport) (t : TrackSynchronizer) : Z := NtpTime (NTPTime sr) - getSenderReportPTS sr t.

Definition onSenderReport {C : NtpClock} (sr : SenderReport) (ntpStart : Z) (t : TrackSynchronizer) : TrackSynchronizer :=
  if RTPTime sr =? lastSR t then t
  else
    let drift := Sub (ntp_start sr t) ntpStart in
    let st := updateDrift drift (stats t) in
    let drift := if maxDrift <? drift then maxDrift else if drift <? - maxDrift then - maxDrift else drift in
    set_reports st (RTPTime sr) (set_offsets (snOffset t) (i64 (ptsOffset t + drift)) t).
