(* ===== verification/LkSync.v ===== *)
(** The synchronizer of all tracks of a recording
    (livekit-server-sdk/pkg/synchronizer/synchronizer.go and participant.go): its start and
    its end, its tracks by participant, and the alignment of the tracks of a
    participant by their sender reports.

    Participants and tracks live in stores, since several maps, and the
    users of a track, point to them; a pointer is a number.  [AddTrack],
    [RemoveTrack] and [OnRTCP] take two locks one after the other: each is two
    steps, between which other calls may run.  [None] is a panic. *)

From S2P Require Import Prelude GoFloat LkRate LkSyncTrack.

#[local] Open Scope list_scope.
#[local] Open Scope Z_scope.

Record participantSynchronizer := {
  ntpStart : option Z;
  tracks : gmap Z nat;
  senderReports : gmap Z SenderReport;
}.

Record Synchronizer := {
  s_startedAt : Z;
  (** how often [onStarted] was called *)
  s_started : nat;
  s_endedAt : Z;
  psByIdentity : gmap string nat;
  psBySSRC : gmap Z nat;
  ssrcByID : gmap string Z;
  participants : gmap nat participantSynchronizer;
  track_store : gmap nat TrackSynchronizer;
  next_ref : nat;
}.

Definition NewSynchronizer : Synchronizer :=
  {| s_startedAt := 0; s_started := 0; s_endedAt := 0; psByIdentity := ∅; psBySSRC := ∅; ssrcByID := ∅; participants := ∅; track_store := ∅; next_ref := 0 |}.

Definition newParticipant : participantSynchronizer := {| ntpStart := None; tracks := ∅; senderReports := ∅ |}.

Definition set_stores (ps : gmap nat participantSynchronizer) (ts : gmap nat TrackSynchronizer) (s : Synchronizer) : Synchronizer :=
  {| s_startedAt := s_startedAt s; s_started := s_started s; s_endedAt := s_endedAt s; psByIdentity := psByIdentity s; psBySSRC := psBySSRC s;
     ssrcByID := ssrcByID s; participants := ps; track_store := ts; next_ref := next_ref s |}.
Definition set_participant (p : nat) (x : participantSynchronizer) (s : Synchronizer) : Synchronizer :=
  set_stores (<[p := x]> (participants s)) (track_store s) s.
Definition set_track (t : nat) (x : TrackSynchronizer) (s : Synchronizer) : Synchronizer :=
  set_stores (participants s) (<[t := x]> (track_store s)) s.

(** What is used of a [TrackRemote]. *)
Record TrackRemote := { track_ID : string; track_SSRC : Z; track_kind : RTPCodecType; track_rate : Z }.

(** ** Adding and removing tracks *)

(** The part of [AddTrack] under the lock of the synchronizer: the new track and the
    participant it will belong to. *)
Definition AddTrack_begin (track : TrackRemote) (identity : string) (s : Synchronizer) : nat * nat * Synchronizer :=
  let t := next_ref s in
  let ts := <[t := newTrackSynchronizer (track_kind track) (track_rate track)]> (track_store s) in
  let '(p, by_id, ps, n) :=
    match psByIdentity s !! identity with
    | Some p => (p, psByIdentity s, participants s, S t)
    | None => (S t, <[identity := S t]> (psByIdentity s), <[S t := newParticipant]> (participants s), S (S t))
    end in
  (t, p, {| s_startedAt := s_startedAt s; s_started := s_started s; s_endedAt := s_endedAt s; psByIdentity := by_id;
            psBySSRC := <[track_SSRC track := p]> (psBySSRC s); ssrcByID := <[track_ID track := track_SSRC track]> (ssrcByID s);
            participants := ps; track_store := ts; next_ref := n |}).

(** The part under the lock of the participant. *)
Definition AddTrack_end (t p : nat) (ssrc : Z) (s : Synchronizer) : option Synchronizer :=
  x ← participants s !! p;
  Some (set_participant p {| ntpStart := ntpStart x; tracks := <[ssrc := t]> (tracks x); senderReports := senderReports x |} s).

Definition AddTrack (track : TrackRemote) (identity : string) (s : Synchronizer) : option (nat * Synchronizer) :=
  let '(t, p, s) := AddTrack_begin track identity s in
  s ← AddTrack_end t p (track_SSRC track) s;
  Some (t, s).

(** A track that is not known has the SSRC 0. *)
Definition RemoveTrack_begin (trackID : string) (s : Synchronizer) : Z * option nat * Synchronizer :=
  let ssrc := default 0 (ssrcByID s !! trackID) in
  (ssrc, psBySSRC s !! ssrc,
   {| s_startedAt := s_startedAt s; s_started := s_started s; s_endedAt := s_endedAt s; psByIdentity := psByIdentity s; psBySSRC := delete ssrc (psBySSRC s);
      ssrcByID := delete trackID (ssrcByID s); participants := participants s; track_store := track_store s; next_ref := next_ref s |}).

Definition detach (t : TrackSynchronizer) : TrackSynchronizer := set_timing false (startedAt t) (firstTS t) (maxPTS t) t.

Definition RemoveTrack_end (p : nat) (ssrc : Z) (s : Synchronizer) : option Synchronizer :=
  x ← participants s !! p;
  let s := match tracks x !! ssrc with
           | Some t => match track_store s !! t with Some y => set_track t (detach y) s | None => s end
           | None => s
           end in
  Some (set_participant p {| ntpStart := ntpStart x; tracks := delete ssrc (tracks x); senderReports := delete ssrc (senderReports x) |} s).

Definition RemoveTrack (trackID : string) (s : Synchronizer) : option Synchronizer :=
  let '(ssrc, p, s) := RemoveTrack_begin trackID s in
  match p with None => Some s | Some p => RemoveTrack_end p ssrc s end.

(** ** Start and end *)

Definition getOrSetStartedAt (now : Z) (s : Synchronizer) : Z * Synchronizer :=
  if s_startedAt s =? 0 then
    (now, {| s_startedAt := now; s_started := S (s_started s); s_endedAt := s_endedAt s; psByIdentity := psByIdentity s; psBySSRC := psBySSRC s;
             ssrcByID := ssrcByID s; participants := participants s; track_store := track_store s; next_ref := next_ref s |})
  else (s_startedAt s, s).

(** [TrackSynchronizer.Initialize]; a track that was removed has a nil synchronizer. *)
Definition InitializeTrack (now : Z) (t : nat) (pkt : packet) (s : Synchronizer) : option Synchronizer :=
  x ← track_store s !! t;
  if sync x then
    let '(started, s) := getOrSetStartedAt now s in
    Some (set_track t (Initialize now started pkt x) s)
  else None.

(** The tracks of a participant. *)
Definition tracks_of (x : participantSynchronizer) (s : Synchronizer) : list TrackSynchronizer :=
  omap (fun st => track_store s !! snd st) (map_to_list (tracks x)).

Definition getMaxOffset (x : participantSynchronizer) (s : Synchronizer) : Z := foldr (fun t m => Z.max (ptsOffset t) m) 0 (tracks_of x s).

Definition all_participants (s : Synchronizer) : list participantSynchronizer :=
  omap (fun ip => participants s !! snd ip) (map_to_list (psByIdentity s)).

(** A track is drained if a participant that is known by its identity has it. *)
Definition drained (s : Synchronizer) (t : nat) : bool :=
  existsb (fun x => existsb (fun st => (snd st =? t)%nat) (map_to_list (tracks x))) (all_participants s).

Definition set_end (max : Z) (t : TrackSynchronizer) : TrackSynchronizer := set_timing (sync t) (startedAt t) (firstTS t) max t.

Definition End_ (now : Z) (s : Synchronizer) : Synchronizer :=
  let maxOffset := foldr (fun x m => Z.max (getMaxOffset x s) m) 0 (all_participants s) in
  let endedAt := now + maxOffset in
  let maxPTS := i64 (endedAt - s_startedAt s) in
  {| s_startedAt := s_startedAt s; s_started := s_started s; s_endedAt := endedAt; psByIdentity := psByIdentity s; psBySSRC := psBySSRC s; ssrcByID := ssrcByID s;
     participants := participants s; track_store := map_imap (fun t x => Some (if drained s t then set_end maxPTS x else x)) (track_store s);
     next_ref := next_ref s |}.

(** ** Sender reports *)

Section Reports.
Context {C : NtpClock}.

(** The tracks of the reports with the start that each report gives; a report without a track
    is a nil pointer. *)
Fixpoint start_times (reports : list (Z * SenderReport)) (x : participantSynchronizer) (s : Synchronizer) : option (list (nat * Z)) :=
  match reports with
  | [] => Some []
  | (ssrc, sr) :: reports =>
      t ← tracks x !! ssrc;
      y ← track_store s !! t;
      rest ← start_times reports x s;
      Some ((t, ntp_start sr y) :: rest)
  end.

Definition earliest (starts : list (nat * Z)) : option Z :=
  foldr (fun ts m => match m with None => Some (snd ts) | Some e => Some (Z.min (snd ts) e) end) None starts.

Definition move_start (earliestStart : Z) (s : Synchronizer) (ts : nat * Z) : Synchronizer :=
  match track_store s !! fst ts with
  | Some y =>
      let diff := Sub (snd ts) earliestStart in
      if diff =? 0 then s else set_track (fst ts) (set_offsets (snOffset y) (i64 (ptsOffset y + diff)) y) s
  | None => s
  end.

Definition synchronizeTracks (p : nat) (s : Synchronizer) : option Synchronizer :=
  x ← participants s !! p;
  starts ← start_times (map_to_list (senderReports x)) x s;
  let s := set_participant p {| ntpStart := earliest starts; tracks := tracks x; senderReports := senderReports x |} s in
  match earliest starts with
  | None => Some s
  | Some e => Some (foldl (move_start e) s starts)
  end.

Definition participant_onSenderReport (p : nat) (sr : SenderReport) (s : Synchronizer) : option Synchronizer :=
  x ← participants s !! p;
  match ntpStart x with
  | None =>
      let x := {| ntpStart := None; tracks := tracks x; senderReports := <[SSRC sr := sr]> (senderReports x) |} in
      let s := set_participant p x s in
      if (size (senderReports x) =? size (tracks x))%nat then synchronizeTracks p s else Some s
  | Some start =>
      match tracks x !! SSRC sr with
      | None => Some s
      | Some t =>
          y ← track_store s !! t;
          Some (set_track t (onSenderReport sr start y) s)
      end
  end.

(** The part of [OnRTCP] under the lock of the synchronizer: the participant whose turn it is. *)
Definition OnRTCP_begin (sr : SenderReport) (s : Synchronizer) : option nat :=
  if s_endedAt s =? 0 then psBySSRC s !! SSRC sr else None.

Definition OnRTCP (sr : SenderReport) (s : Synchronizer) : option Synchronizer :=
  match OnRTCP_begin sr s with
  | None => Some s
  | Some p => participant_onSenderReport p sr s
  end.
End Reports.
