(* ===== verification/LkSyncTheorems.v ===== *)
(** What the synchronizer of the SDK promises: exact presentation times over any
    number of wrap-arounds, times that never go back, the alignment of the tracks
    of a participant, and drift that is corrected in small steps. *)

From Stdlib Require Import Sorted.
From S2P Require Import Prelude GoFloat LkRate LkSyncTrack LkSync.

#[local] Open Scope list_scope.
#[local] Open Scope Z_scope.

(** * Converting durations *)

Lemma reduce_ratio fuel i n d n' d' : 1 < i -> 0 < n -> 0 < d -> reduce fuel i n d = (n', d') ->
  n' * d = n * d' /\ 0 < n' <= n /\ 0 < d'.
Proof.
  intros Hi. revert n d. induction fuel as [|fuel IH]; intros n d Hn Hd E; cbn [reduce] in E; [injection E as <- <-; lia|].
  destruct (Z.eqb_spec (n mod i) 0) as [E1|E1], (Z.eqb_spec (d mod i) 0) as [E2|E2]; cbn [andb] in E; try (injection E as <- <-; lia).
  apply Z.div_exact in E1; [|lia]. apply Z.div_exact in E2; [|lia].
  destruct (IH (n / i) (d / i)) as (H1 & H2 & H3); [nia|nia|done|]. set (a := n / i) in *. set (b := d / i) in *. split; [|nia]. rewrite E1, E2. nia.
Qed.

Lemma newRTPConverter_ratio rate : 0 < rate ->
  let c := newRTPConverter rate in conv_n c * rate = 1000000000 * conv_d c /\ 0 < conv_n c /\ 0 < conv_d c.
Proof.
  intros Hr. unfold newRTPConverter. destruct (reduce 30 10 1000000000 rate) as [n1 d1] eqn:E1. apply reduce_ratio in E1 as (A1 & B1 & C1); [|lia..].
  destruct (reduce 30 3 n1 d1) as [n2 d2] eqn:E2. apply reduce_ratio in E2 as (A2 & B2 & C2); [|lia..].
  destruct (reduce 30 2 n2 d2) as [n3 d3] eqn:E3. apply reduce_ratio in E3 as (A3 & B3 & C3); [|lia..]. cbn. split; [|lia].
  assert (n3 * rate * (d1 * d2) = 1000000000 * d3 * (d1 * d2)) by (transitivity (n3 * d2 * (d1 * rate)); [ring|]; rewrite A3;
    transitivity (n2 * d1 * (d3 * rate)); [ring|]; rewrite A2; transitivity (n1 * rate * (d2 * d3)); [ring|]; rewrite A1; ring).
  apply Z.mul_cancel_r in H; [done|]. nia.
Qed.

(** The factor that is kept is exact: what was cancelled does not change the quotient. *)
Lemma toDuration_exact rate x : 0 < rate -> 0 <= x -> x * conv_n (newRTPConverter rate) < 2 ^ 63 ->
  toDuration x (newRTPConverter rate) = x * 1000000000 / rate.
Proof.
  intros Hr Hx Hb. destruct (newRTPConverter_ratio rate Hr) as (H1 & H2 & H3). set (c := newRTPConverter rate) in *. unfold toDuration.
  rewrite (u64_small x) by nia. rewrite u64_small by nia.
  assert (0 <= x * conv_n c / conv_d c <= x * conv_n c) by (split; [apply Z.div_pos; nia|apply Z.div_le_upper_bound; nia]).
  rewrite i64_small by lia. rewrite <- (Z.div_mul_cancel_r _ _ rate) by lia. rewrite <- (Z.div_mul_cancel_r (x * 1000000000) rate (conv_d c)) by lia.
  f_equal; [|ring]. transitivity (x * (conv_n c * rate)); [ring|]. rewrite H1. ring.
Qed.

(** * Extending timestamps *)

Lemma unwrap_loop_spec fuel ts lim : lim <= ts + Z.of_nat fuel * uint32Overflow ->
  exists k, 0 <= k /\ unwrap_loop fuel ts lim = ts + k * uint32Overflow /\ lim <= unwrap_loop fuel ts lim /\ (k = 0 \/ unwrap_loop fuel ts lim < lim + uint32Overflow).
Proof.
  revert ts. induction fuel as [|fuel IH]; intros ts H; cbn [unwrap_loop]; [exists 0; lia|].
  destruct (Z.ltb_spec ts lim); [|exists 0; lia]. destruct (IH (ts + uint32Overflow)) as (k & Hk & E & Hl & Hu); [lia|]. exists (k + 1).
  split; [lia|]. split; [lia|]. split; [done|]. right. destruct Hu as [->|Hu]; [|done]. rewrite E. lia.
Qed.

Lemma unwrap_ts_spec ts lim : exists k, 0 <= k /\ unwrap_ts ts lim = ts + k * uint32Overflow /\ lim <= unwrap_ts ts lim /\ (k = 0 \/ unwrap_ts ts lim < lim + uint32Overflow).
Proof.
  apply unwrap_loop_spec. pose proof (Z.div_mod (lim - ts) uint32Overflow ltac:(done)) as E.
  pose proof (Z.mod_pos_bound (lim - ts) uint32Overflow ltac:(done)). set (q := (lim - ts) / uint32Overflow) in *. unfold uint32Overflow in *.
  destruct (Z_le_gt_dec 0 (q + 1)); [rewrite Z2Nat.id by lia; lia|]. lia.
Qed.

(** The 32 bits that are sent determine the timestamp if it is less than half of the
    range away from the one before. *)
Lemma unwrap_exact T lim : 0 <= T -> lim <= T < lim + uint32Overflow -> unwrap_ts (u32 T) lim = T.
Proof.
  intros H0 HT. destruct (unwrap_ts_spec (u32 T) lim) as (k & Hk & E & Hl & Hu). unfold u32 in *. unfold uint32Overflow in *.
  pose proof (Z.div_mod T 4294967296 ltac:(done)). pose proof (Z.mod_pos_bound T 4294967296 ltac:(done)). destruct Hu as [->|Hu]; nia.
Qed.

(** * Presentation times *)

(** The presentation time of the timestamp [T] on a track that began at [T0]. *)
Definition pts_of (rate T0 off T : Z) : Z := (T - T0) * 1000000000 / rate + off.

(** The track has returned the time of [T]. *)
Record in_sync (rate T0 off T : Z) (t : TrackSynchronizer) : Prop := {
  sy_conv : converter t = newRTPConverter rate;
  sy_first : firstTS t = T0;
  sy_off : ptsOffset t = off;
  sy_last : lastTS t = T;
  sy_pts : lastPTS t = pts_of rate T0 off T;
  sy_packet : lastPacket t <> None;
  sy_max : maxPTS t = 0;
}.

(** A packet as it was sent: its sequence number and its timestamp, which has more than 32
    bits, and when it arrives. *)
Record arrival := { a_sn : Z; a_T : Z; a_now : Z }.
Definition sent_packet (a : arrival) : packet := {| SequenceNumber := a_sn a; Timestamp := u32 (a_T a) |}.

(** It follows the last one by less than half of the range of timestamps and 3000
    sequence numbers, and is not more than a minute ahead of what is expected. *)
Definition follows (rate T0 off T : Z) (a : arrival) (t : TrackSynchronizer) : Prop :=
  T <= a_T a < T + uint32Half /\ u16 (u16 (a_sn a + snOffset t) - lastSN t) <= maxSNDropout /\
  (a_T a - T0) * conv_n (newRTPConverter rate) < 2 ^ 62 /\
  pts_of rate T0 off (a_T a) - maxTSDiff <= a_now a - (startedAt t + off) < 2 ^ 62.

Section Exact.
Context (rate T0 off : Z) (Hrate : 0 < rate) (HT0 : 0 <= T0) (Hoff : 0 <= off < 2 ^ 61).

Lemma elapsed_bounds T : T0 <= T -> (T - T0) * conv_n (newRTPConverter rate) < 2 ^ 62 ->
  toDuration (T - T0) (newRTPConverter rate) = (T - T0) * 1000000000 / rate /\ 0 <= (T - T0) * 1000000000 / rate < 2 ^ 62.
Proof.
  intros HT Hb. rewrite toDuration_exact by lia. split; [done|]. destruct (newRTPConverter_ratio rate Hrate) as (H1 & H2 & H3). set (c := newRTPConverter rate) in *.
  split; [apply Z.div_pos; lia|]. apply Z.div_lt_upper_bound; [lia|]. apply (Z.mul_lt_mono_pos_r (conv_d c)); [lia|].
  assert ((T - T0) * 1000000000 * conv_d c = (T - T0) * conv_n c * rate) as -> by (transitivity ((T - T0) * (1000000000 * conv_d c)); [ring|]; rewrite <- H1; ring).
  assert ((T - T0) * conv_n c * rate < 2 ^ 62 * rate) by (apply Z.mul_lt_mono_pos_r; lia). nia.
Qed.

Lemma pts_mono T T' : T <= T' -> pts_of rate T0 off T <= pts_of rate T0 off T'.
Proof. intros H. unfold pts_of. pose proof (Z.div_le_mono ((T - T0) * 1000000000) ((T' - T0) * 1000000000) rate Hrate). lia. Qed.

Lemma adjust_follows T a t now2 : in_sync rate T0 off T t -> T0 <= T -> follows rate T0 off T a t ->
  exists valid pkt, adjust (a_now a) now2 (sent_packet a) t = Some (a_T a, pts_of rate T0 off (a_T a), valid, pkt, t) /\
    SequenceNumber pkt = u16 (a_sn a + snOffset t).
Proof.
  intros [Hc Hf Ho Hl Hp Hlp _] HT ((HT1 & HT2) & Hsn & Hb & Hn1 & Hn2). unfold adjust. destruct (lastPacket t) as [lp|]; [|done].
  cbn [sent_packet SequenceNumber Timestamp]. rewrite (proj2 (Z.ltb_ge maxSNDropout (u16 (u16 (a_sn a + snOffset t) - lastSN t)))) by done.
  rewrite andb_false_r. cbn [andb]. rewrite Hl. rewrite unwrap_exact by (unfold uint32Overflow, uint32Half in *; lia).
  destruct (Z.eqb_spec (a_T a) T) as [E|E]; [do 2 eexists; split; [by rewrite E, Hp|done]|].
  destruct (elapsed_bounds (a_T a)) as [E1 E2]; [lia|done|]. unfold getElapsed. rewrite Hf, Hc, Ho, E1.
  rewrite (i64_small (_ / _ + _)) by lia. unfold pts_of in *. assert (Sub (a_now a) (startedAt t + off) = a_now a - (startedAt t + off)) as -> by (unfold Sub, maxTSDiff, minute, second in *; lia).
  rewrite i64_small by (unfold maxTSDiff, minute, second in *; lia). rewrite (proj2 (Z.ltb_ge _ _)) by lia. do 2 eexists. split; done.
Qed.

Lemma GetPTS_follows T a t now2 now3 : in_sync rate T0 off T t -> T0 <= T -> follows rate T0 off T a t ->
  exists pkt t', GetPTS (a_now a) now2 now3 (sent_packet a) t = Some (Ok (pts_of rate T0 off (a_T a)), pkt, t') /\
    SequenceNumber pkt = u16 (a_sn a + snOffset t) /\ in_sync rate T0 off (a_T a) t' /\
    startedAt t' = startedAt t /\ snOffset t' = snOffset t /\ lastSN t' = u16 (a_sn a + snOffset t).
Proof.
  intros Hs HT Hf. destruct (adjust_follows T a t now2 Hs HT Hf) as (valid & pkt & E & Esn). destruct Hs as [Hc Hfi Ho Hl Hp Hlp Hm].
  unfold GetPTS. rewrite E. cbn [mbind option_bind]. pose proof (pts_mono T (a_T a) ltac:(apply Hf)) as Hmono. rewrite Hp, (proj2 (Z.ltb_ge _ _)) by done.
  destruct (valid && _ && _); cbn [maxPTS set_reports set_previous]; rewrite Hm; cbn [Z.ltb Z.compare andb];
    (do 2 eexists; split; [done|]; split; [done|]; split; [by split|done]).
Qed.

(** The first packet, which the track was initialized with. *)
Lemma GetPTS_first k now sn now1 now2 now3 started : 0 <= now - started -> off = now - started ->
  T0 < uint32Overflow ->
  let a := {| SequenceNumber := sn; Timestamp := T0 |} in
  exists t', GetPTS now1 now2 now3 a (Initialize now started a (newTrackSynchronizer k rate)) = Some (Ok off, a, t') /\
    in_sync rate T0 off T0 t' /\ startedAt t' = started /\ snOffset t' = 0 /\ lastSN t' = sn.
Proof.
  intros Hn Ho HT a. unfold GetPTS, adjust. cbn [Initialize set_offsets set_timing newTrackSynchronizer lastPacket firstTS Timestamp a].
  assert (unwrap_ts T0 (T0 - uint32Half) = T0) as ->.
  { destruct (unwrap_ts_spec T0 (T0 - uint32Half)) as (j & Hj & E & _ & [->|Hu]); unfold uint32Overflow, uint32Half in *; lia. }
  unfold getElapsed. cbn [Initialize set_offsets set_timing newTrackSynchronizer firstTS converter ptsOffset lastPTS mbind option_bind snOffset sync maxPTS].
  rewrite Z.sub_diag, toDuration_exact by lia. cbn [Z.mul]. rewrite Z.div_0_l, (i64_small (now - started)) by lia.
  rewrite i64_small by lia. rewrite (proj2 (Z.ltb_ge _ _)) by lia. cbn [lastValid set_previous set_offsets set_timing newTrackSynchronizer andb maxPTS].
  cbn [Z.ltb Z.compare andb]. eexists. split; [f_equal; f_equal; f_equal; f_equal; lia|]. split; [|done].
  split; cbn; try done; [rewrite i64_small by lia; lia|]. unfold pts_of. rewrite Z.sub_diag. cbn [Z.mul]. rewrite Z.div_0_l by lia. lia.
Qed.

(** A run of [GetPTS]; what it returns, in order. *)
Fixpoint play (arr : list arrival) (t : TrackSynchronizer) : option (list (result sync_error Z) * TrackSynchronizer) :=
  match arr with
  | [] => Some ([], t)
  | a :: arr =>
      '(r, _, t) ← GetPTS (a_now a) (a_now a) (a_now a) (sent_packet a) t;
      '(l, t) ← play arr t;
      Some (r :: l, t)
  end.

(** Each packet follows the one before. *)
Fixpoint in_order (T : Z) (arr : list arrival) (t : TrackSynchronizer) : Prop :=
  match arr with
  | [] => True
  | a :: arr => follows rate T0 off T a t /\
      match GetPTS (a_now a) (a_now a) (a_now a) (sent_packet a) t with Some (_, _, t) => in_order (a_T a) arr t | None => True end
  end.

Lemma play_exact arr T t : in_sync rate T0 off T t -> T0 <= T -> in_order T arr t ->
  exists t', play arr t = Some ((fun a => Ok (pts_of rate T0 off (a_T a))) <$> arr, t').
Proof.
  revert T t. induction arr as [|a arr IH]; intros T t Hs HT Ho; [by eexists|]. destruct Ho as [Hf Ho]. cbn [play].
  destruct (GetPTS_follows T a t (a_now a) (a_now a) Hs HT Hf) as (pkt & t' & E & _ & Hs' & _). rewrite E in *. cbn [mbind option_bind].
  destruct (IH (a_T a) t' Hs') as (t'' & ->); [|done|]; [|by eexists]. destruct Hf as [[? _] _]. lia.
Qed.
End Exact.

(** C9. However often its timestamps wrap around, a track whose packets come in order (each less
    than half of the range of timestamps and at most 3000 sequence numbers after the one before, and not more than a
    minute ahead of its expected time) has exact presentation times: that of the first packet is when it came after
    the start of the recording, and the others are as much later as the clock of the codec says.  Times are
    below 2^61 ns, and so are the products of elapsed units with the converter's numerator, up to a factor of two. *)
Theorem pts_exact rate k T0 sn now started : 0 < rate -> 0 <= T0 < uint32Overflow -> 0 <= now - started < 2 ^ 61 ->
  let first := {| SequenceNumber := sn; Timestamp := T0 |} in
  exists t, GetPTS now now now first (Initialize now started first (newTrackSynchronizer k rate)) = Some (Ok (now - started), first, t) /\
    forall arr, in_order rate T0 (now - started) T0 arr t ->
      exists t', play arr t = Some ((fun a => Ok ((a_T a - T0) * 1000000000 / rate + (now - started))) <$> arr, t').
Proof.
  intros Hr HT Hn first. destruct (GetPTS_first rate T0 (now - started) Hr Hn k now sn now now now started) as (t & E & Hs & _); [lia|done|lia|].
  exists t. split; [exact E|]. intros arr Ho. destruct (play_exact rate T0 (now - started) Hr ltac:(lia) Hn arr T0 t Hs) as (t' & E'); [lia|done|]. by exists t'.
Qed.

(** * Times never go back *)

(** What can happen to a track. *)
Inductive track_op {C : NtpClock} :=
| OpInitialize (now started : Z) (pkt : packet)
| OpGetPTS (now1 now2 now3 : Z) (pkt : packet)
| OpInsert (now1 now2 : Z) (pkt : packet) (next : option packet)
| OpReport (sr : SenderReport) (start : Z)
| OpMove (diff : Z)
| OpEnd (max : Z).

(** The time that is returned, if any, and the track. *)
Definition run_track_op {C : NtpClock} (o : track_op) (t : TrackSynchronizer) : option (option Z * TrackSynchronizer) :=
  match o with
  | OpInitialize now started pkt => Some (None, Initialize now started pkt t)
  | OpGetPTS now1 now2 now3 pkt =>
      '(r, _, t) ← GetPTS now1 now2 now3 pkt t;
      Some (match r with Ok pts => Some pts | Err _ => None end, t)
  | OpInsert now1 now2 pkt next => '(_, _, _, t) ← insertFrameBefore now1 now2 pkt next t; Some (None, t)
  | OpReport sr start => Some (None, onSenderReport sr start t)
  | OpMove diff => Some (None, set_offsets (snOffset t) (i64 (ptsOffset t + diff)) t)
  | OpEnd max => Some (None, set_end max t)
  end.

(** The times that are returned before the first panic. *)
Fixpoint returned {C : NtpClock} (ops : list track_op) (t : TrackSynchronizer) : list Z :=
  match ops with
  | [] => []
  | o :: ops =>
      match run_track_op o t with
      | None => []
      | Some (None, t) => returned ops t
      | Some (Some pts, t) => pts :: returned ops t
      end
  end.

Lemma resetRTP_lastPTS now pkt t ts pts t' : resetRTP now pkt t = Some (ts, pts, t') -> lastPTS t' = lastPTS t /\ maxPTS t' = maxPTS t.
Proof. unfold resetRTP. destruct (_ =? _); [done|]. by intros [= <- <- <-]. Qed.

Lemma adjust_lastPTS now1 now2 pkt t ts pts valid pkt' t' : adjust now1 now2 pkt t = Some (ts, pts, valid, pkt', t') -> lastPTS t' = lastPTS t /\ maxPTS t' = maxPTS t.
Proof.
  unfold adjust. destruct (lastPacket t); [|by intros [= <- <- <- <- <-]]. destruct (negb _ && _ && _).
  - destruct (resetRTP _ _ _) as [[[? ?] t1]|] eqn:E; [|done]. apply resetRTP_lastPTS in E as [E1 E2]. cbn [mbind option_bind]. intros [= <- <- <- <- <-]. by rewrite E1, E2.
  - destruct (_ =? _); [by intros [= <- <- <- <- <-]|]. destruct (_ <? _); [|by intros [= <- <- <- <- <-]].
    destruct (resetRTP _ _ _) as [[[? ?] t1]|] eqn:E; [|done]. apply resetRTP_lastPTS in E as [E1 E2]. cbn [mbind option_bind]. intros [= <- <- <- <- <-]. by rewrite E1, E2.
Qed.

Lemma run_track_op_lastPTS {C : NtpClock} o t r t' : run_track_op o t = Some (r, t') ->
  match r with None => lastPTS t' = lastPTS t | Some pts => lastPTS t <= pts /\ lastPTS t' = pts end.
Proof.
  destruct o as [now started pkt|now1 now2 now3 pkt|now1 now2 pkt next|sr start|diff|max]; cbn [run_track_op].
  - by intros [= <- <-].
  - unfold GetPTS. destruct (adjust now1 now2 pkt t) as [[[[[ts pts] valid] pkt'] t1]|] eqn:E; [|done]. apply adjust_lastPTS in E as [E _]. cbn [mbind option_bind].
    destruct (Z.ltb_spec pts (lastPTS t1)); [intros [= <- <-]; done|]. destruct (valid && _ && _); cbn [maxPTS set_reports set_previous];
      (destruct (_ && _); intros [= <- <-]; [done|cbn; lia]).
  - unfold insertFrameBefore. destruct next as [nx|]; [|by intros [= <- <-]]. set (t1 := set_offsets _ _ _).
    destruct (adjust now1 now2 nx t1) as [[[[[ts pts] valid] nx'] t2]|] eqn:E; [|done]. apply adjust_lastPTS in E as [E _]. cbn [mbind option_bind].
    destruct (_ <? _); intros [= <- <-]; done.
  - intros [= <- <-]. unfold onSenderReport. by destruct (_ =? _).
  - by intros [= <- <-].
  - by intros [= <- <-].
Qed.

(** C32. Whatever happens to a track (gaps, resets, inserted frames, sender reports, corrections, the end), the
    presentation times that [GetPTS] returns never go back. *)
Theorem pts_monotone {C : NtpClock} ops k rate : StronglySorted Z.le (0 :: returned ops (newTrackSynchronizer k rate)).
Proof.
  change 0 with (lastPTS (newTrackSynchronizer k rate)). generalize (newTrackSynchronizer k rate). induction ops as [|o ops IH]; intros t; cbn [returned]; [by repeat constructor|].
  destruct (run_track_op o t) as [[[pts|] t']|] eqn:E; [| |by repeat constructor]; apply run_track_op_lastPTS in E.
  - destruct E as [E1 E2]. specialize (IH t'). rewrite E2 in IH. constructor; [done|]. apply StronglySorted_inv in IH as [_ IH].
    constructor; [done|]. eapply Forall_impl; [exact IH|]. cbn. lia.
  - specialize (IH t'). by rewrite E in IH.
Qed.

(** * Sender reports *)

Section Clocks.
Context {C : NtpClock}.

(** The start by a report, without the offset of the track. *)
Definition raw_start (sr : SenderReport) (t : TrackSynchronizer) : Z :=
  NtpTime (NTPTime sr) - getElapsed (unwrap_ts (RTPTime sr) (lastTS t - uint32Overflow / 2)) t.

(** The numbers are those of a century. *)
Definition in_range (base : Z) (sr : SenderReport) (t : TrackSynchronizer) : Prop :=
  0 <= getElapsed (unwrap_ts (RTPTime sr) (lastTS t - uint32Overflow / 2)) t < 2 ^ 59 /\
  - 2 ^ 59 < ptsOffset t < 2 ^ 59 /\ - 2 ^ 59 < NtpTime (NTPTime sr) - base < 2 ^ 59.

Lemma ntp_start_raw base sr t : in_range base sr t -> ntp_start sr t = raw_start sr t - ptsOffset t.
Proof. intros (H1 & H2 & _). unfold ntp_start, raw_start, getSenderReportPTS. rewrite i64_small by lia. lia. Qed.

Lemma raw_start_offset sr t sn pts : raw_start sr (set_offsets sn pts t) = raw_start sr t.
Proof. done. Qed.

(** What is left of a difference after a correction. *)
Definition corrected (d : Z) : Z := if maxDrift <? d then d - maxDrift else if d <? - maxDrift then d + maxDrift else 0.

Lemma onSenderReport_spec sr start t : in_range start sr t -> RTPTime sr <> lastSR t ->
  let t' := onSenderReport sr start t in
  raw_start sr t' = raw_start sr t /\ lastSR t' = RTPTime sr /\
  raw_start sr t' - ptsOffset t' - start = corrected (raw_start sr t - ptsOffset t - start) /\
  Z.abs (ptsOffset t' - ptsOffset t) <= maxDrift.
Proof.
  intros Hr Hne. unfold onSenderReport. rewrite (proj2 (Z.eqb_neq _ _)) by done. cbn zeta. rewrite (ntp_start_raw start) by done.
  change (raw_start sr (set_reports _ _ _)) with (raw_start sr t). destruct Hr as (H1 & H2 & H3).
  assert (Sub (raw_start sr t - ptsOffset t) start = raw_start sr t - ptsOffset t - start) as -> by (unfold Sub, raw_start in *; lia).
  set (d := raw_start sr t - ptsOffset t - start). cbn [lastSR ptsOffset set_reports set_offsets]. split; [done|]. split; [done|].
  unfold corrected. unfold maxDrift, millisecond in *. destruct (Z.ltb_spec (15 * 1000000) d); [|destruct (Z.ltb_spec d (- (15 * 1000000)))];
    (rewrite i64_small by (unfold d, raw_start in *; lia)); unfold d; lia.
Qed.

(** Reports of which each is about another time than the one before. *)
Fixpoint reports_ok (start raw : Z) (srs : list SenderReport) (t : TrackSynchronizer) : Prop :=
  match srs with
  | [] => True
  | sr :: srs => in_range start sr t /\ raw_start sr t = raw /\ RTPTime sr <> lastSR t /\ reports_ok start raw srs (onSenderReport sr start t)
  end.

(** Reports of a sender whose clock keeps time move the start of a track by at most fifteen
    milliseconds each, towards that of its participant, until the two are the same. *)
Theorem drift_corrected start raw srs t : reports_ok start raw srs t ->
  let t' := foldl (fun t sr => onSenderReport sr start t) t srs in
  raw - ptsOffset t' - start = Nat.iter (length srs) corrected (raw - ptsOffset t - start) /\
  (Z.abs (raw - ptsOffset t - start) <= Z.of_nat (length srs) * maxDrift -> srs <> [] -> raw - ptsOffset t' - start = 0).
Proof.
  intros H. assert (raw - ptsOffset (foldl (fun t sr => onSenderReport sr start t) t srs) - start = Nat.iter (length srs) corrected (raw - ptsOffset t - start)) as E.
  { revert t H. induction srs as [|sr srs IH]; intros t H; [done|]. destruct H as (H1 & H2 & H3 & H4). cbn [foldl length]. rewrite IH by done.
    destruct (onSenderReport_spec sr start t H1 H3) as (E1 & _ & E3 & _). rewrite E1, H2 in E3. rewrite E3. by rewrite Nat.iter_succ_r. }
  cbn zeta. rewrite E. split; [done|]. clear E H. generalize (raw - ptsOffset t - start). clear. intros d Hd Hne.
  revert d Hd. induction srs as [|sr [|sr' srs] IH]; intros d Hd; [done| |].
  - cbn in *. unfold corrected. destruct (Z.ltb_spec maxDrift d); [|destruct (Z.ltb_spec d (- maxDrift))]; lia.
  - rewrite (Nat.iter_succ_r (length (sr' :: srs))). apply IH; [done|]. unfold corrected. cbn [length] in *.
    destruct (Z.ltb_spec maxDrift d); [|destruct (Z.ltb_spec d (- maxDrift))]; unfold maxDrift, millisecond in *; lia.
Qed.
End Clocks.

(** * Gaps *)

(** After a gap the packet gets the next number, and those after it are numbered on
    from there. *)
Lemma gap_renumbered now1 now2 pkt t lp : lastPacket t = Some lp -> lastTS t <> 0 -> getFrameDuration t <> 0 -> 0 <= lastSN t < 65536 ->
  maxSNDropout < u16 (u16 (SequenceNumber pkt + snOffset t) - lastSN t) -> maxSNDropout < u16 (lastSN t - u16 (SequenceNumber pkt + snOffset t)) ->
  exists ts pts pkt' t', adjust now1 now2 pkt t = Some (ts, pts, false, pkt', t') /\ SequenceNumber pkt' = u16 (lastSN t + 1) /\
    forall sn, u16 (sn + snOffset t') = u16 (lastSN t + 1 + (sn - SequenceNumber pkt)).
Proof.
  intros Hlp Hts Hfd Hsn H1 H2. unfold adjust. rewrite Hlp, (proj2 (Z.eqb_neq _ _)), (proj2 (Z.ltb_lt _ _)) by done. cbn [negb andb].
  rewrite (proj2 (Z.ltb_lt _ _)) by done. cbn [lastSN set_offsets]. unfold resetRTP.
  change (getFrameDuration (set_offsets _ _ _)) with (getFrameDuration t). rewrite (proj2 (Z.eqb_neq _ _)) by done. cbn [mbind option_bind].
  do 4 eexists. split; [done|]. split; [done|]. intros sn. cbn [snOffset set_timing set_offsets]. unfold u16.
  rewrite !Zplus_mod_idemp_r, Zminus_mod_idemp_l, Zminus_mod_idemp_r. rewrite (Z.add_assoc sn), Zplus_mod_idemp_r. f_equal. lia.
Qed.

(** A track that began more than a minute after the recording is reset by every frame that comes in
    time: its presentation times count from the start of the recording, and the check
    compares them with the time since the track began. *)
Theorem late_track_reset rate T0 off T a t now2 : 0 < rate -> 0 <= T0 <= T -> maxTSDiff < off < 2 ^ 61 -> in_sync rate T0 off T t ->
  T < a_T a < T + uint32Half -> u16 (u16 (a_sn a + snOffset t) - lastSN t) <= maxSNDropout -> (a_T a - T0) * conv_n (newRTPConverter rate) < 2 ^ 62 ->
  0 <= a_now a - (startedAt t + off) <= (a_T a - T0) * 1000000000 / rate -> getFrameDuration t <> 0 ->
  exists ts pts pkt t', adjust (a_now a) now2 (sent_packet a) t = Some (ts, pts, false, pkt, t').
Proof.
  intros Hr HT0 Ho [Hc Hf Hoff Hl Hp Hlp _] HT Hsn Hb Hn Hfd. unfold adjust. destruct (lastPacket t) as [lp|]; [|done].
  cbn [sent_packet SequenceNumber Timestamp]. rewrite (proj2 (Z.ltb_ge maxSNDropout (u16 (u16 (a_sn a + snOffset t) - lastSN t)))) by done.
  rewrite andb_false_r. cbn [andb]. rewrite Hl. rewrite unwrap_exact by (unfold uint32Overflow, uint32Half in *; lia).
  rewrite (proj2 (Z.eqb_neq (a_T a) T)) by lia. destruct (elapsed_bounds rate T0 off Hr ltac:(unfold maxTSDiff, minute, second in *; lia) (a_T a)) as [E1 E2]; [lia|done|].
  unfold getElapsed. rewrite Hf, Hc, Hoff, E1. unfold maxTSDiff, minute, second in *. rewrite (i64_small (_ / _ + _)) by lia.
  assert (Sub (a_now a) (startedAt t + off) = a_now a - (startedAt t + off)) as -> by (unfold Sub; lia).
  rewrite i64_small by lia. rewrite (proj2 (Z.ltb_lt _ _)) by lia.
  unfold resetRTP. rewrite (proj2 (Z.eqb_neq _ _)) by done. cbn [mbind option_bind]. by do 4 eexists.
Qed.

(** * The tracks of a participant *)

(** Each track of a participant is there, under one SSRC only, and each report is about one of them; each
    SSRC leads to a participant that has a track with it. *)
Record sync_ok (s : Synchronizer) : Prop := {
  ok_tracks p x ssrc t : participants s !! p = Some x -> tracks x !! ssrc = Some t -> is_Some (track_store s !! t);
  ok_below p x ssrc t : participants s !! p = Some x -> tracks x !! ssrc = Some t -> (t < next_ref s)%nat;
  ok_inj p x ssrc ssrc' t : participants s !! p = Some x -> tracks x !! ssrc = Some t -> tracks x !! ssrc' = Some t -> ssrc = ssrc';
  ok_reports p x ssrc : participants s !! p = Some x -> is_Some (senderReports x !! ssrc) -> is_Some (tracks x !! ssrc);
  ok_ssrc ssrc p : psBySSRC s !! ssrc = Some p -> exists x, participants s !! p = Some x /\ is_Some (tracks x !! ssrc);
  ok_identity i p : psByIdentity s !! i = Some p -> is_Some (participants s !! p);
  ok_refs p : is_Some (participants s !! p) -> (p < next_ref s)%nat;
}.

Section Participants.
Context {C : NtpClock}.

(** The store of tracks after the starts in a list were moved. *)
Lemma move_starts_spec e starts s : NoDup (fst <$> starts) -> Forall (fun ts => is_Some (track_store s !! fst ts)) starts ->
  let s' := foldl (move_start e) s starts in
  participants s' = participants s /\ next_ref s' = next_ref s /\ psBySSRC s' = psBySSRC s /\ psByIdentity s' = psByIdentity s /\
  (forall t y, track_store s !! t = Some y -> track_store s' !! t = Some y \/ exists st, (t, st) ∈ starts) /\
  (forall t, is_Some (track_store s' !! t) <-> is_Some (track_store s !! t)) /\
  forall t st y, (t, st) ∈ starts -> track_store s !! t = Some y ->
    track_store s' !! t = Some (if Sub st e =? 0 then y else set_offsets (snOffset y) (i64 (ptsOffset y + Sub st e)) y).
Proof.
  revert s. induction starts as [|[t0 st0] starts IH]; intros s Hn Hs; cbn [foldl].
  { cbn. repeat split; try done; [by left|]. by intros t st y []%not_elem_of_nil. }
  cbn [fmap list_fmap fst] in Hn. apply NoDup_cons in Hn as [Hn0 Hn]. apply Forall_cons in Hs as [[y0 Hy0] Hs]. cbn [fst] in Hy0.
  set (y0' := if Sub st0 e =? 0 then y0 else set_offsets (snOffset y0) (i64 (ptsOffset y0 + Sub st0 e)) y0).
  assert (exists s1, move_start e s (t0, st0) = s1 /\ participants s1 = participants s /\ next_ref s1 = next_ref s /\ psBySSRC s1 = psBySSRC s /\ psByIdentity s1 = psByIdentity s /\
    track_store s1 = <[t0 := y0']> (track_store s)) as (s1 & -> & P1 & P2 & P3 & P4 & P5).
  { eexists. split; [done|]. unfold move_start. cbn [fst snd]. rewrite Hy0. unfold y0'. destruct (_ =? 0); [|done]. by rewrite insert_id. }
  destruct (IH s1) as (Q1 & Q2 & Q3 & Q4 & Q5 & Q6 & Q7); [done| |].
  { eapply Forall_impl; [exact Hs|]. intros x Hx. rewrite P5, lookup_insert_is_Some'. by right. }
  cbn zeta in *. rewrite Q1, Q2, Q3, Q4. split; [done|]. split; [done|]. split; [done|]. split; [done|].
  assert (forall st, (t0, st) ∉ starts) as Hout by (intros st Hin; apply Hn0; by apply (list_elem_of_fmap_2 fst) in Hin).
  split; [|split].
  - intros t y Hy. destruct (decide (t = t0)) as [->|Hne]; [right; exists st0; left|]. destruct (Q5 t y) as [H|[st H]].
    + by rewrite P5, lookup_insert_ne.
    + by left.
    + right. exists st. by right.
  - intros t. rewrite Q6, P5, lookup_insert_is_Some'. naive_solver.
  - intros t st y Hin Hy. apply elem_of_cons in Hin as [[= -> ->]|Hin].
    + rewrite Hy0 in Hy. injection Hy as <-. destruct (Q5 t0 y0') as [H|[st' H]]; [by rewrite P5, lookup_insert_eq|done|]. by destruct (Hout st').
    + apply Q7; [done|]. rewrite P5, lookup_insert_ne; [done|]. intros ->. by destruct (Hout st).
Qed.

Lemma start_times_spec reports x s starts : start_times reports x s = Some starts ->
  Forall2 (fun r ts => tracks x !! fst r = Some (fst ts) /\ exists y, track_store s !! fst ts = Some y /\ snd ts = ntp_start (snd r) y) reports starts.
Proof.
  revert starts. induction reports as [|[ssrc sr] reports IH]; intros starts; cbn [start_times]; [intros [= <-]; constructor|].
  destruct (tracks x !! ssrc) as [t|] eqn:E1; [|done]. cbn [mbind option_bind]. destruct (track_store s !! t) as [y|] eqn:E2; [|done]. cbn [mbind option_bind].
  destruct (start_times reports x s) as [l|]; [|done]. cbn [mbind option_bind]. intros [= <-]. constructor; [|by apply IH]. cbn. by eauto.
Qed.

Lemma start_times_total reports x s : (forall ssrc, ssrc ∈ fst <$> reports -> exists t, tracks x !! ssrc = Some t /\ is_Some (track_store s !! t)) ->
  is_Some (start_times reports x s).
Proof.
  induction reports as [|[ssrc sr] reports IH]; intros H; cbn [start_times]; [by eexists|]. destruct (H ssrc) as (t & -> & y & Hy); [left|].
  cbn [mbind option_bind]. rewrite Hy. cbn [mbind option_bind]. destruct IH as [l ->]; [|by eexists]. intros k Hk. apply H. by right.
Qed.

Lemma earliest_spec starts : match earliest starts with
  | None => starts = []
  | Some e => (exists t, (t, e) ∈ starts) /\ forall t st, (t, st) ∈ starts -> e <= st
  end.
Proof.
  induction starts as [|[t st] starts IH]; cbn [earliest foldr]; [done|]. fold (earliest starts). destruct (earliest starts) as [e|]; cbn [snd].
  - destruct IH as [[t' Ht'] IH]. split.
    + destruct (Z.min_spec st e) as [[_ ->]|[_ ->]]; [exists t; left|exists t'; by right].
    + intros t1 st1 [[= -> ->]|H]%elem_of_cons; [lia|]. apply IH in H. lia.
  - subst. split; [exists t; left|]. intros t1 st1 [[= -> ->]|[]%not_elem_of_nil]%elem_of_cons. lia.
Qed.

Lemma starts_NoDup (R : Z * SenderReport -> nat * Z -> Prop) x reports starts :
  (forall ssrc ssrc' t, tracks x !! ssrc = Some t -> tracks x !! ssrc' = Some t -> ssrc = ssrc') ->
  Forall2 (fun r ts => tracks x !! fst r = Some (fst ts) /\ R r ts) reports starts -> NoDup (fst <$> reports) -> NoDup (fst <$> starts).
Proof.
  intros Hinj H. induction H as [|[ssrc sr] [t st] reports starts [Ht _] H IH]; cbn [fmap list_fmap fst] in *; [intros _; apply NoDup_nil_2|]. intros [Hn HN]%NoDup_cons.
  apply NoDup_cons. split; [|by apply IH]. intros Hin. apply Hn. clear -H Hin Ht Hinj.
  induction H as [|[ssrc' sr'] [t' st'] reports starts [Ht' _] H IH]; cbn [fmap list_fmap fst] in *; [by apply not_elem_of_nil in Hin|].
  apply elem_of_cons in Hin as [->|Hin]; [rewrite (Hinj ssrc ssrc' t') by done; left|right; by apply IH].
Qed.

Lemma synchronizeTracks_total p x s : sync_ok s -> participants s !! p = Some x -> exists starts,
  start_times (map_to_list (senderReports x)) x s = Some starts /\ NoDup (fst <$> starts) /\
  Forall (fun ts => is_Some (track_store s !! fst ts)) starts.
Proof.
  intros Hok Hp. destruct (start_times_total (map_to_list (senderReports x)) x s) as [starts E].
  { intros ssrc ([ssrc' sr] & -> & Hin)%list_elem_of_fmap. apply elem_of_map_to_list in Hin. destruct (ok_reports s Hok p x ssrc' Hp) as [t Ht]; [by eexists|].
    exists t. split; [done|]. by eapply ok_tracks. }
  exists starts. split; [done|]. apply start_times_spec in E. split.
  - eapply starts_NoDup; [|exact E|apply NoDup_fst_map_to_list]. intros ssrc ssrc' t. by eapply ok_inj.
  - clear -E. induction E as [|r ts reports starts (_ & y & Hy & _) E IH]; constructor; [by eexists|done].
Qed.

(** C33. The tracks of a participant are aligned: from a state that keeps the invariant [sync_ok] of the
    calls, with at least one report, [synchronizeTracks] returns, and afterwards all of the reports give the
    same start by the sender's clock, the earliest of those they gave before.  Elapsed times, offsets and
    the distances of the NTP times from a common base are below 2^59 ns. *)
Theorem tracks_aligned p x s base : sync_ok s -> participants s !! p = Some x -> senderReports x <> ∅ ->
  (forall ssrc sr t y, senderReports x !! ssrc = Some sr -> tracks x !! ssrc = Some t -> track_store s !! t = Some y -> in_range base sr y) ->
  exists s' x' e, synchronizeTracks p s = Some s' /\ participants s' !! p = Some x' /\ ntpStart x' = Some e /\ tracks x' = tracks x /\
    forall ssrc sr t y, senderReports x !! ssrc = Some sr -> tracks x !! ssrc = Some t -> track_store s !! t = Some y ->
      e <= ntp_start sr y /\ exists y', track_store s' !! t = Some y' /\ ntp_start sr y' = e.
Proof.
  intros Hok Hp Hne Hb. destruct (synchronizeTracks_total p x s Hok Hp) as (starts & E & HN & HF). unfold synchronizeTracks. rewrite Hp. cbn [mbind option_bind].
  rewrite E. cbn [mbind option_bind]. pose proof (earliest_spec starts) as He. apply start_times_spec in E.
  destruct (earliest starts) as [e|].
  2:{ subst. apply Forall2_nil_inv_r, map_to_list_empty_iff in E. done. }
  set (s1 := set_participant p _ s). destruct (move_starts_spec e starts s1 HN HF) as (Q1 & _ & _ & _ & _ & _ & Q7). cbn zeta in *.
  do 3 eexists. split; [done|]. rewrite Q1. split; [apply lookup_insert_eq|]. split; [done|]. split; [done|].
  intros ssrc sr t y Hsr Ht Hy. destruct He as [[t0 H0] He].
  assert (forall t st, (t, st) ∈ starts -> exists ssrc sr y, senderReports x !! ssrc = Some sr /\ tracks x !! ssrc = Some t /\ track_store s !! t = Some y /\ st = ntp_start sr y) as Hfrom.
  { intros t1 st1 [j Hj]%list_elem_of_lookup. destruct (Forall2_lookup_r _ _ _ _ _ E Hj) as ([k1 sr1] & Hr & Ht1 & y1 & Hy1 & Hs1).
    exists k1, sr1, y1. split; [|done]. apply elem_of_map_to_list. by eapply list_elem_of_lookup_2. }
  assert ((t, ntp_start sr y) ∈ starts) as Hin.
  { assert ((ssrc, sr) ∈ map_to_list (senderReports x)) as [j Hj]%list_elem_of_lookup by by apply elem_of_map_to_list.
    destruct (Forall2_lookup_l _ _ _ _ _ E Hj) as ([t1 st1] & Hr & Ht1 & y1 & Hy1 & Hs1). cbn in *. simplify_eq. by eapply list_elem_of_lookup_2. }
  split; [by eapply He|]. eexists. split; [exact (Q7 t _ y Hin Hy)|].
  destruct (Hfrom _ _ H0) as (k0 & sr0 & y0 & A1 & A2 & A3 & ->). pose proof (Hb _ _ _ _ A1 A2 A3) as B0. pose proof (Hb _ _ _ _ Hsr Ht Hy) as B.
  pose proof (He _ _ Hin) as Hle. rewrite (ntp_start_raw base) in Hle by done. rewrite (ntp_start_raw base sr y) in * by done. rewrite (ntp_start_raw base sr0 y0) in * by done.
  destruct B0 as (B1 & B2 & B3), B as (B4 & B5 & B6). set (d := Sub _ _). assert (d = raw_start sr y - ptsOffset y - (raw_start sr0 y0 - ptsOffset y0)) as Ed.
  { unfold d, Sub, raw_start. lia. }
  destruct (Z.eqb_spec d 0) as [E0|E0].
  - rewrite (ntp_start_raw base) by done. lia.
  - unfold ntp_start, getSenderReportPTS. cbn [ptsOffset set_offsets lastTS].
    change (getElapsed ?a (set_offsets _ _ y)) with (getElapsed a y). unfold raw_start in *. rewrite (i64_small (ptsOffset y + d)) by lia. rewrite i64_small by lia. lia.
Qed.
End Participants.

(** * Calls one after the other *)

(** Changes to tracks only. *)
Lemma sync_ok_tracks s s' : sync_ok s -> participants s' = participants s -> psBySSRC s' = psBySSRC s -> psByIdentity s' = psByIdentity s ->
  next_ref s' = next_ref s -> (forall t, is_Some (track_store s !! t) -> is_Some (track_store s' !! t)) -> sync_ok s'.
Proof.
  intros [H1 H2 H3 H4 H5 H6 H7] E1 E2 E3 E4 E5. split; rewrite ?E1, ?E2, ?E3, ?E4; eauto.
Qed.

(** One participant with other tracks and reports. *)
Lemma sync_ok_participant s p x' : sync_ok s -> is_Some (participants s !! p) ->
  (forall ssrc t, tracks x' !! ssrc = Some t -> is_Some (track_store s !! t) /\ (t < next_ref s)%nat) ->
  (forall ssrc ssrc' t, tracks x' !! ssrc = Some t -> tracks x' !! ssrc' = Some t -> ssrc = ssrc') ->
  (forall ssrc, is_Some (senderReports x' !! ssrc) -> is_Some (tracks x' !! ssrc)) ->
  (forall ssrc, psBySSRC s !! ssrc = Some p -> is_Some (tracks x' !! ssrc)) ->
  sync_ok (set_participant p x' s).
Proof.
  intros [H1 H2 H3 H4 H5 H6 H7] Hp A1 A2 A3 A4. split; cbn [participants track_store next_ref psBySSRC psByIdentity set_participant set_stores].
  - intros q y ssrc t. destruct (decide (q = p)) as [->|]; [rewrite lookup_insert_eq; intros [= <-] Ht; by eapply A1|rewrite lookup_insert_ne by done; apply H1].
  - intros q y ssrc t. destruct (decide (q = p)) as [->|]; [rewrite lookup_insert_eq; intros [= <-] Ht; by eapply A1|rewrite lookup_insert_ne by done; apply H2].
  - intros q y ssrc ssrc' t. destruct (decide (q = p)) as [->|]; [rewrite lookup_insert_eq; intros [= <-]; apply A2|rewrite lookup_insert_ne by done; apply H3].
  - intros q y ssrc. destruct (decide (q = p)) as [->|]; [rewrite lookup_insert_eq; intros [= <-]; apply A3|rewrite lookup_insert_ne by done; apply H4].
  - intros ssrc q Hq. destruct (decide (q = p)) as [->|]; [exists x'; rewrite lookup_insert_eq; split; [done|by apply A4]|rewrite lookup_insert_ne by done; by apply H5].
  - intros i q Hq. rewrite lookup_insert_is_Some'. right. by eapply H6.
  - intros q [->|?]%lookup_insert_is_Some'; by apply H7.
Qed.

Lemma NewSynchronizer_ok : sync_ok NewSynchronizer.
Proof. split; cbn; intros *; rewrite ?lookup_empty; try done. Qed.

(** The state between the two parts of [AddTrack], apart from the SSRC. *)
Lemma AddTrack_begin_ok track identity s t p s' : sync_ok s -> AddTrack_begin track identity s = (t, p, s') ->
  t = next_ref s /\ (t < next_ref s')%nat /\ is_Some (participants s' !! p) /\ is_Some (track_store s' !! t) /\
  psBySSRC s' = <[track_SSRC track := p]> (psBySSRC s) /\
  (forall q x ssrc, participants s' !! q = Some x -> tracks x !! ssrc <> Some t) /\
  sync_ok {| s_startedAt := s_startedAt s'; s_started := s_started s'; s_endedAt := s_endedAt s'; psByIdentity := psByIdentity s'; psBySSRC := psBySSRC s;
             ssrcByID := ssrcByID s'; participants := participants s'; track_store := track_store s'; next_ref := next_ref s' |}.
Proof.
  intros [H1 H2 H3 H4 H5 H6 H7]. unfold AddTrack_begin. destruct (psByIdentity s !! identity) as [q|] eqn:Ei; intros [= <- <- <-]; cbn.
  - split; [done|]. split; [lia|]. split; [by eapply H6|]. split; [rewrite lookup_insert_eq; by eexists|]. split; [done|].
    split; [intros r x ssrc Hr Ht; specialize (H2 _ _ _ _ Hr Ht); lia|].
    split; cbn; intros; eauto; [rewrite lookup_insert_is_Some'; right; by eapply H1| |]; [specialize (H2 p x ssrc t ltac:(done) ltac:(done)); lia|].
    specialize (H7 p ltac:(done)). lia.
  - split; [done|]. split; [lia|]. split; [rewrite lookup_insert_eq; by eexists|]. split; [rewrite lookup_insert_eq; by eexists|]. split; [done|].
    assert (forall r x, <[S (next_ref s):=newParticipant]> (participants s) !! r = Some x -> r = S (next_ref s) /\ x = newParticipant \/ participants s !! r = Some x) as Hcase.
    { intros r x. destruct (decide (r = S (next_ref s))) as [->|]; [rewrite lookup_insert_eq; intros [= <-]; by left|rewrite lookup_insert_ne by done; by right]. }
    split; [intros r x ssrc [[_ ->]|Hr]%Hcase Ht; [done|]; specialize (H2 _ _ _ _ Hr Ht); lia|].
    split; cbn.
    + intros r x ssrc t [[_ ->]|Hr]%Hcase Ht; [done|]. rewrite lookup_insert_is_Some'. right. by eapply H1.
    + intros r x ssrc t [[_ ->]|Hr]%Hcase Ht; [done|]. specialize (H2 _ _ _ _ Hr Ht). lia.
    + intros r x ssrc ssrc' t [[_ ->]|Hr]%Hcase; [done|]. by eapply H3.
    + intros r x ssrc [[_ ->]|Hr]%Hcase; [by intros []|]. by eapply H4.
    + intros ssrc r Hr. destruct (H5 _ _ Hr) as (x & Hx & Ht). exists x. split; [|done]. rewrite lookup_insert_ne; [done|]. intros <-.
      specialize (H7 _ ltac:(by eexists)). lia.
    + intros i r. destruct (decide (i = identity)) as [->|]; [rewrite lookup_insert_eq; intros [= <-]; rewrite lookup_insert_eq; by eexists|].
      rewrite lookup_insert_ne by done. intros Hr. rewrite lookup_insert_is_Some'. right. by eapply H6.
    + intros r [<-|Hr]%lookup_insert_is_Some'; [lia|]. specialize (H7 _ Hr). lia.
Qed.

Lemma AddTrack_ok track identity s : sync_ok s -> exists t s', AddTrack track identity s = Some (t, s') /\ sync_ok s' /\ s_endedAt s' = s_endedAt s.
Proof.
  intros Hok. unfold AddTrack. destruct (AddTrack_begin track identity s) as [[t p] s1] eqn:E.
  assert (s_endedAt s1 = s_endedAt s) as Ee by (unfold AddTrack_begin in E; destruct (psByIdentity s !! identity); by injection E as <- <- <-).
  apply AddTrack_begin_ok in E as (-> & Hlt & Hp & Ht & Es & Hf & Hs1); [|done]. set (s0 := {| psBySSRC := psBySSRC s |}) in Hs1.
  unfold AddTrack_end. destruct Hp as [x Hp]. rewrite Hp. cbn [mbind option_bind]. do 2 eexists. split; [done|]. split; [|done].
  set (x' := {| ntpStart := ntpStart x |}).
  assert (sync_ok (set_participant p x' s0)) as H.
  { pose proof Hs1 as [H1 H2 H3 H4 H5 H6 H7]. cbn [s0 participants track_store next_ref psBySSRC psByIdentity] in *.
    apply sync_ok_participant; [done|by eexists|..]; cbn [s0 x' tracks senderReports track_store next_ref psBySSRC].
    - intros ssrc t. destruct (decide (ssrc = track_SSRC track)) as [->|]; [rewrite lookup_insert_eq; intros [= <-]; done|].
      rewrite lookup_insert_ne by done. intros Hx. split; [by eapply H1|by eapply H2].
    - intros ssrc ssrc' t. destruct (decide (ssrc = track_SSRC track)) as [->|], (decide (ssrc' = track_SSRC track)) as [->|]; [done| | |];
        rewrite ?lookup_insert_eq, ?lookup_insert_ne by done; [intros [= <-] Hx|intros Hx [= <-]|by eapply H3]; by destruct (Hf _ _ _ Hp Hx).
    - intros ssrc Hx. rewrite lookup_insert_is_Some'. right. by eapply H4.
    - intros ssrc Hx. rewrite lookup_insert_is_Some'. right. destruct (H5 _ _ Hx) as (y & Hy & Hz). rewrite Hp in Hy. by injection Hy as <-. }
  pose proof H as [H1 H2 H3 H4 H5 H6 H7]. split; [exact H1|exact H2|exact H3|exact H4| |exact H6|exact H7].
  intros ssrc q. cbn [psBySSRC set_participant set_stores participants]. rewrite Es. destruct (decide (ssrc = track_SSRC track)) as [->|].
  - rewrite lookup_insert_eq. intros [= <-]. exists x'. rewrite lookup_insert_eq. split; [done|]. cbn. rewrite lookup_insert_eq. by eexists.
  - rewrite lookup_insert_ne by done. apply H5.
Qed.

Lemma RemoveTrack_ok id s : sync_ok s -> exists s', RemoveTrack id s = Some s' /\ sync_ok s' /\ s_endedAt s' = s_endedAt s.
Proof.
  intros Hok. unfold RemoveTrack, RemoveTrack_begin. set (ssrc := default 0 (ssrcByID s !! id)). set (s1 := {| psBySSRC := delete ssrc (psBySSRC s) |}).
  assert (sync_ok s1) as H1.
  { destruct Hok as [H1 H2 H3 H4 H5 H6 H7]. split; cbn; eauto. intros k q. rewrite lookup_delete_Some. intros [_ Hq]. eauto. }
  destruct (psBySSRC s !! ssrc) as [p|] eqn:Ep; [|by eexists]. destruct (ok_ssrc s Hok _ _ Ep) as (x & Hx & _). unfold RemoveTrack_end.
  change (participants s1) with (participants s). rewrite Hx. cbn [mbind option_bind]. eexists. split; [done|].
  set (s2 := match tracks x !! ssrc with Some _ => _ | None => _ end).
  assert (sync_ok s2 /\ participants s2 = participants s /\ psBySSRC s2 = delete ssrc (psBySSRC s) /\ s_endedAt s2 = s_endedAt s) as (H2 & E2 & E3 & E4).
  { unfold s2. destruct (tracks x !! ssrc) as [t|]; [|done]. destruct (track_store s1 !! t) as [y|]; [|done]. split; [|done].
    eapply sync_ok_tracks; [exact H1|done..|]. intros t'. cbn. rewrite lookup_insert_is_Some'. by right. }
  split; [|done]. pose proof H2 as [A1 A2 A3 A4 A5 A6 A7]. rewrite E2 in *. apply sync_ok_participant; [done|rewrite E2; by eexists|..]; cbn [tracks senderReports].
  - intros k t. rewrite lookup_delete_Some. intros [_ Ht]. split; [by eapply A1|by eapply A2].
  - intros k k' t. rewrite !lookup_delete_Some. intros [_ ?] [_ ?]. by eapply A3.
  - intros k. rewrite !lookup_delete_is_Some. intros [? Hk]. split; [done|]. by eapply A4.
  - intros k. rewrite E3, lookup_delete_Some, lookup_delete_is_Some. intros [Hk Hp]. split; [done|]. destruct (ok_ssrc s Hok _ _ Hp) as (x1 & Hx1 & Ht). rewrite Hx in Hx1. by injection Hx1 as <-.
Qed.

Lemma InitializeTrack_ok now t pkt s s' : sync_ok s -> InitializeTrack now t pkt s = Some s' -> sync_ok s'.
Proof.
  intros Hok. unfold InitializeTrack. destruct (track_store s !! t) as [y|] eqn:E; [|done]. cbn [mbind option_bind]. destruct (sync y); [|done].
  unfold getOrSetStartedAt. destruct (_ =? 0); intros [= <-]; (eapply sync_ok_tracks; [exact Hok|done..|]); intros t'; cbn; rewrite lookup_insert_is_Some'; by right.
Qed.

Lemma End_ok now s : sync_ok s -> sync_ok (End_ now s).
Proof.
  intros Hok. eapply sync_ok_tracks; [exact Hok|done..|]. intros t [y Hy]. cbn. rewrite map_lookup_imap, Hy. by eexists.
Qed.

Section Calls.
Context {C : NtpClock}.

Lemma synchronizeTracks_ok p x s : sync_ok s -> participants s !! p = Some x -> exists s', synchronizeTracks p s = Some s' /\ sync_ok s'.
Proof.
  intros Hok Hp. destruct (synchronizeTracks_total p x s Hok Hp) as (starts & E & HN & HF). unfold synchronizeTracks. rewrite Hp. cbn [mbind option_bind].
  rewrite E. cbn [mbind option_bind]. set (s1 := set_participant p _ s).
  assert (sync_ok s1) as H1.
  { pose proof Hok as [A1 A2 A3 A4 A5 A6 A7]. apply sync_ok_participant; [done|by eexists|..]; cbn [tracks senderReports].
    - intros k t Ht. split; [by eapply A1|by eapply A2].
    - intros k k' t. by eapply A3.
    - intros k. by eapply A4.
    - intros k Hk. destruct (A5 _ _ Hk) as (x1 & Hx1 & Ht). rewrite Hp in Hx1. by injection Hx1 as <-. }
  destruct (earliest starts) as [e|]; [|by eexists]. eexists. split; [done|].
  destruct (move_starts_spec e starts s1 HN HF) as (Q1 & Q2 & Q3 & Q4 & _ & Q6 & _). cbn zeta in *. eapply sync_ok_tracks; [exact H1|done..|]. intros t Ht. by apply Q6.
Qed.

Lemma OnRTCP_ok sr s : sync_ok s -> exists s', OnRTCP sr s = Some s' /\ sync_ok s'.
Proof.
  intros Hok. unfold OnRTCP, OnRTCP_begin. destruct (_ =? 0); [|by eexists]. destruct (psBySSRC s !! SSRC sr) as [p|] eqn:Ep; [|by eexists].
  destruct (ok_ssrc s Hok _ _ Ep) as (x & Hx & Ht). pose proof Hok as [A1 A2 A3 A4 A5 A6 A7].
  unfold participant_onSenderReport. rewrite Hx. cbn [mbind option_bind]. destruct (ntpStart x) as [start|].
  - destruct Ht as [t Ht]. rewrite Ht. destruct (A1 _ _ _ _ Hx Ht) as [y Hy]. rewrite Hy. cbn [mbind option_bind]. eexists. split; [done|].
    eapply sync_ok_tracks; [exact Hok|done..|]. intros t'. cbn. rewrite lookup_insert_is_Some'. by right.
  - set (x' := {| ntpStart := None; tracks := tracks x; senderReports := _ |}). assert (sync_ok (set_participant p x' s)) as H1.
    { apply sync_ok_participant; [done|by eexists|..]; cbn [x' tracks senderReports].
      - intros k t Hk. split; [by eapply A1|by eapply A2].
      - intros k k' t. by eapply A3.
      - intros k [<-|Hk]%lookup_insert_is_Some'; [done|]. by eapply A4.
      - intros k Hk. destruct (A5 _ _ Hk) as (x1 & Hx1 & Hk'). rewrite Hx in Hx1. by injection Hx1 as <-. }
    destruct (_ =? _)%nat; [|by eexists]. eapply synchronizeTracks_ok; [done|]. cbn. apply lookup_insert_eq.
Qed.

(** Calls that do not overlap. *)
Inductive call :=
| CallAdd (track : TrackRemote) (identity : string)
| CallRemove (trackID : string)
| CallRTCP (sr : SenderReport)
| CallEnd (now : Z).

Definition run_call (c : call) (s : Synchronizer) : option Synchronizer :=
  match c with
  | CallAdd track identity => snd <$> AddTrack track identity s
  | CallRemove id => RemoveTrack id s
  | CallRTCP sr => OnRTCP sr s
  | CallEnd now => Some (End_ now s)
  end.

Fixpoint run_calls (cs : list call) (s : Synchronizer) : option Synchronizer :=
  match cs with [] => Some s | c :: cs => s ← run_call c s; run_calls cs s end.

Lemma run_calls_ok cs s : sync_ok s -> exists s', run_calls cs s = Some s' /\ sync_ok s'.
Proof.
  revert s. induction cs as [|c cs IH]; intros s Hok; [by eexists|]. cbn [run_calls].
  assert (exists s1, run_call c s = Some s1 /\ sync_ok s1) as (s1 & -> & H1).
  { destruct c as [track identity|id|sr|now]; cbn [run_call].
    - destruct (AddTrack_ok track identity s Hok) as (t & s1 & -> & H1 & _). by exists s1.
    - destruct (RemoveTrack_ok id s Hok) as (s1 & E & H1 & _). by exists s1.
    - by apply OnRTCP_ok.
    - exists (End_ now s). split; [done|]. by apply End_ok. }
  by apply IH.
Qed.

(** Calls that add and remove tracks, deliver reports and end the recording never panic as long as they do not
    overlap, and every report that is kept is about a track that is there. *)
Theorem calls_never_panic cs : exists s, run_calls cs NewSynchronizer = Some s /\ sync_ok s.
Proof. apply run_calls_ok, NewSynchronizer_ok. Qed.
End Calls.

(** * The end *)

Lemma foldr_max_le {A} (f : A -> Z) l x : x ∈ l -> f x <= foldr (fun a m => Z.max (f a) m) 0 l.
Proof. induction l as [|y l IH]; [by intros []%not_elem_of_nil|]. intros [->|H]%elem_of_cons; cbn [foldr]; [lia|]. specialize (IH H). lia. Qed.

Lemma drained_in s i p x ssrc t : psByIdentity s !! i = Some p -> participants s !! p = Some x -> tracks x !! ssrc = Some t ->
  x ∈ all_participants s /\ drained s t = true.
Proof.
  intros Hi Hp Ht. assert (x ∈ all_participants s) as Hin.
  { unfold all_participants. apply list_elem_of_omap. exists (i, p). split; [by apply elem_of_map_to_list|done]. }
  split; [done|]. unfold drained. apply existsb_exists. exists x. split; [by apply list_elem_of_In|]. apply existsb_exists. exists (ssrc, t).
  split; [apply list_elem_of_In; by apply elem_of_map_to_list|]. apply Nat.eqb_refl.
Qed.

(** The end of a recording is set for every track of it, and late enough for all of them: what a track shows at
    that moment, with its offset, is not after it.  Later frames, and frames that are not valid, are the end of the track. *)
Theorem end_covers now s i p x ssrc t y : psByIdentity s !! i = Some p -> participants s !! p = Some x -> tracks x !! ssrc = Some t -> track_store s !! t = Some y ->
  (forall j q z k u v, psByIdentity s !! j = Some q -> participants s !! q = Some z -> tracks z !! k = Some u -> track_store s !! u = Some v -> ptsOffset v < 2 ^ 61) ->
  0 < now - s_startedAt s < 2 ^ 61 ->
  exists y', track_store (End_ now s) !! t = Some y' /\ now - s_startedAt s + ptsOffset y <= maxPTS y' /\ 0 < maxPTS y' /\
    maxPTS y' = s_endedAt (End_ now s) - s_startedAt s /\
    forall now1 now2 now3 pkt ts pts valid pkt' y1, adjust now1 now2 pkt y' = Some (ts, pts, valid, pkt', y1) -> lastPTS y' <= pts ->
      maxPTS y' < pts \/ valid = false -> exists y2, GetPTS now1 now2 now3 pkt y' = Some (Err EOF, pkt', y2).
Proof.
  intros Hi Hp Ht Hy Hb Hn. destruct (drained_in _ _ _ _ _ _ Hi Hp Ht) as [Hin Hd].
  set (m := foldr (fun x m => Z.max (getMaxOffset x s) m) 0 (all_participants s)).
  assert (ptsOffset y <= m) as Hle.
  { transitivity (getMaxOffset x s); [|exact (foldr_max_le (fun x => getMaxOffset x s) _ _ Hin)]. apply (foldr_max_le ptsOffset).
    unfold tracks_of. apply list_elem_of_omap. exists (ssrc, t). split; [by apply elem_of_map_to_list|done]. }
  assert (0 <= m < 2 ^ 61) as Hm.
  { unfold m. assert (forall z, z ∈ all_participants s -> getMaxOffset z s < 2 ^ 61) as Hz.
    { intros z ([j q] & Hjq & Hz)%list_elem_of_omap. apply elem_of_map_to_list in Hjq. unfold getMaxOffset.
      assert (forall v, v ∈ tracks_of z s -> ptsOffset v < 2 ^ 61) as Hv.
      { intros v ([k u] & Hku & Hv)%list_elem_of_omap. apply elem_of_map_to_list in Hku. by eapply Hb. }
      clear -Hv. induction (tracks_of z s) as [|v l IH]; cbn [foldr]; [lia|]. specialize (IH ltac:(intros w Hw; apply Hv; by right)). specialize (Hv v ltac:(left)). lia. }
    clear -Hz. induction (all_participants s) as [|z l IH]; cbn [foldr]; [lia|]. specialize (IH ltac:(intros w Hw; apply Hz; by right)). specialize (Hz z ltac:(left)). lia. }
  unfold End_. fold m. cbn [track_store s_endedAt]. rewrite map_lookup_imap, Hy. cbn [mbind option_bind]. rewrite Hd. eexists. split; [done|]. cbn [set_end set_timing maxPTS].
  rewrite i64_small by lia. split; [lia|]. split; [lia|]. split; [done|]. intros now1 now2 now3 pkt ts pts valid pkt' y1 E E2 E3. pose proof (adjust_lastPTS _ _ _ _ _ _ _ _ _ E) as [E0 E1].
  unfold GetPTS. rewrite E. cbn [mbind option_bind].
  rewrite (proj2 (Z.ltb_ge _ _)) by (rewrite E0; done).
  assert ((0 <? maxPTS y1) && ((maxPTS y1 <? pts) || negb valid) = true) as Eof.
  { rewrite E1. apply andb_true_iff. split; [apply Z.ltb_lt; cbn; lia|]. apply orb_true_iff. destruct E3 as [H| ->]; [left; by apply Z.ltb_lt|by right]. }
  destruct (valid && _ && _); cbn [maxPTS set_reports set_previous]; rewrite Eof; by eexists.
Qed.

(** * Concrete runs *)

Module TestSync.
(** A sender whose clock counts nanoseconds. *)
#[export] Instance plain_clock : NtpClock := {| NtpTime x := x |}.

(** A video track whose timestamps are about to wrap around. *)
Definition first_packet : packet := {| SequenceNumber := 10; Timestamp := 4294964296 |}.
Definition frames : list arrival :=
  [{| a_sn := 11; a_T := 4294967296; a_now := second + 33 * millisecond |}; {| a_sn := 12; a_T := 4294970296; a_now := second + 66 * millisecond |}].

Lemma pts_exact_witness : exists t t', GetPTS second second second first_packet (Initialize second second first_packet (newTrackSynchronizer RTPCodecTypeVideo 90000)) = Some (Ok 0, first_packet, t) /\
  play frames t = Some ([Ok 33333333; Ok 66666666], t').
Proof.
  destruct (pts_exact 90000 RTPCodecTypeVideo 4294964296 10 second second) as (t & E & H); [lia|unfold uint32Overflow; lia|lia|].
  destruct (H frames) as (t' & E').
  { vm_compute in E. injection E as <-. split; [|split; [|exact I]]; vm_compute; repeat split; congruence. }
  exists t, t'. split; [exact E|]. rewrite E'. reflexivity.
Defined.

(** Two tracks of a participant and a report for each: the second one aligns them. *)
Definition two_tracks : list call :=
  [CallAdd {| track_ID := "a"; track_SSRC := 1; track_kind := RTPCodecTypeAudio; track_rate := 48000 |} "alice";
   CallAdd {| track_ID := "v"; track_SSRC := 2; track_kind := RTPCodecTypeVideo; track_rate := 90000 |} "alice";
   CallRTCP {| SSRC := 1; NTPTime := 5000000; RTPTime := 48 |}].
Definition video_report : SenderReport := {| SSRC := 2; NTPTime := 9000000; RTPTime := 9 |}.

(** Both reports, before the alignment. *)
Definition reported : option Synchronizer :=
  s ← run_calls two_tracks NewSynchronizer;
  x ← participants s !! 1%nat;
  Some (set_participant 1 {| ntpStart := ntpStart x; tracks := tracks x; senderReports := <[2 := video_report]> (senderReports x) |} s).

(** The starts of the tracks by their reports. *)
Definition starts_of (s : Synchronizer) : option (list (nat * Z)) :=
  x ← participants s !! 1%nat; start_times (map_to_list (senderReports x)) x s.

Example starts_aligned : (reported ≫= starts_of) = Some [(2%nat, 8900000); (0%nat, 4000000)] /\
  ((reported ≫= synchronizeTracks 1) ≫= starts_of) = Some [(2%nat, 4000000); (0%nat, 4000000)] /\
  (reported ≫= synchronizeTracks 1) = (run_calls (two_tracks ++ [CallRTCP video_report]) NewSynchronizer).
Proof. repeat split; vm_compute; reflexivity. Qed.

#[local] Instance in_range_dec base sr t : Decision (in_range base sr t).
Proof. unfold in_range. apply _. Defined.

Definition all_in_range (base : Z) (s : Synchronizer) (x : participantSynchronizer) : Prop :=
  map_Forall (fun ssrc sr => match tracks x !! ssrc ≫= fun t => track_store s !! t with Some y => in_range base sr y | None => True end) (senderReports x).
#[local] Instance all_in_range_dec base s x : Decision (all_in_range base s x).
Proof.
  apply map_Forall_dec. intros ssrc sr. destruct (tracks x !! ssrc ≫= fun t => track_store s !! t) as [y|]; [|left; exact I].
  destruct (in_range_dec base sr y); [left|right]; assumption.
Defined.

Lemma tracks_aligned_witness : exists s x s' x' e, run_calls (two_tracks ++ [CallRTCP video_report]) NewSynchronizer = Some s /\ participants s !! 1%nat = Some x /\
  synchronizeTracks 1 s = Some s' /\ participants s' !! 1%nat = Some x' /\ ntpStart x' = Some e.
Proof.
  destruct (run_calls_ok (two_tracks ++ [CallRTCP video_report]) NewSynchronizer NewSynchronizer_ok) as (s & E & Hok).
  destruct (participants s !! 1%nat) as [x|] eqn:Ex.
  2:{ exfalso. vm_compute in E. injection E as <-. vm_compute in Ex. discriminate Ex. }
  destruct (tracks_aligned 1 x s 0 Hok Ex) as (s' & x' & e & H1 & H2 & H3 & _).
  - intros Hx. vm_compute in E. injection E as <-. vm_compute in Ex. injection Ex as <-. vm_compute in Hx. discriminate Hx.
  - assert (all_in_range 0 s x) as Hr.
    { vm_compute in E. injection E as <-. vm_compute in Ex. injection Ex as <-. apply (bool_decide_unpack _). vm_compute. exact I. }
    intros ssrc sr t y A1 A2 A3. specialize (Hr ssrc sr A1). cbn beta in Hr. rewrite A2 in Hr. cbn [mbind option_bind] in Hr. rewrite A3 in Hr. exact Hr.
  - exists s, x, s', x', e. split; [exact E|]. split; [exact Ex|]. split; [exact H1|]. split; [exact H2|exact H3].
Defined.

(** A track 20 milliseconds off: two reports are enough. *)
Definition off_track : TrackSynchronizer := newTrackSynchronizer RTPCodecTypeAudio 48000.
Definition two_reports : list SenderReport :=
  [{| SSRC := 1; NTPTime := 21 * millisecond; RTPTime := 48 |}; {| SSRC := 1; NTPTime := 22 * millisecond; RTPTime := 96 |}].

Lemma drift_corrected_witness : 20 * millisecond - ptsOffset (foldl (fun t sr => onSenderReport sr 0 t) off_track two_reports) - 0 = 0.
Proof.
  destruct (drift_corrected 0 (20 * millisecond) two_reports off_track) as [_ H].
  - repeat split; vm_compute; congruence.
  - apply H; [vm_compute; congruence|discriminate].
Defined.

(** The end of the recording of the two tracks. *)
Definition started_pair : option Synchronizer :=
  s ← run_calls two_tracks NewSynchronizer; s ← InitializeTrack second 0 first_packet s; InitializeTrack (3 * second) 2 first_packet s.

Example end_waits_for_last : ((fun s => (s_endedAt (End_ (10 * second) s), maxPTS <$> track_store (End_ (10 * second) s) !! 0%nat)) <$> started_pair) = Some (12 * second, Some (11 * second)).
Proof. vm_compute. reflexivity. Qed.

(** A report that arrives while its track is being added: the participant has as many reports as tracks, and the one it has
    is about a track that is not there yet. *)
Example report_while_adding_panics :
  (s ← run_calls [CallAdd {| track_ID := "a"; track_SSRC := 1; track_kind := RTPCodecTypeAudio; track_rate := 48000 |} "alice"] NewSynchronizer;
   let '(t, p, s) := AddTrack_begin {| track_ID := "v"; track_SSRC := 2; track_kind := RTPCodecTypeVideo; track_rate := 90000 |} "alice" s in
   OnRTCP video_report s) = None.
Proof. vm_compute. reflexivity. Qed.

(** A track that starts a minute and a second after the recording: the second frame has the time of the first. *)
Example late_track_stuck : exists t, GetPTS (61 * second) (61 * second) (61 * second) first_packet (Initialize (62 * second) second first_packet (newTrackSynchronizer RTPCodecTypeVideo 90000)) = Some (Ok (61 * second), first_packet, t) /\
  option_map fst (play [{| a_sn := 11; a_T := 4294967296; a_now := 61 * second + 33 * millisecond |}; {| a_sn := 12; a_T := 4294970296; a_now := 61 * second + 66 * millisecond |}] t) =
    Some [Ok (61 * second); Ok (61 * second)].
Proof. eexists. split; [vm_compute; reflexivity|vm_compute; reflexivity]. Qed.

(** A new sender whose timestamps are much smaller: every packet is a reset, and frames share their times. *)
Example smaller_timestamps_reset : exists t, GetPTS second second second {| SequenceNumber := 10; Timestamp := 4000000000 |}
    (Initialize second second {| SequenceNumber := 10; Timestamp := 4000000000 |} (newTrackSynchronizer RTPCodecTypeVideo 90000)) = Some (Ok 0, {| SequenceNumber := 10; Timestamp := 4000000000 |}, t) /\
  option_map fst (play [{| a_sn := 11; a_T := 4000003000; a_now := second + 33 * millisecond |};
      {| a_sn := 20000; a_T := 500000000; a_now := second + 67 * millisecond |}; {| a_sn := 20001; a_T := 500003000; a_now := second + 100 * millisecond |};
      {| a_sn := 20002; a_T := 500006000; a_now := second + 133 * millisecond |}] t) = Some [Ok 33333333; Ok 66666666; Ok 66666666; Ok 66666666].
Proof. eexists. split; [vm_compute; reflexivity|vm_compute; reflexivity]. Qed.

(** The packet before which a frame is inserted is renumbered, and renumbered again when its turn comes; a frame that is refused
    leaves a gap in the numbers. *)
Definition playing : TrackSynchronizer :=
  match GetPTS second second second first_packet (Initialize second second first_packet (newTrackSynchronizer RTPCodecTypeVideo 90000)) with
  | Some (_, _, t) => t
  | None => off_track
  end.

Example next_renumbered_twice :
  ('(_, pkt, next, t) ← InsertFrameBefore second second first_packet {| SequenceNumber := 11; Timestamp := 6000 |} playing;
   nx ← next;
   '(r, nx, t) ← GetPTS (second + 100 * millisecond) 0 0 nx t;
   Some (SequenceNumber pkt, SequenceNumber nx)) = Some (11, 13).
Proof. vm_compute. reflexivity. Qed.

Example refused_frame_leaves_gap :
  ('(pts, _, _, t) ← InsertFrameBefore second second first_packet {| SequenceNumber := 11; Timestamp := 0 |} playing; Some (pts, snOffset t)) = Some (None, 1).
Proof. vm_compute. reflexivity. Qed.
End TestSync.
