(* ===== verification/ZitiIdentity.v ===== *)
(** Identities of the OpenZiti controller (lib/openziti/identity.go): the roles
    of this program and what each may dial, and the calls that create, read,
    change and delete an identity over the controller's management interface.

    The controller is a parameter: [Controller] is what is called of it.  A body is the JSON value it
    is the text of, [None] if it is not JSON. *)

From S2P Require Import Prelude GoText.

#[local] Open Scope string_scope.
#[local] Open Scope list_scope.
#[local] Open Scope Z_scope.

(** * JSON *)

Inductive json :=
| JNull
| JBool (b : bool)
| JNumber (z : Z)
| JString (s : string)
| JArray (l : list json)
| JObject (l : list (string * json)).

(** The value a field of a struct is decoded from: the last key that is equal
    to its name but for case. *)
Definition field (name : string) (l : list (string * json)) : option json :=
  snd <$> last (filter (fun kv => ToLower (fst kv) = ToLower name) l).

(** Decoding into a field: what is missing or null leaves the zero value;
    [None] is an error. *)
Definition decode {A} (zero : A) (d : json -> option A) (v : option json) : option A :=
  match v with None | Some JNull => Some zero | Some v => d v end.
Definition decode_bool (v : json) : option bool := match v with JBool b => Some b | _ => None end.
Definition decode_string (v : json) : option string := match v with JString s => Some s | _ => None end.
Definition decode_strings (v : json) : option (list string) :=
  match v with JArray l => mapM (fun x => decode "" decode_string (Some x)) l | _ => None end.
Definition decode_struct {A} (d : list (string * json) -> option A) (v : json) : option A :=
  match v with JObject l => d l | _ => None end.

(** * Roles *)

Definition RoleAdmin := "admin".
Definition RoleEnroller := "enroller".
Definition RoleDevice := "device".
Definition RoleDevicePendingEnroll := "device-pending-enroll".
Definition RoleInactive := "inactive".

Inductive identity_error := errInvalidRole | errRequest | errBody | errCreate | errUpdate | errDelete | errJson.

(** [os.Getenv] is a parameter. *)
Definition GetRoleAttributes (getenv : string -> string) (role : string) : result identity_error (list string) :=
  let dial service := getenv service +:+ ".dial" in
  if String.eqb role RoleAdmin then
    Ok [dial "ZITI_SERVICE_API"; dial "ZITI_SERVICE_FRONTEND"; dial "ZITI_SERVICE_LIVEKIT_RTC"; dial "ZITI_SERVICE_LIVEKIT";
        dial "ZITI_SERVICE_TURN"; dial "ZITI_SERVICE_ZAC"]
  else if String.eqb role RoleEnroller then Ok [dial "ZITI_SERVICE_DMZ"]
  else if String.eqb role RoleDevicePendingEnroll then Ok [dial "ZITI_SERVICE_DMZ"]
  else if String.eqb role RoleDevice then
    Ok [dial "ZITI_SERVICE_LIVEKIT_RTC"; dial "ZITI_SERVICE_LIVEKIT"; dial "ZITI_SERVICE_NATS"; dial "ZITI_SERVICE_TURN"]
  else if String.eqb role RoleInactive then Ok []
  else Err errInvalidRole.

(** * Requests *)

Inductive http_method := POST | PATCH | GET | DELETE.

Record request := { method : http_method; url : string; body : option json; session : string }.
Record response := { StatusCode : Z; answer : option json }.

(** The data of an identity as this program reads it. *)
Record zitiIdentity := { IsAdmin : bool; JWT : string; RoleAttributes : list string }.

Definition decode_created : option json -> option string :=
  decode "" (decode_struct (fun l => decode "" (decode_struct (fun l => decode "" decode_string (field "id" l))) (field "data" l))).

Definition decode_jwt : option json -> option string :=
  decode "" (decode_struct (fun l => decode "" (decode_struct (fun l => decode "" decode_string (field "jwt" l))) (field "ott" l))).

Definition zeroIdentity : zitiIdentity := {| IsAdmin := false; JWT := ""; RoleAttributes := [] |}.

Definition decode_identity : option json -> option zitiIdentity :=
  decode zeroIdentity (decode_struct (fun l => decode zeroIdentity (decode_struct (fun l =>
    a ← decode false decode_bool (field "isAdmin" l);
    j ← decode_jwt (field "enrollment" l);
    r ← decode [] decode_strings (field "roleAttributes" l);
    Some {| IsAdmin := a; JWT := j; RoleAttributes := r |})) (field "data" l))).

(** [client.Do] with the whole body: no response, or one whose body could not
    be read ([None]) or was read. *)
Class Controller := {
  world : Type;
  Do : request -> world -> option (Z * option (option json)) * world;
}.

Section Identity.
Context {C : Controller} (getenv : string -> string) (SessionToken : string).

Definition identities_url : string := getenv "ZITI_CTRL_URL" +:+ "/edge/management/v1/identities".

Definition identity_body (name role : string) (roleAttributes : list string) : json :=
  JObject [("isAdmin", JBool (String.eqb role RoleAdmin)); ("name", JString name); ("type", JString "User");
           ("enrollment", JObject [("ott", JBool true)]); ("roleAttributes", JArray (JString <$> roleAttributes))].

(** A request and the reading of its answer. *)
Definition call (r : request) (w : world) : result identity_error response * world :=
  match Do r w with
  | (None, w) => (Err errRequest, w)
  | (Some (_, None), w) => (Err errBody, w)
  | (Some (code, Some b), w) => (Ok {| StatusCode := code; answer := b |}, w)
  end.

(** [json.Unmarshal] into a struct; what is not JSON is an error. *)
Definition unmarshal {A} (d : option json -> option A) (b : option json) : result identity_error A :=
  match b with
  | None => Err errJson
  | Some v => match d (Some v) with Some a => Ok a | None => Err errJson end
  end.

Definition GetIdentity (id : string) (w : world) : result identity_error zitiIdentity * world :=
  match call {| method := GET; url := identities_url +:+ "/" +:+ id; body := None; session := SessionToken |} w with
  | (Err e, w) => (Err e, w)
  | (Ok resp, w) => (unmarshal decode_identity (answer resp), w)
  end.

Definition CreateIdentity (name role : string) (w : world) : result identity_error (string * string) * world :=
  match GetRoleAttributes getenv role with
  | Err e => (Err e, w)
  | Ok roleAttributes =>
      match call {| method := POST; url := identities_url; body := Some (identity_body name role roleAttributes); session := SessionToken |} w with
      | (Err e, w) => (Err e, w)
      | (Ok resp, w) =>
          if negb (StatusCode resp =? 201) then (Err errCreate, w)
          else
            match unmarshal decode_created (answer resp) with
            | Err e => (Err e, w)
            | Ok id =>
                match GetIdentity id w with
                | (Err e, w) => (Err e, w)
                | (Ok iden, w) => (Ok (id, JWT iden), w)
                end
            end
      end
  end.

Definition UpdateIdentity (id name role : string) (w : world) : option identity_error * world :=
  match GetRoleAttributes getenv role with
  | Err e => (Some e, w)
  | Ok roleAttributes =>
      match call {| method := PATCH; url := identities_url +:+ "/" +:+ id; body := Some (identity_body name role roleAttributes); session := SessionToken |} w with
      | (Err e, w) => (Some e, w)
      | (Ok resp, w) => (if negb (StatusCode resp =? 200) then Some errUpdate else None, w)
      end
  end.

(** The body is read only when the status is an error. *)
Definition DeleteIdentity (id : string) (w : world) : option identity_error * world :=
  match Do {| method := DELETE; url := identities_url +:+ "/" +:+ id; body := None; session := SessionToken |} w with
  | (None, w) => (Some errRequest, w)
  | (Some (code, b), w) =>
      if negb (code =? 200) then (Some (match b with None => errBody | Some _ => errDelete end), w) else (None, w)
  end.
End Identity.

(** [GetIdentity] does not look at the status of the answer: the error the controller reports for
    an identity that does not exist is read as an identity without services. *)
Theorem absent_identity_read {C : Controller} getenv tok id w w' e :
  Do {| method := GET; url := identities_url getenv +:+ "/" +:+ id; body := None; session := tok |} w = (Some (404, Some (Some (JObject [("error", e)]))), w') ->
  GetIdentity getenv tok id w = (Ok zeroIdentity, w').
Proof. intros E. unfold GetIdentity, call. rewrite E. reflexivity. Qed.

Lemma append_cancel_r s a : forall b, a +:+ s = b +:+ s -> a = b.
Proof.
  induction a as [|c a IH]; intros [|d b] E; [done| | |].
  - apply (f_equal String.length) in E. rewrite !append_length in E. simpl in E. lia.
  - apply (f_equal String.length) in E. rewrite !append_length in E. simpl in E. lia.
  - change (String c (a +:+ s) = String d (b +:+ s)) in E. injection E as -> E. f_equal. by apply IH.
Qed.

(** When the services have different names, only administrators may dial the
    services of administrators, and only devices the message queue. *)
Theorem services_of_roles getenv role attrs : GetRoleAttributes getenv role = Ok attrs ->
  (forall s s', getenv s = getenv s' -> s = s') ->
  (forall s, s ∈ ["ZITI_SERVICE_API"; "ZITI_SERVICE_FRONTEND"; "ZITI_SERVICE_ZAC"] -> (getenv s +:+ ".dial") ∈ attrs -> role = RoleAdmin) /\
  ((getenv "ZITI_SERVICE_NATS" +:+ ".dial") ∈ attrs -> role = RoleDevice).
Proof.
  unfold GetRoleAttributes. intros H Hinj.
  assert (forall s s', getenv s +:+ ".dial" = getenv s' +:+ ".dial" -> s = s') as Hd by (intros s s' E; by apply Hinj, (append_cancel_r ".dial")).
  destruct (String.eqb_spec role RoleAdmin) as [->|_].
  { injection H as <-. split; [done|]. intros Hin. rewrite !elem_of_cons, elem_of_nil in Hin. exfalso.
    repeat destruct Hin as [Hin|Hin]; try apply Hd in Hin; done. }
  assert (forall l, attrs = (fun s => getenv s +:+ ".dial") <$> l -> forall s, (getenv s +:+ ".dial") ∈ attrs -> s ∈ l) as Hl.
  { intros l -> s (s' & E & Hs')%list_elem_of_fmap. by apply Hd in E as ->. }
  destruct (String.eqb_spec role RoleEnroller) as [->|_]; [injection H as <-; specialize (Hl ["ZITI_SERVICE_DMZ"] eq_refl)|
  destruct (String.eqb_spec role RoleDevicePendingEnroll) as [->|_]; [injection H as <-; specialize (Hl ["ZITI_SERVICE_DMZ"] eq_refl)|
  destruct (String.eqb_spec role RoleDevice) as [->|_];
    [injection H as <-; specialize (Hl ["ZITI_SERVICE_LIVEKIT_RTC"; "ZITI_SERVICE_LIVEKIT"; "ZITI_SERVICE_NATS"; "ZITI_SERVICE_TURN"] eq_refl)|
  destruct (String.eqb_spec role RoleInactive) as [->|_]; [injection H as <-; specialize (Hl [] eq_refl)|done]]]];
  (split; [intros s Hs Hin|intros Hin; try done]); apply Hl in Hin; exfalso; rewrite ?elem_of_cons, ?elem_of_nil in *; naive_solver.
Qed.

(** * Concrete runs *)

Module TestController.
(** An identity as a controller keeps it; [i_jwt] is the token it can be
    enrolled with. *)
Record ident := { i_name : string; i_admin : bool; i_attrs : list string; i_jwt : string }.

Definition env (s : string) : string := s.
Definition base : string := identities_url env.

(** The name after the slash. *)
Definition id_of (u : string) : string := String.substring (String.length base + 1) (String.length u - (String.length base + 1)) u.

Definition render (i : ident) : json :=
  JObject [("data", JObject [("isAdmin", JBool (i_admin i)); ("enrollment", JObject [("ott", JObject [("jwt", JString (i_jwt i))])]);
                             ("roleAttributes", JArray (JString <$> i_attrs i))])].

Definition not_found : option (Z * option (option json)) := Some (404, Some (Some (JObject [("error", JString "NOT_FOUND")]))).

Definition decode_body (b : option json) : option (string * bool * list string) :=
  match b with
  | Some (JObject l) =>
      n ← decode "" decode_string (field "name" l); a ← decode false decode_bool (field "isAdmin" l);
      r ← decode [] decode_strings (field "roleAttributes" l); Some (n, a, r)
  | _ => None
  end.

Definition answer_to (r : request) (w : gmap string ident) : option (Z * option (option json)) * gmap string ident :=
  match method r, decode_body (body r), w !! id_of (url r) with
  | POST, Some (n, a, l), _ =>
      let id := fresh (dom w) in
      (Some (201, Some (Some (JObject [("data", JObject [("id", JString id)])]))),
       <[id := {| i_name := n; i_admin := a; i_attrs := l; i_jwt := "token" |}]> w)
  | GET, _, Some i => (Some (200, Some (Some (render i))), w)
  | PATCH, Some (n, a, l), Some i =>
      (Some (200, Some None), <[id_of (url r) := {| i_name := n; i_admin := a; i_attrs := l; i_jwt := i_jwt i |}]> w)
  | DELETE, _, Some i => (Some (200, Some None), delete (id_of (url r)) w)
  | _, _, _ => (not_found, w)
  end.

#[export] Instance controller : Controller := {| world := gmap string ident; Do := answer_to |}.

Definition empty : @world controller := (∅ : gmap string ident).

Definition created := CreateIdentity env "session" "camera" RoleDevice empty.

Example created_read : match created with
  | (Ok (id, jwt), w) => fst (GetIdentity env "session" id w) = Ok {| IsAdmin := false; JWT := jwt; RoleAttributes :=
      ["ZITI_SERVICE_LIVEKIT_RTC.dial"; "ZITI_SERVICE_LIVEKIT.dial"; "ZITI_SERVICE_NATS.dial"; "ZITI_SERVICE_TURN.dial"] |} /\
      fst (UpdateIdentity env "session" id "camera" RoleInactive w) = None /\ fst (DeleteIdentity env "session" id w) = None
  | _ => False
  end.
Proof. by vm_compute. Qed.

Lemma absent_identity_read_witness : GetIdentity env "session" "nobody" empty = (Ok zeroIdentity, empty).
Proof. apply (absent_identity_read env "session" "nobody" empty empty (JString "NOT_FOUND")). reflexivity. Defined.

Lemma services_of_roles_witness : ("ZITI_SERVICE_API" +:+ ".dial") ∈ ["ZITI_SERVICE_DMZ.dial"] -> RoleEnroller = RoleAdmin.
Proof.
  apply (services_of_roles env RoleEnroller ["ZITI_SERVICE_DMZ.dial"]); [reflexivity|done|apply list_elem_of_here].
Defined.
End TestController.
