(* ===== verification/ZitiEnroll.v ===== *)
(** Enrolment of the OpenZiti identities of this repository
    (lib/openziti/enroll.go, auth.go, setup.go): from a one-time token in a file
    to an identity file, the session with the controller, and the set-up of the
    connections.

    The SDK of OpenZiti is a parameter.  Files are a map from paths to texts,
    with the faults the operating system may have. *)

From S2P Require Import Prelude GoText ZitiIdentity.

#[local] Open Scope string_scope.
#[local] Open Scope list_scope.
#[local] Open Scope Z_scope.

(** * Files *)

(** [denied]: the file's status cannot be read; [locked]: it cannot be created;
    [full]: what is written to it is lost; [pinned]: it cannot be removed. *)
Record faults := { denied : string -> bool; locked : string -> bool; full : string -> bool; pinned : string -> bool }.

Definition no_faults : faults := {| denied _ := false; locked _ := false; full _ := false; pinned _ := false |}.

Abbreviation files := (gmap string string).

(** [os.Stat]: [None] is an error other than that there is no file. *)
Definition Stat (x : faults) (path : string) (f : files) : option bool :=
  if denied x path then None else Some (bool_decide (is_Some (f !! path))).

(** * Enrolment *)

(** [s[:len(s)-n]]. *)
Definition cut_end (n : nat) (s : string) : string := String.substring 0 (String.length s - n) s.

Inductive enroll_error :=
| errOutputPath | errNoJwtFile | errSamePath | errParseJwt | errEnroll | errCreateFile | errWriteFile | errStat | errSession.

Definition outPathFromJwt (jwt : string) : result enroll_error string :=
  if HasSuffix jwt ".jwt" then Ok (cut_end 4 jwt +:+ ".json")
  else if HasSuffix jwt ".json" then Err errOutputPath
  else Ok (jwt +:+ ".json").

(** [EnrollOptions]; of the common options only [Verbose] is used. *)
Record EnrollAction := {
  Verbose : bool;
  RemoveJwt : bool;
  KeyAlg : string;
  JwtPath : string;
  JWTString : string;
  OutputPath : string;
  KeyPath : string;
  CertPath : string;
  IdName : string;
  CaOverride : string;
  Username : string;
  Password : string;
}.

Section Enroll.
Context {Token Config : Type}.
(** [enroll.ParseToken], [enroll.Enroll] and the text of a configuration. *)
Context (ParseToken : string -> option Token).
Context (Enroll : EnrollAction -> Token -> option Config).
Context (encode : Config -> string).

(** The part after the token's text is known. *)
Definition finish (x : faults) (e : EnrollAction) (tokenStr : string) (f : files) : result enroll_error string * files :=
  match ParseToken tokenStr with
  | None => (Err errParseJwt, f)
  | Some tkn =>
      match Enroll e tkn with
      | None => (Err errEnroll, f)
      | Some conf =>
          if negb (String.eqb (JWTString e) "") then (Ok (encode conf), f)
          else if locked x (OutputPath e) then (Err errCreateFile, f)
          else
            let f := <[OutputPath e := if full x (OutputPath e) then "" else encode conf]> f in
            let f := if pinned x (JwtPath e) then f else delete (JwtPath e) f in
            (if full x (OutputPath e) then Err errWriteFile else Ok "", f)
      end
  end.

Definition set_output (out : string) (e : EnrollAction) : EnrollAction :=
  {| Verbose := Verbose e; RemoveJwt := RemoveJwt e; KeyAlg := KeyAlg e; JwtPath := JwtPath e; JWTString := JWTString e; OutputPath := out;
     KeyPath := KeyPath e; CertPath := CertPath e; IdName := IdName e; CaOverride := CaOverride e; Username := Username e; Password := Password e |}.

(** [EnrollAction.Run]. *)
Definition Run (x : faults) (e : EnrollAction) (f : files) : result enroll_error string * files :=
  if negb (String.eqb (JWTString e) "") then finish x e (JWTString e) f
  else
    let out := if String.eqb (TrimSpace (OutputPath e)) "" then outPathFromJwt (JwtPath e) else Ok (OutputPath e) in
    match out with
    | Err err => (Err err, f)
    | Ok out =>
        let e := set_output out e in
        if negb (String.eqb (JwtPath e) "") && bool_decide (Stat x (JwtPath e) f = Some false) then (Err errNoJwtFile, f)
        else if String.eqb (TrimSpace (OutputPath e)) (TrimSpace (JwtPath e)) then (Err errSamePath, f)
        else finish x e (default "" (f !! JwtPath e)) f
    end.

Definition enroll_action (path : string) : EnrollAction :=
  {| Verbose := false; RemoveJwt := false; KeyAlg := "RSA"; JwtPath := path +:+ ".jwt"; JWTString := ""; OutputPath := ""; KeyPath := "";
     CertPath := ""; IdName := ""; CaOverride := ""; Username := ""; Password := "" |}.

Definition EnrollIfNeeded (x : faults) (zitiIDPath : string) (f : files) : option enroll_error * files :=
  match Stat x (zitiIDPath +:+ ".jwt") f with
  | None => (Some errStat, f)
  | Some false => (None, f)
  | Some true =>
      match Run x (enroll_action zitiIDPath) f with
      | (Err e, f) => (Some e, f)
      | (Ok _, f) => (None, f)
      end
  end.

(** ** Paths *)

Lemma rev_string_app a b acc : rev_string (a +:+ b) acc = rev_string b (rev_string a acc).
Proof. revert acc. induction a as [|c a IH]; intros acc; [done|]. apply IH. Qed.

Lemma rev_string_rev s : forall acc t, rev_string (rev_string s acc) t = rev_string acc (s +:+ t).
Proof. induction s as [|c s IH]; intros acc t; [done|]. cbn [rev_string]. by rewrite IH. Qed.

Lemma append_nil s : s +:+ "" = s.
Proof. induction s as [|c s IH]; [done|]. change (String c s +:+ "") with (String c (s +:+ "")). by rewrite IH. Qed.

Lemma trim_left_app a c s : IsSpace c = false -> trim_left (a +:+ String c s) = trim_left a +:+ String c s.
Proof.
  intros Hc. induction a as [|d a IH].
  { change ("" +:+ String c s) with (String c s). cbn [trim_left]. by rewrite Hc. }
  change (String d a +:+ String c s) with (String d (a +:+ String c s)). cbn [trim_left].
  by destruct (IsSpace d).
Qed.

(** Nothing is trimmed from a suffix that is not blank at its ends. *)
Lemma TrimSpace_suffix p suf c r c' r' : suf = String c r -> IsSpace c = false -> rev_string suf "" = String c' r' -> IsSpace c' = false ->
  TrimSpace (p +:+ suf) = trim_left p +:+ suf.
Proof.
  intros -> Hc Er Hc'. unfold TrimSpace. rewrite trim_left_app by done. rewrite rev_string_app.
  assert (exists r2, rev_string (String c r) (rev_string (trim_left p) "") = String c' r2) as [r2 E].
  { replace (rev_string (String c r) (rev_string (trim_left p) "")) with (rev_string (String c r) "" +:+ rev_string (trim_left p) "").
    - rewrite Er. by eexists.
    - generalize (rev_string (trim_left p) "") as acc. assert (forall s acc x, rev_string s x +:+ acc = rev_string s (x +:+ acc)) as H; [|intros; apply (H _ _ "")].
      induction s as [|d s IH]; intros acc x; [done|]. cbn [rev_string]. by rewrite IH. }
  rewrite E. cbn [trim_left]. rewrite Hc', <- E, <- rev_string_app, rev_string_rev. by rewrite append_nil.
Qed.

Lemma trim_paths_differ p : String.eqb (TrimSpace (p +:+ ".json")) (TrimSpace (p +:+ ".jwt")) = false.
Proof.
  rewrite (TrimSpace_suffix p ".json" "." "json" "n" "osj."), (TrimSpace_suffix p ".jwt" "." "jwt" "t" "wj.") by reflexivity.
  apply String.eqb_neq. intros E. apply (f_equal String.length) in E. rewrite !append_length in E. simpl in E. lia.
Qed.

Lemma substring_prefix a b : String.substring 0 (String.length a) (a +:+ b) = a.
Proof. induction a as [|c a IH]; [by destruct b|]. change (String c a +:+ b) with (String c (a +:+ b)). simpl. by rewrite IH. Qed.

Lemma substring_suffix a b : String.substring (String.length a) (String.length b) (a +:+ b) = b.
Proof. induction a as [|c a IH]; [apply substring_all|]. exact IH. Qed.

Lemma outPath_jwt p : outPathFromJwt (p +:+ ".jwt") = Ok (p +:+ ".json").
Proof.
  unfold outPathFromJwt, HasSuffix, cut_end. rewrite append_length. change (String.length ".jwt") with 4%nat.
  replace (String.length p + 4 - 4)%nat with (String.length p) by lia.
  rewrite (proj2 (Nat.leb_le 4 _)) by lia. change 4%nat with (String.length ".jwt") at 1. by rewrite substring_suffix, substring_prefix.
Qed.

(** ** What enrolment does *)

Lemma enrolment_eq x p f :
  EnrollIfNeeded x p f =
    if denied x (p +:+ ".jwt") then (Some errStat, f)
    else match f !! (p +:+ ".jwt") with
         | None => (None, f)
         | Some tok =>
             match ParseToken tok with
             | None => (Some errParseJwt, f)
             | Some t =>
                 match Enroll (set_output (p +:+ ".json") (enroll_action p)) t with
                 | None => (Some errEnroll, f)
                 | Some conf =>
                     if locked x (p +:+ ".json") then (Some errCreateFile, f)
                     else
                       let f' := <[p +:+ ".json" := if full x (p +:+ ".json") then "" else encode conf]> f in
                       (if full x (p +:+ ".json") then Some errWriteFile else None, if pinned x (p +:+ ".jwt") then f' else delete (p +:+ ".jwt") f')
                 end
             end
         end.
Proof.
  unfold EnrollIfNeeded, Stat. destruct (denied x (p +:+ ".jwt")) eqn:Ed; [done|]. destruct (f !! (p +:+ ".jwt")) as [tok|] eqn:Ef.
  2: { by rewrite bool_decide_false by (by intros [? ?]). }
  rewrite bool_decide_true by (by eexists). unfold Run. cbn [enroll_action JWTString OutputPath JwtPath String.eqb negb].
  change (TrimSpace "") with "". cbn [String.eqb]. rewrite outPath_jwt. cbn [set_output JwtPath OutputPath enroll_action].
  unfold Stat. rewrite Ed, Ef. rewrite (bool_decide_false (Some _ = Some false)) by (intros E; vm_compute in E; discriminate E).
  rewrite andb_false_r, trim_paths_differ. change (default "" (Some tok)) with tok. unfold finish. destruct (ParseToken tok) as [t|]; [|done].
  destruct (Enroll _ t) as [conf|]; [|done]. cbn [set_output JWTString enroll_action String.eqb negb OutputPath JwtPath].
  destruct (locked x _); [done|]. by destruct (full x _), (pinned x _).
Qed.

(** Without a token nothing happens.  With one, the identity it enrols is
    written next to it and the token is removed; if it cannot be parsed or
    enrolled, or the identity file cannot be created, the files stay as they
    are.  When writing the identity fails, the token is removed all the same. *)
Theorem enrolment_outcome x p f :
  EnrollIfNeeded x p f =
    if denied x (p +:+ ".jwt") then (Some errStat, f)
    else match f !! (p +:+ ".jwt") with
         | None => (None, f)
         | Some tok =>
             match ParseToken tok with
             | None => (Some errParseJwt, f)
             | Some t =>
                 match Enroll (set_output (p +:+ ".json") (enroll_action p)) t with
                 | None => (Some errEnroll, f)
                 | Some conf =>
                     if locked x (p +:+ ".json") then (Some errCreateFile, f)
                     else
                       let f' := <[p +:+ ".json" := if full x (p +:+ ".json") then "" else encode conf]> f in
                       (if full x (p +:+ ".json") then Some errWriteFile else None, if pinned x (p +:+ ".jwt") then f' else delete (p +:+ ".jwt") f')
                 end
             end
         end.
Proof. apply enrolment_eq. Qed.

(** A second start finds the identity of the first one and no token. *)
Theorem enrolled_once p f f' : EnrollIfNeeded no_faults p f = (None, f') -> EnrollIfNeeded no_faults p f' = (None, f').
Proof.
  rewrite !enrolment_eq. cbn [no_faults denied locked full pinned].
  destruct (f !! (p +:+ ".jwt")) as [tok|] eqn:Ef; [|intros; simplify_eq; by rewrite Ef].
  destruct (ParseToken tok) as [t|]; [|done]. destruct (Enroll _ t) as [conf|]; [|done]. intros; simplify_eq.
  by rewrite lookup_delete_eq.
Qed.

(** * Session and connections *)

Context {IdConfig ZitiConfig Context_ : Type}.
Context (parse_json : string -> option json).
(** [identity.NewConfigFromMap], and [Authenticate] at the controller, which
    gives the session token. *)
Context (NewConfigFromMap : list (string * json) -> option IdConfig) (Authenticate : string -> IdConfig -> option string).
(** [ziti.NewConfigFromFile], given the text, the addition to the field
    [ConfigTypes], and [ziti.NewContext]. *)
Context (NewConfigFromFile : string -> option ZitiConfig) (add_config_type : string -> ZitiConfig -> ZitiConfig) (NewContext : ZitiConfig -> option Context_).

(** Connections: the dialer of a collection of contexts with a fallback, the [net.Dialer]
    of the underlay, and [Dial] of a context. *)
Context {Conn : Type} (CollectionDial : list Context_ -> (string -> string -> option Conn) -> string -> string -> option Conn).
Context (underlay : string -> string -> option Conn) (ContextDial : Context_ -> string -> option Conn).

(** A transport made here holds no context: what it dials goes through the
    variable [ZitiContexts] at that time. *)
Inductive transport := DialsContexts.

(** The variables of the package; [ws_transport] is the one of the WebSocket
    library. *)
Record globals := {
  SessionToken : string;
  ZitiContext : option Context_;
  ZitiContexts : list Context_;
  ZitiTransport : option transport;
  ZitiClient : option transport;
  ZitiCustomDialer : option Context_;
  ws_transport : option transport;
}.

Definition set_token (token : string) (g : globals) : globals :=
  {| SessionToken := token; ZitiContext := ZitiContext g; ZitiContexts := ZitiContexts g; ZitiTransport := ZitiTransport g;
     ZitiClient := ZitiClient g; ZitiCustomDialer := ZitiCustomDialer g; ws_transport := ws_transport g |}.
Definition set_context (c : option Context_) (g : globals) : globals :=
  {| SessionToken := SessionToken g; ZitiContext := c; ZitiContexts := ZitiContexts g; ZitiTransport := ZitiTransport g;
     ZitiClient := ZitiClient g; ZitiCustomDialer := ZitiCustomDialer g; ws_transport := ws_transport g |}.

(** [FallbackDialer.Dial]. *)
Definition FallbackDialer_Dial (network address : string) : option Conn := underlay network address.

(** [DialContext] of a transport, [None] when there is no transport: a dialer of
    the collection [ZitiContexts] as it is then, which falls back to the underlay. *)
Definition dials (t : option transport) (g : globals) (network addr : string) : option (option Conn) :=
  (fun _ => CollectionDial (ZitiContexts g) FallbackDialer_Dial network addr) <$> t.

(** [CustomDialer.Dial]: the service is the address up to its port. *)
Definition Dial_service (address : string) : string := before_char ":" address.
Definition CustomDialer_Dial (c : Context_) (network address : string) : option Conn := ContextDial c (Dial_service address).

(** [jsonData["id"]]: the last value of the key. *)
Definition map_key (name : string) (l : list (string * json)) : option json := snd <$> last (filter (fun kv => fst kv = name) l).

(** [None] is a panic: the identity has no object "id". *)
Definition CreateApiSession (ctrlUrl zitiIDPath : string) (f : files) (g : globals) : option (option enroll_error * globals) :=
  match f !! (zitiIDPath +:+ ".json") with
  | None => Some (Some errSession, g)
  | Some t =>
      match parse_json t with
      | None => Some (Some errSession, g)
      | Some JNull => None
      | Some (JObject l) =>
          match map_key "id" l with
          | Some (JObject convertedMap) =>
              match NewConfigFromMap convertedMap with
              | None => Some (Some errSession, g)
              | Some conf =>
                  match Authenticate (ctrlUrl +:+ "/edge/management/v1") conf with
                  | None => Some (Some errSession, g)
                  | Some token => Some (None, set_token token g)
                  end
              end
          | _ => None
          end
      | Some _ => Some (Some errSession, g)
      end
  end.

Definition SetupZitiContext (path : string) (f : files) (g : globals) : option enroll_error * globals :=
  match f !! (path +:+ ".json") ≫= NewConfigFromFile with
  | None => (Some errSession, g)
  | Some cfg =>
      let c := NewContext (add_config_type "all" cfg) in
      (match c with None => Some errSession | Some _ => None end, set_context c g)
  end.

(** A collection with the present context, and a transport that uses it. *)
Definition SetupZitiTransport (g : globals) : globals :=
  {| SessionToken := SessionToken g; ZitiContext := ZitiContext g; ZitiContexts := match ZitiContext g with Some c => [c] | None => [] end;
     ZitiTransport := Some DialsContexts; ZitiClient := ZitiClient g; ZitiCustomDialer := ZitiCustomDialer g; ws_transport := ws_transport g |}.

Definition InitCon (zitiIDPath : string) (f : files) (g : globals) : option enroll_error * globals :=
  match SetupZitiContext zitiIDPath f g with
  | (Some e, g) => (Some e, g)
  | (None, g) =>
      let g := SetupZitiTransport g in
      (None, {| SessionToken := SessionToken g; ZitiContext := ZitiContext g; ZitiContexts := ZitiContexts g; ZitiTransport := ZitiTransport g;
                ZitiClient := ZitiTransport g; ZitiCustomDialer := ZitiContext g; ws_transport := ZitiTransport g |})
  end.

(** Without the goroutine that keeps the session alive. *)
Definition SetupOpenziti (x : faults) (ctrlUrl zitiIDPath : string) (f : files) (g : globals) : option (option enroll_error * files * globals) :=
  match EnrollIfNeeded x zitiIDPath f with
  | (Some e, f) => Some (Some e, f, g)
  | (None, f) =>
      match CreateApiSession ctrlUrl zitiIDPath f g with
      | None => None
      | Some (Some e, g) => Some (Some e, f, g)
      | Some (None, g) => let '(e, g) := InitCon zitiIDPath f g in Some (e, f, g)
      end
  end.

(** A set-up that succeeds leaves a session of the identity in the file; HTTP
    requests and WebSocket connections dial through a collection of contexts in which the
    context of that identity is the only one, with the underlay as the fallback, and the custom dialer
    dials through that context.  One that fails leaves what they dial through as it was. *)
Theorem setup_correct x ctrl p f g e f' g' : SetupOpenziti x ctrl p f g = Some (e, f', g') ->
  match e with
  | None => exists t l conf cfg c, f' !! (p +:+ ".json") = Some t /\ parse_json t = Some (JObject l) /\
      (exists m, map_key "id" l = Some (JObject m) /\ NewConfigFromMap m = Some conf) /\
      Authenticate (ctrl +:+ "/edge/management/v1") conf = Some (SessionToken g') /\
      NewConfigFromFile t = Some cfg /\ NewContext (add_config_type "all" cfg) = Some c /\
      (forall network addr, dials (ws_transport g') g' network addr = Some (CollectionDial [c] underlay network addr) /\
         dials (ZitiClient g') g' network addr = Some (CollectionDial [c] underlay network addr)) /\ ZitiCustomDialer g' = Some c
  | Some _ => (forall network addr, dials (ws_transport g') g' network addr = dials (ws_transport g) g network addr /\
         dials (ZitiClient g') g' network addr = dials (ZitiClient g) g network addr) /\
      ZitiCustomDialer g' = ZitiCustomDialer g
  end.
Proof.
  unfold SetupOpenziti. destruct (EnrollIfNeeded x p f) as [[e1|] f1]; [intros; by simplify_eq|].
  unfold CreateApiSession. destruct (f1 !! (p +:+ ".json")) as [t|] eqn:Ef; [|intros; by simplify_eq].
  destruct (parse_json t) as [j|] eqn:Ej; [|intros; by simplify_eq]. destruct j; try (intros; by simplify_eq).
  destruct (map_key "id" l) as [[]|] eqn:Em; try done. destruct (NewConfigFromMap l0) as [conf|] eqn:Ec; [|intros; by simplify_eq].
  destruct (Authenticate _ conf) as [tok|] eqn:Ea; [|intros; by simplify_eq]. unfold InitCon, SetupZitiContext. rewrite Ef. cbn [mbind option_bind].
  destruct (NewConfigFromFile t) as [cfg|] eqn:En; [|intros; by simplify_eq]. destruct (NewContext (add_config_type _ cfg)) as [c|] eqn:Ex; intros; simplify_eq; [|done].
  exists t, l, conf, cfg, c. cbn. split; [done|]. split; [done|]. split; [by exists l0|]. by rewrite Ea.
Qed.

(** An identity file without the object "id" stops the program. *)
Theorem identity_without_id_panics x ctrl p f g t l : EnrollIfNeeded x p f = (None, f) -> f !! (p +:+ ".json") = Some t -> parse_json t = Some (JObject l) ->
  map_key "id" l = None -> SetupOpenziti x ctrl p f g = None.
Proof. intros He Hf Hj Hm. unfold SetupOpenziti, CreateApiSession. by rewrite He, Hf, Hj, Hm. Qed.
End Enroll.

(** * Concrete runs *)

Module TestZiti.
Definition parse_token (s : string) : option string := if String.eqb s "" then None else Some s.
Definition enroll (e : EnrollAction) (t : string) : option string := Some t.
Definition text_of (c : string) : string := "id of " +:+ c.
Definition json_of (t : string) : option json := Some (JObject [("id", JObject [("cert", JString t)])]).
Definition start : files := {["publisher.jwt" := "token"]}.

Example first_start : EnrollIfNeeded parse_token enroll text_of no_faults "publisher" start = (None, {["publisher.json" := "id of token"]}).
Proof. vm_compute. reflexivity. Qed.

(** On a full disk the token is gone and there is no identity. *)
Example token_lost_on_full_disk :
  EnrollIfNeeded parse_token enroll text_of {| denied _ := false; locked _ := false; full _ := true; pinned _ := false |} "publisher" start =
    (Some errWriteFile, {["publisher.json" := ""]}).
Proof. vm_compute. reflexivity. Qed.

Lemma enrolled_once_witness : EnrollIfNeeded parse_token enroll text_of no_faults "publisher" {["publisher.json" := "id of token"]} =
  (None, {["publisher.json" := "id of token"]}).
Proof. apply (enrolled_once parse_token enroll text_of "publisher" start). apply first_start. Defined.

Definition config_of (m : list (string * json)) : option (list (string * json)) := Some m.
Definition authenticate (url : string) (m : list (string * json)) : option string := Some "session".
Definition load (t : string) : option string := Some t.
Definition context (c : string) : option string := Some ("context " +:+ c).
Definition add_type (t c : string) : string := c +:+ " for " +:+ t.
Definition unset : @globals string :=
  {| SessionToken := ""; ZitiContext := None; ZitiContexts := []; ZitiTransport := None; ZitiClient := None; ZitiCustomDialer := None; ws_transport := None |}.

Definition ready : @globals string :=
  let c := "context id of token for all" in
  let t := Some DialsContexts in
  {| SessionToken := "session"; ZitiContext := Some c; ZitiContexts := [c]; ZitiTransport := t; ZitiClient := t; ZitiCustomDialer := Some c; ws_transport := t |}.

Definition collection (cs : list string) (fallback : string -> string -> option string) (network addr : string) : option string :=
  match cs with [] => fallback network addr | c :: _ => Some (c +:+ " to " +:+ addr) end.
Definition no_underlay (network addr : string) : option string := None.

Lemma setup_correct_witness : exists t l conf cfg c, ({["publisher.json" := "id of token"]} : files) !! "publisher.json" = Some t /\ json_of t = Some (JObject l) /\
  (exists m, map_key "id" l = Some (JObject m) /\ config_of m = Some conf) /\ authenticate "https://ctrl/edge/management/v1" conf = Some "session" /\
  load t = Some cfg /\ context (add_type "all" cfg) = Some c /\
  (forall network addr, dials collection no_underlay (ws_transport ready) ready network addr = Some (collection [c] no_underlay network addr) /\
     dials collection no_underlay (ZitiClient ready) ready network addr = Some (collection [c] no_underlay network addr)) /\ ZitiCustomDialer ready = Some c.
Proof.
  refine (setup_correct parse_token enroll text_of json_of config_of authenticate load add_type context collection no_underlay no_faults "https://ctrl" "publisher" start unset
    None {["publisher.json" := "id of token"]} ready _).
  vm_cast_no_check (@eq_refl (option (option enroll_error * files * @globals string)) (Some (None, {["publisher.json" := "id of token"]}, ready))).
Defined.

Lemma identity_without_id_panics_witness :
  SetupOpenziti parse_token enroll text_of (fun _ => Some (JObject [])) config_of authenticate load add_type context no_faults "https://ctrl" "publisher" {["publisher.json" := "{}"]} unset = None.
Proof. apply (identity_without_id_panics parse_token enroll text_of _ _ _ _ _ _ _ _ _ _ _ "{}" []); reflexivity. Defined.
End TestZiti.
