(* ===== verification/App.v ===== *)
(** The two programs of this repository: the publisher (src/publisher/main.go),
    which joins a room and sends pictures, and the subscriber
    (src/subscriber/main.go), which joins the same room and receives them.

    A run is the list of the calls it makes of the LiveKit server and SDK; [ok]
    tells which of them succeed. *)

From Stdlib Require Import SpecFloat.
From S2P Require Import Prelude GoNet GoText GoIO SampleBuilder MediaIvf MediaOgg MediaH264 LkAuth.

#[local] Open Scope string_scope.
#[local] Open Scope list_scope.
#[local] Open Scope Z_scope.

Definition livekitEndpoint := "wss://livekit.ziti.example:7880".
Definition livekitKey := "GAkDU6thrPsKgxl".
Definition livekitSecret := "tZnZDeJGubl3tHJDPNvqfrQfmEkKcduQo0l23u9HY57".
Definition width : Z := 1640.
Definition height : Z := 900.

Inductive IceTransportPolicy := PolicyAll | PolicyRelay.

Section Runs.
Context {J : Jose}.

Inductive call :=
| InitCon (identity : string)
| ListRooms
| CreateRoom (name : string) (emptyTimeout maxParticipants : Z)
| Join (endpoint : string) (token : Raw) (policy : IceTransportPolicy)
| SetMetadataCall (payload : string)
| PublishTrack (mime : string) (videoWidth videoHeight : Z)
| WaitForSignal
| Disconnect.

Context (ok : call -> bool).

(** A call, and the rest of the run if it succeeds. *)
Definition attempt (c : call) (rest : list call) : list call := c :: if ok c then rest else [].

Definition videoGrant (room : string) (canPublish canSubscribe canPublishData canUpdateOwnMetadata : bool) : VideoGrant :=
  {| RoomCreate := false; RoomList := false; RoomRecord := false; RoomAdmin := false; RoomJoin := true; Room := room; RoomConfiguration := "";
     CanPublish := Some canPublish; CanSubscribe := Some canSubscribe; CanPublishData := Some canPublishData; CanPublishSources := [];
     CanUpdateOwnMetadata := Some canUpdateOwnMetadata; IngressAdmin := false; Hidden := false; Recorder := false; Agent := false |}.

(** The token of [createLivekitAccessToken]. *)
Definition accessToken (identy : string) (grants : VideoGrant) : AccessToken :=
  SetValidFor (500 * hour) (SetIdentity identy (AddGrant grants (NewAccessToken livekitKey livekitSecret))).

Definition createLivekitAccessToken (identy : string) (grants : VideoGrant) (now1 now2 : Z) : result auth_error Raw :=
  ToJWT (accessToken identy grants) now1 now2.

(** [connectToLivekit]: a test request. *)
Definition connectToLivekit (rest : list call) : list call := attempt ListRooms rest.

Definition publisher_grant : VideoGrant := videoGrant "testroom" true false true true.
Definition subscriber_grant : VideoGrant := videoGrant "testroom" false true true false.

(** [json.Marshal] of the map with the one key. *)
Definition metadata : string :=
  let quoted t := String (ascii_of_nat 34) (t +:+ String (ascii_of_nat 34) EmptyString) in
  "{" +:+ quoted "randommetadata" +:+ ":43}".

(** [run] of the publisher. *)
Definition publisher_run (now1 now2 : Z) : list call :=
  attempt (InitCon "publisher") (connectToLivekit
    match createLivekitAccessToken "publisher" publisher_grant now1 now2 with
    | Err _ => []
    | Ok token =>
        attempt (Join livekitEndpoint token PolicyRelay)
          (SetMetadataCall metadata :: attempt (PublishTrack "video/H264" width height) [WaitForSignal; Disconnect])
    end).

(** [run] of the subscriber. *)
Definition subscriber_run (now1 now2 : Z) : list call :=
  attempt (InitCon "subscriber") (connectToLivekit
    (attempt (CreateRoom "testroom" (1222 * 60) 20)
       match createLivekitAccessToken "subscriber" subscriber_grant now1 now2 with
       | Err _ => []
       | Ok token => attempt (Join livekitEndpoint token PolicyRelay) [WaitForSignal; Disconnect]
       end)).

(** When publishing fails, the run ends without leaving the room. *)
Theorem failed_publish_stays now1 now2 token : createLivekitAccessToken "publisher" publisher_grant now1 now2 = Ok token ->
  (forall c, (forall m w h, c <> PublishTrack m w h) -> ok c = true) ->
  ok (PublishTrack "video/H264" width height) = false ->
  publisher_run now1 now2 =
    [InitCon "publisher"; ListRooms; Join livekitEndpoint token PolicyRelay; SetMetadataCall metadata; PublishTrack "video/H264" width height].
Proof.
  intros E Hok Hf. unfold publisher_run, connectToLivekit, attempt. rewrite E, !Hok, Hf by done. done.
Qed.
End Runs.

(** * Recording a track *)

Definition maxVideoLate : Z := 1000.
Definition maxAudioLate : Z := 200.

(** [strings.EqualFold], on ASCII texts. *)
Definition EqualFold (s t : string) : bool := String.eqb (ToLower s) (ToLower t).

(** The file a track is recorded to, with the writer that is opened on it. *)
Inductive media_writer :=
| IvfFile (w : @IVFWriter unit)
| H264File (w : @H264Writer unit)
| OggFile (w : OggWriter).

Inductive track_error := errUnsupportedCodec | errOpen.

(** [NewTrackWriter], on a file that could be created: how late a packet may be
    and the writer.  [random] is the serial number of an Ogg stream.  A nil
    writer without an error is [None]. *)
Definition NewTrackWriter (mimeType : string) (channels random : Z) (f : file) : result track_error (Z * option media_writer) :=
  if EqualFold mimeType "video/vp9" then
    match MediaIvf.NewWriter (Some f) tt [] with Ok w => Ok (maxVideoLate, Some (IvfFile w)) | Err _ => Err errOpen end
  else if EqualFold mimeType "video/h264" then Ok (maxVideoLate, Some (H264File (MediaH264.NewWith f)))
  else if EqualFold mimeType "audio/opus" then
    match MediaOgg.New f 48000 channels random with
    | (w, None) => Ok (maxAudioLate, OggFile <$> w)
    | (_, Some _) => Err errOpen
    end
  else Err errUnsupportedCodec.

Definition close_writer (w : media_writer) : media_writer :=
  match w with
  | IvfFile w => IvfFile (snd (MediaIvf.Close w))
  | H264File w => H264File w
  | OggFile w => OggFile (snd (MediaOgg.Close w))
  end.

Definition written (w : media_writer) : bytes :=
  match w with
  | IvfFile w => GoIO.contents (ioWriter w)
  | H264File w => GoIO.contents (writer w)
  | OggFile w => GoIO.contents (out w)
  end.

Section Track.
Context {D : Type} {DP : Depacketizer D}.

(** The loop of [start] over the packets that are read; the payload lengths are
    logged.  [None] is a panic of the sample builder. *)
Fixpoint track_loop (pkts : list SampleBuilder.Packet) (sb : SampleBuilder D) (w : media_writer) (log : list Z)
  : option (SampleBuilder D * media_writer * list Z) :=
  match pkts with
  | [] => Some (sb, close_writer w, log)
  | pkt :: pkts =>
      sb ← Push pkt sb;
      r ← PopPackets sb;
      track_loop pkts (snd r) w (log ++ (blen ∘ SampleBuilder.Payload <$> default [] (fst r)))
  end.

(** Nothing of a track gets into its file: the file is what opening and closing
    the writer leave. *)
Theorem recording_is_empty pkts sb w sb' w' log : track_loop pkts sb w [] = Some (sb', w', log) -> w' = close_writer w.
Proof.
  generalize (@nil Z) as l. revert sb. induction pkts as [|p pkts IH]; intros sb l; cbn [track_loop]; [intros; by simplify_eq|].
  destruct (Push p sb) as [sb1|]; [|done]. cbn [mbind option_bind]. destruct (PopPackets sb1) as [r|]; [|done]. cbn [mbind option_bind]. apply IH.
Qed.
End Track.

(** A VP9 track is opened with the writer's default codec: its file says that
    it contains VP8. *)
Theorem vp9_recorded_as_vp8 channels random sk : exists w r h, NewTrackWriter "video/VP9" channels random (good_file sk []) = Ok (maxVideoLate, Some w) /\
  MediaIvf.NewReader (stream_of (written (close_writer w))) = Ok (r, h) /\ FourCC h = text "VP80".
Proof.
  exists (IvfFile (wrote sk false [] None tt)). unfold NewTrackWriter. change (EqualFold "video/VP9" "video/vp9") with true. cbv iota.
  rewrite NewWriter_ok. set (n := if sk then 0 else 900).
  assert (written (close_writer (IvfFile (wrote sk false [] None tt))) = written_header (text "VP80") n ++ []) as -> by (by destruct sk).
  unfold stream_of. do 2 eexists. split; [done|]. split; [apply NewReader_written; subst n; destruct sk; lia|done].
Qed.

(** * The picture *)

(** [int(float64(a)*(1-t) + float64(b)*t)], where [t] is the quotient of two
    integers, in binary64 and without fused operations. *)
Definition interpolate (a b num den : Z) : Z :=
  let t := SFdiv 53 1024 (float64 num) (float64 den) in
  int64_of_float (SFadd 53 1024 (SFmul 53 1024 (float64 a) (SFsub 53 1024 (float64 1) t)) (SFmul 53 1024 (float64 b) t)).

(** The scan lines of [drawRedTriangle] that are red: [y], and the first and
    the last [x]. *)
Definition scanlines (width height : Z) : list (Z * Z * Z) :=
  let triangleHeight := Z.quot height 3 in
  let triangleBase := Z.quot width 2 in
  let triangleBaseY := Z.quot height 2 + Z.quot triangleHeight 2 in
  let triangleTipY := Z.quot height 2 - Z.quot triangleHeight 2 in
  let triangleBaseX1 := Z.quot width 2 - Z.quot triangleBase 2 in
  let triangleBaseX2 := Z.quot width 2 + Z.quot triangleBase 2 in
  let triangleTipX := Z.quot width 2 in
  (fun k => let y := triangleTipY + Z.of_nat k in
            (y, interpolate triangleTipX triangleBaseX1 (y - triangleTipY) (triangleBaseY - triangleTipY),
                interpolate triangleTipX triangleBaseX2 (y - triangleTipY) (triangleBaseY - triangleTipY)))
    <$> seq 0 (Z.to_nat (triangleBaseY - triangleTipY + 1)).

Definition red (img : list (Z * Z * Z)) (x y : Z) : bool := existsb (fun '(y', l, r) => (y =? y') && (l <=? x) && (x <=? r)) img.

(** In the picture of the program the triangle lies inside the picture, from its
    tip in the middle to a base of half the width; each line covers the line
    above it, and the two edges are mirror images up to one pixel. *)
Definition triangle_ok (w h : Z) (l : list (Z * Z * Z)) : bool :=
  forallb (fun '(y, a, b) => (0 <=? y) && (y <? h) && (0 <=? a) && (a <=? b) && (b <? w) && (Z.abs (a + b - w) <=? 1)) l &&
  (fix mono l := match l with
                 | (y1, a1, b1) :: ((y2, a2, b2) :: _) as l' => (y2 =? y1 + 1) && (a2 <=? a1) && (b1 <=? b2) && mono l'
                 | _ => true
                 end) l &&
  bool_decide (List.head l = Some (300, 820, 820)) && bool_decide (last l = Some (600, 410, 1230)).

Theorem picture_correct : triangle_ok width height (scanlines width height) = true.
Proof. vm_compute. reflexivity. Qed.

(** * Concrete runs *)

Module TestApp.
Import TestAuth.
Definition no_publish (c : @call plain) : bool := match c with PublishTrack _ _ _ => false | _ => true end.

Definition publisher_token : @Raw plain :=
  match createLivekitAccessToken "publisher" publisher_grant 0 0 with Ok t => t | Err _ => ("", {| Issuer := ""; Subject := ""; ID := ""; NotBefore := 0; Expiry := 0 |}, noClaims) end.

(** The grants of the two programs: the one may publish and not subscribe, the other the other way round. *)
Example grants_opposite : GetCanSubscribe publisher_grant = false /\ GetCanSubscribe subscriber_grant = true /\ Room subscriber_grant = Room publisher_grant /\
  GetCanPublishSource SourceCAMERA publisher_grant = true /\ GetCanPublishSource SourceCAMERA subscriber_grant = false.
Proof. by vm_compute. Qed.

Lemma failed_publish_stays_witness : publisher_run no_publish 0 0 =
  [InitCon "publisher"; ListRooms; Join livekitEndpoint publisher_token PolicyRelay; SetMetadataCall metadata; PublishTrack "video/H264" width height].
Proof.
  apply (failed_publish_stays no_publish 0 0 publisher_token); [reflexivity| |reflexivity]. intros [] H; try reflexivity. by destruct (H mime videoWidth videoHeight).
Defined.

(** One packet of a depacketizer that takes every packet for a frame. *)
#[local] Instance whole_frames : Depacketizer unit := {| IsPartitionHead _ := true; IsPartitionTail _ _ := true; Unmarshal p d := (Some p, d) |}.
Definition received : SampleBuilder.Packet := {| SequenceNumber := 7; SampleBuilder.Timestamp := 0; SampleBuilder.Marker := true; SampleBuilder.Payload := [1;2;3] |}.

Lemma recording_is_empty_witness : exists sb, track_loop [received] (SampleBuilder.New maxVideoLate tt 90000) (H264File (MediaH264.NewWith (new_file true None))) [] = Some sb /\
  written (snd (fst sb)) = [].
Proof.
  destruct (track_loop [received] (SampleBuilder.New maxVideoLate tt 90000) (H264File (MediaH264.NewWith (new_file true None))) []) as [[[sb w] l]|] eqn:E;
    [|vm_compute in E; discriminate].
  exists (sb, w, l). split; [done|]. cbn [fst snd]. by rewrite (recording_is_empty _ _ _ _ _ _ E).
Defined.
End TestApp.
