(* ===== verification/LkTimedVersion.v ===== *)
(** Timed versions: utils/timed_version.go of lib/livekit-protocol, the
    generator of version numbers that order the updates of an object, their
    components, their comparison, and their stored form. *)

From Stdlib Require Import Sorted.
From S2P Require Import Prelude.

#[local] Open Scope list_scope.

Definition tickBits : Z := 13.
Definition tickMask : Z := Z.shiftl 1 tickBits - 1.

(** [time.Date(2000, 0, 0, 0, 0, 0, 0, time.UTC).UnixMicro()]: month 0 and day 0
    make it the 30th of November 1999. *)
Definition epoch : Z := 943920000 * 1000000.

Definition i32 (z : Z) : Z := (z + 2147483648) mod 4294967296 - 2147483648.

(** A [TimedVersion] is a uint64. *)
Definition timedVersionComponents (v : Z) : Z * Z :=
  (i64 (i64 (Z.shiftr v tickBits) + epoch), i32 (Z.land v tickMask)).

Definition timedVersionFromComponents (ts ticks : Z) : Z :=
  let ts := if ts <? epoch then epoch else ts in
  Z.lor (u64 (Z.shiftl (u64 (i64 (ts - epoch))) tickBits)) (u64 ticks).

Record timedVersionGenerator := { g_ts : Z; g_ticks : Z }.

Definition NewDefaultTimedVersionGenerator : timedVersionGenerator := {| g_ts := 0; g_ticks := 0 |}.

(** [Next]: the argument are the readings of the clock, the first at the call,
    the others after each sleep; [None] if it is still asleep after the last. *)
Fixpoint Next (clock : list Z) (g : timedVersionGenerator) : option (Z * timedVersionGenerator) :=
  match clock with
  | [] => None
  | now :: later =>
      let ts := if now <? g_ts g then g_ts g else now in
      if g_ts g =? ts then
        if g_ticks g =? tickMask then Next later g
        else
          let g := {| g_ts := g_ts g; g_ticks := u64 (g_ticks g + 1) |} in
          Some (timedVersionFromComponents (g_ts g) (i32 (g_ticks g)), g)
      else
        let g := {| g_ts := ts; g_ticks := 0 |} in
        Some (timedVersionFromComponents (g_ts g) (i32 (g_ticks g)), g)
  end.

(** [Upgrade], which is [Update] too, and [Downgrade], with what they answer. *)
Definition Upgrade (other t : Z) : bool * Z := if t <? other then (true, other) else (false, t).
Definition Downgrade (other t : Z) : bool * Z := if other <? t then (true, other) else (false, t).
Definition After (t other : Z) : bool := other <? t.
Definition Compare (t other : Z) : Z := if t <? other then -1 else if t =? other then 0 else 1.

(** The protobuf message has the two components. *)
Definition ToProto (t : Z) : Z * Z := timedVersionComponents t.
Definition TimedVersionFromProto (p : Z * Z) : Z := timedVersionFromComponents (fst p) (snd p).

(** The value of a database column: nil, or bytes. *)
Definition Value (t : Z) : option bytes :=
  if t =? 0 then None
  else
    let '(ts, ticks) := timedVersionComponents t in
    Some (putUint64 (u64 ts) ++ putUint32 (u32 ticks)).

(** [Scan]; [None] is the error of an unsupported format. *)
Definition Scan (src : option bytes) : option Z :=
  match src with
  | None => Some 0
  | Some b =>
      if blen b =? 0 then Some 0
      else if blen b =? 12 then Some (timedVersionFromComponents (i64 (getUint64 b)) (i32 (getUint32 (drop 8 b))))
      else None
  end.

(** * Lemmas *)

(** The last microsecond for which versions do not wrap around. *)
Definition horizon : Z := epoch + 2 ^ 51.

Lemma u64_i64 z : 0 <= z < 2 ^ 64 -> u64 (i64 z) = z.
Proof.
  intros H. unfold u64, i64. destruct (decide (z < 2 ^ 63)).
  - rewrite (Z.mod_small (z + _)) by lia. rewrite Z.mod_small; lia.
  - replace (z + 9223372036854775808) with ((z - 9223372036854775808) + 1 * 18446744073709551616) by lia.
    rewrite Z.mod_add, (Z.mod_small (z - _)) by lia.
    replace (z - 9223372036854775808 - 9223372036854775808) with (z + -1 * 18446744073709551616) by lia.
    rewrite Z.mod_add, Z.mod_small; lia.
Qed.

Lemma i64_u64 z : - 2 ^ 63 <= z < 2 ^ 63 -> i64 (u64 z) = z.
Proof.
  intros H. unfold u64, i64. rewrite Z.add_mod_idemp_l by lia. rewrite Z.mod_small; lia.
Qed.

Lemma i32_small z : - 2 ^ 31 <= z < 2 ^ 31 -> i32 z = z.
Proof. intros. unfold i32. rewrite Z.mod_small; lia. Qed.

Lemma i32_u32 z : - 2 ^ 31 <= z < 2 ^ 31 -> i32 (u32 z) = z.
Proof. intros H. unfold u32, i32. rewrite Z.add_mod_idemp_l by lia. rewrite Z.mod_small; lia. Qed.

Lemma land_tickMask v : Z.land v tickMask = v mod 8192.
Proof. change tickMask with (Z.ones 13). by rewrite Z.land_ones. Qed.

Lemma lor_shift a b n : 0 <= n -> 0 <= b < 2 ^ n -> Z.lor (Z.shiftl a n) b = Z.shiftl a n + b.
Proof.
  intros Hn Hb. destruct (decide (b = 0)) as [->|]; [by rewrite Z.lor_0_r, Z.add_0_r|].
  assert (Z.land (Z.shiftl a n) b = 0) as H0.
  { apply Z.bits_inj'. intros m Hm. rewrite Z.land_spec, Z.bits_0. destruct (decide (m < n)).
    - by rewrite Z.shiftl_spec_low.
    - rewrite (Z.bits_above_log2 b), andb_false_r; [done|lia|].
      apply Z.lt_le_trans with n; [|lia]. apply Z.log2_lt_pow2; lia. }
  by rewrite <- Z.lxor_lor, Z.add_nocarry_lxor.
Qed.

(** The number a pair of components in range stands for. *)
Lemma from_components ts ticks : epoch <= ts < horizon -> 0 <= ticks <= tickMask ->
  timedVersionFromComponents ts ticks = (ts - epoch) * 8192 + ticks.
Proof.
  unfold horizon. change tickMask with 8191. intros Hts Hti. unfold timedVersionFromComponents.
  rewrite (proj2 (Z.ltb_ge _ _)) by lia. rewrite i64_small by (unfold epoch in *; lia). rewrite (u64_small (ts - epoch)) by lia.
  unfold tickBits. rewrite (u64_small (Z.shiftl _ _)) by (rewrite Z.shiftl_mul_pow2; lia).
  rewrite u64_small, lor_shift by lia. rewrite Z.shiftl_mul_pow2; lia.
Qed.

Lemma components_split v : 0 <= v < 2 ^ 64 -> timedVersionComponents v = (v / 8192 + epoch, v mod 8192).
Proof.
  intros Hv. unfold timedVersionComponents. rewrite land_tickMask, Z.shiftr_div_pow2 by (unfold tickBits; lia).
  change (2 ^ tickBits) with 8192. pose proof (Z.mod_pos_bound v 8192). assert (v / 8192 < 2 ^ 51) by (apply Z.div_lt_upper_bound; lia).
  assert (0 <= v / 8192) by (apply Z.div_pos; lia).
  rewrite (i64_small (v / 8192)) by lia. rewrite i64_small by (unfold epoch; lia). rewrite i32_small by lia. done.
Qed.

(** * Theorems *)

(** Every version is made of its components again, and components in range are
    those of their version; versions compare as their components do, first the
    time and then the ticks. *)
Theorem version_components_roundtrip v ts ticks :
  0 <= v < 2 ^ 64 -> epoch <= ts < horizon -> 0 <= ticks <= tickMask ->
  TimedVersionFromProto (ToProto v) = v /\
  timedVersionComponents (timedVersionFromComponents ts ticks) = (ts, ticks) /\
  (After v (timedVersionFromComponents ts ticks) = true <->
   ts < fst (timedVersionComponents v) \/ ts = fst (timedVersionComponents v) /\ ticks < snd (timedVersionComponents v)).
Proof.
  intros Hv Hts Hti. pose proof (Z.mod_pos_bound v 8192 ltac:(lia)). assert (v / 8192 < 2 ^ 51) by (apply Z.div_lt_upper_bound; lia).
  assert (0 <= v / 8192) by (apply Z.div_pos; lia). pose proof (Z.div_mod v 8192).
  unfold TimedVersionFromProto, ToProto, After. rewrite (from_components ts ticks) by done.
  unfold horizon in *. change tickMask with 8191 in *. rewrite !components_split by lia. cbn [fst snd]. split_and!.
  - rewrite from_components by (unfold horizon; change tickMask with 8191; lia). lia.
  - rewrite Z.div_add_l, (Z.div_small ticks), (Z.add_comm (_ * _)), Z.mod_add, (Z.mod_small ticks) by lia. f_equal. lia.
  - rewrite Z.ltb_lt. nia.
Qed.

(** A version survives being stored in a column and read back. *)
Theorem version_stored v : 0 <= v < 2 ^ 64 -> Scan (Value v) = Some v.
Proof.
  intros Hv. unfold Value. destruct (Z.eqb_spec v 0) as [->|Hn]; [done|]. rewrite components_split by done.
  pose proof (Z.mod_pos_bound v 8192 ltac:(lia)). assert (v / 8192 < 2 ^ 51) by (apply Z.div_lt_upper_bound; lia).
  assert (0 <= v / 8192) by (apply Z.div_pos; lia). pose proof (Z.div_mod v 8192).
  unfold Scan. change (blen (_ ++ _)) with 12. cbn -[putUint64 putUint32 getUint64 getUint32 u64 u32 drop].
  rewrite getUint64_put by apply u64_range. rewrite i64_u64 by (unfold epoch; lia).
  change (drop 8 _) with (putUint32 (u32 (v mod 8192))). rewrite getUint32_put1 by apply u32_range.
  rewrite i32_u32 by lia. f_equal. rewrite from_components by (unfold horizon; change tickMask with 8191; lia). lia.
Qed.

(** * The generator *)

(** A generator in use: nothing given out yet, or a time of the clock. *)
Definition gen_ok (g : timedVersionGenerator) : Prop :=
  0 <= g_ticks g <= tickMask /\ (g = NewDefaultTimedVersionGenerator \/ epoch <= g_ts g < horizon).

(** The version it gave out last. *)
Definition last_version (g : timedVersionGenerator) : Z :=
  if g_ts g <? epoch then -1 else (g_ts g - epoch) * 8192 + g_ticks g.

Lemma Next_ok clock : forall g v g', gen_ok g -> Forall (fun t => epoch <= t < horizon) clock ->
  Next clock g = Some (v, g') -> gen_ok g' /\ v = last_version g' /\ last_version g < v.
Proof.
  unfold gen_ok, last_version. change tickMask with 8191.
  induction clock as [|now later IH]; intros g v g' Hg Hc H; [done|]. apply Forall_cons in Hc as [Hn Hc].
  cbn in H. change tickMask with 8191 in H.
  assert (forall t k, epoch <= t < horizon -> 0 <= k <= 8191 -> timedVersionFromComponents t (i32 k) = (t - epoch) * 8192 + k) as Hf.
  { intros t k Ht Hk. rewrite i32_small by lia. by apply from_components. }
  destruct g as [ts ticks]. cbn in *. destruct (Z.ltb_spec now ts).
  - rewrite Z.eqb_refl in H. destruct (Z.eqb_spec ticks 8191); [exact (IH {| g_ts := ts; g_ticks := ticks |} v g' Hg Hc H)|]. injection H as <- <-. cbn.
    destruct Hg as [? [E|?]]; [injection E as -> ->; unfold epoch in *; lia|].
    rewrite u64_small, Hf by lia. rewrite (proj2 (Z.ltb_ge ts epoch)) by lia. lia.
  - destruct (Z.eqb_spec ts now) as [E|].
    + destruct (Z.eqb_spec ticks 8191); [exact (IH {| g_ts := ts; g_ticks := ticks |} v g' Hg Hc H)|]. injection H as <- <-. subst now. cbn.
      rewrite u64_small, Hf by lia. rewrite (proj2 (Z.ltb_ge ts epoch)) by lia. lia.
    + injection H as <- <-. cbn. rewrite Hf by lia. rewrite (proj2 (Z.ltb_ge now epoch)) by lia.
      destruct (Z.ltb_spec ts epoch); lia.
Qed.

(** A sequence of calls, each with its readings of the clock. *)
Fixpoint versions (calls : list (list Z)) (g : timedVersionGenerator) : option (list Z) :=
  match calls with
  | [] => Some []
  | clock :: calls' => '(v, g') ← Next clock g; vs ← versions calls' g'; Some (v :: vs)
  end.

(** Up to the year 2071 the versions a generator gives out are strictly
    increasing, whatever the clock does, also when it goes back; and a call
    returns as soon as the clock has passed the time of the last version. *)
Theorem versions_increase calls vs :
  Forall (Forall (fun t => epoch <= t < horizon)) calls ->
  versions calls NewDefaultTimedVersionGenerator = Some vs -> StronglySorted Z.lt vs.
Proof.
  assert (forall calls g vs, gen_ok g -> Forall (Forall (fun t => epoch <= t < horizon)) calls -> versions calls g = Some vs ->
    StronglySorted Z.lt vs /\ Forall (fun v => last_version g < v) vs) as H.
  { clear. induction calls as [|c calls IH]; intros g vs Hg Hc H; cbn in H; [injection H as <-; by split; constructor|].
    apply Forall_cons in Hc as [Hc1 Hc]. destruct (Next c g) as [[v g']|] eqn:E; [|done]. cbn in H.
    destruct (versions calls g') as [vs'|] eqn:E'; [|done]. injection H as <-.
    destruct (Next_ok c g v g' Hg Hc1 E) as (Hg' & -> & Hlt). destruct (IH g' vs' Hg' Hc E') as [Hs Hf].
    split; constructor; try done. eapply Forall_impl; [exact Hf|]. simpl. lia. }
  intros Hc Hv. apply (H calls NewDefaultTimedVersionGenerator vs); try done. split; [|by left]. cbn. by change tickMask with 8191.
Qed.

Theorem Next_returns clock g : Exists (fun t => g_ts g < t) clock -> is_Some (Next clock g).
Proof.
  induction 1 as [now later Hn|now later _ IH]; cbn.
  - rewrite (proj2 (Z.ltb_ge now (g_ts g))) by lia. rewrite (proj2 (Z.eqb_neq (g_ts g) now)) by lia. by eexists.
  - repeat (case_match; try exact IH); by eexists.
Qed.

(** At the horizon, in the year 2071, versions start again from 0. *)
Theorem versions_wrap : timedVersionFromComponents horizon 0 = 0 /\
  After (timedVersionFromComponents (horizon - 1) 0) (timedVersionFromComponents horizon 0) = true.
Proof. split; vm_compute; reflexivity. Qed.

Lemma version_components_roundtrip_witness :
  TimedVersionFromProto (ToProto 12345678901234) = 12345678901234 /\
  timedVersionComponents (timedVersionFromComponents 1700000000000000 7) = (1700000000000000, 7).
Proof.
  destruct (version_components_roundtrip 12345678901234 1700000000000000 7) as (H1 & H2 & _);
    [lia|unfold horizon, epoch; lia|change tickMask with 8191; lia|]. split; [exact H1|exact H2].
Defined.

(** Three calls within a microsecond, the last after the clock went back. *)
Lemma versions_increase_witness : exists vs,
  versions [[1700000000000000]; [1700000000000000]; [1600000000000000]] NewDefaultTimedVersionGenerator = Some vs /\
  StronglySorted Z.lt vs.
Proof.
  eexists. split; [vm_compute; reflexivity|].
  eapply (versions_increase [[1700000000000000]; [1700000000000000]; [1600000000000000]]); [|vm_compute; reflexivity].
  repeat constructor; unfold horizon, epoch; lia.
Defined.
