(* ===== verification/LkBitmap.v ===== *)
(** The bit map of lib/livekit-protocol (utils/bitmap.go): a ring of 64-bit
    words whose number is a power of two; the number of a bit is reduced modulo
    their size. *)

From S2P Require Import Prelude.

#[local] Open Scope list_scope.

(** [bits.Len64]. *)
Definition Len64 (x : Z) : Z := if x =? 0 then 0 else Z.log2 x + 1.

Record Bitmap := { bits : list Z }.

Definition NewBitmap (size : Z) : Bitmap :=
  {| bits := replicate (Z.to_nat (Z.shiftl 1 (Len64 (u64 (size + 63) / 64)))) 0 |}.

Definition Len (b : Bitmap) : Z := Z.shiftl (blen (bits b)) 6.

(** The complement of a uint64, and a shift of 1. *)
Definition not64 (w : Z) : Z := 2 ^ 64 - 1 - w.
Definition bit64 (o : Z) : Z := u64 (Z.shiftl 1 o).

(** [getSlotAndOffset]: the slot mask, the slot and the offset. *)
Definition getSlotAndOffset (val : Z) (b : Bitmap) : Z * Z * Z :=
  (blen (bits b) - 1, Z.shiftr val 6, Z.land val 63).

(** [b.bits[i & sm] = f(b.bits[i & sm])]. *)
Definition update (f : Z -> Z) (i sm : Z) (b : Bitmap) : Bitmap :=
  {| bits := alter f (Z.to_nat (Z.land i sm)) (bits b) |}.

Definition Set_ (val : Z) (b : Bitmap) : Bitmap :=
  let '(sm, s, o) := getSlotAndOffset val b in
  update (fun w => Z.lor w (bit64 o)) s sm b.

Definition Clear (val : Z) (b : Bitmap) : Bitmap :=
  let '(sm, s, o) := getSlotAndOffset val b in
  update (fun w => Z.land w (not64 (bit64 o))) s sm b.

Definition IsSet (val : Z) (b : Bitmap) : bool :=
  let '(sm, s, o) := getSlotAndOffset val b in
  negb (Z.land (nth (Z.to_nat (Z.land s sm)) (bits b) 0) (bit64 o) =? 0).

(** [getSlotsAndOffsets]: more slots than there are stand for all of them. *)
Definition getSlotsAndOffsets (min max : Z) (b : Bitmap) : Z * Z * Z * Z * Z :=
  let sm := blen (bits b) - 1 in
  let ls := Z.shiftr min 6 in
  let rs := Z.shiftr max 6 in
  if blen (bits b) <? rs - ls then (sm, ls, ls + blen (bits b), 0, 0)
  else (sm, ls, rs, Z.land min 63, Z.land max 63).

(** The loop over the slots between the first and the last. *)
Definition fill (w : Z) (ls rs sm : Z) (b : Bitmap) : Bitmap :=
  fold_left (fun b i => update (fun _ => w) i sm b) (seqZ (ls + 1) (rs - ls - 1)) b.

Definition SetRange (min max : Z) (b : Bitmap) : Bitmap :=
  if max <? min then b
  else
    let '(sm, ls, rs, lo, ro) := getSlotsAndOffsets min max b in
    if ls =? rs
    then update (fun w => Z.lor w (u64 (Z.shiftl (u64 (bit64 (ro - lo + 1) - 1)) lo))) ls sm b
    else
      let b := update (fun w => Z.lor w (not64 (bit64 lo - 1))) ls sm b in
      let b := fill (not64 0) ls rs sm b in
      update (fun w => Z.lor w (u64 (bit64 (ro + 1) - 1))) rs sm b.

Definition ClearRange (min max : Z) (b : Bitmap) : Bitmap :=
  if max <? min then b
  else
    let '(sm, ls, rs, lo, ro) := getSlotsAndOffsets min max b in
    if ls =? rs
    then update (fun w => Z.land w (not64 (u64 (Z.shiftl (u64 (bit64 (ro - lo + 1) - 1)) lo)))) ls sm b
    else
      let b := update (fun w => Z.land w (Z.shiftr (not64 0) (64 - lo))) ls sm b in
      let b := fill 0 ls rs sm b in
      update (fun w => Z.land w (u64 (Z.shiftl (not64 0) (ro + 1)))) rs sm b.

(** * Words *)

Definition word_ok (w : Z) : Prop := 0 <= w < 2 ^ 64.

Lemma u64_testbit x o : 0 <= o < 64 -> Z.testbit (u64 x) o = Z.testbit x o.
Proof. intros Ho. change (u64 x) with (x mod 2 ^ 64). apply Z.mod_pow2_bits_low. lia. Qed.

Lemma not64_ldiff w : word_ok w -> not64 w = Z.ldiff (Z.ones 64) w.
Proof.
  intros Hw. unfold not64. change (2 ^ 64 - 1) with (Z.ones 64). apply Z.sub_nocarry_ldiff.
  apply Z.bits_inj'. intros n Hn. rewrite Z.ldiff_spec, Z.bits_0. destruct (decide (n < 64)).
  - rewrite Z.ones_spec_low by lia. by rewrite andb_false_r.
  - rewrite (Z.bits_above_log2 w); [done|unfold word_ok in Hw; lia|]. unfold word_ok in Hw. destruct (decide (w = 0)) as [->|]; [simpl; lia|].
    apply Z.lt_le_trans with 64; [apply Z.log2_lt_pow2|]; lia.
Qed.

Lemma not64_testbit w o : word_ok w -> 0 <= o < 64 -> Z.testbit (not64 w) o = negb (Z.testbit w o).
Proof. intros Hw Ho. rewrite not64_ldiff, Z.ldiff_spec, Z.ones_spec_low by (done || lia). done. Qed.

Lemma bit64_testbit k o : 0 <= k -> 0 <= o < 64 -> Z.testbit (bit64 k) o = (o =? k).
Proof.
  intros Hk Ho. unfold bit64. rewrite u64_testbit, Z.shiftl_spec by lia.
  destruct (Z.eqb_spec o k) as [->|]; [by rewrite Z.sub_diag|]. destruct (decide (o < k)); [by rewrite Z.testbit_neg_r by lia|].
  apply Z.bits_above_log2; simpl; lia.
Qed.

Lemma bit64_ones k : 0 <= k <= 64 -> u64 (bit64 k - 1) = Z.ones k.
Proof.
  intros Hk. unfold bit64. rewrite Z.shiftl_1_l, Z.ones_equiv, <- Z.sub_1_r. destruct (decide (k = 64)) as [->|]; [done|].
  assert (0 < 2 ^ k <= 2 ^ 63) by (split; [apply Z.pow_pos_nonneg|apply Z.pow_le_mono_r]; lia).
  rewrite (u64_small (2 ^ k)), u64_small by lia. done.
Qed.

Lemma ones_testbit k o : 0 <= k -> 0 <= o -> Z.testbit (Z.ones k) o = (o <? k).
Proof.
  intros Hk Ho. destruct (Z.ltb_spec o k); [by rewrite Z.ones_spec_low by lia|]. by rewrite Z.ones_spec_high by lia.
Qed.

Lemma word_u64 x : word_ok (u64 x).
Proof. apply u64_range. Qed.

Lemma word_not64 w : word_ok w -> word_ok (not64 w).
Proof. unfold word_ok, not64. lia. Qed.

Lemma word_land w x : word_ok w -> word_ok x -> word_ok (Z.land w x).
Proof.
  unfold word_ok. intros Hw Hx. split; [apply Z.land_nonneg; lia|]. destruct (decide (w = 0)) as [->|]; [rewrite Z.land_0_l; lia|].
  destruct (decide (Z.land w x = 0)) as [->|]; [lia|].
  assert (0 <= Z.land w x) by (apply Z.land_nonneg; lia).
  apply Z.log2_lt_pow2; [lia|]. eapply Z.le_lt_trans; [apply Z.log2_land; lia|].
  apply Z.min_lt_iff. left. apply Z.log2_lt_pow2; lia.
Qed.

Lemma word_lor w x : word_ok w -> word_ok x -> word_ok (Z.lor w x).
Proof.
  unfold word_ok. intros Hw Hx. split; [apply Z.lor_nonneg; lia|].
  destruct (decide (w = 0)) as [->|]; [rewrite Z.lor_0_l; lia|]. destruct (decide (x = 0)) as [->|]; [rewrite Z.lor_0_r; lia|].
  assert (Z.lor w x <> 0) by (rewrite Z.lor_eq_0_iff; lia). assert (0 <= Z.lor w x) by (apply Z.lor_nonneg; lia).
  apply Z.log2_lt_pow2; [lia|]. rewrite Z.log2_lor by lia. apply Z.max_lub_lt; apply Z.log2_lt_pow2; lia.
Qed.

(** * The ring *)

Record bitmap_ok (b : Bitmap) : Prop := {
  B_size : exists k, 0 <= k /\ blen (bits b) = 2 ^ k;
  B_words : Forall word_ok (bits b);
}.

(** The bit at an offset of a slot. *)
Definition at_slot (s o : Z) (b : Bitmap) : bool :=
  Z.testbit (nth (Z.to_nat (s mod blen (bits b))) (bits b) 0) o.

Lemma size_pos b : bitmap_ok b -> 0 < blen (bits b).
Proof. intros [(k & Hk & ->) _]. by apply Z.pow_pos_nonneg. Qed.

Lemma slot_mask b s : bitmap_ok b -> Z.land s (blen (bits b) - 1) = s mod blen (bits b).
Proof.
  intros [(k & Hk & ->) _]. rewrite <- Z.land_ones by done. f_equal. rewrite Z.ones_equiv. lia.
Qed.

Lemma blen_update f i sm b : blen (bits (update f i sm b)) = blen (bits b).
Proof. unfold blen, update. simpl. by rewrite length_alter. Qed.

Lemma update_ok f i sm b : (forall w, word_ok w -> word_ok (f w)) -> bitmap_ok b -> bitmap_ok (update f i sm b).
Proof.
  intros Hf [(k & Hk & Hb) Hw]. split.
  - exists k. by rewrite blen_update.
  - unfold update. simpl. apply Forall_alter; [done|]. intros w _. apply Hf.
Qed.

Lemma mod_diff a b n : 0 < n -> (a - b) mod n = 0 -> a mod n = b mod n.
Proof.
  intros Hn H. apply Z.mod_divide in H as [q H]; [|lia]. replace a with (b + q * n) by lia. apply Z.mod_add. lia.
Qed.

Lemma update_slot f i b s o : bitmap_ok b ->
  at_slot s o (update f i (blen (bits b) - 1) b) =
  if (s - i) mod blen (bits b) =? 0 then Z.testbit (f (nth (Z.to_nat (s mod blen (bits b))) (bits b) 0)) o else at_slot s o b.
Proof.
  intros Hb. pose proof (size_pos b Hb) as Hp. unfold at_slot. rewrite blen_update. unfold update. rewrite slot_mask by done. simpl.
  set (n := blen (bits b)) in *. pose proof (Z.mod_pos_bound s n Hp). pose proof (Z.mod_pos_bound i n Hp).
  assert (Z.to_nat (s mod n) < length (bits b))%nat as Hlt by (unfold n, blen in *; lia).
  destruct (Z.eqb_spec ((s - i) mod n) 0) as [E|E].
  - assert (s mod n = i mod n) as -> by (by apply mod_diff).
    rewrite !nth_lookup, list_lookup_alter_eq. assert (i mod n < n) by lia.
    destruct (lookup_lt_is_Some_2 (bits b) (Z.to_nat (i mod n))) as [w Hw]; [unfold n, blen in *; lia|]. by rewrite Hw.
  - rewrite !nth_lookup, list_lookup_alter_ne; [done|]. intros E'. apply E.
    assert (i mod n = s mod n) as E2 by lia. rewrite Zminus_mod, E2, Z.sub_diag. by apply Z.mod_0_l; lia.
Qed.

Lemma at_slot_word s b : bitmap_ok b -> word_ok (nth (Z.to_nat (s mod blen (bits b))) (bits b) 0).
Proof.
  intros [_ Hw]. destruct (nth_lookup_or_length (bits b) (Z.to_nat (s mod blen (bits b))) 0) as [H|H].
  - rewrite Forall_lookup in Hw. by eapply Hw.
  - rewrite nth_overflow by done. by unfold word_ok.
Qed.

(** The loop sets the slots between [ls] and [rs], if they are not more than
    there are. *)
Lemma fill_slot w ls rs b s o : bitmap_ok b -> word_ok w -> ls < rs <= ls + blen (bits b) ->
  let b' := fill w ls rs (blen (bits b) - 1) b in
  bitmap_ok b' /\ blen (bits b') = blen (bits b) /\
  at_slot s o b' = if (0 <? (s - ls) mod blen (bits b)) && ((s - ls) mod blen (bits b) <? rs - ls) then Z.testbit w o else at_slot s o b.
Proof.
  intros Hb Hw Hr. cbn zeta. unfold fill. remember (rs - ls - 1) as m eqn:Em.
  assert (exists k, m = Z.of_nat k) as [k ->] by (exists (Z.to_nat m); lia).
  assert (rs = ls + 1 + Z.of_nat k) as -> by lia. clear Em.
  induction k as [|k IH].
  - simpl. split; [done|]. split; [done|]. set (d := (s - ls) mod blen (bits b)).
    destruct (Z.ltb_spec 0 d); [|done]. simpl. by rewrite (proj2 (Z.ltb_ge d _)) by lia.
  - destruct IH as (H1 & H2 & H3); [lia|]. rewrite seqZ_S, fold_left_app, Nat2Z.inj_succ. cbn [fold_left].
    set (b1 := fold_left _ (seqZ _ _) b) in *. split; [by apply update_ok|]. split; [by rewrite blen_update|].
    rewrite <- H2 at 1. rewrite update_slot, H2, H3 by done. clear H3. pose proof (size_pos b Hb) as Hp.
    set (n := blen (bits b)) in *. pose proof (Z.mod_pos_bound (s - ls) n Hp).
    assert ((s - (ls + 1 + Z.of_nat k)) mod n = ((s - ls) mod n - (1 + Z.of_nat k)) mod n) as ->.
    { rewrite Zminus_mod_idemp_l. f_equal. lia. }
    set (d := (s - ls) mod n) in *. destruct (decide (d = 1 + Z.of_nat k)) as [->|Hne].
    + rewrite Z.sub_diag, Z.mod_0_l by lia. simpl. rewrite (proj2 (Z.ltb_lt 0 _)), (proj2 (Z.ltb_lt _ (_ - ls))) by lia. done.
    + destruct (Z.eqb_spec ((d - (1 + Z.of_nat k)) mod n) 0) as [E|E].
      * apply Z.mod_divide in E as [q E]; [|lia]. assert (q = 0) by nia. lia.
      * destruct (Z.ltb_spec 0 d); [|done]. simpl.
        destruct (Z.ltb_spec d (ls + 1 + Z.of_nat k - ls)), (Z.ltb_spec d (ls + 1 + Z.succ (Z.of_nat k) - ls)); done || lia.
Qed.

Lemma Len_blen b : Len b = 64 * blen (bits b).
Proof. unfold Len. rewrite Z.shiftl_mul_pow2 by lia. lia. Qed.

Lemma shiftr_6 v : Z.shiftr v 6 = v / 64.
Proof. by rewrite Z.shiftr_div_pow2. Qed.

Lemma land_63 v : Z.land v 63 = v mod 64.
Proof. change 63 with (Z.ones 6). by rewrite Z.land_ones. Qed.

Lemma land_bit w o : 0 <= o < 64 -> negb (Z.land w (bit64 o) =? 0) = Z.testbit w o.
Proof.
  intros Ho. destruct (Z.testbit w o) eqn:E.
  - apply negb_true_iff, Z.eqb_neq. intros H. apply (f_equal (fun x => Z.testbit x o)) in H.
    rewrite Z.land_spec, E, bit64_testbit, Z.eqb_refl, Z.bits_0 in H by lia. done.
  - apply negb_false_iff, Z.eqb_eq. apply Z.bits_inj'. intros k Hk. rewrite Z.land_spec, Z.bits_0.
    destruct (decide (k < 64)).
    + rewrite bit64_testbit by lia. destruct (Z.eqb_spec k o) as [->|]; [by rewrite E|apply andb_false_r].
    + rewrite (Z.bits_above_log2 (bit64 o)); [apply andb_false_r|apply u64_range|].
      assert (0 < bit64 o).
      { unfold bit64. rewrite Z.shiftl_1_l. assert (0 < 2 ^ o <= 2 ^ 63) by (split; [apply Z.pow_pos_nonneg|apply Z.pow_le_mono_r]; lia).
        rewrite u64_small; lia. }
      apply Z.lt_le_trans with 64; [apply Z.log2_lt_pow2|]; try lia. apply u64_range.
Qed.

Lemma IsSet_slot v b : bitmap_ok b -> IsSet v b = at_slot (v / 64) (v mod 64) b.
Proof.
  intros Hb. unfold IsSet, getSlotAndOffset, at_slot. rewrite land_bit, slot_mask, shiftr_6, land_63 by
    (try done; rewrite land_63; apply Z.mod_pos_bound; lia). done.
Qed.

(** The bits from [min] to [max], around the ring. *)
Definition covers (min max v : Z) (b : Bitmap) : bool := (v - min) mod Len b <=? max - min.

(** A distance around the ring in terms of slots and offsets. *)
Lemma ring_distance n v min : 0 < n ->
  (v - min) mod (64 * n) =
  let d := (v / 64 - min / 64) mod n in
  if (d =? 0) && (v mod 64 <? min mod 64) then 64 * n + v mod 64 - min mod 64 else 64 * d + v mod 64 - min mod 64.
Proof.
  intros Hn. cbn zeta. set (x := v / 64 - min / 64). pose proof (Z.div_mod v 64). pose proof (Z.div_mod min 64).
  pose proof (Z.mod_pos_bound v 64). pose proof (Z.mod_pos_bound min 64). pose proof (Z.div_mod x n). pose proof (Z.mod_pos_bound x n Hn).
  set (d := x mod n) in *. set (q := x / n) in *.
  assert (v - min = 64 * d + v mod 64 - min mod 64 + q * (64 * n)) as E by (unfold x in *; nia).
  destruct (Z.eqb_spec d 0) as [Ed|Ed], (Z.ltb_spec (v mod 64) (min mod 64)); simpl.
  - symmetry. apply (Z.mod_unique_pos _ _ (q - 1)); nia.
  - symmetry. apply (Z.mod_unique_pos _ _ q); nia.
  - symmetry. apply (Z.mod_unique_pos _ _ q); nia.
  - symmetry. apply (Z.mod_unique_pos _ _ q); nia.
Qed.

Section Range.
(** Word operations that give the bits from [lo] to [ro], from [lo] on, up to
    [ro], and all bits, the value [t]. *)
Context (t : bool) (both : Z -> Z -> Z -> Z) (left_ right_ : Z -> Z -> Z) (all : Z).
Context (Hboth : forall lo ro w o, 0 <= lo <= ro -> ro < 64 -> word_ok w -> 0 <= o < 64 ->
           word_ok (both lo ro w) /\ Z.testbit (both lo ro w) o = if (lo <=? o) && (o <=? ro) then t else Z.testbit w o).
Context (Hleft : forall lo w o, 0 <= lo < 64 -> word_ok w -> 0 <= o < 64 ->
           word_ok (left_ lo w) /\ Z.testbit (left_ lo w) o = if lo <=? o then t else Z.testbit w o).
Context (Hright : forall ro w o, 0 <= ro < 64 -> word_ok w -> 0 <= o < 64 ->
           word_ok (right_ ro w) /\ Z.testbit (right_ ro w) o = if o <=? ro then t else Z.testbit w o).
Context (Hall : word_ok all /\ forall o, 0 <= o < 64 -> Z.testbit all o = t).

Definition range_update (min max : Z) (b : Bitmap) : Bitmap :=
  if max <? min then b
  else
    let '(sm, ls, rs, lo, ro) := getSlotsAndOffsets min max b in
    if ls =? rs then update (both lo ro) ls sm b
    else update (right_ ro) rs sm (fill all ls rs sm (update (left_ lo) ls sm b)).

(** From slot [ls] to a later slot [rs]. *)
Lemma slots_update ls rs lo ro b s o : bitmap_ok b -> ls < rs <= ls + blen (bits b) -> 0 <= lo < 64 -> 0 <= ro < 64 -> 0 <= o < 64 ->
  let b' := update (right_ ro) rs (blen (bits b) - 1) (fill all ls rs (blen (bits b) - 1) (update (left_ lo) ls (blen (bits b) - 1) b)) in
  let d := (s - ls) mod blen (bits b) in
  bitmap_ok b' /\
  at_slot s o b' = if ((d =? 0) && (lo <=? o)) || ((0 <? d) && (d <? rs - ls)) || ((d =? (rs - ls) mod blen (bits b)) && (o <=? ro))
                   then t else at_slot s o b.
Proof.
  intros Hb Hr Hlo Hro Ho. cbn zeta. destruct Hall as [Hw Ht]. pose proof (size_pos b Hb) as Hp.
  assert (bitmap_ok (update (left_ lo) ls (blen (bits b) - 1) b)) as Hb1 by (apply update_ok; [intros w Hw'; by apply (Hleft lo w 0)|done]).
  pose proof (update_slot (left_ lo) ls b s o Hb) as H1. pose proof (blen_update (left_ lo) ls (blen (bits b) - 1) b) as L1.
  rewrite (proj2 (Hleft lo _ o Hlo (at_slot_word s b Hb) Ho)) in H1. fold (at_slot s o b) in H1.
  set (b1 := update _ _ _ b) in *. destruct (fill_slot all ls rs b1 s o Hb1 Hw ltac:(lia)) as (Hb2 & L2 & H2). rewrite L1 in *.
  rewrite H1, Ht in H2 by done. set (b2 := fill _ _ _ _ b1) in *. split; [apply update_ok; [intros w Hw'; by apply (Hright ro w 0)|done]|].
  rewrite <- L2. rewrite update_slot by done. rewrite (proj2 (Hright ro _ o Hro (at_slot_word s b2 Hb2) Ho)). fold (at_slot s o b2).
  rewrite L2, H2. clear - Hp Hr. set (n := blen (bits b)) in *.
  pose proof (Z.mod_pos_bound (s - ls) n Hp). pose proof (Z.mod_pos_bound (rs - ls) n Hp).
  assert (((s - rs) mod n =? 0) = ((s - ls) mod n =? (rs - ls) mod n)) as ->.
  { apply eq_true_iff_eq. rewrite !Z.eqb_eq. replace (s - rs) with ((s - ls) - (rs - ls)) by lia.
    split; [by apply mod_diff|]. intros E. by rewrite Zminus_mod, E, Z.sub_diag. }
  set (d := (s - ls) mod n) in *. destruct (d =? 0), (lo <=? o), (0 <? d), (d <? rs - ls), (d =? (rs - ls) mod n), (o <=? ro); done.
Qed.

Lemma range_update_correct min max b v : bitmap_ok b -> 0 <= min -> 0 <= max ->
  bitmap_ok (range_update min max b) /\
  IsSet v (range_update min max b) = if (min <=? max) && covers min max v b then t else IsSet v b.
Proof.
  intros Hb Hmin Hmax. unfold range_update. destruct (Z.ltb_spec max min); [by rewrite (proj2 (Z.leb_gt min max)) by lia|].
  rewrite (proj2 (Z.leb_le min max)) by lia. unfold getSlotsAndOffsets. rewrite !shiftr_6, !land_63. pose proof (size_pos b Hb) as Hp.
  pose proof (Z.mod_pos_bound v 64 ltac:(lia)) as Ho. pose proof (Z.mod_pos_bound min 64 ltac:(lia)). pose proof (Z.mod_pos_bound max 64 ltac:(lia)).
  pose proof (Z.div_mod min 64 ltac:(lia)). pose proof (Z.div_mod max 64 ltac:(lia)).
  assert (covers min max v b = ((v - min) mod (64 * blen (bits b)) <=? max - min)) as -> by (unfold covers; by rewrite Len_blen).
  rewrite ring_distance by done. cbn zeta. set (d := (v / 64 - min / 64) mod blen (bits b)).
  pose proof (Z.mod_pos_bound (v / 64 - min / 64) (blen (bits b)) Hp) as Hd. fold d in Hd.
  destruct (Z.ltb_spec (blen (bits b)) (max / 64 - min / 64)) as [Hbig|Hsmall].
  - rewrite (proj2 (Z.eqb_neq (min / 64) _)) by lia.
    destruct (slots_update (min / 64) (min / 64 + blen (bits b)) 0 0 b (v / 64) (v mod 64)) as [Hb' Hs]; try done; try lia.
    split; [done|]. rewrite !IsSet_slot by done. rewrite Hs. fold d. clear Hs Hb'. cbn [andb].
    destruct (Z.eqb_spec d 0), (Z.leb_spec 0 (v mod 64)), (Z.ltb_spec 0 d), (Z.ltb_spec d (min / 64 + blen (bits b) - min / 64)); try lia;
      simpl; rewrite (proj2 (Z.leb_le _ (max - min))); try done; try (case_match; nia); nia.
  - destruct (Z.eqb_spec (min / 64) (max / 64)) as [E|E].
    + split; [apply update_ok; [intros w Hw'; by apply (Hboth _ _ w 0); [lia|lia|done|lia]|done]|].
      rewrite !IsSet_slot; [|done|apply update_ok; [intros w Hw'; by apply (Hboth _ _ w 0); [lia|lia|done|lia]|done]].
      rewrite update_slot by done. rewrite (proj2 (Hboth (min mod 64) (max mod 64) _ (v mod 64) ltac:(lia) ltac:(lia) (at_slot_word (v / 64) b Hb) Ho)). fold d.
      fold (at_slot (v / 64) (v mod 64) b). clear - Hp Hd Ho H H0 H1 H2 H3 E. cbn [andb].
      destruct (Z.eqb_spec d 0) as [->|], (Z.leb_spec (min mod 64) (v mod 64)), (Z.leb_spec (v mod 64) (max mod 64)); simpl;
        try (rewrite (proj2 (Z.ltb_lt (v mod 64) _)) by lia); try (rewrite (proj2 (Z.ltb_ge (v mod 64) _)) by lia);
        repeat (case_match; boolp; try done; try nia).
    + assert (min / 64 <= max / 64) by (apply Z.div_le_mono; lia).
      destruct (slots_update (min / 64) (max / 64) (min mod 64) (max mod 64) b (v / 64) (v mod 64)) as [Hb' Hs]; try done; try lia.
      split; [done|]. rewrite !IsSet_slot by done. rewrite Hs. fold d. clear Hs Hb'. cbn [andb].
      assert ((max / 64 - min / 64) mod blen (bits b) = if max / 64 - min / 64 =? blen (bits b) then 0 else max / 64 - min / 64) as ->.
      { destruct (Z.eqb_spec (max / 64 - min / 64) (blen (bits b))) as [->|]; [apply Z.mod_same; lia|apply Z.mod_small; lia]. }
      destruct (Z.eqb_spec (max / 64 - min / 64) (blen (bits b))), (Z.eqb_spec d 0), (Z.ltb_spec (v mod 64) (min mod 64)),
        (Z.leb_spec (min mod 64) (v mod 64)); try lia; simpl; repeat (case_match; boolp; try done; try nia).
Qed.
End Range.

Lemma SetRange_correct min max b v : bitmap_ok b -> 0 <= min -> 0 <= max ->
  bitmap_ok (SetRange min max b) /\
  IsSet v (SetRange min max b) = ((min <=? max) && covers min max v b) || IsSet v b.
Proof.
  intros Hb Hmin Hmax.
  destruct (range_update_correct true (fun lo ro w => Z.lor w (u64 (Z.shiftl (u64 (bit64 (ro - lo + 1) - 1)) lo)))
    (fun lo w => Z.lor w (not64 (bit64 lo - 1))) (fun ro w => Z.lor w (u64 (bit64 (ro + 1) - 1))) (not64 0)) with min max b v as [H1 H2].
  - intros lo ro w o Hlo Hro Hw Ho. split; [apply word_lor; [done|apply word_u64]|].
    rewrite bit64_ones, Z.lor_spec, u64_testbit, Z.shiftl_spec by lia.
    destruct (Z.leb_spec lo o); [|rewrite (Z.testbit_neg_r (Z.ones _)) by lia; simpl; apply orb_false_r].
    rewrite ones_testbit by lia. destruct (Z.leb_spec o ro), (Z.ltb_spec (o - lo) (ro - lo + 1)); simpl; rewrite ?orb_false_r, ?orb_true_r; (done || lia).
  - intros lo w o Hlo Hw Ho. assert (bit64 lo - 1 = Z.ones lo) as ->.
    { rewrite <- bit64_ones by lia. symmetry. apply u64_small. unfold bit64. rewrite Z.shiftl_1_l.
      assert (0 < 2 ^ lo <= 2 ^ 63) by (split; [apply Z.pow_pos_nonneg|apply Z.pow_le_mono_r]; lia). rewrite u64_small; lia. }
    assert (word_ok (Z.ones lo)) by (rewrite <- bit64_ones by lia; apply word_u64).
    split; [apply word_lor; [done|by apply word_not64]|]. rewrite Z.lor_spec, not64_testbit, ones_testbit by (done || lia).
    destruct (Z.ltb_spec o lo), (Z.leb_spec lo o); simpl; rewrite ?orb_false_r, ?orb_true_r; (done || lia).
  - intros ro w o Hro Hw Ho. split; [apply word_lor; [done|apply word_u64]|].
    rewrite bit64_ones, Z.lor_spec, ones_testbit by lia.
    destruct (Z.ltb_spec o (ro + 1)), (Z.leb_spec o ro); simpl; rewrite ?orb_false_r, ?orb_true_r; (done || lia).
  - split; [by apply word_not64|]. intros o Ho. by rewrite not64_testbit, Z.bits_0.
  - done.
  - done.
  - done.
  - split; [exact H1|]. refine (eq_trans H2 _). by case_match.
Qed.

Lemma ClearRange_correct min max b v : bitmap_ok b -> 0 <= min -> 0 <= max ->
  bitmap_ok (ClearRange min max b) /\
  IsSet v (ClearRange min max b) = negb ((min <=? max) && covers min max v b) && IsSet v b.
Proof.
  intros Hb Hmin Hmax.
  destruct (range_update_correct false (fun lo ro w => Z.land w (not64 (u64 (Z.shiftl (u64 (bit64 (ro - lo + 1) - 1)) lo))))
    (fun lo w => Z.land w (Z.shiftr (not64 0) (64 - lo))) (fun ro w => Z.land w (u64 (Z.shiftl (not64 0) (ro + 1)))) 0) with min max b v as [H1 H2].
  - intros lo ro w o Hlo Hro Hw Ho. split; [apply word_land; [done|apply word_not64, word_u64]|].
    rewrite bit64_ones, Z.land_spec, not64_testbit, u64_testbit, Z.shiftl_spec by (apply word_u64 || lia).
    destruct (Z.leb_spec lo o); [|rewrite (Z.testbit_neg_r (Z.ones _)) by lia; simpl; apply andb_true_r].
    rewrite ones_testbit by lia. destruct (Z.leb_spec o ro), (Z.ltb_spec (o - lo) (ro - lo + 1)); simpl; rewrite ?andb_false_r, ?andb_true_r; (done || lia).
  - intros lo w o Hlo Hw Ho. change (not64 0) with (Z.ones 64). split.
    { apply word_land; [done|]. unfold word_ok. rewrite Z.shiftr_div_pow2 by lia. assert (0 < 2 ^ (64 - lo)) by (apply Z.pow_pos_nonneg; lia).
      split; [apply Z.div_pos; [done|lia]|]. apply Z.div_lt_upper_bound; [lia|]. change (Z.ones 64) with (2 ^ 64 - 1). nia. }
    rewrite Z.land_spec, Z.shiftr_spec, ones_testbit by lia.
    destruct (Z.ltb_spec (o + (64 - lo)) 64), (Z.leb_spec lo o); simpl; rewrite ?andb_false_r, ?andb_true_r; (done || lia).
  - intros ro w o Hro Hw Ho. change (not64 0) with (Z.ones 64). split; [apply word_land; [done|apply word_u64]|].
    rewrite Z.land_spec, u64_testbit, Z.shiftl_spec by lia.
    destruct (Z.leb_spec o ro); [rewrite (Z.testbit_neg_r (Z.ones _)) by lia; apply andb_false_r|]. rewrite ones_testbit by lia.
    rewrite (proj2 (Z.ltb_lt (o - (ro + 1)) 64)) by lia. apply andb_true_r.
  - split; [by unfold word_ok|]. intros o Ho. apply Z.bits_0.
  - done.
  - done.
  - done.
  - split; [exact H1|]. refine (eq_trans H2 _). by case_match.
Qed.

(** Same place in the ring. *)
Lemma same_place v x b : bitmap_ok b -> ((v / 64 - x / 64) mod blen (bits b) =? 0) && (v mod 64 =? x mod 64) = ((v - x) mod Len b =? 0).
Proof.
  intros Hb. pose proof (size_pos b Hb) as Hp. rewrite Len_blen, ring_distance by done. cbn zeta.
  pose proof (Z.mod_pos_bound (v / 64 - x / 64) (blen (bits b)) Hp). pose proof (Z.mod_pos_bound v 64 ltac:(lia)).
  pose proof (Z.mod_pos_bound x 64 ltac:(lia)). set (d := (v / 64 - x / 64) mod blen (bits b)) in *.
  destruct (Z.eqb_spec d 0) as [->|], (Z.ltb_spec (v mod 64) (x mod 64)), (Z.eqb_spec (v mod 64) (x mod 64)); simpl;
    symmetry; try (apply Z.eqb_eq; lia); apply Z.eqb_neq; lia.
Qed.

Lemma Set_correct x b v : bitmap_ok b -> bitmap_ok (Set_ x b) /\ IsSet v (Set_ x b) = ((v - x) mod Len b =? 0) || IsSet v b.
Proof.
  intros Hb. unfold Set_, getSlotAndOffset. rewrite shiftr_6, land_63. pose proof (Z.mod_pos_bound v 64 ltac:(lia)).
  pose proof (Z.mod_pos_bound x 64 ltac:(lia)).
  assert (bitmap_ok (update (fun w => Z.lor w (bit64 (x mod 64))) (x / 64) (blen (bits b) - 1) b)) as Hb'
    by (apply update_ok; [intros w Hw; apply word_lor; [done|apply word_u64]|done]).
  split; [done|]. rewrite !IsSet_slot, update_slot by done. rewrite <- same_place by done.
  destruct (_ =? 0); [|done]. rewrite Z.lor_spec, bit64_testbit by lia. simpl. by rewrite orb_comm.
Qed.

Lemma Clear_correct x b v : bitmap_ok b -> bitmap_ok (Clear x b) /\ IsSet v (Clear x b) = negb ((v - x) mod Len b =? 0) && IsSet v b.
Proof.
  intros Hb. unfold Clear, getSlotAndOffset. rewrite shiftr_6, land_63. pose proof (Z.mod_pos_bound v 64 ltac:(lia)).
  pose proof (Z.mod_pos_bound x 64 ltac:(lia)).
  assert (bitmap_ok (update (fun w => Z.land w (not64 (bit64 (x mod 64)))) (x / 64) (blen (bits b) - 1) b)) as Hb'
    by (apply update_ok; [intros w Hw; apply word_land; [done|apply word_not64, word_u64]|done]).
  split; [done|]. rewrite !IsSet_slot, update_slot by done. rewrite <- same_place by done.
  destruct (_ =? 0); [|done]. rewrite Z.land_spec, not64_testbit, bit64_testbit by (apply word_u64 || lia). simpl. by rewrite andb_comm.
Qed.

Lemma NewBitmap_correct size v : 0 <= size < 2 ^ 60 ->
  bitmap_ok (NewBitmap size) /\ size <= Len (NewBitmap size) /\ IsSet v (NewBitmap size) = false.
Proof.
  intros Hs. unfold NewBitmap. rewrite u64_small by lia. set (q := (size + 63) / 64).
  assert (0 <= q) by (apply Z.div_pos; lia). pose proof (Z.div_mod (size + 63) 64 ltac:(lia)).
  pose proof (Z.mod_pos_bound (size + 63) 64 ltac:(lia)). fold q in H0.
  assert (0 <= Len64 q /\ q <= 2 ^ Len64 q) as [Hl Hq].
  { unfold Len64. destruct (Z.eqb_spec q 0) as [->|]; [simpl; lia|]. pose proof (Z.log2_nonneg q).
    pose proof (Z.log2_spec q ltac:(lia)). rewrite Z.add_1_r. lia. }
  rewrite Z.shiftl_1_l. assert (0 < 2 ^ Len64 q) by (by apply Z.pow_pos_nonneg).
  set (b := {| bits := _ |}). assert (blen (bits b) = 2 ^ Len64 q) as Hb by (unfold blen, b; simpl; rewrite length_replicate; lia).
  assert (bitmap_ok b) as Hok.
  { split; [by exists (Len64 q)|]. apply Forall_replicate. by unfold word_ok. }
  split; [done|]. split; [rewrite Len_blen, Hb; lia|]. rewrite IsSet_slot by done. unfold at_slot, b. simpl.
  rewrite nth_lookup. destruct (replicate _ _ !! _) as [w|] eqn:E; [|apply Z.bits_0]. apply lookup_replicate in E as [-> _]. apply Z.bits_0.
Qed.

(** * The properties *)

(** What was done to a bit map. *)
Inductive bitmap_op := OpSet (x : Z) | OpClear (x : Z) | OpSetRange (min max : Z) | OpClearRange (min max : Z).

Definition op_valid (o : bitmap_op) : Prop :=
  match o with OpSetRange min max | OpClearRange min max => 0 <= min /\ 0 <= max | _ => True end.

Definition run_op (b : Bitmap) (o : bitmap_op) : Bitmap :=
  match o with
  | OpSet x => Set_ x b
  | OpClear x => Clear x b
  | OpSetRange min max => SetRange min max b
  | OpClearRange min max => ClearRange min max b
  end.

(** What an operation says about the bit [v] of a ring of [n] bits. *)
Definition op_says (n v : Z) (o : bitmap_op) : option bool :=
  match o with
  | OpSet x => if (v - x) mod n =? 0 then Some true else None
  | OpClear x => if (v - x) mod n =? 0 then Some false else None
  | OpSetRange min max => if (min <=? max) && ((v - min) mod n <=? max - min) then Some true else None
  | OpClearRange min max => if (min <=? max) && ((v - min) mod n <=? max - min) then Some false else None
  end.

(** The last operation that says anything decides. *)
Fixpoint decided (n v : Z) (ops : list bitmap_op) : bool :=
  match ops with
  | [] => false
  | o :: earlier => match op_says n v o with Some x => x | None => decided n v earlier end
  end.

(** Operations keep the number of words. *)
Lemma run_op_len b o : blen (bits (run_op b o)) = blen (bits b).
Proof.
  assert (forall w ls rs sm b, blen (bits (fill w ls rs sm b)) = blen (bits b)) as Hf.
  { intros w ls rs sm b0. unfold fill. generalize (seqZ (ls + 1) (rs - ls - 1)). intros l. revert b0.
    induction l as [|i l IH]; intros b0; [done|]. cbn [fold_left]. by rewrite IH, blen_update. }
  destruct o; simpl.
  - apply blen_update.
  - apply blen_update.
  - unfold SetRange. repeat case_match; rewrite ?blen_update, ?Hf, ?blen_update; done.
  - unfold ClearRange. repeat case_match; rewrite ?blen_update, ?Hf, ?blen_update; done.
Qed.

Lemma run_op_correct b o v : bitmap_ok b -> op_valid o ->
  bitmap_ok (run_op b o) /\ IsSet v (run_op b o) = match op_says (Len b) v o with Some x => x | None => IsSet v b end.
Proof.
  intros Hb Ho. destruct o as [x|x|min max|min max]; simpl in *.
  - destruct (Set_correct x b v Hb) as [H1 H2]. split; [done|]. rewrite H2. match goal with |- context [if ?c then _ else _] => by destruct c end.
  - destruct (Clear_correct x b v Hb) as [H1 H2]. split; [done|]. rewrite H2. match goal with |- context [if ?c then _ else _] => by destruct c end.
  - destruct (SetRange_correct min max b v Hb) as [H1 H2]; try tauto. split; [done|]. rewrite H2. unfold covers. match goal with |- context [if ?c then _ else _] => by destruct c end.
  - destruct (ClearRange_correct min max b v Hb) as [H1 H2]; try tauto. split; [done|]. rewrite H2. unfold covers. match goal with |- context [if ?c then _ else _] => by destruct c end.
Qed.

(** A bit map of at least the size asked for answers for every bit what the last
    operation on it said, where a range may be longer than the ring or go
    around its end; a bit nothing was said of is not set. *)
Theorem bitmap_refines size ops v : 0 <= size < 2 ^ 60 -> Forall op_valid ops ->
  let b := fold_left run_op ops (NewBitmap size) in
  size <= Len b /\ IsSet v b = decided (Len b) v (rev ops).
Proof.
  intros Hs Ho. cbn zeta. destruct (NewBitmap_correct size v Hs) as (H1 & H2 & H3).
  assert (bitmap_ok (fold_left run_op ops (NewBitmap size)) /\
    Len (fold_left run_op ops (NewBitmap size)) = Len (NewBitmap size) /\
    IsSet v (fold_left run_op ops (NewBitmap size)) = decided (Len (NewBitmap size)) v (rev ops)) as (_ & -> & ->); [|done].
  induction ops as [|o ops IH] using rev_ind; [split; [done|split; [done|exact H3]]|].
  apply Forall_app in Ho as [Ho1 Ho2]. apply Forall_cons in Ho2 as [Ho2 _]. destruct (IH Ho1) as (Hok & HL & HI).
  rewrite fold_left_app, rev_app_distr. cbn [fold_left rev app decided].
  destruct (run_op_correct (fold_left run_op ops (NewBitmap size)) o v Hok Ho2) as [R1 R2]. split; [done|]. split.
  - rewrite <- HL, !Len_blen. by rewrite run_op_len.
  - rewrite R2, HL, HI. done.
Qed.

Lemma bitmap_refines_witness :
  let b := fold_left run_op [OpSetRange 100 140; OpClear 120; OpSetRange 500 520] (NewBitmap 200) in
  Len b = 512 /\ IsSet 120 b = false /\ IsSet 130 b = true /\ IsSet 2 b = true.
Proof.
  cbn zeta. assert (forall v, IsSet v (fold_left run_op [OpSetRange 100 140; OpClear 120; OpSetRange 500 520] (NewBitmap 200)) =
    decided 512 v (rev [OpSetRange 100 140; OpClear 120; OpSetRange 500 520])) as H.
  { intros v. destruct (bitmap_refines 200 [OpSetRange 100 140; OpClear 120; OpSetRange 500 520] v) as [_ H]; [lia| |].
    - repeat constructor; lia.
    - refine (eq_trans H _). by replace (Len _) with 512 by (vm_compute; reflexivity). }
  split; [vm_compute; reflexivity|]. rewrite !H. vm_compute. repeat split.
Defined.
