(* ===== verification/LkTimeoutQueue.v ===== *)
(** The timeout queue of lib/livekit-protocol (utils/timeoutqueue.go): an
    intrusive doubly linked list of items, the least recently reset first.

    Items are numbered; the store maps the number of an item to its fields, and
    a pointer to an item is its number. *)

From Stdlib Require Import Sorted.
From S2P Require Import Prelude.

#[local] Open Scope list_scope.

(** [TimeoutQueueItem]; its value plays no part. *)
Record item := { time : Z; next : option nat; prev : option nat; removed : bool }.

(** An item that was never given to the queue. *)
Definition new_item : item := {| time := 0; next := None; prev := None; removed := false |}.

Record TimeoutQueue := { items : gmap nat item; head : option nat; tail : option nat }.

Definition NewTimeoutQueue : TimeoutQueue := {| items := ∅; head := None; tail := None |}.

Definition get (i : nat) (q : TimeoutQueue) : item := default new_item (items q !! i).

Definition put (i : nat) (x : item) (q : TimeoutQueue) : TimeoutQueue :=
  {| items := <[i := x]> (items q); head := head q; tail := tail q |}.
Definition set_head (h : option nat) (q : TimeoutQueue) : TimeoutQueue :=
  {| items := items q; head := h; tail := tail q |}.
Definition set_tail (t : option nat) (q : TimeoutQueue) : TimeoutQueue :=
  {| items := items q; head := head q; tail := t |}.

Definition set_next (n : option nat) (i : nat) (q : TimeoutQueue) : TimeoutQueue :=
  let x := get i q in put i {| time := time x; next := n; prev := prev x; removed := removed x |} q.
Definition set_prev (p : option nat) (i : nat) (q : TimeoutQueue) : TimeoutQueue :=
  let x := get i q in put i {| time := time x; next := next x; prev := p; removed := removed x |} q.
Definition set_time (t : Z) (i : nat) (q : TimeoutQueue) : TimeoutQueue :=
  let x := get i q in put i {| time := t; next := next x; prev := prev x; removed := removed x |} q.
Definition set_removed (r : bool) (i : nat) (q : TimeoutQueue) : TimeoutQueue :=
  let x := get i q in put i {| time := time x; next := next x; prev := prev x; removed := r |} q.

(** [remove]. *)
Definition remove (i : nat) (q : TimeoutQueue) : TimeoutQueue :=
  let q := if bool_decide (tail q = Some i) then set_tail (prev (get i q)) q else q in
  let q := if bool_decide (head q = Some i) then set_head (next (get i q)) q else q in
  let q := match prev (get i q) with Some p => set_next (next (get i q)) p q | None => q end in
  let q := match next (get i q) with Some n => set_prev (prev (get i q)) n q | None => q end in
  set_prev None i (set_next None i q).

(** [push]. *)
Definition push (i : nat) (q : TimeoutQueue) : TimeoutQueue :=
  let q := set_next None i (set_prev (tail q) i q) in
  let q := match prev (get i q) with Some p => set_next (Some i) p q | None => q end in
  let q := set_tail (Some i) q in
  match head q with Some _ => q | None => set_head (Some i) q end.

(** [Reset] at the time [t], which is read before the lock is taken. *)
Definition Reset (t : Z) (i : nat) (q : TimeoutQueue) : bool * TimeoutQueue :=
  if removed (get i q) then (false, q)
  else (true, push i (remove i (set_time t i q))).

Definition Remove (i : nat) (q : TimeoutQueue) : TimeoutQueue := remove i (set_removed true i q).

Definition popBefore (t : Z) (rm : bool) (q : TimeoutQueue) : option nat * TimeoutQueue :=
  match head q with
  | None => (None, q)
  | Some i =>
      if t <? time (get i q) then (None, q)
      else (Some i, remove i (set_time 0 i (set_removed (removed (get i q) || rm) i q)))
  end.

(** [for it.Next() { ... it.Item() ... }] with an iterator of the cut-off
    [t]: the items it yields, with fuel. *)
Fixpoint iterate (fuel : nat) (t : Z) (rm : bool) (q : TimeoutQueue) : option (list nat * TimeoutQueue) :=
  match fuel with
  | O => None
  | S fuel =>
      match popBefore t rm q with
      | (None, q) => Some ([], q)
      | (Some i, q) => '(l, q) ← iterate fuel t rm q; Some (i :: l, q)
      end
  end.

(** * The list *)

(** The pointers are those of the list [l]. *)
Record rep (q : TimeoutQueue) (l : list nat) : Prop := {
  R_nodup : NoDup l;
  R_head : head q = list.head l;
  R_tail : tail q = last l;
  R_links : forall l1 x l2, l = l1 ++ x :: l2 -> next (get x q) = list.head l2 /\ prev (get x q) = last l1;
  R_out : forall x, x ∉ l -> next (get x q) = None /\ prev (get x q) = None;
}.

Lemma get_put i j x q : get j (put i x q) = if decide (i = j) then x else get j q.
Proof.
  unfold get, put. simpl. destruct (decide (i = j)) as [->|]; [by rewrite lookup_insert_eq|by rewrite lookup_insert_ne].
Qed.

Lemma next_set_next n i j q : next (get j (set_next n i q)) = if decide (i = j) then n else next (get j q).
Proof. unfold set_next. rewrite get_put. by case_decide. Qed.
Lemma next_set_prev p i j q : next (get j (set_prev p i q)) = next (get j q).
Proof. unfold set_prev. rewrite get_put. case_decide; by subst. Qed.
Lemma prev_set_next n i j q : prev (get j (set_next n i q)) = prev (get j q).
Proof. unfold set_next. rewrite get_put. case_decide; by subst. Qed.
Lemma prev_set_prev p i j q : prev (get j (set_prev p i q)) = if decide (i = j) then p else prev (get j q).
Proof. unfold set_prev. rewrite get_put. by case_decide. Qed.

(** Time and mark of an item do not depend on its links. *)
Definition data (i : nat) (q : TimeoutQueue) : Z * bool := (time (get i q), removed (get i q)).

Lemma data_set_next n i j q : data j (set_next n i q) = data j q.
Proof. unfold data, set_next. rewrite get_put. case_decide; by subst. Qed.
Lemma data_set_prev p i j q : data j (set_prev p i q) = data j q.
Proof. unfold data, set_prev. rewrite get_put. case_decide; by subst. Qed.

(** What [remove] does to each field. *)
Lemma remove_fields i q : prev (get i q) <> Some i -> next (get i q) <> Some i ->
  head (remove i q) = (if bool_decide (head q = Some i) then next (get i q) else head q) /\
  tail (remove i q) = (if bool_decide (tail q = Some i) then prev (get i q) else tail q) /\
  (forall j, next (get j (remove i q)) =
     if decide (i = j) then None else if decide (prev (get i q) = Some j) then next (get i q) else next (get j q)) /\
  (forall j, prev (get j (remove i q)) =
     if decide (i = j) then None else if decide (next (get i q) = Some j) then prev (get i q) else prev (get j q)) /\
  (forall j, data j (remove i q) = data j q).
Proof.
  intros Hp Hn. unfold remove.
  set (q1 := if bool_decide (tail q = Some i) then set_tail (prev (get i q)) q else q).
  assert (items q1 = items q /\ head q1 = head q /\ tail q1 = if bool_decide (tail q = Some i) then prev (get i q) else tail q)
    as (I1 & H1 & T1) by (unfold q1; by case_bool_decide). clearbody q1.
  assert (get i q1 = get i q) as G1 by (unfold get; by rewrite I1).
  set (q2 := if bool_decide (head q1 = Some i) then set_head (next (get i q1)) q1 else q1).
  assert (items q2 = items q /\ head q2 = (if bool_decide (head q = Some i) then next (get i q) else head q) /\ tail q2 = tail q1)
    as (I2 & H2 & T2) by (unfold q2; rewrite H1, G1; by destruct (bool_decide (head q = Some i))). clearbody q2. rewrite T1 in T2.
  assert (forall j, get j q2 = get j q) as G2 by (intros j; unfold get; by rewrite I2).
  rewrite (G2 i). destruct (prev (get i q)) as [p|] eqn:Ep.
  - assert (next (get i (set_next (next (get i q)) p q2)) = next (get i q)) as ->.
    { rewrite next_set_next, G2. rewrite decide_False; [done|congruence]. }
    rewrite prev_set_next, G2, Ep. destruct (next (get i q)) as [n|] eqn:En; simpl; rewrite H2, T2;
      (split; [done|split; [done|split; [|split]]]); intros j;
      rewrite ?next_set_prev, ?next_set_next, ?prev_set_prev, ?prev_set_next, ?next_set_prev, ?next_set_next,
        ?prev_set_prev, ?prev_set_next, ?data_set_prev, ?data_set_next, ?data_set_prev, ?data_set_next, ?G2;
      repeat case_decide; try congruence; try done; unfold data; by rewrite ?G2.
  - rewrite (G2 i), Ep. destruct (next (get i q)) as [n|] eqn:En; simpl; rewrite H2, T2;
      (split; [done|split; [done|split; [|split]]]); intros j;
      rewrite ?next_set_prev, ?next_set_next, ?prev_set_prev, ?prev_set_next, ?next_set_prev, ?next_set_next,
        ?prev_set_prev, ?prev_set_next, ?data_set_prev, ?data_set_next, ?data_set_prev, ?data_set_next, ?G2;
      repeat case_decide; try congruence; try done; unfold data; by rewrite ?G2.
Qed.

(** An item is not its own neighbour. *)
Lemma rep_not_self q l i : rep q l -> prev (get i q) <> Some i /\ next (get i q) <> Some i.
Proof.
  intros [Hnd _ _ Hl Ho]. destruct (decide (i ∈ l)) as [Hi|Hi].
  - apply list_elem_of_split in Hi as (l1 & l2 & ->). destruct (Hl l1 i l2 eq_refl) as [-> ->].
    apply NoDup_app in Hnd as (_ & H1 & H2). apply NoDup_cons in H2 as [H2 _]. split.
    + intros E. apply (H1 i); [|apply list_elem_of_here]. apply last_Some in E as [l' ->]. apply elem_of_app. right. apply list_elem_of_here.
    + intros E. apply H2. destruct l2; [done|]. injection E as ->. apply list_elem_of_here.
  - by destruct (Ho i Hi) as [-> ->].
Qed.

Lemma head_elem {A} (l : list A) x : list.head l = Some x -> x ∈ l.
Proof. destruct l; intros [=]; subst. apply list_elem_of_here. Qed.

Lemma last_member {A} (l : list A) x : last l = Some x -> x ∈ l.
Proof. intros H. apply last_Some in H as [l' ->]. apply elem_of_app. right. apply list_elem_of_here. Qed.

(** Without an item that occurs once. *)
Definition without (i : nat) (l : list nat) : list nat := filter (fun x => x <> i) l.

Lemma without_out i l : i ∉ l -> without i l = l.
Proof.
  induction l as [|x l IH]; [done|]. rewrite not_elem_of_cons. intros [Hx Hl]. unfold without. rewrite filter_cons, decide_True by done.
  f_equal. by apply IH.
Qed.

Lemma without_in i l1 l2 : NoDup (l1 ++ i :: l2) -> without i (l1 ++ i :: l2) = l1 ++ l2.
Proof.
  intros H. apply NoDup_app in H as (_ & H1 & H2). apply NoDup_cons in H2 as [H2 _]. unfold without.
  rewrite filter_app, filter_cons, decide_False by (intros E; by apply E). fold (without i l1) (without i l2).
  rewrite !without_out; [done|done|]. intros H. apply (H1 i H), list_elem_of_here.
Qed.

(** Where an element of a concatenation is. *)
Lemma app_split {A} (l1 l2 k1 k2 : list A) y : l1 ++ l2 = k1 ++ y :: k2 ->
  (exists m, l1 = k1 ++ y :: m /\ k2 = m ++ l2) \/ (exists m, k1 = l1 ++ m /\ l2 = m ++ y :: k2).
Proof.
  intros H. apply app_eq_inv in H as [(m & -> & E)|(m & -> & E)].
  - destruct m as [|x m]; simpl in E.
    + right. exists []. by rewrite !app_nil_r.
    + injection E as -> ->. left. by exists m.
  - right. by exists m.
Qed.

Lemma head_app {A} (l k : list A) : list.head (l ++ k) = match list.head l with Some x => Some x | None => list.head k end.
Proof. by destruct l. Qed.

Lemma rep_remove q l i : rep q l -> rep (remove i q) (without i l).
Proof.
  intros Hr. destruct (rep_not_self q l i Hr) as [Hp Hn]. destruct (remove_fields i q Hp Hn) as (Hh & Ht & Hx & Hv & _).
  destruct Hr as [Rn Rh Rt Rl Ro]. destruct (decide (i ∈ l)) as [Hi|Hi].
  - apply list_elem_of_split in Hi as (l1 & l2 & ->). destruct (Rl l1 i l2 eq_refl) as [E1 E2]. rewrite E1, E2 in *.
    rewrite without_in by done. pose proof Rn as Rn'. apply NoDup_app in Rn' as (N1 & N12 & N2). apply NoDup_cons in N2 as [Ni N2].
    assert (i ∉ l1) as Hi1 by (intros H; apply (N12 i H), list_elem_of_here).
    assert (forall x, x ∈ l1 -> x ∉ l2) as Hd by (intros x Hx1 Hx2; apply (N12 x Hx1); by right).
    split.
    + apply NoDup_app. done.
    + rewrite Hh, Rh, !head_app. simpl. destruct l1 as [|x l1]; simpl; [by rewrite bool_decide_true|].
      rewrite bool_decide_false; [done|]. intros [= ->]. apply Hi1, list_elem_of_here.
    + rewrite Ht, Rt, !last_app, last_cons. destruct (last l2) as [y|] eqn:El.
      * rewrite bool_decide_false; [done|]. intros [= ->]. by apply Ni, last_member.
      * by rewrite bool_decide_true.
    + intros k1 y k2 E. apply app_split in E as [(m & -> & ->)|(m & -> & ->)].
      * assert (i <> y) as Hiy by (intros ->; apply Hi1, elem_of_app; right; apply list_elem_of_here).
        rewrite Hx, Hv, !(decide_False _ _ Hiy). destruct (Rl k1 y (m ++ i :: l2)) as [F1 F2]; [by rewrite <- app_assoc|]. rewrite F1, F2.
        rewrite (decide_False (P := list.head l2 = Some y)).
        2:{ intros H. apply (Hd y); [apply elem_of_app; right; apply list_elem_of_here|by apply head_elem]. }
        split; [|done]. rewrite !last_app, last_cons, !head_app. destruct m as [|z m]; simpl; [by rewrite decide_True|].
        rewrite decide_False; [done|]. intros H. apply NoDup_app in N1 as (_ & _ & N1). apply NoDup_cons in N1 as [N1 _].
        apply N1. destruct (last (z :: m)) eqn:El; [|by rewrite last_None in El]. injection H as ->. by apply last_member.
      * assert (i <> y) as Hiy by (intros ->; apply Ni, elem_of_app; right; apply list_elem_of_here).
        rewrite Hx, Hv, !(decide_False _ _ Hiy). destruct (Rl (l1 ++ i :: m) y k2) as [F1 F2]; [by rewrite <- app_assoc|]. rewrite F1, F2.
        rewrite (decide_False (P := last l1 = Some y)).
        2:{ intros H. apply (Hd y); [by apply last_member|apply elem_of_app; right; apply list_elem_of_here]. }
        split; [done|]. rewrite !last_app, last_cons, head_app. destruct m as [|z m]; simpl; [by rewrite decide_True|].
        rewrite decide_False; [by destruct (last (z :: m)) eqn:El; [|by rewrite last_None in El]|].
        intros [= ->]. apply NoDup_app in N2 as (_ & N2 & _). apply (N2 y); apply list_elem_of_here.
    + intros x Hx'. rewrite Hx, Hv. destruct (decide (i = x)) as [|Hix]; [done|].
      destruct (Ro x) as [F1 F2]; [intros H; apply Hx'; apply elem_of_app in H as [H|H]; apply elem_of_app; [by left|]; apply elem_of_cons in H as [->|H]; [done|by right]|].
      rewrite F1, F2. rewrite !decide_False; [done|..]; intros H; apply Hx', elem_of_app; [right; by apply head_elem|left; by apply last_member].
  - destruct (Ro i Hi) as [E1 E2]. rewrite E1, E2 in *. rewrite without_out by done.
    assert (forall j, next (get j (remove i q)) = next (get j q) /\ prev (get j (remove i q)) = prev (get j q)) as Hsame.
    { intros j. rewrite Hx, Hv. destruct (decide (i = j)) as [<-|]; [by rewrite E1, E2|done]. }
    split; [done|..].
    + rewrite Hh, Rh, bool_decide_false; [done|]. intros H. by apply Hi, head_elem.
    + rewrite Ht, Rt, bool_decide_false; [done|]. intros H. by apply Hi, last_member.
    + intros l1 x l2 E. destruct (Hsame x) as [-> ->]. by apply Rl.
    + intros x Hx'. destruct (Hsame x) as [-> ->]. by apply Ro.
Qed.

Lemma push_fields i q : tail q <> Some i ->
  head (push i q) = (match head q with Some h => Some h | None => Some i end) /\ tail (push i q) = Some i /\
  (forall j, next (get j (push i q)) =
     if decide (i = j) then None else if decide (tail q = Some j) then Some i else next (get j q)) /\
  (forall j, prev (get j (push i q)) = if decide (i = j) then tail q else prev (get j q)) /\
  (forall j, data j (push i q) = data j q).
Proof.
  intros Ht. unfold push. set (q1 := set_next None i (set_prev (tail q) i q)).
  assert (prev (get i q1) = tail q) as -> by (unfold q1; rewrite prev_set_next, prev_set_prev; by rewrite decide_True).
  set (q2 := match tail q with Some p => set_next (Some i) p q1 | None => q1 end).
  assert (head q2 = head q) as H2 by (unfold q2; by destruct (tail q)).
  assert (forall j, next (get j q2) = if decide (i = j) then None else if decide (tail q = Some j) then Some i else next (get j q)) as Hn.
  { intros j. unfold q2. destruct (tail q) as [p|]; rewrite ?next_set_next; unfold q1; rewrite next_set_next, next_set_prev;
      repeat case_decide; congruence. }
  assert (forall j, prev (get j q2) = if decide (i = j) then tail q else prev (get j q)) as Hp.
  { intros j. unfold q2. destruct (tail q) as [p|]; rewrite ?prev_set_next; unfold q1; rewrite prev_set_next, prev_set_prev; done. }
  assert (forall j, data j q2 = data j q) as Hd.
  { intros j. unfold q2. destruct (tail q) as [p|]; rewrite ?data_set_next; unfold q1; by rewrite data_set_next, data_set_prev. }
  clearbody q2. cbn [set_tail head]. rewrite H2. destruct (head q); split_and!; done.
Qed.

Lemma rep_push q l i : rep q l -> i ∉ l -> rep (push i q) (l ++ [i]).
Proof.
  intros [Rn Rh Rt Rl Ro] Hi.
  assert (tail q <> Some i) as Hti by (rewrite Rt; intros H; by apply Hi, last_member).
  destruct (push_fields i q Hti) as (Hh & Ht & Hx & Hv & _). split.
  - apply NoDup_app. split; [done|]. split; [|apply NoDup_singleton]. intros x Hx' H. apply list_elem_of_singleton in H. by subst.
  - rewrite Hh, Rh, head_app. by destruct l.
  - rewrite Ht. by rewrite last_snoc.
  - intros l1 x l2 E. rewrite Hx, Hv. destruct (app_split _ _ _ _ _ E) as [(m & -> & ->)|(m & -> & Em)].
    + assert (i <> x) as Hix by (intros ->; apply Hi, elem_of_app; right; apply list_elem_of_here).
      rewrite !(decide_False _ _ Hix). destruct (Rl l1 x m eq_refl) as [-> ->]. split; [|done].
      rewrite Rt, last_app, last_cons, head_app. destruct m as [|y m]; simpl; [by rewrite decide_True|].
      rewrite decide_False; [done|]. intros H. apply NoDup_app in Rn as (_ & _ & Rn). apply NoDup_cons in Rn as [Rn _].
      apply Rn. destruct (last (y :: m)) eqn:El; [|by rewrite last_None in El]. injection H as ->. by apply last_member.
    + destruct m as [|y m]; [|by destruct m]. injection Em as <- <-. rewrite !decide_True by done. by rewrite app_nil_r.
  - intros x Hx'. rewrite not_elem_of_app, list_elem_of_singleton in Hx'. destruct Hx' as [H1 H2]. rewrite Hx, Hv.
    rewrite !(decide_False (P := i = x)) by congruence. destruct (Ro x H1) as [-> ->].
    rewrite decide_False; [done|]. rewrite Rt. intros H. by apply H1, last_member.
Qed.

(** The links do not depend on times and marks. *)
Lemma rep_put q l i t r : rep q l ->
  rep (put i {| time := t; next := next (get i q); prev := prev (get i q); removed := r |} q) l.
Proof.
  intros [Rn Rh Rt Rl Ro]. split; try done.
  - intros l1 x l2 E. rewrite get_put. destruct (decide (i = x)) as [<-|]; by apply Rl.
  - intros x Hx. rewrite get_put. destruct (decide (i = x)) as [<-|]; by apply Ro.
Qed.

(** * The abstract queue *)

(** What the pointers stand for: the items in the queue, least recently reset
    first, and the time and the mark of every item. *)
Record queue := { q_list : list nat; q_time : nat -> Z; q_removed : nat -> bool }.

Definition abs (q : TimeoutQueue) (a : queue) : Prop :=
  rep q (q_list a) /\ forall i, data i q = (q_time a i, q_removed a i).

Definition upd {A} (f : nat -> A) (i : nat) (v : A) : nat -> A := fun j => if decide (i = j) then v else f j.

Definition a_reset (t : Z) (i : nat) (a : queue) : bool * queue :=
  if q_removed a i then (false, a)
  else (true, {| q_list := without i (q_list a) ++ [i]; q_time := upd (q_time a) i t; q_removed := q_removed a |}).

Definition a_remove (i : nat) (a : queue) : queue :=
  {| q_list := without i (q_list a); q_time := q_time a; q_removed := upd (q_removed a) i true |}.

Definition a_pop (t : Z) (rm : bool) (a : queue) : option nat * queue :=
  match q_list a with
  | [] => (None, a)
  | i :: l =>
      if t <? q_time a i then (None, a)
      else (Some i, {| q_list := l; q_time := upd (q_time a) i 0; q_removed := upd (q_removed a) i (q_removed a i || rm) |})
  end.

Definition a_new : queue := {| q_list := []; q_time := fun _ => 0; q_removed := fun _ => false |}.

Lemma data_remove q l i j : rep q l -> data j (remove i q) = data j q.
Proof. intros Hr. destruct (rep_not_self q l i Hr). by apply remove_fields. Qed.

Lemma without_not i l : i ∉ without i l.
Proof. intros H. apply list_elem_of_filter in H as [H _]. by apply H. Qed.

Lemma data_put q i j t r : data j (put i {| time := t; next := next (get i q); prev := prev (get i q); removed := r |} q) =
  if decide (i = j) then (t, r) else data j q.
Proof. unfold data. rewrite get_put. by case_decide. Qed.

Lemma Reset_abs q a t i : abs q a -> fst (Reset t i q) = fst (a_reset t i a) /\ abs (snd (Reset t i q)) (snd (a_reset t i a)).
Proof.
  intros [Hr Hd]. unfold Reset, a_reset. pose proof (Hd i) as Hi. injection Hi as Ht Hm. rewrite Hm.
  destruct (q_removed a i) eqn:Em; [done|]. split; [done|]. cbn [snd].
  assert (rep (set_time t i q) (q_list a)) as Hr1 by by apply rep_put. pose proof (rep_remove _ _ i Hr1) as Hr2.
  split; cbn [q_list q_time q_removed]; [by apply rep_push, without_not|]. intros j.
  destruct (push_fields i (remove i (set_time t i q))) as (_ & _ & _ & _ & ->).
  { rewrite (R_tail _ _ Hr2). intros H. by apply (without_not i (q_list a)), last_member. }
  rewrite (data_remove _ _ _ _ Hr1). unfold set_time. rewrite data_put. unfold upd.
  destruct (decide (i = j)) as [<-|]; [by rewrite Hm, Em|by rewrite Hd].
Qed.

Lemma Remove_abs q a i : abs q a -> abs (Remove i q) (a_remove i a).
Proof.
  intros [Hr Hd]. assert (rep (set_removed true i q) (q_list a)) as Hr1 by by apply rep_put.
  split; cbn [a_remove q_list q_time q_removed]; [by apply rep_remove|]. intros j. unfold Remove.
  rewrite (data_remove _ _ _ _ Hr1). unfold set_removed. rewrite data_put. unfold upd.
  destruct (decide (i = j)) as [<-|]; [|by rewrite Hd]. pose proof (Hd i) as Hi. injection Hi as Ht Hm. by rewrite Ht.
Qed.

Lemma popBefore_abs q a t rm : abs q a ->
  fst (popBefore t rm q) = fst (a_pop t rm a) /\ abs (snd (popBefore t rm q)) (snd (a_pop t rm a)).
Proof.
  intros [Hr Hd]. unfold popBefore, a_pop. rewrite (R_head _ _ Hr). assert (abs q a) as Ha by done.
  destruct (q_list a) as [|i l] eqn:El; cbn [list.head fst snd]; [done|].
  pose proof (Hd i) as Hi. injection Hi as Ht Hm. rewrite Ht. destruct (t <? q_time a i) eqn:E; [done|].
  split; [done|]. cbn [snd]. rewrite Hm.
  assert (rep (set_removed (q_removed a i || rm) i q) (i :: l)) as Hr1 by by apply rep_put.
  assert (rep (set_time 0 i (set_removed (q_removed a i || rm) i q)) (i :: l)) as Hr2 by by apply rep_put.
  split; cbn [q_list q_time q_removed].
  - pose proof (rep_remove _ _ i Hr2) as H. assert (without i (i :: l) = l) as Ew by apply (without_in i [] l), (R_nodup _ _ Hr).
    by rewrite Ew in H.
  - intros j. rewrite (data_remove _ _ _ _ Hr2). unfold set_time. rewrite data_put. unfold upd, set_removed. rewrite data_put.
    destruct (decide (i = j)) as [<-|]; [|by rewrite Hd]. rewrite get_put, decide_True by done. done.
Qed.

(** * The properties *)

Inductive call := CallReset (t : Z) (i : nat) | CallRemove (i : nat) | CallPop (t : Z) (rm : bool).

Definition run (c : call) (q : TimeoutQueue) : TimeoutQueue :=
  match c with
  | CallReset t i => snd (Reset t i q)
  | CallRemove i => Remove i q
  | CallPop t rm => snd (popBefore t rm q)
  end.

Definition a_run (c : call) (a : queue) : queue :=
  match c with
  | CallReset t i => snd (a_reset t i a)
  | CallRemove i => a_remove i a
  | CallPop t rm => snd (a_pop t rm a)
  end.

Lemma run_abs c q a : abs q a -> abs (run c q) (a_run c a).
Proof. intros H. destruct c; simpl; [by apply Reset_abs|by apply Remove_abs|by apply popBefore_abs]. Qed.

Lemma abs_new : abs NewTimeoutQueue a_new.
Proof.
  split; [|done]. split; try done; [constructor|]. intros l1 x l2 E. by destruct l1.
Qed.

Lemma queue_refines_abs cs :
  abs (fold_left (fun q c => run c q) cs NewTimeoutQueue) (fold_left (fun a c => a_run c a) cs a_new).
Proof.
  pose proof abs_new as H. revert H. generalize NewTimeoutQueue, a_new. induction cs as [|c cs IH]; intros q a H; [done|].
  simpl. by apply IH, run_abs.
Qed.

(** After any calls the pointers of a queue form a doubly linked list without
    duplicates, and the calls answer what they answer on that list: [Reset]
    moves an item that was not removed to the end, [Remove] takes it out for
    good, [popBefore] takes the first item if it is old enough. *)
Theorem queue_refines cs t i rm :
  let q := fold_left (fun q c => run c q) cs NewTimeoutQueue in
  let a := fold_left (fun a c => a_run c a) cs a_new in
  abs q a /\ fst (Reset t i q) = fst (a_reset t i a) /\ fst (popBefore t rm q) = fst (a_pop t rm a).
Proof.
  cbn zeta. pose proof (queue_refines_abs cs) as H. split; [done|]. split; [by apply Reset_abs|by apply popBefore_abs].
Qed.

(** The items are in the order of their times. *)
Definition in_order (a : queue) : Prop := StronglySorted (fun i j => q_time a i <= q_time a j) (q_list a).

(** The calls read the clock one after the other. *)
Fixpoint clocked (now : Z) (cs : list call) : Prop :=
  match cs with
  | [] => True
  | CallReset t _ :: cs' => now <= t /\ clocked t cs'
  | _ :: cs' => clocked now cs'
  end.

Lemma sorted_upd (f : nat -> Z) l i v : i ∉ l -> StronglySorted (fun x y => f x <= f y) l ->
  StronglySorted (fun x y => upd f i v x <= upd f i v y) l.
Proof.
  intros Hi H. induction H as [|x l Hs IH Hf]; [constructor|]. rewrite not_elem_of_cons in Hi. destruct Hi as [Hx Hl].
  constructor; [by apply IH|]. rewrite Forall_forall in *. intros y Hy. unfold upd.
  rewrite !decide_False; [by apply Hf|congruence..].
Qed.

Lemma sorted_without (R : nat -> nat -> Prop) l i : StronglySorted R l -> StronglySorted R (without i l).
Proof.
  induction 1 as [|x l Hs IH Hf]; [constructor|]. unfold without. rewrite filter_cons. case_decide; [|done].
  constructor; [done|]. rewrite Forall_forall in *. intros y Hy. apply list_elem_of_filter in Hy as [_ Hy]. by apply Hf.
Qed.

Lemma sorted_snoc (R : nat -> nat -> Prop) l i : StronglySorted R l -> Forall (fun x => R x i) l -> StronglySorted R (l ++ [i]).
Proof.
  induction 1 as [|x l Hs IH Hf]; intros H; simpl; [by repeat constructor|]. apply Forall_cons in H as [H1 H2].
  constructor; [by apply IH|]. apply Forall_app. split; [done|]. by constructor.
Qed.

(** Times up to now, in order, without duplicates. *)
Definition timely (now : Z) (a : queue) : Prop :=
  in_order a /\ Forall (fun i => q_time a i <= now) (q_list a) /\ NoDup (q_list a).

Lemma upd_other {A} (f : nat -> A) i v j : i <> j -> upd f i v j = f j.
Proof. intros H. unfold upd. by rewrite decide_False. Qed.

Lemma clocked_timely cs : forall now a, timely now a -> clocked now cs -> in_order (fold_left (fun a c => a_run c a) cs a).
Proof.
  induction cs as [|c cs IH]; intros now a Ha Hc; [apply Ha|]. cbn [fold_left]. pose proof Ha as (Hs & Hf & Hn).
  assert (NoDup (without (match c with CallReset _ i | CallRemove i => i | _ => 0%nat end) (q_list a))) as Hn' by by apply NoDup_filter.
  destruct c as [t i|i|t rm]; cbn [clocked a_run] in *.
  - destruct Hc as [Ht Hc]. apply (IH t); [|done]. unfold a_reset. destruct (q_removed a i); cbn [snd].
    { split; [done|]. split; [|done]. eapply Forall_impl; [exact Hf|]. simpl. lia. }
    split; [|split]; unfold in_order; cbn [q_list q_time].
    + apply sorted_snoc; [by apply sorted_upd, sorted_without; [apply without_not|]|].
      apply Forall_forall. intros x Hx. assert (i <> x) by (intros ->; by apply (without_not x (q_list a))).
      rewrite upd_other by done. unfold upd. rewrite decide_True by done. apply list_elem_of_filter in Hx as [_ Hx].
      rewrite Forall_forall in Hf. specialize (Hf x Hx). simpl in Hf. lia.
    + apply Forall_app. split; [|constructor; [|constructor]; unfold upd; rewrite decide_True by done; lia].
      apply Forall_forall. intros x Hx. assert (i <> x) by (intros ->; by apply (without_not x (q_list a))).
      rewrite upd_other by done. apply list_elem_of_filter in Hx as [_ Hx]. rewrite Forall_forall in Hf. specialize (Hf x Hx). simpl in Hf. lia.
    + apply NoDup_app. split; [done|]. split; [|apply NoDup_singleton]. intros x Hx H. apply list_elem_of_singleton in H as ->.
      by apply (without_not i (q_list a)).
  - apply (IH now); [|done]. split; [by apply sorted_without|]. split; [|done]. apply Forall_forall. intros x Hx.
    apply list_elem_of_filter in Hx as [_ Hx]. rewrite Forall_forall in Hf. by apply Hf.
  - apply (IH now); [|done]. unfold a_pop. destruct (q_list a) as [|i l] eqn:El; [done|]. case_match; cbn [snd]; [done|].
    unfold in_order in Hs. rewrite El in Hs. apply StronglySorted_inv in Hs as [Hs _]. apply NoDup_cons in Hn as [Hi Hn]. apply Forall_cons in Hf as [_ Hf].
    split; [|split]; unfold in_order; cbn [q_list q_time]; [by apply sorted_upd| |done].
    apply Forall_forall. intros x Hx. rewrite upd_other by (intros ->; done). rewrite Forall_forall in Hf. by apply Hf.
Qed.

Lemma filter_agree {A} (P Q : A -> Prop) `{!forall x, Decision (P x), !forall x, Decision (Q x)} (l : list A) :
  (forall x, x ∈ l -> P x <-> Q x) -> filter P l = filter Q l.
Proof.
  induction l as [|x l IH]; intros Hl; [done|]. rewrite !filter_cons, IH by (intros y Hy; apply Hl; by right).
  pose proof (Hl x (list_elem_of_here _ _)) as Hx. do 2 case_decide; tauto || done.
Qed.

Lemma filter_every {A} (P : A -> Prop) `{!forall x, Decision (P x)} (l : list A) : (forall x, x ∈ l -> P x) -> filter P l = l.
Proof.
  induction l as [|x l IH]; intros Hl; [done|]. rewrite filter_cons, decide_True by apply Hl, list_elem_of_here.
  f_equal. apply IH. intros y Hy. apply Hl. by right.
Qed.

Lemma filter_none {A} (P : A -> Prop) `{!forall x, Decision (P x)} (l : list A) : (forall x, x ∈ l -> ~ P x) -> filter P l = [].
Proof.
  induction l as [|x l IH]; intros Hl; [done|]. rewrite filter_cons, decide_False by apply Hl, list_elem_of_here.
  apply IH. intros y Hy. apply Hl. by right.
Qed.

Lemma iterate_S n t rm q : iterate (S n) t rm q =
  match popBefore t rm q with
  | (None, q) => Some ([], q)
  | (Some i, q) => '(l, q) ← iterate n t rm q; Some (i :: l, q)
  end.
Proof. done. Qed.

Lemma iterate_spec t rm l : forall q a, abs q a -> q_list a = l -> in_order a -> NoDup l ->
  exists q' a', iterate (S (length l)) t rm q = Some (filter (fun i => q_time a i <= t) l, q') /\ abs q' a' /\
    q_list a' = filter (fun i => ~ q_time a i <= t) l.
Proof.
  induction l as [|i l IH]; intros q a Ha El Hs Hn; cbn [length]; destruct (popBefore_abs q a t rm Ha) as [H1 H2];
    unfold a_pop in H1, H2; rewrite El in H1, H2; unfold in_order in Hs; rewrite El in Hs.
  - simpl. destruct (popBefore t rm q) as [o q1]. simpl in H1, H2. subst o. exists q1, a. rewrite El. done.
  - apply StronglySorted_inv in Hs as [Hs Hf]. apply NoDup_cons in Hn as [Hi Hn]. rewrite !filter_cons.
    destruct (Z.ltb_spec t (q_time a i)) as [Ht|Ht]; simpl in H1, H2.
    + rewrite decide_False, decide_True by lia. rewrite iterate_S. destruct (popBefore t rm q) as [o q1]. simpl in H1, H2. subst o.
      assert (forall x, x ∈ l -> t < q_time a x) as Hl by (intros x Hx; rewrite Forall_forall in Hf; specialize (Hf x Hx); simpl in Hf; lia).
      exists q1, a. rewrite El. clear - Hl H2. split_and!; [|done|].
      * do 2 f_equal. symmetry. apply filter_none. intros x Hx H. specialize (Hl x Hx). lia.
      * f_equal. symmetry. apply filter_every. intros x Hx. specialize (Hl x Hx). lia.
    + rewrite decide_True, decide_False by lia. rewrite iterate_S. destruct (popBefore t rm q) as [o q1]. simpl in H1, H2. subst o.
      edestruct (IH q1 _ H2 eq_refl) as (q2 & a2 & E & Ha2 & El2); [by apply sorted_upd|done|]. cbn [q_list] in *.
      rewrite E. cbn [mbind option_bind]. exists q2, a2. split_and!; [|done|].
      * do 3 f_equal. apply filter_agree. intros x Hx. simpl. by rewrite upd_other by (intros ->; done).
      * rewrite El2. apply filter_agree. intros x Hx. simpl. by rewrite upd_other by (intros ->; done).
Qed.

(** If the calls take the lock in the order in which they read the clock, an
    iteration ends and yields exactly the items that were not reset after its
    cut-off, the oldest first, and leaves the others in the queue. *)
Theorem iteration_yields_expired now cs t rm : clocked now cs ->
  let q := fold_left (fun q c => run c q) cs NewTimeoutQueue in
  let a := fold_left (fun a c => a_run c a) cs a_new in
  exists q' a', iterate (S (length (q_list a))) t rm q = Some (filter (fun i => q_time a i <= t) (q_list a), q') /\
    abs q' a' /\ q_list a' = filter (fun i => ~ q_time a i <= t) (q_list a).
Proof.
  intros Hc. cbn zeta.
  assert (abs (fold_left (fun q c => run c q) cs NewTimeoutQueue) (fold_left (fun a c => a_run c a) cs a_new)) as H
    by by apply (queue_refines_abs cs).
  apply iterate_spec; [done|done| |by apply (R_nodup _ _ (proj1 H))].
  apply (clocked_timely cs now a_new); [|done]. split; [constructor|]. split; constructor.
Qed.

(** [Reset] reads the clock before it takes the lock: when two calls take it in
    the other order, an item that has expired waits behind one that has not. *)
Theorem expired_item_held_back : exists cs, Forall (fun c => match c with CallReset _ _ => True | _ => False end) cs /\
  let q := fold_left (fun q c => run c q) cs NewTimeoutQueue in
  time (get 2 q) = 5 /\ removed (get 2 q) = false /\ fst (popBefore 7 true q) = None.
Proof. exists [CallReset 10 1; CallReset 5 2]. split; [by repeat constructor|]. vm_compute. done. Qed.

Lemma iteration_yields_expired_witness : exists q',
  iterate 4 20 true (fold_left (fun q c => run c q) [CallReset 10 1; CallReset 15 2; CallReset 18 1; CallReset 30 3] NewTimeoutQueue) =
  Some ([2; 1]%nat, q').
Proof.
  destruct (iteration_yields_expired 0 [CallReset 10 1; CallReset 15 2; CallReset 18 1; CallReset 30 3] 20 true)
    as (q' & a' & H & _); [repeat split; lia|]. exists q'. refine (eq_trans _ (eq_trans H _)); vm_compute; reflexivity.
Defined.
