(* ===== verification/LkGraph.v ===== *)
(** The graph of lib/livekit-protocol (utils/graph.go): nodes with identifiers,
    edges in a matrix indexed by the positions of the nodes, positions of
    deleted nodes used again.

    A node lives at its position in [nodes]; a pointer to it, as [nodesByID]
    has, is that position.  [None] in the result of an operation is a panic: a
    nil pointer is followed. *)

From S2P Require Import Prelude.

#[local] Open Scope string_scope.
#[local] Open Scope list_scope.

(** What the properties of nodes and edges have to offer: [GraphNodeProps] and
    [GraphEdgeProps]. *)
Class GraphProps (K N E : Type) := { ID : N -> K; Length : E -> Z }.

Section Graph.
Context {K N E : Type} `{Countable K} `{!GraphProps K N E}.

Record Graph := {
  nodesByID : gmap K nat;
  freeIndices : list nat;
  nodes : list (option N);
  edges : list (list (option E));
}.

Definition NewGraph : Graph := {| nodesByID := ∅; freeIndices := []; nodes := []; edges := [] |}.

Definition Size (g : Graph) : nat := length (nodes g).

(** [g.nodes[i]] and [g.edges[i][j]], nil where there is nothing. *)
Definition node_at (i : nat) (g : Graph) : option N := mjoin (nodes g !! i).
Definition edge_at (i j : nat) (g : Graph) : option E := row ← edges g !! i; mjoin (row !! j).

Definition NodeIDs (g : Graph) : list K := omap (fmap ID) (nodes g).

Definition InsertNode (props : N) (g : Graph) : Graph :=
  match nodesByID g !! ID props with
  | Some i => {| nodesByID := nodesByID g; freeIndices := freeIndices g; nodes := <[i := Some props]> (nodes g); edges := edges g |}
  | None =>
      match last (freeIndices g) with
      | Some i =>
          {| nodesByID := <[ID props := i]> (nodesByID g); freeIndices := take (length (freeIndices g) - 1) (freeIndices g);
             nodes := <[i := Some props]> (nodes g); edges := edges g |}
      | None =>
          {| nodesByID := <[ID props := length (nodes g)]> (nodesByID g); freeIndices := freeIndices g;
             nodes := nodes g ++ [Some props];
             edges := map (fun row => row ++ [None]) (edges g) ++ [replicate (S (length (nodes g))) None] |}
      end
  end.

Definition DeleteNode (id : K) (g : Graph) : Graph :=
  match nodesByID g !! id with
  | None => g
  | Some i =>
      {| nodesByID := delete id (nodesByID g); freeIndices := freeIndices g ++ [i]; nodes := <[i := None]> (nodes g);
         edges := alter (map (fun _ => None)) i (map (fun row => <[i := None]> row) (edges g)) |}
  end.

Definition set_edge (src dst : K) (e : option E) (g : Graph) : option Graph :=
  s ← nodesByID g !! src;
  d ← nodesByID g !! dst;
  Some {| nodesByID := nodesByID g; freeIndices := freeIndices g; nodes := nodes g; edges := alter (<[d := e]>) s (edges g) |}.

Definition InsertEdge (src dst : K) (props : E) (g : Graph) : option Graph := set_edge src dst (Some props) g.
Definition DeleteEdge (src dst : K) (g : Graph) : option Graph := set_edge src dst None g.

Definition HasNode (id : K) (g : Graph) : bool := bool_decide (is_Some (nodesByID g !! id)).

(** [Node] and [Edge]; [None] is the zero value of the type. *)
Definition Node (id : K) (g : Graph) : option N := i ← nodesByID g !! id; node_at i g.

Definition Edge (src dst : K) (g : Graph) : option E :=
  s ← nodesByID g !! src; d ← nodesByID g !! dst; edge_at s d g.

Definition HasEdge (src dst : K) (g : Graph) : bool := bool_decide (is_Some (Edge src dst g)).

(** [OutEdges] and [InEdges]: the other end of each edge with its properties; an
    edge to a position without a node would be a panic. *)
Definition end_step (f : nat -> option E) (g : Graph) (j : nat) (acc : option (gmap K E)) : option (gmap K E) :=
  m ← acc;
  match f j with
  | None => Some m
  | Some e => n ← node_at j g; Some (<[ID n := e]> m)
  end.

Definition ends (f : nat -> option E) (g : Graph) : option (gmap K E) :=
  foldr (end_step f g) (Some ∅) (seq 0 (Size g)).

Definition OutEdges (src : K) (g : Graph) : option (gmap K E) :=
  match nodesByID g !! src with None => Some ∅ | Some s => ends (fun j => edge_at s j g) g end.

Definition InEdges (dst : K) (g : Graph) : option (gmap K E) :=
  match nodesByID g !! dst with None => Some ∅ | Some d => ends (fun i => edge_at i d g) g end.

(** * The invariant *)

Record graph_ok (g : Graph) : Prop := {
  G_rows : length (edges g) = Size g;
  G_cols : Forall (fun row => length row = Size g) (edges g);
  G_ids : forall k i, nodesByID g !! k = Some i <-> exists n, node_at i g = Some n /\ ID n = k;
  G_free : forall i, i ∈ freeIndices g <-> nodes g !! i = Some None;
  G_free_nodup : NoDup (freeIndices g);
  G_edges : forall i j, is_Some (edge_at i j g) -> is_Some (node_at i g) /\ is_Some (node_at j g);
}.

Lemma node_at_insert i j x g nb fr ed : (i < Size g)%nat ->
  node_at j {| nodesByID := nb; freeIndices := fr; nodes := <[i := x]> (nodes g); edges := ed |} =
  if decide (i = j) then x else node_at j g.
Proof.
  intros Hi. unfold node_at. simpl. destruct (decide (i = j)) as [<-|]; [by rewrite list_lookup_insert_eq|by rewrite list_lookup_insert_ne].
Qed.

Lemma node_at_lt i g n : node_at i g = Some n -> (i < Size g)%nat.
Proof. unfold node_at. destruct (nodes g !! i) eqn:Ei; [|done]. intros _. by eapply lookup_lt_Some. Qed.

Lemma NewGraph_ok : graph_ok NewGraph.
Proof.
  split; [done|constructor|..|constructor|].
  - intros k i. cbn [NewGraph nodesByID]. rewrite lookup_empty. split; [done|]. by intros (n & E' & _).
  - intros i. cbn. split; [by intros Hx%elem_of_nil|done].
  - by intros i j [e He].
Qed.

(** ** The matrix *)

Lemma edge_at_grow g nb fr ns i j : graph_ok g ->
  edge_at i j {| nodesByID := nb; freeIndices := fr; nodes := ns;
                 edges := map (fun row => row ++ [None]) (edges g) ++ [replicate (S (length (nodes g))) None] |} = edge_at i j g.
Proof.
  intros [Hr Hc _ _ _ _]. unfold edge_at. cbn [edges]. destruct (decide (i < length (edges g))%nat) as [Hi|Hi].
  - rewrite lookup_app_l by (by rewrite length_map). destruct (lookup_lt_is_Some_2 _ _ Hi) as [row Hrow].
    rewrite list_lookup_fmap, Hrow. cbn. rewrite Forall_lookup in Hc. specialize (Hc i row Hrow). simpl in Hc.
    destruct (decide (j < length row)%nat); [by rewrite lookup_app_l|]. rewrite (lookup_ge_None_2 row) by lia.
    destruct (decide (j = length row)) as [->|]; [by rewrite lookup_app_r, Nat.sub_diag by lia|].
    rewrite lookup_ge_None_2; [done|]. rewrite length_app. simpl. lia.
  - rewrite (lookup_ge_None_2 (edges g)) by lia. destruct (decide (i = length (edges g))) as [->|].
    + rewrite lookup_app_r, length_map, Nat.sub_diag by (rewrite length_map; lia). cbn [lookup list_lookup mbind option_bind].
      destruct (_ !! j) as [x|] eqn:Ej; [|done]. by apply lookup_replicate in Ej as [-> _].
    + rewrite lookup_ge_None_2; [done|]. rewrite length_app, length_map. simpl. lia.
Qed.

Lemma edge_at_clear g nb fr ns i a b : graph_ok g ->
  edge_at a b {| nodesByID := nb; freeIndices := fr; nodes := ns;
                 edges := alter (map (fun _ => None)) i (map (fun row => <[i := None]> row) (edges g)) |} =
  if decide (a = i \/ b = i) then None else edge_at a b g.
Proof.
  intros _. unfold edge_at. cbn [edges]. destruct (decide (a = i)) as [->|Ha].
  - rewrite list_lookup_alter_eq, decide_True by auto. destruct (_ !! i) as [row|]; [|done]. cbn.
    rewrite list_lookup_fmap. by destruct (row !! b).
  - rewrite list_lookup_alter_ne by done. rewrite list_lookup_fmap. destruct (edges g !! a) as [row|]; cbn; [|by case_decide].
    destruct (decide (b = i)) as [->|Hb].
    + rewrite decide_True by auto. destruct (decide (i < length row)%nat); [by rewrite list_lookup_insert_eq|].
      by rewrite list_insert_ge, lookup_ge_None_2 by lia.
    + rewrite list_lookup_insert_ne by done. by rewrite decide_False by tauto.
Qed.

Lemma edge_at_set g nb fr ns s d e a b : graph_ok g -> (s < Size g)%nat -> (d < Size g)%nat ->
  edge_at a b {| nodesByID := nb; freeIndices := fr; nodes := ns; edges := alter (<[d := e]>) s (edges g) |} =
  if decide (a = s /\ b = d) then e else edge_at a b g.
Proof.
  intros [Hr Hc _ _ _ _] Hs Hd. unfold edge_at. cbn [edges]. destruct (decide (a = s)) as [->|Ha].
  - rewrite list_lookup_alter_eq. destruct (lookup_lt_is_Some_2 (edges g) s) as [row Hrow]; [lia|]. rewrite Hrow. cbn.
    rewrite Forall_lookup in Hc. specialize (Hc s row Hrow). simpl in Hc. destruct (decide (b = d)) as [->|Hb].
    + rewrite decide_True by auto. by rewrite list_lookup_insert_eq by lia.
    + rewrite decide_False by tauto. by rewrite list_lookup_insert_ne.
  - rewrite list_lookup_alter_ne by done. by rewrite decide_False by tauto.
Qed.

(** ** Identifiers *)

Lemma ids_lookup g k i : graph_ok g -> nodesByID g !! k = Some i -> exists n, node_at i g = Some n /\ ID n = k.
Proof. intros Hg Hk. by apply (G_ids _ Hg). Qed.

Lemma ids_inj g k k' i : graph_ok g -> nodesByID g !! k = Some i -> nodesByID g !! k' = Some i -> k = k'.
Proof. intros Hg H1 H2. apply (ids_lookup g) in H1 as (n & En & <-), H2 as (n' & En' & <-); [congruence|done..]. Qed.

Lemma free_no_node g i : graph_ok g -> i ∈ freeIndices g -> (i < Size g)%nat /\ node_at i g = None.
Proof.
  intros Hg Hi. apply (G_free _ Hg) in Hi. split; [by eapply lookup_lt_Some|]. unfold node_at. by rewrite Hi.
Qed.

(** A new node at the position [i]. *)
Lemma place_ids (g g' : Graph) props i : graph_ok g -> nodesByID g !! ID props = None -> node_at i g = None ->
  nodesByID g' = <[ID props := i]> (nodesByID g) -> (forall j, node_at j g' = if decide (i = j) then Some props else node_at j g) ->
  (forall a b, edge_at a b g' = edge_at a b g) ->
  (forall k j, nodesByID g' !! k = Some j <-> exists n, node_at j g' = Some n /\ ID n = k) /\
  (forall a b, is_Some (edge_at a b g') -> is_Some (node_at a g') /\ is_Some (node_at b g')) /\
  (forall k, Node k g' = if decide (k = ID props) then Some props else Node k g) /\
  (forall a b, Edge a b g' = Edge a b g).
Proof.
  intros Hg Hnew Hi Hn Hnode Hedge. split_and!.
  - intros k j. rewrite Hn, Hnode. destruct (decide (k = ID props)) as [->|Hk].
    + rewrite lookup_insert_eq. split.
      * intros [= <-]. exists props. by rewrite decide_True.
      * destruct (decide (i = j)) as [<-|]; [done|]. intros (m & Em & Hid). exfalso.
        assert (nodesByID g !! ID props = Some j) by (apply (G_ids _ Hg); by exists m). congruence.
    + rewrite lookup_insert_ne by done. rewrite (G_ids _ Hg). destruct (decide (i = j)) as [<-|]; [|done].
      split; [intros (m & Em & _); congruence|]. intros (m & [= <-] & Hid). congruence.
  - intros a b Hab. rewrite Hedge in Hab. destruct (G_edges _ Hg a b Hab) as [Ha Hb]. rewrite !Hnode.
    split; case_decide; done.
  - intros k. unfold Node. rewrite Hn. destruct (decide (k = ID props)) as [->|Hk].
    + rewrite lookup_insert_eq. cbn. rewrite Hnode. by rewrite decide_True.
    + rewrite lookup_insert_ne by done. destruct (nodesByID g !! k) as [j|] eqn:Ek; [|done]. cbn. rewrite Hnode.
      rewrite decide_False; [done|]. intros <-. destruct (ids_lookup g k i Hg Ek) as (m & Em & _). congruence.
  - assert (forall j, edge_at i j g = None /\ edge_at j i g = None) as Hno.
    { intros j. split; (destruct (edge_at _ _ g) as [e|] eqn:Ee; [|done]);
        apply (mk_is_Some _) , (G_edges _ Hg) in Ee as [[n En] [n' En']]; congruence. }
    intros a b. unfold Edge. rewrite Hn. destruct (decide (a = ID props)) as [->|Ha].
    + rewrite lookup_insert_eq, Hnew. cbn. destruct (<[_ := _]> _ !! b) as [d|]; [|done]. cbn. rewrite Hedge. apply Hno.
    + rewrite (lookup_insert_ne _ _ a) by done. destruct (nodesByID g !! a) as [s'|]; [|done]. cbn.
      destruct (decide (b = ID props)) as [->|Hb]; [rewrite lookup_insert_eq, Hnew; cbn; rewrite Hedge; apply Hno|].
      rewrite lookup_insert_ne by done. destruct (nodesByID g !! b); [|done]. cbn. apply Hedge.
Qed.

Lemma InsertNode_spec props g : graph_ok g -> graph_ok (InsertNode props g) /\
  (forall k, Node k (InsertNode props g) = if decide (k = ID props) then Some props else Node k g) /\
  (forall a b, Edge a b (InsertNode props g) = Edge a b g).
Proof.
  intros Hg. unfold InsertNode. destruct (nodesByID g !! ID props) as [i|] eqn:Ei.
  - destruct (ids_lookup g _ i Hg Ei) as (m & Em & Hid). pose proof (node_at_lt i g m Em) as Hi.
    set (g' := {| nodesByID := _ |}).
    assert (forall j, node_at j g' = if decide (i = j) then Some props else node_at j g) as Hnode by (intros j; by apply node_at_insert).
    assert (forall a b, edge_at a b g' = edge_at a b g) as Hedge by done.
    split; [|split].
    + split.
      * unfold Size. cbn [g' nodes edges]. rewrite length_insert. apply (G_rows _ Hg).
      * eapply Forall_impl; [apply (G_cols _ Hg)|]. cbn. intros row. unfold Size. cbn. by rewrite length_insert.
      * intros k j. cbn [g' nodesByID]. rewrite (G_ids _ Hg), Hnode. destruct (decide (i = j)) as [<-|]; [|done].
        rewrite Em. split; intros (x & [= <-] & Hx); eexists; (split; [done|congruence]).
      * intros j. cbn [g' freeIndices nodes]. rewrite (G_free _ Hg). destruct (decide (i = j)) as [<-|].
        -- rewrite list_lookup_insert_eq by done. unfold node_at in Em. split; [|done]. intros Hx. by rewrite Hx in Em.
        -- by rewrite list_lookup_insert_ne.
      * apply (G_free_nodup _ Hg).
      * intros a b Hab. rewrite Hedge in Hab. destruct (G_edges _ Hg a b Hab). rewrite !Hnode. split; case_decide; done.
    + intros k. unfold Node. cbn [g' nodesByID]. destruct (decide (k = ID props)) as [->|Hk].
      * rewrite Ei. cbn [mbind option_bind]. rewrite Hnode. by rewrite decide_True.
      * destruct (nodesByID g !! k) as [j|] eqn:Ek; [|done]. cbn [mbind option_bind]. rewrite Hnode, decide_False; [done|].
        intros <-. by apply Hk, (ids_inj g _ _ i).
    + done.
  - destruct (last (freeIndices g)) as [i|] eqn:El.
    + apply last_Some in El as [fr Efr]. assert (i ∈ freeIndices g) as Hi by (rewrite Efr; apply elem_of_app; right; apply list_elem_of_here).
      destruct (free_no_node g i Hg Hi) as [Hlt Hno]. set (g' := {| nodesByID := _ |}).
      assert (forall j, node_at j g' = if decide (i = j) then Some props else node_at j g) as Hnode by (intros j; by apply node_at_insert).
      destruct (place_ids g g' props i Hg Ei Hno eq_refl Hnode) as (P1 & P2 & P3 & P4); [done|].
      split; [|done]. split; [by unfold Size; cbn; rewrite length_insert; apply (G_rows _ Hg)| |done| | |done].
      * eapply Forall_impl; [apply (G_cols _ Hg)|]. cbn. intros row. unfold Size. cbn. by rewrite length_insert.
      * pose proof (G_free_nodup _ Hg) as Hnd. rewrite Efr in Hnd. apply NoDup_app in Hnd as (Hn1 & Hn2 & _).
        assert (freeIndices g' = fr) as Efr' by (cbn; by rewrite Efr, length_app, Nat.add_sub, take_app_length).
        intros j. rewrite Efr'. cbn [g' nodes]. destruct (decide (i = j)) as [<-|Hij].
        -- rewrite list_lookup_insert_eq by done. split; [|done]. intros Hx. exfalso. apply (Hn2 i Hx), list_elem_of_here.
        -- rewrite list_lookup_insert_ne by done. rewrite <- (G_free _ Hg), Efr, elem_of_app, list_elem_of_singleton. naive_solver.
      * cbn. rewrite Efr, length_app, Nat.add_sub, take_app_length. pose proof (G_free_nodup _ Hg) as Hnd. rewrite Efr in Hnd.
        by apply NoDup_app in Hnd as (? & _).
    + apply last_None in El. set (g' := {| nodesByID := _ |}).
      assert (node_at (length (nodes g)) g = None) as Hno by (unfold node_at; by rewrite lookup_ge_None_2).
      assert (forall j, node_at j g' = if decide (length (nodes g) = j) then Some props else node_at j g) as Hnode.
      { intros j. unfold node_at. cbn. destruct (decide (length (nodes g) = j)) as [<-|].
        - by rewrite lookup_app_r, Nat.sub_diag by lia.
        - destruct (decide (j < length (nodes g))%nat); [by rewrite lookup_app_l|]. rewrite (lookup_ge_None_2 (nodes g)) by lia.
          rewrite lookup_ge_None_2; [done|]. rewrite length_app. simpl. lia. }
      assert (forall a b, edge_at a b g' = edge_at a b g) as Hedge by (intros a b; by apply edge_at_grow).
      destruct (place_ids g g' props _ Hg Ei Hno eq_refl Hnode Hedge) as (P1 & P2 & P3 & P4).
      split; [|done]. pose proof (G_rows _ Hg) as Hr. unfold Size in Hr. split; [| |done| | |done].
      * cbn. unfold Size. cbn. rewrite !length_app, length_map. simpl. lia.
      * cbn. unfold Size. cbn. rewrite length_app. apply Forall_app. split; [|constructor; [|constructor]].
        -- apply Forall_fmap. eapply Forall_impl; [apply (G_cols _ Hg)|]. cbn. intros row Hrow. rewrite length_app, Hrow. done.
        -- simpl. rewrite length_replicate. lia.
      * intros j. cbn [g' freeIndices nodes]. rewrite El. split; [by intros Hx%elem_of_nil|]. intros Hx. exfalso.
        destruct (decide (j < length (nodes g))%nat) as [Hj|Hj].
        -- rewrite lookup_app_l in Hx by done. apply (G_free _ Hg) in Hx. rewrite El in Hx. by apply elem_of_nil in Hx.
        -- rewrite lookup_app_r in Hx by lia. by destruct (j - length (nodes g))%nat as [|[]].
      * cbn. rewrite El. constructor.
Qed.

Lemma DeleteNode_spec id g : graph_ok g -> graph_ok (DeleteNode id g) /\
  (forall k, Node k (DeleteNode id g) = if decide (k = id) then None else Node k g) /\
  (forall a b, Edge a b (DeleteNode id g) = if decide (a = id \/ b = id) then None else Edge a b g).
Proof.
  intros Hg. unfold DeleteNode. destruct (nodesByID g !! id) as [i|] eqn:Ei.
  2:{ split; [done|]. split.
      - intros k. destruct (decide (k = id)) as [->|]; [|done]. unfold Node. by rewrite Ei.
      - intros a b. destruct (decide (a = id \/ b = id)) as [[->| ->]|]; [| |done]; unfold Edge; rewrite Ei; [done|].
        by destruct (nodesByID g !! a). }
  destruct (ids_lookup g _ i Hg Ei) as (m & Em & Hid). pose proof (node_at_lt i g m Em) as Hi. set (g' := {| nodesByID := _ |}).
  assert (forall j, node_at j g' = if decide (i = j) then None else node_at j g) as Hnode by (intros j; by apply node_at_insert).
  assert (forall a b, edge_at a b g' = if decide (a = i \/ b = i) then None else edge_at a b g) as Hedge by (intros a b; by apply edge_at_clear).
  assert (forall k, nodesByID g' !! k = if decide (k = id) then None else nodesByID g !! k) as Hids.
  { intros k. cbn. destruct (decide (k = id)) as [->|]; [by rewrite lookup_delete_eq|by rewrite lookup_delete_ne]. }
  assert (i ∉ freeIndices g) as Hfree by (intros Hx; apply (free_no_node g i Hg) in Hx as [_ Hx]; congruence).
  split; [|split].
  - split.
    + unfold Size. cbn. rewrite length_insert, length_alter, length_map. apply (G_rows _ Hg).
    + unfold Size. cbn. rewrite length_insert. apply Forall_alter; [|intros row _; by rewrite length_map].
      apply Forall_fmap. eapply Forall_impl; [apply (G_cols _ Hg)|]. cbn. intros row Hrow. by rewrite length_insert.
    + intros k j. rewrite Hids, Hnode. destruct (decide (i = j)) as [<-|Hij].
      * split; [|by intros (x & Hx & _)]. destruct (decide (k = id)) as [->|Hk]; [done|]. intros Hx. by destruct (Hk (ids_inj g _ _ i Hg Hx Ei)).
      * destruct (decide (k = id)) as [->|Hk]; [|apply (G_ids _ Hg)]. split; [done|]. intros Hx. apply (G_ids _ Hg) in Hx. congruence.
    + intros j. cbn [g' freeIndices nodes]. rewrite elem_of_app, list_elem_of_singleton, (G_free _ Hg). destruct (decide (i = j)) as [<-|Hij].
      * rewrite list_lookup_insert_eq by done. naive_solver.
      * rewrite list_lookup_insert_ne by done. naive_solver.
    + cbn. apply NoDup_app. split; [apply (G_free_nodup _ Hg)|]. split; [|apply NoDup_singleton].
      intros x Hx Hx'. apply list_elem_of_singleton in Hx' as ->. done.
    + intros a b Hab. rewrite Hedge in Hab. destruct (decide (a = i \/ b = i)) as [|Hni]; [by destruct Hab|].
      destruct (G_edges _ Hg a b Hab) as [Ga Gb]. rewrite !Hnode. split; (rewrite decide_False; [done|]); intros Hx; apply Hni; auto.
  - intros k. unfold Node. rewrite Hids. destruct (decide (k = id)) as [->|Hk]; [done|].
    destruct (nodesByID g !! k) as [j|] eqn:Ek; [|done]. cbn [mbind option_bind]. rewrite Hnode, decide_False; [done|].
    intros <-. by apply Hk, (ids_inj g _ _ i).
  - intros a b. unfold Edge. rewrite !Hids. destruct (decide (a = id)) as [->|Ha]; [by rewrite (decide_True (P := id = id \/ b = id)) by auto|].
    destruct (nodesByID g !! a) as [s|] eqn:Ea; cbn [mbind option_bind]; [|by repeat case_decide].
    destruct (decide (b = id)) as [->|Hb]; [by rewrite (decide_True (P := a = id \/ id = id)) by auto|]. rewrite (decide_False (P := a = id \/ b = id)) by tauto.
    destruct (nodesByID g !! b) as [d|] eqn:Eb; [|done]. cbn [mbind option_bind]. rewrite Hedge, decide_False; [done|].
    intros [->| ->]; [by apply Ha, (ids_inj g _ _ i)|by apply Hb, (ids_inj g _ _ i)].
Qed.

Lemma set_edge_spec src dst e g : graph_ok g ->
  match set_edge src dst e g with
  | Some g' => is_Some (Node src g) /\ is_Some (Node dst g) /\ graph_ok g' /\ (forall k, Node k g' = Node k g) /\
      forall a b, Edge a b g' = if decide (a = src /\ b = dst) then e else Edge a b g
  | None => Node src g = None \/ Node dst g = None
  end.
Proof.
  intros Hg. unfold set_edge, Node. destruct (nodesByID g !! src) as [s|] eqn:Es; [|by left].
  destruct (nodesByID g !! dst) as [d|] eqn:Ed; [|by right]. cbn [mbind option_bind].
  destruct (ids_lookup g _ s Hg Es) as (ms & Ems & Hs). destruct (ids_lookup g _ d Hg Ed) as (md & Emd & Hd).
  pose proof (node_at_lt s g ms Ems) as Ls. pose proof (node_at_lt d g md Emd) as Ld. set (g' := {| nodesByID := _ |}).
  assert (forall a b, edge_at a b g' = if decide (a = s /\ b = d) then e else edge_at a b g) as Hedge by (intros a b; by apply edge_at_set).
  split; [by rewrite Ems|]. split; [by rewrite Emd|]. split; [|split; [done|]].
  - destruct Hg as [H1 H2 H3 H4 H5 H6]. split; try done.
    + cbn. by rewrite length_alter.
    + cbn. apply Forall_alter; [done|]. intros row Hrow. cbn. by rewrite length_insert.
    + intros a b Hab. rewrite Hedge in Hab. destruct (decide (a = s /\ b = d)) as [[-> ->]|]; [|by apply H6].
      split; [by exists ms|by exists md].
  - intros a b. unfold Edge. cbn [g' nodesByID]. destruct (nodesByID g !! a) as [a'|] eqn:Ea.
    2:{ rewrite decide_False; [done|]. intros [-> _]. congruence. }
    destruct (nodesByID g !! b) as [b'|] eqn:Eb; cbn [mbind option_bind].
    2:{ rewrite decide_False; [done|]. intros [_ ->]. congruence. }
    rewrite Hedge. destruct (decide (a = src /\ b = dst)) as [[-> ->]|Hn].
    + rewrite decide_True; [done|]. split; congruence.
    + rewrite decide_False; [done|]. intros [-> ->]. apply Hn. split; [by apply (ids_inj g _ _ s)|by apply (ids_inj g _ _ d)].
Qed.

(** The map of the ends of a row or a column. *)
Lemma ends_spec f g : graph_ok g -> (forall j, is_Some (f j) -> is_Some (node_at j g)) ->
  exists m, ends f g = Some m /\ forall k, m !! k = (j ← nodesByID g !! k; f j).
Proof.
  intros Hg Hf. unfold ends.
  assert (forall l, NoDup l -> exists m, foldr (end_step f g) (Some ∅) l = Some m /\
    forall k, m !! k = (j ← nodesByID g !! k; if decide (j ∈ l) then f j else None)) as Hl.
  { induction l as [|j l IH]; intros Hnd; cbn [foldr].
    - exists ∅. split; [done|]. intros k. rewrite lookup_empty. by destruct (nodesByID g !! k).
    - apply NoDup_cons in Hnd as [Hj Hnd]. destruct (IH Hnd) as (m & -> & Hm). unfold end_step. cbn [mbind option_bind].
      destruct (f j) as [e|] eqn:Ef.
      + destruct (Hf j) as [x Hx]; [by rewrite Ef|]. rewrite Hx. cbn [mbind option_bind]. eexists. split; [done|]. intros k.
        assert (nodesByID g !! ID x = Some j) as Hid by (apply (G_ids _ Hg); by exists x).
        destruct (decide (k = ID x)) as [->|Hk].
        * rewrite lookup_insert_eq, Hid. cbn [mbind option_bind]. by rewrite decide_True by apply list_elem_of_here.
        * rewrite lookup_insert_ne, Hm by done. destruct (nodesByID g !! k) as [i|] eqn:Ek; [|done]. cbn [mbind option_bind].
          assert (i <> j) by (intros ->; by apply Hk, (ids_inj g _ _ j)).
          destruct (decide (i ∈ l)); [by rewrite decide_True by (by right)|]. rewrite decide_False; [done|].
          intros Hx'. by apply elem_of_cons in Hx' as [?|?].
      + exists m. split; [done|]. intros k. rewrite Hm. destruct (nodesByID g !! k) as [i|]; [|done]. cbn [mbind option_bind].
        destruct (decide (i ∈ l)); [by rewrite decide_True by (by right)|]. destruct (decide (i ∈ j :: l)) as [Hx'|]; [|done].
        by apply elem_of_cons in Hx' as [->|?]. }
  destruct (Hl (seq 0 (Size g))) as (m & Em & Hm); [apply NoDup_seq|]. exists m. split; [done|]. intros k. rewrite Hm.
  destruct (nodesByID g !! k) as [i|] eqn:Ek; [|done]. cbn [mbind option_bind]. rewrite decide_True; [done|].
  destruct (ids_lookup g k i Hg Ek) as (x & Hx & _). apply node_at_lt in Hx. apply elem_of_seq. lia.
Qed.

(** * The property *)

Inductive built : Graph -> Prop :=
| built_new : built NewGraph
| built_node n g : built g -> built (InsertNode n g)
| built_delete k g : built g -> built (DeleteNode k g)
| built_edge a b e g g' : built g -> InsertEdge a b e g = Some g' -> built g'
| built_delete_edge a b g g' : built g -> DeleteEdge a b g = Some g' -> built g'.

Lemma built_ok g : built g -> graph_ok g.
Proof.
  induction 1 as [|m g _ IH|k g _ IH|a b e g g' _ IH Hs|a b g g' _ IH Hs].
  - apply NewGraph_ok.
  - by apply InsertNode_spec.
  - by apply DeleteNode_spec.
  - pose proof (set_edge_spec a b (Some e) g IH) as Hx. unfold InsertEdge in Hs. rewrite Hs in Hx. tauto.
  - pose proof (set_edge_spec a b None g IH) as Hx. unfold DeleteEdge in Hs. rewrite Hs in Hx. tauto.
Qed.

(** C36. However a graph was built, its nodes and edges are a map from identifiers
    and a map from pairs of them: inserting a node sets it, deleting one removes
    it with its edges although its position is used again, edges are set and
    removed between nodes that exist and panic otherwise, and [OutEdges] and
    [InEdges] are the rows and columns of the edges. *)
Theorem graph_refines g n id src dst e : built g ->
  (forall k, Node k (InsertNode n g) = if decide (k = ID n) then Some n else Node k g) /\
  (forall a b, Edge a b (InsertNode n g) = Edge a b g) /\
  (forall k, Node k (DeleteNode id g) = if decide (k = id) then None else Node k g) /\
  (forall a b, Edge a b (DeleteNode id g) = if decide (a = id \/ b = id) then None else Edge a b g) /\
  match InsertEdge src dst e g with
  | Some g' => (forall k, Node k g' = Node k g) /\
      forall a b, Edge a b g' = if decide (a = src /\ b = dst) then Some e else Edge a b g
  | None => Node src g = None \/ Node dst g = None
  end /\
  match DeleteEdge src dst g with
  | Some g' => (forall k, Node k g' = Node k g) /\
      forall a b, Edge a b g' = if decide (a = src /\ b = dst) then None else Edge a b g
  | None => Node src g = None \/ Node dst g = None
  end /\
  (exists m, OutEdges src g = Some m /\ forall k, m !! k = Edge src k g) /\
  (exists m, InEdges dst g = Some m /\ forall k, m !! k = Edge k dst g).
Proof.
  intros Hb. pose proof (built_ok g Hb) as Hg. destruct (InsertNode_spec n g Hg) as (_ & I1 & I2).
  destruct (DeleteNode_spec id g Hg) as (_ & D1 & D2). split_and!; try done.
  - pose proof (set_edge_spec src dst (Some e) g Hg) as Hx. unfold InsertEdge. case_match; [tauto|done].
  - pose proof (set_edge_spec src dst None g Hg) as Hx. unfold DeleteEdge. case_match; [tauto|done].
  - unfold OutEdges, Edge. destruct (nodesByID g !! src) as [s|] eqn:Es; [|by exists ∅].
    destruct (ends_spec (fun j => edge_at s j g) g Hg) as (m & -> & Hm); [intros j Hj; by apply (G_edges _ Hg s j)|]. by exists m.
  - unfold InEdges, Edge. destruct (nodesByID g !! dst) as [d|] eqn:Ed.
    + destruct (ends_spec (fun i => edge_at i d g) g Hg) as (m & -> & Hm); [intros j Hj; by apply (G_edges _ Hg j d)|]. by exists m.
    + exists ∅. split; [done|]. intros k. rewrite lookup_empty. by destruct (nodesByID g !! k).
Qed.
End Graph.

Arguments Graph _ _ _ {_ _}.

(** ** An example *)

#[export] Instance text_props : GraphProps string string Z := { ID := fun n => n; Length := fun e => e }.

Definition text_graph (ns : list string) (es : list (string * string * Z)) : option (Graph string string Z) :=
  foldr (fun '(a, b, e) g => g ← g; InsertEdge a b e g) (Some (foldr InsertNode NewGraph (rev ns))) (rev es).

Lemma text_graph_built ns es g : text_graph ns es = Some g -> built g.
Proof.
  unfold text_graph. generalize (rev ns) (rev es). clear ns es. intros ns es. revert g.
  induction es as [|[[a b] e] es IH]; cbn [foldr]; intros g.
  - intros [= <-]. induction ns as [|x ns IH]; [apply built_new|by apply built_node].
  - destruct (foldr _ _ es) as [g1|]; [|done]. cbn [mbind option_bind]. intros Hg. eapply built_edge; [by apply IH|exact Hg].
Qed.

Definition chain_graph : Graph string string Z :=
  default NewGraph (text_graph ["a"; "b"; "c"] [("a", "b", 1); ("b", "c", 2)]).

Lemma graph_refines_witness : Edge "a" "b" (DeleteNode "c" chain_graph) = Some 1 /\ Edge "b" "c" (DeleteNode "c" chain_graph) = None.
Proof.
  destruct (graph_refines chain_graph "a" "c" "a" "b" 1) as (_ & _ & _ & H & _).
  - apply (text_graph_built ["a"; "b"; "c"] [("a", "b", 1); ("b", "c", 2)]). vm_compute. reflexivity.
  - rewrite !H. vm_compute. split; reflexivity.
Defined.
