(* ===== verification/LkGraphSort.v ===== *)
(** The topological sort of a graph ([TopologicalSort] and [traverseDepthFirst]
    of utils/graph.go). *)

From S2P Require Import Prelude LkGraph.

#[local] Open Scope string_scope.
#[local] Open Scope list_scope.

Section Sort.
Context {K N E : Type} `{Countable K} `{!GraphProps K N E} (g : Graph K N E).

(** The variables of [TopologicalSort] its function literal shares: the nodes by
    their positions. *)
Record sort_state := { temporary : gset nat; permanent : gset nat; out : list nat; acyclic : bool }.

(** The positions a row of the matrix has edges to. *)
Definition succs (i : nat) : list nat := filter (fun j => is_Some (edge_at i j g)) (seq 0 (Size g)).

Fixpoint visit_all (visit : nat -> sort_state -> option sort_state) (js : list nat) (st : sort_state) : option sort_state :=
  match js with
  | [] => Some st
  | j :: js' => st ← visit j st; visit_all visit js' st
  end.

(** [traverseDepthFirst] with the function literal of [TopologicalSort]; a
    position without a node is a nil pointer, which panics. *)
Fixpoint traverseDepthFirst (fuel : nat) (i : nat) (st : sort_state) : option sort_state :=
  match fuel with
  | O => None
  | S fuel =>
      _ ← node_at i g;
      if decide (i ∈ permanent st) then Some st
      else if decide (i ∈ temporary st) then
        Some {| temporary := temporary st; permanent := permanent st; out := out st; acyclic := false |}
      else
        st ← visit_all (traverseDepthFirst fuel) (succs i)
               {| temporary := {[i]} ∪ temporary st; permanent := permanent st; out := out st; acyclic := acyclic st |};
        Some {| temporary := temporary st ∖ {[i]}; permanent := {[i]} ∪ permanent st; out := out st ++ [i]; acyclic := acyclic st |}
  end.

(** [TopologicalSort]: the loop over all positions, and the reversed list of
    what was put out, or nil.  A path has at most as many nodes as there are
    positions. *)
Definition TopologicalSort : option (list N) :=
  if decide (Size g = 0%nat) then Some []
  else
    st ← visit_all (fun i st => if decide (i ∈ permanent st) then Some st else traverseDepthFirst (S (Size g)) i st)
           (seq 0 (Size g)) {| temporary := ∅; permanent := ∅; out := []; acyclic := true |};
    if acyclic st then mapM (fun i => node_at i g) (reverse (out st)) else Some [].

(** * Correctness *)

Definition arc (i j : nat) : Prop := is_Some (edge_at i j g).
Definition cyclic : Prop := exists i, tc arc i i.

(** Every node comes after the nodes its edges go to. *)
Definition ordered (l : list nat) : Prop := forall l1 m l2, l = l1 ++ m :: l2 -> forall s, arc m s -> s ∈ l1.

Record st_ok (st : sort_state) : Prop := {
  O_disjoint : temporary st ## permanent st;
  O_live : forall i, i ∈ temporary st -> (i < Size g)%nat;
  O_perm : forall i, i ∈ permanent st -> is_Some (node_at i g);
  O_out : forall i, i ∈ out st <-> i ∈ permanent st;
  O_nodup : NoDup (out st);
  O_ordered : acyclic st = true -> ordered (out st);
  O_cyclic : acyclic st = false -> cyclic;
}.

(** What a visit of [i] achieves. *)
Definition visited (i : nat) (st st' : sort_state) : Prop :=
  st_ok st' /\ temporary st' = temporary st /\ permanent st ⊆ permanent st' /\
  (acyclic st' = true -> acyclic st = true /\ i ∈ permanent st').

Lemma succs_arc i j : graph_ok g -> j ∈ succs i <-> arc i j.
Proof.
  intros Hg. unfold succs, arc. rewrite list_elem_of_filter. split; [tauto|]. intros Ha. split; [done|].
  destruct (G_edges _ Hg i j Ha) as [_ [n Hn]]. apply node_at_lt in Hn. apply elem_of_seq. lia.
Qed.

(** Visits one after the other. *)
Lemma visit_all_spec (visit : nat -> sort_state -> option sort_state) (T : gset nat) js :
  (forall j st, j ∈ js -> st_ok st -> temporary st = T -> exists st', visit j st = Some st' /\ visited j st st') ->
  forall st, st_ok st -> temporary st = T ->
  exists st', visit_all visit js st = Some st' /\ st_ok st' /\ temporary st' = T /\ permanent st ⊆ permanent st' /\
    (acyclic st' = true -> acyclic st = true /\ forall j, j ∈ js -> j ∈ permanent st').
Proof.
  induction js as [|j js IH]; intros Hv st Hst HT; cbn [visit_all].
  - exists st. split_and!; try done. intros Ha. split; [done|]. by intros j Hj%elem_of_nil.
  - destruct (Hv j st) as (st1 & -> & Hok1 & HT1 & Hp1 & Ha1); [apply list_elem_of_here|done|done|]. cbn [mbind option_bind].
    destruct (IH) with st1 as (st2 & -> & Hok2 & HT2 & Hp2 & Ha2); [|done|congruence|].
    { intros j' st' Hj'. apply Hv. by right. }
    exists st2. split_and!; try done; [set_solver|]. intros Ha. destruct (Ha2 Ha) as [Hb Hjs]. destruct (Ha1 Hb) as [Hc Hj].
    split; [done|]. intros x Hx. apply elem_of_cons in Hx as [->|Hx]; [set_solver|by apply Hjs].
Qed.

Lemma ordered_snoc l i : ordered l -> (forall s, arc i s -> s ∈ l) -> ordered (l ++ [i]).
Proof.
  intros Hl Hi l1 m l2 Em s Hs. destruct l2 as [|x l2] using rev_ind.
  - apply app_inj_tail in Em as [-> ->]. by apply Hi.
  - rewrite app_comm_cons, app_assoc in Em. apply app_inj_tail in Em as [-> _]. by apply (Hl l1 m l2).
Qed.

Lemma traverse_spec fuel : forall i st, graph_ok g -> st_ok st -> is_Some (node_at i g) ->
  (Size g - size (temporary st) < fuel)%nat -> (forall t, t ∈ temporary st -> tc arc t i) ->
  exists st', traverseDepthFirst fuel i st = Some st' /\ visited i st st'.
Proof.
  induction fuel as [|fuel IH]; intros i st Hg Hst Hi Hf Ht; [lia|]. cbn [traverseDepthFirst].
  destruct Hi as [n Hn]. rewrite Hn. cbn [mbind option_bind]. pose proof (node_at_lt i g n Hn) as Hlt.
  destruct (decide (i ∈ permanent st)) as [Hp|Hp]; [by exists st|].
  destruct (decide (i ∈ temporary st)) as [Htm|Htm].
  - eexists. split; [done|]. destruct Hst as [H1 H2 H7 H3 H4 H5 H6]. split; [|done]. split; cbn; try done. intros _. exists i. by apply Ht.
  - set (st1 := {| temporary := {[i]} ∪ temporary st |}). assert (st_ok st1) as Hst1.
    { destruct Hst as [H1 H2 H7 H3 H4 H5 H6]. split; cbn; try done; [set_solver|]. intros j Hj. apply elem_of_union in Hj as [->%elem_of_singleton|Hj]; [done|by apply H2]. }
    assert (size (temporary st1) = S (size (temporary st))) as Hsz by (cbn; rewrite size_union, size_singleton; [done|set_solver]).
    assert (size (temporary st1) <= Size g)%nat as Hle.
    { transitivity (size (list_to_set (C := gset nat) (seq 0 (Size g)))).
      - apply subseteq_size. intros j Hj. apply elem_of_list_to_set, elem_of_seq. pose proof (O_live _ Hst1 j Hj). lia.
      - rewrite size_list_to_set, length_seq by apply NoDup_seq. done. }
    destruct (visit_all_spec (traverseDepthFirst fuel) (temporary st1) (succs i)) with st1 as (st2 & -> & Hok & HT & Hpp & Ha); [|done|done|].
    { intros j st' Hj Hok' HT'. apply (succs_arc i j Hg) in Hj. apply IH; [done|done| | |].
      - by destruct (G_edges _ Hg i j Hj).
      - rewrite HT'. lia.
      - intros t Htt. rewrite HT' in Htt. cbn in Htt. apply elem_of_union in Htt as [->%elem_of_singleton|Htt]; [by apply tc_once|].
        eapply tc_r; [by apply Ht|done]. }
    cbn [mbind option_bind]. eexists. split; [done|]. cbn in HT, Hpp.
    destruct Hok as [H1 H2 H7 H3 H4 H5 H6]. assert (i ∉ permanent st2) as Hip by set_solver.
    split; [|split; [cbn; rewrite HT; set_solver|split; [cbn; set_solver|]]].
    + split; cbn.
      * set_solver.
      * intros j Hj. apply H2. set_solver.
      * intros j Hj. apply elem_of_union in Hj as [->%elem_of_singleton|Hj]; [by exists n|by apply H7].
      * intros j. rewrite elem_of_app, list_elem_of_singleton, H3. set_solver.
      * apply NoDup_app. split; [done|]. split; [|apply NoDup_singleton]. intros x Hx ->%list_elem_of_singleton. by apply Hip, H3.
      * intros Hac. apply ordered_snoc; [by apply H5|]. intros s Hs. apply H3. destruct (Ha Hac) as [_ Hs']. apply Hs'. by apply succs_arc.
      * done.
    + cbn. intros Hac. split; [by apply Ha|set_solver].
Qed.

(** ** Order and cycles *)

Definition before (l : list nat) (a b : nat) : Prop := exists x y, l !! x = Some a /\ l !! y = Some b /\ (x < y)%nat.

Lemma before_trans l a b c : NoDup l -> before l a b -> before l b c -> before l a c.
Proof.
  intros Hn (x & y & Hx & Hy & Hxy) (y' & z & Hy' & Hz & Hyz). assert (y = y') as <- by (by eapply NoDup_lookup).
  exists x, z. split_and!; [done|done|lia].
Qed.

Lemma ordered_before l i s : ordered l -> i ∈ l -> arc i s -> before l s i.
Proof.
  intros Ho Hi Ha. apply list_elem_of_split in Hi as (l1 & l2 & ->). pose proof (Ho l1 i l2 eq_refl s Ha) as Hs.
  apply list_elem_of_lookup in Hs as [x Hx]. pose proof (lookup_lt_Some _ _ _ Hx) as Hlt.
  exists x, (length l1). split_and!; [by rewrite lookup_app_l|by apply list_lookup_middle|done].
Qed.

Lemma ordered_acyclic l : NoDup l -> ordered l -> (forall i j, arc i j -> i ∈ l) -> ~ cyclic.
Proof.
  intros Hn Ho Hl [i Hi]. assert (forall a b, tc arc a b -> before l b a) as Hb.
  { induction 1 as [a b Hab|a b c Hab _ IH]; [apply ordered_before; [done|by eapply Hl|done]|].
    eapply before_trans; [done|exact IH|]. apply ordered_before; [done|by eapply Hl|done]. }
  destruct (Hb i i Hi) as (x & y & Hx & Hy & Hxy). assert (x = y) by (by eapply NoDup_lookup). lia.
Qed.

(** A cycle of identifiers. *)
Definition has_cycle : Prop := exists k : K, tc (fun a b => is_Some (Edge a b g)) k k.

Lemma edge_arc a b : is_Some (Edge a b g) <-> exists i j, nodesByID g !! a = Some i /\ nodesByID g !! b = Some j /\ arc i j.
Proof.
  unfold Edge, arc. destruct (nodesByID g !! a) as [i|]; cbn [mbind option_bind]; [|split; [by intros [? ?]|naive_solver]].
  destruct (nodesByID g !! b) as [j|]; cbn [mbind option_bind]; [|split; [by intros [? ?]|naive_solver]]. naive_solver.
Qed.

Abbreviation linked := (fun a b => is_Some (Edge a b g)).

Lemma arcs_edges a b : graph_ok g -> tc arc a b -> exists n m, node_at a g = Some n /\ node_at b g = Some m /\ tc linked (ID n) (ID m).
Proof.
  intros Hg. assert (forall a b, arc a b -> exists n m, node_at a g = Some n /\ node_at b g = Some m /\ linked (ID n) (ID m)) as H1.
  { clear a b. intros a b Hab. destruct (G_edges _ Hg a b Hab) as [[n Hn] [m Hm]]. exists n, m. split_and!; try done.
    apply edge_arc. exists a, b. split_and!; [apply (G_ids _ Hg); by exists n|apply (G_ids _ Hg); by exists m|done]. }
  induction 1 as [a b Hab|a b c Hab _ IH].
  - destruct (H1 a b Hab) as (n & m & ? & ? & ?). exists n, m. split_and!; try done. by apply tc_once.
  - destruct (H1 a b Hab) as (n & m & Hn & Hm & He). destruct IH as (m' & k & Hm' & Hk & Ht). simplify_eq.
    exists n, k. split_and!; try done. by eapply tc_l.
Qed.

Lemma edges_arcs a b : tc linked a b -> exists i j, nodesByID g !! a = Some i /\ nodesByID g !! b = Some j /\ tc arc i j.
Proof.
  induction 1 as [a b Hab|a b c Hab _ IH]; apply edge_arc in Hab as (i & j & Hi & Hj & Hij).
  - exists i, j. split_and!; try done. by apply tc_once.
  - destruct IH as (j' & k' & Hj' & Hk' & Ht). simplify_eq. exists i, k'. split_and!; try done. by eapply tc_l.
Qed.

Lemma cyclic_has_cycle : graph_ok g -> cyclic <-> has_cycle.
Proof.
  intros Hg. split.
  - intros [i Hi]. destruct (arcs_edges i i Hg Hi) as (n & m & Hn & Hm & Ht). simplify_eq. by exists (ID n).
  - intros [k Hk]. destruct (edges_arcs k k Hk) as (i & j & Hi & Hj & Ht). simplify_eq. by exists i.
Qed.

Lemma tc_ids a b i j : graph_ok g -> nodesByID g !! a = Some i -> nodesByID g !! b = Some j -> tc arc i j <-> tc linked a b.
Proof.
  intros Hg Hi Hj. split.
  - intros Ht. destruct (arcs_edges i j Hg Ht) as (n & m & Hn & Hm & Ht').
    destruct (ids_lookup g a i Hg Hi) as (n' & Hn' & <-). destruct (ids_lookup g b j Hg Hj) as (m' & Hm' & <-). by simplify_eq.
  - intros Ht. destruct (edges_arcs a b Ht) as (i' & j' & Hi' & Hj' & Ht'). by simplify_eq.
Qed.

(** The nodes at some positions. *)
Lemma nodes_at l : (forall i, i ∈ l -> is_Some (node_at i g)) ->
  exists ns, mapM (fun i => node_at i g) l = Some ns /\ Forall2 (fun i n => node_at i g = Some n) l ns.
Proof.
  intros Hl. destruct (mapM (fun i => node_at i g) l) as [ns|] eqn:Em.
  - exists ns. split; [done|]. by apply mapM_Some.
  - exfalso. apply mapM_None in Em. apply Exists_exists in Em as (i & Hi & He). destruct (Hl i Hi). congruence.
Qed.

Lemma no_holes i : graph_ok g -> freeIndices g = [] -> (i < Size g)%nat -> is_Some (node_at i g).
Proof.
  intros Hg Hf Hi. unfold node_at. destruct (lookup_lt_is_Some_2 _ _ Hi) as [[n|] Hn]; rewrite Hn; [by exists n|].
  apply (G_free _ Hg) in Hn. rewrite Hf in Hn. by apply elem_of_nil in Hn.
Qed.

(** From positions to nodes. *)
Lemma sorted_nodes l ns : graph_ok g -> NoDup l -> (forall i, i ∈ l <-> (i < Size g)%nat) -> ordered (reverse l) ->
  Forall2 (fun i n => node_at i g = Some n) l ns ->
  (forall n, n ∈ ns <-> Node (ID n) g = Some n) /\ NoDup (ID <$> ns) /\
  forall l1 a l2 b, ns = l1 ++ a :: l2 -> Node (ID b) g = Some b -> is_Some (Edge (ID a) (ID b) g) -> b ∈ l2.
Proof.
  intros Hg Hnd Hin Ho HF.
  assert (forall x i, l !! x = Some i -> exists n, ns !! x = Some n /\ node_at i g = Some n /\ nodesByID g !! ID n = Some i) as Hln.
  { intros x i Hx. destruct (Forall2_lookup_l _ _ _ _ _ HF Hx) as (n & Hn & Hi). exists n. split_and!; try done.
    apply (G_ids _ Hg). by exists n. }
  assert (forall x n, ns !! x = Some n -> exists i, l !! x = Some i /\ node_at i g = Some n /\ nodesByID g !! ID n = Some i) as Hnl.
  { intros x n Hx. destruct (Forall2_lookup_r _ _ _ _ _ HF Hx) as (i & Hn & Hi). exists i. split_and!; try done.
    apply (G_ids _ Hg). by exists n. }
  split_and!.
  - intros n. unfold Node. split.
    + intros Hn. apply list_elem_of_lookup in Hn as [x Hx]. destruct (Hnl x n Hx) as (i & _ & Hi & ->). done.
    + destruct (nodesByID g !! ID n) as [i|] eqn:Ei; [|done]. cbn [mbind option_bind]. intros Hn.
      pose proof (node_at_lt _ _ _ Hn) as Hlt. apply Hin, list_elem_of_lookup in Hlt as [x Hx].
      destruct (Hln x i Hx) as (n' & Hn' & Hi & _). simplify_eq. by eapply list_elem_of_lookup_2.
  - apply NoDup_alt. intros x y k Hx Hy. rewrite list_lookup_fmap in Hx, Hy.
    destruct (ns !! x) as [a|] eqn:Ex; [|done]. destruct (ns !! y) as [b|] eqn:Ey; [|done]. cbn in Hx, Hy. simplify_eq.
    destruct (Hnl x a Ex) as (i & Hi & _ & Ha). destruct (Hnl y b Ey) as (j & Hj & _ & Hb'). assert (i = j) as <- by congruence.
    by eapply NoDup_lookup.
  - intros l1 a l2 b -> Hb He. destruct (Hnl (length l1) a) as (i & Hi & _ & Ha); [by apply list_lookup_middle|].
    apply edge_arc in He as (i' & j & Hi' & Hj & Hij). assert (i' = i) as -> by congruence.
    assert (before (reverse l) j i) as (x & y & Hx & Hy & Hxy).
    { apply ordered_before; [done|apply elem_of_reverse; by eapply list_elem_of_lookup_2|done]. }
    assert (length l = length (l1 ++ a :: l2)) as Hlen by (by eapply Forall2_length).
    pose proof (lookup_lt_Some _ _ _ Hx) as Lx. pose proof (lookup_lt_Some _ _ _ Hy) as Ly. rewrite length_reverse in Lx, Ly.
    rewrite reverse_lookup in Hx, Hy by done. assert (length l - S y = length l1)%nat as Ey by (by eapply NoDup_lookup).
    destruct (Hln _ _ Hx) as (b' & Hb' & Hn' & Hid). assert (b' = b) as ->.
    { unfold Node in Hb. rewrite Hj in Hb. cbn [mbind option_bind] in Hb. congruence. }
    rewrite lookup_app_r in Hb' by lia. destruct (length l - S x - length l1)%nat as [|z] eqn:Ez; [lia|].
    simpl in Hb'. by eapply list_elem_of_lookup_2.
Qed.

(** The state the loop ends in. *)
Lemma sort_loop : graph_ok g -> freeIndices g = [] -> exists st,
  visit_all (fun i st => if decide (i ∈ permanent st) then Some st else traverseDepthFirst (S (Size g)) i st)
    (seq 0 (Size g)) {| temporary := ∅; permanent := ∅; out := []; acyclic := true |} = Some st /\ st_ok st /\
  (acyclic st = true -> forall i, (i < Size g)%nat -> i ∈ permanent st).
Proof.
  intros Hg Hf. destruct (visit_all_spec
    (fun i st => if decide (i ∈ permanent st) then Some st else traverseDepthFirst (S (Size g)) i st) ∅ (seq 0 (Size g)))
    with {| temporary := ∅; permanent := ∅; out := []; acyclic := true |} as (st & E1 & E2 & _ & _ & E3).
  - intros j st Hj Hst HT. destruct (decide (j ∈ permanent st)) as [Hp|Hp]; [by exists st|].
    apply elem_of_seq in Hj. apply traverse_spec; [done|done|apply no_holes; [done|done|lia]|lia|]. rewrite HT. set_solver.
  - split; cbn; [set_solver|by intros i Hi%elem_of_empty|by intros i Hi%elem_of_empty| |constructor| |done].
    + intros i. split; [by intros Hi%elem_of_nil|by intros Hi%elem_of_empty].
    + intros _ l1 m l2 Em. by destruct l1.
  - done.
  - exists st. split_and!; try done. intros Ha i Hi. apply (E3 Ha). apply elem_of_seq. lia.
Qed.

(** C37. Without holes, [TopologicalSort] returns.  If the graph has no cycle, the
    result has every node once, and every edge leads from a node to one further
    down; if it has one, the result is nil. *)
Theorem topological_sort_correct : built g -> freeIndices g = [] ->
  exists l, TopologicalSort = Some l /\ (has_cycle -> l = []) /\
    (~ has_cycle -> (forall n, n ∈ l <-> Node (ID n) g = Some n) /\ NoDup (ID <$> l) /\
      forall l1 a l2 b, l = l1 ++ a :: l2 -> Node (ID b) g = Some b -> is_Some (Edge (ID a) (ID b) g) -> b ∈ l2).
Proof.
  intros Hb Hf. pose proof (built_ok g Hb) as Hg. unfold TopologicalSort.
  destruct (decide (Size g = 0%nat)) as [Hz|Hz].
  { exists []. split; [done|]. split; [done|]. intros _. split; [|split; [constructor|by intros []]]. intros n. split; [by intros Hn%elem_of_nil|]. unfold Node.
    destruct (nodesByID g !! ID n) as [i|]; [|done]. cbn [mbind option_bind]. intros Hn%node_at_lt. lia. }
  destruct (sort_loop Hg Hf) as (st & -> & Hst & Hall). cbn [mbind option_bind]. destruct (acyclic st) eqn:Ea.
  2:{ exists []. split; [done|]. split; [done|]. intros Hn. destruct Hn. by apply cyclic_has_cycle, (O_cyclic _ Hst). }
  specialize (Hall eq_refl). pose proof (O_ordered _ Hst Ea) as Ho. pose proof (O_nodup _ Hst) as Hnd.
  assert (forall i, i ∈ out st <-> (i < Size g)%nat) as Hin.
  { intros i. rewrite (O_out _ Hst). split; [|apply Hall]. intros Hi. destruct (O_perm _ Hst i Hi) as [n Hn]. by apply node_at_lt in Hn. }
  destruct (nodes_at (reverse (out st))) as (ns & -> & Hns).
  { intros i Hi. apply no_holes; [done|done|]. apply Hin. by apply elem_of_reverse. }
  exists ns. split; [done|]. split.
  { intros Hc. exfalso. apply cyclic_has_cycle in Hc; [|done]. revert Hc. apply (ordered_acyclic (out st)); try done.
    intros i j Hij. apply Hin. destruct (G_edges _ Hg i j Hij) as [[n Hn] _]. by apply node_at_lt in Hn. }
  intros _. apply (sorted_nodes (reverse (out st))); [done|by rewrite reverse_Permutation| |by rewrite reverse_involutive|done].
  intros i. by rewrite elem_of_reverse.
Qed.
End Sort.

Definition triangle : Graph string string Z :=
  default NewGraph (text_graph ["c"; "a"; "b"] [("a", "b", 1); ("b", "c", 1); ("a", "c", 1)]).

Lemma triangle_built : built triangle.
Proof. apply (text_graph_built ["c"; "a"; "b"] [("a", "b", 1); ("b", "c", 1); ("a", "c", 1)]). vm_compute. reflexivity. Qed.

(** [TopologicalSort] follows the nil pointer a deleted node leaves behind. *)
Theorem topological_sort_panics_on_hole : exists g : Graph string string Z, built g /\ TopologicalSort g = None.
Proof. exists (DeleteNode "a" triangle). split; [apply built_delete, triangle_built|]. vm_compute. reflexivity. Qed.

Lemma topological_sort_correct_witness : TopologicalSort triangle = Some ["a"; "b"; "c"] /\ ~ has_cycle triangle.
Proof.
  destruct (topological_sort_correct triangle triangle_built) as (l & H1 & H2 & _); [vm_compute; reflexivity|].
  assert (TopologicalSort triangle = Some ["a"; "b"; "c"]) as Ht by (vm_compute; reflexivity).
  split; [done|]. intros Hc. apply H2 in Hc. rewrite Hc, Ht in H1. discriminate H1.
Defined.
