(* ===== verification/LkGraphPath.v ===== *)
(** [ShortestPath] of utils/graph.go, with the operations of Go's container/heap
    that it uses. *)

From S2P Require Import Prelude LkGraph LkGraphSort.

#[local] Open Scope list_scope.

(** * Paths *)

(** A [graphPath] and those its [prev] pointers lead to, the latest first; each
    has the position of its node. *)
Record pstep := { p_node : nat; p_length : Z; p_num : Z }.

Abbreviation graphPath := (pstep * list pstep)%type.

Definition path_steps (p : graphPath) : list pstep := fst p :: snd p.

(** [Less]. *)
Definition Less (p o : pstep) : bool :=
  ((p_length p =? p_length o) && (p_num p <? p_num o)) || (p_length p <? p_length o).

(** * container/heap *)

Section Heap.
Context {A : Type} (less : A -> A -> bool).

Definition swap (i j : nat) (h : list A) : list A :=
  match h !! i, h !! j with
  | Some x, Some y => <[j := x]> (<[i := y]> h)
  | _, _ => h
  end.

Definition less_at (h : list A) (i j : nat) : bool :=
  match h !! i, h !! j with
  | Some x, Some y => less x y
  | _, _ => false
  end.

(** [up] and [down], with one step for each element. *)
Fixpoint up (fuel : nat) (j : nat) (h : list A) : list A :=
  match fuel with
  | O => h
  | S fuel =>
      let i := ((j - 1) / 2)%nat in
      if (i =? j)%nat || negb (less_at h j i) then h else up fuel i (swap i j h)
  end.

Fixpoint down (fuel : nat) (i n : nat) (h : list A) : list A :=
  match fuel with
  | O => h
  | S fuel =>
      let j1 := (2 * i + 1)%nat in
      if (n <=? j1)%nat then h
      else
        let j2 := (j1 + 1)%nat in
        let j := if (j2 <? n)%nat && less_at h j2 j1 then j2 else j1 in
        if negb (less_at h j i) then h else down fuel j n (swap i j h)
  end.

Definition heap_Push (x : A) (h : list A) : list A := let h := h ++ [x] in up (length h) (length h - 1) h.

Definition heap_Pop (h : list A) : option (A * list A) :=
  let n := (length h - 1)%nat in
  let h := down (length h) 0 n (swap 0 n h) in
  x ← last h; Some (x, take n h).

Lemma swap_perm i j h : swap i j h ≡ₚ h.
Proof.
  unfold swap. destruct (h !! i) as [x|] eqn:Ei; [|done]. destruct (h !! j) as [y|] eqn:Ej; [|done].
  destruct (decide (i = j)) as [<-|Hij]; [rewrite list_insert_insert_eq; simplify_eq; by rewrite list_insert_id|].
  apply Permutation_inj. split; [by rewrite !length_insert|].
  exists (fun k => if decide (k = i) then j else if decide (k = j) then i else k). split.
  - intros a b. repeat case_decide; congruence.
  - intros k. destruct (decide (k = i)) as [->|].
    + rewrite list_lookup_insert_ne, list_lookup_insert_eq by (done || by eapply lookup_lt_Some). done.
    + destruct (decide (k = j)) as [->|].
      * rewrite list_lookup_insert_eq by (rewrite length_insert; by eapply lookup_lt_Some). done.
      * by rewrite !list_lookup_insert_ne.
Qed.

Lemma up_perm fuel : forall j h, up fuel j h ≡ₚ h.
Proof. induction fuel as [|fuel IH]; intros j h; simpl; [done|]. case_match; [done|]. by rewrite IH, swap_perm. Qed.

Lemma down_perm fuel : forall i n h, down fuel i n h ≡ₚ h.
Proof. induction fuel as [|fuel IH]; intros i n h; cbn [down]; [done|]. repeat case_match; try done; by rewrite IH, swap_perm. Qed.

Lemma heap_Push_perm x h : heap_Push x h ≡ₚ x :: h.
Proof. unfold heap_Push. rewrite up_perm. by rewrite (Permutation_app_comm h [x]). Qed.

Lemma heap_Pop_perm h : h <> [] -> exists x h', heap_Pop h = Some (x, h') /\ h ≡ₚ x :: h'.
Proof.
  intros Hh. unfold heap_Pop. set (k := down _ _ _ _). assert (k ≡ₚ h) as Hk by (unfold k; by rewrite down_perm, swap_perm).
  destruct (last k) as [x|] eqn:El.
  - cbn [mbind option_bind]. exists x, (take (length h - 1) k). split; [done|]. apply last_Some in El as [k' Ek].
    transitivity k; [by symmetry|]. rewrite <- (Permutation_length Hk), Ek, length_app, Nat.add_sub, take_app_length.
    by rewrite (Permutation_app_comm k' [x]).
  - exfalso. apply last_None in El. rewrite El in Hk. apply Hh. symmetry. by apply Permutation_nil_l.
Qed.
End Heap.

(** * The search *)

Section Path.
Context {K N E : Type} `{Countable K} `{!GraphProps K N E} (g : Graph K N E).

Inductive outcome := Found (p : graphPath) | More (paths : list graphPath) (visited : gmap nat pstep).

(** The loop over the edges of the node of [prev]. *)
Fixpoint expand (prev : graphPath) (d : nat) (js : list nat) (paths : list graphPath) (visited : gmap nat pstep) : outcome :=
  match js with
  | [] => More paths visited
  | j :: js' =>
      match edge_at (p_node (fst prev)) j g with
      | None => expand prev d js' paths visited
      | Some e =>
          let path : graphPath :=
            ({| p_node := j; p_length := i64 (p_length (fst prev) + Length e); p_num := i64 (p_num (fst prev) + 1) |}, path_steps prev) in
          if match visited !! j with Some p => Less p (fst path) | None => false end
          then expand prev d js' paths visited
          else
            let visited := <[j := fst path]> visited in
            if decide (j = d) then Found path
            else expand prev d js' (heap_Push (fun p o => Less (fst p) (fst o)) path paths) visited
      end
  end.

Fixpoint search (fuel : nat) (d : nat) (paths : list graphPath) (visited : gmap nat pstep) : option (option graphPath) :=
  match fuel with
  | O => None
  | S fuel =>
      match heap_Pop (fun p o => Less (fst p) (fst o)) paths with
      | None => Some None
      | Some (prev, paths) =>
          match expand prev d (seq 0 (Size g)) paths visited with
          | Found p => Some (Some p)
          | More paths visited => search fuel d paths visited
          end
      end
  end.

(** The nodes and the length of the path; [Some ([], 0)] is nil, [None] a search
    that is not over. *)
Definition ShortestPath (fuel : nat) (src dst : K) : option (list N * Z) :=
  match nodesByID g !! src, nodesByID g !! dst with
  | Some s, Some d =>
      let path : graphPath := ({| p_node := s; p_length := 0; p_num := 0 |}, []) in
      r ← search fuel d (heap_Push (fun p o => Less (fst p) (fst o)) path []) {[s := fst path]};
      match r with
      | Some p => Some (omap (fun st => node_at (p_node st) g) (reverse (path_steps p)), p_length (fst p))
      | None => Some ([], 0)
      end
  | _, _ => Some ([], 0)
  end.

(** * Correctness *)

(** Edges are not negative, and a path through all nodes has an int64 length. *)
Context (M : Z) (Hok : graph_ok g).
Context (Hlen : forall i j e, edge_at i j g = Some e -> 0 <= Length e <= M).
Context (Hsmall : Z.of_nat (Size g) * M < 2 ^ 62 /\ Z.of_nat (Size g) < 2 ^ 62).

(** The steps of a walk from [s], latest first, with lengths and numbers. *)
Inductive walk (s : nat) : list pstep -> Prop :=
| walk_start : walk s [{| p_node := s; p_length := 0; p_num := 0 |}]
| walk_edge q l j e : walk s (q :: l) -> edge_at (p_node q) j g = Some e ->
    walk s ({| p_node := j; p_length := p_length q + Length e; p_num := p_num q + 1 |} :: q :: l).

Lemma walk_bounds s q l : walk s (q :: l) ->
  p_num q = Z.of_nat (length l) /\ 0 <= p_length q <= Z.of_nat (length l) * M /\
  Forall (fun x => p_length x <= p_length q /\ p_num x < p_num q) l.
Proof.
  revert q. induction l as [|x l IH]; intros q Hw; inversion Hw as [|x' l' j e Hw' He]; subst; simpl.
  - split_and!; try lia; try done.
  - destruct (IH x Hw') as (H1 & H2 & H3). specialize (Hlen _ _ _ He). split_and!; try nia.
    constructor; [lia|]. eapply Forall_impl; [exact H3|]. simpl. lia.
Qed.

(** A path of the heap: simple, and no node of it is labelled with more than its
    step. *)
Definition good (s : nat) (visited : gmap nat pstep) (p : graphPath) : Prop :=
  walk s (path_steps p) /\ NoDup (p_node <$> path_steps p) /\
  Forall (fun q => (p_node q < Size g)%nat /\ exists v, visited !! p_node q = Some v /\ Less q v = false) (path_steps p).

(** Labels only go down. *)
Definition lower (visited visited' : gmap nat pstep) : Prop :=
  forall j v, visited !! j = Some v -> exists v', visited' !! j = Some v' /\ Less v v' = false.

Lemma Less_false p o : Less p o = false <-> p_length o < p_length p \/ (p_length o = p_length p /\ p_num o <= p_num p).
Proof. unfold Less. rewrite orb_false_iff, andb_false_iff, Z.eqb_neq, !Z.ltb_ge. lia. Qed.

Lemma Less_false_trans p q r : Less p q = false -> Less q r = false -> Less p r = false.
Proof. rewrite !Less_false. lia. Qed.

Lemma good_lower s v v' p : lower v v' -> good s v p -> good s v' p.
Proof.
  intros Hl (H1 & H2 & H3). split_and!; try done. eapply Forall_impl; [exact H3|]. intros q (Hq & x & Hx & Hle).
  split; [done|]. destruct (Hl _ _ Hx) as (x' & Hx' & Hle'). exists x'. split; [done|]. by eapply Less_false_trans.
Qed.

Lemma lower_refl v : lower v v.
Proof. intros j x Hx. exists x. split; [done|]. rewrite Less_false. lia. Qed.

Lemma lower_trans a b c : lower a b -> lower b c -> lower a c.
Proof.
  intros Hab Hbc j x Hx. destruct (Hab j x Hx) as (y & Hy & H1). destruct (Hbc j y Hy) as (z & Hz & H2).
  exists z. split; [done|]. by eapply Less_false_trans.
Qed.

Lemma good_short s v p : good s v p -> (length (snd p) < Size g)%nat.
Proof.
  intros (_ & Hnd & Hf). destruct p as [q l]. cbn in *.
  assert (size (list_to_set (C := gset nat) (p_node <$> q :: l)) <= size (list_to_set (C := gset nat) (seq 0 (Size g))))%nat as Hs.
  { apply subseteq_size. intros i Hi. apply elem_of_list_to_set in Hi. apply elem_of_list_to_set, elem_of_seq.
    apply list_elem_of_fmap in Hi as (x & -> & Hx). rewrite Forall_forall in Hf. destruct (Hf x Hx). lia. }
  rewrite !size_list_to_set, length_fmap, length_seq in Hs by (done || apply NoDup_seq). simpl in Hs. lia.
Qed.

(** The step the loop makes from a good path. *)
Definition next_step (prev : graphPath) (j : nat) (e : E) : pstep :=
  {| p_node := j; p_length := i64 (p_length (fst prev) + Length e); p_num := i64 (p_num (fst prev) + 1) |}.

Lemma next_step_exact s v prev j e : good s v prev -> edge_at (p_node (fst prev)) j g = Some e ->
  next_step prev j e = {| p_node := j; p_length := p_length (fst prev) + Length e; p_num := p_num (fst prev) + 1 |}.
Proof.
  intros Hg He. pose proof (good_short s v prev Hg) as Hs. destruct Hg as (Hw & _). destruct prev as [q l]. cbn in *.
  destruct (walk_bounds s q l Hw) as (H1 & H2 & _). specialize (Hlen _ _ _ He). unfold next_step. cbn.
  assert (0 <= M) by lia. rewrite !i64_small by nia. done.
Qed.

(** A path the loop accepts is good. *)
Lemma accepted_good s v prev j e : good s v prev -> edge_at (p_node (fst prev)) j g = Some e ->
  match v !! j with Some p => Less p (next_step prev j e) | None => false end = false ->
  lower v (<[j := next_step prev j e]> v) /\ good s (<[j := next_step prev j e]> v) (next_step prev j e, path_steps prev).
Proof.
  intros Hg He Hv. pose proof (next_step_exact s v prev j e Hg He) as Hex.
  assert (lower v (<[j := next_step prev j e]> v)) as Hlow.
  { intros k x Hx. destruct (decide (k = j)) as [->|].
    - rewrite lookup_insert_eq. eexists. split; [done|]. rewrite Hx in Hv. rewrite Hex in *. rewrite Less_false in *. 
      unfold Less in Hv. cbn in *. lia.
    - rewrite lookup_insert_ne by done. exists x. split; [done|]. rewrite Less_false. lia. }
  split; [done|]. pose proof Hg as (Hw & Hnd & Hf). destruct (good_lower s v _ prev Hlow Hg) as (_ & _ & Hf').
  split; [|split].
  - rewrite Hex. cbn. by apply walk_edge.
  - cbn. constructor; [|done]. intros Hj. change (j ∈ p_node <$> path_steps prev) in Hj. apply list_elem_of_fmap in Hj as (q & Hq & Hqin). destruct prev as [q0 l]. cbn in *.
    rewrite Forall_forall in Hf. destruct (Hf q Hqin) as (_ & x & Hx & Hle). rewrite <- Hq in Hx. rewrite Hx in Hv.
    destruct (walk_bounds s q0 l Hw) as (_ & _ & Hb). specialize (Hlen _ _ _ He). rewrite Hex in Hv. cbn in Hv.
    assert (p_length q <= p_length q0 /\ p_num q <= p_num q0) as [? ?].
    { apply elem_of_cons in Hqin as [->|Hqin]; [split; apply Z.le_refl|]. rewrite Forall_forall in Hb. destruct (Hb q Hqin). lia. }
    rewrite Less_false in *. cbn in *. lia.
  - cbn. constructor; [|done]. cbn. split.
    + destruct (G_edges _ Hok (p_node (fst prev)) j) as [_ [n Hn]]; [by rewrite He|]. by apply node_at_lt in Hn.
    + rewrite lookup_insert_eq. eexists. split; [done|]. rewrite Less_false. lia.
Qed.

(** What the loop over the edges leaves behind. *)
Record expanded (s d : nat) (prev : graphPath) (js : list nat) (paths : list graphPath) (visited : gmap nat pstep)
    (new : list graphPath) (paths' : list graphPath) (visited' : gmap nat pstep) : Prop := {
  X_perm : paths' ≡ₚ new ++ paths;
  X_few : (length new <= length js)%nat;
  X_longer : Forall (fun p => length (snd p) = S (length (snd prev))) new;
  X_good : Forall (good s visited') paths';
  X_prev : good s visited' prev;
  X_lower : lower visited visited';
  X_succ : forall j, j ∈ js -> arc g (p_node (fst prev)) j -> is_Some (visited' !! j);
  X_new : forall j, is_Some (visited' !! j) -> is_Some (visited !! j) \/ exists p, p ∈ new /\ p_node (fst p) = j;
  X_dst : visited !! d = None -> visited' !! d = None;
}.

Lemma expand_spec s d prev js : forall paths visited, good s visited prev -> Forall (good s visited) paths ->
  match expand prev d js paths visited with
  | Found p => walk s (path_steps p) /\ p_node (fst p) = d
  | More paths' visited' => exists new, expanded s d prev js paths visited new paths' visited'
  end.
Proof.
  induction js as [|j js IH]; intros paths visited Hp Hps; cbn [expand].
  { exists []. split; try done; [apply lower_refl|by intros j Hj%elem_of_nil|by left]. }
  assert (is_Some (visited !! j) \/ edge_at (p_node (fst prev)) j g = None ->
    match expand prev d js paths visited with
    | Found p => walk s (path_steps p) /\ p_node (fst p) = d
    | More paths' visited' => exists new, expanded s d prev (j :: js) paths visited new paths' visited'
    end) as Hskip.
  { intros Hj. specialize (IH paths visited Hp Hps). destruct (expand prev d js paths visited) as [p|paths' visited']; [done|].
    destruct IH as [new [X1 X2 X3 X4 X5 X6 X7 X8 X9]]. exists new. split; try done; [simpl; lia|].
    intros k Hk Ha. apply elem_of_cons in Hk as [->|Hk]; [|by apply X7]. destruct Hj as [[x Hx]|Hj].
    - by destruct (X6 j x Hx) as (x' & Hx' & _).
    - unfold arc in Ha. rewrite Hj in Ha. by destruct Ha. }
  destruct (edge_at (p_node (fst prev)) j g) as [e|] eqn:He; [|by apply Hskip; right].
  fold (next_step prev j e). cbn [fst].
  destruct (match visited !! j with Some p => Less p (next_step prev j e) | None => false end) eqn:Hv.
  { apply Hskip. left. by destruct (visited !! j). }
  destruct (accepted_good s visited prev j e Hp He Hv) as [Hlow Hgood].
  destruct (decide (j = d)) as [->|Hjd]; [split; [apply Hgood|done]|]. clear Hskip.
  set (v1 := <[j := next_step prev j e]> visited) in *. set (p1 := (next_step prev j e, path_steps prev)) in *.
  specialize (IH (heap_Push (fun p o => Less (fst p) (fst o)) p1 paths) v1 (good_lower s _ _ _ Hlow Hp)).
  assert (Forall (good s v1) (heap_Push (fun p o => Less (fst p) (fst o)) p1 paths)) as Hps1.
  { rewrite heap_Push_perm. constructor; [done|]. eapply Forall_impl; [exact Hps|]. intros q. by apply good_lower. }
  specialize (IH Hps1). destruct (expand prev d js _ v1) as [p|paths' visited']; [done|].
  destruct IH as [new [X1 X2 X3 X4 X5 X6 X7 X8 X9]]. exists (new ++ [p1]). split; try done.
  - rewrite X1, heap_Push_perm, <- app_assoc. done.
  - rewrite length_app. simpl. lia.
  - apply Forall_app. split; [done|]. by constructor.
  - by eapply lower_trans.
  - intros k Hk Ha. apply elem_of_cons in Hk as [->|Hk]; [|by apply X7].
    destruct (X6 j (next_step prev j e)) as (x' & Hx' & _); [by apply lookup_insert_eq|by exists x'].
  - intros k Hk. destruct (X8 k Hk) as [Hk'|(p & Hp' & Hk')].
    + destruct (decide (k = j)) as [->|]; [|left; unfold v1 in Hk'; by rewrite lookup_insert_ne in Hk'].
      right. exists p1. split; [|done]. apply elem_of_app. right. apply list_elem_of_here.
    + right. exists p. split; [|done]. apply elem_of_app. by left.
  - intros Hd. apply X9. unfold v1. by rewrite lookup_insert_ne.
Qed.

(** ** The whole search *)

Record searching (s d : nat) (paths : list graphPath) (visited : gmap nat pstep) : Prop := {
  Q_good : Forall (good s visited) paths;
  Q_src : is_Some (visited !! s);
  Q_dst : visited !! d = None;
  Q_closed : forall v, is_Some (visited !! v) -> (exists p, p ∈ paths /\ p_node (fst p) = v) \/
               forall j, arc g v j -> is_Some (visited !! j);
}.

(** The work a path can still cause. *)
Definition weight (p : graphPath) : nat := ((Size g + 1) ^ (Size g - length (snd p)))%nat.
Definition work (paths : list graphPath) : nat := sum_list_with weight paths.

Lemma work_perm ps ps' : ps ≡ₚ ps' -> work ps = work ps'.
Proof. induction 1; unfold work in *; simpl in *; lia. Qed.

Lemma work_bound k new : (k < Size g)%nat -> (length new <= Size g)%nat -> Forall (fun p : graphPath => length (snd p) = S k) new ->
  (work new < (Size g + 1) ^ (Size g - k))%nat.
Proof.
  intros Hk Hn Hf. assert (work new <= length new * (Size g + 1) ^ (Size g - S k))%nat as Hw.
  { clear Hn. unfold work. induction Hf as [|p l Hp Hf IH]; simpl; [lia|]. unfold weight at 1. rewrite Hp. lia. }
  replace (Size g - k)%nat with (S (Size g - S k)) by lia. rewrite Nat.pow_succ_r'.
  assert (0 < (Size g + 1) ^ (Size g - S k))%nat by (apply Nat.neq_0_lt_0, Nat.pow_nonzero; lia). nia.
Qed.

Lemma closed_reach s d (visited : gmap nat pstep) : is_Some (visited !! s) ->
  (forall v, is_Some (visited !! v) -> forall j, arc g v j -> is_Some (visited !! j)) -> tc (arc g) s d -> is_Some (visited !! d).
Proof. intros Hs Hc Ht. revert Hs. induction Ht as [a b Hab|a b c Hab _ IH]; intros Hs; [by eapply Hc|]. apply IH. by eapply Hc. Qed.

Lemma search_spec s d fuel : forall paths visited, searching s d paths visited -> (work paths < fuel)%nat ->
  match search fuel d paths visited with
  | Some (Some p) => walk s (path_steps p) /\ p_node (fst p) = d
  | Some None => ~ tc (arc g) s d
  | None => False
  end.
Proof.
  induction fuel as [|fuel IH]; intros paths visited [Q1 Q2 Q3 Q4] Hf; [lia|]. cbn [search].
  destruct (decide (paths = [])) as [->|Hne].
  - cbn. intros Ht. destruct (closed_reach s d visited Q2) as [x Hx]; [|done|congruence].
    intros v Hv. destruct (Q4 v Hv) as [(p & Hp & _)|Hc]; [by apply elem_of_nil in Hp|done].
  - destruct (heap_Pop_perm (fun p o => Less (fst p) (fst o)) paths Hne) as (prev & rest & -> & Hperm).
    rewrite Hperm in Q1. apply Forall_cons in Q1 as [Hp Hrest].
    pose proof (expand_spec s d prev (seq 0 (Size g)) rest visited Hp Hrest) as Hx.
    destruct (expand prev d (seq 0 (Size g)) rest visited) as [p|paths' visited']; [done|].
    destruct Hx as [new [X1 X2 X3 X4 X5 X6 X7 X8 X9]]. apply IH.
    + split; [done| |by apply X9|].
      * destruct Q2 as [x Hx]. by destruct (X6 s x Hx) as (x' & Hx' & _).
      * intros v Hv. destruct (X8 v Hv) as [Hv'|(p & Hpn & Hpv)].
        2:{ left. exists p. split; [|done]. rewrite X1. apply elem_of_app. by left. }
        destruct (decide (v = p_node (fst prev))) as [->|Hvp].
        { right. intros j Hj. apply X7; [|done]. destruct (G_edges _ Hok _ _ Hj) as [_ [n Hn]]. apply node_at_lt in Hn.
          apply elem_of_seq. lia. }
        destruct (Q4 v Hv') as [(p & Hpp & Hpv)|Hc].
        -- left. exists p. split; [|done]. rewrite X1. apply elem_of_app. right. rewrite Hperm in Hpp.
           apply elem_of_cons in Hpp as [->|Hpp]; [done|done].
        -- right. intros j Hj. destruct (Hc j Hj) as [x Hx]. by destruct (X6 j x Hx) as (x' & Hx' & _).
    + rewrite (work_perm _ _ Hperm) in Hf. rewrite (work_perm _ _ X1). unfold work in *. rewrite sum_list_with_app. simpl in Hf.
      pose proof (good_short s visited prev Hp) as Hs. rewrite length_seq in X2.
      pose proof (work_bound (length (snd prev)) new Hs X2 X3) as Hb. unfold work, weight in *. lia.
Qed.

(** ** The property *)

(** The nodes of a path of edges, with the sum of their lengths. *)
Inductive route : list N -> Z -> Prop :=
| route_one n : Node (ID n) g = Some n -> route [n] 0
| route_snoc l n m e len : route (l ++ [n]) len -> Edge (ID n) (ID m) g = Some e -> Node (ID m) g = Some m ->
    route ((l ++ [n]) ++ [m]) (len + Length e).

Lemma node_id i n : node_at i g = Some n -> nodesByID g !! ID n = Some i /\ Node (ID n) g = Some n.
Proof.
  intros Hn. assert (nodesByID g !! ID n = Some i) as Hi by (apply (G_ids _ Hok); by exists n).
  split; [done|]. unfold Node. by rewrite Hi.
Qed.

Lemma walk_route s n0 q l : node_at s g = Some n0 -> walk s (q :: l) -> exists ns n,
  omap (fun st => node_at (p_node st) g) (reverse (q :: l)) = ns ++ [n] /\ node_at (p_node q) g = Some n /\
  route (ns ++ [n]) (p_length q) /\ head (ns ++ [n]) = Some n0.
Proof.
  intros Hs. revert q. induction l as [|x l IH]; intros q Hw; inversion Hw as [|x' l' j e Hw' He]; subst.
  - exists [], n0. cbn. rewrite Hs. split_and!; try done. apply route_one. by apply (node_id s).
  - destruct (IH x Hw') as (ns & n & H1 & H2 & H3 & H4). destruct (G_edges _ Hok _ _ (mk_is_Some _ _ He)) as [_ [m Hm]].
    exists (ns ++ [n]), m. rewrite reverse_cons, omap_app, H1. cbn. rewrite Hm. split_and!; [done|done| |].
    + apply route_snoc; [done| |by apply (node_id j)]. unfold Edge. rewrite (proj1 (node_id _ _ H2)), (proj1 (node_id _ _ Hm)). done.
    + destruct ns; done.
Qed.

Lemma ids_inj' k i n : nodesByID g !! k = Some i -> node_at i g = Some n -> ID n = k.
Proof. intros Hk Hn. apply (ids_inj g _ _ i Hok); [by apply node_id|done]. Qed.

Lemma walk_reach s q l : walk s (q :: l) -> s <> p_node q -> tc (arc g) s (p_node q).
Proof.
  revert q. induction l as [|x l IH]; intros q Hw Hn; inversion Hw as [|x' l' j e Hw' He]; subst; [done|]. cbn in *.
  assert (arc g (p_node x) j) as Ha by (by exists e). destruct (decide (s = p_node x)) as [->|]; [by apply tc_once|].
  eapply tc_r; [by apply IH|done].
Qed.

(** With edges that are not negative the search ends, after at most as many
    rounds as given: if there is a way from one node to another, the result is
    such a way with its length, and nil if there is none.  It need not be the
    shortest. *)
Theorem ShortestPath_finds_path fuel src dst : is_Some (Node src g) -> is_Some (Node dst g) -> src <> dst ->
  ((Size g + 1) ^ Size g < fuel)%nat ->
  exists l len, ShortestPath fuel src dst = Some (l, len) /\
    ((tc (fun a b => is_Some (Edge a b g)) src dst /\ route l len /\ ID <$> head l = Some src /\ ID <$> last l = Some dst) \/
     (~ tc (fun a b => is_Some (Edge a b g)) src dst /\ l = [] /\ len = 0)).
Proof.
  intros [ns Hs] [nd Hd] Hne Hf. unfold Node in Hs, Hd. unfold ShortestPath.
  destruct (nodesByID g !! src) as [s|] eqn:Es; [|done]. destruct (nodesByID g !! dst) as [d|] eqn:Ed; [|done].
  cbn [mbind option_bind] in Hs, Hd. assert (s <> d) as Hsd by (intros ->; by apply Hne, (ids_inj g _ _ d)).
  set (p0 := {| p_node := s; p_length := 0; p_num := 0 |}). cbn [fst].
  assert (tc (arc g) s d <-> tc (fun a b => is_Some (Edge a b g)) src dst) as Htc by by apply tc_ids.
  pose proof (search_spec s d fuel (heap_Push (fun p o => Less (fst p) (fst o)) (p0, []) []) {[s := p0]}) as Hx.
  assert (good s {[s := p0]} (p0, [])) as Hgood.
  { split; [apply walk_start|]. split; [apply NoDup_singleton|]. constructor; [|constructor]. split; [by apply node_at_lt in Hs|].
    exists p0. split; [apply lookup_singleton_eq|]. rewrite Less_false. right. split; [done|apply Z.le_refl]. }
  assert (searching s d (heap_Push (fun p o => Less (fst p) (fst o)) (p0, []) []) {[s := p0]}) as Hq.
  { split; [by constructor|by rewrite lookup_singleton_eq|by rewrite lookup_singleton_ne|].
    intros v [x Hx']. apply lookup_singleton_Some in Hx' as [<- _]. left. exists (p0, []). split; [apply list_elem_of_here|done]. }
  specialize (Hx Hq). destruct (search fuel d _ _) as [[p|]|]; cbn [mbind option_bind].
  - destruct Hx as [Hw Hpd]; [cbn; unfold weight; cbn; rewrite Nat.sub_0_r; lia|]. destruct p as [q l]. cbn in Hw, Hpd.
    destruct (walk_route s ns q l Hs Hw) as (ms & n & H1 & H2 & H3 & H4). assert (n = nd) as -> by congruence.
    exists (ms ++ [nd]), (p_length q). split; [unfold path_steps; cbn [fst snd]; by rewrite H1|]. left. split_and!; [|done| |].
    + apply Htc. subst d. by apply (walk_reach s q l).
    + rewrite H4. cbn. f_equal. by apply (ids_inj' src s).
    + rewrite last_snoc. cbn. f_equal. by apply (ids_inj' dst d).
  - exists [], 0. split; [done|]. right. split_and!; try done. rewrite <- Htc. apply Hx. cbn. unfold weight. cbn. rewrite Nat.sub_0_r. lia.
  - exfalso. apply Hx. cbn. unfold weight. cbn. rewrite Nat.sub_0_r. lia.
Qed.
End Path.

#[local] Open Scope string_scope.

Definition detour : option (Graph string string Z) :=
  text_graph ["a"; "b"; "c"] [("a", "b", 10); ("a", "c", 1); ("c", "b", 1)].

Definition detour_graph : Graph string string Z := default NewGraph detour.

Lemma detour_built : built detour_graph.
Proof. apply (text_graph_built ["a"; "b"; "c"] [("a", "b", 10); ("a", "c", 1); ("c", "b", 1)]). vm_compute. reflexivity. Qed.

(** The edges of the example. *)
Lemma detour_edge i j e : edge_at i j detour_graph = Some e -> 0 <= e <= 10.
Proof.
  destruct i as [|[|[|i]]], j as [|[|[|j]]]; vm_compute; intros Hx; try discriminate Hx; injection Hx as <-; split; discriminate.
Qed.

(** The search stops at the first way it sees: of the way of length 10 and the
    one of length 2 it returns the longer. *)
Theorem ShortestPath_not_shortest :
  ShortestPath detour_graph 100 "a" "b" = Some (["a"; "b"], 10) /\ route detour_graph ["a"; "c"; "b"] 2.
Proof.
  split; [vm_compute; reflexivity|].
  assert (route detour_graph ["a"] 0) as H0 by (apply route_one; vm_compute; reflexivity).
  assert (route detour_graph ["a"; "c"] 1) as H1 by (refine (route_snoc detour_graph [] "a" "c" 1 0 H0 _ _); vm_compute; reflexivity).
  refine (route_snoc detour_graph ["a"] "c" "b" 1 1 H1 _ _); vm_compute; reflexivity.
Qed.

Lemma ShortestPath_finds_path_witness : exists l len, ShortestPath detour_graph 100 "a" "b" = Some (l, len) /\ route detour_graph l len.
Proof.
  destruct (ShortestPath_finds_path detour_graph 10 (built_ok _ detour_built) detour_edge ltac:(vm_compute; split; reflexivity) 100 "a" "b")
    as (l & len & H1 & [(_ & H2 & _)|(_ & -> & _)]).
  - vm_compute. by eexists.
  - vm_compute. by eexists.
  - done.
  - apply Nat.ltb_lt. vm_compute. reflexivity.
  - by exists l, len.
  - vm_compute in H1. discriminate H1.
Defined.
